(* ===== verification/_CoqProject ===== *)
-Q . S2P
Prelude.v
Bytes.v
Crc.v
Proto.v
NetTxctr.v
NetReplay.v
NetWire.v
NetPairing.v
NetEpoch.v
NetHandshake.v
Kv.v
KvWp.v
KvLog.v
KvScan.v
KvAppend.v
KvFlip.v
KvMaint.v
KvCommit.v
KvLive.v
KvSpec.v
KvServe.v
KvRam.v
KvStore.v
GwQueue.v
GwRegistry.v
Radio.v
Ccm.v
RadioFrame.v
NetCore.v
Fhss.v
NetAir.v
Bulk.v
NetPair.v
NetLink.v
FhssThm.v
BulkLink.v
Ring.v
Cobs.v
Fingerprint.v
Msg.v
Frame.v
Str.v
Shell.v
RadioEnv.v
ShellEngine.v
ShellSettings.v
ShellStore.v
Flasher.v
FlashBoard.v
FlashChip.v
FlashWp.v
FlashThm.v
FlashPort.v
Mgmt.v
DongleWire.v
Dongle.v
DongleCore.v
DongleThm.v
DongleDemo.v
DongleRun.v
DongleHost.v
DongleList.v
Node.v
NodeDemo.v
NodeThm.v
NodeRun.v
GwTopics.v
GwState.v
GwEngine.v
GwHandle.v
GwCommand.v
GwDemo.v
GwMqtt.v
GwDialog.v
GwSteps.v
GwTraffic.v
GwRpc.v
GwReplay.v
GwNames.v
GwMirror.v
