(* ===== verification/Prelude.v ===== *)
(** * A verification development for the HARDWARIO TOWER firmware and its host-side crates

    The repository builds a battery-powered radio node and its USB gateway: a [no_std] firmware
    (src/firmware) over small pure crates (src/crates) and a host tool (src/cli). This library models
    the crates that decide things - what is stored, sent, accepted, paired, executed - as executable
    definitions, and proves what they promise to each other.

    ** Parts, and the files that model them

    Shared: [Prelude] (this file: results, tactics, hint databases), [Bytes] (byte lists, little-endian
    numbers, 32-bit words, in-place patches), [Str] (Rust's [str]: UTF-8, whitespace, parsing and
    formatting of integers). A byte, [u8]..[u64] or [i32] is a [Z] kept in range by the same wrap or
    saturation the source uses; a [&[u8]] is a [list Z]; [Result] is [result]; a Rust method that
    mutates is a function returning the new state.

    - crates/kv/src/lib.rs, the wear-levelled key-value log in the MCU's data EEPROM. [Kv] has every
      operation over an abstract EEPROM (class [Eeprom]) in a state-and-error monad; [KvWp] is a
      small program logic for that monad whose postconditions also speak of writes torn by a power
      loss; [KvLog] and [KvScan] relate the medium to a list of records; [KvAppend], [KvFlip],
      [KvMaint], [KvCommit], [KvLive] are the lemmas of appends, of compaction (stop-the-world and
      incremental) and of pre-blanking; [KvSpec] states the abstract store (a finite map, and every
      operation old-or-new under power loss); [KvServe] composes operations and power losses into
      histories; [KvRam] is a concrete EEPROM for witnesses.
    - firmware/src/storage.rs. [KvStore] is the [Kv] wrapper with its pending flip plan, [ShellStore]
      the scoped keys.
    - crates/net/src: [NetTxctr] (txctr.rs: transmit counters and their durable watermark),
      [NetReplay] (replay.rs: replay lanes), [NetWire] (addr.rs, nonce.rs, ack.rs), [NetPairing]
      (pairing.rs), [NetEpoch] (epoch.rs, with the scanning step of firmware/src/radio/net/fhss.rs),
      [NetHandshake] (handshake.rs, and both ends of the protocol of
      firmware/src/radio/net/pairing.rs as step functions over received frames and time-outs).
    - crates/radio/src: [Radio] (lib.rs: airtime, the duty-cycle governor, the hop table), [Ccm]
      (ccm.rs: AES-CCM over an abstract block cipher). [RadioFrame] is the frame codec of
      firmware/src/radio/frame.rs on top of it.
    - firmware/src/radio/net. [NetCore] is the network runtime of mod.rs and the keyed join of
      pairing.rs as one record [Net]: boot, send with its repetitions and ACK windows, receive, ACKs,
      the peer table, the application's switches. [Bulk] is bulk.rs, both ends of a bulk transfer.
      [NetAir] is the invariant of what a device has sealed, [NetLink] what two devices promise each
      other through these operations, [BulkLink] what a transfer delivers. [Fhss] is fhss.rs, the US 915
      hopping of the gateway and the node, [FhssThm] what it promises. [NetPair] is the pairing window
      and the joiner of pairing.rs over the same record, and that the window runs the handshake machine.
    - firmware/apps/radio_dongle_gateway.rs, the network coordinator on the USB dongle. [Dongle] has the
      application as one record [App] over [Net], the registry and the downlink queue: every management
      request ([handle_mgmt]), the uplink path, the pairing window, a turn of the main loop
      ([loop_turn]) and the boot; its output is the list of console messages. [DongleCore] is the peer
      table and the queue pool as collections, [DongleThm] the invariant [AppInv] and the step relation
      [astep] every handler is a path of, [DongleRun] what holds from a power-up on, [DongleHost] what the
      answers to the host are, [DongleList] the listings, with the ranges of what the tables hold over a
      life, [DongleWire] the sizes postcard gives their records, [DongleDemo] a store, codecs and a host
      for concrete runs.
    - firmware/apps/radio_push_button.rs, the node. [Node] has its application as one record [NodeApp] over
      [Net] and the hop clock: sends with and without hopping, uplinks with the downlink window and the
      remote shell behind them ([uplink], [on_command]), pairing with its commit round ([pair]), the
      cable's requests, the arms of the main loop ([turn]) and the boot. A step ends as a [Turn]: done, in
      a reset of the device, or watched no longer. [NodeThm] is what every step leaves as it was and the
      relation [runs] of the commands it executes, [NodeRun] what holds from a power-up on, [NodeDemo]
      codecs, a command and a gateway on the air for concrete lives.
    - crates/protocol/src: [Crc] (crc.rs), [Proto] and [Frame] (lib.rs: console frames, their
      encoder and the resynchronising decoder), [Cobs] (the contract of the cobs dependency and a
      reference instance), [Ring] (ring.rs), [Fingerprint] (fingerprint.rs: the schema hashes that
      tag frames), [Msg] (the message types), [RadioEnv] (radio.rs: radio envelopes).
    - crates/gateway/src: [GwQueue] (queue.rs: the downlink pool), [GwRegistry] (registry.rs: the
      bucketed node registry over an abstract store).
    - cli/src/gateway, the gateway service on the host, whose engine is a pure state machine between the
      dongle's serial link, the MQTT broker and the frontend. [Mgmt] is the host's side of the management
      protocol (cli/src/mgmt.rs), [GwTopics] topics.rs and the pure parts of payload.rs, [GwState] the
      record [Engine] with its inputs and outputs; [GwEngine], [GwHandle] and [GwCommand] are engine.rs:
      publications, the request slot and the mirror; the serial frames; commands, the clock and [handle],
      which takes every input. [GwSteps] reduces the handlers to the steps of a small state machine over
      requests and RPCs, [GwTraffic] and [GwRpc] are its guarantees; [GwDialog] follows remote-shell
      dialogs, [GwReplay] published counters, [GwMqtt] which commands run, [GwNames] and [GwMirror] names
      and the registry mirror; [GwDemo] is a small codec for concrete runs.
    - crates/shell/src/lib.rs, firmware/src/shell.rs: [Shell] (the pure kernels), [ShellEngine] (the
      command tree, dispatch, paged streaming over the console and the radio, completion),
      [ShellSettings] (the settings and their commands).
    - crates/flasher/src: [Flasher] (bootloader.rs, target.rs, firmware.rs and the transport-generic
      procedures of flash.rs, rdp.rs and chip.rs: erase, write, verify, probe), [FlashBoard] (port.rs
      and the operations on a whole board), [FlashChip] (fake_stm32.rs: the chip and its ROM boot
      loader byte by byte, the device specification). [FlashWp] is a program logic over chip states
      with the contract of every command, [FlashThm] the theorems on the memory, [FlashPort] those on
      boards and the readout protection.

    ** How the parts interact

    A node boots [KvStore] over the EEPROM, resumes its transmit counter from the watermark
    ([NetTxctr.boot]), derives nonces from the counters ([NetWire.nonce_for]), seals frames ([Ccm],
    [RadioFrame]) and checks them against a replay lane ([NetReplay]); the watermark and the lanes are
    durable because the store is. Interfaces are type classes with laws, so that a client is proved
    once for every implementation: [Eeprom] (the medium of the store), [Postcard] and [Cobs] (codecs),
    [EntryLaws] (the records of listings and their sizes), [AesBlock] (the cipher), [PairPrims] (hashes and key agreement), [MgmtCodec] and [Json] (the bodies of
    requests), [BucketIo] (the registry's store), [AppStore] with [AppStoreLaws] (the dongle's settings), [RadioCodec], [ShellSink] (a response
    transport), [SettingsStore] with [SettingsStoreLaws] (what the shell needs of the store,
    discharged over [KvStore] in [ShellStore]), [NetStore] (the records the network runtime keeps),
    [BulkSource] with [BulkSourceLaws] and [BulkSink] (the two ends of a bulk transfer), [Transport]
    and [Lines] (the flasher's serial port) with [ChipLink] and [BoardLink] (what a cable to a chip may
    lose or cut, and never does).
    In [NetCore] what the radio hears, what becomes of each transmission, the clock and the fate of
    each store write are arguments, so a theorem about a life of a device ([NetLink.nstep],
    [BulkLink.history]) holds whatever they do. [Fhss], [NetPair], [Dongle] and [Node] are written over it
    the same way: [Dongle.loop_turn] takes one [TurnEnv] with all that happens during the turn and [Node.turn]
    one [Event], and a run is a list of them. The engine's [handle] takes one input and the tick of its clock and returns its outputs;
    theorems on it quantify over all inputs, or over every engine [start] and [handle] can reach.

    ** What the theorems show

    - Storage: the log refines a finite map through any sequence of operations and power losses
      ([KvServe]); a set succeeds unless the data does not fit; reading returns the last value set;
      the incremental flip ends; compaction keeps exactly the live records.
    - Radio security: a counter is never used twice across reboots, torn writes and losses of the watermark
      record included, as long as some other record of the store shows that the device was used (without
      one, or with an older watermark record in its place, counters repeat: [unseen_losses_reuse]); a
      session delivers a counter once
      and the replay window is bounded; CCM opens exactly what was sealed; nonces, transcripts and
      hashes of distinct inputs are distinct as encodings; neither end of the pairing protocol stores a
      key without the peer's proof, and an undisturbed run agrees on it.
    - Codecs: frames and envelopes survive a round trip, a decoder accepts exactly the encodings, a
      frame with up to the CRC's guaranteed damage is refused, and the tags follow the schema's structure.
    - Hopping and pairing: a follower keeps the gateway's clock through fades and drift; a data frame that is
      prepared within the master loop's budget ends inside its slot, and one whose counter's write stalls
      longer leaves it unnoticed ([stalled_send_leaves_slot]); whenever the pairing window pairs a node, a
      whole handshake was run and heard, from an ephemeral no earlier request was answered with.
    - Gateway: the pool refines per-node FIFO queues and the bucketed registry a finite map. On the dongle,
      from a power-up and through any run, the radio's peer table and pending flags mirror the registry
      and the queue unless a storage failure was reported, the tables keep their types, and a foreign
      registry is never touched; every request is answered once, listings are complete whatever
      the life before them, the registry's and the queue's caps bounding what the buffers must hold, and
      uplinks are of registered nodes and take the node's oldest waiting item with them.
    - Node: through any life of it the peer table holds the gateway it is provisioned for and nobody else,
      a remote command is never run twice in a row, a pairing that fails leaves keys and store as they
      were, and a hopping send ends.
    - Gateway service: every RPC is answered exactly once and in bounded time, no shell dialog is dropped
      or ends twice, the dongle's inbox never holds two requests, counters published for a node increase,
      only live, fresh, well-formed commands run and a redelivered one is ignored; automatic names are
      free and within the limit, a rename is what a client then finds, a listing replaces the mirror.
    - Shell: every response reaches the console whole and in order although it is paged in windows of
      fixed memory, over the radio it arrives whole or is visibly cut; paging ends even when a handler's
      output drifts; completion fits its frame and offers what the walk accepts; an export replayed on
      another device restores the settings; no remote line changes an address or wipes the store.

    - Flasher: over a cable that may fail at any byte, flashing leaves the old memory, no vector table or
      the whole image, and a success is exactly the image; the whole-chip erase finds the end of flash
      exactly; verifying finds the first difference; a readout-protection change is all or nothing,
      reported truthfully, and opening a protected chip always erases it.

    ** Fuel and bounds

    Loops the source bounds by data carry the same bound as fuel: a scan one unit per word of a half
    (a record takes at least one), a copy or blanking step one per record or word, a push one per byte,
    the paging loop any fuel above the length of the output, the search for a free name one per name in
    use and one more. Loops that end with a deadline (a receive window, the main loop) take the list of
    what happens until then instead. Each fuelled loop has a theorem that this much fuel
    ends the loop, and results are stated without it or as [Some]. Machine widths are written out:
    [wrap16], [wrap32], [sat_add]. The engine's clock is a tick count of a [u64] that does not wrap in the
    life of a process; a deadline that is never reached is [NEVER], its largest value.

    ** Not modelled

    The async executor, hardware drivers, interrupt and critical-section glue, the serial and USB
    threads, the terminal UI, argument parsing, MQTT and TLS of the host tool: they move bytes between
    the modelled parts and peripherals or services. The listen-before-talk band access and the log rate
    limits of the radio, the dongle's status command, the LEDs and console event lines, the drivers of the
    node's sensors and button (their events and readings are arguments), the test rig (hil). Time stamps of publications; log lines and error texts are their
    case and arguments. AES, SHA-256, HMAC, HKDF and X25519, postcard, COBS and serde_json are
    dependencies: class parameters with the laws their documentation gives, each with a concrete
    instance used by the witnesses.

    The USB DFU client of crates/flasher, whose procedures are those of [Flasher] over another transport,
    is the largest part left. *)
From Stdlib Require Export ZArith Lia Bool.
From stdpp Require Export base tactics numbers list option.

(** ** Results of fallible code

    Rust's [Result<A, E>]: [Ok a] or [Err e]. *)
Inductive result (E A : Type) : Type :=
| Ok (a : A)
| Err (e : E).
Arguments Ok {E A} a.
Arguments Err {E A} e.

Definition rbind {E A B} (m : result E A) (k : A -> result E B) : result E B :=
  match m with
  | Ok a => k a
  | Err e => Err e
  end.

Definition rmap_err {E F A} (f : E -> F) (m : result E A) : result F A :=
  match m with
  | Ok a => Ok a
  | Err e => Err (f e)
  end.

Definition ok_or {E A} (e : E) (m : option A) : result E A :=
  match m with
  | Some a => Ok a
  | None => Err e
  end.

Definition is_ok {E A} (m : result E A) : bool :=
  match m with Ok _ => true | Err _ => false end.

Declare Scope tower_scope.
Delimit Scope tower_scope with tower.
Notation "'let?' x ':=' m 'in' k" := (rbind m (fun x => k))
  (at level 10, x pattern, m at level 100, k at level 200,
   format "'[v' 'let?'  x  ':='  m  'in' '/' k ']'") : tower_scope.
#[global] Open Scope tower_scope.
#[global] Open Scope Z_scope.

Lemma rbind_Ok {E A B} (m : result E A) (k : A -> result E B) b :
  rbind m k = Ok b -> exists a, m = Ok a /\ k a = Ok b.
Proof. destruct m; simpl; [eauto | discriminate]. Qed.

(** ** Fallible stateful code

    A [&mut self] method returning [Result]: the state after it, also when it failed (the [?]
    operator leaves the writes made so far in place). *)
Definition M (S E A : Type) : Type := S -> S * result E A.
Definition ret {S E A} (a : A) : M S E A := fun s => (s, Ok a).
Definition fail {S E A} (e : E) : M S E A := fun s => (s, Err e).
Definition bind {S E A B} (m : M S E A) (k : A -> M S E B) : M S E B :=
  fun s => let '(s', r) := m s in
           match r with Ok a => k a s' | Err e => (s', Err e) end.
Definition get_state {S E} : M S E S := fun s => (s, Ok s).
Definition put_state {S E} (s : S) : M S E unit := fun _ => (s, Ok tt).
(** Code on the first component of a pair of states. *)
Definition lift {S T E A} (m : M S E A) : M (S * T) E A :=
  fun '(s, t) => let '(s', r) := m s in ((s', t), r).
(** Reading and assigning the second component, RAM state held next to a store. *)
Definition get_ram {S T E} : M (S * T) E T := fun st => (st, Ok (snd st)).
Definition put_ram {S T E} (t : T) : M (S * T) E unit := fun st => ((fst st, t), Ok tt).
(** A call that works on its own copy of the RAM state, dropped afterwards. *)
Definition with_ram {S T E A} (t : T) (m : M (S * T) E A) : M S E A :=
  fun s => let '((s', _), r) := m (s, t) in (s', r).

Notation "'let!' x ':=' m 'in' k" := (bind m (fun x => k))
  (at level 10, x pattern, m at level 100, k at level 200,
   format "'[v' 'let!'  x  ':='  m  'in' '/' k ']'") : tower_scope.
Notation "m ;;; k" := (bind m (fun _ => k)) (at level 100, right associativity) : tower_scope.

(** ** Tactics *)

(** Turns boolean tests into propositions, in the context and by cases in the goal. *)
Ltac bool_hyps :=
  repeat match goal with
  | H : negb _ = true |- _ => apply negb_true_iff in H
  | H : negb _ = false |- _ => apply negb_false_iff in H
  | H : andb _ _ = true |- _ => apply andb_true_iff in H; destruct H
  | H : orb _ _ = false |- _ => apply orb_false_iff in H; destruct H
  | H : andb _ _ = false |- _ => apply andb_false_iff in H
  | H : orb _ _ = true |- _ => apply orb_true_iff in H
  | H : Z.eqb _ _ = true |- _ => apply Z.eqb_eq in H
  | H : Z.eqb _ _ = false |- _ => apply Z.eqb_neq in H
  | H : Z.ltb _ _ = true |- _ => apply Z.ltb_lt in H
  | H : Z.ltb _ _ = false |- _ => apply Z.ltb_ge in H
  | H : Z.leb _ _ = true |- _ => apply Z.leb_le in H
  | H : Z.leb _ _ = false |- _ => apply Z.leb_gt in H
  | H : bool_decide _ = true |- _ => apply bool_decide_eq_true in H
  | H : bool_decide _ = false |- _ => apply bool_decide_eq_false in H
  end.

(** Splits the goal on the first conditional or match it is stuck on. *)
Ltac split_if :=
  match goal with
  | |- context [if ?b then _ else _] =>
      let H := fresh "Hif" in destruct b eqn:H; bool_hyps
  end.
Ltac split_if_in H :=
  match type of H with
  | context [if ?b then _ else _] =>
      let H' := fresh "Hif" in destruct b eqn:H'; bool_hyps
  end.

(** Inversion that cleans up after itself. *)
Ltac invs H := inversion H; subst; clear H.

(** ** Machine integers

    A [w]-bit unsigned integer is a [Z] in [[0, 2^w)]; wrapping and saturating arithmetic is
    written out. *)
Definition u8_max : Z := 255.
Definition u16_max : Z := 65535.
Definition u32_max : Z := 4294967295.
Definition u64_max : Z := 18446744073709551615.

Definition u8_ok (x : Z) : Prop := 0 <= x <= u8_max.
Definition u16_ok (x : Z) : Prop := 0 <= x <= u16_max.
Definition u32_ok (x : Z) : Prop := 0 <= x <= u32_max.
Definition u64_ok (x : Z) : Prop := 0 <= x <= u64_max.

Definition wrap8 (x : Z) : Z := x mod 256.
Definition wrap16 (x : Z) : Z := x mod 65536.
Definition wrap32 (x : Z) : Z := x mod 4294967296.

(** [saturating_add] / [saturating_sub] / [saturating_mul] of an unsigned width with maximum [m]. *)
Definition sat_add (m a b : Z) : Z := Z.min (a + b) m.
Definition sat_sub (a b : Z) : Z := Z.max (a - b) 0.
Definition sat_mul (m a b : Z) : Z := Z.min (a * b) m.
(** [div_ceil] on unsigned integers. *)
Definition div_ceil (a b : Z) : Z := (a + (b - 1)) / b.
Definition abs_diff (a b : Z) : Z := Z.abs (a - b).

Lemma sat_add_spec m a b :
  (a + b <= m /\ sat_add m a b = a + b) \/ (m < a + b /\ sat_add m a b = m).
Proof. unfold sat_add. lia. Qed.
Lemma sat_mul_spec m a b :
  (a * b <= m /\ sat_mul m a b = a * b) \/ (m < a * b /\ sat_mul m a b = m).
Proof. unfold sat_mul. lia. Qed.
Lemma sat_sub_spec a b : (b <= a /\ sat_sub a b = a - b) \/ (a < b /\ sat_sub a b = 0).
Proof. unfold sat_sub. lia. Qed.
Lemma abs_diff_spec a b : (b <= a /\ abs_diff a b = a - b) \/ (a < b /\ abs_diff a b = b - a).
Proof. unfold abs_diff. lia. Qed.
Lemma machine_consts :
  u8_max = 255 /\ u16_max = 65535 /\ u32_max = 4294967295 /\ u64_max = 18446744073709551615.
Proof. done. Qed.

(** Constants of the components join this database, so that [mlia] sees their values. *)
Create HintDb machine.

Ltac pose_new H :=
  let T := type of H in
  lazymatch goal with
  | _ : T |- _ => fail
  | _ => pose proof H
  end.
(** [lia] on goals about machine integers: the saturating operations and the width constants are
    kept as atoms and described by their specifications. *)
Ltac mlia :=
  autounfold with machine in *; unfold u8_ok, u16_ok, u32_ok, u64_ok in *;
  repeat match goal with
  | |- context [sat_add ?m ?a ?b] => pose_new (sat_add_spec m a b)
  | _ : context [sat_add ?m ?a ?b] |- _ => pose_new (sat_add_spec m a b)
  | |- context [sat_mul ?m ?a ?b] => pose_new (sat_mul_spec m a b)
  | _ : context [sat_mul ?m ?a ?b] |- _ => pose_new (sat_mul_spec m a b)
  | |- context [sat_sub ?a ?b] => pose_new (sat_sub_spec a b)
  | _ : context [sat_sub ?a ?b] |- _ => pose_new (sat_sub_spec a b)
  | |- context [abs_diff ?a ?b] => pose_new (abs_diff_spec a b)
  | _ : context [abs_diff ?a ?b] |- _ => pose_new (abs_diff_spec a b)
  end;
  pose proof machine_consts; lia.

Lemma wrap8_small x : u8_ok x -> wrap8 x = x.
Proof. intros. apply Z.mod_small. mlia. Qed.
Lemma wrap16_small x : u16_ok x -> wrap16 x = x.
Proof. intros. apply Z.mod_small. mlia. Qed.
Lemma wrap32_small x : u32_ok x -> wrap32 x = x.
Proof. intros. apply Z.mod_small. mlia. Qed.
Lemma wrap8_ok x : u8_ok (wrap8 x).
Proof. unfold wrap8. pose proof (Z.mod_pos_bound x 256). mlia. Qed.
Lemma wrap16_ok x : u16_ok (wrap16 x).
Proof. unfold wrap16. pose proof (Z.mod_pos_bound x 65536). mlia. Qed.
Lemma wrap32_ok x : u32_ok (wrap32 x).
Proof. unfold wrap32. pose proof (Z.mod_pos_bound x 4294967296). mlia. Qed.

Lemma div_ceil_spec a b : 0 < b -> b * (div_ceil a b - 1) < a <= b * div_ceil a b.
Proof.
  intros Hb. unfold div_ceil.
  pose proof (Z.div_mod (a + (b - 1)) b ltac:(lia)).
  pose proof (Z.mod_pos_bound (a + (b - 1)) b Hb). nia.
Qed.

Create HintDb tower discriminated.
#[export] Hint Resolve wrap8_ok wrap16_ok wrap32_ok : tower.
Create Rewrite HintDb wrap.
#[export] Hint Rewrite wrap8_small wrap16_small wrap32_small using (auto with tower; mlia) : wrap.

(** ** Lists *)

Lemma filter_ext_Forall {A} (P Q : A -> Prop) `{!forall x, Decision (P x), !forall x, Decision (Q x)} l :
  Forall (fun x => P x <-> Q x) l -> filter P l = filter Q l.
Proof.
  induction 1 as [|x l Hx Hl IH]; [done|].
  destruct (decide (P x)).
  - rewrite !filter_cons_True by tauto. by rewrite IH.
  - rewrite !filter_cons_False by tauto. done.
Qed.
