(* ===== verification/Bytes.v ===== *)
(** Byte strings: a byte is a [Z] in [[0, 256)], a buffer a [list Z] indexed by [Z] offsets.
    Slices, in-place writes, little/big-endian integer codecs and their laws, shared by every
    component that touches a wire or EEPROM layout. *)
From S2P Require Import Prelude.

Definition byte_ok (b : Z) : Prop := 0 <= b <= 255.
Definition bytes_ok (l : list Z) : Prop := Forall byte_ok l.

(** [slice.len()]. *)
Definition zlen {A} (l : list A) : Z := Z.of_nat (length l).
(** [&l[o .. o + n]] (for an in-range slice; Rust panics outside). *)
Definition slice {A} (l : list A) (o n : Z) : list A :=
  take (Z.to_nat n) (drop (Z.to_nat o) l).
(** [l[o .. o + d.len()].copy_from_slice(d)] (for an in-range span). *)
Definition patch {A} (l : list A) (o : Z) (d : list A) : list A :=
  take (Z.to_nat o) l ++ d ++ drop (Z.to_nat o + length d) l.
(** [l[i]] on bytes, 0 out of range (the callers index in range). *)
Definition byte_at (l : list Z) (i : Z) : Z := nth (Z.to_nat i) l 0.
(** [[0u8; n]]. *)
Definition zeros (n : Z) : list Z := replicate (Z.to_nat n) 0.

Lemma zlen_nonneg {A} (l : list A) : 0 <= zlen l.
Proof. unfold zlen. lia. Qed.
Lemma zlen_nil {A} : zlen (@nil A) = 0.
Proof. reflexivity. Qed.
Lemma zlen_cons {A} (x : A) l : zlen (x :: l) = 1 + zlen l.
Proof. unfold zlen. simpl. lia. Qed.
Lemma zlen_app {A} (l k : list A) : zlen (l ++ k) = zlen l + zlen k.
Proof. unfold zlen. rewrite length_app. lia. Qed.
Lemma zlen_zeros n : 0 <= n -> zlen (zeros n) = n.
Proof. intros. unfold zlen, zeros. rewrite length_replicate. lia. Qed.
Lemma zlen_to_nat {A} (l : list A) : Z.to_nat (zlen l) = length l.
Proof. unfold zlen. lia. Qed.
Lemma zlen_0 {A} (l : list A) : zlen l = 0 -> l = [].
Proof. destruct l; [done|]. rewrite zlen_cons. pose proof (zlen_nonneg l). lia. Qed.
Lemma zlen_slice {A} (l : list A) o n :
  0 <= o -> 0 <= n -> o + n <= zlen l -> zlen (slice l o n) = n.
Proof. unfold zlen, slice. rewrite length_take, length_drop. lia. Qed.
Lemma zlen_slice_le {A} (l : list A) o n : 0 <= n -> zlen (slice l o n) <= n.
Proof. unfold zlen, slice. rewrite length_take, length_drop. lia. Qed.
Lemma zlen_patch {A} (l : list A) o d :
  0 <= o -> o + zlen d <= zlen l -> zlen (patch l o d) = zlen l.
Proof.
  unfold zlen, patch. rewrite !length_app, length_take, length_drop. lia.
Qed.

Create Rewrite HintDb zlen.
#[export] Hint Rewrite @zlen_nil @zlen_cons @zlen_app : zlen.
#[export] Hint Rewrite @zlen_slice @zlen_patch zlen_zeros using
  (autorewrite with zlen; try lia) : zlen.
(** Normalises lengths, then [lia]. *)
Ltac zl := autorewrite with zlen in *;
  repeat match goal with
  | l : list _ |- _ =>
      lazymatch goal with
      | H : 0 <= zlen l |- _ => fail
      | _ => pose proof (zlen_nonneg l)
      end
  end; try lia.

(** *** Slices and patches, pointwise *)

Lemma lookup_slice {A} (l : list A) o n i :
  slice l o n !! i = if decide (i < Z.to_nat n)%nat then l !! (Z.to_nat o + i)%nat else None.
Proof.
  unfold slice. case_decide.
  - rewrite lookup_take_lt by lia. apply lookup_drop.
  - apply lookup_take_ge. lia.
Qed.

Lemma lookup_patch {A} (l : list A) o d i :
  (Z.to_nat o + length d <= length l)%nat ->
  patch l o d !! i =
    if decide (i < Z.to_nat o)%nat then l !! i
    else if decide (i < Z.to_nat o + length d)%nat then d !! (i - Z.to_nat o)%nat
    else l !! i.
Proof.
  intros Hle. unfold patch.
  assert (Ht : length (take (Z.to_nat o) l) = Z.to_nat o) by (rewrite length_take; lia).
  repeat case_decide.
  - rewrite lookup_app_l by lia. apply lookup_take_lt; lia.
  - rewrite lookup_app_r, Ht by lia. apply lookup_app_l; lia.
  - rewrite lookup_app_r, Ht, lookup_app_r, lookup_drop by lia. f_equal. lia.
Qed.

Ltac list_pw := apply list_eq; intros ?i; repeat
  (first [rewrite lookup_slice | rewrite lookup_patch by (unfold zlen in *; lia)]; repeat case_decide);
  try done; try (unfold zlen in *; lia); try (f_equal; unfold zlen in *; lia).

Lemma slice_patch_same {A} (l : list A) o d :
  0 <= o -> o + zlen d <= zlen l -> slice (patch l o d) o (zlen d) = d.
Proof.
  intros. list_pw. symmetry. apply lookup_ge_None. unfold zlen in *. lia.
Qed.
Lemma slice_patch_other {A} (l : list A) o d o' n :
  0 <= o -> 0 <= o' -> 0 <= n -> o + zlen d <= zlen l ->
  o' + n <= o \/ o + zlen d <= o' ->
  slice (patch l o d) o' n = slice l o' n.
Proof. intros ???? [|]; list_pw. Qed.
Lemma slice_slice {A} (l : list A) o n o' n' :
  0 <= o -> 0 <= o' -> 0 <= n' -> o' + n' <= n ->
  slice (slice l o n) o' n' = slice l (o + o') n'.
Proof. intros. list_pw. Qed.
Lemma slice_patch_in {A} (l : list A) o d o' n' :
  0 <= o -> 0 <= o' -> o' <= o -> o + zlen d <= o' + n' -> o' + n' <= zlen l ->
  slice (patch l o d) o' n' = patch (slice l o' n') (o - o') d.
Proof.
  intros. pose proof (zlen_nonneg d).
  assert (zlen (slice l o' n') = n') by (apply zlen_slice; lia). list_pw.
Qed.
Lemma patch_patch_same {A} (l : list A) o d d' :
  0 <= o -> zlen d = zlen d' -> o + zlen d <= zlen l ->
  patch (patch l o d) o d' = patch l o d'.
Proof.
  intros. assert (zlen (patch l o d) = zlen l) by (apply zlen_patch; lia). list_pw.
Qed.
Lemma patch_slice_id {A} (l : list A) o n :
  0 <= o -> 0 <= n -> o + n <= zlen l -> patch l o (slice l o n) = l.
Proof.
  intros. assert (zlen (slice l o n) = n) by (apply zlen_slice; lia). list_pw.
Qed.
Lemma patch_split {A} (l : list A) o d d' :
  0 <= o -> o + zlen (d ++ d') <= zlen l ->
  patch l o (d ++ d') = patch (patch l o d) (o + zlen d) d'.
Proof.
  intros. rewrite zlen_app in *. pose proof (zlen_nonneg d'). assert (zlen (patch l o d) = zlen l) by (apply zlen_patch; lia).
  apply list_eq; intros i.
  rewrite !lookup_patch by (rewrite ?length_app; unfold zlen in *; lia).
  rewrite length_app.
  repeat case_decide; try done; try (unfold zlen in *; lia).
  - apply lookup_app_l; lia.
  - unfold zlen in *. rewrite lookup_app_r by lia. f_equal. lia.
Qed.
Lemma patch_comm {A} (l : list A) o d o' d' :
  0 <= o -> 0 <= o' -> o + zlen d <= o' -> o' + zlen d' <= zlen l ->
  patch (patch l o d) o' d' = patch (patch l o' d') o d.
Proof.
  intros. pose proof (zlen_nonneg d). pose proof (zlen_nonneg d').
  assert (zlen (patch l o d) = zlen l) by (apply zlen_patch; lia).
  assert (zlen (patch l o' d') = zlen l) by (apply zlen_patch; lia). list_pw.
Qed.
(** Writing through a sub-slice. *)
Lemma patch_patch_slice {A} (l : list A) o n o' d :
  0 <= o -> 0 <= n -> 0 <= o' -> o + n <= zlen l -> o' + zlen d <= n ->
  patch l o (patch (slice l o n) o' d) = patch l (o + o') d.
Proof.
  intros. pose proof (zlen_nonneg d). assert (zlen (slice l o n) = n) by (apply zlen_slice; lia).
  assert (zlen (patch (slice l o n) o' d) = n) by (rewrite zlen_patch; lia). list_pw.
Qed.
Lemma patch_nil {A} (l : list A) o : patch l o [] = l.
Proof. unfold patch. simpl. rewrite Nat.add_0_r. apply take_drop. Qed.
Lemma slice_0 {A} (l : list A) o : slice l o 0 = [].
Proof. reflexivity. Qed.
Lemma slice_all {A} (l : list A) : slice l 0 (zlen l) = l.
Proof. unfold slice, zlen. simpl. rewrite drop_0, Nat2Z.id. apply take_ge. lia. Qed.
Lemma slice_split {A} (l : list A) o n m :
  0 <= o -> 0 <= n -> 0 <= m -> slice l o (n + m) = slice l o n ++ slice l (o + n) m.
Proof.
  intros. unfold slice. rewrite Z2Nat.inj_add, Z2Nat.inj_add by lia.
  rewrite <- drop_drop. set (k := drop (Z.to_nat o) l).
  rewrite <- (take_drop (Z.to_nat n) k) at 1.
  destruct (decide (Z.to_nat n <= length k)%nat).
  - rewrite take_app_ge by (rewrite length_take; lia).
    f_equal. rewrite length_take. f_equal. lia.
  - rewrite !(take_ge k), !(drop_ge k) by lia. rewrite app_nil_r, take_ge by lia.
    by rewrite take_nil, app_nil_r.
Qed.
Lemma slice_app_l {A} (l k : list A) : slice (l ++ k) 0 (zlen l) = l.
Proof. unfold slice, zlen. simpl. rewrite drop_0, Nat2Z.id. by rewrite take_app_length. Qed.
Lemma slice_app_r {A} (l k : list A) o n :
  zlen l <= o -> slice (l ++ k) o n = slice k (o - zlen l) n.
Proof.
  intros. unfold slice. rewrite drop_app_ge by (unfold zlen in *; lia).
  do 2 f_equal. unfold zlen in *. lia.
Qed.
Lemma slice_app_in {A} (l k : list A) o n :
  0 <= o -> 0 <= n -> o + n <= zlen l -> slice (l ++ k) o n = slice l o n.
Proof.
  intros. list_pw. rewrite lookup_app_l; [done|]. unfold zlen in *; lia.
Qed.
Lemma slice_app_mid {A} (l k r : list A) : slice (l ++ k ++ r) (zlen l) (zlen k) = k.
Proof. rewrite slice_app_r, Z.sub_diag by lia. apply slice_app_l. Qed.

(** *** Byte validity *)

Lemma bytes_ok_app l k : bytes_ok (l ++ k) <-> bytes_ok l /\ bytes_ok k.
Proof. apply Forall_app. Qed.
Lemma bytes_ok_zeros n : bytes_ok (zeros n).
Proof. apply Forall_replicate. unfold byte_ok. lia. Qed.
Lemma bytes_ok_slice l o n : bytes_ok l -> bytes_ok (slice l o n).
Proof. intros. by apply Forall_take, Forall_drop. Qed.
Lemma bytes_ok_patch l o d : bytes_ok l -> bytes_ok d -> bytes_ok (patch l o d).
Proof.
  intros. unfold patch. apply bytes_ok_app; split; [by apply Forall_take|].
  apply bytes_ok_app; split; [done | by apply Forall_drop].
Qed.
#[export] Hint Resolve bytes_ok_zeros bytes_ok_slice bytes_ok_patch : tower.

(** A boolean check, for concrete byte strings. *)
Definition bytes_okb (l : list Z) : bool := forallb (fun b => (0 <=? b) && (b <=? 255)) l.
Lemma bytes_okb_ok l : bytes_okb l = true -> bytes_ok l.
Proof.
  intros H. apply List.Forall_forall. intros b Hb. unfold bytes_okb in H. rewrite List.forallb_forall in H.
  specialize (H b Hb). bool_hyps. unfold byte_ok. lia.
Qed.

(** *** Integer codecs *)

(** [to_le_bytes] of an [8 * n]-bit integer. *)
Fixpoint le_bytes (n : nat) (v : Z) : list Z :=
  match n with
  | O => []
  | S n => v mod 256 :: le_bytes n (v / 256)
  end.
(** [from_le_bytes]. *)
Fixpoint le_val (l : list Z) : Z :=
  match l with
  | [] => 0
  | b :: l => b + 256 * le_val l
  end.
(** [to_be_bytes] / [from_be_bytes]. *)
Definition be_bytes (n : nat) (v : Z) : list Z := reverse (le_bytes n v).
Definition be_val (l : list Z) : Z := le_val (reverse l).

Lemma length_le_bytes n v : length (le_bytes n v) = n.
Proof. revert v; induction n; simpl; auto. Qed.
Lemma zlen_le_bytes n v : zlen (le_bytes n v) = Z.of_nat n.
Proof. unfold zlen. by rewrite length_le_bytes. Qed.
#[export] Hint Rewrite zlen_le_bytes : zlen.
Lemma le_bytes_ok n v : bytes_ok (le_bytes n v).
Proof.
  revert v; induction n as [|n IHn]; intros; [constructor|]. constructor; [|apply IHn].
  pose proof (Z.mod_pos_bound v 256). unfold byte_ok. lia.
Qed.
#[export] Hint Resolve le_bytes_ok : tower.
Lemma le_val_le_bytes_mod n v : le_val (le_bytes n v) = v mod 256 ^ Z.of_nat n.
Proof.
  revert v; induction n as [|n IH]; intros v; simpl le_val.
  - by rewrite Z.mod_1_r.
  - rewrite IH, Nat2Z.inj_succ, Z.pow_succ_r by lia.
    rewrite Z.rem_mul_r by (try apply Z.pow_nonzero; try apply Z.pow_pos_nonneg; lia). lia.
Qed.
Lemma le_val_le_bytes n v : 0 <= v < 256 ^ Z.of_nat n -> le_val (le_bytes n v) = v.
Proof. intros. rewrite le_val_le_bytes_mod. by apply Z.mod_small. Qed.
Lemma le_val_bound l : bytes_ok l -> 0 <= le_val l < 256 ^ zlen l.
Proof.
  induction 1 as [|b l Hb ? IH]; [done|]. unfold byte_ok in Hb.
  rewrite zlen_cons, Z.pow_add_r by zl. simpl. lia.
Qed.
Lemma le_bytes_le_val l : bytes_ok l -> le_bytes (length l) (le_val l) = l.
Proof.
  induction 1 as [|b l Hb ? IH]; [done|]. unfold byte_ok in Hb. simpl.
  rewrite Z.mul_comm, Z.mod_add, Z.div_add, Z.mod_small, Z.div_small, Z.add_0_l, IH by lia. done.
Qed.
Lemma le_val_inj l k : bytes_ok l -> bytes_ok k -> zlen l = zlen k -> le_val l = le_val k -> l = k.
Proof.
  intros Hl Hk Hlen He. rewrite <- (le_bytes_le_val l), <- (le_bytes_le_val k) by done.
  rewrite He. f_equal. unfold zlen in *. lia.
Qed.
Lemma le_bytes_inj n v w :
  0 <= v < 256 ^ Z.of_nat n -> 0 <= w < 256 ^ Z.of_nat n -> le_bytes n v = le_bytes n w -> v = w.
Proof. intros Hv Hw He. by rewrite <- (le_val_le_bytes n v), He, le_val_le_bytes. Qed.
Lemma le_val_zeros n : le_val (zeros n) = 0.
Proof. unfold zeros. induction (Z.to_nat n); simpl; lia. Qed.
Lemma le_val_0 l : bytes_ok l -> le_val l = 0 -> l = zeros (zlen l).
Proof.
  intros. apply le_val_inj; auto with tower; zl. by rewrite le_val_zeros.
Qed.
Lemma le_val_app l k : le_val (l ++ k) = le_val l + 256 ^ zlen l * le_val k.
Proof.
  induction l as [|b l IH]; [change (zlen []) with 0; simpl; lia|].
  simpl. rewrite IH, zlen_cons, Z.pow_add_r by zl. lia.
Qed.
Lemma zlen_be_bytes n v : zlen (be_bytes n v) = Z.of_nat n.
Proof. unfold be_bytes, zlen. by rewrite length_reverse, length_le_bytes. Qed.
#[export] Hint Rewrite zlen_be_bytes : zlen.
Lemma be_bytes_inj n v w :
  0 <= v < 256 ^ Z.of_nat n -> 0 <= w < 256 ^ Z.of_nat n -> be_bytes n v = be_bytes n w -> v = w.
Proof. intros ?? He%(inj reverse). by eapply le_bytes_inj. Qed.

(** The concrete widths, so that proofs do not meet [256 ^ n]. *)
Lemma le_val_u16 v : u16_ok v -> le_val (le_bytes 2 v) = v.
Proof. intros. apply le_val_le_bytes. change (256 ^ Z.of_nat 2) with 65536. mlia. Qed.
Lemma le_val_u32 v : u32_ok v -> le_val (le_bytes 4 v) = v.
Proof. intros. apply le_val_le_bytes. change (256 ^ Z.of_nat 4) with 4294967296. mlia. Qed.
Lemma u32_bytes_inj v w : u32_ok v -> u32_ok w -> le_bytes 4 v = le_bytes 4 w -> v = w.
Proof. intros ?? He. by rewrite <- (le_val_u32 v), He, le_val_u32. Qed.
Lemma u16_bytes_inj v w : u16_ok v -> u16_ok w -> le_bytes 2 v = le_bytes 2 w -> v = w.
Proof. intros ?? He. by rewrite <- (le_val_u16 v), He, le_val_u16. Qed.
Lemma le_val_u32_ok l : bytes_ok l -> zlen l = 4 -> u32_ok (le_val l).
Proof. intros H Hl. apply le_val_bound in H. rewrite Hl in H.
  change (256 ^ 4) with 4294967296 in H. mlia. Qed.
Lemma le_val_u16_ok l : bytes_ok l -> zlen l = 2 -> u16_ok (le_val l).
Proof. intros H Hl. apply le_val_bound in H. rewrite Hl in H.
  change (256 ^ 2) with 65536 in H. mlia. Qed.

(** *** Bits of machine words *)

Lemma pow2_testbit n x : 0 <= n -> 0 <= x < 2 ^ n <-> 0 <= x /\ forall i, n <= i -> Z.testbit x i = false.
Proof.
  intros Hn. split.
  - intros Hx. split; [lia|]. intros i Hi. destruct (Z.eq_dec x 0) as [->|]; [apply Z.bits_0|].
    apply Z.bits_above_log2; [lia|]. enough (Z.log2 x < n) by lia. apply Z.log2_lt_pow2; lia.
  - intros [H0 Hb]. split; [done|]. destruct (decide (x = 0)) as [->|]; [by apply Z.pow_pos_nonneg|].
    apply Z.log2_lt_pow2; [lia|]. destruct (decide (Z.log2 x < n)); [done|].
    specialize (Hb (Z.log2 x) ltac:(lia)). by rewrite Z.bit_log2 in Hb by lia.
Qed.
Lemma pow2_lxor n a b : 0 <= n -> 0 <= a < 2 ^ n -> 0 <= b < 2 ^ n -> 0 <= Z.lxor a b < 2 ^ n.
Proof.
  intros Hn. rewrite !pow2_testbit by done. intros [Ha Ha'] [Hb Hb']. split; [by apply Z.lxor_nonneg|].
  intros i Hi. by rewrite Z.lxor_spec, Ha', Hb'.
Qed.
Lemma u32_pow2 x : u32_ok x <-> 0 <= x < 2 ^ 32.
Proof. unfold u32_ok, u32_max. change (2 ^ 32) with 4294967296. lia. Qed.
Lemma u32_testbit x : u32_ok x <-> 0 <= x /\ forall i, 32 <= i -> Z.testbit x i = false.
Proof. by rewrite u32_pow2, pow2_testbit. Qed.
Lemma u32_lxor a b : u32_ok a -> u32_ok b -> u32_ok (Z.lxor a b).
Proof. rewrite !u32_pow2. by apply pow2_lxor. Qed.
#[export] Hint Resolve u32_lxor : tower.
Lemma lxor_inj_r a b c : Z.lxor a c = Z.lxor b c -> a = b.
Proof.
  intros He. rewrite <- (Z.lxor_0_r a), <- (Z.lxor_0_r b), <- (Z.lxor_nilpotent c).
  by rewrite <- !Z.lxor_assoc, He.
Qed.
Lemma lxor_cancel_l a b c : Z.lxor a b = Z.lxor a c -> b = c.
Proof. rewrite !(Z.lxor_comm a). apply lxor_inj_r. Qed.

(** *** Byte-wise xor and constant-time comparison *)

Definition xor_bytes (a b : list Z) : list Z := zip_with Z.lxor a b.

(** [a.iter().zip(b).fold(0, |acc, (x, y)| acc | (x ^ y))]. *)
Definition or_diff (a b : list Z) : Z := fold_left (fun acc d => Z.lor acc d) (xor_bytes a b) 0.

(** Bits put next to each other. *)
Lemma lor_shiftl_add a b n : 0 <= n -> 0 <= b < 2 ^ n -> Z.lor (Z.shiftl a n) b = a * 2 ^ n + b.
Proof.
  intros Hn Hb. rewrite <- Z.shiftl_mul_pow2 by lia.
  assert (Hl : Z.land (Z.shiftl a n) b = 0).
  { apply Z.bits_inj'. intros i Hi. rewrite Z.land_spec, Z.bits_0. destruct (Z.lt_ge_cases i n).
    - by rewrite Z.shiftl_spec_low.
    - rewrite <- (Z.mod_small b (2 ^ n)), Z.mod_pow2_bits_high, andb_false_r by lia. done. }
  rewrite Z.add_nocarry_lxor by done. by rewrite Z.lxor_lor.
Qed.
Lemma fold_lor_0 l acc :
  0 <= acc -> Forall (fun d => 0 <= d) l -> fold_left (fun a d => Z.lor a d) l acc = 0 ->
  acc = 0 /\ Forall (eq 0) l.
Proof.
  intros Hacc Hl. revert acc Hacc. induction Hl as [|d l Hd Hl IH]; simpl; intros acc Hacc H; [done|].
  apply IH in H as [H ?]; [|by apply Z.lor_nonneg].
  apply Z.lor_eq_0_iff in H as [-> ->]. split; [done | by constructor].
Qed.

Lemma or_diff_eq a b :
  bytes_ok a -> bytes_ok b -> length a = length b -> or_diff a b = 0 <-> a = b.
Proof.
  intros Ha Hb Hlen. unfold or_diff, xor_bytes. split.
  - intros H. apply fold_lor_0 in H as [_ H]; [|done|].
    + revert b Hb Hlen H. induction Ha as [|x a Hx Ha IH]; intros [|y b] Hb Hlen H; try done.
      apply Forall_cons_1 in H as [Hxy H]. apply Forall_cons_1 in Hb as [Hy Hb].
      symmetry in Hxy. apply Z.lxor_eq in Hxy as ->. f_equal. apply IH; auto.
    + clear H. revert b Hb Hlen. induction Ha as [|x a Hx Ha IH]; intros [|y b] Hb Hlen; try done.
      apply Forall_cons_1 in Hb as [Hy Hb]. constructor; [|apply IH; auto].
      apply Z.lxor_nonneg. unfold byte_ok in *. lia.
  - intros <-. clear. induction a as [|x a IH]; [done|]. simpl. by rewrite Z.lxor_nilpotent.
Qed.

(** *** Filling a zeroed buffer from the front *)

Lemma drop_zeros k n : 0 <= k <= n -> drop (Z.to_nat k) (zeros n) = zeros (n - k).
Proof. intros. unfold zeros. rewrite drop_replicate. f_equal. lia. Qed.
Lemma patch_append (a : list Z) n d :
  zlen d <= n -> patch (a ++ zeros n) (zlen a) d = a ++ d ++ zeros (n - zlen d).
Proof.
  intros Hd. pose proof (zlen_nonneg d). unfold patch. rewrite zlen_to_nat.
  rewrite take_app_length, drop_app_ge by lia. do 2 f_equal.
  replace (length a + length d - length a)%nat with (Z.to_nat (zlen d)) by (rewrite zlen_to_nat; lia).
  apply drop_zeros. lia.
Qed.
Lemma zeros_split n m : 0 <= n -> 0 <= m -> zeros (n + m) = zeros n ++ zeros m.
Proof. intros. unfold zeros. rewrite Z2Nat.inj_add by lia. apply replicate_add. Qed.
Lemma slice_zeros o n m : 0 <= o -> 0 <= n -> o + n <= m -> slice (zeros m) o n = zeros n.
Proof.
  intros. unfold slice. rewrite drop_zeros by lia. unfold zeros. rewrite take_replicate. f_equal. lia.
Qed.
