(* ===== verification/Crc.v ===== *)
(** CRC-32/IEEE, the integrity primitive shared by the console frames and the EEPROM store
    (crates/protocol/src/crc.rs): the bitwise update, the one-shot, and what the store and the
    framing rely on: the update folds over concatenation, is a bijection of the running value,
    and distinguishes any two equal-length messages that differ in at most four adjacent bytes. *)
From S2P Require Import Prelude Bytes.

Definition poly : Z := 0xEDB88320.

(** [(crc & 1).wrapping_neg()]. *)
Definition crc_mask (crc : Z) : Z := wrap32 (- Z.land crc 1).
(** One iteration of the inner [for _ in 0..8]. *)
Definition crc_bit (crc : Z) : Z :=
  Z.lxor (Z.shiftr crc 1) (Z.land poly (crc_mask crc)).
(** The body of the outer loop. *)
Definition crc_byte (crc byte : Z) : Z := Nat.iter 8 crc_bit (Z.lxor crc byte).
Definition crc32_update (crc : Z) (data : list Z) : Z := fold_left crc_byte data crc.
(** [!x] on u32 is [x ^ 0xFFFF_FFFF]. *)
Definition crc32_ieee (data : list Z) : Z := Z.lxor (crc32_update u32_max data) u32_max.

Example crc32_check_value :
  crc32_ieee [0x31; 0x32; 0x33; 0x34; 0x35; 0x36; 0x37; 0x38; 0x39] = 0xCBF43926.
Proof. reflexivity. Qed.

(** *** The bit step *)

Lemma crc_bit_eq c : crc_bit c = Z.lxor (Z.shiftr c 1) (if Z.testbit c 0 then poly else 0).
Proof.
  unfold crc_bit, crc_mask. f_equal.
  change 1 with (Z.ones 1) at 1. rewrite Z.land_ones, Z.bit0_odd by lia.
  change (2 ^ 1) with 2. rewrite Zmod_odd. destruct (Z.odd c); reflexivity.
Qed.

Lemma crc_bit_ok c : u32_ok c -> u32_ok (crc_bit c).
Proof.
  intros Hc. rewrite crc_bit_eq. apply u32_lxor.
  - unfold u32_ok in *. rewrite Z.shiftr_div_pow2 by lia.
    pose proof (Z.div_le_upper_bound c 2 u32_max). pose proof (Z.div_pos c 2).
    change (2 ^ 1) with 2. mlia.
  - destruct (Z.testbit c 0); unfold poly; mlia.
Qed.

Lemma crc_bit_lxor a b : crc_bit (Z.lxor a b) = Z.lxor (crc_bit a) (crc_bit b).
Proof.
  rewrite !crc_bit_eq, Z.shiftr_lxor, Z.lxor_spec.
  apply Z.bits_inj'. intros i Hi. rewrite !Z.lxor_spec.
  destruct (Z.testbit a 0), (Z.testbit b 0); simpl xorb; rewrite ?Z.bits_0;
    destruct (Z.testbit (Z.shiftr a 1) i), (Z.testbit (Z.shiftr b 1) i), (Z.testbit poly i); done.
Qed.

Lemma crc_bit_double y : crc_bit (2 * y) = y.
Proof.
  rewrite crc_bit_eq, Z.testbit_even_0, Z.lxor_0_r, Z.shiftr_div_pow2 by lia.
  change (2 ^ 1) with 2. rewrite Z.mul_comm. by apply Z.div_mul.
Qed.

(** The inverse of [crc_bit] on u32: bit 31 of the result is bit 0 of the argument. *)
Definition crc_unbit (r : Z) : Z :=
  if Z.testbit r 31 then 2 * Z.lxor r poly + 1 else 2 * r.

Lemma crc_unbit_bit c : u32_ok c -> crc_unbit (crc_bit c) = c.
Proof.
  intros Hc. pose proof Hc as [_ Hb]%u32_testbit.
  assert (H31 : Z.testbit (Z.shiftr c 1) 31 = false)
    by (rewrite Z.shiftr_spec by lia; apply Hb; lia).
  unfold crc_unbit. rewrite crc_bit_eq, Z.lxor_spec, H31.
  pose proof (Z.div2_odd c) as Hd. rewrite Z.div2_spec in Hd. rewrite Z.bit0_odd.
  destruct (Z.odd c); simpl Z.b2z in Hd.
  - change (Z.testbit poly 31) with true. simpl xorb.
    rewrite Z.lxor_assoc, Z.lxor_nilpotent, Z.lxor_0_r. lia.
  - rewrite Z.bits_0, Z.lxor_0_r. simpl. lia.
Qed.

Lemma crc_bit_inj a b : u32_ok a -> u32_ok b -> crc_bit a = crc_bit b -> a = b.
Proof. intros Ha Hb He. by rewrite <- (crc_unbit_bit a), He, crc_unbit_bit. Qed.

Lemma iter_crc_bit_ok n c : u32_ok c -> u32_ok (Nat.iter n crc_bit c).
Proof. intros. induction n; simpl; auto using crc_bit_ok. Qed.
Lemma iter_crc_bit_inj n a b :
  u32_ok a -> u32_ok b -> Nat.iter n crc_bit a = Nat.iter n crc_bit b -> a = b.
Proof.
  intros Ha Hb. induction n as [|n IH]; simpl; [done|].
  intros He. apply IH, crc_bit_inj; auto using iter_crc_bit_ok.
Qed.
Lemma iter_crc_bit_lxor n a b :
  Nat.iter n crc_bit (Z.lxor a b) = Z.lxor (Nat.iter n crc_bit a) (Nat.iter n crc_bit b).
Proof. induction n as [|n IH]; simpl; [done|]. by rewrite IH, crc_bit_lxor. Qed.
Lemma iter_crc_bit_shift n y : Nat.iter n crc_bit (2 ^ Z.of_nat n * y) = y.
Proof.
  revert y. induction n as [|n IH]; intros y; [simpl; lia|].
  rewrite Nat.iter_succ_r, Nat2Z.inj_succ, Z.pow_succ_r, <- Z.mul_assoc, crc_bit_double by lia.
  apply IH.
Qed.

(** *** The byte and message updates *)

Lemma byte_u32 b : byte_ok b -> u32_ok b.
Proof. unfold byte_ok. mlia. Qed.
#[export] Hint Resolve byte_u32 : tower.

Lemma crc_byte_ok c b : u32_ok c -> byte_ok b -> u32_ok (crc_byte c b).
Proof. intros. apply iter_crc_bit_ok. auto with tower. Qed.
Lemma crc_byte_inj c c' b :
  u32_ok c -> u32_ok c' -> byte_ok b -> crc_byte c b = crc_byte c' b -> c = c'.
Proof.
  unfold crc_byte. intros Hc Hc' Hb He. apply (iter_crc_bit_inj 8) in He; auto with tower.
  by apply lxor_inj_r in He.
Qed.
Lemma crc32_update_cons c b d : crc32_update c (b :: d) = crc32_update (crc_byte c b) d.
Proof. reflexivity. Qed.
Lemma crc32_update_ok c d : u32_ok c -> bytes_ok d -> u32_ok (crc32_update c d).
Proof.
  intros Hc Hd. revert c Hc. induction Hd as [|b d Hb Hd IH]; intros c Hc; [done|].
  rewrite crc32_update_cons. auto using crc_byte_ok.
Qed.
#[export] Hint Resolve crc32_update_ok : tower.

Lemma crc32_update_app c d e : crc32_update c (d ++ e) = crc32_update (crc32_update c d) e.
Proof. apply fold_left_app. Qed.

Lemma crc32_update_inj_state c c' d :
  u32_ok c -> u32_ok c' -> bytes_ok d -> crc32_update c d = crc32_update c' d -> c = c'.
Proof.
  intros Hc Hc' Hd. revert c c' Hc Hc'. induction Hd as [|b d Hb Hd IH]; intros c c' Hc Hc'; [done|].
  rewrite !crc32_update_cons. intros He%IH; auto using crc_byte_ok.
  eauto using crc_byte_inj.
Qed.

(** [n] bit steps consume the low [n] bits and leave the rest of the operand untouched. *)
Lemma iter_crc_bit_feed n c b v :
  0 <= b < 2 ^ Z.of_nat n ->
  Nat.iter n crc_bit (Z.lxor c (b + 2 ^ Z.of_nat n * v)) =
    Z.lxor (Nat.iter n crc_bit (Z.lxor c b)) v.
Proof.
  intros Hb.
  assert (b + 2 ^ Z.of_nat n * v = Z.lxor b (2 ^ Z.of_nat n * v)) as ->.
  { symmetry. rewrite (Z.mul_comm _ v), <- Z.shiftl_mul_pow2 by lia.
    rewrite <- Z.add_nocarry_lxor; [done|]. apply Z.bits_inj'. intros i Hi.
    rewrite Z.land_spec, Z.bits_0. destruct (Z.lt_ge_cases i (Z.of_nat n)).
    - by rewrite Z.shiftl_spec_low, andb_false_r.
    - rewrite <- (Z.mod_small b (2 ^ Z.of_nat n)) by done.
      by rewrite Z.mod_pow2_bits_high by lia. }
  by rewrite <- Z.lxor_assoc, iter_crc_bit_lxor, iter_crc_bit_shift.
Qed.

(** Up to four bytes enter the register before anything is fed back into them: the update is
    the bit step, iterated, of the register xored with the bytes as one little-endian word. *)
Lemma crc32_update_word d c :
  bytes_ok d -> crc32_update c d = Nat.iter (8 * length d) crc_bit (Z.lxor c (le_val d)).
Proof.
  intros Hd. revert c. induction Hd as [|b d Hb Hd IH]; intros c.
  { by rewrite Z.lxor_0_r. }
  transitivity (Nat.iter (8 * length d) crc_bit (Z.lxor (crc_byte c b) (le_val d))).
  { apply IH. }
  unfold crc_byte. pose proof (iter_crc_bit_feed 8 c b (le_val d)) as H.
  rewrite <- H by (unfold byte_ok in Hb; change (2 ^ Z.of_nat 8) with 256; lia).
  rewrite <- Nat.iter_add. f_equal. simpl length. lia.
Qed.

Lemma crc32_update_inj_word c d d' :
  u32_ok c -> bytes_ok d -> bytes_ok d' -> zlen d = zlen d' -> zlen d <= 4 ->
  crc32_update c d = crc32_update c d' -> d = d'.
Proof.
  intros Hc Hd Hd' Hlen H4. rewrite !crc32_update_word by done.
  replace (length d') with (length d) by (unfold zlen in *; lia). intros He.
  assert (Hw : forall l, bytes_ok l -> zlen l <= 4 -> u32_ok (le_val l)).
  { intros l Hl Hl4. pose proof (le_val_bound l Hl) as Hv.
    pose proof (Z.pow_le_mono_r 256 (zlen l) 4 ltac:(lia) Hl4). mlia. }
  apply iter_crc_bit_inj in He; auto with tower lia.
  apply le_val_inj; try done.
  apply (f_equal (Z.lxor c)) in He. by rewrite <- !Z.lxor_assoc, Z.lxor_nilpotent in He.
Qed.

Lemma u32_max_ok : u32_ok u32_max.
Proof. mlia. Qed.
#[export] Hint Resolve u32_max_ok : tower.

Lemma crc32_ieee_ok d : bytes_ok d -> u32_ok (crc32_ieee d).
Proof. intros. unfold crc32_ieee. auto with tower. Qed.
#[export] Hint Resolve crc32_ieee_ok : tower.

(** Burst detection on a whole message: shared by the frame and the store. *)
Lemma crc32_ieee_burst_inj p d d' s :
  bytes_ok p -> bytes_ok d -> bytes_ok d' -> bytes_ok s ->
  zlen d = zlen d' -> zlen d <= 4 ->
  crc32_ieee (p ++ d ++ s) = crc32_ieee (p ++ d' ++ s) -> d = d'.
Proof.
  intros Hp Hd Hd' Hs Hl H4 He%lxor_inj_r. rewrite !crc32_update_app in He.
  apply crc32_update_inj_state in He; auto with tower.
  apply crc32_update_inj_word in He; auto with tower.
Qed.

(** CRC-32/IEEE detects every corruption confined to at most four adjacent bytes. *)
Theorem crc32_burst_detected p d d' s :
  bytes_ok p -> bytes_ok d -> bytes_ok d' -> bytes_ok s ->
  zlen d = zlen d' -> zlen d <= 4 -> d <> d' ->
  crc32_ieee (p ++ d ++ s) <> crc32_ieee (p ++ d' ++ s).
Proof. intros ?????? Hne He. by apply Hne, (crc32_ieee_burst_inj p d d' s). Qed.

Lemma crc32_burst_detected_witness :
  crc32_ieee ([1; 2] ++ [0; 0; 0; 0] ++ [9]) <> crc32_ieee ([1; 2] ++ [0; 0; 0; 1] ++ [9]).
Proof.
  apply crc32_burst_detected; try done; repeat constructor; try (unfold byte_ok; lia).
Defined.
