(* ===== verification/Proto.v ===== *)
(** The console protocol's message types, size budget and codec errors
    (crates/protocol/src/lib.rs), shared by the frame codec, the console queue, the schema
    fingerprint and the radio envelope. *)
From S2P Require Import Prelude Bytes.

Definition MAX_FRAME : Z := 256.
Definition MAX_WIRE : Z := 272.
Definition HDR : Z := 5.
Definition CRC_LEN : Z := 4.
Definition MAX_PAYLOAD : Z := MAX_FRAME - HDR - CRC_LEN.
#[export] Hint Unfold MAX_FRAME MAX_WIRE HDR CRC_LEN MAX_PAYLOAD : machine.

Inductive MsgType :=
| Hello | Log | Print_ | Event | ShellResponse | ShellCompletions | Dropped | MgmtResponse | Uplink | RadioStat
| ShellCommand | ShellComplete | MgmtRequest.

#[export] Instance MsgType_eq_dec : EqDecision MsgType.
Proof. solve_decision. Defined.

(** The discriminants: [msg_type as u8]. *)
Definition as_u8 (t : MsgType) : Z :=
  match t with
  | Hello => 0 | Log => 1 | Print_ => 2 | Event => 3 | ShellResponse => 4 | ShellCompletions => 5
  | Dropped => 6 | MgmtResponse => 7 | Uplink => 8 | RadioStat => 9
  | ShellCommand => 16 | ShellComplete => 17 | MgmtRequest => 18
  end.

Definition ALL : list MsgType :=
  [Hello; Log; Print_; Event; ShellResponse; ShellCompletions; Dropped; MgmtResponse; Uplink; RadioStat;
   ShellCommand; ShellComplete; MgmtRequest].

Definition from_u8 (v : Z) : option MsgType :=
  match v with
  | 0 => Some Hello | 1 => Some Log | 2 => Some Print_ | 3 => Some Event | 4 => Some ShellResponse
  | 5 => Some ShellCompletions | 6 => Some Dropped | 7 => Some MgmtResponse | 8 => Some Uplink
  | 9 => Some RadioStat | 16 => Some ShellCommand | 17 => Some ShellComplete | 18 => Some MgmtRequest
  | _ => None
  end.

(** [Error]: every codec failure. *)
Inductive Error :=
| Encode | Overflow | TooShort | TooLong | SchemaMismatch (got : Z) | BadType | BadCrc | Malformed.

Lemma from_u8_as_u8 t : from_u8 (as_u8 t) = Some t.
Proof. by destruct t. Qed.
Lemma as_u8_ok t : byte_ok (as_u8 t).
Proof. unfold byte_ok. destruct t; simpl; lia. Qed.
Lemma from_u8_Some v t : from_u8 v = Some t -> v = as_u8 t.
Proof.
  unfold from_u8. intros H. destruct v as [|p|p]; [by invs H | | discriminate].
  repeat (destruct p; try discriminate; try (by invs H)).
Qed.
Lemma as_u8_inj t t' : as_u8 t = as_u8 t' -> t = t'.
Proof. intros H. apply (f_equal from_u8) in H. rewrite !from_u8_as_u8 in H. by invs H. Qed.
Lemma ALL_complete t : In t ALL.
Proof. destruct t; simpl; tauto. Qed.
#[export] Hint Resolve as_u8_ok : tower.
