(* ===== verification/NetTxctr.v ===== *)
(** The TX-counter watermark kernel (crates/net/src/txctr.rs) and the way the firmware drives it
    (firmware/src/radio/net/mod.rs): boot resume, allocation, the durable raise for imported
    keys. The device is a step relation over the RAM kernel, the durable watermark record and
    every counter handed out so far, with power cuts and failed writes at any persist. The main
    theorem: no counter is ever handed out twice, whatever the order of boots, sends, raises,
    failed writes and losses of the watermark record, as long as a lost record leaves other evidence
    of use behind. The two losses the kernel cannot see (a record that disappears without any
    other evidence, an older record that comes back) are shown to repeat counters. *)
From stdpp Require Import relations sorting.
From S2P Require Import Prelude.

Definition RESERVE : Z := 1024.
#[export] Hint Unfold RESERVE : machine.

Record TxCounter := {
  counter : Z;
  reserve_limit : Z;
  locked : bool;
}.

(** ** The kernel *)

Definition resume (stored_watermark : option Z) (prior_use : bool) : TxCounter * option Z :=
  let resume := Z.max (default 1 stored_watermark) 1 in
  let lost := match stored_watermark with None => prior_use | Some _ => false end in
  let fail_closed := lost || (resume =? u32_max) in
  let reserve_limit := if lost then u32_max else sat_add u32_max resume RESERVE in
  ({| counter := resume; reserve_limit := reserve_limit; locked := fail_closed |},
   if fail_closed then None else Some reserve_limit).

Definition floor (t : TxCounter) : Z := Z.max (reserve_limit t) (counter t).

Definition advance (t : TxCounter) : TxCounter * option Z :=
  let c := sat_add u32_max (counter t) 1 in
  if c =? u32_max then
    ({| counter := c; reserve_limit := reserve_limit t; locked := true |}, None)
  else
    ({| counter := c; reserve_limit := reserve_limit t; locked := locked t |},
     if reserve_limit t <=? c then Some (sat_add u32_max (reserve_limit t) RESERVE) else None).

Definition alloc (t : TxCounter) : TxCounter * option (Z * option Z) :=
  if locked t then (t, None)
  else let '(t', persist) := advance t in (t', Some (counter t, persist)).

Definition reserve_persisted (t : TxCounter) (watermark : Z) : TxCounter :=
  {| counter := counter t; reserve_limit := watermark; locked := locked t |}.

Definition lock (t : TxCounter) : TxCounter :=
  {| counter := counter t; reserve_limit := reserve_limit t; locked := true |}.

(** [persist] is the caller's closure; it may change the caller's state [S] (the store). *)
Definition raise_to {S} (t : TxCounter) (floor : Z) (persist : S -> Z -> S * bool) (s : S)
  : S * TxCounter * bool :=
  if locked t then (s, t, floor <=? reserve_limit t)
  else if floor <=? counter t then (s, t, true)
  else if floor <? reserve_limit t then
    (s, {| counter := floor; reserve_limit := reserve_limit t; locked := locked t |}, true)
  else
    let watermark := sat_add u32_max floor RESERVE in
    let '(s, persisted) := persist s watermark in
    if persisted then
      (s, {| counter := floor; reserve_limit := watermark; locked := floor =? u32_max |}, true)
    else (s, lock t, false).

(** ** The device

    What happens to a watermark write: it lands and is reported so, or it is reported failed (or
    power is cut before any report), with the old or the new record left in the store. *)
Inductive fate := Landed | FailedOld | FailedNew.

Definition settle (o : fate) (old : option Z) (watermark : Z) : option Z :=
  match o with FailedOld => old | Landed | FailedNew => Some watermark end.
Definition reported (o : fate) : bool := match o with Landed => true | _ => false end.

Record Dev := {
  txc : TxCounter;
  stored : option Z;      (** the durable watermark record *)
  prior_use : bool;       (** any other network record or stored key exists *)
  on_air : list Z;        (** counters handed out to transfers, newest first *)
  promised : Z;           (** the highest floor a raise on an unlocked kernel accepted *)
}.

(** [Net::new]: resume, persist and verify the boot watermark, lock when that fails. *)
Definition boot (d : Dev) (o : fate) : Dev :=
  let '(t, boot_watermark) := resume (stored d) (prior_use d) in
  match boot_watermark with
  | None => {| txc := t; stored := stored d; prior_use := prior_use d;
               on_air := on_air d; promised := promised d |}
  | Some watermark =>
      {| txc := if reported o then t else lock t;
         stored := settle o (stored d) watermark; prior_use := prior_use d;
         on_air := on_air d; promised := promised d |}
  end.

(** [Net::alloc_counter]. *)
Definition alloc_counter (d : Dev) (o : fate) : Dev * option Z :=
  match alloc (txc d) with
  | (t, None) => (d, None)
  | (t, Some (c, persist)) =>
      let '(t, st) :=
        match persist with
        | None => (t, stored d)
        | Some next =>
            (if reported o then reserve_persisted t next else lock t, settle o (stored d) next)
        end in
      ({| txc := t; stored := st; prior_use := prior_use d;
          on_air := c :: on_air d; promised := promised d |}, Some c)
  end.

(** [Net::raise_tx_floor]: the closure writes the record and reads it back. *)
Definition raise_tx_floor (d : Dev) (f : Z) (o : fate) : Dev * bool :=
  let '(st, t, ok) :=
    raise_to (txc d) f (fun old watermark => (settle o old watermark, reported o)) (stored d) in
  ({| txc := t; stored := st; prior_use := prior_use d; on_air := on_air d;
      promised := if ok && negb (locked (txc d)) then Z.max (promised d) f else promised d |}, ok).

(** The watermark record disappears ([lost_record]) or an older one is found in its place
    ([stale_record]); nothing else changes. *)
Definition lost_record (d : Dev) : Dev :=
  {| txc := txc d; stored := None; prior_use := prior_use d; on_air := on_air d; promised := promised d |}.
Definition stale_record (d : Dev) (w : Z) : Dev :=
  {| txc := txc d; stored := Some w; prior_use := prior_use d; on_air := on_air d; promised := promised d |}.

(** The steps of a life. [step_lose] loses the record of a device that shows other evidence of use,
    the case [resume] fails closed on; the two other losses are no steps (see
    [unseen_losses_reuse]). *)
Inductive step : Dev -> Dev -> Prop :=
| step_boot d o : step d (boot d o)
| step_send d o : step d (fst (alloc_counter d o))
| step_raise d f o : u32_ok f -> step d (fst (raise_tx_floor d f o))
| step_lock d :
    step d {| txc := lock (txc d); stored := stored d; prior_use := prior_use d;
              on_air := on_air d; promised := promised d |}
| step_prior d :
    step d {| txc := txc d; stored := stored d; prior_use := true;
              on_air := on_air d; promised := promised d |}
| step_lose d :
    prior_use d = true ->
    step d (lost_record d).

(** A virgin device before its first boot: nothing stored, nothing can be sent. *)
Definition virgin : Dev :=
  {| txc := {| counter := 1; reserve_limit := 1; locked := true |};
     stored := None; prior_use := false; on_air := []; promised := 0 |}.

Definition reachable (d : Dev) : Prop := rtc step virgin d.

(** ** The invariant *)

Definition below (d : Dev) (x : Z) : Prop := Forall (fun c => c < x) (on_air d) /\ promised d <= x.

Record Inv (d : Dev) : Prop := {
  inv_sorted : StronglySorted Z.gt (on_air d);
  inv_positive : Forall (fun c => 1 <= c) (on_air d);
  inv_live : locked (txc d) = false ->
    below d (counter (txc d)) /\ 1 <= counter (txc d) < reserve_limit (txc d) /\
    reserve_limit (txc d) <= u32_max /\
    forall w, stored d = Some w -> reserve_limit (txc d) <= w;
  inv_stored : forall w, stored d = Some w -> 0 <= w <= u32_max /\ below d w;
  inv_virgin : stored d = None -> prior_use d = false ->
    on_air d = [] /\ promised d <= 0 /\ locked (txc d) = true;
}.

Lemma below_mono d x y : below d x -> x <= y -> below d y.
Proof. intros [H ?] ?. split; [|lia]. eapply Forall_impl; [|exact H]. simpl. lia. Qed.

Lemma below_same d d' x :
  on_air d' = on_air d -> promised d' = promised d -> below d x -> below d' x.
Proof. unfold below. by intros -> ->. Qed.

(** A step that changes neither the counters sent nor the promise. *)
Lemma Inv_quiet d d' :
  Inv d -> on_air d' = on_air d -> promised d' = promised d ->
  (locked (txc d') = false ->
     below d (counter (txc d')) /\ 1 <= counter (txc d') < reserve_limit (txc d') /\
     reserve_limit (txc d') <= u32_max /\
     forall w, stored d' = Some w -> reserve_limit (txc d') <= w) ->
  (forall w, stored d' = Some w -> 0 <= w <= u32_max /\ below d w) ->
  (stored d' = None -> prior_use d' = false ->
     stored d = None /\ prior_use d = false /\ locked (txc d') = true) ->
  Inv d'.
Proof.
  intros HI Ho Hp Hlive Hst Hv. constructor.
  - rewrite Ho. apply HI.
  - rewrite Ho. apply HI.
  - intros Hl. destruct (Hlive Hl) as (? & ? & ? & ?). eauto using below_same.
  - intros w Hw. destruct (Hst w Hw). eauto using below_same.
  - intros H1 H2. destruct (Hv H1 H2) as (H3 & H4 & ?).
    destruct (inv_virgin d HI H3 H4) as (? & ? & ?). rewrite Ho, Hp. auto.
Qed.

Lemma Inv_virgin_dev : Inv virgin.
Proof.
  constructor; simpl; [constructor | constructor | discriminate | discriminate |].
  intros. split_and!; [done | lia | done].
Qed.

Lemma Inv_boot d o : Inv d -> Inv (boot d o).
Proof.
  intros HI. unfold boot, resume.
  destruct (stored d) as [w|] eqn:Hst.
  - destruct (inv_stored d HI w Hst) as [Hw Hb]. simpl default. simpl orb.
    destruct (Z.max w 1 =? u32_max) eqn:Hmax; bool_hyps.
    + eapply Inv_quiet; eauto; simpl; rewrite ?Hst; try done.
      intros w' [= <-]. auto.
    + assert (Hwm : Z.max w 1 < sat_add u32_max (Z.max w 1) RESERVE <= u32_max)
        by (mlia).
      eapply Inv_quiet; eauto; simpl.
      * destruct o; simpl; try done. intros _.
        split_and!; try lia; [eapply below_mono; eauto; lia|]. intros ? [= <-]. lia.
      * intros w' Hw'. assert (w <= w' <= u32_max)
          by (destruct o; simpl in Hw'; invs Hw'; lia).
        split; [lia|]. eapply below_mono; eauto; lia.
      * destruct o; simpl; done.
  - simpl default. destruct (prior_use d) eqn:Hp.
    + simpl. eapply Inv_quiet; eauto; simpl; rewrite ?Hst; done.
    + simpl. destruct (inv_virgin d HI Hst Hp) as (Ho & Hpr & Hl).
      assert (Hb : forall x, 0 <= x -> below d x).
      { intros x ?. split; [rewrite Ho; constructor | lia]. }
      eapply Inv_quiet; eauto; simpl.
      * destruct o; simpl; try done. intros _.
        split_and!; try (mlia); [apply Hb; lia|].
        intros ? [= <-]. lia.
      * intros w Hw. assert (0 <= w <= u32_max)
          by (destruct o; simpl in Hw; invs Hw; mlia).
        split; [lia|]. apply Hb; lia.
      * destruct o; simpl; try done.
Qed.

(** What an allocation from an unlocked kernel yields; shared by the invariant and the theorems. *)
Lemma alloc_counter_spec d o d' c :
  Inv d -> alloc_counter d o = (d', Some c) ->
  locked (txc d) = false /\ c = counter (txc d) /\ on_air d' = c :: on_air d /\
  promised d' = promised d /\ prior_use d' = prior_use d /\
  (locked (txc d') = false -> counter (txc d') = c + 1 /\
     counter (txc d') < reserve_limit (txc d') <= u32_max /\
     (forall w, stored d' = Some w -> reserve_limit (txc d') <= w)) /\
  (forall w, stored d' = Some w -> c < w <= u32_max /\ (stored d = Some w \/ reserve_limit (txc d) <= w)) /\
  (stored d' = None -> stored d = None).
Proof.
  intros HI Ha. unfold alloc_counter, alloc in Ha.
  destruct (locked (txc d)) eqn:Hl; [discriminate|].
  destruct (inv_live d HI Hl) as (Hb & Hc & Hmax & Hst).
  assert (Hst' : forall w, stored d = Some w -> counter (txc d) < w <= u32_max).
  { intros w Hw. pose proof (Hst w Hw). pose proof (inv_stored d HI w Hw). lia. }
  unfold advance in Ha.
  replace (sat_add u32_max (counter (txc d)) 1) with (counter (txc d) + 1) in Ha by mlia.
  destruct (counter (txc d) + 1 =? u32_max) eqn:Hceil; bool_hyps.
  - invs Ha. simpl. split_and!; try done; eauto.
  - destruct (reserve_limit (txc d) <=? counter (txc d) + 1) eqn:Hres; bool_hyps.
    + assert (Hwm : counter (txc d) + 1 < sat_add u32_max (reserve_limit (txc d)) RESERVE <= u32_max)
        by (mlia).
      assert (reserve_limit (txc d) <= sat_add u32_max (reserve_limit (txc d)) RESERVE)
        by (mlia).
      destruct o; simpl in Ha; invs Ha; simpl;
        (split_and!; [done.. | | |]; intros; simplify_eq; try done).
      * split_and!; try lia. intros; simplify_eq. lia.
      * split; [lia | right; lia].
      * split; [auto | left; auto].
      * split; [lia | right; lia].
    + invs Ha. simpl. split_and!; [done.. | | |]; eauto; intros; split_and!; eauto with lia.
Qed.

Lemma Inv_send d o : Inv d -> Inv (fst (alloc_counter d o)).
Proof.
  intros HI. destruct (alloc_counter d o) as [d' [c|]] eqn:Ha; simpl.
  - destruct (alloc_counter_spec d o d' c HI Ha) as (Hl & -> & Ho & Hp & Hpr & Hlive & Hst & Hno).
    destruct (inv_live d HI Hl) as ((Hb & Hpm) & Hc & Hmax & Hst0).
    assert (Hbelow : forall x, counter (txc d) < x -> below d' x).
    { intros x Hx. split; rewrite ?Ho, ?Hp; [|lia]. constructor; [lia|].
      eapply Forall_impl; [|exact Hb]. simpl. lia. }
    constructor.
    + rewrite Ho. constructor; [apply HI|]. eapply Forall_impl; [|exact Hb]. simpl. lia.
    + rewrite Ho. constructor; [lia | apply HI].
    + intros Hl'. destruct (Hlive Hl') as (? & ? & ?). split_and!; try lia; [apply Hbelow; lia | done].
    + intros w Hw. destruct (Hst w Hw) as [? _]. split; [lia | apply Hbelow; lia].
    + intros H1 H2. rewrite Hpr in H2. destruct (inv_virgin d HI (Hno H1) H2) as (_ & _ & ?). congruence.
  - unfold alloc_counter in Ha. destruct (alloc (txc d)) as [t [[c p]|]]; [|by invs Ha].
    destruct p; simpl in Ha; invs Ha.
Qed.

Lemma Inv_raise d f o : Inv d -> u32_ok f -> Inv (fst (raise_tx_floor d f o)).
Proof.
  intros HI Hf. unfold raise_tx_floor, raise_to.
  destruct (locked (txc d)) eqn:Hl.
  { rewrite andb_false_r. simpl.
    apply (Inv_quiet d); simpl; try done; [congruence | apply HI]. }
  destruct (inv_live d HI Hl) as ((Hb & Hpm) & Hc & Hmax & Hst0).
  assert (Hup : forall d' x, on_air d' = on_air d -> promised d' <= x -> counter (txc d) <= x -> below d' x).
  { intros d' x Ho Hp Hx. split; [|done]. rewrite Ho. eapply Forall_impl; [|exact Hb]. simpl. lia. }
  assert (Hst1 : forall w, stored d = Some w -> reserve_limit (txc d) <= w <= u32_max).
  { intros w Hw. pose proof (Hst0 w Hw). pose proof (inv_stored d HI w Hw). lia. }
  assert (Hnv : stored d = None -> prior_use d = false -> False).
  { intros H1 H2. pose proof (inv_virgin d HI H1 H2) as (_ & _ & ?). congruence. }
  destruct (f <=? counter (txc d)) eqn:Hfc; bool_hyps; simpl.
  { constructor; simpl; [apply HI | apply HI | intros..].
    - split_and!; try lia; [apply Hup; simpl; auto; lia | auto].
    - pose proof (Hst1 w H). split; [lia|]. apply Hup; simpl; auto; lia.
    - exfalso. auto. }
  destruct (f <? reserve_limit (txc d)) eqn:Hfr; bool_hyps; simpl.
  { constructor; simpl; [apply HI | apply HI | intros..].
    - split_and!; try lia; [apply Hup; simpl; auto; lia | auto].
    - pose proof (Hst1 w H). split; [lia|]. apply Hup; simpl; auto; lia.
    - exfalso. auto. }
  assert (Hwm : f <= sat_add u32_max f RESERVE <= u32_max /\ (f < u32_max -> f < sat_add u32_max f RESERVE))
    by (mlia).
  destruct o; simpl; (constructor; simpl; [apply HI | apply HI | intros..]); try discriminate.
  - bool_hyps. assert (f < u32_max) by mlia.
    split_and!; try lia; [apply Hup; simpl; auto; lia | intros ? [= <-]; lia].
  - simplify_eq. split; [lia|]. apply Hup; simpl; auto; lia.
  - pose proof (Hst1 w H). split; [lia|]. apply Hup; simpl; auto; lia.
  - exfalso. auto.
  - simplify_eq. split; [lia|]. apply Hup; simpl; auto; lia.
Qed.

Lemma Inv_step d d' : step d d' -> Inv d -> Inv d'.
Proof.
  intros [d0 o|d0 o|d0 f o Hf|d0|d0|d0 Hp] HI.
  - by apply Inv_boot.
  - by apply Inv_send.
  - by apply Inv_raise.
  - apply (Inv_quiet d0); simpl; try done. apply HI.
  - apply (Inv_quiet d0); simpl; try done; apply HI.
  - apply (Inv_quiet d0); simpl; try done; [|congruence]. intros Hl.
    destruct (inv_live d0 HI Hl) as (? & ? & ? & ?).
    refine (conj _ (conj _ (conj _ _))); [done.. | intros ? [=]].
Qed.

Lemma reachable_Inv d : reachable d -> Inv d.
Proof.
  intros H. unfold reachable in H.
  assert (forall a b, rtc step a b -> Inv a -> Inv b) as Hgo.
  { induction 1; eauto using Inv_step. }
  eauto using Inv_virgin_dev.
Qed.

(** ** Properties *)

Lemma StronglySorted_gt_NoDup l : StronglySorted Z.gt l -> NoDup l.
Proof.
  induction 1 as [|x l Hl IH Hx]; constructor; [|done].
  intros Hin. rewrite Forall_forall in Hx. specialize (Hx x).
  rewrite list_elem_of_In in Hin. specialize (Hx Hin). lia.
Qed.

(** C3. Nonce safety of the TX counter: over any interleaving of boots, sends, raises, power
    cuts or failed writes at any watermark persist, and losses of the watermark record on a device
    that shows other evidence of prior use (a stored key or any other network record, which
    [resume] is told as [prior_use]), no counter is ever handed out twice, and none is 0. A record
    that is lost with no other evidence, or that is replaced by an older one, is not covered: the
    kernel cannot tell these from a virgin or an intact store, and [unseen_losses_reuse] shows both
    repeat counters. *)
Theorem counters_never_reused d : reachable d -> NoDup (on_air d) /\ ~ In 0 (on_air d).
Proof.
  intros HI%reachable_Inv. split.
  - apply StronglySorted_gt_NoDup, HI.
  - intros Hin. pose proof (inv_positive d HI) as Hp. rewrite List.Forall_forall in Hp.
    specialize (Hp 0 Hin). lia.
Qed.

(** The boundary of the theorem, and of the code: a device that sent one frame and then loses its
    record with no other evidence of use, and a device that is given back the record of its first
    boot, both hand out a counter a second time after a reset. *)
Lemma unseen_losses_reuse :
  exists d d', reachable d /\ reachable d' /\ prior_use d = false /\
    on_air (fst (alloc_counter (boot (lost_record d) Landed) Landed)) = ([1; 1] : list Z) /\
    stored (boot virgin Landed) = Some 1025 /\ stored d' <> Some 1025 /\
    on_air (fst (alloc_counter (boot (stale_record d' 1025) Landed) Landed)) = ([1025; 1025; 1] : list Z).
Proof.
  exists (fst (alloc_counter (boot virgin Landed) Landed)).
  exists (fst (alloc_counter (boot (fst (alloc_counter (boot virgin Landed) Landed)) Landed) Landed)).
  split_and!; try by vm_compute.
  - unfold reachable. eapply rtc_l; [apply (step_boot _ Landed)|]. eapply rtc_l; [apply (step_send _ Landed)|]. done.
  - unfold reachable. do 2 (eapply rtc_l; [apply (step_boot _ Landed)|]; eapply rtc_l; [apply (step_send _ Landed)|]).
    done.
Qed.

(** every counter a transfer rides is above all earlier ones, at or above every floor a raise
    on an unlocked kernel accepted, and strictly below the durable watermark of the moment, so a
    boot that resumes at the watermark cannot meet it again. *)
Theorem alloc_fresh_and_durable d o d' c :
  reachable d -> alloc_counter d o = (d', Some c) ->
  Forall (fun c' => c' < c) (on_air d) /\ promised d <= c /\ 1 <= c < u32_max /\
  (forall w, stored d = Some w -> c < w) /\
  (forall t w, resume (stored d') (prior_use d') = (t, w) -> locked t = false -> c < counter t).
Proof.
  intros HI%reachable_Inv Ha.
  destruct (alloc_counter_spec d o d' c HI Ha) as (Hl & -> & Ho & Hp & Hpr & Hlive & Hst & Hno).
  destruct (inv_live d HI Hl) as ((Hb & Hpm) & Hc & Hmax & Hst0).
  split_and!; try done; try lia.
  - intros w Hw. pose proof (Hst0 w Hw). lia.
  - intros t w Hres Hlt. unfold resume in Hres. injection Hres as <- _. simpl in *.
    apply orb_false_iff in Hlt as [Hlt _].
    destruct (stored d') as [w'|] eqn:Hs.
    + destruct (Hst w' eq_refl) as [? _]. simpl. lia.
    + rewrite Hpr in Hlt. destruct (inv_virgin d HI (Hno eq_refl) Hlt) as (_ & _ & ?). congruence.
Qed.

Lemma promised_step d d' : step d d' -> promised d <= promised d'.
Proof.
  intros [d0 o|d0 o|d0 f o Hf|d0|d0|d0 Hp]; simpl; try lia.
  - unfold boot. destruct (resume _ _) as [t [w|]]; simpl; lia.
  - unfold alloc_counter. destruct (alloc _) as [t [[c [p|]]|]]; simpl; lia.
  - unfold raise_tx_floor. destruct (raise_to _ _ _ _) as [[st t] ok]; simpl.
    destruct (ok && negb (locked (txc d0))); lia.
Qed.

(** a floor accepted by a raise on an unlocked kernel holds for good: nothing sent later, in
    this boot or after any number of power cuts and reboots, rides a counter below it. *)
Theorem raise_floor_kept d f o d1 d2 o' d3 c :
  reachable d -> locked (txc d) = false -> u32_ok f ->
  raise_tx_floor d f o = (d1, true) -> rtc step d1 d2 ->
  alloc_counter d2 o' = (d3, Some c) -> f <= c.
Proof.
  intros Hr Hl Hf Hra Hsteps Ha.
  assert (f <= promised d1).
  { unfold raise_tx_floor in Hra. destruct (raise_to _ _ _ _) as [[st t] ok].
    injection Hra as <- ->. simpl. rewrite Hl. simpl. lia. }
  assert (promised d1 <= promised d2).
  { clear -Hsteps. induction Hsteps as [|x y z Hxy _ IH]; [lia|]. apply promised_step in Hxy. lia. }
  assert (reachable d2).
  { unfold reachable in *. etrans; [exact Hr|]. eapply rtc_l; [|exact Hsteps].
    replace d1 with (fst (raise_tx_floor d f o)) by (by rewrite Hra). by constructor. }
  destruct (alloc_fresh_and_durable d2 o' d3 c) as (_ & ? & _); auto. lia.
Qed.

(** C26. The locked branch of [raise_to] trusts [reserve_limit] as durable, which it is not after
    a boot whose watermark write failed: a raise then reports success for a floor that the next
    boot resumes below, and a counter under the accepted floor is sent. *)
Theorem raise_after_failed_boot_accepts_undurable_floor :
  exists d f d1 d2 c,
    reachable d /\ raise_tx_floor d f Landed = (d1, true) /\
    alloc_counter (boot d1 Landed) Landed = (d2, Some c) /\ c < f.
Proof.
  exists (boot (boot virgin Landed) FailedOld), 2000.
  do 2 eexists. exists 1025. split_and!.
  - unfold reachable. do 2 (eapply rtc_l; [constructor|]). reflexivity.
  - vm_compute. reflexivity.
  - vm_compute. reflexivity.
  - lia.
Qed.

(** *** Witnesses *)

Lemma counters_never_reused_witness :
  NoDup [1025; 1] /\ ~ In 0 [1025; 1].
Proof.
  change [1025; 1] with
    (on_air (fst (alloc_counter (boot (fst (alloc_counter (boot virgin Landed) Landed)) Landed) Landed))).
  apply counters_never_reused. unfold reachable.
  do 2 (eapply rtc_l; [apply (step_boot _ Landed)|]; eapply rtc_l; [apply (step_send _ Landed)|]).
  reflexivity.
Defined.

Lemma alloc_fresh_and_durable_witness :
  Forall (fun c' => c' < 1) [] /\ promised (boot virgin Landed) <= 1 /\ 1 <= 1 < u32_max /\
  (forall w, stored (boot virgin Landed) = Some w -> 1 < w) /\
  (forall t w, resume (Some 1025) false = (t, w) -> locked t = false -> 1 < counter t).
Proof.
  apply (alloc_fresh_and_durable (boot virgin Landed) FailedOld
           (fst (alloc_counter (boot virgin Landed) FailedOld)) 1).
  - unfold reachable. eapply rtc_l; [constructor|]. reflexivity.
  - reflexivity.
Defined.

Lemma raise_floor_kept_witness : 5000 <= 5000.
Proof.
  pose (d := boot virgin Landed).
  apply (raise_floor_kept d 5000 Landed (fst (raise_tx_floor d 5000 Landed))
           (fst (raise_tx_floor d 5000 Landed)) Landed
           (fst (alloc_counter (fst (raise_tx_floor d 5000 Landed)) Landed)) 5000).
  - unfold reachable, d. eapply rtc_l; [constructor|]. reflexivity.
  - reflexivity.
  - mlia.
  - reflexivity.
  - reflexivity.
  - reflexivity.
Defined.
