(* ===== verification/NetReplay.v ===== *)
(** The per-peer replay rule (crates/net/src/replay.rs): strictly monotonic acceptance, the lazy
    persist cadence, the re-ACK cap and the binding of peers to persisted lanes. The receiver is
    a step relation over the RAM lane, the persisted record and the counters delivered so far. *)
From stdpp Require Import relations sorting.
From S2P Require Import Prelude.

Definition P : Z := 32.
Definition MAX_REPS : Z := 10.
Definition MAX_REACKS : Z := MAX_REPS - 1.
#[export] Hint Unfold P MAX_REPS MAX_REACKS : machine.

(** [u8::next_power_of_two]. *)
Definition next_power_of_two (x : Z) : Z := 2 ^ Z.log2_up x.
Definition persist_period (period : Z) : Z := next_power_of_two (Z.min (Z.max period 1) P).

Inductive ReplayVerdict := Fresh | Retransmit | Replay.
#[global] Instance ReplayVerdict_eq_dec : EqDecision ReplayVerdict.
Proof. solve_decision. Defined.

Record ReplayLane := { last_seen : Z; accepts : Z; reacks : Z }.

Definition new (last_seen : Z) : ReplayLane :=
  {| last_seen := last_seen; accepts := 0; reacks := 0 |}.

Definition classify (t : ReplayLane) (counter : Z) : ReplayVerdict :=
  if counter =? 0 then Replay
  else if last_seen t <? counter then Fresh
  else if counter =? last_seen t then Retransmit
  else Replay.

Definition accept_every (t : ReplayLane) (counter period : Z) : ReplayLane * bool :=
  let a := wrap8 (accepts t + 1) in
  ({| last_seen := counter; accepts := a; reacks := 0 |}, a mod persist_period period =? 0).

Definition accept (t : ReplayLane) (counter : Z) : ReplayLane * bool := accept_every t counter P.

Definition raise (t : ReplayLane) (seen : Z) : ReplayLane * bool :=
  if seen <=? last_seen t then (t, false) else (new seen, true).

Definition reack (t : ReplayLane) : ReplayLane * bool :=
  if MAX_REACKS <=? reacks t then (t, false)
  else ({| last_seen := last_seen t; accepts := accepts t; reacks := reacks t + 1 |}, true).

(** ** The receiver

    CCM-verified frames are classified, fresh ones accepted and delivered; the lane is written
    when [accept_every] asks for it; a reset restores it from the record. *)
Record Rx := {
  lane : ReplayLane;
  persisted : Z;
  session : list Z;    (** counters delivered since the last reset, newest first *)
  earlier : list Z;    (** counters delivered before it *)
}.

Definition receive (period : Z) (r : Rx) (counter : Z) : Rx * ReplayVerdict :=
  match classify (lane r) counter with
  | Fresh =>
      let '(l, persist) := accept_every (lane r) counter period in
      ({| lane := l; persisted := if persist then counter else persisted r;
          session := counter :: session r; earlier := earlier r |}, Fresh)
  | Retransmit =>
      ({| lane := fst (reack (lane r)); persisted := persisted r;
          session := session r; earlier := earlier r |}, Retransmit)
  | Replay => (r, Replay)
  end.

Definition reset (r : Rx) : Rx :=
  {| lane := new (persisted r); persisted := persisted r;
     session := []; earlier := session r ++ earlier r |}.

Inductive step (period : Z) : Rx -> Rx -> Prop :=
| step_receive r c : u32_ok c -> step period r (fst (receive period r c))
| step_reset r : step period r (reset r).

Definition fresh_rx : Rx := {| lane := new 0; persisted := 0; session := []; earlier := [] |}.
Definition reachable (period : Z) : Rx -> Prop := rtc (step period) fresh_rx.

(** ** Lane assignment *)

Record LaneRecord := { r_addr : Z; r_seen : Z; r_kcv : Z }.
Record LaneBinding := { b_index : nat; b_seen : Z; b_fresh : bool }.

Definition lane_free (used : Z) (l : nat) : bool :=
  Z.land used (Z.shiftl 1 (Z.of_nat l)) =? 0.
Definition fresh_at (index : nat) : LaneBinding :=
  {| b_index := index; b_seen := 0; b_fresh := true |}.

(** One iteration of the scan over [records.iter().enumerate()]. *)
Definition own_step (addr kcv used : Z) (acc : option LaneBinding * option nat)
    (l : nat) (rec : option LaneRecord) : option LaneBinding * option nat :=
  let '(restore, stale_own) := acc in
  match rec with
  | None => acc
  | Some r =>
      if negb (r_addr r =? addr) || negb (lane_free used l) then acc
      else if negb (r_kcv r =? kcv) then
        (restore, match stale_own with None => Some l | Some _ => stale_own end)
      else if match restore with None => true | Some b => b_seen b <? r_seen r end then
        (Some {| b_index := l; b_seen := r_seen r; b_fresh := false |}, stale_own)
      else acc
  end.

Fixpoint own_scan (addr kcv used : Z) (l : nat) (records : list (option LaneRecord))
    (acc : option LaneBinding * option nat) : option LaneBinding * option nat :=
  match records with
  | [] => acc
  | rec :: records => own_scan addr kcv used (S l) records (own_step addr kcv used acc l rec)
  end.

(** [(0..records.len()).find(p)]. *)
Definition find_index (n : nat) (p : nat -> bool) : option nat := List.find p (seq 0 n).

Definition assign_lane (addr kcv : Z) (records : list (option LaneRecord)) (used : Z)
  : option LaneBinding :=
  let '(restore, stale_own) := own_scan addr kcv used 0 records (None, None) in
  match restore with
  | Some b => Some b
  | None =>
      match stale_own with
      | Some l => Some (fresh_at l)
      | None =>
          match find_index (length records)
                  (fun l => lane_free used l &&
                            match records !! l with Some (Some _) => false | _ => true end) with
          | Some l => Some (fresh_at l)
          | None => option_map fresh_at (find_index (length records) (lane_free used))
          end
      end
  end.

(** ** Receiver invariants *)

Lemma persist_period_pow2 p : exists k, 0 <= k <= 5 /\ persist_period p = 2 ^ k.
Proof.
  unfold persist_period, next_power_of_two. set (x := Z.min (Z.max p 1) P).
  exists (Z.log2_up x). split; [|done].
  pose proof (Z.log2_up_nonneg x). split; [done|].
  change 5 with (Z.log2_up 32). apply Z.log2_up_le_mono. mlia.
Qed.
Lemma persist_period_range p : 1 <= persist_period p <= P.
Proof.
  destruct (persist_period_pow2 p) as (k & Hk & ->).
  pose proof (Z.pow_le_mono_r 2 0 k). pose proof (Z.pow_le_mono_r 2 k 5).
  change (2 ^ 0) with 1 in *. change (2 ^ 5) with 32 in *. mlia.
Qed.
Lemma persist_period_divides_256 p : (persist_period p | 256).
Proof.
  destruct (persist_period_pow2 p) as (k & Hk & ->). exists (2 ^ (8 - k)).
  rewrite <- Z.pow_add_r by lia. replace (8 - k + k) with 8 by lia. done.
Qed.

(** The residue of the wrapping [u8] cadence counter is the residue of the true count. *)
Lemma cadence_wrap p a : wrap8 a mod persist_period p = a mod persist_period p.
Proof.
  unfold wrap8. pose proof (persist_period_range p).
  apply Z.mod_mod_divide, persist_period_divides_256.
Qed.

(** The counters of this session a reset would accept again. *)
Definition exposed (r : Rx) : list Z := filter (fun c => persisted r < c) (session r).

Record RxInv (period : Z) (r : Rx) : Prop := {
  rx_sorted : StronglySorted Z.gt (session r);
  rx_last : Forall (fun c => 1 <= c <= last_seen (lane r)) (session r);
  rx_persisted : 0 <= persisted r <= last_seen (lane r);
  rx_reacks : 0 <= reacks (lane r) <= MAX_REACKS;
  rx_cadence : Z.of_nat (length (exposed r)) = accepts (lane r) mod persist_period period;
}.

Lemma mod_succ a n : 1 <= n -> (a + 1) mod n <> 0 -> (a + 1) mod n = a mod n + 1.
Proof.
  intros Hn Hne. pose proof (Z.mod_pos_bound a n ltac:(lia)).
  destruct (Z.eq_dec (a mod n) (n - 1)) as [He|].
  - exfalso. apply Hne. rewrite <- Z.add_mod_idemp_l, He by lia.
    replace (n - 1 + 1) with (1 * n) by lia. apply Z.mod_mul. lia.
  - rewrite <- Z.add_mod_idemp_l by lia. apply Z.mod_small. lia.
Qed.

Lemma exposed_nil p l : Forall (fun c => c <= p) l -> filter (fun c => p < c) l = [].
Proof.
  induction 1 as [|c l Hc Hl IH]; [done|]. by rewrite filter_cons_False by lia.
Qed.

Lemma classify_fresh t c : classify t c = Fresh -> c <> 0 /\ last_seen t < c.
Proof. unfold classify. by repeat split_if. Qed.

Lemma reack_keeps t :
  last_seen (fst (reack t)) = last_seen t /\ accepts (fst (reack t)) = accepts t /\
  (0 <= reacks t <= MAX_REACKS -> 0 <= reacks (fst (reack t)) <= MAX_REACKS).
Proof. unfold reack. split_if; simpl; split_and!; mlia. Qed.

Lemma RxInv_fresh period : RxInv period fresh_rx.
Proof.
  constructor; simpl; [constructor | constructor | lia | mlia | by rewrite Zmod_0_l].
Qed.

Lemma RxInv_receive period r c : u32_ok c -> RxInv period r -> RxInv period (fst (receive period r c)).
Proof.
  intros Hc [Hs Hl Hp Hr Hcad]. unfold receive. destruct (classify (lane r) c) eqn:Hcl; [| |done].
  - apply classify_fresh in Hcl as [Hc0 Hgt]. simpl.
    pose proof (persist_period_range period) as Hpp.
    assert (Hlt : Forall (fun x => x <= last_seen (lane r)) (session r)).
    { eapply Forall_impl; [|exact Hl]. simpl. lia. }
    destruct (wrap8 _ mod _ =? 0) eqn:Hz; bool_hyps; (constructor; simpl; try mlia).
    + constructor; [done|]. eapply Forall_impl; [|exact Hl]. simpl. lia.
    + constructor; [mlia|]. eapply Forall_impl; [|exact Hl]. simpl. lia.
    + unfold exposed. simpl. rewrite exposed_nil; [simpl; lia|].
      constructor; [lia|]. eapply Forall_impl; [|exact Hlt]. simpl. lia.
    + constructor; [done|]. eapply Forall_impl; [|exact Hl]. simpl. lia.
    + constructor; [mlia|]. eapply Forall_impl; [|exact Hl]. simpl. lia.
    + unfold exposed in *. simpl. rewrite filter_cons_True by lia. simpl.
      rewrite cadence_wrap in *. rewrite (mod_succ (accepts (lane r))) by lia. lia.
  - destruct (reack_keeps (lane r)) as (Hls & Hac & Hre).
    constructor; unfold exposed in *; simpl; rewrite ?Hls, ?Hac; auto.
Qed.

Lemma RxInv_step period r r' : step period r r' -> RxInv period r -> RxInv period r'.
Proof.
  intros [r0 c Hc|r0] HI; [by apply RxInv_receive|].
  destruct HI as [Hs Hl Hp Hr Hcad]. constructor; simpl; [constructor | constructor | lia | mlia | by rewrite Zmod_0_l].
Qed.

Lemma reachable_RxInv period r : reachable period r -> RxInv period r.
Proof.
  intros H. assert (forall a b, rtc (step period) a b -> RxInv period a -> RxInv period b) as Hgo.
  { induction 1; eauto using RxInv_step. }
  eauto using RxInv_fresh.
Qed.

(** ** Properties of the receiver *)

Lemma sorted_gt_NoDup l : StronglySorted Z.gt l -> NoDup l.
Proof.
  induction 1 as [|x l Hl IH Hx]; constructor; [|done].
  intros Hin%list_elem_of_In. rewrite List.Forall_forall in Hx. specialize (Hx x Hin). lia.
Qed.

(** between two resets every counter is delivered at most once, in strictly increasing order,
    and counter 0 is never delivered, whatever frames arrive (retransmissions, replays, gaps). *)
Theorem session_delivers_once period r :
  reachable period r ->
  StronglySorted Z.gt (session r) /\ NoDup (session r) /\ ~ In 0 (session r).
Proof.
  intros HI%reachable_RxInv. split_and!.
  - apply HI.
  - apply sorted_gt_NoDup, HI.
  - intros Hin. pose proof (rx_last _ _ HI) as H. rewrite List.Forall_forall in H.
    specialize (H 0 Hin). lia.
Qed.

(** the replay window of one session: of the counters delivered since the last reset, fewer
    than the persist period (so at most [P - 1]) would be accepted again after a reset now. *)
Theorem replay_window_bounded period r :
  reachable period r ->
  Z.of_nat (length (filter (fun c => classify (lane (reset r)) c = Fresh) (session r)))
    < persist_period period <= P.
Proof.
  intros HI%reachable_RxInv. pose proof (persist_period_range period) as Hpp.
  assert (He : filter (fun c => classify (lane (reset r)) c = Fresh) (session r) = exposed r).
  { unfold exposed. apply filter_ext_Forall. eapply Forall_impl; [|exact (rx_last _ _ HI)].
    intros c Hc. cbn beta in Hc. unfold classify. simpl.
    repeat split_if; split; intros; try done; lia. }
  rewrite He, (rx_cadence _ _ HI).
  pose proof (Z.mod_pos_bound (accepts (lane r)) (persist_period period)). lia.
Qed.

(** the window is per session only: the cadence restarts at a reset, so resets that each come
    before a persist add their windows up. After two such resets 62 already delivered counters
    (nearly twice [P]) are fresh again. *)
Theorem replay_window_grows_over_resets :
  exists r, reachable P r /\
    Z.of_nat (length (filter (fun c => classify (lane r) c = Fresh) (earlier r))) = 62 /\
    NoDup (earlier r) /\ P < 62.
Proof.
  pose (feed := fun r cs => fold_left (fun r c => fst (receive P r c)) cs r).
  pose (up := fun n k => map Z.of_nat (seq n k)).
  exists (reset (feed (reset (feed fresh_rx (up 1 31)%nat)) (up 40 31)%nat)).
  assert (Hfeed : forall cs r r', rtc (step P) r r' -> Forall u32_ok cs -> rtc (step P) r (feed r' cs)).
  { induction cs as [|c cs IH]; intros r r' Hr Hcs; [done|].
    apply Forall_cons_1 in Hcs as [Hc Hcs]. simpl. apply IH; [|done].
    eapply rtc_r; [exact Hr|]. by constructor. }
  assert (Hup : forall n k, (n + k <= 100)%nat -> Forall u32_ok (up n k)).
  { intros n k Hnk. apply List.Forall_forall. intros c Hc. unfold up in Hc.
    apply List.in_map_iff in Hc as (i & <- & Hi%List.in_seq). mlia. }
  split_and!.
  - unfold reachable. eapply rtc_r; [|constructor]. apply Hfeed; [|apply Hup; lia].
    eapply rtc_r; [|constructor]. apply Hfeed; [reflexivity | apply Hup; lia].
  - vm_compute. reflexivity.
  - apply (bool_decide_unpack _). vm_compute. exact I.
  - mlia.
Qed.

(** The answers to [n] copies of the last accepted frame in a row. *)
Fixpoint reack_run (n : nat) (t : ReplayLane) : list bool :=
  match n with
  | O => []
  | S n => snd (reack t) :: reack_run n (fst (reack t))
  end.

Lemma reack_run_eq n t :
  0 <= reacks t <= MAX_REACKS ->
  reack_run n t = replicate (Nat.min n (Z.to_nat (MAX_REACKS - reacks t))) true
                    ++ replicate (n - Z.to_nat (MAX_REACKS - reacks t)) false.
Proof.
  revert t. induction n as [|n IH]; intros t Ht; [done|]. simpl reack_run.
  unfold reack at 1 2. split_if; simpl.
  - rewrite IH by done. replace (Z.to_nat (MAX_REACKS - reacks t)) with O by lia.
    by rewrite !Nat.min_0_r, !Nat.sub_0_r.
  - rewrite IH by (simpl; lia). simpl reacks.
    by replace (Z.to_nat (MAX_REACKS - reacks t)) with (S (Z.to_nat (MAX_REACKS - (reacks t + 1)))) by lia.
Qed.

(** re-ACKs: after a fresh accept at most [MAX_REACKS] of any number of copies of that frame
    are answered, and the first [MAX_REACKS] are: with the ACK of the frame itself, exactly the
    [MAX_REPS] transmissions a legitimate sender makes. *)
Theorem reacks_capped_and_sufficient t c period n :
  reack_run n (fst (accept_every t c period)) =
    replicate (Nat.min n (Z.to_nat MAX_REACKS)) true ++ replicate (n - Z.to_nat MAX_REACKS) false.
Proof. rewrite reack_run_eq; [done|]. simpl. mlia. Qed.

(** ** Lane assignment *)

Definition own (addr used : Z) (records : list (option LaneRecord)) (l : nat) (r : LaneRecord) : Prop :=
  records !! l = Some (Some r) /\ r_addr r = addr /\ lane_free used l = true.

(** What the scan has established over the records seen so far. *)
Record ScanInv (addr kcv used : Z) (seen : list (option LaneRecord))
    (acc : option LaneBinding * option nat) : Prop := {
  scan_none : fst acc = None -> forall l r, own addr used seen l r -> r_kcv r <> kcv;
  scan_some : forall b, fst acc = Some b ->
    b_fresh b = false /\
    (exists r, own addr used seen (b_index b) r /\ r_kcv r = kcv /\ b_seen b = r_seen r) /\
    (forall l r, own addr used seen l r -> r_kcv r = kcv -> r_seen r <= b_seen b);
  stale_none : snd acc = None -> forall l r, own addr used seen l r -> r_kcv r = kcv;
  stale_some : forall l, snd acc = Some l ->
    (exists r, own addr used seen l r /\ r_kcv r <> kcv) /\
    (forall l' r, own addr used seen l' r -> r_kcv r <> kcv -> (l <= l')%nat);
}.

Lemma own_snoc addr used seen rec l r :
  own addr used (seen ++ [rec]) l r <->
  own addr used seen l r \/
  (l = length seen /\ rec = Some r /\ r_addr r = addr /\ lane_free used l = true).
Proof.
  unfold own. rewrite lookup_app. destruct (seen !! l) as [x|] eqn:Hl.
  - pose proof (lookup_lt_Some _ _ _ Hl). split; [tauto|].
    intros [?|(-> & _)]; [done | lia].
  - apply lookup_ge_None in Hl. rewrite list_lookup_singleton_Some. split.
    + intros ((? & ->) & ? & ?). right. split_and!; try done. lia.
    + intros [(? & _)|(-> & -> & ? & ?)]; [done|]. split_and!; try done. lia.
Qed.

Lemma own_lt addr used seen l r : own addr used seen l r -> (l < length seen)%nat.
Proof. intros [H _]. by apply lookup_lt_Some in H. Qed.

Lemma own_step_inv addr kcv used seen acc rec :
  ScanInv addr kcv used seen acc ->
  ScanInv addr kcv used (seen ++ [rec]) (own_step addr kcv used acc (length seen) rec).
Proof.
  intros [Hn Hs Hsn Hss]. destruct acc as [restore stale]; simpl in *.
  assert (Hskip : (forall r, rec = Some r -> r_addr r = addr -> lane_free used (length seen) = true -> False) ->
    ScanInv addr kcv used (seen ++ [rec]) (restore, stale)).
  { intros Hno.
    assert (Heq : forall l r, own addr used (seen ++ [rec]) l r <-> own addr used seen l r).
    { intros l r. rewrite own_snoc. split; [|tauto]. intros [?|(-> & ? & ? & ?)]; [done|].
      exfalso. eauto. }
    constructor; simpl; setoid_rewrite Heq; done. }
  destruct rec as [r|]; simpl; [|apply Hskip; intros r H; discriminate H].
  destruct (r_addr r =? addr) eqn:Ha; simpl; bool_hyps;
    [|apply Hskip; intros r' [= <-] ? ?; congruence].
  destruct (lane_free used (length seen)) eqn:Hf; simpl;
    [|apply Hskip; intros r' [= <-] ? ?; congruence].
  assert (Hown : forall l r', own addr used (seen ++ [Some r]) l r' ->
                   own addr used seen l r' \/ (l = length seen /\ r' = r)).
  { intros l r' [?|(-> & [= <-] & _)]%own_snoc; auto. }
  assert (Hold : forall l r', own addr used seen l r' -> own addr used (seen ++ [Some r]) l r').
  { intros l r' ?. apply own_snoc. auto. }
  assert (Hnew : own addr used (seen ++ [Some r]) (length seen) r).
  { apply own_snoc. auto 6. }
  destruct (r_kcv r =? kcv) eqn:Hk; simpl; bool_hyps.
  - assert (Hstale : snd (restore, stale) = None -> forall l r', own addr used (seen ++ [Some r]) l r' -> r_kcv r' = kcv).
    { intros H l r' [?|[-> ->]]%Hown; eauto. }
    assert (Hstale' : forall l, snd (restore, stale) = Some l ->
      (exists r', own addr used (seen ++ [Some r]) l r' /\ r_kcv r' <> kcv) /\
      (forall l' r', own addr used (seen ++ [Some r]) l' r' -> r_kcv r' <> kcv -> (l <= l')%nat)).
    { intros l H. destruct (Hss l H) as [(r' & ? & ?) Hmin]. split; [eauto|].
      intros l' r'' [?|[-> ->]]%Hown ?; [eauto | congruence]. }
    assert (Hrec : forall m, (forall l r', own addr used seen l r' -> r_kcv r' = kcv -> r_seen r' <= m) ->
      r_seen r <= m -> forall l r', own addr used (seen ++ [Some r]) l r' -> r_kcv r' = kcv -> r_seen r' <= m).
    { intros m Hm ? l r' [?|[-> ->]]%Hown ?; eauto. }
    destruct restore as [b|]; [destruct (b_seen b <? r_seen r) eqn:Hb; bool_hyps|];
      (constructor; simpl; [done | | exact Hstale | exact Hstale']).
    + intros b' [= <-]. simpl. destruct (Hs b eq_refl) as (_ & _ & Hmax). split_and!; [done | by exists r|].
      apply Hrec; [|lia]. intros l r' Hl Hkl. specialize (Hmax l r' Hl Hkl). lia.
    + intros b' [= <-]. destruct (Hs b eq_refl) as (? & (r' & ? & ?) & Hmax).
      split_and!; [done | exists r'; auto | by apply Hrec].
    + intros b' [= <-]. simpl. split_and!; [done | by exists r|]. apply Hrec; [|lia].
      intros l r' Hl Hkl. exfalso. by apply (Hn eq_refl l r' Hl).
  - constructor; simpl.
    + intros H l r' [?|[-> ->]]%Hown; eauto.
    + intros b Hb. destruct (Hs b Hb) as (? & (r' & ? & ?) & Hmax). split_and!; [done | exists r'; auto|].
      intros l r'' [?|[-> ->]]%Hown ?; [eauto | congruence].
    + by destruct stale.
    + destruct stale as [l0|]; intros l [= <-].
      * destruct (Hss l0 eq_refl) as [(r' & ? & ?) Hmin]. split; [eauto|].
        intros l' r'' [?|[-> ->]]%Hown ?; [eauto|]. eapply Nat.lt_le_incl, own_lt; eauto.
      * split; [by exists r|]. intros l' r' [Ho|[-> ->]]%Hown Hne; [|lia].
        exfalso. by apply Hne, (Hsn eq_refl l' r').
Qed.

Lemma own_scan_inv addr kcv used suf seen acc :
  ScanInv addr kcv used seen acc ->
  ScanInv addr kcv used (seen ++ suf) (own_scan addr kcv used (length seen) suf acc).
Proof.
  revert seen acc. induction suf as [|rec suf IH]; intros seen acc HI; simpl.
  - by rewrite app_nil_r.
  - rewrite (cons_middle rec seen suf), app_assoc.
    replace (S (length seen)) with (length (seen ++ [rec])) by (rewrite length_app; simpl; lia).
    apply IH. by apply own_step_inv.
Qed.

Lemma own_scan_all addr kcv used records :
  ScanInv addr kcv used records (own_scan addr kcv used 0 records (None, None)).
Proof.
  apply (own_scan_inv addr kcv used records []). constructor; simpl; try done;
    intros _ ? ? [H _]; by rewrite lookup_nil in H.
Qed.

Lemma find_index_Some n p l :
  find_index n p = Some l <-> (l < n)%nat /\ p l = true /\ forall l', (l' < l)%nat -> p l' = false.
Proof.
  unfold find_index.
  assert (H : forall k m, List.find p (seq k m) = Some l <->
    (k <= l < k + m)%nat /\ p l = true /\ forall l', (k <= l' < l)%nat -> p l' = false).
  { intros k m. revert k. induction m as [|m IH]; intros k; simpl.
    - split; [done | lia].
    - destruct (p k) eqn:Hp.
      + split.
        * intros [= <-]. split_and!; [lia.. | done|]. lia.
        * intros (Hk & Hl & Hmin). destruct (Nat.eq_dec k l) as [->|]; [done|].
          specialize (Hmin k ltac:(lia)). congruence.
      + rewrite IH. split; intros (Hk & Hl & Hmin); split_and!; try done; try lia.
        * intros l' ?. destruct (Nat.eq_dec k l') as [->|]; [done|]. apply Hmin. lia.
        * destruct (Nat.eq_dec k l) as [->|]; [congruence | lia].
        * intros. apply Hmin. lia. }
  rewrite H. split; intros (Hk & Hl & Hmin); split_and!; try done; try lia; intros; apply Hmin; lia.
Qed.
Lemma find_index_None n p : find_index n p = None <-> forall l, (l < n)%nat -> p l = false.
Proof.
  unfold find_index. split.
  - intros H l Hl. apply (List.find_none _ _ H). apply List.in_seq. lia.
  - intros H. destruct (List.find p (seq 0 n)) as [l|] eqn:Hf; [|done].
    apply List.find_some in Hf as [Hin Hp]. apply List.in_seq in Hin. rewrite H in Hp; [done | lia].
Qed.

Lemma lane_free_own_none addr kcv used records :
  own_scan addr kcv used 0 records (None, None) = (None, None) ->
  forall l r, ~ own addr used records l r.
Proof.
  intros He l r Ho. pose proof (own_scan_all addr kcv used records) as [Hn _ Hsn _].
  rewrite He in *. exact (Hn eq_refl l r Ho (Hsn eq_refl l r Ho)).
Qed.

(** lane assignment, all branches. A binding is an in-range local no live peer occupies. It
    restores exactly when the address has a record under the same key, and then the highest
    last-seen of them. A fresh binding starts at 0 and destroys another peer's record only when
    the address has no record of its own and no never-written local is left. There is no binding
    only when every local is taken. *)
Theorem assign_lane_spec addr kcv records used :
  match assign_lane addr kcv records used with
  | Some b =>
      (b_index b < length records)%nat /\ lane_free used (b_index b) = true /\
      if b_fresh b then
        b_seen b = 0 /\
        (forall l r, own addr used records l r -> r_kcv r <> kcv) /\
        (forall r, records !! b_index b = Some (Some r) -> r_addr r <> addr ->
           (forall l r', ~ own addr used records l r') /\
           forall l, lane_free used l = true -> records !! l <> Some None)
      else
        (exists r, own addr used records (b_index b) r /\ r_kcv r = kcv /\ b_seen b = r_seen r) /\
        (forall l r, own addr used records l r -> r_kcv r = kcv -> r_seen r <= b_seen b)
  | None => forall l, (l < length records)%nat -> lane_free used l = false
  end.
Proof.
  unfold assign_lane. pose proof (own_scan_all addr kcv used records) as [Hn Hs Hsn Hss].
  destruct (own_scan _ _ _ _ _ _) as [[b|] [l|]] eqn:Hscan; simpl in *.
  1, 2: destruct (Hs b eq_refl) as (-> & (r & Ho & ? & ?) & Hmax); split_and!;
    [by eapply own_lt | apply Ho | by exists r | done].
  - destruct (Hss l eq_refl) as [(r & Ho & ?) _]. split_and!;
      [by eapply own_lt | apply Ho | done | exact (Hn eq_refl)|].
    intros r' Hr' Hne. exfalso. apply Hne. destruct Ho as (Ho & Ha & _). congruence.
  - pose proof (lane_free_own_none _ _ _ _ Hscan) as Hno.
    destruct (find_index _ _) as [l|] eqn:Hf; simpl.
    + apply find_index_Some in Hf as (Hl & Hp & _). apply andb_true_iff in Hp as [? Hp].
      split_and!; [done | done | done | by intros ? ? ?%Hno|]. intros r Hr. by rewrite Hr in Hp.
    + rewrite find_index_None in Hf. destruct (find_index _ (lane_free used)) as [l|] eqn:Hf'; simpl.
      * apply find_index_Some in Hf' as (Hl & Hp & _). split_and!; [done | done | done | by intros ? ? ?%Hno|].
        intros r Hr _. split; [done|]. intros l' Hfree Hl'. specialize (Hf l' (lookup_lt_Some _ _ _ Hl')).
        by rewrite Hfree, Hl' in Hf.
      * by apply find_index_None.
Qed.

(** ** Witnesses *)

Definition rx_example : Rx := fst (receive P (fst (receive P fresh_rx 5)) 9).

Lemma rx_example_reachable : reachable P rx_example.
Proof.
  eapply rtc_r; [eapply rtc_r; [reflexivity|]|]; (constructor; mlia).
Qed.

Lemma session_delivers_once_witness :
  session rx_example = [9; 5] /\
  (StronglySorted Z.gt (session rx_example) /\ NoDup (session rx_example) /\ ~ In 0 (session rx_example)).
Proof. split; [reflexivity|]. apply (session_delivers_once P), rx_example_reachable. Defined.

Lemma replay_window_bounded_witness :
  Z.of_nat (length (filter (fun c => classify (lane (reset rx_example)) c = Fresh) (session rx_example)))
    < persist_period P <= P.
Proof. apply (replay_window_bounded P), rx_example_reachable. Defined.
