(* ===== verification/NetWire.v ===== *)
(** Addresses, CCM nonces and ACK resolution: crates/net/src/{addr,nonce,ack}.rs. *)
From S2P Require Import Prelude Bytes.

(** ** Addresses (addr.rs) *)

Definition ADDR_UNASSIGNED : Z := 0.
Definition ADDR_BROADCAST : Z := 4294967295.
#[export] Hint Unfold ADDR_UNASSIGNED ADDR_BROADCAST : machine.

Definition is_reserved_addr (addr : Z) : bool :=
  (addr =? ADDR_UNASSIGNED) || (addr =? ADDR_BROADCAST).
Definition peer_addr_valid (peer own : Z) : bool :=
  negb (is_reserved_addr peer) && negb (peer =? own).

(** ** Nonces (nonce.rs) *)

Definition NONCE_LEN : Z := 13.
#[export] Hint Unfold NONCE_LEN : machine.

Definition nonce_for (src counter bulk_index : Z) : list Z :=
  let n := zeros NONCE_LEN in
  let n := patch n 0 (le_bytes 4 src) in
  let n := patch n 4 (le_bytes 4 counter) in
  let b := le_bytes 4 bulk_index in
  patch n 8 (slice b 0 3).

(** ** ACKs (ack.rs) *)

Definition ACK_LEN : Z := 6.
#[export] Hint Unfold ACK_LEN : machine.
Definition PENDING : Z := Z.shiftl 1 0.

Record AckMeta := { rssi : Z; pending : bool }.

(** [b as i8] of a byte. *)
Definition as_i8 (b : Z) : Z := if b <? 128 then b else b - 256.

Definition ack_meta (payload : list Z) : option AckMeta :=
  match payload with
  | [_; _; _; _; rssi; flags] =>
      Some {| rssi := as_i8 rssi; pending := negb (Z.land flags PENDING =? 0) |}
  | _ => None
  end.

Inductive AckVerdict := Resolved | Ignore.
#[global] Instance AckVerdict_eq_dec : EqDecision AckVerdict.
Proof. solve_decision. Defined.

Record AckWait := { me : Z; peer : Z; counter : Z; resolved : bool }.

Definition ack_new (me peer counter : Z) : AckWait :=
  {| me := me; peer := peer; counter := counter; resolved := false |}.

Definition offer (w : AckWait) (is_ack : bool) (src dest : Z) (payload : list Z)
  : AckWait * AckVerdict :=
  if resolved w then (w, Ignore)
  else if negb is_ack || negb (src =? peer w) || negb (dest =? me w) then (w, Ignore)
  else match payload with
       | [a; b; c; d; _; _] =>
           if le_val [a; b; c; d] =? counter w then
             ({| me := me w; peer := peer w; counter := counter w; resolved := true |}, Resolved)
           else (w, Ignore)
       | _ => (w, Ignore)
       end.

(** One authenticated frame heard in the ACK window. *)
Record Heard := { h_is_ack : bool; h_src : Z; h_dest : Z; h_payload : list Z }.

(** The verdicts over all the frames of a window. *)
Fixpoint window (w : AckWait) (frames : list Heard) : list AckVerdict :=
  match frames with
  | [] => []
  | f :: frames =>
      let '(w, v) := offer w (h_is_ack f) (h_src f) (h_dest f) (h_payload f) in
      v :: window w frames
  end.

(** What the window is waiting for, stated on the frame: an ACK from the peer to us whose payload
    is the acknowledged counter, little endian, then two bytes. *)
Definition acks (me peer counter : Z) (f : Heard) : Prop :=
  h_is_ack f = true /\ h_src f = peer /\ h_dest f = me /\
  exists rssi flags, h_payload f = le_bytes 4 counter ++ [rssi; flags].

(** ** Nonces are injective *)

Lemma nonce_for_layout src counter bulk :
  nonce_for src counter bulk =
    le_bytes 4 src ++ le_bytes 4 counter ++ slice (le_bytes 4 bulk) 0 3 ++ [0; 0].
Proof. reflexivity. Qed.

Lemma le_bytes_4_mod v w : le_bytes 4 v = le_bytes 4 w <-> v mod 2 ^ 32 = w mod 2 ^ 32.
Proof.
  change (2 ^ 32) with (256 ^ Z.of_nat 4). rewrite <- !le_val_le_bytes_mod. split; [by intros ->|].
  intros H. apply le_val_inj; auto with tower; zl.
Qed.
Lemma le_bytes_3_of_4 v : slice (le_bytes 4 v) 0 3 = le_bytes 3 v.
Proof. reflexivity. Qed.
Lemma le_bytes_3_mod v w : le_bytes 3 v = le_bytes 3 w <-> v mod 2 ^ 24 = w mod 2 ^ 24.
Proof.
  change (2 ^ 24) with (256 ^ Z.of_nat 3). rewrite <- !le_val_le_bytes_mod. split; [by intros ->|].
  intros H. apply le_val_inj; auto with tower; zl.
Qed.

(** The four counter bytes of a nonce. *)
Lemma nonce_counter src counter bulk src' counter' bulk' : u32_ok counter -> u32_ok counter' ->
  nonce_for src counter bulk = nonce_for src' counter' bulk' -> counter = counter'.
Proof.
  intros Hc Hc' H. apply u32_bytes_inj; [done..|]. apply (f_equal (fun l => slice l 4 4)) in H. exact H.
Qed.
(** Its three bulk index bytes. *)
Lemma nonce_bulk src counter bulk src' counter' bulk' : 0 <= bulk < 2 ^ 24 -> 0 <= bulk' < 2 ^ 24 ->
  nonce_for src counter bulk = nonce_for src' counter' bulk' -> bulk = bulk'.
Proof.
  intros Hb Hb' H. apply (f_equal (fun l => slice l 8 3)) in H. change (le_bytes 3 bulk = le_bytes 3 bulk') in H.
  apply le_bytes_3_mod in H. by rewrite !Z.mod_small in H.
Qed.
Lemma app_inj_len {A} (a b c d : list A) : length a = length b -> a ++ c = b ++ d <-> a = b /\ c = d.
Proof.
  intros Hl. split; [intros H; by apply app_inj_1 in H | by intros [-> ->]].
Qed.

(** the nonce determines the frame: two nonces are equal exactly when sender and counter
    (32-bit) are equal and the bulk indices agree in their low 24 bits, the three bytes the
    layout keeps. In particular a peer address accepted by [peer_addr_valid] never shares a nonce
    with our own frames. *)
Theorem nonce_for_eq_iff src counter bulk src' counter' bulk' :
  u32_ok src -> u32_ok counter -> u32_ok src' -> u32_ok counter' ->
  (nonce_for src counter bulk = nonce_for src' counter' bulk' <->
     src = src' /\ counter = counter' /\ bulk mod 2 ^ 24 = bulk' mod 2 ^ 24) /\
  (peer_addr_valid src src' = true ->
     nonce_for src counter bulk <> nonce_for src' counter' bulk').
Proof.
  intros Hs Hc Hs' Hc'.
  assert (Heq : nonce_for src counter bulk = nonce_for src' counter' bulk' <->
     src = src' /\ counter = counter' /\ bulk mod 2 ^ 24 = bulk' mod 2 ^ 24).
  { rewrite !nonce_for_layout, !le_bytes_3_of_4, !app_inj_len by (by rewrite !length_le_bytes).
    rewrite <- le_bytes_3_mod. split.
    - intros (? & ? & ? & _). split_and!; by apply u32_bytes_inj || done.
    - by intros (-> & -> & ->). }
  split; [done|]. intros Hv H. apply Heq in H as (-> & _).
  unfold peer_addr_valid in Hv. rewrite Z.eqb_refl, andb_false_r in Hv. done.
Qed.

Lemma nonce_for_eq_iff_witness :
  peer_addr_valid 7 9 = true /\ nonce_for 7 5 0 <> nonce_for 9 5 0.
Proof.
  split; [reflexivity|].
  apply (nonce_for_eq_iff 7 5 0 9 5 0); [mlia | mlia | mlia | mlia | reflexivity].
Defined.

(** ** Delivery resolution *)

Lemma offer_spec w f :
  bytes_ok (h_payload f) -> u32_ok (counter w) -> resolved w = false ->
  (acks (me w) (peer w) (counter w) f ->
     offer w (h_is_ack f) (h_src f) (h_dest f) (h_payload f) =
       ({| me := me w; peer := peer w; counter := counter w; resolved := true |}, Resolved)) /\
  (~ acks (me w) (peer w) (counter w) f ->
     offer w (h_is_ack f) (h_src f) (h_dest f) (h_payload f) = (w, Ignore)).
Proof.
  intros Hp Hc Hr. unfold offer. rewrite Hr. split.
  - intros (-> & -> & -> & rs & fl & Hf). rewrite Hf, !Z.eqb_refl. cbn [negb orb].
    pose proof (le_val_u32 _ Hc) as He. cbn [le_bytes app] in He |- *. by rewrite He, Z.eqb_refl.
  - intros Hno. destruct (_ || _) eqn:Hg; [done|]. bool_hyps.
    destruct (h_payload f) as [|a [|b [|c [|d [|r [|fl [|]]]]]]] eqn:Hpl; try done.
    split_if; [|done]. exfalso. apply Hno. split_and!; try done. exists r, fl.
    assert (Hok : bytes_ok [a; b; c; d]) by (by apply (bytes_ok_app [a; b; c; d] [r; fl])).
    pose proof (le_bytes_le_val _ Hok) as He. cbn [length] in He.
    rewrite Hif in He. by rewrite He.
Qed.

Lemma window_resolved w frames :
  resolved w = true -> window w frames = replicate (length frames) Ignore.
Proof.
  intros Hr. induction frames as [|f frames IH]; [done|]. cbn [window length replicate]. unfold offer. by rewrite Hr, IH.
Qed.

#[global] Instance acks_dec me peer counter f : Decision (acks me peer counter f).
Proof.
  refine (cast_if (decide (h_is_ack f = true /\ h_src f = peer /\ h_dest f = me /\
    length (h_payload f) = 6%nat /\ take 4 (h_payload f) = le_bytes 4 counter))).
  - destruct a as (Ha & Hs & Hd & Hl & Ht). unfold acks. split_and!; [done..|].
    destruct (h_payload f) as [|a [|b [|c [|d [|r [|fl [|]]]]]]]; try done.
    exists r, fl. by rewrite <- Ht.
  - intros (? & ? & ? & r & fl & Hp). apply n. by rewrite Hp.
Defined.

(** an ACK window resolves at most once, at the first frame that is an ACK from the peer to
    us for exactly the awaited counter; every frame before it (foreign, stale, malformed) and
    every frame after it (duplicates) is ignored. Without such a frame nothing resolves. *)
Theorem ack_window_first_match me peer counter frames :
  u32_ok counter -> Forall (fun f => bytes_ok (h_payload f)) frames ->
  (exists before f after,
     frames = before ++ f :: after /\ Forall (fun f => ~ acks me peer counter f) before /\
     acks me peer counter f /\
     window (ack_new me peer counter) frames =
       replicate (length before) Ignore ++ Resolved :: replicate (length after) Ignore) \/
  (Forall (fun f => ~ acks me peer counter f) frames /\
   window (ack_new me peer counter) frames = replicate (length frames) Ignore).
Proof.
  intros Hc. induction 1 as [|f frames Hf _ IH]; [by right|].
  destruct (offer_spec (ack_new me peer counter) f Hf Hc eq_refl) as [Hyes Hno].
  cbn [NetWire.me NetWire.peer NetWire.counter ack_new] in Hyes, Hno. cbn [window]. destruct (decide (acks me peer counter f)) as [Ha|Ha].
  - left. exists [], f, frames. rewrite (Hyes Ha). split_and!; [done | constructor | done|].
    cbn [length replicate app]. by rewrite window_resolved.
  - rewrite (Hno Ha). destruct IH as [(before & g & after & -> & Hb & Hg & Hw)|[Hb Hw]].
    + left. exists (f :: before), g, after. split_and!; [done | by constructor | done|].
      by rewrite Hw.
    + right. split; [by constructor|]. by rewrite Hw.
Qed.

Lemma ack_window_first_match_witness :
  let frames := [ {| h_is_ack := true; h_src := 2; h_dest := 1; h_payload := [6; 0; 0; 0; 200; 1] |};
                  {| h_is_ack := true; h_src := 2; h_dest := 1; h_payload := [5; 0; 0; 0; 200; 1] |};
                  {| h_is_ack := true; h_src := 2; h_dest := 1; h_payload := [5; 0; 0; 0; 200; 1] |} ] in
  window (ack_new 1 2 5) frames = [Ignore; Resolved; Ignore] /\
  exists before f after, frames = before ++ f :: after /\
    window (ack_new 1 2 5) frames =
      replicate (length before) Ignore ++ Resolved :: replicate (length after) Ignore.
Proof.
  intros frames. split; [reflexivity|].
  destruct (ack_window_first_match 1 2 5 frames) as [(b & f & a & ? & ? & ? & ?)|[_ H]].
  - mlia.
  - repeat constructor; unfold byte_ok; simpl; lia.
  - exists b, f, a. by split.
  - discriminate H.
Defined.

(** The metadata of an accepted ACK is always present. *)
Lemma acks_meta me peer counter f : acks me peer counter f -> is_Some (ack_meta (h_payload f)).
Proof. intros (_ & _ & _ & r & fl & ->). by eexists. Qed.
