(* ===== verification/NetPairing.v ===== *)
(** OTA pairing admission (crates/net/src/pairing.rs) and the commit round its client runs
    (firmware/apps/radio_push_button.rs). *)
From S2P Require Import Prelude Bytes NetWire NetReplay.

Definition handshake_fits (remaining_ms handshake_ms : Z) : bool := handshake_ms <=? remaining_ms.

Definition COMMIT_ATTEMPTS : Z := 6.
Definition COMMIT_SETTLE_MS : Z := 500.
Definition COMMIT_RETRY_MS : Z := 2000.
Definition GATEWAY_COMMIT_STALL_MS : Z := 6000.
#[export] Hint Unfold COMMIT_ATTEMPTS COMMIT_SETTLE_MS COMMIT_RETRY_MS GATEWAY_COMMIT_STALL_MS : machine.

Inductive CommitStep := Commit | Retry (after_ms : Z) | Discard.

Definition commit_step (attempt : Z) (delivered : bool) : CommitStep :=
  if delivered then Commit
  else if COMMIT_ATTEMPTS <=? attempt then Discard
  else Retry COMMIT_RETRY_MS.

Definition join_request_admissible (joiner own : Z) (registered : bool) : bool :=
  peer_addr_valid joiner own && negb registered.

Definition join_response_for (dest src joiner : Z) : bool :=
  (dest =? joiner) && negb (is_reserved_addr src) && negb (src =? joiner).

Definition keyed_req_valid (payload : list Z) (src : Z) : bool :=
  (4 <=? zlen payload) &&
  (le_val [byte_at payload 0; byte_at payload 1; byte_at payload 2; byte_at payload 3] =? src).

Definition keyed_req_admit (registered : bool) (verdict : ReplayVerdict) : bool :=
  registered && bool_decide (verdict = Fresh).

Definition keyed_resp_matches (payload : list Z) (req_counter : Z) : bool :=
  (4 <=? zlen payload) &&
  (le_val [byte_at payload 0; byte_at payload 1; byte_at payload 2; byte_at payload 3] =? req_counter).

(** ** The commit round

    The loop of [pair_on_air]: [send a t] is the confirmed uplink of attempt [a] started at time
    [t] (ms after the JOIN_CONFIRM): whether it was acknowledged, and how long it took. *)
Inductive RoundEnd :=
| Committed (attempt at_ms : Z)
| Discarded (attempt at_ms : Z).

Fixpoint commit_loop (fuel : nat) (send : Z -> Z -> bool * Z) (attempt now : Z) : option RoundEnd :=
  match fuel with
  | O => None
  | S fuel =>
      let attempt := wrap8 (attempt + 1) in
      let '(delivered, took) := send attempt now in
      match commit_step attempt delivered with
      | Commit => Some (Committed attempt (now + took))
      | Retry after_ms => commit_loop fuel send attempt (now + took + after_ms)
      | Discard => Some (Discarded attempt (now + took))
      end
  end.
Definition commit_round (fuel : nat) (send : Z -> Z -> bool * Z) : option RoundEnd :=
  commit_loop fuel send 0 COMMIT_SETTLE_MS.

(** ** Properties *)

Lemma first4 payload v :
  bytes_ok payload -> u32_ok v ->
  (4 <=? zlen payload) &&
  (le_val [byte_at payload 0; byte_at payload 1; byte_at payload 2; byte_at payload 3] =? v) = true <->
  exists rest, payload = le_bytes 4 v ++ rest.
Proof.
  intros Hok Hv. rewrite andb_true_iff, Z.eqb_eq, Z.leb_le. split.
  - intros [Hl He]. destruct payload as [|a [|b [|c [|d rest]]]]; try (unfold zlen in Hl; simpl in Hl; lia).
    exists rest. assert (Habcd : bytes_ok [a; b; c; d]) by (by apply (bytes_ok_app [a; b; c; d] rest)).
    pose proof (le_bytes_le_val _ Habcd) as H. cbn [length] in H.
    unfold byte_at in He. simpl nth in He. rewrite He in H. by rewrite H.
  - intros [rest ->]. rewrite zlen_app, zlen_le_bytes. split; [pose proof (zlen_nonneg rest); lia|].
    exact (le_val_u32 _ Hv).
Qed.

(** the admission rules. The gateway answers a JOIN_REQ only for a new, non-reserved address
    that is not its own; a keyed request is valid exactly when it starts with the sender's
    address, and a keyed response matches exactly when it starts with the counter of this
    request: a response echoing any other counter is refused. *)
Theorem join_admission joiner own registered payload v :
  bytes_ok payload -> u32_ok v ->
  (join_request_admissible joiner own registered = true <->
     joiner <> ADDR_UNASSIGNED /\ joiner <> ADDR_BROADCAST /\ joiner <> own /\ registered = false) /\
  (keyed_req_valid payload v = true <-> exists rest, payload = le_bytes 4 v ++ rest) /\
  (keyed_resp_matches payload v = true <-> exists rest, payload = le_bytes 4 v ++ rest) /\
  (forall v', u32_ok v' -> keyed_resp_matches payload v = true ->
     keyed_resp_matches payload v' = true -> v = v').
Proof.
  intros Hok Hv. split_and!.
  - unfold join_request_admissible, peer_addr_valid, is_reserved_addr.
    rewrite !andb_true_iff, !negb_true_iff, orb_false_iff, !Z.eqb_neq. tauto.
  - by apply first4.
  - by apply first4.
  - intros v' Hv' [r Hr]%first4 [r' Hr']%first4; try done. rewrite Hr in Hr'.
    apply app_inj_1 in Hr' as [He _]; [by apply u32_bytes_inj | by rewrite !length_le_bytes].
Qed.

Lemma join_admission_witness :
  join_request_admissible 5 9 false = true /\
  (keyed_resp_matches [7; 0; 0; 0] 7 = true <-> exists rest, [7; 0; 0; 0] = le_bytes 4 7 ++ rest).
Proof.
  split; [reflexivity|]. apply (join_admission 5 9 false [7; 0; 0; 0] 7); [|mlia].
  repeat constructor; unfold byte_ok; lia.
Defined.

(** One step of the loop, for attempts in range. *)
Lemma commit_loop_S fuel send a now :
  0 <= a < 255 ->
  commit_loop (S fuel) send a now =
    match commit_step (a + 1) (fst (send (a + 1) now)) with
    | Commit => Some (Committed (a + 1) (now + snd (send (a + 1) now)))
    | Retry after_ms => commit_loop fuel send (a + 1) (now + snd (send (a + 1) now) + after_ms)
    | Discard => Some (Discarded (a + 1) (now + snd (send (a + 1) now)))
    end.
Proof.
  intros. cbn [commit_loop]. rewrite wrap8_small by mlia. by destruct (send (a + 1) now).
Qed.

(** The state of the loop after [k] failed attempts, as a relation between attempt and time. *)
Lemma commit_loop_run send n a now :
  (forall x t, 0 <= snd (send x t)) ->
  0 <= a -> a + Z.of_nat n = COMMIT_ATTEMPTS -> (0 < n)%nat ->
  COMMIT_SETTLE_MS + a * COMMIT_RETRY_MS <= now ->
  exists o, commit_loop n send a now = Some o /\
    match o with
    | Committed x t => a < x <= COMMIT_ATTEMPTS /\ exists t', fst (send x t') = true /\ now <= t' <= t
    | Discarded x t =>
        x = COMMIT_ATTEMPTS /\ now <= t /\
        forall y, a < y <= COMMIT_ATTEMPTS ->
          exists t', COMMIT_SETTLE_MS + (y - 1) * COMMIT_RETRY_MS <= t' <= t /\ fst (send y t') = false
    end.
Proof.
  intros Hd. revert a now. induction n as [|n IH]; intros a now Ha Hn Hpos Hnow; [lia|].
  rewrite commit_loop_S by mlia. pose proof (Hd (a + 1) now) as Hd1.
  unfold commit_step. destruct (fst (send (a + 1) now)) eqn:Hs.
  - eexists; split; [done|]. simpl. split; [mlia|]. exists now. split; [done | lia].
  - destruct (COMMIT_ATTEMPTS <=? a + 1) eqn:Hl; bool_hyps.
    + eexists; split; [done|]. simpl. split_and!; [mlia | lia|]. intros y Hy.
      replace y with (a + 1) by mlia. exists now. split; [mlia | done].
    + destruct (IH (a + 1) (now + snd (send (a + 1) now) + COMMIT_RETRY_MS)) as (o & -> & Ho);
        [lia | mlia | mlia | mlia|].
      exists o. split; [done|]. destruct o as [x t|x t].
      * destruct Ho as (? & t' & ? & ?). split; [lia|]. exists t'. split; [done | mlia].
      * destruct Ho as (-> & ? & Ho). split_and!; [done | mlia|]. intros y Hy.
        destruct (Z.eq_dec y (a + 1)) as [->|]; [|apply Ho; lia].
        exists now. split; [mlia | done].
Qed.

(** the commit round ends after at most [COMMIT_ATTEMPTS] attempts. It commits only on an
    acknowledged attempt, and discards only after all of them went unacknowledged. It outlasts
    the gateway's commit stall: if the gateway acknowledges every attempt that starts after the
    stall, save for any one lost attempt, the key is committed. *)
Theorem commit_round_outlasts_stall send :
  (forall x t, 0 <= snd (send x t)) ->
  exists o, commit_round (Z.to_nat COMMIT_ATTEMPTS) send = Some o /\
    (forall x t, o = Committed x t -> 1 <= x <= COMMIT_ATTEMPTS /\ exists t', fst (send x t') = true) /\
    (forall x t, o = Discarded x t -> GATEWAY_COMMIT_STALL_MS < t /\
       forall y, 1 <= y <= COMMIT_ATTEMPTS -> exists t', fst (send y t') = false) /\
    (forall lost,
       (forall x t, GATEWAY_COMMIT_STALL_MS < t -> x <> lost -> fst (send x t) = true) ->
       exists x t, o = Committed x t).
Proof.
  intros Hd. unfold commit_round.
  destruct (commit_loop_run send (Z.to_nat COMMIT_ATTEMPTS) 0 COMMIT_SETTLE_MS) as (o & -> & Ho);
    [done | lia | mlia | mlia | mlia|].
  exists o. split; [done|]. split_and!.
  - intros x t ->. destruct Ho as (? & t' & ? & _). split; [lia|]. by exists t'.
  - intros x t ->. destruct Ho as (_ & _ & Ho). split.
    + destruct (Ho COMMIT_ATTEMPTS) as (t' & ? & _); mlia.
    + intros y Hy. destruct (Ho y) as (t' & _ & ?); [lia|]. by exists t'.
  - intros lost Hack. destruct o as [x t|x t]; [by eauto|]. exfalso. destruct Ho as (_ & _ & Ho).
    destruct (Z.eq_dec lost 6) as [->|Hne].
    + destruct (Ho 5) as (t' & ? & Hf); [mlia|]. rewrite Hack in Hf; [done | mlia | lia].
    + destruct (Ho 6) as (t' & ? & Hf); [mlia|]. rewrite Hack in Hf; [done | mlia | lia].
Qed.

Lemma commit_round_outlasts_stall_witness :
  let send := fun x t : Z => (bool_decide (6000 < t /\ x <> 4), 700) in
  commit_round 6 send = Some (Committed 5 12000) /\
  exists x t, commit_round 6 send = Some (Committed x t).
Proof.
  intros send. split; [vm_compute; reflexivity|].
  destruct (commit_round_outlasts_stall send) as (o & Ho & _ & _ & H); [intros; simpl; lia|].
  destruct (H 4) as (x & t & ->).
  - intros x t Ht Hx. apply bool_decide_eq_true. split; [exact Ht | exact Hx].
  - exists x, t. exact Ho.
Defined.
