(* ===== verification/NetEpoch.v ===== *)
(** The FHSS beacon-epoch acceptance machine (crates/net/src/epoch.rs) and the acquisition half of
    its client, the node's scan (firmware/src/radio/net/fhss.rs). *)
From stdpp Require Import relations.
From S2P Require Import Prelude.

Definition ACQUIRE_SLOT_SLACK : Z := 3.
Definition FHSS_RESYNC_SLACK : Z := 2.
Definition REACQUIRE_LIMIT : Z := 24.
Definition DRIFT_PPM : Z := 100.
Definition FHSS_SLOT_MS : Z := 300.
#[export] Hint Unfold ACQUIRE_SLOT_SLACK FHSS_RESYNC_SLACK REACQUIRE_LIMIT DRIFT_PPM FHSS_SLOT_MS : machine.

Definition reacquire_slack_ms (since_beacon_ms max_ms : Z) : option Z :=
  let slack := div_ceil (sat_mul u64_max since_beacon_ms DRIFT_PPM) 1000000 in
  if slack <=? max_ms then Some slack else None.

Definition next_master_epoch (stored : option Z) : Z := sat_add u32_max (default 0 stored) 1.

Inductive TrackVerdict := ReAnchor | TIgnore.
Inductive MissVerdict := KeepPredicting | Rescan.
Inductive ScanVerdict := Reject | Hold (replaced : bool) | Lock.
#[global] Instance TrackVerdict_eq_dec : EqDecision TrackVerdict.
Proof. solve_decision. Defined.
#[global] Instance MissVerdict_eq_dec : EqDecision MissVerdict.
Proof. solve_decision. Defined.
#[global] Instance ScanVerdict_eq_dec : EqDecision ScanVerdict.
Proof. solve_decision. Defined.

Record EpochGate := { epoch : Z; miss : Z; candidate : option (Z * Z) }.

Definition gate_new : EpochGate := {| epoch := 0; miss := 0; candidate := None |}.
Definition gate_reset (g : EpochGate) (e : Z) : EpochGate := {| epoch := e; miss := 0; candidate := None |}.

Definition offer_tracked (g : EpochGate) (e slot_abs predicted_slot : Z) : EpochGate * TrackVerdict :=
  if (epoch g <=? e) && (abs_diff slot_abs predicted_slot <=? FHSS_RESYNC_SLACK) then
    ({| epoch := e; miss := 0; candidate := candidate g |}, ReAnchor)
  else (g, TIgnore).

Definition beacon_missed (g : EpochGate) : EpochGate * MissVerdict :=
  let g := {| epoch := epoch g; miss := miss g + 1; candidate := candidate g |} in
  (g, if REACQUIRE_LIMIT <=? miss g then Rescan else KeepPredicting).

Definition offer_scanning (g : EpochGate) (e slot_abs : Z) (elapsed_slots : option Z)
  : EpochGate * ScanVerdict :=
  if e <? epoch g then (g, Reject)
  else
    let consistent :=
      match candidate g, elapsed_slots with
      | Some (e0, s0), Some time_adv =>
          (e0 =? e) && (s0 <? slot_abs) && (abs_diff (slot_abs - s0) time_adv <=? ACQUIRE_SLOT_SLACK)
      | _, _ => false
      end in
    if consistent then ({| epoch := e; miss := 0; candidate := None |}, Lock)
    else
      let replaced :=
        match candidate g with
        | Some (e0, s0) => (e0 <? e) || ((e =? e0) && (s0 <? slot_abs))
        | None => true
        end in
      (if replaced then {| epoch := epoch g; miss := miss g; candidate := Some (e, slot_abs) |} else g,
       Hold replaced).

(** ** The scanning node

    [fhss_node_tick] without an anchor: the gate, and the arrival time of its candidate. *)
Record Scanner := { gate : EpochGate; acquire_t0 : option Z }.

Record Beacon := { b_epoch : Z; b_slot : Z; b_rx : Z }.

Definition scan_beacon (n : Scanner) (b : Beacon) : Scanner * ScanVerdict :=
  let elapsed_slots :=
    option_map (fun t0 => wrap32 (sat_sub (b_rx b) t0 / FHSS_SLOT_MS)) (acquire_t0 n) in
  let '(g, v) := offer_scanning (gate n) (b_epoch b) (b_slot b) elapsed_slots in
  ({| gate := g;
      acquire_t0 := match v with
                    | Reject => acquire_t0 n
                    | Lock => None
                    | Hold true => Some (b_rx b)
                    | Hold false => acquire_t0 n
                    end |}, v).

Fixpoint scan_beacons (n : Scanner) (bs : list Beacon) : Scanner * list ScanVerdict :=
  match bs with
  | [] => (n, [])
  | b :: bs =>
      let '(n, v) := scan_beacon n b in
      let '(n, vs) := scan_beacons n bs in
      (n, v :: vs)
  end.

(** ** A session of the gate *)

Inductive gate_event :=
| EvTracked (e slot predicted : Z)
| EvMissed
| EvScanned (e slot : Z) (elapsed : option Z).

Definition gate_step (g : EpochGate) (ev : gate_event) : EpochGate :=
  match ev with
  | EvTracked e s p => fst (offer_tracked g e s p)
  | EvMissed => fst (beacon_missed g)
  | EvScanned e s t => fst (offer_scanning g e s t)
  end.

(** The event makes the node anchor its clock to a beacon of the given epoch. *)
Definition anchors (g : EpochGate) (ev : gate_event) (e : Z) : Prop :=
  match ev with
  | EvTracked e' s p => e' = e /\ snd (offer_tracked g e' s p) = ReAnchor
  | EvMissed => False
  | EvScanned e' s t => e' = e /\ snd (offer_scanning g e' s t) = Lock
  end.

(** ** Properties *)

Lemma gate_step_epoch g ev : epoch g <= epoch (gate_step g ev).
Proof.
  destruct ev as [e s p| |e s t]; simpl; unfold offer_tracked, offer_scanning;
    repeat (split_if; simpl); mlia.
Qed.
Lemma anchors_epoch g ev e : anchors g ev e -> epoch g <= e /\ epoch (gate_step g ev) = e.
Proof.
  destruct ev as [e' s p| |e' s t]; simpl; [|done|]; intros [-> H];
    unfold offer_tracked, offer_scanning in *; repeat (split_if_in H; simpl in *); try done; lia.
Qed.
Lemma gate_steps_epoch g evs : epoch g <= epoch (fold_left gate_step evs g).
Proof.
  revert g. induction evs as [|ev evs IH]; intros g; simpl; [lia|].
  pose proof (gate_step_epoch g ev). specialize (IH (gate_step g ev)). lia.
Qed.

(** within a session the epoch never goes back: once a beacon of epoch [e] has anchored the
    clock, no beacon of an older epoch ever anchors it again, whatever is received in between. *)
Theorem older_epoch_never_anchors g ev e evs ev' e' :
  anchors g ev e -> anchors (fold_left gate_step evs (gate_step g ev)) ev' e' -> e <= e'.
Proof.
  intros [_ He]%anchors_epoch [He' _]%anchors_epoch.
  pose proof (gate_steps_epoch (gate_step g ev) evs). lia.
Qed.

Lemma older_epoch_never_anchors_witness :
  anchors gate_new (EvTracked 4 100 101) 4 /\ 4 <= 5.
Proof.
  assert (H : anchors gate_new (EvTracked 4 100 101) 4) by (split; vm_compute; reflexivity).
  split; [exact H|].
  apply (older_epoch_never_anchors gate_new (EvTracked 4 100 101) 4 [EvMissed] (EvTracked 5 103 102) 5).
  - exact H.
  - split; vm_compute; reflexivity.
Defined.

(** The scanner's bookkeeping: the candidate and its arrival time come and go together. *)
Definition ScanInv (n : Scanner) : Prop := is_Some (candidate (gate n)) <-> is_Some (acquire_t0 n).

Lemma scan_beacon_inv n b : ScanInv n -> ScanInv (fst (scan_beacon n b)).
Proof.
  unfold ScanInv, scan_beacon, offer_scanning. intros HI.
  repeat (first [split_if | progress simpl]); try done;
    try (rewrite is_Some_alt; done); try (split; intros; by eauto).
  all: destruct (candidate (gate n)) as [[e0 s0]|] eqn:Hc; simpl in *; repeat (split_if; simpl in *); try done;
    try (rewrite Hc); try done; try (split; intros; by eauto).
Qed.

(** A beacon that is not newer than the held candidate: an older epoch, or a slot of the
    candidate's epoch that is not past it. Every replay of an earlier capture is one. *)
Definition stale (e0 s0 : Z) (b : Beacon) : Prop :=
  b_epoch b < e0 \/ (b_epoch b = e0 /\ b_slot b <= s0).

Lemma scan_stale n e0 s0 b :
  candidate (gate n) = Some (e0, s0) -> stale e0 s0 b ->
  fst (scan_beacon n b) = n /\ snd (scan_beacon n b) <> Lock.
Proof.
  intros Hc Hs. unfold scan_beacon, offer_scanning. rewrite Hc. unfold stale in Hs.
  destruct n as [g t0]; simpl in *.
  destruct (b_epoch b <? epoch g) eqn:He; simpl; [done|].
  assert (Hcons : match option_map (fun t => wrap32 (sat_sub (b_rx b) t / FHSS_SLOT_MS)) t0 with
    | Some time_adv => (e0 =? b_epoch b) && (s0 <? b_slot b) &&
        (abs_diff (b_slot b - s0) time_adv <=? ACQUIRE_SLOT_SLACK)
    | None => false end = false).
  { destruct t0; simpl; [|done]. destruct (e0 =? b_epoch b) eqn:?, (s0 <? b_slot b) eqn:?; bool_hyps; simpl; try done; lia. }
  rewrite Hcons.
  assert (Hrep : (e0 <? b_epoch b) || ((b_epoch b =? e0) && (s0 <? b_slot b)) = false).
  { destruct (e0 <? b_epoch b) eqn:?, (b_epoch b =? e0) eqn:?, (s0 <? b_slot b) eqn:?; bool_hyps; simpl; try done; lia. }
  rewrite Hrep. done.
Qed.

Lemma scan_all_stale n e0 s0 bs :
  candidate (gate n) = Some (e0, s0) -> Forall (stale e0 s0) bs ->
  fst (scan_beacons n bs) = n /\ Forall (fun v => v <> Lock) (snd (scan_beacons n bs)).
Proof.
  intros Hc. induction 1 as [|b bs Hb _ IH]; simpl; [by split; [|constructor]|].
  destruct (scan_stale n e0 s0 b Hc Hb) as [Hf Hv].
  destruct (scan_beacon n b) as [n' v]; simpl in *; subst n'.
  destruct (scan_beacons n bs) as [n'' vs]; simpl in *. destruct IH as [-> ?]. split; [done|]. by constructor.
Qed.

(** acquisition under replay. While a genuine beacon (epoch [e0], slot [s0], heard at [t0])
    is held, any number of replayed captures (older epoch, or no later slot) arriving at any
    times neither lock the node nor disturb the candidate or its arrival time; the genuine
    successor, whose slot has advanced with the wall clock (within the slack), then locks. A
    replay alone never does. *)
Theorem replays_do_not_deny_acquisition n e0 s0 t0 replays succ :
  candidate (gate n) = Some (e0, s0) -> acquire_t0 n = Some t0 -> epoch (gate n) <= e0 ->
  Forall (stale e0 s0) replays ->
  t0 <= b_rx succ -> (b_rx succ - t0) / FHSS_SLOT_MS <= u32_max ->
  b_epoch succ = e0 -> s0 < b_slot succ ->
  abs_diff (b_slot succ - s0) ((b_rx succ - t0) / FHSS_SLOT_MS) <= ACQUIRE_SLOT_SLACK ->
  Forall (fun v => v <> Lock) (snd (scan_beacons n replays)) /\
  fst (scan_beacons n replays) = n /\
  snd (scan_beacon (fst (scan_beacons n replays)) succ) = Lock /\
  epoch (gate (fst (scan_beacon (fst (scan_beacons n replays)) succ))) = e0.
Proof.
  intros Hc Ht He Hst Hrx Hfit Hse Hss Hadv.
  destruct (scan_all_stale n e0 s0 replays Hc Hst) as [Hn Hvs]. rewrite Hn.
  assert (Hl : scan_beacon n succ =
    ({| gate := {| epoch := e0; miss := 0; candidate := None |}; acquire_t0 := None |}, Lock)).
  { unfold scan_beacon, offer_scanning. rewrite Ht, Hc, Hse. cbn [option_map].
    assert (0 <= (b_rx succ - t0) / FHSS_SLOT_MS) by (apply Z.div_pos; mlia).
    replace (sat_sub (b_rx succ) t0) with (b_rx succ - t0) by mlia.
    rewrite wrap32_small by (unfold u32_ok; lia).
    rewrite (proj2 (Z.ltb_ge _ _)), Z.eqb_refl, (proj2 (Z.ltb_lt _ _)), (proj2 (Z.leb_le _ _)) by done.
    done. }
  rewrite Hl. done.
Qed.

Lemma replays_do_not_deny_acquisition_witness :
  let n := fst (scan_beacon {| gate := gate_new; acquire_t0 := None |}
                  {| b_epoch := 7; b_slot := 160; b_rx := 1000 |}) in
  let replay t := {| b_epoch := 7; b_slot := 80; b_rx := t |} in
  let succ := {| b_epoch := 7; b_slot := 240; b_rx := 25010 |} in
  candidate (gate n) = Some (7, 160) /\
  snd (scan_beacon (fst (scan_beacons n [replay 2000; replay 9000; replay 25000])) succ) = Lock.
Proof.
  intros n replay succ. split; [reflexivity|].
  apply (replays_do_not_deny_acquisition n 7 160 1000 [replay 2000; replay 9000; replay 25000] succ);
    try (vm_compute; reflexivity); try (vm_compute; discriminate).
  repeat (apply List.Forall_cons; [right; split; [reflexivity | vm_compute; discriminate]|]).
  apply List.Forall_nil.
Defined.

(** The slack covers the drift: no clock within [DRIFT_PPM] drifts further than the slack. *)
Lemma reacquire_slack_covers since max_ms slack :
  0 <= since <= u64_max / DRIFT_PPM -> reacquire_slack_ms since max_ms = Some slack ->
  since * DRIFT_PPM <= 1000000 * slack /\ slack <= max_ms /\ 1000000 * (slack - 1) < since * DRIFT_PPM.
Proof.
  unfold reacquire_slack_ms. intros Hs H. split_if_in H; [|done]. injection H as <-.
  assert (sat_mul u64_max since DRIFT_PPM = since * DRIFT_PPM) as Hm.
  { unfold sat_mul. apply Z.min_l. pose proof (Z.mul_div_le u64_max DRIFT_PPM ltac:(mlia)). mlia. }
  rewrite Hm in *. pose proof (div_ceil_spec (since * DRIFT_PPM) 1000000 ltac:(lia)). lia.
Qed.

(** The master's epoch is strictly newer than the stored one, until the counter saturates. *)
Lemma next_master_epoch_newer e : u32_ok e -> e < next_master_epoch (Some e) \/ e = u32_max.
Proof. unfold next_master_epoch. simpl. intros. mlia. Qed.

(** [n] tracked slots without a beacon: rescan exactly from the [REACQUIRE_LIMIT]-th on. *)
Lemma misses_then_rescan g n :
  miss g = 0 ->
  snd (beacon_missed (fold_left gate_step (replicate n EvMissed) g)) =
    if Z.of_nat n + 1 <? REACQUIRE_LIMIT then KeepPredicting else Rescan.
Proof.
  intros Hm. assert (Hn : forall n g, miss (fold_left gate_step (replicate n EvMissed) g) = miss g + Z.of_nat n).
  { clear. induction n as [|n IH]; intros g; cbn [replicate fold_left]; [lia|]. rewrite IH. simpl miss. lia. }
  unfold beacon_missed. simpl. rewrite Hn, Hm.
  destruct (_ <=? _) eqn:H1, (_ <? REACQUIRE_LIMIT) eqn:H2; bool_hyps; try done; lia.
Qed.
