(* ===== verification/NetHandshake.v ===== *)
(** The pairing-v3 handshake kernel (crates/net/src/handshake.rs) and the two state machines that
    run it over the radio (firmware/src/radio/net/pairing.rs: [open_pairing], [join]). The
    cryptographic primitives (the sha2, hmac, hkdf and x25519-dalek crates) are parameters. *)
From S2P Require Import Prelude Bytes NetWire NetPairing.

Definition VERSION : Z := 3.
Definition PUBLIC_LEN : Z := 32.
Definition HS_NONCE_LEN : Z := 16.
Definition COMMIT_LEN : Z := 16.
Definition TAG_LEN : Z := 8.
Definition LINK_KEY_LEN : Z := 16.
Definition REQ_LEN : Z := 1 + PUBLIC_LEN.
Definition RESP_LEN : Z := 1 + PUBLIC_LEN + COMMIT_LEN.
Definition NONCE_MSG_LEN : Z := 1 + HS_NONCE_LEN.
Definition REVEAL_LEN : Z := 1 + HS_NONCE_LEN + TAG_LEN.
Definition CONFIRM_LEN : Z := 1 + TAG_LEN.
Definition SECRET_ENTROPY_LEN : Z := 64.
Definition NONCE_ENTROPY_LEN : Z := 32.
Definition ENTROPY_LEN : Z := SECRET_ENTROPY_LEN + NONCE_ENTROPY_LEN.
Definition SAS_MODULUS : Z := 1000000.
#[export] Hint Unfold VERSION PUBLIC_LEN HS_NONCE_LEN COMMIT_LEN TAG_LEN LINK_KEY_LEN REQ_LEN RESP_LEN
  NONCE_MSG_LEN REVEAL_LEN CONFIRM_LEN SECRET_ENTROPY_LEN NONCE_ENTROPY_LEN ENTROPY_LEN SAS_MODULUS : machine.

(** b"tower pairing v3" and the labels that extend it. *)
Definition LABEL : list Z := [116; 111; 119; 101; 114; 32; 112; 97; 105; 114; 105; 110; 103; 32; 118; 51].
Definition EPHEMERAL_LABEL : list Z := LABEL ++ [32; 101; 112; 104; 101; 109; 101; 114; 97; 108].
Definition NONCE_LABEL : list Z := LABEL ++ [32; 110; 111; 110; 99; 101].
Definition COMMIT_LABEL : list Z := LABEL ++ [32; 99; 111; 109; 109; 105; 116].
Definition SAS_LABEL : list Z := LABEL ++ [32; 115; 97; 115].

Inductive Role := Gateway | Node.
Definition role_label (r : Role) : list Z :=
  match r with Gateway => [103; 119] | Node => [110; 111; 100; 101] end.

Record Ephemeral := { e_secret : list Z; e_public : list Z; e_nonce : list Z }.

Record Transcript := {
  t_node_addr : Z; t_gw_addr : Z;
  t_e_node : list Z; t_e_gw : list Z;
  t_n_node : list Z; t_n_gw : list Z;
}.

Record Session := { link_key : list Z; sas : Z; tag_gw : list Z; tag_node : list Z }.

(** The bytes a transcript hash is computed over. *)
Definition transcript_bytes (t : Transcript) : list Z :=
  LABEL ++ le_bytes 4 (t_node_addr t) ++ le_bytes 4 (t_gw_addr t)
    ++ t_e_node t ++ t_e_gw t ++ t_n_node t ++ t_n_gw t.

Definition ct_eq (a b : list Z) : bool :=
  if negb (zlen a =? zlen b) then false else or_diff a b =? 0.

Definition session_tag (s : Session) (role : Role) : list Z :=
  match role with Gateway => tag_gw s | Node => tag_node s end.
Definition verify (s : Session) (role : Role) (received : list Z) : bool :=
  (zlen received =? TAG_LEN) && ct_eq (session_tag s role) received.

Section Handshake.
Context (sha256 : list Z -> list Z) (hmac : list Z -> list Z -> list Z)
        (hkdf : list Z -> list Z -> list Z -> Z -> list Z) (x25519 : list Z -> list Z -> list Z)
        (basepoint : list Z).

Definition from_parts (secret nonce : list Z) : Ephemeral :=
  {| e_secret := secret; e_public := x25519 secret basepoint; e_nonce := nonce |}.

Definition from_entropy (entropy : list Z) : Ephemeral :=
  let secret_entropy := slice entropy 0 SECRET_ENTROPY_LEN in
  let nonce_entropy := slice entropy SECRET_ENTROPY_LEN NONCE_ENTROPY_LEN in
  let secret := sha256 (EPHEMERAL_LABEL ++ secret_entropy) in
  let digest := sha256 (NONCE_LABEL ++ nonce_entropy) in
  from_parts secret (slice digest 0 HS_NONCE_LEN).

Definition commitment (n_gw e_node e_gw : list Z) (node_addr gw_addr : Z) : list Z :=
  slice (hmac n_gw (COMMIT_LABEL ++ le_bytes 4 node_addr ++ le_bytes 4 gw_addr ++ e_node ++ e_gw))
    0 COMMIT_LEN.

Definition commitment_matches (commit n_gw e_node e_gw : list Z) (node_addr gw_addr : Z) : bool :=
  (zlen commit =? COMMIT_LEN) && ct_eq (commitment n_gw e_node e_gw node_addr gw_addr) commit.

Definition transcript_hash (t : Transcript) : list Z := sha256 (transcript_bytes t).

Definition sas_from_hash (th : list Z) : Z :=
  le_val (slice (sha256 (SAS_LABEL ++ th)) 0 8) mod SAS_MODULUS.

Definition transcript_sas (t : Transcript) : Z := sas_from_hash (transcript_hash t).

Definition shared_secret (secret peer : list Z) : option (list Z) :=
  let k := x25519 secret peer in
  if fold_left Z.lor k 0 =? 0 then None else Some k.

Definition key_schedule (shared : list Z) (t : Transcript) : Session :=
  let th := transcript_hash t in
  let okm := hkdf th shared LABEL (2 * LINK_KEY_LEN) in
  let confirm_key := slice okm LINK_KEY_LEN LINK_KEY_LEN in
  let tag role := slice (hmac confirm_key (role_label role ++ th)) 0 TAG_LEN in
  {| link_key := slice okm 0 LINK_KEY_LEN;
     sas := sas_from_hash th;
     tag_gw := tag Gateway;
     tag_node := tag Node |}.

Definition session (own : Ephemeral) (peer peer_nonce : list Z) (own_role : Role)
    (node_addr gw_addr : Z) : option Session :=
  match shared_secret (e_secret own) peer with
  | None => None
  | Some shared =>
      let t :=
        match own_role with
        | Node => {| t_node_addr := node_addr; t_gw_addr := gw_addr;
                     t_e_node := e_public own; t_e_gw := peer;
                     t_n_node := e_nonce own; t_n_gw := peer_nonce |}
        | Gateway => {| t_node_addr := node_addr; t_gw_addr := gw_addr;
                        t_e_node := peer; t_e_gw := e_public own;
                        t_n_node := peer_nonce; t_n_gw := e_nonce own |}
        end in
      Some (key_schedule shared t)
  end.

(** ** The exchange (firmware/src/radio/net/pairing.rs)

    Frames after CCM opening: type, clear-header addresses, payload. The JOIN_CONFIRM travels
    under the link key, which the receiver uses to open it: [f_key] is the key the frame opens
    under ([None] for the public framing key). *)
Inductive FrameType := JoinReq | JoinResp | JoinNonce | JoinReveal | JoinConfirm.
Record Frame := { f_type : FrameType; f_src : Z; f_dest : Z; f_key : option (list Z); f_pl : list Z }.
Record PairedPeer := { p_addr : Z; p_key : list Z; p_sas : Z }.

Definition ftype_eqb (a b : FrameType) : bool :=
  match a, b with
  | JoinReq, JoinReq | JoinResp, JoinResp | JoinNonce, JoinNonce
  | JoinReveal, JoinReveal | JoinConfirm, JoinConfirm => true
  | _, _ => false
  end.

Definition join_resp (eph : Ephemeral) (e_node : list Z) (node_addr gw_addr : Z) : list Z :=
  [VERSION] ++ e_public eph ++ commitment (e_nonce eph) e_node (e_public eph) node_addr gw_addr.

(** What a host does between two of its frames. *)
Inductive Host :=
| HListen (eph : Ephemeral)
| HWaitNonce (eph : Ephemeral) (peer_addr : Z) (e_node : list Z)
| HWaitConfirm (s : Session) (peer_addr : Z)
| HPaired (p : PairedPeer)
| HSpent.   (** the ephemeral answered its one request; the next iteration draws another *)

(** The host's address, whether an address is registered, the window left at this frame, and
    whether the answer's counter allocation and transmission succeed ([tx_ok]). *)
Definition host_step (own : Z) (registered : Z -> bool) (window_left handshake_time : Z) (tx_ok : bool)
    (h : Host) (f : Frame) : Host * option Frame :=
  match h with
  | HListen eph =>
      if negb (ftype_eqb (f_type f) JoinReq) || negb (bool_decide (f_key f = None)) then (h, None)
      else if negb (zlen (f_pl f) =? REQ_LEN) || negb (byte_at (f_pl f) 0 =? VERSION) then (h, None)
      else if negb (join_request_admissible (f_src f) own (registered (f_src f))) then (h, None)
      else if negb (handshake_fits window_left handshake_time) then (h, None)
      else
        let e_node := slice (f_pl f) 1 PUBLIC_LEN in
        if negb tx_ok then (HSpent, None)
        else
        (HWaitNonce eph (f_src f) e_node,
         Some {| f_type := JoinResp; f_src := own; f_dest := f_src f; f_key := None;
                 f_pl := join_resp eph e_node (f_src f) own |})
  | HWaitNonce eph peer_addr e_node =>
      if ftype_eqb (f_type f) JoinNonce && bool_decide (f_key f = None) && (f_src f =? peer_addr)
         && (f_dest f =? own) && (zlen (f_pl f) =? NONCE_MSG_LEN) && (byte_at (f_pl f) 0 =? VERSION) then
        match session eph e_node (slice (f_pl f) 1 HS_NONCE_LEN) Gateway peer_addr own with
        | None => (HSpent, None)
        | Some s =>
            if negb tx_ok then (HSpent, None)
            else
            (HWaitConfirm s peer_addr,
             Some {| f_type := JoinReveal; f_src := own; f_dest := peer_addr; f_key := None;
                     f_pl := [VERSION] ++ e_nonce eph ++ session_tag s Gateway |})
        end
      else (h, None)
  | HWaitConfirm s peer_addr =>
      if bool_decide (f_key f = Some (link_key s)) && ftype_eqb (f_type f) JoinConfirm
         && (f_src f =? peer_addr) && (f_dest f =? own) && (zlen (f_pl f) =? CONFIRM_LEN)
         && (byte_at (f_pl f) 0 =? VERSION) && verify s Node (slice (f_pl f) 1 TAG_LEN) then
        (HPaired {| p_addr := peer_addr; p_key := link_key s; p_sas := sas s |}, None)
      else (h, None)
  | HPaired _ | HSpent => (h, None)
  end.
(** The wait for the next frame ends without it. *)
Definition host_timeout (h : Host) : Host :=
  match h with HWaitNonce _ _ _ | HWaitConfirm _ _ => HSpent | _ => h end.

Inductive Joiner :=
| JWaitResp (eph : Ephemeral)
| JWaitReveal (eph : Ephemeral) (gw_addr : Z) (e_gw commit : list Z)
| JPaired (p : PairedPeer)
| JSpent.

Definition join_request (addr : Z) (eph : Ephemeral) : Frame :=
  {| f_type := JoinReq; f_src := addr; f_dest := 0; f_key := None; f_pl := [VERSION] ++ e_public eph |}.

Definition joiner_step (addr : Z) (tx_ok : bool) (j : Joiner) (f : Frame) : Joiner * option Frame :=
  match j with
  | JWaitResp eph =>
      if ftype_eqb (f_type f) JoinResp && bool_decide (f_key f = None) && (zlen (f_pl f) =? RESP_LEN)
         && (byte_at (f_pl f) 0 =? VERSION) && join_response_for (f_dest f) (f_src f) addr then
        if negb tx_ok then (JSpent, None)
        else
        (JWaitReveal eph (f_src f) (slice (f_pl f) 1 PUBLIC_LEN) (slice (f_pl f) (1 + PUBLIC_LEN) COMMIT_LEN),
         Some {| f_type := JoinNonce; f_src := addr; f_dest := f_src f; f_key := None;
                 f_pl := [VERSION] ++ e_nonce eph |})
      else (j, None)
  | JWaitReveal eph gw_addr e_gw commit =>
      if negb (ftype_eqb (f_type f) JoinReveal && bool_decide (f_key f = None)) || negb (f_src f =? gw_addr)
         || negb (f_dest f =? addr) || negb (zlen (f_pl f) =? REVEAL_LEN)
         || negb (byte_at (f_pl f) 0 =? VERSION) then (j, None)
      else
        let n_gw := slice (f_pl f) 1 HS_NONCE_LEN in
        if negb (commitment_matches commit n_gw (e_public eph) e_gw addr gw_addr) then (j, None)
        else
          match session eph e_gw n_gw Node addr gw_addr with
          | None => (j, None)
          | Some s =>
              if negb (verify s Gateway (slice (f_pl f) (1 + HS_NONCE_LEN) TAG_LEN)) then (j, None)
              else if negb tx_ok then (JSpent, None)
              else
                (JPaired {| p_addr := gw_addr; p_key := link_key s; p_sas := sas s |},
                 Some {| f_type := JoinConfirm; f_src := addr; f_dest := gw_addr;
                         f_key := Some (link_key s); f_pl := [VERSION] ++ session_tag s Node |})
          end
  | JPaired _ | JSpent => (j, None)
  end.
Definition joiner_timeout (j : Joiner) : Joiner :=
  match j with JWaitReveal _ _ _ _ => JSpent | _ => j end.

(** ** Properties *)

(** The primitives' output sizes (SHA-256: 32 bytes; HKDF-Expand: as many as asked for; X25519:
    32 bytes), as their documentation states them. *)
Record PrimLaws : Prop := {
  sha256_len : forall m, zlen (sha256 m) = 32 /\ bytes_ok (sha256 m);
  hmac_len : forall k m, zlen (hmac k m) = 32 /\ bytes_ok (hmac k m);
  hkdf_len : forall salt ikm info n, 0 <= n -> zlen (hkdf salt ikm info n) = n /\ bytes_ok (hkdf salt ikm info n);
  x25519_len : forall s p, zlen s = 32 -> zlen p = 32 ->
                 bytes_ok s -> bytes_ok p -> zlen (x25519 s p) = 32 /\ bytes_ok (x25519 s p);
  basepoint_len : zlen basepoint = 32 /\ bytes_ok basepoint;
}.
Context (laws : PrimLaws).

Definition eph_ok (e : Ephemeral) : Prop :=
  zlen (e_secret e) = 32 /\ bytes_ok (e_secret e) /\ zlen (e_nonce e) = HS_NONCE_LEN /\
  bytes_ok (e_nonce e) /\ e_public e = x25519 (e_secret e) basepoint.

Lemma eph_public e : eph_ok e -> zlen (e_public e) = PUBLIC_LEN /\ bytes_ok (e_public e).
Proof. intros (? & ? & ? & ? & ->). apply (x25519_len laws); try done; apply (basepoint_len laws). Qed.

Lemma prefix_ok l n : zlen l = 32 /\ bytes_ok l -> 0 <= n <= 32 -> zlen (slice l 0 n) = n /\ bytes_ok (slice l 0 n).
Proof. intros [Hl Hb] Hn. split; [apply zlen_slice; lia | by apply bytes_ok_slice]. Qed.

(** [from_entropy] builds well-formed ephemerals. *)
Lemma from_entropy_ok entropy : eph_ok (from_entropy entropy).
Proof.
  unfold from_entropy, from_parts, eph_ok. cbn [e_secret e_public e_nonce].
  split_and!; try apply (sha256_len laws); try done; apply prefix_ok; try apply (sha256_len laws); mlia.
Qed.

Lemma commitment_len n a b x y :
  zlen (commitment n a b x y) = COMMIT_LEN /\ bytes_ok (commitment n a b x y).
Proof. apply prefix_ok; [apply (hmac_len laws) | mlia]. Qed.
Lemma key_schedule_tags shared t role :
  zlen (session_tag (key_schedule shared t) role) = TAG_LEN /\
  bytes_ok (session_tag (key_schedule shared t) role).
Proof. destruct role; (apply prefix_ok; [apply (hmac_len laws) | mlia]). Qed.

Lemma ct_eq_iff a b : bytes_ok a -> bytes_ok b -> ct_eq a b = true <-> a = b.
Proof.
  intros Ha Hb. unfold ct_eq. destruct (zlen a =? zlen b) eqn:Hl; simpl; bool_hyps.
  - rewrite Z.eqb_eq. apply or_diff_eq; try done. unfold zlen in *. lia.
  - split; [done|]. by intros ->.
Qed.

Lemma commitment_matches_iff commit n_gw e_node e_gw x y :
  bytes_ok commit ->
  commitment_matches commit n_gw e_node e_gw x y = true <-> commit = commitment n_gw e_node e_gw x y.
Proof.
  intros Hc. unfold commitment_matches. rewrite andb_true_iff.
  destruct (commitment_len n_gw e_node e_gw x y) as [Hl Hb].
  rewrite ct_eq_iff, Z.eqb_eq by done. split; [by intros [_ ->] | by intros ->].
Qed.
Lemma verify_iff shared t role received :
  bytes_ok received ->
  verify (key_schedule shared t) role received = true <-> received = session_tag (key_schedule shared t) role.
Proof.
  intros Hr. unfold verify. rewrite andb_true_iff.
  destruct (key_schedule_tags shared t role) as [Hl Hb].
  rewrite ct_eq_iff, Z.eqb_eq by done. split; [by intros [_ ->] | by intros ->].
Qed.

(** The all-zero shared secret, and only it, is refused. *)
Lemma shared_secret_spec secret peer :
  zlen secret = 32 -> zlen peer = 32 -> bytes_ok secret -> bytes_ok peer ->
  shared_secret secret peer =
    if decide (x25519 secret peer = zeros 32) then None else Some (x25519 secret peer).
Proof.
  intros Hs Hp Hsb Hpb. destruct (x25519_len laws secret peer Hs Hp Hsb Hpb) as [Hl Hb].
  unfold shared_secret. destruct (fold_left Z.lor _ 0 =? 0) eqn:Hz; bool_hyps; case_decide as Hd; try done.
  - exfalso. apply Hd. apply fold_lor_0 in Hz as [_ Hz]; [|done|].
    + rewrite <- Hl. unfold zeros, zlen. rewrite Nat2Z.id. clear -Hz.
      induction Hz as [|x l <- Hz IH]; [done|]. simpl. by rewrite <- IH.
    + eapply Forall_impl; [|exact Hb]. unfold byte_ok. simpl. lia.
  - exfalso. apply Hz. rewrite Hd. reflexivity.
Qed.

(** ** The exchange *)

Lemma msg1 v a : slice ([v] ++ a) 1 (zlen a) = a /\ byte_at ([v] ++ a) 0 = v /\ zlen ([v] ++ a) = 1 + zlen a.
Proof.
  split_and!; [|reflexivity | by rewrite zlen_app].
  rewrite slice_app_r by (rewrite zlen_cons, zlen_nil; lia). apply slice_all.
Qed.
Lemma msg2 v a b :
  slice ([v] ++ a ++ b) 1 (zlen a) = a /\ slice ([v] ++ a ++ b) (1 + zlen a) (zlen b) = b /\
  byte_at ([v] ++ a ++ b) 0 = v /\ zlen ([v] ++ a ++ b) = 1 + zlen a + zlen b.
Proof.
  pose proof (zlen_nonneg a). split_and!; [| |reflexivity | rewrite !zlen_app; change (zlen [v]) with 1; lia].
  - rewrite slice_app_r by (change (zlen [v]) with 1; lia). change (zlen [v]) with 1. apply slice_app_l.
  - rewrite slice_app_r by (change (zlen [v]) with 1; lia). change (zlen [v]) with 1.
    replace (1 + zlen a - 1) with (zlen a + 0) by lia.
    rewrite slice_app_r, Z.add_simpl_l by lia. apply slice_all.
Qed.

Lemma host_answers own registered wl ht eh addr ej :
  eph_ok ej -> join_request_admissible addr own (registered addr) = true -> handshake_fits wl ht = true ->
  host_step own registered wl ht true (HListen eh) (join_request addr ej) =
    (HWaitNonce eh addr (e_public ej),
     Some {| f_type := JoinResp; f_src := own; f_dest := addr; f_key := None;
             f_pl := join_resp eh (e_public ej) addr own |}).
Proof.
  intros Hj Hadm Hfit. destruct (eph_public ej Hj) as [Hl _].
  destruct (msg1 VERSION (e_public ej)) as (Hsl & Hb & Hz). rewrite Hl in *.
  unfold host_step, join_request. cbn [f_type f_src f_dest f_key f_pl ftype_eqb negb orb].
  rewrite Hadm, Hfit, Hz, Hb, Hsl, !Z.eqb_refl. reflexivity.
Qed.

Lemma joiner_reveals_nonce own addr ej eh e_node :
  eph_ok eh -> join_response_for addr own addr = true ->
  joiner_step addr true (JWaitResp ej)
    {| f_type := JoinResp; f_src := own; f_dest := addr; f_key := None; f_pl := join_resp eh e_node addr own |} =
    (JWaitReveal ej own (e_public eh) (commitment (e_nonce eh) e_node (e_public eh) addr own),
     Some {| f_type := JoinNonce; f_src := addr; f_dest := own; f_key := None; f_pl := [VERSION] ++ e_nonce ej |}).
Proof.
  intros Hh Hr. destruct (eph_public eh Hh) as [Hl _].
  destruct (commitment_len (e_nonce eh) e_node (e_public eh) addr own) as [Hcl _].
  destruct (msg2 VERSION (e_public eh) (commitment (e_nonce eh) e_node (e_public eh) addr own))
    as (Hs1 & Hs2 & Hb & Hz). rewrite Hl in *. rewrite Hcl in *.
  unfold joiner_step, join_resp. cbn [f_type f_src f_dest f_key f_pl ftype_eqb andb].
  rewrite Hr, Hz, Hb, Hs1, Hs2. rewrite !Z.eqb_refl. reflexivity.
Qed.

(** The session the host derives for a joiner's key and nonce, and conversely. *)
Definition agreed (ej eh : Ephemeral) (addr own : Z) : Transcript :=
  {| t_node_addr := addr; t_gw_addr := own; t_e_node := e_public ej; t_e_gw := e_public eh;
     t_n_node := e_nonce ej; t_n_gw := e_nonce eh |}.

Lemma session_shared own peer peer_nonce role x y :
  eph_ok own -> zlen peer = 32 -> bytes_ok peer -> x25519 (e_secret own) peer <> zeros 32 ->
  session own peer peer_nonce role x y =
    Some (key_schedule (x25519 (e_secret own) peer)
      match role with
      | Node => {| t_node_addr := x; t_gw_addr := y; t_e_node := e_public own; t_e_gw := peer;
                   t_n_node := e_nonce own; t_n_gw := peer_nonce |}
      | Gateway => {| t_node_addr := x; t_gw_addr := y; t_e_node := peer; t_e_gw := e_public own;
                      t_n_node := peer_nonce; t_n_gw := e_nonce own |}
      end).
Proof.
  intros (Hl & Hb & _) Hp Hpb Hne. unfold session. rewrite shared_secret_spec by done.
  by rewrite decide_False by done.
Qed.

Lemma host_reveals own registered wl ht eh addr ej :
  eph_ok ej -> eph_ok eh -> x25519 (e_secret eh) (e_public ej) <> zeros 32 ->
  host_step own registered wl ht true (HWaitNonce eh addr (e_public ej))
    {| f_type := JoinNonce; f_src := addr; f_dest := own; f_key := None; f_pl := [VERSION] ++ e_nonce ej |} =
    let s := key_schedule (x25519 (e_secret eh) (e_public ej)) (agreed ej eh addr own) in
    (HWaitConfirm s addr,
     Some {| f_type := JoinReveal; f_src := own; f_dest := addr; f_key := None;
             f_pl := [VERSION] ++ e_nonce eh ++ session_tag s Gateway |}).
Proof.
  intros Hj Hh Hne. destruct (eph_public ej Hj) as [Hl Hb]. pose proof Hj as (_ & _ & Hnl & _).
  destruct (msg1 VERSION (e_nonce ej)) as (Hs1 & Hb1 & Hz1). rewrite Hnl in *.
  unfold host_step. cbn [f_type f_src f_dest f_key f_pl ftype_eqb andb].
  rewrite Hz1, Hb1, Hs1, !Z.eqb_refl, session_shared by done. reflexivity.
Qed.

Lemma joiner_confirms own addr ej eh :
  eph_ok ej -> eph_ok eh -> x25519 (e_secret ej) (e_public eh) <> zeros 32 ->
  let s := key_schedule (x25519 (e_secret ej) (e_public eh)) (agreed ej eh addr own) in
  joiner_step addr true
    (JWaitReveal ej own (e_public eh) (commitment (e_nonce eh) (e_public ej) (e_public eh) addr own))
    {| f_type := JoinReveal; f_src := own; f_dest := addr; f_key := None;
       f_pl := [VERSION] ++ e_nonce eh ++ session_tag s Gateway |} =
    (JPaired {| p_addr := own; p_key := link_key s; p_sas := sas s |},
     Some {| f_type := JoinConfirm; f_src := addr; f_dest := own; f_key := Some (link_key s);
             f_pl := [VERSION] ++ session_tag s Node |}).
Proof.
  intros Hj Hh Hne s. destruct (eph_public eh Hh) as [Hl Hb]. pose proof Hh as (_ & _ & Hnl & Hnb & _).
  destruct (key_schedule_tags (x25519 (e_secret ej) (e_public eh)) (agreed ej eh addr own) Gateway) as [Htl Htb].
  fold s in Htl, Htb.
  destruct (msg2 VERSION (e_nonce eh) (session_tag s Gateway)) as (Hs1 & Hs2 & Hb2 & Hz2).
  rewrite Hnl, Htl in *.
  unfold joiner_step. cbn [f_type f_src f_dest f_key f_pl ftype_eqb andb negb orb].
  rewrite Hz2, Hb2, Hs1, Hs2, !Z.eqb_refl.
  rewrite (proj2 (commitment_matches_iff _ _ _ _ _ _ (proj2 (commitment_len _ _ _ _ _))) eq_refl).
  rewrite session_shared by done. fold (agreed ej eh addr own). fold s.
  unfold s at 1. rewrite (proj2 (verify_iff _ _ _ _ Htb) eq_refl). reflexivity.
Qed.

Lemma host_pairs own registered wl ht tx addr shared t :
  let s := key_schedule shared t in
  host_step own registered wl ht tx (HWaitConfirm s addr)
    {| f_type := JoinConfirm; f_src := addr; f_dest := own; f_key := Some (link_key s);
       f_pl := [VERSION] ++ session_tag s Node |} =
    (HPaired {| p_addr := addr; p_key := link_key s; p_sas := sas s |}, None).
Proof.
  intros s. destruct (key_schedule_tags shared t Node) as [Htl Htb]. fold s in Htl, Htb.
  destruct (msg1 VERSION (session_tag s Node)) as (Hs1 & Hb1 & Hz1). rewrite Htl in *.
  unfold host_step. cbn [f_type f_src f_dest f_key f_pl ftype_eqb].
  rewrite bool_decide_true by done. rewrite Hz1, Hb1, Hs1, !Z.eqb_refl.
  unfold s at 1. rewrite (proj2 (verify_iff _ _ _ _ Htb) eq_refl). reflexivity.
Qed.

(** an undisturbed handshake completes, and both ends hold the same link key and SAS under
    the other's address. The only fact used about X25519 is that the two shared secrets agree
    (Diffie-Hellman) and are not the refused all-zero value. *)
Theorem handshake_agrees own addr ej eh registered wl ht :
  eph_ok ej -> eph_ok eh ->
  x25519 (e_secret ej) (e_public eh) = x25519 (e_secret eh) (e_public ej) ->
  x25519 (e_secret ej) (e_public eh) <> zeros 32 ->
  join_request_admissible addr own (registered addr) = true -> is_reserved_addr own = false ->
  handshake_fits wl ht = true ->
  exists h1 resp j1 nonce h2 reveal pj confirm ph,
    host_step own registered wl ht true (HListen eh) (join_request addr ej) = (h1, Some resp) /\
    joiner_step addr true (JWaitResp ej) resp = (j1, Some nonce) /\
    host_step own registered wl ht true h1 nonce = (h2, Some reveal) /\
    joiner_step addr true j1 reveal = (JPaired pj, Some confirm) /\
    host_step own registered wl ht true h2 confirm = (HPaired ph, None) /\
    p_key pj = p_key ph /\ zlen (p_key pj) = LINK_KEY_LEN /\
    p_sas pj = p_sas ph /\ 0 <= p_sas pj < SAS_MODULUS /\
    p_addr pj = own /\ p_addr ph = addr.
Proof.
  intros Hj Hh Hdh Hne Hadm Hown Hfit. do 9 eexists.
  split_and!; [by apply host_answers | apply joiner_reveals_nonce; [done|] | by apply host_reveals; rewrite <- ?Hdh
    | rewrite <- Hdh; by apply joiner_confirms | cbv zeta; rewrite <- Hdh; apply host_pairs | ..].
  - unfold join_request_admissible, peer_addr_valid in Hadm. bool_hyps.
    unfold join_response_for. rewrite Z.eqb_refl, Hown. simpl. rewrite Z.eqb_sym. apply negb_true_iff.
    by apply Z.eqb_neq.
  - reflexivity.
  - apply prefix_ok; [|mlia]. apply (hkdf_len laws). mlia.
  - reflexivity.
  - apply Z.mod_pos_bound. mlia.
  - apply Z.mod_pos_bound. mlia.
  - reflexivity.
  - reflexivity.
Qed.

(** ** What an arbitrary peer must prove

    One handshake against any sequence of frames and timeouts. *)
Definition frame_ok (f : Frame) : Prop := bytes_ok (f_pl f).

Record HostEvent := { he_left : Z; he_tx : bool; he_frame : option Frame }.
Definition host_event (own : Z) (registered : Z -> bool) (ht : Z) (h : Host) (e : HostEvent) : Host :=
  match he_frame e with
  | Some f => fst (host_step own registered (he_left e) ht (he_tx e) h f)
  | None => host_timeout h
  end.

Definition JoinerEvent : Type := bool * option Frame.
Definition joiner_event (addr : Z) (j : Joiner) (e : JoinerEvent) : Joiner :=
  match snd e with
  | Some f => fst (joiner_step addr (fst e) j f)
  | None => joiner_timeout j
  end.

(** What passes the joiner's antenna in a run, in order: what it hears and what it sends. *)
Inductive Seen := Heard (f : Frame) | Sent (f : Frame).
Definition seen_in (addr : Z) (j : Joiner) (e : JoinerEvent) : list Seen :=
  match snd e with
  | Some f => Heard f :: match snd (joiner_step addr (fst e) j f) with Some o => [Sent o] | None => [] end
  | None => []
  end.
Fixpoint joiner_run (addr : Z) (j : Joiner) (evs : list JoinerEvent) : Joiner * list Seen :=
  match evs with
  | [] => (j, [])
  | e :: evs => let '(j', tr) := joiner_run addr (joiner_event addr j e) evs in (j', seen_in addr j e ++ tr)
  end.
Lemma joiner_run_snoc addr evs e : forall j, joiner_run addr j (evs ++ [e]) =
  (joiner_event addr (fst (joiner_run addr j evs)) e, snd (joiner_run addr j evs) ++ seen_in addr (fst (joiner_run addr j evs)) e).
Proof.
  induction evs as [|e0 evs IH]; intros j; cbn [app joiner_run fst snd]; [by rewrite app_nil_r|].
  rewrite IH. destruct (joiner_run addr (joiner_event addr j e0) evs) as [j' tr]. cbn [fst snd]. by rewrite app_assoc.
Qed.
(** The joiner's two messages of a handshake. *)
Definition nonce_message (addr gw : Z) (eph : Ephemeral) : Frame :=
  {| f_type := JoinNonce; f_src := addr; f_dest := gw; f_key := None; f_pl := [VERSION] ++ e_nonce eph |}.
Definition confirm_message (addr gw : Z) (s : Session) : Frame :=
  {| f_type := JoinConfirm; f_src := addr; f_dest := gw; f_key := Some (link_key s); f_pl := [VERSION] ++ session_tag s Node |}.
(** Nothing is sent in this part of a run. *)
Definition quiet (tr : list Seen) : Prop := forall f, ~ In (Sent f) tr.
Lemma quiet_nil : quiet [].
Proof. by intros f []. Qed.
Lemma quiet_snoc tr f : quiet tr -> quiet (tr ++ [Heard f]).
Proof. intros H g [Hg|[Hg|[]]]%List.in_app_or; [by apply (H g) | done]. Qed.

Lemma session_some own peer nonce role x y s :
  session own peer nonce role x y = Some s -> exists shared t, s = key_schedule shared t.
Proof. unfold session. destruct (shared_secret _ _); [|done]. intros [= <-]. eauto. Qed.

Lemma cut1 pl n : zlen pl = 1 + n -> byte_at pl 0 = VERSION -> pl = [VERSION] ++ slice pl 1 n.
Proof.
  intros Hl Hb. destruct pl as [|v pl]; [pose proof (zlen_nonneg (@nil Z)); unfold byte_at in Hb; simpl in Hb; done|].
  unfold byte_at in Hb. simpl in Hb. subst v. rewrite zlen_cons in Hl.
  change (VERSION :: pl) with ([VERSION] ++ pl) at 2.
  rewrite slice_app_r by (change (zlen [VERSION]) with 1; lia). change (1 - zlen [VERSION]) with 0.
  replace n with (zlen pl) by lia. by rewrite slice_all.
Qed.

Lemma host_step_paired own registered wl ht tx h f p o :
  frame_ok f -> (forall q, h <> HPaired q) ->
  (forall s a, h = HWaitConfirm s a -> exists shared t, s = key_schedule shared t) ->
  host_step own registered wl ht tx h f = (HPaired p, o) ->
  exists s, h = HWaitConfirm s (p_addr p) /\ p_key p = link_key s /\ p_sas p = sas s /\
    f_type f = JoinConfirm /\ f_src f = p_addr p /\ f_dest f = own /\ f_key f = Some (link_key s) /\
    f_pl f = [VERSION] ++ session_tag s Node.
Proof.
  intros Hf Hnp Hks H. destruct h as [eph|eph a en|s a|q|]; simpl in H; [| | |by destruct (Hnp q)|done].
  1, 2: repeat (split_if_in H; try done); destruct (session _ _ _ _ _ _); try done; by destruct tx.
  destruct (_ && _ && _ && _ && _ && _ && _) eqn:Hg; [|done]. injection H as <- _.
  apply andb_true_iff in Hg as [Hg Hv]. bool_hyps.
  destruct (Hks s a eq_refl) as (shared & t & ->).
  apply verify_iff in Hv; [|by apply bytes_ok_slice].
  exists (key_schedule shared t). split_and!; try done; [by destruct (f_type f)|].
  rewrite <- Hv. by apply cut1.
Qed.

Definition heard (evs : list HostEvent) (f : Frame) : Prop := exists e, In e evs /\ he_frame e = Some f.

Definition host_inv (own : Z) (registered : Z -> bool) (eh : Ephemeral) (evs : list HostEvent) (h : Host) : Prop :=
  match h with
  | HListen e => e = eh
  | HWaitNonce e a en => e = eh /\ join_request_admissible a own (registered a) = true
  | HWaitConfirm s a =>
      join_request_admissible a own (registered a) = true /\
      exists e_node n_node, session eh e_node n_node Gateway a own = Some s
  | HPaired p =>
      join_request_admissible (p_addr p) own (registered (p_addr p)) = true /\
      exists e_node n_node s f, session eh e_node n_node Gateway (p_addr p) own = Some s /\
        p_key p = link_key s /\ p_sas p = sas s /\
        heard evs f /\ f_type f = JoinConfirm /\ f_src f = p_addr p /\ f_dest f = own /\
        f_key f = Some (link_key s) /\ f_pl f = [VERSION] ++ tag_node s
  | HSpent => True
  end.

Lemma host_inv_event own registered ht eh evs e h :
  (forall f, he_frame e = Some f -> frame_ok f) ->
  host_inv own registered eh evs h ->
  host_inv own registered eh (evs ++ [e]) (host_event own registered ht h e).
Proof.
  intros Hok HI. unfold host_event. destruct (he_frame e) as [f|] eqn:He.
  2: { destruct h; simpl in *; try done. destruct HI as (? & en & nn & s & f & ? & ? & ? & (e' & ? & ?) & ?).
       split; [done|]. exists en, nn, s, f. split_and!; try done; try tauto. exists e'. split; [|done].
       apply List.in_or_app. by left. }
  specialize (Hok f eq_refl). destruct (host_step _ _ _ _ _ _ _) as [h' o] eqn:Hstep. simpl.
  destruct h as [eph|eph a en|s a|q|].
  - simpl in Hstep, HI. subst eph. repeat (split_if_in Hstep; try (injection Hstep as <- <-; done)).
  - simpl in Hstep, HI. destruct HI as [-> Ha].
    destruct (_ && _) in Hstep; [|by injection Hstep as <- <-].
    destruct (session _ _ _ _ _ _) as [s|] eqn:Hs; [|by injection Hstep as <- <-].
    destruct (he_tx e); simpl in Hstep; injection Hstep as <- <-; [|exact I].
    split; [done|]. eauto.
  - destruct HI as (Ha & en & nn & Hs). destruct h' as [ | |s' a'|p|];
      try (simpl in Hstep; split_if_in Hstep; discriminate).
    + simpl in Hstep. split_if_in Hstep; [discriminate|]. injection Hstep as <- <- <-. split; eauto.
    + destruct (host_step_paired _ _ _ _ _ (HWaitConfirm s a) _ _ _ Hok ltac:(done) ltac:(intros ? ? [= <- <-]; by eapply session_some) Hstep)
        as (s' & [= -> ->] & ? & ? & ? & ? & ? & ? & ?).
      split; [done|]. exists en, nn, s', f. split_and!; try done. exists e. split; [|done].
      apply List.in_or_app. right. by left.
  - simpl in Hstep. injection Hstep as <- <-. destruct HI as (? & en & nn & s & f' & ? & ? & ? & (e' & ? & ?) & ?).
    split; [done|]. exists en, nn, s, f'. split_and!; try done; try tauto. exists e'. split; [|done].
    apply List.in_or_app. by left.
  - simpl in Hstep. by injection Hstep as <- <-.
Qed.

(** C16. The host's handshake against an arbitrary peer: it reports a peer paired only after a
    JOIN_CONFIRM from that very address, sealed under the link key of the session and carrying
    exactly the node's confirmation tag; the address was admissible (never a registered one), and
    key and SAS are those of the session derived from the host's own ephemeral. *)
Theorem host_pairs_only_on_proof own registered ht eh evs p :
  Forall (fun e => forall f, he_frame e = Some f -> frame_ok f) evs ->
  fold_left (host_event own registered ht) evs (HListen eh) = HPaired p ->
  join_request_admissible (p_addr p) own (registered (p_addr p)) = true /\
  exists e_node n_node s f, session eh e_node n_node Gateway (p_addr p) own = Some s /\
    p_key p = link_key s /\ p_sas p = sas s /\
    heard evs f /\ f_type f = JoinConfirm /\ f_src f = p_addr p /\ f_dest f = own /\
    f_key f = Some (link_key s) /\ f_pl f = [VERSION] ++ tag_node s.
Proof.
  intros Hok H. change (host_inv own registered eh evs (HPaired p)). rewrite <- H. clear H p.
  induction evs as [|e evs IH] using rev_ind; [done|].
  apply Forall_app in Hok as [Hok Hoke]. apply Forall_cons_1 in Hoke as [Hoke _].
  rewrite fold_left_app. simpl. apply host_inv_event; auto.
Qed.

(** The host at [gw] committed itself in [resp]: it is a JOIN_RESP to us carrying its public key and a
    commitment to its nonce. *)
Definition commits (addr gw : Z) (e_gw commit : list Z) (resp : Frame) : Prop :=
  f_type resp = JoinResp /\ f_src resp = gw /\ f_dest resp = addr /\ zlen e_gw = PUBLIC_LEN /\ zlen commit = COMMIT_LEN /\
  f_pl resp = [VERSION] ++ e_gw ++ commit.
(** A run that got as far as the nonce: silence until a commitment, the nonce in answer to it, silence. *)
Definition opened (addr : Z) (ej : Ephemeral) (gw : Z) (e_gw commit : list Z) (tr : list Seen) : Prop :=
  exists t1 resp t2, tr = t1 ++ Heard resp :: Sent (nonce_message addr gw ej) :: t2 /\ quiet t1 /\ quiet t2 /\
    commits addr gw e_gw commit resp.
(** A run that paired: [opened] up to a reveal that opens the commitment and carries the gateway's tag,
    the confirmation in answer to it, silence. *)
Definition proved (addr : Z) (ej : Ephemeral) (p : PairedPeer) (tr : list Seen) : Prop :=
  p_addr p <> addr /\ is_reserved_addr (p_addr p) = false /\
  exists e_gw n_gw s before reveal after,
    session ej e_gw n_gw Node addr (p_addr p) = Some s /\ p_key p = link_key s /\ p_sas p = sas s /\
    tr = before ++ Heard reveal :: Sent (confirm_message addr (p_addr p) s) :: after /\ quiet after /\
    opened addr ej (p_addr p) e_gw (commitment n_gw (e_public ej) e_gw addr (p_addr p)) before /\
    f_type reveal = JoinReveal /\ f_src reveal = p_addr p /\ f_dest reveal = addr /\
    f_pl reveal = [VERSION] ++ n_gw ++ tag_gw s.
Definition joiner_inv (addr : Z) (ej : Ephemeral) (tr : list Seen) (j : Joiner) : Prop :=
  match j with
  | JWaitResp e => e = ej /\ quiet tr
  | JWaitReveal e gw e_gw commit =>
      e = ej /\ gw <> addr /\ is_reserved_addr gw = false /\ bytes_ok commit /\ opened addr ej gw e_gw commit tr
  | JPaired p => proved addr ej p tr
  | JSpent => quiet tr \/ exists gw e_gw commit, opened addr ej gw e_gw commit tr
  end.

Lemma opened_snoc addr ej gw e_gw commit tr f : opened addr ej gw e_gw commit tr -> opened addr ej gw e_gw commit (tr ++ [Heard f]).
Proof.
  intros (t1 & resp & t2 & -> & H1 & H2 & H3). exists t1, resp, (t2 ++ [Heard f]).
  rewrite <- app_assoc. split_and!; try done. by apply quiet_snoc.
Qed.
Lemma joiner_inv_snoc addr ej tr f j : joiner_inv addr ej tr j -> joiner_inv addr ej (tr ++ [Heard f]) j.
Proof.
  destruct j as [e|e gw e_gw commit|p|]; simpl.
  - intros [? ?]. split; [done | by apply quiet_snoc].
  - intros (? & ? & ? & ? & ?). split_and!; try done. by apply opened_snoc.
  - intros (? & ? & eg & ng & s & b & v & a & ? & ? & ? & -> & ? & ?). split_and!; try done.
    exists eg, ng, s, b, v, (a ++ [Heard f]). rewrite <- app_assoc. split_and!; try done; try tauto. by apply quiet_snoc.
  - intros [?|(gw & eg & c & ?)]; [left; by apply quiet_snoc | right; exists gw, eg, c; by apply opened_snoc].
Qed.

Lemma cut2 pl n m :
  0 <= n -> 0 <= m -> zlen pl = 1 + n + m -> byte_at pl 0 = VERSION ->
  pl = [VERSION] ++ slice pl 1 n ++ slice pl (1 + n) m.
Proof. intros ? ? Hl Hb. rewrite <- slice_split by lia. apply cut1; [lia | done]. Qed.

Lemma joiner_inv_step addr ej tr tx f j :
  frame_ok f -> joiner_inv addr ej tr j ->
  joiner_inv addr ej (tr ++ seen_in addr j (tx, Some f)) (fst (joiner_step addr tx j f)).
Proof.
  intros Hf HI. pose proof (joiner_inv_snoc addr ej tr f j HI) as Hkeep. unfold seen_in. cbn [fst snd].
  destruct j as [eph|eph gw e_gw commit|q|]; [| |exact Hkeep | exact Hkeep].
  - simpl in HI |- *. destruct HI as [-> Hq]. destruct (_ && _) eqn:Hg; [|exact Hkeep]. bool_hyps.
    destruct tx; simpl; [|left; by apply quiet_snoc]. unfold join_response_for in *. bool_hyps.
    split_and!; try done; [by apply bytes_ok_slice|].
    exists tr, f, []. split; [done|]. split; [done|]. split; [apply quiet_nil|].
    split; [by destruct (f_type f)|]. split; [done|]. split; [done|].
    split; [apply zlen_slice; mlia|]. split; [apply zlen_slice; mlia|]. apply cut2; mlia.
  - destruct HI as (-> & Hgw & Hres & Hcok & Hop). unfold joiner_step.
    destruct (_ || _) eqn:Hg; [exact Hkeep|]. bool_hyps.
    destruct (commitment_matches _ _ _ _ _ _) eqn:Hcm; [|exact Hkeep].
    apply commitment_matches_iff in Hcm; [|done].
    destruct (session _ _ _ _ _ _) as [s|] eqn:Hs; [|exact Hkeep].
    destruct (verify _ _ _) eqn:Hv; [|exact Hkeep].
    destruct tx; cbn [negb fst snd]; [|right; eexists _, _, _; by apply opened_snoc].
    destruct (session_some _ _ _ _ _ _ _ Hs) as (shared & t & ->).
    apply verify_iff in Hv; [|by apply bytes_ok_slice].
    split_and!; try done. eexists _, _, _, tr, f, []. split_and!; try done; try exact Hs.
    + apply quiet_nil.
    + rewrite Hcm in Hop. exact Hop.
    + by destruct (f_type f).
    + change (tag_gw (key_schedule shared t)) with (session_tag (key_schedule shared t) Gateway).
      rewrite <- Hv. apply cut2; mlia.
Qed.
Lemma joiner_run_inv addr ej evs : Forall (fun e => forall f, snd e = Some f -> frame_ok f) evs ->
  joiner_inv addr ej (snd (joiner_run addr (JWaitResp ej) evs)) (fst (joiner_run addr (JWaitResp ej) evs)).
Proof.
  induction evs as [|[tx [f|]] evs IH] using rev_ind; intros Hok; [split; [done | apply quiet_nil]| |];
    apply Forall_app in Hok as [Hok Hoke]; apply Forall_cons_1 in Hoke as [Hoke _]; specialize (IH Hok); rewrite joiner_run_snoc; cbn [fst snd].
  - apply joiner_inv_step; auto.
  - rewrite app_nil_r. unfold joiner_event. cbn [snd]. destruct (fst _) as [ | |p|]; cbn [joiner_timeout]; try done.
    destruct IH as (_ & _ & _ & _ & Hop). right. by eexists _, _, _.
Qed.
(** In such a run the nonce goes out right after a commitment, with nothing sent before. *)
Lemma quiet_split t1 t2 u1 u2 g : quiet t1 -> (forall f, In (Sent f) t2 -> f_type f <> JoinNonce) -> f_type g = JoinNonce ->
  forall f, t1 ++ Sent f :: t2 = u1 ++ Sent g :: u2 -> u1 = t1.
Proof.
  intros Hq Ht Hg f. revert u1. induction t1 as [|x t1 IH]; intros [|y u1] He; cbn [app] in He.
  - done.
  - injection He as <- He. exfalso. apply (Ht g); [|done]. rewrite He. apply List.in_or_app. right. by left.
  - injection He as -> He. exfalso. apply (Hq g). by left.
  - injection He as -> He. f_equal. apply IH; [|done]. intros h Hh. apply (Hq h). by right.
Qed.
Definition nonce_after_commitment (addr : Z) (tr : list Seen) : Prop :=
  forall before g after, tr = before ++ Sent g :: after -> f_type g = JoinNonce ->
    exists silence resp e_gw commit, before = silence ++ [Heard resp] /\ quiet silence /\ commits addr (f_dest g) e_gw commit resp.
Lemma opened_ordered addr ej gw e_gw commit tr rest : opened addr ej gw e_gw commit tr ->
  (forall f, In (Sent f) rest -> f_type f <> JoinNonce) -> nonce_after_commitment addr (tr ++ rest).
Proof.
  intros (t1 & resp & t2 & -> & H1 & H2 & H3) Hr before g after He Hg.
  assert (He' : (t1 ++ [Heard resp]) ++ Sent (nonce_message addr gw ej) :: (t2 ++ rest) = before ++ Sent g :: after)
    by (rewrite <- He, <- !app_assoc; done).
  assert (Hb : before = t1 ++ [Heard resp]).
  { eapply (quiet_split (t1 ++ [Heard resp]) (t2 ++ rest)); [by apply quiet_snoc | | exact Hg | exact He'].
    intros f [Hf|Hf]%List.in_app_or; [by destruct (H2 f) | by apply Hr]. }
  subst before. apply app_inv_head in He'. injection He' as <- _. by exists t1, resp, e_gw, commit.
Qed.
Lemma inv_ordered addr ej tr j : joiner_inv addr ej tr j -> nonce_after_commitment addr tr.
Proof.
  assert (Hq : quiet tr -> nonce_after_commitment addr tr).
  { intros H b g a -> _. exfalso. apply (H g), List.in_or_app. right. by left. }
  assert (Ho : forall gw eg c, opened addr ej gw eg c tr -> nonce_after_commitment addr tr).
  { intros gw eg c H. rewrite <- (app_nil_r tr). eapply opened_ordered; [exact H | by intros ? []]. }
  destruct j as [e|e gw e_gw commit|p|]; simpl.
  - intros [_ H]. by apply Hq.
  - intros (_ & _ & _ & _ & H). by eapply Ho.
  - intros (_ & _ & eg & ng & s & b & v & a & _ & _ & _ & -> & Ha & Hop & _). eapply opened_ordered; [exact Hop|].
    intros f [Hf|[Hf|Hf]]; [done | injection Hf as <-; done | by destruct (Ha f)].
  - intros [H|(gw & eg & c & H)]; [by apply Hq | by eapply Ho].
Qed.

(** C17. The joiner's handshake against an arbitrary peer. In every run the joiner's nonce goes out only
    right after a JOIN_RESP to it that commits the host it answers to a nonce, with nothing sent
    since its JOIN_REQ. And it holds a key only after that exchange and a JOIN_REVEAL from the same host, addressed
    to it, where the revealed nonce opens the commitment the JOIN_RESP carried and the tag is exactly the
    gateway's tag of the session derived from that nonce: from the JOIN_REQ on its run is silence, the
    commitment, its nonce, silence, the reveal, its confirmation, silence. *)
Theorem joiner_pairs_only_on_proof addr ej evs j tr :
  Forall (fun e => forall f, snd e = Some f -> frame_ok f) evs ->
  joiner_run addr (JWaitResp ej) evs = (j, tr) ->
  nonce_after_commitment addr tr /\ forall p, j = JPaired p -> proved addr ej p tr.
Proof.
  intros Hok H. pose proof (joiner_run_inv addr ej evs Hok) as HI. rewrite H in HI. cbn [fst snd] in HI.
  split; [by eapply inv_ordered|]. intros p ->. exact HI.
Qed.
End Handshake.

(** ** The transcript binds every public value *)

Definition transcript_ok (t : Transcript) : Prop :=
  u32_ok (t_node_addr t) /\ u32_ok (t_gw_addr t) /\
  zlen (t_e_node t) = PUBLIC_LEN /\ zlen (t_e_gw t) = PUBLIC_LEN /\
  zlen (t_n_node t) = HS_NONCE_LEN /\ zlen (t_n_gw t) = HS_NONCE_LEN.

Lemma app_inj_zlen {A} (a b c d : list A) : zlen a = zlen b -> a ++ c = b ++ d -> a = b /\ c = d.
Proof. intros Hl H. apply app_inj_1 in H; [done | unfold zlen in *; lia]. Qed.

(** the transcript encoding is injective and domain-separated: two transcripts hash the
    same bytes only if every address, public key and nonce in them is equal, and no transcript
    is hashed as the same bytes as a SAS, ephemeral-secret or nonce derivation. *)
Theorem transcript_bytes_injective t t' th entropy :
  transcript_ok t -> transcript_ok t' -> zlen th = 32 -> zlen entropy = ENTROPY_LEN ->
  (transcript_bytes t = transcript_bytes t' -> t = t') /\
  transcript_bytes t <> SAS_LABEL ++ th /\
  transcript_bytes t <> EPHEMERAL_LABEL ++ slice entropy 0 SECRET_ENTROPY_LEN /\
  transcript_bytes t <> NONCE_LABEL ++ slice entropy SECRET_ENTROPY_LEN NONCE_ENTROPY_LEN.
Proof.
  intros (Ha & Hg & H1 & H2 & H3 & H4) (Ha' & Hg' & H1' & H2' & H3' & H4') Hth Hen.
  assert (Hlen : zlen (transcript_bytes t) = 120).
  { unfold transcript_bytes. rewrite !zlen_app, !zlen_le_bytes, H1, H2, H3, H4. reflexivity. }
  split_and!.
  - intros He. unfold transcript_bytes in He.
    apply app_inj_zlen in He as [_ He]; [|done].
    apply app_inj_zlen in He as [E1 He]; [|zl].
    apply app_inj_zlen in He as [E2 He]; [|zl].
    apply app_inj_zlen in He as [E3 He]; [|congruence].
    apply app_inj_zlen in He as [E4 He]; [|congruence].
    apply app_inj_zlen in He as [E5 E6]; [|congruence].
    apply u32_bytes_inj in E1; [|done..]. apply u32_bytes_inj in E2; [|done..].
    destruct t, t'; simpl in *; congruence.
  - intros He. rewrite He, zlen_app, Hth in Hlen. discriminate Hlen.
  - intros He. rewrite He, zlen_app, zlen_slice in Hlen by mlia. discriminate Hlen.
  - intros He. rewrite He, zlen_app, zlen_slice in Hlen by mlia. discriminate Hlen.
Qed.

(** ** Witnesses

    Concrete stand-ins for the primitives (additive, so that Diffie-Hellman holds). *)
Module Toy.
Definition sha256 (m : list Z) : list Z := le_bytes 32 (le_val m + 1).
Definition hmac (k m : list Z) : list Z := le_bytes 32 (le_val k + 257 * le_val m).
Definition hkdf (salt ikm info : list Z) (n : Z) : list Z := le_bytes (Z.to_nat n) (le_val salt + le_val ikm).
Definition x25519 (s p : list Z) : list Z := le_bytes 32 (le_val s + le_val p).
Definition basepoint : list Z := zeros 32.

Lemma laws : PrimLaws sha256 hmac hkdf x25519 basepoint.
Proof.
  constructor; intros; split; try apply le_bytes_ok; try apply zlen_le_bytes.
  - unfold hkdf. rewrite zlen_le_bytes. lia.
  - reflexivity.
  - apply bytes_ok_zeros.
Qed.

Definition ej : Ephemeral := from_entropy sha256 x25519 basepoint (zeros 96).
Definition eh : Ephemeral := from_entropy sha256 x25519 basepoint (replicate 96 7).
Lemma ej_ok : eph_ok x25519 basepoint ej.
Proof. apply (from_entropy_ok _ _ _ _ _ laws). Qed.
Lemma eh_ok : eph_ok x25519 basepoint eh.
Proof. apply (from_entropy_ok _ _ _ _ _ laws). Qed.

Definition registered (a : Z) : bool := a =? 77.
Definition host := host_step sha256 hmac hkdf x25519 9 registered 60000 3900 true.
Definition joiner := joiner_step sha256 hmac hkdf x25519 5 true.
Definition frame_or (d : Frame) (o : option Frame) : Frame := match o with Some f => f | None => d end.
Definition req : Frame := join_request 5 ej.
Definition h1 := host (HListen eh) req.
Definition resp : Frame := frame_or req (snd h1).
Definition j1 := joiner (JWaitResp ej) resp.
Definition nonce : Frame := frame_or req (snd j1).
Definition h2 := host (fst h1) nonce.
Definition reveal : Frame := frame_or req (snd h2).
Definition j2 := joiner (fst j1) reveal.
Definition confirm : Frame := frame_or req (snd j2).
Definition host_evs : list HostEvent :=
  map (fun f => {| he_left := 60000; he_tx := true; he_frame := Some f |}) [req; nonce; reveal; confirm].
Definition joiner_evs : list JoinerEvent := [(true, Some resp); (true, Some nonce); (true, Some reveal)].
Definition frame_okb (o : option Frame) : bool := match o with Some f => bytes_okb (f_pl f) | None => true end.
Lemma frames_okb {E} (get : E -> option Frame) evs :
  forallb (fun e => frame_okb (get e)) evs = true ->
  Forall (fun e => forall f, get e = Some f -> frame_ok f) evs.
Proof.
  intros H. apply List.Forall_forall. intros e He f Hf. rewrite List.forallb_forall in H.
  specialize (H e He). rewrite Hf in H. by apply bytes_okb_ok.
Qed.
End Toy.

Lemma transcript_bytes_injective_witness :
  let t := {| t_node_addr := 5; t_gw_addr := 9; t_e_node := zeros 32; t_e_gw := replicate 32 1;
              t_n_node := zeros 16; t_n_gw := zeros 16 |} in
  transcript_bytes t <> SAS_LABEL ++ zeros 32.
Proof.
  intros t. apply (transcript_bytes_injective t t (zeros 32) (zeros 96)).
  1, 2: unfold transcript_ok; repeat split; vm_compute; first [reflexivity | discriminate].
  all: reflexivity.
Defined.

Lemma handshake_agrees_witness :
  exists pj ph, p_key pj = p_key ph /\ p_sas pj = p_sas ph /\ p_addr pj = 9 /\ p_addr ph = 5 /\
    fst Toy.j2 = JPaired pj.
Proof.
  destruct (handshake_agrees _ _ _ _ _ Toy.laws 9 5 Toy.ej Toy.eh Toy.registered 60000 3900)
    as (h1 & resp & j1 & nonce & h2 & reveal & pj & confirm & ph & E1 & E2 & E3 & E4 & E5 & ? & _ & ? & _ & ? & ?).
  - apply Toy.ej_ok.
  - apply Toy.eh_ok.
  - vm_compute. reflexivity.
  - vm_compute. discriminate.
  - reflexivity.
  - reflexivity.
  - reflexivity.
  - exists pj, ph. split_and!; try assumption.
    unfold Toy.j2, Toy.joiner, Toy.reveal, Toy.h2, Toy.nonce, Toy.j1, Toy.resp, Toy.h1, Toy.host, Toy.req, Toy.joiner.
    rewrite E1. cbn [snd fst Toy.frame_or]. rewrite E2. cbn [snd fst Toy.frame_or].
    rewrite E3. cbn [snd fst Toy.frame_or]. rewrite E4. reflexivity.
Defined.

Lemma host_pairs_only_on_proof_witness :
  exists p, fold_left (host_event Toy.sha256 Toy.hmac Toy.hkdf Toy.x25519 9 Toy.registered 3900) Toy.host_evs
      (HListen Toy.eh) = HPaired p /\
    join_request_admissible (p_addr p) 9 (Toy.registered (p_addr p)) = true.
Proof.
  eexists. split; [vm_compute; reflexivity|].
  apply (host_pairs_only_on_proof _ _ _ _ _ Toy.laws 9 Toy.registered 3900 Toy.eh Toy.host_evs).
  - apply Toy.frames_okb. vm_compute. reflexivity.
  - vm_compute. reflexivity.
Defined.

Lemma joiner_pairs_only_on_proof_witness :
  exists p tr, joiner_run Toy.sha256 Toy.hmac Toy.hkdf Toy.x25519 5 (JWaitResp Toy.ej) Toy.joiner_evs = (JPaired p, tr) /\
    nonce_after_commitment 5 tr /\ is_reserved_addr (p_addr p) = false.
Proof.
  eexists _, _. split; [vm_compute; reflexivity|].
  match goal with |- nonce_after_commitment 5 ?tr /\ is_reserved_addr (p_addr ?p) = false =>
    destruct (joiner_pairs_only_on_proof Toy.sha256 Toy.hmac Toy.hkdf Toy.x25519 _ Toy.laws 5 Toy.ej Toy.joiner_evs (JPaired p) tr) as [H1 H2] end.
  - apply Toy.frames_okb. vm_compute. reflexivity.
  - vm_compute. reflexivity.
  - split; [exact H1|]. by destruct (H2 _ eq_refl) as (_ & H & _).
Defined.
