(* ===== verification/Kv.v ===== *)
(** The power-loss-safe key-value store (crates/kv/src/lib.rs): the [Eeprom] trait as a class, and
    every operation of the codec as a function in the state-and-error monad. Its theory is in
    KvWp.v (program logic), KvLog.v (the record log), KvSpec.v and KvFlip.v (the properties). *)
From S2P Require Import Prelude Bytes Crc.

Definition MAX_VALUE : Z := 256.
Definition MAX_KEYS : Z := 64.
Definition KV_HEADER : Z := 8.
Definition WORD : Z := 4.
Definition SUPER_MAGIC : list Z := [84; 75; 86; 50].
Definition SUPER_LEN : Z := 12.
#[export] Hint Unfold MAX_VALUE MAX_KEYS KV_HEADER WORD SUPER_LEN : machine.

(** [u32::next_multiple_of]. *)
Definition next_multiple_of (a b : Z) : Z := div_ceil a b * b.

Definition record_size (len : Z) : Z := KV_HEADER + next_multiple_of len WORD.

(** The [Eeprom] trait. A read returns the bytes; both may fail with the backend's error. *)
Class Eeprom (S E : Type) := {
  ee_read : S -> Z -> Z -> result E (list Z);
  ee_write : S -> Z -> list Z -> S * result E unit;
}.

Inductive KvError (E : Type) :=
| Backend (e : E)
| ValueTooLarge
| Full
| InvalidKey
| TooManyKeys
| Stale.
Arguments Backend {E} e.
Arguments ValueTooLarge {E}.
Arguments Full {E}.
Arguments InvalidKey {E}.
Arguments TooManyKeys {E}.
Arguments Stale {E}.

(** [!x] on u32. *)
Definition not32 (x : Z) : Z := Z.lxor x u32_max.

Definition entry_crc (hdr4 value : list Z) : Z :=
  not32 (crc32_update (crc32_update u32_max hdr4) value).

Definition region (capacity : Z) : Z := capacity / WORD * WORD.
Definition half_len (capacity : Z) : Z := sat_sub (region capacity) (2 * SUPER_LEN) / 2 / WORD * WORD.
Definition half_base (capacity h : Z) : Z := h * half_len capacity.
Definition super_off (capacity h : Z) : Z := region capacity - 2 * SUPER_LEN + h * SUPER_LEN.

Definition super_crc (b : list Z) : Z := not32 (crc32_update u32_max b).

(** The bytes [write_gen] programs. *)
Definition super_bytes (generation : Z) : list Z :=
  let b := SUPER_MAGIC ++ le_bytes 4 generation in
  b ++ le_bytes 4 (super_crc b).

(** [latest[..nkeys].iter().any(|&(t, off)| t == tag && off == o)]. *)
Definition planned (latest : list (Z * Z)) (tag o : Z) : bool :=
  existsb (fun '(t, off) => (t =? tag) && (off =? o)) latest.

(** The [latest] table update of [walk_latest]; [None] when a new key does not fit. *)
Fixpoint latest_set (latest : list (Z * Z)) (tag o : Z) : option (list (Z * Z)) :=
  match latest with
  | [] => None
  | (t, off) :: latest =>
      if t =? tag then Some ((t, o) :: latest)
      else option_map (cons (t, off)) (latest_set latest tag o)
  end.

(** RAM-only state of an incremental flip. *)
Record FlipState := {
  src_h : Z; src_gen : Z; src_end : Z;
  latest : list (Z * Z);
  blank_off : Z; read_off : Z; write_off : Z; rec_copied : Z;
}.

Record BlankCursor := { bc_generation : Z; bc_off : Z }.
Definition blank_cursor_new : BlankCursor := {| bc_generation := 0; bc_off := 0 |}.

Record MaintState := { m_blank : BlankCursor; m_flip : option FlipState }.
Definition maint_new : MaintState := {| m_blank := blank_cursor_new; m_flip := None |}.

Definition FLIP_THRESHOLD : Z := 2 * (KV_HEADER + MAX_VALUE).

Definition words (len : Z) : Z := div_ceil len 4.

Section Kv.
Context {S E : Type} `{!Eeprom S E}.
#[local] Abbreviation M := (M S (KvError E)).

Definition rd (o n : Z) : M (list Z) := fun s => (s, rmap_err Backend (ee_read s o n)).
Definition wr (o : Z) (d : list Z) : M unit :=
  fun s => let '(s', r) := ee_write s o d in (s', rmap_err Backend r).

(** ** Superblocks *)

Definition read_gen (capacity h : Z) : M (option Z) :=
  let! b := rd (super_off capacity h) SUPER_LEN in
  if negb (bool_decide (slice b 0 4 = SUPER_MAGIC)) then ret None
  else
    let g := le_val (slice b 4 4) in
    let crc := le_val (slice b 8 4) in
    if negb (super_crc (slice b 0 8) =? crc) then ret None else ret (Some g).

Definition write_gen (capacity h generation : Z) : M unit :=
  wr (super_off capacity h) (super_bytes generation).

Definition active (capacity : Z) : M (option (Z * Z)) :=
  let! g0 := read_gen capacity 0 in
  let! g1 := read_gen capacity 1 in
  ret match g0, g1 with
      | Some a, Some b => Some (if b <=? a then (0, a) else (1, b))
      | Some a, None => Some (0, a)
      | None, Some b => Some (1, b)
      | None, None => None
      end.

(** ** Records *)

(** The header and CRC checks shared by [scan_half] and [walk_latest]: the record at [base + o],
    or [None] where the loop breaks. *)
Definition read_record (base area o : Z) : M (option (Z * Z)) :=
  if area <? o + KV_HEADER then ret None
  else
    let! hdr := rd (base + o) KV_HEADER in
    let tag := le_val (slice hdr 0 2) in
    if tag =? 0 then ret None
    else
      let len := le_val (slice hdr 2 2) in
      let crc := le_val (slice hdr 4 4) in
      if (MAX_VALUE <? len) || (area <? o + record_size len) then ret None
      else
        let! val := rd (base + o + KV_HEADER) len in
        if negb (entry_crc (slice hdr 0 4) val =? crc) then ret None
        else ret (Some (tag, len)).

Fixpoint scan_loop (fuel : nat) (base area target o : Z) (found : option (Z * Z))
  : M (Z * option (Z * Z)) :=
  match fuel with
  | O => ret (o, found)
  | Datatypes.S fuel =>
      let! r := read_record base area o in
      match r with
      | None => ret (o, found)
      | Some (tag, len) =>
          scan_loop fuel base area target (o + record_size len)
            (if tag =? target then Some (o, len) else found)
      end
  end.
(** Every iteration advances by at least [KV_HEADER]; [area + 1] iterations are never reached. *)
Definition scan_half (base area target : Z) : M (Z * option (Z * Z)) :=
  scan_loop (Z.to_nat area + 1) base area target 0 None.

Definition append (at_ key : Z) (value : list Z) : M unit :=
  let len := zlen value in
  let buf := zeros (KV_HEADER + MAX_VALUE) in
  let buf := patch buf 0 (le_bytes 2 key) in
  let buf := patch buf 2 (le_bytes 2 (wrap16 len)) in
  let crc := entry_crc (slice buf 0 4) value in
  let buf := patch buf 4 (le_bytes 4 crc) in
  let buf := patch buf 8 value in
  wr (at_ + WORD) (slice buf WORD (record_size len - WORD)) ;;;
  wr at_ (slice buf 0 WORD).

Definition clear_word (at_ : Z) : M unit :=
  let! word := rd at_ WORD in
  if negb (bool_decide (word = zeros WORD)) then wr at_ (zeros WORD) else ret tt.

Definition append_end (base area free key : Z) (value : list Z) : M unit :=
  clear_word (base + free) ;;;
  let next := free + record_size (zlen value) in
  (if next + KV_HEADER <=? area then clear_word (base + next) else ret tt) ;;;
  append (base + free) key value.

(** ** Blanking *)

(** The inner loop over one chunk: the budget left, and [Some progress] on its early return. *)
Fixpoint blank_chunk (fuel : nat) (base o : Z) (chunk : list Z) (n w budget : Z)
  : M (Z * option Z) :=
  match fuel with
  | O => ret (budget, None)
  | Datatypes.S fuel =>
      if w <? n then
        let wn := Z.min (n - w) 4 in
        if existsb (fun b => negb (b =? 0)) (slice chunk w wn) then
          if budget =? 0 then ret (budget, Some (o + w))
          else
            wr (base + o + w) (zeros wn) ;;;
            blank_chunk fuel base o chunk n (w + wn) (budget - 1)
        else blank_chunk fuel base o chunk n (w + wn) budget
      else ret (budget, None)
  end.

Fixpoint blank_loop (fuel : nat) (base len o budget : Z) : M (Z * Z) :=
  match fuel with
  | O => ret (len, budget)
  | Datatypes.S fuel =>
      if o <? len then
        let n := Z.min (len - o) 64 in
        let! chunk := rd (base + o) n in
        let! r := blank_chunk 17 base o chunk n 0 budget in
        match r with
        | (budget, Some p) => ret (p, budget)
        | (budget, None) => blank_loop fuel base len (o + n) budget
        end
      else ret (len, budget)
  end.
(** The progress and the budget left. *)
Definition blank_step_span (base len from budget : Z) : M (Z * Z) :=
  blank_loop (Z.to_nat len + 1) base len from budget.

Definition blank (at_ len : Z) : M unit :=
  blank_step_span at_ len 0 u32_max ;;; ret tt.

(** ** Mounting *)

Definition init (capacity : Z) : M unit :=
  let! a := active capacity in
  match a with
  | Some _ => ret tt
  | None =>
      (if KV_HEADER <=? half_len capacity then clear_word (half_base capacity 0) else ret tt) ;;;
      write_gen capacity 0 1
  end.

(** ** Compaction *)

Fixpoint walk_loop (fuel : nat) (base area o : Z) (latest : list (Z * Z)) : M (Z * list (Z * Z)) :=
  match fuel with
  | O => ret (o, latest)
  | Datatypes.S fuel =>
      let! r := read_record base area o in
      match r with
      | None => ret (o, latest)
      | Some (tag, len) =>
          match latest_set latest tag o with
          | Some latest => walk_loop fuel base area (o + record_size len) latest
          | None =>
              if MAX_KEYS <=? zlen latest then fail TooManyKeys
              else walk_loop fuel base area (o + record_size len) (latest ++ [(tag, o)])
          end
      end
  end.
Definition walk_latest (base area : Z) : M (Z * list (Z * Z)) :=
  walk_loop (Z.to_nat area + 1) base area 0 [].

(** Pass 2 of [flip]. *)
Fixpoint copy_loop (fuel : nat) (src_base dst_base half src_free : Z) (latest : list (Z * Z)) (o w : Z)
  : M unit :=
  match fuel with
  | O => ret tt
  | Datatypes.S fuel =>
      if o <? src_free then
        let! hdr := rd (src_base + o) KV_HEADER in
        let tag := le_val (slice hdr 0 2) in
        if tag =? 0 then ret tt
        else
          let len := le_val (slice hdr 2 2) in
          let size := record_size len in
          if negb (len =? 0) && planned latest tag o then
            if half <? w + size then fail Full
            else
              let! tmp := rd (src_base + o) size in
              wr (dst_base + w) tmp ;;;
              copy_loop fuel src_base dst_base half src_free latest (o + size) (w + size)
          else copy_loop fuel src_base dst_base half src_free latest (o + size) w
      else ret tt
  end.

Definition flip (capacity src_h src_gen : Z) : M unit :=
  let half := half_len capacity in
  let src_base := half_base capacity src_h in
  let dst_h := 1 - src_h in
  let dst_base := half_base capacity dst_h in
  let! (src_free, latest) := walk_latest src_base half in
  blank dst_base half ;;;
  copy_loop (Z.to_nat half + 1) src_base dst_base half src_free latest 0 0 ;;;
  write_gen capacity dst_h (wrap32 (src_gen + 1)).

Definition compact (capacity : Z) : M unit :=
  let! a := active capacity in
  match a with
  | Some (h, g) => flip capacity h g
  | None => ret tt
  end.

Definition wipe (capacity : Z) : M unit :=
  let half := half_len capacity in
  let! a := active capacity in
  match a with
  | Some (h, g) =>
      let dst := 1 - h in
      blank (half_base capacity dst) half ;;;
      write_gen capacity dst (wrap32 (g + 1)) ;;;
      blank (half_base capacity h) half
  | None =>
      blank (half_base capacity 1) half ;;;
      write_gen capacity 1 1 ;;;
      blank (half_base capacity 0) half ;;;
      blank (super_off capacity 0) SUPER_LEN
  end.

Definition generation (capacity : Z) : M Z :=
  let! a := active capacity in
  ret match a with Some (_, g) => g | None => 0 end.

(** ** Incremental flips

    [&mut FlipState] arguments are the second component of the state. *)
#[local] Abbreviation MF := (Prelude.M (S * FlipState) (KvError E)).

Definition flip_start (capacity : Z) : M (option FlipState) :=
  let! a := active capacity in
  match a with
  | None => ret None
  | Some (h, g) =>
      let! (src_end, latest) := walk_latest (half_base capacity h) (half_len capacity) in
      ret (Some {| src_h := h; src_gen := g; src_end := src_end; latest := latest;
                   blank_off := 0; read_off := 0; write_off := 0; rec_copied := 0 |})
  end.

Definition flip_fresh (capacity : Z) (st : FlipState) : M bool :=
  let! a := active capacity in
  ret (bool_decide (a = Some (src_h st, src_gen st))).

Definition set_blank_off (v : Z) : MF unit :=
  let! st := get_ram in
  put_ram {| src_h := src_h st; src_gen := src_gen st; src_end := src_end st; latest := latest st;
             blank_off := v; read_off := read_off st; write_off := write_off st;
             rec_copied := rec_copied st |}.
Definition set_copy (read write copied : Z) : MF unit :=
  let! st := get_ram in
  put_ram {| src_h := src_h st; src_gen := src_gen st; src_end := src_end st; latest := latest st;
             blank_off := blank_off st; read_off := read; write_off := write;
             rec_copied := copied |}.

(** The inner copy of one record: [Some budget] when the record is complete, [None] when the
    budget ran out. *)
Fixpoint copy_rec (fuel : nat) (src_base dst_base size budget : Z) : MF (option Z) :=
  match fuel with
  | O => ret (Some budget)
  | Datatypes.S fuel =>
      let! st := get_ram in
      if rec_copied st <? size then
        if budget =? 0 then ret None
        else
          let chunk := Z.min (size - rec_copied st) (sat_mul u32_max budget 4) in
          let! tmp := lift (rd (src_base + read_off st + rec_copied st) chunk) in
          lift (wr (dst_base + write_off st + rec_copied st) tmp) ;;;
          set_copy (read_off st) (write_off st) (rec_copied st + chunk) ;;;
          copy_rec fuel src_base dst_base size (sat_sub budget (words chunk))
      else ret (Some budget)
  end.

(** Phase B of [flip_step]. *)
Fixpoint step_loop (fuel : nat) (src_base dst_base half budget : Z) : MF bool :=
  match fuel with
  | O => ret false
  | Datatypes.S fuel =>
      let! st := get_ram in
      if read_off st <? src_end st then
        let! hdr := lift (rd (src_base + read_off st) KV_HEADER) in
        let tag := le_val (slice hdr 0 2) in
        if tag =? 0 then ret false
        else
          let len := le_val (slice hdr 2 2) in
          let size := record_size len in
          if negb (planned (latest st) tag (read_off st)) || (len =? 0) then
            set_copy (read_off st + size) (write_off st) (rec_copied st) ;;;
            step_loop fuel src_base dst_base half budget
          else if half <? write_off st + size then fail Full
          else
            let! b := copy_rec (Z.to_nat size + 1) src_base dst_base size budget in
            match b with
            | None => ret true
            | Some budget =>
                set_copy (read_off st + size) (write_off st + size) 0 ;;;
                step_loop fuel src_base dst_base half budget
            end
      else ret false
  end.

Definition flip_step (capacity budget_words : Z) : MF bool :=
  let! st := get_ram in
  let! fresh := lift (flip_fresh capacity st) in
  if negb fresh then fail Stale
  else
    let half := half_len capacity in
    let src_base := half_base capacity (src_h st) in
    let dst_base := half_base capacity (1 - src_h st) in
    let! (more, budget) :=
      if blank_off st <? half then
        let! (p, budget) := lift (blank_step_span dst_base half (blank_off st) budget_words) in
        set_blank_off p ;;;
        ret (p <? half, budget)
      else ret (false, budget_words) in
    if more then ret true
    else step_loop (Z.to_nat half + 1) src_base dst_base half budget.

Fixpoint step_all (fuel : nat) (capacity : Z) : MF unit :=
  match fuel with
  | O => ret tt
  | Datatypes.S fuel =>
      let! more := flip_step capacity u32_max in
      if more then step_all fuel capacity else ret tt
  end.

(** The tail catch-up of [flip_commit]. *)
Fixpoint tail_loop (fuel : nat) (src_base dst_base half o : Z) : MF unit :=
  match fuel with
  | O => ret tt
  | Datatypes.S fuel =>
      if half <? o + KV_HEADER then ret tt
      else
        let! hdr := lift (rd (src_base + o) KV_HEADER) in
        let tag := le_val (slice hdr 0 2) in
        if tag =? 0 then ret tt
        else
          let len := le_val (slice hdr 2 2) in
          let crc := le_val (slice hdr 4 4) in
          if (MAX_VALUE <? len) || (half <? o + record_size len) then ret tt
          else
            let size := record_size len in
            let! body := lift (rd (src_base + o + KV_HEADER) (size - KV_HEADER)) in
            if negb (entry_crc (slice hdr 0 4) (slice body 0 len) =? crc) then ret tt
            else
              let! st := get_ram in
              if half <? write_off st + size then fail Full
              else
                lift (wr (dst_base + write_off st) (hdr ++ body)) ;;;
                set_copy (read_off st) (write_off st + size) (rec_copied st) ;;;
                tail_loop fuel src_base dst_base half (o + size)
  end.

(** One step with an unlimited budget completes, so two rounds of the [while] are never
    exceeded. *)
Definition flip_commit (capacity : Z) : MF unit :=
  step_all 2 capacity ;;;
  let half := half_len capacity in
  let! st := get_ram in
  let src_base := half_base capacity (src_h st) in
  let dst_base := half_base capacity (1 - src_h st) in
  tail_loop (Z.to_nat half + 1) src_base dst_base half (src_end st) ;;;
  lift (write_gen capacity (1 - src_h st) (wrap32 (src_gen st + 1))).

(** ** Reading and writing

    [pending] ([&mut Option<FlipState>]) is the second component of the state. *)
#[local] Abbreviation MP := (Prelude.M (S * option FlipState) (KvError E)).

Definition set_bytes_with (capacity key : Z) (value : list Z) : MP unit :=
  if key =? 0 then fail InvalidKey
  else if MAX_VALUE <? zlen value then fail ValueTooLarge
  else
    let! a := lift (active capacity) in
    let! (h, g) := match a with
                   | Some x => ret x
                   | None => lift (init capacity) ;;; ret (0, 1)
                   end in
    let half := half_len capacity in
    let needed := record_size (zlen value) in
    let base := half_base capacity h in
    let! (free, _) := lift (scan_half base half key) in
    if free + needed <=? half then lift (append_end base half free key value)
    else
      let! pending := get_ram in
      put_ram None ;;;
      let! finished_pending :=
        match pending with
        | Some st =>
            if bool_decide ((src_h st, src_gen st) = (h, g)) then
              lift (with_ram st (flip_commit capacity)) ;;; ret true
            else lift (flip capacity h g) ;;; ret false
        | None => lift (flip capacity h g) ;;; ret false
        end in
      let! a2 := lift (active capacity) in
      match a2 with
      | None => fail Full
      | Some (h2, g2) =>
          let! (free2, _) := lift (scan_half (half_base capacity h2) half key) in
          let! (h2, free2) :=
            if (half <? free2 + needed) && finished_pending then
              lift (flip capacity h2 g2) ;;;
              let! a3 := lift (active capacity) in
              match a3 with
              | None => fail Full
              | Some (h3, _) =>
                  let! (free3, _) := lift (scan_half (half_base capacity h3) half key) in
                  ret (h3, free3)
              end
            else ret (h2, free2) in
          if half <? free2 + needed then fail Full
          else lift (append_end (half_base capacity h2) half free2 key value)
      end.

Definition set_bytes (capacity key : Z) (value : list Z) : M unit :=
  with_ram None (set_bytes_with capacity key value).

(** [out] has room for [cap] bytes: the true length, and the bytes copied. *)
Definition get_bytes (capacity key cap : Z) : M (option (Z * list Z)) :=
  if key =? 0 then ret None
  else
    let! a := active capacity in
    match a with
    | None => ret None
    | Some (h, _) =>
        let base := half_base capacity h in
        let! (_, found) := scan_half base (half_len capacity) key in
        match found with
        | None => ret None
        | Some (off, len) =>
            if len =? 0 then ret None
            else
              let! v := rd (base + off + KV_HEADER) (Z.min len cap) in
              ret (Some (len, v))
        end
    end.

Definition delete_with (capacity key : Z) : MP unit :=
  if key =? 0 then fail InvalidKey
  else
    let! a := lift (active capacity) in
    match a with
    | None => ret tt
    | Some (h, _) =>
        let! (_, found) := lift (scan_half (half_base capacity h) (half_len capacity) key) in
        match found with
        | Some (_, len) => if 0 <? len then set_bytes_with capacity key [] else ret tt
        | None => ret tt
        end
    end.
Definition delete (capacity key : Z) : M unit := with_ram None (delete_with capacity key).

Definition compact_with (capacity : Z) : MP unit :=
  let! pending := get_ram in
  put_ram None ;;;
  match pending with
  | None => lift (compact capacity)
  | Some st =>
      fun sp =>
        let '(sp', r) := lift (with_ram st (flip_commit capacity)) sp in
        match r with
        | Err Stale => lift (compact capacity) sp'
        | r => (sp', r)
        end
  end.

(** ** Telemetry and maintenance *)

Definition free_bytes (capacity : Z) : M Z :=
  let half := half_len capacity in
  let! a := active capacity in
  match a with
  | Some (h, _) => let! (end_, _) := scan_half (half_base capacity h) half 0 in ret (half - end_)
  | None => ret half
  end.

Fixpoint live_loop (base : Z) (latest : list (Z * Z)) (total : Z) : M Z :=
  match latest with
  | [] => ret total
  | (_, off) :: latest =>
      let! hdr := rd (base + off) KV_HEADER in
      let len := le_val (slice hdr 2 2) in
      live_loop base latest (if negb (len =? 0) then total + record_size len else total)
  end.
Definition live_bytes (capacity : Z) : M Z :=
  let! a := active capacity in
  match a with
  | None => ret 0
  | Some (h, _) =>
      let base := half_base capacity h in
      let! (_, latest) := walk_latest base (half_len capacity) in
      live_loop base latest 0
  end.

Fixpoint all_blank (fuel : nat) (base half o : Z) : M bool :=
  match fuel with
  | O => ret true
  | Datatypes.S fuel =>
      if o <? half then
        let n := Z.min (half - o) 64 in
        let! chunk := rd (base + o) n in
        if existsb (fun b => negb (b =? 0)) chunk then ret false
        else all_blank fuel base half (o + n)
      else ret true
  end.
Definition dead_half_blank (capacity : Z) : M bool :=
  let! a := active capacity in
  match a with
  | None => ret true
  | Some (h, _) =>
      all_blank (Z.to_nat (half_len capacity) + 1) (half_base capacity (1 - h)) (half_len capacity) 0
  end.

Definition blank_dead_step (capacity budget_words : Z) : Prelude.M (S * BlankCursor) (KvError E) bool :=
  let! a := lift (active capacity) in
  match a with
  | None => ret false
  | Some (h, g) =>
      let! cur := get_ram in
      let cur := if bc_generation cur =? g then cur else {| bc_generation := g; bc_off := 0 |} in
      put_ram cur ;;;
      let half := half_len capacity in
      if half <=? bc_off cur then ret false
      else
        let! (p, _) := lift (blank_step_span (half_base capacity (1 - h)) half (bc_off cur) budget_words) in
        put_ram {| bc_generation := bc_generation cur; bc_off := p |} ;;;
        ret (p <? half)
  end.

#[local] Abbreviation MM := (Prelude.M (S * MaintState) (KvError E)).

(** Running code on one field of the maintenance state. *)
Definition on_flip {A} (st : FlipState) (m : MF A) : MM A :=
  fun '(s, ms) =>
    let '((s', st'), r) := m (s, st) in
    ((s', {| m_blank := m_blank ms; m_flip := Some st' |}), r).
Definition on_blank {A} (m : Prelude.M (S * BlankCursor) (KvError E) A) : MM A :=
  fun '(s, ms) =>
    let '((s', c'), r) := m (s, m_blank ms) in
    ((s', {| m_blank := c'; m_flip := m_flip ms |}), r).
Definition set_flip (f : option FlipState) : MM unit :=
  let! ms := get_ram in
  put_ram {| m_blank := m_blank ms; m_flip := f |}.

Definition maintain (capacity budget_words threshold : Z) : MM bool :=
  let! a := lift (active capacity) in
  match a with
  | None => ret false
  | Some (h, g) =>
      let! ms := get_ram in
      let pending := match m_flip ms with
                     | Some st => if bool_decide ((src_h st, src_gen st) = (h, g)) then Some st else None
                     | None => None
                     end in
      set_flip pending ;;;
      match pending with
      | Some st =>
          let! more := on_flip st (flip_step capacity budget_words) in
          if more then ret true
          else
            let! ms := get_ram in
            set_flip None ;;;
            match m_flip ms with
            | Some st => lift (with_ram st (flip_commit capacity)) ;;; ret true
            | None => ret true   (* the slot was just checked to hold the flip *)
            end
      | None =>
          let half := half_len capacity in
          let! (end_, _) := lift (scan_half (half_base capacity h) half 0) in
          let! start :=
            if half - end_ <? threshold then
              let! live := lift (live_bytes capacity) in ret (live + threshold <=? half)
            else ret false in
          if start : bool then
            let! f := lift (flip_start capacity) in
            set_flip f ;;; ret true
          else on_blank (blank_dead_step capacity budget_words)
      end
  end.
End Kv.
