(* ===== verification/KvWp.v ===== *)
(** Program logic for the key-value store: the contract of an [Eeprom] backend, which includes
    what a power cut or a backend failure inside a write leaves behind, and weakest-precondition
    rules for the codec's monad over EEPROM images. *)
From S2P Require Import Prelude Bytes Crc Kv.

Definition aligned (o : Z) : Prop := (WORD | o).

(** A write of [d] at [o] that was interrupted: some leading words were programmed, at most one
    word is left as anything the programming of that word can leave ([garble old new]), the words
    behind it are as they were. *)
Definition torn (garble : list Z -> list Z -> list Z -> Prop) (img : list Z) (o : Z) (d : list Z)
    (img' : list Z) : Prop :=
  img' = img \/
  exists k g, 0 <= k /\ 4 * k + 4 <= zlen d /\ zlen g = 4 /\ bytes_ok g /\
    garble (slice img (o + 4 * k) 4) (slice d (4 * k) 4) g /\
    img' = patch img o (slice d 0 (4 * k) ++ g).

(** The contract. [image] is the content of the cells. Whole-word writes either succeed and
    change exactly the written span, or fail (a backend error or a power cut) and tear. *)
Class EepromLaws (S E : Type) `{!Eeprom S E} := {
  image : S -> list Z;
  garble : list Z -> list Z -> list Z -> Prop;
  image_ok : forall s, bytes_ok (image s);
  read_law : forall s o n b, 0 <= o -> 0 <= n -> o + n <= zlen (image s) ->
    ee_read s o n = Ok b -> b = slice (image s) o n;
  write_law : forall s o d s', 0 <= o -> o + zlen d <= zlen (image s) -> aligned o -> aligned (zlen d) ->
    bytes_ok d -> ee_write s o d = (s', Ok tt) -> image s' = patch (image s) o d;
  torn_law : forall s o d s' e, 0 <= o -> o + zlen d <= zlen (image s) -> aligned o -> aligned (zlen d) ->
    bytes_ok d -> ee_write s o d = (s', Err e) -> torn garble (image s) o d (image s');
}.

Section Wp.
Context {S E : Type} `{!Eeprom S E} `{!EepromLaws S E}.
#[local] Abbreviation M T := (Prelude.M T (KvError E)).

(** [T] is a state that contains a store: the store alone, or the store and RAM state. *)
Definition wp {A} (m : M S A) (Q : result (KvError E) A -> list Z -> Prop) (img : list Z) : Prop :=
  bytes_ok img -> forall s, image s = img -> Q (snd (m s)) (image (fst (m s))).

Definition wpr {T A} (m : M (S * T) A) (Q : result (KvError E) A -> T -> list Z -> Prop)
    (t : T) (img : list Z) : Prop :=
  bytes_ok img -> forall s, image s = img ->
  Q (snd (m (s, t))) (snd (fst (m (s, t)))) (image (fst (fst (m (s, t))))).

Lemma wp_conseq {A} (m : M S A) (Q Q' : result (KvError E) A -> list Z -> Prop) img :
  wp m Q img -> (forall r img', bytes_ok img' -> Q r img' -> Q' r img') -> wp m Q' img.
Proof. intros H HQ Hok s Hs. apply HQ; [apply image_ok | by apply H]. Qed.
Lemma wpr_conseq {T A} (m : M (S * T) A) (Q Q' : result (KvError E) A -> T -> list Z -> Prop) t img :
  wpr m Q t img -> (forall r t' img', bytes_ok img' -> Q r t' img' -> Q' r t' img') -> wpr m Q' t img.
Proof. intros H HQ Hok s Hs. apply HQ; [apply image_ok | by apply H]. Qed.

Lemma wp_ok {A} (m : M S A) Q img : (bytes_ok img -> wp m Q img) -> wp m Q img.
Proof. intros H Hok. by apply H. Qed.
Lemma wpr_ok {T A} (m : M (S * T) A) Q t img : (bytes_ok img -> wpr m Q t img) -> wpr m Q t img.
Proof. intros H Hok. by apply H. Qed.

Lemma wp_at {A} (m : M S A) Q img img' : img' = img -> wp m Q img' -> wp m Q img.
Proof. by intros ->. Qed.
Lemma wp_ret {A} (a : A) Q img : Q (Ok a) img -> wp (ret a) Q img.
Proof. intros H _ s Hs. simpl. by rewrite Hs. Qed.
Lemma wp_fail {A} e (Q : result (KvError E) A -> list Z -> Prop) img : Q (Err e) img -> wp (fail e) Q img.
Proof. intros H _ s Hs. simpl. by rewrite Hs. Qed.
Lemma wp_bind {A B} (m : M S A) (k : A -> M S B) Q img :
  wp m (fun r img' => match r with Ok a => wp (k a) Q img' | Err e => Q (Err e) img' end) img ->
  wp (bind m k) Q img.
Proof.
  intros H Hok s Hs. unfold bind. specialize (H Hok s Hs).
  destruct (m s) as [s' [a|e]]; simpl in *; [|done]. apply H; [apply image_ok | done].
Qed.

Lemma wpr_ret {T A} (a : A) Q (t : T) img : Q (Ok a) t img -> wpr (ret a) Q t img.
Proof. intros H _ s Hs. simpl. by rewrite Hs. Qed.
Lemma wpr_fail {T A} e (Q : result (KvError E) A -> T -> list Z -> Prop) t img :
  Q (Err e) t img -> wpr (fail e) Q t img.
Proof. intros H _ s Hs. simpl. by rewrite Hs. Qed.
Lemma wpr_bind {T A B} (m : M (S * T) A) (k : A -> M (S * T) B) Q t img :
  wpr m (fun r t' img' => match r with Ok a => wpr (k a) Q t' img' | Err e => Q (Err e) t' img' end) t img ->
  wpr (bind m k) Q t img.
Proof.
  intros H Hok s Hs. unfold bind. specialize (H Hok s Hs).
  destruct (m (s, t)) as [[s' t'] [a|e]]; simpl in *; [|done]. apply H; [apply image_ok | done].
Qed.
Lemma wpr_lift {T A} (m : M S A) Q (t : T) img :
  wp m (fun r img' => Q r t img') img -> wpr (lift m) Q t img.
Proof.
  intros H Hok s Hs. specialize (H Hok s Hs). unfold lift. destruct (m s) as [s' r]. done.
Qed.
Lemma wpr_get {T} Q (t : T) img : Q (Ok t) t img -> wpr get_ram Q t img.
Proof. intros H _ s Hs. simpl. by rewrite Hs. Qed.
Lemma wpr_put {T} Q (t t' : T) img : Q (Ok tt) t' img -> wpr (put_ram t') Q t img.
Proof. intros H _ s Hs. simpl. by rewrite Hs. Qed.
Lemma wp_with {T A} (m : M (S * T) A) Q (t : T) img :
  wpr m (fun r _ img' => Q r img') t img -> wp (with_ram t m) Q img.
Proof.
  intros H Hok s Hs. specialize (H Hok s Hs). unfold with_ram. destruct (m (s, t)) as [[s' t'] r]. done.
Qed.

(** ** The backend's operations *)

Lemma wp_rd o n Q img :
  0 <= o -> 0 <= n -> o + n <= zlen img ->
  Q (Ok (slice img o n)) img -> (forall e, Q (Err (Backend e)) img) -> wp (rd o n) Q img.
Proof.
  intros Ho Hn Hl HOk HErr _ s <-. unfold rd. simpl.
  destruct (ee_read s o n) as [b|e] eqn:Hr; simpl; [|done].
  by apply read_law in Hr as ->.
Qed.

Lemma wp_wr o d Q img :
  0 <= o -> o + zlen d <= zlen img -> aligned o -> aligned (zlen d) -> bytes_ok d ->
  Q (Ok tt) (patch img o d) -> (forall e img', torn garble img o d img' -> Q (Err (Backend e)) img') ->
  wp (wr o d) Q img.
Proof.
  intros Ho Hl Ha Hd Hb HOk HErr _ s <-. unfold wr.
  destruct (ee_write s o d) as [s' [[]|e]] eqn:Hw; simpl.
  - apply write_law in Hw as ->; done.
  - apply HErr. by apply torn_law in Hw.
Qed.
End Wp.

(** A torn write changes only the written span, and keeps the size. *)
Lemma torn_zlen gb img o d img' :
  torn gb img o d img' -> 0 <= o -> o + zlen d <= zlen img -> zlen img' = zlen img.
Proof.
  intros [->|(k & g & ? & ? & ? & ? & ? & ->)] Ho Hl; [done|].
  apply zlen_patch; [lia|]. rewrite zlen_app, zlen_slice by lia. lia.
Qed.
Lemma torn_outside gb img o d img' o' n :
  torn gb img o d img' -> 0 <= o -> o + zlen d <= zlen img -> 0 <= o' -> 0 <= n ->
  o' + n <= o \/ o + zlen d <= o' -> slice img' o' n = slice img o' n.
Proof.
  intros [->|(k & g & ? & ? & ? & ? & ? & ->)] Ho Hl Ho' Hn Hdis; [done|].
  assert (zlen (slice d 0 (4 * k) ++ g) = 4 * k + 4) by (rewrite zlen_app, zlen_slice by lia; lia).
  apply slice_patch_other; lia.
Qed.
(** A torn single-word write leaves the old image or some word in place of it. *)
Lemma torn_word gb img o d img' :
  torn gb img o d img' -> bytes_ok img -> zlen d = 4 -> 0 <= o -> o + 4 <= zlen img ->
  exists g, zlen g = 4 /\ bytes_ok g /\ img' = patch img o g /\ (gb (slice img o 4) d g \/ g = slice img o 4).
Proof.
  intros [->|(k & g & ? & ? & ? & ? & Hg & ->)] Hok Hd Ho Hl.
  - exists (slice img o 4). split_and!; [apply zlen_slice; lia | auto with tower | symmetry; apply patch_slice_id; lia | by right].
  - assert (k = 0) as -> by lia. exists g. split_and!; [done | done | by rewrite slice_0 | left].
    assert (slice d 0 4 = d) as He by (rewrite <- Hd; apply slice_all).
    by rewrite Z.mul_0_r, Z.add_0_r, He in Hg.
Qed.

Lemma aligned_add a b : aligned a -> aligned b -> aligned (a + b).
Proof. apply Z.divide_add_r. Qed.
Lemma aligned_mul a b : aligned b -> aligned (a * b).
Proof. apply Z.divide_mul_r. Qed.
Lemma aligned_sub a b : aligned a -> aligned b -> aligned (a - b).
Proof. apply Z.divide_sub_r. Qed.
Lemma aligned_mod x : aligned x <-> x mod 4 = 0.
Proof. unfold aligned, WORD. split; [by apply Z.mod_divide | intros; by apply Z.mod_divide]. Qed.

(** ** Reading code *)

Section Reads.
Context {S E : Type} `{!Eeprom S E} `{!EepromLaws S E}.
#[local] Abbreviation M T := (Prelude.M T (KvError E)).

(** [m] changes nothing, fails only with a backend error, and its result satisfies [P]. *)
Definition reads {A} (m : M S A) (P : A -> Prop) (img : list Z) : Prop :=
  wp m (fun r img' => img' = img /\
          match r with Ok a => P a | Err (Backend _) => True | Err _ => False end) img.

Lemma reads_ret {A} (a : A) (P : A -> Prop) img : P a -> reads (ret a) P img.
Proof. intros. by apply wp_ret. Qed.
Lemma reads_conseq {A} (m : M S A) (P P' : A -> Prop) img :
  reads m P img -> (forall a, P a -> P' a) -> reads m P' img.
Proof.
  intros H HP. eapply wp_conseq; [exact H|]. intros [a|[]] img' _ [-> ?]; auto.
Qed.
Lemma reads_rd o n img :
  0 <= o -> 0 <= n -> o + n <= zlen img -> reads (rd o n) (fun b => b = slice img o n) img.
Proof. intros. by apply wp_rd. Qed.
Lemma wp_bind_reads {A B} (m : M S A) P (k : A -> M S B) Q img :
  reads m P img -> (forall a, P a -> wp (k a) Q img) -> (forall e, Q (Err (Backend e)) img) ->
  wp (bind m k) Q img.
Proof.
  intros Hm Hk He. apply wp_bind. eapply wp_conseq; [exact Hm|].
  intros [a|[]] img' _ [-> ?]; first [done | by apply Hk | by apply He].
Qed.
Lemma reads_bind {A B} (m : M S A) P (k : A -> M S B) P' img :
  reads m P img -> (forall a, P a -> reads (k a) P' img) -> reads (bind m k) P' img.
Proof. intros Hm Hk. eapply wp_bind_reads; [exact Hm | exact Hk | done]. Qed.
Lemma wpr_bind_reads {T A B} (m : M S A) P (k : A -> M (S * T) B) Q (t : T) img :
  reads m P img -> (forall a, P a -> wpr (k a) Q t img) -> (forall e, Q (Err (Backend e)) t img) ->
  wpr (bind (lift m) k) Q t img.
Proof.
  intros Hm Hk He. apply wpr_bind, wpr_lift. eapply wp_conseq; [exact Hm|].
  intros [a|[]] img' _ [-> ?]; first [done | by apply Hk | by apply He].
Qed.
(** What a run of reading code amounts to. *)
Lemma reads_run {A} (m : M S A) P s :
  reads m P (image s) -> image (fst (m s)) = image s /\
  match snd (m s) with Ok a => P a | Err (Backend _) => True | Err _ => False end.
Proof. intros H. exact (H (image_ok s) s eq_refl). Qed.
End Reads.
