(* ===== verification/KvLog.v ===== *)
(** The record log of one half, as pure data: which record an offset holds, the log it starts, the
    map it stands for; and the laws that relate all of these to in-place changes of the half. *)
From stdpp Require Import gmap.
From S2P Require Import Prelude Bytes Crc Kv KvWp.

(** The record at offset [o] of a half: where the scan continues, or [None] where it ends. *)
Definition rec_at (area : list Z) (o : Z) : option (Z * list Z) :=
  if zlen area <? o + KV_HEADER then None
  else
    let hdr := slice area o KV_HEADER in
    let tag := le_val (slice hdr 0 2) in
    if tag =? 0 then None
    else
      let len := le_val (slice hdr 2 2) in
      let crc := le_val (slice hdr 4 4) in
      if (MAX_VALUE <? len) || (zlen area <? o + record_size len) then None
      else
        let val := slice area (o + KV_HEADER) len in
        if negb (entry_crc (slice hdr 0 4) val =? crc) then None else Some (tag, val).

(** The bytes of a record. *)
Definition rec_hdr (key : Z) (value : list Z) : list Z := le_bytes 2 key ++ le_bytes 2 (zlen value).
Definition rec_body (key : Z) (value : list Z) : list Z :=
  le_bytes 4 (entry_crc (rec_hdr key value) value) ++ value
    ++ zeros (record_size (zlen value) - KV_HEADER - zlen value).
Definition rec_bytes (key : Z) (value : list Z) : list Z := rec_hdr key value ++ rec_body key value.

Abbreviation entry := (Z * (Z * list Z))%type.

Fixpoint log_from (fuel : nat) (area : list Z) (o : Z) : list entry * Z :=
  match fuel with
  | O => ([], o)
  | S fuel =>
      match rec_at area o with
      | None => ([], o)
      | Some (t, v) =>
          let '(l, e) := log_from fuel area (o + record_size (zlen v)) in ((o, (t, v)) :: l, e)
      end
  end.
Definition log (area : list Z) : list entry * Z := log_from (length area + 1) area 0.

(** The map a log stands for: the latest record of a key wins, an empty value is a tombstone. *)
Definition apply_entry (m : gmap Z (list Z)) (x : entry) : gmap Z (list Z) :=
  if bool_decide (x.2.2 = []) then base.delete x.2.1 m else <[x.2.1 := x.2.2]> m.
Definition view (l : list entry) : gmap Z (list Z) := fold_left apply_entry l ∅.

(** The latest record of a key: offset and value. *)
Definition find_last (k : Z) (l : list entry) : option (Z * list Z) :=
  fold_left (fun acc (x : entry) => if x.2.1 =? k then Some (x.1, x.2.2) else acc) l None.

(** ** Sizes *)

Lemma next_multiple_spec n : 0 <= n -> n <= next_multiple_of n 4 < n + 4 /\ aligned (next_multiple_of n 4).
Proof.
  intros Hn. unfold next_multiple_of. pose proof (div_ceil_spec n 4 ltac:(lia)).
  split; [lia|]. apply aligned_mul. by exists 1.
Qed.
Lemma record_size_spec n :
  0 <= n -> 8 + n <= record_size n < 12 + n /\ aligned (record_size n).
Proof.
  intros Hn. destruct (next_multiple_spec n Hn) as [? ?]. unfold record_size, WORD in *.
  change KV_HEADER with 8. split; [lia|]. apply aligned_add; [by exists 2 | done].
Qed.
Lemma record_size_0 : record_size 0 = 8.
Proof. reflexivity. Qed.

(** ** The record at an offset *)

Lemma crc_not32 c : u32_ok c -> u32_ok (not32 c).
Proof. intros. apply u32_lxor; [done | apply u32_max_ok]. Qed.
Lemma entry_crc_ok h v : bytes_ok h -> bytes_ok v -> u32_ok (entry_crc h v).
Proof. intros. apply crc_not32, crc32_update_ok; [|done].
  apply crc32_update_ok; [apply u32_max_ok | done]. Qed.

Lemma rec_at_Some area o t v :
  rec_at area o = Some (t, v) -> bytes_ok area -> 0 <= o ->
  0 < t <= 65535 /\ zlen v <= MAX_VALUE /\ o + record_size (zlen v) <= zlen area /\ bytes_ok v /\
  t = le_val (slice area o 2) /\ zlen v = le_val (slice area (o + 2) 2) /\
  v = slice area (o + KV_HEADER) (zlen v).
Proof.
  intros H Hok Ho. unfold rec_at in H. split_if_in H; [done|].
  rewrite !slice_slice in H by mlia.
  split_if_in H; [done|]. split_if_in H; [done|]. split_if_in H; [done|]. bool_hyps.
  injection H as Ht Hv. rewrite Z.add_0_r in *.
  set (len := le_val (slice area (o + 2) 2)) in *.
  assert (Hl2 : zlen (slice area o 2) = 2) by (apply zlen_slice; mlia).
  assert (Hl2' : zlen (slice area (o + 2) 2) = 2) by (apply zlen_slice; mlia).
  pose proof (le_val_u16_ok (slice area o 2) ltac:(auto with tower) Hl2).
  pose proof (le_val_u16_ok (slice area (o + 2) 2) ltac:(auto with tower) Hl2') as Hlen. fold len in Hlen.
  unfold u16_ok, u16_max in *.
  destruct (record_size_spec len ltac:(lia)) as [? _].
  assert (zlen v = len) as Hvl. { rewrite <- Hv. apply zlen_slice; mlia. }
  rewrite Hvl. split_and!; try lia; [|done]. rewrite <- Hv. auto with tower.
Qed.

(** A record is determined by its own bytes. *)
Lemma rec_at_local area o area' o' t v :
  rec_at area o = Some (t, v) -> bytes_ok area -> 0 <= o -> 0 <= o' ->
  o' + record_size (zlen v) <= zlen area' ->
  slice area' o' (record_size (zlen v)) = slice area o (record_size (zlen v)) ->
  rec_at area' o' = Some (t, v).
Proof.
  intros H Hok Ho Ho' Hfit Hsl.
  pose proof (rec_at_Some _ _ _ _ H Hok Ho) as (Ht & Hv & Hfit0 & _ & _ & Hlen & Hval).
  destruct (record_size_spec (zlen v) (zlen_nonneg v)) as [Hsz _].
  pose proof (zlen_nonneg v).
  assert (Hsub : forall i n, 0 <= i -> 0 <= n -> i + n <= record_size (zlen v) ->
            slice area' (o' + i) n = slice area (o + i) n).
  { intros i n Hi Hn Hin. rewrite <- (slice_slice area' o' (record_size (zlen v))) by lia.
    rewrite Hsl. by apply slice_slice. }
  unfold rec_at in *. split_if_in H; [done|].
  destruct (zlen area' <? o' + KV_HEADER) eqn:Hf; bool_hyps; [mlia|].
  assert (Hh : slice area' o' KV_HEADER = slice area o KV_HEADER).
  { rewrite <- (Z.add_0_r o'), <- (Z.add_0_r o). apply Hsub; mlia. }
  rewrite Hh. split_if_in H; [done|].
  assert (Hl : le_val (slice (slice area o KV_HEADER) 2 2) = zlen v).
  { rewrite slice_slice by mlia. done. }
  rewrite Hl in *. split_if_in H; [done|].
  destruct ((MAX_VALUE <? zlen v) || (zlen area' <? o' + record_size (zlen v))) eqn:Hb.
  { apply orb_true_iff in Hb. destruct Hb; bool_hyps; lia. }
  by rewrite Hsub by mlia.
Qed.

Lemma rec_at_zero area o : 0 <= o -> slice area o 4 = zeros 4 -> rec_at area o = None.
Proof.
  intros Ho Hz. unfold rec_at. split_if; [done|].
  replace (slice (slice area o KV_HEADER) 0 2) with (slice (slice area o 4) 0 2).
  - by rewrite Hz.
  - rewrite !slice_slice by mlia. done.
Qed.

(** ** The bytes of a record read back as that record *)

Lemma zlen_rec_hdr k v : zlen (rec_hdr k v) = 4.
Proof. unfold rec_hdr. by rewrite zlen_app, !zlen_le_bytes. Qed.
Lemma zlen_rec_body k v : zlen (rec_body k v) = record_size (zlen v) - 4.
Proof.
  unfold rec_body. rewrite !zlen_app, zlen_le_bytes.
  destruct (record_size_spec (zlen v) (zlen_nonneg v)). rewrite zlen_zeros by mlia. mlia.
Qed.
Lemma zlen_rec_bytes k v : zlen (rec_bytes k v) = record_size (zlen v).
Proof. unfold rec_bytes. rewrite zlen_app, zlen_rec_hdr, zlen_rec_body. lia. Qed.
Lemma rec_hdr_ok k v : bytes_ok (rec_hdr k v).
Proof. apply bytes_ok_app. auto with tower. Qed.
Lemma rec_body_ok k v : bytes_ok v -> bytes_ok (rec_body k v).
Proof. intros. unfold rec_body. rewrite !bytes_ok_app. auto with tower. Qed.
#[export] Hint Rewrite zlen_rec_hdr zlen_rec_body zlen_rec_bytes : zlen.
#[export] Hint Resolve rec_hdr_ok rec_body_ok : tower.

Lemma rec_at_bytes area o k v :
  0 <= o -> 0 < k <= 65535 -> zlen v <= MAX_VALUE -> bytes_ok v ->
  o + record_size (zlen v) <= zlen area -> slice area o (record_size (zlen v)) = rec_bytes k v ->
  rec_at area o = Some (k, v).
Proof.
  intros Ho Hk Hv Hok Hfit Hsl.
  destruct (record_size_spec (zlen v) (zlen_nonneg v)) as [Hsz _]. pose proof (zlen_nonneg v).
  assert (Hsub : forall i n, 0 <= i -> 0 <= n -> i + n <= record_size (zlen v) ->
            slice area (o + i) n = slice (rec_bytes k v) i n).
  { intros i n Hi Hn Hin. by rewrite <- Hsl, slice_slice. }
  assert (Htag : slice area o 2 = le_bytes 2 k).
  { rewrite <- (Z.add_0_r o), Hsub by lia. unfold rec_bytes, rec_hdr. rewrite <- !app_assoc. apply (slice_app_l (le_bytes 2 k)). }
  assert (Hlen : slice area (o + 2) 2 = le_bytes 2 (zlen v)).
  { rewrite Hsub by lia. unfold rec_bytes, rec_hdr. rewrite <- !app_assoc.
    apply (slice_app_mid (le_bytes 2 k) (le_bytes 2 (zlen v))). }
  assert (Hh4 : slice area o 4 = rec_hdr k v).
  { rewrite <- (Z.add_0_r o), Hsub by lia. unfold rec_bytes. rewrite <- (zlen_rec_hdr k v). apply slice_app_l. }
  assert (Hcrc : slice area (o + 4) 4 = le_bytes 4 (entry_crc (rec_hdr k v) v)).
  { rewrite Hsub by lia. unfold rec_bytes, rec_body.
    apply (slice_app_mid (rec_hdr k v) (le_bytes 4 (entry_crc (rec_hdr k v) v))). }
  assert (Hval : slice area (o + 8) (zlen v) = v).
  { rewrite Hsub by lia. unfold rec_bytes, rec_body. rewrite app_assoc.
    apply (slice_app_mid (rec_hdr k v ++ le_bytes 4 (entry_crc (rec_hdr k v) v)) v). }
  unfold rec_at. change KV_HEADER with 8. destruct (zlen area <? o + 8) eqn:Hf; bool_hyps; [lia|].
  rewrite !slice_slice, Z.add_0_r, Htag, Hlen, Hcrc, Hh4 by lia.
  rewrite !le_val_u16 by mlia. rewrite le_val_u32 by auto using entry_crc_ok with tower. 
  destruct (k =? 0) eqn:Hk0; bool_hyps; [lia|].
  destruct (_ || _) eqn:Hb; [apply orb_true_iff in Hb; destruct Hb; bool_hyps; lia|].
  by rewrite Hval, Z.eqb_refl.
Qed.

(** ** Logs *)

Inductive Log (area : list Z) : Z -> list entry -> Z -> Prop :=
| Log_nil o : Log area o [] o
| Log_cons o t v l e :
    rec_at area o = Some (t, v) -> Log area (o + record_size (zlen v)) l e ->
    Log area o ((o, (t, v)) :: l) e.

(** The whole log of a half: from its start to where the scan stops. *)
Definition FullLog (area : list Z) (l : list entry) (e : Z) : Prop :=
  Log area 0 l e /\ rec_at area e = None.

Lemma Log_bounds area o l e :
  Log area o l e -> bytes_ok area -> 0 <= o -> o <= zlen area ->
  o <= e <= zlen area /\ (aligned o -> aligned e).
Proof.
  intros H Hok. induction H as [o|o t v l e Hr H IH]; intros Ho Hle; [split; [lia | done]|].
  pose proof (rec_at_Some _ _ _ _ Hr Hok Ho) as (_ & _ & Hfit & _).
  destruct (record_size_spec (zlen v) (zlen_nonneg v)) as [? Ha]. pose proof (zlen_nonneg v).
  destruct IH as [? Hal]; [lia.. |]. split; [lia|]. intros. apply Hal. by apply aligned_add.
Qed.

Lemma Log_app area o l m e e' : Log area o l m -> Log area m e e' -> Log area o (l ++ e) e'.
Proof. induction 1; simpl; [done|]. intros. econstructor; eauto. Qed.

Lemma Log_snoc area o l m t v :
  Log area o l m -> rec_at area m = Some (t, v) ->
  Log area o (l ++ [(m, (t, v))]) (m + record_size (zlen v)).
Proof. intros H Hr. eapply Log_app; [exact H|]. econstructor; [done | constructor]. Qed.

Lemma Log_local area area' o l e :
  Log area o l e -> bytes_ok area -> 0 <= o -> zlen area' = zlen area -> o <= zlen area ->
  slice area' o (e - o) = slice area o (e - o) -> Log area' o l e.
Proof.
  intros H Hok. induction H as [o|o t v l e Hr H IH]; intros Ho Hz Hle Hsl; [constructor|].
  pose proof (rec_at_Some _ _ _ _ Hr Hok Ho) as (_ & _ & Hfit & _).
  destruct (record_size_spec (zlen v) (zlen_nonneg v)) as [Hs _]. pose proof (zlen_nonneg v).
  destruct (Log_bounds _ _ _ _ H Hok) as [Hb _]; [lia.. |].
  assert (Hsub : forall i n, 0 <= i -> 0 <= n -> i + n <= e - o -> slice area' (o + i) n = slice area (o + i) n).
  { intros i n Hi Hn Hin. rewrite <- (slice_slice area' o (e - o)), <- (slice_slice area o (e - o)) by lia.
    by rewrite Hsl. }
  econstructor.
  - eapply rec_at_local; [exact Hr | done | lia | lia | lia|].
    rewrite <- (Z.add_0_r o). apply Hsub; lia.
  - apply IH; [lia | done | lia|].
    replace (e - (o + record_size (zlen v))) with (e - o - record_size (zlen v)) by lia. apply Hsub; lia.
Qed.

Lemma Log_unique area o l e l' e' :
  Log area o l e -> rec_at area e = None -> Log area o l' e' -> rec_at area e' = None -> l = l' /\ e = e'.
Proof.
  intros H He. revert l' e'. induction H as [o|o t v l e Hr H IH]; intros l' e' H' He'.
  - inversion H'; subst; [done | congruence].
  - inversion H' as [|o' t' v' l2 e2 Hr' H2]; subst; [congruence|].
    rewrite Hr in Hr'. injection Hr' as <- <-. destruct (IH He _ _ H2 He') as [-> ->]. done.
Qed.

Lemma log_from_spec fuel area o :
  bytes_ok area -> 0 <= o -> zlen area < o + Z.of_nat fuel ->
  Log area o (log_from fuel area o).1 (log_from fuel area o).2 /\
  rec_at area (log_from fuel area o).2 = None.
Proof.
  intros Hok. revert o. induction fuel as [|fuel IH]; intros o Ho Hf; cbn [log_from].
  - simpl. split; [constructor|]. unfold rec_at.
    destruct (zlen area <? o + KV_HEADER) eqn:E; [done|]. bool_hyps. mlia.
  - destruct (rec_at area o) as [[t v]|] eqn:Hr; [|split; [constructor | done]].
    destruct (record_size_spec (zlen v) (zlen_nonneg v)) as [Hs _]. pose proof (zlen_nonneg v).
    destruct (IH (o + record_size (zlen v))) as [H1 H2]; [lia.. |].
    destruct (log_from fuel area _) as [l e]; simpl in *. split; [by econstructor | done].
Qed.

Lemma log_full area : bytes_ok area -> FullLog area (log area).1 (log area).2.
Proof. intros. apply log_from_spec; [done | lia | unfold zlen; lia]. Qed.

Lemma FullLog_log area l e : bytes_ok area -> FullLog area l e -> log area = (l, e).
Proof.
  intros Hok [H He]. destruct (log_full area Hok) as [H' He'].
  destruct (Log_unique _ _ _ _ _ _ H He H' He') as [-> ->]. by destruct (log area).
Qed.

Lemma FullLog_bounds area l e :
  bytes_ok area -> FullLog area l e -> 0 <= e <= zlen area /\ aligned e.
Proof.
  intros Hok [H _]. destruct (Log_bounds _ _ _ _ H Hok) as [? Ha]; [lia | apply zlen_nonneg|].
  split; [done|]. apply Ha. by exists 0.
Qed.

(** Changing bytes at or past the log end keeps the records before it. *)
Lemma Log_patch area l e o d :
  Log area 0 l e -> bytes_ok area -> e <= o -> 0 <= e -> o + zlen d <= zlen area ->
  Log (patch area o d) 0 l e.
Proof.
  intros H Hok Ho He Hd. pose proof (zlen_nonneg d). eapply Log_local; [exact H | done | lia | | |].
  - apply zlen_patch; lia.
  - pose proof (zlen_nonneg area). lia.
  - apply slice_patch_other; lia.
Qed.

(** ** The map *)

Lemma view_snoc l x : view (l ++ [x]) = apply_entry (view l) x.
Proof. unfold view. by rewrite fold_left_app. Qed.

Lemma find_last_snoc k l x :
  find_last k (l ++ [x]) = if x.2.1 =? k then Some (x.1, x.2.2) else find_last k l.
Proof. unfold find_last. by rewrite fold_left_app. Qed.

Lemma view_lookup k l :
  view l !! k = match find_last k l with
                | Some (_, v) => if bool_decide (v = []) then None else Some v
                | None => None
                end.
Proof.
  induction l as [|[o [t v]] l IH] using rev_ind; [apply lookup_empty|].
  rewrite view_snoc, find_last_snoc. unfold apply_entry. simpl.
  destruct (t =? k) eqn:Ht; bool_hyps.
  - subst t. case_bool_decide; [apply lookup_delete_eq | apply lookup_insert_eq].
  - rewrite <- IH. case_bool_decide; [by apply lookup_delete_ne | by apply lookup_insert_ne].
Qed.

Lemma find_last_In k l o v : find_last k l = Some (o, v) -> In (o, (k, v)) l.
Proof.
  induction l as [|[o' [t' v']] l IH] using rev_ind; [done|].
  rewrite find_last_snoc. simpl. intros H. apply List.in_or_app.
  destruct (t' =? k) eqn:Ht; bool_hyps; [|left; by apply IH].
  injection H as -> ->. subst t'. right. by left.
Qed.

Lemma Log_In area o l e x : Log area o l e -> In x l -> rec_at area x.1 = Some x.2.
Proof. induction 1 as [|o t v l e Hr H IH]; [done|]. intros [<-|Hin]; [done | by apply IH]. Qed.
Lemma Log_In_range area o l e x :
  Log area o l e -> bytes_ok area -> 0 <= o -> o <= zlen area -> In x l ->
  o <= x.1 /\ x.1 + record_size (zlen x.2.2) <= e.
Proof.
  intros H Hok. induction H as [|o t v l e Hr H IH]; [done|]. intros Ho Hle Hin.
  pose proof (rec_at_Some _ _ _ _ Hr Hok Ho) as (_ & _ & Hfit & _).
  destruct (record_size_spec (zlen v) (zlen_nonneg v)) as [Hs _]. pose proof (zlen_nonneg v).
  destruct (Log_bounds _ _ _ _ H Hok) as [Hb _]; [lia.. |].
  destruct Hin as [<-|Hin]; simpl; [lia|]. destruct IH as [? ?]; [lia.. | done|]. lia.
Qed.
