(* ===== verification/KvScan.v ===== *)
(** The layout of the region, and the reading half of the codec (superblocks, the record scan, the
    latest-record walk) against the pure log of KvLog.v. *)
From stdpp Require Import gmap.
From S2P Require Import Prelude Bytes Crc Kv KvWp KvLog.

(** ** Layout *)

(** A region the codec can address: two superblocks fit, offsets stay far below [u32::MAX]. *)
Definition cap_ok (capacity : Z) (img : list Z) : Prop :=
  24 <= region capacity /\ capacity <= 2 ^ 30 /\ capacity <= zlen img.

Definition half_area (capacity : Z) (img : list Z) (h : Z) : list Z :=
  slice img (half_base capacity h) (half_len capacity).
Definition super_slot (capacity : Z) (img : list Z) (h : Z) : list Z :=
  slice img (super_off capacity h) SUPER_LEN.

Definition gen_of (b : list Z) : option Z :=
  if bool_decide (slice b 0 4 = SUPER_MAGIC) && (super_crc (slice b 0 8) =? le_val (slice b 8 4))
  then Some (le_val (slice b 4 4)) else None.

Definition pick (g0 g1 : option Z) : option (Z * Z) :=
  match g0, g1 with
  | Some a, Some b => Some (if b <=? a then (0, a) else (1, b))
  | Some a, None => Some (0, a)
  | None, Some b => Some (1, b)
  | None, None => None
  end.
Definition active_of (capacity : Z) (img : list Z) : option (Z * Z) :=
  pick (gen_of (super_slot capacity img 0)) (gen_of (super_slot capacity img 1)).

(** The map the store holds: the specification every operation is proved against. *)
Definition kview (capacity : Z) (img : list Z) : gmap Z (list Z) :=
  match active_of capacity img with
  | Some (h, _) => view (log (half_area capacity img h)).1
  | None => ∅
  end.

Lemma half_len_spec capacity :
  24 <= region capacity -> 0 <= half_len capacity /\ aligned (half_len capacity) /\
  2 * half_len capacity + 24 <= region capacity <= capacity /\ aligned (region capacity).
Proof.
  intros Hr. unfold half_len, region in *. change WORD with 4 in *. change (2 * SUPER_LEN) with 24.
  set (r := capacity / 4 * 4) in *. pose proof (Z.mul_div_le capacity 4 ltac:(lia)).
  assert (sat_sub r 24 = r - 24) as -> by mlia.
  pose proof (Z.div_pos (r - 24) 2 ltac:(lia) ltac:(lia)).
  pose proof (Z.mul_div_le (r - 24) 2 ltac:(lia)).
  set (x := (r - 24) / 2) in *. pose proof (Z.mul_div_le x 4 ltac:(lia)).
  pose proof (Z.div_pos x 4 ltac:(lia) ltac:(lia)).
  split_and!; try lia; apply aligned_mul; by exists 1.
Qed.

Definition half_ok (h : Z) : Prop := h = 0 \/ h = 1.

Section Layout.
Context (capacity : Z) (img : list Z) (Hcap : cap_ok capacity img).

Lemma half_base_range h : half_ok h ->
  0 <= half_base capacity h /\ half_base capacity h + half_len capacity <= zlen img /\
  aligned (half_base capacity h) /\ half_base capacity h + half_len capacity <= super_off capacity 0.
Proof.
  destruct Hcap as (Hr & _ & Hz). destruct (half_len_spec capacity Hr) as (? & ? & ? & ?).
  unfold half_base, super_off. change (2 * SUPER_LEN) with 24. change SUPER_LEN with 12.
  intros Hh. assert (0 <= h <= 1) by (unfold half_ok in Hh; lia).
  split_and!; try nia. by apply aligned_mul.
Qed.
Lemma super_off_range h : half_ok h ->
  0 <= super_off capacity h /\ super_off capacity h + SUPER_LEN <= zlen img /\ aligned (super_off capacity h).
Proof.
  destruct Hcap as (Hr & _ & Hz). destruct (half_len_spec capacity Hr) as (? & ? & ? & ?).
  unfold super_off. change (2 * SUPER_LEN) with 24. change SUPER_LEN with 12. intros Hh.
  split_and!; [unfold half_ok in Hh; lia | unfold half_ok in Hh; lia |].
  apply aligned_add; [apply aligned_sub; [done | by exists 6] | apply aligned_mul; by exists 3].
Qed.
Lemma zlen_half_area h : half_ok h -> zlen (half_area capacity img h) = half_len capacity.
Proof.
  intros Hh. destruct (half_base_range h Hh) as (? & ? & _).
  apply zlen_slice; [done | | done]. destruct Hcap as (Hr & _). apply (half_len_spec capacity Hr).
Qed.
Lemma zlen_super_slot h : half_ok h -> zlen (super_slot capacity img h) = 12.
Proof. intros Hh. destruct (super_off_range h Hh) as (? & ? & _). apply zlen_slice; mlia. Qed.
Lemma half_len_pos : 0 <= half_len capacity.
Proof. destruct Hcap as (Hr & _). apply (half_len_spec capacity Hr). Qed.
End Layout.

Lemma active_half capacity img h g : active_of capacity img = Some (h, g) -> half_ok h.
Proof.
  unfold active_of, pick, half_ok. destruct (gen_of _) as [a|], (gen_of _) as [b|]; try destruct (b <=? a);
    intros [= <- <-]; auto.
Qed.

Section Scan.
Context {S E : Type} `{!Eeprom S E} `{!EepromLaws S E}.

Lemma reads_read_gen capacity img h :
  cap_ok capacity img -> half_ok h ->
  reads (read_gen capacity h) (fun r => r = gen_of (super_slot capacity img h)) img.
Proof.
  intros Hc Hh. destruct (super_off_range capacity img Hc h Hh) as (? & ? & _). unfold read_gen.
  eapply reads_bind; [apply reads_rd; mlia|]. intros b ->. fold (super_slot capacity img h).
  unfold gen_of. destruct (bool_decide _); simpl; [|by apply reads_ret].
  destruct (_ =? _); simpl; by apply reads_ret.
Qed.

Lemma reads_active capacity img :
  cap_ok capacity img -> reads (active capacity) (fun r => r = active_of capacity img) img.
Proof.
  intros Hc. unfold active.
  eapply reads_bind; [apply reads_read_gen; [done | by left]|]. intros g0 ->.
  eapply reads_bind; [apply reads_read_gen; [done | by right]|]. intros g1 ->.
  by apply reads_ret.
Qed.

Lemma reads_read_record base area o img :
  0 <= base -> 0 <= area -> base + area <= zlen img -> bytes_ok img -> 0 <= o ->
  reads (read_record base area o)
    (fun r => r = option_map (fun '(t, v) => (t, zlen v)) (rec_at (slice img base area) o)) img.
Proof.
  intros Hb Ha Hfit Hok Ho. unfold read_record, rec_at. rewrite zlen_slice by done.
  destruct (area <? o + KV_HEADER) eqn:Hf; bool_hyps; [by apply reads_ret|].
  eapply reads_bind; [apply reads_rd; mlia|]. intros hdr ->.
  rewrite (slice_slice img base area o KV_HEADER) by mlia.
  set (hdr := slice img (base + o) KV_HEADER).
  destruct (le_val (slice hdr 0 2) =? 0) eqn:Ht; [by apply reads_ret|].
  set (len := le_val (slice hdr 2 2)).
  destruct ((MAX_VALUE <? len) || (area <? o + record_size len)) eqn:Hbad; [by apply reads_ret|].
  bool_hyps. assert (0 <= len).
  { assert (zlen hdr = 8) by (apply zlen_slice; mlia).
    apply (le_val_u16_ok (slice hdr 2 2)); [unfold hdr; auto with tower | apply zlen_slice; lia]. }
  destruct (record_size_spec len ltac:(lia)) as [? _].
  eapply reads_bind; [apply reads_rd; mlia|]. intros val ->.
  rewrite (slice_slice img base area (o + KV_HEADER) len) by mlia. rewrite Z.add_assoc.
  assert (zlen (slice img (base + o + KV_HEADER) len) = len) as Hlen by (apply zlen_slice; mlia).
  destruct (_ =? _); simpl; [|by apply reads_ret]. apply reads_ret. by rewrite Hlen.
Qed.

Lemma scan_loop_reads fuel base area target img o found l e :
  0 <= base -> 0 <= area -> base + area <= zlen img -> bytes_ok img -> 0 <= o <= area ->
  area < o + Z.of_nat fuel ->
  Log (slice img base area) o l e -> rec_at (slice img base area) e = None ->
  reads (scan_loop fuel base area target o found)
    (fun r => r = (e, fold_left (fun acc (x : entry) => if x.2.1 =? target then Some (x.1, zlen x.2.2) else acc) l found)) img.
Proof.
  intros Hb Ha Hfit Hok. revert o found l. induction fuel as [|fuel IH]; intros o found l Ho Hf Hl He; [lia|].
  cbn [scan_loop]. eapply reads_bind; [by apply reads_read_record; try lia|]. intros r ->.
  inversion Hl as [o'|o' t v l' e' Hr Hl']; subst.
  - rewrite He. by apply reads_ret.
  - rewrite Hr. simpl.
    pose proof (rec_at_Some _ _ _ _ Hr ltac:(auto with tower) ltac:(lia)) as (_ & _ & Hin & _).
    rewrite zlen_slice in Hin by done.
    destruct (record_size_spec (zlen v) (zlen_nonneg v)) as [? _]. pose proof (zlen_nonneg v).
    apply IH; [lia | lia | done | done].
Qed.

Definition found_of (target : Z) (l : list entry) : option (Z * Z) :=
  option_map (fun '(o, v) => (o, zlen v)) (find_last target l).

Lemma found_of_fold target l acc :
  option_map (fun '(o, v) => (o, zlen v))
    (fold_left (fun acc (x : entry) => if x.2.1 =? target then Some (x.1, x.2.2) else acc) l acc) =
  fold_left (fun acc (x : entry) => if x.2.1 =? target then Some (x.1, zlen x.2.2) else acc) l
    (option_map (fun '(o, v) => (o, zlen v)) acc).
Proof.
  revert acc. induction l as [|x l IH]; intros acc; simpl; [done|]. rewrite IH. by destruct (_ =? _).
Qed.

Lemma reads_scan_half base area target img l e :
  0 <= base -> 0 <= area -> base + area <= zlen img -> bytes_ok img ->
  FullLog (slice img base area) l e ->
  reads (scan_half base area target) (fun r => r = (e, found_of target l)) img.
Proof.
  intros Hb Ha Hfit Hok [Hl He]. unfold scan_half.
  eapply reads_conseq; [eapply scan_loop_reads; try done; lia|]. simpl. intros r ->. f_equal.
  symmetry. apply (found_of_fold target l None).
Qed.

Lemma reads_scan_active capacity img h target :
  cap_ok capacity img -> bytes_ok img -> half_ok h ->
  reads (scan_half (half_base capacity h) (half_len capacity) target)
    (fun r => r = ((log (half_area capacity img h)).2, found_of target (log (half_area capacity img h)).1)) img.
Proof.
  intros Hc Hok Hh. destruct (half_base_range capacity img Hc h Hh) as (? & ? & _).
  apply reads_scan_half; try done; [apply (half_len_pos capacity img Hc)|].
  apply log_full. unfold half_area. auto with tower.
Qed.
End Scan.
