(* ===== verification/KvAppend.v ===== *)
(** Appending one record: [append_end] writes it past the log end in an order that keeps every cut
    on one side of the append. *)
From stdpp Require Import gmap.
From S2P Require Import Prelude Bytes Crc Kv KvWp KvLog KvScan.

(** ** Code that works inside one half *)

Section Half.
Context {S E : Type} `{!Eeprom S E} `{!EepromLaws S E}.
Context (img0 : list Z) (base n : Z) (Hbase : 0 <= base) (Hn : 0 <= n) (Hfit : base + n <= zlen img0)
        (Hal : aligned base).

(** The image with the half's content replaced. *)
Definition with_half (area : list Z) : list Z := patch img0 base area.

Lemma zlen_with_half area : zlen area = n -> zlen (with_half area) = zlen img0.
Proof. intros. apply zlen_patch; lia. Qed.
Lemma slice_with_half area : zlen area = n -> slice (with_half area) base n = area.
Proof. intros <-. apply slice_patch_same; lia. Qed.
Lemma slice_in_half area o k : zlen area = n -> 0 <= o -> 0 <= k -> o + k <= n ->
  slice (with_half area) (base + o) k = slice area o k.
Proof.
  intros Ha Ho Hk Hin. rewrite <- (slice_slice (with_half area) base n) by lia.
  by rewrite slice_with_half.
Qed.
Lemma patch_in_half area o d : zlen area = n -> 0 <= o -> o + zlen d <= n ->
  patch (with_half area) (base + o) d = with_half (patch area o d).
Proof.
  intros Ha Ho Hin. pose proof (zlen_nonneg d).
  pose proof (zlen_with_half area Ha) as Hz. unfold with_half in *.
  assert (zlen (patch area o d) = n) by (rewrite zlen_patch; lia). list_pw.
Qed.
Lemma half_outside area o k : zlen area = n -> 0 <= o -> 0 <= k -> o + k <= base \/ base + n <= o ->
  slice (with_half area) o k = slice img0 o k.
Proof. intros Ha Ho Hk Hdis. apply slice_patch_other; lia. Qed.

Lemma torn_in_half area o d img' :
  zlen area = n -> 0 <= o -> o + zlen d <= n ->
  torn garble (with_half area) (base + o) d img' ->
  exists area', torn garble area o d area' /\ img' = with_half area' /\ zlen area' = n.
Proof.
  intros Ha Ho Hin [->|(k & g & Hk & Hkd & Hg & Hgb & Hgar & ->)].
  - exists area. split_and!; [by left | done | done].
  - assert (Hzd : zlen (slice d 0 (4 * k) ++ g) = 4 * k + 4) by (rewrite zlen_app, zlen_slice by lia; lia).
    exists (patch area o (slice d 0 (4 * k) ++ g)). split_and!.
    + right. exists k, g. split_and!; try done.
      by rewrite <- Z.add_assoc, slice_in_half in Hgar by lia.
    + apply patch_in_half; lia.
    + rewrite zlen_patch; lia.
Qed.

Lemma wp_half_wr o d Q area :
  zlen area = n -> 0 <= o -> o + zlen d <= n -> aligned o -> aligned (zlen d) -> bytes_ok d ->
  Q (Ok tt) (with_half (patch area o d)) ->
  (forall e area', torn garble area o d area' -> zlen area' = n -> Q (Err (Backend e)) (with_half area')) ->
  wp (wr (base + o) d) Q (with_half area).
Proof.
  intros Ha Ho Hin Hao Had Hd HOk HErr. pose proof (zlen_with_half area Ha).
  apply wp_wr; try done; try lia; [by apply aligned_add | by rewrite patch_in_half|].
  intros e img' Ht. destruct (torn_in_half area o d img' Ha Ho Hin Ht) as (area' & ? & -> & ?). eauto.
Qed.

(** [clear_word]: the word is zero afterwards; a cut leaves the old word or garbage there. *)
Lemma wp_clear_word o Q area :
  zlen area = n -> bytes_ok area -> 0 <= o -> o + 4 <= n -> aligned o ->
  Q (Ok tt) (with_half (patch area o (zeros 4))) ->
  (forall e g, zlen g = 4 -> bytes_ok g -> garble (slice area o 4) (zeros 4) g \/ g = slice area o 4 ->
     Q (Err (Backend e)) (with_half (patch area o g))) ->
  wp (clear_word (base + o)) Q (with_half area).
Proof.
  intros Ha Hok Ho Hin Hao HOk HErr. pose proof (zlen_with_half area Ha). change WORD with 4 in *.
  assert (Hself : with_half (patch area o (slice area o 4)) = with_half area)
    by (rewrite patch_slice_id by lia; done).
  assert (Hs4 : zlen (slice area o 4) = 4) by (apply zlen_slice; lia).
  unfold clear_word. change WORD with 4. eapply wp_bind_reads; [apply reads_rd; lia| |].
  - intros w ->. rewrite slice_in_half by lia. case_bool_decide as Hz; simpl.
    + apply wp_ret. rewrite <- Hself, Hz. done.
    + apply wp_half_wr; try done; [by exists 1 | apply bytes_ok_zeros|].
      intros e area' Ht _. apply torn_word in Ht as (g & Hg & Hgb & -> & Hgar); [|done|done|lia|lia]. auto.
  - intros e. rewrite <- Hself. apply HErr; auto with tower.
Qed.
End Half.

(** ** The record buffer *)

Lemma append_buf key value :
  zlen value <= MAX_VALUE ->
  let buf := zeros (KV_HEADER + MAX_VALUE) in
  let buf := patch buf 0 (le_bytes 2 key) in
  let buf := patch buf 2 (le_bytes 2 (wrap16 (zlen value))) in
  let buf := patch buf 4 (le_bytes 4 (entry_crc (slice buf 0 4) value)) in
  patch buf 8 value = rec_bytes key value ++ zeros (KV_HEADER + MAX_VALUE - record_size (zlen value)).
Proof.
  intros Hv. pose proof (zlen_nonneg value).
  rewrite wrap16_small by mlia. cbv zeta. change (KV_HEADER + MAX_VALUE) with 264. change MAX_VALUE with 256 in *.
  set (k2 := le_bytes 2 key). set (l2 := le_bytes 2 (zlen value)).
  assert (zlen k2 = 2) by apply zlen_le_bytes. assert (zlen l2 = 2) by apply zlen_le_bytes.
  assert (E1 : patch (zeros 264) 0 k2 = k2 ++ zeros 262) by (apply (patch_append [] 264 k2); lia).
  assert (E2 : patch (patch (zeros 264) 0 k2) 2 l2 = rec_hdr key value ++ zeros 260).
  { rewrite E1. change 2 with (zlen k2). rewrite patch_append by lia. unfold rec_hdr. by rewrite <- app_assoc. }
  rewrite E2. pose proof (zlen_rec_hdr key value) as Hh.
  assert (E3 : slice (rec_hdr key value ++ zeros 260) 0 4 = rec_hdr key value) by (rewrite <- Hh; apply slice_app_l).
  rewrite E3. set (c := le_bytes 4 (entry_crc (rec_hdr key value) value)).
  assert (Hc : zlen c = 4) by apply zlen_le_bytes.
  assert (E4 : patch (rec_hdr key value ++ zeros 260) 4 c = (rec_hdr key value ++ c) ++ zeros 256).
  { rewrite <- Hh. rewrite patch_append by lia. rewrite Hc, <- app_assoc. done. }
  rewrite E4. replace 8 with (zlen (rec_hdr key value ++ c)) by (rewrite zlen_app; lia).
  rewrite patch_append by lia. unfold rec_bytes, rec_body. fold c. rewrite <- !app_assoc. do 3 f_equal.
  destruct (record_size_spec (zlen value) ltac:(lia)) as [? Hal].
  assert (record_size (zlen value) <= 264).
  { apply aligned_mod in Hal. assert (record_size (zlen value) < 268) by lia.
    pose proof (Z.div_mod (record_size (zlen value)) 4 ltac:(lia)). lia. }
  change KV_HEADER with 8 in *. rewrite <- zeros_split by lia. f_equal. lia.
Qed.

(** ** Appending *)

Section Append.
Context {S E : Type} `{!Eeprom S E} `{!EepromLaws S E}.

(** A cut left a header word at the log end that is neither what was there nor what was being
    written, and that word reads as the header of a record. *)
Definition phantom (area : list Z) (e : Z) : Prop :=
  rec_at area e <> None /\
  exists old new, garble old new (slice area e 4) /\ slice area e 4 <> old /\ slice area e 4 <> new.

(** The half after an append at its log end: done, not done, or a phantom header. *)
Definition appended (l : list entry) (e key : Z) (value : list Z) (area : list Z) : Prop :=
  FullLog area (l ++ [(e, (key, value))]) (e + record_size (zlen value)).
Definition unappended (l : list entry) (e : Z) (area : list Z) : Prop := FullLog area l e.
Definition cut_append (l : list entry) (e key : Z) (value : list Z) (area : list Z) : Prop :=
  unappended l e area \/ appended l e key value area \/ (Log area 0 l e /\ phantom area e).

Context (img0 : list Z) (base n : Z) (Hbase : 0 <= base) (Hn : 0 <= n) (Hfit : base + n <= zlen img0)
        (Hal : aligned base) (Hok0 : bytes_ok img0).
Context (key : Z) (value : list Z) (Hkey : 0 < key <= 65535) (Hval : bytes_ok value)
        (Hlen : zlen value <= MAX_VALUE).
Context (l : list entry) (e : Z) (He : 0 <= e) (Hea : aligned e) (Hroom : e + record_size (zlen value) <= n).

#[local] Abbreviation sz := (record_size (zlen value)).
(** The bytes of the log, which no append touches. *)
Context (low : list Z).
#[local] Abbreviation area_ok area := (zlen area = n /\ bytes_ok area /\ Log area 0 l e /\ slice area 0 e = low).

Lemma sz_range : 8 + zlen value <= sz /\ aligned sz /\ aligned (e + sz) /\ 0 <= zlen value.
Proof.
  destruct (record_size_spec (zlen value) (zlen_nonneg value)) as [? ?].
  split_and!; try lia; auto using aligned_add, zlen_nonneg. 
Qed.

Lemma area_ok_patch area o d :
  area_ok area -> e <= o -> o + zlen d <= n -> bytes_ok d -> area_ok (patch area o d).
Proof.
  intros (Hz & Hok & Hl & <-) Ho Hd Hdok. pose proof (zlen_nonneg d).
  split_and!; [rewrite zlen_patch; lia | auto with tower | apply Log_patch; try done; lia|].
  apply slice_patch_other; lia.
Qed.

Lemma area_ok_torn area o d area' :
  area_ok area -> torn garble area o d area' -> e <= o -> o + zlen d <= n -> bytes_ok d -> area_ok area'.
Proof.
  intros HA [->|(k & g & ? & ? & Hg & Hgb & _ & ->)] Ho Hd Hdok; [done|].
  apply area_ok_patch; [done | done | | apply bytes_ok_app; auto with tower].
  rewrite zlen_app, zlen_slice by lia. lia.
Qed.

Lemma stop_past area area2 :
  zlen area = n -> zlen area2 = n -> (n < e + sz + 8 \/ slice area (e + sz) 4 = zeros 4) ->
  (e + sz + 4 <= n -> slice area2 (e + sz) 4 = slice area (e + sz) 4) -> rec_at area2 (e + sz) = None.
Proof.
  intros Hz Hz2 Hnext Heq. destruct sz_range as (? & _ & _ & ?). destruct (Z.le_gt_cases (e + sz + 8) n) as [Hin|Hout].
  - destruct Hnext as [?|Hnz]; [lia|]. apply rec_at_zero; [lia|]. rewrite Heq; [done | lia].
  - unfold rec_at. destruct (zlen area2 <? e + sz + KV_HEADER) eqn:Hf; [done|]. bool_hyps. mlia.
Qed.

Lemma rec_written area :
  zlen area = n -> slice area e 4 = rec_hdr key value -> slice area (e + 4) (sz - 4) = rec_body key value ->
  rec_at area e = Some (key, value).
Proof.
  intros Hz Hh Hb. destruct sz_range as (? & _ & _ & ?). apply rec_at_bytes; try done; [lia|].
  replace sz with (4 + (sz - 4)) by lia. rewrite slice_split by lia. unfold rec_bytes. by f_equal.
Qed.

(** Writing the record over a half whose log ends at [e] and whose next tag slot is zero. *)
Lemma wp_append_rec area :
  area_ok area -> slice area e 4 = zeros 4 ->
  (n < e + sz + 8 \/ slice area (e + sz) 4 = zeros 4) ->
  wp (append (base + e) key value)
    (fun r img' => exists area', img' = with_half img0 base area' /\ area_ok area' /\
       match r with
       | Ok _ => appended l e key value area'
       | Err (Backend _) => cut_append l e key value area'
       | Err _ => False
       end) (with_half img0 base area).
Proof.
  intros HA Hz Hnext. pose proof HA as (Hza & Hoka & Hla & _). destruct sz_range as (Hsz & Hsa & _ & ?).
  unfold append. pose proof (append_buf key value Hlen) as Hbuf. cbv zeta in Hbuf |- *. rewrite Hbuf.
  change WORD with 4.
  assert (Hb : slice (rec_bytes key value ++ zeros (KV_HEADER + MAX_VALUE - sz)) 4 (sz - 4) = rec_body key value).
  { unfold rec_bytes. rewrite <- app_assoc, <- (zlen_rec_body key value), <- (zlen_rec_hdr key value).
    apply slice_app_mid. }
  assert (Hh : slice (rec_bytes key value ++ zeros (KV_HEADER + MAX_VALUE - sz)) 0 4 = rec_hdr key value).
  { unfold rec_bytes. rewrite <- app_assoc, <- (zlen_rec_hdr key value). apply slice_app_l. }
  rewrite Hb, Hh. clear Hbuf Hb Hh.
  pose proof (zlen_rec_body key value) as Hbl. pose proof (zlen_rec_hdr key value) as Hhl.
  apply wp_bind. rewrite <- Z.add_assoc.
  apply (wp_half_wr img0 base n); try done; try lia;
    [by apply aligned_add; [|exists 1] | rewrite Hbl; apply aligned_sub; [done | by exists 1] | auto with tower | |].
  2: { intros err area' Ht Hz'. exists area'.
       assert (HA' : area_ok area').
       { apply (area_ok_torn area (e + 4) (rec_body key value)); try done; try lia. auto with tower. }
       split; [done|]. split; [done|]. left. split; [apply HA'|].
       apply rec_at_zero; [done|]. rewrite <- Hz. eapply torn_outside; [exact Ht | lia..]. }
  set (area1 := patch area (e + 4) (rec_body key value)).
  assert (HA1 : area_ok area1) by (apply area_ok_patch; auto with tower; lia).
  pose proof HA1 as (Hz1 & Hok1 & Hl1 & _).
  assert (Hz41 : slice area1 e 4 = zeros 4) by (rewrite <- Hz; apply slice_patch_other; lia).
  assert (Hdone : forall g, zlen g = 4 -> bytes_ok g -> area_ok (patch area1 e g) /\
    slice (patch area1 e g) e 4 = g /\ (g = rec_hdr key value -> appended l e key value (patch area1 e g))).
  { intros g Hg Hgb. assert (HA2 : area_ok (patch area1 e g)) by (apply area_ok_patch; try done; lia).
    split; [done|]. assert (Hsg : slice (patch area1 e g) e 4 = g) by (rewrite <- Hg; apply slice_patch_same; lia).
    split; [done|]. intros ->. pose proof HA2 as (Hz2 & Hok2 & Hl2 & _). split.
    - apply Log_snoc; [done|]. apply rec_written; [done | done|].
      rewrite slice_patch_other by lia. unfold area1. rewrite <- Hbl. apply slice_patch_same; lia.
    - apply (stop_past area); try done. intros Hin.
      unfold area1. rewrite !slice_patch_other by (rewrite ?zlen_patch; lia). done. }
  apply (wp_half_wr img0 base n); try done; try lia; [rewrite Hhl; by exists 1 | auto with tower | |].
  - destruct (Hdone _ Hhl (rec_hdr_ok key value)) as (HA2 & _ & Happ).
    eexists. split; [done|]. split; [done|]. by apply Happ.
  - intros err area' Ht Hz'. exists area'. split; [done|].
    assert (HA' : area_ok area').
    { apply (area_ok_torn area1 e (rec_hdr key value)); try done; try lia. auto with tower. }
    split; [done|].
    apply torn_word in Ht as (g & Hg & Hgb & -> & Hgar); [|done|done|lia|lia].
    destruct (Hdone g Hg Hgb) as (_ & Hsg & Happ).
    destruct (decide (g = rec_hdr key value)) as [Heq|Hne]; [right; left; by apply Happ|].
    destruct (rec_at (patch area1 e g) e) as [x|] eqn:Hr; [|left; split; [apply HA' | done]].
    assert (g <> zeros 4) by (intros ->; rewrite rec_at_zero in Hr; done).
    right. right. split; [apply HA'|]. split; [by rewrite Hr|].
    destruct Hgar as [Hgar| ->]; [|by rewrite Hz41 in *].
    exists (slice area1 e 4), (rec_hdr key value). rewrite Hsg, Hz41 in *. done.
Qed.

Lemma cleared_unappended area o g :
  area_ok area -> zlen g = 4 -> bytes_ok g -> e <= o -> o + 4 <= n ->
  slice (patch area o g) e 4 = zeros 4 -> FullLog (patch area o g) l e.
Proof.
  intros HA Hg Hgb Ho Hin Hz. split; [|by apply rec_at_zero].
  apply (area_ok_patch area o g); try done. lia.
Qed.

(** [append_end] at the end [e] of the log [l]: on success the record is the new last one; a
    failure leaves the log as it was, or appended, or ended by a phantom header. *)
Lemma wp_append_end area :
  zlen area = n -> bytes_ok area -> FullLog area l e -> slice area 0 e = low ->
  wp (append_end base n e key value)
    (fun r img' => exists area', img' = with_half img0 base area' /\ area_ok area' /\
       match r with
       | Ok _ => appended l e key value area'
       | Err (Backend _) => cut_append l e key value area'
       | Err _ => False
       end) (with_half img0 base area).
Proof.
  intros Hza Hoka [Hla Hstop] Hlow. destruct sz_range as (Hsz & Hsa & Hesa & ?).
  assert (HA : area_ok area) by done.
  assert (H0 : bytes_ok (zeros 4)) by auto with tower.
  assert (Hz4 : zlen (zeros 4) = 4) by done.
  unfold append_end. apply wp_bind, (wp_clear_word img0 base n); try done; try lia.
  2: { intros err g Hg Hgb Hgar. exists (patch area e g). split; [done|].
       assert (HA' : area_ok (patch area e g)) by (apply area_ok_patch; try done; lia).
       split; [done|]. assert (Hsg : slice (patch area e g) e 4 = g) by (rewrite <- Hg; apply slice_patch_same; lia).
       destruct (rec_at (patch area e g) e) as [x|] eqn:Hr; [|left; by split; [apply HA'|]].
       right. right. split; [apply HA'|]. split; [by rewrite Hr|].
       destruct Hgar as [Hgar|Hgar]; [|exfalso; rewrite Hgar, patch_slice_id in Hr by lia; congruence].
       exists (slice area e 4), (zeros 4). rewrite Hsg. split_and!; [done | |].
       - intros Hs. rewrite Hs, patch_slice_id in Hr by lia. congruence.
       - intros ->. rewrite rec_at_zero in Hr; done. }
  set (area1 := patch area e (zeros 4)).
  assert (HA1 : area_ok area1) by (apply area_ok_patch; try done; lia).
  assert (Hz1 : slice area1 e 4 = zeros 4) by (apply (slice_patch_same area e (zeros 4)); lia).
  pose proof HA1 as (Hzl1 & Hok1 & _). change KV_HEADER with 8. rewrite <- !Z.add_assoc.
  destruct (e + (sz + 8) <=? n) eqn:Hnx; bool_hyps; apply wp_bind.
  - apply (wp_clear_word img0 base n); try done; try lia.
    + apply wp_append_rec; [apply area_ok_patch; try done; lia | rewrite slice_patch_other; try done; lia | right].
      apply (slice_patch_same area1 (e + sz) (zeros 4)); lia.
    + intros err g Hg Hgb Hgar. exists (patch area1 (e + sz) g). split; [done|].
      split; [apply area_ok_patch; try done; lia|]. left.
      apply cleared_unappended; try done; try lia. rewrite slice_patch_other; try done; lia.
  - apply wp_ret, wp_append_rec; [done | done | left; lia].
Qed.
End Append.
