(* ===== verification/KvFlip.v ===== *)
(** Compaction: the latest-record table, read-first blanking, the packing copy and the flip's
    superblock commit. *)
From stdpp Require Import gmap.
From S2P Require Import Prelude Bytes Crc Kv KvWp KvLog KvScan KvAppend.

(** ** The latest record per key *)

Definition latest_upd (latest : list (Z * Z)) (x : entry) : list (Z * Z) :=
  match latest_set latest x.2.1 x.1 with Some latest' => latest' | None => latest ++ [(x.2.1, x.1)] end.
Definition latest_of (l : list entry) : list (Z * Z) := fold_left latest_upd l [].

Lemma latest_set_None latest t o : latest_set latest t o = None <-> ~ In t (map fst latest).
Proof.
  induction latest as [|[t' o'] latest IH]; simpl; [split; [auto | done]|].
  destruct (t' =? t) eqn:Ht; bool_hyps; [split; [done | intros H; destruct H; by left]|].
  destruct (latest_set latest t o); simpl; split; try done.
  - intros H. exfalso. apply H. right. destruct (in_dec Z.eq_dec t (map fst latest)); [done|].
    by apply IH in n.
  - intros _ [?|?]; [done|]. by apply IH.
Qed.

Lemma latest_set_Some latest t o latest' :
  latest_set latest t o = Some latest' -> NoDup (map fst latest) ->
  map fst latest' = map fst latest /\
  forall t' o', In (t', o') latest' <-> (t' = t /\ o' = o) \/ (t' <> t /\ In (t', o') latest).
Proof.
  revert latest'. induction latest as [|[t0 o0] latest IH]; intros latest'; simpl; [done|].
  intros H Hnd. apply list.NoDup_cons in Hnd as [Hni Hnd]. rewrite list_elem_of_In in Hni.
  destruct (t0 =? t) eqn:Ht; bool_hyps.
  - injection H as <-. subst t0. split; [done|]. intros t' o'. simpl. split.
    + intros [[= <- <-]|Hin]; [by left|]. right. split; [|by right].
      intros ->. apply Hni. by apply (List.in_map fst _ (t, o')).
    + intros [[-> ->]|[Hne [[= <- <-]|Hin]]]; [by left | done | by right].
  - destruct (latest_set latest t o) as [l'|] eqn:Hs; [|done]. injection H as <-.
    destruct (IH l' eq_refl Hnd) as [Hm Hin]. simpl. rewrite Hm. split; [done|].
    intros t' o'. rewrite Hin. split.
    + intros [[= <- <-]|[?|[? ?]]]; auto.
    + intros [?|[? [?|?]]]; auto.
Qed.

Lemma latest_of_snoc l x : latest_of (l ++ [x]) = latest_upd (latest_of l) x.
Proof. unfold latest_of. by rewrite fold_left_app. Qed.

Lemma latest_of_spec l :
  NoDup (map fst (latest_of l)) /\
  forall t o, In (t, o) (latest_of l) <-> exists v, find_last t l = Some (o, v).
Proof.
  induction l as [|x l [Hnd IH]] using rev_ind.
  - split; [constructor|]. intros t o. split; [done|]. by intros [v Hv].
  - rewrite latest_of_snoc. unfold latest_upd. destruct (latest_set _ _ _) as [l'|] eqn:Hs.
    + destruct (latest_set_Some _ _ _ _ Hs Hnd) as [Hm Hin]. split; [by rewrite Hm|].
      intros t o. rewrite Hin, find_last_snoc. destruct (x.2.1 =? t) eqn:Ht; bool_hyps.
      * subst t. split; [intros [[_ ->]|[? _]]; [by eexists | done] | intros [v [= <- <-]]; by left].
      * rewrite IH. split; [intros [[? _]|[_ ?]]; [congruence | done] | right; split; [congruence | done]].
    + rewrite latest_set_None in Hs. split.
      * rewrite List.map_app. apply list.NoDup_app. split_and!; [done | | simpl; apply list.NoDup_singleton].
        intros t Ht Ht'. apply list_elem_of_singleton in Ht'. subst t. apply Hs. by apply list_elem_of_In.
      * intros t o. rewrite List.in_app_iff, IH, find_last_snoc. simpl.
        destruct (x.2.1 =? t) eqn:Ht; bool_hyps.
        -- subst t. split.
           ++ intros [[v Hv]|[[= ->]|[]]]; [|by eexists]. exfalso. apply Hs.
              apply (List.in_map fst _ (x.2.1, o)), IH. by exists v.
           ++ intros [v [= <- <-]]. right. by left.
        -- split; [intros [?|[[= ? ?]|[]]]; [done | congruence] | by left].
Qed.

Lemma planned_spec latest t o : planned latest t o = true <-> In (t, o) latest.
Proof.
  unfold planned. rewrite List.existsb_exists. split.
  - intros ([t' o'] & Hin & H). bool_hyps. by subst.
  - intros Hin. exists (t, o). split; [done|]. by rewrite !Z.eqb_refl.
Qed.

Lemma zlen_latest_upd latest x : zlen latest <= zlen (latest_upd latest x).
Proof.
  unfold latest_upd. destruct (latest_set _ _ _) as [l'|] eqn:Hs; [|rewrite zlen_app; zl].
  assert (Hl : length l' = length latest); [|unfold zlen; lia].
  revert l' Hs. induction latest as [|[t o] latest IH]; intros l' Hs; simpl in Hs; [done|].
  destruct (_ =? _); [by injection Hs as <-|]. destruct (latest_set latest _ _) as [l2|] eqn:H2; [|done].
  injection Hs as <-. simpl. f_equal. by apply IH.
Qed.
Lemma zlen_latest_fold latest l : zlen latest <= zlen (fold_left latest_upd l latest).
Proof.
  revert latest. induction l as [|x l IH]; intros latest; simpl; [lia|].
  pose proof (zlen_latest_upd latest x). specialize (IH (latest_upd latest x)). lia.
Qed.

(** ** The records a flip keeps *)

Definition keeps (latest : list (Z * Z)) (x : entry) : bool :=
  negb (zlen x.2.2 =? 0) && planned latest x.2.1 x.1.
Definition keep (latest : list (Z * Z)) (l : list entry) : list entry := List.filter (keeps latest) l.

(** The same records at consecutive offsets from [w]. *)
Fixpoint pack (w : Z) (l : list entry) : list entry :=
  match l with
  | [] => []
  | (_, (t, v)) :: l => (w, (t, v)) :: pack (w + record_size (zlen v)) l
  end.
Definition packed_size (l : list entry) : Z :=
  fold_right (fun (x : entry) acc => record_size (zlen x.2.2) + acc) 0 l.

Lemma packed_size_app l k : packed_size (l ++ k) = packed_size l + packed_size k.
Proof. unfold packed_size. induction l as [|x l IH]; simpl; lia. Qed.
Lemma packed_size_nonneg l : 0 <= packed_size l.
Proof.
  induction l as [|[o [t v]] l IH]; simpl; [lia|].
  destruct (record_size_spec (zlen v) (zlen_nonneg v)). pose proof (zlen_nonneg v). lia.
Qed.
Lemma pack_app w l k : pack w (l ++ k) = pack w l ++ pack (w + packed_size l) k.
Proof.
  revert w. induction l as [|[o [t v]] l IH]; intros w; simpl; [by rewrite Z.add_0_r|].
  by rewrite IH, Z.add_assoc.
Qed.
Lemma view_pack w l : view (pack w l) = view l.
Proof.
  unfold view. generalize (∅ : gmap Z (list Z)). revert w.
  induction l as [|[o [t v]] l IH]; intros w m; simpl; [done|]. apply IH.
Qed.
Lemma keep_app latest l k : keep latest (l ++ k) = keep latest l ++ keep latest k.
Proof. apply List.filter_app. Qed.

Lemma Log_packed area o l e : Log area o l e -> e = o + packed_size l.
Proof. induction 1 as [|o t v l e Hr H IH]; simpl; lia. Qed.
Lemma packed_size_keep latest l : packed_size (keep latest l) <= packed_size l.
Proof.
  induction l as [|[o [t v]] l IH]; simpl; [lia|]. destruct (keeps _ _); simpl; [lia|].
  destruct (record_size_spec (zlen v) (zlen_nonneg v)). pose proof (zlen_nonneg v). lia.
Qed.

Lemma find_last_None k l : find_last k l = None <-> forall x, In x l -> x.2.1 <> k.
Proof.
  induction l as [|x l IH] using rev_ind; [split; [intros _ ? [] | done]|].
  rewrite find_last_snoc. destruct (x.2.1 =? k) eqn:Hx; bool_hyps.
  - split; [done|]. intros H. exfalso. apply (H x); [|done]. apply List.in_or_app. right. by left.
  - rewrite IH. split.
    + intros H y [Hy|[<-|[]]]%List.in_app_or; auto.
    + intros H y Hy. apply H, List.in_or_app. by left.
Qed.

(** The live set is all of the map: dropping superseded records and tombstones changes nothing. *)
Lemma view_keep area o l e : Log area o l e -> view (keep (latest_of l) l) = view l.
Proof.
  intros Hl. apply map_eq. intros k. rewrite !view_lookup.
  destruct (latest_of_spec l) as [_ Hlat].
  assert (Hk : forall x, In x (keep (latest_of l) l) -> x.2.1 = k ->
    exists v, find_last k l = Some (x.1, v) /\ x.2.2 = v /\ v <> []).
  { intros x [Hin Hkp]%List.filter_In Hxk. apply andb_true_iff in Hkp as [Hne Hp].
    apply planned_spec, Hlat in Hp as [v Hv]. rewrite Hxk in Hv. exists v. split; [done|].
    pose proof (Log_In _ _ _ _ _ Hl (find_last_In _ _ _ _ Hv)) as Hr1.
    pose proof (Log_In _ _ _ _ _ Hl Hin) as Hr2. simpl in Hr1. rewrite Hr2 in Hr1. injection Hr1 as Hr1.
    assert (x.2.2 = v) as Hxv by (by rewrite Hr1). split; [done|]. intros ->. by rewrite Hxv in Hne. }
  destruct (find_last k (keep (latest_of l) l)) as [[o' v']|] eqn:Hf.
  - destruct (Hk _ (find_last_In _ _ _ _ Hf) eq_refl) as (v & Hv & Hvv & _). simpl in *. subst v'. by rewrite Hv.
  - destruct (find_last k l) as [[o' v']|] eqn:Hv; [|done].
    destruct v' as [|b v']; [done|]. exfalso. rewrite find_last_None in Hf.
    apply (Hf (o', (k, b :: v'))); [|done]. apply List.filter_In. split; [by apply find_last_In|].
    unfold keeps. cbn [fst snd]. pose proof (zlen_nonneg v'). rewrite zlen_cons.
    rewrite (proj2 (Z.eqb_neq _ _)) by lia. simpl. apply planned_spec, Hlat. by eexists.
Qed.

(** ** The walk *)

Section Walk.
Context {S E : Type} `{!Eeprom S E} `{!EepromLaws S E}.

Definition walked (l : list entry) (e : Z) (img : list Z) (r : result (KvError E) (Z * list (Z * Z)))
  (img' : list Z) : Prop :=
  img' = img /\
  match r with
  | Ok x => x = (e, latest_of l) /\ zlen (latest_of l) <= MAX_KEYS
  | Err TooManyKeys => MAX_KEYS < zlen (latest_of l)
  | Err (Backend _) => True
  | Err _ => False
  end.

Lemma wp_walk_loop fuel base area img o latest l e L :
  0 <= base -> 0 <= area -> base + area <= zlen img -> bytes_ok img -> 0 <= o <= area ->
  area < o + Z.of_nat fuel -> zlen latest <= MAX_KEYS ->
  Log (slice img base area) o l e -> rec_at (slice img base area) e = None ->
  latest_of L = fold_left latest_upd l latest ->
  wp (walk_loop fuel base area o latest) (walked L e img) img.
Proof.
  intros Hb Ha Hfit Hok. revert o latest l. induction fuel as [|fuel IH]; intros o latest l Ho Hf Hn Hl He HL; [lia|].
  cbn [walk_loop]. eapply wp_bind_reads; [by apply reads_read_record; try lia | | by intros].
  intros r ->. inversion Hl as [o'|o' t v l' e' Hr Hl']; subst.
  - rewrite He. simpl in *. apply wp_ret. split; [done|]. rewrite HL. done.
  - rewrite Hr. cbn [option_map].
    pose proof (rec_at_Some _ _ _ _ Hr ltac:(auto with tower) ltac:(lia)) as (_ & _ & Hin & _).
    rewrite zlen_slice in Hin by done.
    destruct (record_size_spec (zlen v) (zlen_nonneg v)) as [? _]. pose proof (zlen_nonneg v).
    simpl fold_left in HL. unfold latest_upd in HL at 2. simpl in HL.
    destruct (latest_set latest t o) as [latest'|] eqn:Hs.
    + apply IH with (l := l'); try done; [lia | lia|].
      pose proof (zlen_latest_upd latest (o, (t, v))) as Hup. unfold latest_upd in Hup. simpl in Hup.
      rewrite Hs in Hup. enough (zlen latest' = zlen latest) by lia.
      clear -Hs. revert latest' Hs. induction latest as [|[t0 o0] latest IH]; intros l'; simpl; [done|].
      destruct (_ =? _); [by intros [= <-]|]. destruct (latest_set latest t o) as [l2|]; [|done].
      intros [= <-]. rewrite !zlen_cons. f_equal. by apply IH.
    + destruct (MAX_KEYS <=? zlen latest) eqn:Hm; bool_hyps.
      * apply wp_fail. split; [done|]. rewrite HL.
        pose proof (zlen_latest_fold (latest ++ [(t, o)]) l') as Hz. rewrite zlen_app, zlen_cons, zlen_nil in Hz. lia.
      * apply IH with (l := l'); try done; [lia | lia|]. rewrite zlen_app, zlen_cons, zlen_nil. lia.
Qed.

Lemma wp_walk_latest base area img l e :
  0 <= base -> 0 <= area -> base + area <= zlen img -> bytes_ok img ->
  FullLog (slice img base area) l e ->
  wp (walk_latest base area) (walked l e img) img.
Proof.
  intros Hb Ha Hfit Hok [Hl He]. unfold walk_latest.
  eapply wp_walk_loop; try done; lia.
Qed.
End Walk.

(** ** Blanking *)

Definition zero_upto (area : list Z) (p : Z) : Prop := slice area 0 p = zeros p.

Lemma zero_upto_0 area : zero_upto area 0.
Proof. reflexivity. Qed.
Lemma zero_upto_step area p k :
  zero_upto area p -> 0 <= p -> 0 <= k -> slice area p k = zeros k -> zero_upto area (p + k).
Proof.
  intros Hz Hp Hk Hs. unfold zero_upto in *. rewrite slice_split, Hz, Z.add_0_l, Hs by lia.
  symmetry. by apply zeros_split.
Qed.
Lemma zero_upto_patch area p o d :
  zero_upto area p -> 0 <= p <= o -> o + zlen d <= zlen area -> zero_upto (patch area o d) p.
Proof. intros Hz Hp Hd. unfold zero_upto. by rewrite slice_patch_other by lia. Qed.
Lemma zero_upto_le area p q : zero_upto area p -> 0 <= q <= p -> zero_upto area q.
Proof.
  intros Hz Hq. unfold zero_upto in *. change 0 with (0 + 0) at 1. rewrite <- (slice_slice area 0 p 0 q), Hz by lia.
  apply slice_zeros; lia.
Qed.
Lemma existsb_nonzero_false l : existsb (fun b => negb (b =? 0)) l = false -> l = zeros (zlen l).
Proof.
  unfold zeros. rewrite zlen_to_nat. induction l as [|b l IH]; simpl; [done|].
  intros H. bool_hyps. subst b. by rewrite <- IH.
Qed.

Section Blank.
Context {S E : Type} `{!Eeprom S E} `{!EepromLaws S E}.
Context (img0 : list Z) (base n : Z) (Hbase : 0 <= base) (Hn : 0 <= n) (Hfit : base + n <= zlen img0)
        (Hal : aligned base) (Hnal : aligned n) (Hok0 : bytes_ok img0).

(** Where blanking from [from] got to: everything before the reported progress is zero, nothing
    behind it changed; it stops short only when the budget is spent. *)
Definition blanked (area : list Z) (from budget : Z) (p budget' : Z) (area' : list Z) : Prop :=
  zlen area' = n /\ bytes_ok area' /\ zero_upto area' p /\ from <= p <= n /\ aligned p /\
  slice area' p (n - p) = slice area p (n - p) /\
  (p < n -> budget' = 0) /\ 0 <= budget' <= budget /\ 4 * (budget - budget') <= p - from.
Definition blank_cut (from : Z) (area' : list Z) : Prop :=
  zlen area' = n /\ bytes_ok area' /\ zero_upto area' from.

(** What [blank_chunk] leaves, from word [w] of the [k]-byte chunk at [o]. *)
Definition chunk_post (o k w budget : Z) (area0 : list Z) (r : result (KvError E) (Z * option Z))
    (img' : list Z) : Prop :=
  exists area', img' = with_half img0 base area' /\
  match r with
  | Ok (b, None) =>
      zlen area' = n /\ bytes_ok area' /\ zero_upto area' (o + k) /\
      slice area' (o + k) (n - (o + k)) = slice area0 (o + k) (n - (o + k)) /\
      0 <= b <= budget /\ 4 * (budget - b) <= k - w
  | Ok (b, Some p) => blanked area0 (o + w) budget p b area' /\ p < o + k
  | Err (Backend _) => blank_cut (o + w) area'
  | Err _ => False
  end.

Lemma chunk_post_weaken o k w budget budget' area0 r img' :
  0 <= o -> 0 <= w -> budget' <= budget <= budget' + 1 ->
  chunk_post o k (w + 4) budget' area0 r img' -> chunk_post o k w budget area0 r img'.
Proof.
  intros Ho Hw Hb (area' & -> & H). exists area'. split; [done|].
  destruct r as [[b [p|]]|[]]; try done.
  - destruct H as [(? & ? & ? & ? & ? & ? & ? & ?) ?]. split; [|lia]. unfold blanked. split_and!; try done; lia.
  - destruct H as (? & ? & ? & ? & ?). split_and!; try done; lia.
  - destruct H as (? & ? & ?). split_and!; try done. eapply zero_upto_le; [done | lia].
Qed.

Lemma slice_suffix (a b : list Z) p q k :
  slice a p (n - p) = slice b p (n - p) -> 0 <= p <= q -> 0 <= k -> q + k <= n -> slice a q k = slice b q k.
Proof.
  intros He Hq Hk Hin. replace q with (p + (q - p)) by lia.
  rewrite <- (slice_slice a p (n - p)), <- (slice_slice b p (n - p)) by lia. by rewrite He.
Qed.

Lemma aligned_step w k : aligned w -> aligned k -> w < k -> w + 4 <= k.
Proof.
  intros Hw Hk Hl. apply aligned_mod in Hw, Hk.
  pose proof (Z.div_mod k 4 ltac:(lia)). pose proof (Z.div_mod w 4 ltac:(lia)). lia.
Qed.

Lemma wp_blank_chunk fuel o chunk k w budget area area0 :
  zlen area = n -> bytes_ok area -> 0 <= o -> 0 <= w <= k -> o + k <= n -> aligned o -> aligned w -> aligned k ->
  zlen chunk = k -> k - w < 4 * Z.of_nat fuel -> 0 <= budget ->
  zero_upto area (o + w) -> slice area (o + w) (n - (o + w)) = slice area0 (o + w) (n - (o + w)) ->
  slice chunk w (k - w) = slice area (o + w) (k - w) -> zlen area0 = n ->
  wp (blank_chunk fuel base o chunk k w budget) (chunk_post o k w budget area0) (with_half img0 base area).
Proof.
  intros Hz Hok Ho Hw Hin Hao Haw Hak Hcl. revert w Hw Haw budget area Hz Hok.
  induction fuel as [|fuel IH]; intros w Hw Haw budget area Hz Hok Hf Hb Hzero Htail Hch Hz0; [lia|].
  cbn [blank_chunk]. destruct (w <? k) eqn:Hwk; bool_hyps.
  2: { assert (w = k) as -> by lia. apply wp_ret. exists area. split; [done|]. split_and!; try done; lia. }
  pose proof (aligned_step w k Haw Hak Hwk) as Hw4.
  replace (Z.min (k - w) 4) with 4 by lia. assert (Hz4 : zlen (zeros 4) = 4) by done.
  assert (Hao4 : aligned (w + 4)) by (apply aligned_add; [done | by exists 1]).
  assert (Hc4 : slice chunk w 4 = slice area (o + w) 4).
  { rewrite <- (Z.add_0_r w) at 1. rewrite <- (slice_slice chunk w (k - w) 0 4) by lia.
    rewrite Hch, slice_slice by lia. by rewrite Z.add_0_r. }
  (* the invariants at the next word, for any area that agrees with this one behind it *)
  assert (Hnext : forall area' budget', zlen area' = n -> bytes_ok area' -> 0 <= budget' -> budget' <= budget <= budget' + 1 ->
    zero_upto area' (o + (w + 4)) ->
    slice area' (o + (w + 4)) (n - (o + (w + 4))) = slice area (o + (w + 4)) (n - (o + (w + 4))) ->
    wp (blank_chunk fuel base o chunk k (w + 4) budget') (chunk_post o k w budget area0) (with_half img0 base area')).
  { intros area' budget' Hz' Hok' Hb' Hbb Hzero' Hsame.
    eapply wp_conseq; [apply (IH (w + 4)); try done; try lia
      | intros r img' _; apply chunk_post_weaken; lia].
    - rewrite Hsame. apply (slice_suffix area area0 (o + w)); try done; lia.
    - rewrite <- (slice_slice chunk w (k - w) 4), Hch, slice_slice by lia.
      replace (o + w + 4) with (o + (w + 4)) by lia. symmetry. apply (slice_suffix area' area (o + (w + 4))); try done; lia. }
  destruct (existsb _ _) eqn:Hex.
  - destruct (budget =? 0) eqn:Hb0; bool_hyps.
    + apply wp_ret. exists area. split; [done|]. split; [|lia]. unfold blanked.
      split_and!; try done; try lia. by apply aligned_add.
    + rewrite <- Z.add_assoc. apply wp_bind. apply (wp_half_wr img0 base n); try done; try lia.
      * by apply aligned_add.
      * by exists 1.
      * auto with tower.
      * apply Hnext; try lia; [rewrite zlen_patch; lia | auto with tower | | apply slice_patch_other; lia].
        rewrite Z.add_assoc. apply zero_upto_step; [apply zero_upto_patch; try done; lia | lia | lia|].
        apply (slice_patch_same area (o + w) (zeros 4)); lia.
      * intros e area' Ht Hz'. exists area'. split; [done|].
        apply torn_word in Ht as (g & Hg & Hgb & -> & _); [|done|done|lia|lia].
        split_and!; [done | auto with tower | apply zero_upto_patch; try done; lia].
  - apply existsb_nonzero_false in Hex. rewrite zlen_slice, Hc4 in Hex by lia.
    apply Hnext; try done; try lia. rewrite Z.add_assoc. apply zero_upto_step; try done; lia.
Qed.

Lemma aligned_min64 x : aligned x -> aligned (Z.min x 64).
Proof. intros. destruct (Z.min_spec x 64) as [[_ ->]|[_ ->]]; [done | by exists 16]. Qed.

Lemma wp_blank_loop fuel o budget area area0 from b0 :
  zlen area = n -> bytes_ok area -> from <= o <= n -> 0 <= from -> aligned o ->
  n - o < Z.of_nat fuel -> 0 <= budget <= b0 -> 4 * (b0 - budget) <= o - from ->
  zero_upto area o -> slice area o (n - o) = slice area0 o (n - o) -> zlen area0 = n ->
  wp (blank_loop fuel base n o budget)
    (fun r img' => exists area', img' = with_half img0 base area' /\
       match r with
       | Ok (p, b) => blanked area0 from b0 p b area'
       | Err (Backend _) => blank_cut from area'
       | Err _ => False
       end) (with_half img0 base area).
Proof.
  revert o budget area. induction fuel as [|fuel IH];
    intros o budget area Hz Hok Ho Hfrom Hao Hf Hb Hbud Hzero Htail Hz0; [lia|].
  cbn [blank_loop]. destruct (o <? n) eqn:Hon; bool_hyps.
  - set (k := Z.min (n - o) 64). assert (Hak : aligned k) by (apply aligned_min64, aligned_sub; done).
    pose proof (zlen_with_half img0 base n Hbase Hfit area Hz) as Hzw.
    assert (Hk : 0 < k <= n - o /\ k <= 64) by lia.
    eapply wp_bind_reads; [apply reads_rd; lia | |].
    2: { intros e. exists area. split; [done|]. split_and!; try done. eapply zero_upto_le; [done | lia]. }
    intros chunk ->. rewrite slice_in_half with (n := n) by (try done; lia).
    apply wp_bind. eapply wp_conseq.
    { apply (wp_blank_chunk 17 o (slice area o k) k 0 budget area area0); try done; try lia.
      - by exists 0.
      - apply zlen_slice; lia.
      - by rewrite Z.add_0_r.
      - by rewrite Z.add_0_r.
      - rewrite slice_slice by lia. by rewrite Z.sub_0_r. }
    intros [[b [p|]]|[]] img' _ (area' & -> & H); rewrite ?Z.add_0_r in H; try (exists area'; split; done).
    + destruct H as [(? & ? & ? & ? & ? & ? & ? & ?) ?]. apply wp_ret. exists area'. split; [done|].
      unfold blanked. split_and!; try done; lia.
    + destruct H as (? & ? & ? & ? & ?). apply IH; try done; try lia. by apply aligned_add.
    + exists area'. split; [done|]. destruct H as (? & ? & ?). split_and!; try done. eapply zero_upto_le; [done | lia].
  - assert (o = n) as -> by lia. apply wp_ret. exists area. split; [done|]. unfold blanked. split_and!; try done; lia.
Qed.

Lemma wp_blank_step_span from budget area :
  zlen area = n -> bytes_ok area -> 0 <= from <= n -> aligned from -> 0 <= budget -> zero_upto area from ->
  wp (blank_step_span base n from budget)
    (fun r img' => exists area', img' = with_half img0 base area' /\
       match r with
       | Ok (p, b) => blanked area from budget p b area'
       | Err (Backend _) => blank_cut from area'
       | Err _ => False
       end) (with_half img0 base area).
Proof. intros. unfold blank_step_span. apply wp_blank_loop; try done; lia. Qed.
End Blank.

Lemma zero_upto_all area : zero_upto area (zlen area) -> area = zeros (zlen area).
Proof. unfold zero_upto. by rewrite slice_all. Qed.

(** ** Copying between the halves *)

Section Copy.
Context {S E : Type} `{!Eeprom S E} `{!EepromLaws S E}.
Context (capacity : Z) (img : list Z) (Hcap : cap_ok capacity img) (Hok : bytes_ok img)
        (src : Z) (Hsrc : half_ok src).

#[local] Abbreviation n := (half_len capacity).
#[local] Abbreviation sbase := (half_base capacity src).
#[local] Abbreviation dbase := (half_base capacity (1 - src)).
#[local] Abbreviation sarea := (half_area capacity img src).
(** The image with the destination half replaced. *)
Definition with_dst (area : list Z) : list Z := with_half img dbase area.

Lemma dst_ok : half_ok (1 - src).
Proof. unfold half_ok in *. lia. Qed.
Lemma halves_apart : sbase + n <= dbase \/ dbase + n <= sbase.
Proof.
  unfold half_base. pose proof (half_len_pos capacity img Hcap). unfold half_ok in Hsrc. nia.
Qed.
Lemma zlen_sarea : zlen sarea = n.
Proof. by apply (zlen_half_area capacity img Hcap). Qed.

Lemma src_slice area o k : zlen area = n -> 0 <= o -> 0 <= k -> o + k <= n ->
  slice (with_dst area) (sbase + o) k = slice sarea o k.
Proof.
  intros Ha Ho Hk Hin. destruct (half_base_range capacity img Hcap src Hsrc) as (? & ? & _ & _).
  destruct (half_base_range capacity img Hcap (1 - src) dst_ok) as (? & ? & _ & _).
  unfold with_dst. rewrite (half_outside img dbase n) by (try done; pose proof halves_apart; lia).
  unfold half_area. by rewrite slice_slice by lia.
Qed.
Lemma zlen_with_dst area : zlen area = n -> zlen (with_dst area) = zlen img.
Proof.
  intros. destruct (half_base_range capacity img Hcap (1 - src) dst_ok) as (? & ? & _ & _).
  by apply (zlen_with_half img dbase n).
Qed.

Lemma reads_src area o k :
  zlen area = n -> 0 <= o -> 0 <= k -> o + k <= n ->
  reads (rd (sbase + o) k) (fun b => b = slice sarea o k) (with_dst area).
Proof.
  intros Ha Ho Hk Hin. destruct (half_base_range capacity img Hcap src Hsrc) as (? & ? & _ & _).
  eapply reads_conseq; [apply reads_rd; try lia; rewrite zlen_with_dst by done; lia|].
  intros b ->. by apply src_slice.
Qed.

(** The destination holds exactly the records of [k], packed, over zeros. *)
Definition Packed (k : list entry) (area : list Z) : Prop :=
  zlen area = n /\ bytes_ok area /\ Log area 0 (pack 0 k) (packed_size k) /\
  slice area (packed_size k) (n - packed_size k) = zeros (n - packed_size k).

Lemma Packed_nil : Packed [] (zeros n).
Proof.
  pose proof (half_len_pos capacity img Hcap).
  split_and!; [by apply zlen_zeros | auto with tower | constructor|]. simpl. apply slice_zeros; lia.
Qed.

Lemma Packed_full k area : Packed k area -> 0 <= packed_size k <= n -> FullLog area (pack 0 k) (packed_size k).
Proof.
  intros (Hz & Ha & Hl & Hzero) Hk. split; [done|].
  destruct (Z.le_gt_cases (packed_size k + 8) n) as [Hin|Hout].
  - apply rec_at_zero; [lia|].
    rewrite <- (Z.add_0_r (packed_size k)), <- (slice_slice area (packed_size k) (n - packed_size k)), Hzero by lia.
    apply slice_zeros; lia.
  - unfold rec_at. destruct (zlen area <? packed_size k + KV_HEADER) eqn:Hf; [done|]. bool_hyps. mlia.
Qed.

(** Adding a record by copying its bytes. *)
Lemma Packed_copy k area o t v :
  Packed k area -> rec_at sarea o = Some (t, v) -> 0 <= o ->
  packed_size k + record_size (zlen v) <= n ->
  Packed (k ++ [(o, (t, v))]) (patch area (packed_size k) (slice sarea o (record_size (zlen v)))).
Proof.
  intros (Hz & Ha & Hl & Hzero) Hr Ho Hfit.
  pose proof (rec_at_Some _ _ _ _ Hr ltac:(unfold half_area; auto with tower) Ho) as (_ & _ & Hin & _).
  rewrite zlen_sarea in Hin. pose proof (packed_size_nonneg k).
  destruct (record_size_spec (zlen v) (zlen_nonneg v)) as [? _]. pose proof (zlen_nonneg v).
  set (sz := record_size (zlen v)) in *. set (p := packed_size k) in *.
  assert (Hd : zlen (slice sarea o sz) = sz) by (apply zlen_slice; rewrite ?zlen_sarea; lia).
  assert (Hp : packed_size (k ++ [(o, (t, v))]) = p + sz).
  { rewrite packed_size_app. simpl. fold sz. lia. }
  assert (Hsb : bytes_ok sarea) by (unfold half_area; auto with tower).
  unfold Packed. rewrite Hp. split_and!.
  - rewrite zlen_patch; lia.
  - auto with tower.
  - rewrite pack_app. simpl. fold p. apply Log_snoc; [apply Log_patch; try done; lia|].
    eapply rec_at_local; [exact Hr | done | done | lia | rewrite zlen_patch; lia|]. fold sz.
    pose proof (slice_patch_same area p (slice sarea o sz)) as Hs. rewrite Hd in Hs. apply Hs; lia.
  - rewrite slice_patch_other by lia.
    rewrite <- (slice_slice area p (n - p) sz), Hzero by lia. apply slice_zeros; lia.
Qed.

Context (l : list entry) (e : Z) (Hfull : FullLog sarea l e).
#[local] Abbreviation lat := (latest_of l).

Lemma keep_fits l1 l2 o : l = l1 ++ l2 -> Log sarea 0 l1 o -> packed_size (keep lat l1) <= o.
Proof. intros _ Hl. apply Log_packed in Hl. pose proof (packed_size_keep lat l1). lia. Qed.

(** The header fields of a record of the log. *)
Lemma src_record o t v l2 :
  Log sarea o ((o, (t, v)) :: l2) e -> 0 <= o <= n ->
  rec_at sarea o = Some (t, v) /\ Log sarea (o + record_size (zlen v)) l2 e /\
  o + record_size (zlen v) <= n /\ o < e /\ 8 <= record_size (zlen v) /\ aligned (record_size (zlen v)) /\
  le_val (slice (slice sarea o KV_HEADER) 0 2) = t /\ t <> 0 /\
  le_val (slice (slice sarea o KV_HEADER) 2 2) = zlen v /\ 0 <= zlen v.
Proof.
  intros Hl Ho. inversion Hl as [|o' t' v' l' e' Hr Hl']; subst.
  assert (Hsb : bytes_ok sarea) by (unfold half_area; auto with tower).
  pose proof (rec_at_Some _ _ _ _ Hr Hsb ltac:(lia)) as (Ht & Hv & Hin & _ & Htag & Hlen & _).
  destruct (record_size_spec (zlen v) (zlen_nonneg v)) as [? ?]. pose proof (zlen_nonneg v).
  rewrite zlen_sarea in Hin. destruct (Log_bounds _ _ _ _ Hl' Hsb) as [? _]; [lia | rewrite zlen_sarea; lia|].
  rewrite !slice_slice by mlia. rewrite Z.add_0_r. split_and!; try done; lia.
Qed.

Definition copy_post (r : result (KvError E) unit) (img' : list Z) : Prop :=
  exists area', img' = with_dst area' /\ zlen area' = n /\ bytes_ok area' /\
  match r with
  | Ok _ => Packed (keep lat l) area'
  | Err (Backend _) => True
  | Err _ => False
  end.

Lemma wp_copy_loop fuel o w area l1 l2 :
  l = l1 ++ l2 -> Log sarea 0 l1 o -> Log sarea o l2 e -> 0 <= o <= n -> n - o < Z.of_nat fuel ->
  w = packed_size (keep lat l1) -> Packed (keep lat l1) area ->
  wp (copy_loop fuel sbase dbase n e lat o w) copy_post (with_dst area).
Proof.
  revert o w area l1 l2. induction fuel as [|fuel IH]; intros o w area l1 l2 Hll Hl1 Hl2 Ho Hf Hw HP; [lia|].
  cbn [copy_loop]. pose proof HP as (Hz & Ha & Hdl & Hzero).
  assert (Herr : forall er, copy_post (Err (Backend er)) (with_dst area)) by (intros; exists area; split_and!; done).
  destruct l2 as [|[o' [t v]] l2].
  { assert (o = e) as <- by (by inversion Hl2). rewrite (proj2 (Z.ltb_ge _ _)) by lia.
    assert (Hl1l : l1 = l) by (by rewrite Hll, app_nil_r). rewrite Hl1l in HP.
    apply wp_ret. exists area. split; [done|]. split; [done|]. by split. }
  assert (o' = o) as -> by (by inversion Hl2).
  destruct (src_record o t v l2 Hl2 Ho) as (Hr & Hl2' & Hin & Hoe & Hsz & Hal & Htag & Ht0 & Hlen & Hv0).
  rewrite (proj2 (Z.ltb_lt _ _)) by lia.
  eapply wp_bind_reads; [apply reads_src; try done; mlia | | done]. intros hdr ->.
  rewrite Htag, Hlen, (proj2 (Z.eqb_neq _ _)) by done.
  pose proof (keep_fits l1 ((o, (t, v)) :: l2) o Hll Hl1) as Hkf. pose proof (packed_size_nonneg (keep lat l1)).
  assert (Hk1 : keep lat (l1 ++ [(o, (t, v))]) =
            keep lat l1 ++ (if keeps lat (o, (t, v)) then [(o, (t, v))] else [])).
  { rewrite keep_app. simpl. by destruct (keeps _ _). }
  assert (Hl1' : Log sarea 0 (l1 ++ [(o, (t, v))]) (o + record_size (zlen v))) by (by apply Log_snoc).
  assert (Hll' : l = (l1 ++ [(o, (t, v))]) ++ l2) by (by rewrite Hll, <- app_assoc).
  change (negb (zlen v =? 0) && planned lat t o) with (keeps lat (o, (t, v))).
  destruct (keeps lat (o, (t, v))) eqn:Hkp.
  - rewrite (proj2 (Z.ltb_ge _ _)) by lia.
    eapply wp_bind_reads; [apply reads_src; try done; lia | | done]. intros tmp ->.
    destruct (half_base_range capacity img Hcap (1 - src) dst_ok) as (? & ? & Hdal & _).
    assert (Htl : zlen (slice sarea o (record_size (zlen v))) = record_size (zlen v))
      by (apply zlen_slice; rewrite ?zlen_sarea; lia).
    apply wp_bind, (wp_half_wr img dbase n); try done; try lia.
    + rewrite Hw. apply (Log_bounds _ _ _ _ Hdl Ha); [lia | lia |]. by exists 0.
    + by rewrite Htl.
    + unfold half_area. auto with tower.
    + apply IH with (l1 := l1 ++ [(o, (t, v))]) (l2 := l2); try done; try lia.
      * rewrite Hk1, packed_size_app. simpl. lia.
      * rewrite Hk1, Hw. apply Packed_copy; try done; lia.
    + intros er area' Ht Hz'. exists area'. split_and!; try done.
      destruct Ht as [->|(k & g & ? & ? & Hg & Hgb & _ & ->)]; [done|].
      apply bytes_ok_patch; [done|]. apply bytes_ok_app. split; [|done]. unfold half_area. auto with tower.
  - apply IH with (l1 := l1 ++ [(o, (t, v))]) (l2 := l2); try done; try lia; rewrite Hk1, app_nil_r; done.
Qed.
End Copy.

(** ** Superblocks and halves under a change *)

Lemma zlen_super_bytes g : zlen (super_bytes g) = 12.
Proof. unfold super_bytes. by rewrite !zlen_app, !zlen_le_bytes. Qed.
Lemma super_bytes_ok g : bytes_ok (super_bytes g).
Proof.
  unfold super_bytes. rewrite !bytes_ok_app. split_and!; auto with tower.
  repeat constructor; unfold byte_ok; lia.
Qed.
Lemma super_crc_ok b : bytes_ok b -> u32_ok (super_crc b).
Proof. intros. apply crc_not32, crc32_update_ok; [apply u32_max_ok | done]. Qed.
Lemma gen_of_super_bytes g : u32_ok g -> gen_of (super_bytes g) = Some g.
Proof.
  intros Hg. unfold gen_of, super_bytes. set (b := SUPER_MAGIC ++ le_bytes 4 g).
  assert (Hb : zlen b = 8) by reflexivity.
  assert (Hbok : bytes_ok b).
  { apply bytes_ok_app. split; [repeat constructor; unfold byte_ok; lia | auto with tower]. }
  set (c := le_bytes 4 (super_crc b)). assert (Hc : zlen c = 4) by reflexivity.
  assert (E1 : slice (b ++ c) 0 4 = SUPER_MAGIC) by reflexivity.
  assert (E2 : slice (b ++ c) 4 4 = le_bytes 4 g) by reflexivity.
  assert (E3 : slice (b ++ c) 0 8 = b) by (rewrite <- Hb; apply slice_app_l).
  assert (E4 : slice (b ++ c) 8 4 = c).
  { rewrite slice_app_r, Hb by lia. rewrite <- Hc. apply slice_all. }
  rewrite E1, E2, E3, E4, bool_decide_true by done. unfold c.
  rewrite !le_val_u32, Z.eqb_refl by auto using super_crc_ok. done.
Qed.

Lemma gen_of_ok b g : gen_of b = Some g -> bytes_ok b -> zlen b = 12 -> u32_ok g.
Proof.
  unfold gen_of. intros H Hb Hl. destruct (_ && _) in H; [|done]. injection H as <-.
  apply le_val_u32_ok; [auto with tower | apply zlen_slice; lia].
Qed.

Section Commit.
Context (capacity : Z) (img : list Z) (Hcap : cap_ok capacity img) (Hok : bytes_ok img).

Lemma super_after_halves h : half_ok h ->
  half_base capacity h + half_len capacity <= super_off capacity 0 /\ super_off capacity 0 = region capacity - 24 /\
  super_off capacity 1 = super_off capacity 0 + 12.
Proof.
  intros Hh. destruct (half_base_range capacity img Hcap h Hh) as (_ & _ & _ & ?).
  unfold super_off in *. change (2 * SUPER_LEN) with 24 in *. change SUPER_LEN with 12 in *. lia.
Qed.

(** Replacing one half leaves the superblocks and the other half alone. *)
Lemma half_change h area :
  half_ok h -> zlen area = half_len capacity ->
  let img' := with_half img (half_base capacity h) area in
  active_of capacity img' = active_of capacity img /\ half_area capacity img' h = area /\
  half_area capacity img' (1 - h) = half_area capacity img (1 - h) /\ zlen img' = zlen img /\
  (forall i, half_ok i -> super_slot capacity img' i = super_slot capacity img i).
Proof.
  intros Hh Ha img'. destruct (half_base_range capacity img Hcap h Hh) as (Hb & Hbe & _ & _).
  pose proof (half_len_pos capacity img Hcap).
  destruct (super_after_halves h Hh) as (? & ? & ?). destruct Hcap as (Hreg & _ & _).
  assert (Hsup : forall i, half_ok i -> super_slot capacity img' i = super_slot capacity img i).
  { intros i [->| ->]; unfold super_slot, img'; apply (half_outside img _ (half_len capacity)); try done; mlia. }
  split_and!; try done.
  - unfold active_of. rewrite (Hsup 0) by (by left). by rewrite (Hsup 1) by (by right).
  - unfold half_area, img'. by apply (slice_with_half img _ (half_len capacity)).
  - unfold half_area, img'. apply (half_outside img _ (half_len capacity)); try done; try lia.
    + unfold half_base, half_ok in *. nia.
    + pose proof (halves_apart capacity img Hcap h Hh). lia.
  - by apply (zlen_with_half img _ (half_len capacity)).
Qed.

(** A (possibly torn) superblock write leaves the halves and the other superblock alone. *)
Lemma super_change gb h d img' :
  half_ok h -> zlen d = 12 -> torn gb img (super_off capacity h) d img' \/ img' = patch img (super_off capacity h) d ->
  (forall i, half_ok i -> half_area capacity img' i = half_area capacity img i) /\
  super_slot capacity img' (1 - h) = super_slot capacity img (1 - h) /\ zlen img' = zlen img.
Proof.
  intros Hh Hd Himg. destruct (super_off_range capacity img Hcap h Hh) as (? & Hse & _).
  change SUPER_LEN with 12 in Hse.
  assert (Hout : forall o k, 0 <= o -> 0 <= k -> o + k <= super_off capacity h \/ super_off capacity h + 12 <= o ->
    slice img' o k = slice img o k).
  { intros o k Ho Hk Hdis. destruct Himg as [Ht| ->]; [eapply torn_outside; [exact Ht | lia..]|].
    apply slice_patch_other; lia. }
  split_and!.
  - intros i Hi. destruct (half_base_range capacity img Hcap i Hi) as (? & ? & _ & ?).
    destruct (super_after_halves i Hi) as (? & ? & ?).
    apply Hout; [done | apply (half_len_pos capacity img Hcap) | left; destruct Hh as [->| ->]; lia].
  - destruct (super_after_halves h Hh) as (? & ? & ?).
    destruct (super_off_range capacity img Hcap (1 - h)) as (? & _); [unfold half_ok in *; lia|].
    apply Hout; [done | mlia | change SUPER_LEN with 12; destruct Hh as [->| ->]; [change (1 - 0) with 1 | change (1 - 1) with 0]; lia].
  - destruct Himg as [Ht| ->]; [eapply torn_zlen; [exact Ht | lia..] | apply zlen_patch; lia].
Qed.

Lemma active_gen h g : active_of capacity img = Some (h, g) ->
  gen_of (super_slot capacity img h) = Some g /\ u32_ok g.
Proof.
  intros Ha. pose proof (active_half _ _ _ _ Ha) as Hh.
  assert (gen_of (super_slot capacity img h) = Some g) as Hg.
  { unfold active_of, pick in Ha. destruct (gen_of (super_slot capacity img 0)) as [a|] eqn:H0,
      (gen_of (super_slot capacity img 1)) as [b|] eqn:H1; try destruct (b <=? a);
      first [discriminate Ha | by injection Ha as <- <-]. }
  split; [done|]. eapply gen_of_ok; [exact Hg | unfold super_slot; auto with tower|].
  by apply (zlen_super_slot capacity img Hcap).
Qed.

(** With one valid superblock, the store reads one of the two halves. *)
Lemma kview_either h g : half_ok h -> gen_of (super_slot capacity img h) = Some g ->
  active_of capacity img <> None /\
  (kview capacity img = view (log (half_area capacity img h)).1 \/
   kview capacity img = view (log (half_area capacity img (1 - h))).1).
Proof.
  intros Hh Hg. unfold kview, active_of, pick.
  destruct Hh as [->| ->]; rewrite Hg.
  - destruct (gen_of (super_slot capacity img 1)) as [b|]; [destruct (b <=? g)|]; split; try done; auto.
  - destruct (gen_of (super_slot capacity img 0)) as [b|]; [destruct (g <=? b)|]; split; try done; auto.
Qed.
End Commit.

(** ** The flip *)

Definition live_set (capacity : Z) (img : list Z) (h : Z) : list entry :=
  let l := (log (half_area capacity img h)).1 in keep (latest_of l) l.

Section Flip.
Context {S E : Type} `{!Eeprom S E} `{!EepromLaws S E}.

Lemma wp_blank base n area img0 :
  0 <= base -> 0 <= n <= 2 ^ 30 -> base + n <= zlen img0 -> aligned base -> aligned n -> bytes_ok img0 ->
  zlen area = n -> bytes_ok area ->
  wp (blank base n)
    (fun r img' => exists area', img' = with_half img0 base area' /\ zlen area' = n /\ bytes_ok area' /\
       match r with Ok _ => area' = zeros n | Err (Backend _) => True | Err _ => False end)
    (with_half img0 base area).
Proof.
  intros Hb Hn Hfit Hab Han Hok Hz Ha. unfold blank. apply wp_bind. eapply wp_conseq.
  { apply (wp_blank_step_span img0 base n); try done; try lia. by exists 0. }
  intros [[p b]|[]] img' _ (area' & -> & H); try done.
  - apply wp_ret. destruct H as (Hz' & Ha' & Hzero & Hp & _ & _ & Hstop & Hbud).
    exists area'. split_and!; try done.
    assert (p = n) as ->.
    { destruct (Z.eq_dec p n); [done|]. exfalso. change (2 ^ 30) with 1073741824 in Hn. mlia. }
    rewrite <- Hz' in Hzero |- *. by apply zero_upto_all.
  - destruct H as (? & ? & _). by exists area'.
Qed.

Context (capacity : Z).

(** A blank-and-copy that stops at any point leaves the store as it was. *)
Lemma dst_invisible img src g area :
  cap_ok capacity img -> active_of capacity img = Some (src, g) -> zlen area = half_len capacity ->
  let img' := with_dst capacity img src area in
  kview capacity img' = kview capacity img /\ active_of capacity img' = Some (src, g) /\
  zlen img' = zlen img /\ half_area capacity img' src = half_area capacity img src /\
  half_area capacity img' (1 - src) = area.
Proof.
  intros Hcap Ha Hz img'. pose proof (active_half _ _ _ _ Ha) as Hsrc.
  destruct (half_change capacity img Hcap (1 - src) area (dst_ok src Hsrc) Hz) as (Hact & Hd & Hs & Hzl & _).
  replace (1 - (1 - src)) with src in Hs by lia.
  fold (with_dst capacity img src area) in Hact, Hd, Hs, Hzl. fold img' in Hact, Hd, Hs, Hzl.
  split_and!; try done; [|by rewrite Hact]. unfold kview. by rewrite Hact, Ha, Hs.
Qed.

(** The superblock write that commits the destination. *)
Definition committed (img : list Z) (src g : Z) (m : gmap Z (list Z)) (img' : list Z) : Prop :=
  zlen img' = zlen img /\ active_of capacity img' <> None /\ kview capacity img' = m.

Lemma wp_commit img src g :
  cap_ok capacity img -> bytes_ok img -> active_of capacity img = Some (src, g) ->
  wp (write_gen capacity (1 - src) (wrap32 (g + 1)))
    (fun r img' =>
       zlen img' = zlen img /\ active_of capacity img' <> None /\
       (forall i, half_ok i -> half_area capacity img' i = half_area capacity img i) /\
       (kview capacity img' = kview capacity img \/
        kview capacity img' = view (log (half_area capacity img (1 - src))).1) /\
       match r with
       | Ok _ => g < u32_max -> active_of capacity img' = Some (1 - src, g + 1)
       | Err (Backend _) => True
       | Err _ => False
       end) img.
Proof.
  intros Hcap Hok Ha. pose proof (active_half _ _ _ _ Ha) as Hsrc. pose proof (dst_ok src Hsrc) as Hdst.
  destruct (active_gen capacity img Hcap Hok src g Ha) as [Hg Hgok].
  destruct (super_off_range capacity img Hcap (1 - src) Hdst) as (? & ? & ?). change SUPER_LEN with 12 in *.
  pose proof (zlen_super_bytes (wrap32 (g + 1))) as Hsb.
  assert (Hview : kview capacity img = view (log (half_area capacity img src)).1) by (unfold kview; by rewrite Ha).
  assert (Hgen : forall img', 
    torn garble img (super_off capacity (1 - src)) (super_bytes (wrap32 (g + 1))) img' \/
    img' = patch img (super_off capacity (1 - src)) (super_bytes (wrap32 (g + 1))) ->
    zlen img' = zlen img /\ active_of capacity img' <> None /\
    (forall i, half_ok i -> half_area capacity img' i = half_area capacity img i) /\
    (kview capacity img' = kview capacity img \/
     kview capacity img' = view (log (half_area capacity img (1 - src))).1) /\
    gen_of (super_slot capacity img' src) = Some g).
  { intros img' Himg.
    destruct (super_change capacity img Hcap garble (1 - src) _ img' Hdst Hsb Himg) as (Hh & Hs & Hz).
    replace (1 - (1 - src)) with src in Hs by lia.
    assert (Hg' : gen_of (super_slot capacity img' src) = Some g) by (by rewrite Hs).
    destruct (kview_either capacity img' src g Hsrc Hg') as [Hne Hor].
    rewrite (Hh src Hsrc), (Hh (1 - src) Hdst) in Hor. rewrite Hview. by split_and!. }
  unfold write_gen. apply wp_wr; try done; try lia.
  - rewrite Hsb. by exists 3.
  - apply super_bytes_ok.
  - set (img' := patch img _ _). destruct (Hgen img') as (Hz & Hne & Hh & Hk & Hg'); [by right|].
    split_and!; try done. intros Hlt.
    assert (Hd : gen_of (super_slot capacity img' (1 - src)) = Some (g + 1)).
    { pose proof (slice_patch_same img (super_off capacity (1 - src)) (super_bytes (wrap32 (g + 1)))) as Hs.
      rewrite Hsb in Hs. unfold super_slot, img'. change SUPER_LEN with 12. rewrite Hs by lia.
      rewrite gen_of_super_bytes by apply wrap32_ok. by rewrite wrap32_small by mlia. }
    unfold active_of, pick. destruct Hsrc as [->| ->].
    + change (1 - 0) with 1 in *. rewrite Hg', Hd. by rewrite (proj2 (Z.leb_gt _ _)) by lia.
    + change (1 - 1) with 0 in *. rewrite Hg', Hd. by rewrite (proj2 (Z.leb_le _ _)) by lia.
  - intros err img' Ht. destruct (Hgen img') as (Hz & Hne & Hh & Hk & Hg'); [by left|]. by split_and!.
Qed.

(** What a flip does: the map and the generation order are kept at every point; on success the
    other half is active, one generation on, and holds exactly the live set. *)
Definition flip_post (img : list Z) (src g : Z) (r : result (KvError E) unit) (img' : list Z) : Prop :=
  zlen img' = zlen img /\ kview capacity img' = kview capacity img /\ active_of capacity img' <> None /\
  match r with
  | Ok _ =>
      g < u32_max ->
      active_of capacity img' = Some (1 - src, g + 1) /\
      log (half_area capacity img' (1 - src)) =
        (pack 0 (live_set capacity img src), packed_size (live_set capacity img src))
  | Err TooManyKeys => img' = img /\ MAX_KEYS < zlen (latest_of (log (half_area capacity img src)).1)
  | Err (Backend _) => True
  | Err _ => False
  end.

Lemma wp_flip img src g :
  cap_ok capacity img -> active_of capacity img = Some (src, g) ->
  wp (flip capacity src g) (flip_post img src g) img.
Proof.
  intros Hcap Ha. apply wp_ok. intros Hok. pose proof (active_half _ _ _ _ Ha) as Hsrc.
  pose proof (dst_ok src Hsrc) as Hdst.
  set (n := half_len capacity). set (sarea := half_area capacity img src).
  set (l := (log sarea).1). set (e := (log sarea).2).
  assert (Hsb : bytes_ok sarea) by (unfold sarea, half_area; auto with tower).
  assert (Hfull : FullLog sarea l e) by (by apply log_full).
  destruct (half_base_range capacity img Hcap src Hsrc) as (? & ? & _ & _).
  destruct (half_base_range capacity img Hcap (1 - src) Hdst) as (Hdb & Hde & Hdal & _).
  pose proof (half_len_pos capacity img Hcap) as Hn. fold n in Hn, Hde.
  destruct (half_len_spec capacity (proj1 Hcap)) as (_ & Hnal & Hnle & _). fold n in Hnal, Hnle.
  assert (Hn30 : n <= 2 ^ 30) by (destruct Hcap as (? & ? & ?); lia).
  destruct (FullLog_bounds _ _ _ Hsb Hfull) as [He _].
  unfold sarea in He. rewrite (zlen_half_area capacity img Hcap) in He by done. fold n in He.
  assert (Hdst_err : forall er area, zlen area = n -> flip_post img src g (Err (Backend er)) (with_dst capacity img src area)).
  { intros er area Hz. destruct (dst_invisible img src g area Hcap Ha Hz) as (? & Hact & ? & _ & _).
    unfold flip_post. rewrite Hact. by split_and!. }
  unfold flip. fold n. apply wp_bind. eapply wp_conseq; [apply (wp_walk_latest _ _ img l e); done|].
  intros [[src_free latest]|[]] img1 _ [-> Hw]; try done.
  { injection (proj1 Hw) as -> ->. destruct Hw as [_ Hw].
    apply wp_bind. set (darea := half_area capacity img (1 - src)).
    assert (Hdz : zlen darea = n) by (by apply (zlen_half_area capacity img Hcap)).
    assert (Hself : with_half img (half_base capacity (1 - src)) darea = img) by (apply patch_slice_id; lia).
    apply (wp_at _ _ _ _ Hself).
    eapply wp_conseq; [apply (wp_blank _ n); try done; unfold darea, half_area; auto with tower|].
    intros [[]|[]] img1 _ (area1 & -> & Hz1 & Ha1 & H1); try done; [subst area1 | by apply Hdst_err].
    apply wp_bind. eapply wp_conseq.
    { eapply (wp_copy_loop capacity img Hcap Hok src Hsrc l e Hfull) with (l1 := []) (l2 := l); try done; try lia.
      - constructor.
      - apply Hfull.
      - apply (Packed_nil capacity img Hcap). }
    intros [[]|[]] img2 Hok2 (area2 & -> & Hz2 & Ha2 & H2); try done; [|by apply Hdst_err].
    destruct (dst_invisible img src g area2 Hcap Ha Hz2) as (Hk2 & Hact2 & Hzl2 & Hs2 & Hd2).
    eapply wp_conseq; [apply (wp_commit _ src g); try done|].
    { destruct Hcap as (? & ? & ?). split_and!; try done. by rewrite Hzl2. }
    assert (Hpk : FullLog area2 (pack 0 (keep (latest_of l) l)) (packed_size (keep (latest_of l) l))).
    { apply (Packed_full capacity); [done|]. split; [apply packed_size_nonneg|].
      pose proof (packed_size_keep (latest_of l) l). pose proof (Log_packed _ _ _ _ (proj1 Hfull)). lia. }
    apply FullLog_log in Hpk; [|done].
    assert (Hsame : view (log area2).1 = kview capacity img).
    { rewrite Hpk. simpl. rewrite view_pack, (view_keep sarea 0 l e) by apply Hfull.
      unfold kview. by rewrite Ha. }
    intros r img3 _ (Hz3 & Hne3 & Hh3 & Hk3 & Hr3). unfold flip_post. rewrite Hz3, Hzl2.
    assert (Hk3' : kview capacity img3 = kview capacity img).
    { rewrite Hk2, Hd2, Hsame in Hk3. by destruct Hk3. }
    split_and!; try done. destruct r as [[]|[]]; try done. intros Hlt. split; [by apply Hr3|].
    by rewrite Hh3, Hd2, Hpk by done. }
  - unfold flip_post. by rewrite Ha.
  - unfold flip_post. by rewrite Ha.
Qed.
End Flip.
