(* ===== verification/KvMaint.v ===== *)
(** The incremental flip: [flip_start], [flip_step], [flip_commit]. The RAM plan is tied to the
    store by an invariant that every bounded step keeps, also when a write fails inside it, and
    under which the commit is as invisible to the map as the synchronous flip. *)
From stdpp Require Import gmap.
From S2P Require Import Prelude Bytes Crc Kv KvWp KvLog KvScan KvAppend KvFlip.

(** ** The plan's invariant *)

Section Plan.
Context (n : Z) (sarea : list Z).

(** Bytes behind the write position that an interrupted copy of the next record may have left
    dirty: they are rewritten before the plan moves on. *)
Definition dirty (lat : list (Z * Z)) (k2 : list entry) : Z :=
  match keep lat k2 with [] => 0 | x :: _ => record_size (zlen x.2.2) end.

Record CopyInv (l1 : list entry) (st : FlipState) (darea : list Z) (k1 k2 : list entry) : Prop := {
  ci_split : l1 = k1 ++ k2;
  ci_done : Log sarea 0 k1 (read_off st);
  ci_rest : Log sarea (read_off st) k2 (src_end st);
  ci_write : write_off st = packed_size (keep (latest st) k1);
  ci_zlen : zlen darea = n;
  ci_ok : bytes_ok darea;
  ci_log : Log darea 0 (pack 0 (keep (latest st) k1)) (write_off st);
  ci_rc : 0 <= rec_copied st /\ aligned (rec_copied st);
  ci_part : slice darea (write_off st) (rec_copied st) = slice sarea (read_off st) (rec_copied st);
  ci_mid : rec_copied st = 0 \/
           exists x k2', k2 = x :: k2' /\ keeps (latest st) x = true /\ rec_copied st <= record_size (zlen x.2.2);
  ci_zero : slice darea (write_off st + dirty (latest st) k2) (n - (write_off st + dirty (latest st) k2)) =
            zeros (n - (write_off st + dirty (latest st) k2));
}.

Record PlanInv (l1 : list entry) (st : FlipState) (darea : list Z) : Prop := {
  pi_log : Log sarea 0 l1 (src_end st);
  pi_latest : latest st = latest_of l1;
  pi_blank : 0 <= blank_off st <= n /\ aligned (blank_off st);
  pi_zlen : zlen darea = n;
  pi_ok : bytes_ok darea;
  pi_copy : if blank_off st <? n
            then read_off st = 0 /\ write_off st = 0 /\ rec_copied st = 0 /\ zero_upto darea (blank_off st)
            else exists k1 k2, CopyInv l1 st darea k1 k2;
}.
End Plan.

(** The plan describes the store, or the store has moved on and the plan is stale. *)
Definition FlipInv (capacity : Z) (img : list Z) (st : FlipState) : Prop :=
  active_of capacity img <> None /\
  (active_of capacity img = Some (src_h st, src_gen st) ->
  exists l1, PlanInv (half_len capacity) (half_area capacity img (src_h st)) l1 st
               (half_area capacity img (1 - src_h st))).

(** Fields a step never touches. *)
Definition same_plan (st st' : FlipState) : Prop :=
  src_h st' = src_h st /\ src_gen st' = src_gen st /\ src_end st' = src_end st /\ latest st' = latest st.

Lemma same_plan_refl st : same_plan st st.
Proof. by split_and!. Qed.
Lemma same_plan_trans a b c : same_plan a b -> same_plan b c -> same_plan a c.
Proof. unfold same_plan. intros (?&?&?&?) (?&?&?&?). split_and!; congruence. Qed.

Section Steps.
Context {S E : Type} `{!Eeprom S E} `{!EepromLaws S E}.
Context (capacity : Z) (img : list Z) (Hcap : cap_ok capacity img) (Hok : bytes_ok img)
        (src : Z) (Hsrc : half_ok src).

#[local] Abbreviation n := (half_len capacity).
#[local] Abbreviation sbase := (half_base capacity src).
#[local] Abbreviation dbase := (half_base capacity (1 - src)).
#[local] Abbreviation sarea := (half_area capacity img src).
#[local] Abbreviation dst := (with_dst capacity img src).
#[local] Abbreviation CI := (CopyInv n sarea).

Lemma sarea_ok : bytes_ok sarea /\ zlen sarea = n.
Proof. split; [unfold half_area; auto with tower | by apply (zlen_half_area capacity img Hcap)]. Qed.

(** The record a copy is at. *)
Lemma ci_head l1 st darea k1 o t v k2 :
  CI l1 st darea k1 ((o, (t, v)) :: k2) ->
  o = read_off st /\ 0 <= o /\ rec_at sarea o = Some (t, v) /\
  Log sarea (o + record_size (zlen v)) k2 (src_end st) /\
  o + record_size (zlen v) <= n /\ o < src_end st /\ 8 <= record_size (zlen v) /\
  aligned (record_size (zlen v)) /\
  le_val (slice (slice sarea o KV_HEADER) 0 2) = t /\ t <> 0 /\
  le_val (slice (slice sarea o KV_HEADER) 2 2) = zlen v /\ 0 <= zlen v /\
  0 <= write_off st <= o /\ aligned (write_off st).
Proof.
  intros [Hsp Hd Hr Hw Hz Hdok Hl _ _ _ _]. destruct sarea_ok as [Hsb Hsz].
  destruct (Log_bounds _ _ _ _ Hd Hsb) as [Hb _]; [lia | apply zlen_nonneg|].
  assert (read_off st = o) as Ho by (by inversion Hr). rewrite Ho in *.
  assert (Ho2 : 0 <= o <= n) by lia.
  destruct (src_record capacity img Hcap Hok src Hsrc (src_end st) o t v k2 Hr Ho2)
    as (? & ? & ? & ? & ? & ? & ? & ? & ? & ?).
  destruct (Log_bounds _ _ _ _ Hl Hdok) as [? Hal]; [lia | apply zlen_nonneg|].
  pose proof (packed_size_keep (latest st) k1). rewrite (Log_packed _ _ _ _ Hd) in *.
  split_and!; try done; try lia. apply Hal. by exists 0.
Qed.

Definition with_copied (st : FlipState) (c : Z) : FlipState :=
  {| src_h := src_h st; src_gen := src_gen st; src_end := src_end st; latest := latest st;
     blank_off := blank_off st; read_off := read_off st; write_off := write_off st; rec_copied := c |}.

(** One chunk of the record at the read position. *)
Lemma ci_chunk l1 st darea k1 o t v k2 c darea' :
  CI l1 st darea k1 ((o, (t, v)) :: k2) -> keeps (latest st) (o, (t, v)) = true ->
  rec_copied st <= c <= record_size (zlen v) -> aligned c ->
  zlen darea' = n -> bytes_ok darea' ->
  (forall i k, 0 <= i -> 0 <= k -> i + k <= write_off st + rec_copied st \/
     write_off st + record_size (zlen v) <= i -> slice darea' i k = slice darea i k) ->
  slice darea' (write_off st + rec_copied st) (c - rec_copied st) =
    slice sarea (o + rec_copied st) (c - rec_copied st) ->
  CI l1 (with_copied st c) darea' k1 ((o, (t, v)) :: k2).
Proof.
  intros HC Hk Hc Hca Hz' Hok' Hout Hnew.
  destruct (ci_head _ _ _ _ _ _ _ _ HC) as (Ho & Hopos & Hr & Hl2 & Hin & Hoe & Hsz & Hal & _ & _ & _ & Hv0 & Hw & Hwa).
  destruct HC as [Hsp Hd Hrest Hwr Hz Hdok Hl [Hrc0 Hrca] Hpart Hmid Hzero].
  constructor; simpl; try done.
  - eapply Log_local; [exact Hl | done | lia | congruence | apply zlen_nonneg|]. rewrite Z.sub_0_r. apply Hout; lia.
  - split; [lia | done].
  - replace c with (rec_copied st + (c - rec_copied st)) by lia. rewrite !slice_split by lia. f_equal.
    + rewrite Hout by lia. done.
    + rewrite <- Ho. done.
  - right. exists (o, (t, v)), k2. split_and!; try done. simpl. lia.
  - assert (Hdirty : dirty (latest st) ((o, (t, v)) :: k2) = record_size (zlen v)).
    { unfold dirty, keep. simpl. by rewrite Hk. }
    rewrite Hdirty in *. rewrite <- Hzero.
    destruct (Z.le_gt_cases (write_off st + record_size (zlen v)) n); [apply Hout; lia|].
    unfold slice. rewrite Z2Nat.nonpos by lia. done.
Qed.

Lemma ci_idle l1 st darea k1 o t v k2 :
  CI l1 st darea k1 ((o, (t, v)) :: k2) -> keeps (latest st) (o, (t, v)) = true ->
  rec_copied st <= record_size (zlen v).
Proof.
  intros HC _. destruct (ci_head _ _ _ _ _ _ _ _ HC) as (_ & _ & _ & _ & _ & _ & ? & _).
  destruct (ci_mid _ _ _ _ _ _ _ HC) as [->|(x & k2' & [= <- <-] & _ & ?)]; [lia | done].
Qed.

(** The destination half fits the image, for the writes below. *)
Lemma dst_geometry : 0 <= dbase /\ dbase + n <= zlen img /\ aligned dbase /\ 0 <= n /\ n <= 2 ^ 30 /\ aligned n.
Proof.
  destruct (half_base_range capacity img Hcap (1 - src) (dst_ok src Hsrc)) as (? & ? & ? & _).
  destruct Hcap as (Hr & ? & ?). destruct (half_len_spec capacity Hr) as (? & ? & ? & _).
  split_and!; try done; lia.
Qed.

Lemma chunk_size size rc budget :
  aligned size -> aligned rc -> 0 <= rc < size -> size <= 1024 -> 0 < budget <= u32_max ->
  let chunk := Z.min (size - rc) (sat_mul u32_max budget 4) in
  0 < chunk <= size - rc /\ aligned chunk /\ 4 * (budget - sat_sub budget (words chunk)) = chunk /\
  0 <= sat_sub budget (words chunk) <= budget.
Proof.
  intros Hs Hr Hrc Hsz Hb chunk.
  assert (Hal : aligned chunk).
  { unfold chunk. destruct (Z.min_spec (size - rc) (sat_mul u32_max budget 4)) as [[_ ->]|[? ->]];
      [by apply aligned_sub|]. unfold sat_mul in *. rewrite Z.min_l by mlia. apply aligned_mul. by exists 1. }
  assert (Hc : 0 < chunk <= size - rc) by (unfold chunk; mlia).
  assert (Hc4 : chunk <= 4 * budget) by (unfold chunk; mlia).
  assert (Hw : 4 * words chunk = chunk).
  { unfold words. apply aligned_mod in Hal. pose proof (div_ceil_spec chunk 4 ltac:(lia)).
    pose proof (Z.div_mod chunk 4 ltac:(lia)). lia. }
  split_and!; try done; mlia.
Qed.

Lemma rec_size_small o t v : rec_at sarea o = Some (t, v) -> 0 <= o -> record_size (zlen v) <= 1024.
Proof.
  intros Hr Ho. destruct sarea_ok as [Hsb _].
  pose proof (rec_at_Some _ _ _ _ Hr Hsb Ho) as (_ & ? & _).
  destruct (record_size_spec (zlen v) (zlen_nonneg v)) as [? _]. mlia.
Qed.

(** What copying (part of) the record at the read position leaves. *)
Definition copy_rec_post (l1 : list entry) (st : FlipState) (k1 : list entry) (x : entry) (k2 : list entry)
    (budget : Z) (r : result (KvError E) (option Z)) (st' : FlipState) (img' : list Z) : Prop :=
  exists darea' c, img' = dst darea' /\ st' = with_copied st c /\ rec_copied st <= c /\
    CI l1 st' darea' k1 (x :: k2) /\
    match r with
    | Ok (Some b) => c = record_size (zlen x.2.2) /\ 0 <= b <= budget /\ 4 * (budget - b) <= c - rec_copied st
    | Ok None => 4 * budget <= c - rec_copied st
    | Err (Backend _) => True
    | Err _ => False
    end.

Lemma with_copied_id st : with_copied st (rec_copied st) = st.
Proof. by destruct st. Qed.

Lemma wpr_copy_rec fuel budget l1 st darea k1 o t v k2 :
  CI l1 st darea k1 ((o, (t, v)) :: k2) -> keeps (latest st) (o, (t, v)) = true ->
  0 <= budget <= u32_max -> record_size (zlen v) - rec_copied st < Z.of_nat fuel ->
  wpr (copy_rec fuel sbase dbase (record_size (zlen v)) budget)
    (copy_rec_post l1 st k1 (o, (t, v)) k2 budget) st (dst darea).
Proof.
  revert budget st darea. induction fuel as [|fuel IH]; intros budget st darea HC Hk Hb Hf;
    pose proof (ci_idle _ _ _ _ _ _ _ _ HC Hk) as Hidle; [lia|].
  destruct (ci_head _ _ _ _ _ _ _ _ HC) as (Ho & Hopos & Hr & _ & Hin & _ & Hsz & Hal & _ & _ & _ & Hv0 & Hw & Hwa).
  subst o. pose proof (ci_rc _ _ _ _ _ _ _ HC) as [Hrc Hrca]. pose proof (ci_zlen _ _ _ _ _ _ _ HC) as Hz.
  pose proof (ci_ok _ _ _ _ _ _ _ HC) as Hdok.
  pose proof (rec_size_small _ t v Hr Hopos) as Hsmall.
  destruct dst_geometry as (Hdb & Hde & Hdal & Hn & _ & _). destruct sarea_ok as [Hsb Hsz'].
  assert (Hstay : forall r, match r with Ok (Some b) => rec_copied st = record_size (zlen v) /\ b = budget
                                       | Ok None => budget = 0 | Err (Backend _) => True | Err _ => False end ->
            copy_rec_post l1 st k1 (read_off st, (t, v)) k2 budget r st (dst darea)).
  { intros r Hpr. exists darea, (rec_copied st). rewrite with_copied_id. split_and!; try done.
    destruct r as [[b|]|[]]; try done; simpl; lia. }
  cbn [copy_rec]. apply wpr_bind, wpr_get.
  destruct (rec_copied st <? record_size (zlen v)) eqn:Hlt; bool_hyps.
  2: { apply wpr_ret, Hstay. lia. }
  destruct (budget =? 0) eqn:Hb0; bool_hyps; [by apply wpr_ret, Hstay|].
  destruct (chunk_size (record_size (zlen v)) (rec_copied st) budget) as (Hc & Hca & Hcb & Hb'); try done; try lia.
  set (chunk := Z.min _ _) in *.
  eapply wpr_bind_reads; [rewrite <- Z.add_assoc; apply (reads_src capacity img Hcap src Hsrc); try done; lia | |
    intros e; by apply Hstay].
  intros tmp ->.
  assert (Htl : zlen (slice sarea (read_off st + rec_copied st) chunk) = chunk) by (apply zlen_slice; lia).
  apply wpr_bind, wpr_lift. rewrite <- Z.add_assoc.
  apply (wp_half_wr img dbase n); try done; try lia.
  - by apply aligned_add.
  - by rewrite Htl.
  - auto with tower.
  - assert (HC' : CI l1 (with_copied st (rec_copied st + chunk))
        (patch darea (write_off st + rec_copied st) (slice sarea (read_off st + rec_copied st) chunk)) k1 ((read_off st, (t, v)) :: k2)).
    { apply (ci_chunk l1 st darea k1 (read_off st) t v k2 (rec_copied st + chunk)); try done; try lia.
      - by apply aligned_add.
      - rewrite zlen_patch; lia.
      - auto with tower.
      - intros i k Hi Hk' Hdis. apply slice_patch_other; lia.
      - rewrite Z.add_simpl_l.
        pose proof (slice_patch_same darea (write_off st + rec_copied st) (slice sarea (read_off st + rec_copied st) chunk)) as Hs.
        rewrite Htl in Hs. apply Hs; lia. }
    unfold set_copy. apply wpr_bind, wpr_bind, wpr_get, wpr_put.
    change (wpr (copy_rec fuel sbase dbase (record_size (zlen v)) (sat_sub budget (words chunk)))
      (copy_rec_post l1 st k1 (read_off st, (t, v)) k2 budget) (with_copied st (rec_copied st + chunk))
      (dst (patch darea (write_off st + rec_copied st) (slice sarea (read_off st + rec_copied st) chunk)))).
    eapply wpr_conseq; [apply (IH _ _ _ HC' Hk); simpl; lia|].
    intros r st' img' _ (darea' & c & -> & -> & Hge & HC2 & Hr2). simpl in Hge.
    exists darea', c. split_and!; try done; [lia|].
    destruct r as [[b|]|[]]; try done; simpl in *; lia.
  - intros e darea' Ht Hz'. exists darea', (rec_copied st). rewrite with_copied_id. split_and!; try done.
    destruct Ht as [->|(kk & g & Hkk & Hkd & Hg & Hgb & _ & ->)]; [done|].
    assert (Hgl : zlen (slice (slice sarea (read_off st + rec_copied st) chunk) 0 (4 * kk) ++ g) = 4 * kk + 4)
      by (rewrite zlen_app, zlen_slice by lia; lia).
    rewrite <- (with_copied_id st) at 1.
    apply (ci_chunk l1 st darea k1 (read_off st) t v k2 (rec_copied st)); try done; try lia.
    + apply bytes_ok_patch; [done|]. apply bytes_ok_app. auto with tower.
    + intros i k Hi Hk' Hdis. apply slice_patch_other; lia.
    + by rewrite Z.sub_diag, !slice_0.
Qed.

Definition moved (st : FlipState) (r w c : Z) : FlipState :=
  {| src_h := src_h st; src_gen := src_gen st; src_end := src_end st; latest := latest st;
     blank_off := blank_off st; read_off := r; write_off := w; rec_copied := c |}.

Lemma ci_keep_snoc lat k1 x k2 :
  keep lat (k1 ++ [x]) = keep lat k1 ++ (if keeps lat x then [x] else []) /\
  keep lat (x :: k2) = (if keeps lat x then [x] else []) ++ keep lat k2.
Proof. rewrite keep_app. simpl. by destruct (keeps lat x). Qed.

(** Moving past a record the flip drops. *)
Lemma ci_skip l1 st darea k1 o t v k2 :
  CI l1 st darea k1 ((o, (t, v)) :: k2) -> keeps (latest st) (o, (t, v)) = false ->
  rec_copied st = 0 /\
  CI l1 (moved st (o + record_size (zlen v)) (write_off st) (rec_copied st)) darea (k1 ++ [(o, (t, v))]) k2.
Proof.
  intros HC Hk. destruct (ci_head _ _ _ _ _ _ _ _ HC) as (Ho & Hopos & Hr & Hl2 & _).
  destruct HC as [Hsp Hd Hrest Hwr Hz Hdok Hl Hrc Hpart Hmid Hzero].
  destruct (ci_keep_snoc (latest st) k1 (o, (t, v)) k2) as [E1 E2]. rewrite Hk, app_nil_r in E1. rewrite Hk in E2.
  assert (Hrc0 : rec_copied st = 0) by (destruct Hmid as [?|(x & k2' & [= <- <-] & Hx & _)]; congruence).
  split; [done|]. constructor; simpl; rewrite ?E1; try done.
  - by rewrite <- app_assoc.
  - apply Log_snoc; [by rewrite Ho | done].
  - by rewrite Hrc0, !slice_0.
  - by left.
  - unfold dirty in *. by rewrite E2 in Hzero.
Qed.

(** Moving past a record that was copied completely. *)
Lemma ci_done_rec l1 st darea k1 o t v k2 :
  CI l1 st darea k1 ((o, (t, v)) :: k2) -> keeps (latest st) (o, (t, v)) = true ->
  rec_copied st = record_size (zlen v) -> write_off st + record_size (zlen v) <= n ->
  CI l1 (moved st (o + record_size (zlen v)) (write_off st + record_size (zlen v)) 0) darea (k1 ++ [(o, (t, v))]) k2.
Proof.
  intros HC Hk Hrc Hfit. destruct (ci_head _ _ _ _ _ _ _ _ HC) as (Ho & Hopos & Hr & Hl2 & Hin & _ & Hsz & Hal & _ & _ & _ & _ & Hw & Hwa).
  destruct HC as [Hsp Hd Hrest Hwr Hz Hdok Hl _ Hpart _ Hzero]. destruct sarea_ok as [Hsb _].
  destruct (ci_keep_snoc (latest st) k1 (o, (t, v)) k2) as [E1 E2]. rewrite Hk in E1, E2.
  constructor; simpl; rewrite ?E1; try done.
  - by rewrite <- app_assoc.
  - apply Log_snoc; [by rewrite Ho | done].
  - rewrite packed_size_app, <- Hwr. simpl. lia.
  - rewrite pack_app. simpl. rewrite <- Hwr. apply Log_snoc; [done|].
    eapply rec_at_local; [exact Hr | done | done | lia | lia|]. rewrite Hrc in Hpart. by rewrite Hpart, Ho.
  - split; [lia | by exists 0].
  - by left.
  - unfold dirty in *. rewrite E2 in Hzero. simpl in Hzero.
    set (d := match keep (latest st) k2 with [] => 0 | x :: _ => record_size (zlen x.2.2) end).
    assert (0 <= d).
    { unfold d. destruct (keep (latest st) k2) as [|x ?]; [done|].
      destruct (record_size_spec (zlen x.2.2) (zlen_nonneg x.2.2)). pose proof (zlen_nonneg x.2.2). lia. }
    set (p := write_off st + record_size (zlen v)) in *.
    destruct (Z.le_gt_cases (p + d) n) as [Hle|Hgt].
    + replace (p + d) with (p + d) by lia. rewrite <- (slice_slice darea p (n - p) d), Hzero by lia. apply slice_zeros; lia.
    + unfold slice, zeros. rewrite Z2Nat.nonpos by lia. done.
Qed.

Definition step_post (l1 : list entry) (st : FlipState) (budget : Z) (r : result (KvError E) bool)
    (st' : FlipState) (img' : list Z) : Prop :=
  exists darea' k1 k2, img' = dst darea' /\ same_plan st st' /\ blank_off st' = blank_off st /\
    CI l1 st' darea' k1 k2 /\
    match r with
    | Ok true => 4 * budget <= write_off st' + rec_copied st' - (write_off st + rec_copied st)
    | Ok false => k2 = []
    | Err (Backend _) => True
    | Err _ => False
    end.

Lemma step_post_trans l1 st st1 b b1 r st' img' :
  same_plan st st1 -> blank_off st1 = blank_off st ->
  4 * (b - b1) <= write_off st1 + rec_copied st1 - (write_off st + rec_copied st) ->
  step_post l1 st1 b1 r st' img' -> step_post l1 st b r st' img'.
Proof.
  intros Hp Hbl Hb (darea' & k1 & k2 & -> & Hp' & Hbl' & HC & Hr). exists darea', k1, k2.
  split_and!; try done; [by eapply same_plan_trans | congruence|].
  destruct r as [[]|[]]; try done. lia.
Qed.

Lemma wpr_step_loop fuel budget l1 st darea k1 k2 :
  CI l1 st darea k1 k2 -> 0 <= budget <= u32_max -> n - read_off st < Z.of_nat fuel -> 0 <= read_off st ->
  wpr (step_loop fuel sbase dbase n budget) (step_post l1 st budget) st (dst darea).
Proof.
  revert budget st darea k1 k2. induction fuel as [|fuel IH]; intros budget st darea k1 k2 HC Hb Hf Hr0;
    pose proof (ci_zlen _ _ _ _ _ _ _ HC) as Hz; destruct sarea_ok as [Hsb Hsz'].
  { destruct (Log_bounds _ _ _ _ (ci_done _ _ _ _ _ _ _ HC) Hsb) as [? _]; [lia | apply zlen_nonneg|]. lia. }
  assert (Herr : forall e, step_post l1 st budget (Err (Backend e)) st (dst darea)).
  { intros e. exists darea, k1, k2. split_and!; done. }
  cbn [step_loop]. apply wpr_bind, wpr_get.
  destruct k2 as [|[o [t v]] k2].
  { assert (src_end st = read_off st) as -> by (pose proof (ci_rest _ _ _ _ _ _ _ HC) as H; by inversion H).
    rewrite (proj2 (Z.ltb_ge _ _)) by lia. apply wpr_ret. exists darea, k1, []. split_and!; done. }
  destruct (ci_head _ _ _ _ _ _ _ _ HC)
    as (Ho & Hopos & Hr & Hl2 & Hin & Hoe & Hsz & Hal & Htag & Ht0 & Hlen & Hv0 & Hw & Hwa).
  subst o. rewrite (proj2 (Z.ltb_lt _ _)) by lia.
  eapply wpr_bind_reads; [apply (reads_src capacity img Hcap src Hsrc); try done; mlia | | done].
  intros hdr ->. rewrite Htag, Hlen, (proj2 (Z.eqb_neq _ _)) by done.
  assert (Hkeq : negb (planned (latest st) t (read_off st)) || (zlen v =? 0) =
                 negb (keeps (latest st) (read_off st, (t, v)))).
  { unfold keeps. simpl. by destruct (planned _ _ _), (zlen v =? 0). }
  rewrite Hkeq. destruct (keeps (latest st) (read_off st, (t, v))) eqn:Hk; simpl.
  - rewrite (proj2 (Z.ltb_ge _ _)) by lia. apply wpr_bind.
    eapply wpr_conseq; [apply (wpr_copy_rec _ budget l1 st darea k1 (read_off st) t v k2); try done;
      destruct (ci_rc _ _ _ _ _ _ _ HC); lia|].
    intros [[b|]|[]] st1 img1 _ (darea1 & c & -> & -> & Hge & HC1 & Hpost); try done.
    + destruct Hpost as (Hcs & Hbb & Hbud). simpl in Hcs. subst c.
      unfold set_copy. apply wpr_bind, wpr_bind, wpr_get, wpr_put.
      change (wpr (step_loop fuel sbase dbase n b) (step_post l1 st budget)
        (moved (with_copied st (record_size (zlen v))) (read_off st + record_size (zlen v))
           (write_off st + record_size (zlen v)) 0) (dst darea1)).
      eapply wpr_conseq.
      * eapply IH; [apply (ci_done_rec l1 (with_copied st (record_size (zlen v)))); try done; simpl; lia | lia | simpl; lia | simpl; lia].
      * intros r st' img' _. apply step_post_trans; simpl; [by split_and! | done | lia].
    + apply wpr_ret. exists darea1, k1, ((read_off st, (t, v)) :: k2). simpl. split_and!; try done. lia.
    + exists darea1, k1, ((read_off st, (t, v)) :: k2). split_and!; done.
  - destruct (ci_skip _ _ _ _ _ _ _ _ HC Hk) as [Hrc0 HC1].
    unfold set_copy. apply wpr_bind, wpr_bind, wpr_get, wpr_put.
    change (wpr (step_loop fuel sbase dbase n budget) (step_post l1 st budget)
        (moved st (read_off st + record_size (zlen v)) (write_off st) (rec_copied st)) (dst darea)).
    eapply wpr_conseq; [eapply IH; [exact HC1 | lia | simpl; lia | simpl; lia]|].
    intros r st' img' _. apply step_post_trans; simpl; [by split_and! | done | lia].
Qed.

(** ** The tail catch-up *)

Context (l : list entry) (e : Z) (Hfull : FullLog sarea l e).

Definition tail_post (k : list entry) (st : FlipState) (r : result (KvError E) unit) (st' : FlipState)
    (img' : list Z) : Prop :=
  exists darea', img' = dst darea' /\ zlen darea' = n /\ bytes_ok darea' /\ same_plan st st' /\
    match r with
    | Ok _ => Packed capacity k darea'
    | Err (Backend _) => True
    | Err _ => False
    end.

(** The loop's own checks accept exactly the records of the log. *)
Lemma wpr_tail_loop fuel o k l2 st darea :
  Log sarea o l2 e -> 0 <= o <= n -> n - o < Z.of_nat fuel ->
  Packed capacity k darea -> write_off st = packed_size k -> packed_size k <= o ->
  wpr (tail_loop fuel sbase dbase n o) (tail_post (k ++ l2) st) st (dst darea).
Proof.
  revert o k l2 st darea. induction fuel as [|fuel IH]; intros o k l2 st darea Hl2 Ho Hf HP Hw Hwo; [lia|].
  pose proof HP as (Hz & Hdok & Hdl & Hzero). destruct sarea_ok as [Hsb Hsz].
  assert (Herr : forall er, tail_post (k ++ l2) st (Err (Backend er)) st (dst darea)).
  { intros er. exists darea. pose proof (same_plan_refl st). split_and!; done. }
  cbn [tail_loop]. inversion Hl2 as [o' Ho' Hnil He|o' t v l3 e' Hr Hl3]; subst.
  - (* the log ends here: one of the checks says so *)
    assert (Hstop : wpr (ret tt) (tail_post (k ++ []) st) st (dst darea)).
    { apply wpr_ret. exists darea. rewrite app_nil_r. pose proof (same_plan_refl st). split; [done|]. split; [done|]. done. }
    destruct Hfull as [_ Hstop_at]. unfold rec_at in Hstop_at. rewrite Hsz in Hstop_at.
    destruct (n <? e + KV_HEADER) eqn:Hfit; [done|]. bool_hyps.
    eapply wpr_bind_reads; [apply (reads_src capacity img Hcap src Hsrc); try done; mlia | | done].
    intros hdr ->. set (hdr := slice sarea e KV_HEADER) in *.
    destruct (le_val (slice hdr 0 2) =? 0) eqn:Ht; [done|].
    set (len := le_val (slice hdr 2 2)) in *.
    destruct ((MAX_VALUE <? len) || (n <? e + record_size len)) eqn:Hbad; [done|]. bool_hyps.
    assert (0 <= len).
    { assert (zlen hdr = 8) by (apply zlen_slice; mlia).
      apply (le_val_u16_ok (slice hdr 2 2)); [unfold hdr; auto with tower | apply zlen_slice; lia]. }
    destruct (record_size_spec len ltac:(done)) as [? _].
    rewrite <- Z.add_assoc.
    eapply wpr_bind_reads; [apply (reads_src capacity img Hcap src Hsrc); try done; mlia | | done].
    intros body ->. rewrite (slice_slice sarea (e + KV_HEADER) (record_size len - KV_HEADER) 0 len), Z.add_0_r by mlia.
    destruct (entry_crc (slice hdr 0 4) (slice sarea (e + KV_HEADER) len) =? le_val (slice hdr 4 4)); done.
  - destruct (src_record capacity img Hcap Hok src Hsrc e o t v l3 Hl2 Ho)
      as (_ & _ & Hin & Hoe & Hsz8 & Hal & Htag & Ht0 & Hlen & Hv0).
    pose proof Hr as Hr0. unfold rec_at in Hr. rewrite Hsz in Hr. rewrite Htag, Hlen in Hr.
    destruct (n <? o + KV_HEADER) eqn:Hfit; [done|]. bool_hyps.
    destruct (t =? 0) eqn:Ht; [done|].
    destruct ((MAX_VALUE <? zlen v) || (n <? o + record_size (zlen v))) eqn:Hbad; [done|].
    eapply wpr_bind_reads; [apply (reads_src capacity img Hcap src Hsrc); try done; mlia | | done].
    intros hdr ->. rewrite Htag, Hlen, Ht, Hbad.
    rewrite <- Z.add_assoc.
    destruct (record_size_spec (zlen v) (zlen_nonneg v)) as [? _].
    eapply wpr_bind_reads; [apply (reads_src capacity img Hcap src Hsrc); try done; mlia | | done].
    intros body ->. rewrite (slice_slice sarea (o + KV_HEADER) (record_size (zlen v) - KV_HEADER) 0 (zlen v)), Z.add_0_r by mlia.
    destruct (negb (entry_crc _ _ =? _)); [done|].
    apply wpr_bind, wpr_get. rewrite (proj2 (Z.ltb_ge _ _)) by lia.
    assert (Hcat : slice sarea o KV_HEADER ++ slice sarea (o + KV_HEADER) (record_size (zlen v) - KV_HEADER) =
                   slice sarea o (record_size (zlen v))).
    { rewrite <- slice_split by mlia. f_equal. lia. }
    rewrite Hcat. destruct dst_geometry as (Hdb & Hde & Hdal & Hn & _ & _).
    assert (Htl : zlen (slice sarea o (record_size (zlen v))) = record_size (zlen v)) by (apply zlen_slice; lia).
    pose proof (packed_size_nonneg k).
    apply wpr_bind, wpr_lift. rewrite Hw. apply (wp_half_wr img dbase n); try done; try lia.
    + apply (Log_bounds _ _ _ _ Hdl Hdok); [lia | lia |]. by exists 0.
    + by rewrite Htl.
    + auto with tower.
    + unfold set_copy. apply wpr_bind, wpr_bind, wpr_get, wpr_put.
      replace (k ++ (o, (t, v)) :: l3) with ((k ++ [(o, (t, v))]) ++ l3) by (by rewrite <- app_assoc).
      eapply wpr_conseq; [apply (IH _ (k ++ [(o, (t, v))])); try done; try lia|].
      * apply (Packed_copy capacity img Hcap Hok src Hsrc); try done; lia.
      * rewrite packed_size_app. simpl. lia.
      * rewrite packed_size_app. simpl. lia.
      * intros r st' img' _ (darea' & -> & ? & ? & Hp & Hr'). exists darea'. split_and!; try done; apply Hp.
    + intros er darea' Htorn Hz'. exists darea'. pose proof (same_plan_refl st). split_and!; try done.
      destruct Htorn as [->|(kk & g & ? & ? & Hg & Hgb & _ & ->)]; [done|].
      apply bytes_ok_patch; [done|]. apply bytes_ok_app. split; [auto with tower | done].
Qed.

(** ** One step *)

(** Bytes of blanking and copying the plan has behind it. *)
Definition progress (st : FlipState) : Z := blank_off st + write_off st + rec_copied st.

Lemma ci_start l1 st darea :
  Log sarea 0 l1 (src_end st) -> zlen darea = n -> bytes_ok darea -> zero_upto darea n ->
  read_off st = 0 -> write_off st = 0 -> rec_copied st = 0 -> CI l1 st darea [] l1.
Proof.
  intros Hl Hz Hok' H0 Hr Hw Hc. destruct dst_geometry as (_ & _ & _ & Hn & _ & _).
  rewrite <- Hz in H0. apply zero_upto_all in H0. rewrite Hz in H0.
  constructor; rewrite ?Hr, ?Hw, ?Hc; simpl; try done.
  - constructor.
  - constructor.
  - split; [lia | by exists 0].
  - by left.
  - set (d := dirty (latest st) l1). assert (0 <= d).
    { unfold d, dirty. destruct (keep (latest st) l1) as [|x ?]; [done|].
      destruct (record_size_spec (zlen x.2.2) (zlen_nonneg x.2.2)). pose proof (zlen_nonneg x.2.2). lia. }
    rewrite H0. destruct (Z.le_gt_cases d n); [apply slice_zeros; lia|].
    unfold slice, zeros. rewrite !Z.add_0_l, !(Z2Nat.nonpos (n - d)) by lia. done.
Qed.

Lemma ci_bounds l1 st darea k1 k2 :
  CI l1 st darea k1 k2 -> 0 <= read_off st <= n /\ 0 <= write_off st /\ 0 <= rec_copied st /\
  write_off st + rec_copied st <= n.
Proof.
  intros HC. destruct sarea_ok as [Hsb Hsz]. destruct (ci_rc _ _ _ _ _ _ _ HC) as [? _].
  destruct dst_geometry as (_ & _ & _ & Hn & _ & _).
  destruct (Log_bounds _ _ _ _ (ci_done _ _ _ _ _ _ _ HC) Hsb) as [? _]; [lia | apply zlen_nonneg|].
  pose proof (ci_write _ _ _ _ _ _ _ HC). pose proof (packed_size_nonneg (keep (latest st) k1)).
  pose proof (packed_size_keep (latest st) k1). pose proof (Log_packed _ _ _ _ (ci_done _ _ _ _ _ _ _ HC)).
  destruct (ci_mid _ _ _ _ _ _ _ HC) as [?|([o [t v]] & k2' & -> & ? & ?)]; [lia|].
  destruct (ci_head _ _ _ _ _ _ _ _ HC) as (? & ? & ? & ? & ? & _). simpl in *. lia.
Qed.

Lemma plan_progress l1 st darea : PlanInv n sarea l1 st darea -> 0 <= progress st <= 2 * n.
Proof.
  intros [_ _ [Hb _] _ _ Hc]. unfold progress. destruct (blank_off st <? n).
  - destruct Hc as (_ & -> & -> & _). lia.
  - destruct Hc as (k1 & k2 & HC). pose proof (ci_bounds _ _ _ _ _ HC). lia.
Qed.

Definition fstep_post (l1 : list entry) (st : FlipState) (budget : Z) (r : result (KvError E) bool)
    (st' : FlipState) (img' : list Z) : Prop :=
  exists darea', img' = dst darea' /\ same_plan st st' /\ PlanInv n sarea l1 st' darea' /\
    match r with
    | Ok true => 4 * budget <= progress st' - progress st
    | Ok false => n <= blank_off st' /\ CI l1 st' darea' l1 []
    | Err (Backend _) => True
    | Err _ => False
    end.

(** The copying phase, entered with blanking done. *)
Lemma fstep_copy l1 st0 st darea b budget k1 k2 :
  CI l1 st darea k1 k2 -> Log sarea 0 l1 (src_end st) -> latest st = latest_of l1 -> same_plan st0 st ->
  blank_off st = n -> 0 <= b <= budget -> budget <= u32_max -> 4 * (budget - b) <= progress st - progress st0 ->
  wpr (step_loop (Z.to_nat n + 1) sbase dbase n b) (fstep_post l1 st0 budget) st (dst darea).
Proof.
  intros HC Hl Hlat Hp Hbl Hb Hbu Hpr. destruct (ci_bounds _ _ _ _ _ HC) as (? & _).
  destruct dst_geometry as (_ & _ & _ & Hn & _ & Hna).
  eapply wpr_conseq; [eapply (wpr_step_loop _ b l1 st darea k1 k2); try done; lia|].
  intros r st' img' _ (darea' & k1' & k2' & -> & Hp' & Hbl' & HC' & Hr).
  pose proof (same_plan_trans _ _ _ Hp Hp') as Hp2. destruct Hp' as (Es & Eg & Ee & El).
  exists darea'. split; [done|]. split; [done|]. split.
  - constructor; rewrite ?Ee, ?El; try done; rewrite ?Hbl', ?Hbl; try done; try lia.
    + apply HC'.
    + apply HC'.
    + rewrite Z.ltb_irrefl. by exists k1', k2'.
  - unfold progress in *. destruct r as [[]|[]]; try done; [lia|].
    subst k2'. pose proof (ci_split _ _ _ _ _ _ _ HC') as Hs. rewrite app_nil_r in Hs. subst k1'.
    split; [lia | done].
Qed.

Lemma wpr_flip_step budget l1 st darea :
  active_of capacity img = Some (src, src_gen st) -> src_h st = src -> PlanInv n sarea l1 st darea ->
  0 <= budget <= u32_max ->
  wpr (flip_step capacity budget) (fstep_post l1 st budget) st (dst darea).
Proof.
  intros Hact Hh HP Hb. pose proof HP as [Hl Hlat [Hbr Hba] Hz Hdok Hc].
  destruct (dst_invisible capacity img src (src_gen st) darea Hcap Hact Hz) as (_ & Hact' & Hzl & _ & _).
  assert (Herr : forall er, fstep_post l1 st budget (Err (Backend er)) st (dst darea)).
  { intros er. exists darea. pose proof (same_plan_refl st). by split_and!. }
  unfold flip_step. apply wpr_bind, wpr_get. rewrite Hh.
  eapply wpr_bind_reads with (P := fun b => b = true); [| | done].
  { eapply reads_bind; [apply reads_active; destruct Hcap as (? & ? & ?); split_and!; try done; lia|].
    intros a ->. apply reads_ret. rewrite Hact', Hh. by apply bool_decide_eq_true. }
  intros ? ->. cbn [negb]. destruct dst_geometry as (Hdb & Hde & Hdal & Hn & Hn30 & Hna).
  destruct (blank_off st <? n) eqn:Hbl; bool_hyps.
  - destruct Hc as (Hr & Hw & Hrc & Hzero). do 2 apply wpr_bind. apply wpr_lift.
    eapply wp_conseq; [apply (wp_blank_step_span img dbase n); try done; lia|].
    intros [[p b]|[]] img1 _ (darea1 & -> & H); try done.
    + destruct H as (Hz1 & Hok1 & Hzero1 & Hp & Hpa & _ & Hstop & Hbb & Hbud).
      unfold set_blank_off. apply wpr_bind, wpr_bind, wpr_get, wpr_put, wpr_ret.
      destruct (p <? n) eqn:Hpn; bool_hyps.
      * apply wpr_ret. exists darea1. split; [done|]. split; [by split_and!|]. split.
        -- constructor; cbn [src_end latest blank_off read_off write_off rec_copied]; try done; [split; [lia | done] |].
           by rewrite (proj2 (Z.ltb_lt p n)) by lia.
        -- unfold progress. simpl. lia.
      * assert (p = n) as -> by lia. eapply fstep_copy with (k1 := []) (k2 := l1); simpl; try done.
        -- apply ci_start; done.
        -- lia.
        -- unfold progress. simpl. lia.
    + destruct H as (Hz1 & Hok1 & Hzero1). exists darea1. split; [done|]. split; [apply same_plan_refl|].
      split; [|done]. constructor; try done. by rewrite (proj2 (Z.ltb_lt (blank_off st) n)) by lia.
  - destruct Hc as (k1 & k2 & HC). apply wpr_bind, wpr_ret.
    eapply fstep_copy; try done; lia || apply same_plan_refl.
Qed.
End Steps.
