(* ===== verification/KvCommit.v ===== *)
(** The incremental flip as a whole: what [flip_start] plans, [flip_step] keeps and [flip_commit]
    makes active, stated over the store's image. *)
From stdpp Require Import gmap.
From S2P Require Import Prelude Bytes Crc Kv KvWp KvLog KvScan KvAppend KvFlip KvMaint.

(** A log read up to some point continues to the log end. *)
Lemma Log_rest area l1 m l e :
  bytes_ok area -> Log area 0 l1 m -> FullLog area l e ->
  exists l2, l = l1 ++ l2 /\ Log area m l2 e.
Proof.
  intros Hok H1 [Hl He]. destruct (Log_bounds _ _ _ _ H1 Hok) as [Hm _]; [lia | apply zlen_nonneg|].
  destruct (log_from_spec (length area + 1) area m Hok) as [H2 He2]; [lia | unfold zlen; lia|].
  destruct (Log_unique _ _ _ _ _ _ Hl He (Log_app _ _ _ _ _ _ H1 H2) He2) as [-> ->].
  by eexists.
Qed.

Lemma view_app l k : view (l ++ k) = fold_left apply_entry k (view l).
Proof. unfold view. by rewrite fold_left_app. Qed.

(** Packing the live prefix and then copying the rest verbatim keeps the map. *)
Lemma view_keep_tail area o l1 m l2 :
  Log area o l1 m -> view (pack 0 (keep (latest_of l1) l1 ++ l2)) = view (l1 ++ l2).
Proof. intros Hl. rewrite view_pack, !view_app. f_equal. by eapply view_keep. Qed.

Section Commit.
Context {S E : Type} `{!Eeprom S E} `{!EepromLaws S E}.
Context (capacity : Z).

#[local] Abbreviation n := (half_len capacity).

Lemma dst_self img src : cap_ok capacity img -> half_ok src ->
  with_dst capacity img src (half_area capacity img (1 - src)) = img.
Proof.
  intros Hcap Hsrc. destruct (half_base_range capacity img Hcap (1 - src) (dst_ok src Hsrc)) as (? & ? & _).
  pose proof (half_len_pos capacity img Hcap). apply patch_slice_id; lia.
Qed.

Lemma with_dst_again img src a b : cap_ok capacity img -> half_ok src -> zlen a = n -> zlen b = n ->
  with_dst capacity (with_dst capacity img src a) src b = with_dst capacity img src b.
Proof.
  intros Hcap Hsrc Ha Hb. destruct (half_base_range capacity img Hcap (1 - src) (dst_ok src Hsrc)) as (? & ? & _).
  unfold with_dst, with_half. apply patch_patch_same; lia.
Qed.

Lemma cap_ok_zlen img img' : cap_ok capacity img -> zlen img' = zlen img -> cap_ok capacity img'.
Proof. unfold cap_ok. by intros ? ->. Qed.

(** What the commit leaves: on success the other half, one generation on, holds the live records
    planned and then every record appended since, and the map is the same at every point. *)
Definition fcommit_post (img : list Z) (src g : Z) (l1 : list entry) (r : result (KvError E) unit)
    (img' : list Z) : Prop :=
  zlen img' = zlen img /\ kview capacity img' = kview capacity img /\ active_of capacity img' <> None /\
  match r with
  | Ok _ => g < u32_max ->
      active_of capacity img' = Some (1 - src, g + 1) /\
      exists l2, (log (half_area capacity img src)).1 = l1 ++ l2 /\
        log (half_area capacity img' (1 - src)) =
          (pack 0 (keep (latest_of l1) l1 ++ l2), packed_size (keep (latest_of l1) l1 ++ l2))
  | Err (Backend _) => True
  | Err _ => False
  end.

(** The superblock write over a destination that holds the whole map. *)
Lemma wp_commit_packed img src g l1 l2 area :
  cap_ok capacity img -> bytes_ok img -> active_of capacity img = Some (src, g) ->
  (log (half_area capacity img src)).1 = l1 ++ l2 -> Log (half_area capacity img src) 0 (l1 ++ l2)
    (log (half_area capacity img src)).2 ->
  (exists m, Log (half_area capacity img src) 0 l1 m) ->
  Packed capacity (keep (latest_of l1) l1 ++ l2) area ->
  wp (write_gen capacity (1 - src) (wrap32 (g + 1)))
     (fun r img' => fcommit_post img src g l1 r img') (with_dst capacity img src area).
Proof.
  intros Hcap Hok Hact Hlog Hl [m Hl1] HP. pose proof HP as (Hz & Hab & _).
  destruct (dst_invisible capacity img src g area Hcap Hact Hz) as (Hk2 & Hact2 & Hzl2 & Hs2 & Hd2).
  set (K := keep (latest_of l1) l1 ++ l2) in *.
  assert (Hsz : 0 <= packed_size K <= n).
  { split; [apply packed_size_nonneg|]. unfold K. rewrite packed_size_app.
    pose proof (packed_size_keep (latest_of l1) l1). pose proof (Log_packed _ _ _ _ Hl) as He.
    rewrite packed_size_app in He.
    assert (Hsb : bytes_ok (half_area capacity img src)) by (unfold half_area; auto with tower).
    destruct (FullLog_bounds _ _ _ Hsb (log_full _ Hsb)) as [Hb _].
    rewrite (zlen_half_area capacity img Hcap) in Hb by (by eapply active_half). lia. }
  pose proof (FullLog_log _ _ _ Hab (Packed_full capacity K area HP Hsz)) as Hpk.
  assert (Hsame : view (log area).1 = kview capacity img).
  { rewrite Hpk. simpl. unfold K. rewrite (view_keep_tail _ _ _ _ _ Hl1). unfold kview. by rewrite Hact, Hlog. }
  apply wp_ok. intros Hok2.
  eapply wp_conseq; [apply (wp_commit capacity _ src g); try done; by apply (cap_ok_zlen img)|].
  intros r img3 _ (Hz3 & Hne3 & Hh3 & Hk3 & Hr3).
  assert (Hk3' : kview capacity img3 = kview capacity img).
  { rewrite Hk2, Hd2, Hsame in Hk3. by destruct Hk3. }
  unfold fcommit_post. rewrite Hz3, Hzl2. split_and!; try done.
  destruct r as [[]|[]]; try done. intros Hlt. split; [by apply Hr3|]. exists l2.
  split; [done|]. rewrite Hh3 by (apply dst_ok; by eapply active_half). by rewrite Hd2.
Qed.

(** With the largest budget a step always completes. *)
Lemma step_done img src l1 st st' darea darea' :
  cap_ok capacity img -> bytes_ok img -> half_ok src -> same_plan st st' ->
  PlanInv n (half_area capacity img src) l1 st darea ->
  PlanInv n (half_area capacity img src) l1 st' darea' ->
  4 * u32_max <= progress st' - progress st -> False.
Proof.
  intros Hcap Hok Hsrc _ HP HP' Hpr.
  pose proof (plan_progress capacity img Hcap Hok src Hsrc _ _ _ HP).
  pose proof (plan_progress capacity img Hcap Hok src Hsrc _ _ _ HP').
  destruct Hcap as (Hr & ? & ?). destruct (half_len_spec capacity Hr) as (? & ? & ? & _).
  change (2 ^ 30) with 1073741824 in *. mlia.
Qed.

(** The copy of a finished plan is the packed live set. *)
Lemma ci_packed sarea l1 st darea : CopyInv n sarea l1 st darea l1 [] -> Packed capacity (keep (latest st) l1) darea.
Proof.
  intros HC. destruct HC as [_ _ _ Hw Hz Hok Hl _ _ _ Hzero]. unfold dirty in Hzero. simpl in Hzero.
  rewrite Z.add_0_r in Hzero. rewrite Hw in Hl, Hzero. by split_and!.
Qed.

Lemma wpr_flip_commit img src l1 st darea :
  cap_ok capacity img -> bytes_ok img ->
  active_of capacity img = Some (src, src_gen st) -> src_h st = src ->
  PlanInv n (half_area capacity img src) l1 st darea ->
  wpr (flip_commit capacity) (fun r _ img' => fcommit_post img src (src_gen st) l1 r img') st
    (with_dst capacity img src darea).
Proof.
  intros Hcap Hok Hact Hh HP. pose proof (active_half _ _ _ _ Hact) as Hsrc.
  assert (Herr : forall er a, zlen a = n -> fcommit_post img src (src_gen st) l1 (Err (Backend er)) (with_dst capacity img src a)).
  { intros er a Hz. destruct (dst_invisible capacity img src _ a Hcap Hact Hz) as (? & Ha & ? & _).
    unfold fcommit_post. rewrite Ha. by split_and!. }
  assert (Hsb : bytes_ok (half_area capacity img src)) by (unfold half_area; auto with tower).
  pose proof (zlen_half_area capacity img Hcap src Hsrc) as Hsz.
  unfold flip_commit. apply wpr_bind. cbn [step_all]. apply wpr_bind.
  eapply wpr_conseq; [apply (wpr_flip_step capacity img Hcap Hok src Hsrc u32_max l1); try done; mlia|].
  intros [[]|[]] st1 img1 _ (darea1 & -> & Hp & HP1 & Hr); try done.
  - exfalso. by eapply (step_done img src l1 st st1).
  - destruct Hr as [_ HC]. apply wpr_ret, wpr_bind, wpr_get.
    destruct Hp as (Es & Eg & Ee & El). rewrite Es, Eg, Hh.
    pose proof (log_full _ Hsb) as Hfull. set (l := (log (half_area capacity img src)).1) in *.
    set (e := (log (half_area capacity img src)).2) in *.
    destruct (Log_rest _ l1 (src_end st1) l e Hsb) as (l2 & Hll & Hl2); [apply HP1 | done|].
    destruct (FullLog_bounds _ _ _ Hsb Hfull) as [He _]. rewrite Hsz in He.
    destruct (Log_bounds _ _ _ _ (pi_log _ _ _ _ _ HP1) Hsb) as [Hse _]; [lia | apply zlen_nonneg|].
    rewrite Hsz in Hse. pose proof (ci_packed _ _ _ _ HC) as HPk.
    rewrite (pi_latest _ _ _ _ _ HP1) in HPk.
    pose proof (ci_write _ _ _ _ _ _ _ HC) as Hw. rewrite (pi_latest _ _ _ _ _ HP1) in Hw.
    pose proof (packed_size_keep (latest_of l1) l1). pose proof (Log_packed _ _ _ _ (pi_log _ _ _ _ _ HP1)).
    apply wpr_bind. eapply wpr_conseq.
    { eapply (wpr_tail_loop capacity img Hcap Hok src Hsrc l e Hfull) with (l2 := l2); try done; lia. }
    intros [[]|[]] st2 img2 _ (darea2 & -> & Hz2 & Ha2 & Hp2 & Hpost); try done; [|by apply Herr].
    apply wpr_lift. eapply wp_commit_packed with (l2 := l2); try done.
    + rewrite <- Hll. apply Hfull.
    + eexists. apply HP1.
  - apply Herr. apply HP1.
Qed.
End Commit.
