(* ===== verification/KvLive.v ===== *)
(** The live set as a function of the map: the space a compacted log takes, and what the
    incremental plan and the store's other operations leave unchanged. *)
From stdpp Require Import gmap.
From S2P Require Import Prelude Bytes Crc Kv KvWp KvLog KvScan KvAppend KvFlip KvMaint KvCommit.

(** ** The size of a map *)

(** Bytes the records of a map take, packed. *)
Definition live_size (m : gmap Z (list Z)) : Z :=
  map_fold (fun _ v acc => record_size (zlen v) + acc) 0 m.

Lemma live_size_insert m k v : m !! k = None -> live_size (<[k := v]> m) = record_size (zlen v) + live_size m.
Proof. intros. unfold live_size. rewrite map_fold_insert_L; [done | intros; lia | done]. Qed.

Definition keys (l : list entry) : list Z := map (fun x : entry => x.2.1) l.

Lemma find_last_key k l : find_last k l = None <-> ~ In k (keys l).
Proof.
  rewrite find_last_None. unfold keys. rewrite in_map_iff. split.
  - intros H (x & Hx & Hin). by apply (H x).
  - intros H x Hin Hx. apply H. by exists x.
Qed.

(** A log of distinct keys without tombstones takes exactly the space of its map. *)
Lemma live_size_nodup l :
  NoDup (keys l) -> (forall x, In x l -> x.2.2 <> []) -> packed_size l = live_size (view l).
Proof.
  induction l as [|[o [k v]] l IH] using rev_ind; intros Hnd Hne; [done|].
  unfold keys in Hnd. rewrite List.map_app in Hnd. apply list.NoDup_app in Hnd as (Hnd & Hdis & _).
  rewrite packed_size_app, view_snoc. unfold apply_entry. simpl.
  assert (v <> []) as Hv by (apply (Hne (o, (k, v))), List.in_or_app; right; by left).
  rewrite bool_decide_false by done. rewrite live_size_insert.
  - rewrite IH; [lia | done|]. intros x Hx. apply Hne, List.in_or_app. by left.
  - rewrite view_lookup. destruct (find_last k l) as [[o' v']|] eqn:Hf; [|done]. exfalso.
    apply (Hdis k); [|apply list_elem_of_singleton; done]. apply list_elem_of_In.
    apply find_last_In in Hf. apply in_map_iff. by exists (o', (k, v')).
Qed.

Lemma Log_offsets_NoDup area o l e : Log area o l e -> bytes_ok area -> 0 <= o <= zlen area -> NoDup (map fst l).
Proof.
  intros H Hok. induction H as [|o t v l e Hr H IH]; intros Ho; [constructor|].
  pose proof (rec_at_Some _ _ _ _ Hr Hok ltac:(lia)) as (_ & _ & Hfit & _).
  destruct (record_size_spec (zlen v) (zlen_nonneg v)) as [Hs _]. pose proof (zlen_nonneg v).
  simpl. apply list.NoDup_cons. split; [|apply IH; lia]. rewrite list_elem_of_In, in_map_iff.
  intros (x & Hx & Hin). destruct (Log_In_range _ _ _ _ x H Hok) as [? _]; [lia | lia | done | lia].
Qed.

Lemma NoDup_map_of {A B C} (f : A -> B) (g : A -> C) l :
  NoDup (map f l) -> (forall x y, In x l -> In y l -> g x = g y -> f x = f y) -> NoDup (map g l).
Proof.
  induction l as [|x l IH]; simpl; intros Hnd Hfg; [constructor|].
  apply list.NoDup_cons in Hnd as [Hni Hnd]. apply list.NoDup_cons. split; [|apply IH; auto].
  rewrite list_elem_of_In, in_map_iff. intros (y & Hy & Hin). apply Hni, list_elem_of_In, in_map_iff. exists y.
  split; [|done]. apply Hfg; auto.
Qed.

Lemma NoDup_map_filter {A B} (f : A -> B) (p : A -> bool) l : NoDup (map f l) -> NoDup (map f (List.filter p l)).
Proof.
  induction l as [|x l IH]; simpl; [done|]. intros [Hni Hnd]%list.NoDup_cons.
  destruct (p x); [|by apply IH]. simpl. apply list.NoDup_cons. split; [|by apply IH].
  rewrite list_elem_of_In, in_map_iff. intros (y & Hy & [Hin _]%List.filter_In).
  apply Hni, list_elem_of_In, in_map_iff. by exists y.
Qed.

(** The live set of a log takes exactly the space of the map it holds. *)
Lemma live_size_keep area l e :
  Log area 0 l e -> bytes_ok area -> packed_size (keep (latest_of l) l) = live_size (view l).
Proof.
  intros Hl Hok. rewrite <- (view_keep area 0 l e Hl). destruct (latest_of_spec l) as [_ Hlat].
  apply live_size_nodup.
  - unfold keys. apply (NoDup_map_of fst).
    + apply NoDup_map_filter. eapply Log_offsets_NoDup; [done | done|]. pose proof (zlen_nonneg area). lia.
    + intros x y [Hx Hkx]%List.filter_In [Hy Hky]%List.filter_In He. apply andb_true_iff in Hkx as [_ Hkx], Hky as [_ Hky].
      apply planned_spec, Hlat in Hkx as [v Hv]. apply planned_spec, Hlat in Hky as [w Hw].
      rewrite He, Hw in Hv. by injection Hv as ->.
  - intros x [Hx Hkx]%List.filter_In Hv. unfold keeps in Hkx. rewrite Hv in Hkx. done.
Qed.

(** ** Locality of the plan *)

Lemma PlanInv_local n sarea sarea' l1 st darea e :
  PlanInv n sarea l1 st darea -> bytes_ok sarea -> zlen sarea' = zlen sarea -> zlen sarea = n ->
  src_end st <= e <= n -> slice sarea' 0 e = slice sarea 0 e -> PlanInv n sarea' l1 st darea.
Proof.
  intros [Hl Hlat Hb Hz Hok Hc] Hsb Hzs Hn He Hlow.
  assert (Hsub : forall i k, 0 <= i -> 0 <= k -> i + k <= e -> slice sarea' i k = slice sarea i k).
  { intros i k Hi Hk Hik. replace i with (0 + i) by lia.
    rewrite <- (slice_slice sarea' 0 e), <- (slice_slice sarea 0 e) by lia. by rewrite Hlow. }
  assert (Hloc : forall o m f, Log sarea o m f -> 0 <= o -> f <= e -> Log sarea' o m f).
  { intros o m f Hlog Ho Hf. pose proof (Log_packed _ _ _ _ Hlog). pose proof (packed_size_nonneg m).
    eapply Log_local; try done; [lia | apply Hsub; lia]. }
  constructor; try done.
  - apply Hloc; [done | lia | lia].
  - destruct (blank_off st <? n); [done|]. destruct Hc as (k1 & k2 & [C1 C2 C3 C4 C5 C6 C7 C8 C9 C10 C11]).
    destruct (Log_bounds _ _ _ _ C2 Hsb) as [? _]; [lia | lia|].
    destruct (Log_bounds _ _ _ _ C3 Hsb) as [? _]; [lia | lia|].
    exists k1, k2. constructor; try done.
    + apply Hloc; [done | lia | lia].
    + apply Hloc; [done | lia | lia].
    + rewrite C9. symmetry. destruct C10 as [->|([o [t v]] & k2' & -> & _ & Hrc)]; [by rewrite !slice_0|].
      inversion C3 as [|o' t' v' l' e' Hr' Hl']; subst. simpl in *.
      pose proof (rec_at_Some _ _ _ _ Hr' Hsb ltac:(lia)) as (_ & _ & Hfit & _).
      destruct (record_size_spec (zlen v) (zlen_nonneg v)) as [Hs _]. pose proof (zlen_nonneg v).
      destruct (Log_bounds _ _ _ _ Hl' Hsb) as [? _]; [lia | lia|]. apply Hsub; lia.
Qed.
