(* ===== verification/KvSpec.v ===== *)
(** The operations of the store against its map [kview]: [set_bytes], [delete], [get_bytes],
    [compact], [flip_start]; each also when the backend fails or power is cut inside it. *)
From stdpp Require Import gmap.
From S2P Require Import Prelude Bytes Crc Kv KvWp KvLog KvScan KvAppend KvFlip KvMaint KvCommit KvLive.

(** [set key value]: an empty value is a tombstone. *)
Definition upd (key : Z) (value : list Z) (m : gmap Z (list Z)) : gmap Z (list Z) :=
  if bool_decide (value = []) then base.delete key m else <[key := value]> m.

Definition PendInv (capacity : Z) (img : list Z) (pending : option FlipState) : Prop :=
  match pending with Some st => FlipInv capacity img st | None => True end.

(** The generation counter has room for two more flips. *)
Definition gen_room (capacity : Z) (img : list Z) : Prop :=
  match active_of capacity img with Some (_, g) => g + 1 < u32_max | None => True end.

Section Spec.
Context {S E : Type} `{!Eeprom S E} `{!EepromLaws S E}.
Context (capacity : Z).
#[local] Abbreviation n := (half_len capacity).

(** A garbled header word reads as a record behind the log of [m]. *)
Definition phantom_end (m : gmap Z (list Z)) (img : list Z) : Prop :=
  exists h g l e, active_of capacity img = Some (h, g) /\ Log (half_area capacity img h) 0 l e /\
    view l = m /\ phantom (half_area capacity img h) e.

(** An update that was cut: not done, done, or a phantom at the log end. *)
Definition cut_set (key : Z) (value : list Z) (img img' : list Z) : Prop :=
  kview capacity img' = kview capacity img \/ kview capacity img' = upd key value (kview capacity img) \/
  phantom_end (kview capacity img) img'.

Definition append_post (key : Z) (value : list Z) (img : list Z) (r : result (KvError E) unit)
    (img' : list Z) : Prop :=
  zlen img' = zlen img /\ active_of capacity img' = active_of capacity img /\
  (forall st, FlipInv capacity img st -> FlipInv capacity img' st) /\
  match r with
  | Ok _ => kview capacity img' = upd key value (kview capacity img)
  | Err (Backend _) => cut_set key value img img'
  | Err _ => False
  end.

Lemma half_area_ok img h : bytes_ok img -> bytes_ok (half_area capacity img h).
Proof. intros. unfold half_area. auto with tower. Qed.

(** A pending plan survives an append to its source half. *)
Lemma FlipInv_append img h g l e area' st :
  cap_ok capacity img -> bytes_ok img -> active_of capacity img = Some (h, g) ->
  FullLog (half_area capacity img h) l e -> zlen area' = n ->
  slice area' 0 e = slice (half_area capacity img h) 0 e ->
  FlipInv capacity img st -> FlipInv capacity (with_half img (half_base capacity h) area') st.
Proof.
  intros Hcap Hok Hact Hfull Hz Hlow [Hne HF]. pose proof (active_half _ _ _ _ Hact) as Hh.
  destruct (half_change capacity img Hcap h area' Hh Hz) as (Ha & Hs & Hd & _).
  split; [by rewrite Ha|]. rewrite Ha. intros Hst. destruct (HF Hst) as [l1 HP]. exists l1.
  rewrite Hact in Hst. injection Hst as -> ->. rewrite Hs, Hd.
  pose proof (half_area_ok img (src_h st) Hok) as Hsb.
  pose proof (zlen_half_area capacity img Hcap _ Hh) as Hsz.
  destruct (FullLog_bounds _ _ _ Hsb Hfull) as [He _]. rewrite Hsz in He.
  destruct (Log_rest _ _ _ _ _ Hsb (pi_log _ _ _ _ _ HP) Hfull) as (l2 & _ & Hl2).
  destruct (Log_bounds _ _ _ _ (pi_log _ _ _ _ _ HP) Hsb) as [? _]; [lia | lia|].
  destruct (Log_bounds _ _ _ _ Hl2 Hsb) as [? _]; [lia | lia|].
  eapply PlanInv_local; try done; [by rewrite Hz | lia].
Qed.

Lemma wp_append_active img h g key value :
  cap_ok capacity img -> active_of capacity img = Some (h, g) ->
  0 < key <= 65535 -> bytes_ok value -> zlen value <= MAX_VALUE ->
  (log (half_area capacity img h)).2 + record_size (zlen value) <= n ->
  wp (append_end (half_base capacity h) n (log (half_area capacity img h)).2 key value)
     (append_post key value img) img.
Proof.
  intros Hcap Hact Hkey Hval Hlen Hroom. apply wp_ok. intros Hok.
  pose proof (active_half _ _ _ _ Hact) as Hh. pose proof (half_area_ok img h Hok) as Hab.
  destruct (half_base_range capacity img Hcap h Hh) as (? & ? & ? & _).
  pose proof (half_len_pos capacity img Hcap).
  pose proof (zlen_half_area capacity img Hcap h Hh) as Hz.
  pose proof (log_full _ Hab) as Hfull. set (area := half_area capacity img h) in *.
  set (l := (log area).1) in *. set (e := (log area).2) in *.
  destruct (FullLog_bounds _ _ _ Hab Hfull) as [He Hea].
  assert (Hself : with_half img (half_base capacity h) area = img) by (apply patch_slice_id; lia).
  apply (wp_at _ _ _ _ Hself). eapply wp_conseq.
  { apply (wp_append_end img _ n) with (l := l) (low := slice area 0 e); try done; lia. }
  intros r img' _ (area' & -> & (Hz' & Hok' & Hl' & Hlow) & Hr).
  destruct (half_change capacity img Hcap h area' Hh Hz') as (Ha & Hs & _ & Hzl & _).
  assert (Hkv : forall l' e', FullLog area' l' e' ->
    kview capacity (with_half img (half_base capacity h) area') = view l').
  { intros l' e' HF. unfold kview. rewrite Ha, Hact, Hs. by rewrite (FullLog_log _ _ _ Hok' HF). }
  assert (Hold : kview capacity img = view l) by (unfold kview; by rewrite Hact).
  assert (Hnew : appended l e key value area' ->
    kview capacity (with_half img (half_base capacity h) area') = upd key value (kview capacity img)).
  { intros HA. rewrite (Hkv _ _ HA), view_snoc, Hold. done. }
  split; [done|]. split; [done|]. split.
  - intros st. by apply (FlipInv_append img h g l e).
  - destruct r as [[]|[]]; try done; [by apply Hnew|].
    destruct Hr as [Hu|[HA|[HL HP]]]; [left; by rewrite (Hkv _ _ Hu) | right; left; by apply Hnew | right; right].
    exists h, g, l, e. rewrite Ha, Hs. by split_and!.
Qed.

(** Why an update can be refused: the live data does not leave room for it (or the generation
    counter is used up). *)
Definition no_room (value : list Z) (img : list Z) : Prop :=
  n < live_size (kview capacity img) + record_size (zlen value) \/ ~ gen_room capacity img.
Definition too_many_keys (img : list Z) : Prop :=
  match active_of capacity img with
  | Some (h, _) => MAX_KEYS < zlen (latest_of (log (half_area capacity img h)).1)
  | None => False
  end.

Definition set_post (key : Z) (value : list Z) (img : list Z) (r : result (KvError E) unit)
    (pending' : option FlipState) (img' : list Z) : Prop :=
  zlen img' = zlen img /\ PendInv capacity img' pending' /\
  (active_of capacity img <> None -> active_of capacity img' <> None) /\
  match r with
  | Ok _ => kview capacity img' = upd key value (kview capacity img) /\ 0 < key /\ zlen value <= MAX_VALUE
  | Err InvalidKey => key = 0 /\ img' = img
  | Err ValueTooLarge => MAX_VALUE < zlen value /\ img' = img
  | Err Full => kview capacity img' = kview capacity img /\ no_room value img
  | Err TooManyKeys => kview capacity img' = kview capacity img
  | Err Stale => False
  | Err (Backend _) => cut_set key value img img'
  end.

(** ** Mounting *)

(** [init] keeps the map; on success there is an active half, and a fresh region starts at
    generation 1 in half 0. *)
Definition init_post (img : list Z) (r : result (KvError E) unit) (img' : list Z) : Prop :=
  zlen img' = zlen img /\ kview capacity img' = kview capacity img /\
  (active_of capacity img <> None -> img' = img) /\
  match r with
  | Ok _ => active_of capacity img' =
      match active_of capacity img with Some a => Some a | None => Some (0, 1) end
  | Err (Backend _) => True
  | Err _ => False
  end.

Lemma log_empty area : bytes_ok area -> zlen area < 8 \/ slice area 0 4 = zeros 4 -> log area = ([], 0).
Proof.
  intros Hok Hz. apply FullLog_log; [done|]. split; [constructor|].
  destruct Hz as [Hz|Hz]; [|by apply rec_at_zero].
  unfold rec_at. destruct (zlen area <? 0 + KV_HEADER) eqn:Hf; [done|]. bool_hyps. mlia.
Qed.

(** With no valid superblock, writing one over an empty half gives an empty store. *)
Lemma wp_first_super img h :
  cap_ok capacity img -> half_ok h -> active_of capacity img = None -> log (half_area capacity img h) = ([], 0) ->
  wp (write_gen capacity h 1) (fun r img' =>
    zlen img' = zlen img /\ kview capacity img' = ∅ /\
    (forall i, half_ok i -> half_area capacity img' i = half_area capacity img i) /\
    match r with
    | Ok _ => active_of capacity img' = Some (h, 1)
    | Err (Backend _) => True
    | Err _ => False
    end) img.
Proof.
  intros Hcap Hh Hact Hlog. pose proof (dst_ok h Hh) as Hd.
  destruct (super_off_range capacity img Hcap h Hh) as (? & ? & ?). change SUPER_LEN with 12 in *.
  pose proof (zlen_super_bytes 1) as Hsb.
  assert (Hg1 : gen_of (super_slot capacity img (1 - h)) = None).
  { revert Hact. unfold active_of, pick. destruct Hh as [->| ->]; [change (1 - 0) with 1 | change (1 - 1) with 0];
    destruct (gen_of (super_slot capacity img 0)) as [a|], (gen_of (super_slot capacity img 1)) as [b|];
      try destruct (b <=? a); done. }
  assert (Hpick : forall img', gen_of (super_slot capacity img' (1 - h)) = None ->
    active_of capacity img' = option_map (fun g => (h, g)) (gen_of (super_slot capacity img' h))).
  { intros img' Hn. unfold active_of, pick. destruct Hh as [->| ->];
      [change (1 - 0) with 1 in Hn | change (1 - 1) with 0 in Hn]; rewrite Hn;
      [by destruct (gen_of (super_slot capacity img' 0)) | by destruct (gen_of (super_slot capacity img' 1))]. }
  assert (Hv : forall img',
    torn garble img (super_off capacity h) (super_bytes 1) img' \/ img' = patch img (super_off capacity h) (super_bytes 1) ->
    zlen img' = zlen img /\ kview capacity img' = ∅ /\ gen_of (super_slot capacity img' (1 - h)) = None /\
    (forall i, half_ok i -> half_area capacity img' i = half_area capacity img i)).
  { intros img' Himg. destruct (super_change capacity img Hcap garble h _ img' Hh Hsb Himg) as (Hhs & Hs & Hz).
    rewrite <- Hs in Hg1. split_and!; try done. unfold kview. rewrite Hpick by done.
    destruct (gen_of (super_slot capacity img' h)); simpl; [|done]. by rewrite (Hhs h Hh), Hlog. }
  unfold write_gen. apply wp_wr; try done; try lia.
  - rewrite Hsb. by exists 3.
  - apply super_bytes_ok.
  - set (img' := patch img _ _). destruct (Hv img') as (Hz & Hk & Hg & Hhs); [by right|]. split_and!; try done.
    rewrite Hpick by done. unfold super_slot, img'. change SUPER_LEN with 12.
    pose proof (slice_patch_same img (super_off capacity h) (super_bytes 1)) as Hs. rewrite Hsb in Hs.
    rewrite Hs by lia. by rewrite gen_of_super_bytes by mlia.
  - intros err img' Ht. destruct (Hv img') as (Hz & Hk & Hg & Hhs); [by left|]. by split_and!.
Qed.

Lemma wp_init img : cap_ok capacity img -> wp (init capacity) (init_post img) img.
Proof.
  intros Hcap. apply wp_ok. intros Hok. unfold init.
  eapply wp_bind_reads; [by apply reads_active | |].
  2: { intros e. by split_and!. }
  intros a ->. destruct (active_of capacity img) as [a|] eqn:Hact.
  { apply wp_ret. split; [done|]. split; [done|]. split; [done|]. by rewrite Hact. }
  assert (H0 : half_ok 0) by (by left).
  assert (Hk0 : kview capacity img = ∅) by (unfold kview; by rewrite Hact).
  destruct (half_base_range capacity img Hcap 0 H0) as (? & ? & ? & _).
  pose proof (zlen_half_area capacity img Hcap 0 H0) as Hz. pose proof (half_area_ok img 0 Hok) as Hab.
  assert (Hrun : forall img1, bytes_ok img1 -> zlen img1 = zlen img -> active_of capacity img1 = None ->
    log (half_area capacity img1 0) = ([], 0) -> wp (write_gen capacity 0 1) (init_post img) img1).
  { intros img1 Hok1 Hz1 Ha1 Hl1. eapply wp_conseq; [apply (wp_first_super img1 0); try done; by apply (cap_ok_zlen _ img)|].
    intros r img' _ (Hz' & Hk' & _ & Hr'). unfold init_post. rewrite Hact, Hk0, Hz', Hz1. by split_and!. }
  change KV_HEADER with 8. destruct (8 <=? n) eqn:Hn; bool_hyps; apply wp_bind.
  - assert (Hself : with_half img (half_base capacity 0) (half_area capacity img 0) = img) by (apply patch_slice_id; lia).
    apply (wp_at _ _ _ _ Hself). 
    replace (clear_word (half_base capacity 0)) with (clear_word (half_base capacity 0 + 0) : M S (KvError E) unit)
      by (by rewrite Z.add_0_r).
    assert (aligned 0) by (by exists 0).
    apply (wp_clear_word img _ n); try done; try lia.
    + destruct (half_change capacity img Hcap 0 (patch (half_area capacity img 0) 0 (zeros 4)) H0) as (Ha & Hs & _ & Hzl & _);
        [rewrite zlen_patch; rewrite ?Hz, ?zlen_zeros by lia; lia|].
      apply wp_ok. intros Hok1. apply Hrun; try done; [by rewrite Ha|]. rewrite Hs.
      apply log_empty; [auto with tower | right]. apply (slice_patch_same _ 0 (zeros 4)); change (zlen (zeros 4)) with 4; lia.
    + intros e g Hg Hgb _.
      destruct (half_change capacity img Hcap 0 (patch (half_area capacity img 0) 0 g) H0) as (Ha & Hs & _ & Hzl & _);
        [rewrite zlen_patch; lia|].
      unfold init_post. rewrite Hact. split_and!; try done. unfold kview. by rewrite Ha, Hact.
  - apply wp_ret, Hrun; try done. apply log_empty; [done | left; lia].
Qed.

(** ** Setting a value *)

Section Set_.
Context (key : Z) (value : list Z) (Hkey : 0 < key <= 65535) (Hval : bytes_ok value)
        (Hlen : zlen value <= MAX_VALUE).
Context (img : list Z) (Hcap : cap_ok capacity img).
#[local] Abbreviation needed := (record_size (zlen value)).

(** An image that differs from the initial one by work the map does not show. *)
Definition same_map (img' : list Z) : Prop :=
  zlen img' = zlen img /\ kview capacity img' = kview capacity img /\ active_of capacity img' <> None.

Lemma same_map_cap img' : same_map img' -> cap_ok capacity img'.
Proof. intros (? & _). by apply (cap_ok_zlen _ img). Qed.

Lemma same_map_post (r : result (KvError E) unit) img' :
  same_map img' -> match r with Err (Backend _) | Err TooManyKeys => True | Err Full => no_room value img | _ => False end ->
  set_post key value img r None img'.
Proof.
  intros (Hz & Hk & Ha) Hr. unfold set_post. split_and!; try done.
  destruct r as [[]|[]]; try done. by left.
Qed.

Lemma phantom_end_at img1 img2 :
  kview capacity img1 = kview capacity img -> cut_set key value img1 img2 -> cut_set key value img img2.
Proof. unfold cut_set. by intros ->. Qed.

(** The last check and the append, over an image that shows the same map. *)
Lemma wpr_set_append pend img1 h g :
  same_map img1 -> active_of capacity img1 = Some (h, g) -> PendInv capacity img1 pend ->
  (log (half_area capacity img1 h)).2 + needed <= n ->
  wpr (lift (append_end (half_base capacity h) n (log (half_area capacity img1 h)).2 key value))
    (set_post key value img) pend img1.
Proof.
  intros Hsm Hact HP Hroom. pose proof Hsm as (Hz & Hk & Ha). apply wpr_lift.
  eapply wp_conseq; [apply (wp_append_active img1 h g); try done; by apply same_map_cap|].
  intros r img2 _ (Hz2 & Ha2 & HF & Hr). unfold set_post. rewrite Hz2, Ha2. split_and!; try done.
  - destruct pend; [by apply HF | done].
  - destruct r as [[]|[]]; try done; [rewrite Hr, Hk; split_and!; try done; lia | by eapply phantom_end_at].
Qed.

Lemma wpr_set_end img1 h g :
  same_map img1 -> active_of capacity img1 = Some (h, g) ->
  (n < (log (half_area capacity img1 h)).2 + needed -> no_room value img) ->
  wpr (if n <? (log (half_area capacity img1 h)).2 + needed then fail Full
       else lift (append_end (half_base capacity h) n (log (half_area capacity img1 h)).2 key value))
    (set_post key value img) None img1.
Proof.
  intros Hsm Hact Hfull. destruct (n <? _) eqn:Hn; bool_hyps.
  - apply wpr_fail, same_map_post; [done | by apply Hfull].
  - by eapply wpr_set_append.
Qed.

(** A flip of an image that shows the same map. *)
Definition flipped (g : Z) (img1 img2 : list Z) (h' g' : Z) : Prop :=
  same_map img2 /\ active_of capacity img2 = Some (h', g') /\
  (g < u32_max -> g' = g + 1 /\ (log (half_area capacity img2 h')).2 = live_size (kview capacity img)).

Lemma wpr_flip_to {A} (k : A -> M (S * option FlipState) (KvError E) unit) (x : A) img1 h g :
  same_map img1 -> active_of capacity img1 = Some (h, g) ->
  (forall img2 h' g', bytes_ok img2 -> flipped g img1 img2 h' g' -> wpr (k x) (set_post key value img) None img2) ->
  wpr (lift (flip capacity h g) ;;; k x) (set_post key value img) None img1.
Proof.
  intros Hsm Hact Hk. pose proof Hsm as (Hz & Hkv & Ha). apply wpr_ok. intros Hok1.
  apply wpr_bind, wpr_lift. eapply wp_conseq; [apply (wp_flip capacity img1 h g); [by apply same_map_cap | done]|].
  intros r img2 Hok2 (Hz2 & Hk2 & Hne2 & Hr).
  assert (Hsm2 : same_map img2) by (split_and!; [by rewrite Hz2 | by rewrite Hk2 | done]).
  destruct r as [[]|[]]; try done; try (by apply same_map_post).
  destruct (active_of capacity img2) as [[h' g']|] eqn:Ha2; [|done].
  apply (Hk img2 h' g' Hok2). split; [done|]. split; [done|]. intros Hg. destruct (Hr Hg) as [[= -> ->] Hlog].
  split; [done|]. rewrite Hlog. simpl. pose proof (half_area_ok img1 h Hok1) as Hab.
  unfold live_set. rewrite (live_size_keep _ _ _ (proj1 (log_full _ Hab)) Hab). rewrite <- Hkv.
  unfold kview. by rewrite Hact.
Qed.
(** The part of [set_bytes_with] behind the first flip. *)
Definition set_rest (finished_pending : bool) : M (S * option FlipState) (KvError E) unit :=
  let! a2 := lift (active capacity) in
  match a2 with
  | None => fail Full
  | Some (h2, g2) =>
      let! (free2, _) := lift (scan_half (half_base capacity h2) n key) in
      let! (h2, free2) :=
        if (n <? free2 + needed) && finished_pending then
          lift (flip capacity h2 g2) ;;;
          let! a3 := lift (active capacity) in
          match a3 with
          | None => fail Full
          | Some (h3, _) =>
              let! (free3, _) := lift (scan_half (half_base capacity h3) n key) in
              ret (h3, free3)
          end
        else ret (h2, free2) in
      if n <? free2 + needed then fail Full
      else lift (append_end (half_base capacity h2) n free2 key value)
  end.

Lemma wpr_scan {A} (k : Z * option (Z * Z) -> M (S * option FlipState) (KvError E) A) Q pend img1 h g :
  cap_ok capacity img1 -> bytes_ok img1 -> active_of capacity img1 = Some (h, g) ->
  wpr (k ((log (half_area capacity img1 h)).2, found_of key (log (half_area capacity img1 h)).1)) Q pend img1 ->
  (forall e, Q (Err (Backend e)) pend img1) ->
  wpr (bind (lift (scan_half (half_base capacity h) n key)) k) Q pend img1.
Proof.
  intros Hc Hok Hact Hk He.
  eapply wpr_bind_reads; [apply reads_scan_active; try done; by eapply active_half | | done].
  by intros r ->.
Qed.

Lemma wpr_active {A} (k : option (Z * Z) -> M (S * option FlipState) (KvError E) A) Q pend img1 :
  cap_ok capacity img1 -> wpr (k (active_of capacity img1)) Q pend img1 ->
  (forall e, Q (Err (Backend e)) pend img1) -> wpr (bind (lift (active capacity)) k) Q pend img1.
Proof. intros Hc Hk He. eapply wpr_bind_reads; [by apply reads_active | | done]. by intros a ->. Qed.

Lemma same_map_backend img1 (e : E) : same_map img1 -> set_post key value img (Err (Backend e)) None img1.
Proof. intros. by apply same_map_post. Qed.

Lemma wpr_set_rest (fin : bool) img2 h2 g2 :
  same_map img2 -> active_of capacity img2 = Some (h2, g2) ->
  (if fin then gen_room capacity img -> g2 < u32_max
   else n < (log (half_area capacity img2 h2)).2 + needed -> no_room value img) ->
  wpr (set_rest fin) (set_post key value img) None img2.
Proof.
  intros Hsm Hact Hfin. apply wpr_ok. intros Hok2. unfold set_rest.
  apply wpr_active; [by apply same_map_cap | rewrite Hact | intros; by apply same_map_backend].
  eapply wpr_scan; try done; [by apply same_map_cap | | intros; by apply same_map_backend].
  destruct fin; rewrite ?andb_false_r, ?andb_true_r.
  2: { apply wpr_bind, wpr_ret. by eapply wpr_set_end. }
  destruct (n <? (log (half_area capacity img2 h2)).2 + needed) eqn:Hn; bool_hyps.
  2: { apply wpr_bind, wpr_ret. eapply wpr_set_end; try done. lia. }
  apply wpr_bind. eapply wpr_conseq with (Q := fun r t' img' =>
    t' = None /\ match r with
    | Ok (h3, free3) => same_map img' /\ (exists g3, active_of capacity img' = Some (h3, g3)) /\
        free3 = (log (half_area capacity img' h3)).2 /\ (g2 < u32_max -> free3 = live_size (kview capacity img))
    | Err x => set_post key value img (Err x) None img'
    end).
  - apply wpr_bind, wpr_lift. pose proof Hsm as (Hz & Hkv & Ha).
    eapply wp_conseq; [apply (wp_flip capacity img2 h2 g2); [by apply same_map_cap | done]|].
    intros r img3 Hok3 (Hz3 & Hk3 & Hne3 & Hr).
    assert (Hsm3 : same_map img3) by (split_and!; [by rewrite Hz3 | by rewrite Hk3 | done]).
    destruct r as [[]|[]]; try done; try (split; [done|]; by apply same_map_post).
    destruct (active_of capacity img3) as [[h3 g3]|] eqn:Ha3; [|done].
    apply wpr_active; [by apply same_map_cap | rewrite Ha3 | intros; split; [done | by apply same_map_backend]].
    eapply wpr_scan; try done; [by apply same_map_cap | | intros; split; [done | by apply same_map_backend]].
    apply wpr_ret. split; [done|]. split; [done|]. split; [by eexists|]. split; [done|].
    intros Hg. destruct (Hr Hg) as [[= -> ->] Hlog]. rewrite Hlog. simpl.
    pose proof (half_area_ok img2 h2 Hok2) as Hab. unfold live_set.
    rewrite (live_size_keep _ _ _ (proj1 (log_full _ Hab)) Hab), <- Hkv. unfold kview. by rewrite Hact.
  - intros [[h3 free3]|x] t' img3 _ [-> Hr]; [|done]. destruct Hr as (Hsm3 & [g3 Ha3] & -> & Hlive).
    eapply wpr_set_end; try done. intros Hover. unfold no_room.
    destruct (decide (g2 < u32_max)) as [Hg|Hg]; [left; rewrite <- Hlive by done; done | right; auto].
Qed.

(** Making room: the pending plan is committed if it fits the store, else a flip runs. *)
Lemma wpr_set_full pending img1 h g :
  same_map img1 -> active_of capacity img1 = Some (h, g) -> PendInv capacity img1 pending ->
  (gen_room capacity img -> g + 1 < u32_max) ->
  wpr (let! finished_pending :=
         match pending with
         | Some st =>
             if bool_decide ((src_h st, src_gen st) = (h, g)) then
               lift (with_ram st (flip_commit capacity)) ;;; ret true
             else lift (flip capacity h g) ;;; ret false
         | None => lift (flip capacity h g) ;;; ret false
         end in set_rest finished_pending) (set_post key value img) None img1.
Proof.
  intros Hsm Hact HP Hgr. pose proof Hsm as (Hz & Hkv & Ha). apply wpr_ok. intros Hok1.
  assert (Hcap1 : cap_ok capacity img1) by (by apply same_map_cap).
  assert (Hflip : wpr ((let! fin := (lift (flip capacity h g) : M (S * option FlipState) (KvError E) unit) ;;; ret false in set_rest fin))
                    (set_post key value img) None img1).
  { apply wpr_bind, wpr_bind, wpr_lift.
    eapply wp_conseq; [by apply (wp_flip capacity img1 h g)|].
    intros r img2 Hok2 (Hz2 & Hk2 & Hne2 & Hr).
    assert (Hsm2 : same_map img2) by (split_and!; [by rewrite Hz2 | by rewrite Hk2 | done]).
    destruct r as [[]|[]]; try done; try (by apply same_map_post). apply wpr_ret.
    destruct (active_of capacity img2) as [[h2 g2]|] eqn:Ha2; [|done].
    eapply (wpr_set_rest false); try done. intros Hover. unfold no_room.
    destruct (decide (g < u32_max)) as [Hg|Hg]; [left | right; intros Hroom%Hgr; lia].
    destruct (Hr Hg) as [[= -> ->] Hlog]. rewrite Hlog in Hover. simpl in Hover.
    pose proof (half_area_ok img1 h Hok1) as Hab. unfold live_set in Hover.
    rewrite (live_size_keep _ _ _ (proj1 (log_full _ Hab)) Hab) in Hover.
    rewrite <- Hkv. unfold kview. by rewrite Hact. }
  destruct pending as [st|]; [|done]. case_bool_decide as Hst; [|done]. injection Hst as <- <-.
  destruct HP as [_ HP]. destruct (HP Hact) as [l1 HPl]. pose proof (active_half _ _ _ _ Hact) as Hh.
  apply wpr_bind, wpr_bind, wpr_lift, wp_with.
  rewrite <- (dst_self capacity img1 (src_h st)) by done.
  eapply wpr_conseq; [by apply (wpr_flip_commit capacity img1 (src_h st) l1)|].
  intros r _ img2 Hok2 (Hz2 & Hk2 & Hne2 & Hr).
  assert (Hsm2 : same_map img2) by (split_and!; [by rewrite Hz2 | by rewrite Hk2 | done]).
  destruct r as [[]|[]]; try done; [|by apply same_map_post]. apply wpr_ret.
  destruct (active_of capacity img2) as [[h2 g2]|] eqn:Ha2; [|done].
  eapply (wpr_set_rest true); try done. intros Hroom%Hgr. destruct Hr as ([= -> ->] & _); lia.
Qed.
End Set_.

Lemma PendInv_active img pending : PendInv capacity img pending -> active_of capacity img = None -> pending = None.
Proof. destruct pending as [st|]; [|done]. intros [? _] ?. done. Qed.

(** Everything [set_bytes_with] can do. *)
Lemma wpr_set_bytes_with key value pending img :
  0 <= key <= 65535 -> bytes_ok value -> cap_ok capacity img -> PendInv capacity img pending ->
  wpr (set_bytes_with capacity key value) (set_post key value img) pending img.
Proof.
  intros Hkey Hval Hcap HP. apply wpr_ok. intros Hok. unfold set_bytes_with.
  assert (Herr : forall e, set_post key value img (Err (Backend e)) pending img).
  { intros e. split_and!; try done. by left. }
  destruct (key =? 0) eqn:Hk0; bool_hyps; [apply wpr_fail; by split_and!|].
  destruct (MAX_VALUE <? zlen value) eqn:Hlen; bool_hyps; [apply wpr_fail; by split_and!|].
  apply wpr_active; [done | | done].
  apply wpr_bind. eapply wpr_conseq with (Q := fun r t' img' =>
    t' = pending /\ match r with
    | Ok (h, g) => same_map img img' /\ active_of capacity img' = Some (h, g) /\ PendInv capacity img' pending /\
        (gen_room capacity img -> g + 1 < u32_max)
    | Err x => set_post key value img (Err x) pending img'
    end).
  { destruct (active_of capacity img) as [[h g]|] eqn:Hact.
    - apply wpr_ret. split; [done|]. unfold same_map, gen_room. rewrite Hact. by split_and!.
    - rewrite (PendInv_active _ _ HP Hact). apply wpr_bind, wpr_lift.
      eapply wp_conseq; [by apply wp_init|]. intros r img1 Hok1 (Hz1 & Hk1 & _ & Hr).
      destruct r as [[]|[]]; try done.
      + rewrite Hact in Hr. apply wpr_ret. split; [done|]. unfold same_map, gen_room. rewrite Hr, Hact.
        split_and!; done.
      + split; [done|]. split; [done|]. split; [done|]. split; [by intros ?|]. by left. }
  intros [[h g]|x] t' img1 Hok1 [-> Hr]; [|done]. destruct Hr as (Hsm & Hact & HP1 & Hg).
  pose proof Hsm as (Hz1 & Hkv1 & _).
  assert (Hcap1 : cap_ok capacity img1) by (by eapply same_map_cap).
  assert (Hk' : 0 < key <= 65535) by lia.
  eapply wpr_scan; try done.
  2: { intros e. split_and!; try done; [congruence|]. by left. }
  destruct (_ <=? n) eqn:Hfit; bool_hyps.
  - by apply (wpr_set_append key value Hk' Hval Hlen img Hcap pending img1 h g).
  - apply wpr_bind, wpr_get, wpr_bind, wpr_put.
    by apply (wpr_set_full key value Hk' Hval Hlen img Hcap pending img1 h g).
Qed.

(** ** Reading *)

Lemma found_of_view key l :
  match found_of key l with
  | Some (o, len) => exists v, find_last key l = Some (o, v) /\ len = zlen v /\
                     view l !! key = if len =? 0 then None else Some v
  | None => view l !! key = None
  end.
Proof.
  unfold found_of. rewrite view_lookup. destruct (find_last key l) as [[o v]|]; simpl; [|done].
  exists v. split; [done|]. split; [done|]. destruct v as [|b v]; [done|]. rewrite zlen_cons.
  pose proof (zlen_nonneg v). by rewrite (proj2 (Z.eqb_neq _ _)) by lia.
Qed.

(** The value bytes of a record of the active log. *)
Lemma reads_value img h l e o key v c :
  cap_ok capacity img -> bytes_ok img -> half_ok h -> FullLog (half_area capacity img h) l e ->
  find_last key l = Some (o, v) -> 0 <= c <= zlen v ->
  reads (rd (half_base capacity h + o + KV_HEADER) c) (fun b => b = take (Z.to_nat c) v) img.
Proof.
  intros Hcap Hok Hh [Hl He] Hf Hc. pose proof (half_area_ok img h Hok) as Hab.
  pose proof (zlen_half_area capacity img Hcap h Hh) as Hz.
  destruct (half_base_range capacity img Hcap h Hh) as (? & ? & _).
  pose proof (find_last_In _ _ _ _ Hf) as Hin.
  destruct (Log_In_range _ _ _ _ _ Hl Hab ltac:(lia) ltac:(apply zlen_nonneg) Hin) as [Ho Hoe]. simpl in *.
  pose proof (Log_In _ _ _ _ _ Hl Hin) as Hr. simpl in Hr.
  pose proof (rec_at_Some _ _ _ _ Hr Hab Ho) as (_ & _ & Hfit & _ & _ & _ & Hv).
  destruct (record_size_spec (zlen v) (zlen_nonneg v)) as [? _]. change KV_HEADER with 8 in *.
  eapply reads_conseq; [apply reads_rd; lia|]. intros b ->. rewrite <- Z.add_assoc.
  rewrite <- (slice_slice img (half_base capacity h) n (o + 8) c) by lia. fold (half_area capacity img h).
  rewrite <- (Z.add_0_r (o + 8)), <- (slice_slice _ (o + 8) (zlen v) 0 c) by lia.
  rewrite <- Hv. unfold slice. by rewrite drop_0.
Qed.

(** What [get_bytes] returns, of the map: the true length and what fits the caller's buffer. *)
Definition get_of (key c : Z) (m : gmap Z (list Z)) : option (Z * list Z) :=
  if key =? 0 then None
  else option_map (fun v => (zlen v, take (Z.to_nat (Z.min (zlen v) c)) v)) (m !! key).

Lemma reads_get_bytes key c img :
  cap_ok capacity img -> bytes_ok img -> 0 <= c ->
  reads (get_bytes capacity key c) (fun r => r = get_of key c (kview capacity img)) img.
Proof.
  intros Hcap Hok Hc. unfold get_bytes, get_of. destruct (key =? 0); [by apply reads_ret|].
  eapply reads_bind; [by apply reads_active|]. intros a ->. unfold kview.
  destruct (active_of capacity img) as [[h g]|] eqn:Hact; [|by apply reads_ret].
  pose proof (active_half _ _ _ _ Hact) as Hh.
  eapply reads_bind; [by apply reads_scan_active|]. intros ? ->. simpl.
  pose proof (found_of_view key (log (half_area capacity img h)).1) as Hf.
  destruct (found_of key _) as [[off len]|]; [|rewrite Hf; by apply reads_ret].
  destruct Hf as (v & Hf & -> & ->). destruct (zlen v =? 0); [by apply reads_ret|].
  pose proof (zlen_nonneg v).
  eapply reads_bind; [eapply (reads_value img h); try done; [by apply log_full, half_area_ok | lia]|].
  intros b ->. by apply reads_ret.
Qed.

(** ** Deleting *)

Lemma wpr_delete_with key pending img :
  0 <= key <= 65535 -> cap_ok capacity img -> PendInv capacity img pending ->
  wpr (delete_with capacity key) (set_post key [] img) pending img.
Proof.
  intros Hkey Hcap HP. apply wpr_ok. intros Hok. unfold delete_with.
  assert (Herr : forall e, set_post key [] img (Err (Backend e)) pending img).
  { intros e. split; [done|]. split; [done|]. split; [done|]. by left. }
  destruct (key =? 0) eqn:Hk0; bool_hyps; [apply wpr_fail; by split_and!|].
  assert (Habs : kview capacity img !! key = None -> set_post key [] img (Ok tt) pending img).
  { intros Hn. split; [done|]. split; [done|]. split; [done|]. unfold upd. simpl.
    rewrite delete_id by done. split_and!; [done | lia | done]. }
  apply wpr_active; [done | | done].
  destruct (active_of capacity img) as [[h g]|] eqn:Hact.
  2: { apply wpr_ret, Habs. unfold kview. by rewrite Hact. }
  eapply wpr_scan; try done. simpl. pose proof (found_of_view key (log (half_area capacity img h)).1) as Hf.
  destruct (found_of key _) as [[off len]|].
  - destruct Hf as (v & _ & -> & Hv). pose proof (zlen_nonneg v).
    destruct (0 <? zlen v) eqn:Hz; bool_hyps; [apply wpr_set_bytes_with; try done; constructor|].
    apply wpr_ret, Habs. unfold kview. rewrite Hact, Hv. by rewrite (proj2 (Z.eqb_eq _ _)) by lia.
  - apply wpr_ret, Habs. unfold kview. by rewrite Hact.
Qed.

(** ** The incremental flip over images *)

(** Work the map does not show. *)
Definition hidden (img img' : list Z) : Prop :=
  zlen img' = zlen img /\ kview capacity img' = kview capacity img /\
  (active_of capacity img <> None -> active_of capacity img' <> None).

Lemma hidden_refl img : hidden img img.
Proof. by split_and!. Qed.
Lemma hidden_trans a b c : hidden a b -> hidden b c -> hidden a c.
Proof. unfold hidden. intros (?&?&?) (?&?&?). split_and!; [congruence | congruence | auto]. Qed.

(** [flip_start] plans the live set of the active half. *)
Definition start_post (img : list Z) (r : result (KvError E) (option FlipState)) (img' : list Z) : Prop :=
  img' = img /\
  match r with
  | Ok None => active_of capacity img = None
  | Ok (Some st) => active_of capacity img = Some (src_h st, src_gen st) /\ FlipInv capacity img st /\ progress st = 0
  | Err TooManyKeys => too_many_keys img
  | Err (Backend _) => True
  | Err _ => False
  end.

Lemma wp_flip_start img : cap_ok capacity img -> wp (flip_start capacity) (start_post img) img.
Proof.
  intros Hcap. apply wp_ok. intros Hok. unfold flip_start.
  eapply wp_bind_reads; [by apply reads_active | | done]. intros a ->.
  destruct (active_of capacity img) as [[h g]|] eqn:Hact; [|apply wp_ret; by split].
  pose proof (active_half _ _ _ _ Hact) as Hh. pose proof (half_area_ok img h Hok) as Hab.
  destruct (half_base_range capacity img Hcap h Hh) as (? & ? & _).
  pose proof (half_len_pos capacity img Hcap). pose proof (log_full _ Hab) as Hfull.
  apply wp_bind. eapply wp_conseq; [eapply (wp_walk_latest _ _ img); done|].
  intros r img1 _ [-> Hw]. destruct r as [x|[]]; try done.
  2: { unfold start_post, too_many_keys. by rewrite Hact. }
  destruct Hw as [-> Hk]. apply wp_ret. split; [done|]. split; [done|]. split; [|done].
  split; [by rewrite Hact|]. simpl. intros _. eexists. constructor; simpl.
  - apply Hfull.
  - done.
  - split; [lia | by exists 0].
  - apply (zlen_half_area capacity img Hcap). unfold half_ok in *. lia.
  - by apply half_area_ok.
  - destruct (half_len_spec capacity (proj1 Hcap)) as (? & ? & ? & _).
    destruct (0 <? n) eqn:Hn; bool_hyps.
    + by split_and!.
    + exists [], (log (half_area capacity img h)).1.
      assert (zlen (half_area capacity img (1 - h)) = n) by (apply (zlen_half_area capacity img Hcap); unfold half_ok in *; lia).
      eapply (ci_start capacity img Hcap h Hh); simpl; try done; [apply Hfull | by apply half_area_ok|].
      assert (n = 0) as -> by lia. apply zero_upto_0.
Qed.

Definition step_img_post (budget : Z) (img : list Z) (st : FlipState) (r : result (KvError E) bool)
    (st' : FlipState) (img' : list Z) : Prop :=
  hidden img img' /\ active_of capacity img' = active_of capacity img /\ FlipInv capacity img' st' /\
  same_plan st st' /\
  match r with
  | Ok more => active_of capacity img = Some (src_h st, src_gen st) /\
      (more = true -> 4 * budget <= progress st' - progress st)
  | Err Stale => active_of capacity img <> Some (src_h st, src_gen st) /\ img' = img
  | Err (Backend _) => True
  | Err _ => False
  end.

Lemma wpr_step_img budget st img :
  cap_ok capacity img -> FlipInv capacity img st -> 0 <= budget <= u32_max ->
  wpr (flip_step capacity budget) (step_img_post budget img st) st img.
Proof.
  intros Hcap [Hne HF] Hb. apply wpr_ok. intros Hok.
  destruct (decide (active_of capacity img = Some (src_h st, src_gen st))) as [Hact|Hst].
  - destruct (HF Hact) as [l1 HP]. pose proof (active_half _ _ _ _ Hact) as Hh.
    assert (Hself : with_dst capacity img (src_h st) (half_area capacity img (1 - src_h st)) = img)
      by (by apply dst_self).
    rewrite <- Hself at 2. eapply wpr_conseq; [by apply (wpr_flip_step capacity img Hcap Hok (src_h st) Hh budget l1)|].
    intros r st' img' _ (darea & -> & Hp & HP' & Hr).
    destruct (dst_invisible capacity img (src_h st) _ darea Hcap Hact) as (Hk & Ha & Hz & Hs & Hd); [apply HP'|].
    split; [split_and!; try done; by rewrite Ha|]. split; [by rewrite Ha|]. split; [|split; [done|]].
    + split; [by rewrite Ha|]. intros _. exists l1. destruct Hp as (-> & _). by rewrite Hs, Hd.
    + destruct r as [[]|[]]; done.
  - assert (Hkeep : forall r, match r with Err Stale | Err (Backend _) => True | _ => False end ->
      step_img_post budget img st r st img).
    { intros r Hr. split; [apply hidden_refl|]. split; [done|]. split; [by split|]. split; [apply same_plan_refl|].
      destruct r as [[]|[]]; done. }
    unfold flip_step. apply wpr_bind, wpr_get.
    eapply wpr_bind_reads with (P := fun b => b = false); [| | intros; by apply Hkeep].
    + eapply reads_bind; [by apply reads_active|]. intros a ->. apply reads_ret. by apply bool_decide_eq_false.
    + intros ? ->. apply wpr_fail. by apply Hkeep.
Qed.

Definition commit_img_post (img : list Z) (st : FlipState) (r : result (KvError E) unit) (img' : list Z) : Prop :=
  hidden img img' /\
  match r with
  | Ok _ => active_of capacity img = Some (src_h st, src_gen st)
  | Err Stale => active_of capacity img <> Some (src_h st, src_gen st) /\ img' = img
  | Err (Backend _) => True
  | Err _ => False
  end.

Lemma wp_commit_img st img :
  cap_ok capacity img -> FlipInv capacity img st ->
  wp (with_ram st (flip_commit capacity)) (commit_img_post img st) img.
Proof.
  intros Hcap HF. apply wp_ok. intros Hok. apply wp_with.
  destruct (decide (active_of capacity img = Some (src_h st, src_gen st))) as [Hact|Hst].
  - destruct HF as [Hne HF]. destruct (HF Hact) as [l1 HP]. pose proof (active_half _ _ _ _ Hact) as Hh.
    rewrite <- (dst_self capacity img (src_h st)) by done.
    eapply wpr_conseq; [by apply (wpr_flip_commit capacity img (src_h st) l1)|].
    rewrite dst_self by done. intros r _ img' _ (Hz & Hk & Ha & Hr). split; [by split_and!|].
    destruct r as [[]|[]]; done.
  - unfold flip_commit. apply wpr_bind. cbn [step_all]. apply wpr_bind.
    eapply wpr_conseq; [apply wpr_step_img; try done; mlia|].
    intros r st' img' _ (Hh & Ha & _ & _ & Hr). destruct r as [more|[]]; try done. by destruct Hr.
Qed.
End Spec.
