(* ===== verification/KvServe.v ===== *)
(** The store's background work: [compact], [blank_dead_step], [maintain] and [wipe], none of
    which the map shows (a wipe shows exactly one change). *)
From stdpp Require Import gmap.
From S2P Require Import Prelude Bytes Crc Kv KvWp KvLog KvScan KvAppend KvFlip KvMaint KvCommit KvLive KvSpec.

Section Serve.
Context {S E : Type} `{!Eeprom S E} `{!EepromLaws S E}.
Context (capacity : Z).
#[local] Abbreviation n := (half_len capacity).

(** ** Compaction on request *)

Definition compact_post (img : list Z) (r : result (KvError E) unit) (img' : list Z) : Prop :=
  hidden capacity img img' /\
  match r with
  | Ok _ => active_of capacity img = None \/
            (forall h g, active_of capacity img = Some (h, g) -> g < u32_max ->
              active_of capacity img' = Some (1 - h, g + 1))
  | Err TooManyKeys => too_many_keys capacity img /\ img' = img
  | Err (Backend _) => True
  | Err _ => False
  end.

Lemma wp_compact img : cap_ok capacity img -> wp (compact capacity) (compact_post img) img.
Proof.
  intros Hcap. apply wp_ok. intros Hok. unfold compact.
  eapply wp_bind_reads; [by apply reads_active | | intros; split; [apply hidden_refl | done]].
  intros a ->. destruct (active_of capacity img) as [[h g]|] eqn:Hact.
  2: { apply wp_ret. split; [apply hidden_refl | by left]. }
  eapply wp_conseq; [by apply (wp_flip capacity img h g)|].
  intros r img' _ (Hz & Hk & Hne & Hr). split; [by split_and!|].
  destruct r as [[]|[]]; try done.
  - right. rewrite Hact. intros h' g' [= <- <-] Hg. by apply Hr.
  - unfold too_many_keys. rewrite Hact. by destruct Hr.
Qed.

Lemma wpr_compact_with pending img :
  cap_ok capacity img -> PendInv capacity img pending ->
  wpr (compact_with capacity) (fun r pending' img' =>
    pending' = None /\ hidden capacity img img' /\
    match r with Ok _ | Err TooManyKeys | Err (Backend _) => True | Err _ => False end) pending img.
Proof.
  intros Hcap HP. apply wpr_ok. intros Hok. unfold compact_with.
  apply wpr_bind, wpr_get, wpr_bind, wpr_put.
  assert (Hcomp : wpr (lift (compact capacity)) (fun r (pending' : option FlipState) img' =>
    pending' = None /\ hidden capacity img img' /\
    match r with Ok _ | Err TooManyKeys | Err (Backend _) => True | Err _ => False end) None img).
  { apply wpr_lift. eapply wp_conseq; [by apply wp_compact|].
    intros r img' _ (Hh & Hr). split; [done|]. split; [done|]. destruct r as [[]|[]]; done. }
  destruct pending as [st|]; [|done].
  intros Hok' s Hs. pose proof (wp_commit_img capacity st img Hcap HP Hok s Hs) as (Hh & Hr).
  assert (Hl : lift (T := option FlipState) (with_ram st (flip_commit capacity)) (s, None) =
    (let '(s', r) := with_ram st (flip_commit capacity) s in ((s', None), r))) by done.
  cbv beta. rewrite Hl. clear Hl.
  destruct (with_ram st (flip_commit capacity) s) as [s' r]. simpl in Hh, Hr.
  destruct r as [[]|[]]; try done.
  destruct Hr as [_ Hsame]. apply (Hcomp Hok s'). done.
Qed.

(** ** Blanking ahead of time *)

Section Inside.
Context (img0 : list Z) (base : Z) (Hbase : 0 <= base) (Hn : 0 <= n) (Hfit : base + n <= zlen img0)
        (Hal : aligned base) (Hnal : aligned n) (Hok0 : bytes_ok img0).

(** Blanking from anywhere stays inside the half. *)
Definition inside (from : Z) (r : result (KvError E) (Z * Z)) (img' : list Z) : Prop :=
  exists area', img' = with_half img0 base area' /\ zlen area' = n /\
    match r with
    | Ok (p, _) => from <= p <= n /\ aligned p
    | Err (Backend _) => True
    | Err _ => False
    end.

Lemma wp_chunk_inside fuel o chunk k w budget area :
  zlen area = n -> 0 <= o -> 0 <= w <= k -> o + k <= n -> aligned o -> aligned w -> aligned k ->
  wp (blank_chunk fuel base o chunk k w budget)
    (fun r img' => exists area', img' = with_half img0 base area' /\ zlen area' = n /\
       match r with
       | Ok (_, Some p) => o <= p <= n /\ aligned p
       | Ok (_, None) | Err (Backend _) => True
       | Err _ => False
       end) (with_half img0 base area).
Proof.
  intros Hz Ho Hw Hin Hao Haw Hak. revert w Hw Haw budget area Hz.
  induction fuel as [|fuel IH]; intros w Hw Haw budget area Hz; cbn [blank_chunk];
    [apply wp_ret; by exists area|].
  destruct (w <? k) eqn:Hwk; bool_hyps; [|apply wp_ret; by exists area].
  pose proof (aligned_step w k Haw Hak Hwk) as Hw4. replace (Z.min (k - w) 4) with 4 by lia.
  assert (aligned (w + 4)) by (apply aligned_add; [done | by exists 1]).
  destruct (existsb _ _); [|apply IH; try done; lia].
  destruct (budget =? 0).
  { apply wp_ret. exists area. split; [done|]. split; [done|]. split; [lia | by apply aligned_add]. }
  apply wp_bind. rewrite <- Z.add_assoc. assert (zlen (zeros 4) = 4) by done.
  apply (wp_half_wr img0 base n); try done; try lia; auto with tower.
  - by apply aligned_add.
  - by exists 1.
  - apply IH; try done; [lia|]. rewrite zlen_patch; lia.
  - intros e area' _ Hz'. by exists area'.
Qed.

Lemma wp_span_inside from budget area :
  zlen area = n -> 0 <= from <= n -> aligned from ->
  wp (blank_step_span base n from budget) (inside from) (with_half img0 base area).
Proof.
  intros Hz Hf Ha. unfold blank_step_span.
  assert (H : forall fuel o budget area, zlen area = n -> from <= o <= n -> aligned o ->
    wp (blank_loop fuel base n o budget) (inside from) (with_half img0 base area)); [|apply H; try done; lia].
  clear budget area Hz. induction fuel as [|fuel IH]; intros o budget area Hz Ho Hao; cbn [blank_loop].
  { apply wp_ret. exists area. split_and!; try done; lia. }
  destruct (o <? n) eqn:Hon; bool_hyps.
  2: { apply wp_ret. exists area. split_and!; try done; lia. }
  assert (Hal' : aligned (Z.min (n - o) 64)) by (apply aligned_min64, aligned_sub; done).
  eapply wp_bind_reads; [apply reads_rd; rewrite ?(zlen_with_half img0 base n) by done; try lia | |].
  2: { intros e. exists area. by split_and!. }
  intros chunk _. apply wp_bind. eapply wp_conseq.
  { assert (aligned 0) by (by exists 0). apply wp_chunk_inside; try done; lia. }
  intros [[b [p|]]|[]] img' _ (area' & -> & Hz' & Hr); try done.
  - destruct Hr as [? ?]. apply wp_ret. exists area'. split_and!; try done; lia.
  - apply IH; [done | lia | by apply aligned_add].
  - exists area'. by split_and!.
Qed.
End Inside.

Definition cursor_ok (c : BlankCursor) : Prop := 0 <= bc_off c /\ aligned (bc_off c).

Lemma wpr_blank_dead_step budget c img :
  cap_ok capacity img -> cursor_ok c ->
  wpr (blank_dead_step capacity budget) (fun r c' img' =>
    cursor_ok c' /\ hidden capacity img img' /\
    match r with Ok _ | Err (Backend _) => True | Err _ => False end) c img.
Proof.
  intros Hcap Hc. apply wpr_ok. intros Hok. unfold blank_dead_step.
  eapply wpr_bind_reads; [by apply reads_active | | intros; split; [done|]; split; [apply hidden_refl | done]].
  intros a ->. destruct (active_of capacity img) as [[h g]|] eqn:Hact.
  2: { apply wpr_ret. split; [done|]. split; [apply hidden_refl | done]. }
  apply wpr_bind, wpr_get. set (c1 := if bc_generation c =? g then c else _).
  assert (Hc1 : cursor_ok c1).
  { unfold c1. destruct (_ =? g); [done|]. split; [simpl; lia | by exists 0]. }
  apply wpr_bind, wpr_put. destruct (n <=? bc_off c1) eqn:Hfull; bool_hyps.
  { apply wpr_ret. split; [done|]. split; [apply hidden_refl | done]. }
  pose proof (active_half _ _ _ _ Hact) as Hh. pose proof (dst_ok h Hh) as Hd.
  destruct (half_base_range capacity img Hcap (1 - h) Hd) as (? & ? & ? & _).
  destruct (half_len_spec capacity (proj1 Hcap)) as (? & ? & ? & _).
  rewrite <- (dst_self capacity img h) by done. destruct Hc1 as [Hc1 Hc1a].
  apply wpr_bind, wpr_lift. eapply wp_conseq.
  { apply (wp_span_inside img); try done; [|lia]. by apply (zlen_half_area capacity img Hcap). }
  rewrite dst_self by done. intros r img' _ (area' & -> & Hz & Hr).
  destruct (dst_invisible capacity img h g area' Hcap Hact Hz) as (Hk & Ha & Hzl & _).
  assert (Hhid : hidden capacity img (with_dst capacity img h area')).
  { split_and!; try done. by rewrite Ha. }
  destruct r as [[p b]|[]]; try done.
  apply wpr_bind, wpr_put, wpr_ret. split; [|done]. split; [simpl; lia | apply Hr].
Qed.

(** ** Telemetry *)

(** Space of the live values of the keys [ks]. *)
Definition sum_over (m : gmap Z (list Z)) (ks : list Z) : Z :=
  fold_right (fun k acc => match m !! k with Some v => record_size (zlen v) + acc | None => acc end) 0 ks.

Lemma sum_over_delete m k ks : k ∉ ks -> sum_over (base.delete k m) ks = sum_over m ks.
Proof.
  induction ks as [|k' ks IH]; simpl; [done|]. intros Hk. apply not_elem_of_cons in Hk as [Hne Hk].
  rewrite lookup_delete_ne by done. by rewrite IH.
Qed.

Lemma sum_over_live ks m : NoDup ks -> (forall k, is_Some (m !! k) -> k ∈ ks) -> sum_over m ks = live_size m.
Proof.
  revert m. induction ks as [|k ks IH]; intros m Hnd Hdom.
  - assert (m = ∅) as ->; [|done]. apply map_empty. intros k. destruct (m !! k) as [v|] eqn:Hk; [|done].
    assert (k ∈ []) as H by (apply Hdom; by eexists). by apply not_elem_of_nil in H.
  - apply list.NoDup_cons in Hnd as [Hni Hnd]. simpl. destruct (m !! k) as [v|] eqn:Hk.
    + rewrite <- (insert_delete_id m k v Hk) at 2. rewrite live_size_insert by apply lookup_delete_eq.
      f_equal. rewrite <- (sum_over_delete m k ks Hni). apply IH; [done|]. intros k' Hk'.
      destruct (decide (k = k')) as [<-|Hne]; [rewrite lookup_delete_eq in Hk'; by destruct Hk'|].
      rewrite lookup_delete_ne in Hk' by done. apply Hdom in Hk'. by apply elem_of_cons in Hk' as [->|].
    + apply IH; [done|]. intros k' Hk'. pose proof (Hdom k' Hk') as H. apply elem_of_cons in H as [->|]; [|done].
      rewrite Hk in Hk'. by destruct Hk'.
Qed.

Lemma sum_over_latest l : sum_over (view l) (map fst (latest_of l)) = live_size (view l).
Proof.
  destruct (latest_of_spec l) as [Hnd Hlat]. apply sum_over_live; [done|]. intros k [v Hv].
  rewrite view_lookup in Hv. destruct (find_last k l) as [[o v']|] eqn:Hf; [|done].
  apply list_elem_of_In, in_map_iff. exists (k, o). split; [done|]. apply Hlat. by exists v'.
Qed.

Lemma reads_live_loop img h l e lat total :
  cap_ok capacity img -> bytes_ok img -> half_ok h -> FullLog (half_area capacity img h) l e ->
  (forall t o, In (t, o) lat -> exists v, find_last t l = Some (o, v)) ->
  reads (live_loop (half_base capacity h) lat total) (fun r => r = total + sum_over (view l) (map fst lat)) img.
Proof.
  intros Hcap Hok Hh [Hl He]. revert total. induction lat as [|[t o] lat IH]; intros total Hlat; cbn [live_loop].
  { apply reads_ret. simpl. lia. }
  destruct (Hlat t o (or_introl eq_refl)) as [v Hf].
  pose proof (half_area_ok capacity img h Hok) as Hab. pose proof (zlen_half_area capacity img Hcap h Hh) as Hz.
  destruct (half_base_range capacity img Hcap h Hh) as (? & ? & _).
  pose proof (find_last_In _ _ _ _ Hf) as Hin.
  destruct (Log_In_range _ _ _ _ _ Hl Hab ltac:(lia) ltac:(apply zlen_nonneg) Hin) as [Ho _]. simpl in Ho.
  pose proof (Log_In _ _ _ _ _ Hl Hin) as Hr. simpl in Hr.
  pose proof (rec_at_Some _ _ _ _ Hr Hab Ho) as (_ & _ & Hfit & _ & _ & Hlen & _).
  destruct (record_size_spec (zlen v) (zlen_nonneg v)) as [? _]. pose proof (zlen_nonneg v).
  eapply reads_bind; [apply reads_rd; mlia|]. intros hdr ->.
  rewrite <- (slice_slice img (half_base capacity h) n o KV_HEADER) by mlia. fold (half_area capacity img h).
  rewrite (slice_slice (half_area capacity img h) o KV_HEADER 2 2) by mlia. rewrite <- Hlen.
  eapply reads_conseq; [apply IH; intros t' o' Hin'; apply Hlat; by right|]. intros r ->. simpl.
  rewrite view_lookup, Hf. case_bool_decide as Hv; [subst v; simpl; lia|].
  destruct (zlen v =? 0) eqn:Hv0; bool_hyps; [by apply zlen_0 in Hv0|]. simpl. lia.
Qed.

Definition counted (img : list Z) (want : Z) (r : result (KvError E) Z) (img' : list Z) : Prop :=
  img' = img /\
  match r with
  | Ok x => x = want
  | Err TooManyKeys => too_many_keys capacity img
  | Err (Backend _) => True
  | Err _ => False
  end.

(** [live_bytes] is the size of the map. *)
Lemma wp_live_bytes img :
  cap_ok capacity img -> wp (live_bytes capacity) (counted img (live_size (kview capacity img))) img.
Proof.
  intros Hcap. apply wp_ok. intros Hok. unfold live_bytes.
  eapply wp_bind_reads; [by apply reads_active | | done]. intros a ->. unfold kview.
  destruct (active_of capacity img) as [[h g]|] eqn:Hact; [|by apply wp_ret].
  pose proof (active_half _ _ _ _ Hact) as Hh. pose proof (half_area_ok capacity img h Hok) as Hab.
  destruct (half_base_range capacity img Hcap h Hh) as (? & ? & _).
  pose proof (half_len_pos capacity img Hcap). pose proof (log_full _ Hab) as Hfull.
  apply wp_bind. eapply wp_conseq; [eapply (wp_walk_latest _ _ img); done|].
  intros r img1 _ [-> Hw]. destruct r as [x|[]]; try done.
  2: { split; [done|]. unfold too_many_keys. by rewrite Hact. }
  destruct Hw as [-> _]. eapply wp_conseq.
  { eapply (reads_live_loop img h); try done. intros t o Hin.
    by apply (proj2 (latest_of_spec (log (half_area capacity img h)).1)). }
  intros r img' _ [-> Hr]. split; [done|]. destruct r as [x|[]]; try done. by rewrite Hr, sum_over_latest.
Qed.

Lemma reads_free_bytes img :
  cap_ok capacity img -> bytes_ok img ->
  reads (free_bytes capacity) (fun r => r = match active_of capacity img with
    | Some (h, _) => n - (log (half_area capacity img h)).2 | None => n end) img.
Proof.
  intros Hcap Hok. unfold free_bytes. eapply reads_bind; [by apply reads_active|]. intros a ->.
  destruct (active_of capacity img) as [[h g]|] eqn:Hact; [|by apply reads_ret].
  eapply reads_bind; [apply reads_scan_active; try done; by eapply active_half|]. intros ? ->. by apply reads_ret.
Qed.

(** ** Maintenance *)

Definition MaintInv (img : list Z) (ms : MaintState) : Prop :=
  cursor_ok (m_blank ms) /\ PendInv capacity img (m_flip ms).

Lemma wpr_on_flip {A} st (m : M (S * FlipState) (KvError E) A) Q ms img :
  wpr m (fun r st' img' => Q r {| m_blank := m_blank ms; m_flip := Some st' |} img') st img ->
  wpr (on_flip st m) Q ms img.
Proof.
  intros H Hok s Hs. specialize (H Hok s Hs). unfold on_flip. by destruct (m (s, st)) as [[s' st'] r].
Qed.
Lemma wpr_on_blank {A} (m : M (S * BlankCursor) (KvError E) A) Q ms img :
  wpr m (fun r c' img' => Q r {| m_blank := c'; m_flip := m_flip ms |} img') (m_blank ms) img ->
  wpr (on_blank m) Q ms img.
Proof.
  intros H Hok s Hs. specialize (H Hok s Hs). unfold on_blank. by destruct (m (s, m_blank ms)) as [[s' c'] r].
Qed.

(** Nothing a maintenance call does shows in the map, and its plan stays sound; it fails only
    with the backend's error or when a flip could not be planned. *)
Definition maint_post (img : list Z) (r : result (KvError E) bool) (ms' : MaintState) (img' : list Z) : Prop :=
  hidden capacity img img' /\ MaintInv img' ms' /\
  match r with Ok _ => True | Err TooManyKeys => too_many_keys capacity img | Err (Backend _) => True | Err _ => False end.

Lemma wpr_maint_flip budget st ms img :
  cap_ok capacity img -> cursor_ok (m_blank ms) -> FlipInv capacity img st -> 0 <= budget <= u32_max ->
  active_of capacity img = Some (src_h st, src_gen st) ->
  wpr (let! more := on_flip st (flip_step capacity budget) in
       if more then ret true
       else
         let! ms := get_ram in
         set_flip None ;;;
         match m_flip ms with
         | Some st => lift (with_ram st (flip_commit capacity)) ;;; ret true
         | None => ret true
         end) (maint_post img) ms img.
Proof.
  intros Hcap Hcur HF Hb Hact. apply wpr_bind, wpr_on_flip.
  eapply wpr_conseq; [by apply wpr_step_img|].
  intros r st1 img1 Hok1 (Hh1 & Ha1 & HF1 & Hp1 & Hr). destruct r as [[]|[]]; try done.
  - apply wpr_ret. split; [done|]. split; [|done]. by split.
  - apply wpr_bind, wpr_get. unfold set_flip. apply wpr_bind, wpr_bind, wpr_get, wpr_put. simpl.
    apply wpr_bind, wpr_lift. pose proof Hh1 as (Hz1 & _).
    assert (Hcap1 : cap_ok capacity img1) by (by apply (cap_ok_zlen _ img)).
    eapply wp_conseq; [by apply wp_commit_img|]. intros r img2 _ (Hh2 & Hr2).
    pose proof (hidden_trans _ _ _ _ Hh1 Hh2) as Hh. destruct r as [[]|[]]; try done.
    + apply wpr_ret. split; [done|]. split; [|done]. by split.
    + destruct Hr2 as [Hne _]. exfalso. apply Hne. rewrite Ha1, Hact. destruct Hp1 as (-> & -> & _). done.
  - by destruct Hr.
Qed.

Lemma wpr_maintain budget threshold ms img :
  cap_ok capacity img -> MaintInv img ms -> 0 <= budget <= u32_max ->
  wpr (maintain capacity budget threshold) (maint_post img) ms img.
Proof.
  intros Hcap [Hcur HP] Hb. apply wpr_ok. intros Hok. unfold maintain.
  assert (Hstay : forall r ms', cursor_ok (m_blank ms') -> PendInv capacity img (m_flip ms') ->
    match r with Ok _ | Err (Backend _) => True | Err TooManyKeys => too_many_keys capacity img | Err _ => False end ->
    maint_post img r ms' img).
  { intros r ms' Hc Hp Hr. split; [apply hidden_refl|]. by split_and!. }
  eapply wpr_bind_reads; [by apply reads_active | | intros; by apply Hstay]. intros a ->.
  destruct (active_of capacity img) as [[h g]|] eqn:Hact; [|apply wpr_ret; by apply Hstay].
  apply wpr_bind, wpr_get. set (pending := match m_flip ms with Some st => _ | None => None end).
  assert (Hpend : PendInv capacity img pending /\
    forall st, pending = Some st -> active_of capacity img = Some (src_h st, src_gen st)).
  { unfold pending. destruct (m_flip ms) as [st|]; [|done]. case_bool_decide as Hst; [|done].
    split; [done|]. intros ? [= <-]. by rewrite Hact, Hst. }
  destruct Hpend as [HP1 Hst]. unfold set_flip at 1.
  apply wpr_bind, wpr_bind, wpr_get, wpr_put. clearbody pending. destruct pending as [st|].
  { by apply (wpr_maint_flip budget st _ img); auto. }
  eapply wpr_bind_reads; [apply reads_scan_active; try done; by eapply active_half | | intros; by apply Hstay].
  intros ? ->. set (ms1 := {| m_blank := m_blank ms; m_flip := None |}).
  apply wpr_bind. eapply wpr_conseq with (Q := fun r ms' img' => ms' = ms1 /\ img' = img /\
    match r with Ok _ | Err (Backend _) => True | Err TooManyKeys => too_many_keys capacity img | Err _ => False end).
  { destruct (_ <? threshold); [|by apply wpr_ret]. apply wpr_bind, wpr_lift.
    eapply wp_conseq; [by apply wp_live_bytes|]. intros r img1 _ [-> Hr].
    destruct r as [x|[]]; try done. }
  intros r ms' img1 _ (-> & -> & Hr). destruct r as [start|[]]; try done; try (by apply Hstay).
  destruct start.
  - apply wpr_bind, wpr_lift. eapply wp_conseq; [by apply wp_flip_start|]. intros r img1 _ [-> Hr1].
    destruct r as [f|[]]; try done; try (by apply Hstay).
    unfold set_flip. apply wpr_bind, wpr_bind, wpr_get, wpr_put, wpr_ret. apply Hstay; [done | | done].
    destruct f as [st|]; [|done]. simpl. apply Hr1.
  - apply wpr_on_blank. eapply wpr_conseq; [by apply wpr_blank_dead_step|].
    intros r c' img' _ (Hc & Hh & Hr1). split; [done|]. split; [by split|]. destruct r as [[]|[]]; done.
Qed.

(** ** Wiping *)

Definition wipe_post (img : list Z) (r : result (KvError E) unit) (img' : list Z) : Prop :=
  zlen img' = zlen img /\
  match r with
  | Ok _ => kview capacity img' = ∅ /\ active_of capacity img' <> None
  | Err (Backend _) => kview capacity img' = kview capacity img \/ kview capacity img' = ∅
  | Err _ => False
  end.

Lemma log_zeros k : 0 <= k -> log (zeros k) = ([], 0).
Proof.
  intros Hk. apply log_empty; [auto with tower|]. rewrite zlen_zeros by done.
  destruct (Z.lt_ge_cases k 8); [by left | right]. apply slice_zeros; lia.
Qed.

(** Blanking one half of the store. *)
Lemma wp_blank_half img h :
  cap_ok capacity img -> half_ok h ->
  wp (blank (half_base capacity h) n) (fun r img' =>
    exists area, img' = with_half img (half_base capacity h) area /\ zlen area = n /\
      match r with Ok _ => area = zeros n | Err (Backend _) => True | Err _ => False end) img.
Proof.
  intros Hcap Hh. apply wp_ok. intros Hok.
  destruct (half_base_range capacity img Hcap h Hh) as (? & ? & ? & _).
  destruct (half_len_spec capacity (proj1 Hcap)) as (? & ? & ? & _).
  assert (Hself : with_half img (half_base capacity h) (half_area capacity img h) = img) by (apply patch_slice_id; lia).
  apply (wp_at _ _ _ _ Hself). eapply wp_conseq.
  { apply (wp_blank _ n); try done; [destruct Hcap as (? & ? & ?); lia | by apply (zlen_half_area capacity img Hcap)|].
    by apply half_area_ok. }
  intros r img' _ (area & -> & Hz & _ & Hr). by exists area.
Qed.

Lemma wp_wipe_active img h g :
  cap_ok capacity img -> active_of capacity img = Some (h, g) -> g < u32_max ->
  wp (let dst := 1 - h in
      blank (half_base capacity dst) n ;;;
      write_gen capacity dst (wrap32 (g + 1)) ;;;
      blank (half_base capacity h) n) (wipe_post img) img.
Proof.
  intros Hcap Hact Hg. pose proof (active_half _ _ _ _ Hact) as Hh. pose proof (dst_ok h Hh) as Hd.
  pose proof (half_len_pos capacity img Hcap) as Hn. cbv zeta.
  apply wp_bind. eapply wp_conseq; [by apply wp_blank_half|].
  intros r img1 Hok1 (area & -> & Hz & Hr). fold (with_dst capacity img h area).
  destruct (dst_invisible capacity img h g area Hcap Hact Hz) as (Hk1 & Ha1 & Hz1 & Hs1 & Hd1).
  destruct r as [[]|[]]; try done; [|split; [done | by left]]. subst area.
  fold (with_dst capacity img h (zeros n)) in Hok1. set (img1 := with_dst capacity img h (zeros n)) in *.
  assert (Hcap1 : cap_ok capacity img1) by (by apply (cap_ok_zlen _ img)).
  apply wp_bind. eapply wp_conseq; [by apply (wp_commit capacity img1 h g)|].
  intros r img2 Hok2 (Hz2 & Hne2 & Hh2 & Hk2 & Hr).
  rewrite Hd1, log_zeros, Hk1 in Hk2 by done.
  destruct r as [[]|[]]; try done; [|split; [congruence | done]].
  specialize (Hr Hg). assert (Hcap2 : cap_ok capacity img2) by (by apply (cap_ok_zlen _ img1)).
  assert (Hk2' : kview capacity img2 = ∅).
  { unfold kview. by rewrite Hr, Hh2, Hd1, log_zeros by done. }
  eapply wp_conseq; [by apply wp_blank_half|]. intros r img3 _ (area & -> & Hz3 & Hr3).
  destruct (dst_invisible capacity img2 (1 - h) _ area Hcap2 Hr Hz3) as (Hk3 & Ha3 & Hzl3 & _).
  unfold with_dst in Hk3, Ha3, Hzl3. replace (1 - (1 - h)) with h in Hk3, Ha3, Hzl3 by lia.
  split; [congruence|]. destruct r as [[]|[]]; try done; [|right; congruence].
  split; [congruence|]. by rewrite Ha3.
Qed.

Lemma wp_wipe_fresh img :
  cap_ok capacity img -> active_of capacity img = None ->
  wp (blank (half_base capacity 1) n ;;;
      write_gen capacity 1 1 ;;;
      blank (half_base capacity 0) n ;;;
      blank (super_off capacity 0) SUPER_LEN) (wipe_post img) img.
Proof.
  intros Hcap Hact. assert (H0 : half_ok 0) by (by left). assert (H1 : half_ok 1) by (by right).
  pose proof (half_len_pos capacity img Hcap) as Hn.
  apply wp_bind. eapply wp_conseq; [by apply wp_blank_half|]. intros r img1 Hok1 (area & -> & Hz & Hr).
  destruct (half_change capacity img Hcap 1 area H1 Hz) as (Ha1 & Hs1 & _ & Hzl1 & _).
  set (img1 := with_half img (half_base capacity 1) area) in *.
  assert (Hk1 : kview capacity img1 = ∅) by (unfold kview; by rewrite Ha1, Hact).
  destruct r as [[]|[]]; try done; [|split; [done | by right]]. subst area.
  assert (Hcap1 : cap_ok capacity img1) by (by apply (cap_ok_zlen _ img)).
  apply wp_bind. eapply wp_conseq.
  { apply (wp_first_super capacity img1 1); try done; [by rewrite Ha1 | by rewrite Hs1, log_zeros]. }
  intros r img2 Hok2 (Hz2 & Hk2 & Hh2 & Hr).
  destruct r as [[]|[]]; try done; [|split; [congruence | by right]].
  assert (Hcap2 : cap_ok capacity img2) by (by apply (cap_ok_zlen _ img1)).
  apply wp_bind. eapply wp_conseq; [by apply (wp_blank_half img2 0)|]. intros r img3 Hok3 (area & -> & Hz3 & Hr3).
  destruct (half_change capacity img2 Hcap2 0 area H0 Hz3) as (Ha3 & Hs3 & Hd3 & Hzl3 & _).
  change (1 - 0) with 1 in Hd3. set (img3 := with_half img2 (half_base capacity 0) area) in *.
  assert (Hl1 : log (half_area capacity img3 1) = ([], 0)) by (by rewrite Hd3, (Hh2 1 H1), Hs1, log_zeros).
  assert (Hk3 : kview capacity img3 = ∅) by (unfold kview; by rewrite Ha3, Hr, Hl1).
  destruct r as [[]|[]]; try done; [|split; [congruence | by right]]. subst area.
  assert (Hcap3 : cap_ok capacity img3) by (by apply (cap_ok_zlen _ img2)).
  destruct (super_off_range capacity img3 Hcap3 0 H0) as (? & Hsr & ?). change SUPER_LEN with 12 in *.
  assert (Hself : with_half img3 (super_off capacity 0) (slice img3 (super_off capacity 0) 12) = img3)
    by (apply patch_slice_id; lia).
  apply (wp_at _ _ _ _ Hself). eapply wp_conseq.
  { apply (wp_blank _ 12); try done; [by exists 3 | apply zlen_slice; lia | auto with tower]. }
  intros r img4 _ (slot & -> & Hz4 & _ & Hr4).
  destruct (super_change capacity img3 Hcap3 garble 0 slot (with_half img3 (super_off capacity 0) slot) H0 Hz4)
    as (Hh4 & Hs4 & Hzl4); [by right|]. change (1 - 0) with 1 in Hs4.
  assert (Hg : exists g, gen_of (super_slot capacity (with_half img3 (super_off capacity 0) slot) 1) = Some g).
  { rewrite Hs4. rewrite <- Ha3 in Hr. destruct (active_gen capacity img3 Hcap3 Hok3 1 1 Hr) as [Hg _]. by eexists. }
  destruct Hg as [g Hg]. destruct (kview_either _ _ 1 g H1 Hg) as [Hne Hor].
  change (1 - 1) with 0 in Hor. rewrite (Hh4 0 H0), (Hh4 1 H1), Hl1, Hs3, log_zeros in Hor by done.
  assert (Hk4 : kview capacity (with_half img3 (super_off capacity 0) slot) = ∅) by (by destruct Hor).
  split; [congruence|]. destruct r as [[]|[]]; try done; by right.
Qed.

Lemma wp_wipe img :
  cap_ok capacity img -> gen_room capacity img -> wp (wipe capacity) (wipe_post img) img.
Proof.
  intros Hcap Hg. apply wp_ok. intros Hok. unfold wipe.
  eapply wp_bind_reads; [by apply reads_active | | intros; split; [done | by left]]. intros a ->.
  unfold gen_room in Hg. destruct (active_of capacity img) as [[h g]|] eqn:Hact.
  - apply wp_wipe_active; try done. lia.
  - by apply wp_wipe_fresh.
Qed.
End Serve.
