(* ===== verification/KvRam.v ===== *)
(** A RAM EEPROM with a write fuse, as the host tests of the codec use one: it runs any operation
    on concrete cells, and cuts the power after a given number of word programs. It meets the
    backend contract of KvWp.v, and the witnesses of the store's theorems run on it. *)
From S2P Require Import Prelude Bytes Crc Kv KvWp.

Record Ram := { cells : list Z; fuse : Z }.

Definition ram_image (r : Ram) : list Z := map wrap8 (cells r).

(** Programs whole words until the fuse is spent. *)
Definition ram_write (r : Ram) (o : Z) (d : list Z) : Ram * result unit unit :=
  let k := Z.min (zlen d / 4) (Z.max (fuse r) 0) in
  if 4 * k =? zlen d then
    ({| cells := patch (cells r) o d; fuse := fuse r - k |}, Ok tt)
  else ({| cells := patch (cells r) o (slice d 0 (4 * k)); fuse := 0 |}, Err tt).

#[export] Instance ram_eeprom : Eeprom Ram unit := {
  ee_read := fun r o n => if o + n <=? zlen (cells r) then Ok (slice (ram_image r) o n) else Err tt;
  ee_write := ram_write;
}.

(** A cut leaves whole words: the last programmed one is complete. *)
Definition whole_words (old new g : list Z) : Prop := g = new.

Lemma map_wrap8_id d : bytes_ok d -> map wrap8 d = d.
Proof.
  induction 1 as [|b d Hb Hd IH]; simpl; [done|]. rewrite IH, wrap8_small; [done|].
  unfold byte_ok in Hb. mlia.
Qed.
Lemma image_patch r o d f : bytes_ok d ->
  ram_image {| cells := patch (cells r) o d; fuse := f |} = patch (ram_image r) o d.
Proof.
  intros Hd. unfold ram_image, patch. simpl. rewrite !List.map_app, <- List.firstn_map, <- List.skipn_map.
  by rewrite (map_wrap8_id d).
Qed.
Lemma zlen_image r : zlen (ram_image r) = zlen (cells r).
Proof. unfold zlen, ram_image. by rewrite length_map. Qed.

#[export, refine] Instance ram_laws : EepromLaws Ram unit := {
  image := ram_image;
  garble := whole_words;
}.
Proof.
  - intros r. unfold ram_image. apply List.Forall_forall. intros x (y & <- & _)%in_map_iff.
    pose proof (wrap8_ok y). unfold byte_ok. mlia.
  - intros r o n b _ _ Hl. simpl. rewrite zlen_image in Hl. rewrite (proj2 (Z.leb_le _ _)) by lia. by intros [= <-].
  - intros r o d r' _ _ _ _ Hd. simpl. unfold ram_write. destruct (_ =? zlen d); [|done].
    intros [= <-]. by apply image_patch.
  - intros r o d r' e Ho Hl Ha Hd Hok. simpl. unfold ram_write. destruct (_ =? zlen d) eqn:Hk; [done|]. bool_hyps.
    intros [= <- <-]. rewrite image_patch by auto with tower.
    set (k := Z.min (zlen d / 4) (Z.max (fuse r) 0)) in *. pose proof (zlen_nonneg d).
    pose proof (Z.div_pos (zlen d) 4 ltac:(lia) ltac:(lia)). pose proof (Z.mul_div_le (zlen d) 4 ltac:(lia)).
    destruct (Z.eq_dec k 0) as [->|Hk0]; [left; by rewrite slice_0, patch_nil|]. right.
    exists (k - 1), (slice d (4 * (k - 1)) 4). split_and!; try lia.
    + apply zlen_slice; lia.
    + auto with tower.
    + done.
    + f_equal. replace (4 * k) with (4 * (k - 1) + 4) by lia. by rewrite slice_split by lia.
Defined.

(** Witnesses run on images as they are. *)
Lemma ram_image_id l f : bytes_okb l = true -> ram_image {| cells := l; fuse := f |} = l.
Proof. intros. apply map_wrap8_id. by apply bytes_okb_ok. Qed.

(** A blank part of 88 bytes: halves of 32 bytes. *)
Definition blank_part (f : Z) : Ram := {| cells := zeros 88; fuse := f |}.
