(* ===== verification/KvStore.v ===== *)
(** The store as the firmware holds it (firmware/src/storage.rs, [Kv]): the EEPROM, the RAM
    maintenance state and the frozen flag; its methods; and the properties of the whole stack,
    from single operations to histories with power cuts and reboots. *)
From stdpp Require Import gmap.
From S2P Require Import Prelude Bytes Crc Kv KvWp KvLog KvScan KvAppend KvFlip KvMaint KvCommit KvLive KvSpec KvServe KvRam.

(** The firmware's [Error], with the codec's errors kept together. *)
Inductive StoreError (E : Type) :=
| Frozen
| Codec (e : KvError E).
Arguments Frozen {E}.
Arguments Codec {E} e.

Module Store.
Record Kv (S : Type) := { storage : S; maint : MaintState; frozen : bool }.
Arguments storage {S}. Arguments maint {S}. Arguments frozen {S}.

Section Ops.
Context {S E : Type} `{!Eeprom S E}.
Context (capacity : Z).
#[local] Abbreviation MS := (Prelude.M (Kv S) (StoreError E)).

(** [Kv::new]: a failed init is ignored. *)
Definition new (s : S) : Kv S :=
  {| storage := fst (init capacity s); maint := maint_new; frozen := false |}.

Definition writable : MS unit :=
  fun k => (k, if frozen k then Err Frozen else Ok tt).

(** A codec call on the storage and [self.maint.pending()]. *)
Definition on_pending {A} (m : Prelude.M (S * option FlipState) (KvError E) A) : MS A :=
  fun k =>
    let '((s', p'), r) := m (storage k, m_flip (maint k)) in
    ({| storage := s'; maint := {| m_blank := m_blank (maint k); m_flip := p' |}; frozen := frozen k |},
     rmap_err Codec r).

Definition wipe : MS unit :=
  fun k =>
    let '(s', r) := Kv.wipe capacity (storage k) in
    ({| storage := s'; maint := maint_new; frozen := true |}, rmap_err Codec r).

Definition set_bytes (key : Z) (value : list Z) : MS unit :=
  writable ;;; on_pending (set_bytes_with capacity key value).
Definition get_bytes (key cap : Z) : MS (option (Z * list Z)) :=
  fun k => (k, rmap_err Codec (snd (Kv.get_bytes capacity key cap (storage k)))).
Definition delete (key : Z) : MS unit := writable ;;; on_pending (delete_with capacity key).
Definition compact : MS unit := writable ;;; on_pending (compact_with capacity).
Definition maintain (budget_words : Z) : MS bool :=
  fun k =>
    if frozen k then (k, Ok false)
    else
      let '((s', ms'), r) := Kv.maintain capacity budget_words FLIP_THRESHOLD (storage k, maint k) in
      ({| storage := s'; maint := ms'; frozen := frozen k |}, rmap_err Codec r).

(** [unwrap_or] of a pure read. *)
Definition read_or {A} (d : A) (m : Prelude.M S (KvError E) A) (k : Kv S) : A :=
  match snd (m (storage k)) with Ok a => a | Err _ => d end.
Definition flip_generation (k : Kv S) : Z := read_or 0 (generation capacity) k.
Definition free_bytes (k : Kv S) : Z := read_or 0 (Kv.free_bytes capacity) k.
Definition live_bytes (k : Kv S) : Z := read_or 0 (Kv.live_bytes capacity) k.

(** What the device does to the store, one call at a time. A power cut is a write that fails
    followed by [Reboot]. *)
Inductive op :=
| Set_ (key : Z) (value : list Z)
| Delete (key : Z)
| Compact
| Maintain (budget : Z)
| Wipe
| Reboot.

Definition run_op (o : op) (k : Kv S) : Kv S * result (StoreError E) unit :=
  match o with
  | Set_ key value => set_bytes key value k
  | Delete key => delete key k
  | Compact => compact k
  | Maintain b => let '(k', r) := maintain b k in (k', let? _ := r in Ok tt)
  | Wipe => wipe k
  | Reboot => (new (storage k), Ok tt)
  end.

(** A history: the states it passes through, and every call's result. *)
Fixpoint run (ops : list op) (k : Kv S) : Kv S * list (result (StoreError E) unit) :=
  match ops with
  | [] => (k, [])
  | o :: ops =>
      let '(k', r) := run_op o k in
      let '(k'', rs) := run ops k' in
      (k'', r :: rs)
  end.
Fixpoint states (ops : list op) (k : Kv S) : list (Kv S) :=
  match ops with
  | [] => [k]
  | o :: ops => k :: states ops (fst (run_op o k))
  end.
End Ops.
End Store.

Import Store.

(** ** The abstract store *)

(** What an operation does to the map when it takes effect. *)
Definition effect (o : op) (m : gmap Z (list Z)) : gmap Z (list Z) :=
  match o with
  | Set_ key value => upd key value m
  | Delete key => base.delete key m
  | Wipe => ∅
  | Compact | Maintain _ | Reboot => m
  end.

(** When it takes effect: always if it reported success, never if it was refused, and either way
    if a write failed under it. *)
Definition effective {E} (r : result (StoreError E) unit) (took : bool) : Prop :=
  match r with
  | Ok _ => took = true
  | Err (Codec (Backend _)) => True
  | Err _ => took = false
  end.

Definition replay (ops : list (op * bool)) (m : gmap Z (list Z)) : gmap Z (list Z) :=
  fold_left (fun m '(o, took) => if took : bool then effect o m else m) ops m.

(** Arguments in the range of their types. *)
Definition op_ok (o : op) : Prop :=
  match o with
  | Set_ key value => 0 <= key <= 65535 /\ bytes_ok value
  | Delete key => 0 <= key <= 65535
  | Maintain b => 0 <= b <= u32_max
  | _ => True
  end.

(** A word cut while it is programmed reads as it was, erased, or as programmed. *)
Definition atomic_words {S E} `{!Eeprom S E} `{!EepromLaws S E} : Prop :=
  forall old new g, garble old new g -> g = old \/ g = zeros 4 \/ g = new.

Section StoreSpec.
Context {S E : Type} `{!Eeprom S E} `{!EepromLaws S E}.
Context (capacity : Z).

#[local] Abbreviation map_of k := (kview capacity (image (storage k))).

Definition StoreInv (k : Kv S) : Prop :=
  cap_ok capacity (image (storage k)) /\ MaintInv capacity (image (storage k)) (maint k).

Lemma no_phantom m img : atomic_words -> ~ phantom_end (S := S) (E := E) capacity m img.
Proof.
  intros Hw (h & g & l & e & _ & Hl & _ & Hr & old & new & Hg & Ho & Hn).
  destruct (Hw _ _ _ Hg) as [?|[Hz|?]]; try done. apply Hr, rec_at_zero; [|done].
  pose proof (Log_packed _ _ _ _ Hl). pose proof (packed_size_nonneg l). lia.
Qed.

Lemma maint_new_ok img : MaintInv capacity img maint_new.
Proof. split; [|done]. split; [done | by exists 0]. Qed.

(** One call, as the abstract store sees it. *)
Definition op_post (o : op) (k : Kv S) (k' : Kv S) (r : result (StoreError E) unit) : Prop :=
  StoreInv k' /\
  match r with
  | Ok _ => map_of k' = effect o (map_of k)
  | Err (Codec (Backend _)) =>
      map_of k' = map_of k \/ map_of k' = effect o (map_of k) \/
      phantom_end (S := S) (E := E) capacity (map_of k) (image (storage k'))
  | Err _ => map_of k' = map_of k
  end.

Lemma stay o k (r : result (StoreError E) unit) :
  StoreInv k -> match r with Ok _ => effect o (map_of k) = map_of k | _ => True end -> op_post o k k r.
Proof.
  intros Hi Hr. split; [done|]. destruct r as [[]|[|[]]]; try done. by left.
Qed.

Lemma writable_bind {A} (m : M (Kv S) (StoreError E) A) k :
  (writable ;;; m) k = if frozen k then (k, Err Frozen) else m k.
Proof. unfold bind, writable. by destruct (frozen k). Qed.

(** The write calls share the embedding of the pending plan. *)
Lemma on_pending_op (m : M (S * option FlipState) (KvError E) unit) o k :
  StoreInv k ->
  wpr m (fun r p' img' =>
    zlen img' = zlen (image (storage k)) /\ PendInv capacity img' p' /\
    match r with
    | Ok _ => kview capacity img' = effect o (map_of k)
    | Err (Backend _) => kview capacity img' = map_of k \/ kview capacity img' = effect o (map_of k) \/
                         phantom_end (S := S) (E := E) capacity (map_of k) img'
    | Err _ => kview capacity img' = map_of k
    end) (m_flip (maint k)) (image (storage k)) ->
  op_post o k (fst (on_pending m k)) (snd (on_pending m k)).
Proof.
  intros [Hcap [Hcur HP]] H. specialize (H (image_ok _) (storage k) eq_refl). unfold on_pending.
  destruct (m (storage k, m_flip (maint k))) as [[s' p'] r]. simpl in *.
  destruct H as (Hz & HP' & Hr). split.
  - split; simpl; [by apply (cap_ok_zlen _ _ _ Hcap) | by split].
  - destruct r as [[]|[]]; done.
Qed.

Lemma set_bytes_post key value k : StoreInv k -> op_ok (Set_ key value) ->
  op_post (Set_ key value) k (fst (set_bytes capacity key value k)) (snd (set_bytes capacity key value k)).
Proof.
  intros Hi Ho. pose proof Hi as [Hcap [Hcur HP]]. unfold set_bytes. rewrite writable_bind.
  destruct (frozen k); [by apply stay|]. apply on_pending_op; [done|]. destruct Ho.
  eapply wpr_conseq; [by apply wpr_set_bytes_with|].
  intros r p' img' _ (Hz & HP' & _ & Hr). split; [done|]. split; [done|].
  destruct r as [[]|[]]; try done; try (by destruct Hr). by destruct Hr as [_ ->].
  by destruct Hr as [_ ->].
Qed.

Lemma run_op_post o k :
  StoreInv k -> op_ok o -> gen_room capacity (image (storage k)) ->
  op_post o k (fst (run_op capacity o k)) (snd (run_op capacity o k)).
Proof.
  intros Hi Ho Hg. pose proof Hi as [Hcap [Hcur HP]].
  destruct o as [key value|key| |b| |]; simpl in Ho; cbn [run_op].
  - by apply set_bytes_post.
  - unfold delete. rewrite writable_bind. destruct (frozen k); [by apply stay|].
    apply on_pending_op; [done|]. eapply wpr_conseq; [by apply wpr_delete_with|].
    intros r p' img' _ (Hz & HP' & _ & Hr). split; [done|]. split; [done|].
    destruct r as [[]|[]]; try done; try (by destruct Hr). all: by destruct Hr as [_ ->].
  - unfold compact. rewrite writable_bind. destruct (frozen k); [by apply stay|].
    apply on_pending_op; [done|]. eapply wpr_conseq; [by apply wpr_compact_with|].
    intros r p' img' _ (-> & (Hz & Hk & _) & Hr). split; [done|]. split; [done|].
    destruct r as [[]|[]]; try done. by left.
  - unfold maintain. destruct (frozen k); [by apply stay|].
    pose proof (wpr_maintain capacity b FLIP_THRESHOLD (maint k) (image (storage k)) Hcap (conj Hcur HP) Ho
      (image_ok _) (storage k) eq_refl) as H.
    destruct (Kv.maintain capacity b FLIP_THRESHOLD (storage k, maint k)) as [[s' ms'] r]. simpl in *.
    destruct H as ((Hz & Hk & _) & HM & Hr). split.
    + split; [by apply (cap_ok_zlen _ _ _ Hcap) | done].
    + destruct r as [x|[]]; try done. by left.
  - unfold wipe. pose proof (wp_wipe capacity (image (storage k)) Hcap Hg (image_ok _) (storage k) eq_refl) as H.
    destruct (Kv.wipe capacity (storage k)) as [s' r]. simpl in *. destruct H as (Hz & Hr). split.
    + split; [by apply (cap_ok_zlen _ _ _ Hcap) | apply maint_new_ok].
    + destruct r as [[]|[]]; try done; [by destruct Hr|]. destruct Hr; [by left | right; by left].
  - unfold new. pose proof (wp_init capacity (image (storage k)) Hcap (image_ok _) (storage k) eq_refl) as H.
    destruct (init capacity (storage k)) as [s' r]. simpl in *. destruct H as (Hz & Hk & _). split.
    + split; [by apply (cap_ok_zlen _ _ _ Hcap) | apply maint_new_ok].
    + done.
Qed.
End StoreSpec.

Section StoreProps.
Context {S E : Type} `{!Eeprom S E} `{!EepromLaws S E}.
Context (capacity : Z).

Lemma op_post_effective o (k k' : Kv S) (r : result (StoreError E) unit) :
  atomic_words (S := S) (E := E) -> op_post capacity o k k' r ->
  exists took, effective r took /\
    kview capacity (image (storage k')) =
      if took : bool then effect o (kview capacity (image (storage k))) else kview capacity (image (storage k)).
Proof.
  intros Hw [_ Hr]. destruct r as [[]|[|[]]]; try (by exists false); [by exists true|].
  destruct Hr as [Hr|[Hr|Hr]]; [by exists false | by exists true | by apply no_phantom in Hr].
Qed.

(** C1. Any history of calls, power cuts (failing writes followed by a reboot) and background
    maintenance leaves the map that the effective calls make, applied in order: a call that
    reported success took effect, a refused one did not, and one cut short took effect entirely
    or not at all. The backend may tear a write anywhere, as long as a torn word reads as
    before, erased, or as written. *)
Theorem kv_history (ops : list op) (k : Kv S) :
  atomic_words (S := S) (E := E) -> StoreInv capacity k -> Forall op_ok ops ->
  (forall k', In k' (states capacity ops k) -> gen_room capacity (image (storage k'))) ->
  exists took, Forall2 effective (snd (run capacity ops k)) took /\
    kview capacity (image (storage (fst (run capacity ops k)))) =
      replay (zip ops took) (kview capacity (image (storage k))).
Proof.
  intros Hw. revert k. induction ops as [|o ops IH]; intros k Hi Hok Hg; [by exists []|].
  apply List.Forall_cons_iff in Hok as [Ho Hok]. simpl in *.
  pose proof (run_op_post capacity o k Hi Ho (Hg k (or_introl eq_refl))) as Hp.
  destruct (run_op capacity o k) as [k1 r] eqn:Hr. simpl in Hp, Hg.
  destruct (op_post_effective o k k1 r Hw Hp) as (t & Ht & Hk1).
  destruct (IH k1) as (took & Hto & Hk2); [apply Hp | done | intros k' Hin; apply Hg; by right|].
  destruct (run capacity ops k1) as [k2 rs]. simpl in *. exists (t :: took). split; [by constructor|].
  rewrite Hk2. unfold replay. simpl. by rewrite Hk1.
Qed.

(** C2. Everything one [set_bytes] can do, on any backend that keeps its contract. Success is
    exactly the update; the argument errors leave the region untouched; [Full] leaves the map
    and is reported only when the live data and the record do not fit a half (or the generation
    counter is used up); a write that fails anywhere inside (also in the compaction it may run)
    leaves the old map, the new map, or, only if a header word was left garbled as neither, one
    unreadable-record phantom behind the old log. *)
Theorem set_bytes_outcomes (s : S) (key : Z) (value : list Z) :
  0 <= key <= 65535 -> bytes_ok value -> cap_ok capacity (image s) ->
  let m := kview capacity (image s) in
  let '(s', r) := Kv.set_bytes capacity key value s in
  zlen (image s') = zlen (image s) /\
  match r with
  | Ok _ => kview capacity (image s') = upd key value m /\ 0 < key /\ zlen value <= MAX_VALUE
  | Err InvalidKey => key = 0 /\ image s' = image s
  | Err ValueTooLarge => MAX_VALUE < zlen value /\ image s' = image s
  | Err Full => kview capacity (image s') = m /\
      (half_len capacity < live_size m + record_size (zlen value) \/ ~ gen_room capacity (image s))
  | Err TooManyKeys => kview capacity (image s') = m
  | Err Stale => False
  | Err (Backend _) => kview capacity (image s') = m \/ kview capacity (image s') = upd key value m \/
      phantom_end (S := S) (E := E) capacity m (image s')
  end.
Proof.
  intros Hkey Hval Hcap m.
  pose proof (wpr_set_bytes_with (E := E) capacity key value None (image s) Hkey Hval Hcap I (image_ok s) s eq_refl) as H.
  unfold Kv.set_bytes, with_ram. destruct (set_bytes_with capacity key value (s, None)) as [[s' p] r].
  destruct H as (Hz & _ & _ & Hr). simpl in *. split; [done|]. destruct r as [[]|[]]; done.
Qed.

(** reading back. After a successful [set_bytes], every read returns what the updated map
    holds (the key's own value, and every other key's as before; an empty value reads absent),
    up to the caller's buffer, unless the backend fails the read. *)
Theorem get_after_set (s s' : S) (key key' cap : Z) (value : list Z) :
  0 <= key <= 65535 -> bytes_ok value -> cap_ok capacity (image s) -> 0 <= cap ->
  Kv.set_bytes (E := E) capacity key value s = (s', Ok tt) ->
  match snd (Kv.get_bytes (E := E) capacity key' cap s') with
  | Ok r => r = get_of key' cap (upd key value (kview capacity (image s)))
  | Err (Backend _) => True
  | Err _ => False
  end.
Proof.
  intros Hkey Hval Hcap Hc Hs.
  pose proof (wpr_set_bytes_with (E := E) capacity key value None (image s) Hkey Hval Hcap I (image_ok s) s eq_refl) as H.
  unfold Kv.set_bytes, with_ram in Hs. destruct (set_bytes_with capacity key value (s, None)) as [[s1 p] r].
  injection Hs as -> ->. destruct H as (Hz & _ & _ & Hm & _). simpl in Hz, Hm. rewrite <- Hm.
  apply (reads_run _ (fun r => r = get_of key' cap (kview capacity (image s')))).
  apply reads_get_bytes; [by apply (cap_ok_zlen _ _ _ Hcap) | apply image_ok | done].
Qed.

(** [flip_step] called until it reports no more work. *)
Fixpoint drive (fuel : nat) (budget : Z) : M (S * FlipState) (KvError E) bool :=
  match fuel with
  | O => ret true
  | Datatypes.S fuel =>
      let! more := flip_step capacity budget in
      if more then drive fuel budget else ret false
  end.

Lemma drive_post fuel budget st img :
  cap_ok capacity img -> FlipInv capacity img st -> 0 < budget <= u32_max ->
  active_of capacity img = Some (src_h st, src_gen st) ->
  wpr (drive fuel budget) (fun r st' img' =>
    hidden capacity img img' /\ FlipInv capacity img' st' /\
    active_of capacity img' = Some (src_h st', src_gen st') /\
    match r with
    | Ok true => 4 * budget * Z.of_nat fuel <= progress st' - progress st
    | Ok false | Err (Backend _) => True
    | Err _ => False
    end) st img.
Proof.
  revert st img. induction fuel as [|fuel IH]; intros st img Hcap HF Hb Hact; cbn [drive].
  { apply wpr_ret. split; [apply hidden_refl|]. split_and!; try done. lia. }
  apply wpr_bind. eapply wpr_conseq; [apply wpr_step_img; try done; lia|].
  intros r st1 img1 _ (Hh & Ha & HF1 & (Es & Eg & _) & Hr).
  assert (Hact1 : active_of capacity img1 = Some (src_h st1, src_gen st1)) by (by rewrite Ha, Es, Eg).
  destruct r as [[]|[]]; try done.
  - destruct Hr as [_ Hr]. eapply wpr_conseq; [apply (IH st1 img1); try done; by apply (cap_ok_zlen _ img), Hh|].
    intros r st2 img2 _ (Hh2 & HF2 & Ha2 & Hr2). split; [by eapply hidden_trans|]. split_and!; try done.
    destruct r as [[]|[]]; try done. specialize (Hr eq_refl). lia.
  - apply wpr_ret. by split_and!.
  - by destruct Hr.
Qed.

(** bounded maintenance ends. A flip planned by [flip_start], driven with any positive word
    budget per step, is complete after at most [half_len / (2 * budget) + 1] steps unless the
    backend fails; no step changes the map, and the plan stays sound for the commit. *)
Theorem incremental_flip_completes (s : S) (st : FlipState) (budget : Z) (fuel : nat) :
  cap_ok capacity (image s) -> 0 < budget <= u32_max ->
  snd (flip_start (E := E) capacity s) = Ok (Some st) ->
  half_len capacity < 2 * budget * Z.of_nat fuel ->
  let '((s', st'), r) := drive fuel budget (s, st) in
  kview capacity (image s') = kview capacity (image s) /\ FlipInv capacity (image s') st' /\
  match r with Ok more => more = false | Err (Backend _) => True | Err _ => False end.
Proof.
  intros Hcap Hb Hst Hf.
  pose proof (wp_flip_start capacity (image s) Hcap (image_ok s) s eq_refl) as [_ H]. rewrite Hst in H.
  destruct H as (Hact & HF & Hp0).
  pose proof (drive_post fuel budget st (image s) Hcap HF Hb Hact (image_ok s) s eq_refl) as Hd.
  destruct (drive fuel budget (s, st)) as [[s' st'] r]. simpl in Hd. destruct Hd as ((Hz & Hk & _) & HF' & Ha' & Hr).
  split; [done|]. split; [done|]. destruct r as [[]|[]]; try done. exfalso.
  destruct HF' as [_ HF']. destruct (HF' Ha') as [l1 HP].
  pose proof (plan_progress capacity (image s') (cap_ok_zlen _ _ _ Hcap Hz) (image_ok s') (src_h st')
    (active_half _ _ _ _ Ha') _ _ _ HP). lia.
Qed.

(** the commit is the compaction. Whatever was appended to the active half since the plan was
    made, a successful [flip_commit] makes the other half active one generation on, holding
    exactly the planned live records and then the appended ones, packed from the start; the map
    is unchanged at every point, also when a write fails. *)
Theorem flip_commit_compacts (s : S) (st : FlipState) (l1 : list entry) :
  cap_ok capacity (image s) -> active_of capacity (image s) = Some (src_h st, src_gen st) -> src_gen st < u32_max ->
  PlanInv (half_len capacity) (half_area capacity (image s) (src_h st)) l1 st
    (half_area capacity (image s) (1 - src_h st)) ->
  let '(s', r) := with_ram st (flip_commit (E := E) capacity) s in
  kview capacity (image s') = kview capacity (image s) /\
  match r with
  | Ok _ => exists l2, (log (half_area capacity (image s) (src_h st))).1 = l1 ++ l2 /\
      active_of capacity (image s') = Some (1 - src_h st, src_gen st + 1) /\
      log (half_area capacity (image s') (1 - src_h st)) =
        (pack 0 (keep (latest_of l1) l1 ++ l2), packed_size (keep (latest_of l1) l1 ++ l2))
  | Err (Backend _) => True
  | Err _ => False
  end.
Proof.
  intros Hcap Hact Hg HP. pose proof (active_half _ _ _ _ Hact) as Hh.
  assert (H : wp (with_ram st (flip_commit (E := E) capacity))
    (fun r img' => fcommit_post (E := E) capacity (image s) (src_h st) (src_gen st) l1 r img') (image s)).
  { apply wp_with.
    pose proof (wpr_flip_commit (E := E) capacity (image s) (src_h st) l1 st _ Hcap (image_ok s) Hact eq_refl HP) as Hc.
    by rewrite dst_self in Hc. }
  specialize (H (image_ok s) s eq_refl). destruct (with_ram st (flip_commit capacity) s) as [s' r].
  destruct H as (_ & Hk & _ & Hr). simpl in *. split; [done|]. destruct r as [[]|[]]; try done.
  destruct (Hr Hg) as [Ha (l2 & Hl & Hlog)]. by exists l2.
Qed.

(** factory reset. [wipe] that succeeds leaves the empty map on a mounted region; wherever it
    is cut, the map is the old one or empty, never a part of it. *)
Theorem wipe_old_or_empty (s : S) :
  cap_ok capacity (image s) -> gen_room capacity (image s) ->
  let '(s', r) := Kv.wipe (E := E) capacity s in
  match r with
  | Ok _ => kview capacity (image s') = ∅ /\ active_of capacity (image s') <> None
  | Err (Backend _) => kview capacity (image s') = kview capacity (image s) \/ kview capacity (image s') = ∅
  | Err _ => False
  end.
Proof.
  intros Hcap Hg. pose proof (wp_wipe (E := E) capacity (image s) Hcap Hg (image_ok s) s eq_refl) as H.
  destruct (Kv.wipe capacity s) as [s' r]. apply H.
Qed.
End StoreProps.

(** ** The theorems on the RAM EEPROM *)

Lemma cap_ok_88 img : zlen img = 88 -> cap_ok 88 img.
Proof. intros H. unfold cap_ok. rewrite H. change (region 88) with 88. lia. Qed.

Lemma ram_atomic : atomic_words (S := Ram) (E := unit).
Proof. intros old new g Hg. right. right. exact Hg. Qed.

Definition gen_roomb (capacity : Z) (r : Ram) : bool :=
  match active_of capacity (ram_image r) with Some (_, g) => g + 1 <? u32_max | None => true end.
Lemma gen_roomb_ok capacity r : gen_roomb capacity r = true -> gen_room capacity (image r).
Proof. unfold gen_roomb, gen_room. simpl. destruct (active_of capacity _) as [[h g]|]; [apply Z.ltb_lt | done]. Qed.

(** Two writes, background work cut after its third word program, a reboot, a delete. *)
Definition demo_ops : list op := [Set_ 5 [1; 2; 3]; Set_ 6 [9]; Maintain 2; Compact; Reboot; Delete 5].
Definition demo_kv : Kv Ram := new 88 (blank_part 15).

Lemma kv_history_witness :
  exists took, Forall2 effective (snd (run 88 demo_ops demo_kv)) took /\
    kview 88 (image (storage (fst (run 88 demo_ops demo_kv)))) =
      replay (zip demo_ops took) (kview 88 (image (storage demo_kv))).
Proof.
  apply (kv_history 88 demo_ops demo_kv).
  - apply ram_atomic.
  - split; [by apply cap_ok_88 | apply maint_new_ok].
  - repeat constructor; simpl; unfold byte_ok; mlia.
  - assert (H : forallb (fun k : Kv Ram => gen_roomb 88 (storage k)) (states 88 demo_ops demo_kv) = true)
      by (vm_compute; reflexivity).
    intros k' Hin. apply gen_roomb_ok. exact (proj1 (List.forallb_forall _ _) H k' Hin).
Defined.

Lemma set_bytes_outcomes_witness :
  let '(s', r) := Kv.set_bytes 88 5 [1; 2; 3] (blank_part 6) in
  r = Ok tt /\ kview 88 (image s') = {[5 := [1; 2; 3]]}.
Proof.
  assert (Hc : cap_ok 88 (image (blank_part 6))) by (apply cap_ok_88; vm_compute; reflexivity).
  assert (Hv : bytes_ok [1; 2; 3]) by (apply bytes_okb_ok; reflexivity).
  pose proof (set_bytes_outcomes (E := unit) 88 (blank_part 6) 5 [1; 2; 3] ltac:(lia) Hv Hc) as H.
  cbv zeta in H. assert (Hr : snd (Kv.set_bytes 88 5 [1; 2; 3] (blank_part 6)) = Ok tt) by (vm_compute; reflexivity).
  assert (Hk : kview 88 (image (blank_part 6)) = ∅) by (vm_compute; reflexivity).
  rewrite Hk in H. destruct (Kv.set_bytes 88 5 [1; 2; 3] (blank_part 6)) as [s' r].
  simpl in Hr. subst r. destruct H as (_ & H & _). split; [reflexivity | exact H].
Defined.

Definition demo_set : Ram := fst (Kv.set_bytes (E := unit) 88 5 [1; 2; 3] (blank_part 100)).

Lemma get_after_set_witness :
  match snd (Kv.get_bytes (E := unit) 88 5 2 demo_set) with
  | Ok r => r = Some (3, [1; 2])
  | Err (Backend _) => True
  | Err _ => False
  end.
Proof.
  assert (Hg : get_of 5 2 (upd 5 [1; 2; 3] (kview 88 (image (blank_part 100)))) = Some (3, [1; 2]))
    by (vm_compute; reflexivity).
  rewrite <- Hg. apply (get_after_set 88 (blank_part 100) demo_set 5 5 2 [1; 2; 3]).
  - lia.
  - apply bytes_okb_ok. reflexivity.
  - apply cap_ok_88. reflexivity.
  - lia.
  - vm_compute. reflexivity.
Defined.

Definition demo_plan : FlipState :=
  match snd (flip_start (E := unit) 88 demo_set) with
  | Ok (Some st) => st
  | _ => {| src_h := 0; src_gen := 0; src_end := 0; latest := []; blank_off := 0; read_off := 0; write_off := 0; rec_copied := 0 |}
  end.

Lemma incremental_flip_completes_witness :
  let '((s', st'), r) := drive 88 17 1 (demo_set, demo_plan) in
  kview 88 (image s') = kview 88 (image demo_set) /\ FlipInv 88 (image s') st' /\
  match r with Ok more => more = false | Err (Backend _) => True | Err _ => False end.
Proof.
  apply (incremental_flip_completes 88 demo_set demo_plan 1 17).
  - apply cap_ok_88. vm_compute. reflexivity.
  - mlia.
  - vm_compute. reflexivity.
  - vm_compute. reflexivity.
Defined.

Lemma flip_commit_compacts_witness :
  let '(s', r) := with_ram demo_plan (flip_commit (E := unit) 88) demo_set in
  kview 88 (image s') = kview 88 (image demo_set) /\ r = Ok tt.
Proof.
  assert (Hcap : cap_ok 88 (image demo_set)) by (apply cap_ok_88; vm_compute; reflexivity).
  assert (Hst : snd (flip_start (E := unit) 88 demo_set) = Ok (Some demo_plan)) by (vm_compute; reflexivity).
  pose proof (wp_flip_start (E := unit) 88 (image demo_set) Hcap (image_ok demo_set) demo_set eq_refl) as [_ H].
  rewrite Hst in H. destruct H as (Hact & [_ HF] & _). destruct (HF Hact) as [l1 HP].
  assert (Hg : src_gen demo_plan < u32_max) by (vm_compute; reflexivity).
  pose proof (flip_commit_compacts (E := unit) 88 demo_set demo_plan l1 Hcap Hact Hg HP) as Hc.
  assert (Hr : snd (with_ram demo_plan (flip_commit (E := unit) 88) demo_set) = Ok tt) by (vm_compute; reflexivity).
  destruct (with_ram demo_plan (flip_commit 88) demo_set) as [s' r].
  split; [exact (proj1 Hc) | exact Hr].
Defined.

Lemma wipe_old_or_empty_witness :
  let '(s', r) := Kv.wipe (E := unit) 88 demo_set in
  match r with
  | Ok _ => kview 88 (image s') = ∅ /\ active_of 88 (image s') <> None
  | Err (Backend _) => kview 88 (image s') = kview 88 (image demo_set) \/ kview 88 (image s') = ∅
  | Err _ => False
  end.
Proof.
  apply (wipe_old_or_empty (E := unit) 88 demo_set).
  - apply cap_ok_88. vm_compute. reflexivity.
  - apply gen_roomb_ok. vm_compute. reflexivity.
Defined.
