(* ===== verification/GwQueue.v ===== *)
(** The gateway's downlink queue (crates/gateway/src/queue.rs): the slot pool as the code keeps
    it, and its refinement of the obvious specification, a list of items in the order they were
    queued. *)
From Stdlib Require Import Sorting.Sorted FinFun.
From S2P Require Import Prelude Bytes.

Definition QUEUE_CAP : Z := 4.
Definition PER_NODE_CAP : Z := 2.
Definition MAX_ITEM : Z := 74.
#[export] Hint Unfold QUEUE_CAP PER_NODE_CAP MAX_ITEM : machine.

Inductive PushError := Full | PerNodeFull | BadPayload.

Module Queue.

Record Item := {
  id : Z; node_addr : Z; enqueued_at_ms : Z; ttl : Z; order : Z; len : Z; buf : list Z;
}.

Definition data (it : Item) : list Z := slice (buf it) 0 (len it).
Definition age (it : Item) (now_ms : Z) : Z := Z.min (sat_sub now_ms (enqueued_at_ms it) / 1000) u16_max.
Definition expired (it : Item) (now_ms : Z) : bool := ttl it * 1000 <=? sat_sub now_ms (enqueued_at_ms it).

Record Queue := { slots : list (option Item); next_id : Z; next_order : Z }.

Definition new : Queue := {| slots := replicate (Z.to_nat QUEUE_CAP) None; next_id := 1; next_order := 0 |}.

(** [slots.iter().flatten()]. *)
Fixpoint flatten (s : list (option Item)) : list Item :=
  match s with
  | [] => []
  | Some it :: s => it :: flatten s
  | None :: s => flatten s
  end.
Definition iter (q : Queue) : list Item := flatten (slots q).

Definition count_for (q : Queue) (node : Z) : Z := zlen (List.filter (fun it => node_addr it =? node) (iter q)).
Definition qlen (q : Queue) : Z := zlen (iter q).
Definition is_empty (q : Queue) : bool := qlen q =? 0.

(** [slots.iter().position(|s| s.is_none())]. *)
Fixpoint first_free (s : list (option Item)) : option nat :=
  match s with
  | [] => None
  | None :: _ => Some O
  | Some _ :: s => option_map Datatypes.S (first_free s)
  end.

(** [id.checked_add(1).filter(|&v| v != 0).unwrap_or(1)] on u16. *)
Definition id_succ (i : Z) : Z := if i =? u16_max then 1 else i + 1.

(** The id search loop. *)
Fixpoint free_id (fuel : nat) (its : list Item) (i : Z) : Z :=
  match fuel with
  | O => i
  | Datatypes.S fuel => if existsb (fun it => id it =? i) its then free_id fuel its (id_succ i) else i
  end.

Definition push (q : Queue) (node ttl_s : Z) (d : list Z) (now_ms : Z) : Queue * result PushError Z :=
  if (zlen d =? 0) || (MAX_ITEM <? zlen d) then (q, Err BadPayload)
  else if PER_NODE_CAP <=? count_for q node then (q, Err PerNodeFull)
  else
    match first_free (slots q) with
    | None => (q, Err Full)
    | Some slot =>
        let i := free_id (Z.to_nat QUEUE_CAP + 1) (iter q) (next_id q) in
        let it := {| id := i; node_addr := node; enqueued_at_ms := now_ms; ttl := ttl_s;
                     order := next_order q; len := wrap8 (zlen d); buf := patch (zeros MAX_ITEM) 0 d |} in
        ({| slots := <[slot := Some it]> (slots q); next_id := id_succ i;
            next_order := wrap32 (next_order q + 1) |}, Ok i)
    end.

(** [min_by_key(|it| it.order)]: the first of the smallest. *)
Definition min_by_order (its : list Item) : option Item :=
  fold_left (fun acc it => match acc with
                           | None => Some it
                           | Some m => if order it <? order m then Some it else Some m
                           end) its None.

Definition peek_for (q : Queue) (node now_ms : Z) : option Item :=
  min_by_order (List.filter (fun it => (node_addr it =? node) && negb (expired it now_ms)) (iter q)).

Fixpoint pop_slots (i : Z) (s : list (option Item)) : list (option Item) * option Item :=
  match s with
  | [] => ([], None)
  | Some it :: s' =>
      if id it =? i then (None :: s', Some it)
      else let '(s'', r) := pop_slots i s' in (Some it :: s'', r)
  | None :: s' => let '(s'', r) := pop_slots i s' in (None :: s'', r)
  end.
Definition pop (q : Queue) (i : Z) : Queue * option Item :=
  let '(s, r) := pop_slots i (slots q) in
  ({| slots := s; next_id := next_id q; next_order := next_order q |}, r).

(** The loops of [drop_node] and [expire]: the slots kept and the items taken, in slot order. *)
Fixpoint take_slots (p : Item -> bool) (s : list (option Item)) : list (option Item) * list Item :=
  match s with
  | [] => ([], [])
  | Some it :: s' =>
      let '(s'', r) := take_slots p s' in
      if p it then (None :: s'', it :: r) else (Some it :: s'', r)
  | None :: s' => let '(s'', r) := take_slots p s' in (None :: s'', r)
  end.
Definition drop_node (q : Queue) (node : Z) : Queue * Z :=
  let '(s, r) := take_slots (fun it => node_addr it =? node) (slots q) in
  ({| slots := s; next_id := next_id q; next_order := next_order q |}, zlen r).
(** The [on_expired] calls, in order. *)
Definition expire (q : Queue) (now_ms : Z) : Queue * list (Z * Z) :=
  let '(s, r) := take_slots (fun it => expired it now_ms) (slots q) in
  ({| slots := s; next_id := next_id q; next_order := next_order q |},
   map (fun it => (id it, node_addr it)) r).

(** ** The specification: items in the order they were queued *)

Definition id_ok (i : Z) : Prop := 1 <= i <= u16_max.

(** [l] is the queue's content, oldest first. *)
Record Rep (q : Queue) (l : list Item) : Prop := {
  rep_items : iter q ≡ₚ l;
  rep_slots : zlen (slots q) = QUEUE_CAP;
  rep_order : StronglySorted (fun a b => order a < order b) l;
  rep_stamp : 0 <= next_order q;
  rep_bound : Forall (fun it => 0 <= order it < next_order q) l;
  rep_ids : NoDup (map id l);
  rep_id_ok : Forall (fun it => id_ok (id it)) l;
  rep_next : id_ok (next_id q);
  rep_node : forall node, zlen (List.filter (fun it => node_addr it =? node) l) <= PER_NODE_CAP;
  rep_data : Forall (fun it => 0 < zlen (data it) <= MAX_ITEM) l;
}.

(** Calls and their answers. *)
Inductive qop :=
| Push (node ttl_s : Z) (d : list Z) (now_ms : Z)
| Peek (node now_ms : Z)
| Pop (i : Z)
| DropNode (node : Z)
| Expire (now_ms : Z).
Inductive qout :=
| OPush (r : result PushError Z)
| OItem (r : option Item)
| OCount (n : Z)
| OReports (r : list (Z * Z)).

Definition qstep (q : Queue) (o : qop) : Queue * qout :=
  match o with
  | Push node ttl_s d now_ms => let '(q', r) := push q node ttl_s d now_ms in (q', OPush r)
  | Peek node now_ms => (q, OItem (peek_for q node now_ms))
  | Pop i => let '(q', r) := pop q i in (q', OItem r)
  | DropNode node => let '(q', n) := drop_node q node in (q', OCount n)
  | Expire now_ms => let '(q', r) := expire q now_ms in (q', OReports r)
  end.

(** What a queue of items in arrival order answers. *)
Definition of_node (node : Z) (l : list Item) : list Item := List.filter (fun it => node_addr it =? node) l.
Inductive sstep (l : list Item) : qop -> list Item -> qout -> Prop :=
| SPush node ttl_s d now_ms it :
    0 < zlen d <= MAX_ITEM -> zlen (of_node node l) < PER_NODE_CAP -> zlen l < QUEUE_CAP ->
    ~ In (id it) (map id l) -> id_ok (id it) ->
    node_addr it = node -> ttl it = ttl_s -> data it = d -> enqueued_at_ms it = now_ms ->
    sstep l (Push node ttl_s d now_ms) (l ++ [it]) (OPush (Ok (id it)))
| SBad node ttl_s d now_ms :
    zlen d = 0 \/ MAX_ITEM < zlen d -> sstep l (Push node ttl_s d now_ms) l (OPush (Err BadPayload))
| SNodeFull node ttl_s d now_ms :
    0 < zlen d <= MAX_ITEM -> zlen (of_node node l) = PER_NODE_CAP ->
    sstep l (Push node ttl_s d now_ms) l (OPush (Err PerNodeFull))
| SFull node ttl_s d now_ms :
    0 < zlen d <= MAX_ITEM -> zlen (of_node node l) < PER_NODE_CAP -> zlen l = QUEUE_CAP ->
    sstep l (Push node ttl_s d now_ms) l (OPush (Err Full))
| SPeek node now_ms :
    sstep l (Peek node now_ms) l
      (OItem (List.find (fun it => (node_addr it =? node) && negb (expired it now_ms)) l))
| SPop i :
    sstep l (Pop i) (List.filter (fun it => negb (id it =? i)) l) (OItem (List.find (fun it => id it =? i) l))
| SDrop node :
    sstep l (DropNode node) (List.filter (fun it => negb (node_addr it =? node)) l) (OCount (zlen (of_node node l)))
| SExpire now_ms r :
    r ≡ₚ map (fun it => (id it, node_addr it)) (List.filter (fun it => expired it now_ms) l) ->
    sstep l (Expire now_ms) (List.filter (fun it => negb (expired it now_ms)) l) (OReports r).

Fixpoint qrun (q : Queue) (ops : list qop) : Queue * list qout :=
  match ops with
  | [] => (q, [])
  | o :: ops => let '(q', r) := qstep q o in let '(q'', rs) := qrun q' ops in (q'', r :: rs)
  end.
Inductive srun : list Item -> list qop -> list Item -> list qout -> Prop :=
| srun_nil l : srun l [] l []
| srun_cons l o ops l1 l2 r rs : sstep l o l1 r -> srun l1 ops l2 rs -> srun l (o :: ops) l2 (r :: rs).

(** ** Ids *)

Lemma id_succ_ok i : id_ok i -> id_ok (id_succ i).
Proof. unfold id_ok, id_succ. intros. destruct (i =? u16_max) eqn:Hi; bool_hyps; mlia. Qed.

(** The ids the search tries. *)
Definition try_id (i : Z) (k : nat) : Z := Nat.iter k id_succ i.

Lemma try_id_val i k : id_ok i -> try_id i k = 1 + (i - 1 + Z.of_nat k) mod u16_max.
Proof.
  intros Hi. unfold try_id. induction k as [|k IH].
  - simpl. rewrite Z.mod_small; unfold id_ok in *; mlia.
  - cbn [Nat.iter nat_rect]. unfold Nat.iter in IH. rewrite IH. unfold id_succ.
    change u16_max with 65535 in *. unfold id_ok in Hi. change u16_max with 65535 in Hi.
    replace (i - 1 + Z.of_nat (Datatypes.S k)) with (i - 1 + Z.of_nat k + 1) by lia.
    set (x := i - 1 + Z.of_nat k). pose proof (Z.mod_pos_bound x 65535 ltac:(lia)).
    rewrite <- (Z.add_mod_idemp_l x 1) by lia. destruct (_ =? 65535) eqn:E; bool_hyps.
    + replace (x mod 65535 + 1) with (1 * 65535) by lia. by rewrite Z.mod_mul.
    + rewrite (Z.mod_small (x mod 65535 + 1)); lia.
Qed.

Lemma try_id_inj i j k : id_ok i -> Z.of_nat j < 65535 -> Z.of_nat k < 65535 -> try_id i j = try_id i k -> j = k.
Proof.
  intros Hi Hj Hk. rewrite !try_id_val by done. change u16_max with 65535. intros H.
  assert (He : (i - 1 + Z.of_nat j) mod 65535 = (i - 1 + Z.of_nat k) mod 65535) by lia.
  pose proof (Z.div_mod (i - 1 + Z.of_nat j) 65535 ltac:(lia)).
  pose proof (Z.div_mod (i - 1 + Z.of_nat k) 65535 ltac:(lia)). lia.
Qed.

Lemma free_id_try fuel its i :
  exists k, (k <= fuel)%nat /\ free_id fuel its i = try_id i k /\
    (forall j, (j < k)%nat -> In (try_id i j) (map id its)) /\
    ((k < fuel)%nat -> ~ In (try_id i k) (map id its)).
Proof.
  revert i. induction fuel as [|fuel IH]; intros i; cbn [free_id].
  - exists O. split; [lia|]. split; [done|]. split; lia.
  - destruct (existsb _ its) eqn:He.
    + destruct (IH (id_succ i)) as (k & Hk & Hf & Hin & Hout). exists (Datatypes.S k).
      assert (Ht : forall j, try_id (id_succ i) j = try_id i (Datatypes.S j)).
      { intros j. unfold try_id. by rewrite Nat.iter_succ_r. }
      split; [lia|]. split; [by rewrite Hf, Ht|]. split.
      * intros [|j] Hj; [|rewrite <- Ht; apply Hin; lia].
        apply List.existsb_exists in He as (it & Hit & Hid). bool_hyps. subst i. exact (List.in_map id _ _ Hit).
      * intros Hlt. rewrite <- Ht. apply Hout. lia.
    + exists O. split; [lia|]. split; [done|]. split; [lia|]. intros _ Hin.
      apply in_map_iff in Hin as (it & Hid & Hin).
      assert (existsb (fun it => id it =? i) its = true); [|congruence].
      apply List.existsb_exists. exists it. split; [done|]. by apply Z.eqb_eq.
Qed.

(** The loop ends on an id no queued item holds. *)
Lemma free_id_fresh its i fuel :
  id_ok i -> (length its < fuel)%nat -> zlen its < 65534 ->
  ~ In (free_id fuel its i) (map id its) /\ id_ok (free_id fuel its i).
Proof.
  intros Hi Hf Hl. unfold zlen in Hl. destruct (free_id_try fuel its i) as (k & Hk & -> & Hin & Hout).
  assert (Hok : id_ok (try_id i k)).
  { rewrite try_id_val by done. unfold id_ok. pose proof (Z.mod_pos_bound (i - 1 + Z.of_nat k) u16_max). mlia. }
  split; [|done]. apply Hout.
  destruct (le_lt_dec k (length its)) as [?|Hgt]; [lia|]. exfalso.
  pose proof (NoDup_incl_length (l := map (try_id i) (seq 0 (Datatypes.S (length its)))) (l' := map id its)) as Hp.
  rewrite !length_map, length_seq in Hp. enough (Datatypes.S (length its) <= length its)%nat by lia. apply Hp.
  - apply NoDup_map_NoDup_ForallPairs; [|apply List.seq_NoDup].
    intros a b Ha Hb Hab. apply in_seq in Ha, Hb. apply (try_id_inj i); [done | lia | lia | exact Hab].
  - intros x Hx. apply in_map_iff in Hx as (j & <- & Hj). apply in_seq in Hj. apply Hin. lia.
Qed.

(** ** The slot pool *)

#[local] Abbreviation items s := (flatten s).

Lemma first_free_None s : first_free s = None -> length (items s) = length s.
Proof.
  induction s as [|[it|] s IH]; simpl; [done | | done].
  destruct (first_free s); [done|]. intros _. simpl. by rewrite IH.
Qed.
Lemma first_free_Some s k it : first_free s = Some k -> items (<[k := Some it]> s) ≡ₚ it :: items s.
Proof.
  revert k. induction s as [|[it'|] s IH]; intros k; simpl; [done | |].
  - destruct (first_free s) as [k'|]; [|done]. intros [= <-]. simpl. rewrite IH by done. apply Permutation_swap.
  - intros [= <-]. done.
Qed.
Lemma items_length_le s : (length (items s) <= length s)%nat.
Proof. induction s as [|[?|] s IH]; simpl; lia. Qed.

Lemma pop_slots_spec i s :
  length (pop_slots i s).1 = length s /\
  match (pop_slots i s).2 with
  | Some it => id it = i /\ items s ≡ₚ it :: items (pop_slots i s).1
  | None => (pop_slots i s).1 = s /\ forall it, In it (items s) -> id it <> i
  end.
Proof.
  induction s as [|[it|] s [Hl IH]]; simpl; [by split | |].
  - destruct (id it =? i) eqn:Hi; bool_hyps; [by split|].
    destruct (pop_slots i s) as [s' [it'|]]; simpl in *.
    + split; [lia|]. destruct IH as [? Hp]. split; [done|]. rewrite Hp. apply Permutation_swap.
    + split; [lia|]. destruct IH as [-> Hn]. split; [done|]. intros it' [<-|]; auto.
  - destruct (pop_slots i s) as [s' [it'|]]; simpl in *; (split; [lia|]); [done|].
    destruct IH as [-> ?]. done.
Qed.

Lemma take_slots_spec p s :
  length (take_slots p s).1 = length s /\
  (take_slots p s).2 = List.filter p (items s) /\
  items (take_slots p s).1 = List.filter (fun it => negb (p it)) (items s).
Proof.
  induction s as [|[it|] s (Hl & Hr & Hk)]; simpl; [done | |];
    destruct (take_slots p s) as [s' r]; simpl in *; subst r.
  - destruct (p it); simpl; rewrite Hk; by split_and!; [lia | |].
  - by split_and!; [lia | |].
Qed.


(** ** Simulation *)

Lemma Permutation_filter_bool {A} (p : A -> bool) l k : l ≡ₚ k -> List.filter p l ≡ₚ List.filter p k.
Proof.
  induction 1; simpl; try destruct (p x); try destruct (p y); try constructor; try done.
  by etrans.
Qed.
Lemma zlen_Permutation {A} (l k : list A) : l ≡ₚ k -> zlen l = zlen k.
Proof. intros H. unfold zlen. by rewrite (Permutation_length H). Qed.
Lemma Sorted_filter {A} (R : A -> A -> Prop) p l : StronglySorted R l -> StronglySorted R (List.filter p l).
Proof.
  induction 1 as [|x l Hs IH Hf]; simpl; [constructor|]. destruct (p x); [|done]. constructor; [done|].
  rewrite List.Forall_forall in *. intros y [Hy _]%List.filter_In. auto.
Qed.
Lemma Sorted_snoc {A} (R : A -> A -> Prop) l x : StronglySorted R l -> Forall (fun y => R y x) l -> StronglySorted R (l ++ [x]).
Proof.
  induction 1 as [|y l Hs IH Hf]; simpl; intros Hx; [by repeat constructor|].
  apply List.Forall_cons_iff in Hx as [Hyx Hx]. constructor; [by apply IH|].
  apply List.Forall_app. split; [done | by repeat constructor].
Qed.
Lemma NoDup_filter_map {A B} (f : A -> B) p l : NoDup (map f l) -> NoDup (map f (List.filter p l)).
Proof.
  induction l as [|x l IH]; simpl; [done|]. intros [Hni Hnd]%list.NoDup_cons.
  destruct (p x); [|by apply IH]. simpl. apply list.NoDup_cons. split; [|by apply IH].
  rewrite list_elem_of_In, in_map_iff. intros (y & Hy & [Hin _]%List.filter_In).
  apply Hni, list_elem_of_In, in_map_iff. by exists y.
Qed.
Lemma Forall_filter {A} (P : A -> Prop) p l : Forall P l -> Forall P (List.filter p l).
Proof. rewrite !List.Forall_forall. intros H x [Hx _]%List.filter_In. auto. Qed.
Lemma zlen_filter_le {A} (p q : A -> bool) l : zlen (List.filter p (List.filter q l)) <= zlen (List.filter p l).
Proof.
  induction l as [|x l IH]; simpl; [lia|]. destruct (q x); simpl; destruct (p x); rewrite ?zlen_cons; lia.
Qed.

(** Removing items keeps the representation. *)
Lemma Rep_filter q l p s :
  Rep q l -> flatten s ≡ₚ List.filter p l -> zlen s = QUEUE_CAP ->
  Rep {| slots := s; next_id := next_id q; next_order := next_order q |} (List.filter p l).
Proof.
  intros [Hi Hs Ho Hno Hb Hd Hok Hn Hnode Hdata] Hf Hz.
  constructor; simpl; try done; auto using Sorted_filter, Forall_filter, NoDup_filter_map.
  intros node. specialize (Hnode node). pose proof (zlen_filter_le (fun it => node_addr it =? node) p l). lia.
Qed.

Lemma Rep_new : Rep new [].
Proof.
  constructor; try done; try constructor; unfold id_ok; simpl; mlia.
Qed.

(** The oldest match is the first in arrival order. *)
Lemma min_by_order_first its l :
  its ≡ₚ l -> StronglySorted (fun a b => order a < order b) l -> min_by_order its = hd_error l.
Proof.
  intros Hp Hs. unfold min_by_order.
  set (f := fun (acc : option Item) it => match acc with None => Some it | Some m => if order it <? order m then Some it else Some m end).
  assert (Hmin : forall its acc m, fold_left f its acc = Some m ->
    (In m its \/ acc = Some m) /\ (forall x, In x its -> order m <= order x) /\
    (forall a, acc = Some a -> order m <= order a)).
  { clear. induction its as [|x its IH]; intros acc m H; simpl in H.
    - split; [by right|]. split; [done|]. intros a Ha. rewrite H in Ha. injection Ha as ->. lia.
    - destruct (IH _ _ H) as (Hin & Hle & Hacc). destruct acc as [a|]; simpl in *.
      + destruct (order x <? order a) eqn:Hx; bool_hyps; specialize (Hacc _ eq_refl).
        * split; [destruct Hin as [?|[= ->]]; auto|]. split; [intros y [<-|?]; auto; lia|]. intros ? [= <-]. lia.
        * split; [destruct Hin as [?|[= ->]]; auto|]. split; [intros y [<-|?]; auto; lia|]. intros ? [= <-]. lia.
      + specialize (Hacc _ eq_refl). split; [destruct Hin as [?|[= ->]]; auto|]. split; [|done].
        intros y [<-|?]; auto. }
  assert (Hsome : forall its a, exists m, fold_left f its (Some a) = Some m).
  { clear. induction its as [|x its IH]; intros a; simpl; [by eexists|]. destruct (order x <? order a); apply IH. }
  destruct l as [|x l]; [apply Permutation_sym, Permutation_nil in Hp; by subst|]. simpl.
  destruct its as [|y its]; [by apply Permutation_nil in Hp|].
  destruct (Hsome its y) as [m Hm]. cbn [fold_left]. change (f None y) with (Some y). rewrite Hm. f_equal.
  assert (Hm2 : fold_left f (y :: its) None = Some m) by exact Hm.
  destruct (Hmin _ _ _ Hm2) as ([Hin|?] & Hle & _); [|done].
  assert (Hxm : order m <= order x).
  { apply Hle. eapply Permutation_in; [symmetry; exact Hp | by left]. }
  pose proof (Permutation_in _ Hp Hin) as [->|Hin']; [done|]. exfalso.
  apply StronglySorted_inv in Hs as [_ Hf]. rewrite List.Forall_forall in Hf. specialize (Hf _ Hin'). simpl in Hf. lia.
Qed.

Lemma hd_filter_find {A} (p : A -> bool) l : hd_error (List.filter p l) = List.find p l.
Proof. induction l as [|x l IH]; simpl; [done|]. by destruct (p x). Qed.

Lemma peek_refines q l node now_ms : Rep q l ->
  peek_for q node now_ms = List.find (fun it => (node_addr it =? node) && negb (expired it now_ms)) l.
Proof.
  intros HR. unfold peek_for. rewrite <- hd_filter_find. apply min_by_order_first.
  - apply Permutation_filter_bool, HR.
  - apply Sorted_filter, HR.
Qed.

Lemma find_unique i l it : NoDup (map id l) -> In it l -> id it = i -> List.find (fun x => id x =? i) l = Some it.
Proof.
  induction l as [|x l IH]; simpl; [done|]. intros [Hni Hnd]%list.NoDup_cons [->|Hin] Hi.
  - by rewrite (proj2 (Z.eqb_eq _ _)).
  - destruct (id x =? i) eqn:Hx; bool_hyps; [|by apply IH]. exfalso. apply Hni, list_elem_of_In, in_map_iff.
    exists it. split; [congruence | done].
Qed.

Lemma pop_refines q l i : Rep q l ->
  snd (pop q i) = List.find (fun it => id it =? i) l /\
  Rep (fst (pop q i)) (List.filter (fun it => negb (id it =? i)) l).
Proof.
  intros HR. pose proof HR as [Hi Hs Ho Hno Hb Hd Hok Hn Hnode Hdata]. unfold pop, iter in *.
  destruct (pop_slots_spec i (slots q)) as [Hl Hp]. destruct (pop_slots i (slots q)) as [s r]. simpl in *.
  assert (Hz : zlen s = QUEUE_CAP) by (unfold zlen in *; congruence).
  destruct r as [it|].
  - destruct Hp as [Hid Hp]. rewrite Hp in Hi.
    assert (Hin : In it l) by (eapply Permutation_in; [exact Hi | by left]).
    split; [symmetry; by apply find_unique|]. apply (Rep_filter q l _ s HR); [|done].
    assert (Hf : List.filter (fun it => negb (id it =? i)) (it :: flatten s) ≡ₚ List.filter (fun it => negb (id it =? i)) l)
      by (by apply Permutation_filter_bool).
    simpl in Hf. rewrite (proj2 (Z.eqb_eq _ _) Hid) in Hf. simpl in Hf. rewrite <- Hf.
    assert (Hnd : NoDup (map id (it :: flatten s))) by (by rewrite Hi).
    simpl in Hnd. apply list.NoDup_cons in Hnd as [Hni _]. clear -Hni Hid.
    induction (flatten s) as [|x k IH]; simpl; [done|].
    simpl in Hni. apply not_elem_of_cons in Hni as [Hne Hni]. rewrite (proj2 (Z.eqb_neq _ _)) by congruence.
    simpl. constructor. by apply IH.
  - destruct Hp as [-> Hnone].
    assert (Hno' : forall it, In it l -> id it <> i) by (intros it Hin; apply Hnone; by eapply Permutation_in; [symmetry|]).
    split.
    + symmetry. destruct (List.find _ l) as [it|] eqn:Hf; [|done]. apply List.find_some in Hf as [Hin ?]. bool_hyps.
      by apply Hno' in Hin.
    + apply (Rep_filter q l _ (slots q) HR); [|done]. rewrite Hi. clear -Hno'. induction l as [|x l IH]; simpl; [done|].
      rewrite (proj2 (Z.eqb_neq _ _)) by (apply Hno'; by left). simpl. constructor. apply IH.
      intros it Hin. apply Hno'. by right.
Qed.

Lemma take_refines q l p : Rep q l ->
  (take_slots p (slots q)).2 ≡ₚ List.filter p l /\
  Rep {| slots := (take_slots p (slots q)).1; next_id := next_id q; next_order := next_order q |}
    (List.filter (fun it => negb (p it)) l).
Proof.
  intros HR. destruct (take_slots_spec p (slots q)) as (Hl & Hr & Hk). split.
  - rewrite Hr. apply Permutation_filter_bool, HR.
  - apply (Rep_filter q l); [done | rewrite Hk; apply Permutation_filter_bool, HR|].
    pose proof (rep_slots _ _ HR). unfold zlen in *. congruence.
Qed.

Lemma data_pushed d : 0 < zlen d <= MAX_ITEM -> slice (patch (zeros MAX_ITEM) 0 d) 0 (wrap8 (zlen d)) = d.
Proof. intros Hd. rewrite wrap8_small by mlia. apply slice_patch_same; [lia|]. rewrite zlen_zeros; mlia. Qed.

Lemma push_refines q l node ttl_s d now_ms : Rep q l -> next_order q < u32_max ->
  exists l', sstep l (Push node ttl_s d now_ms) l' (OPush (snd (push q node ttl_s d now_ms))) /\
             Rep (fst (push q node ttl_s d now_ms)) l' /\
             next_order (fst (push q node ttl_s d now_ms)) <= next_order q + 1.
Proof.
  intros HR Hw. pose proof HR as [Hi Hs Ho Hno Hb Hd Hok Hn Hnode Hdata]. pose proof (zlen_nonneg d).
  assert (Hcount : count_for q node = zlen (of_node node l)).
  { apply zlen_Permutation, Permutation_filter_bool, Hi. }
  unfold push. rewrite Hcount. change (Z.to_nat QUEUE_CAP + 1)%nat with 5%nat.
  pose (i := free_id 5 (iter q) (next_id q)). fold i. destruct ((zlen d =? 0) || (MAX_ITEM <? zlen d)) eqn:Hbad.
  { exists l. split; [constructor; bool_hyps; destruct Hbad; bool_hyps; lia|]. split; [done | simpl; lia]. }
  bool_hyps. assert (Hdl : 0 < zlen d <= MAX_ITEM) by lia.
  destruct (PER_NODE_CAP <=? zlen (of_node node l)) eqn:Hpn; bool_hyps.
  { exists l. split; [constructor; [done|]; specialize (Hnode node); unfold of_node in *; lia|]. split; [done | simpl; lia]. }
  pose proof (items_length_le (slots q)) as Hle.
  assert (Hll : length (flatten (slots q)) = length l) by (by apply Permutation_length).
  destruct (first_free (slots q)) as [k|] eqn:Hff; cbn [fst snd].
  2: { exists l. split; [|split; [done | lia]]. constructor; [done | done|].
       apply first_free_None in Hff. unfold zlen in *. congruence. }
  destruct (free_id_fresh (iter q) (next_id q) 5 Hn) as [Hfresh Hfok].
  { unfold iter. change QUEUE_CAP with 4 in Hs. unfold zlen in Hs. lia. }
  { unfold iter, zlen in *. mlia. }
  fold i in Hfresh, Hfok. clearbody i. cbv zeta.
  set (it := {| id := i; node_addr := node; enqueued_at_ms := now_ms; ttl := ttl_s; order := next_order q;
                len := wrap8 (zlen d); buf := patch (zeros MAX_ITEM) 0 d |}).
  assert (Hni : ~ In i (map id l)).
  { intros Hin. apply Hfresh. eapply Permutation_in; [|exact Hin]. symmetry. by apply Permutation_map. }
  pose proof (first_free_Some (slots q) k it Hff) as Hp.
  assert (Hdt : data it = d) by (apply data_pushed; done).
  exists (l ++ [it]). rewrite wrap32_small by mlia. cbn [fst snd next_order]. split; [|split; [|lia]].
  - apply (SPush l node ttl_s d now_ms it); try done.
    + unfold zlen in *. apply first_free_Some with (it := it) in Hff. apply Permutation_length in Hff.
      pose proof (items_length_le (<[k:=Some it]> (slots q))) as H2. rewrite length_insert in H2. simpl in Hff. lia.
  - constructor; simpl.
    + unfold iter. simpl. rewrite Hp. rewrite <- Permutation_cons_append. by constructor.
    + unfold zlen in *. by rewrite length_insert.
    + apply Sorted_snoc; [done|]. eapply List.Forall_impl; [|exact Hb]. simpl. lia.
    + lia.
    + apply List.Forall_app. split; [eapply List.Forall_impl; [|exact Hb]; simpl; lia|]. repeat constructor; simpl; lia.
    + rewrite List.map_app. apply list.NoDup_app. split_and!; [done | | simpl; apply list.NoDup_singleton].
      intros x Hx Hx'. apply list_elem_of_singleton in Hx'. subst x. apply Hni. by apply list_elem_of_In.
    + apply List.Forall_app. split; [done|]. constructor; [done | constructor].
    + by apply id_succ_ok.
    + intros nd. rewrite List.filter_app, zlen_app. simpl. specialize (Hnode nd). unfold of_node in Hpn.
      destruct (node =? nd) eqn:Hnd; bool_hyps; [subst nd; rewrite zlen_cons, zlen_nil; lia | rewrite zlen_nil; lia].
    + apply List.Forall_app. split; [done|]. constructor; [by rewrite Hdt | constructor].
Qed.


Lemma qstep_simulates q l o :
  Rep q l -> next_order q < u32_max ->
  exists l', sstep l o l' (snd (qstep q o)) /\ Rep (fst (qstep q o)) l' /\ next_order (fst (qstep q o)) <= next_order q + 1.
Proof.
  intros HR Hw. destruct o as [node ttl_s d now_ms|node now_ms|i|node|now_ms]; simpl.
  - destruct (push_refines q l node ttl_s d now_ms HR Hw) as (l' & Hs & HR' & Hn).
    destruct (push q node ttl_s d now_ms). by exists l'.
  - exists l. rewrite (peek_refines q l) by done. split; [constructor|]. split; [done | lia].
  - destruct (pop_refines q l i HR) as [Hr HR']. unfold pop in *. destruct (pop_slots i (slots q)) as [s r]. simpl in *.
    eexists. split; [rewrite Hr; constructor|]. split; [done | simpl; lia].
  - destruct (take_refines q l (fun it => node_addr it =? node) HR) as [Hr HR']. unfold drop_node.
    destruct (take_slots _ _) as [s r]. simpl in *. eexists. split; [|split; [exact HR' | simpl; lia]].
    rewrite (zlen_Permutation _ _ Hr). constructor.
  - destruct (take_refines q l (fun it => expired it now_ms) HR) as [Hr HR']. unfold expire.
    destruct (take_slots _ _) as [s r]. simpl in *. eexists. split; [|split; [exact HR' | simpl; lia]].
    constructor. by rewrite Hr.
Qed.

Lemma qrun_simulates ops q l :
  Rep q l -> next_order q + zlen ops <= u32_max ->
  exists l', srun l ops l' (snd (qrun q ops)) /\ Rep (fst (qrun q ops)) l'.
Proof.
  revert q l. induction ops as [|o ops IH]; intros q l HR Hn; [exists l; split; [constructor | done]|].
  rewrite zlen_cons in Hn. pose proof (zlen_nonneg ops).
  destruct (qstep_simulates q l o HR ltac:(lia)) as (l1 & Hs & HR1 & Hn1). simpl.
  destruct (qstep q o) as [q1 r]. simpl in *. destruct (IH q1 l1 HR1 ltac:(lia)) as (l2 & Hs2 & HR2).
  destruct (qrun q1 ops) as [q2 rs]. simpl in *. exists l2. split; [by econstructor | done].
Qed.

(** C21. The slot pool is a FIFO. Over any history of fewer than 2^32 calls from power-up, every
    answer is the one a plain list of items in arrival order gives: a push is refused exactly for a
    bad size, a full node or a full pool, and otherwise gets an id no queued item holds; a peek
    returns the node's oldest item that has not expired; a pop removes exactly the item with that
    id; removal and expiry drop exactly the node's, or the expired, items. At the end the pool
    holds that list, ids distinct and at most two items per node. *)
Theorem queue_refines_fifo (ops : list qop) :
  zlen ops <= u32_max ->
  exists l, srun [] ops l (snd (qrun new ops)) /\ Rep (fst (qrun new ops)) l.
Proof. intros H. apply qrun_simulates; [apply Rep_new | simpl; lia]. Qed.

Definition demo_qops : list qop :=
  [Push 7 60 [1] 0; Push 7 1 [2; 2] 10; Push 9 60 [3] 20; Push 7 60 [4] 30; Peek 7 2000; Pop 1; Peek 7 2000; Expire 2000].

Lemma queue_refines_fifo_witness :
  exists l, srun [] demo_qops l (snd (qrun new demo_qops)) /\ Rep (fst (qrun new demo_qops)) l /\
    map OPush [Ok 1; Ok 2; Ok 3; Err PerNodeFull] = take 4 (snd (qrun new demo_qops)).
Proof.
  destruct (queue_refines_fifo demo_qops ltac:(vm_compute; discriminate)) as (l & H1 & H2).
  exists l. split; [exact H1|]. split; [exact H2|]. vm_compute. reflexivity.
Defined.

End Queue.
