(* ===== verification/GwRegistry.v ===== *)
(** The gateway's persistent node registry (crates/gateway/src/registry.rs): three buckets of
    records behind the [BucketIo] trait, each operation loading one bucket at a time. The bucket
    codec (postcard) and the backing store are parameters with their documented behaviour. *)
From S2P Require Import Prelude Bytes.

Definition PER_BUCKET : Z := 6.
Definition BUCKETS : Z := 3.
Definition CAPACITY : Z := 16.
Definition MAX_NAME : Z := 16.
Definition MAX_BUCKET_BYTES : Z := 256.
#[export] Hint Unfold PER_BUCKET BUCKETS CAPACITY MAX_NAME MAX_BUCKET_BYTES : machine.

Record NodeRecord := { addr : Z; key : list Z; flags : Z; name : list Z }.

Inductive RegistryError := Full | NotFound | BadName | Exists | Storage.

(** The [BucketIo] trait. A load gives the value's true length and what was copied into the
    caller's buffer. *)
Class BucketIo (S : Type) := {
  io_load : S -> Z -> result unit (option (Z * list Z));
  io_store : S -> Z -> list Z -> S * result unit unit;
}.

Definition bucket_ok (b : list NodeRecord) : Prop :=
  zlen b <= PER_BUCKET /\ Forall (fun r => zlen (name r) <= MAX_NAME) b.

(** postcard on [Bucket] values. *)
Class Postcard := {
  to_slice : list NodeRecord -> option (list Z);
  from_bytes : list Z -> option (list NodeRecord);
}.

(** What a load of [d] back gives: its length, and its bytes as they fit. *)
Definition held (d : list Z) : result unit (option (Z * list Z)) := Ok (Some (zlen d, d)).

(** A store replaces one value whole, or fails and leaves it old or new (an empty value deletes). *)
Class BucketIoLaws (S : Type) `{!BucketIo S} := {
  store_frame : forall s i d j, 0 <= i < BUCKETS -> 0 <= j < BUCKETS -> i <> j -> io_load (fst (io_store s i d)) j = io_load s j;
  store_ok : forall s i d s', 0 < zlen d <= MAX_BUCKET_BYTES -> io_store s i d = (s', Ok tt) -> io_load s' i = held d;
  store_err : forall s i d s', 0 < zlen d <= MAX_BUCKET_BYTES -> io_store s i d = (s', Err tt) ->
    io_load s' i = io_load s i \/ io_load s' i = held d;
}.

(** Any bucket takes a byte or more, fits the buffer and decodes to itself; nothing else decodes. *)
Class PostcardLaws `{!Postcard} (rec_ok : NodeRecord -> Prop) := {
  encode_fits : forall b, bucket_ok b -> Forall rec_ok b ->
    exists d, to_slice b = Some d /\ 0 < zlen d <= MAX_BUCKET_BYTES /\ from_bytes d = Some b;
  decode_ok : forall d b, from_bytes d = Some b -> bucket_ok b /\ Forall rec_ok b;
}.

Module Registry.
Section Ops.
Context {S : Type} `{!BucketIo S, !Postcard}.
#[local] Abbreviation MR := (M S RegistryError).

Definition load_checked (io : S) (index : Z) : option (list NodeRecord) :=
  let buf := zeros MAX_BUCKET_BYTES in
  match io_load io index with
  | Ok None => Some []
  | Ok (Some (n, out)) => if n <=? MAX_BUCKET_BYTES then from_bytes (slice (patch buf 0 out) 0 n) else None
  | Err _ => None
  end.
Definition load (io : S) (index : Z) : list NodeRecord :=
  match load_checked io index with Some b => b | None => [] end.

Definition store (index : Z) (bucket : list NodeRecord) : MR unit :=
  fun io =>
    match to_slice bucket with
    | None => (io, Err Storage)
    | Some bytes => let '(io', r) := io_store io index bytes in (io', rmap_err (fun _ => Storage) r)
    end.

(** [0..BUCKETS]. *)
Definition indices : list Z := [0; 1; 2].

Definition count (io : S) : Z := fold_right (fun i n => zlen (load io i) + n) 0 indices.

Fixpoint find_in (io : S) (a : Z) (is_ : list Z) : option NodeRecord :=
  match is_ with
  | [] => None
  | i :: is_ =>
      match List.find (fun r => addr r =? a) (load io i) with
      | Some rec => Some rec
      | None => find_in io a is_
      end
  end.
Definition find (io : S) (a : Z) : option NodeRecord := find_in io a indices.

(** [bucket.iter().position(|r| r.addr == addr)]. *)
Fixpoint position (a : Z) (b : list NodeRecord) : option nat :=
  match b with
  | [] => None
  | r :: b => if addr r =? a then Some O else option_map Datatypes.S (position a b)
  end.

(** The first bucket that holds [a], and its place there. *)
Fixpoint locate (io : S) (a : Z) (is_ : list Z) : option (Z * nat) :=
  match is_ with
  | [] => None
  | i :: is_ => match position a (load io i) with
                | Some slot => Some (i, slot)
                | None => locate io a is_
                end
  end.

(** The second loop of [add]: the first readable bucket with room, else whether one was
    unreadable. *)
Fixpoint insert_in (rec : NodeRecord) (unreadable : bool) (is_ : list Z) : MR unit :=
  match is_ with
  | [] => fail (if unreadable then Storage else Full)
  | i :: is_ =>
      let! io := get_state in
      match load_checked io i with
      | None => insert_in rec true is_
      | Some bucket =>
          if zlen bucket <? PER_BUCKET then store i (bucket ++ [rec]) else insert_in rec unreadable is_
      end
  end.

Definition add (rec : NodeRecord) : MR unit :=
  let! io := get_state in
  match locate io (addr rec) indices with
  | Some (i, slot) => store i (<[slot := rec]> (load io i))
  | None => if CAPACITY <=? count io then fail Full else insert_in rec false indices
  end.

Definition add_new (rec : NodeRecord) : MR unit :=
  let! io := get_state in
  match find io (addr rec) with
  | Some _ => fail Exists
  | None => add rec
  end.

Definition remove (a : Z) : MR unit :=
  let! io := get_state in
  match locate io a indices with
  | Some (i, slot) => store i (delete slot (load io i))
  | None => fail NotFound
  end.

Definition set_name (r : NodeRecord) (n : list Z) : NodeRecord :=
  {| addr := addr r; key := key r; flags := flags r; name := n |}.
Definition set_flags (r : NodeRecord) (f : Z) : NodeRecord :=
  {| addr := addr r; key := key r; flags := f; name := name r |}.

Definition update (a : Z) (new_name : option (list Z)) (new_flags : option Z) : MR unit :=
  let! io := get_state in
  match locate io a indices with
  | None => fail NotFound
  | Some (i, slot) =>
      let bucket := load io i in
      match new_name with
      | Some n => if MAX_NAME <? zlen n then fail BadName else ret tt
      | None => ret tt
      end ;;;
      let edit r :=
        let r := match new_name with Some n => set_name r n | None => r end in
        match new_flags with Some f => set_flags r f | None => r end in
      store i (alter edit slot bucket)
  end.
End Ops.

(** ** The registry as one list of nodes *)

Section Spec.
Context {S : Type} `{Hio : !BucketIo S, Hlaws : !BucketIoLaws S, Hcode : !Postcard} (rec_ok : NodeRecord -> Prop) `{Hpost : !PostcardLaws rec_ok}.

Definition nodes (io : S) : list NodeRecord := load io 0 ++ load io 1 ++ load io 2.

Definition RegInv (io : S) : Prop := NoDup (map addr (nodes io)) /\ zlen (nodes io) <= CAPACITY.

Lemma count_nodes io : count io = zlen (nodes io).
Proof. unfold count, nodes. simpl. rewrite !zlen_app. lia. Qed.

Lemma find_app {A} (p : A -> bool) l k :
  List.find p (l ++ k) = match List.find p l with Some x => Some x | None => List.find p k end.
Proof. induction l as [|x l IH]; simpl; [done|]. by destruct (p x). Qed.

Lemma find_nodes io a : find io a = List.find (fun r => addr r =? a) (nodes io).
Proof.
  unfold find, nodes. simpl. rewrite !find_app. repeat destruct (List.find _ _); done.
Qed.

Lemma load_ok io i : bucket_ok (load io i) /\ Forall rec_ok (load io i).
Proof.
  unfold load. destruct (load_checked io i) as [b|] eqn:Hl; [|by split; [split|]].
  unfold load_checked in Hl. destruct (io_load io i) as [[[n out]|]|]; [| |done].
  - destruct (n <=? MAX_BUCKET_BYTES); [|done]. by apply decode_ok in Hl.
  - injection Hl as <-. by split; [split|].
Qed.

Lemma load_held io i d b : io_load io i = held d -> zlen d <= MAX_BUCKET_BYTES -> from_bytes d = Some b ->
  load_checked io i = Some b.
Proof.
  intros Hl Hz Hd. unfold load_checked. rewrite Hl. simpl. rewrite (proj2 (Z.leb_le _ _)) by done.
  by rewrite (slice_patch_same (zeros MAX_BUCKET_BYTES) 0 d) by (rewrite ?zlen_zeros; mlia).
Qed.

Lemma indices_range i : In i indices -> 0 <= i < BUCKETS.
Proof. unfold indices, BUCKETS. simpl. lia. Qed.
(** Storing a bucket replaces it, or leaves it if the store failed. *)
Lemma store_spec io i b :
  In i indices -> bucket_ok b -> Forall rec_ok b ->
  let '(io', r) := store i b io in
  (forall j, In j indices -> i <> j -> io_load io' j = io_load io j) /\
  match r with
  | Ok _ => load io' i = b
  | Err Storage => load io' i = load io i \/ load io' i = b
  | Err _ => False
  end.
Proof.
  intros Hin Hb Hr. destruct (encode_fits b Hb Hr) as (d & He & Hz & Hd). unfold store. rewrite He.
  destruct (io_store io i d) as [io' r] eqn:Hs. split.
  { intros j Hji Hj. pose proof (store_frame io i d j (indices_range i Hin) (indices_range j Hji) Hj) as H. by rewrite Hs in H. }
  destruct r as [[]|[]]; simpl.
  - pose proof (store_ok io i d io' Hz Hs) as H. unfold load. by rewrite (load_held _ _ _ _ H (proj2 Hz) Hd).
  - destruct (store_err io i d io' Hz Hs) as [H|H]; [left | right].
    + unfold load, load_checked. by rewrite H.
    + unfold load. by rewrite (load_held _ _ _ _ H (proj2 Hz) Hd).
Qed.
Lemma load_frame (io io' : S) j : io_load io' j = io_load io j -> load io' j = load io j.
Proof. intros H. unfold load, load_checked. by rewrite H. Qed.

Lemma zlen_Permutation_nodes (l k : list NodeRecord) : l ≡ₚ k -> zlen l = zlen k.
Proof. intros H. unfold zlen. by rewrite (Permutation_length H). Qed.

(** ** Editing one bucket of the list *)

Lemma position_Some a b k : position a b = Some k ->
  exists r, b !! k = Some r /\ addr r = a.
Proof.
  revert k. induction b as [|r b IH]; intros k; simpl; [done|].
  destruct (addr r =? a) eqn:Hr; bool_hyps; [intros [= <-]; by exists r|].
  destruct (position a b) as [k'|]; [|done]. intros [= <-]. simpl. by apply IH.
Qed.
Lemma position_None a b : position a b = None -> ~ In a (map addr b).
Proof.
  induction b as [|r b IH]; simpl; [tauto|].
  destruct (addr r =? a) eqn:Hr; bool_hyps; [done|]. destruct (position a b); [done|].
  intros _ [?|?]; [congruence | by apply IH].
Qed.

(** A bucket with one place edited: [e r] replaces the record there. *)
Definition edited (a : Z) (e : list NodeRecord) (l l' : list NodeRecord) : Prop :=
  exists r l0, addr r = a /\ l ≡ₚ r :: l0 /\ l' ≡ₚ e ++ l0.

Lemma locate_Some io a i k : locate io a indices = Some (i, k) ->
  In i indices /\ exists r, load io i !! k = Some r /\ addr r = a.
Proof.
  unfold indices. simpl.
  destruct (position a (load io 0)) as [k0|] eqn:Hp0; [intros [= <- <-]; split; [auto|]; by apply position_Some|].
  destruct (position a (load io 1)) as [k1|] eqn:Hp1; [intros [= <- <-]; split; [auto|]; by apply position_Some|].
  destruct (position a (load io 2)) as [k2|] eqn:Hp2; [intros [= <- <-]; split; [auto|]; by apply position_Some|].
  done.
Qed.
Lemma locate_None io a : locate io a indices = None -> ~ In a (map addr (nodes io)).
Proof.
  unfold indices, nodes. simpl.
  destruct (position a (load io 0)) eqn:Hp0; [done|]. destruct (position a (load io 1)) eqn:Hp1; [done|].
  destruct (position a (load io 2)) eqn:Hp2; [done|]. intros _.
  rewrite !List.map_app, !in_app_iff. apply position_None in Hp0, Hp1, Hp2. tauto.
Qed.

(** Replacing bucket [i] replaces its part of the list. *)
Lemma nodes_change io io' i :
  In i indices -> (forall j, In j indices -> i <> j -> io_load io' j = io_load io j) ->
  exists rest, nodes io ≡ₚ load io i ++ rest /\ nodes io' ≡ₚ load io' i ++ rest.
Proof.
  intros Hi Hf. unfold nodes.
  assert (Hl : forall j, In j indices -> i <> j -> load io' j = load io j) by (intros; by apply load_frame, Hf).
  destruct Hi as [<-|[<-|[<-|[]]]].
  - exists (load io 1 ++ load io 2). by rewrite !(Hl 1), !(Hl 2) by (simpl; auto || done).
  - exists (load io 0 ++ load io 2). rewrite !(Hl 0), !(Hl 2) by (simpl; auto || done).
    split; apply Permutation_app_swap_app.
  - exists (load io 0 ++ load io 1). rewrite !(Hl 0), !(Hl 1) by (simpl; auto || done).
    split; rewrite (app_assoc (load _ 0)); apply Permutation_app_comm.
Qed.

(** The unreadable buckets are never written. *)
Definition kept_unreadable (io io' : S) : Prop :=
  forall j, In j indices -> load_checked io j = None -> io_load io' j = io_load io j.

Lemma store_keeps io i b : In i indices -> load_checked io i <> None -> kept_unreadable io (fst (store i b io)).
Proof.
  intros Hin Hi j Hj Hn. assert (Hij : i <> j) by (intros ->; done). unfold store.
  destruct (to_slice b) as [d|]; [|done]. pose proof (store_frame io i d j (indices_range i Hin) (indices_range j Hj) Hij) as H.
  by destruct (io_store io i d).
Qed.
Lemma readable_of_record io i k r : load io i !! k = Some r -> load_checked io i <> None.
Proof. unfold load. by destruct (load_checked io i). Qed.

Lemma nodes_edit io i k r b' e :
  In i indices -> load io i !! k = Some r -> bucket_ok b' -> Forall rec_ok b' ->
  b' ≡ₚ e ++ delete k (load io i) ->
  let '(io', res) := store i b' io in
  kept_unreadable io io' /\
  match res with
  | Ok _ => edited (addr r) e (nodes io) (nodes io')
  | Err Storage => nodes io' ≡ₚ nodes io \/ edited (addr r) e (nodes io) (nodes io')
  | Err _ => False
  end.
Proof.
  intros Hi Hk Hb Hr Hp. pose proof (store_keeps io i b' Hi (readable_of_record _ _ _ _ Hk)) as Hkeep.
  pose proof (store_spec io i b' Hi Hb Hr) as Hs. destruct (store i b' io) as [io' res]. split; [done|].
  destruct Hs as [Hf Hres]. destruct (nodes_change io io' i Hi Hf) as (rest & H1 & H2).
  assert (Hed : load io' i = b' -> edited (addr r) e (nodes io) (nodes io')).
  { intros Hl. exists r, (delete k (load io i) ++ rest). split; [done|].
    split; [rewrite H1, app_comm_cons; by apply Permutation_app_tail, delete_Permutation|].
    rewrite H2, Hl, app_assoc. by apply Permutation_app_tail. }
  destruct res as [[]|[]]; try done; [by apply Hed|].
  destruct Hres as [Hl|Hl]; [left; by rewrite H2, Hl | right; by apply Hed].
Qed.

(** ** What each operation does to the list *)

(** The outcome of an operation meant to turn the node list into [l']. *)
Definition outcome (io io' : S) (res : result RegistryError unit) (done_ : list NodeRecord -> Prop)
    (refused : RegistryError -> Prop) : Prop :=
  kept_unreadable io io' /\
  match res with
  | Ok _ => done_ (nodes io')
  | Err Storage => nodes io' ≡ₚ nodes io \/ done_ (nodes io')
  | Err e => io' = io /\ refused e
  end.

Lemma kept_refl io : kept_unreadable io io.
Proof. done. Qed.

Lemma outcome_refused io e done_ refused : refused e -> e <> Storage -> outcome io io (Err e) done_ refused.
Proof. intros Hr He. split; [apply kept_refl|]. by destruct e. Qed.

Lemma rec_ok_lookup io i k r : load io i !! k = Some r -> rec_ok r.
Proof.
  intros Hk. destruct (load_ok io i) as [_ Hf]. rewrite List.Forall_forall in Hf. apply Hf.
  apply list_elem_of_In. by eapply list_elem_of_lookup_2.
Qed.

Lemma delete_insert_same {A} (l : list A) k x : base.delete k (<[k := x]> l) = base.delete k l.
Proof. revert k. induction l as [|y l IH]; intros [|k]; simpl; try done. f_equal. apply IH. Qed.
Lemma alter_insert {A} (f : A -> A) (l : list A) k x : l !! k = Some x -> alter f k l = <[k := f x]> l.
Proof.
  revert k. induction l as [|y l IH]; intros [|k]; simpl; try done; [by intros [= ->]|].
  intros Hk. f_equal. by apply IH.
Qed.

(** Overwriting the located record. *)
Lemma edit_spec io i k r r' a :
  locate io a indices = Some (i, k) -> load io i !! k = Some r -> zlen (name r') <= MAX_NAME -> rec_ok r' ->
  let '(io', res) := store i (<[k := r']> (load io i)) io in
  outcome io io' res (edited a [r'] (nodes io)) (fun _ => False).
Proof.
  intros Hloc Hk Hn Hr'. destruct (locate_Some io a i k Hloc) as (Hi & r0 & Hk0 & Ha).
  assert (r0 = r) as -> by congruence. destruct (load_ok io i) as [[Hz Hnames] Hrecs].
  pose proof (lookup_lt_Some _ _ _ Hk) as Hlt.
  assert (Hb : bucket_ok (<[k := r']> (load io i))).
  { split; [unfold zlen in *; by rewrite length_insert | by apply Forall_insert]. }
  pose proof (nodes_edit io i k r (<[k := r']> (load io i)) [r'] Hi Hk Hb ltac:(by apply Forall_insert)) as H.
  assert (Hp : <[k := r']> (load io i) ≡ₚ [r'] ++ base.delete k (load io i)).
  { rewrite (delete_Permutation (<[k := r']> (load io i)) k r') by (by apply list_lookup_insert_eq).
    by rewrite delete_insert_same. }
  specialize (H Hp). destruct (store i _ io) as [io' res]. destruct H as [Hkeep Hres]. split; [done|].
  rewrite Ha in Hres. by destruct res as [|[]].
Qed.

(** Appending to a bucket with room. *)
Lemma push_spec io i b rec :
  In i indices -> load_checked io i = Some b -> zlen b < PER_BUCKET -> zlen (name rec) <= MAX_NAME -> rec_ok rec ->
  let '(io', res) := store i (b ++ [rec]) io in
  outcome io io' res (fun l' => l' ≡ₚ rec :: nodes io) (fun _ => False).
Proof.
  intros Hi Hl Hz Hn Hr. assert (Hload : load io i = b) by (unfold load; by rewrite Hl).
  destruct (load_ok io i) as [[_ Hnames] Hrecs]. rewrite Hload in Hnames, Hrecs.
  assert (Hb : bucket_ok (b ++ [rec])).
  { split; [rewrite zlen_app, zlen_cons, zlen_nil; lia|]. apply List.Forall_app. split; [done|]. by repeat constructor. }
  assert (Hrs : Forall rec_ok (b ++ [rec])) by (apply List.Forall_app; split; [done | by repeat constructor]).
  pose proof (store_keeps io i (b ++ [rec]) Hi ltac:(by rewrite Hl)) as Hkeep.
  pose proof (store_spec io i (b ++ [rec]) Hi Hb Hrs) as Hs. destruct (store i (b ++ [rec]) io) as [io' res].
  split; [done|]. destruct Hs as [Hf Hres]. destruct (nodes_change io io' i Hi Hf) as (rest & Hn1 & Hn2).
  assert (Hadd : load io' i = b ++ [rec] -> nodes io' ≡ₚ rec :: nodes io).
  { intros Hl'. rewrite Hn2, Hn1, Hl', Hload. rewrite <- app_assoc. simpl. symmetry. apply Permutation_middle. }
  destruct res as [[]|[]]; try done; [by apply Hadd|].
  destruct Hres as [Hl'|Hl']; [left; by rewrite Hn2, Hl' | right; by apply Hadd].
Qed.

Lemma insert_in_spec io rec : zlen (name rec) <= MAX_NAME -> rec_ok rec ->
  forall is_ unreadable, incl is_ indices ->
  let '(io', res) := insert_in rec unreadable is_ io in
  outcome io io' res (fun l' => l' ≡ₚ rec :: nodes io)
    (fun e => e = Full /\ unreadable = false /\
       forall i, In i is_ -> exists b, load_checked io i = Some b /\ PER_BUCKET <= zlen b).
Proof.
  intros Hn Hr. induction is_ as [|i is_ IH]; intros u Hi; cbn [insert_in].
  - destruct u; simpl; [split; [apply kept_refl | by left] | by apply outcome_refused].
  - unfold bind, get_state. destruct (load_checked io i) as [b|] eqn:Hl.
    + destruct (zlen b <? PER_BUCKET) eqn:Hz; bool_hyps.
      * pose proof (push_spec io i b rec (Hi i (or_introl eq_refl)) Hl Hz Hn Hr) as H.
        destruct (store i (b ++ [rec]) io) as [io' res]. destruct H as [Hk Hres]. split; [done|].
        destruct res as [[]|[]]; try done; by destruct Hres.
      * specialize (IH u (fun x Hx => Hi x (or_intror Hx))). destruct (insert_in rec u is_ io) as [io' res].
        destruct IH as [Hk Hres]. split; [done|]. destruct res as [[]|[]]; try done;
          destruct Hres as (-> & He & Hu & Hall); (split; [done|]); split_and!; try done.
        intros j [<-|Hj]; [by exists b | by apply Hall].
    + specialize (IH true (fun x Hx => Hi x (or_intror Hx))). destruct (insert_in rec true is_ io) as [io' res].
      destruct IH as [Hk Hres]. split; [done|]. destruct res as [[]|[]]; try done;
        destruct Hres as (_ & _ & ? & _); done.
Qed.

(** A node's record is in place of its old one, or new. *)
Definition put (rec : NodeRecord) (l l' : list NodeRecord) : Prop :=
  edited (addr rec) [rec] l l' \/ (~ In (addr rec) (map addr l) /\ zlen l < CAPACITY /\ l' ≡ₚ rec :: l).

Lemma add_spec io rec : zlen (name rec) <= MAX_NAME -> rec_ok rec ->
  let '(io', res) := add rec io in
  outcome io io' res (put rec (nodes io))
    (fun e => e = Full /\ ~ In (addr rec) (map addr (nodes io)) /\
       (CAPACITY <= zlen (nodes io) \/
        forall i, In i indices -> exists b, load_checked io i = Some b /\ PER_BUCKET <= zlen b)).
Proof.
  intros Hn Hr. unfold add, bind, get_state. destruct (locate io (addr rec) indices) as [[i k]|] eqn:Hloc.
  - destruct (locate_Some _ _ _ _ Hloc) as (_ & r & Hk & _).
    pose proof (edit_spec io i k r rec (addr rec) Hloc Hk Hn Hr) as H.
    destruct (store i _ io) as [io' res]. destruct H as [Hkeep Hres]. split; [done|].
    destruct res as [[]|[]]; try done; try (by destruct Hres); [by left|]. destruct Hres; [by left | right; by left].
  - apply locate_None in Hloc. rewrite count_nodes. destruct (CAPACITY <=? zlen (nodes io)) eqn:Hc; bool_hyps.
    { apply outcome_refused; [|done]. split; [done|]. split; [done|]. by left. }
    pose proof (insert_in_spec io rec Hn Hr indices false ltac:(by intros ?)) as H.
    destruct (insert_in rec false indices io) as [io' res]. destruct H as [Hkeep Hres]. split; [done|].
    destruct res as [[]|e]; [by right|]. destruct e;
      first [ destruct Hres as (-> & He & _ & Hall); first [discriminate He | by split_and!; auto]
            | destruct Hres; [by left | right; by right] ].
Qed.

Lemma find_In l a : NoDup (map addr l) -> forall r, List.find (fun r => addr r =? a) l = Some r <-> In r l /\ addr r = a.
Proof.
  intros Hnd r. split.
  - intros H%List.find_some. destruct H. bool_hyps. done.
  - intros [Hin Ha]. induction l as [|x l IH]; simpl in *; [done|]. apply list.NoDup_cons in Hnd as [Hni Hnd].
    destruct (addr x =? a) eqn:Hx; bool_hyps.
    + destruct Hin as [->|Hin]; [done|]. exfalso. apply Hni, list_elem_of_In, in_map_iff. exists r. split; congruence.
    + destruct Hin as [->|Hin]; [congruence|]. by apply IH.
Qed.

#[local] Abbreviation lookup_in l a := (List.find (fun r => addr r =? a) l).

Lemma find_ext l l' a : NoDup (map addr l) -> NoDup (map addr l') ->
  (forall r, addr r = a -> In r l <-> In r l') -> lookup_in l a = lookup_in l' a.
Proof.
  intros H1 H2 He. destruct (lookup_in l a) as [r|] eqn:Hr.
  - apply (find_In l a H1) in Hr as [Hin Ha]. symmetry. apply find_In; [done|]. split; [by apply He | done].
  - destruct (lookup_in l' a) as [r|] eqn:Hr'; [|done]. apply (find_In l' a H2) in Hr' as [Hin Ha].
    assert (lookup_in l a = Some r) by (apply find_In; [done|]; split; [by apply He | done]). congruence.
Qed.
Lemma find_absent l a : ~ In a (map addr l) <-> lookup_in l a = None.
Proof.
  split.
  - intros Hn. destruct (lookup_in l a) as [r|] eqn:Hr; [|done]. apply List.find_some in Hr as [Hin ?]. bool_hyps.
    exfalso. apply Hn, in_map_iff. by exists r.
  - intros Hn (r & Ha & Hin)%in_map_iff. pose proof (List.find_none _ _ Hn r Hin) as H. simpl in H. bool_hyps. done.
Qed.

Definition same_elsewhere (a : Z) (l l' : list NodeRecord) : Prop :=
  forall x, x <> a -> lookup_in l' x = lookup_in l x.

(** Editing the record of [a] into [e] (nothing, or a record of the same address). *)
Lemma edited_spec a (e : option NodeRecord) l l' :
  edited a (match e with Some r => [r] | None => [] end) l l' ->
  match e with Some r => addr r = a | None => True end -> NoDup (map addr l) ->
  NoDup (map addr l') /\ zlen l' <= zlen l /\ lookup_in l' a = e /\ same_elsewhere a l l' /\ In a (map addr l).
Proof.
  intros (r & l0 & Ha & Hl & Hl') He Hnd.
  assert (Hnd0 : NoDup (map addr (r :: l0))) by (by rewrite <- Hl).
  simpl in Hnd0. apply list.NoDup_cons in Hnd0 as [Hni Hnd0].
  assert (Hnd' : NoDup (map addr l')).
  { rewrite Hl'. destruct e as [r'|]; [|done]. simpl. rewrite He, <- Ha. by apply list.NoDup_cons. }
  split; [done|]. split.
  { unfold zlen. rewrite (Permutation_length Hl), (Permutation_length Hl'), length_app. destruct e; simpl; lia. }
  assert (Hin0 : forall x, In x l0 -> addr x <> a).
  { intros x Hx Hax. apply Hni, list_elem_of_In, in_map_iff. exists x. split; congruence. }
  split; [|split].
  - destruct e as [r'|].
    + apply find_In; [done|]. split; [|done]. eapply Permutation_in; [symmetry; exact Hl' | by left].
    + apply find_absent. intros (x & Hx & Hin)%in_map_iff. apply (Hin0 x); [|done].
      eapply Permutation_in; [exact Hl' | done].
  - intros x Hx. apply find_ext; [done | done|]. intros y Hy. split; intros Hin.
    + pose proof (Permutation_in _ Hl' Hin) as Hin2. eapply Permutation_in; [symmetry; exact Hl|].
      right. destruct e as [r'|]; [|done]. destruct Hin2 as [<-|?]; [congruence | done].
    + pose proof (Permutation_in _ Hl Hin) as [<-|Hin2]; [congruence|].
      eapply Permutation_in; [symmetry; exact Hl'|]. apply in_or_app. by right.
  - apply in_map_iff. exists r. split; [done|]. eapply Permutation_in; [symmetry; exact Hl | by left].
Qed.

Lemma added_spec rec l l' : ~ In (addr rec) (map addr l) -> l' ≡ₚ rec :: l -> NoDup (map addr l) ->
  NoDup (map addr l') /\ zlen l' = zlen l + 1 /\ lookup_in l' (addr rec) = Some rec /\ same_elsewhere (addr rec) l l'.
Proof.
  intros Hni Hl' Hnd. assert (Hnd' : NoDup (map addr l')).
  { rewrite Hl'. simpl. apply list.NoDup_cons. split; [by rewrite list_elem_of_In | done]. }
  split; [done|]. split; [unfold zlen; rewrite (Permutation_length Hl'); simpl; lia|]. split.
  - apply find_In; [done|]. split; [|done]. eapply Permutation_in; [symmetry; exact Hl' | by left].
  - intros x Hx. apply find_ext; [done | done|]. intros y Hy. rewrite Hl'. split; [|by right].
    intros [<-|?]; [congruence | done].
Qed.

Lemma same_find l l' a : NoDup (map addr l) -> l' ≡ₚ l -> lookup_in l' a = lookup_in l a.
Proof. intros Hnd Hp. apply find_ext; [by rewrite Hp | done|]. intros r _. by rewrite Hp. Qed.

(** ** The operations as one alphabet *)

Inductive rop :=
| Add (rec : NodeRecord)
| AddNew (rec : NodeRecord)
| Remove (a : Z)
| Update (a : Z) (n : option (list Z)) (f : option Z).

Definition run (o : rop) : M S RegistryError unit :=
  match o with
  | Add rec => add rec
  | AddNew rec => add_new rec
  | Remove a => remove a
  | Update a n f => update a n f
  end.

Definition target (o : rop) : Z :=
  match o with Add rec | AddNew rec => addr rec | Remove a | Update a _ _ => a end.

(** The node's record after a successful operation, from the one before. *)
Definition edit (n : option (list Z)) (f : option Z) (r : NodeRecord) : NodeRecord :=
  let r := match n with Some n => set_name r n | None => r end in
  match f with Some f => set_flags r f | None => r end.
Definition after (o : rop) (old : option NodeRecord) : option NodeRecord :=
  match o with
  | Add rec | AddNew rec => Some rec
  | Remove _ => None
  | Update _ n f => option_map (edit n f) old
  end.

Definition rop_ok (o : rop) : Prop :=
  match o with
  | Add rec | AddNew rec => zlen (name rec) <= MAX_NAME /\ rec_ok rec
  | Remove _ => True
  | Update _ n f => forall r, rec_ok r -> rec_ok (edit n f r)
  end.

Definition full (io : S) : Prop :=
  CAPACITY <= zlen (nodes io) \/ forall i, In i indices -> exists b, load_checked io i = Some b /\ PER_BUCKET <= zlen b.

(** Why an operation refuses. *)
Definition refusal (o : rop) (io : S) (e : RegistryError) : Prop :=
  match o, e with
  | Add rec, Full => find io (addr rec) = None /\ full io
  | AddNew rec, Full => find io (addr rec) = None /\ full io
  | AddNew rec, Exists => find io (addr rec) <> None
  | Remove a, NotFound | Update a _ _, NotFound => find io a = None
  | Update _ (Some n) _, BadName => MAX_NAME < zlen n
  | _, _ => False
  end.

(** The change an operation makes to the list. *)
Definition changes (o : rop) (l l' : list NodeRecord) : Prop :=
  match o with
  | Add rec => put rec l l'
  | AddNew rec => put rec l l' /\ ~ In (addr rec) (map addr l)
  | Remove a => edited a [] l l'
  | Update a n f => exists r, lookup_in l a = Some r /\ edited a [edit n f r] l l'
  end.

Lemma changes_spec o l l' : changes o l l' -> NoDup (map addr l) -> zlen l <= CAPACITY ->
  NoDup (map addr l') /\ zlen l' <= CAPACITY /\ lookup_in l' (target o) = after o (lookup_in l (target o)) /\
  same_elsewhere (target o) l l'.
Proof.
  intros Hc Hnd Hz.
  assert (Hput : forall rec, put rec l l' -> NoDup (map addr l') /\ zlen l' <= CAPACITY /\
    lookup_in l' (addr rec) = Some rec /\ same_elsewhere (addr rec) l l').
  { intros rec [He|(Hni & Hlt & Hp)].
    - destruct (edited_spec (addr rec) (Some rec) l l' He eq_refl Hnd) as (? & ? & ? & ? & _). split_and!; try done. lia.
    - destruct (added_spec rec l l' Hni Hp Hnd) as (? & ? & ? & ?). split_and!; try done. lia. }
  destruct o as [rec|rec|a|a n f]; simpl in *.
  - by apply Hput.
  - apply Hput, Hc.
  - destruct (edited_spec a None l l' Hc I Hnd) as (? & ? & ? & ? & _). split_and!; try done. lia.
  - destruct Hc as (r & Hr & He). apply (find_In l a Hnd) in Hr as Hr2. destruct Hr2 as [_ Ha].
    assert (Hae : addr (edit n f r) = a) by (unfold edit; destruct n, f; done).
    destruct (edited_spec a (Some (edit n f r)) l l' He Hae Hnd) as (? & ? & Hf & ? & _).
    rewrite Hr. split_and!; try done. lia.
Qed.

Lemma located_record io a i k : RegInv io -> locate io a indices = Some (i, k) ->
  exists r, load io i !! k = Some r /\ addr r = a /\ lookup_in (nodes io) a = Some r /\ In i indices.
Proof.
  intros [Hnd _] Hloc. destruct (locate_Some _ _ _ _ Hloc) as (Hi & r & Hk & Ha).
  exists r. split_and!; try done. apply find_In; [done|]. split; [|done].
  destruct (nodes_change io io i Hi ltac:(done)) as (rest & Hp & _).
  eapply Permutation_in; [symmetry; exact Hp|]. apply in_or_app. left. apply list_elem_of_In.
  by eapply list_elem_of_lookup_2.
Qed.

Lemma run_spec o io : RegInv io -> rop_ok o ->
  let '(io', res) := run o io in outcome io io' res (changes o (nodes io)) (refusal o io).
Proof.
  intros HI Ho. pose proof HI as [Hnd Hz]. destruct o as [rec|rec|a|a n f]; cbn [run changes refusal].
  - destruct Ho as [Hn Hr]. pose proof (add_spec io rec Hn Hr) as H. destruct (add rec io) as [io' res].
    destruct H as [Hk Hres]. split; [done|]. destruct res as [[]|e]; [done|].
    destruct e; try done; try (by destruct Hres as (_ & ? & _)).
    destruct Hres as (-> & _ & Hni & Hfull). split; [done|]. split; [|done]. rewrite find_nodes. by apply find_absent.
  - destruct Ho as [Hn Hr]. unfold add_new, bind, get_state. destruct (find io (addr rec)) as [r|] eqn:Hf.
    { apply outcome_refused; [|done]. simpl. by rewrite Hf. }
    rewrite find_nodes in Hf. apply find_absent in Hf as Hni.
    pose proof (add_spec io rec Hn Hr) as H. destruct (add rec io) as [io' res].
    destruct H as [Hk Hres]. split; [done|]. destruct res as [[]|e]; [done|].
    destruct e; try done; try (by destruct Hres as (_ & ? & _)).
    + destruct Hres as (-> & _ & _ & Hfull). split; [done|]. split; [|done]. by rewrite find_nodes.
    + destruct Hres; [by left | by right].
  - unfold remove, bind, get_state. destruct (locate io a indices) as [[i k]|] eqn:Hloc.
    + destruct (located_record io a i k HI Hloc) as (r & Hk & Ha & _ & Hi). destruct (load_ok io i) as [[Hbz Hbn] Hbr].
      assert (Hb : bucket_ok (base.delete k (load io i))).
      { split; [unfold zlen in *; rewrite length_delete by (by eexists); lia | by apply Forall_delete]. }
      pose proof (nodes_edit io i k r (base.delete k (load io i)) [] Hi Hk Hb ltac:(by apply Forall_delete) ltac:(done)) as H.
      destruct (store i _ io) as [io' res]. destruct H as [Hkeep Hres]. split; [done|]. rewrite Ha in Hres.
      by destruct res as [|[]].
    + apply outcome_refused; [|done]. simpl. rewrite find_nodes. apply find_absent. by apply locate_None.
  - unfold update. unfold bind at 1. cbn [get_state]. destruct (locate io a indices) as [[i k]|] eqn:Hloc.
    2: { apply outcome_refused; [|done]. apply locate_None, find_absent in Hloc. rewrite <- find_nodes in Hloc.
         by destruct n. }
    destruct (located_record io a i k HI Hloc) as (r & Hk & Ha & Hr & Hi). fold (edit n f).
    assert (Hrun : zlen (name (edit n f r)) <= MAX_NAME ->
      let '(io', res) := store i (alter (edit n f) k (load io i)) io in
      outcome io io' res (fun l' => exists r, lookup_in (nodes io) a = Some r /\ edited a [edit n f r] (nodes io) l')
        (fun e => refusal (Update a n f) io e)).
    { intros Hn. rewrite (alter_insert _ _ _ _ Hk).
      pose proof (edit_spec io i k r (edit n f r) a Hloc Hk Hn (Ho r (rec_ok_lookup io i k r Hk))) as H.
      destruct (store i _ io) as [io' res]. destruct H as [Hkeep Hres]. split; [done|].
      destruct res as [[]|e]; [by exists r|]. destruct e; try (by destruct Hres).
      destruct Hres; [by left | right; by exists r]. }
    assert (Hrn : zlen (name r) <= MAX_NAME).
    { destruct (load_ok io i) as [[_ Hbn] _]. rewrite List.Forall_forall in Hbn. apply Hbn, list_elem_of_In.
      by eapply list_elem_of_lookup_2. }
    destruct n as [n|].
    + destruct (MAX_NAME <? zlen n) eqn:Hln; bool_hyps; [by apply outcome_refused|].
      apply Hrun. by destruct f.
    + apply Hrun. by destruct f.
Qed.

(** C20. The registry is a map from addresses to records of at most [CAPACITY] nodes. Every
    operation keeps addresses unique and the capacity; it changes only its own node, exactly as
    it says on success, entirely or not at all when the store fails, and not at all when it
    refuses, each refusal for its documented reason (an over-the-air add never overwrites); a
    bucket that cannot be read is never written. *)
Theorem registry_operations (o : rop) (io : S) :
  RegInv io -> rop_ok o ->
  let '(io', res) := run o io in
  RegInv io' /\ kept_unreadable io io' /\
  (forall a, a <> target o -> find io' a = find io a) /\
  match res with
  | Ok _ => find io' (target o) = after o (find io (target o))
  | Err Storage => find io' (target o) = find io (target o) \/ find io' (target o) = after o (find io (target o))
  | Err e => io' = io /\ refusal o io e
  end.
Proof.
  intros HI Ho. pose proof (run_spec o io HI Ho) as H. destruct (run o io) as [io' res].
  destruct H as [Hk Hres]. pose proof HI as [Hnd Hz].
  assert (Hdone : changes o (nodes io) (nodes io') -> RegInv io' /\
    (forall a, a <> target o -> find io' a = find io a) /\ find io' (target o) = after o (find io (target o))).
  { intros Hc. destruct (changes_spec o _ _ Hc Hnd Hz) as (? & ? & ? & Hs). split; [by split|].
    split; [intros a Ha; rewrite !find_nodes; by apply Hs | by rewrite !find_nodes]. }
  destruct res as [[]|e].
  - destruct (Hdone Hres) as (? & ? & ?). by split_and!.
  - destruct e; try (destruct Hres as [-> Hr]; by split_and!).
    destruct Hres as [Hp|Hc].
    + split; [split; [by rewrite Hp | by rewrite (zlen_Permutation_nodes _ _ Hp)]|].
      split; [done|]. split.
      * intros a _. rewrite !find_nodes. by apply same_find.
      * left. rewrite !find_nodes. by apply same_find.
    + destruct (Hdone Hc) as (? & ? & ?). split_and!; try done. by right.
Qed.
End Spec.
End Registry.

(** ** A RAM store and a plain codec, to run the registry on *)

Module RamRegistry.
Import Registry.

Definition slot_of (s : list (option (list Z))) (i : Z) : option (option (list Z)) :=
  if 0 <=? i then s !! Z.to_nat i else None.

#[export] Instance ram_io : BucketIo (list (option (list Z))) := {
  io_load := fun s i => match slot_of s i with
                        | Some (Some d) => held d
                        | Some None => Ok None
                        | None => Err tt
                        end;
  io_store := fun s i d =>
    if (0 <=? i) && (i <? zlen s) then (<[Z.to_nat i := Some d]> s, Ok tt) else (s, Err tt);
}.

#[export] Instance ram_io_laws : BucketIoLaws (list (option (list Z))).
Proof.
  constructor.
  - intros s i d j _ _ Hij. simpl. unfold slot_of. destruct ((0 <=? i) && (i <? zlen s)) eqn:Hi; [|done]. simpl.
    bool_hyps. destruct (0 <=? j) eqn:Hj; [|done]. bool_hyps.
    by rewrite list_lookup_insert_ne by lia.
  - intros s i d s' Hd. simpl. unfold slot_of. destruct ((0 <=? i) && (i <? zlen s)) eqn:Hi; [|done].
    apply andb_true_iff in Hi as [Hi1 Hi2]. intros [= <-]. rewrite Hi1. bool_hyps.
    rewrite list_lookup_insert_eq; [done|]. unfold zlen in *. lia.
  - intros s i d s' Hd. simpl. destruct ((0 <=? i) && (i <? zlen s)); [done|]. intros [= <-]. by left.
Qed.

Definition enc_rec (r : NodeRecord) : list Z := [addr r; flags r; zlen (name r)] ++ key r ++ name r.
Fixpoint dec_recs (k : nat) (d : list Z) : option (list NodeRecord) :=
  match k with
  | O => if zlen d =? 0 then Some [] else None
  | Datatypes.S k =>
      match d with
      | a :: f :: n :: d =>
          if (zlen d <? 16 + n) || (n <? 0) || (MAX_NAME <? n) then None
          else option_map (cons {| addr := a; flags := f; key := slice d 0 16; name := slice d 16 n |})
                 (dec_recs k (drop (Z.to_nat (16 + n)) d))
      | _ => None
      end
  end.
#[export] Instance ram_codec : Postcard := {
  to_slice := fun b => Some (zlen b :: concat (map enc_rec b));
  from_bytes := fun d => match d with
                         | k :: d => if (0 <=? k) && (k <=? PER_BUCKET) then dec_recs (Z.to_nat k) d else None
                         | [] => None
                         end;
}.
Definition ram_rec_ok (r : NodeRecord) : Prop := zlen (key r) = 16.

Lemma zlen_drop {A} (l : list A) k : 0 <= k <= zlen l -> zlen (drop (Z.to_nat k) l) = zlen l - k.
Proof. unfold zlen. rewrite length_drop. lia. Qed.

Lemma dec_enc b : Forall (fun r => zlen (name r) <= MAX_NAME) b -> Forall ram_rec_ok b ->
  dec_recs (length b) (concat (map enc_rec b)) = Some b.
Proof.
  induction b as [|r b IH]; intros Hn Hk; [done|]. apply List.Forall_cons_iff in Hn as [Hn Hns], Hk as [Hk Hks].
  simpl. rewrite <- app_assoc. set (rest := concat (map enc_rec b)) in *. unfold ram_rec_ok in Hk.
  pose proof (zlen_nonneg (name r)). pose proof (zlen_nonneg rest).
  assert (Hz : zlen (key r ++ name r ++ rest) = 16 + zlen (name r) + zlen rest) by (rewrite !zlen_app; lia).
  assert ((zlen (key r ++ name r ++ rest) <? 16 + zlen (name r)) || (zlen (name r) <? 0) || (MAX_NAME <? zlen (name r)) = false) as ->.
  { rewrite !(proj2 (Z.ltb_ge _ _)) by lia. done. }
  assert (Hd : drop (Z.to_nat (16 + zlen (name r))) (key r ++ name r ++ rest) = rest).
  { rewrite app_assoc. replace (Z.to_nat (16 + zlen (name r))) with (length (key r ++ name r)) by (rewrite length_app; unfold zlen in *; lia).
    by rewrite drop_app_length. }
  rewrite Hd, IH by done. simpl. f_equal. f_equal. destruct r as [a k f nm]. simpl in *. f_equal.
  - rewrite <- Hk. apply slice_app_l.
  - rewrite <- Hk. apply slice_app_mid.
Qed.

Lemma dec_recs_ok k d b : dec_recs k d = Some b ->
  length b = k /\ Forall (fun r => zlen (name r) <= MAX_NAME) b /\ Forall ram_rec_ok b.
Proof.
  revert d b. induction k as [|k IH]; intros d b; simpl.
  - destruct (zlen d =? 0); [|done]. by intros [= <-].
  - destruct d as [|a [|f [|n d]]]; try done. destruct (_ || _ || _) eqn:Hc; [done|]. bool_hyps.
    destruct (dec_recs k _) as [b'|] eqn:Hb; [|done]. intros [= <-]. destruct (IH _ _ Hb) as (? & ? & ?).
    split; [simpl; lia|]. split; constructor; try done; simpl.
    + rewrite zlen_slice; lia.
    + unfold ram_rec_ok. simpl. apply zlen_slice; lia.
Qed.

Lemma zlen_concat_enc b : Forall (fun r => zlen (name r) <= MAX_NAME) b -> Forall ram_rec_ok b ->
  zlen (concat (map enc_rec b)) <= 35 * zlen b.
Proof.
  induction b as [|r b IH]; intros Hn Hk; [done|]. apply List.Forall_cons_iff in Hn as [Hn Hns], Hk as [Hk Hks].
  specialize (IH Hns Hks). cbn [map concat]. unfold enc_rec at 1. rewrite !zlen_app, !zlen_cons, zlen_nil.
  unfold ram_rec_ok in Hk. mlia.
Qed.

#[export] Instance ram_codec_laws : PostcardLaws ram_rec_ok.
Proof.
  constructor.
  - intros b [Hz Hn] Hk. eexists. split; [done|]. simpl. split.
    + rewrite zlen_cons. pose proof (zlen_concat_enc b Hn Hk). pose proof (zlen_nonneg (concat (map enc_rec b))). mlia.
    + pose proof (zlen_nonneg b). rewrite !(proj2 (Z.leb_le _ _)) by lia. simpl.
      rewrite zlen_to_nat. by apply dec_enc.
  - intros [|k d] b; simpl; [done|]. destruct ((0 <=? k) && (k <=? PER_BUCKET)) eqn:Hk; [|done]. bool_hyps.
    intros Hb. destruct (dec_recs_ok _ _ _ Hb) as (Hl & Hn & Hr). split; [split; [|done]|done]. unfold zlen. lia.
Qed.

Definition node (a : Z) (n : list Z) : NodeRecord := {| addr := a; key := replicate 16 a; flags := 0; name := n |}.
Definition demo_registry : list (option (list Z)) :=
  [Some (zlen [node 7 [1]; node 9 []] :: concat (map enc_rec [node 7 [1]; node 9 []])); None; Some [200]].

Lemma registry_operations_witness :
  let '(io', res) := run (AddNew (node 8 [2])) demo_registry in
  RegInv io' /\ find io' 8 = Some (node 8 [2]) /\ find io' 7 = Some (node 7 [1]) /\ res = Ok tt.
Proof.
  assert (HI : RegInv demo_registry).
  { split; [apply (proj1 (bool_decide_eq_true (NoDup (map addr (nodes demo_registry))))); vm_compute; reflexivity
           | vm_compute; discriminate]. }
  assert (Ho : rop_ok ram_rec_ok (AddNew (node 8 [2]))) by (split; [vm_compute; discriminate | reflexivity]).
  pose proof (registry_operations ram_rec_ok (AddNew (node 8 [2])) demo_registry HI Ho) as H.
  assert (Hr : snd (run (AddNew (node 8 [2])) demo_registry) = Ok tt) by (vm_compute; reflexivity).
  assert (H7 : find demo_registry 7 = Some (node 7 [1])) by (vm_compute; reflexivity).
  destruct (run (AddNew (node 8 [2])) demo_registry) as [io' res]. simpl in Hr. subst res.
  destruct H as (H1 & _ & H2 & H3). split; [exact H1|]. split; [exact H3|]. split; [|reflexivity].
  rewrite <- H7. apply H2. simpl. lia.
Defined.
End RamRegistry.
