(* ===== verification/Radio.v ===== *)
(** The radio's compliance arithmetic (crates/radio/src/lib.rs): time on air, the duty-cycle token
    bucket, the hop permutation and the uplink back-off. *)
From S2P Require Import Prelude Bytes.

Definition BITRATE : Z := 19200.
Definition EU_CAP_MS : Z := 36000.
Definition EU_PERMIL : Z := 10.
Definition FHSS_WINDOW_MS : Z := 20000.
Definition FHSS_DWELL_BURST_MS : Z := 100.
Definition FHSS_PERMIL : Z := 10.
#[export] Hint Unfold BITRATE EU_CAP_MS EU_PERMIL FHSS_WINDOW_MS FHSS_DWELL_BURST_MS FHSS_PERMIL : machine.

Definition frame_toa_ms (frame_len : Z) : Z :=
  let bytes := sat_add u64_max frame_len (4 + 4 + 1 + 2) in
  let ms := div_ceil (sat_mul u64_max bytes (8 * 1000)) BITRATE in
  if u32_max <? ms then u32_max else ms.

(** ** The duty governor *)

Record DutyGovernor := { budget_ms : Z; cap_ms : Z; permil : Z; residue : Z }.

Definition duty_new (cap pm : Z) : DutyGovernor :=
  {| budget_ms := cap; cap_ms := cap; permil := pm; residue := 0 |}.
Definition eu : DutyGovernor := duty_new EU_CAP_MS EU_PERMIL.
Definition us915 : DutyGovernor := duty_new EU_CAP_MS 1000.
Definition fhss_channel : DutyGovernor := duty_new FHSS_DWELL_BURST_MS FHSS_PERMIL.

Definition refill_ms (g : DutyGovernor) (elapsed_ms : Z) : DutyGovernor :=
  let total := sat_add u32_max (sat_mul u32_max elapsed_ms (permil g)) (residue g) in
  let refill := total / 1000 in
  {| budget_ms := Z.min (sat_add u32_max (budget_ms g) refill) (cap_ms g); cap_ms := cap_ms g;
     permil := permil g; residue := total mod 1000 |}.

Definition try_consume (g : DutyGovernor) (toa_ms : Z) : DutyGovernor * bool :=
  if toa_ms <=? budget_ms g then
    ({| budget_ms := budget_ms g - toa_ms; cap_ms := cap_ms g; permil := permil g; residue := residue g |}, true)
  else (g, false).

(** ** The hop permutation *)

(** [perm.swap(j, r)]. *)
Definition swap {A} (l : list A) (i j : nat) : list A :=
  match l !! i, l !! j with
  | Some a, Some b => <[i := b]> (<[j := a]> l)
  | _, _ => l   (* out of range: Rust panics; never reached here *)
  end.

(** One xorshift32 step on u32. *)
Definition xorshift (x : Z) : Z :=
  let x := Z.lxor x (wrap32 (Z.shiftl x 13)) in
  let x := Z.lxor x (Z.shiftr x 17) in
  Z.lxor x (wrap32 (Z.shiftl x 5)).

(** The shuffle loop from index [j] down to 1. *)
Fixpoint shuffle (j : nat) (x : Z) (perm : list Z) : list Z :=
  match j with
  | O => perm
  | Datatypes.S j' =>
      let x := xorshift x in
      let r := x mod (Z.of_nat j + 1) in
      shuffle j' x (swap perm j (Z.to_nat r))
  end.

Definition hop_table (N : nat) (seed : Z) : list Z :=
  let perm := map (fun k => wrap8 (Z.of_nat k)) (seq 0 N) in
  shuffle (N - 1) (if seed =? 0 then 0xA5A5A5A5 else seed) perm.
Definition hop_channel (N : nat) (seed cycle i : Z) : Z := nth (Z.to_nat i) (hop_table N seed) 0.

Definition uplink_backoff_s (period_s cap_s misses : Z) : Z :=
  let period := Z.max period_s 1 in
  let backed_off := sat_mul u64_max period (Z.shiftl 1 (Z.min misses 32)) in
  Z.min backed_off (Z.max cap_s period).

(** ** Duty theory *)

Definition duty_ok (g : DutyGovernor) : Prop :=
  0 <= budget_ms g <= cap_ms g /\ cap_ms g <= u32_max /\ 0 <= permil g /\ 0 <= residue g < 1000.

Lemma duty_new_ok cap pm : u32_ok cap -> 0 <= pm -> duty_ok (duty_new cap pm).
Proof. unfold duty_ok, duty_new, u32_ok. simpl. lia. Qed.

Lemma refill_ok g t : duty_ok g -> 0 <= t -> duty_ok (refill_ms g t).
Proof.
  intros (Hb & Hc & Hp & Hr) Ht. unfold duty_ok, refill_ms. simpl.
  assert (0 <= t * permil g) by nia.
  set (total := sat_add _ (sat_mul _ _ _) _). assert (0 <= total) by (unfold total; mlia).
  pose proof (Z.div_pos total 1000 ltac:(lia) ltac:(lia)). pose proof (Z.mod_pos_bound total 1000 ltac:(lia)). mlia.
Qed.

(** Airtime earned, in thousandths: never more than the wall clock gives. *)
Lemma refill_earns g t : duty_ok g -> 0 <= t ->
  1000 * budget_ms (refill_ms g t) + residue (refill_ms g t) <= 1000 * budget_ms g + residue g + permil g * t.
Proof.
  intros (Hb & Hc & Hp & Hr) Ht. unfold refill_ms. simpl.
  assert (0 <= t * permil g) by nia.
  set (total := sat_add _ (sat_mul _ _ _) _). assert (0 <= total <= t * permil g + residue g) by (unfold total; mlia).
  pose proof (Z.div_mod total 1000 ltac:(lia)). pose proof (Z.div_pos total 1000 ltac:(lia) ltac:(lia)). mlia.
Qed.

(** What the firmware does with a governor. *)
Inductive duty_ev := Elapse (ms : Z) | Try (toa : Z).
Definition duty_ev_ok (e : duty_ev) : Prop := match e with Elapse t | Try t => 0 <= t end.

(** The governor after a history, and the airtime it allowed. *)
Fixpoint duty_run (evs : list duty_ev) (g : DutyGovernor) : DutyGovernor * Z :=
  match evs with
  | [] => (g, 0)
  | Elapse ms :: evs => duty_run evs (refill_ms g ms)
  | Try toa :: evs =>
      let '(g', ok) := try_consume g toa in
      let '(g'', spent) := duty_run evs g' in
      (g'', (if ok : bool then toa else 0) + spent)
  end.
Definition elapsed (evs : list duty_ev) : Z :=
  fold_right (fun e acc => match e with Elapse t => t + acc | Try _ => acc end) 0 evs.

Lemma duty_run_bound evs g : duty_ok g -> Forall duty_ev_ok evs ->
  duty_ok (fst (duty_run evs g)) /\ 0 <= snd (duty_run evs g) /\ 0 <= elapsed evs /\
  1000 * snd (duty_run evs g) + 1000 * budget_ms (fst (duty_run evs g)) + residue (fst (duty_run evs g)) <=
    1000 * budget_ms g + residue g + permil g * elapsed evs.
Proof.
  revert g. induction evs as [|e evs IH]; intros g Hg Hev; [simpl; split_and!; try done; lia|].
  apply List.Forall_cons_iff in Hev as [He Hev]. destruct e as [t|toa]; simpl in *.
  - pose proof (refill_ok g t Hg He) as Hg'. pose proof (refill_earns g t Hg He).
    destruct (IH _ Hg' Hev) as (? & ? & ? & ?). split_and!; try done; [lia|].
    change (permil (refill_ms g t)) with (permil g) in *. lia.
  - unfold try_consume. destruct (toa <=? budget_ms g) eqn:Ht; bool_hyps.
    + set (g' := {| budget_ms := _ |}). assert (Hg' : duty_ok g') by (unfold duty_ok, g' in *; simpl; lia).
      destruct (IH g' Hg' Hev) as (? & ? & ? & Hb). destruct (duty_run evs g') as [g2 s]. simpl in *.
      split_and!; try done; lia.
    + destruct (IH g Hg Hev) as (? & ? & ? & Hb). destruct (duty_run evs g) as [g2 s]. simpl in *.
      split_and!; try done; lia.
Qed.

(** C25. The duty limit holds over every window. Starting in any state a governor can be in, after
    any interleaving of clock advances and transmission requests, the airtime it has allowed is at
    most its cap plus its per-mille share of the time that passed (1 % for the EU band, the
    documented 300 ms in any 20 s for an FHSS channel), and the bucket never goes negative or over
    its cap. *)
Theorem duty_cycle_bounded (g : DutyGovernor) (evs : list duty_ev) :
  duty_ok g -> Forall duty_ev_ok evs ->
  let '(g', spent) := duty_run evs g in
  duty_ok g' /\ 1000 * spent <= 1000 * cap_ms g + 999 + permil g * elapsed evs /\
  (cap_ms g = FHSS_DWELL_BURST_MS -> permil g = FHSS_PERMIL -> elapsed evs <= FHSS_WINDOW_MS -> spent <= 300).
Proof.
  intros Hg Hev. destruct (duty_run_bound evs g Hg Hev) as (Hg' & Hs & He & Hb).
  destruct (duty_run evs g) as [g' spent]. simpl in *. split; [done|].
  destruct Hg as (? & ? & ? & ?), Hg' as (? & ? & ? & ?). split; [lia|]. intros Hc100 Hp1 Hwin.
  rewrite Hc100, Hp1 in *. mlia.
Qed.

Lemma duty_cycle_bounded_witness :
  let '(g', spent) := duty_run [Elapse 15000; Try 60; Try 60; Elapse 5000; Try 50; Try 200] fhss_channel in
  duty_ok g' /\ spent = 110.
Proof.
  assert (Hg : duty_ok fhss_channel) by (apply duty_new_ok; [split; vm_compute; discriminate | vm_compute; discriminate]).
  assert (He : Forall duty_ev_ok [Elapse 15000; Try 60; Try 60; Elapse 5000; Try 50; Try 200])
    by (repeat constructor; simpl; lia).
  pose proof (duty_cycle_bounded fhss_channel _ Hg He) as H.
  assert (Hs : snd (duty_run [Elapse 15000; Try 60; Try 60; Elapse 5000; Try 50; Try 200] fhss_channel) = 110)
    by (vm_compute; reflexivity).
  destruct (duty_run _ fhss_channel) as [g' spent]. split; [exact (proj1 H) | exact Hs].
Defined.

(** many short refills earn exactly what one long refill does, whatever the spacing: the carry
    loses no fraction of a millisecond, also where the bucket is full on the way. *)
Theorem refill_additive (g : DutyGovernor) (a b : Z) :
  duty_ok g -> 0 <= a -> 0 <= b -> permil g * (a + b) + 1000 <= u32_max -> cap_ms g + (a + b) * permil g <= u32_max ->
  refill_ms (refill_ms g a) b = refill_ms g (a + b).
Proof.
  intros (Hb & Hc & Hp & Hr) Ha Hb' Hsat Hcap. unfold refill_ms. simpl.
  assert (0 <= a * permil g) by nia. assert (0 <= b * permil g) by nia.
  assert (Hab : (a + b) * permil g = a * permil g + b * permil g) by lia.
  set (x := a * permil g) in *. set (y := b * permil g) in *.
  assert (permil g * (a + b) = x + y) as Hxy by (unfold x, y; lia).
  assert (E1 : sat_add u32_max (sat_mul u32_max a (permil g)) (residue g) = x + residue g).
  { unfold sat_add, sat_mul. fold x. mlia. }
  assert (E2 : sat_add u32_max (sat_mul u32_max (a + b) (permil g)) (residue g) = x + y + residue g).
  { unfold sat_add, sat_mul. rewrite Hab. mlia. }
  rewrite E1, E2. set (t := x + residue g) in *.
  pose proof (Z.mod_pos_bound t 1000 ltac:(lia)) as Hm. pose proof (Z.div_mod t 1000 ltac:(lia)) as Hd.
  assert (E3 : sat_add u32_max (sat_mul u32_max b (permil g)) (t mod 1000) = y + t mod 1000).
  { unfold sat_add, sat_mul. fold y. mlia. }
  rewrite E3. set (q := t / 1000) in *. set (m := t mod 1000) in *.
  assert (E4 : x + y + residue g = q * 1000 + (y + m)) by lia. rewrite E4.
  rewrite Z.div_add_l, (Z.add_comm (q * 1000)), Z.mod_add by lia.
  assert (0 <= q) by (unfold q; apply Z.div_pos; lia).
  pose proof (Z.div_pos (y + m) 1000 ltac:(lia) ltac:(lia)).
  pose proof (Z.mul_div_le (y + m) 1000 ltac:(lia)).
  f_equal. unfold sat_add. mlia.
Qed.

Lemma refill_additive_witness : refill_ms (refill_ms eu 7) 95 = refill_ms eu (7 + 95) /\ residue (refill_ms eu 102) = 20.
Proof.
  split; [|vm_compute; reflexivity]. apply refill_additive.
  - apply duty_new_ok; [split; vm_compute; discriminate | vm_compute; discriminate].
  - lia.
  - lia.
  - vm_compute; discriminate.
  - vm_compute; discriminate.
Defined.

(** ** Hop theory *)

Lemma swap_Permutation {A} (l : list A) i j : swap l i j ≡ₚ l.
Proof.
  unfold swap. destruct (l !! i) as [a|] eqn:Hi; [|done]. destruct (l !! j) as [b|] eqn:Hj; [|done].
  destruct (decide (i = j)) as [->|Hne].
  - rewrite Hi in Hj. injection Hj as ->. rewrite list_insert_insert_eq. by rewrite list_insert_id.
  - by apply Permutation_insert_swap.
Qed.

Lemma shuffle_Permutation j x perm : shuffle j x perm ≡ₚ perm.
Proof. revert x perm. induction j as [|j IH]; intros x perm; simpl; [done|]. by rewrite IH, swap_Permutation. Qed.

Lemma hop_table_Permutation N seed : (N <= 256)%nat -> hop_table N seed ≡ₚ map Z.of_nat (seq 0 N).
Proof.
  intros HN. unfold hop_table. rewrite shuffle_Permutation.
  enough (map (fun k => wrap8 (Z.of_nat k)) (seq 0 N) = map Z.of_nat (seq 0 N)) as -> by done. apply List.map_ext_in.
  intros k Hk. apply List.in_seq in Hk. apply wrap8_small. mlia.
Qed.

(** The channel of an absolute slot number: the slot within the cycle picks it
    (firmware/src/radio/net/fhss.rs, [fhss_channel_for]). *)
Definition channel_at (N : nat) (seed slot : Z) : Z :=
  hop_channel N seed (slot / Z.of_nat N) (slot mod Z.of_nat N).

(** the hop sequence visits every channel equally. For every seed and every channel count up
    to 256 the table is a permutation of the channels, so each is used exactly once in any N
    consecutive slots, and two visits to a channel are always a multiple of N slots apart (for the
    80-channel plan of 300 ms slots, at least 24 s, more than the 20 s averaging window). *)
Theorem hop_visits_spaced (N : nat) (seed s s' : Z) :
  (1 <= N <= 256)%nat -> 0 <= s -> 0 <= s' ->
  hop_table N seed ≡ₚ map Z.of_nat (seq 0 N) /\ 0 <= channel_at N seed s < Z.of_nat N /\
  (channel_at N seed s = channel_at N seed s' <-> (Z.of_nat N | s - s')).
Proof.
  intros HN Hs Hs'. pose proof (hop_table_Permutation N seed ltac:(lia)) as Hp. split; [done|].
  assert (Hlen : length (hop_table N seed) = N) by (by rewrite Hp, length_map, length_seq).
  assert (Hnd : List.NoDup (hop_table N seed)).
  { apply NoDup_ListNoDup. rewrite Hp. apply NoDup_ListNoDup.
    apply NoDup_map_NoDup_ForallPairs; [intros a b _ _; lia | apply List.seq_NoDup]. }
  pose proof (Z.mod_pos_bound s (Z.of_nat N) ltac:(lia)). pose proof (Z.mod_pos_bound s' (Z.of_nat N) ltac:(lia)).
  unfold channel_at, hop_channel. split.
  - assert (Hin : In (nth (Z.to_nat (s mod Z.of_nat N)) (hop_table N seed) 0) (map Z.of_nat (seq 0 N))).
    { eapply Permutation_in; [exact Hp|]. apply List.nth_In. lia. }
    apply List.in_map_iff in Hin as (k & <- & Hk). apply List.in_seq in Hk. lia.
  - split.
    + intros He. apply (proj1 (List.NoDup_nth (hop_table N seed) 0) Hnd) in He; [|lia | lia].
      assert (Hm : s mod Z.of_nat N = s' mod Z.of_nat N) by lia.
      apply Z.mod_divide; [lia|]. rewrite Zminus_mod, Hm, Z.sub_diag. apply Z.mod_0_l. lia.
    + intros [k Hk]. assert (s = s' + k * Z.of_nat N) as -> by lia. by rewrite Z.mod_add by lia.
Qed.

Lemma hop_visits_spaced_witness :
  channel_at 80 12345 7 = channel_at 80 12345 87 /\ channel_at 80 12345 7 <> channel_at 80 12345 8.
Proof.
  pose proof (hop_visits_spaced 80 12345 7 87 ltac:(lia) ltac:(lia) ltac:(lia)) as (_ & _ & H1).
  pose proof (hop_visits_spaced 80 12345 7 8 ltac:(lia) ltac:(lia) ltac:(lia)) as (_ & _ & H2).
  split.
  - apply (proj2 H1). exists (-1). reflexivity.
  - intros He. destruct (proj1 H2 He) as [k Hk]. lia.
Defined.

(** ** Time on air and back-off *)

(** the budget arithmetic never under-counts. For a frame of any length [frame_toa_ms] is the
    airtime rounded up to a whole millisecond, and past the range of u32 it clamps to the maximum;
    the uplink back-off of a node nobody answers starts at its period, doubles with every miss,
    never drops below the period (or one second) and never passes the heartbeat cap. *)
Theorem airtime_rounds_up (len period cap misses : Z) :
  0 <= len <= u64_max -> u64_ok period -> u64_ok cap -> 0 <= misses <= u8_max ->
  (let t := frame_toa_ms len in
   0 < t <= u32_max /\
   ((8000 * (len + 11) <= BITRATE * t /\ BITRATE * (t - 1) < 8000 * (len + 11)) \/
    (t = u32_max /\ BITRATE * u32_max < 8000 * (len + 11)))) /\
  (let b := uplink_backoff_s period cap in
   b 0 = Z.max period 1 /\
   Z.max period 1 <= b misses <= Z.max cap (Z.max period 1) /\ b misses <= b (misses + 1) /\
   b (misses + 1) <= 2 * b misses).
Proof.
  intros Hl Hp Hc Hm. split.
  - cbv zeta. unfold frame_toa_ms. change (4 + 4 + 1 + 2) with 11. change (8 * 1000) with 8000.
    set (x := sat_mul u64_max (sat_add u64_max len 11) 8000).
    pose proof (div_ceil_spec x BITRATE ltac:(vm_compute; reflexivity)) as Hd.
    assert (Hx : 8000 * (len + 11) <= u64_max /\ x = 8000 * (len + 11) \/
                 u64_max < 8000 * (len + 11) /\ x = u64_max).
    { unfold x. pose proof (sat_add_spec u64_max len 11). pose proof (sat_mul_spec u64_max (sat_add u64_max len 11) 8000).
      mlia. }
    set (c := div_ceil x BITRATE) in *. clearbody c x.
    change BITRATE with 19200 in *. destruct (u32_max <? c) eqn:Hcc; bool_hyps.
    + split; [mlia|]. right. split; [done|]. mlia.
    + split; [mlia|]. left. mlia.
  - cbv zeta. unfold uplink_backoff_s. set (p := Z.max period 1). set (k := Z.max cap p).
    assert (Hpow : forall m, 0 <= m -> Z.shiftl 1 m = 2 ^ m) by (intros; rewrite Z.shiftl_mul_pow2; lia).
    rewrite !Hpow by lia. change (Z.min 0 32) with 0. change (2 ^ 0) with 1.
    assert (H1 : 1 <= 2 ^ Z.min misses 32) by (pose proof (Z.pow_pos_nonneg 2 (Z.min misses 32)); lia).
    assert (H2 : 2 ^ Z.min misses 32 <= 2 ^ Z.min (misses + 1) 32 <= 2 * 2 ^ Z.min misses 32).
    { destruct (Z.le_gt_cases 32 misses).
      - rewrite !Z.min_r by lia. lia.
      - rewrite !Z.min_l by lia. rewrite Z.pow_add_r by lia. lia. }
    set (e := 2 ^ Z.min misses 32) in *. set (e' := 2 ^ Z.min (misses + 1) 32) in *. clearbody e e'.
    assert (1 <= p <= k) by lia. assert (p * e <= p * e' <= 2 * (p * e)) by nia. assert (p <= p * e) by nia.
    unfold sat_mul. assert (p <= u64_max) by mlia. split_and!; mlia.
Qed.

Lemma airtime_rounds_up_witness : frame_toa_ms 74 = 36 /\ uplink_backoff_s 60 3600 3 = 480 /\
  8000 * (74 + 11) <= BITRATE * 36.
Proof.
  pose proof (airtime_rounds_up 74 60 3600 3 ltac:(split; vm_compute; discriminate) ltac:(split; vm_compute; discriminate)
    ltac:(split; vm_compute; discriminate) ltac:(split; vm_compute; discriminate)) as [H _].
  split; [vm_compute; reflexivity|]. split; [vm_compute; reflexivity|].
  cbv zeta in H. destruct H as [_ [[H _]|[H _]]]; [exact H | vm_compute in H; discriminate H].
Defined.
