(* ===== verification/Ccm.v ===== *)
(** AES-128-CCM (crates/radio/src/ccm.rs) over an abstract block cipher: the [AesBlock] trait is a
    function from key and block to block, as the trait documents it. *)
From S2P Require Import Prelude Bytes.

Definition CCM_L : Z := 2.
Definition NONCE_LEN : Z := 13.
Definition TAG_LEN : Z := 8.
Definition MAX_AAD : Z := 32.
#[export] Hint Unfold CCM_L NONCE_LEN TAG_LEN MAX_AAD : machine.

(** [encrypt_block]: a 16-byte block for every key and block. *)
Class AesBlock := { encrypt_block : list Z -> list Z -> list Z }.
Class AesBlockLaws `{!AesBlock} := {
  encrypt_len : forall key b, zlen (encrypt_block key b) = 16;
  encrypt_ok : forall key b, bytes_ok (encrypt_block key b);
}.

Definition block_xor (dst src : list Z) : list Z := xor_bytes dst src.
Definition ct_eq (a b : list Z) : bool := if negb (zlen a =? zlen b) then false else or_diff a b =? 0.

(** [chunk.iter().enumerate()]: the chunk xored into the front of [x]. *)
Definition xor_front (x chunk : list Z) : list Z :=
  patch x 0 (xor_bytes (slice x 0 (zlen chunk)) chunk).

Definition CCM_BLOCK : Z := 16.

(** The A block of a counter, and B0. *)
Definition a_block (nonce : list Z) (counter : Z) : list Z :=
  [CCM_L - 1] ++ nonce ++ be_bytes 2 counter.
Definition b0_block (nonce : list Z) (adata : bool) (mlen : Z) : list Z :=
  [Z.lor (Z.lor (if adata then 0x40 else 0) (Z.shiftl ((TAG_LEN - 2) / 2) 3)) (CCM_L - 1)] ++ nonce ++ be_bytes 2 (wrap16 mlen).

Section Ccm.
Context `{Haes : !AesBlock}.

Definition ctr_keystream (key nonce : list Z) (counter : Z) : list Z := encrypt_block key (a_block nonce counter).

(** The loop of [ctr_apply] from block index [i], with [i + 1] as u16 as the counter. *)
Fixpoint ctr_from (fuel : nat) (key nonce : list Z) (i : Z) (data : list Z) : list Z :=
  match fuel with
  | O => []
  | Datatypes.S fuel =>
      match data with
      | [] => []
      | _ => xor_bytes (take 16 data) (ctr_keystream key nonce (wrap16 (i + 1))) ++
             ctr_from fuel key nonce (i + 1) (drop 16 data)
      end
  end.
Definition ctr_apply (key nonce data : list Z) : list Z := ctr_from (length data) key nonce 0 data.

Fixpoint mac_from (fuel : nat) (key x stream : list Z) : list Z :=
  match fuel with
  | O => x
  | Datatypes.S fuel =>
      match stream with
      | [] => x
      | _ => mac_from fuel key (encrypt_block key (xor_front x (take 16 stream))) (drop 16 stream)
      end
  end.
Definition mac_stream (key x stream : list Z) : list Z := mac_from (length stream) key x stream.

Definition cbc_mac (key nonce aad data : list Z) : list Z :=
  let x := zeros 16 in
  let adata := negb (zlen aad =? 0) in
  let x := encrypt_block key (block_xor x (b0_block nonce adata (zlen data))) in
  let x := if adata : bool then
             let a := patch (patch (zeros (2 + MAX_AAD)) 0 (be_bytes 2 (wrap16 (zlen aad)))) 2 aad in
             mac_stream key x (slice a 0 (2 + zlen aad))
           else x in
  mac_stream key x data.

Definition tag_of (mac s0 : list Z) : list Z := xor_bytes (slice mac 0 TAG_LEN) (slice s0 0 TAG_LEN).

(** The data after the call, and the tag. *)
Definition seal (key nonce aad data : list Z) : list Z * list Z :=
  let mac := cbc_mac key nonce aad data in
  let data := ctr_apply key nonce data in
  let s0 := ctr_keystream key nonce 0 in
  (data, tag_of mac s0).

(** The data after the call, and whether the tag verified. *)
Definition open (key nonce aad data tag : list Z) : list Z * bool :=
  let data := ctr_apply key nonce data in
  let mac := cbc_mac key nonce aad data in
  let s0 := ctr_keystream key nonce 0 in
  (data, ct_eq (tag_of mac s0) tag).

Definition key_check (key : list Z) : Z :=
  let b := encrypt_block key (zeros 16) in le_val (slice b 0 4).

(** ** Theory *)

Context `{Hlaws : !AesBlockLaws}.

Lemma xor_bytes_involutive a s : (length a <= length s)%nat -> xor_bytes (xor_bytes a s) s = a.
Proof.
  revert s. unfold xor_bytes. induction a as [|x a IH]; intros [|y s] Hl; simpl in *; try done; try lia.
  rewrite IH by lia. f_equal. by rewrite Z.lxor_assoc, Z.lxor_nilpotent, Z.lxor_0_r.
Qed.
Lemma length_xor_bytes a s : length (xor_bytes a s) = Nat.min (length a) (length s).
Proof. apply length_zip_with. Qed.
Lemma keystream_length key nonce c : length (ctr_keystream key nonce c) = 16%nat.
Proof. pose proof (encrypt_len key (a_block nonce c)) as H. unfold zlen, ctr_keystream in *. lia. Qed.
Lemma xor_bytes_ok a s : bytes_ok a -> bytes_ok s -> bytes_ok (xor_bytes a s).
Proof.
  intros Ha. revert s. unfold xor_bytes. induction Ha as [|x a Hx Ha IH]; intros s Hs; simpl; [constructor|].
  destruct s as [|y s]; [constructor|]. apply List.Forall_cons_iff in Hs as [Hy Hs]. constructor; [|by apply IH].
  unfold byte_ok in *. assert (Hl : 0 <= Z.lxor x y) by (apply Z.lxor_nonneg; lia). split; [done|].
  destruct (Z.eq_dec (Z.lxor x y) 0) as [->|Hne]; [lia|].
  assert (Hlog : Z.log2 (Z.lxor x y) < 8).
  { pose proof (Z.log2_lxor x y ltac:(lia) ltac:(lia)).
    assert (H255 : forall z, 0 <= z <= 255 -> Z.log2 z <= 7).
    { intros z Hz. change 7 with (Z.log2 255). apply Z.log2_le_mono. lia. }
    pose proof (H255 x Hx). pose proof (H255 y Hy). lia. }
  pose proof (proj2 (Z.log2_lt_pow2 (Z.lxor x y) 8 ltac:(lia)) Hlog) as Hp. change (2 ^ 8) with 256 in Hp. lia.
Qed.

Lemma ctr_from_length fuel key nonce i data : (length data <= fuel)%nat -> length (ctr_from fuel key nonce i data) = length data.
Proof.
  revert i data. induction fuel as [|fuel IH]; intros i [|b data] Hl; try done; [simpl in Hl; lia|].
  cbn [ctr_from]. rewrite length_app, length_xor_bytes, keystream_length, IH by (rewrite length_drop; lia).
  rewrite length_take, length_drop. lia.
Qed.

Lemma ctr_from_involutive fuel key nonce i data : (length data <= fuel)%nat ->
  ctr_from fuel key nonce i (ctr_from fuel key nonce i data) = data.
Proof.
  revert i data. induction fuel as [|fuel IH]; intros i data Hl;
    [destruct data; [done | simpl in Hl; lia]|].
  destruct data as [|b data]; [done|].
  set (d := b :: data) in *. assert (Hd : (0 < length d)%nat) by (unfold d; simpl; lia).
  set (s := ctr_keystream key nonce (wrap16 (i + 1))).
  pose proof (keystream_length key nonce (wrap16 (i + 1))) as Hs. fold s in Hs.
  set (c := xor_bytes (take 16 d) s). set (r := ctr_from fuel key nonce (i + 1) (drop 16 d)).
  assert (E0 : ctr_from (Datatypes.S fuel) key nonce i d = c ++ r) by done. rewrite E0.
  assert (Hc : length c = Nat.min 16 (length d)) by (unfold c; rewrite length_xor_bytes, length_take, Hs; lia).
  assert (Hr : length r = (length d - 16)%nat) by (unfold r; rewrite ctr_from_length; rewrite length_drop; lia).
  assert (Hne : c ++ r <> []) by (destruct c; simpl in *; [lia | done]).
  cbn [ctr_from]. destruct (c ++ r) as [|x l] eqn:E; [done|]. rewrite <- E. fold s.
  destruct (le_lt_dec (length d) 16) as [Hle|Hgt].
  - assert (r = []) as -> by (apply nil_length_inv; lia). rewrite app_nil_r, take_ge, drop_ge by lia.
    unfold c. rewrite xor_bytes_involutive, take_ge by (rewrite ?length_take; lia).
    destruct fuel; simpl; by rewrite app_nil_r.
  - rewrite take_app_length', drop_app_length' by lia. unfold c, r.
    rewrite xor_bytes_involutive by (rewrite length_take; lia). rewrite IH by (rewrite length_drop; lia).
    apply take_drop.
Qed.

Lemma zlen_ctr key nonce data : zlen (ctr_apply key nonce data) = zlen data.
Proof. unfold zlen, ctr_apply. by rewrite ctr_from_length. Qed.
Lemma ctr_apply_involutive key nonce data : ctr_apply key nonce (ctr_apply key nonce data) = data.
Proof. unfold ctr_apply. rewrite ctr_from_length by done. by apply ctr_from_involutive. Qed.

Lemma ctr_apply_ok key nonce data : bytes_ok data -> bytes_ok (ctr_apply key nonce data).
Proof.
  unfold ctr_apply. generalize (length data) as fuel, 0 as i. intros fuel. revert data.
  induction fuel as [|fuel IH]; intros data i Hd; cbn [ctr_from]; [constructor|]. destruct data as [|b data]; [constructor|].
  apply bytes_ok_app. split; [apply xor_bytes_ok; [by apply Forall_take | apply encrypt_ok] | by apply IH, Forall_drop].
Qed.

Lemma ct_eq_spec a b : bytes_ok a -> bytes_ok b -> ct_eq a b = true <-> a = b.
Proof.
  intros Ha Hb. unfold ct_eq. destruct (zlen a =? zlen b) eqn:Hl; bool_hyps; simpl.
  - rewrite Z.eqb_eq. apply or_diff_eq; try done. unfold zlen in Hl. lia.
  - split; [done|]. congruence.
Qed.

Lemma mac_from_block fuel key x stream : zlen x = 16 /\ bytes_ok x ->
  zlen (mac_from fuel key x stream) = 16 /\ bytes_ok (mac_from fuel key x stream).
Proof.
  revert x stream. induction fuel as [|fuel IH]; intros x stream Hx; cbn [mac_from]; [done|].
  destruct stream; [done|]. apply IH. split; [apply encrypt_len | apply encrypt_ok].
Qed.
Lemma cbc_mac_block key nonce aad data : zlen (cbc_mac key nonce aad data) = 16 /\ bytes_ok (cbc_mac key nonce aad data).
Proof.
  unfold cbc_mac. set (x := encrypt_block _ _).
  assert (Hx : zlen x = 16 /\ bytes_ok x) by (split; [apply encrypt_len | apply encrypt_ok]).
  destruct (negb _); unfold mac_stream; repeat apply mac_from_block; done.
Qed.
Lemma tag_of_ok key nonce aad data :
  zlen (tag_of (cbc_mac key nonce aad data) (ctr_keystream key nonce 0)) = TAG_LEN /\
  bytes_ok (tag_of (cbc_mac key nonce aad data) (ctr_keystream key nonce 0)).
Proof.
  destruct (cbc_mac_block key nonce aad data) as [Hz Hb]. pose proof (keystream_length key nonce 0) as Hs.
  unfold tag_of. change TAG_LEN with 8. split.
  - unfold zlen. rewrite length_xor_bytes. pose proof (zlen_slice (cbc_mac key nonce aad data) 0 8 ltac:(lia) ltac:(lia) ltac:(lia)).
    pose proof (zlen_slice (ctr_keystream key nonce 0) 0 8 ltac:(lia) ltac:(lia) ltac:(unfold zlen; lia)). unfold zlen in *. lia.
  - apply xor_bytes_ok; auto with tower. apply bytes_ok_slice, encrypt_ok.
Qed.

(** Opening decrypts, and accepts the tag exactly when it is the one sealing the plaintext gives. *)
Lemma open_spec key nonce aad ct tag : bytes_ok tag ->
  open key nonce aad ct tag =
    (ctr_apply key nonce ct, bool_decide (seal key nonce aad (ctr_apply key nonce ct) = (ct, tag))).
Proof.
  intros Ht. unfold open, seal. f_equal. rewrite ctr_apply_involutive.
  apply eq_bool_prop_intro. rewrite !Is_true_true, ct_eq_spec, bool_decide_eq_true by (done || apply tag_of_ok).
  split; [by intros -> | by intros [= ->]].
Qed.
Lemma seal_lengths key nonce aad pt : zlen (fst (seal key nonce aad pt)) = zlen pt /\ zlen (snd (seal key nonce aad pt)) = TAG_LEN.
Proof. split; [apply zlen_ctr | apply tag_of_ok]. Qed.
Lemma sealed_ok key nonce aad pt : bytes_ok (fst (seal key nonce aad pt)) -> bytes_ok pt.
Proof. simpl. intros H. rewrite <- (ctr_apply_involutive key nonce pt). by apply ctr_apply_ok. Qed.
Lemma seal_inj key nonce aad pt pt' : fst (seal key nonce aad pt) = fst (seal key nonce aad pt') -> pt = pt'.
Proof. simpl. intros H. by rewrite <- (ctr_apply_involutive key nonce pt), H, ctr_apply_involutive. Qed.

(** C18. Opening accepts exactly what sealing produces. For every key, nonce and associated data,
    [open] succeeds on a ciphertext and tag with plaintext [pt] if and only if [seal] of [pt]
    gives that ciphertext and that tag; so every sealed frame opens to its plaintext, and any
    other tag is refused. *)
Theorem open_iff_sealed (key nonce aad ct pt tag : list Z) :
  bytes_ok tag ->
  open key nonce aad ct tag = (pt, true) <-> seal key nonce aad pt = (ct, tag).
Proof.
  intros Ht. rewrite open_spec by done. split.
  - intros [= <- ->%bool_decide_eq_true]. done.
  - intros H. assert (Hp : ctr_apply key nonce ct = pt); [|by rewrite Hp, bool_decide_eq_true_2].
    injection H as <- _. apply ctr_apply_involutive.
Qed.
End Ccm.

(** ** Domain separation *)

Lemma app_eq_len {A} (a b c d : list A) : zlen a = zlen b -> a ++ c = b ++ d -> a = b /\ c = d.
Proof. unfold zlen. intros Hl. apply app_inj_1. lia. Qed.

(** no two uses of the block cipher meet. Keystream blocks of distinct (nonce, counter) pairs
    are distinct cipher inputs, none of them is a MAC header block B0, and neither kind is the
    all-zero block whose encryption [key_check] publishes; B0 determines the nonce, the presence of
    associated data and the message length. *)
Theorem ccm_blocks_distinct (n n' : list Z) (c c' : Z) (ad ad' : bool) (m m' : Z) :
  zlen n = NONCE_LEN -> zlen n' = NONCE_LEN -> u16_ok c -> u16_ok c' -> u16_ok m -> u16_ok m' ->
  (a_block n c = a_block n' c' -> n = n' /\ c = c') /\
  a_block n c <> b0_block n' ad m /\ a_block n c <> zeros 16 /\ b0_block n ad m <> zeros 16 /\
  (b0_block n ad m = b0_block n' ad' m' -> n = n' /\ ad = ad' /\ m = m').
Proof.
  intros Hn Hn' Hc Hc' Hm Hm'.
  assert (Hinj : forall v w, u16_ok v -> u16_ok w -> be_bytes 2 v = be_bytes 2 w -> v = w).
  { intros v w Hv Hw. apply be_bytes_inj; mlia. }
  unfold a_block, b0_block. rewrite !wrap16_small by done. split_and!.
  - intros [= H]. apply app_eq_len in H as [-> H]; [|congruence]. split; [done | by apply Hinj].
  - intros [= H _]. by destruct ad.
  - done.
  - by destruct ad.
  - intros [= Hf H]. apply app_eq_len in H as [-> H]; [|congruence]. split; [done|].
    split; [|by apply Hinj]. by destruct ad, ad'.
Qed.

(** ** A toy cipher, to run the mode on *)

Module ToyCipher.
#[export] Instance toy_aes : AesBlock := {
  encrypt_block := fun key b =>
    map (fun i => wrap8 (nth i key 0 + 7 * nth i b 0 + 3 * nth (15 - i) b 0 + Z.of_nat i)) (seq 0 16);
}.
#[export] Instance toy_laws : AesBlockLaws.
Proof.
  constructor; intros key b.
  - unfold encrypt_block, toy_aes, zlen. by rewrite length_map.
  - unfold encrypt_block, toy_aes. apply List.Forall_forall. intros x Hx. apply List.in_map_iff in Hx as (i & <- & _).
    pose proof (wrap8_ok (nth i key 0 + 7 * nth i b 0 + 3 * nth (15 - i) b 0 + Z.of_nat i)). unfold byte_ok. mlia.
Qed.

Definition k : list Z := replicate 16 5.
Definition nc : list Z := [1; 2; 3; 4; 5; 6; 7; 8; 9; 10; 11; 12; 13].
Definition ad : list Z := [9; 9; 9].
Definition pt : list Z := map Z.of_nat (seq 0 37).

Lemma open_iff_sealed_witness :
  open k nc ad (fst (seal k nc ad pt)) (snd (seal k nc ad pt)) = (pt, true) /\
  open k nc ad (fst (seal k nc ad pt)) (zeros 8) <> (pt, true).
Proof.
  split.
  - apply (open_iff_sealed k nc ad (fst (seal k nc ad pt)) pt (snd (seal k nc ad pt))).
    + apply bytes_okb_ok. vm_compute. reflexivity.
    + vm_compute. reflexivity.
  - vm_compute. intros H. discriminate H.
Defined.

Lemma ccm_blocks_distinct_witness : a_block nc 1 <> a_block nc 2.
Proof.
  assert (H1 : u16_ok 1) by (split; vm_compute; discriminate).
  assert (H2 : u16_ok 2) by (split; vm_compute; discriminate).
  pose proof (ccm_blocks_distinct nc nc 1 2 true true 1 2 eq_refl eq_refl H1 H2 H1 H2) as [H _].
  intros He. apply H in He as [_ He]. discriminate He.
Defined.
End ToyCipher.
