(* ===== verification/RadioFrame.v ===== *)
(** Network frames on the air (firmware/src/radio/frame.rs): the clear header and its parser, and
    frames sealed and opened under AES-CCM with the header as associated data and the nonce derived
    from it. *)
From S2P Require Import Prelude Bytes NetWire Ccm.

Definition FORMAT : Z := 1.
Definition HDR_LEN : Z := 14.
Definition HDR_LEN_BULK : Z := 17.
Definition MAX_PAYLOAD : Z := 74.
Definition MAX_BULK_PAYLOAD : Z := 64.
Definition MAX_FRAME : Z := 96.
#[export] Hint Unfold FORMAT HDR_LEN HDR_LEN_BULK MAX_PAYLOAD MAX_BULK_PAYLOAD MAX_FRAME : machine.

Inductive FrameType :=
| Data | Ack | BulkReq | BulkData | JoinReq | JoinResp | JoinConfirm | Beacon | JoinNonce | JoinReveal.
#[export] Instance FrameType_eq_dec : EqDecision FrameType.
Proof. solve_decision. Defined.
(** [self.frame_type as u8]. *)
Definition ft_as_u8 (t : FrameType) : Z :=
  match t with
  | Data => 0 | Ack => 1 | BulkReq => 2 | BulkData => 3 | JoinReq => 4
  | JoinResp => 5 | JoinConfirm => 6 | Beacon => 7 | JoinNonce => 8 | JoinReveal => 9
  end.
Definition ft_from_u8 (v : Z) : option FrameType :=
  match v with
  | 0 => Some Data | 1 => Some Ack | 2 => Some BulkReq | 3 => Some BulkData | 4 => Some JoinReq
  | 5 => Some JoinResp | 6 => Some JoinConfirm | 7 => Some Beacon | 8 => Some JoinNonce | 9 => Some JoinReveal
  | _ => None
  end.
Definition has_bulk_index (t : FrameType) : bool := match t with BulkReq | BulkData => true | _ => false end.

Definition CONFIRMED : Z := 1.
Definition KEYED : Z := 2.
Definition LAST_CHUNK : Z := 4.
Definition BULK_ANNOUNCE : Z := 8.

Record Header := {
  frame_type : FrameType;
  flags : Z;
  src : Z;
  dest : Z;
  counter : Z;
  bulk_index : option Z;
}.
Inductive FrameError := TooShort | BadFormat | BadType | PayloadTooLong | AuthFail.

Definition wire_len (h : Header) : Z := if bulk_index h then HDR_LEN_BULK else HDR_LEN.
Definition max_payload (h : Header) : Z := if bulk_index h then MAX_BULK_PAYLOAD else MAX_PAYLOAD.

(** [Header::encode]: the buffer with the header at its front, and the header's length. *)
Definition encode (h : Header) (out : list Z) : list Z * Z :=
  let n := wire_len h in
  let out := patch out 0 [Z.lor (wrap8 (Z.shiftl FORMAT 5)) (Z.land (ft_as_u8 (frame_type h)) 0x1F)] in
  let out := patch out 1 [flags h] in
  let out := patch out 2 (le_bytes 4 (src h)) in
  let out := patch out 6 (le_bytes 4 (dest h)) in
  let out := patch out 10 (le_bytes 4 (counter h)) in
  let out := match bulk_index h with
             | Some idx => patch out 14 (slice (le_bytes 4 idx) 0 3)
             | None => out
             end in
  (out, n).

Definition parse (buf : list Z) : result FrameError (Header * Z) :=
  if zlen buf <? HDR_LEN then Err TooShort
  else if negb (Z.shiftr (byte_at buf 0) 5 =? FORMAT) then Err BadFormat
  else
    match ft_from_u8 (Z.land (byte_at buf 0) 0x1F) with
    | None => Err BadType
    | Some frame_type =>
        let h idx := {| frame_type := frame_type; flags := byte_at buf 1; src := le_val (slice buf 2 4);
                        dest := le_val (slice buf 6 4); counter := le_val (slice buf 10 4); bulk_index := idx |} in
        if has_bulk_index frame_type then
          if zlen buf <? HDR_LEN_BULK then Err TooShort
          else Ok (h (Some (le_val (slice buf 14 3 ++ [0]))), HDR_LEN_BULK)
        else Ok (h None, HDR_LEN)
    end.

Section Frames.
Context `{Haes : !AesBlock}.

Definition header_nonce (h : Header) : list Z := nonce_for (src h) (counter h) (default 0 (bulk_index h)).

(** [seal_frame]: the buffer after the call, and the frame's length. *)
Definition seal_frame (key : list Z) (h : Header) (payload out : list Z) : list Z * result FrameError Z :=
  if max_payload h <? zlen payload then (out, Err PayloadTooLong)
  else
    let hlen := wire_len h in
    let plen := zlen payload in
    if zlen out <? hlen + plen + TAG_LEN then (out, Err TooShort)
    else
      let '(out, _) := encode h out in
      let out := patch out hlen payload in
      let nonce := header_nonce h in
      let aad := slice out 0 hlen in
      let '(data, tag) := seal key nonce aad (slice out hlen plen) in
      let out := patch out hlen data in
      let out := patch out (hlen + plen) tag in
      (out, Ok (hlen + plen + TAG_LEN)).

(** [open_frame]: the buffer after the call, the header and the range of the plaintext in it. *)
Definition open_frame (key buf : list Z) : list Z * result FrameError (Header * (Z * Z)) :=
  match parse buf with
  | Err e => (buf, Err e)
  | Ok (h, hlen) =>
      if zlen buf <? hlen + TAG_LEN then (buf, Err TooShort)
      else
        let plen := zlen buf - hlen - TAG_LEN in
        let nonce := header_nonce h in
        let tag := slice buf (hlen + plen) TAG_LEN in
        let aad := slice buf 0 hlen in
        let '(data, valid) := open key nonce aad (slice buf hlen plen) tag in
        let buf := patch buf hlen data in
        if negb valid then (buf, Err AuthFail) else (buf, Ok (h, (hlen, hlen + plen)))
  end.
End Frames.

(** ** The header's layout *)

Record hdr_ok (h : Header) : Prop := {
  ho_flags : u8_ok (flags h);
  ho_src : u32_ok (src h);
  ho_dest : u32_ok (dest h);
  ho_counter : u32_ok (counter h);
  (** A bulk frame carries an index of 24 bits, another frame none. *)
  ho_bulk : match bulk_index h with
            | Some i => has_bulk_index (frame_type h) = true /\ 0 <= i < 2 ^ 24
            | None => has_bulk_index (frame_type h) = false
            end;
}.
Definition index_bytes (i : option Z) : list Z := match i with Some i => le_bytes 3 i | None => [] end.
Definition header_bytes (h : Header) : list Z :=
  [32 + ft_as_u8 (frame_type h)] ++ [flags h] ++ le_bytes 4 (src h) ++ le_bytes 4 (dest h) ++ le_bytes 4 (counter h)
    ++ index_bytes (bulk_index h).

Lemma ft_from_as t : ft_from_u8 (ft_as_u8 t) = Some t.
Proof. by destruct t. Qed.
Lemma ft_from_Some v t : ft_from_u8 v = Some t <-> v = ft_as_u8 t.
Proof.
  split; [|intros ->; apply ft_from_as].
  destruct v as [|v|v]; [by intros [= <-]| |done]. do 4 (try (destruct v; try done)); by intros [= <-].
Qed.
Lemma ft_range t : 0 <= ft_as_u8 t <= 9.
Proof. destruct t; cbn; lia. Qed.
Lemma first_byte t : Z.lor (wrap8 (Z.shiftl FORMAT 5)) (Z.land (ft_as_u8 t) 0x1F) = 32 + ft_as_u8 t.
Proof. by destruct t. Qed.
Lemma first_byte_split b : byte_ok b -> Z.shiftr b 5 = FORMAT -> b = 32 + Z.land b 0x1F.
Proof.
  intros Hb Hs. rewrite Z.shiftr_div_pow2 in Hs by lia. change 0x1F with (Z.ones 5). rewrite Z.land_ones by lia.
  change (2 ^ 5) with 32 in *. unfold FORMAT in Hs. Z.to_euclidean_division_equations; lia.
Qed.

Lemma zlen_header h : zlen (header_bytes h) = wire_len h.
Proof. unfold header_bytes, wire_len. rewrite !zlen_app, !zlen_le_bytes. destruct (bulk_index h); reflexivity. Qed.
Lemma header_bytes_ok h : hdr_ok h -> bytes_ok (header_bytes h).
Proof.
  intros [Hf _ _ _ _]. pose proof (ft_range (frame_type h)). unfold header_bytes. rewrite !bytes_ok_app.
  split_and!; try apply le_bytes_ok; try (repeat constructor; unfold u8_ok, u8_max in Hf; lia).
  destruct (bulk_index h); [apply le_bytes_ok | constructor].
Qed.
(** Writing on from where the last write ended. *)
Lemma patch_next (l : list Z) a b o : o = zlen a -> zlen a + zlen b <= zlen l ->
  patch (patch l 0 a) o b = patch l 0 (a ++ b).
Proof. intros -> Hl. rewrite patch_split; [done | lia |]. rewrite zlen_app. lia. Qed.
Lemma encode_spec h out : wire_len h <= zlen out -> encode h out = (patch out 0 (header_bytes h), wire_len h).
Proof.
  intros Hl. unfold encode. rewrite first_byte. f_equal. rewrite <- zlen_header in Hl. unfold header_bytes in *.
  rewrite !zlen_app, !zlen_le_bytes in Hl. change (zlen [32 + _]) with 1 in Hl. change (zlen [flags h]) with 1 in Hl.
  pose proof (zlen_nonneg (index_bytes (bulk_index h))).
  assert (Hi : match bulk_index h with Some _ => 17 | None => 14 end <= zlen out).
  { destruct (bulk_index h); cbn [index_bytes] in Hl; rewrite ?zlen_le_bytes, ?zlen_nil in Hl; lia. }
  rewrite !patch_next by (rewrite ?zlen_app, ?zlen_le_bytes; unfold zlen in *; cbn [length]; destruct (bulk_index h); lia).
  destruct (bulk_index h) as [i|].
  - change (slice (le_bytes 4 i) 0 3) with (le_bytes 3 i).
    rewrite patch_next; [by rewrite <- !app_assoc | reflexivity | rewrite !zlen_app, !zlen_le_bytes; unfold zlen in *; cbn [length]; lia].
  - cbn [index_bytes]. by rewrite app_nil_r, <- !app_assoc.
Qed.

Lemma slice_one (l : list Z) i : 0 <= i < zlen l -> slice l i 1 = [byte_at l i].
Proof.
  unfold zlen, slice, byte_at. intros Hi. change (Z.to_nat 1) with 1%nat.
  destruct (drop (Z.to_nat i) l) as [|x r] eqn:E.
  - apply (f_equal length) in E. rewrite length_drop in E. simpl in E. lia.
  - assert (Hn : nth (Z.to_nat i) l 0 = x); [|by rewrite Hn].
    rewrite <- (take_drop (Z.to_nat i) l), E, app_nth2; rewrite length_take; [|lia].
    by replace (Z.to_nat i - _)%nat with 0%nat by lia.
Qed.
(** The field of a layout that starts where the fields [p] end. *)
Lemma slice_field (p f r : list Z) o n : o = zlen p -> n = zlen f -> slice (p ++ f ++ r) o n = f.
Proof. intros -> ->. apply slice_app_mid. Qed.
Lemma byte_at_app (p : list Z) b r i : i = zlen p -> byte_at (p ++ b :: r) i = b.
Proof. intros ->. unfold byte_at. rewrite zlen_to_nat, app_nth2 by lia. by rewrite Nat.sub_diag. Qed.

(** The parser reads back what the header wrote, and nothing else. *)
Lemma parse_header h r : hdr_ok h -> parse (header_bytes h ++ r) = Ok (h, wire_len h).
Proof.
  intros [Hf Hs Hd Hc Hb]. unfold parse. rewrite zlen_app, zlen_header. pose proof (zlen_nonneg r).
  assert (HDR_LEN <= wire_len h) by (unfold wire_len; destruct (bulk_index h); mlia).
  replace (wire_len h + zlen r <? HDR_LEN) with false by (symmetry; apply Z.ltb_ge; lia).
  change (byte_at (header_bytes h ++ r) 0) with (32 + ft_as_u8 (frame_type h)).
  change (byte_at (header_bytes h ++ r) 1) with (flags h).
  change (slice (header_bytes h ++ r) 2 4) with (le_bytes 4 (src h)).
  change (slice (header_bytes h ++ r) 6 4) with (le_bytes 4 (dest h)).
  change (slice (header_bytes h ++ r) 10 4) with (le_bytes 4 (counter h)).
  rewrite !le_val_u32 by done.
  replace (Z.shiftr (32 + ft_as_u8 (frame_type h)) 5 =? FORMAT) with true by (by destruct (frame_type h)).
  replace (Z.land (32 + ft_as_u8 (frame_type h)) 0x1F) with (ft_as_u8 (frame_type h)) by (by destruct (frame_type h)).
  rewrite ft_from_as. cbn [negb]. destruct h as [t f s d c [i|]]; cbn in Hb |- *.
  - destruct Hb as [Hb Hi]. rewrite Hb. replace (_ <? HDR_LEN_BULK) with false by (symmetry; apply Z.ltb_ge; mlia).
    replace (le_val _) with i; [done|]. symmetry. etrans; [apply (le_val_app (le_bytes 3 i) [0])|].
    rewrite le_val_le_bytes by (change (256 ^ Z.of_nat 3) with (2 ^ 24); done). simpl. lia.
  - by rewrite Hb.
Qed.
Lemma parse_Ok buf h n : bytes_ok buf -> parse buf = Ok (h, n) ->
  hdr_ok h /\ n = wire_len h /\ exists r, buf = header_bytes h ++ r.
Proof.
  intros Hbuf. unfold parse. split_if; bool_hyps; [done|]. split_if; bool_hyps; [done|].
  destruct (ft_from_u8 _) as [t|] eqn:Et; [|done]. apply ft_from_Some in Et.
  assert (Hb0 : byte_ok (byte_at buf 0) /\ byte_ok (byte_at buf 1)).
  { assert (Hb : forall i, 0 <= i < zlen buf -> byte_ok (byte_at buf i)); [|split; apply Hb; mlia].
    intros i Hi. pose proof (bytes_ok_slice buf i 1 Hbuf) as Hs. rewrite slice_one in Hs by done. by inversion Hs. }
  assert (H0 : slice buf 0 1 = [32 + ft_as_u8 t]).
  { rewrite slice_one by mlia. f_equal. rewrite <- Et. apply first_byte_split; [apply Hb0 | done]. }
  assert (H1 : slice buf 1 1 = [byte_at buf 1]) by (rewrite slice_one by mlia; done).
  assert (H4 : forall o, 0 <= o -> o + 4 <= zlen buf -> slice buf o 4 = le_bytes 4 (le_val (slice buf o 4)) /\ u32_ok (le_val (slice buf o 4))).
  { intros o Ho Hl. assert (Hz : zlen (slice buf o 4) = 4) by (by rewrite zlen_slice by lia). split.
    - rewrite <- (le_bytes_le_val (slice buf o 4)) at 1 by auto with tower. f_equal. unfold zlen in Hz. lia.
    - apply le_val_u32_ok; [auto with tower | done]. }
  destruct (H4 2) as [H2 H2']; [lia | mlia |]. destruct (H4 6) as [H6 H6']; [lia | mlia |]. destruct (H4 10) as [H10 H10']; [lia | mlia |].
  assert (Hsplit : buf = [32 + ft_as_u8 t] ++ [byte_at buf 1] ++ le_bytes 4 (le_val (slice buf 2 4)) ++ le_bytes 4 (le_val (slice buf 6 4))
    ++ le_bytes 4 (le_val (slice buf 10 4)) ++ slice buf 14 (zlen buf - 14)).
  { rewrite <- H0, <- H1, <- H2, <- H6, <- H10. rewrite <- (slice_all buf) at 1.
    replace (zlen buf) with (1 + (1 + (4 + (4 + (4 + (zlen buf - 14)))))) at 1 by lia.
    repeat (rewrite slice_split by mlia; f_equal). }
  destruct Hb0 as [_ Hb1]. destruct (has_bulk_index t) eqn:Eb.
  - split_if; [done|]. bool_hyps. intros [= <- <-]. rewrite le_val_app. change (le_val [0]) with 0. rewrite Z.mul_0_r, Z.add_0_r.
    assert (H14 : zlen (slice buf 14 3) = 3) by (rewrite zlen_slice; mlia).
    pose proof (le_val_bound (slice buf 14 3) ltac:(auto with tower)) as Hi. rewrite H14 in Hi. change (256 ^ 3) with (2 ^ 24) in Hi.
    split; [by constructor|]. split; [done|]. exists (slice buf 17 (zlen buf - 17)).
    unfold header_bytes. cbn [frame_type flags src dest counter bulk_index index_bytes]. rewrite Hsplit at 1.
    rewrite <- !app_assoc. repeat f_equal. replace (zlen buf - 14) with (3 + (zlen buf - 17)) by lia. rewrite slice_split by mlia.
    f_equal. rewrite <- (le_bytes_le_val (slice buf 14 3)) at 1 by auto with tower. f_equal. unfold zlen in H14. lia.
  - intros [= <- <-]. split; [by constructor|]. split; [done|]. exists (slice buf 14 (zlen buf - 14)). rewrite Hsplit at 1. unfold header_bytes.
    cbn [frame_type flags src dest counter bulk_index index_bytes]. rewrite app_nil_r, <- !app_assoc. reflexivity.
Qed.

(** ** Sealed frames *)

Section FrameLaws.
Context `{Haes : !AesBlock} `{Hlaws : !AesBlockLaws}.

(** The frame of a header and a payload. *)
Definition sealed (key : list Z) (h : Header) (p : list Z) : list Z * list Z := seal key (header_nonce h) (header_bytes h) p.
Definition frame_bytes (key : list Z) (h : Header) (p : list Z) : list Z :=
  header_bytes h ++ fst (sealed key h p) ++ snd (sealed key h p).

Lemma zlen_frame key h p : zlen (frame_bytes key h p) = wire_len h + zlen p + TAG_LEN.
Proof.
  unfold frame_bytes, sealed. destruct (seal_lengths key (header_nonce h) (header_bytes h) p) as [H1 H2].
  rewrite !zlen_app, zlen_header, H1, H2. lia.
Qed.
Lemma frame_payload_ok key h p : bytes_ok (frame_bytes key h p) -> bytes_ok p.
Proof. unfold frame_bytes. rewrite !bytes_ok_app. intros (_ & H & _). by apply sealed_ok in H. Qed.
Lemma wire_len_pos h : 0 < wire_len h.
Proof. unfold wire_len. destruct (bulk_index h); mlia. Qed.

(** What [seal_frame] does on every branch. *)
Lemma seal_frame_spec key h p out :
  seal_frame key h p out =
    if max_payload h <? zlen p then (out, Err PayloadTooLong)
    else if zlen out <? wire_len h + zlen p + TAG_LEN then (out, Err TooShort)
    else (patch out 0 (frame_bytes key h p), Ok (wire_len h + zlen p + TAG_LEN)).
Proof.
  unfold seal_frame. split_if; [done|]. split_if; [done|]. bool_hyps.
  pose proof (wire_len_pos h). pose proof (zlen_nonneg p). assert (0 < TAG_LEN) by mlia. rewrite encode_spec by lia.
  pose proof (zlen_header h) as Hh. rewrite (patch_next out (header_bytes h) p) by lia.
  set (o := patch out 0 (header_bytes h ++ p)).
  assert (Ho : o = (header_bytes h ++ p) ++ drop (Z.to_nat (wire_len h + zlen p)) out).
  { unfold o, patch. change (take (Z.to_nat 0) out) with (@nil Z). rewrite app_nil_l. f_equal. f_equal. rewrite length_app. unfold zlen in *. lia. }
  assert (Ha : slice o 0 (wire_len h) = header_bytes h) by (rewrite Ho, <- app_assoc, <- Hh; apply slice_app_l).
  assert (Hp : slice o (wire_len h) (zlen p) = p) by (rewrite Ho, <- app_assoc; by apply slice_field).
  rewrite Ha, Hp. fold (sealed key h p). pose proof (seal_lengths key (header_nonce h) (header_bytes h) p) as [Hs1 Hs2].
  fold (sealed key h p) in Hs1, Hs2. unfold frame_bytes. destruct (sealed key h p) as [ct tag]. cbn [fst snd] in *. f_equal.
  unfold o. rewrite <- (patch_next out (header_bytes h) p (wire_len h)) by lia.
  assert (Hz : zlen (patch out 0 (header_bytes h)) = zlen out) by (rewrite zlen_patch; lia).
  rewrite patch_patch_same, patch_next, patch_next by (rewrite ?zlen_app; lia). by rewrite <- app_assoc.
Qed.

(** [open_frame] on a buffer that starts with a header. *)
Lemma open_frame_split key h c t : hdr_ok h -> bytes_ok t -> zlen t = TAG_LEN ->
  let p := ctr_apply key (header_nonce h) c in
  open_frame key (header_bytes h ++ c ++ t) =
    (header_bytes h ++ p ++ t,
     if bool_decide (sealed key h p = (c, t)) then Ok (h, (wire_len h, wire_len h + zlen c)) else Err AuthFail).
Proof.
  intros Hh Ht Hl p. unfold open_frame. rewrite parse_header by done. pose proof (zlen_header h) as Hz. rewrite !zlen_app, Hz, Hl.
  pose proof (zlen_nonneg c).
  replace (_ <? wire_len h + TAG_LEN) with false by (symmetry; apply Z.ltb_ge; lia).
  replace (wire_len h + (zlen c + TAG_LEN) - wire_len h - TAG_LEN) with (zlen c) by lia.
  rewrite <- Hz, slice_app_l, slice_app_mid. rewrite app_assoc at 1.
  rewrite <- zlen_app, <- Hl. rewrite slice_app_r, Z.sub_diag, slice_all by lia. rewrite open_spec by done.
  fold p. fold (sealed key h p).
  assert (Hpa : patch (header_bytes h ++ c ++ t) (zlen (header_bytes h)) p = header_bytes h ++ p ++ t).
  { unfold patch. rewrite !zlen_to_nat. rewrite take_app_length. do 2 f_equal.
    assert (length p = length c) by (pose proof (zlen_ctr key (header_nonce h) c); unfold p, zlen in *; lia).
    rewrite <- drop_drop, drop_app_length, H0. apply drop_app_length. }
  rewrite Hpa. destruct (bool_decide _); [|done]. cbn [negb]. by rewrite zlen_app.
Qed.
Lemma open_frame_bytes key h p : hdr_ok h ->
  open_frame key (frame_bytes key h p) =
    (header_bytes h ++ p ++ snd (sealed key h p), Ok (h, (wire_len h, wire_len h + zlen p))).
Proof.
  intros Hh. unfold frame_bytes. pose proof (seal_lengths key (header_nonce h) (header_bytes h) p) as [H1 H2].
  fold (sealed key h p) in H1, H2. rewrite open_frame_split; [|done | apply tag_of_ok | exact H2].
  assert (Hp : ctr_apply key (header_nonce h) (fst (sealed key h p)) = p) by apply ctr_apply_involutive.
  rewrite Hp, bool_decide_eq_true_2 by (by destruct (sealed key h p)). by rewrite H1.
Qed.

(** [open_frame] on a header and whatever follows. *)
Lemma open_frame_cut key h r : hdr_ok h -> bytes_ok r ->
  (zlen r < TAG_LEN /\ open_frame key (header_bytes h ++ r) = (header_bytes h ++ r, Err TooShort)) \/
  exists c t, r = c ++ t /\ zlen t = TAG_LEN /\
    open_frame key (header_bytes h ++ r) =
      (header_bytes h ++ ctr_apply key (header_nonce h) c ++ t,
       if bool_decide (sealed key h (ctr_apply key (header_nonce h) c) = (c, t)) then Ok (h, (wire_len h, wire_len h + zlen c))
       else Err AuthFail).
Proof.
  intros Hh Hr. destruct (decide (zlen r < TAG_LEN)) as [Hl|Hl]; [left; split; [done|]|right].
  - unfold open_frame. rewrite parse_header, zlen_app, zlen_header by done.
    by replace (_ <? wire_len h + TAG_LEN) with true by (symmetry; apply Z.ltb_lt; lia).
  - assert (0 < TAG_LEN) by mlia. exists (slice r 0 (zlen r - TAG_LEN)), (slice r (zlen r - TAG_LEN) TAG_LEN).
    assert (Hs : r = slice r 0 (zlen r - TAG_LEN) ++ slice r (zlen r - TAG_LEN) TAG_LEN).
    { rewrite <- (slice_all r) at 1. replace (zlen r) with (zlen r - TAG_LEN + TAG_LEN) at 1 by lia. by rewrite slice_split by lia. }
    split; [done|]. split; [apply zlen_slice; lia|]. rewrite Hs at 1. apply open_frame_split; [done | auto with tower|].
    apply zlen_slice; lia.
Qed.

(** A frame sealed for the air opens to what was sealed. For a well-formed header, a payload
    within the header's limit is sealed into a buffer of [MAX_FRAME] bytes without error, the frame
    fits the radio's FIFO, nothing behind it is touched, and opening it under the same key returns
    the header and the payload. A longer payload, or a buffer too short for the frame, is refused
    and the buffer left alone. *)
Theorem radio_frame_roundtrip key h p out : hdr_ok h ->
  match seal_frame key h p out with
  | (out', Ok n) =>
      zlen p <= max_payload h /\ n = wire_len h + zlen p + TAG_LEN /\ n <= MAX_FRAME /\ n <= zlen out /\
      zlen out' = zlen out /\ drop (Z.to_nat n) out' = drop (Z.to_nat n) out /\
      exists buf, open_frame key (slice out' 0 n) = (buf, Ok (h, (wire_len h, wire_len h + zlen p))) /\
        slice buf (wire_len h) (zlen p) = p
  | (out', Err e) =>
      out' = out /\ (e = PayloadTooLong /\ max_payload h < zlen p \/ e = TooShort /\ zlen out < wire_len h + zlen p + TAG_LEN /\
      (zlen out < MAX_FRAME))
  end.
Proof.
  intros Hh. rewrite seal_frame_spec. assert (Hm : wire_len h + max_payload h + TAG_LEN <= MAX_FRAME).
  { unfold wire_len, max_payload. destruct (bulk_index h); mlia. }
  split_if; bool_hyps; [split; [done|]; by left|]. split_if; bool_hyps; [split; [done|]; right; split; [done|]; lia|].
  rewrite <- zlen_frame with (key := key) in *. pose proof (zlen_frame key h p) as Hn.
  pose proof (zlen_nonneg (frame_bytes key h p)). split_and!; try lia.
  - rewrite zlen_patch; lia.
  - unfold patch. change (take (Z.to_nat 0) out) with (@nil Z). rewrite app_nil_l, zlen_to_nat. apply drop_app_length.
  - rewrite slice_patch_same by lia. rewrite open_frame_bytes by done. eexists. split; [done|].
    apply slice_field; [symmetry; apply zlen_header | done].
Qed.

Lemma parse_Err buf e : parse buf = Err e ->
  e = TooShort /\ zlen buf < HDR_LEN_BULK \/ e = BadFormat \/ e = BadType.
Proof.
  unfold parse. split_if; [intros [= <-]; left; split; [done | mlia]|]. split_if; [intros [= <-]; by right; left|].
  destruct (ft_from_u8 _); [|intros [= <-]; by right; right].
  split_if; [|done]. split_if; [|done]. intros [= <-]. left. split; [done | mlia].
Qed.

(** What an opened buffer was. *)
Lemma open_frame_Ok key buf buf' h lo hi : bytes_ok buf -> open_frame key buf = (buf', Ok (h, (lo, hi))) ->
  hdr_ok h /\ parse buf = Ok (h, wire_len h) /\ lo = wire_len h /\ hi = zlen buf - TAG_LEN /\
  buf = frame_bytes key h (slice buf' lo (hi - lo)).
Proof.
  intros Hb E. destruct (parse buf) as [[h' n]|] eqn:Ep; [|by unfold open_frame in E; rewrite Ep in E].
  apply parse_Ok in Ep as (Hh & -> & r & ->); [|done]. apply bytes_ok_app in Hb as [_ Hr].
  destruct (open_frame_cut key h' r Hh Hr) as [(_ & H)|(c & t & -> & Hc & Ho)]; [by rewrite H in E|].
  rewrite Ho in E. case_bool_decide as Hs; [|done]. apply pair_equal_spec in E as [<- E]. injection E as <- <- <-.
  split; [done|]. split; [done|]. split; [done|]. split; [rewrite !zlen_app, zlen_header; lia|].
  replace (wire_len h' + zlen c - wire_len h') with (zlen c) by lia.
  rewrite slice_field; [|by rewrite zlen_header | by rewrite zlen_ctr].
  unfold frame_bytes. by rewrite Hs.
Qed.

(** Exactly the sealed frames open. Whatever the radio receives, [open_frame] accepts it with a
    header and a plaintext if and only if it is the frame of that well-formed header and that
    plaintext under the key; every other buffer - short, of another format or type, or with a tag or
    a header that sealing under this key does not give - is refused, with the error that says so. *)
Theorem open_frame_exact key buf : bytes_ok buf ->
  match open_frame key buf with
  | (buf', Ok (h, (lo, hi))) =>
      hdr_ok h /\ lo = wire_len h /\ hi = zlen buf - TAG_LEN /\ buf = frame_bytes key h (slice buf' lo (hi - lo))
  | (_, Err e) =>
      (forall h p, hdr_ok h -> buf <> frame_bytes key h p) /\
      (e = TooShort /\ zlen buf < HDR_LEN_BULK + TAG_LEN \/ e = BadFormat \/ e = BadType \/ e = AuthFail)
  end.
Proof.
  intros Hb. destruct (open_frame key buf) as [buf' [[h [lo hi]]|e]] eqn:E.
  - destruct (open_frame_Ok key buf buf' h lo hi Hb E) as (? & _ & ? & ? & ?). by split_and!.
  - split; [intros h p Hh ->; by rewrite open_frame_bytes in E|].
    destruct (parse buf) as [[h' n]|e'] eqn:Ep.
    + apply parse_Ok in Ep as (Hh & -> & r & ->); [|done]. apply bytes_ok_app in Hb as [_ Hr].
      destruct (open_frame_cut key h' r Hh Hr) as [(Hl & H)|(c & t & -> & Hc & Ho)].
      * rewrite H in E. apply pair_equal_spec in E as [_ [= <-]]. left. split; [done|]. rewrite zlen_app, zlen_header.
        unfold wire_len. destruct (bulk_index h'); mlia.
      * rewrite Ho in E. case_bool_decide; [done|]. apply pair_equal_spec in E as [_ [= <-]]. by do 3 right.
    + unfold open_frame in E. rewrite Ep in E. apply pair_equal_spec in E as [_ [= <-]].
      apply parse_Err in Ep as [[-> Hl]|[->| ->]]; [left; split; [done | mlia] | by right; left | by do 2 right; left].
Qed.
End FrameLaws.

Module Demo.
Import Ccm.ToyCipher.
Definition uplink_hdr : Header :=
  {| frame_type := Data; flags := CONFIRMED; src := 0x1A2B3C4D; dest := 0x11223344; counter := 70000; bulk_index := None |}.
Definition chunk_hdr : Header :=
  {| frame_type := BulkData; flags := LAST_CHUNK; src := 7; dest := 9; counter := 5; bulk_index := Some 70000 |}.
Definition hdr_okb (h : Header) : bool :=
  (0 <=? flags h) && (flags h <=? u8_max) && (0 <=? src h) && (src h <=? u32_max) && (0 <=? dest h) && (dest h <=? u32_max)
  && (0 <=? counter h) && (counter h <=? u32_max)
  && match bulk_index h with
     | Some i => has_bulk_index (frame_type h) && (0 <=? i) && (i <? 2 ^ 24)
     | None => negb (has_bulk_index (frame_type h))
     end.
Lemma hdr_okb_ok h : hdr_okb h = true -> hdr_ok h.
Proof.
  unfold hdr_okb. intros H. bool_hyps. constructor; try mlia. destruct (bulk_index h); bool_hyps; [split; [done | lia]|].
  by destruct (has_bulk_index (frame_type h)).
Qed.

Lemma radio_frame_roundtrip_witness :
  exists out n buf, seal_frame k uplink_hdr [1; 2; 3; 4; 5] (zeros 96) = (out, Ok n) /\ n = 27 /\
    open_frame k (slice out 0 n) = (buf, Ok (uplink_hdr, (14, 19))) /\ slice buf 14 5 = [1; 2; 3; 4; 5].
Proof.
  pose proof (radio_frame_roundtrip k uplink_hdr [1; 2; 3; 4; 5] (zeros 96) (hdr_okb_ok uplink_hdr eq_refl)) as H.
  destruct (seal_frame k uplink_hdr [1; 2; 3; 4; 5] (zeros 96)) as [out [n|e]].
  - destruct H as (_ & -> & _ & _ & _ & _ & buf & Ho & Hp). exists out, 27, buf. split_and!; [done | done | exact Ho | exact Hp].
  - destruct H as (_ & [[_ H]|(_ & _ & H)]); exfalso; vm_compute in H; discriminate H.
Defined.

Definition chunk_frame : list Z := frame_bytes k chunk_hdr (map Z.of_nat (seq 0 20)).
Lemma open_frame_exact_witness :
  (exists buf' h, open_frame k chunk_frame = (buf', Ok (h, (17, 37))) /\ chunk_frame = frame_bytes k h (slice buf' 17 20)) /\
  snd (open_frame k (patch chunk_frame 20 [200])) = Err AuthFail.
Proof.
  split; [|vm_compute; reflexivity].
  assert (Hb : bytes_ok chunk_frame) by (apply bytes_okb_ok; vm_compute; reflexivity).
  pose proof (open_frame_exact k chunk_frame Hb) as H.
  assert (Hc : match snd (open_frame k chunk_frame) with Ok (_, r) => r = (17, 37) | Err _ => False end) by (vm_compute; reflexivity).
  destruct (open_frame k chunk_frame) as [buf' [[h [lo hi]]|e]]; cbn [snd] in Hc; [|destruct Hc].
  injection Hc as -> ->. exists buf', h. split; [reflexivity | apply H].
Defined.
End Demo.
