(* ===== verification/NetCore.v ===== *)
(** The network layer's runtime (firmware/src/radio/net/mod.rs, with the keyed join of
    net/pairing.rs): confirmed and unconfirmed sends with their ACK windows, reception with replay
    lanes, ACKs and keyed joins, the peer table and boot. It composes the kernels of NetTxctr,
    NetReplay, NetWire and NetPairing with sealed frames. What the radio and the clock do is an
    argument of each operation; every frame handed to the radio is recorded in [air]. *)
From S2P Require Import Prelude Bytes NetTxctr NetReplay NetWire NetPairing Radio Ccm RadioFrame.

Inductive RadioError :=
| Spi | WrongDevice (partnum version : Z) | StuckState (state : Z) | RBusy | RTimeout | CrcError | FifoError
| TooLong | NonceLocked | NotRegistered | BadChannel (channel : Z).
#[export] Instance RadioError_eq_dec : EqDecision RadioError.
Proof. solve_decision. Defined.
Inductive SendResult :=
| Delivered | NotDelivered | Busy | DutyLimited | WrongMode | NotSynced | SError (e : RadioError).
Inductive Access := Duty | Afa | Fhss.
#[export] Instance Access_eq_dec : EqDecision Access.
Proof. solve_decision. Defined.

(** Local keys in the [NS_NET] namespace. *)
Definition KEY_WATERMARK : Z := 0x00.
Definition KEY_LASTSEEN : Z := 0x01.
Definition KEY_FHSS_EPOCH : Z := 0x02.
Definition MAX_PEERS : Z := 16.
Definition KEY_LASTSEEN_BASE : Z := 0x10.
#[export] Hint Unfold KEY_WATERMARK KEY_LASTSEEN KEY_FHSS_EPOCH MAX_PEERS KEY_LASTSEEN_BASE : machine.

(** The [NS_NET] view of the store: [nv_get w local cap] is [get_bytes(local, &mut [0; cap])], [None]
    for an absent value or a failed read; [nv_set] says whether the write succeeded. The TX watermark
    record lives in the same namespace and is the [stored] of the device below. *)
Class NetStore (W : Type) := {
  nv_get : W -> Z -> Z -> option (Z * list Z);
  nv_set : W -> Z -> list Z -> W * bool;
}.

Record Peer := { p_addr : Z; p_key : list Z; p_lane : ReplayLane; p_local : Z; p_pending : bool }.

(** A frame handed to the radio: what was sealed, and the bytes. *)
Record Aired := { a_key : list Z; a_header : Header; a_payload : list Z; a_frame : list Z }.

Record Net (W : Type) := {
  tx : Dev;
  addr : Z;
  default_key : list Z;
  default_lane_enabled : bool;
  peers : list (option Peer);
  default_lane : ReplayLane;
  lane_persist : Z;
  kv : W;
  duty : DutyGovernor;
  rng : Z;
  access : Access;
  last_ack : option AckMeta;
  keyed_join : option Z;
  (** A responder is installed. *)
  keyed_responder : bool;
  keyed_join_enabled : bool;
  air : list Aired;
}.
Arguments tx {W}. Arguments addr {W}. Arguments default_key {W}. Arguments default_lane_enabled {W}.
Arguments peers {W}. Arguments default_lane {W}. Arguments lane_persist {W}. Arguments kv {W}. Arguments duty {W}.
Arguments rng {W}. Arguments access {W}. Arguments last_ack {W}. Arguments keyed_join {W}.
Arguments keyed_responder {W}. Arguments keyed_join_enabled {W}. Arguments air {W}.

Record Received := { rv_src : Z; rv_counter : Z; rv_rssi : Z; rv_lqi : Z; rv_confirmed : bool; rv_data : list Z }.

(** What the surroundings do during one transmission: the time since the duty bucket was last
    refilled, and the radio's verdict. *)
Record TxEnv := { t_elapsed : Z; t_fate : fate; t_result : result RadioError unit }.
(** During one attempt of a send: also what the radio hears in the ACK window, until the deadline. *)
Record Attempt := { at_elapsed : Z; at_tx : result RadioError unit; at_window : list (result RadioError (list Z)) }.

(** ** Records of the store *)

(** [b[..4].copy_from_slice(..)] and so on. *)
Definition lane_record (addr last_seen kcv : Z) : list Z :=
  let b := zeros 12 in
  let b := patch b 0 (le_bytes 4 addr) in
  let b := patch b 4 (le_bytes 4 last_seen) in
  patch b 8 (le_bytes 4 kcv).

Section Store.
Context {W : Type} `{NS : !NetStore W}.

Definition read_u32 (w : W) (local : Z) : option Z :=
  match nv_get w local 4 with
  | Some (n, b) => if n =? 4 then Some (le_val b) else None
  | None => None
  end.
Definition has_record (w : W) (local : Z) : bool := if nv_get w local 1 then true else false.
Definition read_lane_record (w : W) (local : Z) : option LaneRecord :=
  match nv_get w local 12 with
  | Some (n, b) =>
      if negb (n =? 12) then None
      else Some {| r_addr := le_val (slice b 0 4); r_seen := le_val (slice b 4 4); r_kcv := le_val (slice b 8 4) |}
  | None => None
  end.
End Store.

(** ** Field updates *)

Section Updates.
Context {W : Type}.
#[local] Abbreviation net := (Net W).

Definition set_tx (n : net) (d : Dev) : net :=
  {| tx := d; addr := addr n; default_key := default_key n; default_lane_enabled := default_lane_enabled n; peers := peers n;
     default_lane := default_lane n; lane_persist := lane_persist n; kv := kv n; duty := duty n; rng := rng n; access := access n;
     last_ack := last_ack n; keyed_join := keyed_join n; keyed_responder := keyed_responder n;
     keyed_join_enabled := keyed_join_enabled n; air := air n |}.
Definition set_duty (n : net) (g : DutyGovernor) (r : Z) : net :=
  {| tx := tx n; addr := addr n; default_key := default_key n; default_lane_enabled := default_lane_enabled n; peers := peers n;
     default_lane := default_lane n; lane_persist := lane_persist n; kv := kv n; duty := g; rng := r; access := access n;
     last_ack := last_ack n; keyed_join := keyed_join n; keyed_responder := keyed_responder n;
     keyed_join_enabled := keyed_join_enabled n; air := air n |}.
(** The RX side: the peer table, the default lane and the store. *)
Definition set_rx (n : net) (ps : list (option Peer)) (l : ReplayLane) (w : W) : net :=
  {| tx := tx n; addr := addr n; default_key := default_key n; default_lane_enabled := default_lane_enabled n; peers := ps;
     default_lane := l; lane_persist := lane_persist n; kv := w; duty := duty n; rng := rng n; access := access n;
     last_ack := last_ack n; keyed_join := keyed_join n; keyed_responder := keyed_responder n;
     keyed_join_enabled := keyed_join_enabled n; air := air n |}.
(** The switches the application turns. *)
Definition set_config (n : net) (lane : bool) (persist : Z) (responder joins : bool) (acc : Access) (g : DutyGovernor) : net :=
  {| tx := tx n; addr := addr n; default_key := default_key n; default_lane_enabled := lane; peers := peers n;
     default_lane := default_lane n; lane_persist := persist; kv := kv n; duty := g; rng := rng n; access := acc;
     last_ack := last_ack n; keyed_join := keyed_join n; keyed_responder := responder;
     keyed_join_enabled := joins; air := air n |}.
Definition set_marks (n : net) (ack : option AckMeta) (join : option Z) : net :=
  {| tx := tx n; addr := addr n; default_key := default_key n; default_lane_enabled := default_lane_enabled n; peers := peers n;
     default_lane := default_lane n; lane_persist := lane_persist n; kv := kv n; duty := duty n; rng := rng n; access := access n;
     last_ack := ack; keyed_join := join; keyed_responder := keyed_responder n;
     keyed_join_enabled := keyed_join_enabled n; air := air n |}.
(** [self.radio.tx]: the frame is on the air, whatever the radio reports afterwards. *)
Definition radio_tx (n : net) (e : Aired) : net :=
  {| tx := tx n; addr := addr n; default_key := default_key n; default_lane_enabled := default_lane_enabled n; peers := peers n;
     default_lane := default_lane n; lane_persist := lane_persist n; kv := kv n; duty := duty n; rng := rng n; access := access n;
     last_ack := last_ack n; keyed_join := keyed_join n; keyed_responder := keyed_responder n;
     keyed_join_enabled := keyed_join_enabled n; air := e :: air n |}.
End Updates.

(** ** The runtime *)

Section Runtime.
Context {W : Type} `{NS : !NetStore W} `{Haes : !AesBlock}.
#[local] Abbreviation net := (Net W).

Fixpoint slot_of (ps : list (option Peer)) (a : Z) : option nat :=
  match ps with
  | [] => None
  | p :: ps =>
      if match p with Some pe => p_addr pe =? a | None => false end then Some O
      else option_map S (slot_of ps a)
  end.
Definition peer_slot (n : net) (peer_addr : Z) : option nat := slot_of (peers n) peer_addr.
(** [self.peers[i].as_ref().unwrap()], for the slot of [peer_addr]. *)
Definition peer_at (n : net) (peer_addr : Z) : option (nat * Peer) :=
  match peer_slot n peer_addr with
  | Some i => match peers n !! i with Some (Some p) => Some (i, p) | _ => None end
  | None => None
  end.
Definition registered (n : net) (peer_addr : Z) : bool := if peer_at n peer_addr then true else false.
Definition may_send_to (n : net) (dest : Z) : bool := default_lane_enabled n || registered n dest.
Definition key_for (n : net) (peer_addr : Z) : list Z :=
  match peer_at n peer_addr with Some (_, p) => p_key p | None => default_key n end.
Definition lane_for (n : net) (src : Z) : ReplayLane :=
  match peer_at n src with Some (_, p) => p_lane p | None => default_lane n end.

Definition with_lane (p : Peer) (l : ReplayLane) : Peer :=
  {| p_addr := p_addr p; p_key := p_key p; p_lane := l; p_local := p_local p; p_pending := p_pending p |}.
(** Advance the sender's lane; write it when its cadence says so. *)
Definition lane_accept (n : net) (src counter : Z) : net :=
  match peer_at n src with
  | Some (i, p) =>
      let '(l, persist) := accept_every (p_lane p) counter (lane_persist n) in
      let w := if persist then fst (nv_set (kv n) (p_local p) (lane_record (p_addr p) counter (key_check (p_key p)))) else kv n in
      set_rx n (<[i := Some (with_lane p l)]> (peers n)) (default_lane n) w
  | None =>
      let '(l, persist) := accept_every (default_lane n) counter (lane_persist n) in
      let w := if persist then fst (nv_set (kv n) KEY_LASTSEEN (le_bytes 4 counter)) else kv n in
      set_rx n (peers n) l w
  end.
Definition lane_reack (n : net) (src : Z) : net * bool :=
  match peer_at n src with
  | Some (i, p) => let '(l, ok) := reack (p_lane p) in (set_rx n (<[i := Some (with_lane p l)]> (peers n)) (default_lane n) (kv n), ok)
  | None => let '(l, ok) := reack (default_lane n) in (set_rx n (peers n) l (kv n), ok)
  end.

Definition net_alloc (n : net) (o : fate) : net * option Z :=
  let '(d, c) := alloc_counter (tx n) o in (set_tx n d, c).
(** [DutyGovernor::try_tx] of firmware/src/radio/duty.rs. *)
Definition try_tx (n : net) (elapsed toa : Z) : net * bool :=
  let '(g, ok) := try_consume (refill_ms (duty n) elapsed) toa in (set_duty n g (rng n), ok).
(** [xorshift32], and the backoff drawn from it. *)
Definition rand_u32 (n : net) : net * Z := let x := xorshift (rng n) in (set_duty n (duty n) x, x).
Definition backoff_ms (n : net) : net * Z := let '(n, x) := rand_u32 n in (n, x mod 100).

(** *** Sending *)

(** The ACK window: frames heard before the deadline, in order. *)
Fixpoint await_ack (n : net) (key : list Z) (wait : AckWait) (heard : list (result RadioError (list Z))) : net * bool :=
  match heard with
  | [] => (n, false)
  | Err e :: heard =>
      if bool_decide (e = CrcError) || bool_decide (e = FifoError) then await_ack n key wait heard else (n, false)
  | Ok buf :: heard =>
      match open_frame key buf with
      | (_, Err _) => await_ack n key wait heard
      | (buf, Ok (hdr, (lo, hi))) =>
          let is_ack := bool_decide (frame_type hdr = Ack) in
          let payload := slice buf lo (hi - lo) in
          let '(wait, verdict) := offer wait is_ack (src hdr) (dest hdr) payload in
          if bool_decide (verdict = Resolved) then (set_marks n (ack_meta payload) (keyed_join n), true)
          else await_ack n key wait heard
      end
  end.

(** The repetitions of a send, from number [attempt]. *)
Fixpoint send_loop (reps attempt : nat) (e : Aired) (dest : Z) (confirmed : bool) (env : nat -> Attempt)
    (result : SendResult) (n : net) : net * SendResult :=
  match reps with
  | O => (n, result)
  | S reps =>
      let n := match attempt with O => n | S _ => fst (backoff_ms n) end in
      let a := env attempt in
      let '(n, ok) := try_tx n (at_elapsed a) (frame_toa_ms (zlen (a_frame e))) in
      if negb ok then (n, DutyLimited)
      else
        let n := radio_tx n e in
        match at_tx a with
        | Err err => if bool_decide (err = RBusy) then send_loop reps (S attempt) e dest confirmed env Busy n else (n, SError err)
        | Ok _ =>
            if negb confirmed then (n, Delivered)
            else
              let '(n, acked) := await_ack n (key_for n dest) (ack_new (addr n) dest (RadioFrame.counter (a_header e))) (at_window a) in
              if acked then (n, Delivered) else send_loop reps (S attempt) e dest confirmed env result n
        end
  end.
Definition send (n : net) (dest : Z) (data : list Z) (confirmed : bool) (reps : Z) (o : fate) (env : nat -> Attempt)
    : net * SendResult :=
  let n := set_marks n None (keyed_join n) in
  if locked (txc (tx n)) then (n, SError NonceLocked)
  else if bool_decide (access n = Fhss) then (n, WrongMode)
  else if MAX_PAYLOAD <? zlen data then (n, SError TooLong)
  else if negb (may_send_to n dest) then (n, SError NotRegistered)
  else
    match net_alloc n o with
    | (n, None) => (n, SError NonceLocked)
    | (n, Some counter) =>
        let hdr := {| frame_type := Data; flags := if confirmed then CONFIRMED else 0; src := addr n; dest := dest;
                      RadioFrame.counter := counter; bulk_index := None |} in
        let key := key_for n dest in
        match seal_frame key hdr data (zeros MAX_FRAME) with
        | (_, Err _) => (n, SError TooLong)
        | (frame_buf, Ok len) =>
            let reps := if confirmed then Z.min (Z.max reps 1) MAX_REPS else 1 in
            let e := {| a_key := key; a_header := hdr; a_payload := data; a_frame := slice frame_buf 0 len |} in
            send_loop (Z.to_nat reps) 0 e dest confirmed env NotDelivered n
        end
    end.

(** *** Receiving *)

(** [rssi.clamp(i8::MIN, i8::MAX) as i8 as u8]. *)
Definition rssi_byte (rssi : Z) : Z := wrap8 (Z.min (Z.max rssi (-128)) 127).
Definition send_ack (n : net) (dest acked rssi : Z) (env : TxEnv) : net :=
  if locked (txc (tx n)) then n
  else
    let payload := patch (zeros ACK_LEN) 0 (le_bytes 4 acked) in
    let payload := patch payload 4 [rssi_byte rssi] in
    let payload := patch payload 5 [match peer_at n dest with Some (_, p) => if p_pending p then PENDING else 0 | None => 0 end] in
    let len := HDR_LEN + zlen payload + TAG_LEN in
    let '(n, may_tx) := match access n with Duty => try_tx n (t_elapsed env) (frame_toa_ms len) | _ => (n, true) end in
    if negb may_tx then n
    else
      match net_alloc n (t_fate env) with
      | (n, None) => n
      | (n, Some ack_counter) =>
          let hdr := {| frame_type := Ack; flags := 0; src := addr n; dest := dest; RadioFrame.counter := ack_counter; bulk_index := None |} in
          let key := key_for n dest in
          match seal_frame key hdr payload (zeros MAX_FRAME) with
          | (ack, Ok len) => radio_tx n {| a_key := key; a_header := hdr; a_payload := payload; a_frame := slice ack 0 len |}
          | (_, Err _) => n
          end
      end.

(** A keyed JOIN_REQ ([keyed_answer] of net/pairing.rs): the answer to transmit and its peer, or why not. *)
Inductive KeyedRefusal :=
| KOff | KWrongMode | KUnregistered | KAuthFail | KMalformed | KStale (counter last_seen : Z) | KNonceLocked | KDutyLimited.
Definition KEYED_FRAME_LEN : Z := HDR_LEN + 4 + TAG_LEN.
Definition keyed_answer (n : net) (rx : list Z) (env : TxEnv) : net * result KeyedRefusal Aired :=
  if negb (keyed_join_enabled n) then (n, Err KOff)
  else if negb (bool_decide (access n = Duty)) then (n, Err KWrongMode)
  else if locked (txc (tx n)) then (n, Err KNonceLocked)
  else
    match parse rx with
    | Err _ => (n, Err KMalformed)
    | Ok (peek, _) =>
        let reg := registered n (src peek) in
        if negb reg then (n, Err KUnregistered)
        else
          let key := key_for n (src peek) in
          match open_frame key rx with
          | (_, Err _) => (n, Err KAuthFail)
          | (rx, Ok (hdr, (lo, hi))) =>
              if negb (keyed_req_valid (slice rx lo (hi - lo)) (src hdr)) then (n, Err KMalformed)
              else
                let lane := lane_for n (src hdr) in
                if negb (keyed_req_admit reg (classify lane (RadioFrame.counter hdr))) then
                  (n, Err (KStale (RadioFrame.counter hdr) (last_seen lane)))
                else
                  let n := lane_accept n (src hdr) (RadioFrame.counter hdr) in
                  let '(n, may_tx) := try_tx n (t_elapsed env) (frame_toa_ms KEYED_FRAME_LEN) in
                  if negb may_tx then (n, Err KDutyLimited)
                  else
                    match net_alloc n (t_fate env) with
                    | (n, None) => (n, Err KNonceLocked)
                    | (n, Some counter) =>
                        let resp := {| frame_type := JoinResp; flags := KEYED; src := addr n; dest := src hdr;
                                       RadioFrame.counter := counter; bulk_index := None |} in
                        let payload := le_bytes 4 (RadioFrame.counter hdr) in
                        match seal_frame key resp payload (zeros KEYED_FRAME_LEN) with
                        | (buf, Ok _) => (n, Ok {| a_key := key; a_header := resp; a_payload := payload; a_frame := buf |})
                        | (_, Err _) => (n, Err KMalformed)
                        end
                    end
          end
    end.

(** [recv] on what the radio delivered. *)
Definition recv (n : net) (heard : result RadioError (list Z)) (rssi lqi : Z) (env : TxEnv) : net * option Received :=
  match heard with
  | Err _ => (n, None)
  | Ok buf =>
      match parse buf with
      | Err _ => (n, None)
      | Ok (peek, _) =>
          if bool_decide (frame_type peek = JoinReq) && negb (Z.land (flags peek) KEYED =? 0) && (dest peek =? 0) then
            if keyed_responder n then
              match keyed_answer n buf env with
              | (n, Err _) => (n, None)
              | (n, Ok answer) =>
                  let n := radio_tx n answer in
                  (match t_result env with Ok _ => set_marks n (last_ack n) (Some (dest (a_header answer))) | Err _ => n end, None)
              end
            else (n, None)
          else if negb (dest peek =? addr n) then (n, None)
          else if negb (bool_decide (frame_type peek = Data)) then (n, None)
          else if negb (registered n (src peek)) && negb (default_lane_enabled n) then (n, None)
          else
            let key := key_for n (src peek) in
            match open_frame key buf with
            | (_, Err _) => (n, None)
            | (buf, Ok (hdr, (lo, hi))) =>
                if negb (bool_decide (frame_type hdr = Data)) then (n, None)
                else
                  let confirmed := negb (Z.land (flags hdr) CONFIRMED =? 0) in
                  match classify (lane_for n (src hdr)) (RadioFrame.counter hdr) with
                  | Fresh =>
                      let n := lane_accept n (src hdr) (RadioFrame.counter hdr) in
                      let n := if confirmed then send_ack n (src hdr) (RadioFrame.counter hdr) rssi env else n in
                      (n, Some {| rv_src := src hdr; rv_counter := RadioFrame.counter hdr; rv_rssi := rssi; rv_lqi := lqi;
                                  rv_confirmed := confirmed; rv_data := slice buf lo (hi - lo) |})
                  | Retransmit =>
                      if confirmed then
                        let '(n, again) := lane_reack n (src hdr) in
                        (if again then send_ack n (src hdr) (RadioFrame.counter hdr) rssi env else n, None)
                      else (n, None)
                  | Replay => (n, None)
                  end
            end
      end
  end.

(** *** Joining under a key the host already holds ([join_keyed] of net/pairing.rs) *)

Inductive JoinError := JTimeout | JWrongMode | JNonceLocked | JBadAddr.
(** One request of the joiner: the budget refused, or it was sent and [j_window] was heard before the
    response window closed. *)
Record JoinTry := { j_env : TxEnv; j_window : list (result RadioError (list Z)) }.
(** [rx_pair] with a buffer of [cap] bytes. *)
Definition rx_pair (key : list Z) (heard : result RadioError (list Z)) (cap : Z) : option (Header * list Z) :=
  match heard with
  | Err _ => None
  | Ok buf =>
      match open_frame key buf with
      | (_, Err _) => None
      | (buf, Ok (hdr, (lo, hi))) => if cap <? hi - lo then None else Some (hdr, slice buf lo (hi - lo))
      end
  end.
Fixpoint join_window (key : list Z) (own req_counter : Z) (heard : list (result RadioError (list Z))) : option Z :=
  match heard with
  | [] => None
  | h :: heard =>
      match rx_pair key h 8 with
      | Some (hdr, payload) =>
          if bool_decide (frame_type hdr = JoinResp) && negb (Z.land (flags hdr) KEYED =? 0)
             && join_response_for (dest hdr) (src hdr) own && keyed_resp_matches payload req_counter
          then Some (src hdr) else join_window key own req_counter heard
      | None => join_window key own req_counter heard
      end
  end.
(** The attempts until the deadline. *)
Fixpoint join_loop (n : net) (own : Z) (key : list Z) (tries : list JoinTry) : net * result JoinError Z :=
  match tries with
  | [] => (n, Err JTimeout)
  | t :: tries =>
      let '(n, may_tx) := try_tx n (t_elapsed (j_env t)) (frame_toa_ms KEYED_FRAME_LEN) in
      if negb may_tx then join_loop n own key tries
      else
        match net_alloc n (t_fate (j_env t)) with
        | (n, None) => (n, Err JNonceLocked)
        | (n, Some req_counter) =>
            let hdr := {| frame_type := JoinReq; flags := KEYED; src := own; dest := 0; RadioFrame.counter := req_counter; bulk_index := None |} in
            let payload := le_bytes 4 own in
            match seal_frame key hdr payload (zeros MAX_FRAME) with
            | (_, Err _) => (n, Err JTimeout)
            | (req, Ok len) =>
                let n := radio_tx n {| a_key := key; a_header := hdr; a_payload := payload; a_frame := slice req 0 len |} in
                match t_result (j_env t) with
                | Err _ => join_loop n own key tries
                | Ok _ => match join_window key own req_counter (j_window t) with
                          | Some host => (n, Ok host)
                          | None => join_loop n own key tries
                          end
                end
            end
        end
  end.
Definition join_keyed (n : net) (own : Z) (key : list Z) (tries : list JoinTry) : net * result JoinError Z :=
  if negb (bool_decide (access n = Duty)) then (n, Err JWrongMode)
  else if is_reserved_addr own then (n, Err JBadAddr)
  else if locked (txc (tx n)) then (n, Err JNonceLocked)
  else join_loop n own key tries.

(** *** The peer table *)

(** [flatten().fold(0, |m, p| m | 1 << (p.lane_local - BASE))]. *)
Definition used_locals (ps : list (option Peer)) : Z :=
  fold_left (fun m p => match p with Some pe => Z.lor m (Z.shiftl 1 (p_local pe - KEY_LASTSEEN_BASE)) | None => m end) ps 0.
Definition lane_records (w : W) : list (option LaneRecord) :=
  map (fun l => read_lane_record w (KEY_LASTSEEN_BASE + Z.of_nat l)) (seq 0 (Z.to_nat MAX_PEERS)).
Definition first_empty (ps : list (option Peer)) : option nat :=
  match list_find (fun p => p = None) ps with Some (i, _) => Some i | None => None end.
Definition add_peer (n : net) (peer_addr : Z) (key : list Z) : net * bool :=
  if negb (peer_addr_valid peer_addr (addr n)) then (n, false)
  else
    let kcv := key_check key in
    match peer_at n peer_addr with
    | Some (i, p) =>
        let changed := negb (bool_decide (p_key p = key)) in
        let p' := {| p_addr := p_addr p; p_key := key; p_lane := if changed then new 0 else p_lane p;
                     p_local := p_local p; p_pending := p_pending p |} in
        let w := if changed then fst (nv_set (kv n) (p_local p) (lane_record peer_addr 0 kcv)) else kv n in
        (set_rx n (<[i := Some p']> (peers n)) (default_lane n) w, true)
    | None =>
        match first_empty (peers n) with
        | None => (n, false)
        | Some slot =>
            match assign_lane peer_addr kcv (lane_records (kv n)) (used_locals (peers n)) with
            | None => (n, false)
            | Some bind =>
                let local := KEY_LASTSEEN_BASE + Z.of_nat (b_index bind) in
                let w := if b_fresh bind then fst (nv_set (kv n) local (lane_record peer_addr (b_seen bind) kcv)) else kv n in
                let p := {| p_addr := peer_addr; p_key := key; p_lane := new (b_seen bind); p_local := local; p_pending := false |} in
                (set_rx n (<[slot := Some p]> (peers n)) (default_lane n) w, true)
            end
        end
    end.
Definition remove_peer (n : net) (peer_addr : Z) : net * bool :=
  match peer_at n peer_addr with
  | Some (i, _) => (set_rx n (<[i := None]> (peers n)) (default_lane n) (kv n), true)
  | None => (n, false)
  end.
Definition set_pending (n : net) (peer_addr : Z) (pending : bool) : net * bool :=
  match peer_at n peer_addr with
  | Some (i, p) =>
      let p' := {| p_addr := p_addr p; p_key := p_key p; p_lane := p_lane p; p_local := p_local p; p_pending := pending |} in
      (set_rx n (<[i := Some p']> (peers n)) (default_lane n) (kv n), true)
  | None => (n, false)
  end.
Definition raise_peer_floor (n : net) (peer_addr seen : Z) : net * bool :=
  match peer_at n peer_addr with
  | Some (i, p) =>
      let '(l, moved) := raise (p_lane p) seen in
      let w := if moved then fst (nv_set (kv n) (p_local p) (lane_record peer_addr seen (key_check (p_key p)))) else kv n in
      (set_rx n (<[i := Some (with_lane p l)]> (peers n)) (default_lane n) w, true)
  | None => (n, false)
  end.
Definition peer_last_seen (n : net) (peer_addr : Z) : option Z :=
  match peer_at n peer_addr with Some (_, p) => Some (last_seen (p_lane p)) | None => None end.
Definition peer_count (n : net) : Z := zlen (filter (fun p => p <> None) (peers n)).
Definition net_raise_floor (n : net) (floor : Z) (o : fate) : net * bool :=
  let '(d, ok) := raise_tx_floor (tx n) floor o in (set_tx n d, ok).

(** *** Switches and boot *)

Definition set_default_lane (n : net) (enabled : bool) : net :=
  set_config n enabled (lane_persist n) (keyed_responder n) (keyed_join_enabled n) (access n) (duty n).
Definition set_lane_persist_period (n : net) (period : Z) : net :=
  set_config n (default_lane_enabled n) (persist_period period) (keyed_responder n) (keyed_join_enabled n) (access n) (duty n).
Definition set_keyed_join (n : net) (enabled : bool) : net :=
  set_config n (default_lane_enabled n) (lane_persist n) true enabled (access n) (duty n).
Definition take_keyed_join (n : net) : net * option Z := (set_marks n (last_ack n) None, keyed_join n).
Inductive Band := Eu868 | Us915.
Definition band_duty (b : Band) : DutyGovernor := match b with Eu868 => eu | Us915 => us915 end.
(** The duty policy a band change installs (its RF part is the radio's). *)
Definition set_band (n : net) (b : Band) : net :=
  set_config n (default_lane_enabled n) (lane_persist n) (keyed_responder n) (keyed_join_enabled n) (access n) (band_duty b).

Record NetConfig := { c_addr : Z; c_key : list Z; c_band : Band; c_keys_stored : bool }.
Definition prior_network_use (cfg : NetConfig) (w : W) : bool :=
  c_keys_stored cfg || has_record w KEY_LASTSEEN || has_record w KEY_FHSS_EPOCH
  || existsb (fun l => has_record w (KEY_LASTSEEN_BASE + Z.of_nat l)) (seq 0 (Z.to_nat MAX_PEERS)).
(** [Net::new] after a reset: [d] is the device with its durable watermark, [past] what was sent
    before; [boot] of NetTxctr resumes the counter. *)
Definition net_new (cfg : NetConfig) (w : W) (d : Dev) (o : fate) (past : list Aired) : net :=
  {| tx := boot {| txc := txc d; stored := stored d; prior_use := prior_network_use cfg w; on_air := on_air d; promised := promised d |} o;
     addr := c_addr cfg; default_key := c_key cfg; default_lane_enabled := true; peers := replicate (Z.to_nat MAX_PEERS) None;
     default_lane := new (default 0 (read_u32 w KEY_LASTSEEN)); lane_persist := P; kv := w; duty := band_duty (c_band cfg);
     rng := Z.lor (c_addr cfg) 1; access := Duty; last_ack := None; keyed_join := None; keyed_responder := false;
     keyed_join_enabled := false; air := past |}.
End Runtime.
