(* ===== verification/Fhss.v ===== *)
(** US 915 frequency hopping (firmware/src/radio/net/fhss.rs) over the network runtime of NetCore: the
    gateway's hop clock and beacons, the node that finds, tracks and predicts them, and the sends inside a
    slot. Times are milliseconds of the crystal clock (firmware/src/clock.rs); what is heard in a window
    is an argument, a function of the channel and of the window's opening and length. *)
From S2P Require Import Prelude Bytes NetTxctr NetReplay NetWire NetEpoch Radio Ccm RadioFrame NetCore.

Definition FHSS_N : Z := 80.
Definition FHSS_BASE_HZ : Z := 903000000.
Definition FHSS_SPACE_HZ : Z := 300000.
Definition FHSS_RENDEZVOUS_CH : Z := 40.
Definition fhss_freq_hz (k : Z) : Z := FHSS_BASE_HZ + k * FHSS_SPACE_HZ.
Definition GUARD : Z := 10.
Definition MASTER_LOOP_BUDGET : Z := 40.
Definition BEACON_RX_MS : Z := 100.
Definition RENDEZVOUS_RX_MS : Z := 350.
Definition BEACON_PL_LEN : Z := 9.
Definition BROADCAST : Z := u32_max.
#[export] Hint Unfold FHSS_N FHSS_RENDEZVOUS_CH GUARD MASTER_LOOP_BUDGET BEACON_RX_MS RENDEZVOUS_RX_MS BEACON_PL_LEN BROADCAST : machine.

Inductive FhssRole := Master | Node.
#[export] Instance FhssRole_eq_dec : EqDecision FhssRole.
Proof. solve_decision. Defined.
Inductive FhssState := Scanning | Synced.
#[export] Instance FhssState_eq_dec : EqDecision FhssState.
Proof. solve_decision. Defined.
Record FhssConfig := { fc_seed : Z; fc_network_key : option (list Z) }.

(** The state [Net] holds for hopping; an anchor is a slot and the instant it started. *)
Record Fhss := {
  f_role : FhssRole;
  f_enabled : bool;
  f_seed : Z;
  f_key : list Z;
  f_state : FhssState;
  f_anchor : option (Z * Z);
  f_last_beacon : Z;
  f_cur_channel : Z;
  f_gate : EpochGate;
  f_acquire_t0 : option Z;
  f_airtime_ms : list Z;
}.
Definition disabled : Fhss :=
  {| f_role := Node; f_enabled := false; f_seed := 0; f_key := zeros 16; f_state := Scanning; f_anchor := None; f_last_beacon := 0;
     f_cur_channel := FHSS_RENDEZVOUS_CH; f_gate := gate_new; f_acquire_t0 := None; f_airtime_ms := repeat 0 (Z.to_nat FHSS_N) |}.

Definition set_clock (f : Fhss) (st : FhssState) (anchor : option (Z * Z)) (last : Z) : Fhss :=
  {| f_role := f_role f; f_enabled := f_enabled f; f_seed := f_seed f; f_key := f_key f; f_state := st; f_anchor := anchor;
     f_last_beacon := last; f_cur_channel := f_cur_channel f; f_gate := f_gate f; f_acquire_t0 := f_acquire_t0 f;
     f_airtime_ms := f_airtime_ms f |}.
Definition set_channel (f : Fhss) (ch : Z) : Fhss :=
  {| f_role := f_role f; f_enabled := f_enabled f; f_seed := f_seed f; f_key := f_key f; f_state := f_state f; f_anchor := f_anchor f;
     f_last_beacon := f_last_beacon f; f_cur_channel := ch; f_gate := f_gate f; f_acquire_t0 := f_acquire_t0 f;
     f_airtime_ms := f_airtime_ms f |}.
Definition set_gate (f : Fhss) (g : EpochGate) (t0 : option Z) : Fhss :=
  {| f_role := f_role f; f_enabled := f_enabled f; f_seed := f_seed f; f_key := f_key f; f_state := f_state f; f_anchor := f_anchor f;
     f_last_beacon := f_last_beacon f; f_cur_channel := f_cur_channel f; f_gate := g; f_acquire_t0 := t0;
     f_airtime_ms := f_airtime_ms f |}.
(** [airtime_ms[ch] = airtime_ms[ch].saturating_add(toa as u16)]. *)
Definition add_airtime (f : Fhss) (ch toa : Z) : Fhss :=
  {| f_role := f_role f; f_enabled := f_enabled f; f_seed := f_seed f; f_key := f_key f; f_state := f_state f; f_anchor := f_anchor f;
     f_last_beacon := f_last_beacon f; f_cur_channel := f_cur_channel f; f_gate := f_gate f; f_acquire_t0 := f_acquire_t0 f;
     f_airtime_ms := alter (fun a => sat_add u16_max a (wrap16 toa)) (Z.to_nat ch) (f_airtime_ms f) |}.

(** *** The slot clock *)

Definition beacon_toa_ms : Z := frame_toa_ms (HDR_LEN + BEACON_PL_LEN + TAG_LEN).
Definition fhss_channel_for (seed slot_abs : Z) : Z :=
  hop_channel (Z.to_nat FHSS_N) seed (slot_abs / FHSS_N) (wrap8 (slot_abs mod FHSS_N)).
Definition fhss_cur_slot (anchor : Z * Z) (now : Z) : Z := wrap32 (fst anchor + wrap32 (sat_sub now (snd anchor) / FHSS_SLOT_MS)).
Definition fhss_slot_start (anchor : Z * Z) (slot_abs : Z) : Z := snd anchor + wrap32 (slot_abs - fst anchor) * FHSS_SLOT_MS.
(** [checked_sub(..).unwrap_or(..)] on instants. *)
Definition sub_or (t d other : Z) : Z := if t <? d then other else t - d.
Definition fhss_slot_left (f : Fhss) (now : Z) : Z :=
  match f_anchor f with
  | None => 0
  | Some anchor =>
      let end_ := fhss_slot_start anchor (wrap32 (fhss_cur_slot anchor now + 1)) in
      if end_ <? GUARD then 0 else sat_sub (end_ - GUARD) now
  end.
Definition fhss_since_beacon (f : Fhss) (now : Z) : option Z :=
  if bool_decide (f_role f = Node) && (if f_anchor f then true else false) then Some (sat_sub now (f_last_beacon f)) else None.
Definition fhss_channel_airtime_ms (f : Fhss) (ch : Z) : Z := default 0 (f_airtime_ms f !! Z.to_nat ch).
(** Lock to a beacon of [slot_abs] received at [t_rx]. *)
Definition fhss_lock (f : Fhss) (slot_abs t_rx : Z) : Fhss :=
  set_clock f Synced (Some (slot_abs, sub_or t_rx beacon_toa_ms t_rx)) t_rx.

Definition beacon_payload (epoch cycle i : Z) : list Z :=
  patch (patch (patch (zeros BEACON_PL_LEN) 0 (le_bytes 4 epoch)) 4 (le_bytes 4 cycle)) 8 [i].

Section Hopping.
Context {W : Type} `{NS : !NetStore W} `{Haes : !AesBlock}.
#[local] Abbreviation net := (Net W).

Definition set_access (n : net) (a : Access) : net :=
  set_config n (default_lane_enabled n) (lane_persist n) (keyed_responder n) (keyed_join_enabled n) a (duty n).

(** *** Switching *)

Definition enable_fhss (n : net) (f : Fhss) (role : FhssRole) (cfg : FhssConfig) (now : Z) : net * Fhss :=
  let key := default (default_key n) (fc_network_key cfg) in
  let seed := if negb (fc_seed cfg =? 0) then fc_seed cfg else Z.lor (le_val (slice key 0 4)) 1 in
  let started g st anchor ch :=
    {| f_role := role; f_enabled := true; f_seed := seed; f_key := key; f_state := st; f_anchor := anchor; f_last_beacon := f_last_beacon f;
       f_cur_channel := ch; f_gate := g; f_acquire_t0 := None; f_airtime_ms := repeat 0 (Z.to_nat FHSS_N) |} in
  let n := set_access n NetCore.Fhss in
  match role with
  | Master =>
      let next := next_master_epoch (read_u32 (kv n) KEY_FHSS_EPOCH) in
      let w := fst (nv_set (kv n) KEY_FHSS_EPOCH (le_bytes 4 next)) in
      (set_rx n (peers n) (default_lane n) w, started (gate_reset (f_gate f) next) Synced (Some (0, now)) (f_cur_channel f))
  | Node => (n, started (gate_reset (f_gate f) 0) Scanning None FHSS_RENDEZVOUS_CH)
  end.
Definition disable_fhss (n : net) (f : Fhss) : net * Fhss :=
  (set_access n Duty,
   {| f_role := f_role f; f_enabled := false; f_seed := f_seed f; f_key := f_key f; f_state := f_state f; f_anchor := f_anchor f;
      f_last_beacon := f_last_beacon f; f_cur_channel := f_cur_channel f; f_gate := f_gate f; f_acquire_t0 := f_acquire_t0 f;
      f_airtime_ms := f_airtime_ms f |}).
(** [tuned]: the radio took the band's settings. *)
Definition fhss_suspend (n : net) (f : Fhss) (band : Band) (tuned : bool) : net :=
  if negb (f_enabled f) || negb (bool_decide (access n = NetCore.Fhss)) then n
  else let n := set_access n Duty in if tuned then set_band n band else n.
Definition fhss_resume (n : net) (f : Fhss) : net := if f_enabled f then set_access n NetCore.Fhss else n.

(** *** Beacons *)

Definition beacon_header (n : net) (counter : Z) : Header :=
  {| frame_type := Beacon; flags := 0; src := addr n; dest := BROADCAST; RadioFrame.counter := counter; bulk_index := None |}.
Definition fhss_tx_beacon (n : net) (f : Fhss) (slot_abs ch : Z) (o : fate) : net * Fhss :=
  if locked (txc (tx n)) then (n, f)
  else
    let pl := beacon_payload (epoch (f_gate f)) (slot_abs / FHSS_N) (wrap8 (slot_abs mod FHSS_N)) in
    match net_alloc n o with
    | (n, None) => (n, f)
    | (n, Some counter) =>
        let hdr := beacon_header n counter in
        match seal_frame (f_key f) hdr pl (zeros MAX_FRAME) with
        | (buf, Ok len) =>
            (radio_tx n {| a_key := f_key f; a_header := hdr; a_payload := pl; a_frame := slice buf 0 len |}, add_airtime f ch (frame_toa_ms len))
        | (_, Err _) => (n, f)
        end
    end.
(** One frame of a beacon window: the epoch and slot it carries, if it is a beacon of this network. *)
Definition read_beacon (key buf : list Z) : option (Z * Z) :=
  match parse buf with
  | Err _ => None
  | Ok (peek, _) =>
      if negb (bool_decide (frame_type peek = Beacon)) then None
      else
        match open_frame key buf with
        | (_, Err _) => None
        | (buf, Ok (_, (lo, hi))) =>
            if hi - lo <? BEACON_PL_LEN then None
            else
              let pl := slice buf lo (hi - lo) in
              Some (le_val (slice pl 0 4), wrap32 (wrap32 (le_val (slice pl 4 4) * FHSS_N) + byte_at pl 8))
        end
  end.
(** The frames of the window with their arrival times; a reception that fails ends it. *)
Fixpoint fhss_rx_beacon (key : list Z) (heard : list (result RadioError (list Z) * Z)) : option (Z * Z * Z) :=
  match heard with
  | [] => None
  | (Err _, _) :: _ => None
  | (Ok buf, t_rx) :: heard =>
      match read_beacon key buf with
      | Some (epoch, slot_abs) => Some (epoch, slot_abs, t_rx)
      | None => fhss_rx_beacon key heard
      end
  end.

(** *** The master's slot *)

Record MasterSlot := { ms_channel : Z; ms_slot : Z; ms_received : option Received }.
(** The time the beacon is out, and what [recv] hears until the deadline it is given. *)
Record MasterEnv := { me_now : Z; me_fate : fate; me_after : Z; me_heard : Z -> result RadioError (list Z) * Z * Z; me_ack : TxEnv }.
Definition fhss_master_tick (n : net) (f : Fhss) (env : MasterEnv) : net * Fhss * option MasterSlot :=
  if negb (bool_decide (f_role f = Master)) then (n, f, None)
  else
    match f_anchor f with
    | None => (n, f, None)
    | Some anchor =>
        let slot := wrap32 (fhss_cur_slot anchor (me_now env) + 1) in
        let ch := fhss_channel_for (f_seed f) slot in
        let t_start := fhss_slot_start anchor slot in
        let '(n, f) := fhss_tx_beacon n (set_channel f ch) slot ch (me_fate env) in
        let listen_until := sat_sub (sat_sub (t_start + FHSS_SLOT_MS) GUARD) MASTER_LOOP_BUDGET in
        if me_after env <? listen_until then
          let '(heard, rssi, lqi) := me_heard env listen_until in
          let '(n, r) := recv n heard rssi lqi (me_ack env) in
          (n, f, Some {| ms_channel := ch; ms_slot := slot; ms_received := r |})
        else (n, f, Some {| ms_channel := ch; ms_slot := slot; ms_received := None |})
    end.

(** *** The node's slot *)

Record NodeSlot := { ns_state : FhssState; ns_channel : Z; ns_slot : Z; ns_got_beacon : bool }.
(** The time, and what a window on a channel hears: from its opening, for its length. *)
Record NodeEnv := { ne_now : Z; ne_hear : Z -> Z -> Z -> list (result RadioError (list Z) * Z) }.
Definition max_slack : Z := sat_sub (FHSS_SLOT_MS / 2) (GUARD + beacon_toa_ms).
(** The slack of the clock since the last beacon, [None] without a clock to trust. *)
Definition tick_slack (f : Fhss) (now : Z) : option Z :=
  match f_anchor f with Some _ => reacquire_slack_ms (sat_sub now (f_last_beacon f)) max_slack | None => None end.
Definition track_open (t_start slack : Z) : Z := sub_or t_start (GUARD + slack) t_start.
Definition track_len (slack : Z) : Z := BEACON_RX_MS + slack + slack.
Definition track_slot (f : Fhss) (anchor : Z * Z) (slack : Z) (env : NodeEnv) : Fhss * NodeSlot :=
  let slot := wrap32 (fhss_cur_slot anchor (ne_now env) + 1) in
  let ch := fhss_channel_for (f_seed f) slot in
  let open := Z.max (ne_now env) (track_open (fhss_slot_start anchor slot) slack) in
  let f := set_channel f ch in
  let done f st got := (f, {| ns_state := st; ns_channel := ch; ns_slot := slot; ns_got_beacon := got |}) in
  let missed f :=
    let '(g, v) := beacon_missed (f_gate f) in
    let f := set_gate f g (f_acquire_t0 f) in
    if bool_decide (v = Rescan) then done (set_clock f Scanning None (f_last_beacon f)) Scanning false else done f Synced false in
  match fhss_rx_beacon (f_key f) (ne_hear env ch open (track_len slack)) with
  | Some (epoch, slot_abs, t_rx) =>
      let '(g, v) := offer_tracked (f_gate f) epoch slot_abs slot in
      let f := set_gate f g (f_acquire_t0 f) in
      if bool_decide (v = ReAnchor) then done (fhss_lock f slot_abs t_rx) Synced true else missed f
  | None => missed f
  end.
Definition scan_slot (f : Fhss) (env : NodeEnv) : Fhss * NodeSlot :=
  let f := set_channel f FHSS_RENDEZVOUS_CH in
  let at_ st slot got := {| ns_state := st; ns_channel := FHSS_RENDEZVOUS_CH; ns_slot := slot; ns_got_beacon := got |} in
  match fhss_rx_beacon (f_key f) (ne_hear env FHSS_RENDEZVOUS_CH (ne_now env) RENDEZVOUS_RX_MS) with
  | None => (f, at_ Scanning 0 false)
  | Some (epoch, slot_abs, t_rx) =>
      let '(s, v) := scan_beacon {| gate := f_gate f; acquire_t0 := f_acquire_t0 f |} {| b_epoch := epoch; b_slot := slot_abs; b_rx := t_rx |} in
      let f := set_gate f (gate s) (acquire_t0 s) in
      match v with
      | Reject => (f, at_ Scanning 0 false)
      | Lock => (fhss_lock f slot_abs t_rx, at_ Synced slot_abs true)
      | Hold _ => (f, at_ Scanning slot_abs false)
      end
  end.
Definition fhss_node_tick (f : Fhss) (env : NodeEnv) : Fhss * NodeSlot :=
  match f_anchor f, tick_slack f (ne_now env) with
  | Some anchor, Some slack => track_slot f anchor slack env
  | Some _, None => scan_slot (set_clock f Scanning None (f_last_beacon f)) env
  | None, _ => scan_slot f env
  end.

(** *** Sending in a slot *)

(** The time of the room check; how long the counter's allocation (an EEPROM write now and then), the
    sealing and the retune take after it; what becomes of the counter's write, of the transmission, and what is
    heard in the acknowledgement's window. The code looks at the clock once: nothing it decides depends on
    [se_prep]. *)
Record SendEnv := { se_now : Z; se_prep : Z; se_fate : fate; se_tx : result RadioError unit; se_window : list (result RadioError (list Z)) }.
(** When the frame begins. *)
Definition sent_at (env : SendEnv) : Z := se_now env + se_prep env.
Definition fhss_send (n : net) (f : Fhss) (dest : Z) (data : list Z) (confirmed : bool) (env : SendEnv) : net * Fhss * SendResult :=
  if locked (txc (tx n)) then (n, f, SError NonceLocked)
  else if negb (bool_decide (access n = NetCore.Fhss)) then (n, f, WrongMode)
  else if negb (bool_decide (f_state f = Synced)) then (n, f, NotSynced)
  else if MAX_PAYLOAD <? zlen data then (n, f, SError TooLong)
  else if negb (may_send_to n dest) then (n, f, SError NotRegistered)
  else
    match f_anchor f with
    | None => (n, f, NotSynced)
    | Some anchor =>
        let len := HDR_LEN + zlen data + TAG_LEN in
        let cur := fhss_cur_slot anchor (se_now env) in
        let ch := fhss_channel_for (f_seed f) cur in
        let slot_end := fhss_slot_start anchor (wrap32 (cur + 1)) in
        let room := sat_sub slot_end (se_now env) in
        let data_toa := frame_toa_ms len in
        let need := (if confirmed then data_toa + 20 + beacon_toa_ms else data_toa) + GUARD + MASTER_LOOP_BUDGET in
        if room <? need then (n, f, DutyLimited)
        else
          match net_alloc n (se_fate env) with
          | (n, None) => (n, f, SError NonceLocked)
          | (n, Some counter) =>
              let key := key_for n dest in
              let hdr := {| frame_type := Data; flags := if confirmed then CONFIRMED else 0; src := addr n; RadioFrame.dest := dest;
                            RadioFrame.counter := counter; bulk_index := None |} in
              match seal_frame key hdr data (zeros MAX_FRAME) with
              | (_, Err _) => (n, f, SError TooLong)
              | (buf, Ok len) =>
                  let f := add_airtime (set_channel f ch) ch (frame_toa_ms len) in
                  let n := radio_tx n {| a_key := key; a_header := hdr; a_payload := data; a_frame := slice buf 0 len |} in
                  match se_tx env with
                  | Err e => (n, f, SError e)
                  | Ok _ =>
                      if negb confirmed then (n, f, Delivered)
                      else
                        let '(n, acked) := await_ack n (key_for n dest) (ack_new (addr n) dest counter) (se_window env) in
                        (n, f, if acked then Delivered else NotDelivered)
                  end
              end
          end
    end.
(** Let 0 to 3 slots pass. *)
Fixpoint backoff_ticks (k : nat) (f : Fhss) (env : nat -> NodeEnv) : Fhss :=
  match k with
  | O => f
  | S k => backoff_ticks k (fst (fhss_node_tick f (env k))) env
  end.
Definition fhss_retry_backoff (n : net) (f : Fhss) (env : nat -> NodeEnv) : net * Fhss :=
  let '(n, x) := rand_u32 n in (n, backoff_ticks (Z.to_nat (x mod 4)) f env).
End Hopping.
