(* ===== verification/NetAir.v ===== *)
(** What a device has sealed: the invariant of the network runtime that no two frames on the air share
    a nonce, and that every operation of NetCore keeps it. *)
From S2P Require Import Prelude Bytes NetTxctr NetReplay NetWire NetPairing NetEpoch Radio Ccm RadioFrame NetCore Fhss.
#[local] Abbreviation hcounter := RadioFrame.counter.

(** ** What has been sealed *)

Section Air.
Context {W : Type} `{NS : !NetStore W} `{Haes : !AesBlock}.
#[local] Abbreviation net := (Net W).

(** What a nonce is made of besides the sender. *)
Definition bulk_at (h : Header) : Z := default 0 (bulk_index h).
Definition same_nonce (e e' : Aired) : Prop :=
  hcounter (a_header e) = hcounter (a_header e') /\ bulk_at (a_header e) = bulk_at (a_header e').
(** A frame's counter was handed out by the TX kernel, and every frame on the air under its nonce is [e]. *)
Definition may_air (n : net) (e : Aired) : Prop :=
  In (hcounter (a_header e)) (on_air (tx n)) /\ u32_ok (hcounter (a_header e)) /\ 0 <= bulk_at (a_header e) < 2 ^ 24 /\
  forall e', In e' (air n) -> same_nonce e' e -> e' = e.
Definition AirInv (n : net) : Prop := Inv (tx n) /\ u32_ok (addr n) /\ forall e, In e (air n) -> may_air n e.

Lemma air_addr n : AirInv n -> u32_ok (addr n).
Proof. by intros (_ & ? & _). Qed.

(** Steps that neither allocate nor transmit. *)
Definition quiet (n n' : net) : Prop := tx n' = tx n /\ air n' = air n /\ addr n' = addr n.
#[export] Instance quiet_preorder : PreOrder quiet.
Proof. split; [done|]. intros a b c (? & ? & ?) (? & ? & ?). split_and!; congruence. Qed.
Lemma quiet_air n n' : quiet n n' -> AirInv n -> AirInv n'.
Proof. intros (Ht & Ha & Hd). unfold AirInv, may_air. by rewrite Ht, Ha, Hd. Qed.
Lemma quiet_may n n' e : quiet n n' -> may_air n e -> may_air n' e.
Proof. intros (Ht & Ha & _). unfold may_air. by rewrite Ht, Ha. Qed.

Lemma quiet_rx n ps l w : quiet n (set_rx n ps l w).
Proof. done. Qed.
Lemma quiet_marks n a j : quiet n (set_marks n a j).
Proof. done. Qed.
Lemma quiet_duty n g r : quiet n (set_duty n g r).
Proof. done. Qed.
Lemma quiet_config n a b c d e f : quiet n (set_config n a b c d e f).
Proof. done. Qed.
#[local] Hint Resolve quiet_rx quiet_marks quiet_duty quiet_config : core.

Lemma quiet_lane_accept n s c : quiet n (lane_accept n s c).
Proof. unfold lane_accept. destruct (peer_at n s) as [[i p]|]; by destruct (accept_every _ _ _). Qed.
Lemma quiet_lane_reack n s : quiet n (fst (lane_reack n s)).
Proof. unfold lane_reack. destruct (peer_at n s) as [[i p]|]; by destruct (reack _). Qed.
Lemma quiet_try_tx n el toa : quiet n (fst (try_tx n el toa)).
Proof. unfold try_tx. by destruct (try_consume _ _). Qed.
Lemma quiet_backoff n : quiet n (fst (backoff_ms n)).
Proof. done. Qed.
Lemma quiet_await n key wait heard : quiet n (fst (await_ack n key wait heard)).
Proof.
  revert wait. induction heard as [|[buf|e] heard IH]; intros wait; cbn [await_ack]; [done| |].
  - destruct (open_frame key buf) as [b [[h [lo hi]]|e]]; [|apply IH]. cbv zeta. destruct (offer _ _ _ _ _) as [w v].
    case_bool_decide; [done | apply IH].
  - by destruct (_ || _).
Qed.

Lemma may_radio_tx n e e2 : may_air n e2 -> (same_nonce e e2 -> e = e2) -> may_air (radio_tx n e) e2.
Proof. intros (Hin & Hc & Hs & Hsame) He. split_and!; try done; try lia. intros e' [<-|He']; auto. Qed.
Lemma air_radio_tx n e : AirInv n -> may_air n e -> AirInv (radio_tx n e) /\ may_air (radio_tx n e) e.
Proof.
  intros (HI & HA & HE) Hm. pose proof Hm as (_ & _ & _ & Hsame). split; [|by apply may_radio_tx].
  split; [done|]. split; [done|]. intros e' [<-|He']; [by apply may_radio_tx|]. apply may_radio_tx; [by apply HE|].
  intros [Hc Hb]. symmetry. by apply Hsame.
Qed.

(** An allocated counter is new, so any frame under it may be sent. *)
Lemma air_alloc n o n' c : AirInv n -> net_alloc n o = (n', Some c) ->
  AirInv n' /\ addr n' = addr n /\ u32_ok c /\
  (forall e, hcounter (a_header e) = c -> 0 <= bulk_at (a_header e) < 2 ^ 24 -> may_air n' e) /\
  (forall e, may_air n e -> hcounter (a_header e) <> c /\ may_air n' e).
Proof.
  intros (HI & HA & HE) Ha. unfold net_alloc in Ha. destruct (alloc_counter (tx n) o) as [d c'] eqn:E. injection Ha as <- ->.
  destruct (alloc_counter_spec (tx n) o d c HI E) as (Hl & -> & Ho & _).
  destruct (inv_live _ HI Hl) as ((Hb & _) & Hc & Hmax & _). assert (Hu : u32_ok (NetTxctr.counter (txc (tx n)))) by mlia.
  assert (Hnew : forall e, may_air n e -> hcounter (a_header e) < NetTxctr.counter (txc (tx n))).
  { intros e (Hin & _). rewrite List.Forall_forall in Hb. by apply Hb. }
  assert (Hgrow : forall e, may_air n e -> may_air (set_tx n d) e).
  { intros e (Hin & Hce & Hs & Hsame). split_and!; try done; try lia. simpl. rewrite Ho. by right. }
  split; [split; [|split; [done|]]|].
  { pose proof (Inv_send (tx n) o HI) as Hi. by rewrite E in Hi. }
  { intros e He. by apply Hgrow, HE. }
  split; [done|]. split; [done|]. split.
  - intros e He Hs. split_and!; [simpl; rewrite Ho, He; by left | by rewrite He | lia | lia |].
    intros e' He' [Heq _]. specialize (Hnew e' (HE e' He')). rewrite Heq, He in Hnew. lia.
  - intros e He. split; [specialize (Hnew e He); lia | by apply Hgrow].
Qed.
Lemma air_alloc_None n o n' : AirInv n -> net_alloc n o = (n', None) -> AirInv n'.
Proof.
  intros (HI & HA & HE) Ha. unfold net_alloc in Ha. destruct (alloc_counter (tx n) o) as [d c'] eqn:E. injection Ha as <- ->.
  unfold alloc_counter in E. destruct (alloc (txc (tx n))) as [t [[c p]|]]; [by destruct p|]. injection E as <-. by split_and!.
Qed.

(** *** Every operation keeps the invariant *)

Lemma air_send_loop reps attempt e dest confirmed env result n :
  AirInv n -> may_air n e -> AirInv (fst (send_loop reps attempt e dest confirmed env result n)).
Proof.
  revert attempt result n. induction reps as [|reps IH]; intros attempt result n HI Hm; cbn [send_loop]; [done|].
  set (n0 := match attempt with O => n | S _ => fst (backoff_ms n) end).
  assert (Hq0 : quiet n n0) by (unfold n0; by destruct attempt).
  pose proof (quiet_try_tx n0 (at_elapsed (env attempt)) (frame_toa_ms (zlen (a_frame e)))) as Hq.
  destruct (try_tx n0 _ _) as [n1 ok]. cbn [fst] in Hq. assert (Hq1 : quiet n n1) by (by etrans).
  destruct ok; cbn [negb]; [|by eapply quiet_air].
  destruct (air_radio_tx n1 e) as [HI2 Hm2]; [by eapply quiet_air | by eapply quiet_may|].
  destruct (at_tx (env attempt)) as [u|err].
  - destruct confirmed; cbn [negb]; [|done].
    pose proof (quiet_await (radio_tx n1 e) (key_for (radio_tx n1 e) dest) (ack_new (addr (radio_tx n1 e)) dest (hcounter (a_header e)))
      (at_window (env attempt))) as Hqa.
    destruct (await_ack _ _ _ _) as [n3 acked]. cbn [fst] in Hqa.
    destruct acked; [by eapply quiet_air|]. apply IH; [by eapply quiet_air | by eapply quiet_may].
  - case_bool_decide; [by apply IH | done].
Qed.
Lemma air_send n dest data confirmed reps o env : AirInv n -> AirInv (fst (send n dest data confirmed reps o env)).
Proof.
  intros HI. unfold send. set (n0 := set_marks n None _). assert (H0 : AirInv n0) by (by apply (quiet_air n)).
  repeat (split_if; [done|]). destruct (net_alloc n0 o) as [n1 [c|]] eqn:E; [|by eapply air_alloc_None].
  destruct (air_alloc _ _ _ _ H0 E) as (H1 & _ & _ & Hm & _). cbv zeta.
  destruct (seal_frame _ _ _ _) as [buf [len|err]]; [|done]. apply air_send_loop; [done|]. by apply Hm.
Qed.
Lemma air_send_ack n dest acked rssi env : AirInv n -> AirInv (send_ack n dest acked rssi env).
Proof.
  intros HI. unfold send_ack. split_if; [done|]. cbv zeta.
  assert (Hq : quiet n (fst (match access n with Duty => try_tx n (t_elapsed env) (frame_toa_ms (HDR_LEN + 6 + TAG_LEN)) | _ => (n, true) end)))
    by (destruct (access n); [apply quiet_try_tx | done | done]).
  change (zlen (patch _ 5 _)) with 6. destruct (match access n with Duty => _ | _ => _ end) as [n1 ok]. cbn [fst] in Hq.
  assert (H1 : AirInv n1) by (by eapply quiet_air). split_if; [done|].
  destruct (net_alloc n1 (t_fate env)) as [n2 [c|]] eqn:E; [|by eapply air_alloc_None].
  destruct (air_alloc _ _ _ _ H1 E) as (H2 & _ & _ & Hm & _).
  destruct (seal_frame _ _ _ _) as [buf [len|err]]; [|done]. apply air_radio_tx; [done|]. by apply Hm.
Qed.
Lemma air_keyed_answer n rx env : AirInv n ->
  match keyed_answer n rx env with
  | (n', Ok e) => AirInv n' /\ may_air n' e /\ addr n' = addr n
  | (n', Err _) => AirInv n' /\ addr n' = addr n
  end.
Proof.
  intros HI. unfold keyed_answer. repeat (split_if; [done|]). destruct (parse rx) as [[peek l]|]; [|done]. cbv zeta.
  split_if; [done|]. destruct (open_frame _ rx) as [b [[h [lo hi]]|]]; [|done]. repeat (split_if; [done|]).
  set (n1 := lane_accept n _ _). assert (Hq1 : quiet n n1) by apply quiet_lane_accept.
  pose proof (quiet_try_tx n1 (t_elapsed env) (frame_toa_ms KEYED_FRAME_LEN)) as Hq. destruct (try_tx n1 _ _) as [n2 ok]. cbn [fst] in Hq.
  assert (Hq2 : quiet n n2) by (by etrans). assert (H2 : AirInv n2) by (by eapply quiet_air).
  assert (Ha2 : addr n2 = addr n) by apply Hq2. split_if; [done|].
  destruct (net_alloc n2 (t_fate env)) as [n3 [c|]] eqn:E.
  - destruct (air_alloc _ _ _ _ H2 E) as (H3 & Haddr & _ & Hm & _). rewrite Ha2 in Haddr.
    destruct (seal_frame _ _ _ _) as [buf [len|err]]; [|done]. split_and!; try done. by apply Hm.
  - split; [by eapply air_alloc_None|]. unfold net_alloc in E. destruct (alloc_counter _ _). by injection E as <- _.
Qed.
Lemma air_recv n heard rssi lqi env : AirInv n -> AirInv (fst (recv n heard rssi lqi env)).
Proof.
  intros HI. unfold recv. destruct heard as [buf|]; [|done]. destruct (parse buf) as [[peek l]|]; [|done]. split_if.
  - destruct (keyed_responder n); [|done]. pose proof (air_keyed_answer n buf env HI) as Hk.
    destruct (keyed_answer n buf env) as [n1 [e|]]; [|apply Hk]. destruct Hk as (Hn1 & Hm & _).
    destruct (air_radio_tx n1 e Hn1 Hm) as [Hn2 _]. destruct (t_result env); [|exact Hn2]. apply (quiet_air (radio_tx n1 e)); [apply quiet_marks | exact Hn2].
  - repeat (split_if; [done|]). cbv zeta. destruct (open_frame _ buf) as [b [[h [lo hi]]|]]; [|done]. split_if; [done|].
    destruct (classify _ _); [| |done].
    + set (n1 := lane_accept n _ _). assert (Hq1 : quiet n n1) by apply quiet_lane_accept.
      assert (H1 : AirInv n1) by (by eapply quiet_air). destruct (negb (Z.land (flags h) CONFIRMED =? 0)); [|exact H1]. by apply air_send_ack.
    + destruct (negb (Z.land (flags h) CONFIRMED =? 0)); [|exact HI]. pose proof (quiet_lane_reack n (src h)) as Hq. destruct (lane_reack n (src h)) as [n1 again].
      cbn [fst] in *. assert (H1 : AirInv n1) by (by eapply quiet_air). destruct again; [|exact H1]. by apply air_send_ack.
Qed.
Lemma air_join_loop n own key tries : AirInv n -> u32_ok own -> AirInv (fst (join_loop n own key tries)).
Proof.
  intros HI Ho. revert n HI. induction tries as [|t tries IH]; intros n HI; cbn [join_loop]; [done|].
  pose proof (quiet_try_tx n (t_elapsed (j_env t)) (frame_toa_ms KEYED_FRAME_LEN)) as Hq. destruct (try_tx n _ _) as [n1 ok].
  cbn [fst] in Hq. assert (H1 : AirInv n1) by (by eapply quiet_air). split_if; [by apply IH|].
  destruct (net_alloc n1 (t_fate (j_env t))) as [n2 [c|]] eqn:E; [|by eapply air_alloc_None].
  destruct (air_alloc _ _ _ _ H1 E) as (H2 & _ & _ & Hm & _). cbv zeta.
  destruct (seal_frame _ _ _ _) as [buf [len|]]; [|done].
  match goal with |- context [radio_tx n2 ?e] => destruct (air_radio_tx n2 e) as [H3 _]; [exact H2 | by apply Hm|] end.
  destruct (t_result (j_env t)); [|by apply IH]. destruct (join_window _ _ _ _); [done | by apply IH].
Qed.
Lemma air_join n own key tries : AirInv n -> u32_ok own -> AirInv (fst (join_keyed n own key tries)).
Proof. intros HI Ho. unfold join_keyed. repeat (split_if; [done|]). by apply air_join_loop. Qed.

Lemma quiet_add_peer n a key : quiet n (fst (add_peer n a key)).
Proof.
  unfold add_peer. split_if; [done|]. cbv zeta. destruct (peer_at n a) as [[i p]|]; [done|].
  destruct (first_empty _); [|done]. by destruct (assign_lane _ _ _ _).
Qed.
Lemma quiet_remove_peer n a : quiet n (fst (remove_peer n a)).
Proof. unfold remove_peer. by destruct (peer_at n a) as [[i p]|]. Qed.
Lemma quiet_set_pending n a b : quiet n (fst (set_pending n a b)).
Proof. unfold set_pending. by destruct (peer_at n a) as [[i p]|]. Qed.
Lemma quiet_raise_peer n a s : quiet n (fst (raise_peer_floor n a s)).
Proof. unfold raise_peer_floor. destruct (peer_at n a) as [[i p]|]; [|done]. by destruct (raise _ _). Qed.

(** *** Hopping *)

Lemma quiet_set_access n a : quiet n (set_access n a).
Proof. apply quiet_config. Qed.
Lemma quiet_enable n f role cfg now : quiet n (fst (enable_fhss n f role cfg now)).
Proof. by destruct role. Qed.
Lemma quiet_retry n f env : quiet n (fst (fhss_retry_backoff n f env)).
Proof. unfold fhss_retry_backoff, rand_u32. apply quiet_duty. Qed.
Lemma air_tx_beacon n f slot ch o : AirInv n -> AirInv (fst (fhss_tx_beacon n f slot ch o)).
Proof.
  intros HI. unfold fhss_tx_beacon. split_if; [done|]. cbv zeta. destruct (net_alloc n o) as [n1 [c|]] eqn:E; [|by eapply air_alloc_None].
  destruct (air_alloc _ _ _ _ HI E) as (H1 & _ & _ & Hm & _). destruct (seal_frame _ _ _ _) as [buf [len|]]; [|done].
  apply air_radio_tx; [done|]. by apply Hm.
Qed.
Lemma air_master_tick n f env : AirInv n -> AirInv (fst (fst (fhss_master_tick n f env))).
Proof.
  intros HI. unfold fhss_master_tick. split_if; [done|]. destruct (f_anchor f) as [anchor|]; [|done]. cbv zeta.
  match goal with |- context [fhss_tx_beacon n ?f ?s ?c ?o] =>
    pose proof (air_tx_beacon n f s c o HI) as H; destruct (fhss_tx_beacon n f s c o) as [n1 f1] end.
  split_if; [|done]. destruct (me_heard _ _) as [[heard rssi] lqi]. pose proof (air_recv n1 heard rssi lqi (me_ack env) H) as Hr.
  by destruct (recv _ _ _ _ _).
Qed.
Lemma air_fhss_send n f dest data confirmed env : AirInv n -> AirInv (fst (fst (fhss_send n f dest data confirmed env))).
Proof.
  intros HI. unfold fhss_send. repeat (split_if; [done|]). destruct (f_anchor f) as [anchor|]; [|done]. cbv zeta. split_if; [done|].
  destruct (net_alloc n (se_fate env)) as [n1 [c|]] eqn:E; [|by eapply air_alloc_None].
  destruct (air_alloc _ _ _ _ HI E) as (H1 & _ & _ & Hm & _). destruct (seal_frame _ _ _ _) as [buf [len|]]; [|done].
  match goal with |- context [radio_tx n1 ?e] => destruct (air_radio_tx n1 e) as [H2 _]; [done | by apply Hm|];
    set (n2 := radio_tx n1 e) in * end.
  destruct (se_tx env); [|done]. split_if; [done|].
  match goal with |- context [await_ack n2 ?k ?w ?h] => pose proof (quiet_await n2 k w h) as Hq; destruct (await_ack n2 k w h) as [n3 acked] end.
  by eapply quiet_air.
Qed.

End Air.
