(* ===== verification/Bulk.v ===== *)
(** Bulk transfers (firmware/src/radio/net/bulk.rs): a sender announces a length and a session, the
    requester pulls chunk after chunk. Both ends stream: the sender reads each chunk from a source,
    the requester feeds a sink. What the radio hears and what becomes of each transmission are
    arguments. *)
From S2P Require Import Prelude Bytes NetTxctr NetReplay NetWire Radio Ccm RadioFrame NetCore NetAir.
#[local] Abbreviation hcounter := RadioFrame.counter.

Definition BULK_CHUNK : Z := 64.
Definition MAX_BULK_LEN : Z := Z.shiftl 1 24 * BULK_CHUNK.
Definition BULK_IDLE_MS : Z := 30 * 1000.
Definition BULK_REQ_REPS : Z := 6.
#[export] Hint Unfold BULK_CHUNK BULK_IDLE_MS BULK_REQ_REPS : machine.

(** [BulkSource] and [BulkSink]. *)
Class BulkSource (S : Type) := {
  total_len : S -> Z;
  (** The bytes written to the front of a buffer of that length. *)
  read : S -> Z -> Z -> S * list Z;
}.
Class BulkSink (K : Type) := {
  begin : K -> Z -> K * bool;
  consume : K -> Z -> list Z -> K * bool;
}.
(** The contract of a source: it serves one fixed byte string. *)
Class BulkSourceLaws (S : Type) `{!BulkSource S} := {
  source_data : S -> list Z;
  total_len_data : forall s, total_len s = zlen (source_data s);
  read_data : forall s o n, 0 <= o -> 0 <= n -> o + n <= zlen (source_data s) ->
    snd (read s o n) = slice (source_data s) o n /\ source_data (fst (read s o n)) = source_data s;
}.
(** [SliceSource], [SliceSink]. *)
Record SliceSource := { ss_data : list Z }.
#[export] Instance slice_source : BulkSource SliceSource := {
  total_len s := zlen (ss_data s);
  read s offset n := (s, slice (ss_data s) offset n);
}.
#[export] Instance slice_source_laws : BulkSourceLaws SliceSource.
Proof. refine {| source_data := ss_data |}; done. Defined.
Record SliceSink := { sk_out : list Z }.
#[export] Instance slice_sink : BulkSink SliceSink := {
  begin k total := (k, total <=? zlen (sk_out k));
  consume k offset chunk :=
    if zlen (sk_out k) <? offset + zlen chunk then (k, false)
    else ({| sk_out := patch (sk_out k) offset chunk |}, true);
}.

Definition n_chunks (total : Z) : Z := Z.max (div_ceil total BULK_CHUNK) 1.
(** The length of chunk [k]. *)
Definition chunk_len (total k : Z) : Z := Z.min (total - k * BULK_CHUNK) BULK_CHUNK.

Section Bulk.
Context {W : Type} `{NS : !NetStore W} `{Haes : !AesBlock}.
#[local] Abbreviation net := (Net W).

Definition tx_frame (n : net) (key : list Z) (hdr : Header) (payload : list Z) (env : TxEnv) : net * bool :=
  match seal_frame key hdr payload (zeros MAX_FRAME) with
  | (_, Err _) => (n, false)
  | (buf, Ok len) =>
      let '(n, ok) := try_tx n (t_elapsed env) (frame_toa_ms len) in
      if negb ok then (n, false)
      else (radio_tx n {| a_key := key; a_header := hdr; a_payload := payload; a_frame := slice buf 0 len |}, is_ok (t_result env))
  end.
Definition rx_frame (key : list Z) (heard : result RadioError (list Z)) (cap : Z) : option (Header * list Z) :=
  match heard with
  | Err _ => None
  | Ok buf =>
      match open_frame key buf with
      | (_, Err _) => None
      | (buf, Ok (hdr, (lo, hi))) => if cap <? hi - lo then None else Some (hdr, slice buf lo (hi - lo))
      end
  end.

(** ** Serving *)

Section Serve.
Context {S : Type} `{SO : !BulkSource S}.

(** One turn of the serving loop: the time it starts, the announce's transmission, what is heard, and
    the chunk's transmission. *)
Record Turn := { tn_now : Z; tn_announce : TxEnv; tn_heard : result RadioError (list Z); tn_reply_at : Z; tn_reply : TxEnv }.
Record Serving := { sv_got_req : bool; sv_served_last : bool; sv_last_progress : Z }.
Definition announce_payload (total session : Z) : list Z := patch (patch (zeros 8) 0 (le_bytes 4 total)) 4 (le_bytes 4 session).
Definition announce_header (own dest c : Z) : Header :=
  {| frame_type := Data; flags := BULK_ANNOUNCE; src := own; dest := dest; RadioFrame.counter := c; bulk_index := None |}.
Definition chunk_header (own dest session k : Z) (last : bool) : Header :=
  {| frame_type := BulkData; flags := if last then LAST_CHUNK else 0; src := own; dest := dest; RadioFrame.counter := session;
     bulk_index := Some k |}.
(** The chunk a received frame asks for. *)
Definition request_of (key : list Z) (own dest session total : Z) (heard : result RadioError (list Z)) : option Z :=
  match rx_frame key heard BULK_CHUNK with
  | None => None
  | Some (hdr, payload) =>
      if negb (bool_decide (frame_type hdr = BulkReq)) || negb (src hdr =? dest) || negb (RadioFrame.dest hdr =? own) then None
      else if (zlen payload <? 4) || negb (le_val (slice payload 0 4) =? session) then None
      else
        let k := default 0 (bulk_index hdr) in
        if n_chunks total <=? k then None else Some k
  end.
Fixpoint serve_loop (n : net) (key : list Z) (dest announce_counter session total : Z) (source : S) (st : Serving) (turns : list Turn)
    : net * S * bool :=
  match turns with
  | [] => (n, source, sv_served_last st)
  | t :: turns =>
      if (if sv_served_last st then 2000 else BULK_IDLE_MS) <=? sat_sub (tn_now t) (sv_last_progress st) then (n, source, sv_served_last st)
      else
        let n := if negb (sv_got_req st) then
                   fst (tx_frame n key (announce_header (addr n) dest announce_counter) (announce_payload total session) (tn_announce t))
                 else n in
        match request_of key (addr n) dest session total (tn_heard t) with
        | None => serve_loop n key dest announce_counter session total source st turns
        | Some k =>
            let start := k * BULK_CHUNK in
            let '(source, chunk) := read source start (chunk_len total k) in
            let last := k =? n_chunks total - 1 in
            let n := fst (tx_frame n key (chunk_header (addr n) dest session k last) chunk (tn_reply t)) in
            serve_loop n key dest announce_counter session total source
              {| sv_got_req := true; sv_served_last := last || sv_served_last st; sv_last_progress := tn_reply_at t |} turns
        end
  end.
(** [turns] is what happens until the loop ends or its caller drops it; [start] is the time it begins. *)
Definition bulk_serve_from (n : net) (dest : Z) (source : S) (o o' : fate) (start : Z) (turns : list Turn) : net * S * bool :=
  if locked (txc (tx n)) then (n, source, false)
  else if negb (may_send_to n dest) then (n, source, false)
  else
    let key := key_for n dest in
    let total := total_len source in
    if MAX_BULK_LEN <? total then (n, source, false)
    else
      match net_alloc n o with
      | (n, None) => (n, source, false)
      | (n, Some announce_counter) =>
          match net_alloc n o' with
          | (n, None) => (n, source, false)
          | (n, Some session) =>
              serve_loop n key dest announce_counter session total source
                {| sv_got_req := false; sv_served_last := false; sv_last_progress := start |} turns
          end
      end.
End Serve.
Definition bulk_serve (n : net) (dest : Z) (data : list Z) (o o' : fate) (start : Z) (turns : list Turn) : net * bool :=
  let '(n, _, served) := bulk_serve_from n dest {| ss_data := data |} o o' start turns in (n, served).

(** ** Fetching *)

Section Fetch.
Context {K : Type} `{SK : !BulkSink K}.

(** The announcement waited for: every reception must open and fit, or the fetch ends. *)
Fixpoint wait_announce (key : list Z) (from own : Z) (heard : list (result RadioError (list Z))) : option (Z * Z) :=
  match heard with
  | [] => None
  | h :: heard =>
      match rx_frame key h 8 with
      | None => None
      | Some (hdr, abuf) =>
          if bool_decide (frame_type hdr = Data) && negb (Z.land (flags hdr) BULK_ANNOUNCE =? 0) && (src hdr =? from)
             && (dest hdr =? own) && (8 <=? zlen abuf)
          then Some (le_val (slice abuf 0 4), le_val (slice abuf 4 4))
          else wait_announce key from own heard
      end
  end.
(** One repetition of a request: its transmission and what answers it. *)
Record Rep := { rp_tx : TxEnv; rp_heard : result RadioError (list Z) }.
Inductive Pulled := Got (dlen : Z) | SinkAborted | NoAnswer.
Definition request_header (own from c k : Z) : Header :=
  {| frame_type := BulkReq; flags := 0; src := own; dest := from; RadioFrame.counter := c; bulk_index := Some k |}.
(** The answer to a request for chunk [k] of [total] bytes. *)
Definition answer_of (key : list Z) (own from session total k : Z) (heard : result RadioError (list Z)) : option (list Z) :=
  match rx_frame key heard BULK_CHUNK with
  | Some (dhdr, d) =>
      if bool_decide (frame_type dhdr = BulkData) && (src dhdr =? from) && (dest dhdr =? own) && (RadioFrame.counter dhdr =? session)
         && bool_decide (bulk_index dhdr = Some k)
      then if negb (zlen d =? chunk_len total k) then None else Some d
      else None
  | None => None
  end.
Fixpoint pull_chunk (reps : nat) (attempt : nat) (n : net) (key : list Z) (req_hdr : Header) (session total k : Z) (sink : K)
    (env : nat -> Rep) : net * K * Pulled :=
  match reps with
  | O => (n, sink, NoAnswer)
  | Datatypes.S reps =>
      let r := env attempt in
      let '(n, sent) := tx_frame n key req_hdr (le_bytes 4 session) (rp_tx r) in
      if negb sent then pull_chunk reps (Datatypes.S attempt) n key req_hdr session total k sink env
      else
        match answer_of key (addr n) (dest req_hdr) session total k (rp_heard r) with
        | None => pull_chunk reps (Datatypes.S attempt) n key req_hdr session total k sink env
        | Some d =>
            let '(sink, ok) := consume sink (k * BULK_CHUNK) d in
            (n, sink, if ok then Got (zlen d) else SinkAborted)
        end
  end.
(** The chunks from [k] on, [todo] of them. *)
Fixpoint fetch_chunks (todo : nat) (n : net) (key : list Z) (from session total k received : Z) (sink : K)
    (fates : Z -> fate) (env : Z -> nat -> Rep) : net * K * option Z :=
  match todo with
  | O => (n, sink, Some received)
  | Datatypes.S todo =>
      match net_alloc n (fates k) with
      | (n, None) => (n, sink, None)
      | (n, Some req_counter) =>
          match pull_chunk (Z.to_nat BULK_REQ_REPS) 0 n key (request_header (addr n) from req_counter k) session total k sink (env k) with
          | (n, sink, Got dlen) => fetch_chunks todo n key from session total (k + 1) (received + dlen) sink fates env
          | (n, sink, _) => (n, sink, None)
          end
      end
  end.
Definition bulk_fetch_into (n : net) (from : Z) (sink : K) (announce : list (result RadioError (list Z))) (fates : Z -> fate)
    (env : Z -> nat -> Rep) : net * K * option Z :=
  if locked (txc (tx n)) then (n, sink, None)
  else if negb (may_send_to n from) then (n, sink, None)
  else
    let key := key_for n from in
    match wait_announce key from (addr n) announce with
    | None => (n, sink, None)
    | Some (total, session) =>
        if MAX_BULK_LEN <? total then (n, sink, None)
        else
          let '(sink, ok) := begin sink total in
          if negb ok then (n, sink, None)
          else fetch_chunks (Z.to_nat (n_chunks total)) n key from session total 0 0 sink fates env
    end.
End Fetch.
Definition bulk_fetch (n : net) (from : Z) (out : list Z) (announce : list (result RadioError (list Z))) (fates : Z -> fate)
    (env : Z -> nat -> Rep) : net * list Z * option Z :=
  let '(n, sink, r) := bulk_fetch_into n from {| sk_out := out |} announce fates env in (n, sk_out sink, r).
End Bulk.

(** ** What a transfer puts on the air *)

Section BulkAir.
Context {W : Type} `{NS : !NetStore W} `{Haes : !AesBlock} `{Hlaws : !AesBlockLaws}.
#[local] Abbreviation net := (Net W).

(** What the radio delivers are bytes. *)
Definition heard_ok (h : result RadioError (list Z)) : Prop := match h with Ok buf => bytes_ok buf | Err _ => True end.
Lemma rx_frame_Some key heard cap h p : heard_ok heard -> rx_frame key heard cap = Some (h, p) ->
  exists buf, heard = Ok buf /\ hdr_ok h /\ buf = frame_bytes key h p /\ zlen p <= cap /\ bytes_ok p.
Proof.
  unfold rx_frame. destruct heard as [buf|]; [|done]. intros Hb. destruct (open_frame key buf) as [b [[h' [lo hi]]|]] eqn:E; [|done].
  apply open_frame_Ok in E as (Hh & Hp & -> & -> & Hbuf); [|done]. split_if; [done|]. bool_hyps. intros [= <- <-].
  exists buf. split; [done|]. split; [done|]. split; [done|].
  split; [|by apply (frame_payload_ok key h'); rewrite <- Hbuf].
  assert (Hz : zlen buf = wire_len h' + zlen (slice b (wire_len h') (zlen buf - TAG_LEN - wire_len h')) + TAG_LEN)
    by (rewrite Hbuf at 1; apply zlen_frame). lia.
Qed.
Lemma rx_frame_opens key cap h p : hdr_ok h -> zlen p <= cap -> rx_frame key (Ok (frame_bytes key h p)) cap = Some (h, p).
Proof.
  intros Hh Hp. unfold rx_frame. rewrite open_frame_bytes by done. replace (wire_len h + zlen p - wire_len h) with (zlen p) by lia.
  replace (cap <? zlen p) with false by (symmetry; by apply Z.ltb_ge). do 2 f_equal. apply slice_field; [by rewrite zlen_header | done].
Qed.

Definition tx_entry (key : list Z) (hdr : Header) (payload : list Z) : Aired :=
  {| a_key := key; a_header := hdr; a_payload := payload;
     a_frame := match seal_frame key hdr payload (zeros MAX_FRAME) with (buf, Ok len) => slice buf 0 len | (_, Err _) => [] end |}.
Lemma tx_frame_cases (n : net) key hdr payload env :
  exists n1, quiet n n1 /\
    (tx_frame n key hdr payload env = (n1, false) \/
     tx_frame n key hdr payload env = (radio_tx n1 (tx_entry key hdr payload), is_ok (t_result env))).
Proof.
  unfold tx_frame, tx_entry. destruct (seal_frame _ _ _ _) as [buf [len|]]; [|by exists n; split; [|left]].
  pose proof (quiet_try_tx n (t_elapsed env) (frame_toa_ms len)) as Hq. destruct (try_tx n _ _) as [n1 ok]. cbn [fst] in Hq.
  exists n1. split; [done|]. destruct ok; [by right | by left].
Qed.
Lemma air_tx_frame (n : net) key hdr payload env : AirInv n -> may_air n (tx_entry key hdr payload) ->
  let n' := fst (tx_frame n key hdr payload env) in
  AirInv n' /\ addr n' = addr n /\ may_air n' (tx_entry key hdr payload) /\
  forall e, may_air n e -> (same_nonce (tx_entry key hdr payload) e -> tx_entry key hdr payload = e) -> may_air n' e.
Proof.
  intros HI Hm. destruct (tx_frame_cases n key hdr payload env) as (n1 & Hq & H).
  assert (HI1 : AirInv n1) by (by eapply quiet_air). assert (Hm1 : may_air n1 (tx_entry key hdr payload)) by (by eapply quiet_may).
  assert (Ha : addr n1 = addr n) by apply Hq.
  destruct H as [-> | ->]; cbn [fst].
  - split_and!; try done. intros e He _. by eapply quiet_may.
  - destruct (air_radio_tx n1 _ HI1 Hm1). split_and!; try done. intros e He Hs. apply may_radio_tx; [by eapply quiet_may | done].
Qed.

(** *** Serving *)

Section ServeAir.
Context {S : Type} `{SO : !BulkSource S} `{SL : !BulkSourceLaws S}.

Definition chunk_data (data : list Z) (k : Z) : list Z := slice data (k * BULK_CHUNK) (chunk_len (zlen data) k).
(** The frame of chunk [k] of a session. *)
Definition chunk_entry (key : list Z) (own dest session : Z) (data : list Z) (k : Z) : Aired :=
  tx_entry key (chunk_header own dest session k (k =? n_chunks (zlen data) - 1)) (chunk_data data k).
Definition announce_entry (key : list Z) (own dest c session total : Z) : Aired :=
  tx_entry key (announce_header own dest c) (announce_payload total session).

Lemma n_chunks_bound total : 0 <= total <= MAX_BULK_LEN -> 1 <= n_chunks total <= 2 ^ 24.
Proof.
  intros Ht. unfold n_chunks. pose proof (div_ceil_spec total BULK_CHUNK ltac:(mlia)) as H.
  change MAX_BULK_LEN with (2 ^ 24 * 64) in Ht. change BULK_CHUNK with 64 in *. change (2 ^ 24) with 16777216 in *. lia.
Qed.
Lemma chunk_in_data total k : 0 <= total -> 0 <= k < n_chunks total ->
  0 <= k * BULK_CHUNK /\ 0 <= chunk_len total k /\ k * BULK_CHUNK + chunk_len total k <= total.
Proof.
  unfold n_chunks, chunk_len. intros Ht Hk. pose proof (div_ceil_spec total BULK_CHUNK ltac:(mlia)) as H.
  change BULK_CHUNK with 64 in *. lia.
Qed.
Lemma same_chunk key own dest session data j k : same_nonce (chunk_entry key own dest session data j) (chunk_entry key own dest session data k) ->
  chunk_entry key own dest session data j = chunk_entry key own dest session data k.
Proof. intros [_ Hb]. change (j = k) in Hb. by subst. Qed.

Record ServeInv (n : net) (key : list Z) (dest c session : Z) (data : list Z) : Prop := {
  si_air : AirInv n;
  si_counters : c <> session;
  si_announce : may_air n (announce_entry key (addr n) dest c session (zlen data));
  si_chunks : forall k, 0 <= k < n_chunks (zlen data) -> may_air n (chunk_entry key (addr n) dest session data k);
}.
Lemma request_range key own dest session total heard k : heard_ok heard ->
  request_of key own dest session total heard = Some k -> 0 <= k < n_chunks total.
Proof.
  unfold request_of. intros Hok. destruct (rx_frame _ _ _) as [[h p]|] eqn:E; [|done].
  apply rx_frame_Some in E as (buf & _ & [_ _ _ _ Hb] & _); [|done]. split_if; [done|]. split_if; [done|]. cbv zeta.
  split_if; [done|]. bool_hyps. intros [= <-]. split; [|done]. destruct (bulk_index h); simpl in *; lia.
Qed.
Lemma air_serve_loop key dest c session turns : forall (n : net) (source : S) st,
  ServeInv n key dest c session (source_data source) -> Forall (fun t => heard_ok (tn_heard t)) turns ->
  AirInv (fst (fst (serve_loop n key dest c session (zlen (source_data source)) source st turns))).
Proof.
  induction turns as [|t turns IH]; intros n source st HI Ht; cbn [serve_loop]; [apply HI|].
  inversion Ht as [|t' l' Hok Ht']. subst t' l'. split_if; [apply HI|]. set (data := source_data source) in *.
  set (n1 := if negb (sv_got_req st) then _ else n).
  assert (H1 : ServeInv n1 key dest c session data /\ addr n1 = addr n).
  { unfold n1. destruct (negb (sv_got_req st)); [|done]. destruct HI as [Ha Hne Hann Hch].
    destruct (air_tx_frame n key (announce_header (addr n) dest c) (announce_payload (zlen data) session) (tn_announce t) Ha Hann)
      as (Ha' & Hadr & Hann' & Hkeep). split; [|exact Hadr].
    split; [exact Ha' | exact Hne | by rewrite Hadr|]. intros k Hk. rewrite Hadr. apply Hkeep; [by apply Hch|].
    intros [Hc _]. simpl in Hc. lia. }
  destruct H1 as [H1 Hadr1]. destruct (request_of _ _ _ _ _ _) as [k|] eqn:Er; [|by apply IH].
  apply request_range in Er; [|exact Hok].
  destruct (chunk_in_data (zlen data) k (zlen_nonneg data) Er) as (Hc1 & Hc2 & Hc3).
  destruct (read_data source (k * BULK_CHUNK) (chunk_len (zlen data) k) Hc1 Hc2 Hc3) as [Hr Hs].
  destruct (read source _ _) as [source' chunk]. cbn [fst snd] in Hr, Hs. subst chunk. cbv zeta.
  pose proof (air_tx_frame n1 key (chunk_header (addr n1) dest session k (k =? n_chunks (zlen data) - 1)) (chunk_data data k) (tn_reply t)
    (si_air _ _ _ _ _ _ H1) (si_chunks _ _ _ _ _ _ H1 k Er)) as (Ha' & Hadr & Hk' & Hkeep).
  fold (chunk_data data k). set (n2 := fst (tx_frame _ _ _ _ _)). change (addr n2 = addr n1) in Hadr.
  assert (H2 : ServeInv n2 key dest c session data).
  { destruct H1 as [Ha1 Hne Hann Hch]. constructor; try done; rewrite Hadr.
    - apply Hkeep; [exact Hann|]. intros [Hc _]. simpl in Hc. lia.
    - intros j Hj. apply Hkeep; [by apply Hch|]. apply same_chunk. }
  unfold data in *. rewrite <- Hs in *. apply IH; [exact H2 | exact Ht'].
Qed.
Lemma air_bulk_serve (n : net) dest (source : S) o o' start turns : AirInv n -> Forall (fun t => heard_ok (tn_heard t)) turns ->
  AirInv (fst (fst (bulk_serve_from n dest source o o' start turns))).
Proof.
  intros HI Ht. unfold bulk_serve_from. do 2 (split_if; [done|]). cbv zeta. split_if; [done|]. bool_hyps.
  destruct (net_alloc n o) as [n1 [c|]] eqn:E1; [|by eapply air_alloc_None].
  destruct (air_alloc _ _ _ _ HI E1) as (HI1 & Ha1 & _ & Hm1 & _).
  destruct (net_alloc n1 o') as [n2 [session|]] eqn:E2; [|by eapply air_alloc_None].
  destruct (air_alloc _ _ _ _ HI1 E2) as (HI2 & Ha2 & _ & Hm2 & Hkeep).
  rewrite total_len_data in *. apply air_serve_loop; [|done].
  assert (Hann : may_air n1 (announce_entry (key_for n dest) (addr n2) dest c session (zlen (source_data source))))
    by (apply Hm1; [done | unfold bulk_at; simpl; lia]).
  destruct (Hkeep _ Hann) as [Hne Hann2]. split; [done | done | done |].
  intros k Hk. apply Hm2; [done|]. unfold bulk_at. simpl. pose proof (n_chunks_bound (zlen (source_data source))). pose proof (zlen_nonneg (source_data source)). lia.
Qed.
End ServeAir.

(** *** Fetching *)

Section FetchAir.
Context {K : Type} `{SK : !BulkSink K}.

Lemma wait_announce_range key from own heard total session : Forall heard_ok heard -> wait_announce key from own heard = Some (total, session) -> 0 <= total.
Proof.
  induction 1 as [|h heard Hh Hok IH]; cbn [wait_announce]; [done|]. destruct (rx_frame key h 8) as [[hdr abuf]|] eqn:E; [|done].
  split_if; [|exact IH]. intros [= <- _].
  assert (Hb : bytes_ok abuf).
  { by apply rx_frame_Some in E as (buf & _ & _ & _ & _ & Hp). }
  apply (le_val_bound (slice abuf 0 4)). auto with tower.
Qed.
Lemma air_pull_chunk reps : forall attempt (n : net) key h session total k (sink : K) env, AirInv n -> may_air n (tx_entry key h (le_bytes 4 session)) ->
  AirInv (fst (fst (pull_chunk reps attempt n key h session total k sink env))) /\
  addr (fst (fst (pull_chunk reps attempt n key h session total k sink env))) = addr n.
Proof.
  induction reps as [|reps IH]; intros attempt n key h session total k sink env HI Hm; cbn [pull_chunk]; [done|].
  destruct (air_tx_frame n key h (le_bytes 4 session) (rp_tx (env attempt)) HI Hm) as (HI1 & Ha1 & Hm1 & _).
  destruct (tx_frame n key h (le_bytes 4 session) (rp_tx (env attempt))) as [n1 sent]. cbn [fst] in *.
  split_if; [rewrite <- Ha1; by apply IH|]. destruct (answer_of _ _ _ _ _ _ _); [|rewrite <- Ha1; by apply IH].
  by destruct (consume _ _ _) as [sink' ok].
Qed.
Lemma air_fetch_chunks todo : forall (n : net) key from session total k received (sink : K) fates env,
  AirInv n -> 0 <= k -> k + Z.of_nat todo <= 2 ^ 24 ->
  AirInv (fst (fst (fetch_chunks todo n key from session total k received sink fates env))).
Proof.
  induction todo as [|todo IH]; intros n key from session total k received sink fates env HI Hk Hto; cbn [fetch_chunks]; [done|].
  destruct (net_alloc n (fates k)) as [n1 [c|]] eqn:E; [|by eapply air_alloc_None].
  destruct (air_alloc _ _ _ _ HI E) as (HI1 & Ha1 & _ & Hm1 & _).
  assert (Hm : may_air n1 (tx_entry key (request_header (addr n1) from c k) (le_bytes 4 session))) by (apply Hm1; [done | unfold bulk_at; simpl; lia]).
  pose proof (air_pull_chunk (Z.to_nat BULK_REQ_REPS) 0 n1 key (request_header (addr n1) from c k) session total k sink (env k) HI1 Hm) as [H2 _].
  destruct (pull_chunk _ _ _ _ _ _ _ _ _ _) as [[n2 sink2] [d| |]]; cbn [fst] in *; [|done|done]. apply IH; [done | lia | lia].
Qed.
Lemma air_bulk_fetch (n : net) from (sink : K) announce fates env : AirInv n -> Forall heard_ok announce ->
  AirInv (fst (fst (bulk_fetch_into n from sink announce fates env))).
Proof.
  intros HI Hok. unfold bulk_fetch_into. do 2 (split_if; [done|]). cbv zeta.
  destruct (wait_announce _ _ _ _) as [[total session]|] eqn:Ew; [|done]. split_if; [done|]. bool_hyps.
  destruct (begin sink total) as [sink' ok]. split_if; [done|].
  assert (Ht : 0 <= total) by (by eapply wait_announce_range).
  pose proof (n_chunks_bound total ltac:(lia)). apply air_fetch_chunks; [done | lia | lia].
Qed.
End FetchAir.
End BulkAir.
