(* ===== verification/NetPair.v ===== *)
(** Over-the-air pairing as the network runtime runs it (firmware/src/radio/net/pairing.rs): the host's
    window and the joiner, over the sealed frames of NetCore; and that the host's loop is the handshake
    machine of NetHandshake. The entropy source, what is heard in every wait and what becomes of each
    transmission are arguments; a wait ends with the list of what it hears. *)
From S2P Require Import Prelude Bytes NetTxctr NetReplay NetWire NetPairing NetHandshake Radio Ccm RadioFrame NetCore NetAir Bulk.
#[local] Abbreviation PairedPeer := NetHandshake.PairedPeer.
#[local] Abbreviation heard_t := (result RadioError (list Z)).

(** [b"TOWER-JOIN-v2\0\0\0"]. *)
Definition JOIN_FRAME_KEY : list Z := [84; 79; 87; 69; 82; 45; 74; 79; 73; 78; 45; 118; 50; 0; 0; 0].
Definition ACK_TURNAROUND : Z := 20.
Definition TX_TIMEOUT : Z := 120.
Definition JOIN_STEP_WINDOW : Z := 300.
Definition PEER_KEX_TIME : Z := 1500.
Definition HOST_HANDSHAKE_TIME : Z := 2 * (ACK_TURNAROUND + TX_TIMEOUT) + 2 * (JOIN_STEP_WINDOW + PEER_KEX_TIME).

(** The primitives of the handshake. *)
Class PairPrims := {
  sha256 : list Z -> list Z;
  hmac : list Z -> list Z -> list Z;
  hkdf : list Z -> list Z -> list Z -> Z -> list Z;
  x25519 : list Z -> list Z -> list Z;
  basepoint : list Z;
}.
Class PairPrimLaws `{!PairPrims} := prim_laws : PrimLaws sha256 hmac hkdf x25519 basepoint.

Record PairingHost := { ph_eph : option Ephemeral; ph_trng_failed : bool; ph_window_end : Z }.
(** One turn of the host's loop: the entropy it can draw, what it hears in its listening slice, the
    window left then, the two answers' transmissions and what it hears in the two waits after them. *)
Record HostTurn := {
  ht_entropy : option (list Z); ht_heard : heard_t; ht_left : Z;
  ht_resp : TxEnv; ht_nonces : list heard_t; ht_reveal : TxEnv; ht_confirms : list heard_t;
}.
(** One attempt of the joiner. *)
Record JoinTurn := {
  jt_entropy : option (list Z); jt_req : TxEnv; jt_resps : list heard_t;
  jt_nonce : TxEnv; jt_reveals : list heard_t; jt_confirm : TxEnv;
}.
Definition pair_header (ty : RadioFrame.FrameType) (from to c : Z) : Header :=
  {| frame_type := ty; flags := 0; src := from; dest := to; RadioFrame.counter := c; bulk_index := None |}.

Section Pairing.
Context {W : Type} `{NS : !NetStore W} `{Haes : !AesBlock} `{PP : !PairPrims}.
#[local] Abbreviation net := (Net W).

Definition trng_ephemeral (entropy : option (list Z)) : option Ephemeral := option_map (from_entropy sha256 x25519 basepoint) entropy.
Definition handshake (own : Ephemeral) (peer peer_nonce : list Z) (role : Role) (node_addr gw_addr : Z) : option Session :=
  session sha256 hmac hkdf x25519 own (patch (zeros PUBLIC_LEN) 0 peer) (patch (zeros HS_NONCE_LEN) 0 peer_nonce) role node_addr gw_addr.
Definition reveal_opens (commit n_gw e_node e_gw : list Z) (node_addr gw_addr : Z) : bool :=
  commitment_matches hmac commit (patch (zeros HS_NONCE_LEN) 0 n_gw) e_node e_gw node_addr gw_addr.
Definition tx_pair (n : net) (key : list Z) (hdr : Header) (payload : list Z) (env : TxEnv) : net * bool := tx_frame n key hdr payload env.

(** *** The host *)

Definition prepare (now window : Z) (entropy : option (list Z)) : option PairingHost :=
  if u64_max <? now + window then None
  else option_map (fun e => {| ph_eph := Some e; ph_trng_failed := false; ph_window_end := now + window |}) (trng_ephemeral entropy).
Definition ready (h : PairingHost) (entropy : option (list Z)) : PairingHost * bool :=
  match ph_eph h with
  | Some _ => (h, true)
  | None =>
      let e := trng_ephemeral entropy in
      ({| ph_eph := e; ph_trng_failed := ph_trng_failed h || (if e then false else true); ph_window_end := ph_window_end h |},
       if e then true else false)
  end.
Definition spent (h : PairingHost) : PairingHost := {| ph_eph := None; ph_trng_failed := ph_trng_failed h; ph_window_end := ph_window_end h |}.
(** Whether a JOIN_REQ is answered. *)
Definition answers (n : net) (hdr : Header) (payload : list Z) (window_left : Z) : bool :=
  negb (negb (zlen payload =? REQ_LEN) || negb (byte_at payload 0 =? VERSION))
  && join_request_admissible (src hdr) (addr n) (if peer_slot n (src hdr) then true else false)
  && handshake_fits window_left HOST_HANDSHAKE_TIME.
(** A wait: the first frame under [key] that is acceptable. *)
Fixpoint wait_frame {A} (key : list Z) (cap : Z) (accept : Header -> list Z -> option A) (heard : list heard_t) : option A :=
  match heard with
  | [] => None
  | x :: heard =>
      match rx_pair key x cap with
      | Some (hdr, payload) =>
          match accept hdr payload with Some a => Some a | None => wait_frame key cap accept heard end
      | None => wait_frame key cap accept heard
      end
  end.
Definition nonce_of (own peer_addr : Z) (hdr : Header) (p : list Z) : option (list Z) :=
  if bool_decide (frame_type hdr = RadioFrame.JoinNonce) && (src hdr =? peer_addr) && (dest hdr =? own) && (zlen p =? NONCE_MSG_LEN)
     && (byte_at p 0 =? VERSION) then Some (slice p 1 HS_NONCE_LEN) else None.
Definition confirmed_by (s : Session) (own peer_addr : Z) (hdr : Header) (p : list Z) : option unit :=
  if bool_decide (frame_type hdr = RadioFrame.JoinConfirm) && (src hdr =? peer_addr) && (dest hdr =? own) && (zlen p =? CONFIRM_LEN)
     && (byte_at p 0 =? VERSION) && verify s Node (slice p 1 NetHandshake.TAG_LEN) then Some tt else None.
Fixpoint open_loop (n : net) (host : PairingHost) (turns : list HostTurn) : net * PairingHost * option PairedPeer :=
  match turns with
  | [] => (n, host, None)
  | t :: turns =>
      let '(host, ok) := ready host (ht_entropy t) in
      if negb ok then (n, host, None)
      else
        match rx_pair JOIN_FRAME_KEY (ht_heard t) REQ_LEN with
        | None => open_loop n host turns
        | Some (hdr, payload) =>
            if negb (bool_decide (frame_type hdr = RadioFrame.JoinReq)) then open_loop n host turns
            else if negb (answers n hdr payload (ht_left t)) then open_loop n host turns
            else
              match ph_eph host with
              | None => open_loop n host turns
              | Some eph =>
                  let host := spent host in
                  let peer_addr := src hdr in
                  let e_node := slice payload 1 PUBLIC_LEN in
                  match net_alloc n (t_fate (ht_resp t)) with
                  | (n, None) => (n, host, None)
                  | (n, Some counter) =>
                      let '(n, sent) := tx_pair n JOIN_FRAME_KEY (pair_header RadioFrame.JoinResp (addr n) peer_addr counter)
                                          (join_resp hmac eph e_node peer_addr (addr n)) (ht_resp t) in
                      if negb sent then open_loop n host turns
                      else
                        match wait_frame JOIN_FRAME_KEY NONCE_MSG_LEN (nonce_of (addr n) peer_addr) (ht_nonces t) with
                        | None => open_loop n host turns
                        | Some n_node =>
                            match handshake eph e_node n_node Gateway peer_addr (addr n) with
                            | None => open_loop n host turns
                            | Some s =>
                                match net_alloc n (t_fate (ht_reveal t)) with
                                | (n, None) => (n, host, None)
                                | (n, Some counter) =>
                                    let '(n, sent) := tx_pair n JOIN_FRAME_KEY (pair_header RadioFrame.JoinReveal (addr n) peer_addr counter)
                                                        ([VERSION] ++ e_nonce eph ++ session_tag s Gateway) (ht_reveal t) in
                                    if negb sent then open_loop n host turns
                                    else
                                      match wait_frame (link_key s) CONFIRM_LEN (confirmed_by s (addr n) peer_addr) (ht_confirms t) with
                                      | Some _ =>
                                          (n, host, Some {| NetHandshake.p_addr := peer_addr; NetHandshake.p_key := link_key s; p_sas := sas s |})
                                      | None => open_loop n host turns
                                      end
                                end
                            end
                        end
                  end
              end
        end
  end.
Definition open_pairing (n : net) (host : PairingHost) (turns : list HostTurn) : net * PairingHost * option PairedPeer :=
  if locked (txc (tx n)) then (n, host, None)
  else if negb (bool_decide (access n = Duty)) then (n, host, None)
  else open_loop n host turns.

(** *** The joiner *)

Definition resp_of (own : Z) (hdr : Header) (p : list Z) : option (Z * list Z) :=
  if bool_decide (frame_type hdr = RadioFrame.JoinResp) && (zlen p =? RESP_LEN) && (byte_at p 0 =? VERSION)
     && join_response_for (dest hdr) (src hdr) own then Some (src hdr, p) else None.
Definition revealed (eph : Ephemeral) (e_gw commit : list Z) (own gw_addr : Z) (hdr : Header) (p : list Z) : option Session :=
  if negb (bool_decide (frame_type hdr = RadioFrame.JoinReveal)) || negb (src hdr =? gw_addr) || negb (dest hdr =? own)
     || negb (zlen p =? REVEAL_LEN) || negb (byte_at p 0 =? VERSION) then None
  else
    let n_gw := slice p 1 HS_NONCE_LEN in
    if negb (reveal_opens commit n_gw (e_public eph) e_gw own gw_addr) then None
    else
      match handshake eph e_gw n_gw Node own gw_addr with
      | None => None
      | Some s => if verify s Gateway (slice p (1 + HS_NONCE_LEN) NetHandshake.TAG_LEN) then Some s else None
      end.
(** [unanswered]: the ephemeral of the requests no host has answered yet. *)
Fixpoint join_turns (n : net) (own : Z) (unanswered : option Ephemeral) (turns : list JoinTurn) : net * option PairedPeer :=
  match turns with
  | [] => (n, None)
  | t :: turns =>
      match (if unanswered then unanswered else trng_ephemeral (jt_entropy t)) with
      | None => (n, None)
      | Some eph =>
          match net_alloc n (t_fate (jt_req t)) with
          | (n, None) => (n, None)
          | (n, Some counter) =>
              let '(n, sent) := tx_pair n JOIN_FRAME_KEY (pair_header RadioFrame.JoinReq own 0 counter) ([VERSION] ++ e_public eph) (jt_req t) in
              if negb sent then join_turns n own (Some eph) turns
              else
                match wait_frame JOIN_FRAME_KEY RESP_LEN (resp_of own) (jt_resps t) with
                | None => join_turns n own (Some eph) turns
                | Some (gw_addr, resp) =>
                    let e_gw := slice resp 1 PUBLIC_LEN in
                    let commit := slice resp (1 + PUBLIC_LEN) COMMIT_LEN in
                    match net_alloc n (t_fate (jt_nonce t)) with
                    | (n, None) => (n, None)
                    | (n, Some counter) =>
                        let '(n, sent) := tx_pair n JOIN_FRAME_KEY (pair_header RadioFrame.JoinNonce own gw_addr counter)
                                            ([VERSION] ++ e_nonce eph) (jt_nonce t) in
                        if negb sent then join_turns n own None turns
                        else
                          match wait_frame JOIN_FRAME_KEY REVEAL_LEN (revealed eph e_gw commit own gw_addr) (jt_reveals t) with
                          | None => join_turns n own None turns
                          | Some s =>
                              match net_alloc n (t_fate (jt_confirm t)) with
                              | (n, None) => (n, None)
                              | (n, Some counter) =>
                                  let '(n, sent) := tx_pair n (link_key s) (pair_header RadioFrame.JoinConfirm own gw_addr counter)
                                                      ([VERSION] ++ session_tag s Node) (jt_confirm t) in
                                  if negb sent then join_turns n own None turns
                                  else (n, Some {| NetHandshake.p_addr := gw_addr; NetHandshake.p_key := link_key s; p_sas := sas s |})
                              end
                          end
                    end
                end
          end
      end
  end.
Definition join (n : net) (own : Z) (turns : list JoinTurn) : net * option PairedPeer :=
  if locked (txc (tx n)) then (n, None)
  else if is_reserved_addr own then (n, None)
  else if negb (bool_decide (access n = Duty)) then (n, None)
  else join_turns n own None turns.

(** ** Every frame of a pairing is sealed under a counter of its own *)

Lemma air_pair_frame n o n1 c key ty from to payload env : AirInv n -> net_alloc n o = (n1, Some c) ->
  let n' := fst (tx_pair n1 key (pair_header ty from to c) payload env) in AirInv n' /\ addr n' = addr n.
Proof.
  intros HI E n'. destruct (air_alloc _ _ _ _ HI E) as (H1 & Ha & _ & Hm & _). rewrite <- Ha.
  destruct (air_tx_frame n1 key (pair_header ty from to c) payload env H1) as (H2 & H3 & _); [by apply Hm | by split].
Qed.
Lemma air_open_loop turns : forall n host, AirInv n -> AirInv (fst (fst (open_loop n host turns))).
Proof.
  induction turns as [|t turns IH]; intros n host HI; cbn [open_loop]; [done|]. destruct (ready _ _) as [h ok]. split_if; [done|].
  destruct (rx_pair _ _ _) as [[hdr payload]|]; [|by apply IH]. do 2 (split_if; [by apply IH|]). destruct (ph_eph h) as [eph|]; [|by apply IH].
  cbv zeta. destruct (net_alloc n _) as [n1 [c|]] eqn:E; [|by eapply air_alloc_None].
  match goal with |- context [tx_pair n1 ?k (pair_header ?ty ?from ?to c) ?p ?e] =>
    destruct (air_pair_frame n _ n1 c k ty from to p e HI E) as [H2 _]; destruct (tx_pair n1 k (pair_header ty from to c) p e) as [n2 sent] end.
  split_if; [by apply IH|]. destruct (wait_frame _ _ _ _) as [nn|]; [|by apply IH]. destruct (handshake _ _ _ _ _ _) as [s|]; [|by apply IH].
  destruct (net_alloc n2 _) as [n3 [c2|]] eqn:E2; [|by eapply air_alloc_None].
  match goal with |- context [tx_pair n3 ?k (pair_header ?ty ?from ?to c2) ?p ?e] =>
    destruct (air_pair_frame n2 _ n3 c2 k ty from to p e H2 E2) as [H4 _]; destruct (tx_pair n3 k (pair_header ty from to c2) p e) as [n4 sent2] end.
  split_if; [by apply IH|]. destruct (wait_frame _ _ _ _); [done | by apply IH].
Qed.
Lemma air_open_pairing n host turns : AirInv n -> AirInv (fst (fst (open_pairing n host turns))).
Proof. intros HI. unfold open_pairing. do 2 (split_if; [done|]). by apply air_open_loop. Qed.
Lemma air_join_turns turns : forall n own un, AirInv n -> AirInv (fst (join_turns n own un turns)).
Proof.
  induction turns as [|t turns IH]; intros n own un HI; cbn [join_turns]; [done|]. destruct (if un then _ else _) as [eph|]; [|done].
  destruct (net_alloc n _) as [n1 [c|]] eqn:E; [|by eapply air_alloc_None].
  match goal with |- context [tx_pair n1 ?k (pair_header ?ty ?from ?to c) ?p ?e] =>
    destruct (air_pair_frame n _ n1 c k ty from to p e HI E) as [H2 _]; destruct (tx_pair n1 k (pair_header ty from to c) p e) as [n2 sent] end.
  split_if; [by apply IH|]. destruct (wait_frame _ _ _ _) as [[gw resp]|]; [|by apply IH]. cbv zeta.
  destruct (net_alloc n2 _) as [n3 [c2|]] eqn:E2; [|by eapply air_alloc_None].
  match goal with |- context [tx_pair n3 ?k (pair_header ?ty ?from ?to c2) ?p ?e] =>
    destruct (air_pair_frame n2 _ n3 c2 k ty from to p e H2 E2) as [H4 _]; destruct (tx_pair n3 k (pair_header ty from to c2) p e) as [n4 sent2] end.
  split_if; [by apply IH|]. destruct (wait_frame _ _ _ _) as [s|]; [|by apply IH].
  destruct (net_alloc n4 _) as [n5 [c3|]] eqn:E3; [|by eapply air_alloc_None].
  match goal with |- context [tx_pair n5 ?k (pair_header ?ty ?from ?to c3) ?p ?e] =>
    destruct (air_pair_frame n4 _ n5 c3 k ty from to p e H4 E3) as [H6 _]; destruct (tx_pair n5 k (pair_header ty from to c3) p e) as [n6 sent3] end.
  split_if; [by apply IH | done].
Qed.
Lemma air_pair_join n own turns : AirInv n -> AirInv (fst (join n own turns)).
Proof. intros HI. unfold join. do 3 (split_if; [done|]). by apply air_join_turns. Qed.

(** ** The host's loop is the handshake machine *)

Definition frame_kind (t : RadioFrame.FrameType) : option NetHandshake.FrameType :=
  match t with
  | RadioFrame.JoinReq => Some NetHandshake.JoinReq | RadioFrame.JoinResp => Some NetHandshake.JoinResp
  | RadioFrame.JoinNonce => Some NetHandshake.JoinNonce | RadioFrame.JoinReveal => Some NetHandshake.JoinReveal
  | RadioFrame.JoinConfirm => Some NetHandshake.JoinConfirm | _ => None
  end.
(** What the machine sees of a reception under the framing key ([None]) or a link key. *)
Definition seen (k : option (list Z)) (cap : Z) (x : heard_t) : option Frame :=
  match rx_pair (default JOIN_FRAME_KEY k) x cap with
  | Some (hdr, p) =>
      option_map (fun ty => {| f_type := ty; f_src := src hdr; f_dest := dest hdr; f_key := k; f_pl := p |}) (frame_kind (frame_type hdr))
  | None => None
  end.
(** What the machine sent, as it went on the air. *)
Definition sent_as (e : Aired) (f : Frame) : Prop :=
  a_key e = JOIN_FRAME_KEY /\ f_key f = None /\ frame_kind (frame_type (a_header e)) = Some (f_type f) /\
  src (a_header e) = f_src f /\ dest (a_header e) = f_dest f /\ a_payload e = f_pl f.
Definition registered_in (n : net) (a : Z) : bool := if peer_slot n a then true else false.
(** A run of the machine without time-outs: a frame heard with the window left then, each answer sent. *)
Fixpoint machine (own : Z) (registered : Z -> bool) (h : Host) (evs : list (Z * Frame)) : Host * list Frame :=
  match evs with
  | [] => (h, [])
  | (window, f) :: evs =>
      let '(h, o) := host_step sha256 hmac hkdf x25519 own registered window HOST_HANDSHAKE_TIME true h f in
      let '(h, os) := machine own registered h evs in
      (h, match o with Some f => [f] | None => [] end ++ os)
  end.
(** The three frames the machine takes in a turn: the request heard in its listening slice, the nonce in
    the wait that follows the response, the confirmation, under the link key, in the wait that follows the reveal. *)
Definition taken_in (t : HostTurn) (key : list Z) (evs : list (Z * Frame)) : Prop :=
  exists req nonce confirm, evs = [(ht_left t, req); (0, nonce); (0, confirm)] /\
    seen None REQ_LEN (ht_heard t) = Some req /\
    (exists x, In x (ht_nonces t) /\ seen None NONCE_MSG_LEN x = Some nonce) /\
    (exists x, In x (ht_confirms t) /\ seen (Some key) CONFIRM_LEN x = Some confirm).
(** A turn that answers what it hears. *)
Definition answered_in (n : net) (t : HostTurn) : bool :=
  match rx_pair JOIN_FRAME_KEY (ht_heard t) REQ_LEN with
  | Some (hdr, payload) => bool_decide (frame_type hdr = RadioFrame.JoinReq) && answers n hdr payload (ht_left t)
  | None => false
  end.
(** The ephemeral is unspent when the turn after [earlier] begins to listen: it is the window's first
    and no turn has answered a request yet, or it is drawn in some turn and none has answered since. *)
Definition unspent (n : net) (host : PairingHost) (earlier : list HostTurn) (t : HostTurn) (eph : Ephemeral) : Prop :=
  (ph_eph host = Some eph /\ Forall (fun u => answered_in n u = false) earlier) \/
  (exists entropy, ht_entropy t = Some entropy /\ eph = from_entropy sha256 x25519 basepoint entropy) \/
  (exists before u since entropy, earlier = before ++ u :: since /\ ht_entropy u = Some entropy /\
     eph = from_entropy sha256 x25519 basepoint entropy /\ Forall (fun u => answered_in n u = false) (u :: since)).
(** The frames of a wait up to the one it takes, for a machine that ignores the others. *)
Lemma wait_seen {A} key cap (accept : Header -> list Z -> option A) heard a : wait_frame key cap accept heard = Some a ->
  exists x hdr p, In x heard /\ rx_pair key x cap = Some (hdr, p) /\ accept hdr p = Some a.
Proof.
  induction heard as [|x heard IH]; cbn [wait_frame]; [done|]. destruct (rx_pair key x cap) as [[hdr p]|] eqn:E.
  - destruct (accept hdr p) eqn:Ea; intros H; [injection H as ->; exists x, hdr, p; split; [by left | by split] | destruct (IH H) as (y & ? & ? & ? & ?)];
      eexists _, _, _; split; [by right | done].
  - intros H. destruct (IH H) as (y & ? & ? & ? & ?). eexists _, _, _; split; [by right | done].
Qed.
Lemma tx_pair_sent (n : net) key hdr p env n' : tx_pair n key hdr p env = (n', true) ->
  exists e, air n' = e :: air n /\ a_key e = key /\ a_header e = hdr /\ a_payload e = p.
Proof.
  intros H. unfold tx_pair in H. destruct (tx_frame_cases n key hdr p env) as (n1 & (_ & Ha & _) & [E|E]); rewrite E in H; [done|].
  injection H as <- _. eexists. split; [simpl; by rewrite Ha | done].
Qed.
Lemma tx_pair_same (n : net) key hdr p env : addr (fst (tx_pair n key hdr p env)) = addr n /\ peers (fst (tx_pair n key hdr p env)) = peers n.
Proof.
  unfold tx_pair, tx_frame, try_tx. destruct (seal_frame _ _ _ _) as [b [len|]]; [|done]. destruct (try_consume _ _) as [g ok]. by destruct ok.
Qed.
Lemma alloc_same (n : net) o n' c : net_alloc n o = (n', c) -> addr n' = addr n /\ peers n' = peers n /\ air n' = air n.
Proof. unfold net_alloc. destruct (alloc_counter _ _) as [d c']. by intros [= <- _]. Qed.
Lemma patch_full (d : list Z) n : zlen d = n -> patch (zeros n) 0 d = d.
Proof.
  intros <-. pose proof (zlen_nonneg d). transitivity (slice (patch (zeros (zlen d)) 0 d) 0 (zlen d)).
  - rewrite <- (slice_all (patch (zeros (zlen d)) 0 d)) at 1. f_equal. rewrite zlen_patch; rewrite ?zlen_zeros; lia.
  - apply slice_patch_same; rewrite ?zlen_zeros; lia.
Qed.

Definition paired_by (n : net) (host : PairingHost) (turns : list HostTurn) (n' : net) (p : PairedPeer) : Prop :=
  exists earlier t later eph evs outs e1 e2 before, turns = earlier ++ t :: later /\ unspent n host earlier t eph /\
    machine (addr n) (registered_in n) (HListen eph) evs = (HPaired p, outs) /\
    join_request_admissible (NetHandshake.p_addr p) (addr n) (registered_in n (NetHandshake.p_addr p)) = true /\
    HOST_HANDSHAKE_TIME <= ht_left t /\ taken_in t (NetHandshake.p_key p) evs /\
    air n' = e2 :: e1 :: before /\ Forall2 sent_as [e1; e2] outs.
Lemma answers_spec (n : net) hdr payload wl : answers n hdr payload wl = true ->
  zlen payload = REQ_LEN /\ byte_at payload 0 = VERSION /\ join_request_admissible (src hdr) (addr n) (registered_in n (src hdr)) = true /\
  handshake_fits wl HOST_HANDSHAKE_TIME = true.
Proof. unfold answers. intros H. apply andb_true_iff in H as [H Hf]. apply andb_true_iff in H as [H Ha]. bool_hyps. done. Qed.
(** One turn that pairs, as three steps of the machine. *)
Lemma machine_pairs own registered wl eph a d pl nn s cf : zlen pl = REQ_LEN -> byte_at pl 0 = VERSION ->
  join_request_admissible a own (registered a) = true -> handshake_fits wl HOST_HANDSHAKE_TIME = true ->
  zlen nn = NONCE_MSG_LEN -> byte_at nn 0 = VERSION -> handshake eph (slice pl 1 PUBLIC_LEN) (slice nn 1 HS_NONCE_LEN) Gateway a own = Some s ->
  zlen cf = CONFIRM_LEN -> byte_at cf 0 = VERSION -> verify s Node (slice cf 1 NetHandshake.TAG_LEN) = true ->
  machine own registered (HListen eph)
    [(wl, {| f_type := NetHandshake.JoinReq; f_src := a; f_dest := d; f_key := None; f_pl := pl |});
     (0, {| f_type := NetHandshake.JoinNonce; f_src := a; f_dest := own; f_key := None; f_pl := nn |});
     (0, {| f_type := NetHandshake.JoinConfirm; f_src := a; f_dest := own; f_key := Some (link_key s); f_pl := cf |})] =
  (HPaired {| NetHandshake.p_addr := a; NetHandshake.p_key := link_key s; p_sas := sas s |},
   [{| f_type := NetHandshake.JoinResp; f_src := own; f_dest := a; f_key := None; f_pl := join_resp hmac eph (slice pl 1 PUBLIC_LEN) a own |};
    {| f_type := NetHandshake.JoinReveal; f_src := own; f_dest := a; f_key := None; f_pl := [VERSION] ++ e_nonce eph ++ session_tag s Gateway |}]).
Proof.
  intros H1 H2 H3 H4 H5 H6 H7 H8 H9 H10. unfold handshake in H7.
  rewrite !patch_full in H7 by (apply zlen_slice; mlia).
  cbn [machine]. unfold host_step at 1. cbn [f_type f_src f_dest f_key f_pl ftype_eqb]. rewrite H1, H2, H3, H4, !Z.eqb_refl, bool_decide_eq_true_2 by done.
  cbn [negb orb]. unfold host_step at 1. cbn [f_type f_src f_dest f_key f_pl ftype_eqb]. rewrite H5, H6, H7, !Z.eqb_refl, bool_decide_eq_true_2 by done.
  cbn [negb andb]. unfold host_step. cbn [f_type f_src f_dest f_key f_pl ftype_eqb]. rewrite H8, H9, H10, !Z.eqb_refl, bool_decide_eq_true_2 by done. done.
Qed.

Lemma same_table n n2 : addr n2 = addr n -> peers n2 = peers n ->
  registered_in n2 = registered_in n /\ forall u, answered_in n2 u = answered_in n u.
Proof.
  intros Ha Hp. assert (H : forall a, peer_slot n2 a = peer_slot n a) by (intros a; unfold peer_slot; by rewrite Hp).
  split; [unfold registered_in, peer_slot; by rewrite Hp|].
  intros u. unfold answered_in, answers. destruct (rx_pair _ _ _) as [[hdr p]|]; [|done]. by rewrite Ha, H.
Qed.
(** The ephemeral the host holds after [ready]: its own, or drawn in this turn. *)
Definition eph_held (host : PairingHost) (t : HostTurn) (eph : Ephemeral) : Prop :=
  ph_eph host = Some eph \/ exists entropy, ht_entropy t = Some entropy /\ eph = from_entropy sha256 x25519 basepoint entropy.
Lemma ephemeral_unspent n host t eph : eph_held host t eph -> unspent n host [] t eph.
Proof. intros [H|H]; [left; by split | by right; left]. Qed.
Lemma paired_later n n2 host host2 t turns n' p : addr n2 = addr n -> peers n2 = peers n ->
  (forall eph, ph_eph host2 = Some eph -> eph_held host t eph /\ answered_in n t = false) ->
  paired_by n2 host2 turns n' p -> paired_by n host (t :: turns) n' p.
Proof.
  intros Ha Hp He (earlier & t1 & later & eph & evs & outs & e1 & e2 & before & -> & Hu & H3 & H3a & H4).
  destruct (same_table n n2 Ha Hp) as [Hr Hans].
  assert (HF : forall l, Forall (fun u => answered_in n2 u = false) l -> Forall (fun u => answered_in n u = false) l).
  { intros l Hl. eapply Forall_impl; [|exact Hl]. cbn. intros u <-. symmetry. apply Hans. }
  exists (t :: earlier), t1, later, eph, evs, outs, e1, e2, before. rewrite Ha, Hr in H3, H3a.
  split; [done|]. split; [|done]. destruct Hu as [[H1 H2]|[H1|(b & u & s & en & -> & H1 & H2 & H5)]].
  - destruct (He eph H1) as [[Hh|(en & Hh & Heq)] Hn].
    + left. split; [done|]. constructor; [done | by apply HF].
    + right; right. exists [], t, earlier, en. split_and!; try done. constructor; [done | by apply HF].
  - by right; left.
  - right; right. exists (t :: b), u, s, en. split_and!; try done. by apply HF.
Qed.
Lemma ready_draws host t host' ok : ready host (ht_entropy t) = (host', ok) -> forall eph, ph_eph host' = Some eph -> eph_held host t eph.
Proof.
  unfold ready, trng_ephemeral. destruct (ph_eph host) as [e|] eqn:E; [intros [= <- _]; by left; congruence|].
  intros [= <- _] eph. cbn [ph_eph]. destruct (ht_entropy t) as [en|] eqn:Et; [|done]. intros [= <-]. right. by exists en.
Qed.
Lemma seen_frame k cap x hdr p ty : rx_pair (default JOIN_FRAME_KEY k) x cap = Some (hdr, p) -> frame_kind (frame_type hdr) = Some ty ->
  seen k cap x = Some {| f_type := ty; f_src := src hdr; f_dest := dest hdr; f_key := k; f_pl := p |}.
Proof. intros H Ht. unfold seen. by rewrite H, Ht. Qed.

(** A turn whose waits took [nn] and a confirmation under the link key. *)
Lemma turn_pairs (n n2 n4 : net) host t turns eph hdr pl nn s n' rest e1 e2 : eph_held host t eph ->
  rx_pair JOIN_FRAME_KEY (ht_heard t) REQ_LEN = Some (hdr, pl) -> frame_type hdr = RadioFrame.JoinReq -> answers n hdr pl (ht_left t) = true ->
  addr n2 = addr n -> addr n4 = addr n ->
  wait_frame JOIN_FRAME_KEY NONCE_MSG_LEN (nonce_of (addr n2) (src hdr)) (ht_nonces t) = Some nn ->
  handshake eph (slice pl 1 PUBLIC_LEN) nn Gateway (src hdr) (addr n2) = Some s ->
  wait_frame (link_key s) CONFIRM_LEN (confirmed_by s (addr n4) (src hdr)) (ht_confirms t) <> None ->
  sent_as e1 {| f_type := NetHandshake.JoinResp; f_src := addr n; f_dest := src hdr; f_key := None;
                f_pl := join_resp hmac eph (slice pl 1 PUBLIC_LEN) (src hdr) (addr n) |} ->
  sent_as e2 {| f_type := NetHandshake.JoinReveal; f_src := addr n; f_dest := src hdr; f_key := None;
                f_pl := [VERSION] ++ e_nonce eph ++ session_tag s Gateway |} ->
  air n' = e2 :: e1 :: rest ->
  paired_by n host (t :: turns) n' {| NetHandshake.p_addr := src hdr; NetHandshake.p_key := link_key s; p_sas := sas s |}.
Proof.
  intros He Hrx Hty Han A2 A4 Hw Hh Hc S1 S2 Hair. apply answers_spec in Han as (L1 & L2 & L3 & L4). rewrite A2 in *. rewrite A4 in Hc.
  apply wait_seen in Hw as (x1 & h1 & p1 & Hx1 & Hr1 & Hn1). unfold nonce_of in Hn1. split_if_in Hn1; [|done]. injection Hn1 as <-. bool_hyps.
  destruct (wait_frame (link_key s) _ _ _) as [[]|] eqn:Hw2; [|done]. apply wait_seen in Hw2 as (x2 & h2 & p2 & Hx2 & Hr2 & Hn2).
  unfold confirmed_by in Hn2. split_if_in Hn2; [|done].
  eexists [], t, turns, eph, _, _, e1, e2, rest. split; [done|]. split; [by apply ephemeral_unspent|].
  split; [apply (machine_pairs (addr n) (registered_in n) (ht_left t) eph (src hdr) (dest hdr) pl p1 s p2); done|]. split; [done|].
  split; [by apply Z.leb_le|]. split; [|split; [done|]; constructor; [done|]; constructor; [done | constructor]].
  eexists _, _, _. split; [done|]. split_and!.
  - by apply (seen_frame None _ _ _ _ _ Hrx); rewrite Hty.
  - exists x1. split; [done|]. rewrite (seen_frame None _ _ _ _ NetHandshake.JoinNonce Hr1); [|by rewrite H]. congruence.
  - exists x2. split; [done|]. cbn [NetHandshake.p_key]. rewrite (seen_frame (Some (link_key s)) _ _ _ _ NetHandshake.JoinConfirm Hr2); [|by rewrite H4]. congruence.
Qed.
Lemma open_loop_pairs turns : forall n host n' host' p, open_loop n host turns = (n', host', Some p) -> paired_by n host turns n' p.
Proof.
  induction turns as [|t turns IH]; intros n host n' host' p H; [done|]. cbn [open_loop] in H.
  destruct (ready host (ht_entropy t)) as [h ok] eqn:Er. destruct ok; [|done]. cbn [negb] in H. pose proof (ready_draws host t h true Er) as Hd.
  assert (Hpass : answered_in n t = false -> open_loop n h turns = (n', host', Some p) -> paired_by n host (t :: turns) n' p).
  { intros Hn Hl. apply IH in Hl. eapply paired_later; [done | done | | exact Hl]. intros eph He. split; [by apply Hd | exact Hn]. }
  unfold answered_in in Hpass. destruct (rx_pair _ _ _) as [[hdr pl]|] eqn:Erx; [|by apply Hpass].
  case_bool_decide as Hty; cbn [negb andb] in H, Hpass; [|by apply Hpass].
  destruct (answers n hdr pl (ht_left t)) eqn:Ean; cbn [negb] in H; [|by apply Hpass]. clear Hpass.
  destruct (ph_eph h) as [eph|] eqn:Eeph; [|apply IH in H; eapply paired_later; [done | done | | exact H]; by rewrite Eeph].
  specialize (Hd eph eq_refl). cbv zeta in H. destruct (net_alloc n _) as [n1 [c|]] eqn:Ea1; [|done]. destruct (alloc_same _ _ _ _ Ea1) as (A1 & P1 & _).
  destruct (tx_pair n1 _ _ _ _) as [n2 sent] eqn:Et1 in H. pose proof (tx_pair_same n1 JOIN_FRAME_KEY (pair_header RadioFrame.JoinResp (addr n1) (src hdr) c)
    (join_resp hmac eph (slice pl 1 PUBLIC_LEN) (src hdr) (addr n1)) (ht_resp t)) as [A2 P2]. rewrite Et1 in A2, P2. cbn [fst] in A2, P2.
  assert (Hlater : open_loop n2 (spent h) turns = (n', host', Some p) -> paired_by n host (t :: turns) n' p).
  { intros Hl. apply IH in Hl. eapply paired_later; [..|exact Hl]; [congruence | congruence | done]. }
  destruct sent; cbn [negb] in H; [|by apply Hlater].
  destruct (wait_frame _ _ _ _) as [nn|] eqn:Ew; [|by apply Hlater]. destruct (handshake _ _ _ _ _ _) as [s|] eqn:Eh; [|by apply Hlater].
  destruct (net_alloc n2 _) as [n3 [c2|]] eqn:Ea2; [|done]. destruct (alloc_same _ _ _ _ Ea2) as (A3 & P3 & R3).
  destruct (tx_pair n3 _ _ _ _) as [n4 sent2] eqn:Et2 in H. pose proof (tx_pair_same n3 JOIN_FRAME_KEY (pair_header RadioFrame.JoinReveal (addr n3) (src hdr) c2)
    ([VERSION] ++ e_nonce eph ++ session_tag s Gateway) (ht_reveal t)) as [A4 P4]. rewrite Et2 in A4, P4. cbn [fst] in A4, P4.
  assert (Hlater2 : open_loop n4 (spent h) turns = (n', host', Some p) -> paired_by n host (t :: turns) n' p).
  { intros Hl. apply IH in Hl. eapply paired_later; [..|exact Hl]; [congruence | congruence | done]. }
  destruct sent2; cbn [negb] in H; [|by apply Hlater2]. destruct (wait_frame (link_key s) _ _ _) eqn:Ew2; [|by apply Hlater2].
  injection H as <- _ <-. apply tx_pair_sent in Et1 as (e1 & R2 & K1 & K2 & K3). apply tx_pair_sent in Et2 as (e2 & R4 & K4 & K5 & K6).
  apply (turn_pairs n n2 n4 host t turns eph hdr pl nn s n4 (air n1) e1 e2); try done; [congruence | congruence | by rewrite Ew2 | | | congruence].
  - unfold sent_as. rewrite K1, K2, K3. by rewrite A1.
  - unfold sent_as. rewrite K4, K5, K6. split_and!; try done. simpl. congruence.
Qed.

(** C33. The host's pairing window is the handshake. Whatever is heard in it - noise, foreign frames, replays,
    other joiners - whenever the window pairs a node, some one of its turns is a run of the handshake
    machine from an unspent ephemeral: the window's first one, when no earlier turn answered a request, or one
    drawn in a turn since which none did. The turn answered a JOIN_REQ from an address that is neither
    reserved nor its own nor registered, with a whole handshake's time of the window left; the nonce the
    machine took was heard in the wait after that answer, the confirmation in the wait after its reveal
    and under the new link key; the machine ends paired with exactly the reported address, link key and
    SAS, and the last two frames on the air are the machine's two answers. *)
Theorem open_pairing_is_handshake (n : net) host turns n' host' p :
  open_pairing n host turns = (n', host', Some p) -> paired_by n host turns n' p.
Proof. unfold open_pairing. do 2 (split_if; [done|]). apply open_loop_pairs. Qed.
End Pairing.

Module Demo.
Import Ccm.ToyCipher.
#[export] Instance toy_prims : PairPrims :=
  {| sha256 := Toy.sha256; hmac := Toy.hmac; hkdf := Toy.hkdf; x25519 := Toy.x25519; basepoint := Toy.basepoint |}.
#[export] Instance toy_prim_laws : PairPrimLaws := Toy.laws.
Definition Store : Type := list (Z * list Z).
#[export] Instance ram_store : NetStore Store := {
  nv_get w local cap := option_map (fun e => (zlen (snd e), slice (snd e) 0 cap)) (List.find (fun e => fst e =? local) w);
  nv_set w local v := ((local, v) :: w, true);
}.
Definition HOST : Z := 9.
Definition JOINER : Z := 5.
Definition host0 : Net Store := net_new {| c_addr := HOST; c_key := zeros 16; c_band := Eu868; c_keys_stored := false |} ([] : Store) virgin Landed [].
Definition air_ok : TxEnv := {| t_elapsed := 60000; t_fate := Landed; t_result := Ok tt |}.
Definition pair_frame (key : list Z) (ty : RadioFrame.FrameType) (to c : Z) (p : list Z) : heard_t := Ok (frame_bytes key (pair_header ty JOINER to c) p).
Definition agreed : Session := default {| link_key := []; sas := 0; tag_gw := []; tag_node := [] |} (handshake Toy.eh (e_public Toy.ej) (e_nonce Toy.ej) Gateway JOINER HOST).
(** A turn that hears a stranger first, then the joiner's three frames behind noise. *)
Definition good_turn : HostTurn := {|
  ht_entropy := Some (replicate 96 7); ht_heard := pair_frame JOIN_FRAME_KEY RadioFrame.JoinReq 0 1 ([VERSION] ++ e_public Toy.ej); ht_left := 60000;
  ht_resp := air_ok; ht_nonces := [Err CrcError; Ok [1; 2; 3]; pair_frame JOIN_FRAME_KEY RadioFrame.JoinNonce HOST 2 ([VERSION] ++ e_nonce Toy.ej)];
  ht_reveal := air_ok; ht_confirms := [Ok [4]; pair_frame (link_key agreed) RadioFrame.JoinConfirm HOST 3 ([VERSION] ++ session_tag agreed Node)] |}.
Definition empty_turn : HostTurn :=
  {| ht_entropy := None; ht_heard := Err CrcError; ht_left := 62000; ht_resp := air_ok; ht_nonces := []; ht_reveal := air_ok; ht_confirms := [] |}.
Definition window : PairingHost := {| ph_eph := Some Toy.eh; ph_trng_failed := false; ph_window_end := 70000 |}.
Definition run : Net Store * PairingHost * option PairedPeer := open_pairing host0 window [empty_turn; good_turn].
Definition peer : PairedPeer := {| NetHandshake.p_addr := JOINER; NetHandshake.p_key := link_key agreed; p_sas := sas agreed |}.
Lemma triple {A B C} (x : A * B * C) : x = (fst (fst x), snd (fst x), snd x).
Proof. by destruct x as [[a b] c]. Qed.
Lemma open_pairing_is_handshake_witness : snd run = Some peer /\ paired_by host0 window [empty_turn; good_turn] (fst (fst run)) peer.
Proof.
  assert (E : snd run = Some peer) by (vm_compute; reflexivity). split; [exact E|].
  refine (open_pairing_is_handshake host0 window [empty_turn; good_turn] (fst (fst run)) (snd (fst run)) peer _).
  rewrite <- E. unfold run. exact (triple (open_pairing host0 window [empty_turn; good_turn])).
Defined.
End Demo.
