(* ===== verification/NetLink.v ===== *)
(** What the network runtime of NetCore promises: no nonce is sealed twice over any history of
    operations and reboots, a frame is delivered exactly when it is a fresh DATA frame sealed for this
    device and never twice, and a confirmed exchange between two devices works. *)
From stdpp Require Import relations sorting.
From S2P Require Import Prelude Bytes NetTxctr NetReplay NetWire NetPairing NetEpoch Radio Ccm RadioFrame Fhss NetCore NetAir Bulk NetPair.
#[local] Abbreviation hcounter := RadioFrame.counter.

(** ** Histories *)

Section Air.
Context {W : Type} `{NS : !NetStore W} `{Haes : !AesBlock} `{Hlaws : !AesBlockLaws}.
#[local] Abbreviation net := (Net W).

(** What can happen to a device over its life: every operation but serving a bulk transfer, under any behaviour of the radio, the
    clock and the store, the application's switches, a reset into a new boot, the loss of the
    watermark record on a device that shows other evidence of prior use. Evidence of prior use, once
    there, is found by every later boot: [ns_boot] may read any store ([prior_network_use cfg w]), but
    not one in which all of it has gone. *)
Inductive op_step : net -> net -> Prop :=
| ns_send n dest data confirmed reps o env : op_step n (fst (send n dest data confirmed reps o env))
| ns_recv n heard rssi lqi env : op_step n (fst (recv n heard rssi lqi env))
| ns_join n own key tries : u32_ok own -> op_step n (fst (join_keyed n own key tries))
| ns_add n a key : op_step n (fst (add_peer n a key))
| ns_remove n a : op_step n (fst (remove_peer n a))
| ns_fetch {K} `{BulkSink K} n from (sink : K) announce fates env : Forall heard_ok announce ->
    op_step n (fst (fst (bulk_fetch_into n from sink announce fates env)))
| ns_pending n a b : op_step n (fst (set_pending n a b))
| ns_raise_peer n a s : op_step n (fst (raise_peer_floor n a s))
| ns_raise n f o : u32_ok f -> op_step n (fst (net_raise_floor n f o))
| ns_hop n f role cfg now : op_step n (fst (enable_fhss n f role cfg now))
| ns_master n f env : op_step n (fst (fst (fhss_master_tick n f env)))
| ns_hop_send n f dest data confirmed env : op_step n (fst (fst (fhss_send n f dest data confirmed env)))
| ns_hop_backoff n f env : op_step n (fst (fhss_retry_backoff n f env))
| ns_pairing `{!PairPrims} n host turns : op_step n (fst (fst (open_pairing n host turns)))
| ns_pair_join `{!PairPrims} n own turns : op_step n (fst (join n own turns))
| ns_config n lane period responder joins acc g : op_step n (set_config n lane period responder joins acc g)
| ns_boot n cfg w o : u32_ok (c_addr cfg) -> (prior_use (tx n) = true -> prior_network_use cfg w = true) ->
    op_step n (net_new cfg w (tx n) o (air n))
| ns_lose n : prior_use (tx n) = true ->
    op_step n (set_tx n (lost_record (tx n))).
(** The same with bulk transfers served. *)
Inductive nstep : net -> net -> Prop :=
| ns_op n n' : op_step n n' -> nstep n n'
| ns_serve {S} `{BulkSourceLaws S} n dest (source : S) o o' start turns : Forall (fun t => heard_ok (tn_heard t)) turns ->
    nstep n (fst (fst (bulk_serve_from n dest source o o' start turns))).
Definition first_boot (n : net) : Prop := exists cfg w o, u32_ok (c_addr cfg) /\ n = net_new cfg w virgin o [].

Lemma air_op n n' : op_step n n' -> AirInv n -> AirInv n'.
Proof.
  intros H HI. destruct H as [n dest data confirmed reps o env|n heard rssi lqi env|n own key tries Ho|n a key|n a
    |K SK n from sink announce fates env Ht|n a b|n a s|n f o Hf|n f role cfg now|n f env|n f dest data confirmed env|n f env|PP n host turns|PP n own turns|n lane period responder joins acc g|n cfg w o Hc Hp|n Hp].
  - by apply air_send.
  - by apply air_recv.
  - by apply air_join.
  - eapply quiet_air; [apply quiet_add_peer | done].
  - eapply quiet_air; [apply quiet_remove_peer | done].
  - by apply air_bulk_fetch.
  - eapply quiet_air; [apply quiet_set_pending | done].
  - eapply quiet_air; [apply quiet_raise_peer | done].
  - destruct HI as (HI & HA & HE). unfold net_raise_floor. pose proof (Inv_raise (tx n) f o HI Hf) as Hr.
    assert (Hair : on_air (fst (raise_tx_floor (tx n) f o)) = on_air (tx n)).
    { unfold raise_tx_floor. by destruct (raise_to _ _ _ _) as [[st t] ok]. }
    destruct (raise_tx_floor (tx n) f o) as [d ok]. cbn [fst] in *. split; [done|]. split; [done|].
    intros e He. destruct (HE e He) as (Hin & Hrest). split; [|exact Hrest]. simpl. by rewrite Hair.
  - eapply quiet_air; [apply quiet_enable | done].
  - by apply air_master_tick.
  - by apply air_fhss_send.
  - eapply quiet_air; [apply quiet_retry | done].
  - by apply air_open_pairing.
  - by apply air_pair_join.
  - by apply (quiet_air n).
  - destruct HI as (HI & HA & HE).
    set (d := {| txc := txc (tx n); stored := stored (tx n); prior_use := prior_network_use cfg w; on_air := on_air (tx n);
                 promised := promised (tx n) |}).
    assert (Hd : Inv d).
    { apply (Inv_quiet (tx n)); simpl; try done; [apply HI | apply HI |]. intros Hs Hpu.
      destruct (prior_use (tx n)) eqn:E; [rewrite Hp in Hpu by done; done|].
      split_and!; [done | done |]. by apply (inv_virgin _ HI). }
    assert (Hair : on_air (boot d o) = on_air (tx n)).
    { unfold boot. by destruct (resume _ _) as [t [w'|]]. }
    split; [by apply Inv_boot|]. split; [done|]. intros e He. destruct (HE e He) as (Hin & Hrest).
    split; [|exact Hrest]. change (tx (net_new cfg w (tx n) o (air n))) with (boot d o). by rewrite Hair.
  - destruct HI as (HI & HA & HE). split; [|by split]. apply (Inv_step (tx n)); [by constructor | done].
Qed.
Lemma air_step n n' : nstep n n' -> AirInv n -> AirInv n'.
Proof. intros [m m' H|S SO SL m dest source o o' start turns Ht] HI; [by eapply air_op | by apply air_bulk_serve]. Qed.
Lemma air_first n : first_boot n -> AirInv n.
Proof.
  intros (cfg & w & o & Hc & ->). split; [|split; [done|]; intros e []].
  apply Inv_boot. destruct Inv_virgin_dev as [H1 H2 _ _ _].
  constructor; simpl; [constructor | constructor | discriminate | discriminate | done].
Qed.
Lemma air_reachable n0 n : first_boot n0 -> rtc nstep n0 n -> AirInv n.
Proof. intros Hf Hr. apply air_first in Hf. induction Hr as [|a b c Hab _ IH]; [done|]. by eapply IH, air_step. Qed.

(** C4. No nonce is ever sealed twice. Over any life of a device - sends with retransmissions, ACKs,
    re-ACKs, hop beacons, pairings and keyed joins on either side, bulk transfers served and fetched, table and configuration changes, failed writes, resets at any point (a
    radio error or a refused budget ends an operation wherever a power cut would), and the loss of the
    watermark record - any two frames it put on the air under one nonce are one and the same frame: the same key, header
    and plaintext, byte for byte. Two conditions on the store bound what a life may be: the record is
    lost only from a device that shows other evidence of prior use (a default key or another network
    record), and a boot finds such evidence if an earlier one did. A default-key device without other
    records that loses its watermark, or one given back an older watermark, is outside: it repeats
    counters ([NetTxctr.unseen_losses_reuse]). *)
Theorem nonces_never_reused n0 n e e' : first_boot n0 -> rtc nstep n0 n -> In e (air n) -> In e' (air n) ->
  header_nonce (a_header e) = header_nonce (a_header e') -> e = e'.
Proof.
  intros Hf Hr He He' Hn. destruct (air_reachable n0 n Hf Hr) as (_ & _ & HE).
  destruct (HE e He) as (_ & Hc & Hb & _). destruct (HE e' He') as (_ & Hc' & Hb' & Hsame').
  apply Hsame'; [done|]. split; [by apply (nonce_counter _ _ _ _ _ _ Hc Hc' Hn) | by apply (nonce_bulk _ _ _ _ _ _ Hb Hb' Hn)].
Qed.
End Air.

(** ** Delivery *)

Section Delivery.
Context {W : Type} `{NS : !NetStore W} `{Haes : !AesBlock} `{Hlaws : !AesBlockLaws}.
#[local] Abbreviation net := (Net W).

Definition floor_of (n : net) (a : Z) : Z := last_seen (lane_for n a).
(** A frame [n] must deliver: well formed, DATA, for us, sealed under the sender's key, and above
    everything accepted on the sender's lane. *)
Definition acceptable (n : net) (hdr : Header) (p buf : list Z) : Prop :=
  hdr_ok hdr /\ buf = frame_bytes (key_for n (src hdr)) hdr p /\ frame_type hdr = Data /\ dest hdr = addr n /\
  (registered n (src hdr) = true \/ default_lane_enabled n = true) /\
  hcounter hdr <> 0 /\ floor_of n (src hdr) < hcounter hdr.
Definition message (hdr : Header) (p : list Z) (rssi lqi : Z) : Received :=
  {| rv_src := src hdr; rv_counter := hcounter hdr; rv_rssi := rssi; rv_lqi := lqi;
     rv_confirmed := negb (Z.land (flags hdr) CONFIRMED =? 0); rv_data := p |}.

Lemma classify_Fresh l c : classify l c = Fresh <-> c <> 0 /\ last_seen l < c.
Proof. unfold classify. repeat split_if; split; try done; try lia. Qed.

(** [recv] on a frame that is to be delivered. *)
Lemma recv_acceptable n hdr p buf rssi lqi env : acceptable n hdr p buf ->
  recv n (Ok buf) rssi lqi env =
    (let n := lane_accept n (src hdr) (hcounter hdr) in
     if negb (Z.land (flags hdr) CONFIRMED =? 0) then send_ack n (src hdr) (hcounter hdr) rssi env else n,
     Some (message hdr p rssi lqi)).
Proof.
  intros (Hh & -> & Ht & Hd & Hreg & Hc). unfold recv. pose proof (parse_header hdr) as Hp. unfold frame_bytes at 1.
  rewrite Hp by done. rewrite Ht, Hd, Z.eqb_refl. change (bool_decide (Data = JoinReq)) with false. change (bool_decide (Data = Data)) with true. cbn [andb negb].
  replace (negb (registered n (src hdr)) && negb (default_lane_enabled n)) with false
    by (destruct Hreg as [E|E]; rewrite E; [done | by rewrite andb_false_r]).
  cbv zeta. rewrite open_frame_bytes, Ht by done. change (bool_decide (Data = Data)) with true. cbn [negb].
  apply classify_Fresh in Hc. rewrite Hc. f_equal. f_equal. unfold message. f_equal.
  replace (wire_len hdr + zlen p - wire_len hdr) with (zlen p) by lia. apply slice_field; [by rewrite zlen_header | done].
Qed.
(** Nothing else is delivered. *)
Lemma recv_delivered n heard rssi lqi env r :
  (forall buf, heard = Ok buf -> bytes_ok buf) -> snd (recv n heard rssi lqi env) = Some r ->
  exists buf hdr p, heard = Ok buf /\ acceptable n hdr p buf /\ r = message hdr p rssi lqi.
Proof.
  intros Hb. unfold recv. destruct heard as [buf|]; [|done]. specialize (Hb buf eq_refl).
  destruct (parse buf) as [[peek l]|] eqn:Ep; [|done]. split_if.
  { destruct (keyed_responder n); [|done]. by destruct (keyed_answer _ _ _) as [n1 [e|]]. }
  clear Hif. split_if; [done|]. split_if; [done|]. split_if; [done|]. cbv zeta.
  destruct (open_frame _ buf) as [b [[h [lo hi]]|]] eqn:Eo; [|done].
  apply open_frame_Ok in Eo as (Hh & Hp & -> & -> & Hbuf); [|done]. rewrite Hp in Ep. injection Ep as <- <-.
  split_if; [done|]. bool_hyps. destruct (classify _ _) eqn:Ec; [| |done].
  - intros [= <-]. exists buf, h, (slice b (wire_len h) (zlen buf - TAG_LEN - wire_len h)).
    apply classify_Fresh in Ec. split; [done|]. split; [|done]. split_and!; try done; try apply Ec.
    match goal with H : negb (registered _ _) = false \/ _ |- _ => destruct H as [H|H]; apply negb_false_iff in H; [by left | by right] end.
  - destruct (negb (Z.land (flags h) CONFIRMED =? 0)); [|done]. by destruct (lane_reack n (src h)).
Qed.

(** *** The transmitting side leaves the lanes alone *)

Definition rx_same (n n' : net) : Prop :=
  peers n' = peers n /\ default_lane n' = default_lane n /\ default_key n' = default_key n /\ addr n' = addr n /\
  default_lane_enabled n' = default_lane_enabled n /\ lane_persist n' = lane_persist n /\ kv n' = kv n /\
  keyed_responder n' = keyed_responder n /\ keyed_join_enabled n' = keyed_join_enabled n /\ access n' = access n.
#[export] Instance rx_same_preorder : PreOrder rx_same.
Proof.
  split; [done|]. intros a b c (?&?&?&?&?&?&?&?&?&?) (?&?&?&?&?&?&?&?&?&?). unfold rx_same. split_and!; congruence.
Qed.
Lemma rx_try_tx n el toa : rx_same n (fst (try_tx n el toa)).
Proof. unfold try_tx. by destruct (try_consume _ _). Qed.
Lemma rx_alloc n o : rx_same n (fst (net_alloc n o)).
Proof. unfold net_alloc. by destruct (alloc_counter _ _). Qed.
Lemma rx_await n key wait heard : rx_same n (fst (await_ack n key wait heard)).
Proof.
  revert wait. induction heard as [|[buf|e] heard IH]; intros wait; cbn [await_ack]; [done| |].
  - destruct (open_frame key buf) as [b [[h [lo hi]]|e]]; [|apply IH]. cbv zeta. destruct (offer _ _ _ _ _) as [w v].
    case_bool_decide; [done | apply IH].
  - by destruct (_ || _).
Qed.
Lemma rx_send_loop reps attempt e dest confirmed env result n : rx_same n (fst (send_loop reps attempt e dest confirmed env result n)).
Proof.
  revert attempt result n. induction reps as [|reps IH]; intros attempt result n; cbn [send_loop]; [done|].
  set (n0 := match attempt with O => n | S _ => fst (backoff_ms n) end).
  assert (Hq0 : rx_same n n0) by (unfold n0; by destruct attempt).
  pose proof (rx_try_tx n0 (at_elapsed (env attempt)) (frame_toa_ms (zlen (a_frame e)))) as Hq.
  destruct (try_tx n0 _ _) as [n1 ok]. cbn [fst] in Hq. assert (Hq1 : rx_same n (radio_tx n1 e)) by (by etrans).
  destruct ok; cbn [negb]; [|by etrans]. destruct (at_tx (env attempt)) as [u|err].
  - destruct confirmed; cbn [negb]; [|exact Hq1].
    pose proof (rx_await (radio_tx n1 e) (key_for (radio_tx n1 e) dest) (ack_new (addr (radio_tx n1 e)) dest (hcounter (a_header e)))
      (at_window (env attempt))) as Hqa.
    destruct (await_ack _ _ _ _) as [n3 acked]. cbn [fst] in Hqa. destruct acked; [by etrans|]. etrans; [|apply IH]. by etrans.
  - case_bool_decide; [|exact Hq1]. by etrans.
Qed.
Lemma rx_send n dest data confirmed reps o env : rx_same n (fst (send n dest data confirmed reps o env)).
Proof.
  unfold send. set (n0 := set_marks n None _). assert (H0 : rx_same n n0) by done. repeat (split_if; [done|]).
  pose proof (rx_alloc n0 o) as Ha. destruct (net_alloc n0 o) as [n1 [c|]]; cbn [fst] in Ha; [|exact Ha]. cbv zeta.
  destruct (seal_frame _ _ _ _) as [buf [len|err]]; [|exact Ha]. etrans; [exact Ha | apply rx_send_loop].
Qed.
Lemma rx_send_ack n dest acked rssi env : rx_same n (send_ack n dest acked rssi env).
Proof.
  unfold send_ack. split_if; [done|]. cbv zeta. change (zlen (patch _ 5 _)) with 6.
  assert (Hq : rx_same n (fst (match access n with Duty => try_tx n (t_elapsed env) (frame_toa_ms (HDR_LEN + 6 + TAG_LEN)) | _ => (n, true) end)))
    by (destruct (access n); [apply rx_try_tx | done | done]).
  destruct (match access n with Duty => _ | _ => _ end) as [n1 ok]. cbn [fst] in Hq. split_if; [exact Hq|].
  pose proof (rx_alloc n1 (t_fate env)) as Ha. destruct (net_alloc n1 (t_fate env)) as [n2 [c|]]; cbn [fst] in Ha; [|by etrans].
  destruct (seal_frame _ _ _ _) as [buf [len|err]]; by etrans.
Qed.
Lemma rx_join n own key tries : rx_same n (fst (join_keyed n own key tries)).
Proof.
  unfold join_keyed. repeat (split_if; [done|]). clear. revert n. induction tries as [|t tries IH]; intros n; cbn [join_loop]; [done|].
  pose proof (rx_try_tx n (t_elapsed (j_env t)) (frame_toa_ms KEYED_FRAME_LEN)) as Hq. destruct (try_tx n _ _) as [n1 ok].
  cbn [fst] in Hq. split_if; [by etrans|]. pose proof (rx_alloc n1 (t_fate (j_env t))) as Ha.
  destruct (net_alloc n1 (t_fate (j_env t))) as [n2 [c|]]; cbn [fst] in Ha; [|by etrans]. cbv zeta.
  destruct (seal_frame _ _ _ _) as [buf [len|]]; [|by etrans].
  match goal with |- context [radio_tx n2 ?e] => assert (H3 : rx_same n (radio_tx n2 e)) by (do 2 (etrans; [eassumption|]); done) end.
  destruct (t_result (j_env t)); [|by etrans]. destruct (join_window _ _ _ _); [exact H3 | by etrans].
Qed.

(** *** The peer table *)

Lemma slot_of_Some ps a i : slot_of ps a = Some i -> exists p, ps !! i = Some (Some p) /\ p_addr p = a.
Proof.
  revert i. induction ps as [|[p|] ps IH]; intros i; cbn [slot_of]; [done| |].
  - destruct (p_addr p =? a) eqn:E; bool_hyps; [intros [= <-]; by exists p|].
    destruct (slot_of ps a) as [j|]; [|done]. intros [= <-]. by apply IH.
  - destruct (slot_of ps a) as [j|]; [|done]. intros [= <-]. by apply IH.
Qed.
Lemma slot_of_insert ps i p p' a : ps !! i = Some (Some p) -> p_addr p' = p_addr p -> slot_of (<[i:=Some p']> ps) a = slot_of ps a.
Proof.
  revert i. induction ps as [|q ps IH]; intros [|i] Hi Hp; try done; simpl in Hi.
  - injection Hi as ->. simpl. by rewrite Hp.
  - simpl. by rewrite (IH i).
Qed.
Lemma peer_at_Some (n : net) a i p : peer_at n a = Some (i, p) -> peer_slot n a = Some i /\ peers n !! i = Some (Some p) /\ p_addr p = a.
Proof.
  unfold peer_at. destruct (peer_slot n a) as [j|] eqn:E; [|done]. apply slot_of_Some in E as (q & Hq & Ha).
  rewrite Hq. by intros [= <- <-].
Qed.
Lemma peer_at_None (n : net) a : peer_at n a = None <-> peer_slot n a = None.
Proof.
  unfold peer_at. destruct (peer_slot n a) as [j|] eqn:E; [|done]. apply slot_of_Some in E as (q & -> & _). done.
Qed.
(** An entry replaced by one for the same address. *)
Lemma peer_at_update (n n' : net) i p p' a : peers n' = <[i:=Some p']> (peers n) -> peers n !! i = Some (Some p) -> p_addr p' = p_addr p ->
  peer_at n' a = match peer_at n a with Some (j, q) => Some (j, if decide (j = i) then p' else q) | None => None end.
Proof.
  intros Hn Hi Hp. unfold peer_at, peer_slot. rewrite Hn, (slot_of_insert _ _ p) by done.
  destruct (slot_of (peers n) a) as [j|] eqn:E; [|done]. apply slot_of_Some in E as (q & Hq & _). rewrite Hq.
  destruct (decide (j = i)) as [->|].
  - by rewrite list_lookup_insert_eq by (by eapply lookup_lt_Some).
  - by rewrite list_lookup_insert_ne, Hq by done.
Qed.
Lemma peer_slot_same (n n' : net) a : rx_same n n' -> peer_at n' a = peer_at n a.
Proof. intros (Hp & _). unfold peer_at, peer_slot. by rewrite Hp. Qed.
Lemma floor_same (n n' : net) a : rx_same n n' -> floor_of n' a = floor_of n a.
Proof. intros H. unfold floor_of, lane_for. rewrite (peer_slot_same n n') by done. by destruct H as (_ & -> & _). Qed.

(** Two senders share a lane: the same table slot, or none. *)
Definition lane_slot (n : net) (a : Z) : option nat := option_map fst (peer_at n a).
Lemma floor_accept n s c a :
  lane_slot (lane_accept n s c) a = lane_slot n a /\
  floor_of (lane_accept n s c) a = if decide (lane_slot n a = lane_slot n s) then c else floor_of n a.
Proof.
  unfold lane_accept, floor_of, lane_for, lane_slot. destruct (peer_at n s) as [[i p]|] eqn:Es.
  - destruct (accept_every _ _ _) as [l persist] eqn:El. apply peer_at_Some in Es as (_ & Hi & _).
    rewrite (peer_at_update n _ i p (with_lane p l)) by done.
    assert (Hl : last_seen l = c) by (unfold accept_every in El; by injection El as <- _).
    destruct (peer_at n a) as [[j q]|]; cbn [option_map fst]; [|by rewrite decide_False by done].
    split; [done|]. destruct (decide (j = i)) as [->|].
    + by rewrite decide_True by done.
    + by rewrite decide_False by congruence.
  - destruct (accept_every _ _ _) as [l persist] eqn:El.
    assert (Hl : last_seen l = c) by (unfold accept_every in El; by injection El as <- _).
    assert (Hp : forall w, peer_at (set_rx n (peers n) l w) a = peer_at n a) by done. rewrite Hp.
    destruct (peer_at n a) as [[j q]|]; cbn [option_map fst]; [by rewrite decide_False by done|]. by rewrite decide_True by done.
Qed.
Lemma floor_reack n s a :
  lane_slot (fst (lane_reack n s)) a = lane_slot n a /\ floor_of (fst (lane_reack n s)) a = floor_of n a.
Proof.
  unfold lane_reack, floor_of, lane_for, lane_slot. destruct (peer_at n s) as [[i p]|] eqn:Es.
  - pose proof (reack_keeps (p_lane p)) as (Hk & _). destruct (reack (p_lane p)) as [l ok]. cbn [fst] in *.
    apply peer_at_Some in Es as (_ & Hi & _). rewrite (peer_at_update n _ i p (with_lane p l)) by done.
    destruct (peer_at n a) as [[j q]|] eqn:Ea; [|done]. split; [done|]. destruct (decide (j = i)) as [->|]; [|done].
    apply peer_at_Some in Ea as (_ & Hj & _). rewrite Hi in Hj. injection Hj as ->. done.
  - pose proof (reack_keeps (default_lane n)) as (Hk & _). destruct (reack (default_lane n)) as [l ok]. cbn [fst] in *.
    assert (Hp : peer_at (set_rx n (peers n) l (kv n)) a = peer_at n a) by done. rewrite Hp. by destruct (peer_at n a) as [[j q]|].
Qed.
Lemma floor_lane (n : net) a s : lane_slot n a = lane_slot n s -> floor_of n a = floor_of n s.
Proof.
  unfold lane_slot, floor_of, lane_for. destruct (peer_at n a) as [[i p]|] eqn:Ea, (peer_at n s) as [[j q]|] eqn:Es; try done.
  intros [= ->]. apply peer_at_Some in Ea as (_ & Ha & _). apply peer_at_Some in Es as (_ & Hs & _). congruence.
Qed.
Lemma slot_same (n n' : net) a : rx_same n n' -> lane_slot n' a = lane_slot n a.
Proof. intros H. unfold lane_slot. by rewrite (peer_slot_same n n'). Qed.

(** ** Sessions: what happens between changes of the peer table *)

Inductive SessionOp :=
| OpRecv (heard : result RadioError (list Z)) (rssi lqi : Z) (env : TxEnv)
| OpSend (dest : Z) (data : list Z) (confirmed : bool) (reps : Z) (o : fate) (env : nat -> Attempt)
| OpJoin (own : Z) (key : list Z) (tries : list JoinTry)
| OpPending (a : Z) (pending : bool)
| OpRaisePeer (a seen : Z).
Definition op_ok (op : SessionOp) : Prop := match op with OpRecv (Ok buf) _ _ _ => bytes_ok buf | _ => True end.
Definition run_op (n : net) (op : SessionOp) : net * option Received :=
  match op with
  | OpRecv heard rssi lqi env => recv n heard rssi lqi env
  | OpSend dest data confirmed reps o env => (fst (send n dest data confirmed reps o env), None)
  | OpJoin own key tries => (fst (join_keyed n own key tries), None)
  | OpPending a b => (fst (set_pending n a b), None)
  | OpRaisePeer a s => (fst (raise_peer_floor n a s), None)
  end.
Fixpoint session (n : net) (ops : list SessionOp) : net * list Received :=
  match ops with
  | [] => (n, [])
  | op :: ops =>
      let '(n, d) := run_op n op in
      let '(n, ds) := session n ops in
      (n, match d with Some r => r :: ds | None => ds end)
  end.

(** Lanes keep their slots and never go down. *)
Definition lanes_le (n n' : net) : Prop := forall a, lane_slot n' a = lane_slot n a /\ floor_of n a <= floor_of n' a.
#[export] Instance lanes_le_preorder : PreOrder lanes_le.
Proof.
  split; [by intros n a|]. intros a b c H1 H2 x. destruct (H1 x), (H2 x). split; [congruence | lia].
Qed.
Lemma lanes_rx n n' : rx_same n n' -> lanes_le n n'.
Proof. intros H a. rewrite (slot_same n n') by done. split; [done|]. by rewrite (floor_same n n'). Qed.
Lemma lanes_accept n s c : floor_of n s < c -> lanes_le n (lane_accept n s c).
Proof.
  intros Hc a. destruct (floor_accept n s c a) as [-> ->]. split; [done|].
  destruct (decide _) as [E|]; [|done]. rewrite (floor_lane n a s E). lia.
Qed.
Lemma lanes_update (n : net) i p p' w : peers n !! i = Some (Some p) -> p_addr p' = p_addr p -> last_seen (p_lane p) <= last_seen (p_lane p') ->
  lanes_le n (set_rx n (<[i := Some p']> (peers n)) (default_lane n) w).
Proof.
  intros Hi Hp Hl a. unfold lane_slot, floor_of, lane_for. rewrite (peer_at_update n _ i p p') by done.
  destruct (peer_at n a) as [[j q]|] eqn:Ea; [|done]. split; [done|]. destruct (decide (j = i)) as [->|]; [|done].
  apply peer_at_Some in Ea as (_ & Hj & _). rewrite Hi in Hj. by injection Hj as <-.
Qed.
Lemma lanes_keyed n rx env : lanes_le n (fst (keyed_answer n rx env)).
Proof.
  unfold keyed_answer. repeat (split_if; [done|]). destruct (parse rx) as [[peek l]|]; [|done]. cbv zeta.
  split_if; [done|]. destruct (open_frame _ rx) as [b [[h [lo hi]]|]]; [|done]. split_if; [done|]. split_if; [done|].
  bool_hyps. assert (Hc : classify (lane_for n (src h)) (hcounter h) = Fresh).
  { match goal with H : keyed_req_admit _ _ = true |- _ => unfold keyed_req_admit in H; by bool_hyps end. }
  apply classify_Fresh in Hc as [_ Hc]. set (n1 := lane_accept n _ _).
  assert (H1 : lanes_le n n1) by (by apply lanes_accept).
  pose proof (rx_try_tx n1 (t_elapsed env) (frame_toa_ms KEYED_FRAME_LEN)) as Hq. destruct (try_tx n1 _ _) as [n2 ok]. cbn [fst] in Hq.
  assert (H2 : lanes_le n n2) by (etrans; [exact H1 | by apply lanes_rx]). split_if; [exact H2|].
  pose proof (rx_alloc n2 (t_fate env)) as Ha. destruct (net_alloc n2 (t_fate env)) as [n3 [c|]]; cbn [fst] in Ha.
  - assert (H3 : lanes_le n n3) by (etrans; [exact H2 | by apply lanes_rx]).
    destruct (seal_frame _ _ _ _) as [buf [len|err]]; exact H3.
  - etrans; [exact H2 | by apply lanes_rx].
Qed.
Lemma lanes_recv n heard rssi lqi env : lanes_le n (fst (recv n heard rssi lqi env)).
Proof.
  unfold recv. destruct heard as [buf|]; [|done]. destruct (parse buf) as [[peek l]|]; [|done]. split_if.
  - destruct (keyed_responder n); [|done]. pose proof (lanes_keyed n buf env) as Hk.
    destruct (keyed_answer n buf env) as [n1 [e|]]; [|exact Hk]. cbn [fst] in Hk.
    etrans; [exact Hk|]. by destruct (t_result env).
  - repeat (split_if; [done|]). cbv zeta. destruct (open_frame _ buf) as [b [[h [lo hi]]|]]; [|done]. split_if; [done|].
    destruct (classify _ _) eqn:Ec; [| |done].
    + apply classify_Fresh in Ec as [_ Hc]. assert (H1 : lanes_le n (lane_accept n (src h) (hcounter h))) by (by apply lanes_accept).
      destruct (negb (Z.land (flags h) CONFIRMED =? 0)); [|exact H1]. etrans; [exact H1 | apply lanes_rx, rx_send_ack].
    + destruct (negb (Z.land (flags h) CONFIRMED =? 0)); [|done].
      assert (H1 : lanes_le n (fst (lane_reack n (src h)))) by (intros a; destruct (floor_reack n (src h) a) as [-> ->]; done).
      destruct (lane_reack n (src h)) as [n1 again]. cbn [fst] in *. destruct again; [|exact H1].
      etrans; [exact H1 | apply lanes_rx, rx_send_ack].
Qed.
Lemma lanes_op n op : lanes_le n (fst (run_op n op)).
Proof.
  destruct op as [heard rssi lqi env|dest data confirmed reps o env|own key tries|a b|a s]; cbn [run_op fst].
  - apply lanes_recv.
  - apply lanes_rx, rx_send.
  - apply lanes_rx, rx_join.
  - unfold set_pending. destruct (peer_at n a) as [[i p]|] eqn:E; [|done]. apply peer_at_Some in E as (_ & Hi & _). by eapply lanes_update.
  - unfold raise_peer_floor. destruct (peer_at n a) as [[i p]|] eqn:E; [|done]. apply peer_at_Some in E as (_ & Hi & _).
    unfold raise. split_if; cbn [fst]; (eapply lanes_update; [exact Hi | done | simpl; lia]).
Qed.
(** A delivery is above its lane, and the lane takes it. *)
Lemma op_delivers n op r : op_ok op -> snd (run_op n op) = Some r ->
  floor_of n (rv_src r) < rv_counter r <= floor_of (fst (run_op n op)) (rv_src r).
Proof.
  destruct op as [heard rssi lqi env|dest data confirmed reps o env|own key tries|a b|a s]; cbn [run_op snd]; try done.
  intros Hok Hr. apply recv_delivered in Hr as (buf & hdr & p & -> & Hacc & ->); [|intros b' ->; exact Hok].
  rewrite (recv_acceptable n hdr p) by done. destruct Hacc as (_ & _ & _ & _ & _ & _ & Hc). cbn [fst rv_src rv_counter message].
  split; [exact Hc|]. destruct (floor_accept n (src hdr) (hcounter hdr) (src hdr)) as [_ Hf]. rewrite decide_True in Hf by done.
  destruct (negb _); [|by rewrite Hf]. rewrite (floor_same _ _ (src hdr) (rx_send_ack _ _ _ _ _)). by rewrite Hf.
Qed.
Lemma session_above ops n : Forall op_ok ops ->
  lanes_le n (fst (session n ops)) /\ Forall (fun r => floor_of n (rv_src r) < rv_counter r) (snd (session n ops)).
Proof.
  intros Hok. revert n. induction Hok as [|op ops Hop Hok IH]; intros n; cbn [session]; [done|].
  pose proof (lanes_op n op) as Hl. pose proof (op_delivers n op) as Hd. destruct (run_op n op) as [n1 d]. cbn [fst snd] in *.
  destruct (IH n1) as [Hl1 Hds]. destruct (session n1 ops) as [n2 ds]. cbn [fst snd] in *. split; [by etrans|].
  assert (Hds' : Forall (fun r => floor_of n (rv_src r) < rv_counter r) ds).
  { eapply Forall_impl; [|exact Hds]. intros r Hr. destruct (Hl (rv_src r)). simpl in *. lia. }
  destruct d as [r|]; [|exact Hds']. constructor; [by apply Hd | exact Hds'].
Qed.

(** A frame is delivered exactly when it should be. What [recv] returns for a received buffer is
    the plaintext of a DATA frame sealed for this device under its sender's key, from a sender it
    serves, with a counter above everything accepted on that sender's lane - and every such frame is
    returned, whatever becomes of its ACK, and moves the lane up to its counter. *)
Theorem recv_delivers_exactly (n : net) buf rssi lqi env : bytes_ok buf ->
  (forall r, snd (recv n (Ok buf) rssi lqi env) = Some r <->
    exists hdr p, acceptable n hdr p buf /\ r = message hdr p rssi lqi) /\
  (forall hdr p, acceptable n hdr p buf -> floor_of (fst (recv n (Ok buf) rssi lqi env)) (src hdr) = hcounter hdr).
Proof.
  intros Hb. split.
  - intros r. split.
    + intros (buf' & hdr & p & [= <-] & Hacc & ->)%recv_delivered; [by exists hdr, p | by intros b' [= <-]].
    + intros (hdr & p & Hacc & ->). by rewrite (recv_acceptable n hdr p).
  - intros hdr p Hacc. rewrite (recv_acceptable n hdr p) by done. cbn [fst].
    destruct (floor_accept n (src hdr) (hcounter hdr) (src hdr)) as [_ Hf]. rewrite decide_True in Hf by done.
    destruct (negb _); [|exact Hf]. by rewrite (floor_same _ _ (src hdr) (rx_send_ack _ _ _ _ _)).
Qed.

(** C15. Nothing is delivered twice. Through any session of receptions (of any buffers, replayed ones
    included), sends, joins and flag changes, the counters delivered on one lane strictly increase:
    each registered sender has a lane of its own, the unregistered ones share the default lane. *)
Theorem session_at_most_once (n : net) ops i j r r' : Forall op_ok ops ->
  snd (session n ops) !! i = Some r -> snd (session n ops) !! j = Some r' -> (i < j)%nat ->
  lane_slot n (rv_src r) = lane_slot n (rv_src r') -> rv_counter r < rv_counter r'.
Proof.
  intros Hok. revert n i j. induction Hok as [|op ops Hop Hok IH]; intros n i j Hi Hj Hij Hs; [done|].
  cbn [session] in *. pose proof (lanes_op n op) as Hl. pose proof (op_delivers n op) as Hd. destruct (run_op n op) as [n1 d].
  cbn [fst snd] in *. destruct (session_above ops n1 Hok) as [_ Hds]. specialize (IH n1).
  assert (Hs1 : lane_slot n1 (rv_src r) = lane_slot n1 (rv_src r')) by (by rewrite !(proj1 (Hl _))).
  destruct (session n1 ops) as [n2 ds]. cbn [fst snd] in *. destruct d as [r0|]; [|by eapply IH].
  destruct i as [|i], j as [|j]; try lia; simpl in Hi, Hj; [|eapply (IH i j); [done | done | lia | done]].
  injection Hi as ->. specialize (Hd r Hop eq_refl). rewrite Forall_lookup in Hds. specialize (Hds j r' Hj).
  rewrite (floor_lane n1 _ _ Hs1) in Hd. lia.
Qed.
End Delivery.

(** ** A confirmed exchange *)

Section Exchange.
Context {W : Type} `{NS : !NetStore W} `{Haes : !AesBlock} `{Hlaws : !AesBlockLaws}.
#[local] Abbreviation net := (Net W).

Lemma seal_whole key h p : zlen p <= max_payload h ->
  exists buf n, seal_frame key h p (zeros MAX_FRAME) = (buf, Ok n) /\ slice buf 0 n = frame_bytes key h p.
Proof.
  intros Hp. rewrite seal_frame_spec. assert (Hm : wire_len h + max_payload h + TAG_LEN <= MAX_FRAME).
  { unfold wire_len, max_payload. destruct (bulk_index h); mlia. }
  replace (max_payload h <? zlen p) with false by (symmetry; apply Z.ltb_ge; lia).
  assert (Hz : zlen (zeros MAX_FRAME) = MAX_FRAME) by (by apply zlen_zeros). rewrite Hz.
  replace (MAX_FRAME <? _) with false by (symmetry; apply Z.ltb_ge; lia). eexists _, _. split; [done|].
  rewrite <- (zlen_frame key). apply slice_patch_same; [lia|]. rewrite zlen_frame. lia.
Qed.

Lemma net_alloc_unlocked (n : net) o : locked (txc (tx n)) = false ->
  exists n', net_alloc n o = (n', Some (NetTxctr.counter (txc (tx n)))) /\ rx_same n n' /\ air n' = air n /\ duty n' = duty n.
Proof.
  intros Hl. unfold net_alloc, alloc_counter, alloc. rewrite Hl. destruct (advance _) as [t p].
  destruct (match p with None => _ | Some _ => _ end) as [t' st]. eexists. split; [done|]. done.
Qed.

Definition data_header (n : net) (to c : Z) (confirmed : bool) : Header :=
  {| frame_type := Data; flags := if confirmed then CONFIRMED else 0; src := addr n; dest := to; RadioFrame.counter := c; bulk_index := None |}.
Definition ack_header (n : net) (to c : Z) : Header :=
  {| frame_type := Ack; flags := 0; src := addr n; dest := to; RadioFrame.counter := c; bulk_index := None |}.
Definition has_pending (n : net) (a : Z) : bool := match peer_at n a with Some (_, p) => p_pending p | None => false end.
Definition clamp_i8 (r : Z) : Z := Z.min (Z.max r (-128)) 127.
Definition ack_payload (acked rssi : Z) (pend : bool) : list Z :=
  le_bytes 4 acked ++ [rssi_byte rssi; if pend then PENDING else 0].

Lemma ack_payload_patched n dest acked rssi :
  patch (patch (patch (zeros ACK_LEN) 0 (le_bytes 4 acked)) 4 [rssi_byte rssi]) 5
    [match peer_at n dest with Some (_, p) => if p_pending p then PENDING else 0 | None => 0 end] =
  ack_payload acked rssi (has_pending n dest).
Proof. unfold ack_payload, has_pending. by destruct (peer_at n dest) as [[i p]|]. Qed.
Lemma ack_meta_payload acked r pend : ack_meta (ack_payload acked r pend) = Some {| rssi := clamp_i8 r; pending := pend |}.
Proof.
  unfold ack_payload. cbn [le_bytes app ack_meta]. unfold ack_meta. f_equal. f_equal; [|by destruct pend].
  unfold rssi_byte, as_i8, wrap8. fold (clamp_i8 r). assert (-128 <= clamp_i8 r <= 127) by (unfold clamp_i8; lia).
  split_if; bool_hyps; Z.to_euclidean_division_equations; lia.
Qed.

(** The budget allows a transmission of [toa] ms after [elapsed] ms. *)
Definition affords (n : net) (elapsed toa : Z) : bool := snd (try_consume (refill_ms (duty n) elapsed) toa).
Lemma try_tx_affords n elapsed toa : affords n elapsed toa = true -> exists g, try_tx n elapsed toa = (set_duty n g (rng n), true).
Proof. unfold affords, try_tx. destruct (try_consume _ _) as [g ok]. cbn [snd]. intros ->. by exists g. Qed.

(** The ACK goes out when TX is open and the budget allows it. *)
Lemma send_ack_airs n to acked r env : locked (txc (tx n)) = false ->
  (access n = Duty -> affords n (t_elapsed env) (frame_toa_ms (HDR_LEN + 6 + TAG_LEN)) = true) ->
  air (send_ack n to acked r env) =
    {| a_key := key_for n to; a_header := ack_header n to (NetTxctr.counter (txc (tx n)));
       a_payload := ack_payload acked r (has_pending n to);
       a_frame := frame_bytes (key_for n to) (ack_header n to (NetTxctr.counter (txc (tx n)))) (ack_payload acked r (has_pending n to)) |}
    :: air n.
Proof.
  intros Hl Hd. unfold send_ack. rewrite Hl. cbv zeta. rewrite ack_payload_patched. set (pay := ack_payload _ _ _).
  change (zlen pay) with 6.
  assert (Hn : exists n1, (match access n with Duty => try_tx n (t_elapsed env) (frame_toa_ms (HDR_LEN + 6 + TAG_LEN)) | _ => (n, true) end) = (n1, true)
    /\ rx_same n n1 /\ quiet n n1).
  { destruct (access n) eqn:Ea; [|by exists n..]. specialize (Hd eq_refl).
    destruct (try_tx_affords _ _ _ Hd) as [g ->]. by eexists. }
  destruct Hn as (n1 & -> & Hrx & Htx & Hair & Haddr). cbn [negb].
  destruct (net_alloc_unlocked n1 (t_fate env)) as (n2 & -> & Hrx2 & Hair2 & _); [by rewrite Htx|]. rewrite Htx.
  assert (Hk : key_for n2 to = key_for n to).
  { unfold key_for. rewrite (peer_slot_same n n2) by (by etrans). destruct (peer_at n to) as [[i p]|]; [done|].
    destruct Hrx2 as (_ & _ & -> & _). by destruct Hrx as (_ & _ & -> & _). }
  assert (Ha : addr n2 = addr n) by (destruct Hrx2 as (_ & _ & _ & -> & _); done). rewrite Hk, Ha.
  fold (ack_header n to (NetTxctr.counter (txc (tx n)))).
  destruct (seal_whole (key_for n to) (ack_header n to (NetTxctr.counter (txc (tx n)))) pay) as (buf & len & -> & ->); [done|].
  simpl. by rewrite Hair2, Hair.
Qed.

(** Noise in an ACK window: corrupted receptions, and frames that do not open under the key. *)
Definition ignorable (key : list Z) (h : result RadioError (list Z)) : Prop :=
  match h with
  | Err e => e = CrcError \/ e = FifoError
  | Ok buf => forall b hr, open_frame key buf <> (b, Ok hr)
  end.
Lemma await_noise (n : net) key wait noise heard : Forall (ignorable key) noise -> await_ack n key wait (noise ++ heard) = await_ack n key wait heard.
Proof.
  intros Hn. induction Hn as [|h noise Hh Hn IH]; [done|]. cbn [app await_ack]. destruct h as [buf|e].
  - destruct (open_frame key buf) as [b [hr|]] eqn:E; [by destruct (Hh b hr)|done].
  - by destruct Hh as [-> | ->].
Qed.
Lemma await_resolved (n : net) key me from c h r pend rest : hdr_ok h -> u32_ok c -> frame_type h = Ack -> src h = from -> dest h = me ->
  await_ack n key (ack_new me from c) (Ok (frame_bytes key h (ack_payload c r pend)) :: rest) =
    (set_marks n (Some {| rssi := clamp_i8 r; pending := pend |}) (keyed_join n), true).
Proof.
  intros Hh Hc Ht Hs Hd. cbn [await_ack]. rewrite open_frame_bytes, Ht by done. change (bool_decide (Ack = Ack)) with true. cbv zeta.
  replace (wire_len h + zlen (ack_payload c r pend) - wire_len h) with (zlen (ack_payload c r pend)) by lia.
  rewrite slice_field by (done || by rewrite zlen_header). rewrite ack_meta_payload.
  unfold offer, ack_new. cbn [resolved NetWire.peer NetWire.me NetWire.counter]. rewrite Hs, Hd, !Z.eqb_refl. cbn [negb orb].
  assert (Ho : ack_payload c r pend = [c mod 256; c / 256 mod 256; c / 256 / 256 mod 256; c / 256 / 256 / 256 mod 256; rssi_byte r; if pend then PENDING else 0]) by done.
  rewrite Ho. change [c mod 256; c / 256 mod 256; c / 256 / 256 mod 256; c / 256 / 256 / 256 mod 256] with (le_bytes 4 c).
  rewrite le_val_u32, Z.eqb_refl by done. done.
Qed.
End Exchange.

Section ExchangeThm.
Context {W : Type} `{NS : !NetStore W} `{Haes : !AesBlock} `{Hlaws : !AesBlockLaws}.
#[local] Abbreviation net := (Net W).

(** Two devices that can talk: one key, each serves the other, both can transmit. *)
Record Linked (A B : net) : Prop := {
  lk_key : key_for A (addr B) = key_for B (addr A);
  lk_addr : u32_ok (addr A) /\ u32_ok (addr B);
  lk_send : may_send_to A (addr B) = true;
  lk_serve : registered B (addr A) = true \/ default_lane_enabled B = true;
  lk_open : locked (txc (tx A)) = false /\ locked (txc (tx B)) = false;
  lk_inv : Inv (tx A) /\ Inv (tx B);
  lk_mode : access A <> Fhss;
}.
Lemma unlocked_counter d : Inv d -> locked (txc d) = false -> u32_ok (NetTxctr.counter (txc d)) /\ NetTxctr.counter (txc d) <> 0.
Proof. intros HI Hl. destruct (inv_live d HI Hl) as (_ & Hc & Hmax & _). split; mlia. Qed.

(** A first attempt that goes out and hears the ACK ends the send. *)
Lemma send_acked (n : net) to data reps o env noise h r pend rest :
  let c := NetTxctr.counter (txc (tx n)) in
  let key := key_for n to in
  locked (txc (tx n)) = false -> access n <> Fhss -> zlen data <= MAX_PAYLOAD -> may_send_to n to = true -> u32_ok c ->
  affords n (at_elapsed (env 0%nat)) (frame_toa_ms (HDR_LEN + zlen data + TAG_LEN)) = true ->
  at_tx (env 0%nat) = Ok tt -> at_window (env 0%nat) = noise ++ Ok (frame_bytes key h (ack_payload c r pend)) :: rest ->
  Forall (ignorable key) noise -> hdr_ok h -> frame_type h = Ack -> src h = to -> dest h = addr n ->
  exists n', send n to data true reps o env = (n', Delivered) /\ last_ack n' = Some {| rssi := clamp_i8 r; pending := pend |} /\
    air n' = {| a_key := key; a_header := data_header n to c true; a_payload := data;
                a_frame := frame_bytes key (data_header n to c true) data |} :: air n.
Proof.
  intros c key Hl Hacc Hd Hs Hc Hduty Htx Hwin Hnoise Hh Ht Hsrc Hdst. unfold send. set (n0 := set_marks n None _).
  assert (E0 : locked (txc (tx n0)) = false /\ access n0 = access n /\ may_send_to n0 to = may_send_to n to) by done.
  destruct E0 as (-> & -> & ->). rewrite bool_decide_eq_false_2 by done. rewrite Hs. cbn [negb].
  replace (MAX_PAYLOAD <? zlen data) with false by (symmetry; apply Z.ltb_ge; lia).
  destruct (net_alloc_unlocked n0 o Hl) as (n1 & -> & Hrx & Hair & Hdu). change (NetTxctr.counter (txc (tx n0))) with c.
  assert (Hk : key_for n1 to = key).
  { unfold key, key_for. rewrite (peer_slot_same n0 n1) by done. change (peer_at n0 to) with (peer_at n to).
    destruct (peer_at n to) as [[i p]|]; [done|]. by destruct Hrx as (_ & _ & -> & _). }
  assert (Ha : addr n1 = addr n) by (by destruct Hrx as (_ & _ & _ & -> & _)). rewrite Hk, Ha. cbv zeta.
  fold (data_header n to c true). destruct (seal_whole key (data_header n to c true) data) as (buf & len & -> & ->); [done|].
  assert (Hreps : exists k, Z.to_nat (Z.min (Z.max reps 1) MAX_REPS) = S k).
  { exists (Z.to_nat (Z.min (Z.max reps 1) MAX_REPS) - 1)%nat. mlia. }
  destruct Hreps as [k ->]. cbn [send_loop]. cbv zeta.
  cbn [a_frame a_header RadioFrame.counter]. rewrite zlen_frame. change (wire_len (data_header n to c true)) with HDR_LEN.
  assert (Haf : affords n1 (at_elapsed (env 0%nat)) (frame_toa_ms (HDR_LEN + zlen data + TAG_LEN)) = true)
    by (unfold affords; rewrite Hdu; exact Hduty).
  destruct (try_tx_affords _ _ _ Haf) as [g ->]. cbn [negb]. rewrite Htx.
  set (n2 := radio_tx _ _). change (RadioFrame.counter (data_header n to c true)) with c.
  assert (Hk2 : key_for n2 to = key) by exact Hk. assert (Ha2 : addr n2 = addr n) by exact Ha. rewrite Hk2, Ha2, Hwin, await_noise by done.
  rewrite await_resolved by done. eexists. split; [done|]. split; [done|]. unfold n2. simpl. by rewrite Hair.
Qed.

(** Accepting a frame changes neither the mode, the budget, the keys nor the pending flags. *)
Lemma accept_keeps (n : net) s c : access (lane_accept n s c) = access n /\ duty (lane_accept n s c) = duty n /\
  key_for (lane_accept n s c) s = key_for n s /\ has_pending (lane_accept n s c) s = has_pending n s.
Proof.
  unfold lane_accept, key_for, has_pending. destruct (peer_at n s) as [[i p]|] eqn:E.
  - destruct (accept_every _ _ _) as [l persist]. pose proof (peer_at_Some n s i p E) as (_ & Hi & _).
    rewrite (peer_at_update n _ i p (with_lane p l)), E by done. by rewrite decide_True.
  - destruct (accept_every _ _ _) as [l persist].
    assert (Hp : forall w, peer_at (set_rx n (peers n) l w) s = peer_at n s) by done. by rewrite Hp, E.
Qed.

(** C5. A confirmed exchange works. [A] sends up to 74 bytes to [B]: if both can transmit, the budget
    allows the two frames and [A]'s counter is above [B]'s lane for it, then the frame [A] puts on the
    air is delivered by [B] byte for byte, [B] answers with one ACK frame, and when that frame is heard
    in [A]'s first ACK window - behind any corrupted or foreign frames - the send reports [Delivered]
    after one transmission, with the signal strength [B] measured and [B]'s pending flag for [A]. *)
Theorem confirmed_exchange (A B : net) data reps o env rssi lqi envB noise rest :
  let c := NetTxctr.counter (txc (tx A)) in
  let key := key_for A (addr B) in
  let f := frame_bytes key (data_header A (addr B) c true) data in
  Linked A B -> zlen data <= MAX_PAYLOAD -> floor_of B (addr A) < c ->
  affords A (at_elapsed (env 0%nat)) (frame_toa_ms (zlen f)) = true ->
  (access B = Duty -> affords B (t_elapsed envB) (frame_toa_ms (HDR_LEN + 6 + TAG_LEN)) = true) ->
  at_tx (env 0%nat) = Ok tt -> Forall (ignorable key) noise ->
  exists B' g, recv B (Ok f) rssi lqi envB =
      (B', Some {| rv_src := addr A; rv_counter := c; rv_rssi := rssi; rv_lqi := lqi; rv_confirmed := true; rv_data := data |}) /\
    air B' = g :: air B /\
    (at_window (env 0%nat) = noise ++ Ok (a_frame g) :: rest ->
     exists A' e, send A (addr B) data true reps o env = (A', Delivered) /\ air A' = e :: air A /\ a_frame e = f /\
       last_ack A' = Some {| NetWire.rssi := clamp_i8 rssi; pending := has_pending B (addr A) |}).
Proof.
  intros c key f [Hkey [HaA HaB] Hsend Hserve [HlA HlB] [HIA HIB] Hmode] Hd Hfl HdA HdB Htx Hnoise.
  destruct (unlocked_counter _ HIA HlA) as [Hc Hc0]. fold c in Hc, Hc0. destruct (unlocked_counter _ HIB HlB) as [HcB _].
  set (h := data_header A (addr B) c true) in *.
  assert (Hh : hdr_ok h) by (constructor; simpl; try done; mlia).
  assert (Hacc : acceptable B h data f).
  { split; [done|]. split; [unfold f, key; by rewrite Hkey|]. split_and!; done. }
  set (B1 := lane_accept B (addr A) c).
  assert (Hq : quiet B B1) by apply quiet_lane_accept.
  destruct (accept_keeps B (addr A) c) as (Hacc1 & Hduty1 & Hk1 & Hp1). fold B1 in Hacc1, Hduty1, Hk1, Hp1.
  destruct Hq as (HtxB & HairB & HaddrB).
  assert (Hrecv : recv B (Ok f) rssi lqi envB = (send_ack B1 (addr A) c rssi envB, Some (message h data rssi lqi)))
    by exact (recv_acceptable B h data f rssi lqi envB Hacc).
  pose proof (send_ack_airs B1 (addr A) c rssi envB) as Hack. rewrite HtxB, HairB, Hk1, Hp1, <- Hkey in Hack.
  rewrite Hrecv. eexists _, _. split; [done|]. split; [apply Hack; [done|]|].
  { unfold affords. rewrite Hduty1, Hacc1. exact HdB. }
  cbn [a_frame]. intros Hwin. unfold f in HdA. rewrite zlen_frame in HdA.
  destruct (send_acked A (addr B) data reps o env noise (ack_header B1 (addr A) (NetTxctr.counter (txc (tx B)))) rssi
    (has_pending B (addr A)) rest) as (A' & Hs & Hla & Hair); try done.
  { constructor; simpl; first [done | by rewrite HaddrB | mlia]. }
  eexists _, _. split; [exact Hs|]. split; [exact Hair|]. by split.
Qed.
End ExchangeThm.

Module Demo.
Import Ccm.ToyCipher RadioFrame.Demo.
(** A store in RAM: the latest value of a key is the first. *)
Definition Store : Type := list (Z * list Z).
Definition ram_get (w : Store) (local : Z) : option (list Z) := option_map snd (List.find (fun e => fst e =? local) w).
#[export] Instance ram_store : NetStore Store := {
  nv_get w local cap := match ram_get w local with Some v => Some (zlen v, slice v 0 cap) | None => None end;
  nv_set w local v := ((local, v) :: w, true);
}.
Definition NODE : Z := 0x1A2B3C4D.
Definition GATEWAY : Z := 0x11223344.
Definition cfg (a : Z) : NetConfig := {| c_addr := a; c_key := zeros 16; c_band := Eu868; c_keys_stored := false |}.
Definition boot0 (a : Z) : Net Store := net_new (cfg a) ([] : Store) virgin Landed [].
Definition node : Net Store := fst (add_peer (boot0 NODE) GATEWAY k).
Definition gateway : Net Store := fst (set_pending (fst (add_peer (set_default_lane (boot0 GATEWAY) false) NODE k)) NODE true).
Definition quiet_env : TxEnv := {| t_elapsed := 1000; t_fate := Landed; t_result := Ok tt |}.
(** Nothing is heard. *)
Definition silence (_ : nat) : Attempt := {| at_elapsed := 1000; at_tx := Ok tt; at_window := [] |}.
Definition hello : list Z := [104; 101; 108; 108; 111].

Definition sent_twice : Net Store := fst (send (fst (send node GATEWAY hello true 2 Landed silence)) GATEWAY [1] false 1 Landed silence).
Lemma nonces_never_reused_witness :
  exists e1 e2 e3, air sent_twice = [e1; e2; e3] /\ e2 = e3 /\ header_nonce (a_header e1) <> header_nonce (a_header e2).
Proof.
  assert (Hr : rtc nstep (boot0 NODE) sent_twice).
  { eapply rtc_l; [exact (ns_op _ _ (ns_add (boot0 NODE) GATEWAY k))|]. eapply rtc_l; [exact (ns_op _ _ (ns_send node GATEWAY hello true 2 Landed silence))|].
    apply rtc_once. apply ns_op, (ns_send (fst (send node GATEWAY hello true 2 Landed silence))). }
  assert (Hf : first_boot (boot0 NODE)).
  { exists (cfg NODE), ([] : Store), Landed. split; [split; vm_compute; discriminate | reflexivity]. }
  assert (Ha : match air sent_twice with
               | [e1; e2; e3] => header_nonce (a_header e2) = header_nonce (a_header e3) /\
                   header_nonce (a_header e1) <> header_nonce (a_header e2)
               | _ => False
               end) by (vm_compute; split; [reflexivity | discriminate]).
  pose proof (nonces_never_reused (boot0 NODE) sent_twice) as H.
  destruct (air sent_twice) as [|e1 [|e2 [|e3 [|e4 l]]]]; try (exfalso; exact Ha). destruct Ha as [Hn Hne].
  exists e1, e2, e3. split; [reflexivity|]. split; [|exact Hne].
  apply H; [exact Hf | exact Hr | right; left; reflexivity | right; right; left; reflexivity | exact Hn].
Defined.

Definition uplink (c : Z) (confirmed : bool) : list Z := frame_bytes k (data_header node GATEWAY c confirmed) hello.
Lemma uplink_ok c : bytes_okb (uplink c true) = true -> bytes_ok (uplink c true).
Proof. apply bytes_okb_ok. Qed.
Lemma recv_delivers_exactly_witness :
  exists r, snd (recv gateway (Ok (uplink 7 true)) (-90) 50 quiet_env) = Some r /\ rv_counter r = 7 /\ rv_data r = hello /\
    floor_of (fst (recv gateway (Ok (uplink 7 true)) (-90) 50 quiet_env)) NODE = 7.
Proof.
  assert (Hb : bytes_ok (uplink 7 true)) by (apply uplink_ok; vm_compute; reflexivity).
  destruct (recv_delivers_exactly gateway (uplink 7 true) (-90) 50 quiet_env Hb) as [Hex Hfl].
  assert (Hacc : acceptable gateway (data_header node GATEWAY 7 true) hello (uplink 7 true)).
  { split; [apply hdr_okb_ok; vm_compute; reflexivity|]. split; [vm_compute; reflexivity|].
    split; [reflexivity|]. split; [vm_compute; reflexivity|]. split; [left; vm_compute; reflexivity|].
    split; [vm_compute; discriminate | vm_compute; reflexivity]. }
  eexists. split; [apply Hex; eexists _, _; split; [exact Hacc | reflexivity]|]. split; [reflexivity|]. split; [reflexivity|].
  exact (Hfl _ _ Hacc).
Defined.

Definition heard (c : Z) : SessionOp := OpRecv (Ok (uplink c true)) (-90) 50 quiet_env.
(** A frame, its replay, a later frame, and the first again. *)
Definition replayed : list SessionOp := [heard 7; heard 7; heard 9; heard 7].
Lemma session_at_most_once_witness :
  exists r r', snd (session gateway replayed) = [r; r'] /\ rv_counter r < rv_counter r'.
Proof.
  assert (Hok : Forall op_ok replayed).
  { do 4 (constructor; [apply uplink_ok; vm_compute; reflexivity|]). constructor. }
  assert (Htwo : forall (f : Received -> option nat) ds,
    (forall r r', ds !! 0%nat = Some r -> ds !! 1%nat = Some r' -> f r = f r' -> rv_counter r < rv_counter r') ->
    map f ds = [Some 0%nat; Some 0%nat] -> exists r r', ds = [r; r'] /\ rv_counter r < rv_counter r').
  { intros f [|r [|r' [|x l]]] H Hl; try discriminate Hl. injection Hl as Hr Hr'. exists r, r'. split; [reflexivity|].
    apply H; [reflexivity | reflexivity | rewrite Hr, Hr'; reflexivity]. }
  apply (Htwo (fun r => lane_slot gateway (rv_src r))); [|vm_compute; reflexivity].
  intros r r' H0 H1 Hf. exact (session_at_most_once gateway replayed 0 1 r r' Hok H0 H1 Nat.lt_0_1 Hf).
Defined.

Definition noise : list (result RadioError (list Z)) := [Err CrcError; Ok (zeros 30)].
(** What the node hears in its first window: noise, then the gateway's ACK. *)
Definition acked_env (_ : nat) : Attempt :=
  {| at_elapsed := 1000; at_tx := Ok tt;
     at_window := noise ++ map (fun e => Ok (a_frame e)) (air (fst (recv gateway (Ok (uplink 1 true)) (-90) 50 quiet_env))) |}.
Lemma node_gateway_linked : Linked node gateway.
Proof.
  assert (Hinv : forall a, u32_ok a -> Inv (tx (boot0 a))).
  { intros a Ha. apply (air_first (boot0 a)). exists (cfg a), ([] : Store), Landed. split; [exact Ha | reflexivity]. }
  constructor.
  - vm_compute. reflexivity.
  - split; split; vm_compute; discriminate.
  - vm_compute. reflexivity.
  - left. vm_compute. reflexivity.
  - split; vm_compute; reflexivity.
  - split; [apply (Hinv NODE) | apply (Hinv GATEWAY)]; split; vm_compute; discriminate.
  - vm_compute. discriminate.
Qed.
Lemma confirmed_exchange_witness :
  snd (send node GATEWAY hello true 3 Landed acked_env) = Delivered /\
  last_ack (fst (send node GATEWAY hello true 3 Landed acked_env)) = Some {| NetWire.rssi := -90; pending := true |}.
Proof.
  destruct (confirmed_exchange node gateway hello 3 Landed acked_env (-90) 50 quiet_env noise []) as (B' & g & Hrecv & Hair & Hsend).
  - exact node_gateway_linked.
  - vm_compute. discriminate.
  - vm_compute. reflexivity.
  - vm_compute. reflexivity.
  - intros _. vm_compute. reflexivity.
  - reflexivity.
  - constructor; [left; reflexivity|]. constructor; [|constructor]. intros b hr H. vm_compute in H. discriminate H.
  - destruct Hsend as (A' & e & Hs & _ & _ & Hl).
    + cbn [at_window acked_env]. f_equal. change (uplink 1 true) with
        (frame_bytes (key_for node (addr gateway)) (data_header node (addr gateway) (NetTxctr.counter (txc (tx node))) true) hello).
      rewrite Hrecv. cbn [fst]. rewrite Hair. reflexivity.
    + change (addr gateway) with GATEWAY in Hs. rewrite Hs. split; [reflexivity | exact Hl].
Defined.
End Demo.
