(* ===== verification/FhssThm.v ===== *)
(** What hopping (Fhss) promises: a node that holds the gateway's clock keeps it through fades and drift,
    and every transmission stays inside one slot of a schedule that revisits a channel no sooner than a
    whole cycle later. *)
From S2P Require Import Prelude Bytes NetTxctr NetReplay NetWire NetEpoch Radio Ccm RadioFrame NetCore NetAir NetLink Fhss.
#[local] Abbreviation hcounter := RadioFrame.counter.

Definition US_PER_S : Z := 1000000.
Definition SLOTS : Z := 2 ^ 32.
(** The longest from a beacon's end to its time stamp, and what rounding instants to milliseconds adds. *)
Definition JITTER : Z := 9.
Lemma beacon_toa_val : 0 < beacon_toa_ms <= 80.
Proof. vm_compute. by split. Qed.

(** ** The schedule

    [B k] is the instant the gateway starts its slot [k], on the node's crystal: the two run apart by at
    most [DRIFT_PPM], and the instants are whole milliseconds. *)
Definition schedule (B : Z -> Z) : Prop :=
  (forall k, 0 <= k -> 0 <= B k) /\
  forall s k, 0 <= s <= k -> Z.abs (B k - B s - (k - s) * FHSS_SLOT_MS) * US_PER_S <= DRIFT_PPM * ((k - s) * FHSS_SLOT_MS) + US_PER_S.

(** [t_rx] is when a beacon of slot [s] is stamped. *)
Definition stamped (B : Z -> Z) (s t_rx : Z) : Prop := B s + beacon_toa_ms <= t_rx <= B s + beacon_toa_ms + JITTER.
(** The node holds the clock and the network of the gateway [m]. *)
Record Follows (B : Z -> Z) (m f : Fhss) : Prop := {
  fo_synced : f_state f = Synced;
  fo_network : f_key f = f_key m /\ f_seed f = f_seed m;
  fo_epoch : epoch (f_gate f) <= epoch (f_gate m);
  fo_anchor : exists s, 0 <= s /\ f_anchor f = Some (s, f_last_beacon f - beacon_toa_ms) /\ stamped B s (f_last_beacon f);
}.
(** The slot a tick at [now] predicts. *)
Definition next_slot (f : Fhss) (now : Z) : Z :=
  match f_anchor f with Some (s, t) => s + (now - t) / FHSS_SLOT_MS + 1 | None => 0 end.

Section Window.
Context (B : Z -> Z) (HB : schedule B).

Lemma slack_covers since slack : 0 <= since -> since * DRIFT_PPM <= u64_max -> reacquire_slack_ms since max_slack = Some slack ->
  0 <= slack <= max_slack /\ since * DRIFT_PPM <= slack * US_PER_S.
Proof.
  unfold reacquire_slack_ms. intros H0 Hu E. split_if_in E; [|done]. injection E as <-. bool_hyps.
  assert (Es : sat_mul u64_max since DRIFT_PPM = since * DRIFT_PPM) by (unfold sat_mul; lia). rewrite Es in *.
  pose proof (div_ceil_spec (since * DRIFT_PPM) 1000000 ltac:(lia)) as Hd. unfold US_PER_S. split; [|lia]. split; [|lia].
  unfold div_ceil. apply Z.div_pos; unfold DRIFT_PPM in *; lia.
Qed.
(** The window a node opens for its next slot holds the whole beacon of that slot. *)
Lemma window_covers s t_rx now slack : 0 <= s -> stamped B s t_rx -> t_rx <= now -> (now - t_rx) * DRIFT_PPM <= u64_max ->
  reacquire_slack_ms (now - t_rx) max_slack = Some slack ->
  let k := s + (now - (t_rx - beacon_toa_ms)) / FHSS_SLOT_MS + 1 in
  let t_start := t_rx - beacon_toa_ms + (k - s) * FHSS_SLOT_MS in
  now < t_start /\ GUARD + slack <= t_start /\
  t_start - (GUARD + slack) <= B k /\ B k + beacon_toa_ms + JITTER <= t_start - (GUARD + slack) + track_len slack.
Proof.
  intros Hs [H1 H2] Hn Hu Hsl k t_start. destruct HB as [HB0 HB1]. pose proof (HB0 s Hs) as Hb0.
  apply slack_covers in Hsl as [Hsl Hd]; [|lia | done]. pose proof beacon_toa_val as Ht.
  set (q := (now - (t_rx - beacon_toa_ms)) / FHSS_SLOT_MS) in *.
  pose proof (Z.div_mod (now - (t_rx - beacon_toa_ms)) FHSS_SLOT_MS ltac:(done)) as Hq. fold q in Hq.
  pose proof (Z.mod_pos_bound (now - (t_rx - beacon_toa_ms)) FHSS_SLOT_MS ltac:(done)) as Hm.
  assert (Hq0 : 0 <= q) by (apply Z.div_pos; [lia | done]).
  specialize (HB1 s k ltac:(lia)). replace (k - s) with (q + 1) in * by lia. subst t_start.
  unfold track_len, US_PER_S, DRIFT_PPM, FHSS_SLOT_MS, GUARD, BEACON_RX_MS, JITTER in *.
  assert (Hmax : max_slack <= 140) by (vm_compute; discriminate). lia.
Qed.
End Window.

(** ** Beacons *)

Lemma beacon_payload_bytes e c i : beacon_payload e c i = le_bytes 4 e ++ le_bytes 4 c ++ [i].
Proof. reflexivity. Qed.
Lemma le_val_byte i : le_val [i] = i.
Proof. unfold le_val. lia. Qed.
(** The slot a beacon names by its cycle and its place in the cycle. *)
Lemma slot_of_payload k : 0 <= k < SLOTS -> wrap32 (wrap32 (k / FHSS_N * FHSS_N) + wrap8 (k mod FHSS_N)) = k.
Proof.
  unfold SLOTS, FHSS_N. intros Hk. pose proof (Z.mod_pos_bound k 80 ltac:(lia)). pose proof (Z.div_mod k 80 ltac:(lia)).
  assert (0 <= k / 80) by (apply Z.div_pos; lia).
  rewrite (wrap8_small (k mod 80)) by mlia. rewrite (wrap32_small (k / 80 * 80)) by mlia. rewrite wrap32_small by mlia. lia.
Qed.

Section Beacons.
Context {W : Type} `{NS : !NetStore W} `{Haes : !AesBlock} `{Hlaws : !AesBlockLaws}.
#[local] Abbreviation net := (Net W).

(** A frame that is the gateway's beacon for its slot [k]. *)
Definition beacon_of (m : Fhss) (k : Z) (buf : list Z) : Prop :=
  exists hdr, hdr_ok hdr /\ frame_type hdr = Beacon /\
    buf = frame_bytes (f_key m) hdr (beacon_payload (epoch (f_gate m)) (k / FHSS_N) (wrap8 (k mod FHSS_N))).
Lemma read_beacon_of m k buf : 0 <= k < SLOTS -> u32_ok (epoch (f_gate m)) -> beacon_of m k buf ->
  read_beacon (f_key m) buf = Some (epoch (f_gate m), k).
Proof.
  intros Hk He (hdr & Hh & Ht & ->). unfold read_beacon, frame_bytes at 1. rewrite parse_header, Ht by done.
  rewrite bool_decide_eq_true_2 by done. cbn [negb]. rewrite open_frame_bytes by done.
  set (pl := beacon_payload _ _ _). assert (Hl : zlen pl = BEACON_PL_LEN) by done. rewrite Hl.
  replace (wire_len hdr + BEACON_PL_LEN - wire_len hdr <? BEACON_PL_LEN) with false by (symmetry; apply Z.ltb_ge; lia).
  rewrite (slice_field (header_bytes hdr) pl) by (rewrite ?zlen_header, ?Hl; lia). clear Hl. subst pl. rewrite beacon_payload_bytes.
  assert (Hc : u32_ok (k / FHSS_N)) by (unfold SLOTS, FHSS_N in *; Z.to_euclidean_division_equations; mlia).
  set (buf := _ ++ _ ++ [_]). assert (E1 : le_val (slice buf 0 4) = epoch (f_gate m)) by (by apply le_val_u32).
  assert (E2 : le_val (slice buf 4 4) = k / FHSS_N) by (by apply le_val_u32). assert (E3 : byte_at buf 8 = wrap8 (k mod FHSS_N)) by done.
  cbv zeta. by rewrite E1, E2, E3, slot_of_payload.
Qed.
(** The gateway's beacon of a slot is what it puts on the air at the slot's start. *)
Lemma tx_beacon_airs (n : net) f slot ch o : locked (txc (tx n)) = false -> u32_ok (addr n) -> u32_ok (NetTxctr.counter (txc (tx n))) ->
  exists n' e, fhss_tx_beacon n f slot ch o = (n', add_airtime f ch (frame_toa_ms (zlen (a_frame e)))) /\
    air n' = e :: air n /\ beacon_of f slot (a_frame e).
Proof.
  intros Hl Ha Hc. unfold fhss_tx_beacon. rewrite Hl. cbv zeta. destruct (net_alloc_unlocked n o Hl) as (n1 & -> & Hs & Hair & _).
  match goal with |- context [seal_frame ?k ?h ?p _] => destruct (seal_whole k h p) as (buf & len & Hse & Hsl); [by apply Z.leb_le|] end.
  assert (Hn : len = zlen (slice buf 0 len)).
  { rewrite Hsl, zlen_frame. rewrite seal_frame_spec in Hse. revert Hse. repeat split_if; try done. by intros [= _ <-]. }
  rewrite Hse. match goal with |- context [radio_tx n1 ?e] => exists (radio_tx n1 e), e end.
  split; [cbn [a_frame]; by rewrite <- Hn|]. split; [simpl; by rewrite Hair|].
  cbn [a_frame]. rewrite Hsl. exists (beacon_header n1 (NetTxctr.counter (txc (tx n)))). split; [|split; done].
  assert (Hn1 : addr n1 = addr n) by (by destruct Hs as (_ & _ & _ & ? & _)). constructor; simpl; rewrite ?Hn1; try done; mlia.
Qed.

(** ** Keeping the clock *)

Definition readable (key : list Z) (h : result RadioError (list Z) * Z) : bool :=
  match h with (Ok buf, _) => if read_beacon key buf then true else false | (Err _, _) => true end.
Lemma rx_beacon_noise key noise heard : Forall (fun h => readable key h = false) noise ->
  fhss_rx_beacon key (noise ++ heard) = fhss_rx_beacon key heard.
Proof.
  induction 1 as [|[[buf|e] t] noise Hr _ IH]; [done| |done]. cbn [app fhss_rx_beacon]. simpl in Hr. by destruct (read_beacon key buf).
Qed.

Context (B : Z -> Z) (HB : schedule B).

(** The gateway's beacon reaches the node: any window that is open from the beacon's start, on its
    channel, until its end catches it, behind frames that are not beacons of the network. *)
Definition hears (m f : Fhss) (env : NodeEnv) : Prop :=
  let k := next_slot f (ne_now env) in
  forall opened len, opened <= B k -> B k + beacon_toa_ms + JITTER <= opened + len ->
  exists noise buf t_rx rest, ne_hear env (fhss_channel_for (f_seed m) k) opened len = noise ++ (Ok buf, t_rx) :: rest /\
    Forall (fun h => readable (f_key m) h = false) noise /\ beacon_of m k buf /\ stamped B k t_rx.
(** No window catches a beacon. *)
Definition fades (f : Fhss) (env : NodeEnv) : Prop := forall ch opened len, fhss_rx_beacon (f_key f) (ne_hear env ch opened len) = None.
(** The node ticks after its last beacon and before the window of the next slot, soon enough to trust
    its clock; slots are counted in 32 bits. *)
Definition on_time (f : Fhss) (now : Z) : Prop :=
  f_last_beacon f <= now <= u64_max / DRIFT_PPM /\ next_slot f now < SLOTS /\
  match f_anchor f, tick_slack f now with
  | Some a, Some slack => now <= track_open (fhss_slot_start a (next_slot f now)) slack
  | _, _ => False
  end.

Lemma cur_slot_next s t now : 0 <= s -> t <= now -> s + (now - t) / FHSS_SLOT_MS + 1 < SLOTS ->
  wrap32 (fhss_cur_slot (s, t) now + 1) = s + (now - t) / FHSS_SLOT_MS + 1 /\
  fhss_slot_start (s, t) (s + (now - t) / FHSS_SLOT_MS + 1) = t + ((now - t) / FHSS_SLOT_MS + 1) * FHSS_SLOT_MS.
Proof.
  intros Hs Ht Hk. unfold fhss_cur_slot, fhss_slot_start, SLOTS in *. cbn [fst snd]. replace (sat_sub now t) with (now - t) by mlia.
  assert (0 <= (now - t) / FHSS_SLOT_MS) by (apply Z.div_pos; [lia | done]).
  rewrite (wrap32_small ((now - t) / FHSS_SLOT_MS)), (wrap32_small (s + _)), wrap32_small by mlia. split; [done|].
  rewrite wrap32_small by mlia. lia.
Qed.

(** One tick of a node that follows: the slot is the gateway's, the beacon anchors the clock again, and a
    fade costs nothing but its count. *)
Lemma tick_hears m f env : Follows B m f -> u32_ok (epoch (f_gate m)) -> on_time f (ne_now env) -> hears m f env ->
  let k := next_slot f (ne_now env) in
  snd (fhss_node_tick f env) = {| ns_state := Synced; ns_channel := fhss_channel_for (f_seed m) k; ns_slot := k; ns_got_beacon := true |} /\
  Follows B m (fst (fhss_node_tick f env)) /\ miss (f_gate (fst (fhss_node_tick f env))) = 0 /\
  epoch (f_gate (fst (fhss_node_tick f env))) = epoch (f_gate m) /\
  exists t, f_anchor (fst (fhss_node_tick f env)) = Some (k, t) /\ Z.abs (t - B k) <= JITTER.
Proof.
  intros HF He (Ht & Hk & Hw) Hh. destruct (fo_anchor _ _ _ HF) as (s & Hs & Ha & Hst). destruct (fo_network _ _ _ HF) as [Hkey Hseed].
  unfold hears, on_time, fhss_node_tick in *. unfold next_slot, tick_slack in *. rewrite Ha in *. destruct (reacquire_slack_ms _ _) as [slack|] eqn:Hsl; [|done].
  assert (Hn : sat_sub (ne_now env) (f_last_beacon f) = ne_now env - f_last_beacon f) by mlia. rewrite Hn in Hsl.
  assert (Hu : (ne_now env - f_last_beacon f) * DRIFT_PPM <= u64_max).
  { destruct HB as [HB0 _]. pose proof (HB0 s Hs). unfold stamped in Hst. pose proof beacon_toa_val.
    assert (u64_max / DRIFT_PPM * DRIFT_PPM <= u64_max) by (by apply Z.leb_le). set (q := u64_max / DRIFT_PPM) in *. unfold DRIFT_PPM. mlia. }
  destruct (window_covers B HB s (f_last_beacon f) (ne_now env) slack Hs Hst ltac:(lia) Hu Hsl) as (W1 & W2 & W3 & W4).
  pose proof beacon_toa_val as Htoa.
  destruct (cur_slot_next s (f_last_beacon f - beacon_toa_ms) (ne_now env) Hs ltac:(lia) Hk) as [C1 C2].
  set (k := s + (ne_now env - (f_last_beacon f - beacon_toa_ms)) / FHSS_SLOT_MS + 1) in *.
  assert (Hk0 : 0 <= k) by (apply Z.le_trans with s; [done|]; unfold k; pose proof (Z.div_pos (ne_now env - (f_last_beacon f - beacon_toa_ms)) FHSS_SLOT_MS ltac:(lia) ltac:(done)); lia).
  unfold track_slot. rewrite C1. cbv zeta.
  assert (Ho : Z.max (ne_now env) (track_open (fhss_slot_start (s, f_last_beacon f - beacon_toa_ms) k) slack) =
    f_last_beacon f - beacon_toa_ms + (k - s) * FHSS_SLOT_MS - (GUARD + slack)).
  { rewrite C2 in *. unfold track_open, sub_or in *.
    replace (k - s) with ((ne_now env - (f_last_beacon f - beacon_toa_ms)) / FHSS_SLOT_MS + 1) in * by lia.
    destruct (Z.ltb_spec (f_last_beacon f - beacon_toa_ms + ((ne_now env - (f_last_beacon f - beacon_toa_ms)) / FHSS_SLOT_MS + 1) * FHSS_SLOT_MS) (GUARD + slack)); lia. }
  rewrite Ho, Hseed. destruct (Hh _ _ W3 W4) as (noise & buf & t_rx & rest & -> & Hno & Hb & Hrx).
  cbn [f_key set_channel]. rewrite Hkey, rx_beacon_noise by done. cbn [fhss_rx_beacon]. rewrite (read_beacon_of m k buf) by done.
  unfold offer_tracked. cbn [f_gate set_channel]. rewrite (proj2 (Z.leb_le (epoch (f_gate f)) _)) by apply (fo_epoch _ _ _ HF).
  replace (abs_diff k k <=? FHSS_RESYNC_SLACK) with true by (symmetry; apply Z.leb_le; mlia). cbn [andb].
  rewrite bool_decide_eq_true_2 by done. split; [done|]. cbn [fst].
  destruct HB as [HB0 _]. pose proof (HB0 k Hk0). unfold stamped in Hrx.
  assert (Ha' : f_anchor (fhss_lock (set_gate (set_channel f (fhss_channel_for (f_seed m) k)) {| epoch := epoch (f_gate m); miss := 0; candidate := candidate (f_gate f) |} (f_acquire_t0 f)) k t_rx) = Some (k, t_rx - beacon_toa_ms)).
  { simpl. unfold sub_or. by rewrite (proj2 (Z.ltb_ge _ _)) by lia. }
  split; [constructor|split_and!]; cbn [fhss_lock set_clock set_gate set_channel f_state f_key f_seed f_gate f_last_beacon epoch miss]; try done; try lia.
  - by exists k.
  - eexists. split; [exact Ha'|]. lia.
Qed.
Lemma tick_fades m f env : Follows B m f -> on_time f (ne_now env) -> fades f env -> miss (f_gate f) + 1 < REACQUIRE_LIMIT ->
  Follows B m (fst (fhss_node_tick f env)) /\ miss (f_gate (fst (fhss_node_tick f env))) = miss (f_gate f) + 1.
Proof.
  intros HF (_ & _ & Hw) Hf Hm. unfold fhss_node_tick. unfold tick_slack in *. destruct (f_anchor f) as [a|] eqn:Ha; [|done].
  destruct (reacquire_slack_ms _ _) as [slack|]; [|done]. unfold track_slot. cbv zeta. cbn [f_key set_channel]. rewrite Hf.
  unfold beacon_missed. cbn [f_gate set_channel]. rewrite (proj2 (Z.leb_gt REACQUIRE_LIMIT _)) by (simpl; lia).
  rewrite bool_decide_eq_false_2 by done. split; [|done].
  destruct HF as [H1 H2 H3 H4]. constructor; simpl; [exact H1 | exact H2 | exact H3 | exact H4].
Qed.

Fixpoint ticks (f : Fhss) (envs : list NodeEnv) : Fhss := match envs with [] => f | env :: envs => ticks (fst (fhss_node_tick f env)) envs end.
(** A session: every tick is on time, and hears the beacon or is one of a run of fewer than
    [REACQUIRE_LIMIT] fades. *)
Fixpoint session (m f : Fhss) (envs : list NodeEnv) : Prop :=
  match envs with
  | [] => True
  | env :: envs =>
      on_time f (ne_now env) /\ (hears m f env \/ fades f env /\ miss (f_gate f) + 1 < REACQUIRE_LIMIT) /\
      session m (fst (fhss_node_tick f env)) envs
  end.
Lemma session_follows m f envs : Follows B m f -> u32_ok (epoch (f_gate m)) -> session m f envs -> Follows B m (ticks f envs).
Proof.
  intros HF He. revert f HF. induction envs as [|env envs IH]; intros f HF; [done|]. intros (Ht & Hh & Hs). cbn [ticks]. apply IH; [|done].
  destruct Hh as [Hh|[Hf Hm]]; [by destruct (tick_hears m f env) as (_ & ? & _) | by apply tick_fades].
Qed.

(** C38. A node that holds the gateway's clock keeps it. Through any session of slots, each ticked in time (after
    the last beacon, before the next slot's window opens, and while the slack of its clock is still trusted),
    with fades of up to twenty-three slots in a row, frames of other networks and corrupted beacons in its windows, instants
    rounded to milliseconds and a crystal that drifts by up to 100 ppm, the node opens the window that
    holds the gateway's whole beacon on the gateway's channel: when that beacon is there to be heard it is
    heard, names the slot the node predicted, anchors the clock again and clears the count of misses. *)
Theorem follower_keeps_up m f envs env :
  Follows B m f -> u32_ok (epoch (f_gate m)) -> session m f envs ->
  on_time (ticks f envs) (ne_now env) -> hears m (ticks f envs) env ->
  let '(f', ns) := fhss_node_tick (ticks f envs) env in
  let k := next_slot (ticks f envs) (ne_now env) in
  ns = {| ns_state := Synced; ns_channel := fhss_channel_for (f_seed m) k; ns_slot := k; ns_got_beacon := true |} /\
  Follows B m f' /\ miss (f_gate f') = 0 /\ epoch (f_gate f') = epoch (f_gate m) /\ exists t, f_anchor f' = Some (k, t) /\ Z.abs (t - B k) <= JITTER.
Proof.
  intros HF He Hs Ht Hh. pose proof (session_follows m f envs HF He Hs) as HF'.
  pose proof (tick_hears m _ env HF' He Ht Hh) as H. by destruct (fhss_node_tick _ env).
Qed.
End Beacons.

(** ** The slots of the band *)

(** The start of slot [k] for a clock anchored at [(s, t)]. *)
Definition start_of (anchor : Z * Z) (k : Z) : Z := snd anchor + (k - fst anchor) * FHSS_SLOT_MS.
Lemma channel_revisit seed k k' : 0 <= k -> 0 <= k' -> fhss_channel_for seed k = fhss_channel_for seed k' -> k <> k' -> FHSS_N <= Z.abs (k - k').
Proof.
  intros Hk Hk' E Hne. assert (Hc : forall j, 0 <= j -> fhss_channel_for seed j = channel_at 80 seed j).
  { intros j Hj. unfold fhss_channel_for, channel_at, FHSS_N. change (Z.of_nat 80) with 80. pose proof (Z.mod_pos_bound j 80 ltac:(lia)).
    by rewrite wrap8_small by mlia. }
  rewrite !Hc in E by done. destruct (proj1 (proj2 (proj2 (hop_visits_spaced 80 seed k k' ltac:(lia) Hk Hk'))) E) as [j Hj]. unfold FHSS_N. lia.
Qed.
Lemma cur_slot_val s t now : 0 <= s -> t <= now -> s + (now - t) / FHSS_SLOT_MS + 1 < SLOTS ->
  let k := s + (now - t) / FHSS_SLOT_MS in
  fhss_cur_slot (s, t) now = k /\ fhss_slot_start (s, t) (wrap32 (k + 1)) = start_of (s, t) k + FHSS_SLOT_MS /\
  start_of (s, t) k <= now < start_of (s, t) k + FHSS_SLOT_MS /\ 0 <= k.
Proof.
  intros Hs Ht Hk k. assert (Hq : 0 <= (now - t) / FHSS_SLOT_MS) by (apply Z.div_pos; [lia | done]). destruct (cur_slot_next s t now Hs Ht Hk) as [C1 C2].
  assert (C : fhss_cur_slot (s, t) now = k).
  { unfold fhss_cur_slot, SLOTS in *. cbn [fst snd]. replace (sat_sub now t) with (now - t) by mlia. rewrite (wrap32_small ((now - t) / FHSS_SLOT_MS)), wrap32_small by mlia. done. }
  rewrite C in C1. rewrite C1, C2. unfold start_of. cbn [fst snd]. pose proof (Z.div_mod (now - t) FHSS_SLOT_MS ltac:(done)).
  pose proof (Z.mod_pos_bound (now - t) FHSS_SLOT_MS ltac:(done)). unfold k. split_and!; [done|..]; lia.
Qed.

Section Compliance.
Context {W : Type} `{NS : !NetStore W} `{Haes : !AesBlock} `{Hlaws : !AesBlockLaws}.
#[local] Abbreviation net := (Net W).

(** The time a transmission of [e] at [now] keeps the channel, with the answer it may wait for. *)
Definition occupies (e : Aired) (confirmed : bool) : Z :=
  frame_toa_ms (zlen (a_frame e)) + (if confirmed then 20 + beacon_toa_ms else 0).

(** The frame goes out on the channel the clock gave at the room check, for a slot it fits when its
    preparation takes no longer than [MASTER_LOOP_BUDGET]; no other slot shares the channel for 24 s. *)
Definition compliant (n : net) (f : Fhss) (confirmed : bool) (s t : Z) (env : SendEnv) (n' : net) (f' : Fhss) : Prop :=
  let k := s + (se_now env - t) / FHSS_SLOT_MS in
  exists e, air n' = e :: air n /\ f_state f = Synced /\ f_cur_channel f' = fhss_channel_for (f_seed f) k /\
    start_of (s, t) k <= sent_at env /\
    (se_prep env <= MASTER_LOOP_BUDGET -> sent_at env + occupies e confirmed + GUARD <= start_of (s, t) k + FHSS_SLOT_MS) /\
    forall k', 0 <= k' -> k' <> k -> fhss_channel_for (f_seed f) k' = f_cur_channel f' ->
      24000 <= Z.abs (start_of (s, t) k - start_of (s, t) k').

(** C39. The bounds of the hopping band, for the data frames of a synchronised device ([fhss_send]; a master's
    beacons and the acknowledgements of a slot are not covered). A send puts at most one frame on the
    air, on the channel its clock gives for the slot of its room check. If what comes between that check
    and the frame - the counter's allocation with its EEPROM write, the sealing, the retune - takes no more
    than [MASTER_LOOP_BUDGET] (40 ms), then the frame, the acknowledgement it may wait for and the guard all end
    before that slot of 300 ms does; and any other slot on the same channel starts at least 24 s before
    or after. A longer preparation is not noticed by the code ([stalled_send_leaves_slot]). *)
Theorem hop_compliance (n : net) f dest data confirmed env s t :
  f_anchor f = Some (s, t) -> 0 <= s -> t <= se_now env -> s + (se_now env - t) / FHSS_SLOT_MS + 1 < SLOTS -> 0 <= se_prep env ->
  let '(n', f', r) := fhss_send n f dest data confirmed env in
  (air n' = air n /\ r <> Delivered) \/ compliant n f confirmed s t env n' f'.
Proof.
  intros Ha Hs Ht Hk Hpr. destruct (cur_slot_val s t (se_now env) Hs Ht Hk) as (C1 & C2 & C3 & C4).
  set (k := s + (se_now env - t) / FHSS_SLOT_MS) in *. unfold fhss_send. rewrite Ha. do 2 (split_if; [by left|]). case_bool_decide as Hst; [|by left].
  cbn [negb]. do 2 (split_if; [by left|]). cbv zeta. rewrite C1, C2. set (room := sat_sub _ _). split_if; [by left|]. bool_hyps.
  destruct (locked (txc (tx n))) eqn:Hl; [done|]. destruct (net_alloc_unlocked n (se_fate env) Hl) as (n1 & -> & _ & Hair & _).
  match goal with |- context [seal_frame ?key ?h data _] => destruct (seal_whole key h data) as (buf & len & E & Hb); [done | set (hdr := h) in *; set (key0 := key) in *] end.
  rewrite E. set (e := {| a_key := key0; a_header := hdr; a_payload := data; a_frame := slice buf 0 len |}).
  assert (Hlen : zlen (a_frame e) = HDR_LEN + zlen data + TAG_LEN) by (cbn [a_frame e]; by rewrite Hb, zlen_frame).
  assert (Hfit : se_prep env <= MASTER_LOOP_BUDGET -> sent_at env + occupies e confirmed + GUARD <= start_of (s, t) k + FHSS_SLOT_MS).
  { unfold occupies, sent_at. rewrite Hlen. unfold room, sat_sub, MASTER_LOOP_BUDGET in *. destruct confirmed; lia. }
  assert (Hrest : forall n' f' : _, air n' = e :: air n -> f_cur_channel f' = fhss_channel_for (f_seed f) k -> compliant n f confirmed s t env n' f').
  { intros n' f' H1 H2. unfold compliant. cbv zeta. fold k. exists e. do 3 (split; [done|]). split; [unfold sent_at; lia|]. split; [exact Hfit|]. rewrite H2. intros k' Hk' Hne Hc.
    pose proof (channel_revisit _ _ _ Hk' C4 Hc Hne). unfold start_of, FHSS_N, FHSS_SLOT_MS in *. cbn [fst snd]. lia. }
  destruct (se_tx env) as [?|?]; [|right; apply Hrest; [simpl; by rewrite Hair | done]].
  destruct confirmed; cbn [negb]; [|right; apply Hrest; [simpl; by rewrite Hair | done]].
  match goal with |- context [await_ack ?m ?a ?w ?h] => pose proof (quiet_await m a w h) as (_ & Hq & _); destruct (await_ack m a w h) as [n3 acked] end.
  right. apply Hrest; [|done]. cbn [fst] in Hq. rewrite Hq. simpl. by rewrite Hair.
Qed.
(** The room check is not repeated before the frame: a send whose preparation stalls for a slot or more, as the
    counter's watermark write may, goes out in a later slot, still on the channel of the one it was checked for. *)
Theorem stalled_send_leaves_slot (n : net) f dest data env s t : FHSS_SLOT_MS <= se_prep env ->
  f_anchor f = Some (s, t) -> 0 <= s -> t <= se_now env -> s + (se_now env - t) / FHSS_SLOT_MS + 1 < SLOTS ->
  snd (fhss_send n f dest data false env) = Delivered ->
  let k := s + (se_now env - t) / FHSS_SLOT_MS in
  start_of (s, t) k + FHSS_SLOT_MS <= sent_at env /\
  f_cur_channel (snd (fst (fhss_send n f dest data false env))) = fhss_channel_for (f_seed f) k.
Proof.
  intros Hpr Ha Hs Ht Hk Hr k. destruct (cur_slot_val s t (se_now env) Hs Ht Hk) as (C1 & C2 & C3 & C4). fold k in C1, C2, C3, C4.
  split; [unfold sent_at; lia|]. revert Hr. unfold fhss_send. rewrite Ha. do 5 (split_if; [done|]). cbv zeta. rewrite C1.
  split_if; [done|]. destruct (net_alloc n (se_fate env)) as [n1 [c|]]; [|done]. destruct (seal_frame _ _ _ _) as [buf [len|]]; [|done].
  by destruct (se_tx env).
Qed.
End Compliance.

Module Demo.
Import Ccm.ToyCipher RadioFrame.Demo.
(** A gateway whose slot [k] starts at [1000 + 300 k] and a node that heard its beacon of slot 5. *)
Definition m0 : Fhss :=
  {| f_role := Master; f_enabled := true; f_seed := 77; f_key := k; f_state := Synced; f_anchor := Some (5, 2500); f_last_beacon := 0; f_cur_channel := 3;
     f_gate := gate_reset gate_new 4; f_acquire_t0 := None; f_airtime_ms := repeat 0 80 |}.
Definition starts (j : Z) : Z := 1000 + 300 * j.
Definition heard_at (j : Z) : Z := starts j + beacon_toa_ms + 2.
Definition f0 : Fhss :=
  {| f_role := Node; f_enabled := true; f_seed := 77; f_key := k; f_state := Synced; f_anchor := Some (5, heard_at 5 - beacon_toa_ms);
     f_last_beacon := heard_at 5; f_cur_channel := 3; f_gate := gate_reset gate_new 4; f_acquire_t0 := None; f_airtime_ms := repeat 0 80 |}.
Definition beacon_frame (j : Z) : list Z :=
  frame_bytes k {| frame_type := Beacon; flags := 0; src := NetLink.Demo.GATEWAY; dest := BROADCAST; RadioFrame.counter := 900 + j; bulk_index := None |}
    (beacon_payload 4 (j / FHSS_N) (wrap8 (j mod FHSS_N))).
(** A stranger's frame and then the beacon of slot [j], when the window is on its channel. *)
Definition clear_air (now j : Z) : NodeEnv :=
  {| ne_now := now; ne_hear := fun ch _ _ => if ch =? fhss_channel_for 77 j then [(Ok [1; 2; 3], now); (Ok (beacon_frame j), heard_at j)] else [] |}.
Definition deaf (now : Z) : NodeEnv := {| ne_now := now; ne_hear := fun _ _ _ => [] |}.
Lemma starts_schedule : schedule starts.
Proof. unfold schedule, starts, US_PER_S, DRIFT_PPM, FHSS_SLOT_MS. split; [lia|]. intros s j Hsj. lia. Qed.
Lemma f0_follows : Follows starts m0 f0.
Proof.
  constructor; [done | by split | done|]. exists 5. split; [lia|]. split; [reflexivity|]. unfold stamped, JITTER.
  change (f_last_beacon f0) with (starts 5 + beacon_toa_ms + 2). lia.
Qed.
Lemma clear_hears f now j : next_slot f now = j -> 0 <= j < 1000 -> hears starts m0 f (clear_air now j).
Proof.
  intros E Hj. unfold hears. cbn [ne_now ne_hear clear_air]. rewrite E. cbv zeta. intros opened len _ _. exists [(Ok [1; 2; 3], now)], (beacon_frame j), (heard_at j), [].
  change (f_seed m0) with 77. rewrite Z.eqb_refl. split; [done|]. split; [by repeat constructor|]. split.
  - eexists. split; [|split; [|reflexivity]]; [|done]. constructor; simpl; try done; mlia.
  - unfold stamped, heard_at, JITTER. lia.
Qed.

Definition after_fade : Fhss := ticks f0 [deaf 2600].
Lemma follower_keeps_up_witness :
  next_slot after_fade 2900 = 7 /\ ns_got_beacon (snd (fhss_node_tick after_fade (clear_air 2900 7))) = true.
Proof.
  assert (Hn : next_slot after_fade 2900 = 7) by (vm_compute; reflexivity). split; [exact Hn|].
  assert (H := follower_keeps_up starts starts_schedule m0 f0 [deaf 2600] (clear_air 2900 7)). fold after_fade in H.
  destruct (fhss_node_tick after_fade (clear_air 2900 7)) as [f' ns]. cbv zeta in H. cbn [snd].
  rewrite (proj1 (H f0_follows ltac:(by split) ltac:(split; [unfold on_time; vm_compute; repeat split; discriminate | split; [right; by split | exact I]])
    ltac:(unfold on_time; vm_compute; repeat split; discriminate) ltac:(apply clear_hears; [exact Hn | lia]))).
  reflexivity.
Defined.

Definition hopper : Net NetLink.Demo.Store := set_access NetLink.Demo.node NetCore.Fhss.
Definition sending (now prep : Z) : SendEnv := {| se_now := now; se_prep := prep; se_fate := Landed; se_tx := Ok tt; se_window := [] |}.
Lemma hop_compliance_witness :
  snd (fhss_send hopper f0 NetLink.Demo.GATEWAY [1; 2; 3] false (sending 2610 12)) = Delivered /\
  compliant hopper f0 false 5 2502 (sending 2610 12) (fst (fst (fhss_send hopper f0 NetLink.Demo.GATEWAY [1; 2; 3] false (sending 2610 12))))
    (snd (fst (fhss_send hopper f0 NetLink.Demo.GATEWAY [1; 2; 3] false (sending 2610 12)))).
Proof.
  assert (E : snd (fhss_send hopper f0 NetLink.Demo.GATEWAY [1; 2; 3] false (sending 2610 12)) = Delivered) by (vm_compute; reflexivity). split; [exact E|].
  assert (H := hop_compliance hopper f0 NetLink.Demo.GATEWAY [1; 2; 3] false (sending 2610 12) 5 2502).
  destruct (fhss_send hopper f0 NetLink.Demo.GATEWAY [1; 2; 3] false (sending 2610 12)) as [[n' f'] r]. cbn [fst snd] in *.
  destruct H as [[_ Hr]|H]; [vm_compute; reflexivity | lia | vm_compute; discriminate | vm_compute; reflexivity | vm_compute; discriminate | by destruct (Hr E) | exact H].
Defined.
(** A send that stalls for five seconds: its frame begins in slot 22, on the channel of slot 5, not slot 22's. *)
Lemma stalled_send_leaves_slot_witness :
  start_of (5, 2502) 22 <= sent_at (sending 2610 5000) < start_of (5, 2502) 22 + FHSS_SLOT_MS /\
  f_cur_channel (snd (fst (fhss_send hopper f0 NetLink.Demo.GATEWAY [1; 2; 3] false (sending 2610 5000)))) = fhss_channel_for 77 5 /\
  fhss_channel_for 77 5 <> fhss_channel_for 77 22.
Proof.
  split; [vm_compute; split; [discriminate | reflexivity]|]. split; [|vm_compute; discriminate].
  apply (stalled_send_leaves_slot hopper f0 NetLink.Demo.GATEWAY [1; 2; 3] (sending 2610 5000) 5 2502);
    [vm_compute; discriminate | reflexivity | lia | vm_compute; discriminate | vm_compute; reflexivity | vm_compute; reflexivity].
Defined.
End Demo.
