(* ===== verification/BulkLink.v ===== *)
(** What a bulk transfer (Bulk) delivers: over any history of the sender, the bytes fetched are the bytes
    of one transfer it really served, whole and unmixed; and a fetch whose requests are answered ends
    with them. *)
From stdpp Require Import relations.
From S2P Require Import Prelude Bytes NetTxctr NetReplay NetWire NetPairing Radio Ccm RadioFrame Fhss NetCore NetAir Bulk NetPair NetLink.
#[local] Abbreviation hcounter := RadioFrame.counter.

(** ** What each operation puts on the air *)

(** A header no bulk transfer carries data or an announcement under. *)
Definition plain_header (h : Header) : bool :=
  negb (bool_decide (frame_type h = BulkData)) && negb (bool_decide (frame_type h = Data) && negb (Z.land (flags h) BULK_ANNOUNCE =? 0)).
Definition plain (e : Aired) : Prop := plain_header (a_header e) = true.

Section Grows.
Context {W : Type} `{NS : !NetStore W} `{Haes : !AesBlock}.
#[local] Abbreviation net := (Net W).

(** From [n] to [n'] only frames satisfying [P] were transmitted, and counters were only added. *)
Definition grows (P : Aired -> Prop) (n n' : net) : Prop :=
  (exists es, air n' = es ++ air n /\ Forall P es) /\ exists cs, on_air (tx n') = cs ++ on_air (tx n).
#[export] Instance grows_preorder P : PreOrder (grows P).
Proof.
  split.
  - intros n. split; [by exists [] | by exists []].
  - intros a b c ((e1 & Ha1 & Hp1) & c1 & Ho1) ((e2 & Ha2 & Hp2) & c2 & Ho2). split.
    + exists (e2 ++ e1). split; [by rewrite Ha2, Ha1, app_assoc | by apply Forall_app].
    + exists (c2 ++ c1). by rewrite Ho2, Ho1, app_assoc.
Qed.
Lemma grows_quiet P (n : net) n' : quiet n n' -> grows P n n'.
Proof. intros (Ht & Ha & _). split; [by exists [] | exists []; by rewrite Ht]. Qed.
Lemma grows_radio_tx (P : Aired -> Prop) (n : net) e : P e -> grows P n (radio_tx n e).
Proof. intros He. split; [exists [e]; split; [done | by constructor] | by exists []]. Qed.
Lemma grows_alloc P (n : net) o : grows P n (fst (net_alloc n o)).
Proof.
  unfold net_alloc, alloc_counter. destruct (alloc (txc (tx n))) as [t [[c p]|]]; [|by split; exists []].
  destruct (match p with None => _ | Some _ => _ end) as [t' st]. split; [by exists [] | by exists [c]].
Qed.
Lemma addr_alloc (n : net) o : addr (fst (net_alloc n o)) = addr n.
Proof. unfold net_alloc. by destruct (alloc_counter _ _). Qed.
Lemma grows_try_tx P (n : net) el toa : grows P n (fst (try_tx n el toa)).
Proof. apply grows_quiet, quiet_try_tx. Qed.
Lemma grows_tx_frame (P : Aired -> Prop) (n : net) key hdr payload env : P (tx_entry key hdr payload) -> grows P n (fst (tx_frame n key hdr payload env)).
Proof.
  intros He. destruct (tx_frame_cases n key hdr payload env) as (n1 & Hq & [-> | ->]); cbn [fst]; [by apply grows_quiet|].
  etrans; [by apply grows_quiet | by apply grows_radio_tx].
Qed.
Lemma addr_tx_frame (n : net) key hdr payload env : addr (fst (tx_frame n key hdr payload env)) = addr n.
Proof. destruct (tx_frame_cases n key hdr payload env) as (n1 & (_ & _ & Ha) & [-> | ->]); exact Ha. Qed.
End Grows.

(** Take a sub-operation that returns a pair apart, keeping that it [grows] by plain frames. *)
Ltac grow_step lem :=
  let H := fresh "Hg" in pose proof lem as H;
  match type of H with grows _ _ (fst ?x) => destruct x eqn:? end; cbn [fst snd] in *.

Section PlainOps.
Context {W : Type} `{NS : !NetStore W} `{Haes : !AesBlock}.
#[local] Abbreviation net := (Net W).
#[local] Abbreviation plainly := (grows (W := W) plain).

Lemma plain_send_loop reps : forall attempt (n : net) e dest confirmed env result, plain e ->
  plainly n (fst (send_loop reps attempt e dest confirmed env result n)).
Proof.
  induction reps as [|reps IH]; intros attempt n e dest confirmed env result He; cbn [send_loop]; [done|].
  set (n0 := match attempt with O => n | S _ => fst (backoff_ms n) end).
  assert (Hq0 : plainly n n0) by (apply grows_quiet; unfold n0; by destruct attempt).
  grow_step (grows_try_tx plain n0 (at_elapsed (env attempt)) (frame_toa_ms (zlen (a_frame e)))). etrans; [exact Hq0|].
  etrans; [exact Hg|]. split_if; [done|]. etrans; [by apply (grows_radio_tx plain _ e)|]. set (n2 := radio_tx n1 e).
  destruct (at_tx (env attempt)).
  - destruct confirmed; [|done]. cbn [negb].
    grow_step (grows_quiet plain _ _ (quiet_await n2 (key_for n2 dest) (ack_new (addr n2) dest (hcounter (a_header e))) (at_window (env attempt)))).
    etrans; [exact Hg0|]. split_if; [done | by apply IH].
  - case_bool_decide; [by apply IH | done].
Qed.
Lemma plain_send (n : net) dest data confirmed reps o env : plainly n (fst (send n dest data confirmed reps o env)).
Proof.
  unfold send. set (n0 := set_marks n None _). etrans; [apply (grows_quiet plain n n0), quiet_marks|].
  repeat (split_if; [done|]). grow_step (grows_alloc plain n0 o). etrans; [exact Hg|].
  destruct o0 as [c|]; [|done]. destruct (seal_frame _ _ _ _) as [buf [len|]]; [|done]. apply plain_send_loop. by destruct confirmed.
Qed.
Lemma plain_send_ack (n : net) dest acked rssi env : plainly n (send_ack n dest acked rssi env).
Proof.
  unfold send_ack. split_if; [done|]. cbv zeta.
  assert (Hq : plainly n (fst (match access n with Duty => try_tx n (t_elapsed env) (frame_toa_ms (HDR_LEN + 6 + TAG_LEN)) | _ => (n, true) end)))
    by (destruct (access n); [apply grows_try_tx | done | done]).
  change (zlen (patch _ 5 _)) with 6. destruct (match access n with Duty => _ | _ => _ end) as [n1 ok]. cbn [fst] in Hq.
  etrans; [exact Hq|]. split_if; [done|]. grow_step (grows_alloc plain n1 (t_fate env)). etrans; [exact Hg|].
  destruct o as [c|]; [|done]. destruct (seal_frame _ _ _ _) as [buf [len|]]; [|done]. by apply grows_radio_tx.
Qed.
Lemma plain_keyed_answer (n : net) rx env :
  match keyed_answer n rx env with (n', Ok e) => plainly n n' /\ plain e | (n', Err _) => plainly n n' end.
Proof.
  unfold keyed_answer. repeat (split_if; [done|]). destruct (parse rx) as [[peek l]|]; [|done]. cbv zeta.
  split_if; [done|]. destruct (open_frame _ rx) as [b [[h [lo hi]]|]]; [|done]. repeat (split_if; [done|]).
  set (n1 := lane_accept n _ _). assert (H1 : plainly n n1) by apply grows_quiet, quiet_lane_accept.
  grow_step (grows_try_tx plain n1 (t_elapsed env) (frame_toa_ms KEYED_FRAME_LEN)).
  assert (H2 : plainly n n0) by (etrans; [exact H1 | exact Hg]). split_if; [done|].
  grow_step (grows_alloc plain n0 (t_fate env)). assert (H3 : plainly n n2) by (etrans; [exact H2 | exact Hg0]).
  destruct o as [c|]; [|done]. by destruct (seal_frame _ _ _ _) as [buf [len|]].
Qed.
Lemma plain_recv (n : net) heard rssi lqi env : plainly n (fst (recv n heard rssi lqi env)).
Proof.
  unfold recv. destruct heard as [buf|]; [|done]. destruct (parse buf) as [[peek l]|]; [|done]. split_if.
  { destruct (keyed_responder n); [|done]. pose proof (plain_keyed_answer n buf env) as Hk.
    destruct (keyed_answer n buf env) as [n1 [e|]]; [|exact Hk]. destruct Hk as [Hn He]. cbn [fst].
    etrans; [exact Hn|]. etrans; [by apply (grows_radio_tx plain n1 e)|]. by destruct (t_result env); [apply grows_quiet, quiet_marks|]. }
  do 3 (split_if; [done|]). cbv zeta. destruct (open_frame _ buf) as [b [[h [lo hi]]|]]; [|done]. split_if; [done|].
  destruct (classify _ _); cbn [fst].
  - set (n1 := lane_accept n _ _). assert (H1 : plainly n n1) by apply grows_quiet, quiet_lane_accept.
    split_if; [|exact H1]. etrans; [exact H1 | apply plain_send_ack].
  - split_if; [|done]. grow_step (grows_quiet plain _ _ (quiet_lane_reack n (src h))). etrans; [exact Hg|].
    split_if; [apply plain_send_ack | done].
  - done.
Qed.
Lemma plain_join_loop tries : forall (n : net) own key, plainly n (fst (join_loop n own key tries)).
Proof.
  induction tries as [|t tries IH]; intros n own key; cbn [join_loop]; [done|].
  grow_step (grows_try_tx plain n (t_elapsed (j_env t)) (frame_toa_ms KEYED_FRAME_LEN)). etrans; [exact Hg|].
  split_if; [apply IH|]. grow_step (grows_alloc plain n0 (t_fate (j_env t))). etrans; [exact Hg0|].
  destruct o as [c|]; [|done]. destruct (seal_frame _ _ _ _) as [buf [len|]]; [|done].
  match goal with |- context [radio_tx n1 ?e] => etrans; [by apply (grows_radio_tx plain n1 e)|] end.
  destruct (t_result (j_env t)); [|apply IH].
  destruct (join_window _ _ _ _); [done | apply IH].
Qed.
Lemma plain_join (n : net) own key tries : plainly n (fst (join_keyed n own key tries)).
Proof. unfold join_keyed. repeat (split_if; [done|]). apply plain_join_loop. Qed.

Lemma plain_tx_beacon (n : net) f slot ch o : plainly n (fst (fhss_tx_beacon n f slot ch o)).
Proof.
  unfold fhss_tx_beacon. split_if; [done|]. cbv zeta. grow_step (grows_alloc plain n o). etrans; [exact Hg|].
  destruct o0 as [c|]; [|done]. destruct (seal_frame _ _ _ _) as [buf [len|]]; [|done]. by apply grows_radio_tx.
Qed.
Lemma plain_master (n : net) f env : plainly n (fst (fst (fhss_master_tick n f env))).
Proof.
  unfold fhss_master_tick. split_if; [done|]. destruct (f_anchor f) as [anchor|]; [|done]. cbv zeta.
  match goal with |- context [fhss_tx_beacon n ?f ?s ?c ?o] => grow_step (plain_tx_beacon n f s c o) end. etrans; [exact Hg|].
  split_if; [|done]. destruct (me_heard _ _) as [[heard rssi] lqi]. pose proof (plain_recv n0 heard rssi lqi (me_ack env)) as Hr.
  by destruct (recv _ _ _ _ _).
Qed.
Lemma plain_hop_send (n : net) f dest data confirmed env : plainly n (fst (fst (fhss_send n f dest data confirmed env))).
Proof.
  unfold fhss_send. repeat (split_if; [done|]). destruct (f_anchor f) as [anchor|]; [|done]. cbv zeta. split_if; [done|].
  grow_step (grows_alloc plain n (se_fate env)). etrans; [exact Hg|]. destruct o as [c|]; [|done].
  destruct (seal_frame _ _ _ _) as [buf [len|]]; [|done].
  match goal with |- context [radio_tx n0 ?e] => etrans; [apply (grows_radio_tx plain n0 e); by destruct confirmed|]; set (n2 := radio_tx n0 e) end.
  destruct (se_tx env); [|done]. split_if; [done|].
  match goal with |- context [await_ack n2 ?k ?w ?h] => grow_step (grows_quiet plain _ _ (quiet_await n2 k w h)) end. exact Hg0.
Qed.
(** A frame of a pairing: allocated, then sealed and sent. *)
Lemma plain_pair_frame (n : net) o n1 c key ty from to payload env : net_alloc n o = (n1, Some c) -> ty <> BulkData -> ty <> Data ->
  plainly n (fst (tx_pair n1 key (pair_header ty from to c) payload env)).
Proof.
  intros E H1 H2. pose proof (grows_alloc plain n o) as Hg. rewrite E in Hg. etrans; [exact Hg|]. apply grows_tx_frame.
  unfold plain, plain_header. simpl. by rewrite !bool_decide_eq_false_2.
Qed.
Ltac pair_step :=
  match goal with
  | E : net_alloc ?n ?o = (?n1, Some ?c) |- context [tx_pair ?n1 ?k (pair_header ?ty ?from ?to ?c) ?p ?e] =>
      grow_step (plain_pair_frame n o n1 c k ty from to p e E ltac:(done) ltac:(done))
  end.
Lemma plain_alloc_None (n : net) o n' : net_alloc n o = (n', None) -> plainly n n'.
Proof. intros E. pose proof (grows_alloc plain n o) as Hg. by rewrite E in Hg. Qed.
Lemma plain_open_loop `{!PairPrims} turns : forall (n : net) host, plainly n (fst (fst (open_loop n host turns))).
Proof.
  induction turns as [|t turns IH]; intros n host; cbn [open_loop]; [done|]. destruct (ready _ _) as [h ok]. split_if; [done|].
  destruct (rx_pair _ _ _) as [[hdr payload]|]; [|by apply IH]. do 2 (split_if; [by apply IH|]). destruct (ph_eph h) as [eph|]; [|by apply IH].
  cbv zeta. destruct (net_alloc n _) as [n1 [c|]] eqn:E; [|by eapply plain_alloc_None]. pair_step. etrans; [exact Hg|].
  split_if; [by apply IH|]. destruct (wait_frame _ _ _ _) as [nn|]; [|by apply IH]. destruct (handshake _ _ _ _ _ _) as [s|]; [|by apply IH].
  destruct (net_alloc n0 _) as [n3 [c2|]] eqn:E2; [|by eapply plain_alloc_None]. pair_step. etrans; [exact Hg0|].
  split_if; [by apply IH|]. destruct (wait_frame _ _ _ _); [done | by apply IH].
Qed.
Lemma plain_open_pairing `{!PairPrims} (n : net) host turns : plainly n (fst (fst (open_pairing n host turns))).
Proof. unfold open_pairing. do 2 (split_if; [done|]). apply plain_open_loop. Qed.
Lemma plain_join_turns `{!PairPrims} turns : forall (n : net) own un, plainly n (fst (join_turns n own un turns)).
Proof.
  induction turns as [|t turns IH]; intros n own un; cbn [join_turns]; [done|]. destruct (if un then _ else _) as [eph|]; [|done].
  destruct (net_alloc n _) as [n1 [c|]] eqn:E; [|by eapply plain_alloc_None]. pair_step. etrans; [exact Hg|].
  split_if; [by apply IH|]. destruct (wait_frame _ _ _ _) as [[gw resp]|]; [|by apply IH]. cbv zeta.
  destruct (net_alloc n0 _) as [n3 [c2|]] eqn:E2; [|by eapply plain_alloc_None]. pair_step. etrans; [exact Hg0|].
  split_if; [by apply IH|]. destruct (wait_frame _ _ _ _) as [s|]; [|by apply IH].
  destruct (net_alloc n2 _) as [n5 [c3|]] eqn:E3; [|by eapply plain_alloc_None]. pair_step. etrans; [exact Hg1|].
  split_if; [by apply IH | done].
Qed.
Lemma plain_pair_join `{!PairPrims} (n : net) own turns : plainly n (fst (join n own turns)).
Proof. unfold join. do 3 (split_if; [done|]). apply plain_join_turns. Qed.

Section PlainFetch.
Context {K : Type} `{SK : !BulkSink K}.

Lemma plain_pull_chunk reps : forall attempt (n : net) key from own c k session total (sink : K) env,
  let r := pull_chunk reps attempt n key (request_header own from c k) session total k sink env in
  plainly n (fst (fst r)) /\ addr (fst (fst r)) = addr n.
Proof.
  induction reps as [|reps IH]; intros attempt n key from own c k session total sink env; cbv zeta; cbn [pull_chunk]; [done|].
  pose proof (addr_tx_frame n key (request_header own from c k) (le_bytes 4 session) (rp_tx (env attempt))) as Ha.
  grow_step (grows_tx_frame plain n key (request_header own from c k) (le_bytes 4 session) (rp_tx (env attempt)) eq_refl).
  assert (Hr : forall m, plainly n0 m /\ addr m = addr n0 -> plainly n m /\ addr m = addr n).
  { intros m [H1 H2]. split; [by etrans | congruence]. }
  destruct b; cbn [negb]; [|apply Hr, IH]. destruct (answer_of _ _ _ _ _ _ _); [|apply Hr, IH].
  destruct (consume _ _ _). by apply Hr.
Qed.
Lemma plain_fetch_chunks todo : forall (n : net) key from session total k received (sink : K) fates env,
  plainly n (fst (fst (fetch_chunks todo n key from session total k received sink fates env))).
Proof.
  induction todo as [|todo IH]; intros n key from session total k received sink fates env; cbn [fetch_chunks]; [done|].
  grow_step (grows_alloc plain n (fates k)). destruct o as [c|]; [|exact Hg]. etrans; [exact Hg|].
  pose proof (plain_pull_chunk (Z.to_nat BULK_REQ_REPS) 0 n0 key from (addr n0) c k session total sink (env k)) as [H _].
  destruct (pull_chunk _ _ _ _ _ _ _ _ _ _) as [[n2 sink2] [d| |]]; cbn [fst] in *; [|done|done]. etrans; [exact H | apply IH].
Qed.
Lemma plain_fetch (n : net) from (sink : K) announce fates env : plainly n (fst (fst (bulk_fetch_into n from sink announce fates env))).
Proof.
  unfold bulk_fetch_into. do 2 (split_if; [done|]). cbv zeta. destruct (wait_announce _ _ _ _) as [[total session]|]; [|done].
  split_if; [done|]. destruct (begin sink total). split_if; [done|]. apply plain_fetch_chunks.
Qed.
End PlainFetch.

Lemma plain_op (n n' : net) : op_step n n' -> plainly n n'.
Proof.
  intros H. destruct H as [n dest data confirmed reps o env|n heard rssi lqi env|n own key tries Ho|n a key|n a
    |K SK n from sink announce fates env Ht|n a b|n a s|n f o Hf|n f role cfg now|n f env|n f dest data confirmed env|n f env|PP n host turns|PP n own turns|n lane period responder joins acc g|n cfg w o Hc Hp|n Hp].
  - apply plain_send.
  - apply plain_recv.
  - apply plain_join.
  - apply grows_quiet, quiet_add_peer.
  - apply grows_quiet, quiet_remove_peer.
  - apply plain_fetch.
  - apply grows_quiet, quiet_set_pending.
  - apply grows_quiet, quiet_raise_peer.
  - split; exists []; [unfold net_raise_floor; by destruct (raise_tx_floor _ _ _)|].
    unfold net_raise_floor, raise_tx_floor. by destruct (raise_to _ _ _ _) as [[st t] ok].
  - apply grows_quiet, quiet_enable.
  - apply plain_master.
  - apply plain_hop_send.
  - apply grows_quiet, quiet_retry.
  - apply plain_open_pairing.
  - apply plain_pair_join.
  - apply grows_quiet, quiet_config.
  - split; exists []; [done|]. simpl. unfold boot. by destruct (resume _ _) as [t [w'|]].
  - split; by exists [].
Qed.
End PlainOps.

(** ** The transfers a device has served *)

Record Transfer := { tr_own : Z; tr_dest : Z; tr_key : list Z; tr_announce : Z; tr_session : Z; tr_data : list Z }.

Section Ledger.
Context {W : Type} `{NS : !NetStore W} `{Haes : !AesBlock} `{Hlaws : !AesBlockLaws}.
#[local] Abbreviation net := (Net W).

(** A life, with what it served: the receiver and the bytes of every transfer. *)
Inductive history : net -> list (Z * list Z) -> Prop :=
| hi_first n : first_boot n -> history n []
| hi_op n n' L : history n L -> op_step n n' -> history n' L
| hi_serve {S} `{BulkSourceLaws S} n L dest (source : S) o o' start turns : history n L -> Forall (fun t => heard_ok (tn_heard t)) turns ->
    history (fst (fst (bulk_serve_from n dest source o o' start turns))) ((dest, source_data source) :: L).

(** The frames of a transfer: the announcement, and chunk after chunk of the data. *)
Definition of_transfer (t : Transfer) (e : Aired) : Prop :=
  e = announce_entry (tr_key t) (tr_own t) (tr_dest t) (tr_announce t) (tr_session t) (zlen (tr_data t)) \/
  exists k, 0 <= k < n_chunks (zlen (tr_data t)) /\ e = chunk_entry (tr_key t) (tr_own t) (tr_dest t) (tr_session t) (tr_data t) k.

Section Served.
Context {S : Type} `{SO : !BulkSource S} `{SL : !BulkSourceLaws S}.

Lemma grows_serve_loop t turns : forall (n : net) (source : S) st, Forall (fun u => heard_ok (tn_heard u)) turns ->
  addr n = tr_own t -> source_data source = tr_data t ->
  grows (of_transfer t) n
    (fst (fst (serve_loop n (tr_key t) (tr_dest t) (tr_announce t) (tr_session t) (zlen (tr_data t)) source st turns))).
Proof.
  induction turns as [|u turns IH]; intros n source st Hok Ha Hs; cbn [serve_loop]; [done|].
  inversion Hok as [|u' l' Hu Hok']. subst u' l'. split_if; [done|].
  set (n1 := if negb (sv_got_req st) then _ else n).
  assert (H1 : grows (of_transfer t) n n1 /\ addr n1 = tr_own t).
  { unfold n1. destruct (negb (sv_got_req st)); [|done]. split; [|by rewrite addr_tx_frame].
    apply grows_tx_frame. left. by rewrite Ha. }
  destruct H1 as [H1 Ha1]. etrans; [exact H1|]. destruct (request_of _ _ _ _ _ _) as [k|] eqn:Er; [|by apply IH].
  apply request_range in Er; [|exact Hu].
  destruct (chunk_in_data (zlen (tr_data t)) k (zlen_nonneg _) Er) as (Hc1 & Hc2 & Hc3).
  rewrite <- Hs in Hc2, Hc3 |- *. destruct (read_data source (k * BULK_CHUNK) (chunk_len (zlen (source_data source)) k) Hc1 Hc2 Hc3) as [Hr Hs'].
  destruct (read source _ _) as [source' chunk]. cbn [fst snd] in Hr, Hs'. subst chunk. cbv zeta.
  match goal with |- context [tx_frame n1 ?k ?h ?p ?e] => etrans; [apply (grows_tx_frame (of_transfer t) n1 k h p e)|] end.
  - right. exists k. split; [exact Er|]. unfold chunk_entry. rewrite Ha1, Hs. reflexivity.
  - rewrite Hs. apply IH; [exact Hok' | by rewrite addr_tx_frame | by rewrite Hs'].
Qed.
Lemma alloc_new (n : net) o n' c : AirInv n -> net_alloc n o = (n', Some c) -> u32_ok c /\ ~ In c (on_air (tx n)) /\ In c (on_air (tx n')).
Proof.
  intros HI E. destruct (air_alloc _ _ _ _ HI E) as (_ & _ & Hc & _). split; [done|].
  destruct HI as [HI _]. unfold net_alloc in E. destruct (alloc_counter (tx n) o) as [d c'] eqn:Ea. injection E as <- ->.
  destruct (alloc_counter_spec _ _ _ _ HI Ea) as (Hl & -> & Ho & _). destruct (inv_live _ HI Hl) as ((Hb & _) & _).
  split; [|simpl; rewrite Ho; by left]. intros Hin. rewrite List.Forall_forall in Hb. specialize (Hb _ Hin). simpl in Hb. lia.
Qed.
Lemma serve_ledger (n : net) dest (source : S) o o' start turns : AirInv n -> Forall (fun u => heard_ok (tn_heard u)) turns ->
  let n' := fst (fst (bulk_serve_from n dest source o o' start turns)) in
  grows plain n n' \/
  exists t, tr_dest t = dest /\ tr_data t = source_data source /\ zlen (tr_data t) <= MAX_BULK_LEN /\ u32_ok (tr_session t) /\
    ~ In (tr_session t) (on_air (tx n)) /\ In (tr_session t) (on_air (tx n')) /\ grows (of_transfer t) n n'.
Proof.
  intros HI Hok. unfold bulk_serve_from. do 2 (split_if; [by left|]). cbv zeta. split_if; [by left|]. bool_hyps.
  grow_step (grows_alloc plain n o). destruct o0 as [c|]; [|by left].
  destruct (air_alloc _ _ _ _ HI Heqp) as (HI1 & _).
  pose proof (grows_alloc plain n0 o') as Hg2. destruct (net_alloc n0 o') as [n2 [session|]] eqn:E2; cbn [fst] in *; [|left; by etrans].
  destruct (alloc_new _ _ _ _ HI1 E2) as (Hu & Hnew & Hin). right.
  exists {| tr_own := addr n2; tr_dest := dest; tr_key := key_for n dest; tr_announce := c; tr_session := session; tr_data := source_data source |}.
  set (t := {| tr_own := _ |}). rewrite total_len_data in *.
  pose proof (grows_serve_loop t turns n2 source {| sv_got_req := false; sv_served_last := false; sv_last_progress := start |} Hok eq_refl eq_refl) as Hl.
  change (tr_key t) with (key_for n dest) in *. change (tr_dest t) with dest in *. change (tr_announce t) with c in *.
  change (tr_session t) with session in *. change (tr_data t) with (source_data source) in *.
  set (n' := fst (fst (serve_loop _ _ _ _ _ _ _ _ _))) in *.
  assert (Hall : grows (of_transfer t) n n2).
  { destruct Hg as ((e1 & Ha1 & _) & c1 & Ho1), Hg2 as ((e2 & Ha2 & _) & c2 & Ho2). split.
    - exists []. split; [|done]. unfold net_alloc in *. destruct (alloc_counter (tx n) o), (alloc_counter (tx n0) o'). injection Heqp as <- _. by injection E2 as <- _.
    - exists (c2 ++ c1). by rewrite Ho2, Ho1, app_assoc. }
  split_and!; try done; [| |by etrans].
  - intros H. apply Hnew. destruct Hg as (_ & cs & ->). apply in_or_app. by right.
  - destruct Hl as (_ & cs & ->). apply in_or_app. by right.
Qed.
End Served.

(** Everything of a bulk transfer on the air belongs to one of the transfers served, and no two of
    these share a session. *)
Record Ledger (n : net) (L : list (Z * list Z)) (T : list Transfer) : Prop := {
  le_sessions : forall t, In t T -> u32_ok (tr_session t) /\ In (tr_session t) (on_air (tx n));
  le_distinct : forall t t', In t T -> In t' T -> tr_session t = tr_session t' -> t = t';
  le_served : forall t, In t T -> In (tr_dest t, tr_data t) L /\ zlen (tr_data t) <= MAX_BULK_LEN;
  le_air : forall e, In e (air n) -> plain e \/ exists t, In t T /\ of_transfer t e;
}.
Lemma ledger_grows n n' L L' T (P : Aired -> Prop) : grows P n n' -> (forall e, P e -> plain e) -> incl L L' -> Ledger n L T -> Ledger n' L' T.
Proof.
  intros ((es & Ha & Hp) & cs & Ho) HP HL [H1 H2 H3 H4]. constructor.
  - intros t Ht. destruct (H1 t Ht). split; [done|]. rewrite Ho. apply in_or_app. by right.
  - exact H2.
  - intros t Ht. destruct (H3 t Ht). split; [by apply HL | done].
  - intros e He. rewrite Ha in He. apply in_app_or in He as [He|He]; [|by apply H4]. left. rewrite List.Forall_forall in Hp. auto.
Qed.
Lemma history_air n L : history n L -> AirInv n.
Proof.
  induction 1 as [n Hn|n n' L _ IH Hs|S SO SL n L dest source o o' start turns _ IH Hok].
  - by apply air_first.
  - by eapply air_op.
  - by apply air_bulk_serve.
Qed.
Lemma history_ledger n L : history n L -> exists T, Ledger n L T.
Proof.
  induction 1 as [n (cfg & w & o & _ & ->)|n n' L _ [T IH] Hs|S SO SL n L dest source o o' start turns Hn [T IH] Hok].
  - exists []. constructor; by intros ? [].
  - exists T. apply (ledger_grows n n' L L T plain); [by apply plain_op | done | apply List.incl_refl | done].
  - destruct (serve_ledger n dest source o o' start turns (history_air n L Hn) Hok) as [Hg|(t & Hd & Hs & Hm & Hu & Hnew & Hin & Hg)].
    + exists T. eapply ledger_grows; [exact Hg | done | by intros x; right | exact IH].
    + exists (t :: T). set (n' := fst (fst (bulk_serve_from _ _ _ _ _ _ _))) in *. destruct IH as [H1 H2 H3 H4].
      destruct Hg as ((es & Ha & Hp) & cs & Ho). constructor.
      * intros t' [<-|Ht]; [done|]. destruct (H1 t' Ht). split; [done|]. rewrite Ho. apply in_or_app. by right.
      * intros t1 t2 [<-|Ht1] [<-|Ht2] E; [done | | |by apply H2].
        -- exfalso. apply Hnew. rewrite E. by apply H1.
        -- exfalso. apply Hnew. rewrite <- E. by apply H1.
      * intros t' [<-|Ht]; [split; [left; by rewrite Hd, Hs | exact Hm]|]. destruct (H3 t' Ht). split; [by right | done].
      * intros e He. rewrite Ha in He. apply in_app_or in He as [He|He].
        -- right. exists t. split; [by left|]. rewrite List.Forall_forall in Hp. auto.
        -- destruct (H4 e He) as [|(t' & Ht' & He')]; [by left|]. right. exists t'. by split; [right|].
Qed.
End Ledger.

(** ** Fetching what was served *)

Section Fetched.
Context `{Haes : !AesBlock} `{Hlaws : !AesBlockLaws}.

(** The output with the first [k] chunks of [data] in place. *)
Definition filled (out data : list Z) (k : Z) : list Z := patch out 0 (slice data 0 (Z.min (k * BULK_CHUNK) (zlen data))).
Lemma zlen_chunk (data : list Z) k : 0 <= k < n_chunks (zlen data) -> zlen (chunk_data data k) = chunk_len (zlen data) k.
Proof. intros Hk. destruct (chunk_in_data (zlen data) k (zlen_nonneg _) Hk) as (H1 & H2 & H3). unfold chunk_data. by rewrite zlen_slice by lia. Qed.
Lemma filled_start (out data : list Z) : filled out data 0 = out.
Proof. pose proof (zlen_nonneg data). unfold filled. rewrite Z.mul_0_l, Z.min_l, slice_0 by lia. apply patch_nil. Qed.
Lemma chunks_reach (data : list Z) : zlen data <= n_chunks (zlen data) * BULK_CHUNK.
Proof. unfold n_chunks. pose proof (div_ceil_spec (zlen data) BULK_CHUNK ltac:(mlia)). change BULK_CHUNK with 64 in *. lia. Qed.
Lemma filled_end (out data : list Z) : filled out data (n_chunks (zlen data)) = patch out 0 data.
Proof. pose proof (chunks_reach data). unfold filled. by rewrite Z.min_r, slice_all by lia. Qed.
Lemma zlen_filled (out data : list Z) k : 0 <= k -> zlen data <= zlen out -> zlen (filled out data k) = zlen out.
Proof.
  intros Hk Ho. pose proof (zlen_nonneg data). change BULK_CHUNK with 64. unfold filled. change BULK_CHUNK with 64.
  rewrite zlen_patch; rewrite ?zlen_slice; lia.
Qed.
Lemma filled_step (out data : list Z) k : 0 <= k < n_chunks (zlen data) -> zlen data <= zlen out ->
  patch (filled out data k) (k * BULK_CHUNK) (chunk_data data k) = filled out data (k + 1) /\
  k * BULK_CHUNK + chunk_len (zlen data) k = Z.min ((k + 1) * BULK_CHUNK) (zlen data).
Proof.
  intros Hk Ho. destruct (chunk_in_data (zlen data) k (zlen_nonneg _) Hk) as (H1 & H2 & H3).
  assert (Hn : k * BULK_CHUNK + chunk_len (zlen data) k = Z.min ((k + 1) * BULK_CHUNK) (zlen data))
    by (unfold chunk_len in *; change BULK_CHUNK with 64 in *; lia).
  split; [|exact Hn]. unfold filled. rewrite <- Hn, Z.min_l by lia.
  rewrite (slice_split data 0 (k * BULK_CHUNK)) by lia. rewrite Z.add_0_l. fold (chunk_data data k).
  assert (Hz : zlen (slice data 0 (k * BULK_CHUNK)) = k * BULK_CHUNK) by (by rewrite zlen_slice by lia).
  rewrite patch_split; rewrite ?zlen_app, ?Hz, ?zlen_chunk; try lia; try done.
Qed.

(** Every answer taken for [session] is the chunk of [data]. *)
Definition answers_of (key : list Z) (own from session : Z) (data : list Z) (env : Z -> nat -> Rep) : Prop :=
  forall k i d, 0 <= k < n_chunks (zlen data) -> answer_of key own from session (zlen data) k (rp_heard (env k i)) = Some d -> d = chunk_data data k.

Section Receiver.
Context {W : Type} `{NS : !NetStore W}.
#[local] Abbreviation net := (Net W).

Lemma pull_chunk_cases {K} `{!BulkSink K} reps : forall attempt (n : net) key own from c k session total (sink : K) env, addr n = own ->
  match pull_chunk reps attempt n key (request_header own from c k) session total k sink env with
  | (n', sink', r) => addr n' = own /\
      (sink' = sink /\ r = NoAnswer \/
       exists i d, answer_of key own from session total k (rp_heard (env i)) = Some d /\ sink' = fst (consume sink (k * BULK_CHUNK) d) /\
         r = (if snd (consume sink (k * BULK_CHUNK) d) then Got (zlen d) else SinkAborted))
  end.
Proof.
  induction reps as [|reps IH]; intros attempt n key own from c k session total sink env Ha; cbn [pull_chunk]; [by split; [|left]|].
  pose proof (addr_tx_frame n key (request_header own from c k) (le_bytes 4 session) (rp_tx (env attempt))) as Hq.
  destruct (tx_frame _ _ _ _ _) as [n1 sent]. cbn [fst] in Hq. assert (Ha1 : addr n1 = own) by congruence.
  destruct sent; cbn [negb]; [|by apply IH].
  rewrite Ha1. change (dest (request_header own from c k)) with from.
  destruct (answer_of _ _ _ _ _ _ _) as [d|] eqn:E; [|by apply IH].
  destruct (consume sink _ d) as [sink' ok] eqn:Ec. split; [done|]. right. exists attempt, d. rewrite Ec. done.
Qed.
(** The chunks a fetch into a buffer takes, in order. *)
Lemma fetch_chunks_filled todo : forall (n : net) key own from session data k out (sink : SliceSink) fates env n' sink' r,
  addr n = own -> answers_of key own from session data env -> 0 <= k -> k + Z.of_nat todo = n_chunks (zlen data) -> zlen data <= zlen out ->
  sk_out sink = filled out data k ->
  fetch_chunks todo n key from session (zlen data) k (Z.min (k * BULK_CHUNK) (zlen data)) sink fates env = (n', sink', Some r) ->
  r = zlen data /\ sk_out sink' = patch out 0 data.
Proof.
  induction todo as [|todo IH]; intros n key own from session data k out sink fates env n' sink' r Ha Hans Hk Hn Ho Hs; cbn [fetch_chunks].
  - intros [= _ <- <-]. pose proof (chunks_reach data). replace k with (n_chunks (zlen data)) in * by lia.
    rewrite Hs, filled_end. split; [lia | done].
  - pose proof (addr_alloc n (fates k)) as Ha1. destruct (net_alloc n (fates k)) as [n1 [c|]]; [|done]. cbn [fst] in Ha1.
    pose proof (pull_chunk_cases (Z.to_nat BULK_REQ_REPS) 0 n1 key (addr n1) from c k session (zlen data) sink (env k) eq_refl) as H.
    destruct (pull_chunk _ _ _ _ _ _ _ _ _ _) as [[n2 sink2] res]. destruct H as (Ha2 & [[_ ->]|(i & d & E & -> & ->)]); [done|].
    assert (Hkn : 0 <= k < n_chunks (zlen data)) by lia.
    rewrite Ha1, Ha in E. rewrite (Hans k i d Hkn E). destruct (filled_step out data k Hkn Ho) as [Hf Hmin].
    pose proof (chunk_in_data (zlen data) k (zlen_nonneg _) Hkn) as (H1 & H2 & H3).
    cbn [consume slice_sink]. rewrite Hs, zlen_filled, zlen_chunk by done.
    replace (zlen out <? k * BULK_CHUNK + chunk_len (zlen data) k) with false by (symmetry; apply Z.ltb_ge; lia). cbn [fst snd].
    rewrite Z.min_l, Hmin by lia. intros Hr. eapply IH; [| exact Hans | | | exact Ho | | exact Hr]; [congruence | lia | lia | exact Hf].
Qed.
End Receiver.

(** *** Every byte is the sender's *)

Section Genuine.
Context {W W' : Type} `{NS : !NetStore W} `{NS' : !NetStore W'}.

(** What is heard is authentic: a frame that opens under [key] and names [from] as its sender is one
    the device [a] transmitted, header and payload. *)
Definition authentic (a : Net W) (key : list Z) (from : Z) (heard : result RadioError (list Z)) : Prop :=
  forall cap hdr p, rx_frame key heard cap = Some (hdr, p) -> src hdr = from ->
    exists e, In e (air a) /\ a_header e = hdr /\ a_payload e = p.

Lemma answer_genuine a L T key own from t k heard d : Ledger a L T -> In t T -> authentic a key from heard ->
  answer_of key own from (tr_session t) (zlen (tr_data t)) k heard = Some d -> d = chunk_data (tr_data t) k.
Proof.
  intros HL Ht Hau. unfold answer_of. destruct (rx_frame _ _ _) as [[h p]|] eqn:E; [|done]. split_if; [|done]. split_if; [done|].
  bool_hyps. intros [= <-]. match goal with H : src h = from |- _ => destruct (Hau _ _ _ E H) as (e & He & Hh & Hp) end.
  match goal with H : frame_type h = _ |- _ => rename H into Hty end.
  match goal with H : bulk_index h = _ |- _ => rename H into Hix end.
  destruct (le_air _ _ _ HL e He) as [Hpl|(t' & Ht' & Hof)].
  { unfold plain, plain_header in Hpl. rewrite Hh, Hty in Hpl. done. }
  destruct Hof as [-> | (k' & Hk' & ->)]; simpl in Hh, Hp; subst h p; [done|]. simpl in *. injection Hix as ->.
  replace t with t'; [done|]. apply (le_distinct _ _ _ HL); done.
Qed.
Lemma announce_genuine a L T key own from heard total session : Ledger a L T -> Forall (authentic a key from) heard ->
  wait_announce key from own heard = Some (total, session) ->
  exists t, In t T /\ tr_session t = session /\ zlen (tr_data t) = total /\ tr_dest t = own.
Proof.
  intros HL. induction 1 as [|h heard Hh Hrest IH]; cbn [wait_announce]; [done|].
  destruct (rx_frame key h 8) as [[hdr p]|] eqn:E; [|done]. split_if; [|done]. intros Hres. bool_hyps.
  match goal with H : src hdr = from |- _ => destruct (Hh _ _ _ E H) as (e & He & Hhd & Hp) end.
  match goal with H : frame_type hdr = _ |- _ => rename H into Hty end.
  destruct (le_air _ _ _ HL e He) as [Hpl|(t & Ht & Hof)].
  { exfalso. unfold plain, plain_header in Hpl. rewrite Hhd, Hty in Hpl. change (bool_decide (Data = BulkData)) with false in Hpl.
    change (bool_decide (Data = Data)) with true in Hpl. cbn [negb andb] in Hpl. bool_hyps. congruence. }
  destruct (le_sessions _ _ _ HL t Ht) as [Hu _]. destruct (le_served _ _ _ HL t Ht) as [_ Hm].
  destruct Hof as [-> | (k & Hk & ->)]; [|exfalso; by rewrite <- Hhd in Hty].
  change (announce_header (tr_own t) (tr_dest t) (tr_announce t) = hdr) in Hhd.
  change (announce_payload (zlen (tr_data t)) (tr_session t) = p) in Hp. subst hdr p. pose proof (zlen_nonneg (tr_data t)).
  assert (Hl : u32_ok (zlen (tr_data t))) by (change MAX_BULK_LEN with (2 ^ 30) in Hm; mlia).
  change (Some (le_val (le_bytes 4 (zlen (tr_data t))), le_val (le_bytes 4 (tr_session t))) = Some (total, session)) in Hres.
  rewrite !le_val_u32 in Hres by done. injection Hres as <- <-. by exists t.
Qed.
Lemma fetch_genuine a L T (b : Net W') from out announce fates env b' out' n : Ledger a L T ->
  Forall (authentic a (key_for b from) from) announce ->
  (forall k i, authentic a (key_for b from) from (rp_heard (env k i))) ->
  bulk_fetch b from out announce fates env = (b', out', Some n) ->
  exists data, In (addr b, data) L /\ n = zlen data /\ n <= zlen out /\ out' = patch out 0 data.
Proof.
  intros HL Hann Henv. unfold bulk_fetch, bulk_fetch_into. do 2 (split_if; [done|]). cbv zeta.
  destruct (wait_announce _ _ _ _) as [[total session]|] eqn:Ew; [|done]. split_if; [done|].
  destruct (announce_genuine _ _ _ _ _ _ _ _ _ HL Hann Ew) as (t & Ht & <- & <- & Hd).
  cbn [begin slice_sink]. split_if; [done|]. bool_hyps. cbn [sk_out] in *.
  destruct (fetch_chunks _ _ _ _ _ _ _ _ _ _ _) as [[n2 sink2] r] eqn:Ef. intros [= <- <- ->].
  replace 0 with (Z.min (0 * BULK_CHUNK) (zlen (tr_data t))) in Ef at 2 by (pose proof (zlen_nonneg (tr_data t)); lia).
  pose proof (zlen_nonneg (tr_data t)) as Hz. pose proof (n_chunks_bound (zlen (tr_data t)) ltac:(lia)) as Hn.
  eapply fetch_chunks_filled in Ef; [| reflexivity | | done | lia | eassumption | symmetry; apply filled_start].
  - destruct Ef as [-> ->]. exists (tr_data t). split_and!; try done. rewrite <- Hd. by apply (le_served _ _ _ HL).
  - intros k i d Hk E. by eapply answer_genuine.
Qed.
End Genuine.

(** *** A fetch that is answered ends *)

Section Completes.
Context {W : Type} `{NS : !NetStore W}.
#[local] Abbreviation net := (Net W).







End Completes.

(** ** What a transfer promises *)

Section Promises.
Context {W W' : Type} `{NS : !NetStore W} `{NS' : !NetStore W'}.

(** C6. A bulk transfer delivers the sender's bytes or nothing. Whatever the sender [a] did in its
    life - other sends, earlier transfers to anyone, resets, cancelled transfers - and whatever is
    lost, repeated, delayed or garbled on the air, a fetch from it into a buffer either fails or
    returns the length of one transfer [a] served to this very device and leaves exactly that
    transfer's bytes at the front of the buffer and the rest of the buffer as it was: no chunk of
    another transfer, none twice, none out of place. The only assumption is authenticity: what opens
    under the shared key in the sender's name was transmitted by the sender. *)
Theorem bulk_fetch_sound (a : Net W) L (b : Net W') from out announce fates env b' out' n :
  history a L -> Forall (authentic a (key_for b from) from) announce ->
  (forall k i, authentic a (key_for b from) from (rp_heard (env k i))) ->
  bulk_fetch b from out announce fates env = (b', out', Some n) ->
  exists data, In (addr b, data) L /\ n = zlen data /\ n <= zlen out /\ out' = patch out 0 data.
Proof.
  intros Hh. destruct (history_ledger a L Hh) as [T HT]. by eapply fetch_genuine.
Qed.

End Promises.

(** What is heard of the sender's own transmissions is authentic. *)
Lemma authentic_err {W} (a : Net W) key from e : authentic a key from (Err e).
Proof. by intros cap hdr p. Qed.
Lemma authentic_aired {W} (a : Net W) from e : In e (air a) -> hdr_ok (a_header e) -> a_frame e = frame_bytes (a_key e) (a_header e) (a_payload e) ->
  authentic a (a_key e) from (Ok (a_frame e)).
Proof.
  intros Hin Hh Hf cap hdr p Hrx _. exists e. split; [done|]. unfold rx_frame in Hrx. rewrite Hf in Hrx.
  rewrite open_frame_bytes in Hrx by done. cbv zeta in Hrx. destruct (cap <? _); [done|]. apply (inj Some) in Hrx.
  apply pair_equal_spec in Hrx as [<- <-]. split; [done|].
  replace (wire_len (a_header e) + zlen (a_payload e) - wire_len (a_header e)) with (zlen (a_payload e)) by lia.
  symmetry. apply slice_field; [by rewrite zlen_header | done].
Qed.
End Fetched.

Module Demo.
Import Ccm.ToyCipher RadioFrame.Demo NetLink.Demo.

(** 100 bytes: a full chunk and a partial one. *)
Definition image : list Z := map (fun i => Z.of_nat i) (seq 1 100).
Definition asks (c i : Z) : result RadioError (list Z) := Ok (frame_bytes k (request_header NODE GATEWAY c i) (le_bytes 4 2)).
Definition turn (heard : result RadioError (list Z)) : Turn :=
  {| tn_now := 0; tn_announce := quiet_env; tn_heard := heard; tn_reply_at := 0; tn_reply := quiet_env |}.
(** The gateway hears noise, the first request twice, then the second. *)
Definition turns : list Turn := [turn (Err CrcError); turn (asks 1 0); turn (asks 1 0); turn (asks 2 1)].
Definition served : Net Store := fst (fst (bulk_serve_from gateway NODE {| ss_data := image |} Landed Landed 0 turns)).
(** What it put on the air, newest first: the second chunk, the first twice, the announcement twice. *)
Definition on_the_air (i : nat) : result RadioError (list Z) := nth i (map (fun e => Ok (a_frame e)) (air served)) (Err RTimeout).
(** The node's first request for each chunk is lost. *)
Definition pulls (i : Z) (attempt : nat) : Rep :=
  {| rp_tx := {| t_elapsed := 5000; t_fate := Landed; t_result := Ok tt |};
     rp_heard := match attempt with O => Err RTimeout | _ => on_the_air (if i =? 0 then 1 else 0) end |}.
Definition all_land (_ : Z) : fate := Landed.

Lemma served_history : history served [(NODE, image)].
Proof.
  assert (Hs : @source_data SliceSource slice_source slice_source_laws {| ss_data := image |} = image) by reflexivity.
  rewrite <- Hs. apply (hi_serve gateway [] NODE {| ss_data := image |} Landed Landed 0 turns).
  - eapply hi_op; [|exact (ns_pending _ NODE true)]. eapply hi_op; [|exact (ns_add _ NODE k)].
    eapply hi_op; [|exact (ns_config _ false P false false Duty eu)]. apply hi_first.
    exists (cfg GATEWAY), ([] : Store), Landed. split; [split; vm_compute; discriminate | reflexivity].
  - do 4 (constructor; [first [exact I | apply bytes_okb_ok; vm_compute; reflexivity]|]). constructor.
Qed.
Definition genuineb (e : Aired) : bool :=
  bool_decide (a_key e = k) && hdr_okb (a_header e) && bool_decide (a_frame e = frame_bytes (a_key e) (a_header e) (a_payload e)).
Lemma on_the_air_authentic i : authentic served k GATEWAY (on_the_air i).
Proof.
  unfold on_the_air. destruct (le_lt_dec (length (air served)) i) as [Hi|Hi].
  - rewrite nth_overflow by (by rewrite length_map). apply authentic_err.
  - destruct (nth_error (air served) i) as [e|] eqn:E; [|by apply nth_error_None in E; lia].
    rewrite (nth_error_nth _ _ _ (map_nth_error (fun e => Ok (a_frame e)) _ _ E)). apply nth_error_In in E.
    assert (Hall : forallb genuineb (air served) = true) by (vm_compute; reflexivity).
    rewrite List.forallb_forall in Hall. specialize (Hall e E). unfold genuineb in Hall. bool_hyps.
    match goal with H : a_key e = k |- _ => rewrite <- H end. apply authentic_aired; [exact E | by apply hdr_okb_ok | done].
Qed.
Lemma bulk_fetch_sound_witness :
  snd (bulk_fetch node GATEWAY (zeros 128) [on_the_air 4] all_land pulls) = Some 100 /\
  snd (fst (bulk_fetch node GATEWAY (zeros 128) [on_the_air 4] all_land pulls)) = image ++ zeros 28.
Proof.
  assert (Hr : snd (bulk_fetch node GATEWAY (zeros 128) [on_the_air 4] all_land pulls) = Some 100) by (vm_compute; reflexivity).
  split; [exact Hr|].
  pose proof (bulk_fetch_sound served [(NODE, image)] node GATEWAY (zeros 128) [on_the_air 4] all_land pulls) as H.
  destruct (bulk_fetch node GATEWAY (zeros 128) [on_the_air 4] all_land pulls) as [[b' out'] r]. cbn [fst snd] in *. subst r.
  destruct (H b' out' 100 served_history) as (data & Hin & _ & _ & ->); [| |reflexivity|].
  - constructor; [apply on_the_air_authentic | constructor].
  - intros i [|n]; [apply authentic_err | apply on_the_air_authentic].
  - destruct Hin as [E|[]]. injection E as <-. vm_compute. reflexivity.
Defined.

Lemma image_chunks i : 0 <= i < n_chunks (zlen image) -> i = 0 \/ i = 1.
Proof. change (n_chunks (zlen image)) with 2. lia. Qed.
End Demo.
