(* ===== verification/Ring.v ===== *)
(** The device's console TX queue (crates/protocol/src/ring.rs): a FIFO of variable-length
    [type][len][payload] records in a circular byte buffer, and its refinement of a plain queue of
    messages. *)
From S2P Require Import Prelude Bytes Proto.

Definition RECORD_OVERHEAD : Z := 2.
#[export] Hint Unfold RECORD_OVERHEAD : machine.

Module Ring.

Record PayloadRing := { buf : list Z; head : Z; len : Z }.

Section Ops.
(** The const generic: the buffer's size. *)
Context (N : Z).

Definition new : PayloadRing := {| buf := zeros N; head := 0; len := 0 |}.
Definition room (r : PayloadRing) : Z := N - len r.
Definition fits (r : PayloadRing) (payload_len : Z) : bool :=
  (payload_len <=? MAX_PAYLOAD) && (RECORD_OVERHEAD + payload_len <=? N - len r).
Definition is_empty (r : PayloadRing) : bool := len r =? 0.

(** [write_at] / [read_at] on the buffer: the part up to the end, the rest from the start. *)
Definition write_at (b : list Z) (a : Z) (bytes : list Z) : list Z :=
  let first := Z.min (zlen bytes) (N - a) in
  let b := patch b a (slice bytes 0 first) in
  patch b 0 (slice bytes first (zlen bytes - first)).
Definition read_at (b : list Z) (a n : Z) : list Z :=
  let first := Z.min n (N - a) in
  slice b a first ++ slice b 0 (n - first).

Definition push (r : PayloadRing) (t : MsgType) (payload : list Z) : PayloadRing * bool :=
  if negb (fits r (zlen payload)) then (r, false)
  else
    let a := (head r + len r) mod N in
    let b := write_at (buf r) a [as_u8 t; wrap8 (zlen payload)] in
    let b := write_at b ((a + RECORD_OVERHEAD) mod N) payload in
    ({| buf := b; head := head r; len := len r + (RECORD_OVERHEAD + zlen payload) |}, true).

Definition header (r : PayloadRing) : PayloadRing * option (MsgType * Z) :=
  if len r =? 0 then (r, None)
  else
    let hdr := read_at (buf r) (head r) RECORD_OVERHEAD in
    match from_u8 (byte_at hdr 0) with
    | None => ({| buf := buf r; head := 0; len := 0 |}, None)
    | Some t => (r, Some (t, byte_at hdr 1))
    end.

Definition skip (r : PayloadRing) (payload_len : Z) : PayloadRing :=
  let used := Z.min (RECORD_OVERHEAD + payload_len) (len r) in
  let h := (head r + used) mod N in
  let l := len r - used in
  {| buf := buf r; head := if l =? 0 then 0 else h; len := l |}.

(** [pop]: the ring after it, the caller's buffer after it, and what it returns. *)
Definition pop (r : PayloadRing) (out : list Z) : PayloadRing * list Z * option (MsgType * Z) :=
  match header r with
  | (r, None) => (r, out, None)
  | (r, Some (t, n)) =>
      let take := Z.min n (zlen out) in
      let out := patch out 0 (read_at (buf r) ((head r + RECORD_OVERHEAD) mod N) take) in
      (skip r n, out, Some (t, take))
  end.

Fixpoint clear_loop (fuel : nat) (r : PayloadRing) (n : Z) : PayloadRing * Z :=
  match fuel with
  | O => (r, n)
  | S fuel =>
      match header r with
      | (r, None) => (r, n)
      | (r, Some (_, l)) => clear_loop fuel (skip r l) (wrap32 (n + 1))
      end
  end.
(** Every record takes two bytes or more, so [len] turns empty the ring. *)
Definition clear (r : PayloadRing) : PayloadRing * Z := clear_loop (S (Z.to_nat (len r))) r 0.

(** *** Operation sequences, on the ring and on a plain queue *)

Inductive rop :=
| Push (t : MsgType) (payload : list Z)
| Pop (out : list Z)
| Clear
| Room
| IsEmpty.
Inductive rout :=
| OPush (ok : bool)
| OPop (res : option (MsgType * Z)) (out : list Z)
| OClear (n : Z)
| ORoom (n : Z)
| OIsEmpty (b : bool).

Definition rstep (r : PayloadRing) (o : rop) : PayloadRing * rout :=
  match o with
  | Push t p => let '(r, ok) := push r t p in (r, OPush ok)
  | Pop out => let '(r, out, res) := pop r out in (r, OPop res out)
  | Clear => let '(r, n) := clear r in (r, OClear n)
  | Room => (r, ORoom (room r))
  | IsEmpty => (r, OIsEmpty (is_empty r))
  end.
Fixpoint rrun (r : PayloadRing) (ops : list rop) : PayloadRing * list rout :=
  match ops with
  | [] => (r, [])
  | o :: ops => let '(r, x) := rstep r o in let '(r, xs) := rrun r ops in (r, x :: xs)
  end.

#[local] Abbreviation msg := (MsgType * list Z)%type.
(** The bytes a queue's messages take. *)
Fixpoint used (l : list msg) : Z :=
  match l with
  | [] => 0
  | (_, p) :: l => RECORD_OVERHEAD + zlen p + used l
  end.
(** The specification: a queue of messages with a byte budget. *)
Definition fstep (l : list msg) (o : rop) : list msg * rout :=
  match o with
  | Push t p =>
      if (zlen p <=? MAX_PAYLOAD) && (RECORD_OVERHEAD + zlen p <=? N - used l)
      then (l ++ [(t, p)], OPush true) else (l, OPush false)
  | Pop out =>
      match l with
      | [] => ([], OPop None out)
      | (t, p) :: l =>
          let take := Z.min (zlen p) (zlen out) in
          (l, OPop (Some (t, take)) (patch out 0 (slice p 0 take)))
      end
  | Clear => ([], OClear (zlen l))
  | Room => (l, ORoom (N - used l))
  | IsEmpty => (l, OIsEmpty (match l with [] => true | _ => false end))
  end.
Fixpoint frun (l : list msg) (ops : list rop) : list msg * list rout :=
  match ops with
  | [] => (l, [])
  | o :: ops => let '(l, x) := fstep l o in let '(l, xs) := frun l ops in (l, x :: xs)
  end.

(** *** Circular reads and writes *)

Hypothesis HN : RECORD_OVERHEAD + MAX_PAYLOAD <= N <= u32_max.

Lemma zlen_write_at b a d : zlen b = N -> 0 <= a < N -> zlen d <= N -> zlen (write_at b a d) = N.
Proof.
  intros Hb Ha Hd. pose proof (zlen_nonneg d). unfold write_at.
  assert (zlen (slice d 0 (Z.min (zlen d) (N - a))) = Z.min (zlen d) (N - a)) by (apply zlen_slice; lia).
  assert (zlen (slice d (Z.min (zlen d) (N - a)) (zlen d - Z.min (zlen d) (N - a))) = zlen d - Z.min (zlen d) (N - a))
    by (apply zlen_slice; lia).
  rewrite !zlen_patch; [done | lia..| |]; rewrite ?zlen_patch; lia.
Qed.

(** The [i]-th byte after [a], around the end. *)
Definition at_ (b : list Z) (a i : Z) : option Z := b !! Z.to_nat ((a + i) mod N).

Lemma mod_wrap x : 0 <= x < 2 * N -> x mod N = if decide (x < N) then x else x - N.
Proof.
  intros Hx. case_decide; [apply Z.mod_small; lia|].
  symmetry. apply Z.mod_unique with 1; lia.
Qed.

Lemma zlen_read_at b a n : zlen b = N -> 0 <= a < N -> 0 <= n <= N -> zlen (read_at b a n) = n.
Proof. intros. unfold read_at. zl. Qed.
Lemma lookup_read_at b a n i : zlen b = N -> 0 <= a < N -> 0 <= n <= N ->
  read_at b a n !! i = if decide (Z.of_nat i < n) then at_ b a (Z.of_nat i) else None.
Proof.
  intros Hb Ha Hn. pose proof (zlen_read_at b a n Hb Ha Hn) as Hl.
  case_decide; [|apply lookup_ge_None; unfold zlen in Hl; lia].
  clear Hl. unfold read_at, at_.
  assert (Hf : zlen (slice b a (Z.min n (N - a))) = Z.min n (N - a)) by (apply zlen_slice; lia).
  rewrite mod_wrap by lia. destruct (decide (Z.of_nat i < N - a)).
  - rewrite lookup_app_l by (unfold zlen in *; lia).
    rewrite lookup_slice. repeat case_decide; try lia. f_equal. lia.
  - rewrite lookup_app_r by (unfold zlen in *; lia).
    rewrite lookup_slice. repeat case_decide; try (unfold zlen in *; lia). f_equal. unfold zlen in *. lia.
Qed.

Lemma at_write_at b a d i : zlen b = N -> 0 <= a < N -> zlen d <= N -> 0 <= i < N ->
  at_ (write_at b a d) a i = if decide (i < zlen d) then d !! Z.to_nat i else at_ b a i.
Proof.
  intros Hb Ha Hd Hi. pose proof (zlen_nonneg d). unfold write_at, at_. set (f := Z.min (zlen d) (N - a)).
  assert (Hf1 : zlen (slice d 0 f) = f) by (apply zlen_slice; lia).
  assert (Hf2 : zlen (slice d f (zlen d - f)) = zlen d - f) by (apply zlen_slice; lia).
  assert (Hp : zlen (patch b a (slice d 0 f)) = N) by (rewrite zlen_patch; lia).
  rewrite mod_wrap by lia.
  rewrite lookup_patch by (unfold zlen in *; lia). rewrite lookup_patch by (unfold zlen in *; lia).
  rewrite !lookup_slice.
  repeat case_decide; try done; try (unfold zlen in *; lia); f_equal; unfold zlen in *; lia.
Qed.
Lemma at_shift b a x i : at_ b ((a + x) mod N) i = at_ b a (x + i).
Proof. unfold at_. rewrite Zplus_mod_idemp_l. do 3 f_equal. lia. Qed.
Lemma at_wrap b a i : at_ b a (N + i) = at_ b a i.
Proof.
  unfold at_. replace (a + (N + i)) with (a + i + 1 * N) by lia. by rewrite Z.mod_add by (mlia).
Qed.

Lemma read_write_same b a d : zlen b = N -> 0 <= a < N -> zlen d <= N ->
  read_at (write_at b a d) a (zlen d) = d.
Proof.
  intros Hb Ha Hd. pose proof (zlen_nonneg d). apply list_eq. intros i.
  rewrite lookup_read_at by (try apply zlen_write_at; lia).
  case_decide.
  - rewrite at_write_at by lia. rewrite decide_True by done. f_equal. lia.
  - symmetry. apply lookup_ge_None. unfold zlen in *. lia.
Qed.
Lemma read_write_other b a x d n : zlen b = N -> 0 <= a < N -> 0 <= n <= x -> x + zlen d <= N ->
  read_at (write_at b ((a + x) mod N) d) a n = read_at b a n.
Proof.
  intros Hb Ha Hn Hx. pose proof (zlen_nonneg d). pose proof (Z.mod_pos_bound (a + x) N ltac:(lia)).
  apply list_eq. intros i. rewrite !lookup_read_at by (try apply zlen_write_at; lia).
  case_decide; [|done].
  assert (Hat : forall c, at_ c a (Z.of_nat i) = at_ c ((a + x) mod N) (N + (Z.of_nat i - x))).
  { intros c. rewrite at_shift. rewrite <- (at_wrap c a (Z.of_nat i)). f_equal. lia. }
  rewrite !Hat, at_write_at by lia. by rewrite decide_False by lia.
Qed.
Lemma read_at_split b a n m : zlen b = N -> 0 <= a < N -> 0 <= n -> 0 <= m -> n + m <= N ->
  read_at b a (n + m) = read_at b a n ++ read_at b ((a + n) mod N) m.
Proof.
  intros Hb Ha Hn Hm Hnm. pose proof (Z.mod_pos_bound (a + n) N ltac:(lia)) as Hb2.
  pose proof (zlen_read_at b a n Hb Ha ltac:(lia)) as Hl.
  apply list_eq. intros i. rewrite lookup_read_at by lia.
  destruct (decide (Z.of_nat i < n)).
  - rewrite lookup_app_l by (unfold zlen in *; lia). rewrite lookup_read_at by lia.
    by rewrite !decide_True by lia.
  - rewrite lookup_app_r by (unfold zlen in *; lia). rewrite lookup_read_at, at_shift by lia.
    repeat case_decide; try (unfold zlen in *; lia); [|done]. f_equal. unfold zlen in *. lia.
Qed.

(** *** The bytes of a queue, and the representation *)

Definition enc (m : msg) : list Z := [as_u8 (fst m); zlen (snd m)] ++ snd m.
Fixpoint image (l : list msg) : list Z :=
  match l with
  | [] => []
  | m :: l => enc m ++ image l
  end.

Lemma used_nonneg l : 2 * zlen l <= used l.
Proof.
  induction l as [|[t p] l IH]; [done|]. rewrite zlen_cons. simpl. pose proof (zlen_nonneg p). mlia.
Qed.
Lemma used_pos l : 0 <= used l.
Proof. pose proof (used_nonneg l). pose proof (zlen_nonneg l). lia. Qed.
Lemma zlen_queue_image l : zlen (image l) = used l.
Proof. induction l as [|[t p] l IH]; [done|]. cbn [image used]. unfold enc. cbn [fst snd]. rewrite !zlen_app, !zlen_cons, zlen_nil, IH. mlia. Qed.
Lemma image_snoc l m : image (l ++ [m]) = image l ++ enc m.
Proof. induction l as [|x l IH]; simpl; [by rewrite app_nil_r|]. by rewrite IH, app_assoc. Qed.
Lemma used_snoc l t p : used (l ++ [(t, p)]) = used l + (RECORD_OVERHEAD + zlen p).
Proof. rewrite <- !zlen_queue_image, image_snoc. unfold enc. cbn [fst snd]. zl. mlia. Qed.

Record Rep (r : PayloadRing) (l : list msg) : Prop := {
  Rep_buf : zlen (buf r) = N;
  Rep_head : 0 <= head r < N;
  Rep_len : len r = used l;
  Rep_fits : used l <= N;
  Rep_image : read_at (buf r) (head r) (len r) = image l;
  Rep_small : Forall (fun m => zlen (snd m) <= MAX_PAYLOAD) l;
}.

Lemma ring_Rep_new : Rep new [].
Proof.
  split; cbn [buf head len new used image]; try done; try mlia; [apply zlen_zeros; mlia|].
  unfold read_at. rewrite Z.min_l by mlia. by rewrite Z.sub_diag, !slice_0.
Qed.

Lemma Rep_push r l t p : Rep r l -> fits r (zlen p) = true ->
  push r t p = (fst (push r t p), true) /\ Rep (fst (push r t p)) (l ++ [(t, p)]).
Proof.
  intros [Hb Hh Hl Hf Hi Hs] Hfit. unfold push. rewrite Hfit. cbn [negb fst].
  unfold fits in Hfit. bool_hyps. pose proof (zlen_nonneg p). pose proof (used_pos l).
  split; [done|].
  set (hdr := [as_u8 t; wrap8 (zlen p)]). assert (Hhdr : zlen hdr = RECORD_OVERHEAD) by done.
  assert (Hw8 : wrap8 (zlen p) = zlen p) by (apply wrap8_small; mlia).
  rewrite Zplus_mod_idemp_l.
  pose proof (Z.mod_pos_bound (head r + len r) N ltac:(lia)).
  pose proof (Z.mod_pos_bound (head r + (len r + RECORD_OVERHEAD)) N ltac:(lia)).
  assert (Hw1 : zlen (write_at (buf r) ((head r + len r) mod N) hdr) = N) by (apply zlen_write_at; mlia).
  replace (head r + len r + RECORD_OVERHEAD) with (head r + (len r + RECORD_OVERHEAD)) by lia.
  split; cbn [buf head len].
  - apply zlen_write_at; mlia.
  - done.
  - rewrite used_snoc. lia.
  - rewrite used_snoc. mlia.
  - replace (len r + (RECORD_OVERHEAD + zlen p)) with (len r + RECORD_OVERHEAD + zlen p) by lia. rewrite read_at_split; [|apply zlen_write_at; mlia|mlia..].
    rewrite read_write_same by mlia. rewrite read_write_other by mlia.
    rewrite read_at_split by mlia. rewrite read_write_other by mlia.
    rewrite <- Hhdr, read_write_same by mlia.
    rewrite Hi, image_snoc. unfold enc, hdr. cbn [fst snd]. by rewrite Hw8, <- app_assoc.
  - apply Forall_app. split; [done|]. by constructor.
Qed.

Lemma Rep_front r t p l : Rep r ((t, p) :: l) ->
  read_at (buf r) (head r) RECORD_OVERHEAD = [as_u8 t; zlen p] /\
  read_at (buf r) ((head r + RECORD_OVERHEAD) mod N) (zlen p) = p /\
  read_at (buf r) ((head r + (RECORD_OVERHEAD + zlen p)) mod N) (used l) = image l.
Proof.
  intros [Hb Hh Hl Hf Hi Hs]. cbn [used] in *. pose proof (zlen_nonneg p). pose proof (used_pos l).
  pose proof (Z.mod_pos_bound (head r + RECORD_OVERHEAD) N ltac:(lia)).
  rewrite Hl in Hi. rewrite read_at_split in Hi; [|try mlia..]. rewrite read_at_split in Hi; [|try mlia..]. 
  unfold enc in Hi. cbn [image enc fst snd] in Hi.
  apply app_inj_1 in Hi as [Hi1 Hi3]; [apply app_inj_1 in Hi1 as [Hi1 Hi2]; [done|]|].
  - pose proof (zlen_read_at (buf r) (head r) RECORD_OVERHEAD Hb Hh ltac:(mlia)).
    unfold zlen in *. simpl. mlia.
  - rewrite length_app.
    pose proof (zlen_read_at (buf r) (head r) RECORD_OVERHEAD Hb Hh ltac:(mlia)).
    pose proof (zlen_read_at (buf r) ((head r + RECORD_OVERHEAD) mod N) (zlen p) Hb ltac:(done) ltac:(mlia)).
    unfold zlen in *. simpl. mlia.
Qed.

Lemma Rep_header r t p l : Rep r ((t, p) :: l) -> header r = (r, Some (t, zlen p)).
Proof.
  intros HR. destruct (Rep_front _ _ _ _ HR) as (H1 & _ & _). unfold header.
  rewrite (Rep_len _ _ HR). cbn [used]. pose proof (zlen_nonneg p). pose proof (used_pos l).
  replace (_ =? 0) with false by (symmetry; apply Z.eqb_neq; mlia).
  rewrite H1. change (byte_at [as_u8 t; zlen p] 0) with (as_u8 t). rewrite from_u8_as_u8. done.
Qed.
Lemma Rep_skip r t p l : Rep r ((t, p) :: l) -> Rep (skip r (zlen p)) l.
Proof.
  intros HR. destruct (Rep_front _ _ _ _ HR) as (_ & _ & H3). destruct HR as [Hb Hh Hl Hf Hi Hs].
  cbn [used] in *. pose proof (zlen_nonneg p). pose proof (used_pos l).
  unfold skip. rewrite Z.min_l by lia. rewrite Hl.
  replace (RECORD_OVERHEAD + zlen p + used l - (RECORD_OVERHEAD + zlen p)) with (used l) by lia.
  pose proof (Z.mod_pos_bound (head r + (RECORD_OVERHEAD + zlen p)) N ltac:(lia)).
  apply List.Forall_cons_iff in Hs as [_ Hs].
  split; cbn [buf head len]; try done.
  - destruct (used l =? 0); lia.
  - mlia.
  - destruct (Z.eqb_spec (used l) 0) as [E|]; [|done].
    assert (l = []) as -> by (apply zlen_0; pose proof (used_nonneg l); unfold zlen in *; lia).
    cbn [used image]. unfold read_at. rewrite Z.min_l by lia. by rewrite Z.sub_diag, !slice_0.
Qed.
Lemma Rep_empty r : Rep r [] -> header r = (r, None).
Proof. intros HR. unfold header. rewrite (Rep_len _ _ HR). done. Qed.

Lemma ring_pop_refines r l out : Rep r l ->
  exists r' l', Rep r' l' /\
    rstep r (Pop out) = (r', snd (fstep l (Pop out))) /\ fst (fstep l (Pop out)) = l'.
Proof.
  intros HR. simpl. destruct l as [|[t p] l]; unfold pop.
  - rewrite Rep_empty by done. simpl. eauto.
  - rewrite (Rep_header _ _ _ _ HR). destruct (Rep_front _ _ _ _ HR) as (_ & H2 & _).
    cbn [fst snd]. exists (skip r (zlen p)), l. split_and!; [by eapply Rep_skip| |done].
    do 3 f_equal. destruct HR. cbn [used] in *.
    pose proof (zlen_nonneg p). pose proof (zlen_nonneg out). pose proof (used_pos l).
    pose proof (Z.mod_pos_bound (head r + RECORD_OVERHEAD) N ltac:(lia)).
    set (k := Z.min _ _). set (c := _ mod N) in *. clearbody c. f_equal.
    transitivity (slice (read_at (buf r) c (k + (zlen p - k))) 0 k); [|by replace (k + (zlen p - k)) with (zlen p) by lia; rewrite H2].
    rewrite read_at_split by mlia.
    rewrite slice_app_in by (rewrite ?zlen_read_at; mlia).
    symmetry. rewrite <- (slice_all (read_at (buf r) c k)) at 2. by rewrite zlen_read_at by mlia.
Qed.

Lemma clear_loop_refines l r n fuel : Rep r l -> 0 <= n -> n + zlen l <= u32_max -> (length l < fuel)%nat ->
  exists r', clear_loop fuel r n = (r', n + zlen l) /\ Rep r' [].
Proof.
  revert r n fuel. induction l as [|[t p] l IH]; intros r n fuel HR Hn Hb Hf.
  - destruct fuel as [|fuel]; [simpl in Hf; lia|]. cbn [clear_loop]. rewrite Rep_empty by done.
    exists r. rewrite zlen_nil, Z.add_0_r. done.
  - destruct fuel as [|fuel]; [simpl in Hf; lia|]. cbn [clear_loop]. rewrite (Rep_header _ _ _ _ HR).
    rewrite zlen_cons in *. pose proof (zlen_nonneg l). rewrite wrap32_small by mlia.
    destruct (IH (skip r (zlen p)) (n + 1) fuel) as (r' & -> & HR'); [by eapply Rep_skip|lia..|simpl in Hf; lia|].
    exists r'. split; [f_equal; lia|done].
Qed.

Lemma rstep_refines r l o : Rep r l ->
  exists r', rstep r o = (r', snd (fstep l o)) /\ Rep r' (fst (fstep l o)).
Proof.
  intros HR. destruct o as [t p|out| | |].
  - simpl. destruct (fits r (zlen p)) eqn:Hfit.
    + destruct (Rep_push r l t p HR Hfit) as [-> HR']. unfold fits in Hfit.
      rewrite (Rep_len _ _ HR) in Hfit. rewrite Hfit. eexists. done.
    + unfold push. rewrite Hfit. simpl. unfold fits in Hfit. rewrite (Rep_len _ _ HR) in Hfit.
      rewrite Hfit. eexists. done.
  - destruct (ring_pop_refines r l out HR) as (r' & l' & HR' & -> & ->). eauto.
  - simpl. unfold clear. destruct (clear_loop_refines l r 0 (S (Z.to_nat (len r)))) as (r' & -> & HR'); [done|lia| | |].
    + destruct HR. pose proof (used_nonneg l). unfold zlen in *. lia.
    + rewrite (Rep_len _ _ HR). pose proof (used_nonneg l). unfold zlen in *. lia.
    + eauto.
  - exists r. simpl. unfold room. by rewrite (Rep_len _ _ HR).
  - exists r. simpl. unfold is_empty. rewrite (Rep_len _ _ HR). split; [|done]. do 2 f_equal.
    destruct l as [|[t p] l]; [done|]. cbn [used]. pose proof (zlen_nonneg p). pose proof (used_pos l). apply Z.eqb_neq. mlia.
Qed.

Lemma rrun_refines ops r l : Rep r l ->
  snd (rrun r ops) = snd (frun l ops) /\ Rep (fst (rrun r ops)) (fst (frun l ops)).
Proof.
  revert r l. induction ops as [|o ops IH]; intros r l HR; [done|].
  cbn [rrun frun]. destruct (rstep_refines r l o HR) as (r' & -> & HR').
  destruct (fstep l o) as [l' x]. cbn [fst snd] in HR' |- *.
  destruct (IH r' l' HR') as [H1 H2].
  destruct (rrun r' ops), (frun l' ops). simpl in *. by subst.
Qed.

End Ops.

(** C24. The console TX queue in its circular buffer is a FIFO of whole messages with a byte budget:
    for any sequence of pushes, pops, clears and queries on a ring of at least one largest record,
    every result the ring gives is the one a plain queue of [(type, payload)] gives. In particular a
    record straddling the end of the buffer comes out intact, a refused push writes nothing, a
    message is refused only when longer than [MAX_PAYLOAD] or larger than the bytes left, and a
    short output buffer clips the payload without desynchronising the records after it. *)
Theorem ring_refines_fifo (N : Z) (ops : list rop) :
  RECORD_OVERHEAD + MAX_PAYLOAD <= N <= u32_max ->
  snd (rrun N (new N) ops) = snd (frun N [] ops).
Proof. intros HN. by apply rrun_refines, ring_Rep_new. Qed.

Definition demo_rops : list rop :=
  [ Push Log (replicate 120 1); Push Event [2; 3; 4]; Pop (zeros 247); Push Print_ (replicate 110 9);
    Push Uplink (replicate 247 7); Room; Pop (zeros 2); Pop (zeros 247); Pop (zeros 3); Push Hello [1]; Push Dropped [];
    Clear; IsEmpty ].
Lemma ring_refines_fifo_witness :
  snd (rrun 251 (new 251) demo_rops) = snd (frun 251 [] demo_rops) /\
  (exists q out, snd (frun 251 [] demo_rops) =
     [OPush true; OPush true; OPop (Some (Log, 120)) (replicate 120 1 ++ zeros 127); OPush true; OPush false; ORoom 134;
      OPop (Some (Event, 2)) [2; 3]; OPop (Some (Print_, 110)) out; OPop None (zeros 3); q; OPush true; OClear 2;
      OIsEmpty true]).
Proof.
  split.
  - apply (ring_refines_fifo 251 demo_rops). vm_compute. split; discriminate.
  - eexists _, _. vm_compute. reflexivity.
Defined.

End Ring.
