(* ===== verification/Cobs.v ===== *)
(** What the protocol relies on of the [cobs] crate, as a class of its three functions and of their
    documented laws, and a reference encoder and decoder that satisfies them: the instance the
    frame codec's witnesses run with. *)
From S2P Require Import Prelude Bytes.

(** [max_encoding_length], [encode] (the bytes written at the front of the destination) and
    [decode_in_place] (the buffer after it, and the decoded length or an error). *)
Class Cobs := {
  max_encoding_length : Z -> Z;
  cobs_encode : list Z -> list Z;
  cobs_decode_in_place : list Z -> list Z * option Z;
}.
Class CobsLaws `{Cobs} := {
  cobs_max_length : forall n, 0 < n -> max_encoding_length n <= n + div_ceil n 254;
  cobs_encode_length : forall d, zlen (cobs_encode d) <= max_encoding_length (zlen d);
  cobs_encode_nonempty : forall d, 0 < zlen (cobs_encode d);
  cobs_encode_nonzero : forall d, bytes_ok d -> Forall (fun b => 1 <= b <= 255) (cobs_encode d);
  cobs_decode_encode : forall d, bytes_ok d ->
    snd (cobs_decode_in_place (cobs_encode d)) = Some (zlen d) /\
    slice (fst (cobs_decode_in_place (cobs_encode d))) 0 (zlen d) = d;
  cobs_decode_length : forall l, zlen (fst (cobs_decode_in_place l)) = zlen l;
  cobs_decode_bytes : forall l, bytes_ok l -> bytes_ok (fst (cobs_decode_in_place l));
}.

Module RefCobs.

(** The encoder: [acc] holds the bytes of the current block, the code byte of which comes out with
    the block. *)
Fixpoint enc (acc d : list Z) : list Z :=
  match d with
  | [] => (zlen acc + 1) :: acc
  | b :: d =>
      if b =? 0 then (zlen acc + 1) :: acc ++ enc [] d
      else if zlen acc =? 253
      then 255 :: (acc ++ [b]) ++ match d with [] => [] | _ => enc [] d end
      else enc (acc ++ [b]) d
  end.
Fixpoint dec (fuel : nat) (l : list Z) : option (list Z) :=
  match fuel, l with
  | O, _ => None
  | S _, [] => Some []
  | S fuel, c :: l =>
      if (c =? 0) || (zlen l <? c - 1) then None
      else
        let blk := slice l 0 (c - 1) in
        match drop (Z.to_nat (c - 1)) l with
        | [] => Some blk
        | rest =>
            match dec fuel rest with
            | None => None
            | Some r => Some (blk ++ (if c =? 255 then [] else [0]) ++ r)
            end
        end
  end.
Definition decode (l : list Z) : option (list Z) := dec (S (length l)) l.

Definition encode_len (n : Z) : Z := n + Z.max 1 (div_ceil n 254).

Lemma enc_not_nil acc d : enc acc d <> [].
Proof.
  revert acc. induction d as [|b d IH]; intros acc; simpl; [done|].
  destruct (b =? 0); [done|]. destruct (zlen acc =? 253); [done|]. apply IH.
Qed.

Lemma dec_block fuel c l : 1 <= c -> c - 1 <= zlen l ->
  dec (S fuel) (c :: l) =
  match drop (Z.to_nat (c - 1)) l with
  | [] => Some (slice l 0 (c - 1))
  | rest => match dec fuel rest with
            | None => None
            | Some r => Some (slice l 0 (c - 1) ++ (if c =? 255 then [] else [0]) ++ r)
            end
  end.
Proof.
  intros. cbn [dec]. replace (c =? 0) with false by lia. by replace (zlen l <? c - 1) with false by lia.
Qed.
Lemma dec_last fuel c blk : c - 1 = zlen blk -> dec (S fuel) (c :: blk) = Some blk.
Proof.
  intros Hc. pose proof (zlen_nonneg blk). rewrite dec_block by lia.
  rewrite Hc, zlen_to_nat, drop_all. by rewrite slice_all.
Qed.
Lemma dec_more fuel c blk rest : c - 1 = zlen blk -> rest <> [] ->
  dec (S fuel) (c :: blk ++ rest) =
  match dec fuel rest with
  | None => None
  | Some r => Some (blk ++ (if c =? 255 then [] else [0]) ++ r)
  end.
Proof.
  intros Hc Hr. pose proof (zlen_nonneg blk). pose proof (zlen_nonneg rest).
  rewrite dec_block by (zl). rewrite Hc, zlen_to_nat, drop_app_length, slice_app_l.
  destruct rest; [done|]. done.
Qed.

Lemma cobs_dec_enc d acc fuel : zlen acc <= 253 -> (length (enc acc d) < fuel)%nat ->
  dec fuel (enc acc d) = Some (acc ++ d).
Proof.
  revert acc fuel. induction d as [|b d IH]; intros acc fuel Ha Hf; (destruct fuel as [|fuel]; [lia|]).
  - cbn [enc]. rewrite dec_last by lia. by rewrite app_nil_r.
  - cbn [enc] in *. pose proof (zlen_nonneg acc). destruct (Z.eqb_spec b 0) as [->|].
    + rewrite dec_more by (lia || apply enc_not_nil).
      rewrite IH; [|done|simpl in Hf; rewrite length_app in Hf; lia].
      replace (_ =? 255) with false by lia. done.
    + destruct (Z.eqb_spec (zlen acc) 253) as [E|].
      * assert (Hl : 255 - 1 = zlen (acc ++ [b])) by (rewrite zlen_app, zlen_cons, zlen_nil; lia).
        destruct d as [|b' d]; [rewrite app_nil_r; by rewrite dec_last|].
        rewrite dec_more by (done || apply enc_not_nil).
        rewrite IH; [|done|simpl length in Hf; rewrite length_app in Hf; simpl in *; lia].
        by rewrite <- app_assoc.
      * rewrite IH; [|rewrite zlen_app, zlen_cons, zlen_nil; lia|done]. by rewrite <- app_assoc.
Qed.

Lemma div_ceil_mono a b k : 0 < k -> a <= b -> div_ceil a k <= div_ceil b k.
Proof. intros. apply Z.div_le_mono; lia. Qed.
Lemma div_ceil_add a k : 0 < k -> div_ceil (k + a) k = 1 + div_ceil a k.
Proof. intros. unfold div_ceil. replace (k + a + (k - 1)) with (a + (k - 1) + 1 * k) by lia. rewrite Z.div_add; lia. Qed.
Lemma div_ceil_pos a k : 0 < k -> 0 < a -> 1 <= div_ceil a k.
Proof. intros. pose proof (div_ceil_spec a k ltac:(lia)). nia. Qed.

Lemma enc_length d acc : zlen acc <= 253 -> zlen (enc acc d) <= encode_len (zlen acc + zlen d).
Proof.
  revert acc. induction d as [|b d IH]; intros acc Ha; cbn [enc]; pose proof (zlen_nonneg acc).
  - rewrite zlen_cons, zlen_nil. unfold encode_len. lia.
  - pose proof (zlen_nonneg d). rewrite (zlen_cons b d). destruct (b =? 0).
    + rewrite zlen_cons, zlen_app. specialize (IH [] ltac:(done)). rewrite zlen_nil in IH.
      unfold encode_len in *. pose proof (div_ceil_mono (0 + zlen d) (zlen acc + (1 + zlen d)) 254). lia.
    + destruct (Z.eqb_spec (zlen acc) 253) as [E|].
      * rewrite zlen_cons, !zlen_app, zlen_cons, zlen_nil, E.
        destruct d as [|b' d]; [vm_compute; discriminate|].
        specialize (IH [] ltac:(done)). unfold encode_len in *. rewrite zlen_nil in IH.
        replace (253 + (1 + zlen (b' :: d))) with (254 + zlen (b' :: d)) by lia.
        rewrite div_ceil_add by lia.
        assert (0 < zlen (b' :: d)) by (rewrite zlen_cons; pose proof (zlen_nonneg d); lia).
        pose proof (div_ceil_pos (zlen (b' :: d)) 254). rewrite Z.add_0_l in IH. lia.
      * specialize (IH (acc ++ [b])). rewrite zlen_app, zlen_cons, zlen_nil in IH.
        replace (zlen acc + (1 + zlen d)) with (zlen acc + (1 + 0) + zlen d) by lia. apply IH. lia.
Qed.

Lemma enc_nonzero d acc : bytes_ok d -> Forall (fun b => 1 <= b <= 255) acc -> zlen acc <= 253 ->
  Forall (fun b => 1 <= b <= 255) (enc acc d).
Proof.
  intros Hd. revert acc. induction Hd as [|b d Hb Hd IH]; intros acc Ha Hl; cbn [enc]; pose proof (zlen_nonneg acc).
  - constructor; [lia|done].
  - unfold byte_ok in Hb. destruct (Z.eqb_spec b 0).
    + constructor; [lia|]. apply Forall_app. split; [done|]. by apply IH.
    + assert (Hab : Forall (fun b => 1 <= b <= 255) (acc ++ [b]))
        by (apply Forall_app; split; [done|]; constructor; [lia|done]).
      destruct (Z.eqb_spec (zlen acc) 253).
      * constructor; [lia|]. apply Forall_app. split; [done|]. destruct d; [done|]. by apply IH.
      * apply IH; [done|]. rewrite zlen_app, zlen_cons, zlen_nil. lia.
Qed.

Lemma dec_length fuel l d : dec fuel l = Some d -> zlen d <= zlen l.
Proof.
  revert l d. induction fuel as [|fuel IH]; intros l d; [done|]. destruct l as [|c l]; [by intros [= <-]|].
  cbn [dec]. pose proof (zlen_nonneg l). destruct (_ || _) eqn:E; [done|]. apply orb_false_iff in E as [E1 E2]. bool_hyps.
  assert (c - 1 < 0 \/ 0 <= c - 1) as [Hc|Hc] by lia.
  - replace (Z.to_nat (c - 1)) with O by lia. rewrite drop_0. unfold slice at 1 2.
    replace (Z.to_nat (c - 1)) with O by lia.
    destruct l as [|x l]; [intros [= <-]; rewrite zlen_cons; done|].
    destruct (dec fuel (x :: l)) eqn:Hr; [|done]. apply IH in Hr. intros [= <-].
    rewrite (zlen_cons c), zlen_app. destruct (c =? 255); rewrite ?zlen_cons in *; rewrite ?(@zlen_nil Z); lia.
  - assert (Hs : zlen (slice l 0 (c - 1)) = c - 1) by (apply zlen_slice; lia).
    assert (Hd : zlen (drop (Z.to_nat (c - 1)) l) = zlen l - (c - 1)).
    { unfold zlen in *. rewrite length_drop. lia. }
    rewrite zlen_cons. destruct (drop _ l) as [|x rest]; [intros [= <-]; lia|].
    destruct (dec fuel (x :: rest)) eqn:Hr; [|done]. apply IH in Hr. intros [= <-].
    rewrite !zlen_app. destruct (c =? 255); rewrite ?zlen_cons in *; rewrite ?(@zlen_nil Z); lia.
Qed.
Lemma dec_bytes fuel l d : dec fuel l = Some d -> bytes_ok l -> bytes_ok d.
Proof.
  revert l d. induction fuel as [|fuel IH]; intros l d; [done|]. destruct l as [|c l]; [by intros [= <-]|].
  cbn [dec]. destruct (_ || _); [done|]. intros Hd Hl. invs Hl.
  assert (Hs : bytes_ok (slice l 0 (c - 1))) by by apply bytes_ok_slice.
  assert (Hr : bytes_ok (drop (Z.to_nat (c - 1)) l)) by by apply Forall_drop.
  destruct (drop _ l) as [|x rest]; [by invs Hd|].
  destruct (dec fuel (x :: rest)) eqn:E; [|done]. invs Hd.
  apply Forall_app. split; [done|]. apply Forall_app. split; [|by eapply IH].
  destruct (c =? 255); repeat constructor; unfold byte_ok; lia.
Qed.

#[export] Instance ref_cobs : Cobs := {
  max_encoding_length := encode_len;
  cobs_encode := enc [];
  cobs_decode_in_place l :=
    match decode l with Some d => (patch l 0 d, Some (zlen d)) | None => (l, None) end;
}.
#[export] Instance ref_cobs_laws : CobsLaws.
Proof.
  split; cbn [max_encoding_length cobs_encode cobs_decode_in_place ref_cobs].
  - intros n Hn. unfold encode_len. pose proof (div_ceil_pos n 254). lia.
  - intros d. by apply enc_length.
  - intros d. pose proof (enc_not_nil [] d). destruct (enc [] d); [done|]. rewrite zlen_cons.
    pose proof (zlen_nonneg l). lia.
  - intros d Hd. by apply enc_nonzero.
  - intros d Hd. unfold decode. rewrite cobs_dec_enc by (done || lia). cbn [fst snd app]. split; [done|].
    apply slice_patch_same; [done|]. eapply (dec_length (S (length (enc [] d)))). by apply cobs_dec_enc; [done|lia].
  - intros l. destruct (decode l) as [d|] eqn:E; [|done]. apply dec_length in E. cbn [fst]. apply zlen_patch; lia.
  - intros l Hl. destruct (decode l) as [d|] eqn:E; [|done]. apply dec_bytes in E; [|done].
    by apply bytes_ok_patch.
Qed.

End RefCobs.
