(* ===== verification/Fingerprint.v ===== *)
(** The schema fingerprint (crates/protocol/src/fingerprint.rs): the FNV-1a hash of the wire types'
    structure that every frame and envelope carries, folded to 16 bits. The byte stream the hash
    reads, its injectivity up to names, and what the hash itself is guaranteed to notice. *)
From S2P Require Import Prelude Bytes Proto.
From Stdlib Require String.

(** ** The reflected schema

    The types of [postcard_schema::schema] the hash matches on: a type, field or variant name next
    to its data-model shape. *)
Inductive DataModelType :=
| Bool | I8 | U8 | I16 | I32 | I64 | I128 | U16 | U32 | U64 | U128 | Usize | Isize | F32 | F64 | Char
| String_ | ByteArray
| Option_ (inner : NamedType)
| Unit | UnitStruct
| NewtypeStruct (inner : NamedType)
| Seq (inner : NamedType)
| Tuple (types : list NamedType)
| TupleStruct (types : list NamedType)
| Map (key val : NamedType)
| Struct (fields : list NamedValue)
| Enum (variants : list NamedVariant)
| Schema
with NamedType := mkType (name : String.string) (ty : DataModelType)
with NamedValue := mkValue (name : String.string) (ty : NamedType)
with NamedVariant := mkVariant (name : String.string) (ty : DataModelVariant)
with DataModelVariant :=
| UnitVariant
| NewtypeVariant (inner : NamedType)
| TupleVariant (types : list NamedType)
| StructVariant (fields : list NamedValue).

(** ** The hash *)

Definition FNV_BASIS : Z := 0xcbf29ce484222325.
Definition FNV_PRIME : Z := 0x00000100000001b3.

Definition T_BOOL : Z := 0x01.
Definition T_I8 : Z := 0x02.
Definition T_U8 : Z := 0x03.
Definition T_I16 : Z := 0x04.
Definition T_I32 : Z := 0x05.
Definition T_I64 : Z := 0x06.
Definition T_I128 : Z := 0x07.
Definition T_U16 : Z := 0x08.
Definition T_U32 : Z := 0x09.
Definition T_U64 : Z := 0x0A.
Definition T_U128 : Z := 0x0B.
Definition T_USIZE : Z := 0x0C.
Definition T_ISIZE : Z := 0x0D.
Definition T_F32 : Z := 0x0E.
Definition T_F64 : Z := 0x0F.
Definition T_CHAR : Z := 0x10.
Definition T_STRING : Z := 0x11.
Definition T_BYTE_ARRAY : Z := 0x12.
Definition T_OPTION : Z := 0x13.
Definition T_UNIT : Z := 0x14.
Definition T_UNIT_STRUCT : Z := 0x15.
Definition T_NEWTYPE_STRUCT : Z := 0x16.
Definition T_SEQ : Z := 0x17.
Definition T_TUPLE : Z := 0x18.
Definition T_TUPLE_STRUCT : Z := 0x19.
Definition T_MAP : Z := 0x1A.
Definition T_STRUCT : Z := 0x1B.
Definition T_ENUM : Z := 0x1C.
Definition T_SCHEMA : Z := 0x1D.
Definition V_UNIT : Z := 0x21.
Definition V_NEWTYPE : Z := 0x22.
Definition V_TUPLE : Z := 0x23.
Definition V_STRUCT : Z := 0x24.
Definition S_MSG : Z := 0x40.
Definition S_MGMT : Z := 0x41.
Definition S_RADIO : Z := 0x42.

Definition wrap64 (x : Z) : Z := x mod 18446744073709551616.

Definition feed_byte (state b : Z) : Z := wrap64 (Z.lxor state b * FNV_PRIME).
Definition feed (state : Z) (bytes : list Z) : Z := fold_left feed_byte bytes state.
Definition feed_u8 (state byte : Z) : Z := feed state [byte].
Definition feed_count (state count : Z) : Z := feed state (le_bytes 4 (wrap32 count)).

(** The loop of [hash_types], [hash_fields] and [hash_variants]: a tag, the element count, then every
    element by [hash]. *)
Definition hash_list {X} (hash : Z -> X -> Z) (state tag : Z) (l : list X) : Z :=
  fold_left hash l (feed_count (feed_u8 state tag) (zlen l)).

Fixpoint hash_type (state : Z) (t : NamedType) {struct t} : Z :=
  match t with
  | mkType _ d => hash_data state d
  end
with hash_data (state : Z) (d : DataModelType) {struct d} : Z :=
  match d with
  | Bool => feed_u8 state T_BOOL
  | I8 => feed_u8 state T_I8
  | U8 => feed_u8 state T_U8
  | I16 => feed_u8 state T_I16
  | I32 => feed_u8 state T_I32
  | I64 => feed_u8 state T_I64
  | I128 => feed_u8 state T_I128
  | U16 => feed_u8 state T_U16
  | U32 => feed_u8 state T_U32
  | U64 => feed_u8 state T_U64
  | U128 => feed_u8 state T_U128
  | Usize => feed_u8 state T_USIZE
  | Isize => feed_u8 state T_ISIZE
  | F32 => feed_u8 state T_F32
  | F64 => feed_u8 state T_F64
  | Char => feed_u8 state T_CHAR
  | String_ => feed_u8 state T_STRING
  | ByteArray => feed_u8 state T_BYTE_ARRAY
  | Option_ inner => hash_type (feed_u8 state T_OPTION) inner
  | Unit => feed_u8 state T_UNIT
  | UnitStruct => feed_u8 state T_UNIT_STRUCT
  | NewtypeStruct inner => hash_type (feed_u8 state T_NEWTYPE_STRUCT) inner
  | Seq inner => hash_type (feed_u8 state T_SEQ) inner
  | Tuple types => hash_list hash_type state T_TUPLE types
  | TupleStruct types => hash_list hash_type state T_TUPLE_STRUCT types
  | Map key val => hash_type (hash_type (feed_u8 state T_MAP) key) val
  | Struct fields => hash_list hash_field state T_STRUCT fields
  | Enum variants => hash_list hash_variant state T_ENUM variants
  | Schema => feed_u8 state T_SCHEMA
  end
with hash_field (state : Z) (f : NamedValue) {struct f} : Z :=
  match f with
  | mkValue _ t => hash_type state t
  end
with hash_variant (state : Z) (v : NamedVariant) {struct v} : Z :=
  match v with
  | mkVariant _ d => hash_variant_data state d
  end
with hash_variant_data (state : Z) (d : DataModelVariant) {struct d} : Z :=
  match d with
  | UnitVariant => feed_u8 state V_UNIT
  | NewtypeVariant inner => hash_type (feed_u8 state V_NEWTYPE) inner
  | TupleVariant types => hash_list hash_type state V_TUPLE types
  | StructVariant fields => hash_list hash_field state V_STRUCT fields
  end.

Definition hash_types (state tag : Z) (types : list NamedType) : Z :=
  hash_list hash_type state tag types.
Definition fold16 (hash : Z) : Z :=
  wrap16 (Z.lxor (Z.lxor (Z.lxor hash (Z.shiftr hash 16)) (Z.shiftr hash 32)) (Z.shiftr hash 48)).

(** What the [Schema] derive of the [postcard-schema] crate reflects for each wire type. *)
Class Schemas := {
  Hello_SCHEMA : NamedType; Log_SCHEMA : NamedType; Print_SCHEMA : NamedType; Event_SCHEMA : NamedType;
  ShellResponse_SCHEMA : NamedType; ShellCompletions_SCHEMA : NamedType; Dropped_SCHEMA : NamedType;
  MgmtResponse_SCHEMA : NamedType; Uplink_SCHEMA : NamedType; RadioStat_SCHEMA : NamedType;
  ShellCommand_SCHEMA : NamedType; ShellComplete_SCHEMA : NamedType; MgmtRequest_SCHEMA : NamedType;
  MgmtOp_SCHEMA : NamedType; DeviceInfo_SCHEMA : NamedType; NodeEntry_SCHEMA : NamedType; NodeKey_SCHEMA : NamedType;
  Paired_SCHEMA : NamedType; QueueId_SCHEMA : NamedType; QueueEntry_SCHEMA : NamedType;
  ProvisionAck_SCHEMA : NamedType; Joined_SCHEMA : NamedType;
  NodeMsg_SCHEMA : NamedType; NodeCmd_SCHEMA : NamedType;
}.

Section Tags.
Context `{Schemas}.

Definition schema_hash (t : NamedType) : Z := hash_type FNV_BASIS t.

Definition payload_schema (t : MsgType) : NamedType :=
  match t with
  | Hello => Hello_SCHEMA | Log => Log_SCHEMA | Print_ => Print_SCHEMA | Event => Event_SCHEMA
  | ShellResponse => ShellResponse_SCHEMA | ShellCompletions => ShellCompletions_SCHEMA | Dropped => Dropped_SCHEMA
  | MgmtResponse => MgmtResponse_SCHEMA | Uplink => Uplink_SCHEMA | RadioStat => RadioStat_SCHEMA
  | ShellCommand => ShellCommand_SCHEMA | ShellComplete => ShellComplete_SCHEMA | MgmtRequest => MgmtRequest_SCHEMA
  end.
Definition MGMT_TYPES : list NamedType :=
  [MgmtOp_SCHEMA; DeviceInfo_SCHEMA; NodeEntry_SCHEMA; NodeKey_SCHEMA; Paired_SCHEMA; QueueId_SCHEMA;
   QueueEntry_SCHEMA; ProvisionAck_SCHEMA; Joined_SCHEMA].
Definition RADIO_TYPES : list NamedType := [NodeMsg_SCHEMA; NodeCmd_SCHEMA].

Definition console_hash : Z :=
  let state := fold_left (fun state t => hash_type (feed state [S_MSG; as_u8 t]) (payload_schema t)) ALL FNV_BASIS in
  hash_types state S_MGMT MGMT_TYPES.
Definition CONSOLE_HASH : Z := console_hash.
Definition RADIO_HASH : Z := hash_types FNV_BASIS S_RADIO RADIO_TYPES.
Definition CONSOLE_TAG : Z := fold16 CONSOLE_HASH.
Definition RADIO_TAG : Z := fold16 RADIO_HASH.

End Tags.

(** ** The bytes the hash reads *)

Definition enc_list {X} (enc : X -> list Z) (tag : Z) (l : list X) : list Z :=
  tag :: le_bytes 4 (wrap32 (zlen l)) ++ flat_map enc l.

Fixpoint enc_type (t : NamedType) : list Z :=
  match t with mkType _ d => enc_data d end
with enc_data (d : DataModelType) : list Z :=
  match d with
  | Bool => [T_BOOL] | I8 => [T_I8] | U8 => [T_U8] | I16 => [T_I16] | I32 => [T_I32] | I64 => [T_I64]
  | I128 => [T_I128] | U16 => [T_U16] | U32 => [T_U32] | U64 => [T_U64] | U128 => [T_U128] | Usize => [T_USIZE]
  | Isize => [T_ISIZE] | F32 => [T_F32] | F64 => [T_F64] | Char => [T_CHAR] | String_ => [T_STRING]
  | ByteArray => [T_BYTE_ARRAY] | Unit => [T_UNIT] | UnitStruct => [T_UNIT_STRUCT] | Schema => [T_SCHEMA]
  | Option_ t => T_OPTION :: enc_type t
  | NewtypeStruct t => T_NEWTYPE_STRUCT :: enc_type t
  | Seq t => T_SEQ :: enc_type t
  | Map k v => T_MAP :: enc_type k ++ enc_type v
  | Tuple l => enc_list enc_type T_TUPLE l
  | TupleStruct l => enc_list enc_type T_TUPLE_STRUCT l
  | Struct l => enc_list enc_field T_STRUCT l
  | Enum l => enc_list enc_variant T_ENUM l
  end
with enc_field (f : NamedValue) : list Z :=
  match f with mkValue _ t => enc_type t end
with enc_variant (v : NamedVariant) : list Z :=
  match v with mkVariant _ d => enc_variant_data d end
with enc_variant_data (d : DataModelVariant) : list Z :=
  match d with
  | UnitVariant => [V_UNIT]
  | NewtypeVariant t => V_NEWTYPE :: enc_type t
  | TupleVariant l => enc_list enc_type V_TUPLE l
  | StructVariant l => enc_list enc_field V_STRUCT l
  end.

(** A type without its names: what postcard puts on the wire depends on nothing else. *)
Fixpoint erase_type (t : NamedType) : NamedType :=
  match t with mkType _ d => mkType String.EmptyString (erase_data d) end
with erase_data (d : DataModelType) : DataModelType :=
  match d with
  | Option_ t => Option_ (erase_type t)
  | NewtypeStruct t => NewtypeStruct (erase_type t)
  | Seq t => Seq (erase_type t)
  | Map k v => Map (erase_type k) (erase_type v)
  | Tuple l => Tuple (List.map erase_type l)
  | TupleStruct l => TupleStruct (List.map erase_type l)
  | Struct l => Struct (List.map erase_field l)
  | Enum l => Enum (List.map erase_variant l)
  | d => d
  end
with erase_field (f : NamedValue) : NamedValue :=
  match f with mkValue _ t => mkValue String.EmptyString (erase_type t) end
with erase_variant (v : NamedVariant) : NamedVariant :=
  match v with mkVariant _ d => mkVariant String.EmptyString (erase_variant_data d) end
with erase_variant_data (d : DataModelVariant) : DataModelVariant :=
  match d with
  | UnitVariant => UnitVariant
  | NewtypeVariant t => NewtypeVariant (erase_type t)
  | TupleVariant l => TupleVariant (List.map erase_type l)
  | StructVariant l => StructVariant (List.map erase_field l)
  end.

(** Every list of children is shorter than [2^32] (its count is hashed as a [u32]). *)
Definition short {X} (l : list X) : bool := zlen l <=? u32_max.
Fixpoint fits_type (t : NamedType) : bool :=
  match t with mkType _ d => fits_data d end
with fits_data (d : DataModelType) : bool :=
  match d with
  | Option_ t | NewtypeStruct t | Seq t => fits_type t
  | Map k v => fits_type k && fits_type v
  | Tuple l | TupleStruct l => short l && forallb fits_type l
  | Struct l => short l && forallb fits_field l
  | Enum l => short l && forallb fits_variant l
  | _ => true
  end
with fits_field (f : NamedValue) : bool :=
  match f with mkValue _ t => fits_type t end
with fits_variant (v : NamedVariant) : bool :=
  match v with mkVariant _ d => fits_variant_data d end
with fits_variant_data (d : DataModelVariant) : bool :=
  match d with
  | UnitVariant => true
  | NewtypeVariant t => fits_type t
  | TupleVariant l => short l && forallb fits_type l
  | StructVariant l => short l && forallb fits_field l
  end.

(** ** Induction on schemas *)

Definition leaf (d : DataModelType) : bool :=
  match d with
  | Option_ _ | NewtypeStruct _ | Seq _ | Map _ _ | Tuple _ | TupleStruct _ | Struct _ | Enum _ => false
  | _ => true
  end.

Section SchemaInd.
Context (PT : NamedType -> Prop) (PD : DataModelType -> Prop) (PF : NamedValue -> Prop) (PV : NamedVariant -> Prop)
  (PW : DataModelVariant -> Prop).
Hypothesis HT : forall n d, PD d -> PT (mkType n d).
Hypothesis Hleaf : forall d, leaf d = true -> PD d.
Hypothesis Hopt : forall t, PT t -> PD (Option_ t).
Hypothesis Hnew : forall t, PT t -> PD (NewtypeStruct t).
Hypothesis Hseq : forall t, PT t -> PD (Seq t).
Hypothesis Hmap : forall k v, PT k -> PT v -> PD (Map k v).
Hypothesis Htup : forall l, Forall PT l -> PD (Tuple l).
Hypothesis Htups : forall l, Forall PT l -> PD (TupleStruct l).
Hypothesis Hstruct : forall l, Forall PF l -> PD (Struct l).
Hypothesis Henum : forall l, Forall PV l -> PD (Enum l).
Hypothesis HF : forall n t, PT t -> PF (mkValue n t).
Hypothesis HV : forall n d, PW d -> PV (mkVariant n d).
Hypothesis HWu : PW UnitVariant.
Hypothesis HWn : forall t, PT t -> PW (NewtypeVariant t).
Hypothesis HWt : forall l, Forall PT l -> PW (TupleVariant l).
Hypothesis HWs : forall l, Forall PF l -> PW (StructVariant l).

Definition all_list {X} (P : X -> Prop) (H : forall x, P x) : forall l, Forall P l :=
  fix go l := match l with [] => @List.Forall_nil X P | x :: l => @List.Forall_cons X P x l (H x) (go l) end.

Fixpoint type_ind (t : NamedType) : PT t :=
  match t with mkType n d => HT n d (data_ind d) end
with data_ind (d : DataModelType) : PD d :=
  match d with
  | Option_ t => Hopt t (type_ind t)
  | NewtypeStruct t => Hnew t (type_ind t)
  | Seq t => Hseq t (type_ind t)
  | Map k v => Hmap k v (type_ind k) (type_ind v)
  | Tuple l => Htup l (all_list PT type_ind l)
  | TupleStruct l => Htups l (all_list PT type_ind l)
  | Struct l => Hstruct l (all_list PF field_ind l)
  | Enum l => Henum l (all_list PV variant_ind l)
  | d => Hleaf d eq_refl
  end
with field_ind (f : NamedValue) : PF f :=
  match f with mkValue n t => HF n t (type_ind t) end
with variant_ind (v : NamedVariant) : PV v :=
  match v with mkVariant n d => HV n d (variant_data_ind d) end
with variant_data_ind (d : DataModelVariant) : PW d :=
  match d with
  | UnitVariant => HWu
  | NewtypeVariant t => HWn t (type_ind t)
  | TupleVariant l => HWt l (all_list PT type_ind l)
  | StructVariant l => HWs l (all_list PF field_ind l)
  end.
End SchemaInd.

(** ** The hash reads exactly [enc_type] *)

Lemma feed_app s a b : feed s (a ++ b) = feed (feed s a) b.
Proof. apply fold_left_app. Qed.
Lemma feed_cons s x a : feed s (x :: a) = feed (feed_u8 s x) a.
Proof. done. Qed.

Lemma hash_list_feed {X} (hash : Z -> X -> Z) enc l :
  Forall (fun x => forall s, hash s x = feed s (enc x)) l ->
  forall s tag, hash_list hash s tag l = feed s (enc_list enc tag l).
Proof.
  intros Hl s tag. unfold hash_list, enc_list. rewrite feed_cons, feed_app. fold (feed_count (feed_u8 s tag) (zlen l)).
  generalize (feed_count (feed_u8 s tag) (zlen l)). clear s tag.
  induction Hl as [|x l Hx Hl IH]; intros s; simpl; [done|]. by rewrite feed_app, <- Hx, IH.
Qed.

Lemma hash_type_feed t : forall s, hash_type s t = feed s (enc_type t).
Proof.
  apply (type_ind
    (fun t => forall s, hash_type s t = feed s (enc_type t))
    (fun d => forall s, hash_data s d = feed s (enc_data d))
    (fun f => forall s, hash_field s f = feed s (enc_field f))
    (fun v => forall s, hash_variant s v = feed s (enc_variant v))
    (fun d => forall s, hash_variant_data s d = feed s (enc_variant_data d)));
    intros; cbn [hash_type hash_data hash_field hash_variant hash_variant_data
                 enc_type enc_data enc_field enc_variant enc_variant_data];
    rewrite ?feed_cons, ?feed_app; try done; try (by apply hash_list_feed); try congruence.
  - destruct d; done.
Qed.

(** ** Injectivity up to names *)

Definition decodes {X} (enc : X -> list Z) (erase : X -> X) (fits : X -> bool) (x : X) : Prop :=
  forall x' r r', fits x = true -> fits x' = true -> enc x ++ r = enc x' ++ r' -> erase x = erase x' /\ r = r'.

Lemma decodes_list {X} enc erase fits (l : list X) : Forall (decodes enc erase fits) l ->
  forall tag l' r r', short l && forallb fits l = true -> short l' && forallb fits l' = true ->
  enc_list enc tag l ++ r = enc_list enc tag l' ++ r' ->
  List.map erase l = List.map erase l' /\ r = r'.
Proof.
  intros Hl tag l' r r' H1 H2 He. unfold short in *.
  apply andb_true_iff in H1 as [Hs Hf], H2 as [Hs' Hf']. bool_hyps. unfold enc_list in He.
  rewrite <- !app_comm_cons in He. apply (f_equal (@tail Z)) in He. cbn [tail] in He. rewrite <- !app_assoc in He.
  apply app_inj_1 in He as [Hc He]; [|by rewrite !length_le_bytes].
  pose proof (zlen_nonneg l). pose proof (zlen_nonneg l').
  rewrite !wrap32_small in Hc by mlia. apply u32_bytes_inj in Hc; [|mlia..].
  assert (Hlen : length l = length l') by (unfold zlen in Hc; lia). clear - Hl Hlen He Hf Hf'.
  revert l' r r' Hlen He Hf'. induction Hl as [|x l Hx Hl IH]; intros [|x' l'] r r' Hlen He Hf'; try discriminate;
    [simpl in He; by subst|].
  simpl in *. apply andb_true_iff in Hf as [Hfx Hf], Hf' as [Hfx' Hf']. rewrite <- !app_assoc in He.
  destruct (Hx x' _ _ Hfx Hfx' He) as [-> He'].
  by destruct (IH Hf l' r r' ltac:(lia) He' Hf') as [-> ->].
Qed.

Lemma enc_type_inj t : decodes enc_type erase_type fits_type t.
Proof.
  apply (type_ind (decodes enc_type erase_type fits_type)
    (decodes enc_data erase_data fits_data) (decodes enc_field erase_field fits_field)
    (decodes enc_variant erase_variant fits_variant)
    (decodes enc_variant_data erase_variant_data fits_variant_data)); clear t.
  all: try (intros n x Hx [n' x'] r r' Hf Hf' He; simpl in *; by destruct (Hx x' r r' Hf Hf' He) as [-> ->]).
  all: try (intros t IH d' r r' Hf Hf' He; destruct d'; try discriminate He; injection He as He;
            simpl; by destruct (IH _ _ _ Hf Hf' He) as [-> ->]).
  all: try (intros l IH d' r r' Hf Hf' He; destruct d'; try discriminate He;
            simpl; by destruct (decodes_list _ _ _ l IH _ _ _ _ Hf Hf' He) as [-> ->]).
  - intros d Hd d' r r' _ _ He. destruct d; try discriminate Hd; destruct d'; try discriminate He; by injection He as ->.
  - intros k v IHk IHv d' r r' Hf Hf' He. destruct d' as [ | | | | | | | | | | | | | | | | | | | | | | | | |k' v'| | |];
      try discriminate He. injection He as He.
    simpl in *. apply andb_true_iff in Hf as [Hk Hv], Hf' as [Hk' Hv']. rewrite <- !app_assoc in He.
    destruct (IHk _ _ _ Hk Hk' He) as [-> He']. by destruct (IHv _ _ _ Hv Hv' He') as [-> ->].
  - intros d' r r' _ _ He. destruct d'; try discriminate He. by injection He as ->.
Qed.

Lemma enc_list_map {X} (enc : X -> list Z) (erase : X -> X) l tag :
  Forall (fun x => enc (erase x) = enc x) l -> enc_list enc tag (List.map erase l) = enc_list enc tag l.
Proof.
  intros Hl. unfold enc_list, zlen. rewrite List.length_map. do 2 f_equal.
  induction Hl as [|x l Hx Hl IH]; [done|]. cbn [List.map flat_map]. by rewrite Hx, IH.
Qed.
(** Names do not reach the hash. *)
Lemma enc_erase t : enc_type (erase_type t) = enc_type t.
Proof.
  apply (type_ind (fun t => enc_type (erase_type t) = enc_type t) (fun d => enc_data (erase_data d) = enc_data d)
    (fun f => enc_field (erase_field f) = enc_field f) (fun v => enc_variant (erase_variant v) = enc_variant v)
    (fun d => enc_variant_data (erase_variant_data d) = enc_variant_data d)); clear t; intros;
    cbn [erase_type erase_data erase_field erase_variant erase_variant_data
         enc_type enc_data enc_field enc_variant enc_variant_data]; try congruence; try (by apply enc_list_map).
  by destruct d.
Qed.

Lemma enc_list_bytes {X} (enc : X -> list Z) l tag : byte_ok tag ->
  Forall (fun x => bytes_ok (enc x)) l -> bytes_ok (enc_list enc tag l).
Proof.
  intros Ht Hl. constructor; [done|]. apply Forall_app. split; [apply le_bytes_ok|].
  induction Hl; simpl; [constructor|]. apply Forall_app. done.
Qed.
Lemma enc_type_bytes t : bytes_ok (enc_type t).
Proof.
  apply (type_ind (fun t => bytes_ok (enc_type t)) (fun d => bytes_ok (enc_data d))
    (fun f => bytes_ok (enc_field f)) (fun v => bytes_ok (enc_variant v))
    (fun d => bytes_ok (enc_variant_data d))); clear t; intros;
    cbn [enc_type enc_data enc_field enc_variant enc_variant_data];
    try done; try (by apply enc_list_bytes); try (constructor; [done|]); try done.
  - destruct d; try discriminate; by apply bytes_okb_ok.
  - by apply Forall_app.
Qed.

(** ** The FNV step *)

Definition fnv_inverse : Z := 14886173955864302971.

Lemma u64_lxor a b : 0 <= a < 2 ^ 64 -> 0 <= b < 2 ^ 64 -> 0 <= Z.lxor a b < 2 ^ 64.
Proof. apply pow2_lxor. lia. Qed.
Lemma mul_prime_inj x y : 0 <= x < 2 ^ 64 -> 0 <= y < 2 ^ 64 ->
  wrap64 (x * FNV_PRIME) = wrap64 (y * FNV_PRIME) -> x = y.
Proof.
  intros Hx Hy H. unfold wrap64 in H. change 18446744073709551616 with (2 ^ 64) in H.
  assert (Hinv : (FNV_PRIME * fnv_inverse) mod 2 ^ 64 = 1) by (vm_compute; reflexivity).
  assert (Hk : forall z, 0 <= z < 2 ^ 64 -> ((z * FNV_PRIME) mod 2 ^ 64 * fnv_inverse) mod 2 ^ 64 = z).
  { intros z Hz. rewrite Z.mul_mod_idemp_l by lia. rewrite <- Z.mul_assoc, <- Z.mul_mod_idemp_r by lia.
    rewrite Hinv, Z.mul_1_r. by apply Z.mod_small. }
  rewrite <- (Hk x Hx), <- (Hk y Hy). by rewrite H.
Qed.
Lemma feed_byte_ok s b : 0 <= feed_byte s b < 2 ^ 64.
Proof. apply Z.mod_pos_bound. reflexivity. Qed.
Lemma byte_u64 b : byte_ok b -> 0 <= b < 2 ^ 64.
Proof. unfold byte_ok. lia. Qed.
Lemma feed_byte_inj s s' b b' : 0 <= s < 2 ^ 64 -> 0 <= s' < 2 ^ 64 -> byte_ok b -> byte_ok b' ->
  feed_byte s b = feed_byte s' b' -> Z.lxor s b = Z.lxor s' b'.
Proof. intros. apply mul_prime_inj; auto using u64_lxor, byte_u64. Qed.
Lemma feed_ok d s : 0 <= s < 2 ^ 64 -> 0 <= feed s d < 2 ^ 64.
Proof. revert s. induction d as [|b d IH]; intros s Hs; [done|]. apply IH, feed_byte_ok. Qed.
Lemma feed_inj_state d s s' : bytes_ok d -> 0 <= s < 2 ^ 64 -> 0 <= s' < 2 ^ 64 -> feed s d = feed s' d -> s = s'.
Proof.
  intros Hd. revert s s'. induction Hd as [|b d Hb Hd IH]; intros s s' Hs Hs' H; [done|].
  apply IH in H; [|apply feed_byte_ok..]. apply feed_byte_inj in H; [|done..].
  rewrite (Z.lxor_comm s), (Z.lxor_comm s') in H. by apply lxor_cancel_l in H.
Qed.
Lemma feed_one_byte s p b b' q : 0 <= s < 2 ^ 64 -> byte_ok b -> byte_ok b' -> bytes_ok q ->
  feed s (p ++ b :: q) = feed s (p ++ b' :: q) -> b = b'.
Proof.
  intros Hs Hb Hb' Hq H. rewrite !feed_app, !feed_cons in H.
  apply feed_inj_state in H; [|done|apply feed_byte_ok..].
  apply feed_byte_inj in H; [|by apply feed_ok..|done|done]. by apply lxor_cancel_l in H.
Qed.

(** ** The two surfaces *)

Definition console_stream `{Schemas} : list Z :=
  flat_map (fun t => [S_MSG; as_u8 t] ++ enc_type (payload_schema t)) ALL ++ enc_list enc_type S_MGMT MGMT_TYPES.
Definition radio_stream `{Schemas} : list Z := enc_list enc_type S_RADIO RADIO_TYPES.
Definition surfaces_fit `{Schemas} : bool :=
  forallb (fun t => fits_type (payload_schema t)) ALL && forallb fits_type MGMT_TYPES && forallb fits_type RADIO_TYPES.

Lemma hash_types_feed s tag l : hash_types s tag l = feed s (enc_list enc_type tag l).
Proof. apply hash_list_feed. apply List.Forall_forall. intros x _. apply hash_type_feed. Qed.
Lemma console_hash_feed `{Schemas} : CONSOLE_HASH = feed FNV_BASIS console_stream.
Proof.
  unfold CONSOLE_HASH, console_hash, console_stream. rewrite feed_app, hash_types_feed. f_equal.
  generalize FNV_BASIS. induction ALL as [|t l IH]; intros s; [done|].
  cbn [fold_left flat_map]. by rewrite !feed_app, <- hash_type_feed, IH.
Qed.
Lemma radio_hash_feed `{Schemas} : RADIO_HASH = feed FNV_BASIS radio_stream.
Proof. apply hash_types_feed. Qed.

Lemma types_stream_iff tag l l' r r' :
  zlen l = zlen l' -> zlen l <= u32_max -> forallb fits_type l = true -> forallb fits_type l' = true ->
  (enc_list enc_type tag l ++ r = enc_list enc_type tag l' ++ r' <-> List.map erase_type l = List.map erase_type l' /\ r = r').
Proof.
  intros Hl Hs Hf Hf'. split.
  - apply (decodes_list enc_type erase_type fits_type); [apply List.Forall_forall; intros x _; apply enc_type_inj| |];
      unfold short; apply andb_true_iff; (split; [by apply Z.leb_le; lia|done]).
  - intros [He ->]. f_equal. assert (Hx : forall l, Forall (fun x => enc_type (erase_type x) = enc_type x) l)
      by (intros k; apply List.Forall_forall; intros x _; apply enc_erase).
    rewrite <- (enc_list_map enc_type erase_type l tag (Hx l)).
    by rewrite <- (enc_list_map enc_type erase_type l' tag (Hx l')), He.
Qed.
Lemma payload_stream_iff (f f' : MsgType -> NamedType) ts r r' :
  Forall (fun t => fits_type (f t) = true /\ fits_type (f' t) = true) ts ->
  (flat_map (fun t => [S_MSG; as_u8 t] ++ enc_type (f t)) ts ++ r =
   flat_map (fun t => [S_MSG; as_u8 t] ++ enc_type (f' t)) ts ++ r' <->
   Forall (fun t => erase_type (f t) = erase_type (f' t)) ts /\ r = r').
Proof.
  induction 1 as [|t ts [Hf Hf'] Hts IH]; [simpl; split; [by intros ->|by intros [_ ->]]|].
  cbn [flat_map app]. rewrite <- !app_assoc, List.Forall_cons_iff. split.
  - intros He. injection He as He. apply enc_type_inj in He as [He1 He2]; [|done..].
    apply IH in He2 as [? ->]. done.
  - intros [[He1 He2] Hr]. do 2 f_equal. rewrite <- (enc_erase (f t)), <- (enc_erase (f' t)), He1. f_equal.
    by apply IH.
Qed.

(** The schema tag is a function of the wire structure and of nothing else. [CONSOLE_HASH] (and
    [RADIO_HASH]) is FNV-1a over one byte stream, and for two builds those streams are equal exactly
    when every [MsgType] carries the same payload structure and the management (radio) types are the
    same in the same order, names aside: renaming a type, field or variant never moves the tag, and
    any reordering, insertion, removal or change of a type's shape feeds the hash other bytes. *)
Theorem schema_stream_structural (S S' : Schemas) :
  @surfaces_fit S = true -> @surfaces_fit S' = true ->
  (@CONSOLE_HASH S = feed FNV_BASIS (@console_stream S) /\ @RADIO_HASH S = feed FNV_BASIS (@radio_stream S)) /\
  (@console_stream S = @console_stream S' <->
     (forall t, erase_type (@payload_schema S t) = erase_type (@payload_schema S' t)) /\
     List.map erase_type (@MGMT_TYPES S) = List.map erase_type (@MGMT_TYPES S')) /\
  (@radio_stream S = @radio_stream S' <->
     List.map erase_type (@RADIO_TYPES S) = List.map erase_type (@RADIO_TYPES S')).
Proof.
  intros Hf Hf'. unfold surfaces_fit in *.
  apply andb_true_iff in Hf as [Hf Hr], Hf' as [Hf' Hr']. apply andb_true_iff in Hf as [Hp Hm], Hf' as [Hp' Hm'].
  split; [split; [apply console_hash_feed|apply radio_hash_feed]|]. split.
  - unfold console_stream. rewrite <- (app_nil_r (enc_list enc_type S_MGMT (@MGMT_TYPES S))),
      <- (app_nil_r (enc_list enc_type S_MGMT (@MGMT_TYPES S'))).
    rewrite payload_stream_iff, types_stream_iff; try done.
    + rewrite List.Forall_forall. split; [intros [Ha [Hb _]]; split; [intros t; apply Ha, ALL_complete|done]|].
      intros [Ha Hb]. split; [intros t _; apply Ha|done].
    + rewrite forallb_forall in Hp, Hp'. apply List.Forall_forall. intros t Ht. split; [by apply Hp|by apply Hp'].
  - unfold radio_stream. rewrite <- (app_nil_r (enc_list enc_type S_RADIO (@RADIO_TYPES S))),
      <- (app_nil_r (enc_list enc_type S_RADIO (@RADIO_TYPES S'))).
    rewrite types_stream_iff by done. tauto.
Qed.

(** What a 64-bit hash can guarantee, it does: two builds whose streams differ in a single byte (one
    scalar type changed for another, an option for a sequence, a variant's shape) never share their
    64-bit hash; and the folded tags are 16-bit values. *)
Theorem one_byte_edit_moves_hash (S S' : Schemas) (p q : list Z) (b b' : Z) :
  byte_ok b -> byte_ok b' -> bytes_ok q -> b <> b' ->
  @console_stream S = p ++ b :: q -> @console_stream S' = p ++ b' :: q ->
  @CONSOLE_HASH S <> @CONSOLE_HASH S' /\ u16_ok (@CONSOLE_TAG S) /\ u16_ok (@CONSOLE_TAG S').
Proof.
  intros Hb Hb' Hq Hne H1 H2. split; [|split; apply wrap16_ok].
  rewrite !console_hash_feed, H1, H2. intros H. apply Hne. eapply feed_one_byte; [|done..|done].
  split; [discriminate|reflexivity].
Qed.

(** *** A concrete pair of builds *)
Module ToySchemas.
Import Stdlib.Strings.String.

Definition ty (d : DataModelType) : NamedType := mkType "T"%string d.
Definition fld (n : String.string) (d : DataModelType) : NamedValue := mkValue n (ty d).
(** [Dropped] has one [u32] counter; every other type is a unit here, but [MgmtOp] which has variants. *)
Definition unit_ty : NamedType := ty Unit.
Definition with_dropped (d : NamedType) : Schemas := {|
  Hello_SCHEMA := unit_ty; Log_SCHEMA := unit_ty; Print_SCHEMA := unit_ty; Event_SCHEMA := unit_ty;
  ShellResponse_SCHEMA := unit_ty; ShellCompletions_SCHEMA := unit_ty; Dropped_SCHEMA := d;
  MgmtResponse_SCHEMA := unit_ty; Uplink_SCHEMA := unit_ty; RadioStat_SCHEMA := unit_ty;
  ShellCommand_SCHEMA := unit_ty; ShellComplete_SCHEMA := unit_ty; MgmtRequest_SCHEMA := unit_ty;
  MgmtOp_SCHEMA := ty (Enum [mkVariant "Describe"%string UnitVariant;
                             mkVariant "NodeRemove"%string (StructVariant [fld "addr"%string U32])]);
  DeviceInfo_SCHEMA := unit_ty; NodeEntry_SCHEMA := unit_ty; NodeKey_SCHEMA := unit_ty; Paired_SCHEMA := unit_ty;
  QueueId_SCHEMA := unit_ty; QueueEntry_SCHEMA := unit_ty; ProvisionAck_SCHEMA := unit_ty; Joined_SCHEMA := unit_ty;
  NodeMsg_SCHEMA := unit_ty; NodeCmd_SCHEMA := unit_ty |}.
Definition dropped (n : String.string) (d : DataModelType) : NamedType := ty (Struct [fld n d]).

(** A renamed field keeps the streams; a wider counter changes them. *)
Lemma schema_stream_structural_witness :
  @console_stream (with_dropped (dropped "count"%string U32)) = @console_stream (with_dropped (dropped "lost"%string U32)) /\
  @console_stream (with_dropped (dropped "count"%string U32)) <> @console_stream (with_dropped (dropped "count"%string U64)).
Proof.
  split.
  - apply (schema_stream_structural (with_dropped (dropped "count"%string U32)) (with_dropped (dropped "lost"%string U32)));
      [reflexivity..|]. split; [by intros []|reflexivity].
  - intros H.
    apply (schema_stream_structural (with_dropped (dropped "count"%string U32)) (with_dropped (dropped "count"%string U64)))
      in H as [H _]; [|reflexivity..]. specialize (H Dropped). discriminate H.
Defined.

Lemma one_byte_edit_moves_hash_witness :
  @CONSOLE_HASH (with_dropped (dropped "count"%string U32)) <> @CONSOLE_HASH (with_dropped (dropped "count"%string U64)).
Proof.
  pose (s := @console_stream (with_dropped (dropped "count"%string U32))).
  apply (one_byte_edit_moves_hash (with_dropped (dropped "count"%string U32)) (with_dropped (dropped "count"%string U64))
           (take 25 s) (drop 26 s) T_U32 T_U64).
  - split; discriminate.
  - split; discriminate.
  - apply bytes_okb_ok. vm_compute. reflexivity.
  - discriminate.
  - vm_compute. reflexivity.
  - vm_compute. reflexivity.
Defined.

End ToySchemas.
