(* ===== verification/Msg.v ===== *)
(** The message payloads (crates/protocol/src/msg.rs), the management records
    (crates/protocol/src/mgmt.rs) and the radio application messages
    (crates/protocol/src/radio.rs): the types postcard puts on the wire. Strings are Rocq strings,
    byte slices lists of bytes, machine integers [Z]. *)
From S2P Require Import Prelude Bytes.
From Stdlib Require String.

#[local] Abbreviation str := String.string.

(** ** msg.rs *)

Inductive Level := LError | LWarn | LInfo | LDebug | LTrace.
Record Hello := { hello_firmware_name : str; hello_firmware_version : str; hello_session_id : Z }.
Record Log := { log_level : Level; log_uptime_us : Z; log_module : str; log_message : str }.
Record Print := { print_text : str }.
Record Event := { event_name : str; event_fields : list (str * str) }.
Record ShellResponse := {
  resp_cmd_id : Z; resp_result : Z; resp_chunk : Z; resp_last : bool; resp_text : str }.
Inductive CandidateKind := KMenu | KCommand | KArg | KValue.
Record Candidate := { cand_text : str; cand_kind : CandidateKind }.
Record ShellCompletions := {
  compl_req_id : Z; compl_token_start : Z; compl_common_prefix : str; compl_candidates : list Candidate; compl_more : bool }.
Record Dropped := { dropped_count : Z }.
Record Uplink := { uplink_src : Z; uplink_counter : Z; uplink_rssi : Z; uplink_lqi : Z; uplink_data : list Z }.
Record MgmtResponse := {
  mresp_req_id : Z; mresp_result : Z; mresp_chunk : Z; mresp_last : bool; mresp_data : list Z }.
Inductive RadioStat :=
| StatChannel (channel rssi : Z)
| StatTx (dest item outcome : Z) (ack_rssi : option Z).
Record ShellCommand := { cmd_id : Z; cmd_line : str }.
Record ShellComplete := { complete_req_id : Z; complete_line : str; complete_cursor : Z }.

(** ** mgmt.rs *)

Record Provision := {
  prov_addr : option Z; prov_gw_addr : Z; prov_key : list Z; prov_band : Z; prov_channel : Z }.
Inductive MgmtOp :=
| Describe
| NodeList
| NodeAdd (addr : Z) (key : list Z) (name : str) (flags tx_floor rx_floor : Z)
| NodeRemove (addr : Z)
| NodeUpdate (addr : Z) (name : option str) (flags : option Z)
| NodeRevealKey (addr : Z)
| PairingOpen (window : Z)
| PairingCancel
| QueuePush (node_addr ttl : Z) (data : list Z)
| QueueList (node_addr : Z)
| QueueDrop (node_addr : Z) (item : option Z)
| StatsConfig (channel_period_ms : Z)
| OpProvision (p : Provision)
| JoinOpen (window : Z).
Record MgmtRequest := { mreq_req_id : Z; mreq_op : MgmtOp }.

(** ** radio.rs *)

Inductive ButtonKind := Press | Release | Click | Hold.
Inductive AccelKind := Motion | Orientation.
Record NodeInfo := {
  info_firmware_name : str; info_firmware_version : str; info_session_id : Z; info_sleeping : bool }.
Record NodeShellChunk := {
  chunk_cmd_id : Z; chunk_result : Z; chunk_chunk : Z; chunk_last : bool; chunk_text : str }.
Inductive NodeMsg :=
| Info (i : NodeInfo)
| Button (kind : ButtonKind) (count : Z)
| Temperature (millic : Z)
| Accel (kind : AccelKind) (face : Z)
| NodeShell (c : NodeShellChunk).
Inductive NodeCmd :=
| CmdShell (epoch cmd_id : Z) (line : str).

(** ** The decoded message (lib.rs [Msg]) *)
Inductive Msg :=
| MHello (m : Hello)
| MLog (m : Log)
| MPrint (m : Print)
| MEvent (m : Event)
| MShellResponse (m : ShellResponse)
| MShellCompletions (m : ShellCompletions)
| MDropped (m : Dropped)
| MMgmtResponse (m : MgmtResponse)
| MUplink (m : Uplink)
| MRadioStat (m : RadioStat)
| MShellCommand (m : ShellCommand)
| MShellComplete (m : ShellComplete)
| MMgmtRequest (m : MgmtRequest).

(** ** postcard

    What the protocol relies on of the [postcard] crate for one type: its serialization, writing it at
    the front of a buffer that holds it (an error otherwise), and reading one value off the front of
    a byte string. *)
Class Postcard (T : Type) := {
  (** The values whose fields are in the range of their Rust types. *)
  representable : T -> Prop;
  serialize : T -> list Z;
  to_slice : T -> list Z -> list Z * option Z;
  take_from_bytes : list Z -> option (T * list Z);
}.
Class PostcardLaws (T : Type) `{!Postcard T} := {
  serialize_bytes : forall v, representable v -> bytes_ok (serialize v);
  to_slice_fits : forall v buf, representable v -> zlen (serialize v) <= zlen buf ->
    to_slice v buf = (patch buf 0 (serialize v), Some (zlen (serialize v)));
  to_slice_short : forall v buf, representable v -> zlen buf < zlen (serialize v) ->
    exists buf', to_slice v buf = (buf', None) /\ zlen buf' = zlen buf;
  take_serialize : forall v r, representable v -> take_from_bytes (serialize v ++ r) = Some (v, r);
}.

(** The codec of every console payload type. *)
Class ConsoleCodec := {
  pc_hello :: Postcard Hello; pc_log :: Postcard Log; pc_print :: Postcard Print; pc_event :: Postcard Event;
  pc_shell_response :: Postcard ShellResponse; pc_shell_completions :: Postcard ShellCompletions;
  pc_dropped :: Postcard Dropped; pc_mgmt_response :: Postcard MgmtResponse; pc_uplink :: Postcard Uplink;
  pc_radio_stat :: Postcard RadioStat; pc_shell_command :: Postcard ShellCommand;
  pc_shell_complete :: Postcard ShellComplete; pc_mgmt_request :: Postcard MgmtRequest;
}.
Class ConsoleCodecLaws `{ConsoleCodec} := {
  pl_hello :: PostcardLaws Hello; pl_log :: PostcardLaws Log; pl_print :: PostcardLaws Print; pl_event :: PostcardLaws Event;
  pl_shell_response :: PostcardLaws ShellResponse; pl_shell_completions :: PostcardLaws ShellCompletions;
  pl_dropped :: PostcardLaws Dropped; pl_mgmt_response :: PostcardLaws MgmtResponse; pl_uplink :: PostcardLaws Uplink;
  pl_radio_stat :: PostcardLaws RadioStat; pl_shell_command :: PostcardLaws ShellCommand;
  pl_shell_complete :: PostcardLaws ShellComplete; pl_mgmt_request :: PostcardLaws MgmtRequest;
}.

(** *** A codec with one inhabited type, for concrete runs: [Dropped] as its four count bytes *)
Module ToyCodec.

Definition nothing {T} : Postcard T := {|
  representable := fun _ => False; serialize := fun _ => []; to_slice := fun _ b => (b, None);
  take_from_bytes := fun _ => None |}.
Lemma nothing_laws {T} : @PostcardLaws T nothing.
Proof. by split. Qed.

#[export] Instance toy_dropped : Postcard Dropped := {
  representable d := u32_ok (dropped_count d);
  serialize d := le_bytes 4 (dropped_count d);
  to_slice d b :=
    if 4 <=? zlen b then (patch b 0 (le_bytes 4 (dropped_count d)), Some 4) else (b, None);
  take_from_bytes l :=
    if 4 <=? zlen l then Some ({| dropped_count := le_val (slice l 0 4) |}, drop 4 l) else None;
}.
#[export] Instance toy_dropped_laws : PostcardLaws Dropped.
Proof.
  split; cbn [representable serialize to_slice take_from_bytes toy_dropped].
  - intros v _. apply le_bytes_ok.
  - intros v b _ Hb. rewrite zlen_le_bytes in *. by replace (4 <=? zlen b) with true by lia.
  - intros v b _ Hb. rewrite zlen_le_bytes in *. replace (4 <=? zlen b) with false by lia. eauto.
  - intros v r Hv. pose proof (zlen_nonneg r). rewrite zlen_app, zlen_le_bytes.
    replace (4 <=? _) with true by (symmetry; apply Z.leb_le; lia). change 4 with (zlen (le_bytes 4 (dropped_count v))).
    rewrite slice_app_l, le_val_u32 by done. by destruct v.
Qed.

#[export] Instance toy_codec : ConsoleCodec := {
  pc_hello := nothing; pc_log := nothing; pc_print := nothing; pc_event := nothing; pc_shell_response := nothing;
  pc_shell_completions := nothing; pc_dropped := toy_dropped; pc_mgmt_response := nothing; pc_uplink := nothing;
  pc_radio_stat := nothing; pc_shell_command := nothing; pc_shell_complete := nothing; pc_mgmt_request := nothing;
}.
#[export] Instance toy_codec_laws : ConsoleCodecLaws.
Proof. split; try apply nothing_laws. apply toy_dropped_laws. Qed.

End ToyCodec.
