(* ===== verification/Frame.v ===== *)
(** The console frame codec (crates/protocol/src/lib.rs): building a wire frame, deframing a byte
    stream, validating a deframed buffer and decoding it into a message; and the theorems that a
    stream of frames comes out as the messages sent, after any garbage, and that a corrupted or
    foreign frame is reported as what it is. *)
From S2P Require Import Prelude Bytes Crc Proto Cobs Fingerprint Msg.

Section Codec.
Context `{SC : Schemas} `{CB : Cobs} `{CC : ConsoleCodec}.

(** ** Building a frame *)

Definition header (inner : list Z) (tag : Z) (t : MsgType) (seq : Z) : list Z :=
  let inner := patch inner 0 [as_u8 t] in
  let inner := patch inner 1 (le_bytes 2 tag) in
  patch inner 3 (le_bytes 2 seq).

(** [seal]: the output buffer after it, and the byte count or the error. *)
Definition seal (inner : list Z) (body : Z) (out : list Z) : list Z * result Error Z :=
  let crc := crc32_ieee (slice inner 0 body) in
  let inner := patch inner body (le_bytes 4 crc) in
  let inner_len := body + CRC_LEN in
  if zlen out <? max_encoding_length inner_len + 1 then (out, Err Overflow)
  else
    let enc := cobs_encode (slice inner 0 inner_len) in
    let out := patch out 0 enc in
    (patch out (zlen enc) [0], Ok (zlen enc + 1)).

Definition encode_payload {T} `{!Postcard T} (payload : T) (out : list Z) : list Z * result Error Z :=
  let room := Z.min (zlen out) MAX_PAYLOAD in
  match to_slice payload (slice out 0 room) with
  | (front, Some n) => (patch out 0 front, Ok n)
  | (front, None) => (patch out 0 front, Err Encode)
  end.

Definition encode_frame_bytes (t : MsgType) (seq : Z) (payload out : list Z) : list Z * result Error Z :=
  if MAX_PAYLOAD <? zlen payload then (out, Err Encode)
  else
    let inner := header (zeros MAX_FRAME) CONSOLE_TAG t seq in
    let body := HDR + zlen payload in
    seal (patch inner HDR payload) body out.

Definition encode_frame_with_tag {T} `{!Postcard T} (tag : Z) (t : MsgType) (seq : Z) (payload : T) (out : list Z)
    : list Z * result Error Z :=
  let inner := header (zeros MAX_FRAME) tag t seq in
  match to_slice payload (slice inner HDR (MAX_FRAME - HDR)) with
  | (_, None) => (out, Err Encode)
  | (rest, Some used) =>
      let inner := patch inner HDR rest in
      let body := HDR + used in
      if MAX_FRAME <? body + CRC_LEN then (out, Err Encode)
      else seal inner body out
  end.
Definition encode_frame {T} `{!Postcard T} (t : MsgType) (seq : Z) (payload : T) (out : list Z)
    : list Z * result Error Z :=
  encode_frame_with_tag CONSOLE_TAG t seq payload out.

(** ** Validating a deframed buffer *)

Definition decode_frame_with_tag (tag : Z) (inner : list Z) : result Error (MsgType * Z * list Z) :=
  if zlen inner <? HDR + CRC_LEN then Err TooShort
  else if MAX_FRAME <? zlen inner then Err TooLong
  else
    let body := zlen inner - CRC_LEN in
    let stored := le_val (slice inner body 4) in
    if negb (crc32_ieee (slice inner 0 body) =? stored) then Err BadCrc
    else
      let got := le_val (slice inner 1 2) in
      if negb (got =? tag) then Err (SchemaMismatch got)
      else
        let? t := ok_or BadType (from_u8 (byte_at inner 0)) in
        let seq := le_val (slice inner 3 2) in
        Ok (t, seq, slice inner HDR (body - HDR)).
Definition decode_frame (inner : list Z) : result Error (MsgType * Z * list Z) :=
  decode_frame_with_tag CONSOLE_TAG inner.

Definition from_bytes_exact {T} `{!Postcard T} (bytes : list Z) : result Error T :=
  match take_from_bytes bytes with
  | Some (v, []) => Ok v
  | _ => Err Malformed
  end.

Definition decode_foreign_hello (inner : list Z) : option Msg.Hello :=
  match decode_frame inner with
  | Err (SchemaMismatch got) =>
      match decode_frame_with_tag got inner with
      | Ok (t, _, payload) =>
          if decide (t = Proto.Hello) then
            match from_bytes_exact payload with Ok h => Some h | Err _ => None end
          else None
      | Err _ => None
      end
  | _ => None
  end.

Definition decode_msg (inner : list Z) : result Error (Z * Msg) :=
  let? (t, seq, payload) := decode_frame inner in
  let? msg := match t with
    | Proto.Hello => let? m := from_bytes_exact payload in Ok (MHello m)
    | Proto.Log => let? m := from_bytes_exact payload in Ok (MLog m)
    | Print_ => let? m := from_bytes_exact payload in Ok (MPrint m)
    | Proto.Event => let? m := from_bytes_exact payload in Ok (MEvent m)
    | Proto.ShellResponse => let? m := from_bytes_exact payload in Ok (MShellResponse m)
    | Proto.ShellCompletions => let? m := from_bytes_exact payload in Ok (MShellCompletions m)
    | Proto.Dropped => let? m := from_bytes_exact payload in Ok (MDropped m)
    | Proto.MgmtResponse => let? m := from_bytes_exact payload in Ok (MMgmtResponse m)
    | Proto.Uplink => let? m := from_bytes_exact payload in Ok (MUplink m)
    | Proto.RadioStat => let? m := from_bytes_exact payload in Ok (MRadioStat m)
    | Proto.ShellCommand => let? m := from_bytes_exact payload in Ok (MShellCommand m)
    | Proto.ShellComplete => let? m := from_bytes_exact payload in Ok (MShellComplete m)
    | Proto.MgmtRequest => let? m := from_bytes_exact payload in Ok (MMgmtRequest m)
    end in
  Ok (seq, msg).

(** ** The deframer *)

Record FrameDecoder := { fd_buf : list Z; fd_len : Z; fd_overflow : bool }.
Definition decoder_new : FrameDecoder := {| fd_buf := zeros MAX_WIRE; fd_len := 0; fd_overflow := false |}.
Definition decoder_reset (d : FrameDecoder) : FrameDecoder :=
  {| fd_buf := fd_buf d; fd_len := 0; fd_overflow := false |}.
Definition decoder_push (d : FrameDecoder) (b : Z) : FrameDecoder * option (list Z) :=
  if negb (b =? 0) then
    if fd_len d <? zlen (fd_buf d)
    then ({| fd_buf := patch (fd_buf d) (fd_len d) [b]; fd_len := fd_len d + 1; fd_overflow := fd_overflow d |}, None)
    else ({| fd_buf := fd_buf d; fd_len := fd_len d; fd_overflow := true |}, None)
  else
    let len := fd_len d in
    let overflow := fd_overflow d in
    let d := {| fd_buf := fd_buf d; fd_len := 0; fd_overflow := false |} in
    if (len =? 0) || overflow then (d, None)
    else
      let '(front, r) := cobs_decode_in_place (slice (fd_buf d) 0 len) in
      let buf := patch (fd_buf d) 0 front in
      let d := {| fd_buf := buf; fd_len := 0; fd_overflow := false |} in
      match r with
      | Some n => (d, Some (slice buf 0 n))
      | None => (d, None)
      end.

(** Feeding a run of bytes: the decoder after it, and the inner buffers it yielded, in order. *)
Fixpoint decoder_feed (d : FrameDecoder) (bytes : list Z) : FrameDecoder * list (list Z) :=
  match bytes with
  | [] => (d, [])
  | b :: bytes =>
      let '(d, r) := decoder_push d b in
      let '(d, rs) := decoder_feed d bytes in
      (d, match r with Some f => f :: rs | None => rs end)
  end.

(** ** The message to its frame

    The type byte and payload each [Msg] travels as: what the producers pass to [encode_frame]. *)
Definition on_payload {A} (f : forall T, Postcard T -> MsgType -> T -> A) (m : Msg) : A :=
  match m with
  | MHello x => f _ _ Proto.Hello x
  | MLog x => f _ _ Proto.Log x
  | MPrint x => f _ _ Print_ x
  | MEvent x => f _ _ Proto.Event x
  | MShellResponse x => f _ _ Proto.ShellResponse x
  | MShellCompletions x => f _ _ Proto.ShellCompletions x
  | MDropped x => f _ _ Proto.Dropped x
  | MMgmtResponse x => f _ _ Proto.MgmtResponse x
  | MUplink x => f _ _ Proto.Uplink x
  | MRadioStat x => f _ _ Proto.RadioStat x
  | MShellCommand x => f _ _ Proto.ShellCommand x
  | MShellComplete x => f _ _ Proto.ShellComplete x
  | MMgmtRequest x => f _ _ Proto.MgmtRequest x
  end.
Definition msg_type (m : Msg) : MsgType := on_payload (fun _ _ t _ => t) m.
Definition msg_bytes (m : Msg) : list Z := on_payload (fun _ _ _ x => serialize x) m.
Definition msg_representable (m : Msg) : Prop := on_payload (fun _ _ _ x => representable x) m.
Definition encode_msg (seq : Z) (m : Msg) (out : list Z) : list Z * result Error Z :=
  on_payload (fun _ _ t x => encode_frame t seq x out) m.

(** The bytes under the CRC, and with it. *)
Definition body_of (tag : Z) (t : MsgType) (seq : Z) (payload : list Z) : list Z :=
  [as_u8 t] ++ le_bytes 2 tag ++ le_bytes 2 seq ++ payload.
Definition framed (body : list Z) : list Z := body ++ le_bytes 4 (crc32_ieee body).

(** ** Lemmas *)
Context {CL : CobsLaws} {PL : ConsoleCodecLaws}.

Lemma zlen_body tag t seq p : zlen (body_of tag t seq p) = HDR + zlen p.
Proof. unfold body_of. rewrite !zlen_app, !zlen_le_bytes, zlen_cons, zlen_nil. mlia. Qed.
Lemma zlen_framed b : zlen (framed b) = zlen b + CRC_LEN.
Proof. unfold framed. rewrite zlen_app, zlen_le_bytes. done. Qed.
Lemma body_bytes tag t seq p : bytes_ok p -> bytes_ok (body_of tag t seq p).
Proof.
  intros Hp. unfold body_of. apply Forall_app. split; [by repeat constructor; apply as_u8_ok|].
  apply Forall_app. split; [apply le_bytes_ok|]. apply Forall_app. split; [apply le_bytes_ok|done].
Qed.
Lemma framed_bytes b : bytes_ok b -> bytes_ok (framed b).
Proof. intros. apply Forall_app. split; [done|apply le_bytes_ok]. Qed.

Lemma header_zeros n tag t seq : HDR <= n ->
  header (zeros n) tag t seq = body_of tag t seq [] ++ zeros (n - HDR).
Proof.
  intros Hn. unfold header, body_of. rewrite app_nil_r.
  change (patch (zeros n) 0 [as_u8 t]) with (patch ([] ++ zeros n) (@zlen Z []) [as_u8 t]).
  rewrite patch_append by (rewrite zlen_cons, zlen_nil; mlia). cbn [app].
  change (as_u8 t :: zeros (n - zlen [as_u8 t])) with ([as_u8 t] ++ zeros (n - zlen [as_u8 t])).
  change 1 with (zlen [as_u8 t]) at 1. rewrite patch_append by (rewrite zlen_le_bytes, zlen_cons, zlen_nil; mlia).
  rewrite app_assoc. replace 3 with (zlen ([as_u8 t] ++ le_bytes 2 tag)) at 1
    by (rewrite zlen_app, zlen_le_bytes; reflexivity).
  rewrite patch_append by (rewrite !zlen_le_bytes, zlen_cons, zlen_nil; mlia).
  rewrite <- !app_assoc. do 4 f_equal. rewrite !zlen_le_bytes, zlen_cons, zlen_nil. mlia.
Qed.

Lemma seal_framed b k out : CRC_LEN <= k ->
  seal (b ++ zeros k) (zlen b) out =
    if zlen out <? max_encoding_length (zlen (framed b)) + 1 then (out, Err Overflow)
    else (patch (patch out 0 (cobs_encode (framed b))) (zlen (cobs_encode (framed b))) [0],
          Ok (zlen (cobs_encode (framed b)) + 1)).
Proof.
  intros Hk. unfold seal. rewrite slice_app_l, patch_append by (rewrite zlen_le_bytes; mlia).
  rewrite app_assoc. fold (framed b). rewrite <- (zlen_framed b), slice_app_l. done.
Qed.

Lemma framed_encodable b : 0 < zlen b -> zlen b <= MAX_FRAME - CRC_LEN ->
  max_encoding_length (zlen (framed b)) + 1 <= MAX_WIRE.
Proof.
  intros H0 H1. rewrite zlen_framed.
  pose proof (cobs_max_length (zlen b + CRC_LEN) ltac:(mlia)) as Hm.
  assert (div_ceil (zlen b + CRC_LEN) 254 < 3) by (apply Z.div_lt_upper_bound; mlia). mlia.
Qed.


(** *** Encoding *)

Lemma encode_frame_with_tag_spec {T} `{P : !Postcard T, !PostcardLaws T} tag t seq (p : T) out : representable p ->
  encode_frame_with_tag tag t seq p out =
    let wire := cobs_encode (framed (body_of tag t seq (serialize p))) in
    if MAX_PAYLOAD <? zlen (serialize p) then (out, Err Encode)
    else if zlen out <? max_encoding_length (HDR + zlen (serialize p) + CRC_LEN) + 1 then (out, Err Overflow)
    else (patch (patch out 0 wire) (zlen wire) [0], Ok (zlen wire + 1)).
Proof.
  intros Hp. cbv zeta. unfold encode_frame_with_tag. rewrite header_zeros by mlia.
  change (MAX_FRAME - HDR) with 251. pose proof (zlen_nonneg (serialize p)).
  assert (Hh : slice (body_of tag t seq [] ++ zeros 251) HDR 251 = zeros 251).
  { change HDR with (HDR + zlen (@nil Z)). rewrite <- (zlen_body tag t seq []).
    rewrite slice_app_r, Z.sub_diag by lia. by rewrite slice_zeros. }
  rewrite Hh. destruct (Z.ltb_spec 251 (zlen (serialize p))).
  - destruct (to_slice_short p (zeros 251) Hp) as (b & -> & _); [rewrite zlen_zeros; lia|].
    replace (MAX_PAYLOAD <? _) with true by (symmetry; apply Z.ltb_lt; mlia). done.
  - rewrite to_slice_fits by (rewrite ?zlen_zeros; done || lia).
    replace (MAX_FRAME <? _) with (MAX_PAYLOAD <? zlen (serialize p))
      by (destruct (Z.ltb_spec MAX_PAYLOAD (zlen (serialize p))); symmetry;
          [apply Z.ltb_lt|apply Z.ltb_ge]; mlia).
    destruct (Z.ltb_spec MAX_PAYLOAD (zlen (serialize p))); [done|].
    change (patch (zeros 251) 0 (serialize p)) with (patch ([] ++ zeros 251) (@zlen Z []) (serialize p)).
    rewrite (patch_append [] 251 (serialize p)) by lia. cbn [app].
    assert (Hb : patch (body_of tag t seq [] ++ zeros 251) HDR (serialize p ++ zeros (251 - zlen (serialize p))) =
                 body_of tag t seq (serialize p) ++ zeros (251 - zlen (serialize p))).
    { change HDR with (HDR + zlen (@nil Z)). rewrite <- (zlen_body tag t seq []).
      rewrite patch_append by (rewrite zlen_app, zlen_zeros; lia).
      rewrite zlen_app, zlen_zeros by lia. replace (251 - (zlen (serialize p) + (251 - zlen (serialize p)))) with 0 by lia.
      unfold body_of. rewrite !app_nil_r, <- !app_assoc. done. }
    rewrite Hb, <- (zlen_body tag t seq), seal_framed by mlia. by rewrite zlen_framed.
Qed.

Lemma encode_frame_bytes_same {T} `{P : !Postcard T, !PostcardLaws T} t seq (p : T) out : representable p ->
  encode_frame_bytes t seq (serialize p) out = encode_frame t seq p out.
Proof.
  intros Hp. unfold encode_frame. rewrite encode_frame_with_tag_spec by done. cbv zeta. unfold encode_frame_bytes.
  destruct (Z.ltb_spec MAX_PAYLOAD (zlen (serialize p))); [done|]. pose proof (zlen_nonneg (serialize p)).
  rewrite header_zeros by mlia. change (MAX_FRAME - HDR) with 251.
  assert (Hb : patch (body_of CONSOLE_TAG t seq [] ++ zeros 251) HDR (serialize p) =
               body_of CONSOLE_TAG t seq (serialize p) ++ zeros (251 - zlen (serialize p))).
  { change HDR with (HDR + zlen (@nil Z)). rewrite <- (zlen_body CONSOLE_TAG t seq []).
    rewrite patch_append by mlia. unfold body_of. rewrite !app_nil_r, <- !app_assoc. done. }
  rewrite Hb, <- (zlen_body CONSOLE_TAG t seq), seal_framed by mlia. by rewrite zlen_framed.
Qed.

(** *** Decoding *)

Lemma decode_framed tag t seq p tag' :
  u16_ok tag -> u16_ok seq -> bytes_ok p -> zlen p <= MAX_PAYLOAD ->
  decode_frame_with_tag tag' (framed (body_of tag t seq p)) =
    if tag =? tag' then Ok (t, seq, p) else Err (SchemaMismatch tag).
Proof.
  intros Ht Hs Hp Hl. unfold decode_frame_with_tag. pose proof (zlen_nonneg p).
  pose proof (body_bytes tag t seq p Hp) as Hbb.
  rewrite zlen_framed, zlen_body.
  replace (_ <? HDR + CRC_LEN) with false by (symmetry; apply Z.ltb_ge; mlia).
  replace (MAX_FRAME <? _) with false by (symmetry; apply Z.ltb_ge; mlia).
  replace (HDR + zlen p + CRC_LEN - CRC_LEN) with (zlen (body_of tag t seq p)) by (rewrite zlen_body; lia).
  unfold framed. rewrite slice_app_l.
  rewrite slice_app_r, Z.sub_diag by lia. change (slice (le_bytes 4 ?c) 0 4) with (slice (le_bytes 4 c) 0 (zlen (le_bytes 4 c))).
  rewrite slice_all, le_val_u32, Z.eqb_refl by auto with tower. cbn [negb].
  unfold body_of at 1. rewrite <- !app_assoc. change (slice ([as_u8 t] ++ le_bytes 2 tag ++ ?r) 1 2)
    with (slice ([as_u8 t] ++ le_bytes 2 tag ++ r) (zlen [as_u8 t]) (zlen (le_bytes 2 tag))).
  rewrite slice_app_mid, le_val_u16 by done.
  unfold body_of at 1. rewrite <- !app_assoc. rewrite slice_app_mid, le_val_u16 by done.
  destruct (tag =? tag'); [|done]. cbn [negb].
  change (byte_at (body_of tag t seq p ++ _) 0) with (as_u8 t). rewrite from_u8_as_u8. cbn [ok_or rbind].
  do 2 f_equal; [f_equal|].
  - unfold body_of. rewrite <- !app_assoc, (app_assoc [as_u8 t]).
    change 3 with (zlen ([as_u8 t] ++ le_bytes 2 tag)). change 2 with (zlen (le_bytes 2 seq)).
    by rewrite slice_app_mid, le_val_u16 by done.
  - rewrite zlen_body. replace (HDR + zlen p - HDR) with (zlen p) by lia. unfold body_of.
    rewrite <- !app_assoc, (app_assoc (le_bytes 2 tag)), (app_assoc [as_u8 t]).
    change HDR with (zlen ([as_u8 t] ++ le_bytes 2 tag ++ le_bytes 2 seq)). by rewrite slice_app_mid.
Qed.

Lemma from_bytes_exact_ok {T} `{P : !Postcard T, !PostcardLaws T} (v : T) :
  representable v -> from_bytes_exact (serialize v) = Ok v.
Proof. intros Hv. unfold from_bytes_exact. by rewrite <- (app_nil_r (serialize v)), take_serialize. Qed.

Definition frame_of (seq : Z) (m : Msg) : list Z := framed (body_of CONSOLE_TAG (msg_type m) seq (msg_bytes m)).

Lemma CONSOLE_TAG_ok : u16_ok CONSOLE_TAG.
Proof. apply wrap16_ok. Qed.

Lemma msg_bytes_ok m : msg_representable m -> bytes_ok (msg_bytes m).
Proof. destruct m; cbn [msg_representable msg_bytes on_payload]; by apply serialize_bytes. Qed.
Lemma decode_msg_frame seq m : u16_ok seq -> msg_representable m -> zlen (msg_bytes m) <= MAX_PAYLOAD ->
  decode_msg (frame_of seq m) = Ok (seq, m).
Proof.
  intros Hs Hm Hl. unfold decode_msg, decode_frame, frame_of.
  rewrite decode_framed, Z.eqb_refl by auto using CONSOLE_TAG_ok, msg_bytes_ok. cbn [rbind].
  destruct m; cbn [msg_type msg_bytes msg_representable on_payload] in *; by rewrite from_bytes_exact_ok.
Qed.
Lemma encode_msg_spec seq m out : msg_representable m -> zlen (msg_bytes m) <= MAX_PAYLOAD ->
  encode_msg seq m out =
    if zlen out <? max_encoding_length (HDR + zlen (msg_bytes m) + CRC_LEN) + 1 then (out, Err Overflow)
    else (patch (patch out 0 (cobs_encode (frame_of seq m))) (zlen (cobs_encode (frame_of seq m))) [0],
          Ok (zlen (cobs_encode (frame_of seq m)) + 1)).
Proof.
  intros Hm Hl. unfold frame_of.
  destruct m; cbn [encode_msg msg_type msg_bytes msg_representable on_payload] in *; unfold encode_frame;
    rewrite encode_frame_with_tag_spec by done; cbv zeta;
    (replace (MAX_PAYLOAD <? _) with false by (symmetry; apply Z.ltb_ge; lia)); done.
Qed.

(** *** The deframer *)

Definition decoder_ok (d : FrameDecoder) : Prop := zlen (fd_buf d) = MAX_WIRE /\ 0 <= fd_len d <= MAX_WIRE.
Definition decoder_idle (d : FrameDecoder) : Prop :=
  zlen (fd_buf d) = MAX_WIRE /\ fd_len d = 0 /\ fd_overflow d = false.
(** [w] is what the deframer holds of the current frame. *)
Definition holding (d : FrameDecoder) (w : list Z) : Prop :=
  decoder_ok d /\ fd_overflow d = false /\ fd_len d = zlen w /\ slice (fd_buf d) 0 (fd_len d) = w.

Lemma decoder_new_ok : decoder_ok decoder_new.
Proof. by vm_compute. Qed.
Lemma decoder_push_ok d b : decoder_ok d -> decoder_ok (fst (decoder_push d b)).
Proof.
  intros [Hb Hl]. unfold decoder_push. destruct (negb (b =? 0)).
  - rewrite Hb. destruct (Z.ltb_spec (fd_len d) MAX_WIRE); split; cbn [fst fd_buf fd_len]; try done; [|lia].
    rewrite zlen_patch; [done|lia|]. rewrite zlen_cons, zlen_nil. lia.
  - destruct ((fd_len d =? 0) || fd_overflow d); [split; cbn [fst fd_buf fd_len]; [done|mlia]|].
    cbn [fd_buf]. pose proof (cobs_decode_length (slice (fd_buf d) 0 (fd_len d))) as Hd.
    destruct (cobs_decode_in_place _) as [front r]. cbn [fst] in Hd. rewrite zlen_slice in Hd by lia.
    assert (zlen (patch (fd_buf d) 0 front) = MAX_WIRE) by (rewrite zlen_patch; lia).
    destruct r; split; cbn [fst fd_buf fd_len]; try done; mlia.
Qed.
Lemma decoder_feed_ok bs d : decoder_ok d -> decoder_ok (fst (decoder_feed d bs)).
Proof.
  revert d. induction bs as [|b bs IH]; intros d Hd; [done|]. cbn [decoder_feed].
  pose proof (decoder_push_ok d b Hd) as Hd'. destruct (decoder_push d b) as [d' r]. cbn [fst] in Hd'.
  specialize (IH d' Hd'). destruct (decoder_feed d' bs). done.
Qed.
Lemma decoder_feed_app a b d :
  decoder_feed d (a ++ b) =
    let '(d1, xs) := decoder_feed d a in let '(d2, ys) := decoder_feed d1 b in (d2, xs ++ ys).
Proof.
  revert d. induction a as [|x a IH]; intros d; cbn [app decoder_feed]; [by destruct (decoder_feed d b)|].
  destruct (decoder_push d x) as [d' r]. rewrite IH.
  destruct (decoder_feed d' a) as [d1 xs], (decoder_feed d1 b) as [d2 ys]. by destruct r.
Qed.
Lemma decoder_push_0_idle d : decoder_ok d -> decoder_idle (fst (decoder_push d 0)).
Proof.
  intros Hd. pose proof (decoder_push_ok d 0 Hd) as [Hb _]. split; [done|]. clear Hb. unfold decoder_push.
  cbn [negb Z.eqb]. destruct ((fd_len d =? 0) || fd_overflow d); [done|]. cbn [fd_buf].
  destruct (cobs_decode_in_place _) as [front []]; done.
Qed.

Lemma holding_push d w b : holding d w -> b <> 0 -> zlen w < MAX_WIRE ->
  exists d', decoder_push d b = (d', None) /\ holding d' (w ++ [b]).
Proof.
  intros ([Hb Hl] & Ho & Hlen & Hw) Hne Hfit. unfold decoder_push.
  replace (b =? 0) with false by lia. cbn [negb]. replace (_ <? _) with true by (symmetry; apply Z.ltb_lt; lia).
  eexists. split; [done|]. assert (H1 : zlen [b] = 1) by done.
  split; [|split; [done|split; cbn [fd_len fd_buf]]].
  - split; cbn [fd_len fd_buf]; [rewrite zlen_patch|]; lia.
  - rewrite zlen_app. lia.
  - rewrite slice_split by lia. f_equal; [by rewrite slice_patch_other by lia|].
    rewrite Z.add_0_l, <- H1 at 1. by rewrite slice_patch_same by lia.
Qed.
Lemma holding_feed w' d w : holding d w -> Forall (fun b => 1 <= b <= 255) w' -> zlen w + zlen w' <= MAX_WIRE ->
  exists d', decoder_feed d w' = (d', []) /\ holding d' (w ++ w').
Proof.
  revert d w. induction w' as [|b w' IH]; intros d w Hd Hw Hl.
  - exists d. by rewrite app_nil_r.
  - apply List.Forall_cons_iff in Hw as [Hb Hw]. rewrite zlen_cons in Hl. pose proof (zlen_nonneg w').
    destruct (holding_push d w b Hd) as (d1 & Hp & Hd1); [lia..|]. cbn [decoder_feed]. rewrite Hp.
    destruct (IH d1 (w ++ [b]) Hd1 Hw) as (d2 & -> & Hd2); [rewrite zlen_app, zlen_cons, zlen_nil; lia|].
    exists d2. by rewrite <- app_assoc in Hd2.
Qed.

Lemma feed_frame d inner : decoder_idle d -> bytes_ok inner -> zlen (cobs_encode inner) <= MAX_WIRE ->
  exists d', decoder_feed d (cobs_encode inner ++ [0]) = (d', [inner]) /\ decoder_idle d'.
Proof.
  intros (Hb & Hl & Ho) Hi Hfit.
  destruct (holding_feed (cobs_encode inner) d []) as (d1 & Hf & (Hok & Ho1 & Hl1 & Hw)).
  - split; [split; [done|mlia]|]. by rewrite Hl, slice_0.
  - by apply cobs_encode_nonzero.
  - rewrite zlen_nil. lia.
  - rewrite decoder_feed_app, Hf. cbn [decoder_feed app]. cbn [app] in Hl1, Hw.
    pose proof (decoder_push_0_idle d1 Hok) as Hidle. pose proof (decoder_push_ok d1 0 Hok) as [Hb1' _].
    revert Hidle Hb1'. unfold decoder_push. cbn [negb Z.eqb]. rewrite Ho1.
    pose proof (cobs_encode_nonempty inner). replace (fd_len d1 =? 0) with false by lia. cbn [orb fd_buf]. rewrite Hw.
    destruct (cobs_decode_encode inner Hi) as [Hn Hs]. pose proof (cobs_decode_length (cobs_encode inner)) as Hdl.
    destruct (cobs_decode_in_place (cobs_encode inner)) as [front r]. cbn [fst snd] in *. subst r. intros Hidle Hb1'.
    eexists. split; [|exact Hidle]. do 2 f_equal. rewrite <- Hs at 2. destruct Hok as [Hb1 Hl1'].
    assert (zlen inner <= zlen front).
    { destruct (decide (zlen inner <= zlen front)); [done|]. exfalso. apply (f_equal zlen) in Hs.
      assert (zlen (slice front 0 (zlen inner)) <= zlen front)
        by (unfold zlen, slice; rewrite length_take, length_drop; lia). lia. }
    pose proof (zlen_nonneg inner).
    transitivity (slice (slice (patch (fd_buf d1) 0 front) 0 (zlen front)) 0 (zlen inner)).
    + symmetry. apply slice_slice; lia.
    + by rewrite slice_patch_same by lia.
Qed.

(** The bytes a message travels as. *)
Definition wire_of (seq : Z) (m : Msg) : list Z := cobs_encode (frame_of seq m) ++ [0].

Definition sendable (x : Z * Msg) : Prop :=
  u16_ok (fst x) /\ msg_representable (snd x) /\ zlen (msg_bytes (snd x)) <= MAX_PAYLOAD.

Lemma zlen_frame_of seq m : zlen (frame_of seq m) = HDR + zlen (msg_bytes m) + CRC_LEN.
Proof. unfold frame_of. by rewrite zlen_framed, zlen_body. Qed.
Lemma wire_fits x : sendable x -> max_encoding_length (zlen (frame_of (fst x) (snd x))) + 1 <= MAX_WIRE.
Proof.
  intros (_ & _ & Hl). pose proof (zlen_nonneg (msg_bytes (snd x))).
  apply framed_encodable; rewrite zlen_body; mlia.
Qed.
Lemma frame_of_bytes seq m : msg_representable m -> bytes_ok (frame_of seq m).
Proof. intros. by apply framed_bytes, body_bytes, msg_bytes_ok. Qed.

Lemma encode_msg_wire x : sendable x ->
  exists n out, encode_msg (fst x) (snd x) (zeros MAX_WIRE) = (out, Ok n) /\ slice out 0 n = wire_of (fst x) (snd x) /\
    n <= MAX_WIRE.
Proof.
  intros Hx. pose proof (wire_fits x Hx) as Hf. destruct x as [seq m]. destruct Hx as (Hs & Hm & Hl). cbn [fst snd] in *.
  rewrite encode_msg_spec by done. rewrite zlen_frame_of in Hf.
  pose proof (cobs_encode_length (frame_of seq m)) as He. rewrite zlen_frame_of in He.
  pose proof (zlen_nonneg (cobs_encode (frame_of seq m))).
  assert (Hz : zlen (zeros MAX_WIRE) = MAX_WIRE) by (apply zlen_zeros; mlia).
  rewrite Hz. replace (MAX_WIRE <? _) with false by (symmetry; apply Z.ltb_ge; lia).
  eexists _, _. split; [done|]. split; [|lia].
  assert (H1 : zlen [0] = 1) by done.
  assert (Hp : zlen (patch (zeros MAX_WIRE) 0 (cobs_encode (frame_of seq m))) = MAX_WIRE) by (rewrite zlen_patch; lia).
  rewrite slice_split by lia. unfold wire_of. f_equal.
  - rewrite slice_patch_other by lia. by rewrite slice_patch_same by lia.
  - rewrite Z.add_0_l, <- H1 at 1. by rewrite slice_patch_same by lia.
Qed.

Lemma feed_messages ms d : decoder_idle d -> Forall sendable ms ->
  exists d', decoder_feed d (flat_map (fun x => wire_of (fst x) (snd x)) ms) =
               (d', List.map (fun x => frame_of (fst x) (snd x)) ms) /\ decoder_idle d'.
Proof.
  intros Hd Hms. revert d Hd. induction Hms as [|x ms Hx Hms IH]; intros d Hd; [by exists d|].
  cbn [flat_map List.map]. rewrite decoder_feed_app. pose proof (wire_fits x Hx).
  pose proof (cobs_encode_length (frame_of (fst x) (snd x))).
  destruct (feed_frame d (frame_of (fst x) (snd x)) Hd) as (d1 & Hf & Hd1).
  - apply frame_of_bytes, Hx.
  - lia.
  - fold (wire_of (fst x) (snd x)) in Hf. rewrite Hf. destruct (IH d1 Hd1) as (d2 & -> & Hd2). by exists d2.
Qed.

End Codec.

(** C19. A stream of frames arrives as the messages sent. Whatever bytes came before (line noise, the tail
    of a frame cut by a reconnect), once one delimiter has passed, feeding the deframer the wire bytes
    that [encode_frame] produced for any sequence of messages yields one buffer per message, in order,
    and [decode_msg] returns exactly the sequence number and the message sent. [encode_frame] succeeds
    for every message of at most [MAX_PAYLOAD] serialized bytes and never needs more than [MAX_WIRE]. *)
Theorem frame_stream_roundtrip `{SC : Schemas} `{CL : CobsLaws} `{PL : ConsoleCodecLaws}
    (noise : list Z) (ms : list (Z * Msg)) :
  Forall sendable ms ->
  exists junk frames,
    snd (decoder_feed decoder_new ((noise ++ [0]) ++ flat_map (fun x => wire_of (fst x) (snd x)) ms)) = junk ++ frames /\
    junk = snd (decoder_feed decoder_new (noise ++ [0])) /\
    List.map decode_msg frames = List.map (fun x => Ok x) ms /\
    Forall (fun x => exists n out, encode_msg (fst x) (snd x) (zeros MAX_WIRE) = (out, Ok n) /\
              slice out 0 n = wire_of (fst x) (snd x) /\ n <= MAX_WIRE) ms.
Proof.
  intros Hms. rewrite decoder_feed_app.
  assert (Hidle : decoder_idle (fst (decoder_feed decoder_new (noise ++ [0])))).
  { rewrite decoder_feed_app. pose proof (decoder_feed_ok noise decoder_new decoder_new_ok) as Hok.
    destruct (decoder_feed decoder_new noise) as [d xs]. cbn [fst decoder_feed] in *.
    pose proof (decoder_push_0_idle d Hok). by destruct (decoder_push d 0) as [d' []]. }
  destruct (decoder_feed decoder_new (noise ++ [0])) as [d xs]. cbn [fst snd] in *.
  destruct (feed_messages ms d Hidle Hms) as (d' & -> & _).
  exists xs, (List.map (fun x => frame_of (fst x) (snd x)) ms). split_and!; [done|done| |].
  - rewrite List.map_map. apply List.map_ext_in. intros x Hx.
    destruct (proj1 (List.Forall_forall _ _) Hms x Hx) as (Hs & Hm & Hl). rewrite decode_msg_frame by done. by destruct x.
  - apply List.Forall_forall. intros x Hx. apply encode_msg_wire. by apply (proj1 (List.Forall_forall _ _) Hms).
Qed.

Section Exact.
Context `{SC : Schemas} `{CB : Cobs} `{CC : ConsoleCodec} {PL : ConsoleCodecLaws}.

Lemma le_bytes_slice n (l : list Z) o : bytes_ok l -> 0 <= o -> o + Z.of_nat n <= zlen l ->
  le_bytes n (le_val (slice l o (Z.of_nat n))) = slice l o (Z.of_nat n).
Proof.
  intros Hl Ho Hn. assert (Hlen : zlen (slice l o (Z.of_nat n)) = Z.of_nat n) by (apply zlen_slice; lia).
  replace n with (length (slice l o (Z.of_nat n))) at 1 by (unfold zlen in Hlen; lia).
  apply le_bytes_le_val. by apply bytes_ok_slice.
Qed.

Lemma decode_frame_ok_inv tag inner t seq p : bytes_ok inner ->
  decode_frame_with_tag tag inner = Ok (t, seq, p) ->
  inner = framed (body_of tag t seq p) /\ zlen p <= MAX_PAYLOAD /\ u16_ok seq.
Proof.
  intros Hb. unfold decode_frame_with_tag.
  destruct (Z.ltb_spec (zlen inner) (HDR + CRC_LEN)) as [|Hlo]; [done|].
  destruct (Z.ltb_spec MAX_FRAME (zlen inner)) as [|Hhi]; [done|].
  set (n := zlen inner) in *. destruct (Z.eqb_spec (crc32_ieee (slice inner 0 (n - CRC_LEN))) (le_val (slice inner (n - CRC_LEN) 4)))
    as [Hcrc|]; [|done]. cbn [negb].
  destruct (Z.eqb_spec (le_val (slice inner 1 2)) tag) as [<-|]; [|done]. cbn [negb].
  destruct (from_u8 (byte_at inner 0)) as [t'|] eqn:Ht; [|done]. cbn [ok_or rbind]. intros [= <- <- <-].
  assert (Hlen : forall o k, 0 <= o -> 0 <= k -> o + k <= n -> zlen (slice inner o k) = k) by (intros; by apply zlen_slice).
  apply from_u8_Some in Ht.
  assert (Hbody : slice inner 0 (n - CRC_LEN) =
            body_of (le_val (slice inner 1 2)) t' (le_val (slice inner 3 2)) (slice inner HDR (n - CRC_LEN - HDR))).
  { unfold body_of. change 2 with (Z.of_nat 2) at 1 2. rewrite !le_bytes_slice by (done || mlia). change (Z.of_nat 2) with 2.
    replace (n - CRC_LEN) with (1 + (2 + (2 + (n - CRC_LEN - HDR)))) at 1 by mlia.
    rewrite slice_split, slice_split, slice_split by mlia. f_equal.
    destruct inner as [|x inner]; [exfalso; subst n; rewrite zlen_nil in Hlo; mlia|].
    change (byte_at (x :: inner) 0) with x in Ht. by rewrite <- Ht. }
  rewrite <- Hbody. split; [|split].
  - unfold framed. rewrite Hcrc. change 4 with (Z.of_nat 4) at 1. rewrite le_bytes_slice by (done || subst n; mlia).
    change (Z.of_nat 4) with CRC_LEN. rewrite <- (slice_all inner) at 1. fold n.
    replace n with (n - CRC_LEN + CRC_LEN) at 1 by lia. rewrite slice_split by mlia. done.
  - rewrite Hlen by mlia. mlia.
  - apply le_val_u16_ok; [by apply bytes_ok_slice|]. apply Hlen; mlia.
Qed.

(** A buffer decodes as a frame exactly when it is one. [decode_frame_with_tag] (so [decode_frame], with
    [CONSOLE_TAG]) returns a type, a sequence number and a payload only for the very bytes that framing
    those three produces under that tag: no other byte string is accepted, whatever its length fields, and
    nothing larger than [MAX_PAYLOAD] is ever surfaced. A frame of a peer with another schema tag is
    reported with the tag it carries, and only a [Hello] among those, whose payload reads as exactly
    one [Hello], is shown as a hint. *)
Theorem decode_frame_exact (tag : Z) (inner : list Z) (t : MsgType) (seq : Z) (p : list Z) :
  u16_ok tag -> bytes_ok inner ->
  (decode_frame_with_tag tag inner = Ok (t, seq, p) <->
     inner = framed (body_of tag t seq p) /\ zlen p <= MAX_PAYLOAD /\ u16_ok seq) /\
  (tag <> CONSOLE_TAG -> decode_frame_with_tag tag inner = Ok (t, seq, p) ->
     decode_msg inner = Err (SchemaMismatch tag) /\
     forall h, decode_foreign_hello inner = Some h <-> t = Proto.Hello /\ from_bytes_exact p = Ok h) /\
  (decode_frame inner = Ok (t, seq, p) -> decode_foreign_hello inner = None).
Proof.
  intros Htag Hb.
  assert (Hinv : decode_frame_with_tag tag inner = Ok (t, seq, p) ->
                 inner = framed (body_of tag t seq p) /\ zlen p <= MAX_PAYLOAD /\ u16_ok seq /\ bytes_ok p).
  { intros Hd. destruct (decode_frame_ok_inv _ _ _ _ _ Hb Hd) as (-> & Hl & Hs). split_and!; try done.
    apply Forall_app in Hb as [Hb _]. unfold body_of in Hb.
    apply Forall_app in Hb as [_ Hb]. apply Forall_app in Hb as [_ Hb]. by apply Forall_app in Hb as [_ Hb]. }
  split; [split|split].
  - intros Hd. destruct (Hinv Hd) as (? & ? & ? & ?). done.
  - intros (-> & Hl & Hs). rewrite decode_framed, Z.eqb_refl; try done.
    apply Forall_app in Hb as [Hb _]. unfold body_of in Hb.
    apply Forall_app in Hb as [_ Hb]. apply Forall_app in Hb as [_ Hb]. by apply Forall_app in Hb as [_ Hb].
  - intros Hne Hd. destruct (Hinv Hd) as (-> & Hl & Hs & Hp). unfold decode_msg, decode_foreign_hello, decode_frame.
    rewrite !decode_framed by done. replace (tag =? CONSOLE_TAG) with false by lia. split; [done|].
    intros h. cbv iota. rewrite decode_framed, Z.eqb_refl by done. destruct (decide (t = Proto.Hello)).
    + destruct (from_bytes_exact p); (split; [intros [= ->]; done|intros [_ Hh]; by invs Hh || congruence]).
    + split; [done|by intros [? _]].
  - intros Hd. unfold decode_foreign_hello. by rewrite Hd.
Qed.

(** Corruption is never mistaken for a stale peer. Changing any window of up to four adjacent bytes of
    a frame under its CRC (header or payload), or the CRC trailer itself, makes every decode answer
    [BadCrc], whatever tag and type the header bytes then claim: a [SchemaMismatch], [BadType] or a wrong
    message is never reported for such a frame. *)
Theorem corrupted_frame_is_bad_crc (tag : Z) (p d d' s : list Z) (c' : list Z) :
  bytes_ok p -> bytes_ok d -> bytes_ok d' -> bytes_ok s -> bytes_ok c' ->
  zlen d = zlen d' -> zlen d <= 4 -> d <> d' -> HDR <= zlen (p ++ d ++ s) <= MAX_FRAME - CRC_LEN ->
  zlen c' = 4 -> c' <> le_bytes 4 (crc32_ieee (p ++ d ++ s)) ->
  let crc := le_bytes 4 (crc32_ieee (p ++ d ++ s)) in
  decode_frame_with_tag tag ((p ++ d' ++ s) ++ crc) = Err BadCrc /\
  decode_msg ((p ++ d' ++ s) ++ crc) = Err BadCrc /\
  decode_frame_with_tag tag ((p ++ d ++ s) ++ c') = Err BadCrc /\
  decode_msg ((p ++ d ++ s) ++ c') = Err BadCrc.
Proof.
  intros Hp Hd Hd' Hs Hc' Hl H4 Hne Hfit Hcl Hcne. cbv zeta.
  assert (Hbad : forall tag b c, bytes_ok b -> bytes_ok c -> zlen c = 4 -> HDR <= zlen b <= MAX_FRAME - CRC_LEN ->
            c <> le_bytes 4 (crc32_ieee b) -> decode_frame_with_tag tag (b ++ c) = Err BadCrc).
  { clear. intros tag b c Hb Hc Hcl Hl Hne. unfold decode_frame_with_tag. rewrite zlen_app, Hcl.
    replace (_ <? HDR + CRC_LEN) with false by (symmetry; apply Z.ltb_ge; mlia).
    replace (MAX_FRAME <? _) with false by (symmetry; apply Z.ltb_ge; mlia).
    replace (zlen b + 4 - CRC_LEN) with (zlen b) by mlia. rewrite slice_app_l.
    rewrite slice_app_r, Z.sub_diag by lia. rewrite <- Hcl at 1. rewrite slice_all.
    destruct (Z.eqb_spec (crc32_ieee b) (le_val c)) as [He|]; [|done]. exfalso. apply Hne.
    rewrite He. replace 4%nat with (length c) by (unfold zlen in Hcl; lia). symmetry. by apply le_bytes_le_val. }
  assert (Hb : bytes_ok (p ++ d ++ s)) by by rewrite !bytes_ok_app.
  assert (Hb' : bytes_ok (p ++ d' ++ s)) by by rewrite !bytes_ok_app.
  assert (H1 : forall tag, decode_frame_with_tag tag ((p ++ d' ++ s) ++ le_bytes 4 (crc32_ieee (p ++ d ++ s))) = Err BadCrc).
  { intros tg. apply Hbad; [done|apply le_bytes_ok|apply zlen_le_bytes|rewrite !zlen_app in *; lia|].
    intros He. apply u32_bytes_inj in He; [|auto with tower..]. by apply Hne, (crc32_ieee_burst_inj p d d' s). }
  assert (H2 : forall tag, decode_frame_with_tag tag ((p ++ d ++ s) ++ c') = Err BadCrc) by (intros tg; by apply Hbad).
  unfold decode_msg, decode_frame. by rewrite !H1, !H2.
Qed.

(** Encoding never half-writes a frame. For every representable message [encode_frame] either returns the
    frame's length, or leaves the output untouched and says why: [Encode] exactly when the serialized
    payload is longer than [MAX_PAYLOAD], otherwise [Overflow] exactly when the output cannot hold the
    worst-case encoding. Framing the already serialized bytes ([encode_frame_bytes], the console queue's
    path) does the same to the last byte. *)
Theorem encode_frame_outcomes {CL : CobsLaws} {T} `{P : !Postcard T, !PostcardLaws T} (t : MsgType) (seq : Z) (p : T) (out : list Z) :
  representable p ->
  encode_frame_bytes t seq (serialize p) out = encode_frame t seq p out /\
  (MAX_PAYLOAD < zlen (serialize p) -> encode_frame t seq p out = (out, Err Encode)) /\
  (zlen (serialize p) <= MAX_PAYLOAD -> zlen out < max_encoding_length (HDR + zlen (serialize p) + CRC_LEN) + 1 ->
     encode_frame t seq p out = (out, Err Overflow)) /\
  (zlen (serialize p) <= MAX_PAYLOAD -> max_encoding_length (HDR + zlen (serialize p) + CRC_LEN) + 1 <= zlen out ->
     exists out', encode_frame t seq p out = (out', Ok (zlen (cobs_encode (framed (body_of CONSOLE_TAG t seq (serialize p)))) + 1)) /\
       slice out' 0 (zlen (cobs_encode (framed (body_of CONSOLE_TAG t seq (serialize p)))) + 1) =
         cobs_encode (framed (body_of CONSOLE_TAG t seq (serialize p))) ++ [0]).
Proof.
  intros Hp. rewrite encode_frame_bytes_same by done. unfold encode_frame. rewrite encode_frame_with_tag_spec by done. cbv zeta.
  split; [done|]. split; [|split].
  - intros H. by replace (MAX_PAYLOAD <? _) with true by (symmetry; apply Z.ltb_lt; lia).
  - intros H H'. replace (MAX_PAYLOAD <? _) with false by (symmetry; apply Z.ltb_ge; lia).
    by replace (zlen out <? _) with true by (symmetry; apply Z.ltb_lt; lia).
  - intros H H'. replace (MAX_PAYLOAD <? _) with false by (symmetry; apply Z.ltb_ge; lia).
    replace (zlen out <? _) with false by (symmetry; apply Z.ltb_ge; lia). eexists. split; [done|].
    pose proof (cobs_encode_length (framed (body_of CONSOLE_TAG t seq (serialize p)))) as He.
    rewrite zlen_framed, zlen_body in He. set (w := cobs_encode _) in *. pose proof (zlen_nonneg w).
    assert (H1 : zlen [0] = 1) by done.
    assert (Hpl : zlen (patch out 0 w) = zlen out) by (rewrite zlen_patch; lia).
    rewrite slice_split by lia. f_equal.
    + rewrite slice_patch_other by lia. by rewrite slice_patch_same by lia.
    + rewrite Z.add_0_l, <- H1 at 1. by rewrite slice_patch_same by lia.
Qed.

End Exact.

(** *** Concrete runs: the reference COBS, the toy codec and schemas *)
Module Demo.
Import RefCobs ToyCodec.
Import Stdlib.Strings.String.
#[local] Existing Instance ref_cobs.
#[local] Existing Instance ref_cobs_laws.
#[local] Existing Instance toy_codec.
#[local] Existing Instance toy_codec_laws.
#[local] Instance demo_schemas : Schemas := ToySchemas.with_dropped (ToySchemas.dropped "count"%string U32).

Definition drops (n : Z) : Msg := MDropped {| dropped_count := n |}.
Definition demo_messages : list (Z * Msg) := [(7, drops 3); (8, drops 0); (65535, drops 4294967295)].
Definition demo_noise : list Z := [1; 2; 3; 0; 17; 99].

Lemma demo_sendable : Forall sendable demo_messages.
Proof. repeat constructor; vm_compute; done. Qed.

Lemma frame_stream_roundtrip_witness :
  exists junk frames,
    snd (decoder_feed decoder_new ((demo_noise ++ [0]) ++ flat_map (fun x => wire_of (fst x) (snd x)) demo_messages)) =
      junk ++ frames /\
    List.map decode_msg frames = List.map Ok demo_messages.
Proof.
  destruct (frame_stream_roundtrip demo_noise demo_messages demo_sendable) as (junk & frames & H1 & _ & H2 & _).
  exists junk, frames. split; [exact H1|exact H2].
Defined.

Definition demo_frame : list Z := frame_of 7 (drops 3).
Lemma decode_frame_exact_witness :
  decode_frame demo_frame = Ok (Proto.Dropped, 7, [3; 0; 0; 0]) /\ decode_foreign_hello demo_frame = None.
Proof.
  destruct (decode_frame_exact CONSOLE_TAG demo_frame Proto.Dropped 7 [3; 0; 0; 0]) as ([_ H] & _ & H').
  - vm_compute. split; discriminate.
  - apply bytes_okb_ok. vm_compute. reflexivity.
  - assert (Hd : decode_frame demo_frame = Ok (Proto.Dropped, 7, [3; 0; 0; 0])).
    { apply H. split; [reflexivity|]. split; [vm_compute; discriminate|]. split; vm_compute; discriminate. }
    split; [exact Hd|apply H', Hd].
Defined.

Lemma corrupted_frame_is_bad_crc_witness :
  decode_msg (([6; 1] ++ [2; 7] ++ [0; 3; 0; 0; 0]) ++ le_bytes 4 (crc32_ieee ([6; 1] ++ [9; 7] ++ [0; 3; 0; 0; 0]))) = Err BadCrc.
Proof.
  apply (corrupted_frame_is_bad_crc 0 [6; 1] [9; 7] [2; 7] [0; 3; 0; 0; 0] [0; 0; 0; 0]);
    try (apply bytes_okb_ok; vm_compute; reflexivity); try (vm_compute; reflexivity); try (vm_compute; discriminate).
  vm_compute. split; discriminate.
Defined.

Lemma encode_frame_outcomes_witness :
  encode_frame Proto.Dropped 7 {| dropped_count := 3 |} (zeros 5) = (zeros 5, Err Overflow).
Proof.
  apply (encode_frame_outcomes Proto.Dropped 7 {| dropped_count := 3 |} (zeros 5));
    [split; vm_compute; discriminate|vm_compute; discriminate|vm_compute; reflexivity].
Defined.

End Demo.
