(* ===== verification/Str.v ===== *)
(** Rust strings: a [str] is the [list Z] of its UTF-8 bytes. The operations of [core::str],
    [core::num] and [core::fmt] that the shell uses (character boundaries, whitespace splitting,
    integer parsing and formatting), with their laws. *)
From Stdlib Require Import Strings.Ascii Strings.String.
From S2P Require Import Prelude Bytes.


(** A string literal's bytes. *)
Definition lit (s : String.string) : list Z :=
  map (fun c => Z.of_N (Ascii.N_of_ascii c)) (String.list_ascii_of_string s).
Arguments lit s%_string_scope.

Definition to_string (s : list Z) : String.string :=
  String.string_of_list_ascii (map (fun b => Ascii.ascii_of_N (Z.to_N b)) s).
Lemma lit_to_string s : bytes_ok s -> lit (to_string s) = s.
Proof.
  intros H. unfold lit, to_string. rewrite list_ascii_of_string_of_list_ascii, map_map.
  induction H as [|b s Hb H IH]; [done|]. unfold byte_ok in Hb. cbn [map]. rewrite IH. f_equal.
  rewrite Ascii.N_ascii_embedding by lia. lia.
Qed.

(** ** UTF-8 *)

Definition is_scalar (c : Z) : Prop := 0 <= c < 55296 \/ 57344 <= c < 1114112.
Definition is_scalarb (c : Z) : bool := (0 <=? c) && (c <? 55296) || (57344 <=? c) && (c <? 1114112).
Lemma is_scalarb_ok c : is_scalarb c = true <-> is_scalar c.
Proof. unfold is_scalarb, is_scalar. lia. Qed.

(** [char::encode_utf8]. *)
Definition encode_utf8 (c : Z) : list Z :=
  if c <? 128 then [c]
  else if c <? 2048 then [192 + c / 64; 128 + c mod 64]
  else if c <? 65536 then [224 + c / 4096; 128 + c / 64 mod 64; 128 + c mod 64]
  else [240 + c / 262144; 128 + c / 4096 mod 64; 128 + c / 64 mod 64; 128 + c mod 64].
Definition of_chars (cs : list Z) : list Z := concat (map encode_utf8 cs).
(** The invariant of [str]: its bytes encode a sequence of scalar values. *)
Definition utf8 (s : list Z) : Prop := exists cs, Forall is_scalar cs /\ s = of_chars cs.

(** The first character of a byte string and the rest; [None] when it does not start with the
    (shortest) encoding of a scalar value. *)
Definition decode_char (s : list Z) : option (Z * list Z) :=
  match s with
  | [] => None
  | b0 :: r =>
      let b i := byte_at s i mod 64 in
      let c := if b0 <? 128 then b0
               else if b0 <? 224 then b0 mod 32 * 64 + b 1
               else if b0 <? 240 then b0 mod 16 * 4096 + b 1 * 64 + b 2
               else b0 mod 8 * 262144 + b 1 * 4096 + b 2 * 64 + b 3 in
      let e := encode_utf8 c in
      if is_scalarb c && bool_decide (take (length e) s = e) then Some (c, drop (length e) s) else None
  end.
Fixpoint decode_loop (fuel : nat) (s : list Z) : option (list Z) :=
  match s, fuel with
  | [], _ => Some []
  | _, O => None
  | _, S fuel =>
      match decode_char s with
      | Some (c, r) => option_map (cons c) (decode_loop fuel r)
      | None => None
      end
  end.
(** [core::str::from_utf8] followed by [chars]. *)
Definition from_utf8 (s : list Z) : option (list Z) := decode_loop (length s) s.

(** [(b as i8) < -0x40]. *)
Definition is_cont (b : Z) : bool := (128 <=? b) && (b <? 192).
(** [str::is_char_boundary]. *)
Definition is_char_boundary (s : list Z) (i : Z) : bool :=
  if i =? 0 then true
  else if zlen s <=? i then i =? zlen s
  else negb (is_cont (byte_at s i)).

(** ** Searching and splitting *)

(** [char::is_whitespace] (the Unicode White_Space property). *)
Definition is_whitespace (c : Z) : bool :=
  (9 <=? c) && (c <=? 13) || (c =? 32) || (c =? 133) || (c =? 160) || (c =? 5760)
  || (8192 <=? c) && (c <=? 8202) || (c =? 8232) || (c =? 8233) || (c =? 8239) || (c =? 8287) || (c =? 12288).
(** The maximal runs of non-whitespace characters, in order ([cur] is the run being read). *)
Fixpoint ws_runs (cur : list Z) (cs : list Z) : list (list Z) :=
  match cs with
  | [] => if bool_decide (cur = []) then [] else [cur]
  | c :: cs =>
      if is_whitespace c then (if bool_decide (cur = []) then ws_runs [] cs else cur :: ws_runs [] cs)
      else ws_runs (cur ++ [c]) cs
  end.
(** [str::split_whitespace]. *)
Definition split_whitespace (s : list Z) : list (list Z) :=
  match from_utf8 s with Some cs => map of_chars (ws_runs [] cs) | None => [] end.
(** [s.find(c)] for an ASCII character. *)
Fixpoint find_byte (b : Z) (s : list Z) : option Z :=
  match s with
  | [] => None
  | x :: s => if x =? b then Some 0 else option_map Z.succ (find_byte b s)
  end.
(** [s.starts_with(p)]. *)
Definition starts_with (s p : list Z) : bool := bool_decide (take (length p) s = p).
(** [s.strip_prefix(p)]. *)
Definition strip_prefix (p s : list Z) : option (list Z) :=
  if starts_with s p then Some (drop (length p) s) else None.
(** [u8::to_ascii_lowercase] and [eq_ignore_ascii_case]. *)
Definition lower (b : Z) : Z := if (65 <=? b) && (b <=? 90) then b + 32 else b.
Definition eq_ignore_ascii_case (s t : list Z) : bool := bool_decide (map lower s = map lower t).

(** ** Integers as text *)

(** [char::to_digit]. *)
Definition to_digit (radix b : Z) : option Z :=
  let d := if (48 <=? b) && (b <=? 57) then b - 48
           else if (97 <=? b) && (b <=? 122) then b - 87
           else if (65 <=? b) && (b <=? 90) then b - 55 else radix in
  if d <? radix then Some d else None.
Definition is_ascii_hexdigit (b : Z) : bool := if to_digit 16 b then true else false.
(** The digit loop of [from_str_radix]: [None] on a character that is not a digit, and when the
    checked multiplication or addition leaves [[lo, hi]] ([sign] is 1 or -1). *)
Fixpoint digits_val (radix sign lo hi : Z) (acc : Z) (s : list Z) : option Z :=
  match s with
  | [] => Some acc
  | b :: s =>
      match to_digit radix b with
      | None => None
      | Some d =>
          let x := acc * radix in
          if (lo <=? x) && (x <=? hi) then
            let y := x + sign * d in
            if (lo <=? y) && (y <=? hi) then digits_val radix sign lo hi y s else None
          else None
      end
  end.
(** [u32::from_str_radix]: an optional [+], then at least one digit. *)
Definition u32_from_str_radix (s : list Z) (radix : Z) : option Z :=
  match s with
  | [] => None
  | b :: r =>
      if ((b =? 43) || (b =? 45)) && bool_decide (r = []) then None
      else if b =? 43 then digits_val radix 1 0 u32_max 0 r
      else digits_val radix 1 0 u32_max 0 s
  end.
Definition i32_min : Z := -2147483648.
Definition i32_max : Z := 2147483647.
Definition i32_ok (x : Z) : Prop := i32_min <= x <= i32_max.
(** [i32::from_str_radix]. *)
Definition i32_from_str_radix (s : list Z) (radix : Z) : option Z :=
  match s with
  | [] => None
  | b :: r =>
      if ((b =? 43) || (b =? 45)) && bool_decide (r = []) then None
      else if b =? 43 then digits_val radix 1 i32_min i32_max 0 r
      else if b =? 45 then digits_val radix (-1) i32_min i32_max 0 r
      else digits_val radix 1 i32_min i32_max 0 s
  end.
(** [str::parse]. *)
Definition parse_u32 (s : list Z) : option Z := u32_from_str_radix s 10.
Definition parse_i32 (s : list Z) : option Z := i32_from_str_radix s 10.

(** A digit's lower-case character. *)
Definition digit_char (d : Z) : Z := if d <? 10 then 48 + d else 87 + d.
(** The last [n] digits of [v], and its digits without leading zeros (at most [n]). *)
Fixpoint fixed_digits (radix : Z) (n : nat) (v : Z) : list Z :=
  match n with
  | O => []
  | S n => fixed_digits radix n (v / radix) ++ [digit_char (v mod radix)]
  end.
Fixpoint digits (radix : Z) (n : nat) (v : Z) : list Z :=
  match n with
  | O => []
  | S n => (if v <? radix then [] else digits radix n (v / radix)) ++ [digit_char (v mod radix)]
  end.
(** [{}] of a [u32] and an [i32] (ten decimal digits hold both), and [{:08x}]. *)
Definition fmt_u32 (v : Z) : list Z := digits 10 10 v.
Definition fmt_i32 (v : Z) : list Z := if v <? 0 then 45 :: digits 10 10 (- v) else digits 10 10 v.
Definition fmt_08x (v : Z) : list Z := fixed_digits 16 8 v.
Example fmt_ex : (fmt_u32 0, fmt_u32 4294967295, fmt_i32 (-2147483648), fmt_08x 439041101) =
  (lit "0", lit "4294967295", lit "-2147483648", lit "1a2b3c4d").
Proof. vm_compute. reflexivity. Qed.
Example ws_ex : split_whitespace (lit "  system  settings set" ++ [194; 160] ++ lit "a=b ") =
  [lit "system"; lit "settings"; lit "set"; lit "a=b"].
Proof. vm_compute. reflexivity. Qed.

(** ** Laws of UTF-8 *)

Lemma encode_cases c :
  (c < 128 /\ encode_utf8 c = [c]) \/
  (128 <= c < 2048 /\ encode_utf8 c = [192 + c / 64; 128 + c mod 64]) \/
  (2048 <= c < 65536 /\ encode_utf8 c = [224 + c / 4096; 128 + c / 64 mod 64; 128 + c mod 64]) \/
  (65536 <= c /\ encode_utf8 c =
    [240 + c / 262144; 128 + c / 4096 mod 64; 128 + c / 64 mod 64; 128 + c mod 64]).
Proof. unfold encode_utf8. repeat split_if; (tauto || lia). Qed.

(** An encoding: a lead byte that is no continuation byte, then at most three that are. *)
Lemma encode_shape c : is_scalar c ->
  exists b t, encode_utf8 c = b :: t /\ is_cont b = false /\ Forall (fun x => is_cont x = true) t /\
    (length t <= 3)%nat.
Proof.
  unfold is_scalar. intros Hc.
  assert (Hk : forall x, is_cont (128 + x mod 64) = true).
  { intros x. pose proof (Z.mod_pos_bound x 64). unfold is_cont. lia. }
  destruct (encode_cases c) as [[H ->]|[[H ->]|[[H ->]|[H ->]]]]; do 2 eexists; (split; [reflexivity|]);
    (split; [unfold is_cont; Z.to_euclidean_division_equations; lia|]);
    (split; [repeat (constructor; [apply Hk|]); constructor | simpl; lia]).
Qed.

Lemma encode_nonempty c : encode_utf8 c <> [].
Proof. destruct (encode_cases c) as [[_ ->]|[[_ ->]|[[_ ->]|[_ ->]]]]; discriminate. Qed.

Lemma encode_bytes c : is_scalar c -> bytes_ok (encode_utf8 c).
Proof.
  unfold is_scalar. intros Hc.
  assert (Hk : forall x, byte_ok (128 + x mod 64)).
  { intros x. pose proof (Z.mod_pos_bound x 64). unfold byte_ok. lia. }
  destruct (encode_cases c) as [[H ->]|[[H ->]|[[H ->]|[H ->]]]];
    repeat (constructor; [first [apply Hk | unfold byte_ok; Z.to_euclidean_division_equations; lia]|]); constructor.
Qed.

Lemma decode_char_encode c r : is_scalar c -> decode_char (encode_utf8 c ++ r) = Some (c, r).
Proof.
  intros Hc. pose proof Hc as Hb%is_scalarb_ok. unfold is_scalar in Hc.
  assert (Hd : forall c', c' = c -> (if is_scalarb c' && bool_decide (take (length (encode_utf8 c')) (encode_utf8 c ++ r) = encode_utf8 c')
    then Some (c', drop (length (encode_utf8 c')) (encode_utf8 c ++ r)) else None) = Some (c, r)).
  { intros c' ->. rewrite Hb, take_app_length, drop_app_length, bool_decide_eq_true_2 by done. done. }
  destruct (encode_cases c) as [[H He]|[[H He]|[[H He]|[H He]]]]; rewrite He in *;
    cbn [app decode_char]; apply Hd;
    repeat (split_if || (Z.to_euclidean_division_equations; lia));
    unfold byte_at; change (Z.to_nat 1) with 1%nat; change (Z.to_nat 2) with 2%nat;
    change (Z.to_nat 3) with 3%nat; cbn [nth]; clear Hd Hb He;
    Z.to_euclidean_division_equations; lia.
Qed.

Lemma decode_char_sound s c r : decode_char s = Some (c, r) -> is_scalar c /\ s = encode_utf8 c ++ r.
Proof.
  destruct s as [|b0 s]; [done|]. cbn [decode_char]. cbv zeta.
  set (c' := if b0 <? 128 then _ else _). intros H. destruct (is_scalarb c' && _) eqn:Hif; [|done].
  injection H as <- <-. apply andb_true_iff in Hif as [Hc He]. bool_hyps. split; [by apply is_scalarb_ok|].
  rewrite <- (take_drop (length (encode_utf8 c')) (b0 :: s)) at 1. by rewrite He.
Qed.

Lemma of_chars_cons c cs : of_chars (c :: cs) = encode_utf8 c ++ of_chars cs.
Proof. done. Qed.
Lemma of_chars_app cs ds : of_chars (cs ++ ds) = of_chars cs ++ of_chars ds.
Proof. unfold of_chars. by rewrite map_app, concat_app. Qed.

Lemma decode_loop_of_chars cs fuel : Forall is_scalar cs -> (length (of_chars cs) <= fuel)%nat ->
  decode_loop fuel (of_chars cs) = Some cs.
Proof.
  revert fuel. induction cs as [|c cs IH]; intros fuel H Hf; [by destruct fuel|].
  apply Forall_cons_1 in H as [Hc H]. rewrite of_chars_cons in *. rewrite length_app in Hf.
  pose proof (encode_nonempty c) as Hn.
  destruct (encode_utf8 c ++ of_chars cs) as [|x l] eqn:E; [by apply app_nil in E as [? _]|].
  destruct fuel as [|fuel]; [destruct (encode_utf8 c); [done | simpl in Hf; lia]|].
  cbn [decode_loop]. rewrite <- E, decode_char_encode by done.
  rewrite IH; [done|done|]. destruct (encode_utf8 c); [done | simpl in Hf; lia].
Qed.
Lemma from_utf8_of_chars cs : Forall is_scalar cs -> from_utf8 (of_chars cs) = Some cs.
Proof. intros. by apply decode_loop_of_chars. Qed.

Lemma decode_loop_sound fuel s cs : decode_loop fuel s = Some cs -> Forall is_scalar cs /\ s = of_chars cs.
Proof.
  revert s cs. induction fuel as [|fuel IH]; intros [|b s] cs H; try (simpl in H; by simplify_eq).
  cbn [decode_loop] in H. destruct (decode_char (b :: s)) as [[c r]|] eqn:E; [|done].
  apply decode_char_sound in E as [Hc ->]. destruct (decode_loop fuel r) as [cs'|] eqn:E'; [|done].
  apply IH in E' as [? ->]. simpl in H. simplify_eq. split; [by constructor | done].
Qed.
Lemma from_utf8_sound s cs : from_utf8 s = Some cs -> Forall is_scalar cs /\ s = of_chars cs.
Proof. apply decode_loop_sound. Qed.
Lemma utf8_from_utf8 s : utf8 s <-> is_Some (from_utf8 s).
Proof.
  split.
  - intros (cs & H & ->). rewrite from_utf8_of_chars by done. eauto.
  - intros [cs ?%from_utf8_sound]. by exists cs.
Qed.

(** A boolean check, for concrete strings. *)
Definition utf8b (s : list Z) : bool := if from_utf8 s then true else false.
Lemma utf8b_ok s : utf8b s = true -> utf8 s.
Proof. unfold utf8b. intros H. apply utf8_from_utf8. destruct (from_utf8 s); [by eexists | done]. Qed.
Lemma utf8b_Forall l : forallb utf8b l = true -> Forall utf8 l.
Proof.
  intros H. apply List.Forall_forall. intros s Hs. rewrite List.forallb_forall in H. by apply utf8b_ok, H.
Qed.

Lemma utf8_nil : utf8 [].
Proof. by exists []. Qed.
Lemma utf8_app s t : utf8 s -> utf8 t -> utf8 (s ++ t).
Proof.
  intros (cs & ? & ->) (ds & ? & ->). exists (cs ++ ds). rewrite of_chars_app, Forall_app. done.
Qed.
Lemma utf8_concat l : Forall utf8 l -> utf8 (concat l).
Proof. induction 1; [apply utf8_nil | by apply utf8_app]. Qed.
Lemma utf8_bytes s : utf8 s -> bytes_ok s.
Proof.
  intros (cs & H & ->). induction H as [|c cs Hc H IH]; [constructor|]. rewrite of_chars_cons.
  apply bytes_ok_app. split; [by apply encode_bytes | done].
Qed.
(** ASCII text is its own encoding. *)
Definition ascii (s : list Z) : Prop := Forall (fun b => 0 <= b < 128) s.
Definition asciib (s : list Z) : bool := forallb (fun b => (0 <=? b) && (b <? 128)) s.
Lemma asciib_ok s : asciib s = true -> ascii s.
Proof.
  unfold asciib, ascii. induction s as [|b s IH]; simpl; intros H; [constructor|]. bool_hyps.
  constructor; [lia | tauto].
Qed.
Lemma ascii_of_chars s : ascii s -> of_chars s = s /\ Forall is_scalar s.
Proof.
  induction 1 as [|b s Hb H [IH IH']]; [done|]. rewrite of_chars_cons, IH.
  destruct (encode_cases b) as [[? ->]|[[? _]|[[? _]|[? _]]]]; [|lia..].
  split; [done|]. constructor; [|done]. left. lia.
Qed.
Lemma ascii_utf8 s : ascii s -> utf8 s.
Proof. intros [H ?]%ascii_of_chars. exists s. done. Qed.
Lemma utf8_join s b t : 0 <= b < 128 -> utf8 s -> utf8 t -> utf8 (s ++ b :: t).
Proof.
  intros Hb Hs Ht. apply utf8_app; [done|]. apply (utf8_app [b]); [|done]. apply ascii_utf8. constructor; [done | constructor].
Qed.
#[export] Hint Resolve utf8_nil utf8_app utf8_concat utf8_bytes ascii_utf8 : tower.

(** ** Character boundaries *)

Lemma boundary_0 s : is_char_boundary s 0 = true.
Proof. done. Qed.
Lemma boundary_len s : is_char_boundary s (zlen s) = true.
Proof. unfold is_char_boundary. split_if; [done|]. by rewrite Z.leb_refl, Z.eqb_refl. Qed.
Lemma boundary_bound s i : 0 <= i -> is_char_boundary s i = true -> i <= zlen s.
Proof. unfold is_char_boundary. pose proof (zlen_nonneg s). intros ? Hb. repeat split_if_in Hb; lia. Qed.

(** A non-empty string starts with a byte that is no continuation byte. *)
Lemma utf8_head s : utf8 s -> s <> [] -> is_cont (byte_at s 0) = false.
Proof.
  intros (cs & H & ->) Hn. destruct H as [|c cs Hc H]; [done|]. rewrite of_chars_cons.
  destruct (encode_shape c Hc) as (b & t & -> & Hb & _). done.
Qed.
Lemma byte_at_app_r s t i : zlen s <= i -> byte_at (s ++ t) i = byte_at t (i - zlen s).
Proof.
  intros H. unfold byte_at. rewrite app_nth2 by (unfold zlen in H; lia). f_equal. unfold zlen in *. lia.
Qed.
Lemma byte_at_app_l s t i : 0 <= i < zlen s -> byte_at (s ++ t) i = byte_at s i.
Proof. intros H. unfold byte_at. apply app_nth1. unfold zlen in H. lia. Qed.

(** Boundaries of a concatenation. *)
Lemma boundary_app_l s t i : utf8 t -> 0 <= i <= zlen s -> is_char_boundary (s ++ t) i = is_char_boundary s i.
Proof.
  intros Ht Hi. pose proof (zlen_nonneg t). unfold is_char_boundary. rewrite zlen_app.
  destruct (i =? 0) eqn:E0; [done|]. bool_hyps. destruct (decide (i = zlen s)) as [->|].
  - rewrite Z.leb_refl, Z.eqb_refl. split_if; [lia|].
    rewrite byte_at_app_r, Z.sub_diag by lia. rewrite utf8_head; [done|done|]. intros ->. rewrite zlen_nil in *. lia.
  - replace (zlen s + zlen t <=? i) with false by lia. replace (zlen s <=? i) with false by lia.
    by rewrite byte_at_app_l by lia.
Qed.
Lemma boundary_app_r s t i : utf8 t -> 0 <= i ->
  is_char_boundary (s ++ t) (zlen s + i) = is_char_boundary t i.
Proof.
  intros Ht Hi. pose proof (zlen_nonneg s). destruct (decide (i = 0)) as [->|].
  - rewrite Z.add_0_r, boundary_app_l by (done || lia). by rewrite boundary_len.
  - unfold is_char_boundary. rewrite zlen_app.
    replace (zlen s + i =? 0) with false by lia. replace (i =? 0) with false by lia.
    replace (zlen s + zlen t <=? zlen s + i) with (zlen t <=? i) by lia.
    split_if; [lia|]. rewrite byte_at_app_r by lia. do 3 f_equal. lia.
Qed.

Lemma boundary_encode c i : is_scalar c -> 0 < i < zlen (encode_utf8 c) -> is_char_boundary (encode_utf8 c) i = false.
Proof.
  intros Hc Hi. destruct (encode_shape c Hc) as (b & t & E & _ & Ht & _). rewrite E, zlen_cons in *.
  unfold is_char_boundary. rewrite zlen_cons. replace (i =? 0) with false by lia.
  replace (1 + zlen t <=? i) with false by lia. apply negb_false_iff.
  unfold byte_at. replace (Z.to_nat i) with (S (Z.to_nat (i - 1))) by lia. cbn [nth].
  rewrite Forall_nth in Ht. apply Ht. unfold zlen in *. lia.
Qed.

(** A boundary splits a string into two strings. *)
Lemma boundary_split s i : utf8 s -> 0 <= i -> is_char_boundary s i = true ->
  exists a b, s = a ++ b /\ zlen a = i /\ utf8 a /\ utf8 b.
Proof.
  intros (cs & H & ->). revert i. induction H as [|c cs Hc H IH]; intros i Hi Hb.
  - apply boundary_bound in Hb; [|done]. replace i with 0 by (change (zlen (of_chars [])) with 0 in Hb; lia).
    exists [], []. eauto with tower.
  - assert (Hu : utf8 (of_chars cs)) by by exists cs.
    rewrite of_chars_cons in *. destruct (decide (i = 0)) as [->|].
    { exists [], (encode_utf8 c ++ of_chars cs). repeat split; auto with tower.
      exists (c :: cs). split; [by constructor | done]. }
    destruct (decide (i < zlen (encode_utf8 c))).
    { rewrite boundary_app_l, boundary_encode in Hb by (done || lia). done. }
    destruct (IH (i - zlen (encode_utf8 c))) as (a & b & -> & Ha & ? & ?); [lia| |].
    { rewrite <- Hb, <- boundary_app_r with (s := encode_utf8 c) by (done || lia). f_equal. lia. }
    exists (encode_utf8 c ++ a), b. rewrite <- app_assoc, zlen_app. repeat split; try done; [lia|].
    apply utf8_app; [|done]. exists [c]. split; [by constructor|]. unfold of_chars. simpl. by rewrite app_nil_r.
Qed.
(** The text between two boundaries is a string. *)
Lemma utf8_slice s i j : utf8 s -> 0 <= i <= j -> is_char_boundary s i = true -> is_char_boundary s j = true ->
  utf8 (slice s i (j - i)).
Proof.
  intros Hs Hij Hi Hj. destruct (boundary_split s j) as (a & b & -> & Ha & Hua & Hub); [done|lia|done|].
  rewrite boundary_app_l in Hi by (done || lia).
  destruct (boundary_split a i) as (c & d & -> & Hc & ? & ?); [done|lia|done|].
  rewrite zlen_app in Ha. rewrite slice_app_in by (rewrite ?zlen_app; lia).
  rewrite slice_app_r, Hc, Z.sub_diag by lia. replace (j - i) with (zlen d) by lia. by rewrite slice_all.
Qed.
(** A boundary lies within three bytes of any offset, on either side. *)
Lemma boundary_near s i : utf8 s -> 0 <= i <= zlen s ->
  (exists j, i <= j <= i + 3 /\ is_char_boundary s j = true) /\
  (exists j, 0 <= j /\ i - 3 <= j <= i /\ is_char_boundary s j = true).
Proof.
  intros (cs & H & ->). revert i. induction H as [|c cs Hc H IH]; intros i Hi.
  - change (zlen (of_chars [])) with 0 in Hi. split; exists 0; repeat split; lia.
  - assert (Hu : utf8 (of_chars cs)) by by exists cs.
    rewrite of_chars_cons in *. rewrite zlen_app in Hi. set (e := encode_utf8 c) in *.
    assert (He : 1 <= zlen e <= 4).
    { unfold e. destruct (encode_shape c Hc) as (b & t & -> & _ & _ & ?). unfold zlen. simpl. lia. }
    destruct (decide (i < zlen e)).
    + split; [|exists 0; repeat split; lia].
      destruct (decide (i = 0)) as [->|]; [exists 0; repeat split; lia|].
      exists (zlen e). split; [lia|]. rewrite boundary_app_l by (done || lia). apply boundary_len.
    + destruct (IH (i - zlen e)) as [(j & ? & Hj) (k & ? & ? & Hk)]; [lia|]. split.
      * exists (zlen e + j). split; [lia|]. by rewrite boundary_app_r by (done || lia).
      * exists (zlen e + k). split; [lia|]. split; [lia|]. by rewrite boundary_app_r by (done || lia).
Qed.

(** A string's remainder after a string is a string. *)
Lemma utf8_app_inv q r : utf8 (q ++ r) -> utf8 q -> utf8 r.
Proof.
  intros (cs & Hcs & E) (ds & Hds & ->). revert cs Hcs E. induction Hds as [|d ds Hd Hds IH]; intros cs Hcs E.
  - exists cs. by rewrite <- E.
  - rewrite of_chars_cons, <- app_assoc in E. destruct cs as [|c cs].
    { apply app_nil in E as [E _]. by apply encode_nonempty in E. }
    apply Forall_cons_1 in Hcs as [Hc Hcs]. rewrite of_chars_cons in E.
    assert (Ed : Some (d, of_chars ds ++ r) = Some (c, of_chars cs)).
    { rewrite <- (decode_char_encode d), E by done. by apply decode_char_encode. }
    injection Ed as -> Ed. by apply (IH cs).
Qed.
Lemma utf8_prefix_boundary q r : utf8 (q ++ r) -> utf8 q -> is_char_boundary (q ++ r) (zlen q) = true.
Proof.
  intros H Hq. pose proof (utf8_app_inv q r H Hq). pose proof (zlen_nonneg q).
  rewrite boundary_app_l by (done || lia). apply boundary_len.
Qed.

(** An ASCII character ends one string and starts another. *)
Lemma utf8_cut_ascii u b v : 0 <= b < 128 -> utf8 (u ++ b :: v) -> utf8 u /\ utf8 v.
Proof.
  intros Hb H. pose proof (zlen_nonneg u). pose proof (zlen_nonneg v).
  assert (Hbd : is_char_boundary (u ++ b :: v) (zlen u) = true).
  { unfold is_char_boundary. rewrite zlen_app, zlen_cons. split_if; [done|]. split_if; [lia|].
    rewrite byte_at_app_r, Z.sub_diag by lia. change (byte_at (b :: v) 0) with b. unfold is_cont.
    by replace (128 <=? b) with false by lia. }
  destruct (boundary_split _ _ H (zlen_nonneg u) Hbd) as (x & y & Hxy & Hx & Hux & Huy).
  apply app_inj_1 in Hxy as [-> Hy]; [|unfold zlen in Hx; lia]. subst y. split; [done|].
  apply (utf8_app_inv [b]); [done|]. apply ascii_utf8. constructor; [done | constructor].
Qed.

(** ** Laws of integer text *)

(** Splits every conditional, innermost conditions first, in the goal and the hypotheses. *)
Ltac inner_ifs :=
  repeat match goal with
  | |- context [if ?b then _ else _] =>
      lazymatch b with context [if _ then _ else _] => fail | _ => destruct b eqn:?; bool_hyps end
  | H : context [if ?b then _ else _] |- _ =>
      lazymatch b with context [if _ then _ else _] => fail | _ => destruct b eqn:?; bool_hyps end
  end.

Lemma to_digit_char radix d : 0 <= d < radix -> radix <= 36 -> to_digit radix (digit_char d) = Some d.
Proof. intros. unfold digit_char, to_digit. inner_ifs; first [f_equal; lia | exfalso; lia]. Qed.
Lemma to_digit_bound radix b d : to_digit radix b = Some d -> 0 <= d < radix.
Proof. unfold to_digit. intros H. inner_ifs; simplify_eq; lia. Qed.
Lemma to_digit_lower b d : to_digit 16 b = Some d <-> 0 <= d < 16 /\ lower b = digit_char d.
Proof.
  split.
  - intros H. split; [by eapply to_digit_bound|]. revert H. unfold to_digit, lower, digit_char.
    intros H. inner_ifs; simplify_eq; lia.
  - intros [Hd H]. revert H. unfold to_digit, lower, digit_char. intros H.
    inner_ifs; first [f_equal; lia | exfalso; lia].
Qed.

Lemma digits_val_app radix sign lo hi acc s t :
  digits_val radix sign lo hi acc (s ++ t) =
  match digits_val radix sign lo hi acc s with Some x => digits_val radix sign lo hi x t | None => None end.
Proof.
  revert acc. induction s as [|b s IH]; intros acc; [done|]. cbn [app digits_val].
  destruct (to_digit radix b); [|done]. cbv zeta. repeat (split_if; [|done]). apply IH.
Qed.

Section Digits.
Context (radix : Z) (Hr : 2 <= radix <= 36).

(** One more digit on a value that stays in range. *)
Lemma digits_val_snoc sign lo hi s v : sign = 1 \/ sign = -1 -> lo <= 0 <= hi -> 0 <= v -> lo <= sign * v <= hi ->
  digits_val radix sign lo hi 0 s = Some (sign * (v / radix)) ->
  digits_val radix sign lo hi 0 (s ++ [digit_char (v mod radix)]) = Some (sign * v).
Proof.
  intros Hs Hlo Hv Hb E. rewrite digits_val_app, E. cbn [digits_val].
  pose proof (Z.mod_pos_bound v radix ltac:(lia)). pose proof (Z.div_mod v radix ltac:(lia)).
  pose proof (Z.div_pos v radix Hv ltac:(lia)).
  rewrite to_digit_char by lia. cbv zeta. set (q := v / radix) in *. set (m := v mod radix) in *.
  assert (0 <= radix * q) by nia. assert (sign * q * radix = sign * (radix * q)) as -> by lia.
  destruct Hs as [-> | ->]; repeat (split_if; [|exfalso; lia]); f_equal; lia.
Qed.
Lemma digits_val_digits sign lo hi n v : sign = 1 \/ sign = -1 -> lo <= 0 <= hi ->
  0 <= v < radix ^ Z.of_nat n -> lo <= sign * v <= hi ->
  digits_val radix sign lo hi 0 (digits radix n v) = Some (sign * v).
Proof.
  intros Hs Hlo. revert v. induction n as [|n IH]; intros v Hv Hb.
  - replace v with 0 by (change (radix ^ Z.of_nat 0) with 1 in Hv; lia). by rewrite Z.mul_0_r.
  - cbn [digits]. apply digits_val_snoc; [done..|lia|done|].
    pose proof (Z.div_pos v radix ltac:(lia) ltac:(lia)). pose proof (Z.div_mod v radix ltac:(lia)).
    pose proof (Z.mod_pos_bound v radix ltac:(lia)). split_if.
    + rewrite Z.div_small by lia. by rewrite Z.mul_0_r.
    + apply IH; [|destruct Hs as [-> | ->]; nia]. split; [done|].
      apply Z.div_lt_upper_bound; [lia|]. rewrite <- Z.pow_succ_r, <- Nat2Z.inj_succ by lia. lia.
Qed.
Lemma digits_val_fixed lo hi n v : lo <= 0 <= hi -> 0 <= v < radix ^ Z.of_nat n -> v <= hi ->
  digits_val radix 1 lo hi 0 (fixed_digits radix n v) = Some v.
Proof.
  intros Hlo. revert v. induction n as [|n IH]; intros v Hv Hb.
  - replace v with 0 by (change (radix ^ Z.of_nat 0) with 1 in Hv; lia). done.
  - cbn [fixed_digits]. replace v with (1 * v) at 3 by lia. apply digits_val_snoc; [by left|done|lia|lia|].
    pose proof (Z.div_mod v radix ltac:(lia)). pose proof (Z.mod_pos_bound v radix ltac:(lia)).
    pose proof (Z.div_pos v radix ltac:(lia) ltac:(lia)).
    rewrite Z.mul_1_l. apply IH; [|nia]. split; [done|].
    apply Z.div_lt_upper_bound; [lia|]. rewrite <- Z.pow_succ_r, <- Nat2Z.inj_succ by lia. lia.
Qed.

Lemma digits_nonempty n v : (0 < n)%nat -> digits radix n v <> [].
Proof. destruct n; [lia|]. intros _. cbn [digits]. intros H%app_nil. destruct H. done. Qed.
Lemma zlen_fixed n v : zlen (fixed_digits radix n v) = Z.of_nat n.
Proof. revert v. induction n as [|n IH]; intros v; [done|]. cbn [fixed_digits]. rewrite zlen_app, IH. change (zlen [_]) with 1. lia. Qed.
Lemma zlen_digits n v : zlen (digits radix n v) <= Z.of_nat n.
Proof.
  revert v. induction n as [|n IH]; intros v; [done|]. cbn [digits]. rewrite zlen_app. change (zlen [_]) with 1.
  split_if; [change (zlen []) with 0; lia|]. specialize (IH (v / radix)). lia.
Qed.
End Digits.

(** The characters of printed numbers. *)
Definition digit_text (radix : Z) (s : list Z) : Prop :=
  Forall (fun b => exists d, 0 <= d < radix /\ b = digit_char d) s.
Lemma digit_text_digits radix n v : 0 < radix -> digit_text radix (digits radix n v).
Proof.
  intros Hr. revert v. induction n as [|n IH]; intros v; [constructor|]. cbn [digits]. apply Forall_app. split.
  - split_if; [constructor | apply IH].
  - constructor; [|constructor]. exists (v mod radix). split; [by apply Z.mod_pos_bound | done].
Qed.
Lemma digit_text_fixed radix n v : 0 < radix -> digit_text radix (fixed_digits radix n v).
Proof.
  intros Hr. revert v. induction n as [|n IH]; intros v; [constructor|]. cbn [fixed_digits]. apply Forall_app.
  split; [apply IH|]. constructor; [|constructor]. exists (v mod radix). split; [by apply Z.mod_pos_bound | done].
Qed.

Lemma parse_fmt_u32 v : u32_ok v -> parse_u32 (fmt_u32 v) = Some v.
Proof.
  intros Hv. unfold parse_u32, fmt_u32, u32_from_str_radix.
  pose proof (digit_text_digits 10 10 v ltac:(lia)) as Ht. pose proof (digits_nonempty 10 10 v ltac:(lia)) as Hn.
  assert (E : digits_val 10 1 0 u32_max 0 (digits 10 10 v) = Some (1 * v)).
  { apply digits_val_digits; try mlia; try by left. }
  rewrite Z.mul_1_l in E. destruct (digits 10 10 v) as [|b r]; [done|].
  apply Forall_cons_1 in Ht as [(d & Hd & ->) _]. unfold digit_char in *.
  replace (d <? 10) with true in * by lia. replace (48 + d =? 43) with false by lia.
  replace (48 + d =? 45) with false by lia. done.
Qed.
Lemma parse_fmt_i32 v : i32_ok v -> parse_i32 (fmt_i32 v) = Some v.
Proof.
  unfold i32_ok, i32_min, i32_max. intros Hv. unfold parse_i32, fmt_i32, i32_from_str_radix, i32_min, i32_max.
  assert (Hp : 10 ^ Z.of_nat 10 = 10000000000) by done. destruct (v <? 0) eqn:E0; bool_hyps.
  - pose proof (digits_nonempty 10 10 (- v) ltac:(lia)) as Hn. rewrite bool_decide_eq_false_2 by done.
    change (45 =? 43) with false. change (45 =? 45) with true. cbn [orb andb].
    rewrite digits_val_digits by (try (by right); lia). f_equal. lia.
  - pose proof (digit_text_digits 10 10 v ltac:(lia)) as Ht. pose proof (digits_nonempty 10 10 v ltac:(lia)) as Hn.
    assert (E : digits_val 10 1 (-2147483648) 2147483647 0 (digits 10 10 v) = Some (1 * v)).
    { apply digits_val_digits; try lia; by left. }
    rewrite Z.mul_1_l in E. destruct (digits 10 10 v) as [|b r]; [done|].
    apply Forall_cons_1 in Ht as [(d & Hd & ->) _]. unfold digit_char in *.
    replace (d <? 10) with true in * by lia. replace (48 + d =? 43) with false by lia.
    replace (48 + d =? 45) with false by lia. done.
Qed.

(** ** Laws of splitting *)

Definition solid (c : Z) : Prop := is_scalar c /\ is_whitespace c = false.
(** A non-empty string without whitespace. *)
Definition word (w : list Z) : Prop := exists cs, Forall solid cs /\ cs <> [] /\ w = of_chars cs.
(** A possibly empty one. *)
Definition solid_text (w : list Z) : Prop := exists cs, Forall solid cs /\ w = of_chars cs.

Lemma solid_scalar cs : Forall solid cs -> Forall is_scalar cs.
Proof. apply Forall_impl. by intros c []. Qed.
Lemma word_nonempty w : word w -> w <> [].
Proof.
  intros (cs & _ & Hn & ->). destruct cs as [|c cs]; [done|]. rewrite of_chars_cons. intros [H _]%app_nil.
  by apply encode_nonempty in H.
Qed.
Lemma word_utf8 w : word w -> utf8 w.
Proof. intros (cs & H & _ & ->). exists cs. split; [by apply solid_scalar | done]. Qed.
Lemma solid_utf8 w : solid_text w -> utf8 w.
Proof. intros (cs & H & ->). exists cs. split; [by apply solid_scalar | done]. Qed.
Lemma word_solid w : word w <-> w <> [] /\ solid_text w.
Proof.
  split.
  - intros H. split; [by apply word_nonempty|]. destruct H as (cs & ? & _ & ->). by exists cs.
  - intros [Hn (cs & H & ->)]. exists cs. split; [done|]. split; [|done]. by intros ->.
Qed.
Lemma solid_app a b : solid_text a -> solid_text b -> solid_text (a ++ b).
Proof.
  intros (cs & ? & ->) (ds & ? & ->). exists (cs ++ ds). rewrite of_chars_app, Forall_app. done.
Qed.
Definition solidb (b : Z) : bool := (0 <=? b) && (b <? 128) && negb (is_whitespace b).
Lemma ascii_solid s : forallb solidb s = true -> solid_text s.
Proof.
  intros H. assert (Ha : ascii s /\ Forall solid s).
  { induction s as [|b s IH]; [split; constructor|]. simpl in H. unfold solidb in H. bool_hyps.
    destruct IH; [done|]. split; (constructor; [|done]); [lia|]. split; [left; lia | done]. }
  destruct Ha as [[Hs _]%ascii_of_chars ?]. exists s. done.
Qed.
#[export] Hint Resolve word_utf8 solid_utf8 : tower.

Lemma ws_runs_solid cur w r : Forall solid w -> ws_runs cur (w ++ r) = ws_runs (cur ++ w) r.
Proof.
  revert cur. induction w as [|c w IH]; intros cur H; [by rewrite app_nil_r|].
  apply Forall_cons_1 in H as [[_ Hc] H]. cbn [app ws_runs]. rewrite Hc, IH by done. by rewrite <- app_assoc.
Qed.
Lemma split_whitespace_one w : word w -> split_whitespace w = [w].
Proof.
  intros (cs & Hcs & Hn & ->). unfold split_whitespace. rewrite from_utf8_of_chars by by apply solid_scalar.
  rewrite <- (app_nil_r cs) at 1. rewrite ws_runs_solid by done. cbn [app ws_runs]. by rewrite bool_decide_eq_false_2.
Qed.
Lemma ws_runs_sep cur cs c ds : is_whitespace c = true -> ws_runs cur (cs ++ c :: ds) = ws_runs cur cs ++ ws_runs [] ds.
Proof.
  intros Hc. revert cur. induction cs as [|x cs IH]; intros cur; cbn [app ws_runs].
  - rewrite Hc. by case_bool_decide.
  - split_if; [|done]. case_bool_decide; rewrite IH; done.
Qed.
(** A separator splits the tokens before it from those after it. *)
Lemma split_whitespace_sep s b t : utf8 s -> utf8 t -> 0 <= b < 128 -> is_whitespace b = true ->
  split_whitespace (s ++ b :: t) = split_whitespace s ++ split_whitespace t.
Proof.
  intros (cs & Hcs & ->) (ds & Hds & ->) Hb Hw.
  assert (E : of_chars cs ++ b :: of_chars ds = of_chars (cs ++ b :: ds)).
  { rewrite of_chars_app, of_chars_cons. destruct (encode_cases b) as [[? ->]|[[? _]|[[? _]|[? _]]]]; [done|lia..]. }
  rewrite E. unfold split_whitespace. rewrite !from_utf8_of_chars; [|done..|].
  - by rewrite ws_runs_sep, map_app.
  - apply Forall_app. split; [done|]. constructor; [left; lia | done].
Qed.
(** A word up to an ASCII separator is the first token, and separators are skipped. *)
Lemma split_whitespace_word w b s : word w -> utf8 s -> 0 <= b < 128 -> is_whitespace b = true ->
  split_whitespace (w ++ b :: s) = w :: split_whitespace s.
Proof. intros. rewrite split_whitespace_sep, split_whitespace_one by auto with tower. done. Qed.
Lemma split_whitespace_skip b s : utf8 s -> 0 <= b < 128 -> is_whitespace b = true ->
  split_whitespace (b :: s) = split_whitespace s.
Proof. intros. change (b :: s) with ([] ++ b :: s). by rewrite split_whitespace_sep by auto with tower. Qed.
(** Tokens are words. *)
Lemma split_whitespace_words s : Forall word (split_whitespace s).
Proof.
  unfold split_whitespace. destruct (from_utf8 s) as [cs|] eqn:E; [|constructor].
  apply from_utf8_sound in E as [Hcs _].
  assert (H : forall cur, Forall solid cur -> Forall (fun r => Forall solid r /\ r <> []) (ws_runs cur cs)).
  { induction Hcs as [|c cs Hc Hcs IH]; intros cur Hcur; cbn [ws_runs].
    - case_bool_decide; repeat constructor; done.
    - destruct (is_whitespace c) eqn:Hw; [|apply IH, Forall_app; split; [done|]; constructor; [done | constructor]].
      specialize (IH [] ltac:(constructor)). case_bool_decide; [done|]. by constructor. }
  specialize (H [] ltac:(constructor)). apply Forall_map. eapply Forall_impl; [|exact H].
  intros r [? ?]. by exists r.
Qed.

Lemma strip_prefix_app p s : strip_prefix p (p ++ s) = Some s.
Proof. unfold strip_prefix, starts_with. rewrite take_app_length, drop_app_length, bool_decide_eq_true_2; done. Qed.
Lemma strip_prefix_Some p s h : strip_prefix p s = Some h -> s = p ++ h.
Proof.
  unfold strip_prefix, starts_with. case_bool_decide as Hp; [|done]. intros [= <-].
  rewrite <- Hp at 1. symmetry. apply take_drop.
Qed.

(** [find] and the two sides of the separator. *)
Lemma find_byte_None b s : find_byte b s = None <-> Forall (fun x => x <> b) s.
Proof.
  induction s as [|x s IH]; simpl; [by split|]. split_if.
  - subst. split; [done|]. intros [? _]%Forall_cons_1. done.
  - destruct (find_byte b s); simpl; split; try done.
    + intros [_ H]%Forall_cons_1. by apply IH in H.
    + intros _. constructor; [done | by apply IH].
Qed.
Lemma find_byte_app b s t : Forall (fun x => x <> b) s -> find_byte b (s ++ b :: t) = Some (zlen s).
Proof.
  induction 1 as [|x s Hx H IH]; simpl.
  - by rewrite Z.eqb_refl.
  - replace (x =? b) with false by lia. rewrite IH. simpl. rewrite zlen_cons. f_equal. lia.
Qed.
Lemma find_byte_Some b s i : find_byte b s = Some i ->
  exists u v, s = u ++ b :: v /\ zlen u = i /\ Forall (fun x => x <> b) u.
Proof.
  revert i. induction s as [|x s IH]; intros i H; [done|]. simpl in H. split_if_in H.
  - simplify_eq. exists [], s. by repeat constructor.
  - destruct (find_byte b s) as [j|]; [|done]. simpl in H. simplify_eq.
    destruct (IH j eq_refl) as (u & v & -> & Hu & Hf). exists (x :: u), v. rewrite zlen_cons. split; [done|].
    split; [lia | by constructor].
Qed.
Lemma slice_after_sep (u : list Z) b v :
  slice (u ++ b :: v) (zlen u + 1) (zlen (u ++ b :: v) - (zlen u + 1)) = v.
Proof.
  pose proof (zlen_nonneg u). pose proof (zlen_nonneg v). rewrite slice_app_r, zlen_app, zlen_cons by lia.
  change (b :: v) with ([b] ++ v). rewrite slice_app_r by (change (zlen [b]) with 1; lia). change (zlen [b]) with 1.
  replace (zlen u + 1 - zlen u - 1) with 0 by lia. replace (zlen u + (1 + zlen v) - (zlen u + 1)) with (zlen v) by lia.
  apply slice_all.
Qed.
(** What follows an ASCII character of a solid text is solid. *)
Lemma solid_text_cut b u v : 0 <= b < 128 -> solid_text (u ++ b :: v) -> utf8 u ->
  solid_text u /\ solid_text v.
Proof.
  intros Hb (cs & Hcs & E) (us & Hus & ->). revert cs Hcs E. induction Hus as [|x us Hx Hus IH]; intros cs Hcs E.
  - split; [exists []; by split; [constructor|]|]. destruct cs as [|c cs]; [done|].
    apply Forall_cons_1 in Hcs as [[Hc _] Hcs]. rewrite of_chars_cons in E. simpl in E.
    destruct (encode_cases c) as [[? H]|[[? H]|[[? H]|[? H]]]]; rewrite H in E; simpl in E; injection E as -> E.
    + by exists cs.
    + exfalso. Z.to_euclidean_division_equations; lia.
    + exfalso. Z.to_euclidean_division_equations; lia.
    + exfalso. Z.to_euclidean_division_equations; lia.
  - rewrite of_chars_cons, <- app_assoc in E. destruct cs as [|c cs].
    { apply app_nil in E as [E _]. by apply encode_nonempty in E. }
    apply Forall_cons_1 in Hcs as [[Hc Hw] Hcs]. rewrite of_chars_cons in E.
    assert (Ed : Some (x, of_chars us ++ b :: v) = Some (c, of_chars cs)).
    { rewrite <- (decode_char_encode x), E by done. by apply decode_char_encode. }
    injection Ed as -> Ed. destruct (IH cs Hcs Ed) as [(us' & Hus' & Eu) ?]. split; [|done].
    exists (c :: us'). rewrite of_chars_cons, of_chars_cons, Eu. split; [|done]. constructor; done.
Qed.
