(* ===== verification/Shell.v ===== *)
(** The hardware-free shell kernels (crates/shell/src/lib.rs): the [addr] value parser, the
    xorshift step behind [addr random], the response window and the completion helpers. Offsets
    and lengths ([usize]) are [Z]; a window's [skip + cap] is taken not to overflow. *)
From Stdlib Require Import Strings.String.
From S2P Require Import Prelude Bytes Str.

Definition parse_addr (value : list Z) : option Z :=
  if eq_ignore_ascii_case value (lit "auto") then Some 0
  else
    let hex := match strip_prefix (lit "0x") value with
               | Some h => h
               | None => match strip_prefix (lit "0X") value with Some h => h | None => value end
               end in
    if bool_decide (hex = []) || (8 <? zlen hex) || negb (forallb is_ascii_hexdigit hex) then None
    else u32_from_str_radix hex 16.

Definition xorshift32_nonzero (seed : Z) : Z :=
  let x := Z.lor seed 1 in
  let x := Z.lxor x (wrap32 (Z.shiftl x 13)) in
  let x := Z.lxor x (Z.shiftr x 17) in
  let x := Z.lxor x (wrap32 (Z.shiftl x 5)) in
  x.

(** ** The response window *)

Record Window := { w_skip : Z; w_cap : Z; w_total : Z; w_captured : Z; w_skipped : Z }.
Definition window_new (skip cap : Z) : Window :=
  {| w_skip := skip; w_cap := cap; w_total := 0; w_captured := 0; w_skipped := 0 |}.
(** [while !s.is_char_boundary(lo) { lo += 1 }]: at most [s.len()] steps, the end is a boundary. *)
Fixpoint up_to_boundary (fuel : nat) (s : list Z) (lo : Z) : Z :=
  match fuel with
  | O => lo
  | S fuel => if is_char_boundary s lo then lo else up_to_boundary fuel s (lo + 1)
  end.
(** [while hi > lo && !s.is_char_boundary(hi) { hi -= 1 }]. *)
Fixpoint down_to_boundary (fuel : nat) (s : list Z) (lo hi : Z) : Z :=
  match fuel with
  | O => hi
  | S fuel => if (lo <? hi) && negb (is_char_boundary s hi) then down_to_boundary fuel s lo (hi - 1) else hi
  end.
Definition feed (w : Window) (s : list Z) : Window * list Z :=
  let start := w_total w in
  let w := {| w_skip := w_skip w; w_cap := w_cap w; w_total := w_total w + zlen s;
              w_captured := w_captured w; w_skipped := w_skipped w |} in
  let room := w_cap w - w_captured w in
  if room =? 0 then (w, [])
  else
    let lo0 := Z.min (sat_sub (w_skip w) start) (zlen s) in
    let lo := up_to_boundary (length s) s lo0 in
    let w := {| w_skip := w_skip w; w_cap := w_cap w; w_total := w_total w;
                w_captured := w_captured w; w_skipped := w_skipped w + (lo - lo0) |} in
    let hi_win := Z.min (sat_sub (w_skip w + w_cap w) start) (zlen s) in
    let hi := down_to_boundary (length s) s lo (Z.min hi_win (lo + room)) in
    if hi <=? lo then (w, [])
    else
      let seg := slice s lo (hi - lo) in
      ({| w_skip := w_skip w; w_cap := w_cap w; w_total := w_total w;
          w_captured := w_captured w + zlen seg; w_skipped := w_skipped w |}, seg).
Definition total (w : Window) : Z := w_total w.
Definition captured (w : Window) : Z := w_captured w.
Definition consumed (w : Window) : Z := w_captured w + w_skipped w.
Definition more (w : Window) : bool := w_skip w + consumed w <? w_total w.

(** ** Completion *)

(** [first.bytes().zip(t.bytes()).take_while(|(a, b)| a == b).count()]. *)
Fixpoint common_len (a b : list Z) : Z :=
  match a, b with
  | x :: a, y :: b => if x =? y then 1 + common_len a b else 0
  | _, _ => 0
  end.
(** [while !first.is_char_boundary(len) { len -= 1 }]: 0 is a boundary. *)
Definition common_prefix (texts : list (list Z)) : list Z :=
  match texts with
  | [] => []
  | first :: texts =>
      let len := fold_left (fun len t => Z.min len (common_len first t)) texts (zlen first) in
      let len := down_to_boundary (length first) first 0 len in
      slice first 0 len
  end.

Fixpoint varint_len_loop (fuel : nat) (n l : Z) : Z :=
  match fuel with
  | O => l
  | S fuel => if 128 <=? n then varint_len_loop fuel (Z.shiftr n 7) (l + 1) else l
  end.
(** A 64-bit [usize] has at most ten groups of seven bits. *)
Definition varint_len (n : Z) : Z := varint_len_loop 10 n 1.

(** Varints, for concrete codecs. *)
Module Varint.
Fixpoint venc (fuel : nat) (n : Z) : list Z :=
  match fuel with
  | O => [n mod 128]
  | S fuel => if 128 <=? n then 128 + n mod 128 :: venc fuel (Z.shiftr n 7) else [n]
  end.
Fixpoint vdec (fuel : nat) (l : list Z) : option (Z * list Z) :=
  match l, fuel with
  | [], _ => None
  | b :: l, O => Some (b, l)
  | b :: l, S fuel =>
      if 128 <=? b then match vdec fuel l with Some (n, r) => Some (b - 128 + 128 * n, r) | None => None end
      else Some (b, l)
  end.
Lemma zlen_venc n : zlen (venc 10 n) = varint_len n.
Proof.
  unfold varint_len. assert (H : forall fuel n l, varint_len_loop fuel n l = l - 1 + zlen (venc fuel n)).
  { clear. induction fuel as [|fuel IH]; intros n l; cbn [varint_len_loop venc]; [change (zlen [_]) with 1; lia|].
    split_if; [rewrite IH, zlen_cons; lia | change (zlen [_]) with 1; lia]. }
  rewrite H. lia.
Qed.
Lemma vdec_venc fuel n r : 0 <= n < 128 ^ Z.of_nat (S fuel) -> vdec fuel (venc fuel n ++ r) = Some (n, r).
Proof.
  revert n. induction fuel as [|fuel IH]; intros n Hn; cbn [venc].
  - change (128 ^ Z.of_nat 1) with 128 in Hn. rewrite Z.mod_small by lia. done.
  - pose proof (Z.mod_pos_bound n 128 ltac:(lia)). pose proof (Z.div_mod n 128 ltac:(lia)). split_if.
    + cbn [app vdec]. replace (128 <=? 128 + n mod 128) with true by lia.
      rewrite Z.shiftr_div_pow2 by lia. change (2 ^ 7) with 128. rewrite IH; [f_equal; f_equal; lia|].
      rewrite Nat2Z.inj_succ, Z.pow_succ_r in Hn by lia. split; [apply Z.div_pos; lia|]. apply Z.div_lt_upper_bound; lia.
    + cbn [app vdec]. by replace (128 <=? n) with false by lia.
Qed.
Lemma venc_bytes fuel n : 0 <= n -> bytes_ok (venc fuel n).
Proof.
  revert n. induction fuel as [|fuel IH]; intros n Hn; cbn [venc].
  - pose proof (Z.mod_pos_bound n 128 ltac:(lia)). constructor; [unfold byte_ok; lia | constructor].
  - pose proof (Z.mod_pos_bound n 128 ltac:(lia)). split_if; (constructor; [unfold byte_ok; lia|]); [|constructor].
    apply IH. by apply Z.shiftr_nonneg.
Qed.
End Varint.

Record CompletionBudget := { cb_used : Z; cb_cap : Z; cb_any : bool }.
Definition BASE : Z := 3 + 3 + 1 + 1 + 1.
Definition budget_new (cap : Z) : CompletionBudget := {| cb_used := BASE; cb_cap := cap; cb_any := false |}.
Definition try_add (b : CompletionBudget) (text_len : Z) : CompletionBudget * bool :=
  let cost := varint_len text_len + text_len + 1 in
  let cost := if negb (cb_any b) then cost + (varint_len text_len - 1 + text_len) else cost in
  if cb_cap b <? cb_used b + cost then (b, false)
  else ({| cb_used := cb_used b + cost; cb_cap := cb_cap b; cb_any := true |}, true).
Definition used (b : CompletionBudget) : Z := cb_used b.

Example parse_addr_ex : (parse_addr (lit "Auto"), parse_addr (lit "0x1a2b3C4d"), parse_addr (lit "+1"), parse_addr (lit "123456789")) =
  (Some 0, Some 439041101, None, None).
Proof. vm_compute. reflexivity. Qed.
Example feed_ex : feed (window_new 2 4) [97; 195; 176; 98; 195; 176; 99] =
  ({| w_skip := 2; w_cap := 4; w_total := 7; w_captured := 3; w_skipped := 1 |}, [98; 195; 176]).
Proof. vm_compute. reflexivity. Qed.

(** ** Windows over a stream of strings *)

Lemma up_to_boundary_spec fuel s lo : 0 <= lo <= zlen s -> zlen s - lo <= Z.of_nat fuel ->
  let r := up_to_boundary fuel s lo in
  lo <= r <= zlen s /\ is_char_boundary s r = true /\ forall i, lo <= i < r -> is_char_boundary s i = false.
Proof.
  revert lo. induction fuel as [|fuel IH]; intros lo Hlo Hf; cbn [up_to_boundary].
  - replace lo with (zlen s) by lia. split; [lia|]. split; [apply boundary_len | lia].
  - destruct (is_char_boundary s lo) eqn:E; [split; [lia|]; split; [done | lia]|].
    assert (lo <> zlen s) by (intros ->; by rewrite boundary_len in E).
    destruct (IH (lo + 1)) as (? & ? & Hn); [lia..|]. split; [lia|]. split; [done|]. intros i Hi.
    destruct (decide (i = lo)) as [->|]; [done|]. apply Hn. lia.
Qed.
Lemma down_to_boundary_spec fuel s lo hi : lo <= hi -> hi - lo <= Z.of_nat fuel ->
  let r := down_to_boundary fuel s lo hi in
  lo <= r <= hi /\ (r = lo \/ is_char_boundary s r = true) /\ forall i, r < i <= hi -> is_char_boundary s i = false.
Proof.
  revert hi. induction fuel as [|fuel IH]; intros hi Hlo Hf; cbn [down_to_boundary].
  - split; [lia|]. split; lia.
  - destruct (_ && _) eqn:E.
    + bool_hyps. destruct (IH (hi - 1)) as (? & ? & H'); [lia..|]. split; [lia|]. split; [done|]. intros i Hi.
      destruct (decide (i = hi)) as [->|]; [done|]. apply H'. lia.
    + bool_hyps. split; [lia|]. split; [|lia]. destruct E as [?|?%negb_false_iff]; [left; lia | by right].
Qed.

(** What one pass over the stream [s] captures for the window [[skip, skip + cap)]: [out] is the
    text between two character boundaries, the first at or above [skip], the last at or below
    [skip + cap]. *)
Record window_spec (s : list Z) (skip cap : Z) (w : Window) (out : list Z) (lo hi : Z) : Prop := {
  ws_skip : w_skip w = skip;
  ws_cap : w_cap w = cap;
  ws_total : w_total w = zlen s;
  ws_range : Z.min skip (zlen s) <= lo <= hi /\ hi <= Z.min (skip + cap) (zlen s);
  ws_lo : is_char_boundary s lo = true;
  ws_hi : is_char_boundary s hi = true;
  ws_lo_least : forall i, Z.min skip (zlen s) <= i < lo -> is_char_boundary s i = false;
  ws_hi_most : forall i, hi < i <= Z.min (skip + cap) (zlen s) -> is_char_boundary s i = false;
  ws_skipped : w_skipped w = lo - Z.min skip (zlen s);
  ws_captured : w_captured w = hi - lo;
  ws_out : out = slice s lo (hi - lo);
}.

Lemma window_new_spec skip cap : 0 <= skip -> 4 <= cap -> window_spec [] skip cap (window_new skip cap) [] 0 0.
Proof.
  intros. split; cbn [w_skip w_cap w_total w_captured w_skipped window_new]; change (zlen (@nil Z)) with 0; try done; intros; lia.
Qed.

(** Feeding one more piece takes the window of the stream so far to the window of the longer
    stream. *)
Lemma feed_spec s piece skip cap w out lo hi : utf8 s -> utf8 piece -> 0 <= skip -> 4 <= cap ->
  window_spec s skip cap w out lo hi ->
  exists lo' hi', window_spec (s ++ piece) skip cap (fst (feed w piece)) (out ++ snd (feed w piece)) lo' hi'.
Proof.
  intros Hs Hp Hskip Hcap [E1 E2 E3 Hr Hlo Hhi Hl Hh E4 E5 Eo].
  pose proof (zlen_nonneg s). pose proof (zlen_nonneg piece).
  assert (Bl : forall i, 0 <= i <= zlen s -> is_char_boundary (s ++ piece) i = is_char_boundary s i)
    by (intros; by apply boundary_app_l).
  assert (Br : forall i, 0 <= i -> is_char_boundary (s ++ piece) (zlen s + i) = is_char_boundary piece i)
    by (intros; by apply boundary_app_r).
  assert (Br' : forall i, zlen s <= i -> is_char_boundary (s ++ piece) i = is_char_boundary piece (i - zlen s))
    by (intros; rewrite <- Br by lia; f_equal; lia).
  unfold feed. rewrite E1, E2, E3, E5. cbv zeta. cbn [w_skip w_cap w_total w_captured w_skipped].
  (* the window is already full, or the piece lies past it *)
  destruct (decide (skip + cap <= zlen s)) as [Hpast|Hroom].
  { assert (Hkeep : exists lo' hi', window_spec (s ++ piece) skip cap
      {| w_skip := skip; w_cap := cap; w_total := zlen s + zlen piece; w_captured := hi - lo; w_skipped := w_skipped w |}
      (out ++ []) lo' hi').
    { exists lo, hi. rewrite app_nil_r. split; cbn [w_skip w_cap w_total w_captured w_skipped];
        rewrite ?zlen_app; try done; try lia.
      - rewrite Bl by lia. done.
      - rewrite Bl by lia. done.
      - intros i Hi. rewrite Bl by lia. apply Hl. lia.
      - intros i Hi. rewrite Bl by lia. apply Hh. lia.
      - rewrite slice_app_in by lia. done. }
    split_if; [done|]. replace (Z.min (sat_sub skip (zlen s)) (zlen piece)) with 0 by (unfold sat_sub; lia).
    replace (Z.min (sat_sub (skip + cap) (zlen s)) (zlen piece)) with 0 by (unfold sat_sub; lia).
    destruct (up_to_boundary_spec (length piece) piece 0) as (Hu & _ & Hu'); [lia | unfold zlen; lia|].
    set (u := up_to_boundary _ _ _) in *.
    assert (u = 0) as -> by (destruct (decide (u = 0)); [done|]; exfalso; specialize (Hu' 0); rewrite boundary_0 in Hu'; discriminate Hu'; lia).
    destruct (down_to_boundary_spec (length piece) piece 0 (Z.min 0 (0 + (cap - (hi - lo))))) as (Hd & _); [lia..|].
    set (d := down_to_boundary _ _ _ _) in *. replace (d <=? 0) with true by lia. rewrite Z.sub_diag, Z.add_0_r. done. }
  set (lo0 := Z.min (sat_sub skip (zlen s)) (zlen piece)).
  assert (Hlo0 : lo0 = Z.min (Z.max (skip - zlen s) 0) (zlen piece)) by done. clearbody lo0.
  replace (Z.min (sat_sub (skip + cap) (zlen s)) (zlen piece)) with (Z.min (skip + cap - zlen s) (zlen piece)) by (unfold sat_sub; lia).
  (* the stream so far ends inside the window or before it: everything from [skip] on is captured *)
  assert (Hend : hi = zlen s).
  { destruct (decide (hi = zlen s)); [done|]. exfalso. specialize (Hh (zlen s)).
    rewrite boundary_len in Hh. discriminate Hh. lia. }
  subst hi.
  destruct (up_to_boundary_spec (length piece) piece lo0) as (Hu & Hub & Hu'); [lia | unfold zlen; lia|].
  set (u := up_to_boundary _ _ _) in *.
  assert (Hu3 : u <= lo0 + 3).
  { destruct (boundary_near piece lo0) as [(j & Hj & Hjb) _]; [done|lia|].
    destruct (decide (u <= j)); [lia|]. rewrite Hu' in Hjb by lia. done. }
  assert (Hcase : (skip <= zlen s /\ lo0 = 0 /\ u = 0) \/ (zlen s < skip /\ lo = zlen s)).
  { destruct (decide (skip <= zlen s)); [left|right; lia]. assert (lo0 = 0) by lia. split; [done|]. split; [done|].
    destruct (decide (u = 0)); [done|]. exfalso. specialize (Hu' 0). rewrite boundary_0 in Hu'. discriminate Hu'. lia. }
  replace (cap - (zlen s - lo) =? 0) with false by lia.
  set (top := Z.min (Z.min (skip + cap - zlen s) (zlen piece)) (u + (cap - (zlen s - lo)))).
  assert (Htop : top = Z.min (skip + cap - zlen s) (zlen piece)) by lia. clearbody top.
  assert (Hut : u <= top) by lia.
  destruct (down_to_boundary_spec (length piece) piece u top) as (Hd & Hdb & Hd'); [lia | unfold zlen in *; lia|].
  set (d := down_to_boundary _ _ _ _) in *.
  assert (Hdb' : is_char_boundary piece d = true) by (destruct Hdb as [->|]; done). clear Hdb.
  set (lo' := if decide (skip <= zlen s) then lo else zlen s + u).
  assert (Hlo' : (skip <= zlen s /\ lo' = lo) \/ (zlen s < skip /\ lo' = zlen s + u))
    by (unfold lo'; case_decide; [left | right]; lia). clearbody lo'.
  exists lo', (zlen s + d).
  assert (Hspec : window_spec (s ++ piece) skip cap
    {| w_skip := skip; w_cap := cap; w_total := zlen s + zlen piece; w_captured := zlen s - lo + (d - u);
       w_skipped := w_skipped w + (u - lo0) |} (out ++ slice piece u (d - u)) lo' (zlen s + d)).
  { split; cbn [w_skip w_cap w_total w_captured w_skipped]; rewrite ?zlen_app; try done; try lia.
    - destruct Hlo' as [[? ->]|[? ->]]; [rewrite Bl by lia | rewrite Br by lia]; done.
    - rewrite Br by lia. done.
    - intros i Hi. destruct Hlo' as [[? ->]|[? ->]]; [rewrite Bl by lia; apply Hl; lia|].
      rewrite Br' by lia. apply Hu'. lia.
    - intros i Hi. rewrite Br' by lia. apply Hd'. lia.
    - rewrite Eo. destruct Hlo' as [[? ->]|[? ->]].
      + destruct Hcase as [(_ & _ & Hu0)|]; [|lia]. rewrite Hu0 in *. rewrite Z.sub_0_r.
        replace (zlen s + d - lo) with (zlen s - lo + d) by lia. rewrite slice_split by lia.
        rewrite slice_app_in by lia. rewrite (slice_app_r s piece) by lia. do 2 f_equal. lia.
      + destruct Hcase as [(? & _)|[_ Hlos]]; [lia|]. rewrite Hlos, Z.sub_diag, slice_0, app_nil_l.
        rewrite slice_app_r by lia. f_equal; lia. }
  split_if; cbn [fst snd].
  - assert (d = u) by lia. replace (d - u) with 0 in Hspec by lia. rewrite slice_0, Z.add_0_r in Hspec. done.
  - rewrite zlen_slice by lia. exact Hspec.
Qed.

(** One pass: the handler's pieces, in order, through one window; the captured text. *)
Fixpoint pass (w : Window) (pieces : list (list Z)) : Window * list Z :=
  match pieces with
  | [] => (w, [])
  | p :: pieces =>
      let '(w, seg) := feed w p in
      let '(w, out) := pass w pieces in
      (w, seg ++ out)
  end.

Lemma pass_spec_from pieces s skip cap w out lo hi : utf8 s -> Forall utf8 pieces -> 0 <= skip -> 4 <= cap ->
  window_spec s skip cap w out lo hi ->
  exists lo' hi', window_spec (s ++ concat pieces) skip cap (fst (pass w pieces)) (out ++ snd (pass w pieces)) lo' hi'.
Proof.
  intros Hs Hp Hskip Hcap. revert s w out lo hi Hs. induction Hp as [|p pieces Hp Hps IH]; intros s w out lo hi Hs H.
  - exists lo, hi. simpl. by rewrite !app_nil_r.
  - destruct (feed_spec s p skip cap w out lo hi) as (lo1 & hi1 & H1); [done..|].
    cbn [pass concat]. destruct (feed w p) as [w1 seg]. cbn [fst snd] in H1.
    destruct (IH (s ++ p) w1 (out ++ seg) lo1 hi1) as (lo2 & hi2 & H2); [auto with tower|done|].
    destruct (pass w1 pieces) as [w2 o2]. cbn [fst snd] in *. exists lo2, hi2. by rewrite !app_assoc.
Qed.
Lemma pass_spec pieces skip cap : Forall utf8 pieces -> 0 <= skip -> 4 <= cap ->
  exists lo hi, window_spec (concat pieces) skip cap
    (fst (pass (window_new skip cap) pieces)) (snd (pass (window_new skip cap) pieces)) lo hi.
Proof.
  intros. destruct (pass_spec_from pieces [] skip cap (window_new skip cap) [] 0 0) as (lo & hi & H');
    auto using window_new_spec with tower. by exists lo, hi.
Qed.

(** What the driver relies on: a window's text is a string of at most [cap] bytes, it starts at
    [skip] when that is a boundary, paging advances while there is more, and the last window ends
    the stream. *)
Lemma window_facts s skip cap w out lo hi : utf8 s -> 0 <= skip -> 4 <= cap ->
  window_spec s skip cap w out lo hi ->
  utf8 out /\ zlen out <= cap /\ 0 <= consumed w /\ (more w = true -> 0 < consumed w /\ skip + consumed w <= zlen s) /\
  (skip <= zlen s -> is_char_boundary s skip = true ->
    out = slice s skip (consumed w) /\ is_char_boundary s (skip + consumed w) = true /\
    (more w = false -> skip + consumed w = zlen s)).
Proof.
  intros Hs Hskip Hcap [E1 E2 E3 Hr Hlo Hhi Hl Hh E4 E5 Eo]. pose proof (zlen_nonneg s). unfold more, consumed. rewrite E1, E3, E4, E5.
  split; [subst out; apply utf8_slice; done || lia|]. split; [rewrite Eo, zlen_slice by lia|].
  { destruct (decide (skip <= zlen s)); lia. }
  split; [lia|]. split.
  - intros Hm. bool_hyps. split; [|lia]. destruct (decide (hi = Z.min skip (zlen s))); [exfalso|lia].
    pose proof (boundary_near s (skip + 1) Hs ltac:(lia)) as [(k & ? & Hk) _].
    pose proof (boundary_bound s k ltac:(lia) Hk). specialize (Hh k). rewrite Hk in Hh. discriminate Hh. lia.
  - intros Hle Hb. assert (lo = skip) as ->.
    { destruct (decide (lo = skip)); [done|]. exfalso. specialize (Hl skip). rewrite Hb in Hl. discriminate Hl. lia. }
    rewrite Z.min_l by lia. replace (hi - skip + (skip - skip)) with (hi - skip) by lia.
    replace (skip + (hi - skip)) with hi by lia. split; [done|]. split; [done|]. intros Hm. bool_hyps. lia.
Qed.

(** ** The completion prefix *)

Lemma common_len_spec a b : exists u a' b', a = u ++ a' /\ b = u ++ b' /\ zlen u = common_len a b /\
  forall q, q `prefix_of` a -> q `prefix_of` b -> q `prefix_of` u.
Proof.
  revert b. induction a as [|x a IH]; intros b.
  - exists [], [], b. done.
  - destruct b as [|y b]; [by exists [], (x :: a), []|]. cbn [common_len]. destruct (x =? y) eqn:E; bool_hyps.
    + subst y. destruct (IH b) as (u & a' & b' & -> & -> & Hu & Hm). exists (x :: u), a', b'.
      split; [done|]. split; [done|]. split; [rewrite zlen_cons; lia|].
      intros [|z q] Ha Hb; [apply prefix_nil|]. pose proof (prefix_cons_inv_1 _ _ _ _ Ha) as ->.
      apply prefix_cons, Hm; by eapply prefix_cons_inv_2.
    + exists [], (x :: a), (y :: b). split; [done|]. split; [done|]. split; [done|].
      intros [|z q] Ha Hb; [apply prefix_nil|].
      pose proof (prefix_cons_inv_1 _ _ _ _ Ha). pose proof (prefix_cons_inv_1 _ _ _ _ Hb). congruence.
Qed.

Lemma prefix_zlen (q u : list Z) : q `prefix_of` u -> zlen q <= zlen u.
Proof. intros H%prefix_length. unfold zlen. lia. Qed.
Lemma prefix_shorter (v u l : list Z) : v `prefix_of` l -> u `prefix_of` l -> zlen v <= zlen u -> v `prefix_of` u.
Proof.
  intros Hv Hu Hle. destruct (prefix_weak_total v u l Hv Hu) as [?|[k Hk]]; [done|].
  rewrite Hk, zlen_app in Hle. assert (k = []) as -> by (apply zlen_0; pose proof (zlen_nonneg k); lia).
  rewrite Hk, app_nil_r. done.
Qed.
Lemma common_len_fold first texts n : 0 <= n <= zlen first ->
  exists u r, first = u ++ r /\ zlen u = fold_left (fun len t => Z.min len (common_len first t)) texts n /\ zlen u <= n /\
  Forall (fun t => u `prefix_of` t) texts /\
  (forall q, q `prefix_of` first -> zlen q <= n -> Forall (fun t => q `prefix_of` t) texts -> q `prefix_of` u).
Proof.
  revert n. induction texts as [|t texts IH]; intros n Hn; cbn [fold_left].
  - exists (slice first 0 n), (slice first n (zlen first - n)). split.
    { rewrite <- (slice_all first) at 1. replace (zlen first) with (n + (zlen first - n)) at 1 by lia.
      rewrite slice_split by lia. done. }
    rewrite zlen_slice by lia. split; [done|]. split; [lia|]. split; [constructor|].
    intros q [k Hk] Hq _. rewrite Hk. exists (slice k 0 (n - zlen q)). pose proof (zlen_nonneg q).
    rewrite Hk, zlen_app in Hn. replace n with (zlen q + (n - zlen q)) at 1 by lia.
    rewrite slice_split, slice_app_l by lia. f_equal. rewrite slice_app_r by lia. f_equal. lia.
  - destruct (common_len_spec first t) as (u & a & b & Ha & Hb & Hu & Hm). pose proof (zlen_nonneg u).
    pose proof (zlen_nonneg a). assert (zlen first = zlen u + zlen a) by (rewrite Ha at 1; apply zlen_app).
    destruct (IH (Z.min n (common_len first t))) as (v & r & Hv & Hl & Hle & Hall & Hmax); [lia|].
    exists v, r. split; [done|]. split; [done|]. split; [lia|].
    assert (v `prefix_of` u) by (apply (prefix_shorter v u first); [by exists r | by exists a | lia]).
    split.
    + constructor; [|done]. rewrite Hb. by apply prefix_app_r.
    + intros q Hq Hqn Hqa. apply Forall_cons_1 in Hqa as [Hqt Hqa].
      apply Hmax; [done| |done]. pose proof (prefix_zlen q u (Hm q Hq Hqt)). lia.
Qed.

Lemma down_to_boundary_prefix first n : utf8 first -> 0 <= n <= zlen first ->
  let d := down_to_boundary (length first) first 0 n in
  0 <= d <= n /\ is_char_boundary first d = true /\ utf8 (slice first 0 d) /\
  forall q, utf8 q -> q `prefix_of` first -> zlen q <= n -> q `prefix_of` slice first 0 d.
Proof.
  intros Hf Hn d. destruct (down_to_boundary_spec (length first) first 0 n) as (Hd & Hb & Hmax);
    [lia | unfold zlen in Hn; lia|]. fold d in Hd, Hb, Hmax.
  assert (Hbd : is_char_boundary first d = true) by (destruct Hb as [-> | ?]; [apply boundary_0 | done]).
  split; [done|]. split; [done|]. split.
  { pose proof (utf8_slice first 0 d Hf ltac:(lia) (boundary_0 first) Hbd) as Hu. by rewrite Z.sub_0_r in Hu. }
  intros q Hq [r Hr] Hqn. apply (prefix_shorter q (slice first 0 d) first).
  - by exists r.
  - exists (drop (Z.to_nat d) first). unfold slice. by rewrite drop_0, take_drop.
  - rewrite zlen_slice by lia. destruct (decide (zlen q <= d)); [done|].
    exfalso. specialize (Hmax (zlen q) ltac:(lia)). rewrite Hr, utf8_prefix_boundary in Hmax; [done| |done].
    by rewrite <- Hr.
Qed.

(** The completion prefix is a string (never cut inside a character), every candidate starts with
    it, and it is the longest such string. *)
Lemma common_prefix_longest texts : Forall utf8 texts ->
  utf8 (common_prefix texts) /\ Forall (fun t => common_prefix texts `prefix_of` t) texts /\
  forall q, texts <> [] -> utf8 q -> Forall (fun t => q `prefix_of` t) texts -> q `prefix_of` common_prefix texts.
Proof.
  intros Hu. destruct texts as [|first texts]; [by repeat split; auto with tower|].
  apply Forall_cons_1 in Hu as [Hf Hu]. cbn [common_prefix].
  pose proof (zlen_nonneg first) as Hn.
  destruct (common_len_fold first texts (zlen first) ltac:(lia)) as (u & r & Hur & Hlen & Hle & Hall & Hmax).
  rewrite <- Hlen. pose proof (zlen_nonneg u).
  destruct (down_to_boundary_prefix first (zlen u) Hf ltac:(lia)) as (Hd & Hb & Hud & Hq).
  set (d := down_to_boundary _ _ _ _) in *.
  assert (Hdu : slice first 0 d `prefix_of` u).
  { apply (prefix_shorter _ u first); [|by exists r | rewrite zlen_slice by lia; lia].
    exists (drop (Z.to_nat d) first). unfold slice. by rewrite drop_0, take_drop. }
  split; [done|]. split.
  - constructor; [etrans; [done|]; by exists r|]. eapply Forall_impl; [|exact Hall]. intros t Ht. by etrans.
  - intros q _ Hqu Hqa. apply Forall_cons_1 in Hqa as [Hqf Hqa].
    apply Hq; [done..|]. apply prefix_zlen, Hmax; [done | by apply prefix_zlen | done].
Qed.

(** ** Addresses *)

Lemma hexdigit_lower b : is_ascii_hexdigit b = true -> exists d, 0 <= d < 16 /\ lower b = digit_char d /\ to_digit 16 b = Some d.
Proof.
  unfold is_ascii_hexdigit. destruct (to_digit 16 b) as [d|] eqn:E; [|done].
  pose proof E as [? ?]%to_digit_lower. eauto.
Qed.
Lemma digits_val_lower sign lo hi acc s t : map lower s = map lower t ->
  digits_val 16 sign lo hi acc s = digits_val 16 sign lo hi acc t.
Proof.
  revert t acc. induction s as [|b s IH]; intros [|c t] acc H; try done. simpl in H. injection H as Hb H.
  cbn [digits_val]. assert (to_digit 16 b = to_digit 16 c) as ->.
  { destruct (to_digit 16 b) as [d|] eqn:E1, (to_digit 16 c) as [e|] eqn:E2; try done.
    - apply to_digit_lower in E1 as [? E1], E2 as [? E2]. f_equal.
      rewrite E1, E2 in Hb. unfold digit_char in Hb. inner_ifs; lia.
    - apply to_digit_lower in E1 as [? E1]. rewrite Hb in E1. assert (to_digit 16 c = Some d) by by apply to_digit_lower.
      congruence.
    - apply to_digit_lower in E2 as [? E2]. rewrite <- Hb in E2. assert (to_digit 16 b = Some e) by by apply to_digit_lower.
      congruence. }
  destruct (to_digit 16 c); [|done]. cbv zeta. repeat (split_if; [|done]). by apply IH.
Qed.
(** A string of hex digits is, up to case, the fixed-width form of one number. *)
Lemma hex_fixed s : forallb is_ascii_hexdigit s = true ->
  exists n, 0 <= n < 16 ^ zlen s /\ map lower s = fixed_digits 16 (length s) n.
Proof.
  induction s as [|b s IH] using rev_ind; intros H; [by exists 0|].
  rewrite forallb_app in H. simpl in H. bool_hyps. destruct IH as (n & Hn & E); [done|].
  destruct (hexdigit_lower b) as (d & Hd & Hl & _); [done|]. exists (16 * n + d).
  rewrite zlen_app, Z.pow_add_r by (try apply zlen_nonneg; done). change (16 ^ zlen [b]) with 16.
  split; [lia|]. rewrite length_app, Nat.add_1_r. cbn [fixed_digits].
  replace ((16 * n + d) / 16) with n by (Z.to_euclidean_division_equations; lia).
  replace ((16 * n + d) mod 16) with d by (Z.to_euclidean_division_equations; lia).
  rewrite map_app, E. simpl. by rewrite Hl.
Qed.
Lemma lower_fixed n v : map lower (fixed_digits 16 n v) = fixed_digits 16 n v.
Proof.
  revert v. induction n as [|n IH]; intros v; [done|]. cbn [fixed_digits]. rewrite map_app, IH. cbn [map]. do 2 f_equal.
  pose proof (Z.mod_pos_bound v 16 ltac:(lia)). unfold lower, digit_char. inner_ifs; lia.
Qed.
Lemma hex_value s n : 0 <= n <= u32_max -> n < 16 ^ zlen s -> map lower s = fixed_digits 16 (length s) n -> s <> [] ->
  u32_from_str_radix s 16 = Some n.
Proof.
  intros Hn Hlt E Hne. assert (Hv : digits_val 16 1 0 u32_max 0 s = Some n).
  { rewrite (digits_val_lower _ _ _ _ s (fixed_digits 16 (length s) n)) by by rewrite lower_fixed.
    apply digits_val_fixed; [lia | mlia | change (Z.of_nat (length s)) with (zlen s); lia | lia]. }
  unfold u32_from_str_radix. destruct s as [|b r]; [done|].
  assert (Hb : exists d, to_digit 16 b = Some d).
  { cbn [digits_val] in Hv. destruct (to_digit 16 b); [eauto | done]. }
  destruct Hb as [d Hb]. replace (b =? 43) with false; [replace (b =? 45) with false; [done|]|];
    symmetry; apply Z.eqb_neq; intros ->; done.
Qed.

Lemma fixed_hexdigits s m : map lower s = fixed_digits 16 (length s) m -> forallb is_ascii_hexdigit s = true.
Proof.
  intros E. assert (Hd : digit_text 16 (map lower s)) by (rewrite E; by apply digit_text_fixed).
  clear E. induction s as [|b s IH]; [done|]. apply Forall_cons_1 in Hd as [(d & Hd & Hb) Hs]. cbn [forallb].
  rewrite IH, andb_true_r by done. unfold is_ascii_hexdigit.
  assert (to_digit 16 b = Some d) as -> by (apply to_digit_lower; done). done.
Qed.
Lemma hex_pow (s : list Z) : 1 <= zlen s <= 8 -> 16 ^ zlen s <= 4294967296.
Proof. intros Hs. change 4294967296 with (16 ^ 8). apply Z.pow_le_mono_r; lia. Qed.
(** No hex literal has a letter from [g] on (but the [x] of its prefix). *)
Lemma hex_letters value hex c : value = hex \/ value = lit "0x" ++ hex \/ value = lit "0X" ++ hex ->
  forallb is_ascii_hexdigit hex = true -> 103 <= c <= 119 -> Forall (fun b => lower b <> c) value.
Proof.
  intros Hval Hx Hc. assert (Hh : Forall (fun b => lower b <> c) hex).
  { apply List.Forall_forall. intros b Hb. rewrite List.forallb_forall in Hx.
    destruct (hexdigit_lower b) as (d & Hd & -> & _); [by apply Hx|]. unfold digit_char. inner_ifs; lia. }
  destruct Hval as [->|[->| ->]]; [done| |]; apply Forall_app; (split; [|done]);
    repeat (constructor; [vm_compute; lia|]); constructor.
Qed.
Lemma hex_not_word value hex w c : value = hex \/ value = lit "0x" ++ hex \/ value = lit "0X" ++ hex ->
  forallb is_ascii_hexdigit hex = true -> 103 <= c <= 119 -> In c (map lower w) -> map lower value <> map lower w.
Proof.
  intros Hval Hx Hc Hin E. pose proof (hex_letters value hex c Hval Hx Hc) as H.
  rewrite <- E in Hin. apply in_map_iff in Hin as (b & Hb & Hin). rewrite List.Forall_forall in H. by apply (H b).
Qed.

(** The accepted address literals, exactly: [auto] in any case, and an optional [0x]/[0X] followed by
    one to eight hex digits in either case, read as the number they spell. *)
Lemma parse_addr_Some value n : parse_addr value = Some n <->
  (eq_ignore_ascii_case value (lit "auto") = true /\ n = 0) \/
  (exists hex, (value = hex \/ value = lit "0x" ++ hex \/ value = lit "0X" ++ hex) /\
    1 <= zlen hex <= 8 /\ 0 <= n < 16 ^ zlen hex /\ map lower hex = fixed_digits 16 (length hex) n).
Proof.
  unfold parse_addr. destruct (eq_ignore_ascii_case value (lit "auto")) eqn:Ea.
  { split; [intros [= <-]; by left|]. intros [[_ ->]|(hex & Hval & Hlen & Hn & E)]; [done|]. exfalso.
    unfold eq_ignore_ascii_case in Ea. bool_hyps. pose proof (fixed_hexdigits hex n E) as Hx.
    apply (hex_not_word value hex (lit "auto") 117); [done|done|lia|vm_compute; tauto|done]. }
  cbv zeta. set (hex := match strip_prefix (lit "0x") value with Some h => h | None => _ end).
  assert (Hval : value = hex \/ value = lit "0x" ++ hex \/ value = lit "0X" ++ hex).
  { unfold hex. destruct (strip_prefix (lit "0x") value) eqn:E; [right; left; by apply strip_prefix_Some|].
    destruct (strip_prefix (lit "0X") value) eqn:E'; [right; right; by apply strip_prefix_Some | by left]. }
  split.
  - intros H. destruct (_ || _) eqn:Eg; [done|]. bool_hyps. right. exists hex. split; [done|].
    destruct (hex_fixed hex) as (m & Hm & E); [done|].
    assert (hex <> []) by done.
    assert (zlen hex <> 0) by (intros ?%zlen_0; done). pose proof (zlen_nonneg hex). assert (1 <= zlen hex <= 8) by lia.
    pose proof (hex_pow hex ltac:(done)). rewrite (hex_value hex m) in H by (done || mlia). by injection H as <-.
  - intros [[? _]|(h & Hv & Hlen & Hn & E)]; [done|].
    assert (hex = h) as ->.
    { pose proof (fixed_hexdigits h n E) as Hx. unfold hex. destruct Hv as [->|[->| ->]].
      - destruct (strip_prefix (lit "0x") h) as [k|] eqn:E1.
        { exfalso. apply strip_prefix_Some in E1 as ->. simpl in Hx. done. }
        destruct (strip_prefix (lit "0X") h) as [k|] eqn:E2; [|done].
        exfalso. apply strip_prefix_Some in E2 as ->. simpl in Hx. done.
      - by rewrite strip_prefix_app.
      - rewrite strip_prefix_app. done. }
    rewrite (fixed_hexdigits h n E). pose proof (hex_pow h ltac:(lia)).
    assert (h <> []) by (intros ->; change (zlen []) with 0 in Hlen; lia).
    rewrite bool_decide_eq_false_2 by done. replace (8 <? zlen h) with false by lia. cbn [orb negb].
    apply hex_value; done || mlia.
Qed.

Lemma parse_addr_not_random value n : parse_addr value = Some n -> eq_ignore_ascii_case value (lit "random") = false.
Proof.
  intros H%parse_addr_Some. apply bool_decide_eq_false. destruct H as [[H _]|(hex & Hval & Hl & Hn & E)].
  - unfold eq_ignore_ascii_case in H. bool_hyps. rewrite H. done.
  - apply (hex_not_word value hex (lit "random") 114); [done|by eapply fixed_hexdigits|lia|]. vm_compute. tauto.
Qed.

(** ** The xorshift step never yields the [auto] sentinel *)

Lemma lowest_bit x : 0 < x -> exists k, 0 <= k /\ Z.testbit x k = true /\ forall j, 0 <= j < k -> Z.testbit x j = false.
Proof.
  intros Hx. assert (H : forall n : nat, (forall j, 0 <= j < Z.of_nat n -> Z.testbit x j = false) \/
    exists k, 0 <= k /\ Z.testbit x k = true /\ forall j, 0 <= j < k -> Z.testbit x j = false).
  { induction n as [|n IH]; [left; lia|]. destruct IH as [IH|]; [|by right].
    destruct (Z.testbit x (Z.of_nat n)) eqn:E; [right; exists (Z.of_nat n); split; [lia | done]|]. left. intros j Hj.
    destruct (decide (j = Z.of_nat n)) as [->|]; [done|]. apply IH. lia. }
  destruct (H (S (Z.to_nat (Z.log2 x)))) as [Hall|]; [|done].
  pose proof (Z.log2_nonneg x). specialize (Hall (Z.log2 x) ltac:(lia)). by rewrite Z.bit_log2 in Hall.
Qed.
Lemma pos_testbit x k : 0 <= x -> Z.testbit x k = true -> 0 < x.
Proof. intros Hx Hk. destruct (decide (x = 0)) as [->|]; [by rewrite Z.bits_0 in Hk | lia]. Qed.
Lemma wrap32_testbit x k : Z.testbit (wrap32 x) k = (k <? 32) && Z.testbit x k.
Proof.
  unfold wrap32. change 4294967296 with (2 ^ 32). destruct (Z.neg_nonneg_cases k).
  { rewrite !Z.testbit_neg_r by done. by rewrite andb_false_r. }
  destruct (k <? 32) eqn:E; bool_hyps; [by rewrite Z.mod_pow2_bits_low by lia | by rewrite Z.mod_pow2_bits_high by lia].
Qed.
(** A left or right xorshift of a non-zero word keeps a bit set. *)
Lemma xorshift_left x n : 1 <= n -> u32_ok x -> 0 < x -> u32_ok (Z.lxor x (wrap32 (Z.shiftl x n))) /\ 0 < Z.lxor x (wrap32 (Z.shiftl x n)).
Proof.
  intros Hn Hx Hp. assert (Hr : u32_ok (Z.lxor x (wrap32 (Z.shiftl x n)))) by auto with tower.
  split; [done|]. destruct (lowest_bit x Hp) as (k & Hk & Hb & Hl). apply (pos_testbit _ k); [mlia|].
  rewrite Z.lxor_spec, wrap32_testbit, Hb, Z.shiftl_spec by done.
  destruct (decide (k < n)); [rewrite (Z.testbit_neg_r x) by lia; by rewrite andb_false_r|].
  rewrite Hl by lia. by rewrite andb_false_r.
Qed.
Lemma xorshift_right x n : 1 <= n -> u32_ok x -> 0 < x -> u32_ok (Z.lxor x (Z.shiftr x n)) /\ 0 < Z.lxor x (Z.shiftr x n).
Proof.
  intros Hn Hx Hp. assert (Hs : u32_ok (Z.shiftr x n)).
  { apply u32_testbit in Hx as [H0 Hx]. apply u32_testbit. split; [by apply Z.shiftr_nonneg|].
    intros i Hi. rewrite Z.shiftr_spec by lia. apply Hx. lia. }
  assert (Hr : u32_ok (Z.lxor x (Z.shiftr x n))) by auto with tower. split; [done|].
  pose proof (Z.log2_nonneg x). apply (pos_testbit _ (Z.log2 x)); [mlia|].
  rewrite Z.lxor_spec, Z.bit_log2, Z.shiftr_spec by done. by rewrite Z.bits_above_log2 by lia.
Qed.
Lemma xorshift32_nonzero_range seed : u32_ok seed -> u32_ok (xorshift32_nonzero seed) /\ xorshift32_nonzero seed <> 0.
Proof.
  intros Hs. unfold xorshift32_nonzero. cbv zeta.
  assert (H1 : u32_ok (Z.lor seed 1) /\ 0 < Z.lor seed 1).
  { apply u32_testbit in Hs as [H0 Hs]. assert (0 <= Z.lor seed 1) by (apply Z.lor_nonneg; lia). split.
    - apply u32_testbit. split; [done|]. intros i Hi. rewrite Z.lor_spec, Hs by done. cbn [orb].
      apply Z.bits_above_log2; [done|]. change (Z.log2 1) with 0. lia.
    - apply (pos_testbit _ 0); [done|]. rewrite Z.lor_spec. by rewrite orb_true_r. }
  set (x := Z.lor seed 1) in *. destruct H1 as [Hx Hp].
  destruct (xorshift_left x 13 ltac:(lia) Hx Hp) as [Hx1 Hp1]. set (x1 := Z.lxor x _) in *.
  destruct (xorshift_right x1 17 ltac:(lia) Hx1 Hp1) as [Hx2 Hp2]. set (x2 := Z.lxor x1 _) in *.
  destruct (xorshift_left x2 5 ltac:(lia) Hx2 Hp2). split; [done | lia].
Qed.

(** ** The completion budget *)

Lemma varint_loop_ge fuel n l : l <= varint_len_loop fuel n l.
Proof. revert n l. induction fuel as [|fuel IH]; intros n l; cbn [varint_len_loop]; [lia|]. split_if; [|lia]. specialize (IH (Z.shiftr n 7) (l + 1)). lia. Qed.
Lemma varint_loop_mono fuel n m l : 0 <= n <= m -> varint_len_loop fuel n l <= varint_len_loop fuel m l.
Proof.
  revert n m l. induction fuel as [|fuel IH]; intros n m l H; cbn [varint_len_loop]; [lia|].
  destruct (128 <=? n) eqn:E; bool_hyps.
  - replace (128 <=? m) with true by lia. apply IH. rewrite !Z.shiftr_div_pow2 by lia. change (2 ^ 7) with 128.
    split; [apply Z.div_pos; lia | apply Z.div_le_mono; lia].
  - split_if; [|lia]. etrans; [|apply varint_loop_ge]. lia.
Qed.
Lemma varint_len_mono n m : 0 <= n <= m -> varint_len n <= varint_len m.
Proof. apply varint_loop_mono. Qed.
Lemma varint_len_pos n : 1 <= varint_len n.
Proof. apply varint_loop_ge. Qed.
Lemma varint_len_small n : 0 <= n < 128 -> varint_len n = 1.
Proof. intros. unfold varint_len. cbn [varint_len_loop]. by replace (128 <=? n) with false by lia. Qed.
Lemma varint_len_u16 n : u16_ok n -> varint_len n <= 3.
Proof. intros H. etrans; [apply (varint_len_mono n 65535); mlia|]. by vm_compute. Qed.

(** The encoded size of a reply with these candidate lengths and completion prefix, in postcard's
    format: the worst-case fields first ([req_id], [token_start], the list length and [more]). *)
Definition str_size (n : Z) : Z := varint_len n + n.
Definition cand_size (n : Z) : Z := str_size n + 1.
Fixpoint cands_size (l : list Z) : Z :=
  match l with [] => 0 | n :: l => cand_size n + cands_size l end.

(** The budget after the candidates of lengths [l] were all admitted. *)
Definition budget_spec (cap : Z) (l : list Z) (b : CompletionBudget) : Prop :=
  cb_cap b = cap /\ cb_any b = negb (bool_decide (l = [])) /\
  cb_used b = 3 + 3 + 1 + 1 + match l with [] => 1 | n :: _ => str_size n end + cands_size l.
Lemma budget_new_spec cap : budget_spec cap [] (budget_new cap).
Proof. done. Qed.
Lemma cands_size_app l n : cands_size (l ++ [n]) = cands_size l + cand_size n.
Proof. induction l as [|m l IH]; simpl; lia. Qed.
Lemma try_add_spec cap l b n : budget_spec cap l b ->
  match try_add b n with
  | (b', true) => budget_spec cap (l ++ [n]) b' /\ used b' <= cap
  | (b', false) => b' = b
  end.
Proof.
  intros (Hc & Ha & Hu). unfold try_add. cbv zeta. rewrite Hc, Ha.
  destruct l as [|m l]; cbn [bool_decide negb]; split_if; try done; (split; [|unfold used; cbn [cb_used]; lia]);
    (split; [done|]); (split; [done|]); cbn [cb_used app]; rewrite Hu.
  - simpl. unfold cand_size, str_size. lia.
  - change (m :: l ++ [n]) with ((m :: l) ++ [n]). rewrite cands_size_app. unfold cand_size, str_size. simpl. lia.
Qed.
