(* ===== verification/RadioEnv.v ===== *)
(** Radio application envelopes (crates/protocol/src/radio.rs): the schema tag in front of a
    postcard body, always within the radio MTU. *)
From S2P Require Import Prelude Bytes Proto Cobs Fingerprint Msg Frame.

(** The codec of the two envelope types. *)
Class RadioCodec := { pc_node_msg :: Postcard NodeMsg; pc_node_cmd :: Postcard NodeCmd }.
Class RadioCodecLaws `{RadioCodec} := { pl_node_msg :: PostcardLaws NodeMsg; pl_node_cmd :: PostcardLaws NodeCmd }.

Definition ENVELOPE_HDR : Z := 2.
Definition MAX_RADIO_PAYLOAD : Z := 74.
Definition RADIO_SHELL_CHUNK : Z := 56.
#[export] Hint Unfold ENVELOPE_HDR MAX_RADIO_PAYLOAD RADIO_SHELL_CHUNK : machine.

Section Envelope.
Context `{SC : Schemas}.

(** The output buffer after the call, and the byte count or the error. *)
Definition encode_envelope {T} `{!Postcard T} (payload : T) (out : list Z) : list Z * result Error Z :=
  if zlen out <? ENVELOPE_HDR then (out, Err Overflow)
  else
    let out := patch out 0 (le_bytes 2 RADIO_TAG) in
    match to_slice payload (slice out ENVELOPE_HDR (zlen out - ENVELOPE_HDR)) with
    | (rest, None) => (patch out ENVELOPE_HDR rest, Err Encode)
    | (rest, Some used) =>
        let out := patch out ENVELOPE_HDR rest in
        let total := ENVELOPE_HDR + used in
        if MAX_RADIO_PAYLOAD <? total then (out, Err Encode) else (out, Ok total)
    end.

Definition split_envelope (data : list Z) : result Error (list Z) :=
  if zlen data <? ENVELOPE_HDR then Err TooShort
  else
    let got := le_val (slice data 0 2) in
    if negb (got =? RADIO_TAG) then Err (SchemaMismatch got)
    else Ok (slice data ENVELOPE_HDR (zlen data - ENVELOPE_HDR)).

Definition decode_envelope {T} `{!Postcard T} (data : list Z) : result Error T :=
  let? body := split_envelope data in from_bytes_exact body.

Context `{RC : RadioCodec}.
Definition encode_node_msg (msg : NodeMsg) (out : list Z) : list Z * result Error Z := encode_envelope msg out.
Definition decode_node_msg (data : list Z) : result Error NodeMsg := decode_envelope data.
Definition encode_node_cmd (cmd : NodeCmd) (out : list Z) : list Z * result Error Z := encode_envelope cmd out.
Definition decode_node_cmd (data : list Z) : result Error NodeCmd := decode_envelope data.
End Envelope.

Section EnvelopeLaws.
Context `{SC : Schemas} {T : Type} `{PT : !Postcard T} `{PL : !PostcardLaws T}.

Lemma radio_tag_bytes : zlen (le_bytes 2 RADIO_TAG) = 2.
Proof. apply zlen_le_bytes. Qed.

(** What [encode_envelope] does on every input: it succeeds exactly when the envelope fits both the
    buffer and the radio MTU, and then the buffer starts with it. *)
Lemma encode_envelope_spec (v : T) out : representable v ->
  (2 + zlen (serialize v) <= Z.min (zlen out) MAX_RADIO_PAYLOAD /\
    encode_envelope v out = (patch out 0 (le_bytes 2 RADIO_TAG ++ serialize v), Ok (2 + zlen (serialize v)))) \/
  (Z.min (zlen out) MAX_RADIO_PAYLOAD < 2 + zlen (serialize v) /\
    snd (encode_envelope v out) = Err (if zlen out <? 2 then Overflow else Encode)).
Proof.
  intros Hv. unfold encode_envelope, ENVELOPE_HDR. pose proof (zlen_nonneg (serialize v)).
  destruct (zlen out <? 2) eqn:E; bool_hyps; [right; split; [mlia | done]|].
  pose proof radio_tag_bytes as Ht.
  assert (Hp : zlen (patch out 0 (le_bytes 2 RADIO_TAG)) = zlen out) by (rewrite zlen_patch; lia).
  rewrite Hp. set (rest := slice _ 2 _).
  assert (Hr : zlen rest = zlen out - 2) by (unfold rest; rewrite zlen_slice; lia).
  destruct (decide (zlen (serialize v) <= zlen rest)).
  - rewrite to_slice_fits by done. split_if; [right; split; [mlia | done]|]. left. split; [mlia|]. f_equal.
    rewrite (patch_split out 0 (le_bytes 2 RADIO_TAG)) by (rewrite ?zlen_app, ?Ht; lia). rewrite Ht. change (0 + 2) with 2.
    set (o := patch out 0 _) in *.
    unfold rest. by rewrite (patch_patch_slice o 2 (zlen out - 2) 0 (serialize v)) by lia.
  - destruct (to_slice_short v rest) as (b & -> & _); [done|lia|]. right. split; [mlia | done].
Qed.

Lemma decode_envelope_tag tag (v : T) : u16_ok tag -> representable v ->
  decode_envelope (le_bytes 2 tag ++ serialize v) = if tag =? RADIO_TAG then Ok v else Err (SchemaMismatch tag).
Proof.
  intros Ht Hv. pose proof (zlen_nonneg (serialize v)). unfold decode_envelope, split_envelope, ENVELOPE_HDR.
  rewrite zlen_app, zlen_le_bytes. change (Z.of_nat 2) with 2.
  replace (2 + zlen (serialize v) <? 2) with false by (symmetry; apply Z.ltb_ge; lia).
  assert (slice (le_bytes 2 tag ++ serialize v) 0 2 = le_bytes 2 tag) as -> by apply (slice_app_l (le_bytes 2 tag)).
  rewrite le_val_u16 by done.
  destruct (tag =? RADIO_TAG) eqn:E; [|done]. cbn [negb rbind].
  replace (2 + zlen (serialize v) - 2) with (zlen (serialize v)) by lia.
  rewrite slice_app_r by (rewrite zlen_le_bytes; lia). rewrite zlen_le_bytes, Z.sub_diag, slice_all.
  unfold from_bytes_exact. rewrite <- (app_nil_r (serialize v)), take_serialize by done. done.
Qed.
End EnvelopeLaws.
