(* ===== verification/ShellEngine.v ===== *)
(** The device shell's engine (firmware/src/shell.rs): the command tree and its walk, command
    dispatch with paged streaming of the response, the console sink and the radio sink
    (firmware/apps/radio_push_button.rs), and TAB completion. Handlers, the world they run in and
    the transport are parameters. *)
From Stdlib Require Import Strings.String.
From S2P Require Import Prelude Bytes Str Proto Cobs Fingerprint Msg Shell Frame RadioEnv.

Definition MAX_LINE : Z := 96.
Definition MAX_TOKENS : Z := 8.
Definition RESP_CAP : Z := 256.
Definition R_OK : Z := 0.
Definition R_NOT_FOUND : Z := 1.
Definition R_BAD_ARG : Z := 2.
Definition R_STORAGE : Z := 3.
Definition R_DENIED : Z := 5.
Definition SHELL_CHUNK : Z := 192.
#[export] Hint Unfold MAX_LINE MAX_TOKENS RESP_CAP SHELL_CHUNK : machine.

Inductive Args :=
| ANone
| Names (names : list (list Z))
| ASettings (assign : bool).
Record Outcome := { result_code : Z; reboot : bool }.
Definition outcome_ok : Outcome := {| result_code := R_OK; reboot := false |}.
Definition outcome_code (r : Z) : Outcome := {| result_code := r; reboot := false |}.
Inductive Origin := Console | Remote.
#[export] Instance Origin_eq_dec : EqDecision Origin.
Proof. solve_decision. Defined.

Section Engine.
(** The state a handler works on: the store and everything it reads. *)
Context {W : Type}.

(** A handler gets the line's origin and its argument tokens; it returns the pieces it wrote, in
    order, and its outcome. *)
Definition Handler : Type := Origin -> list (list Z) -> W -> W * (list (list Z) * Outcome).
Record Command := { cmd_name : list Z; cmd_args : Args; cmd_run : Handler; console_only : bool }.
Inductive Entry :=
| Menu (name : list Z) (children : list Entry)
| Cmd (c : Command).
Definition entry_name (e : Entry) : list Z := match e with Menu n _ => n | Cmd c => cmd_name c end.
(** [Entry::cmd], [Entry::cmd_console_only]. *)
Definition entry_cmd (name : list Z) (args : Args) (run : Handler) : Entry :=
  Cmd {| cmd_name := name; cmd_args := args; cmd_run := run; console_only := false |}.
Definition cmd_console_only (name : list Z) (args : Args) (run : Handler) : Entry :=
  Cmd {| cmd_name := name; cmd_args := args; cmd_run := run; console_only := true |}.

(** ** The walk *)

Definition tokenize (line : list Z) : list (list Z) := take (Z.to_nat MAX_TOKENS) (split_whitespace line).

Inductive Resolved :=
| RMenu (primary secondary : list Entry)
| RCmd (c : Command) (arg_start : Z)
| NoMatch.
Fixpoint menu_children (level : list Entry) (name : list Z) : option (list Entry) :=
  match level with
  | [] => None
  | Menu n ch :: level => if bool_decide (n = name) then Some ch else menu_children level name
  | Cmd _ :: level => menu_children level name
  end.
Fixpoint find_cmd_in (level : list Entry) (name : list Z) : option Command :=
  match level with
  | [] => None
  | Cmd c :: level => if bool_decide (cmd_name c = name) then Some c else find_cmd_in level name
  | Menu _ _ :: level => find_cmd_in level name
  end.
(** Both levels, the primary first. *)
Definition find_cmd (primary secondary : list Entry) (name : list Z) : option Command :=
  find_cmd_in (primary ++ secondary) name.
Fixpoint resolve_loop (toks : list (list Z)) (i : Z) (primary secondary : list Entry) : Resolved :=
  match toks with
  | [] => RMenu primary secondary
  | t :: toks =>
      let pc := menu_children primary t in
      let sc := menu_children secondary t in
      if (if pc then true else false) || (if sc then true else false) then resolve_loop toks (i + 1) (default [] pc) (default [] sc)
      else match find_cmd primary secondary t with
           | Some c => RCmd c (i + 1)
           | None => NoMatch
           end
  end.
Definition resolve (base : list Entry) (toks : list (list Z)) (app : list Entry) : Resolved :=
  resolve_loop toks 0 base app.

(** ** Streaming a response *)

(** The transport a response goes out on: [push] and [done], on the sink's own state. *)
Class ShellSink (K : Type) := {
  sink_push : K -> list Z -> K * bool;
  sink_done : K -> Z -> K * bool;
}.
Context {K : Type} `{SK : !ShellSink K}.

(** The paging loop. [env] is what the rest of the device does to the world while the loop waits
    for the transport; [None] means the fuel ran out. *)
Fixpoint stream_loop (fuel : nat) (run : W -> W * (list (list Z) * Outcome)) (env : W -> W) (w : W) (k : K) (skip : Z)
    : option (W * K * Outcome) :=
  match fuel with
  | O => None
  | S fuel =>
      let '(w, (pieces, outcome)) := run w in
      let '(window, out) := pass (window_new skip RESP_CAP) pieces in
      let '(k, pushed) := sink_push k out in
      if negb pushed then Some (w, k, outcome)
      else if negb (more window) then let '(k, _) := sink_done k (result_code outcome) in Some (w, k, outcome)
      else stream_loop fuel run env (env w) k (skip + consumed window)
  end.

Definition DENIED_MSG : list Z := lit "console-only command: refused over the radio (use the USB console)".

(** A fixed reply of one piece. *)
Definition reply (w : W) (k : K) (text : list Z) (r : Z) : option (W * K * Outcome) :=
  let '(k, _) := sink_push k text in
  let '(k, _) := sink_done k r in
  Some (w, k, outcome_code r).
Definition stream_with (fuel : nat) (env : W -> W) (base app : list Entry) (line : list Z) (origin : Origin) (w : W) (k : K)
    : option (W * K * Outcome) :=
  if MAX_LINE <? zlen line then reply w k (lit "line too long") R_BAD_ARG
  else if MAX_TOKENS <? zlen (split_whitespace line) then reply w k (lit "too many arguments") R_BAD_ARG
  else
    let toks := tokenize line in
    match resolve base toks app with
    | RCmd cmd arg_start =>
        if console_only cmd && bool_decide (origin = Remote) then reply w k DENIED_MSG R_DENIED
        else stream_loop fuel (cmd_run cmd origin (drop (Z.to_nat arg_start) toks)) env w k 0
    | _ => reply w k (lit "no such command") R_NOT_FOUND
    end.
End Engine.
Arguments Handler : clear implicits.
Arguments Command : clear implicits.
Arguments Entry : clear implicits.

(** ** The console sink *)

(** [sent]: the frames handed to the console queue so far. *)
Record ConsoleSink := { cs_cmd_id : Z; cs_chunk : Z; cs_sent : list ShellResponse }.
(** Largest character boundary at or below [max]. *)
Definition clip_idx (s : list Z) (max : Z) : Z := down_to_boundary (length s) s 0 (Z.min (zlen s) max).
Definition clip_str (s : list Z) (n : Z) : list Z := slice s 0 (clip_idx s n).
Definition shell_response_frame (cmd_id result chunk : Z) (last : bool) (text : list Z) : ShellResponse :=
  {| resp_cmd_id := cmd_id; resp_result := result; resp_chunk := chunk; resp_last := last;
     resp_text := to_string (clip_str text SHELL_CHUNK) |}.
(** [while !rest.is_empty()]: every turn takes at least one byte. *)
Fixpoint console_push_loop (fuel : nat) (k : ConsoleSink) (rest : list Z) : ConsoleSink :=
  match fuel with
  | O => k
  | S fuel =>
      if bool_decide (rest = []) then k
      else
        let n := down_to_boundary (length rest) rest 0 (Z.min (zlen rest) SHELL_CHUNK) in
        let head := slice rest 0 n in
        let tail := slice rest n (zlen rest - n) in
        console_push_loop fuel
          {| cs_cmd_id := cs_cmd_id k; cs_chunk := wrap16 (cs_chunk k + 1);
             cs_sent := cs_sent k ++ [shell_response_frame (cs_cmd_id k) R_OK (cs_chunk k) false head] |} tail
  end.
#[export] Instance console_sink : ShellSink ConsoleSink := {
  sink_push k text := (console_push_loop (length text) k text, true);
  sink_done k result :=
    ({| cs_cmd_id := cs_cmd_id k; cs_chunk := cs_chunk k;
        cs_sent := cs_sent k ++ [shell_response_frame (cs_cmd_id k) result (cs_chunk k) true []] |}, true);
}.

(** ** Console streaming *)

(** Frames [n], [n + 1], … of one command, in order; [last] only on the final one. *)
Definition body_frame (cmd_id chunk : Z) (text : list Z) : ShellResponse :=
  {| resp_cmd_id := cmd_id; resp_result := R_OK; resp_chunk := chunk; resp_last := false; resp_text := to_string text |}.
Fixpoint body_frames (cmd_id chunk : Z) (texts : list (list Z)) : list ShellResponse :=
  match texts with
  | [] => []
  | t :: texts => body_frame cmd_id chunk t :: body_frames cmd_id (wrap16 (chunk + 1)) texts
  end.
Fixpoint chunk_after (chunk : Z) (texts : list (list Z)) : Z :=
  match texts with [] => chunk | _ :: texts => chunk_after (wrap16 (chunk + 1)) texts end.
(** Chunk texts: strings, not empty, of at most [n] bytes. *)
Definition chunk_ok (n : Z) (t : list Z) : Prop := utf8 t /\ 0 < zlen t <= n.

Lemma body_frames_app cmd_id chunk l m :
  body_frames cmd_id chunk (l ++ m) = body_frames cmd_id chunk l ++ body_frames cmd_id (chunk_after chunk l) m.
Proof. revert chunk. induction l as [|t l IH]; intros chunk; [done|]. cbn [app body_frames chunk_after]. by rewrite IH. Qed.
Lemma chunk_after_app chunk l m : chunk_after chunk (l ++ m) = chunk_after (chunk_after chunk l) m.
Proof. revert chunk. induction l as [|t l IH]; intros chunk; [done|]. apply IH. Qed.

(** The front of a string up to [n] bytes, cut at a character boundary: never empty for [n] of four
    or more. *)
Lemma clip_front s n : utf8 s -> s <> [] -> 4 <= n ->
  let d := down_to_boundary (length s) s 0 (Z.min (zlen s) n) in
  0 < d <= n /\ d <= zlen s /\ utf8 (slice s 0 d) /\ utf8 (slice s d (zlen s - d)) /\
  s = slice s 0 d ++ slice s d (zlen s - d).
Proof.
  intros Hs Hne Hn d. pose proof (zlen_nonneg s). assert (zlen s <> 0) by (intros ?%zlen_0; done).
  destruct (down_to_boundary_spec (length s) s 0 (Z.min (zlen s) n)) as (Hd & Hb & Hmax); [lia | unfold zlen; lia|].
  fold d in Hd, Hb, Hmax. assert (Hbd : is_char_boundary s d = true) by (destruct Hb as [-> | ?]; [apply boundary_0 | done]).
  assert (0 < d).
  { destruct (decide (d = 0)); [exfalso|lia]. destruct (boundary_near s 1 Hs ltac:(lia)) as [(j & Hj & Hjb) _].
    pose proof (boundary_bound s j ltac:(lia) Hjb). rewrite Hmax in Hjb by lia. done. }
  split; [lia|]. split; [lia|]. split; [|split].
  - pose proof (utf8_slice s 0 d Hs ltac:(lia) (boundary_0 s) Hbd) as Hu. by rewrite Z.sub_0_r in Hu.
  - apply utf8_slice; [done|lia|done|apply boundary_len].
  - rewrite <- (slice_all s) at 1. replace (zlen s) with (d + (zlen s - d)) at 1 by lia. by rewrite slice_split by lia.
Qed.
Lemma clip_str_short s n : zlen s <= n -> clip_str s n = s.
Proof.
  intros H. pose proof (zlen_nonneg s). unfold clip_str, clip_idx. rewrite Z.min_l by done.
  assert (E : down_to_boundary (length s) s 0 (zlen s) = zlen s).
  { destruct (down_to_boundary_spec (length s) s 0 (zlen s)) as (Hd & _ & Hmax); [lia | unfold zlen; lia|].
    set (d := down_to_boundary _ _ _ _) in *. destruct (decide (d = zlen s)); [done|].
    specialize (Hmax (zlen s) ltac:(lia)). by rewrite boundary_len in Hmax. }
  rewrite E. apply slice_all.
Qed.

(** The console sink cuts a text into consecutive frames, losing and repeating nothing. *)
Lemma console_push_spec fuel k text : utf8 text -> (length text <= fuel)%nat ->
  exists texts, Forall (chunk_ok SHELL_CHUNK) texts /\ concat texts = text /\
    console_push_loop fuel k text =
      {| cs_cmd_id := cs_cmd_id k; cs_chunk := chunk_after (cs_chunk k) texts;
         cs_sent := cs_sent k ++ body_frames (cs_cmd_id k) (cs_chunk k) texts |}.
Proof.
  revert k text. induction fuel as [|fuel IH]; intros k text Hu Hf; cbn [console_push_loop].
  - destruct text; [|simpl in Hf; lia]. exists []. split; [constructor|]. split; [done|]. destruct k. by rewrite app_nil_r.
  - case_bool_decide as Ht.
    { subst. exists []. split; [constructor|]. split; [done|]. destruct k. simpl. by rewrite app_nil_r. }
    destruct (clip_front text SHELL_CHUNK Hu Ht ltac:(mlia)) as (Hd & Hd' & Hu1 & Hu2 & Hs).
    set (d := down_to_boundary _ _ _ _) in *. cbv zeta.
    set (k1 := {| cs_cmd_id := cs_cmd_id k; cs_chunk := _; cs_sent := _ |}).
    destruct (IH k1 (slice text d (zlen text - d))) as (texts & Hall & Hc & E); [done| |].
    { unfold slice. rewrite length_take, length_drop. unfold zlen in *. lia. }
    exists (slice text 0 d :: texts). split; [constructor; [|done]|].
    { split; [done|]. rewrite zlen_slice by lia. done. }
    split; [by simpl; rewrite Hc|]. rewrite E. unfold k1. cbn [cs_cmd_id cs_chunk cs_sent chunk_after body_frames].
    f_equal. rewrite <- app_assoc. do 2 f_equal. unfold shell_response_frame, body_frame.
    rewrite clip_str_short; [done|]. rewrite zlen_slice by lia. lia.
Qed.

(** ** The paging loop *)

Section Paging.
Context {W K : Type} `{SK : !ShellSink K}.
Context (run : W -> W * (list (list Z) * Outcome)) (env : W -> W).

(** Every pass writes strings, at most [B] bytes in all. *)
Definition bounded_output (B : Z) : Prop :=
  forall w, Forall utf8 (fst (snd (run w))) /\ zlen (concat (fst (snd (run w)))) <= B.

(** Paging ends, also when the output changes between passes. *)
Lemma stream_loop_ends B fuel w k skip : bounded_output B -> 0 <= skip <= B -> B - skip < Z.of_nat fuel ->
  is_Some (stream_loop fuel run env w k skip).
Proof.
  intros HB. revert w k skip. induction fuel as [|fuel IH]; intros w k skip Hs Hf.
  - lia.
  - cbn [stream_loop]. pose proof (HB w) as [Hu Hw]. destruct (run w) as [w1 [pieces oc]]. cbn [fst snd] in *.
    destruct (pass_spec pieces skip RESP_CAP Hu ltac:(lia) ltac:(mlia)) as (lo & hi & Hspec).
    destruct (pass (window_new skip RESP_CAP) pieces) as [win out]. cbn [fst snd] in Hspec.
    apply window_facts in Hspec as (_ & _ & Hc & Hm & _); [|by apply utf8_concat|lia|mlia].
    destruct (sink_push k out) as [k1 pushed]. destruct pushed; [|by eexists]. cbn [negb].
    destruct (more win) eqn:Em; cbn [negb]; [|destruct (sink_done k1 _); by eexists].
    destruct (Hm eq_refl). apply IH; lia.
Qed.

(** Texts pushed in order, up to the first one the transport refuses. *)
Fixpoint push_all (k : K) (texts : list (list Z)) : K * bool :=
  match texts with
  | [] => (k, true)
  | t :: texts => let '(k, ok) := sink_push k t in if ok then push_all k texts else (k, false)
  end.

(** When every pass writes the same text [s], the windows pushed spell it from [skip] on, and [done]
    is called once with the result; a transport that refuses a window ends the stream there. *)
Definition writes (s : list Z) (oc : Outcome) : Prop :=
  forall w, Forall utf8 (fst (snd (run w))) /\ concat (fst (snd (run w))) = s /\ snd (snd (run w)) = oc.
Lemma stream_loop_whole s oc fuel w k skip : writes s oc ->
  0 <= skip <= zlen s -> is_char_boundary s skip = true -> zlen s - skip < Z.of_nat fuel ->
  exists texts w', Forall (fun t => utf8 t /\ zlen t <= RESP_CAP) texts /\
    match push_all k texts with
    | (k', true) => slice s skip (zlen s - skip) = concat texts /\
        stream_loop fuel run env w k skip = Some (w', fst (sink_done k' (result_code oc)), oc)
    | (k', false) => concat texts `prefix_of` slice s skip (zlen s - skip) /\
        stream_loop fuel run env w k skip = Some (w', k', oc)
    end.
Proof.
  intros Hw. revert w k skip. induction fuel as [|fuel IH]; intros w k skip Hs Hb Hf; [lia|].
  cbn [stream_loop]. destruct (Hw w) as (Hu & Hc & Ho). destruct (run w) as [w1 [pieces oc']]. cbn [fst snd] in *. subst oc'.
  destruct (pass_spec pieces skip RESP_CAP Hu ltac:(lia) ltac:(mlia)) as (lo & hi & Hspec).
  destruct (pass (window_new skip RESP_CAP) pieces) as [win out]. cbn [fst snd] in Hspec.
  apply window_facts in Hspec as (Huo & Hcap & Hc0 & Hm & Hexact); [|by apply utf8_concat|lia|mlia].
  rewrite Hc in *. destruct (Hexact ltac:(lia) Hb) as (Hout & Hb' & Hend). clear Hexact.
  assert (Hle : skip + consumed win <= zlen s) by (by apply boundary_bound; [lia|]).
  assert (Hsplit : slice s skip (zlen s - skip) = out ++ slice s (skip + consumed win) (zlen s - (skip + consumed win))).
  { rewrite Hout. replace (zlen s - skip) with (consumed win + (zlen s - (skip + consumed win))) by lia.
    by rewrite slice_split by lia. }
  destruct (sink_push k out) as [k1 pushed] eqn:Ek. destruct pushed; cbn [negb].
  - destruct (more win) eqn:Em; cbn [negb].
    + destruct (Hm eq_refl) as [Hpos Hle'].
      destruct (IH (env w1) k1 (skip + consumed win)) as (texts & w' & Ht & Hres); [lia|done|lia|].
      exists (out :: texts), w'. split; [by constructor|]. cbn [push_all]. rewrite Ek.
      destruct (push_all k1 texts) as [k' [|]]; destruct Hres as [Hcat Hrun]; (split; [|done]).
      * rewrite Hsplit, Hcat. done.
      * rewrite Hsplit. simpl. by apply prefix_app.
    + exists [out], w1. split; [by repeat constructor|]. cbn [push_all]. rewrite Ek. split.
      * rewrite Hsplit, Hend, Z.sub_diag, slice_0 by done. simpl. by rewrite !app_nil_r.
      * by destruct (sink_done k1 _).
  - exists [out], w1. split; [by repeat constructor|]. cbn [push_all]. rewrite Ek. split; [|done].
    rewrite Hsplit. simpl. rewrite app_nil_r. by apply prefix_app_r.
Qed.
End Paging.

(** *** The console transport *)

Lemma console_push_all k texts : Forall (fun t => utf8 t /\ zlen t <= RESP_CAP) texts ->
  exists chunks, Forall (chunk_ok SHELL_CHUNK) chunks /\ concat chunks = concat texts /\
    push_all k texts =
      ({| cs_cmd_id := cs_cmd_id k; cs_chunk := chunk_after (cs_chunk k) chunks;
          cs_sent := cs_sent k ++ body_frames (cs_cmd_id k) (cs_chunk k) chunks |}, true).
Proof.
  intros H. revert k. induction H as [|t texts [Hu _] H IH]; intros k.
  { exists []. split; [constructor|]. split; [done|]. destruct k. simpl. by rewrite app_nil_r. }
  destruct (console_push_spec (length t) k t Hu) as (c1 & Hc1 & Hcat1 & E1); [lia|].
  cbn [push_all sink_push console_sink]. rewrite E1.
  set (k1 := {| cs_cmd_id := _; cs_chunk := _; cs_sent := _ |}).
  destruct (IH k1) as (c2 & Hc2 & Hcat2 & E2). exists (c1 ++ c2). split; [by apply Forall_app|].
  split; [simpl; by rewrite concat_app, Hcat1, Hcat2|]. rewrite E2. unfold k1. cbn [cs_cmd_id cs_chunk cs_sent].
  by rewrite body_frames_app, chunk_after_app, app_assoc.
Qed.

(** *** The radio transport *)

(** The radio sink: [rs_sent] are the chunks transmitted so far, the last one possibly undelivered.
    [delivered n] says whether the gateway confirmed the [n]-th transmission. *)
Record RadioSink := {
  rs_cmd_id : Z; rs_chunk : Z; rs_buf : list Z; rs_ok : bool; rs_lost : option Z; rs_sent : list NodeShellChunk }.
Definition radio_sink_new (cmd_id : Z) : RadioSink :=
  {| rs_cmd_id := cmd_id; rs_chunk := 0; rs_buf := []; rs_ok := true; rs_lost := None; rs_sent := [] |}.
Definition get_or_insert (o : option Z) (v : Z) : option Z := match o with Some _ => o | None => Some v end.

Section Radio.
Context `{SC : Schemas} `{RC : RadioCodec} (delivered : nat -> bool).
Definition flush (r : RadioSink) (last : bool) (result : Z) : RadioSink * bool :=
  let msg := {| chunk_cmd_id := rs_cmd_id r; chunk_result := result; chunk_chunk := rs_chunk r; chunk_last := last;
                chunk_text := to_string (rs_buf r) |} in
  match encode_node_msg (NodeShell msg) (zeros MAX_RADIO_PAYLOAD) with
  | (_, Err _) =>
      ({| rs_cmd_id := rs_cmd_id r; rs_chunk := rs_chunk r; rs_buf := rs_buf r; rs_ok := false;
          rs_lost := get_or_insert (rs_lost r) (rs_chunk r); rs_sent := rs_sent r |}, false)
  | (_, Ok _) =>
      let ok := delivered (length (rs_sent r)) in
      ({| rs_cmd_id := rs_cmd_id r; rs_chunk := wrap16 (rs_chunk r + 1); rs_buf := [];
          rs_ok := if ok then rs_ok r else false;
          rs_lost := if ok then rs_lost r else get_or_insert (rs_lost r) (rs_chunk r);
          rs_sent := rs_sent r ++ [msg] |}, ok)
  end.
(** [while !rest.is_empty()]: a turn either takes a byte or, the buffer being non-empty, flushes it. *)
Fixpoint radio_push_loop (fuel : nat) (r : RadioSink) (rest : list Z) : RadioSink * bool :=
  match fuel with
  | O => (r, false)
  | S fuel =>
      if bool_decide (rest = []) then (r, true)
      else
        let space := RADIO_SHELL_CHUNK - zlen (rs_buf r) in
        let n := down_to_boundary (length rest) rest 0 (Z.min (zlen rest) space) in
        if n =? 0 then
          let '(r, ok) := flush r false 0 in
          if ok then radio_push_loop fuel r rest else (r, false)
        else
          let r := {| rs_cmd_id := rs_cmd_id r; rs_chunk := rs_chunk r; rs_buf := rs_buf r ++ slice rest 0 n;
                      rs_ok := rs_ok r; rs_lost := rs_lost r; rs_sent := rs_sent r |} in
          let rest := slice rest n (zlen rest - n) in
          if zlen (rs_buf r) =? RADIO_SHELL_CHUNK then
            let '(r, ok) := flush r false 0 in
            if ok then radio_push_loop fuel r rest else (r, false)
          else radio_push_loop fuel r rest
  end.
#[export] Instance radio_sink : ShellSink RadioSink := {
  sink_push r text := if negb (rs_ok r) then (r, false) else radio_push_loop (S (2 * length text)) r text;
  sink_done r result := if negb (rs_ok r) then (r, false) else flush r true result;
}.
End Radio.

Lemma zlen_to_string s : zlen (lit (to_string s)) = zlen s.
Proof. unfold lit, to_string, zlen. rewrite list_ascii_of_string_of_list_ascii, !length_map. done. Qed.

(** What postcard documents of a shell chunk: which are in range, and their encoded size. *)
Class NodeShellSize `{!Postcard NodeMsg} := {
  node_shell_ok : forall m, u16_ok (chunk_cmd_id m) -> u8_ok (chunk_result m) -> u16_ok (chunk_chunk m) ->
    zlen (lit (chunk_text m)) <= u16_max -> representable (NodeShell m);
  node_shell_size : forall m, zlen (serialize (NodeShell m)) =
    1 + varint_len (chunk_cmd_id m) + 1 + varint_len (chunk_chunk m) + 1 + str_size (zlen (lit (chunk_text m)));
}.

Definition node_frame (cmd_id result chunk : Z) (last : bool) (text : list Z) : NodeShellChunk :=
  {| chunk_cmd_id := cmd_id; chunk_result := result; chunk_chunk := chunk; chunk_last := last; chunk_text := to_string text |}.
Fixpoint node_frames (cmd_id chunk : Z) (texts : list (list Z)) : list NodeShellChunk :=
  match texts with
  | [] => []
  | t :: texts => node_frame cmd_id 0 chunk false t :: node_frames cmd_id (wrap16 (chunk + 1)) texts
  end.
Lemma node_frames_snoc cmd_id chunk l t :
  node_frames cmd_id chunk (l ++ [t]) = node_frames cmd_id chunk l ++ [node_frame cmd_id 0 (chunk_after chunk l) false t].
Proof. revert chunk. induction l as [|x l IH]; intros chunk; [done|]. cbn [app node_frames chunk_after]. by rewrite IH. Qed.
Lemma length_node_frames cmd_id chunk l : length (node_frames cmd_id chunk l) = length l.
Proof. revert chunk. induction l as [|x l IH]; intros chunk; [done|]. cbn [node_frames length]. by rewrite IH. Qed.
Lemma chunk_after_ok chunk l : u16_ok chunk -> u16_ok (chunk_after chunk l).
Proof. revert chunk. induction l as [|x l IH]; intros chunk H; [done|]. apply IH. auto with tower. Qed.
Section RadioLaws.
Context `{SC : Schemas} `{RC : RadioCodec} `{RL : !RadioCodecLaws} `{NS : !NodeShellSize}.
Context (delivered : nat -> bool) (cmd_id : Z) (Hcmd : u16_ok cmd_id).

(** What goes on the air for a message: the schema tag and its encoding, within the radio MTU. *)
Definition fits_radio (m : NodeShellChunk) : Prop :=
  exists buf n, encode_node_msg (NodeShell m) (zeros MAX_RADIO_PAYLOAD) = (buf, Ok n) /\ n <= MAX_RADIO_PAYLOAD /\
    slice buf 0 n = le_bytes 2 RADIO_TAG ++ serialize (NodeShell m).
(** A chunk of up to [RADIO_SHELL_CHUNK] bytes always does. *)
Lemma node_frame_fits result chunk last text : u8_ok result -> u16_ok chunk -> zlen text <= RADIO_SHELL_CHUNK ->
  fits_radio (node_frame cmd_id result chunk last text).
Proof.
  intros Hr Hc Ht. pose proof (zlen_nonneg text). unfold fits_radio, encode_node_msg.
  assert (Hrep : representable (NodeShell (node_frame cmd_id result chunk last text))).
  { apply node_shell_ok; try done. cbn [node_frame chunk_text]. rewrite zlen_to_string. mlia. }
  destruct (encode_envelope_spec _ (zeros MAX_RADIO_PAYLOAD) Hrep) as [[Hle ->]|[Hlt _]].
  - eexists _, _. split; [done|]. split; [lia|]. pose proof (zlen_nonneg (serialize (NodeShell (node_frame cmd_id result chunk last text)))).
    set (body := serialize _) in *. pose proof (zlen_app (le_bytes 2 RADIO_TAG) body) as Hz. rewrite radio_tag_bytes in Hz. rewrite <- Hz.
    apply slice_patch_same; [lia | rewrite Hz; lia].
  - exfalso. rewrite node_shell_size, zlen_zeros in Hlt by done.
    cbn [node_frame chunk_cmd_id chunk_chunk chunk_text] in Hlt. rewrite zlen_to_string in Hlt.
    pose proof (varint_len_u16 cmd_id Hcmd). pose proof (varint_len_u16 chunk Hc). unfold str_size in Hlt.
    rewrite (varint_len_small (zlen text)) in Hlt by mlia. mlia.
Qed.
Lemma node_frame_encodes result chunk last text : u8_ok result -> u16_ok chunk -> zlen text <= RADIO_SHELL_CHUNK ->
  exists out n, encode_node_msg (NodeShell (node_frame cmd_id result chunk last text)) (zeros MAX_RADIO_PAYLOAD) = (out, Ok n).
Proof. intros Hr Hc Ht. destruct (node_frame_fits result chunk last text Hr Hc Ht) as (o & n & ? & _). by exists o, n. Qed.
Lemma node_frames_fit texts : forall chunk, u16_ok chunk -> Forall (chunk_ok RADIO_SHELL_CHUNK) texts ->
  Forall fits_radio (node_frames cmd_id chunk texts).
Proof.
  induction texts as [|t texts IH]; intros chunk Hc Ht; [constructor|]. apply Forall_cons_1 in Ht as [(_ & _ & Hl) Ht]. cbn [node_frames].
  constructor; [by apply node_frame_fits | apply IH; auto with tower].
Qed.

(** The sink after [s] was pushed: every chunk but the text still buffered is on the air and
    confirmed; or the last transmitted chunk was not confirmed, and nothing follows it. *)
Definition sink_open (r : RadioSink) (s : list Z) : Prop :=
  exists chunks, rs_cmd_id r = cmd_id /\ rs_chunk r = chunk_after 0 chunks /\ rs_sent r = node_frames cmd_id 0 chunks /\
    Forall (chunk_ok RADIO_SHELL_CHUNK) chunks /\ rs_ok r = true /\ rs_lost r = None /\
    concat chunks ++ rs_buf r = s /\ utf8 (rs_buf r) /\ zlen (rs_buf r) < RADIO_SHELL_CHUNK /\
    forall n, (n < length chunks)%nat -> delivered n = true.
Definition sink_cut (r : RadioSink) (s : list Z) : Prop :=
  exists chunks t, rs_sent r = node_frames cmd_id 0 (chunks ++ [t]) /\ Forall (chunk_ok RADIO_SHELL_CHUNK) (chunks ++ [t]) /\
    rs_ok r = false /\ rs_lost r = Some (chunk_after 0 chunks) /\ concat (chunks ++ [t]) `prefix_of` s /\
    (forall n, (n < length chunks)%nat -> delivered n = true) /\ delivered (length chunks) = false.

(** Flushing a full or non-empty buffer. *)
Lemma flush_spec r chunks s : rs_cmd_id r = cmd_id -> rs_chunk r = chunk_after 0 chunks -> rs_sent r = node_frames cmd_id 0 chunks ->
  Forall (chunk_ok RADIO_SHELL_CHUNK) chunks -> rs_ok r = true -> rs_lost r = None -> concat chunks ++ rs_buf r = s ->
  chunk_ok RADIO_SHELL_CHUNK (rs_buf r) -> (forall n, (n < length chunks)%nat -> delivered n = true) ->
  match flush delivered r false 0 with
  | (r', true) => sink_open r' s /\ rs_buf r' = []
  | (r', false) => forall s', s `prefix_of` s' -> sink_cut r' s'
  end.
Proof.
  intros Hc Hk Hs Hall Hok Hlost Hcat Hbuf Hdel. unfold flush. cbv zeta.
  change {| chunk_cmd_id := rs_cmd_id r; chunk_result := 0; chunk_chunk := rs_chunk r; chunk_last := false; chunk_text := to_string (rs_buf r) |}
    with (node_frame (rs_cmd_id r) 0 (rs_chunk r) false (rs_buf r)).
  rewrite Hc. destruct (node_frame_encodes 0 (rs_chunk r) false (rs_buf r)) as (o & n & ->);
    [done | rewrite Hk; by apply chunk_after_ok | by destruct Hbuf as [_ [_ ?]]|].
  rewrite Hs, length_node_frames, Hk.
  assert (Hsn : node_frames cmd_id 0 chunks ++ [node_frame cmd_id 0 (chunk_after 0 chunks) false (rs_buf r)] =
    node_frames cmd_id 0 (chunks ++ [rs_buf r])) by by rewrite node_frames_snoc.
  assert (Hall' : Forall (chunk_ok RADIO_SHELL_CHUNK) (chunks ++ [rs_buf r])) by (apply Forall_app; split; [done|]; by constructor).
  assert (Hcat' : concat (chunks ++ [rs_buf r]) = s) by (rewrite concat_app; simpl; by rewrite app_nil_r).
  rewrite Hsn, Hok, Hlost. destruct (delivered (length chunks)) eqn:Ed; cbn [get_or_insert].
  - split; [|done]. exists (chunks ++ [rs_buf r]). cbn [rs_cmd_id rs_chunk rs_buf rs_ok rs_lost rs_sent].
    rewrite chunk_after_app, app_nil_r. split_and!; try done; try mlia; auto with tower.
    intros m Hm. rewrite length_app in Hm. simpl in Hm. destruct (decide (m = length chunks)) as [->|]; [done|]. apply Hdel. lia.
  - intros s' Hp. exists chunks, (rs_buf r). cbn [rs_cmd_id rs_chunk rs_buf rs_ok rs_lost rs_sent].
    split_and!; try done. by rewrite Hcat'.
Qed.

Lemma radio_push_spec fuel r s rest : sink_open r s -> utf8 rest ->
  (2 * length rest + (if bool_decide (rs_buf r = []) && negb (bool_decide (rest = [])) then 0 else 1) <= fuel)%nat ->
  match radio_push_loop delivered fuel r rest with
  | (r', true) => sink_open r' (s ++ rest)
  | (r', false) => sink_cut r' (s ++ rest)
  end.
Proof.
  revert r s rest. induction fuel as [|fuel IH]; intros r s rest Hr Hu Hf.
  { exfalso. destruct rest; simpl in Hf; [|lia]. rewrite andb_false_r in Hf. lia. }
  cbn [radio_push_loop]. destruct (bool_decide (rest = [])) eqn:Hne; bool_hyps.
  { subst rest. by rewrite app_nil_r. }
  pose proof Hr as (chunks & Hc & Hk & Hs & Hall & Hok & Hlost & Hcat & Hub & Hlb & Hdel).
  set (n := down_to_boundary _ _ _ _). pose proof (zlen_nonneg (rs_buf r)). cbv zeta. split_if.
  - (* no room for the next character: the buffer is not empty *)
    assert (Hbne : rs_buf r <> []).
    { intros E. destruct (clip_front rest (RADIO_SHELL_CHUNK - zlen (rs_buf r)) Hu Hne) as [Hn _]; [rewrite E; change (zlen []) with 0; mlia|].
      fold n in Hn. lia. }
    assert (zlen (rs_buf r) <> 0) by (intros ?%zlen_0; done).
    pose proof (flush_spec r chunks s Hc Hk Hs Hall Hok Hlost Hcat ltac:(split; [done | lia]) Hdel) as Hfl.
    destruct (flush delivered r false 0) as [r' [|]].
    + destruct Hfl as [Ho Hb]. apply IH; [done..|]. rewrite Hb, bool_decide_eq_true_2, bool_decide_eq_false_2 by done.
      rewrite bool_decide_eq_false_2 in Hf by done. simpl in *. lia.
    + apply Hfl. by apply prefix_app_r.
  - destruct (down_to_boundary_spec (length rest) rest 0 (Z.min (zlen rest) (RADIO_SHELL_CHUNK - zlen (rs_buf r))))
      as (Hn & Hnb & _); [pose proof (zlen_nonneg rest); lia | unfold zlen; lia|]. fold n in Hn, Hnb.
    assert (Hbd : is_char_boundary rest n = true) by (destruct Hnb; [lia | done]).
    assert (Hf2 : (2 * length rest <= S fuel)%nat) by (clear - Hf; lia).
    set (r1 := {| rs_cmd_id := _; rs_chunk := _; rs_buf := _; rs_ok := _; rs_lost := _; rs_sent := _ |}).
    set (rest1 := slice rest n (zlen rest - n)).
    assert (Hsplit : rest = slice rest 0 n ++ rest1).
    { rewrite <- (slice_all rest) at 1. replace (zlen rest) with (n + (zlen rest - n)) at 1 by lia. by rewrite slice_split by lia. }
    assert (Hu0 : utf8 (slice rest 0 n)).
    { pose proof (utf8_slice rest 0 n Hu ltac:(lia) (boundary_0 rest) Hbd) as Hx. by rewrite Z.sub_0_r in Hx. }
    assert (Hu1 : utf8 rest1) by (apply utf8_slice; [done | lia | done | apply boundary_len]).
    assert (Hlen1 : (length rest1 < length rest)%nat).
    { unfold rest1, slice. rewrite length_take, length_drop. unfold zlen in *. lia. }
    assert (Hzb : zlen (rs_buf r1) = zlen (rs_buf r) + n).
    { unfold r1. cbn [rs_buf]. rewrite zlen_app, zlen_slice by lia. lia. }
    assert (Hub1 : utf8 (rs_buf r1)) by (unfold r1; cbn [rs_buf]; auto with tower).
    assert (Hcat1 : concat chunks ++ rs_buf r1 = s ++ slice rest 0 n).
    { unfold r1. cbn [rs_buf]. by rewrite app_assoc, Hcat. }
    rewrite Hsplit, app_assoc. split_if.
    + pose proof (flush_spec r1 chunks (s ++ slice rest 0 n) Hc Hk Hs Hall Hok Hlost Hcat1 ltac:(split; [done | mlia]) Hdel) as Hfl.
      destruct (flush delivered r1 false 0) as [r' [|]].
      * destruct Hfl as [Ho Hb]. apply IH; [done..|]. split_if; lia.
      * apply Hfl. by apply prefix_app_r.
    + apply IH; [|done|split_if; lia].
      exists chunks. unfold r1 in *. cbn [rs_cmd_id rs_chunk rs_buf rs_ok rs_lost rs_sent] in *. split_and!; try done; lia.
Qed.

Lemma sink_cut_prefix r s s' : sink_cut r s -> s `prefix_of` s' -> sink_cut r s'.
Proof. intros (chunks & t & ? & ? & ? & ? & ? & ? & ?) Hp. exists chunks, t. split_and!; try done. by etrans. Qed.
Lemma radio_push_all r s texts : sink_open r s -> Forall (fun t => utf8 t /\ zlen t <= RESP_CAP) texts ->
  match push_all (SK := radio_sink delivered) r texts with
  | (r', true) => sink_open r' (s ++ concat texts)
  | (r', false) => sink_cut r' (s ++ concat texts)
  end.
Proof.
  intros Hr H. revert r s Hr. induction H as [|t texts [Hu _] H IH]; intros r s Hr; [simpl; by rewrite app_nil_r|].
  assert (Hok : rs_ok r = true) by (by destruct Hr as (? & ? & ? & ? & ? & ? & ?)).
  cbn [push_all sink_push radio_sink]. rewrite Hok. cbn [negb].
  pose proof (radio_push_spec (S (2 * length t)) r s t Hr Hu ltac:(split_if; lia)) as Hp.
  destruct (radio_push_loop delivered (S (2 * length t)) r t) as [r1 [|]].
  - specialize (IH r1 (s ++ t) Hp). simpl. by rewrite app_assoc.
  - simpl. rewrite app_assoc. eapply sink_cut_prefix; [done|]. by apply prefix_app_r.
Qed.
Lemma radio_sink_new_open : sink_open (radio_sink_new cmd_id) [].
Proof. exists []. cbn. split_and!; try done; auto with tower; lia. Qed.
End RadioLaws.

(** ** Settings table *)

Inductive Kind :=
| KStr (max : Z)
| KUint (min max : Z)
| KInt (min max : Z)
| KBool
| KEnum (choices : list (list Z))
| KAddr.
Record Setting := { set_key : Z; set_name : list Z; set_kind : Kind; set_default : list Z }.
(** The SDK's settings followed by the app's. *)
Definition SettingsTable : Type := list Setting.
Definition table_iter (base app : list Setting) : SettingsTable := base ++ app.
Definition table_find (t : SettingsTable) (name : list Z) : option Setting :=
  find (fun s => bool_decide (set_name s = name)) t.

(** ** TAB completion *)

Definition MAX_CANDIDATES : Z := 16.
(** [upto.rfind([' ', '\t'])]. *)
Fixpoint rfind_sep (s : list Z) : option Z :=
  match s with
  | [] => None
  | b :: s =>
      match rfind_sep s with
      | Some i => Some (i + 1)
      | None => if (b =? 32) || (b =? 9) then Some 0 else None
      end
  end.
#[local] Abbreviation CandB := (prod (list Z) CandidateKind).
(** The [push] closure: the candidates and the budget after it, and whether it was admitted. *)
Definition push_candidate (cb : list CandB * CompletionBudget) (c : CandB) : (list CandB * CompletionBudget) * bool :=
  let '(cands, budget) := cb in
  if zlen cands <? MAX_CANDIDATES then
    let '(budget, ok) := try_add budget (zlen (fst c)) in
    if ok then ((cands ++ [c], budget), true) else ((cands, budget), false)
  else ((cands, budget), false).
(** [for e in items { if keep && !push(mk e) { more = true; break } }]. *)
Fixpoint offer_all {A} (keep : list CandB -> A -> bool) (mk : A -> CandB) (items : list A) (cb : list CandB * CompletionBudget)
    : (list CandB * CompletionBudget) * bool :=
  match items with
  | [] => (cb, false)
  | e :: items =>
      if keep (fst cb) e then
        let '(cb, ok) := push_candidate cb (mk e) in
        if ok then offer_all keep mk items cb else (cb, true)
      else offer_all keep mk items cb
  end.

(** The start of the token being completed. *)
Definition partial_start (upto : list Z) : Z := match rfind_sep upto with Some i => i + 1 | None => 0 end.

Section Complete.
Context {W : Type}.
Definition entry_candidate (e : Entry W) : CandB :=
  (entry_name e, match e with Menu _ _ => KMenu | Cmd _ => KCommand end).
(** The candidates for the token being completed, whether the list was cut, and where the token
    starts. *)
Definition candidates (base app : list (Entry W)) (settings : SettingsTable) (upto : list Z) : list CandB * bool * Z :=
  let start := partial_start upto in
  let partial := slice upto start (zlen upto - start) in
  let prefix_toks := tokenize (slice upto 0 start) in
  let cb := ([], budget_new MAX_PAYLOAD) in
  match resolve base prefix_toks app with
  | RMenu a b =>
      let '((cands, _), more) :=
        offer_all (fun cands e => starts_with (entry_name e) partial &&
                     negb (existsb (fun c => bool_decide (fst c = entry_name e)) cands))
          entry_candidate (a ++ b) cb in
      (cands, more, start)
  | RCmd cmd _ =>
      match cmd_args cmd with
      | ANone => ([], false, start)
      | Names names =>
          let '((cands, _), more) := offer_all (fun _ a => starts_with a partial) (fun a => (a, KArg)) names cb in
          (cands, more, start)
      | ASettings assign =>
          match (if assign then find_byte 61 partial else None) with
          | Some eq =>
              let token_start := start + eq + 1 in
              let vpart := slice partial (eq + 1) (zlen partial - (eq + 1)) in
              let vals := match table_find settings (slice partial 0 eq) with
                          | Some s => match set_kind s with
                                      | KEnum choices => choices
                                      | KBool => [lit "true"; lit "false"]
                                      | KAddr => [lit "auto"; lit "random"]
                                      | _ => []
                                      end
                          | None => []
                          end in
              let '((cands, _), more) := offer_all (fun _ v => starts_with v vpart) (fun v => (v, KValue)) vals cb in
              (cands, more, token_start)
          | None =>
              let kind := if assign then KArg else KValue in
              let '((cands, _), more) :=
                offer_all (fun _ s => starts_with (set_name s) partial) (fun s => (set_name s, kind)) settings cb in
              (cands, more, start)
          end
      end
  | NoMatch => ([], false, start)
  end.
Definition complete (base app : list (Entry W)) (settings : SettingsTable) (req_id : Z) (line : list Z) (cursor : Z)
    : ShellCompletions :=
  let upto := slice line 0 (clip_idx line cursor) in
  let '(cands, more, token_start) := candidates base app settings upto in
  {| compl_req_id := req_id; compl_token_start := wrap16 token_start;
     compl_common_prefix := to_string (common_prefix (map fst cands));
     compl_candidates := map (fun c => {| cand_text := to_string (fst c); cand_kind := snd c |}) cands;
     compl_more := more |}.
End Complete.

(** What postcard documents of the encoded size of a completion reply: integers as varints,
    strings and lists with a varint length, booleans and unit variants as one byte. *)
Class CompletionsSize `{!Postcard ShellCompletions} := completions_size : forall r : ShellCompletions,
  zlen (serialize r) =
    varint_len (compl_req_id r) + varint_len (compl_token_start r)
    + str_size (zlen (lit (compl_common_prefix r)))
    + varint_len (zlen (compl_candidates r)) + cands_size (map (fun c => zlen (lit (cand_text c))) (compl_candidates r))
    + 1.

(** *** Every candidate list stays within its budget *)

Definition within_budget (cb : list CandB * CompletionBudget) : Prop :=
  budget_spec MAX_PAYLOAD (map (fun c => zlen (fst c)) (fst cb)) (snd cb) /\ zlen (fst cb) <= MAX_CANDIDATES /\
  cb_used (snd cb) <= MAX_PAYLOAD.
Lemma push_candidate_within cb c : within_budget cb ->
  within_budget (fst (push_candidate cb c)) /\
  fst (fst (push_candidate cb c)) = fst cb ++ (if snd (push_candidate cb c) then [c] else []).
Proof.
  destruct cb as [cands b]. intros (Hb & Hl & Hu). unfold push_candidate. cbn [fst snd] in *.
  destruct (zlen cands <? MAX_CANDIDATES) eqn:E; bool_hyps; [|cbn [fst snd]; by rewrite app_nil_r].
  pose proof (try_add_spec _ _ b (zlen (fst c)) Hb) as Ht. destruct (try_add b (zlen (fst c))) as [b' [|]]; cbn [fst snd].
  - destruct Ht as [Ht Hu']. split; [|done]. unfold within_budget; cbn [fst snd]. split; [by rewrite map_app|]. split; [|done].
    rewrite zlen_app. change (zlen [c]) with 1. lia.
  - subst. by rewrite app_nil_r.
Qed.
Lemma offer_all_within {A} keep (mk : A -> CandB) items cb : within_budget cb ->
  within_budget (fst (offer_all keep mk items cb)) /\
  Forall (fun c => In c (fst cb) \/ exists e, In e items /\ c = mk e /\ exists l, keep l e = true) (fst (fst (offer_all keep mk items cb))).
Proof.
  revert cb. induction items as [|e items IH]; intros cb H; cbn [offer_all].
  { split; [done|]. apply List.Forall_forall. by left. }
  assert (Hweak : forall cb', Forall (fun c => In c (fst cb) \/ exists e', In e' items /\ c = mk e' /\ exists l, keep l e' = true) cb' ->
    Forall (fun c => In c (fst cb) \/ exists e', In e' (e :: items) /\ c = mk e' /\ exists l, keep l e' = true) cb').
  { intros cb'. apply Forall_impl. intros c [?|(e' & ? & ?)]; [by left | right; exists e'; split; [by right | done]]. }
  destruct (keep (fst cb) e) eqn:Ek.
  - destruct (push_candidate_within cb (mk e) H) as [Hw Hf]. destruct (push_candidate cb (mk e)) as [cb1 ok]. cbn [fst snd] in *.
    destruct ok.
    + destruct (IH cb1 Hw) as [Hw2 Ha]. split; [done|]. eapply Forall_impl; [|exact Ha].
      intros c [Hin|(e' & ? & ?)]; [|right; exists e'; split; [by right | done]].
      rewrite Hf in Hin. apply in_app_iff in Hin as [?|[<-|[]]]; [by left|]. right. exists e. split; [by left|]. eauto.
    + cbn [fst snd]. split; [done|]. rewrite Hf, app_nil_r. apply List.Forall_forall. by left.
  - destruct (IH cb H) as [Hw Ha]. split; [done | by apply Hweak].
Qed.
Lemma within_budget_start : within_budget ([], budget_new MAX_PAYLOAD).
Proof. split; [apply budget_new_spec|]. by vm_compute. Qed.

Section CompleteLaws.
Context {W : Type} (base app : list (Entry W)) (settings : SettingsTable).

(** Every name the shell knows is a string. *)
Fixpoint entry_utf8 (e : Entry W) : Prop :=
  match e with
  | Menu n ch => utf8 n /\ (fix all l := match l with [] => True | e :: l => entry_utf8 e /\ all l end) ch
  | Cmd c => utf8 (cmd_name c) /\ match cmd_args c with Names ns => Forall utf8 ns | _ => True end
  end.
Definition setting_utf8 (s : Setting) : Prop :=
  utf8 (set_name s) /\ match set_kind s with KEnum cs => Forall utf8 cs | _ => True end.

#[local] Ltac offer_bound H :=
  match goal with |- context [offer_all ?k ?m ?l _] => specialize (H _ k m l) end;
  destruct (offer_all _ _ _ _) as [[? ?] ?].
(** The candidates of a reply are within the budget, whatever the line. *)
Lemma candidates_within upto :
  let '(cands, _, _) := candidates base app settings upto in exists b, within_budget (cands, b).
Proof.
  unfold candidates. cbv zeta. pose proof within_budget_start as H0.
  assert (Hoff : forall A keep (mk : A -> CandB) items,
    exists b, within_budget (fst (fst (offer_all keep mk items ([], budget_new MAX_PAYLOAD))), b)).
  { intros A keep mk items. destruct (offer_all_within keep mk items _ H0) as [Hw _].
    destruct (offer_all _ _ _ _) as [[cands b] more]. by exists b. }
  destruct (resolve _ _ _) as [a b|cmd i|].
  - by offer_bound Hoff.
  - destruct (cmd_args cmd) as [|names|assign]; [by eexists | by offer_bound Hoff|].
    destruct (if assign then _ else _) as [eq|]; by offer_bound Hoff.
  - by eexists.
Qed.
End CompleteLaws.

Lemma common_prefix_le texts t : head texts = Some t -> zlen (common_prefix texts) <= zlen t.
Proof.
  destruct texts as [|first texts]; [done|]. intros [= ->]. cbn [common_prefix]. pose proof (zlen_nonneg t).
  destruct (common_len_fold t texts (zlen t) ltac:(lia)) as (u & r & Hur & Hlen & Hle & _).
  rewrite <- Hlen. pose proof (zlen_nonneg u).
  destruct (down_to_boundary_spec (length t) t 0 (zlen u)) as (Hd & _); [lia | unfold zlen in *; lia|].
  rewrite zlen_slice; lia.
Qed.

(** *** The walk accepts what completion offers *)

Lemma rfind_sep_spec s : match rfind_sep s with
  | Some i => exists u b v, s = u ++ b :: v /\ zlen u = i /\ (b = 32 \/ b = 9)
  | None => Forall (fun b => b <> 32 /\ b <> 9) s
  end.
Proof.
  induction s as [|x s IH]; cbn [rfind_sep]; [constructor|]. destruct (rfind_sep s) as [i|].
  - destruct IH as (u & b & v & -> & Hu & Hb). exists (x :: u), b, v. rewrite zlen_cons. split; [done|]. split; [lia | done].
  - destruct ((x =? 32) || (x =? 9)) eqn:E; bool_hyps.
    + exists [], x, s. split; [done|]. split; [done|]. destruct E; bool_hyps; tauto.
    + by constructor.
Qed.

Section Walk.
Context {W : Type}.

Lemma menu_children_In (level : list (Entry W)) n ch : In (Menu n ch) level -> is_Some (menu_children level n).
Proof.
  induction level as [|e level IH]; [done|]. intros [->|H]; cbn [menu_children]; [by rewrite bool_decide_eq_true_2|].
  destruct e; [case_bool_decide; [done|]|]; by apply IH.
Qed.
Lemma find_cmd_In (level : list (Entry W)) c : In (Cmd c) level -> is_Some (find_cmd_in level (cmd_name c)).
Proof.
  induction level as [|e level IH]; [done|]. intros [->|H]; cbn [find_cmd_in]; [by rewrite bool_decide_eq_true_2|].
  destruct e; [|case_bool_decide; [done|]]; by apply IH.
Qed.
Lemma resolve_loop_snoc (toks : list (list Z)) t i (p s a b : list (Entry W)) : resolve_loop toks i p s = RMenu a b ->
  (exists e, In e (a ++ b) /\ entry_name e = t) -> resolve_loop (toks ++ [t]) i p s <> NoMatch.
Proof.
  revert i p s. induction toks as [|x toks IH]; intros i p s H (e & He & Hn).
  - cbn [resolve_loop] in H. injection H as -> ->. cbn [app resolve_loop].
    destruct (menu_children a t) eqn:Ea; [done|]. destruct (menu_children b t) eqn:Eb; [done|]. cbn [orb].
    destruct e as [n ch|c]; cbn [entry_name] in Hn; subst t.
    + apply in_app_iff in He as [He|He]; apply menu_children_In in He as [? He]; congruence.
    + apply find_cmd_In in He as [c' Hc]. unfold find_cmd. by rewrite Hc.
  - cbn [app resolve_loop] in *. destruct (_ || _); [apply (IH _ _ _ H); eauto|]. by destruct (find_cmd _ _ _).
Qed.

(** The text before the token being completed ends with a separator, or is empty. *)
Lemma tokens_before_cursor upto w : utf8 upto -> word w ->
  let start := partial_start upto in
  split_whitespace (slice upto 0 start ++ w) = split_whitespace (slice upto 0 start) ++ [w].
Proof.
  intros Hu Hw start. pose proof (rfind_sep_spec upto) as Hr. unfold start, partial_start. destruct (rfind_sep upto) as [i|].
  - destruct Hr as (u & b & v & -> & Hi & Hb).
    assert (Hsl : slice (u ++ b :: v) 0 (i + 1) = u ++ [b]).
    { pose proof (zlen_nonneg u). rewrite slice_split by lia. rewrite <- Hi at 1. rewrite slice_app_l, slice_app_r by lia.
      rewrite Z.add_0_l, Hi, Z.sub_diag. done. }
    assert (Hb' : is_whitespace b = true /\ 0 <= b < 128) by (destruct Hb as [-> | ->]; done).
    destruct (utf8_cut_ascii u b v ltac:(tauto) Hu) as [Hub _].
    rewrite Hsl, <- app_assoc. cbn [app]. rewrite !split_whitespace_sep by (try apply Hb'; auto with tower).
    rewrite (split_whitespace_one w) by done. change (split_whitespace []) with (@nil (list Z)). by rewrite app_nil_r.
  - rewrite slice_0. cbn [app]. by rewrite split_whitespace_one.
Qed.
End Walk.

(** ** The property theorems *)

Section Theorems.
Context {W : Type} (base app : list (Entry W)).

(** A line the dispatcher runs: short enough, few enough tokens, and its tokens reach [cmd]. *)
Definition runs (line : list Z) (origin : Origin) (cmd : Command W) (args : list (list Z)) : Prop :=
  zlen line <= MAX_LINE /\ zlen (split_whitespace line) <= MAX_TOKENS /\
  (console_only cmd = true -> origin = Console) /\
  exists i, resolve base (tokenize line) app = RCmd cmd i /\ args = drop (Z.to_nat i) (tokenize line).
Lemma stream_with_runs {K} `{SK : !ShellSink K} fuel env line origin cmd args w k : runs line origin cmd args ->
  stream_with fuel env base app line origin w k = stream_loop fuel (cmd_run cmd origin args) env w k 0.
Proof.
  intros (Hl & Ht & Hco & i & Hr & ->). unfold stream_with.
  replace (MAX_LINE <? zlen line) with false by (symmetry; apply Z.ltb_ge; lia).
  replace (MAX_TOKENS <? _) with false by (symmetry; apply Z.ltb_ge; lia).
  rewrite Hr. destruct (console_only cmd) eqn:E; [|done]. by rewrite (Hco eq_refl).
Qed.

(** A console command's response reaches the host whole, however long it is: when every run of the
    handler writes the same text, paging ends, and the frames sent carry that text cut into
    consecutively numbered non-empty chunks of whole characters, followed by exactly one final frame
    with [last] and the result. *)
Theorem console_response_whole fuel env line cmd args w cmd_id s oc :
  runs line Console cmd args -> writes (cmd_run cmd Console args) s oc -> zlen s < Z.of_nat fuel ->
  exists w' chunks, Forall (chunk_ok SHELL_CHUNK) chunks /\ concat chunks = s /\
    stream_with fuel env base app line Console w {| cs_cmd_id := cmd_id; cs_chunk := 0; cs_sent := [] |} =
      Some (w', {| cs_cmd_id := cmd_id; cs_chunk := chunk_after 0 chunks;
                   cs_sent := body_frames cmd_id 0 chunks ++
                     [shell_response_frame cmd_id (result_code oc) (chunk_after 0 chunks) true []] |}, oc).
Proof.
  intros Hrun Hw Hf. rewrite (stream_with_runs _ _ _ _ _ _ _ _ Hrun).
  pose proof (zlen_nonneg s).
  destruct (stream_loop_whole (cmd_run cmd Console args) env s oc fuel w
    {| cs_cmd_id := cmd_id; cs_chunk := 0; cs_sent := [] |} 0 Hw ltac:(lia) (boundary_0 s) ltac:(lia)) as (texts & w' & Ht & Hres).
  destruct (console_push_all {| cs_cmd_id := cmd_id; cs_chunk := 0; cs_sent := [] |} texts Ht) as (chunks & Hc & Hcat & E).
  rewrite E in Hres. destruct Hres as [Hs Hres]. rewrite Z.sub_0_r, slice_all in Hs.
  exists w', chunks. split; [done|]. split; [by rewrite Hcat|]. exact Hres.
Qed.

(** C23. A remote-shell response over the radio is whole or visibly cut: the transmitted chunks spell the
    handler's text in order and the final chunk carries the rest and the result; or some chunk was not
    confirmed, and then it is the last one transmitted, its number is recorded as lost, and the host
    has a prefix of the text without a final chunk. Everything transmitted encodes, tag and body, within
    the radio MTU. The handler is one that keeps the paging contract: each of its runs for the line, from
    whatever state the last left, writes the same text [s] and ends the same way. *)
Theorem radio_response_whole_or_cut `{SC : Schemas} `{RC : RadioCodec} `{!RadioCodecLaws} `{!NodeShellSize}
    (delivered : nat -> bool) fuel env line cmd args w cmd_id s oc :
  runs line Remote cmd args -> writes (cmd_run cmd Remote args) s oc -> zlen s < Z.of_nat fuel ->
  u16_ok cmd_id -> u8_ok (result_code oc) ->
  exists w' r, stream_with (SK := radio_sink delivered) fuel env base app line Remote w (radio_sink_new cmd_id) = Some (w', r, oc) /\
    Forall fits_radio (rs_sent r) /\
    ((exists chunks rest, Forall (chunk_ok RADIO_SHELL_CHUNK) chunks /\ concat chunks ++ rest = s /\
        utf8 rest /\ zlen rest < RADIO_SHELL_CHUNK /\
        rs_sent r = node_frames cmd_id 0 chunks ++ [node_frame cmd_id (result_code oc) (chunk_after 0 chunks) true rest] /\
        forall n, (n < length chunks)%nat -> delivered n = true) \/
     sink_cut delivered cmd_id r s).
Proof.
  intros Hrun Hw Hf Hcmd Hoc. rewrite (stream_with_runs _ _ _ _ _ _ _ _ Hrun). pose proof (zlen_nonneg s).
  destruct (stream_loop_whole (SK := radio_sink delivered) (cmd_run cmd Remote args) env s oc fuel w
    (radio_sink_new cmd_id) 0 Hw ltac:(lia) (boundary_0 s) ltac:(lia)) as (texts & w' & Ht & Hres).
  pose proof (radio_push_all delivered cmd_id Hcmd _ [] texts (radio_sink_new_open delivered cmd_id) Ht) as Hp. rewrite app_nil_l in Hp.
  destruct (push_all _ texts) as [r' [|]]; destruct Hres as [Hs Hres]; rewrite Z.sub_0_r, slice_all in Hs.
  - exists w'. eexists. split; [exact Hres|]. rewrite <- Hs in Hp.
    destruct Hp as (chunks & Hc & Hk & Hse & Hall & Hok & Hlost & Hcat & Hub & Hlb & Hdel).
    enough (Hsent : rs_sent (fst (@sink_done _ (radio_sink delivered) r' (result_code oc))) =
      node_frames cmd_id 0 chunks ++ [node_frame cmd_id (result_code oc) (chunk_after 0 chunks) true (rs_buf r')]).
    { split; [|left; exists chunks, (rs_buf r'); split_and!; done]. rewrite Hsent. apply Forall_app. split; [by apply node_frames_fit|].
      constructor; [|constructor]. apply node_frame_fits; [done | done | by apply chunk_after_ok | lia]. }
    cbn [sink_done radio_sink]. rewrite Hok. cbn [negb]. unfold flush. cbv zeta.
    change {| chunk_cmd_id := rs_cmd_id r'; chunk_result := result_code oc; chunk_chunk := rs_chunk r'; chunk_last := true; chunk_text := to_string (rs_buf r') |}
      with (node_frame (rs_cmd_id r') (result_code oc) (rs_chunk r') true (rs_buf r')).
    rewrite Hc. destruct (node_frame_encodes cmd_id Hcmd (result_code oc) (rs_chunk r') true (rs_buf r')) as (o & n & ->);
      [done | rewrite Hk; by apply chunk_after_ok | lia|]. cbn [fst rs_sent]. by rewrite Hse, Hk.
  - exists w', r'. split; [exact Hres|]. split; [|right; by apply (sink_cut_prefix delivered cmd_id _ _ _ Hp)].
    destruct Hp as (chunks & t & Hse & Hall & _). rewrite Hse. by apply node_frames_fit.
Qed.

(** Paging ends also when the output drifts: however the handler's output changes between passes, as
    long as no pass writes more than [B] bytes, the response is finished within [B + 1] passes, on any
    transport and with any other task running in between. *)
Theorem streaming_ends_under_drift {K} `{SK : !ShellSink K} B fuel env line origin w k :
  (forall cmd args, runs line origin cmd args -> bounded_output (cmd_run cmd origin args) B) ->
  0 <= B -> B < Z.of_nat fuel ->
  is_Some (stream_with fuel env base app line origin w k).
Proof.
  intros Hb HB Hf. unfold stream_with.
  assert (Hreply : forall t r, is_Some (reply w k t r)).
  { intros t r. unfold reply. destruct (sink_push k t) as [k1 ?], (sink_done k1 r) as [k2 ?]. by eexists. }
  destruct (MAX_LINE <? zlen line) eqn:E1; [done|]. destruct (MAX_TOKENS <? _) eqn:E2; [done|]. bool_hyps.
  destruct (resolve base (tokenize line) app) as [a b|c i|] eqn:Er; [done| |done].
  destruct (console_only c && bool_decide (origin = Remote)) eqn:E3; [done|].
  apply (stream_loop_ends _ _ B); [|lia..]. apply Hb. split; [done|]. split; [done|]. split; [|by exists i].
  intros Hc. rewrite Hc in E3. bool_hyps. destruct E3 as [?|E3]; [done|]. bool_hyps. by destruct origin.
Qed.

(** TAB completion always fits one frame: whatever the tree, the settings, the line and the
    cursor, the reply the shell builds has at most [MAX_PAYLOAD] encoded bytes, so the encoder never
    drops it for its size, and it holds at most sixteen candidates. *)
Theorem completion_fits_one_frame `{PC : !Postcard ShellCompletions} `{!CompletionsSize} settings req_id line cursor :
  u16_ok req_id ->
  zlen (serialize (complete base app settings req_id line cursor)) <= MAX_PAYLOAD /\
  zlen (compl_candidates (complete base app settings req_id line cursor)) <= MAX_CANDIDATES.
Proof.
  intros Hreq. rewrite completions_size. unfold complete. cbv zeta.
  pose proof (candidates_within base app settings (slice line 0 (clip_idx line cursor))) as Hw.
  destruct (candidates _ _ _ _) as [[cands more] start]. destruct Hw as (b & Hb & Hl & Hu).
  cbn [fst snd compl_req_id compl_token_start compl_common_prefix compl_candidates compl_more] in *.
  assert (Hzl : zlen (map (fun c : CandB => {| cand_text := to_string (fst c); cand_kind := snd c |}) cands) = zlen cands)
    by (unfold zlen; by rewrite length_map).
  rewrite Hzl, map_map. cbn [cand_text]. split; [|done].
  assert (Hm : map (fun c : CandB => zlen (lit (to_string (fst c)))) cands = map (fun c : CandB => zlen (fst c)) cands).
  { apply map_ext. intros c. apply zlen_to_string. }
  rewrite Hm, zlen_to_string. destruct Hb as (_ & _ & Hb).
  pose proof (varint_len_u16 req_id Hreq). pose proof (varint_len_u16 (wrap16 start) (wrap16_ok start)).
  pose proof (zlen_nonneg cands). rewrite (varint_len_small (zlen cands)) by (change MAX_CANDIDATES with 16 in Hl; lia).
  assert (Hp : str_size (zlen (common_prefix (map fst cands))) <=
    match map (fun c : CandB => zlen (fst c)) cands with [] => 1 | n :: _ => str_size n end).
  { destruct cands as [|c cands]; [by vm_compute|]. cbn [map].
    pose proof (common_prefix_le (map fst (c :: cands)) (fst c) eq_refl) as Hle. cbn [map] in Hle.
    pose proof (zlen_nonneg (common_prefix (fst c :: map fst cands))) as Hp0. unfold str_size.
    pose proof (varint_len_mono _ _ (conj Hp0 Hle)). lia. }
  lia.
Qed.

(** Completion never suggests what execution would not accept: a name offered where a menu is being
    completed, put in place of the partial token, makes a line whose tokens resolve to a menu or a
    command, provided the line still has at most [MAX_TOKENS] tokens. *)
Theorem completed_name_resolves settings upto a b cands more start c : utf8 upto ->
  let prefix := slice upto 0 (partial_start upto) in
  zlen (split_whitespace prefix) < MAX_TOKENS ->
  candidates base app settings upto = (cands, more, start) ->
  resolve base (tokenize prefix) app = RMenu a b ->
  In c cands -> word (fst c) ->
  start = partial_start upto /\
  tokenize (prefix ++ fst c) = tokenize prefix ++ [fst c] /\
  resolve base (tokenize (prefix ++ fst c)) app <> NoMatch.
Proof.
  intros Hu prefix Hlen Hc Hr Hin Hw. unfold candidates in Hc. cbv zeta in Hc. fold prefix in Hc. rewrite Hr in Hc.
  match type of Hc with context [offer_all ?k ?m ?l _] =>
    destruct (offer_all_within k m l _ within_budget_start) as [_ Hall] end.
  destruct (offer_all _ _ _ _) as [[cands' bu] more'] in *. injection Hc as -> -> <-.
  cbn [fst] in Hall. rewrite List.Forall_forall in Hall.
  destruct (Hall c Hin) as [[]|(e & He & -> & _)].
  assert (Ht : tokenize (prefix ++ entry_name e) = tokenize prefix ++ [entry_name e]).
  { unfold tokenize. unfold prefix in *. rewrite tokens_before_cursor by done.
    change (Z.to_nat MAX_TOKENS) with 8%nat. change MAX_TOKENS with 8 in Hlen. unfold zlen in Hlen.
    rewrite !take_ge by (rewrite ?length_app; simpl; lia). done. }
  split; [done|]. split; [done|]. cbn [fst entry_candidate] in *. rewrite Ht.
  apply (resolve_loop_snoc _ _ _ _ _ a b Hr). by exists e.
Qed.
End Theorems.

Lemma zlen_concat_le n l : Forall (chunk_ok n) l -> zlen (concat l) <= n * Z.of_nat (length l).
Proof.
  induction 1 as [|t l [_ Ht] H IH]; [change (zlen (concat [])) with 0; simpl; lia|]. cbn [concat]. rewrite zlen_app.
  cbn [length]. lia.
Qed.

(** ** Concrete runs *)

Module Demo.

Import Varint.
(** A codec of shell chunks with postcard's sizes: fields in order, integers as varints. *)
Lemma lit_bytes s : bytes_ok (lit s).
Proof.
  unfold lit. apply Forall_map, List.Forall_forall. intros c _. pose proof (Ascii.N_ascii_bounded c). unfold byte_ok. lia.
Qed.
Lemma to_string_lit s : to_string (lit s) = s.
Proof.
  unfold to_string, lit. rewrite map_map.
  rewrite (map_ext _ (fun c => c)) by (intros c; rewrite N2Z.id; apply Ascii.ascii_N_embedding).
  rewrite map_id. apply string_of_list_ascii_of_string.
Qed.

Definition chunk_bytes (m : NodeShellChunk) : list Z :=
  4 :: venc 10 (chunk_cmd_id m) ++ [chunk_result m] ++ venc 10 (chunk_chunk m) ++ [if chunk_last m then 1 else 0]
    ++ venc 10 (zlen (lit (chunk_text m))) ++ lit (chunk_text m).
Definition chunk_in_range (m : NodeShellChunk) : Prop :=
  u16_ok (chunk_cmd_id m) /\ u8_ok (chunk_result m) /\ u16_ok (chunk_chunk m) /\ zlen (lit (chunk_text m)) <= u16_max.
Definition chunk_parse (l : list Z) : option (NodeMsg * list Z) :=
  match l with
  | 4 :: l =>
      match vdec 10 l with
      | Some (cmd, res :: l) =>
          match vdec 10 l with
          | Some (chunk, last :: l) =>
              match vdec 10 l with
              | Some (n, l) => Some (NodeShell {| chunk_cmd_id := cmd; chunk_result := res; chunk_chunk := chunk;
                  chunk_last := last =? 1; chunk_text := to_string (slice l 0 n) |}, drop (Z.to_nat n) l)
              | None => None
              end
          | _ => None
          end
      | _ => None
      end
  | _ => None
  end.
#[export] Instance chunk_codec : Postcard NodeMsg := {
  representable m := match m with NodeShell c => chunk_in_range c | _ => False end;
  serialize m := match m with NodeShell c => chunk_bytes c | _ => [] end;
  to_slice m b := match m with
                  | NodeShell c => if zlen (chunk_bytes c) <=? zlen b then (patch b 0 (chunk_bytes c), Some (zlen (chunk_bytes c))) else (b, None)
                  | _ => (b, None)
                  end;
  take_from_bytes := chunk_parse;
}.
#[export] Instance chunk_codec_laws : PostcardLaws NodeMsg.
Proof.
  assert (Hp : 128 ^ Z.of_nat 11 = 151115727451828646838272) by (vm_compute; reflexivity).
  split; cbn [representable serialize to_slice take_from_bytes chunk_codec].
  - intros [ | | | |c]; try done. intros (H1 & H2 & H3 & H4). unfold chunk_bytes. pose proof (zlen_nonneg (lit (chunk_text c))).
    constructor; [unfold byte_ok; lia|]. rewrite !bytes_ok_app. split_and!; auto using venc_bytes, lit_bytes.
    + apply venc_bytes. mlia.
    + constructor; [unfold byte_ok; mlia | constructor].
    + apply venc_bytes. mlia.
    + constructor; [unfold byte_ok; split_if; lia | constructor].
  - intros [ | | | |c] b; try done. intros _ Hb. by rewrite (proj2 (Z.leb_le _ _)).
  - intros [ | | | |c] b; try done. intros _ Hb. rewrite (proj2 (Z.leb_gt _ _)) by done. eauto.
  - intros [ | | | |c] r; try done. intros (H1 & H2 & H3 & H4). pose proof (zlen_nonneg (lit (chunk_text c))).
    unfold chunk_bytes. cbn [app]. rewrite <- !app_assoc. cbn [app chunk_parse]. rewrite vdec_venc by (rewrite Hp; mlia).
    rewrite <- !app_assoc; cbn [app]. rewrite vdec_venc by (rewrite Hp; mlia).
    rewrite <- !app_assoc; cbn [app]. rewrite vdec_venc by (rewrite Hp; mlia).
    rewrite slice_app_l, to_string_lit. assert (drop (Z.to_nat (zlen (lit (chunk_text c)))) (lit (chunk_text c) ++ r) = r) as ->.
    { rewrite zlen_to_nat. by rewrite drop_app_length. }
    destruct c as [? ? ? [|] ?]; done.
Qed.
#[export] Instance chunk_radio_codec : RadioCodec := { pc_node_msg := chunk_codec; pc_node_cmd := ToyCodec.nothing }.
#[export] Instance chunk_radio_laws : RadioCodecLaws.
Proof. split; [exact chunk_codec_laws | apply ToyCodec.nothing_laws]. Qed.
#[export] Instance chunk_sizes : NodeShellSize.
Proof.
  split; cbn [representable serialize chunk_radio_codec chunk_codec pc_node_msg]; [by intros m|].
  intros m. unfold chunk_bytes. rewrite zlen_cons, !zlen_app, !zlen_venc. change (zlen [_]) with 1.
  change (zlen [if chunk_last m then 1 else 0]) with 1. unfold str_size. lia.
Qed.

(** A command that dumps 600 bytes, in pieces that end inside a paging window and with characters of
    two bytes across its end; its output grows when it is called again. *)
Definition dump_piece : list Z := concat (replicate 50 (lit "b" ++ [195; 169])) ++ lit "x".
Definition dump : Handler nat := fun _ _ w => (S w, ([dump_piece; dump_piece; dump_piece; dump_piece], outcome_code 7)).
Definition grow : Handler nat := fun _ _ w => (S w, (dump_piece :: match w with O => [] | S O => [dump_piece] | _ => [dump_piece; dump_piece] end, outcome_ok)).
Definition demo_base : list (Entry nat) :=
  [Menu (lit "system") [entry_cmd (lit "dump") ANone dump; entry_cmd (lit "grow") ANone grow; entry_cmd (lit "set") (ASettings true) dump]].
Definition dump_cmd : Command nat := {| cmd_name := lit "dump"; cmd_args := ANone; cmd_run := dump; console_only := false |}.
Lemma dump_runs origin : runs demo_base [] (lit "system dump") origin dump_cmd [].
Proof. split; [vm_compute; discriminate|]. split; [vm_compute; discriminate|]. split; [discriminate|]. exists 2. split; reflexivity. Qed.
Definition dump_text : list Z := dump_piece ++ dump_piece ++ dump_piece ++ dump_piece.
Lemma dump_writes origin : writes (cmd_run dump_cmd origin []) dump_text (outcome_code 7).
Proof.
  intros w. split; [apply utf8b_Forall; vm_compute; reflexivity|]. split; [vm_compute; reflexivity | reflexivity].
Qed.

Lemma console_response_whole_witness :
  exists w' chunks, Forall (chunk_ok SHELL_CHUNK) chunks /\ concat chunks = dump_text /\
    stream_with 700 id demo_base [] (lit "system dump") Console 0%nat {| cs_cmd_id := 9; cs_chunk := 0; cs_sent := [] |} =
      Some (w', {| cs_cmd_id := 9; cs_chunk := chunk_after 0 chunks;
                   cs_sent := body_frames 9 0 chunks ++ [shell_response_frame 9 7 (chunk_after 0 chunks) true []] |}, outcome_code 7).
Proof.
  apply (console_response_whole demo_base [] 700 id (lit "system dump") dump_cmd [] 0%nat 9 dump_text (outcome_code 7)).
  - apply dump_runs.
  - apply dump_writes.
  - vm_compute. reflexivity.
Defined.

(** The fourth transmission is lost. *)
Definition fourth_lost (n : nat) : bool := negb (Nat.eqb n 3).
Lemma radio_response_whole_or_cut_witness :
  exists w' r, stream_with (SK := radio_sink (SC := ToySchemas.with_dropped (ToySchemas.dropped "count"%string U32)) fourth_lost)
      700 id demo_base [] (lit "system dump") Remote 0%nat (radio_sink_new 9) = Some (w', r, outcome_code 7) /\
    sink_cut fourth_lost 9 r dump_text.
Proof.
  destruct (radio_response_whole_or_cut (SC := ToySchemas.with_dropped (ToySchemas.dropped "count"%string U32)) demo_base []
    fourth_lost 700 id (lit "system dump") dump_cmd [] 0%nat 9 dump_text (outcome_code 7)) as (w' & r & Hrun & _ & [H|H]).
  - apply dump_runs.
  - apply dump_writes.
  - vm_compute. reflexivity.
  - vm_compute. split; discriminate.
  - vm_compute. split; discriminate.
  - exfalso. destruct H as (chunks & rest & Hc & Hs & _ & Hr & _ & Hd).
    assert (Hlen : (length chunks <= 3)%nat).
    { destruct (decide (length chunks <= 3)%nat) as [Hl|Hl]; [exact Hl|]. specialize (Hd 3%nat ltac:(lia)). discriminate Hd. }
    apply (f_equal zlen) in Hs. rewrite zlen_app in Hs. pose proof (zlen_concat_le _ _ Hc).
    assert (Hz : zlen dump_text = 604) by (vm_compute; reflexivity). change RADIO_SHELL_CHUNK with 56 in *. lia.
  - exists w', r. split; [exact Hrun | exact H].
Defined.

Lemma streaming_ends_under_drift_witness :
  is_Some (stream_with 700 S demo_base [] (lit "system grow") Console 0%nat {| cs_cmd_id := 9; cs_chunk := 0; cs_sent := [] |}).
Proof.
  apply (streaming_ends_under_drift demo_base [] 604 700 S (lit "system grow") Console).
  - intros cmd args (_ & _ & _ & i & Hr & ->) w.
    assert (Hr' : resolve demo_base (tokenize (lit "system grow")) [] =
      RCmd {| cmd_name := lit "grow"; cmd_args := ANone; cmd_run := grow; console_only := false |} 2) by reflexivity.
    rewrite Hr' in Hr. injection Hr as <- <-. cbn [cmd_run grow fst snd].
    assert (Hu : utf8 dump_piece) by (apply utf8b_ok; vm_compute; reflexivity).
    assert (Hl : zlen dump_piece = 151) by (vm_compute; reflexivity).
    destruct w as [|[|w]];
      (split; [repeat (constructor; [exact Hu|]); constructor|]); cbn [concat]; rewrite ?zlen_app, ?Hl, ?zlen_nil;
      change (zlen (@nil Z)) with 0; lia.
  - lia.
  - vm_compute. reflexivity.
Defined.

(** A settings table with long names: the reply is cut to fit. *)
Definition long_names : SettingsTable :=
  map (fun n => {| set_key := 16 + Z.of_nat n; set_name := lit "a-rather-long-setting-name-" ++ fmt_u32 (Z.of_nat n);
                   set_kind := KBool; set_default := lit "off" |}) (seq 0 20).
#[local] Instance size_codec : Postcard ShellCompletions := {
  representable _ := True;
  serialize r := zeros (varint_len (compl_req_id r) + varint_len (compl_token_start r)
    + str_size (zlen (lit (compl_common_prefix r)))
    + varint_len (zlen (compl_candidates r)) + cands_size (map (fun c => zlen (lit (cand_text c))) (compl_candidates r)) + 1);
  to_slice _ b := (b, None);
  take_from_bytes _ := None;
}.
Lemma cands_size_nonneg {A} (f : A -> list Z) l : 0 <= cands_size (map (fun c => zlen (f c)) l).
Proof.
  induction l as [|c l IH]; [done|]. cbn [map cands_size]. pose proof (zlen_nonneg (f c)). pose proof (varint_len_pos (zlen (f c))).
  unfold cand_size, str_size. lia.
Qed.
#[local] Instance size_codec_size : CompletionsSize.
Proof.
  intros r. cbn [serialize size_codec]. apply zlen_zeros. pose proof (varint_len_pos (compl_req_id r)).
  pose proof (varint_len_pos (compl_token_start r)). pose proof (varint_len_pos (zlen (compl_candidates r))).
  pose proof (zlen_nonneg (lit (compl_common_prefix r))). pose proof (varint_len_pos (zlen (lit (compl_common_prefix r)))).
  pose proof (cands_size_nonneg (fun c => lit (cand_text c)) (compl_candidates r)). unfold str_size. lia.
Qed.
Definition demo_reply : ShellCompletions := complete demo_base [] long_names 65535 (lit "system set a") 12.
Lemma completion_fits_one_frame_witness :
  zlen (serialize demo_reply) <= MAX_PAYLOAD /\ zlen (compl_candidates demo_reply) <= MAX_CANDIDATES /\
  zlen (compl_candidates demo_reply) = 7 /\ compl_more demo_reply = true.
Proof.
  destruct (completion_fits_one_frame demo_base [] long_names 65535 (lit "system set a") 12) as [H1 H2].
  - vm_compute. split; discriminate.
  - split; [exact H1|]. split; [exact H2|]. split; vm_compute; reflexivity.
Defined.

Lemma completed_name_resolves_witness :
  tokenize (lit "system dump") = [lit "system"; lit "dump"] /\
  resolve demo_base (tokenize (lit "system dump")) [] <> NoMatch.
Proof.
  destruct (completed_name_resolves demo_base [] [] (lit "system du")
    [entry_cmd (lit "dump") ANone dump; entry_cmd (lit "grow") ANone grow; entry_cmd (lit "set") (ASettings true) dump] []
    [(lit "dump", KCommand)] false 7 (lit "dump", KCommand)) as (_ & H1 & H2).
  - apply utf8b_ok. vm_compute. reflexivity.
  - vm_compute. reflexivity.
  - vm_compute. reflexivity.
  - reflexivity.
  - left. reflexivity.
  - apply word_solid. split; [discriminate | apply ascii_solid; vm_compute; reflexivity].
  - split; [exact H1 | exact H2].
Defined.
End Demo.
