(* ===== verification/ShellSettings.v ===== *)
(** The shell's settings (firmware/src/shell.rs): validation and encoding of values, reading them
    back as text, the [settings] and [export] commands, and the SDK command tree. The store, the
    random source and the print-only handlers are parameters; the store's laws are discharged by the
    firmware's key-value store in ShellStore. *)
From Stdlib Require Import Strings.String.
From S2P Require Import Prelude Bytes Str Shell ShellEngine.

Definition MAX_SETTING : Z := 64.
#[export] Hint Unfold MAX_SETTING : machine.
Definition ADDR_KEY : Z := 1.
Definition BASE_SETTINGS : list Setting :=
  [{| set_key := 0; set_name := lit "identity"; set_kind := KStr 32; set_default := lit "tower" |};
   {| set_key := ADDR_KEY; set_name := lit "addr"; set_kind := KAddr; set_default := lit "auto" |}].

(** The scoped store and the board, as the handlers use them: [st_get w key cap] is
    [kv.get_bytes(key, &mut [0; cap])], [None] when it is absent or the read failed; [st_set] says
    whether the write succeeded. *)
Class SettingsStore (W : Type) := {
  st_get : W -> Z -> Z -> option (Z * list Z);
  st_set : W -> Z -> list Z -> W * bool;
  st_wipe : W -> W * option (list Z);
  st_rand : W -> W * Z;
  st_rand_source : W -> list Z;
  st_uid : W -> Z;
}.

(** ** Values *)

Definition parse_bool (s : list Z) : option bool :=
  if bool_decide (s = lit "true") || bool_decide (s = lit "on") || bool_decide (s = lit "1") then Some true
  else if bool_decide (s = lit "false") || bool_decide (s = lit "off") || bool_decide (s = lit "0") then Some false
  else None.

(** The bytes [encode_value] leaves at the front of its buffer. *)
Definition encode_value (kind : Kind) (value : list Z) : option (list Z) :=
  match kind with
  | KStr max =>
      let lim := Z.min max MAX_SETTING in
      if bool_decide (value = []) || (lim <? zlen value) then None else Some value
  | KUint min max =>
      match parse_u32 value with
      | Some v => if (v <? min) || (max <? v) then None else Some (le_bytes 4 v)
      | None => None
      end
  | KInt min max =>
      match parse_i32 value with
      | Some v => if (v <? min) || (max <? v) then None else Some (le_bytes 4 (wrap32 v))
      | None => None
      end
  | KBool => match parse_bool value with Some b => Some [if b then 1 else 0] | None => None end
  | KEnum choices =>
      if negb (existsb (fun c => bool_decide (c = value)) choices) || (MAX_SETTING <? zlen value) then None
      else Some value
  | KAddr => match parse_addr value with Some v => Some (le_bytes 4 v) | None => None end
  end.
(** [i32::from_le_bytes]. *)
Definition i32_of (v : Z) : Z := if v <? 2147483648 then v else v - 4294967296.
(** [String::<64>::push_str]: all or nothing. *)
Definition push_setting (s : list Z) : list Z := if zlen s <=? MAX_SETTING then s else [].

Section Settings.
Context {W : Type} `{ST : !SettingsStore W}.

Definition stored_addr (w : W) (key : Z) : option Z :=
  match st_get w key 4 with
  | Some (n, b) => if n =? 4 then Some (le_val b) else None
  | None => None
  end.
(** [radio_addr]: the pinned address, else the chip's. *)
Definition radio_addr (w : W) : Z :=
  match st_get w ADDR_KEY 4 with
  | Some (n, b) => if (n =? 4) && negb (le_val b =? 0) then le_val b else st_uid w
  | None => st_uid w
  end.
Definition unset_value (w : W) (s : Setting) : list Z :=
  match set_kind s with
  | KAddr => lit "0x" ++ fmt_08x (st_uid w)
  | _ => push_setting (set_default s)
  end.
Definition read_value (w : W) (s : Setting) : list Z :=
  match st_get w (set_key s) MAX_SETTING with
  | Some (n, buf) =>
      let n := Z.min n MAX_SETTING in
      match set_kind s with
      | KStr _ | KEnum _ => if from_utf8 (slice buf 0 n) then slice buf 0 n else unset_value w s
      | KUint _ _ => if 4 <=? n then fmt_u32 (le_val (slice buf 0 4)) else unset_value w s
      | KInt _ _ => if 4 <=? n then fmt_i32 (i32_of (le_val (slice buf 0 4))) else unset_value w s
      | KBool => if 1 <=? n then (if negb (byte_at buf 0 =? 0) then lit "true" else lit "false") else unset_value w s
      | KAddr =>
          if 4 <=? n then
            let a := le_val (slice buf 0 4) in
            let eff := if negb (a =? 0) then a else st_uid w in
            lit "0x" ++ fmt_08x eff
          else unset_value w s
      end
  | None => unset_value w s
  end.
Definition kind_is_addr (k : Kind) : bool := match k with KAddr => true | _ => false end.

(** The value column of one setting's line, and the line. *)
Definition setting_text (w : W) (s : Setting) (export : bool) : list Z :=
  if export && kind_is_addr (set_kind s) && (default 0 (stored_addr w (set_key s)) =? 0) then lit "auto"
  else read_value w s.
Definition export_line (s : Setting) (val : list Z) : list Z := lit "system settings set " ++ set_name s ++ lit "=" ++ val.
Definition crlf : list Z := [13; 10].
Definition write_setting (w : W) (s : Setting) (export : bool) : list (list Z) :=
  let val := setting_text w s export in
  if export then [export_line s val; crlf]
  else [set_name s; lit " = "; val; crlf].
Definition write_constraint (kind : Kind) : list (list Z) :=
  match kind with
  | KStr max => [lit "str 1..="; fmt_u32 max]
  | KUint min max => [lit "uint "; fmt_u32 min; lit "..="; fmt_u32 max]
  | KInt min max => [lit "int "; fmt_i32 min; lit "..="; fmt_i32 max]
  | KBool => [lit "bool"]
  | KEnum choices => lit "enum " :: match choices with
                                   | [] => []
                                   | c :: cs => c :: flat_map (fun c => [lit "|"; c]) cs
                                   end
  | KAddr => [lit "hex 32-bit | auto | random"]
  end.

Definition parse_assign (args : list (list Z)) : option (list Z * list Z) :=
  match args with
  | [] => None
  | first :: rest =>
      match find_byte 61 first with
      | Some eq => Some (slice first 0 eq, slice first (eq + 1) (zlen first - (eq + 1)))
      | None => match rest with v :: _ => Some (first, v) | [] => None end
      end
  end.

(** ** The handlers *)

Context (settings : SettingsTable).
#[local] Abbreviation handler := (Handler W).

Definition cmd_reboot : handler := fun _ _ w => (w, ([lit "rebooting"], {| result_code := R_OK; reboot := true |})).
Definition cmd_export : handler := fun _ _ w => (w, (flat_map (fun s => write_setting w s true) settings, outcome_ok)).
Definition settings_print : handler := fun _ _ w => (w, (flat_map (fun s => write_setting w s false) settings, outcome_ok)).
Definition settings_get : handler := fun _ args w =>
  match args with
  | [] => (w, ([lit "usage: get <name>"], outcome_code R_BAD_ARG))
  | name :: _ =>
      match table_find settings name with
      | None => (w, ([lit "no such setting: "; name], outcome_code R_NOT_FOUND))
      | Some s =>
          (w, ([set_name s; lit " = "; read_value w s; lit " ["] ++ write_constraint (set_kind s)
                 ++ [lit ", default "; set_default s; lit "]"], outcome_ok))
      end
  end.
Definition settings_set : handler := fun origin args w =>
  match parse_assign args with
  | None => (w, ([lit "usage: set <name>=<value>"], outcome_code R_BAD_ARG))
  | Some (name, value) =>
      let consumed := match args with
                      | a :: _ => if (if find_byte 61 a then true else false) then 1 else 2
                      | [] => 2
                      end in
      if consumed <? zlen args then (w, ([lit "value must not contain a space or tab"], outcome_code R_BAD_ARG))
      else
        match table_find settings name with
        | None => (w, ([lit "no such setting: "; name], outcome_code R_NOT_FOUND))
        | Some s =>
            if bool_decide (origin = Remote) && kind_is_addr (set_kind s) then
              (w, ([name; lit " is console-only: refused over the radio (use the USB console)"], outcome_code R_DENIED))
            else
              let '(w, enc) :=
                if kind_is_addr (set_kind s) && eq_ignore_ascii_case value (lit "random") then
                  let '(w, a) := st_rand w in
                  let a := if a =? 0 then 1 else a in
                  (w, Some (le_bytes 4 a, Some a))
                else (w, match encode_value (set_kind s) value with Some b => Some (b, None) | None => None end) in
              match enc with
              | None => (w, ([lit "invalid value for "; name; lit " ("] ++ write_constraint (set_kind s) ++ [lit ")"],
                             outcome_code R_BAD_ARG))
              | Some (b, generated) =>
                  let '(w, stored) := st_set w (set_key s) b in
                  if (stored : bool) then
                    (w, (match generated with
                         | Some a => [lit "ok (0x"; fmt_08x a; lit ", "; st_rand_source w; lit ")"]
                         | None => [lit "ok"]
                         end, outcome_ok))
                  else (w, ([lit "storage error"], outcome_code R_STORAGE))
              end
        end
  end.
Definition cmd_eeprom_wipe : handler := fun _ args w =>
  if negb (bool_decide (args = [lit "confirm"])) then
    (w, ([lit "usage: system eeprom wipe confirm
erases the WHOLE store (keys, peers, settings) and reboots"], outcome_code R_BAD_ARG))
  else
    let '(w, err) := st_wipe w in
    match err with
    | None => (w, ([lit "eeprom wiped - rebooting"], {| result_code := R_OK; reboot := true |}))
    | Some e => (w, ([lit "wipe failed ("; e; lit "); store left whole or empty - rebooting"],
                     {| result_code := R_STORAGE; reboot := true |}))
    end.

(** The handlers that only print device state: [resource], [stack], [eeprom], [crash]. *)
Context (reports : list Z -> W -> list (list Z)).
Definition report (what : String.string) : handler := fun _ _ w => (w, (reports (lit what) w, outcome_ok)).

Definition BASE_ROOT : list (Entry W) :=
  [Menu (lit "system")
     [entry_cmd (lit "reboot") ANone cmd_reboot;
      Menu (lit "resource") [entry_cmd (lit "print") ANone (report "resource")];
      Menu (lit "stack") [entry_cmd (lit "print") ANone (report "stack")];
      Menu (lit "eeprom")
        [entry_cmd (lit "print") ANone (report "eeprom"); cmd_console_only (lit "wipe") ANone cmd_eeprom_wipe];
      Menu (lit "crash") [entry_cmd (lit "print") ANone (report "crash")];
      Menu (lit "settings")
        [entry_cmd (lit "print") ANone settings_print;
         entry_cmd (lit "set") (ASettings true) settings_set;
         entry_cmd (lit "get") (ASettings false) settings_get]];
   entry_cmd (lit "export") ANone cmd_export].
End Settings.

(** ** The store's contract *)

Class SettingsStoreLaws (W : Type) `{!SettingsStore W} := {
  st_ok : W -> Prop;
  (** The value stored under a local key. *)
  st_val : W -> Z -> option (list Z);
  (** Reads do not fail. *)
  st_readable : W -> Prop;
  st_get_val : forall w key cap, st_ok w -> st_readable w -> 0 <= key <= 255 -> cap = 4 \/ cap = MAX_SETTING ->
    st_get w key cap = match st_val w key with Some v => Some (zlen v, slice v 0 cap) | None => None end;
  (** A write that fails leaves the old value or the new one. *)
  st_set_val : forall w key v, st_ok w -> 0 <= key <= 255 -> bytes_ok v -> v <> [] -> zlen v <= MAX_SETTING ->
    let '(w', ok) := st_set w key v in
    st_ok w' /\ st_uid w' = st_uid w /\
    ((forall k, 0 <= k <= 255 -> st_val w' k = if decide (k = key) then Some v else st_val w k) \/
     (ok = false /\ forall k, 0 <= k <= 255 -> st_val w' k = st_val w k));
  st_rand_val : forall w, st_ok w ->
    let '(w', a) := st_rand w in
    st_ok w' /\ st_uid w' = st_uid w /\ u32_ok a /\ forall k, st_val w' k = st_val w k;
}.

(** ** Well-formed tables *)

Definition kind_ok (k : Kind) : Prop :=
  match k with
  | KStr max => 1 <= max <= u16_max
  | KUint min max => 0 <= min <= max /\ max <= u32_max
  | KInt min max => i32_min <= min <= max /\ max <= i32_max
  | KEnum choices => Forall word choices
  | KBool | KAddr => True
  end.
(** A text the kind accepts, without whitespace, and the bytes it stores. *)
Definition means (k : Kind) (text b : list Z) : Prop := solid_text text /\ encode_value k text = Some b.
Record setting_ok (s : Setting) : Prop := {
  so_name : word (set_name s);
  so_no_eq : Forall (fun b => b <> 61) (set_name s);
  so_key : 0 <= set_key s <= 255;
  so_kind : kind_ok (set_kind s);
  so_default : exists b, means (set_kind s) (set_default s) b;
  so_default_len : zlen (set_default s) <= MAX_SETTING;
}.
Definition table_ok (t : SettingsTable) : Prop :=
  Forall setting_ok t /\ NoDup (map set_key t) /\ NoDup (map set_name t).

Lemma word_of_solid t : solid_text t -> t <> [] -> word t.
Proof. intros. by apply word_solid. Qed.
Lemma lit_solid s : forallb solidb (lit s) = true -> solid_text (lit s).
Proof. apply ascii_solid. Qed.
Lemma digit_text_solid radix s : radix <= 16 -> digit_text radix s -> solid_text s.
Proof.
  intros Hr H. apply ascii_solid. induction H as [|b s (d & Hd & ->) H IH]; [done|]. cbn [forallb]. rewrite IH, andb_true_r.
  unfold solidb, digit_char, is_whitespace. inner_ifs; lia.
Qed.
Lemma fmt_u32_solid v : solid_text (fmt_u32 v).
Proof. eapply digit_text_solid; [|by apply digit_text_digits]. lia. Qed.
Lemma fmt_i32_solid v : solid_text (fmt_i32 v).
Proof.
  unfold fmt_i32. split_if; [|apply fmt_u32_solid]. apply (solid_app [45]); [by apply ascii_solid | apply fmt_u32_solid].
Qed.
Lemma fmt_08x_solid v : solid_text (fmt_08x v).
Proof. eapply digit_text_solid; [|by apply digit_text_fixed]. lia. Qed.

Lemma le4_nonempty v : le_bytes 4 v <> [].
Proof. discriminate. Qed.
Lemma slice4 v r : slice (le_bytes 4 v ++ r) 0 4 = le_bytes 4 v.
Proof. apply (slice_app_l (le_bytes 4 v)). Qed.

(** What a kind stores: non-empty bytes of at most [MAX_SETTING]. *)
Lemma encode_value_ok k t b : kind_ok k -> utf8 t -> encode_value k t = Some b ->
  bytes_ok b /\ b <> [] /\ zlen b <= MAX_SETTING.
Proof.
  intros Hk Ht. assert (H4 : forall v, bytes_ok (le_bytes 4 v) /\ le_bytes 4 v <> [] /\ zlen (le_bytes 4 v) <= MAX_SETTING).
  { intros v. split; [auto with tower|]. split; [done|]. rewrite zlen_le_bytes. mlia. }
  destruct k as [max|min max|min max| |choices|]; cbn [encode_value].
  - cbv zeta. intros H. destruct (_ || _) eqn:E; [done|]. bool_hyps. injection H as <-. split; [auto with tower|].
    split; [done | mlia].
  - destruct (parse_u32 t); [|done]. intros H. destruct (_ || _); [done|]. injection H as <-. apply H4.
  - destruct (parse_i32 t); [|done]. intros H. destruct (_ || _); [done|]. injection H as <-. apply H4.
  - destruct (parse_bool t) as [b0|]; [|done]. intros [= <-]. split; [by destruct b0; repeat constructor|].
    split; [done|]. by destruct b0.
  - intros H. destruct (_ || _) eqn:E; [done|]. bool_hyps. injection H as <-. split; [auto with tower|]. split; [|lia].
    match goal with H : existsb _ _ = true |- _ => apply existsb_exists in H as (c & Hin & Hc) end. bool_hyps. subst c.
    simpl in Hk. rewrite List.Forall_forall in Hk. by apply word_nonempty, Hk.
  - destruct (parse_addr t); [|done]. intros [= <-]. apply H4.
Qed.

Lemma i32_wrap v : i32_ok v -> i32_of (wrap32 v) = v.
Proof. unfold i32_ok, i32_min, i32_max, i32_of, wrap32. intros Hv. inner_ifs; Z.to_euclidean_division_equations; lia. Qed.
Lemma parse_u32_ok s v : parse_u32 s = Some v -> u32_ok v.
Proof.
  assert (H : forall s acc, u32_ok acc -> forall v, digits_val 10 1 0 u32_max acc s = Some v -> u32_ok v).
  { clear. intros s. induction s as [|b s IH]; intros acc Ha v; cbn [digits_val]; [by intros [= <-]|].
    destruct (to_digit 10 b); [|done]. cbv zeta. intros H. repeat split_if_in H; try done. eapply IH; [|done]. mlia. }
  unfold parse_u32, u32_from_str_radix. destruct s as [|b r]; [done|]. intros E.
  repeat split_if_in E; try done; (eapply H; [|exact E]); mlia.
Qed.
Lemma parse_i32_ok s v : parse_i32 s = Some v -> i32_ok v.
Proof.
  assert (H : forall s sign acc, i32_ok acc -> forall v, digits_val 10 sign i32_min i32_max acc s = Some v -> i32_ok v).
  { clear. intros s sign. induction s as [|b s IH]; intros acc Ha v; cbn [digits_val]; [by intros [= <-]|].
    destruct (to_digit 10 b); [|done]. cbv zeta. intros H. repeat split_if_in H; try done. eapply IH; [|done].
    unfold i32_ok. lia. }
  assert (H0 : i32_ok 0) by (unfold i32_ok, i32_min, i32_max; lia).
  unfold parse_i32, i32_from_str_radix. destruct s as [|b r]; [done|]. intros E.
  repeat split_if_in E; try done; (eapply H; [|exact E]); done.
Qed.
Lemma parse_addr_ok s v : parse_addr s = Some v -> u32_ok v.
Proof.
  intros [[_ ->]|(hex & _ & Hl & Hv & _)]%parse_addr_Some; [mlia|]. pose proof (hex_pow hex Hl). mlia.
Qed.
Lemma parse_addr_08x v : u32_ok v -> parse_addr (lit "0x" ++ fmt_08x v) = Some v.
Proof.
  intros Hv. apply parse_addr_Some. right. exists (fmt_08x v). split; [right; by left|].
  assert (Hl : zlen (fmt_08x v) = 8) by apply (zlen_fixed 16 8 v). split; [lia|]. rewrite Hl. change (16 ^ 8) with 4294967296.
  split; [mlia|]. unfold fmt_08x. apply lower_fixed.
Qed.

Section SettingsLaws.
Context {W : Type} `{ST : !SettingsStore W} `{SL : !SettingsStoreLaws W}.

(** A setting holds something its kind stores for an accepted text, or nothing. *)
Definition holds (w : W) (s : Setting) : Prop :=
  match st_val w (set_key s) with
  | Some b => exists t, means (set_kind s) t b
  | None => True
  end.

Lemma slice_short (v : list Z) n : zlen v <= n -> slice v 0 n = v.
Proof. intros H. unfold slice. rewrite drop_0. apply take_ge. unfold zlen in H. lia. Qed.
Lemma from_utf8_Some b : utf8 b -> exists cs, from_utf8 b = Some cs.
Proof. intros [cs H]%utf8_from_utf8. eauto. Qed.

(** What [export] prints for a stored value is accepted by the setting and stores the same bytes. *)
Lemma stored_text_means w s b t : st_ok w -> st_readable w -> setting_ok s -> st_val w (set_key s) = Some b -> means (set_kind s) t b ->
  means (set_kind s) (setting_text w s true) b.
Proof.
  intros Hw Hrd Hs Hv [Hsol He]. pose proof Hs as [_ _ Hkey Hkind _ _].
  destruct (encode_value_ok _ _ _ Hkind (solid_utf8 _ Hsol) He) as (Hb & Hne & Hlen).
  unfold setting_text, read_value, stored_addr. rewrite !st_get_val by (done || (by left) || (by right)). rewrite Hv.
  rewrite Z.min_l, (slice_short b MAX_SETTING), slice_all by lia. unfold means.
  destruct (set_kind s) as [max|min max|min max| |choices|] eqn:Ek; cbn [kind_is_addr andb encode_value] in *.
  - cbv zeta in He. destruct (_ || _) eqn:E; [done|]. apply (inj Some) in He as <-.
    destruct (from_utf8_Some t (solid_utf8 _ Hsol)) as [cs ->]. split; [done|]. cbv zeta. by rewrite E.
  - destruct (parse_u32 t) as [v|] eqn:Ep; [|done]. destruct (_ || _) eqn:E; [done|]. apply (inj Some) in He as <-.
    rewrite zlen_le_bytes. change (4 <=? Z.of_nat 4) with true. cbv iota.
    pose proof (parse_u32_ok t v Ep) as Hv32. rewrite (slice_short (le_bytes 4 v)) by (rewrite zlen_le_bytes; done).
    rewrite le_val_u32, parse_fmt_u32, E by done. split; [apply fmt_u32_solid | done].
  - destruct (parse_i32 t) as [v|] eqn:Ep; [|done]. destruct (_ || _) eqn:E; [done|]. apply (inj Some) in He as <-.
    rewrite zlen_le_bytes. change (4 <=? Z.of_nat 4) with true. cbv iota.
    pose proof (parse_i32_ok t v Ep) as Hv32. rewrite (slice_short (le_bytes 4 _)) by (rewrite zlen_le_bytes; done).
    rewrite le_val_u32 by auto with tower. rewrite i32_wrap, parse_fmt_i32, E by done. split; [apply fmt_i32_solid | done].
  - destruct (parse_bool t) as [b0|]; [|done]. apply (inj Some) in He as <-.
    destruct b0; (split; [by apply ascii_solid | done]).
  - destruct (_ || _) eqn:E; [done|]. apply (inj Some) in He as <-.
    destruct (from_utf8_Some t (solid_utf8 _ Hsol)) as [cs ->]. split; [done|]. by rewrite E.
  - destruct (parse_addr t) as [v|] eqn:Ep; [|done]. apply (inj Some) in He as <-. pose proof (parse_addr_ok t v Ep) as Hv32.
    rewrite zlen_le_bytes. change (Z.of_nat 4 =? 4) with true. change (4 <=? Z.of_nat 4) with true. cbv iota.
    rewrite (slice_short (le_bytes 4 v)) by (rewrite zlen_le_bytes; done). rewrite le_val_u32 by done. change (default 0 (Some v)) with v.
    destruct (v =? 0) eqn:E0; bool_hyps; cbn [negb].
    + subst v. split; [by apply ascii_solid | done].
    + match goal with |- context [parse_addr ?x] =>
        replace (parse_addr x) with (Some v) by (symmetry; exact (parse_addr_08x v Hv32)) end.
      split; [|done]. apply (solid_app (lit "0x")); [by apply ascii_solid | apply fmt_08x_solid].
Qed.

(** So does what it prints for an unset one. *)
Lemma unset_text_means w s : st_ok w -> st_readable w -> setting_ok s -> st_val w (set_key s) = None ->
  exists b, means (set_kind s) (setting_text w s true) b.
Proof.
  intros Hw Hrd Hs Hv. pose proof Hs as [_ _ Hkey Hkind (b & Hd) Hdl].
  unfold setting_text, read_value, stored_addr, unset_value. rewrite !st_get_val by (done || (by left) || (by right)). rewrite Hv.
  change (default 0 None =? 0) with true. destruct (set_kind s) eqn:Ek; cbn [kind_is_addr andb] in *;
    try (exists b; unfold push_setting; replace (zlen (set_default s) <=? MAX_SETTING) with true by (symmetry; by apply Z.leb_le); done).
  exists (le_bytes 4 0). split; [by apply ascii_solid | done].
Qed.
Lemma export_text_means w s : st_ok w -> st_readable w -> setting_ok s -> holds w s ->
  exists b, means (set_kind s) (setting_text w s true) b /\ forall v, st_val w (set_key s) = Some v -> v = b.
Proof.
  intros Hw Hrd Hs Hh. unfold holds in Hh. destruct (st_val w (set_key s)) as [v|] eqn:E.
  - destruct Hh as [t Ht]. exists v. split; [by eapply stored_text_means | congruence].
  - destruct (unset_text_means w s Hw Hrd Hs E) as [b Hb]. by exists b.
Qed.

(** ** What [settings set] does to the store *)

Context (settings : SettingsTable) (Htab : table_ok settings).

(** Nothing, or one setting takes a value it accepts; over the radio never an address. *)
Definition written (s : Setting) (b : list Z) (w w' : W) : Prop :=
  forall k, 0 <= k <= 255 -> st_val w' k = if decide (k = set_key s) then Some b else st_val w k.
Definition unwritten (w w' : W) : Prop := forall k, 0 <= k <= 255 -> st_val w' k = st_val w k.
Definition set_effect (origin : Origin) (w w' : W) : Prop :=
  st_ok w' /\ st_uid w' = st_uid w /\
  (unwritten w w' \/
   exists s t b, In s settings /\ means (set_kind s) t b /\ (origin = Remote -> set_kind s <> KAddr) /\ written s b w w').

Lemma table_find_In name s : table_find settings name = Some s -> In s settings /\ set_name s = name.
Proof. unfold table_find. intros H%find_some. destruct H as [? H]. by bool_hyps. Qed.
Lemma table_find_name s : In s settings -> table_find settings (set_name s) = Some s.
Proof.
  destruct Htab as (_ & _ & Hnd). unfold table_find. clear Htab. revert Hnd.
  induction settings as [|x l IH]; [done|]. intros Hnd. cbn [map] in Hnd. inversion Hnd as [|x' l' Hx Hnd']; subst.
  intros [->|Hin]; cbn [find]; [by rewrite bool_decide_eq_true_2|]. rewrite bool_decide_eq_false_2; [by apply IH|].
  intros E. apply Hx. rewrite E. apply list_elem_of_In, in_map, Hin.
Qed.

Lemma parse_assign_solid args name value : Forall word args -> parse_assign args = Some (name, value) ->
  solid_text value.
Proof.
  intros Hargs. unfold parse_assign. destruct args as [|a rest]; [done|]. apply Forall_cons_1 in Hargs as [Ha Hrest].
  destruct (find_byte 61 a) as [i|] eqn:E.
  - intros [= <- <-]. apply find_byte_Some in E as (u & v & -> & Hi & _). apply word_solid in Ha as [_ Ha].
    destruct (utf8_cut_ascii u 61 v) as [Hu _]; [lia | by apply solid_utf8|].
    destruct (solid_text_cut 61 u v) as [_ Hv]; [lia|done..|].
    rewrite <- Hi. by rewrite slice_after_sep.
  - destruct rest as [|v rest]; [done|]. intros [= <- <-]. apply Forall_cons_1 in Hrest as [Hv _]. by apply word_solid in Hv as [_ Hv].
Qed.

Lemma st_set_effect origin w s t b : st_ok w -> In s settings -> means (set_kind s) t b -> (origin = Remote -> set_kind s <> KAddr) ->
  set_effect origin w (fst (st_set w (set_key s) b)) /\
  (written s b w (fst (st_set w (set_key s) b)) \/
   (snd (st_set w (set_key s) b) = false /\ unwritten w (fst (st_set w (set_key s) b)))).
Proof.
  intros Hw Hin [Hsol He] Hor. destruct Htab as (Hall & _). rewrite List.Forall_forall in Hall.
  destruct (Hall s Hin) as [_ _ Hkey Hkind _ _].
  destruct (encode_value_ok _ _ _ Hkind (solid_utf8 _ Hsol) He) as (Hb & Hne & Hlen).
  pose proof (st_set_val w (set_key s) b Hw Hkey Hb Hne Hlen) as H. destruct (st_set w (set_key s) b) as [w' ok].
  cbn [fst snd] in *. destruct H as (Hok & Hu & [H|[-> H]]).
  - split; [|by left]. split; [done|]. split; [done|]. right. by exists s, t, b.
  - split; [|by right]. split; [done|]. split; [done|]. by left.
Qed.

Lemma settings_set_effect origin args w : st_ok w -> Forall word args ->
  set_effect origin w (fst (settings_set settings origin args w)).
Proof.
  intros Hw Hargs. assert (Hsame : set_effect origin w w) by (split; [done|]; split; [done|]; by left).
  unfold settings_set. destruct (parse_assign args) as [[name value]|] eqn:Ep; [|done].
  pose proof (parse_assign_solid _ _ _ Hargs Ep) as Hsol. cbv zeta. split_if; [done|].
  destruct (table_find settings name) as [s|] eqn:Ef; [|done]. apply table_find_In in Ef as [Hin _].
  destruct (bool_decide (origin = Remote) && kind_is_addr (set_kind s)) eqn:Er; [done|].
  assert (Hor : origin = Remote -> set_kind s <> KAddr).
  { intros -> Hk. rewrite Hk, bool_decide_eq_true_2 in Er by done. done. }
  destruct (kind_is_addr (set_kind s) && _) eqn:Ea.
  - pose proof (st_rand_val w Hw) as Hr. destruct (st_rand w) as [w1 a]. destruct Hr as (Hw1 & Hu1 & Ha & Hv1).
    set (a1 := if a =? 0 then 1 else a).
    assert (Hm : means (set_kind s) (lit "0x" ++ fmt_08x a1) (le_bytes 4 a1)).
    { bool_hyps. destruct (set_kind s); try done.
      assert (Ha1 : u32_ok a1) by (unfold a1; split_if; mlia).
      split; [apply (solid_app (lit "0x")); [by apply ascii_solid | apply fmt_08x_solid]|].
      unfold encode_value. by rewrite parse_addr_08x. }
    pose proof (st_set_effect origin w1 s _ _ Hw1 Hin Hm Hor) as [(Hok & Hu & He) _].
    destruct (st_set w1 (set_key s) (le_bytes 4 a1)) as [w2 ok]. cbn [fst] in *.
    assert (Hres : set_effect origin w w2).
    { split; [done|]. split; [congruence|]. destruct He as [He|(s' & t & b & ? & ? & ? & He)].
      - left. intros k Hk. by rewrite He.
      - right. exists s', t, b. split_and!; try done. intros k Hk. rewrite (He k Hk). repeat case_decide; try done; apply Hv1. }
    by destruct ok.
  - destruct (encode_value (set_kind s) value) as [b|] eqn:Ee; [|done].
    pose proof (st_set_effect origin w s value b Hw Hin (conj Hsol Ee) Hor) as [He _].
    destruct (st_set w (set_key s) b) as [w2 ok]. cbn [fst] in *. by destruct ok.
Qed.

(** An accepted assignment on the console: the outcome is the write's. *)
Lemma settings_set_console s t b w : st_ok w -> In s settings -> means (set_kind s) t b ->
  let '(w', (pieces, oc)) := settings_set settings Console [set_name s ++ lit "=" ++ t] w in
  set_effect Console w w' /\ (pieces = [lit "ok"] \/ pieces = [lit "storage error"]) /\
  ((oc = outcome_ok /\ written s b w w') \/ (oc = outcome_code R_STORAGE /\ (written s b w w' \/ unwritten w w'))).
Proof.
  intros Hw Hin Hm. assert (Hrand : kind_is_addr (set_kind s) && eq_ignore_ascii_case t (lit "random") = false).
  { destruct Hm as [_ He]. destruct (set_kind s); try done. cbn [kind_is_addr andb encode_value] in *.
    destruct (parse_addr t) eqn:Ep; [|done]. by eapply parse_addr_not_random. }
  destruct Htab as (Hall & _). rewrite List.Forall_forall in Hall.
  destruct (Hall s Hin) as [_ Hne _ _ _ _]. unfold settings_set, parse_assign.
  change (lit "=" ++ t) with (61 :: t). rewrite find_byte_app by done. cbv beta iota zeta.
  change (1 <? zlen [set_name s ++ 61 :: t]) with false. cbv iota.
  rewrite slice_app_l, (table_find_name s) by done. cbn [bool_decide]. rewrite bool_decide_eq_false_2 by done. cbn [andb].
  rewrite slice_after_sep.
  rewrite Hrand. destruct Hm as [Hsol He]. rewrite He.
  pose proof (st_set_effect Console w s t b Hw Hin (conj Hsol He) ltac:(done)) as [Heff Hwr].
  destruct (st_set w (set_key s) b) as [w2 ok]. cbn [fst snd] in *. destruct ok.
  - split; [done|]. split; [by left|]. left. split; [done|]. by destruct Hwr as [|[? _]].
  - split; [done|]. split; [by right|]. right. split; [done|]. destruct Hwr as [|[_ ?]]; [by left | by right].
Qed.
End SettingsLaws.

(** ** Running lines *)

(** An output of at most one window takes one run of the handler. *)
Lemma stream_loop_short {W K} `{SK : !ShellSink K} (run : W -> W * (list (list Z) * Outcome)) env fuel w k :
  Forall utf8 (fst (snd (run w))) -> zlen (concat (fst (snd (run w)))) <= RESP_CAP ->
  exists k', stream_loop (S fuel) run env w k 0 = Some (fst (run w), k', snd (snd (run w))).
Proof.
  intros Hu Hl. cbn [stream_loop]. destruct (run w) as [w1 [pieces oc]]. cbn [fst snd] in *.
  destruct (pass_spec pieces 0 RESP_CAP Hu ltac:(lia) ltac:(mlia)) as (lo & hi & Hspec).
  destruct (pass (window_new 0 RESP_CAP) pieces) as [win out]. cbn [fst snd] in Hspec.
  assert (Hm : more win = false).
  { pose proof (zlen_nonneg (concat pieces)). destruct Hspec as [E1 E2 E3 Hr _ _ Hll Hhm E4 E5 _].
    assert (hi = zlen (concat pieces)).
    { destruct (decide (hi = zlen (concat pieces))); [done|]. specialize (Hhm (zlen (concat pieces))).
      rewrite boundary_len in Hhm. discriminate Hhm. lia. }
    unfold more, consumed. rewrite E1, E3, E4, E5. apply Z.ltb_ge. lia. }
  destruct (sink_push k out) as [k1 [|]]; cbn [negb]; [|by eexists]. rewrite Hm. cbn [negb].
  destruct (sink_done k1 _) as [k2 ?]. by eexists.
Qed.

Section Shell.
Context {W : Type} `{ST : !SettingsStore W} `{SL : !SettingsStoreLaws W}.
Context (settings : SettingsTable) (reports : list Z -> W -> list (list Z)) (app : list (Entry W)).
#[local] Abbreviation ROOT := (BASE_ROOT settings reports).

(** The SDK's [system settings set] is not shadowed by an app menu of that name. *)
Definition set_reachable : Prop := forall arg,
  resolve ROOT [lit "system"; lit "settings"; lit "set"; arg] app =
    RCmd {| cmd_name := lit "set"; cmd_args := ASettings true; cmd_run := settings_set settings; console_only := false |} 3.

Lemma export_line_tokens name t : word name -> solid_text t ->
  split_whitespace (lit "system settings set " ++ name ++ lit "=" ++ t) =
  [lit "system"; lit "settings"; lit "set"; name ++ lit "=" ++ t].
Proof.
  intros Hn Ht. assert (Hw : word (name ++ lit "=" ++ t)).
  { apply word_solid. split; [intros E%app_nil; by destruct E as [E%word_nonempty _]|].
    apply solid_app; [by apply word_solid in Hn as [_ Hn]|]. apply solid_app; [by apply ascii_solid | done]. }
  assert (Hl : forall s, forallb solidb (lit s) = true -> lit s <> [] -> word (lit s)).
  { intros s H1 H2. apply word_solid. split; [done | by apply ascii_solid]. }
  change (lit "system settings set " ++ name ++ lit "=" ++ t) with
    (lit "system" ++ 32 :: lit "settings" ++ 32 :: lit "set" ++ 32 :: (name ++ lit "=" ++ t)).
  assert (Hu : utf8 (name ++ lit "=" ++ t)) by auto with tower.
  assert (Hu1 : utf8 (lit "set" ++ 32 :: (name ++ lit "=" ++ t))) by (apply utf8_join; auto with tower; lia).
  assert (Hu2 : utf8 (lit "settings" ++ 32 :: lit "set" ++ 32 :: (name ++ lit "=" ++ t))) by (apply utf8_join; auto with tower; lia).
  rewrite !split_whitespace_word by (try done; try (by apply Hl); lia). by rewrite split_whitespace_one.
Qed.

(** Running one exported line on the console of any device with this table. *)
Lemma run_export_line {K} `{SK : !ShellSink K} fuel env s t b w k : table_ok settings -> set_reachable -> st_ok w -> In s settings ->
  means (set_kind s) t b -> zlen (export_line s t) <= MAX_LINE ->
  exists w' k' oc, stream_with (S fuel) env ROOT app (export_line s t) Console w k = Some (w', k', oc) /\
    set_effect settings Console w w' /\ ((oc = outcome_ok /\ written s b w w') \/ (oc = outcome_code R_STORAGE /\ (written s b w w' \/ unwritten w w'))).
Proof.
  intros Htab Hr Hw Hin Hm Hlen. pose proof Htab as (Hall & _). rewrite List.Forall_forall in Hall.
  destruct (Hall s Hin) as [Hname Hne _ _ _ _]. pose proof Hm as [Hsol _].
  pose proof (export_line_tokens (set_name s) t Hname Hsol) as Ht.
  assert (Hruns : runs ROOT app (export_line s t) Console
    {| cmd_name := lit "set"; cmd_args := ASettings true; cmd_run := settings_set settings; console_only := false |}
    [set_name s ++ lit "=" ++ t]).
  { split; [done|]. unfold export_line in *. rewrite Ht. split; [done|]. split; [done|]. exists 3. split; [|].
    - unfold tokenize. rewrite Ht. apply Hr.
    - unfold tokenize. by rewrite Ht. }
  rewrite (stream_with_runs _ _ _ _ _ _ _ _ _ _ Hruns). cbn [cmd_run].
  pose proof (settings_set_console settings Htab s t b w Hw Hin Hm) as Hset.
  pose proof (stream_loop_short (settings_set settings Console [set_name s ++ lit "=" ++ t]) env fuel w k) as Hloop.
  destruct (settings_set settings Console [set_name s ++ lit "=" ++ t] w) as [w' [pieces oc]]. cbn [fst snd] in Hloop.
  destruct Hset as (Heff & Hout & Hoc).
  assert (Hlit : utf8 (lit "ok") /\ utf8 (lit "storage error")) by (split; apply ascii_utf8; by apply asciib_ok).
  assert (Hz : zlen (concat [lit "ok"]) <= RESP_CAP /\ zlen (concat [lit "storage error"]) <= RESP_CAP).
  { clear. split; vm_compute; discriminate. }
  assert (H1 : Forall utf8 pieces) by (destruct Hout as [-> | ->]; (constructor; [apply Hlit | constructor])).
  assert (H2 : zlen (concat pieces) <= RESP_CAP) by (destruct Hout as [-> | ->]; apply Hz).
  destruct (Hloop H1 H2) as (k' & Hk'). exists w', k', oc. split; [exact Hk'|]. split; [exact Heff | exact Hoc].
Qed.

(** Typing lines into the console, one after the other. *)
Fixpoint type_lines (fuel : nat) (env : W -> W) (lines : list (list Z)) (w : W) : option (W * list Outcome) :=
  match lines with
  | [] => Some (w, [])
  | l :: lines =>
      match stream_with fuel env ROOT app l Console w {| cs_cmd_id := 0; cs_chunk := 0; cs_sent := [] |} with
      | Some (w, _, oc) => match type_lines fuel env lines w with Some (w, ocs) => Some (w, oc :: ocs) | None => None end
      | None => None
      end
  end.

Lemma type_export_lines (text : Setting -> list Z) fuel env todo w : table_ok settings -> set_reachable -> st_ok w ->
  (forall s, In s todo -> In s settings) -> NoDup (map set_key todo) ->
  Forall (fun s => (exists b, means (set_kind s) (text s) b) /\ zlen (export_line s (text s)) <= MAX_LINE) todo ->
  exists w' ocs, type_lines (S fuel) env (map (fun s => export_line s (text s)) todo) w = Some (w', ocs) /\
    st_ok w' /\ Forall (fun oc => oc = outcome_ok \/ oc = outcome_code R_STORAGE) ocs /\
    (forall k, 0 <= k <= 255 -> ~ In k (map set_key todo) -> st_val w' k = st_val w k) /\
    (Forall (fun oc => oc = outcome_ok) ocs ->
       Forall (fun s => forall b, encode_value (set_kind s) (text s) = Some b -> st_val w' (set_key s) = Some b) todo).
Proof.
  intros Htab Hr. revert w. induction todo as [|s todo IH]; intros w Hw Hsub Hnd Htodo.
  { exists w, []. split_and!; try done; constructor. }
  apply Forall_cons_1 in Htodo as [[(b & Hm) Hlen] Htodo]. cbn [map] in *. inversion Hnd as [|x l Hx Hnd']; subst.
  pose proof Htab as (Hall & _). rewrite List.Forall_forall in Hall.
  destruct (run_export_line fuel env s (text s) b w {| cs_cmd_id := 0; cs_chunk := 0; cs_sent := [] |} Htab Hr Hw
    (Hsub s (or_introl eq_refl)) Hm Hlen) as (w1 & k1 & oc & Hrun & (Hok1 & Hu1 & Heff) & Hoc).
  destruct (IH w1 Hok1) as (w2 & ocs & Htype & Hok2 & Hocs & Hkeep & Hdone); [|done|done|].
  { intros s' Hs'. apply Hsub. by right. }
  exists w2, (oc :: ocs). cbn [type_lines]. rewrite Hrun, Htype. split; [done|]. split; [done|].
  split; [constructor; [|done]; destruct Hoc as [[-> _]|[-> _]]; tauto|].
  assert (Hw1 : written s b w w1 \/ unwritten w w1) by tauto.
  assert (Hrange : forall s', In s' settings -> 0 <= set_key s' <= 255) by (intros s' Hs'; by destruct (Hall s' Hs')).
  split.
  - intros k Hk Hnk. rewrite Hkeep; [|done | intros Hin; apply Hnk; by right].
    destruct Hw1 as [Hw1|Hw1]; rewrite (Hw1 k Hk); [|done]. case_decide; [|done]. subst k. exfalso. apply Hnk. by left.
  - intros Hall'. apply Forall_cons_1 in Hall' as [Ho Hos]. constructor; [|by apply Hdone].
    intros b' Hb'. assert (Hwr : written s b w w1) by (destruct Hoc as [[_ ?]|[-> _]]; [done | discriminate Ho]).
    destruct Hm as [_ Hm]. assert (b' = b) as -> by congruence.
    rewrite Hkeep; [|apply Hrange, Hsub; by left | intros Hin; apply Hx; by apply list_elem_of_In].
    rewrite (Hwr _ (Hrange s (Hsub s (or_introl eq_refl)))). by case_decide.
Qed.

(** C22. An export replayed on another device clones the settings. On a well-formed table whose stored
    values were each accepted by their setting, [export] prints one [settings set] line per setting;
    typed into the console of any device with the same table, every line is accepted (only the
    store can still fail), and when none failed, each setting there holds bytes its kind stores for the
    exported text, and exports a text with the same meaning. The application's own commands must not shadow [settings set]
    ([set_reachable]), lines must fit the console's limit, and the reads of the exported stores must not fail. *)
Theorem export_replays fuel env w w0 : table_ok settings -> set_reachable -> st_ok w -> st_readable w -> st_ok w0 ->
  Forall (holds w) settings ->
  let lines := map (fun s => export_line s (setting_text w s true)) settings in
  Forall (fun l => zlen l <= MAX_LINE) lines ->
  concat (fst (snd (cmd_export settings Console [] w))) = concat (map (fun l => l ++ crlf) lines) /\
  exists w' ocs, type_lines (S fuel) env lines w0 = Some (w', ocs) /\
    Forall (fun oc => oc = outcome_ok \/ oc = outcome_code R_STORAGE) ocs /\
    (Forall (fun oc => oc = outcome_ok) ocs ->
       Forall (fun s => exists b, means (set_kind s) (setting_text w s true) b /\ st_val w' (set_key s) = Some b /\
                                  (st_readable w' -> means (set_kind s) (setting_text w' s true) b)) settings).
Proof.
  intros Htab Hr Hw Hrd Hw0 Hholds lines Hfit. split.
  { unfold cmd_export, lines. cbn [fst snd]. clear. induction settings as [|s l IH]; [done|].
    cbn [flat_map map concat]. rewrite concat_app, IH. unfold write_setting. cbn [concat]. by rewrite app_nil_r. }
  pose proof Htab as (Hall & Hnd & _). rewrite List.Forall_forall in Hall, Hholds, Hfit.
  assert (Hm : forall s, In s settings -> exists b, means (set_kind s) (setting_text w s true) b).
  { intros s Hs. destruct (export_text_means w s Hw Hrd (Hall s Hs) (Hholds s Hs)) as (b & Hb & _). by exists b. }
  destruct (type_export_lines (fun s => setting_text w s true) fuel env settings w0 Htab Hr Hw0) as
    (w' & ocs & Ht & Hok & Hocs & _ & Hdone); [done|done| |].
  { apply List.Forall_forall. intros s Hs. split; [by apply Hm|]. apply Hfit. unfold lines. by apply (in_map (fun s => export_line s (setting_text w s true))). }
  exists w', ocs. split; [done|]. split; [done|]. intros Ho. specialize (Hdone Ho). rewrite List.Forall_forall in Hdone.
  apply List.Forall_forall. intros s Hs. destruct (Hm s Hs) as [b Hb]. exists b. split; [done|].
  pose proof (Hdone s Hs b (proj2 Hb)) as Hv. split; [done|]. intros Hrd'. by eapply stored_text_means; eauto.
Qed.

(** *** Lines from the radio *)

(** What a remote line may do to the settings: values change only to accepted ones, no address
    changes, nothing stored disappears. *)
Definition settings_kept (w w' : W) : Prop :=
  st_ok w' /\ st_uid w' = st_uid w /\
  (forall s, In s settings -> holds w s -> holds w' s) /\
  (forall s, In s settings -> set_kind s = KAddr -> st_val w' (set_key s) = st_val w (set_key s)) /\
  (forall k, 0 <= k <= 255 -> is_Some (st_val w k) -> is_Some (st_val w' k)).
Lemma settings_kept_refl w : st_ok w -> settings_kept w w.
Proof. intros Hw. unfold settings_kept. by split_and!. Qed.
Lemma settings_kept_trans a b c : settings_kept a b -> settings_kept b c -> settings_kept a c.
Proof.
  intros (? & Hu & Hh & Ha & Hs) (? & Hu' & Hh' & Ha' & Hs'). unfold settings_kept. split_and!; try done; [congruence|..]; intros.
  - apply Hh'; [done|]. by apply Hh.
  - rewrite Ha' by done. by apply Ha.
  - apply Hs'; [done|]. by apply Hs.
Qed.
Lemma NoDup_map_inj {A} (f : A -> Z) l x y : NoDup (map f l) -> In x l -> In y l -> f x = f y -> x = y.
Proof.
  induction l as [|z l IH]; [done|]. cbn [map]. intros Hnd. inversion Hnd as [|z' l' Hz Hnd']; subst.
  intros [->|Hx] [->|Hy] E; [done| | |by apply IH].
  - exfalso. apply Hz. rewrite E. apply list_elem_of_In, in_map, Hy.
  - exfalso. apply Hz. rewrite <- E. apply list_elem_of_In, in_map, Hx.
Qed.
Lemma set_effect_kept w w' : table_ok settings -> set_effect settings Remote w w' -> settings_kept w w'.
Proof.
  intros (Hall & Hnd & _) (Hok & Hu & He). rewrite List.Forall_forall in Hall.
  assert (Hr : forall s, In s settings -> 0 <= set_key s <= 255) by (intros s Hs; by destruct (Hall s Hs)).
  unfold settings_kept. destruct He as [He|(s & t & b & Hin & Hm & Hna & He)].
  - split_and!; try done.
    + intros s Hs. unfold holds. by rewrite (He _ (Hr s Hs)).
    + intros s Hs _. by rewrite (He _ (Hr s Hs)).
    + intros k Hk. by rewrite (He k Hk).
  - split_and!; try done.
    + intros s' Hs'. unfold holds. rewrite (He _ (Hr s' Hs')). case_decide as E; [|done].
      assert (s' = s) as -> by (by apply (NoDup_map_inj set_key settings)). by exists t.
    + intros s' Hs' Hk. rewrite (He _ (Hr s' Hs')). case_decide as E; [|done].
      assert (s' = s) as -> by (by apply (NoDup_map_inj set_key settings)). by apply Hna in Hk.
    + intros k Hk Hv. rewrite (He k Hk). case_decide; [by eexists | done].
Qed.

(** Commands of a tree. *)
Fixpoint tree_all (P : Command W -> Prop) (e : Entry W) : Prop :=
  match e with
  | Menu _ ch => (fix all l := match l with [] => True | e :: l => tree_all P e /\ all l end) ch
  | Cmd c => P c
  end.
Definition level_all (P : Command W -> Prop) (l : list (Entry W)) : Prop := Forall (tree_all P) l.
Lemma tree_all_menu P n ch : tree_all P (Menu n ch) <-> level_all P ch.
Proof.
  unfold level_all. cbn [tree_all]. induction ch as [|e ch IH]; [by split|]. rewrite IH. split.
  - intros [? ?]. by constructor.
  - intros H. by inversion H.
Qed.
Lemma menu_children_all P l n ch : level_all P l -> menu_children l n = Some ch -> level_all P ch.
Proof.
  induction 1 as [|e l He H IH]; [done|]. cbn [menu_children]. destruct e as [m ch'|c]; [|done].
  case_bool_decide; [|done]. intros [= <-]. by apply tree_all_menu in He.
Qed.
Lemma find_cmd_all P l n c : level_all P l -> find_cmd_in l n = Some c -> P c.
Proof.
  induction 1 as [|e l He H IH]; [done|]. cbn [find_cmd_in]. destruct e as [m ch'|c']; [done|].
  case_bool_decide; [|done]. by intros [= <-].
Qed.
Lemma resolve_all P toks i a b c j : level_all P a -> level_all P b -> resolve_loop toks i a b = RCmd c j -> P c.
Proof.
  revert i a b. induction toks as [|t toks IH]; intros i a b Ha Hb; cbn [resolve_loop]; [done|].
  destruct (_ || _) eqn:E.
  - apply IH.
    + destruct (menu_children a t) eqn:Em; [|constructor]. exact (menu_children_all P a t _ Ha Em).
    + destruct (menu_children b t) eqn:Em; [|constructor]. exact (menu_children_all P b t _ Hb Em).
  - unfold find_cmd. destruct (find_cmd_in (a ++ b) t) as [c'|] eqn:Ef; [|done]. intros [= <- <-].
    eapply find_cmd_all; [|done]. by apply Forall_app.
Qed.

Definition remote_safe (c : Command W) : Prop :=
  console_only c = false -> forall args w, Forall word args -> st_ok w -> settings_kept w (fst (cmd_run c Remote args w)).
Lemma base_root_safe : table_ok settings -> level_all remote_safe ROOT.
Proof.
  intros Htab. assert (Hset : remote_safe {| cmd_name := lit "set"; cmd_args := ASettings true; cmd_run := settings_set settings; console_only := false |}).
  { intros _ args w Ha Hw. cbn [cmd_run]. apply set_effect_kept; [done|]. by apply settings_set_effect. }
  assert (Hget : forall n a, remote_safe {| cmd_name := n; cmd_args := a; cmd_run := settings_get settings; console_only := false |}).
  { intros n a _ args w _ Hw. cbn [cmd_run]. unfold settings_get. destruct args as [|x args]; [by apply settings_kept_refl|].
    destruct (table_find settings x); by apply settings_kept_refl. }
  unfold BASE_ROOT, level_all, entry_cmd, cmd_console_only.
  repeat lazymatch goal with
  | |- Forall _ [] => constructor
  | |- Forall _ (_ :: _) => constructor
  | |- tree_all _ (Menu _ _) => apply tree_all_menu; unfold level_all
  | |- tree_all _ (Cmd _) => cbn [tree_all]
  end; first [exact Hset | apply Hget | (intros _ args w _ Hw; by apply settings_kept_refl) | (intros H; discriminate H)].
Qed.
Lemma stream_loop_kept {K} `{SK : !ShellSink K} fuel run (env : W -> W) w k skip w' k' oc :
  (forall w, st_ok w -> settings_kept w (fst (run w))) -> (forall w, st_ok w -> settings_kept w (env w)) -> st_ok w ->
  stream_loop fuel run env w k skip = Some (w', k', oc) -> settings_kept w w'.
Proof.
  intros Hrun Henv. revert w k skip. induction fuel as [|fuel IH]; intros w k skip Hw; cbn [stream_loop]; [done|].
  pose proof (Hrun w Hw) as Hk. destruct (run w) as [w1 [pieces oc1]]. cbn [fst] in Hk.
  destruct (pass _ pieces) as [win out]. destruct (sink_push k out) as [k1 [|]]; cbn [negb]; [|by intros [= <- <- <-]].
  destruct (more win); cbn [negb]; [|by destruct (sink_done k1 _) as [k2 ?]; intros [= <- <- <-]].
  intros H. eapply settings_kept_trans; [exact Hk|]. assert (st_ok w1) by apply Hk.
  eapply settings_kept_trans; [by apply Henv|]. eapply IH; [|exact H]. by apply Henv.
Qed.

(** A line from the radio cannot re-address or wipe a node. Whatever the line, the transport and the
    other tasks' (equally harmless) work between the passes, running it leaves every address setting
    as it was, removes nothing stored, and changes other settings only to values they accept. *)
Theorem remote_line_keeps_address {K} `{SK : !ShellSink K} fuel env line w k w' k' oc :
  table_ok settings -> level_all remote_safe app -> (forall w, st_ok w -> settings_kept w (env w)) -> st_ok w ->
  stream_with fuel env ROOT app line Remote w k = Some (w', k', oc) -> settings_kept w w'.
Proof.
  intros Htab Happ Henv Hw H. pose proof (settings_kept_refl w Hw) as Hrefl. unfold stream_with in H.
  assert (Hreply : forall t r, reply w k t r = Some (w', k', oc) -> settings_kept w w').
  { intros t r. unfold reply. destruct (sink_push k t) as [k1 ?], (sink_done k1 r) as [k2 ?]. by intros [= <- <- <-]. }
  split_if_in H; [by eapply Hreply|]. split_if_in H; [by eapply Hreply|].
  destruct (resolve ROOT (tokenize line) app) as [a b|c i|] eqn:Er; [by eapply Hreply| |by eapply Hreply].
  destruct (console_only c) eqn:Ec; cbn [andb] in H.
  { rewrite bool_decide_eq_true_2 in H by done. by eapply Hreply. }
  pose proof (resolve_all remote_safe _ _ _ _ _ _ (base_root_safe Htab) Happ Er Ec) as Hc.
  eapply stream_loop_kept; [|exact Henv|exact Hw|exact H]. intros w1 Hw1. apply Hc; [|done].
  unfold tokenize. apply Forall_drop, Forall_take, split_whitespace_words.
Qed.
End Shell.
