(* ===== verification/ShellStore.v ===== *)
(** The shell's settings on the firmware's key-value store: the scoped handle
    (firmware/src/storage.rs, [Scoped]) over [Store.Kv] meets the contract ShellSettings asks of a
    store, and the settings theorems run on a concrete part. *)
From stdpp Require Import gmap.
From Stdlib Require Import Strings.String.
From S2P Require Import Prelude Bytes Str Kv KvWp KvLog KvScan KvAppend KvFlip KvMaint KvCommit KvLive KvSpec KvServe KvRam KvStore.
From S2P Require Import Shell ShellEngine ShellSettings.

(** The shell namespace. *)
Definition NS_SHELL : Z := 85.
Definition full_key (ns local : Z) : Z := Z.lor (Z.shiftl ns 8) local.

(** The device a handler sees: the store, the chip's address, and the random source (a stream of
    words and the number drawn). *)
Record Board (S : Type) := { b_kv : Store.Kv S; b_uid : Z; b_rng : nat -> Z; b_drawn : nat }.
Arguments b_kv {S}. Arguments b_uid {S}. Arguments b_rng {S}. Arguments b_drawn {S}.

Section Scoped.
Context {S E : Type} `{EE : !Eeprom S E}.
Context (capacity : Z) (rand_source : list Z) (wipe_error : KvError E -> list Z).

Definition scoped_get (w : Board S) (local cap : Z) : option (Z * list Z) :=
  match snd (Store.get_bytes (E := E) capacity (full_key NS_SHELL local) cap (b_kv w)) with
  | Ok r => r
  | Err _ => None
  end.
Definition scoped_set (w : Board S) (local : Z) (value : list Z) : Board S * bool :=
  let '(k, r) := Store.set_bytes (E := E) capacity (full_key NS_SHELL local) value (b_kv w) in
  ({| b_kv := k; b_uid := b_uid w; b_rng := b_rng w; b_drawn := b_drawn w |}, is_ok r).
Definition scoped_wipe (w : Board S) : Board S * option (list Z) :=
  let '(k, r) := Store.wipe (E := E) capacity (b_kv w) in
  ({| b_kv := k; b_uid := b_uid w; b_rng := b_rng w; b_drawn := b_drawn w |},
   match r with Ok _ => None | Err (Codec e) => Some (wipe_error e) | Err Frozen => Some [] end).
#[export] Instance board_store : SettingsStore (Board S) := {
  st_get := scoped_get;
  st_set := scoped_set;
  st_wipe := scoped_wipe;
  st_rand w := ({| b_kv := b_kv w; b_uid := b_uid w; b_rng := b_rng w; b_drawn := Datatypes.S (b_drawn w) |},
                wrap32 (b_rng w (b_drawn w)));
  st_rand_source _ := rand_source;
  st_uid := b_uid;
}.
End Scoped.

Lemma full_key_eq local : 0 <= local <= 255 -> full_key NS_SHELL local = 21760 + local.
Proof.
  intros H. assert (Hall : forallb (fun n => full_key NS_SHELL (Z.of_nat n) =? 21760 + Z.of_nat n) (seq 0 256) = true)
    by (vm_compute; reflexivity).
  rewrite List.forallb_forall in Hall. specialize (Hall (Z.to_nat local)). rewrite Z2Nat.id in Hall by lia.
  apply Z.eqb_eq, Hall, in_seq. lia.
Qed.

Section Laws.
Context {S E : Type} `{EE : !Eeprom S E} `{EL : !EepromLaws S E}.
Context (capacity : Z) (rand_source : list Z) (wipe_error : KvError E -> list Z).
Context (Hwords : atomic_words (S := S) (E := E)).
#[local] Existing Instance board_store.

Definition board_val (w : Board S) (local : Z) : option (list Z) :=
  kview capacity (image (Store.storage (b_kv w))) !! full_key NS_SHELL local.

#[export, refine] Instance board_laws : @SettingsStoreLaws (Board S) (board_store capacity rand_source wipe_error) := {
  st_ok w := StoreInv capacity (b_kv w);
  st_val := board_val;
  st_readable w := forall local cap, 0 <= local <= 255 -> cap = 4 \/ cap = MAX_SETTING ->
    is_ok (snd (Store.get_bytes (E := E) capacity (full_key NS_SHELL local) cap (b_kv w))) = true;
}.
Proof.
  - intros w key cap [Hcap _] Hrd Hkey Hc4. cbn [st_get board_store]. unfold scoped_get.
    specialize (Hrd key cap Hkey Hc4). assert (Hc : 0 <= cap) by (destruct Hc4; mlia). unfold Store.get_bytes in *. cbn [snd] in *.
    pose proof (reads_run _ _ _ (reads_get_bytes capacity (full_key NS_SHELL key) cap _ Hcap (image_ok _) Hc)) as [_ H].
    destruct (snd (Kv.get_bytes capacity (full_key NS_SHELL key) cap (Store.storage (b_kv w)))) as [r|e]; [|done].
    cbn [rmap_err]. rewrite H. unfold get_of, board_val. rewrite full_key_eq by done.
    rewrite (proj2 (Z.eqb_neq _ _)) by lia. destruct (_ !! _) as [v|]; [|done]. simpl. do 2 f_equal.
    unfold slice. rewrite drop_0. pose proof (zlen_nonneg v). destruct (decide (zlen v <= cap)).
    + rewrite Z.min_l by done. rewrite !take_ge; [done| |]; unfold zlen in *; lia.
    + by rewrite Z.min_r by lia.
  - intros w key v Hok Hkey Hb Hne Hlen. cbn [st_set board_store st_uid]. unfold scoped_set.
    assert (Ho : op_ok (Store.Set_ (full_key NS_SHELL key) v)) by (split; [rewrite full_key_eq by done; lia | done]).
    pose proof (set_bytes_post capacity (full_key NS_SHELL key) v (b_kv w) Hok Ho) as Hp.
    destruct (op_post_effective capacity _ _ _ _ Hwords Hp) as (took & Ht & Hv). destruct Hp as [Hinv _].
    destruct (Store.set_bytes capacity (full_key NS_SHELL key) v (b_kv w)) as [k r]. cbn [fst snd b_kv] in *.
    split; [done|]. split; [done|]. destruct took.
    + left. intros i Hi. unfold board_val. cbn [b_kv]. rewrite Hv. cbn [effect]. unfold upd.
      rewrite bool_decide_eq_false_2 by done. rewrite !full_key_eq by done.
      case_decide; [subst; apply lookup_insert_eq | apply lookup_insert_ne; lia].
    + right. split; [destruct r as [[]|[]]; done|]. intros i Hi. unfold board_val. cbn [b_kv]. by rewrite Hv.
  - intros w Hok. cbn [st_rand board_store st_uid]. split; [done|]. split; [done|]. split; [apply wrap32_ok | done].
Defined.
End Laws.

(** ** A concrete pair of devices *)

Module Demo.

Definition CAP : Z := 600.
Definition demo_uid : Z := 3735928559.
Definition source : list Z := lit "trng".
Definition no_error (_ : KvError unit) : list Z := lit "error".
#[local] Instance demo_store : SettingsStore (Board Ram) := board_store (E := unit) CAP source no_error.
#[local] Instance demo_laws : SettingsStoreLaws (Board Ram) := board_laws (E := unit) CAP source no_error ram_atomic.

(** The SDK's settings and an app's four. *)
Definition table : SettingsTable := table_iter BASE_SETTINGS
  [{| set_key := 16; set_name := lit "interval"; set_kind := KUint 1 3600; set_default := lit "30" |};
   {| set_key := 17; set_name := lit "mode"; set_kind := KEnum [lit "p2p"; lit "star"; lit "mesh"]; set_default := lit "star" |};
   {| set_key := 18; set_name := lit "offset"; set_kind := KInt (-100) 100; set_default := lit "0" |};
   {| set_key := 19; set_name := lit "led"; set_kind := KBool; set_default := lit "on" |}].

(** Boolean checks of the table's well-formedness (for ASCII texts). *)
Definition wordb (w : list Z) : bool := negb (bool_decide (w = [])) && forallb solidb w.
Definition kind_okb (k : Kind) : bool :=
  match k with
  | KStr max => (1 <=? max) && (max <=? u16_max)
  | KUint min max => (0 <=? min) && (min <=? max) && (max <=? u32_max)
  | KInt min max => (i32_min <=? min) && (min <=? max) && (max <=? i32_max)
  | KEnum choices => forallb wordb choices
  | KBool | KAddr => true
  end.
Definition setting_okb (s : Setting) : bool :=
  wordb (set_name s) && forallb (fun b => negb (b =? 61)) (set_name s) && (0 <=? set_key s) && (set_key s <=? 255)
  && kind_okb (set_kind s) && forallb solidb (set_default s)
  && (if encode_value (set_kind s) (set_default s) then true else false) && (zlen (set_default s) <=? MAX_SETTING).
Lemma wordb_ok w : wordb w = true -> word w.
Proof. unfold wordb. intros H. bool_hyps. apply word_solid. split; [done | by apply ascii_solid]. Qed.
Lemma forallb_Forall' {A} (f : A -> bool) (P : A -> Prop) l : (forall x, f x = true -> P x) -> forallb f l = true -> Forall P l.
Proof. intros Hf H. apply List.Forall_forall. intros x Hx. rewrite List.forallb_forall in H. by apply Hf, H. Qed.
Lemma kind_okb_ok k : kind_okb k = true -> kind_ok k.
Proof. destruct k; simpl; intros H; bool_hyps; try lia; try done. by apply (forallb_Forall' wordb word _ wordb_ok). Qed.
Lemma setting_okb_ok s : setting_okb s = true -> setting_ok s.
Proof.
  unfold setting_okb. intros H. bool_hyps. split.
  - by apply wordb_ok.
  - eapply forallb_Forall'; [|eassumption]. intros b Hb. simpl in Hb. by bool_hyps.
  - lia.
  - by apply kind_okb_ok.
  - destruct (encode_value (set_kind s) (set_default s)) as [b|] eqn:E; [|done]. exists b. split; [by apply ascii_solid | done].
  - lia.
Qed.
Lemma table_is_ok : table_ok table.
Proof.
  split; [apply (forallb_Forall' setting_okb); [apply setting_okb_ok | vm_compute; reflexivity]|].
  split; apply (bool_decide_unpack _); vm_compute; exact I.
Qed.

(** A device that came up on a blank part, was configured from its console and rebooted, and a
    factory-fresh one. *)
Definition fresh : Board Ram :=
  {| b_kv := Store.new (E := unit) CAP {| cells := zeros CAP; fuse := 1000 |}; b_uid := demo_uid; b_rng := Z.of_nat; b_drawn := 7 |}.
Definition no_reports (_ : list Z) (_ : Board Ram) : list (list Z) := [].
Definition configured : Board Ram :=
  match type_lines table no_reports [] 5 id
    [lit "system settings set interval=900"; lit "system settings set mode mesh"; lit "system settings set led=off";
     lit "system settings set offset=-40"; lit "system settings set identity=" ++ [195; 169]; lit "system settings set addr=0x1A2B3C4D"]
    fresh with
  | Some (w, _) => {| b_kv := Store.new (E := unit) CAP (Store.storage (b_kv w)); b_uid := b_uid w; b_rng := b_rng w; b_drawn := b_drawn w |}
  | None => fresh
  end.
Definition exported : list (list Z) := map (fun s => export_line s (setting_text configured s true)) table.
Example exported_lines : exported =
  [lit "system settings set identity=" ++ [195; 169]; lit "system settings set addr=0x1a2b3c4d"; lit "system settings set interval=900";
   lit "system settings set mode=mesh"; lit "system settings set offset=-40"; lit "system settings set led=false"].
Proof. vm_compute. reflexivity. Qed.

Lemma cap_ok_600 img : zlen img = 600 -> cap_ok CAP img.
Proof. intros H. unfold cap_ok. rewrite H. change (region CAP) with 600. change CAP with 600. lia. Qed.
Lemma new_ok s : zlen (image (Store.storage (Store.new (E := unit) CAP s))) = 600 -> StoreInv CAP (Store.new (E := unit) CAP s).
Proof. intros H. split; [by apply cap_ok_600 | apply maint_new_ok]. Qed.
Lemma fresh_ok : st_ok fresh.
Proof. apply new_ok. vm_compute. reflexivity. Qed.
Lemma configured_ok : st_ok configured.
Proof.
  assert (H : StoreInv CAP (b_kv configured)); [|exact H].
  split; [apply cap_ok_600; vm_compute; reflexivity|]. assert (Hm : Store.maint (b_kv configured) = maint_new) by (vm_compute; reflexivity).
  rewrite Hm. apply maint_new_ok.
Qed.
Lemma configured_readable : st_readable configured.
Proof.
  assert (H : forallb (fun n => is_ok (snd (Store.get_bytes (E := unit) CAP (full_key NS_SHELL (Z.of_nat n)) 4 (b_kv configured))) &&
    is_ok (snd (Store.get_bytes (E := unit) CAP (full_key NS_SHELL (Z.of_nat n)) MAX_SETTING (b_kv configured)))) (seq 0 256) = true)
    by (vm_compute; reflexivity).
  rewrite List.forallb_forall in H. intros local cap Hl Hc. specialize (H (Z.to_nat local)). rewrite Z2Nat.id in H by lia.
  apply andb_true_iff in H as [H4 H64]; [|apply in_seq; lia]. destruct Hc as [-> | ->]; [exact H4 | exact H64].
Qed.
Lemma set_is_reachable : set_reachable table no_reports [].
Proof. intros arg. reflexivity. Qed.
(** The texts typed are accepted by their settings. *)
Definition typed : list (Setting * list Z) := combine table
  [[195; 169]; lit "0x1A2B3C4D"; lit "900"; lit "mesh"; lit "-40"; lit "off"].
Lemma configured_holds : Forall (holds configured) table.
Proof.
  assert (Ht : Forall solid_text (map snd typed)).
  { assert (Hs : solid_text [195; 169]).
    { exists [233]. split; [|reflexivity]. constructor; [|constructor]. split; [left; lia | reflexivity]. }
    constructor; [exact Hs|]. apply (forallb_Forall' (forallb solidb)); [apply ascii_solid | vm_compute; reflexivity]. }
  assert (Hv : forallb (fun st => bool_decide (st_val configured (set_key (fst st)) = encode_value (set_kind (fst st)) (snd st))) typed = true)
    by (vm_compute; reflexivity).
  assert (He : map fst typed = table) by reflexivity. rewrite <- He. apply Forall_map.
  rewrite List.forallb_forall in Hv. rewrite Forall_map in Ht. rewrite List.Forall_forall in *.
  intros st Hst. specialize (Hv st Hst). bool_hyps. unfold holds. rewrite Hv.
  destruct (encode_value (set_kind (fst st)) (snd st)) as [b|] eqn:E; [|exact I]. exists (snd st). split; [by apply Ht | exact E].
Qed.

Lemma export_replays_witness :
  exists w' ocs, type_lines table no_reports [] 5 id exported fresh = Some (w', ocs) /\
    Forall (fun oc => oc = outcome_ok) ocs /\
    st_val w' 16 = Some [132; 3; 0; 0] /\ st_val w' 17 = Some (lit "mesh").
Proof.
  destruct (export_replays table no_reports [] 4 id configured fresh table_is_ok set_is_reachable configured_ok configured_readable
    fresh_ok configured_holds) as (_ & w' & ocs & Hrun & _ & _).
  - apply (forallb_Forall' (fun l => zlen l <=? MAX_LINE)); [intros l Hl; apply Z.leb_le; exact Hl | vm_compute; reflexivity].
  - change (map (fun s => export_line s (setting_text configured s true)) table) with exported in Hrun.
    assert (Hc : match type_lines table no_reports [] 5 id exported fresh with
                 | Some (w, ocs) => forallb (fun oc => (result_code oc =? 0) && negb (reboot oc)) ocs &&
                     bool_decide (st_val w 16 = Some [132; 3; 0; 0]) && bool_decide (st_val w 17 = Some (lit "mesh"))
                 | None => false
                 end = true) by (vm_compute; reflexivity).
    rewrite Hrun in Hc. bool_hyps. exists w', ocs. split; [exact Hrun|]. split; [|split; assumption].
    eapply forallb_Forall'; [|eassumption]. intros [r rb] Hr. simpl in Hr. bool_hyps. subst r. destruct rb; [discriminate | reflexivity].
Defined.

(** A remote attempt to re-address and a remote wipe. *)
Definition remote_lines : list (list Z) :=
  [lit "system settings set addr=auto"; lit "system eeprom wipe confirm"; lit "system settings set interval=60"].
Definition remote_run (line : list Z) : option (Board Ram * ConsoleSink * Outcome) :=
  stream_with 9 id (BASE_ROOT table no_reports) [] line Remote configured {| cs_cmd_id := 1; cs_chunk := 0; cs_sent := [] |}.
Lemma remote_runs : forallb (fun line => if remote_run line then true else false) remote_lines = true.
Proof. vm_compute. reflexivity. Qed.
Lemma configured_addr : st_val configured 1 = Some [77; 60; 43; 26].
Proof. vm_compute. reflexivity. Qed.
Lemma remote_line_keeps_address_witness :
  Forall (fun line => match remote_run line with
                      | Some (w', _, _) => st_val w' 1 = Some [77; 60; 43; 26]
                      | None => False
                      end) remote_lines.
Proof.
  apply List.Forall_forall. intros line Hin. pose proof (proj1 (List.forallb_forall _ _) remote_runs line Hin) as Hb. cbv beta in Hb.
  destruct (remote_run line) as [[[w' k'] oc]|] eqn:Hrun; [|discriminate Hb].
  destruct (remote_line_keeps_address table no_reports [] 9 id line configured
    {| cs_cmd_id := 1; cs_chunk := 0; cs_sent := [] |} w' k' oc table_is_ok) as (_ & _ & _ & Haddr & _).
  - constructor.
  - intros w Hw. by apply settings_kept_refl.
  - apply configured_ok.
  - exact Hrun.
  - specialize (Haddr {| set_key := ADDR_KEY; set_name := lit "addr"; set_kind := KAddr; set_default := lit "auto" |}).
    cbn [set_key] in Haddr. change ADDR_KEY with 1 in Haddr. rewrite Haddr; [exact configured_addr | right; left; reflexivity | reflexivity].
Defined.
End Demo.
