(* ===== verification/Flasher.v ===== *)
(** The host side of the boot-loader protocol (crates/flasher/src: error.rs, target.rs, bootloader.rs,
    firmware.rs, and the transport-generic parts of flash.rs, rdp.rs and chip.rs): the AN3155 commands
    over an abstract byte transport, and the erase, write, verify and protection-probe procedures built
    from them. Progress reports are a log next to the transport. *)
From S2P Require Import Prelude Bytes.

(** ** Errors (error.rs)

    The message texts ([context], [operation]) are left out; transport failures are one case. *)
Inductive NackStage := NCommand | NPayload | NOperation.
#[export] Instance NackStage_eq_dec : EqDecision NackStage.
Proof. solve_decision. Defined.
Inductive Error :=
| Io
| Nack (stage : NackStage)
| Timeout
| UnexpectedByte (got expected : Z)
| BootloaderInit (attempts : Z)
| VerifyMismatch (address got expected : Z)
| PartialErase (erased kib id : Z)
| InvalidArgument
| FirmwareTooLarge (size max : Z)
| Disconnected
| ReadoutProtected
| ReadoutUnchanged (protect : bool)
| ReadoutUnconfirmed (protect : bool) (error : Error) (readback : result Error bool)
| UnknownChip (id : Z).

(** ** The target (target.rs) *)

Definition FLASH_BASE : Z := 0x08000000.
Definition MAX_FLASH_SIZE : Z := 192 * 1024.
Definition SRAM_BASE : Z := 0x20000000.
Definition MAX_SRAM_SIZE : Z := 20 * 1024.
Definition MAX_BLOCK : Z := 256.
Definition WRITE_ALIGN : Z := 8.
Definition PAGE_SIZE : Z := 128.
Definition ERASE_CHUNK : Z := 80.
#[export] Hint Unfold FLASH_BASE MAX_FLASH_SIZE SRAM_BASE MAX_SRAM_SIZE MAX_BLOCK WRITE_ALIGN PAGE_SIZE ERASE_CHUNK : machine.
Definition pages_in (bytes : Z) : Z := bytes / PAGE_SIZE.
Definition FLASH_DENSITIES_PAGES : list Z :=
  [pages_in (16 * 1024); pages_in (32 * 1024); pages_in (64 * 1024); pages_in (128 * 1024); pages_in (192 * 1024)].
Definition is_valid_density_pages (pages : Z) : bool := existsb (Z.eqb pages) FLASH_DENSITIES_PAGES.
Definition max_flash_size (id : Z) : option Z :=
  if id =? 0x457 then Some (16 * 1024)
  else if id =? 0x425 then Some (32 * 1024)
  else if id =? 0x417 then Some (64 * 1024)
  else if id =? 0x447 then Some (192 * 1024)
  else None.

(** ** Image checks (firmware.rs) *)

Inductive ImageError :=
| Elf | IntelHex | TooShort (len : Z) | BadStackPointer (sp : Z) | BadResetVector (pc last : Z).
Definition is_ascii_hexdigit (b : Z) : bool :=
  ((48 <=? b) && (b <=? 57)) || ((97 <=? b) && (b <=? 102)) || ((65 <=? b) && (b <=? 70)).
Definition validate (data : list Z) : result ImageError unit :=
  if bool_decide (slice data 0 4 = [0x7F; 69; 76; 70]) then Err Elf
  else if (11 <=? zlen data) && (byte_at data 0 =? 58) && forallb is_ascii_hexdigit (slice data 1 10) then Err IntelHex
  else if zlen data <? 8 then Err (TooShort (zlen data))
  else
    let word i := le_val (slice data i 4) in
    let sp := word 0 in
    let pc := word 4 in
    if (sp <=? SRAM_BASE) || (SRAM_BASE + MAX_SRAM_SIZE <? sp) then Err (BadStackPointer sp)
    else
      let last := sat_add u32_max FLASH_BASE (Z.min (zlen data) u32_max) in
      let entry := Z.land pc (Z.lxor 1 u32_max) in
      if (Z.land pc 1 =? 0) || (entry <? FLASH_BASE) || (last <=? entry) then Err (BadResetVector pc last)
      else Ok tt.

(** ** The protocol engine (bootloader.rs) *)

Definition ACK : Z := 0x79.
Definition NACK : Z := 0x1F.
Definition INIT : Z := 0x7F.
Definition CMD_GET : Z := 0x00.
Definition CMD_GET_ID : Z := 0x02.
Definition CMD_READ_MEMORY : Z := 0x11.
Definition CMD_GO : Z := 0x21.
Definition CMD_WRITE_MEMORY : Z := 0x31.
Definition CMD_EXT_ERASE : Z := 0x44.
Definition CMD_READOUT_PROTECT : Z := 0x82.
Definition CMD_READOUT_UNPROTECT : Z := 0x92.

(** [Transport]: the byte-level serial operations, and the passing of time. *)
Class Transport (T : Type) := {
  write_all : T -> list Z -> T * result Error unit;
  read_exact_buf : T -> Z -> T * result Error (list Z);
  clear_input : T -> T * result Error unit;
  set_timeout : T -> Z -> T * result Error unit;
  reset_timeout : T -> T * result Error unit;
  sleep : T -> Z -> T;
}.

Definition cmd_frame (cmd : Z) : list Z := [cmd; Z.lxor cmd 0xFF].
Definition xor_all (init : Z) (l : list Z) : Z := fold_left Z.lxor l init.
Definition address_frame (a : Z) : list Z := let b := be_bytes 4 a in b ++ [xor_all 0 b].
Definition write_data_frame (data : list Z) : list Z :=
  let n := wrap8 (zlen data - 1) in [n] ++ data ++ [xor_all n data].
Definition erase_frame (pages : list Z) : list Z :=
  let count := wrap16 (zlen pages - 1) in
  let f := be_bytes 2 count ++ flat_map (be_bytes 2) pages in
  f ++ [xor_all 0 f].
Definition parse_chip_id (buf : list Z) : Z :=
  if zlen buf =? 0 then 0
  else if zlen buf =? 1 then byte_at buf 0
  else Z.lor (Z.shiftl (byte_at buf 0) 8) (byte_at buf 1).

Section Bootloader.
Context {T : Type} `{TR : !Transport T}.
#[local] Abbreviation M := (M T Error).

Definition read_byte : M Z := let! b := (fun t => read_exact_buf t 1) in ret (byte_at b 0).
Definition write (buf : list Z) : M unit := fun t => write_all t buf.
Definition read_exact (n : Z) : M (list Z) := fun t => read_exact_buf t n.

Definition read_ack (stage : NackStage) : M unit :=
  let! b := read_byte in
  if b =? ACK then ret tt
  else if b =? NACK then fail (Nack stage)
  else fail (UnexpectedByte b ACK).
Definition send_command (cmd : Z) : M unit := write (cmd_frame cmd) ;;; read_ack NCommand.
Definition send_address (a : Z) : M unit := write (address_frame a) ;;; read_ack NPayload.
Definition init : M unit := clear_input ;;; write [INIT] ;;; read_ack NCommand.
Definition get_id : M Z :=
  send_command CMD_GET_ID ;;;
  let! n := read_byte in
  let! buf := read_exact (n + 1) in
  read_ack NPayload ;;;
  ret (parse_chip_id buf).
Definition get : M (Z * list Z) :=
  send_command CMD_GET ;;;
  let! n := read_byte in
  let! version := read_byte in
  let! cmds := read_exact n in
  read_ack NPayload ;;;
  ret (version, cmds).
(** [m] under a timeout, the default restored on both outcomes ([let _ = self.port.reset_timeout()]). *)
Definition under_timeout {A} (timeout : Z) (m : M A) : M A :=
  (fun t => set_timeout t timeout) ;;; (fun t => let '(t, r) := m t in (fst (reset_timeout t), r)).
Definition extended_erase_pages (pages : list Z) (timeout : Z) : M unit :=
  if bool_decide (pages = []) || (80 <? zlen pages) then fail InvalidArgument
  else if existsb (fun p => pages_in MAX_FLASH_SIZE <=? p) pages then fail InvalidArgument
  else
    send_command CMD_EXT_ERASE ;;;
    under_timeout timeout (write (erase_frame pages) ;;; read_ack NPayload).
Definition write_block (addr : Z) (data : list Z) : M unit :=
  if bool_decide (data = []) || (256 <? zlen data) then fail InvalidArgument
  else if (addr <? FLASH_BASE) || (FLASH_BASE + MAX_FLASH_SIZE <? addr + zlen data) then fail InvalidArgument
  else
    send_command CMD_WRITE_MEMORY ;;; send_address addr ;;;
    write (write_data_frame data) ;;; read_ack NPayload.
Definition read_block (addr len : Z) : M (list Z) :=
  if negb ((1 <=? len) && (len <=? 256)) then fail InvalidArgument
  else
    send_command CMD_READ_MEMORY ;;; send_address addr ;;;
    (let n := wrap8 (len - 1) in write [n; Z.lxor n 0xFF]) ;;;
    read_ack NPayload ;;;
    read_exact len.
Definition go (addr : Z) : M unit := send_command CMD_GO ;;; send_address addr.
Definition discard_input (settle : Z) : M unit := (fun t => (sleep t settle, Ok tt)) ;;; clear_input.
Definition await_second_ack (timeout : Z) : M unit := under_timeout timeout (read_ack NOperation).
End Bootloader.

(** ** Procedures (flash.rs, rdp.rs, chip.rs)

    They run over the transport and the progress reports made so far. *)
Inductive Progress :=
| Connecting (attempt of_ : Z)
| ConnectError (attempt of_ : Z) (error : Error)
| ChipIdentified (id : Z)
| EraseP (pages_done pages_total : Z)
| WriteP (bytes_done bytes_total : Z)
| VerifyP (bytes_done bytes_total : Z)
| Starting
| ReadoutProbed (readout_protected : bool)
| ReadoutChanging (protect : bool).
Record FlashOptions := { opt_erase : bool; opt_verify : bool; opt_run : bool; opt_go : bool }.
Definition default_options : FlashOptions := {| opt_erase := true; opt_verify := true; opt_run := true; opt_go := false |}.

Definition ERASE_TIMEOUT : Z := 30000.
Definition CONNECT_ATTEMPTS : Z := 5.
Definition RDP_TIMEOUT : Z := 30000.
Definition RESET_SETTLE : Z := 100.
Definition UNCONFIRMED_SETTLE : Z := 2000.
Definition PROBE_ATTEMPTS : nat := 2.
Definition PROBE_LEN : Z := 4.
Definition DRAIN : Z := 20.
#[export] Hint Unfold PROBE_LEN : machine.

Definition pages_for_length (length max_pages : Z) : Z := Z.min (div_ceil length PAGE_SIZE) max_pages.
Definition check_firmware_len (len : Z) : result Error unit :=
  if len =? 0 then Err InvalidArgument
  else if MAX_FLASH_SIZE <? wrap32 len then Err (FirmwareTooLarge len MAX_FLASH_SIZE)
  else Ok tt.
Definition check_fits_chip (len id : Z) : result Error unit :=
  match max_flash_size id with
  | None => Err (UnknownChip id)
  | Some max => if max <? len then Err (FirmwareTooLarge len max) else Ok tt
  end.
(** [first..last] as page numbers of [u16]. *)
Definition page_list (first last : Z) : list Z :=
  map (fun p => if u16_max <? p then u16_max else p) (seqZ first (last - first)).
(** [chunk] padded to a multiple of [align]. *)
Definition pad_block (chunk : list Z) (align : Z) : list Z :=
  chunk ++ repeat 0xFF (Z.to_nat ((align - zlen chunk mod align) mod align)).

Section Procedures.
Context {T : Type} `{TR : !Transport T}.
#[local] Abbreviation B := (M T Error).
#[local] Abbreviation M := (M (T * list Progress) Error).

Definition progress (p : Progress) : M unit := fun '(t, ps) => ((t, ps ++ [p]), Ok tt).
(** A result carried into the monad. *)
Definition of_result {S A} (r : result Error A) : Prelude.M S Error A := fun s => (s, r).

Fixpoint erase_loop (fuel : nat) (count page : Z) : M unit :=
  match fuel with
  | O => ret tt
  | S fuel =>
      if page <? count then
        let last := Z.min (page + ERASE_CHUNK) count in
        lift (extended_erase_pages (page_list page last) ERASE_TIMEOUT) ;;;
        progress (EraseP last count) ;;;
        erase_loop fuel count last
      else ret tt
  end.
Definition erase_pages (count : Z) : M unit :=
  if pages_in MAX_FLASH_SIZE <? count then fail InvalidArgument
  else progress (EraseP 0 count) ;;; erase_loop (Z.to_nat count) count 0.

Definition erase_range (first last : Z) : B unit := extended_erase_pages (page_list first last) ERASE_TIMEOUT.
(** The narrowing loop: the largest prefix length known to erase. *)
Fixpoint bisect_loop (fuel : nat) (start good bad : Z) : B Z :=
  match fuel with
  | O => ret good
  | S fuel =>
      if 1 <? bad - good then
        let mid := good + (bad - good) / 2 in
        fun t =>
          match erase_range start (start + mid) t with
          | (t, Ok _) => bisect_loop fuel start mid bad t
          | (t, Err (Nack NPayload)) => bisect_loop fuel start good mid t
          | (t, Err e) => (t, Err e)
          end
      else ret good
  end.
Definition bisect_erase_boundary (start last : Z) : B Z :=
  let! good := bisect_loop (Z.to_nat (last - start)) start 0 (last - start) in
  (if 0 <? good then erase_range start (start + good) else ret tt) ;;;
  ret (start + good).
(** The chunk walk: the pages erased, and whether a page list was refused. *)
Fixpoint erase_chip_loop (fuel : nat) (max_pages page : Z) : M (Z * bool) :=
  match fuel with
  | O => ret (page, false)
  | S fuel =>
      if page <? max_pages then
        let last := Z.min (page + ERASE_CHUNK) max_pages in
        fun '(t, ps) =>
          match extended_erase_pages (page_list page last) ERASE_TIMEOUT t with
          | (t, Ok _) => (progress (EraseP last max_pages) ;;; erase_chip_loop fuel max_pages last) (t, ps)
          | (t, Err (Nack NPayload)) =>
              if 0 <? page then
                (let! page := lift (bisect_erase_boundary page last) in
                 progress (EraseP page page) ;;; ret (page, true)) (t, ps)
              else ((t, ps), Err (Nack NPayload))
          | (t, Err e) => ((t, ps), Err e)
          end
      else ret (page, false)
  end.
Definition erase_chip (id : Z) : M Z :=
  match max_flash_size id with
  | None => fail (UnknownChip id)
  | Some chip_max =>
      let max_pages := pages_in MAX_FLASH_SIZE in
      progress (EraseP 0 max_pages) ;;;
      let! (page, hit_boundary) := erase_chip_loop (Z.to_nat max_pages) max_pages 0 in
      if hit_boundary && (negb (is_valid_density_pages page) || negb (page <=? pages_in chip_max))
      then fail (PartialErase page (page * PAGE_SIZE / 1024) id)
      else ret page
  end.

(** The first differing position of two blocks. *)
Fixpoint first_difference (got want : list Z) (i : Z) : option Z :=
  match got, want with
  | g :: got, w :: want => if g =? w then first_difference got want (i + 1) else Some i
  | _, _ => None
  end.
(** Verifies from [offset] up to [last]; returns the new [verified]. *)
Fixpoint verify_loop (fuel : nat) (firmware : list Z) (last offset verified : Z) : M Z :=
  match fuel with
  | O => ret verified
  | S fuel =>
      if offset <? last then
        let len := Z.min MAX_BLOCK (last - offset) in
        let addr := FLASH_BASE + offset in
        let! data := lift (read_block addr len) in
        let expected := slice firmware offset len in
        match first_difference data expected 0 with
        | Some i => fail (VerifyMismatch (addr + i) (byte_at data i) (byte_at expected i))
        | None =>
            progress (VerifyP (verified + len) (zlen firmware)) ;;;
            verify_loop fuel firmware last (offset + len) (verified + len)
        end
      else ret verified
  end.
Definition verify_range (firmware : list Z) (first last verified : Z) : M Z :=
  progress (VerifyP verified (zlen firmware)) ;;; verify_loop (Z.to_nat (last - first)) firmware last first verified.
(** Every block from number [i] on. *)
Fixpoint write_loop (fuel : nat) (firmware : list Z) (i written : Z) : M unit :=
  match fuel with
  | O => ret tt
  | S fuel =>
      if i * MAX_BLOCK <? zlen firmware then
        let chunk := slice firmware (i * MAX_BLOCK) (Z.min MAX_BLOCK (zlen firmware - i * MAX_BLOCK)) in
        lift (write_block (FLASH_BASE + i * MAX_BLOCK) (pad_block chunk WRITE_ALIGN)) ;;;
        progress (WriteP (written + zlen chunk) (zlen firmware)) ;;;
        write_loop fuel firmware (i + 1) (written + zlen chunk)
      else ret tt
  end.
Definition write_image (firmware : list Z) (opts : FlashOptions) : M unit :=
  (if opt_erase opts then erase_pages (pages_for_length (zlen firmware) (pages_in MAX_FLASH_SIZE)) else ret tt) ;;;
  let total := zlen firmware in
  let first := Z.min total MAX_BLOCK in
  progress (WriteP 0 total) ;;;
  write_loop (Z.to_nat total) firmware 1 0 ;;;
  let! verified := if opt_verify opts && (first <? total) then verify_range firmware first total 0 else ret 0 in
  lift (write_block FLASH_BASE (pad_block (slice firmware 0 first) WRITE_ALIGN)) ;;;
  progress (WriteP total total) ;;;
  if opt_verify opts then verify_range firmware 0 first verified ;;; ret tt else ret tt.

(** The readout-protection probe (rdp.rs). *)
Fixpoint probe_loop (attempts : nat) : B bool :=
  match attempts with
  | O => ret true
  | S attempts =>
      fun t =>
        match read_block FLASH_BASE PROBE_LEN t with
        | (t, Ok _) => (t, Ok false)
        | (t, Err (Nack NCommand)) => (discard_input DRAIN ;;; get_id ;;; probe_loop attempts) t
        | (t, Err e) => (t, Err e)
        end
  end.
Definition probe : B bool := probe_loop PROBE_ATTEMPTS.
Definition identify (announce : bool) : M (Z * bool) :=
  let! id := lift get_id in
  (if announce then progress (ChipIdentified id) else ret tt) ;;;
  let! readout_protected := lift probe in
  progress (ReadoutProbed readout_protected) ;;;
  ret (id, readout_protected).
(** AN3155 Readout Protect / Unprotect (bootloader.rs): the command, the caller's [accepted] on its own
    state, the second ACK. *)
Definition readout_change {P} (cmd timeout : Z) (accepted : P -> P) : Prelude.M (T * P) Error unit :=
  lift (send_command cmd) ;;;
  (fun '(t, p) => ((t, accepted p), Ok tt)) ;;;
  lift (await_second_ack timeout).
Definition readout_protect {P} (timeout : Z) (accepted : P -> P) := readout_change CMD_READOUT_PROTECT timeout accepted.
Definition readout_unprotect {P} (timeout : Z) (accepted : P -> P) := readout_change CMD_READOUT_UNPROTECT timeout accepted.

(** [read_info] of chip.rs. *)
Record ChipInfo := { ci_id : Z; bootloader_version : option Z; commands : list Z; ci_readout_protected : bool }.
Definition read_info : M ChipInfo :=
  let! id := lift get_id in
  progress (ChipIdentified id) ;;;
  let! (v, cmds) := fun '(t, ps) =>
    match get t with
    | (t, Ok (version, cmds)) => ((t, ps), Ok (Some version, cmds))
    | (t, Err _) => (lift (discard_input DRAIN) ;;; ret (None, [])) (t, ps)
    end in
  let! readout_protected := lift probe in
  progress (ReadoutProbed readout_protected) ;;;
  ret {| ci_id := id; bootloader_version := v; commands := cmds; ci_readout_protected := readout_protected |}.
End Procedures.
