(* ===== verification/FlashBoard.v ===== *)
(** A board behind a serial port (crates/flasher/src: port.rs, and the port-level procedures of flash.rs,
    rdp.rs and chip.rs): the reset and BOOT0 line sequences, entering the boot loader with retries, and the
    whole flash, erase, protect, unprotect and info operations. *)
From S2P Require Import Prelude Bytes Flasher.

Definition BOOT_PRIME : Z := 10.
Definition BOOT_RESET_HOLD : Z := 50.
Definition BOOT_RELEASE_HOLD : Z := 50.
Definition BOOT_RELEASE_HOLD_MAX : Z := 400.
Definition BOOT_PRE_INIT : Z := 50.
Definition RESET_PULSE : Z := 100.
Definition APP_BOOT : Z := 150.

(** The modem lines of the serial handle ([true] = asserted) and its output buffer. *)
Class Lines (T : Type) := {
  set_rts : T -> bool -> T * result Error unit;
  set_dtr : T -> bool -> T * result Error unit;
  clear_output : T -> T * result Error unit;
}.

(** [m.inspect_err(|_| { let _ = cleanup; })]. *)
Definition on_err {S A} (cleanup : M S Error unit) (m : M S Error A) : M S Error A :=
  fun s => match m s with (s, Ok a) => (s, Ok a) | (s, Err e) => (fst (cleanup s), Err e) end.

(** ** The line sequences (port.rs) *)

Section Port.
Context {T : Type} `{TR : !Transport T} `{LN : !Lines T}.
#[local] Abbreviation B := (M T Error).

Definition rts (level : bool) : B unit := fun t => set_rts t level.
Definition dtr (level : bool) : B unit := fun t => set_dtr t level.
Definition pause (ms : Z) : B unit := fun t => (sleep t ms, Ok tt).
Definition set_lines (r d : bool) : B unit := rts r ;;; dtr d.
Definition clear_buffers : B unit := clear_input ;;; clear_output.
Definition drive_into_bootloader (release_hold : Z) : B unit :=
  rts true ;;; dtr false ;;; pause BOOT_RESET_HOLD ;;;
  dtr true ;;; rts false ;;; pause release_hold ;;;
  dtr false ;;; pause BOOT_PRE_INIT ;;; clear_input.
Definition reset_into_bootloader_with_hold (release_hold : Z) : B unit :=
  clear_buffers ;;; rts true ;;; dtr true ;;; pause BOOT_PRIME ;;;
  on_err (set_lines true true) (drive_into_bootloader release_hold).
Definition pulse_reset_into_app : B unit := rts true ;;; dtr false ;;; pause RESET_PULSE ;;; rts false.
Definition reset_into_app_settle (settle : Z) : B unit :=
  on_err (set_lines true true) pulse_reset_into_app ;;;
  if settle =? 0 then ret tt else pause settle.
Definition reset_into_app : B unit := reset_into_app_settle APP_BOOT.

(** ** Entering the boot loader (flash.rs) *)

#[local] Abbreviation M := (M (T * list Progress) Error).

Definition boot_release_hold (attempt : Z) : Z :=
  Z.min (BOOT_RELEASE_HOLD * Z.shiftl 1 (Z.min (sat_sub attempt 1) 16)) BOOT_RELEASE_HOLD_MAX.
Fixpoint connect_loop (todo : nat) (reset : Z -> B unit) (attempt : Z) : M bool :=
  match todo with
  | O => ret false
  | S todo =>
      progress (Connecting attempt CONNECT_ATTEMPTS) ;;;
      lift (reset (boot_release_hold attempt)) ;;;
      fun '(t, ps) =>
        match init t with
        | (t, Ok _) => ((t, ps), Ok true)
        | (t, Err e) => (progress (ConnectError attempt CONNECT_ATTEMPTS e) ;;; connect_loop todo reset (attempt + 1)) (t, ps)
        end
  end.
Definition connect_with (reset : Z -> B unit) (restore : B unit) : M unit :=
  let! entered := connect_loop (Z.to_nat CONNECT_ATTEMPTS) reset 1 in
  if entered : bool then ret tt
  else fun '(t, ps) => ((fst (restore t), ps), Err (BootloaderInit CONNECT_ATTEMPTS)).
Definition connect : M unit := connect_with reset_into_bootloader_with_hold reset_into_app.

(** [let _ = port.reset_into_app()] before an error is returned. *)
Definition or_app {A} (m : M A) : M A := on_err (lift reset_into_app) m.

(** ** Whole operations *)

Definition refuse_if_protected : M unit :=
  or_app (let! readout_protected := lift probe in
          progress (ReadoutProbed readout_protected) ;;;
          if readout_protected : bool then fail ReadoutProtected else ret tt).
Definition flash (firmware : list Z) (opts : FlashOptions) : M unit :=
  of_result (check_firmware_len (zlen firmware)) ;;;
  connect ;;;
  let! id := or_app (lift get_id) in
  progress (ChipIdentified id) ;;;
  or_app (of_result (check_fits_chip (zlen firmware) id)) ;;;
  refuse_if_protected ;;;
  write_image firmware opts ;;;
  (if opt_run opts && opt_go opts then progress Starting ;;; lift (go FLASH_BASE) else ret tt) ;;;
  (if opt_run opts && negb (opt_go opts) then progress Starting ;;; lift reset_into_app else ret tt).
Definition erase : M Z :=
  connect ;;;
  let! id := or_app (lift get_id) in
  progress (ChipIdentified id) ;;;
  or_app (if max_flash_size id then ret tt else fail (UnknownChip id)) ;;;
  refuse_if_protected ;;;
  let! pages := erase_chip id in
  lift reset_into_app ;;;
  ret pages.
Definition info : M ChipInfo :=
  connect ;;;
  let! i := or_app read_info in
  lift reset_into_app ;;;
  ret i.

(** ** Readout protection (rdp.rs) *)

Record Change := { ch_id : Z; was_protected : bool; ch_readout_protected : bool }.
Definition changed (c : Change) : bool := negb (Bool.eqb (was_protected c) (ch_readout_protected c)).
Definition read_back : M bool :=
  connect ;;;
  let! (_, readout_protected) := or_app (identify false) in
  ret readout_protected.
Definition is_nack (e : Error) : bool := match e with Nack _ => true | _ => false end.
Definition is_timeout (e : Error) : bool := match e with Timeout => true | _ => false end.
(** The readout command: whether it was accepted, and its outcome. *)
Definition send_change (protect : bool) : M (bool * result Error unit) :=
  fun '(t, ps) =>
    let accepted '(ps, _) := (ps ++ [ReadoutChanging protect], true) in
    let '((t, (ps, was_accepted)), sent) :=
      if protect then readout_protect RDP_TIMEOUT accepted (t, (ps, false))
      else readout_unprotect RDP_TIMEOUT accepted (t, (ps, false)) in
    ((t, ps), Ok (was_accepted, sent)).
Definition set_level (protect : bool) : M Change :=
  connect ;;;
  let! (id, was) := or_app (identify true) in
  if Bool.eqb was protect then
    lift reset_into_app ;;; ret {| ch_id := id; was_protected := was; ch_readout_protected := was |}
  else
    let! (was_accepted, sent) := send_change protect in
    match sent with
    | Ok _ =>
        lift (pause RESET_SETTLE) ;;;
        let! readout_protected := read_back in
        lift reset_into_app ;;;
        if Bool.eqb readout_protected protect
        then ret {| ch_id := id; was_protected := was; ch_readout_protected := readout_protected |}
        else fail (ReadoutUnchanged protect)
    | Err e =>
        if negb was_accepted || is_nack e then or_app (fail e)
        else
          lift (pause (if is_timeout e then RESET_SETTLE else UNCONFIRMED_SETTLE)) ;;;
          fun s =>
            match read_back s with
            | (s, Ok found) => or_app (fail (ReadoutUnconfirmed protect e (Ok found))) s
            | (s, Err e') => (s, Err (ReadoutUnconfirmed protect e (Err e')))
            end
    end.
Definition protect : M Change := set_level true.
Definition unprotect : M Change := set_level false.
End Port.
