(* ===== verification/FlashChip.v ===== *)
(** The simulated STM32L0 the flasher is developed against (crates/flasher/src/fake_stm32.rs): its main
    flash, its ROM boot loader byte by byte, the readout protection level, the reset circuit and one
    injected fault. It is the device specification of the theorems in FlashWp.v and FlashThm.v. *)
From stdpp Require Import gmap.
From S2P Require Import Prelude Bytes Flasher FlashBoard.

Definition ERASED : Z := 0x00.

Inductive Op :=
| OInit | OGetId | OGet | ORead (addr len : Z) | OWrite (addr len : Z) | OErase (pages : list Z) | OGo (addr : Z)
| OReadoutProtect | OReadoutUnprotect.
Inductive Fault := FNack | FSilent | FGarbage.
Inductive Mode := App | Reset | BootMode (inited : bool).
Inductive Stage := SCommand | SReadAddress | SReadLength (addr : Z) | SWriteAddress | SWriteData (addr : Z) | SErasePages | SGoAddress.
#[export] Instance Fault_eq_dec : EqDecision Fault.
Proof. solve_decision. Defined.

Record FakeStm32 := {
  chip_id : Z;
  flash_of : list Z;
  protected : bool;
  ops : list Op;
  mode : Mode;
  stage : Stage;
  frame : list Z;
  out : list Z;
  line_rts : bool;
  line_dtr : bool;
  fault : option (Z * Z * Fault);
  fault_points : gmap Z Z;
  fault_fired : bool;
  bytes_after_fault : Z;
}.

(** *** Field updates *)
Definition set_session (c : FakeStm32) (m : Mode) (s : Stage) (f o : list Z) : FakeStm32 :=
  {| chip_id := chip_id c; flash_of := flash_of c; protected := protected c; ops := ops c; mode := m; stage := s; frame := f; out := o;
     line_rts := line_rts c; line_dtr := line_dtr c; fault := fault c; fault_points := fault_points c; fault_fired := fault_fired c;
     bytes_after_fault := bytes_after_fault c |}.
Definition set_memory (c : FakeStm32) (fl : list Z) (p : bool) : FakeStm32 :=
  {| chip_id := chip_id c; flash_of := fl; protected := p; ops := ops c; mode := mode c; stage := stage c; frame := frame c; out := out c;
     line_rts := line_rts c; line_dtr := line_dtr c; fault := fault c; fault_points := fault_points c; fault_fired := fault_fired c;
     bytes_after_fault := bytes_after_fault c |}.
Definition push_op (c : FakeStm32) (op : Op) : FakeStm32 :=
  {| chip_id := chip_id c; flash_of := flash_of c; protected := protected c; ops := ops c ++ [op]; mode := mode c; stage := stage c;
     frame := frame c; out := out c; line_rts := line_rts c; line_dtr := line_dtr c; fault := fault c; fault_points := fault_points c;
     fault_fired := fault_fired c; bytes_after_fault := bytes_after_fault c |}.
Definition set_fault (c : FakeStm32) (f : option (Z * Z * Fault)) (points : gmap Z Z) (fired : bool) (after : Z) : FakeStm32 :=
  {| chip_id := chip_id c; flash_of := flash_of c; protected := protected c; ops := ops c; mode := mode c; stage := stage c;
     frame := frame c; out := out c; line_rts := line_rts c; line_dtr := line_dtr c; fault := f; fault_points := points;
     fault_fired := fired; bytes_after_fault := after |}.
Definition set_line_levels (c : FakeStm32) (r d : bool) : FakeStm32 :=
  {| chip_id := chip_id c; flash_of := flash_of c; protected := protected c; ops := ops c; mode := mode c; stage := stage c;
     frame := frame c; out := out c; line_rts := r; line_dtr := d; fault := fault c; fault_points := fault_points c;
     fault_fired := fault_fired c; bytes_after_fault := bytes_after_fault c |}.
Definition set_mode (c : FakeStm32) (m : Mode) := set_session c m (stage c) (frame c) (out c).
Definition set_stage (c : FakeStm32) (s : Stage) := set_session c (mode c) s (frame c) (out c).
Definition set_frame (c : FakeStm32) (f : list Z) := set_session c (mode c) (stage c) f (out c).
Definition set_out (c : FakeStm32) (o : list Z) := set_session c (mode c) (stage c) (frame c) o.
(** [self.out.push_back(..)] / [extend]. *)
Definition reply_with (c : FakeStm32) (bytes : list Z) := set_out c (out c ++ bytes).
Definition ack (c : FakeStm32) := reply_with c [ACK].
Definition nack (c : FakeStm32) := reply_with c [NACK].

(** *** Construction *)
Definition chip_new (id flash_kib : Z) : FakeStm32 :=
  {| chip_id := id; flash_of := repeat ERASED (Z.to_nat (flash_kib * 1024)); protected := false; ops := []; mode := App; stage := SCommand;
     frame := []; out := []; line_rts := true; line_dtr := true; fault := None; fault_points := ∅; fault_fired := false;
     bytes_after_fault := 0 |}.
Definition in_session (c : FakeStm32) := set_mode c (BootMode true).
Definition with_protection (c : FakeStm32) := set_memory c (flash_of c) true.
Definition with_fault (c : FakeStm32) (opcode occurrence : Z) (f : Fault) :=
  set_fault c (Some (opcode, occurrence, f)) (fault_points c) (fault_fired c) (bytes_after_fault c).

(** *** The reset circuit *)
Definition is_reset (m : Mode) : bool := match m with Reset => true | _ => false end.
(** [set_line]: [which] is RTS or DTR. *)
Definition set_line (c : FakeStm32) (which_rts level : bool) : FakeStm32 :=
  let c := if which_rts then set_line_levels c level (line_dtr c) else set_line_levels c (line_rts c) level in
  if line_rts c && negb (line_dtr c) then set_session c Reset SCommand [] (out c)
  else if is_reset (mode c) && negb (line_rts c && line_dtr c) then
    set_mode c (if line_dtr c then BootMode false else App)
  else c.

(** *** The boot loader *)

(** The length of the frame being received. *)
Definition frame_len (s : Stage) (f : list Z) : Z :=
  match s with
  | SCommand | SReadLength _ => 2
  | SReadAddress | SWriteAddress | SGoAddress => 5
  | SWriteData _ => byte_at f 0 + 3
  | SErasePages => if zlen f <? 2 then 2 else (be_val (slice f 0 2) + 1) * 2 + 3
  end.
Definition address (f : list Z) : option Z :=
  if byte_at f 4 =? xor_all 0 (slice f 0 4) then Some (be_val (slice f 0 4)) else None.
Definition offset (c : FakeStm32) (addr len : Z) : option Z :=
  let start := addr - FLASH_BASE in
  if (0 <=? start) && (start + len <=? zlen (flash_of c)) then Some start else None.
Definition take_fault (c : FakeStm32) (opcode : Z) : FakeStm32 * option Fault :=
  let occurrence := default 0 (fault_points c !! opcode) in
  let points := <[opcode := occurrence + 1]> (fault_points c) in
  match fault c with
  | Some (op, at_, f) =>
      if (op =? opcode) && (at_ =? occurrence) then (set_fault c None points true (bytes_after_fault c), Some f)
      else (set_fault c (fault c) points (fault_fired c) (bytes_after_fault c), None)
  | None => (set_fault c None points (fault_fired c) (bytes_after_fault c), None)
  end.
Definition inject (c : FakeStm32) (opcode : Z) : FakeStm32 * bool :=
  match take_fault c opcode with
  | (c, None) => (c, false)
  | (c, Some FNack) => (nack c, true)
  | (c, Some FSilent) => (c, true)
  | (c, Some FGarbage) => (reply_with c [0], true)
  end.
Definition not8 (b : Z) : Z := Z.lxor b 0xFF.

Definition change_protection (c : FakeStm32) (opcode : Z) : FakeStm32 :=
  let protect := opcode =? 0x82 in
  let c := push_op (ack c) (if protect then OReadoutProtect else OReadoutUnprotect) in
  let '(c, f) := take_fault c opcode in
  if bool_decide (f = Some FNack) then nack c
  else
    let fl := if protect then flash_of c else repeat ERASED (length (flash_of c)) in
    let c := set_memory c fl protect in
    let c := match f with None => ack c | Some FGarbage => reply_with c [0] | Some _ => c end in
    set_mode c App.
Definition command (c : FakeStm32) (opcode complement : Z) : FakeStm32 :=
  if negb (complement =? not8 opcode) then nack c
  else if protected c && negb (existsb (Z.eqb opcode) [0x00; 0x01; 0x02; 0x92]) then nack c
  else if opcode =? 0x00 then
    let cmds := [0x00; 0x02; 0x11; 0x21; 0x31; 0x44; 0x82; 0x92] in
    ack (reply_with (reply_with (push_op c OGet) [ACK; zlen cmds; 0x31]) cmds)
  else if opcode =? 0x02 then reply_with (push_op c OGetId) ([ACK; 0x01] ++ be_bytes 2 (chip_id c) ++ [ACK])
  else if existsb (Z.eqb opcode) [0x11; 0x21; 0x31; 0x44] then
    set_stage (ack c) (if opcode =? 0x11 then SReadAddress else if opcode =? 0x21 then SGoAddress
                       else if opcode =? 0x31 then SWriteAddress else SErasePages)
  else if existsb (Z.eqb opcode) [0x82; 0x92] then change_protection c opcode
  else nack c.

(** The page numbers of a page list. *)
Fixpoint be_words (l : list Z) : list Z :=
  match l with
  | hi :: lo :: l => be_val [hi; lo] :: be_words l
  | _ => []
  end.
Definition erase_page (fl : list Z) (p : Z) : list Z := patch fl (p * PAGE_SIZE) (repeat ERASED (Z.to_nat PAGE_SIZE)).
Definition serve (c : FakeStm32) (s : Stage) (f : list Z) : FakeStm32 :=
  match s with
  | SCommand => command c (byte_at f 0) (byte_at f 1)
  | SReadAddress =>
      match address f with
      | Some a => if offset c a 1 then set_stage (ack c) (SReadLength a) else nack c
      | None => nack c
      end
  | SReadLength a =>
      let len := byte_at f 0 + 1 in
      match offset c a len with
      | Some start =>
          if negb (byte_at f 1 =? not8 (byte_at f 0)) then nack c
          else
            let '(c, injected) := inject (push_op c (ORead a len)) 0x11 in
            if injected : bool then c else reply_with (ack c) (slice (flash_of c) start len)
      | None => nack c
      end
  | SWriteAddress =>
      match address f with
      | Some a => if (if offset c a 1 then true else false) && (a mod WRITE_ALIGN =? 0) then set_stage (ack c) (SWriteData a) else nack c
      | None => nack c
      end
  | SWriteData a =>
      let len := byte_at f 0 + 1 in
      let data := slice f 1 len in
      let checksum := xor_all (byte_at f 0) data in
      match offset c a len with
      | Some start =>
          if negb ((checksum =? byte_at f (len + 1)) && (len mod WRITE_ALIGN =? 0)
                   && forallb (Z.eqb ERASED) (slice (flash_of c) start len)) then nack c
          else
            let '(c, injected) := inject (push_op c (OWrite a len)) 0x31 in
            if injected : bool then c else ack (set_memory c (patch (flash_of c) start data) (protected c))
      | None => nack c
      end
  | SErasePages =>
      let lst := slice f 0 (zlen f - 1) in
      let pages := be_words (slice lst 2 (zlen lst - 2)) in
      let density := zlen (flash_of c) / PAGE_SIZE in
      if negb (xor_all 0 lst =? byte_at f (zlen f - 1)) || existsb (fun p => density <=? p) pages then nack c
      else ack (push_op (set_memory c (fold_left erase_page pages (flash_of c)) (protected c)) (OErase pages))
  | SGoAddress =>
      match address f with
      | Some a => if offset c a 1 then set_mode (ack (push_op c (OGo a))) App else nack c
      | None => nack c
      end
  end.
Definition byte (c : FakeStm32) (b : Z) : FakeStm32 :=
  match mode c with
  | App | Reset => c
  | BootMode false =>
      if b =? 0x7F then ack (push_op (set_mode c (BootMode true)) OInit) else c
  | BootMode true =>
      let c := set_frame c (frame c ++ [b]) in
      if zlen (frame c) =? frame_len (stage c) (frame c) then
        serve (set_session c (mode c) SCommand [] (out c)) (stage c) (frame c)
      else c
  end.
Definition receive (c : FakeStm32) (bytes : list Z) : FakeStm32 :=
  fold_left (fun c b =>
    byte (if fault_fired c then set_fault c (fault c) (fault_points c) true (bytes_after_fault c + 1) else c) b) bytes c.
Definition reply (c : FakeStm32) : FakeStm32 * option Z :=
  match out c with [] => (c, None) | b :: o => (set_out c o, Some b) end.
Definition clear_replies (c : FakeStm32) : FakeStm32 := set_out c [].

(** *** [impl Transport for FakeStm32] *)
Fixpoint read_replies (n : nat) (c : FakeStm32) : FakeStm32 * result Error (list Z) :=
  match n with
  | O => (c, Ok [])
  | S n =>
      match reply c with
      | (c, None) => (c, Err Timeout)
      | (c, Some b) => let '(c, r) := read_replies n c in (c, let? bs := r in Ok (b :: bs))
      end
  end.
#[export] Instance fake_transport : Transport FakeStm32 := {
  write_all c buf := (receive c buf, Ok tt);
  read_exact_buf c n := read_replies (Z.to_nat n) c;
  clear_input c := (clear_replies c, Ok tt);
  set_timeout c _ := (c, Ok tt);
  reset_timeout c := (c, Ok tt);
  sleep c _ := c;
}.
(** The port the repository's tests put in front of the chip: the lines drive the reset circuit. *)
#[export] Instance fake_lines : Lines FakeStm32 := {
  set_rts c level := (set_line c true level, Ok tt);
  set_dtr c level := (set_line c false level, Ok tt);
  clear_output c := (c, Ok tt);
}.
