(* ===== verification/FlashWp.v ===== *)
(** A program logic for the flasher over the simulated chip: what a link to the chip may do (lose, cut, fail
    - never forge), weakest-precondition rules over chip states, and the contract of every boot-loader
    command on a chip that is in a session. *)
From stdpp Require Import gmap.
From S2P Require Import Prelude Bytes Flasher FlashBoard FlashChip.

(** ** The link

    Transport failures are not answers of the device. *)
Definition link_error (e : Error) : Prop := e = Io \/ e = Timeout \/ e = Disconnected.

(** A transport with the chip at its end. A write that fails delivered some leading bytes, a read that
    fails dropped some; [reliable] links do neither. *)
Class ChipLink (T : Type) `{TR : !Transport T} := {
  chip : T -> FakeStm32;
  reliable : Prop;
  write_law : forall t buf t' r, write_all t buf = (t', r) ->
    match r with
    | Ok _ => chip t' = receive (chip t) buf
    | Err e => link_error e /\ ~ reliable /\ exists n, chip t' = receive (chip t) (take n buf)
    end;
  read_law : forall t n t' r, 0 <= n -> read_exact_buf t n = (t', r) ->
    match r with
    | Ok bs => exists rest, out (chip t) = bs ++ rest /\ zlen bs = n /\ chip t' = set_out (chip t) rest
    | Err e => link_error e /\ (reliable -> zlen (out (chip t)) < n) /\ exists o, chip t' = set_out (chip t) o
    end;
  clear_law : forall t t' r, clear_input t = (t', r) ->
    match r with
    | Ok _ => chip t' = clear_replies (chip t)
    | Err e => link_error e /\ ~ reliable /\ exists o, chip t' = set_out (chip t) o
    end;
  set_timeout_law : forall t d t' r, set_timeout t d = (t', r) ->
    chip t' = chip t /\ match r with Ok _ => True | Err e => link_error e /\ ~ reliable end;
  reset_timeout_law : forall t, chip (fst (reset_timeout t)) = chip t;
  sleep_law : forall t d, chip (sleep t d) = chip t;
}.

(** What a session leaves as it is: identity, protection and lines; and no fault appears. *)
Record kin (c c' : FakeStm32) : Prop := {
  kin_id : chip_id c' = chip_id c;
  kin_protected : protected c' = protected c;
  kin_lines : line_rts c' = line_rts c /\ line_dtr c' = line_dtr c;
  kin_fault : fault c = None -> fault c' = None;
}.
#[export] Instance kin_preorder : PreOrder kin.
Proof. split; [by intros c; split|]. intros a b c [? ? [? ?] ?] [? ? [? ?] ?]. split; [congruence | congruence | split; congruence | auto]. Qed.

(** In a session, waiting for a command, nothing unread. *)
Record ready (c : FakeStm32) : Prop := {
  rd_mode : mode c = BootMode true;
  rd_stage : stage c = SCommand;
  rd_frame : frame c = [];
  rd_out : out c = [];
}.

(** ** Frames *)

(** Bytes counted after a fault. *)
Definition tick (c : FakeStm32) (n : Z) : FakeStm32 :=
  if fault_fired c then set_fault c (fault c) (fault_points c) true (bytes_after_fault c + n) else c.
Lemma tick_fields c n : let c' := tick c n in
  chip_id c' = chip_id c /\ flash_of c' = flash_of c /\ protected c' = protected c /\ ops c' = ops c /\ mode c' = mode c /\
  stage c' = stage c /\ frame c' = frame c /\ out c' = out c /\ line_rts c' = line_rts c /\ line_dtr c' = line_dtr c /\
  fault c' = fault c /\ fault_points c' = fault_points c.
Proof. unfold tick. by destruct (fault_fired c). Qed.
Lemma tick_0 c : tick c 0 = c.
Proof. unfold tick. destruct c as [a1 a2 a3 a4 a5 a6 a7 a8 a9 a10 a11 a12 [] b]; [|done]. cbn. f_equal. lia. Qed.
Lemma tick_step c n : tick (tick c n) 1 = tick c (n + 1).
Proof. unfold tick. destruct (fault_fired c) eqn:E; cbn; rewrite ?E; [unfold set_fault; cbn; f_equal; lia | done]. Qed.
Lemma set_frame_frame c f g : set_frame (set_frame c f) g = set_frame c g.
Proof. done. Qed.
Lemma tick_set_frame c f n : tick (set_frame c f) n = set_frame (tick c n) f.
Proof. unfold tick. cbn. by destruct (fault_fired c). Qed.

(** A prefix of a frame is only stored. *)
Lemma receive_prefix c f k : mode c = BootMode true -> frame c = [] -> (k <= length f)%nat ->
  (forall j, (0 < j <= k)%nat -> frame_len (stage c) (take j f) <> Z.of_nat j) ->
  receive c (take k f) = set_frame (tick c (Z.of_nat k)) (take k f).
Proof.
  intros Hm Hf. induction k as [|k IH]; intros Hk Hlen.
  - cbn [take receive fold_left]. rewrite tick_0. destruct c; cbn in *; by subst.
  - destruct (lookup_lt_is_Some_2 f k) as [b Hb]; [lia|]. rewrite (take_S_r _ _ b Hb).
    unfold receive in *. rewrite fold_left_app, IH by (intros; try apply Hlen; lia). cbn [fold_left].
    set (c1 := set_frame _ _).
    assert (Hc1 : (if fault_fired c1 then set_fault c1 (fault c1) (fault_points c1) true (bytes_after_fault c1 + 1) else c1)
      = set_frame (tick c (Z.of_nat (S k))) (take k f)).
    { change (tick c1 1 = set_frame (tick c (Z.of_nat (S k))) (take k f)). unfold c1. rewrite tick_set_frame, tick_step. do 2 f_equal. lia. }
    rewrite Hc1. destruct (tick_fields c (Z.of_nat (S k))) as (_ & _ & _ & _ & Hmt & Hst & _).
    set (c2 := set_frame _ _). unfold byte. change (mode c2) with (mode (tick c (Z.of_nat (S k)))). rewrite Hmt, Hm.
    change (frame c2) with (take k f). rewrite <- (take_S_r _ _ b Hb). change (stage (set_frame c2 (take (S k) f))) with (stage (tick c (Z.of_nat (S k)))).
    rewrite Hst. change (frame (set_frame c2 (take (S k) f))) with (take (S k) f).
    specialize (Hlen (S k) ltac:(lia)). assert (Hz : zlen (take (S k) f) = Z.of_nat (S k)) by (unfold zlen; rewrite length_take; lia).
    rewrite Hz. replace (Z.of_nat (S k) =? _) with false by (symmetry; apply Z.eqb_neq; congruence). done.
Qed.
(** A frame whose length the boot loader recognises at its last byte, and only there. *)
Definition whole_frame (s : Stage) (f : list Z) : Prop :=
  f <> [] /\ frame_len s f = zlen f /\ forall j, (0 < j < length f)%nat -> frame_len s (take j f) <> Z.of_nat j.
Lemma receive_frame c f : mode c = BootMode true -> frame c = [] -> whole_frame (stage c) f ->
  receive c f = serve (set_session (tick c (zlen f)) (BootMode true) SCommand [] (out c)) (stage c) f.
Proof.
  intros Hm Hf (Hne & Hlen & Hpre). destruct f as [|b f _] using rev_ind; [done|]. clear Hne.
  rewrite length_app in Hpre. cbn [length] in Hpre.
  assert (Hp : receive c f = set_frame (tick c (zlen f)) f).
  { pose proof (receive_prefix c (f ++ [b]) (length f) Hm Hf) as H. rewrite take_app_length in H. apply H; [rewrite length_app; lia|].
    intros j Hj. apply Hpre. lia. }
  unfold receive in *. rewrite fold_left_app, Hp. cbn [fold_left]. set (c1 := set_frame _ _).
  change (byte (tick c1 1) b = serve (set_session (tick c (zlen (f ++ [b]))) (BootMode true) SCommand [] (out c)) (stage c) (f ++ [b])).
  unfold c1. rewrite tick_set_frame, tick_step. rewrite zlen_app. change (zlen [b]) with 1.
  destruct (tick_fields c (zlen f + 1)) as (_ & _ & _ & _ & Hmt & Hst & _ & Ho & _). set (c2 := tick c (zlen f + 1)) in *.
  unfold byte. change (mode (set_frame c2 f)) with (mode c2). rewrite Hmt, Hm. change (frame (set_frame c2 f)) with f.
  rewrite set_frame_frame. change (frame (set_frame c2 (f ++ [b]))) with (f ++ [b]). change (stage (set_frame c2 (f ++ [b]))) with (stage c2).
  rewrite Hst, Hlen, Z.eqb_refl. unfold set_frame, set_session. cbn [chip_id flash_of protected ops mode stage frame out line_rts line_dtr fault fault_points fault_fired bytes_after_fault].
  by rewrite Hmt, Hm, Ho.
Qed.
(** Whatever part of a frame arrives: only the frame buffer changes, or all of it is served. *)
Lemma receive_part c f n : mode c = BootMode true -> frame c = [] -> whole_frame (stage c) f ->
  receive c (take n f) = receive c f \/
  (kin c (receive c (take n f)) /\ flash_of (receive c (take n f)) = flash_of c /\ mode (receive c (take n f)) = BootMode true).
Proof.
  intros Hm Hf Hw. destruct (le_lt_dec (length f) n) as [Hn|Hn]; [left; by rewrite take_ge|]. right.
  destruct Hw as (_ & _ & Hpre). rewrite receive_prefix by (try done; try lia; intros; apply Hpre; lia).
  destruct (tick_fields c (Z.of_nat n)) as (H1 & H2 & H3 & _ & H4 & _ & _ & _ & H5 & H6 & H7 & _).
  split; [|split; [exact H2 | by change (mode (tick c (Z.of_nat n)) = BootMode true); rewrite H4]].
  split; [exact H1 | exact H3 | by split | cbn; congruence].
Qed.

(** ** Weakest preconditions *)

Section Wp.
Context {T : Type} `{TR : !Transport T} `{CL : !ChipLink T}.

Definition fwp {A} (m : M T Error A) (Q : result Error A -> FakeStm32 -> Prop) (c : FakeStm32) : Prop :=
  forall t, chip t = c -> Q (snd (m t)) (chip (fst (m t))).
(** Next to some other state, such as the progress reports. *)
Definition fwpr {P A} (m : M (T * P) Error A) (Q : result Error A -> FakeStm32 -> Prop) (c : FakeStm32) : Prop :=
  forall t p, chip t = c -> Q (snd (m (t, p))) (chip (fst (fst (m (t, p))))).

Lemma fwp_conseq {A} (m : M T Error A) (Q Q' : result Error A -> FakeStm32 -> Prop) c :
  fwp m Q c -> (forall r c', Q r c' -> Q' r c') -> fwp m Q' c.
Proof. intros H HQ t Ht. by apply HQ, H. Qed.
Lemma fwp_ret {A} (a : A) (Q : result Error A -> FakeStm32 -> Prop) c : Q (Ok a) c -> fwp (ret a) Q c.
Proof. by intros H t <-. Qed.
Lemma fwp_fail {A} e (Q : result Error A -> FakeStm32 -> Prop) c : Q (Err e) c -> fwp (fail e) Q c.
Proof. by intros H t <-. Qed.
Lemma fwp_bind {A B} (m : M T Error A) (k : A -> M T Error B) Q c :
  fwp m (fun r c' => match r with Ok a => fwp (k a) Q c' | Err e => Q (Err e) c' end) c -> fwp (bind m k) Q c.
Proof. intros H t Ht. specialize (H t Ht). unfold bind. destruct (m t) as [t' [a|e]]; cbn in *; [by apply H | done]. Qed.
(** A frame and its answer, before the rest of a command. *)
Lemma fwp_seq {B} (m n : M T Error unit) (k : M T Error B) Q c :
  fwp (m ;;; n) (fun r c' => match r with Ok _ => fwp k Q c' | Err e => Q (Err e) c' end) c -> fwp (m ;;; n ;;; k) Q c.
Proof.
  intros H t Ht. specialize (H t Ht). unfold bind in *. destruct (m t) as [t1 [[]|e]]; [|exact H].
  destruct (n t1) as [t2 [[]|e]]; [|exact H]. by apply H.
Qed.
Lemma fwpr_conseq {P A} (m : M (T * P) Error A) (Q Q' : result Error A -> FakeStm32 -> Prop) c :
  fwpr m Q c -> (forall r c', Q r c' -> Q' r c') -> fwpr m Q' c.
Proof. intros H HQ t p Ht. by apply HQ, H. Qed.
Lemma fwpr_ret {P A} (a : A) (Q : result Error A -> FakeStm32 -> Prop) c : Q (Ok a) c -> fwpr (P := P) (ret a) Q c.
Proof. by intros H t p <-. Qed.
Lemma fwpr_fail {P A} e (Q : result Error A -> FakeStm32 -> Prop) c : Q (Err e) c -> fwpr (P := P) (fail e) Q c.
Proof. by intros H t p <-. Qed.
Lemma fwpr_bind {P A B} (m : M (T * P) Error A) (k : A -> M (T * P) Error B) Q c :
  fwpr m (fun r c' => match r with Ok a => fwpr (k a) Q c' | Err e => Q (Err e) c' end) c -> fwpr (bind m k) Q c.
Proof. intros H t p Ht. specialize (H t p Ht). unfold bind. destruct (m (t, p)) as [[t' p'] [a|e]]; cbn in *; [by apply H | done]. Qed.
Lemma fwpr_lift {P A} (m : M T Error A) (Q : result Error A -> FakeStm32 -> Prop) c : fwp m Q c -> fwpr (P := P) (lift m) Q c.
Proof. intros H t p Ht. specialize (H t Ht). unfold lift. by destruct (m t). Qed.
Lemma fwpr_progress p (Q : result Error unit -> FakeStm32 -> Prop) c : Q (Ok tt) c -> fwpr (progress p) Q c.
Proof. by intros H t ps <-. Qed.
Lemma fwpr_result {P A} (r : result Error A) (Q : result Error A -> FakeStm32 -> Prop) c : Q r c -> fwpr (P := P) (of_result r) Q c.
Proof. by intros H t ps <-. Qed.

Lemma fwp_write buf (Q : result Error unit -> FakeStm32 -> Prop) c :
  Q (Ok tt) (receive c buf) -> (forall e n, link_error e -> ~ reliable -> Q (Err e) (receive c (take n buf))) -> fwp (write buf) Q c.
Proof.
  intros HO HE t Ht. unfold write. destruct (write_all t buf) as [t' r] eqn:E. apply write_law in E. rewrite Ht in E. cbn [fst snd].
  destruct r as [[]|e]; [by rewrite E|]. destruct E as (Hl & Hr & n & ->). by apply HE.
Qed.
Lemma fwp_read n (Q : result Error (list Z) -> FakeStm32 -> Prop) c : 0 <= n ->
  (forall bs rest, out c = bs ++ rest -> zlen bs = n -> Q (Ok bs) (set_out c rest)) ->
  (forall e o, link_error e -> (reliable -> zlen (out c) < n) -> Q (Err e) (set_out c o)) -> fwp (read_exact n) Q c.
Proof.
  intros Hn HO HE t Ht. unfold read_exact. destruct (read_exact_buf t n) as [t' r] eqn:E. apply read_law in E; [|done]. rewrite Ht in E. cbn [fst snd].
  destruct r as [bs|e]; [destruct E as (rest & Ho & Hz & ->); by apply HO | destruct E as (Hl & Hr & o & ->); by apply HE].
Qed.
Lemma fwp_read_byte (Q : result Error Z -> FakeStm32 -> Prop) c :
  (forall b rest, out c = b :: rest -> Q (Ok b) (set_out c rest)) ->
  (forall e o, link_error e -> (reliable -> out c = []) -> Q (Err e) (set_out c o)) -> fwp read_byte Q c.
Proof.
  intros HO HE. unfold read_byte. apply fwp_bind, (fwp_read 1); [done | |].
  - intros bs rest Ho Hz. apply fwp_ret. destruct bs as [|b [|b' bs]]; try (unfold zlen in Hz; simpl in Hz; lia). by apply HO.
  - intros e o Hl Hr. apply HE; [done|]. intros H. specialize (Hr H). destruct (out c) as [|b l]; [done|].
    unfold zlen in Hr. simpl in Hr. lia.
Qed.
Lemma fwp_clear (Q : result Error unit -> FakeStm32 -> Prop) c :
  Q (Ok tt) (set_out c []) -> (forall e o, link_error e -> ~ reliable -> Q (Err e) (set_out c o)) -> fwp clear_input Q c.
Proof.
  intros HO HE t Ht. destruct (clear_input t) as [t' r] eqn:E. apply clear_law in E. rewrite Ht in E. cbn [fst snd].
  destruct r as [[]|e]; [by rewrite E | destruct E as (Hl & Hr & o & ->); by apply HE].
Qed.
Lemma fwp_under_timeout {A} d (m : M T Error A) (Q : result Error A -> FakeStm32 -> Prop) c :
  fwp m Q c -> (forall e, link_error e -> ~ reliable -> Q (Err e) c) -> fwp (under_timeout d m) Q c.
Proof.
  intros Hm HE. unfold under_timeout. apply fwp_bind. intros t Ht. destruct (set_timeout t d) as [t1 r] eqn:E. apply set_timeout_law in E as [Hc Hr].
  cbn [fst snd]. rewrite Ht in Hc. rewrite Hc. destruct r as [[]|e]; [|by destruct Hr; apply HE].
  intros t2 Ht2. specialize (Hm t2 Ht2). destruct (m t2) as [t3 r]. cbn [fst snd] in *. by rewrite reset_timeout_law.
Qed.

(** ** Frames and their answers *)

(** An error that is not a NACK. *)
Definition not_nack (e : Error) : Prop := link_error e \/ exists got, e = UnexpectedByte got ACK.
Lemma link_not_nack e : link_error e -> not_nack e.
Proof. by left. Qed.
Lemma nn e s : not_nack e -> e <> Nack s.
Proof. by intros [[-> | [-> | ->]] | [got ->]]. Qed.
(** What a command can fail with. *)
Definition wire_error (e : Error) : Prop := not_nack e \/ exists s, e = Nack s.
Lemma wire_nack s : wire_error (Nack s).
Proof. right. by exists s. Qed.
Lemma wire_link e : link_error e -> wire_error e.
Proof. left. by apply link_not_nack. Qed.
Lemma wire_nn e : not_nack e -> wire_error e.
Proof. by left. Qed.
#[local] Hint Resolve wire_nack wire_link wire_nn : core.

(** What a failed exchange leaves: the chip as it was before it, or after it. *)
Record cut (c c1 c' : FakeStm32) : Prop := {
  cut_kin : kin c c';
  cut_flash : flash_of c' = flash_of c \/ flash_of c' = flash_of c1;
}.
Lemma kin_set_out c o : kin c (set_out c o).
Proof. by split. Qed.
Lemma fwp_read_ack stg (Q : result Error unit -> FakeStm32 -> Prop) c :
  (forall o, out c = ACK :: o -> Q (Ok tt) (set_out c o)) ->
  (forall o, out c = NACK :: o -> Q (Err (Nack stg)) (set_out c o)) ->
  (forall e o, not_nack e -> (reliable -> hd_error (out c) <> Some ACK /\ hd_error (out c) <> Some NACK) -> Q (Err e) (set_out c o)) ->
  fwp (read_ack stg) Q c.
Proof.
  intros HA HN HE. unfold read_ack. apply fwp_bind, fwp_read_byte.
  - intros b rest Ho. destruct (b =? ACK) eqn:E1; bool_hyps; [subst b; by apply fwp_ret, HA|].
    destruct (b =? NACK) eqn:E2; bool_hyps; [subst b; by apply fwp_fail, HN|]. apply fwp_fail, HE; [right; by exists b|].
    intros _. rewrite Ho. cbn. split; congruence.
  - intros e o Hl Hr. apply HE; [by apply link_not_nack|]. intros H. by rewrite (Hr H).
Qed.
(** Send a whole frame and read the acknowledgement. *)
Lemma fwp_exchange f stg (Q : result Error unit -> FakeStm32 -> Prop) c :
  let c1 := receive c f in
  mode c = BootMode true -> frame c = [] -> whole_frame (stage c) f -> kin c c1 ->
  (forall o, out c1 = ACK :: o -> Q (Ok tt) (set_out c1 o)) ->
  (forall o, out c1 = NACK :: o -> Q (Err (Nack stg)) (set_out c1 o)) ->
  (forall e c', cut c c1 c' -> not_nack e -> (reliable -> hd_error (out c1) <> Some ACK /\ hd_error (out c1) <> Some NACK) -> Q (Err e) c') ->
  fwp (write f ;;; read_ack stg) Q c.
Proof.
  intros c1 Hm Hf Hw Hk HA HN HE. apply fwp_bind, fwp_write.
  - fold c1. apply fwp_read_ack; [exact HA | exact HN|]. intros e o Hn Hr. apply HE; [|exact Hn | exact Hr].
    split; [etrans; [exact Hk | apply kin_set_out] | by right].
  - intros e n Hl Hr. apply HE; [|by apply link_not_nack | done]. destruct (receive_part c f n Hm Hf Hw) as [-> | (H1 & H2 & _)]; fold c1.
    + by split; [|right].
    + by split; [|left].
Qed.
End Wp.

(** ** What the boot loader makes of each frame *)

(** In a session at [s], [o] unread, the memory untouched. *)
Record at_stage (c : FakeStm32) (s : Stage) (o : list Z) (c' : FakeStm32) : Prop := {
  as_kin : kin c c';
  as_flash : flash_of c' = flash_of c;
  as_mode : mode c' = BootMode true;
  as_stage : stage c' = s;
  as_frame : frame c' = [];
  as_out : out c' = o;
}.
Lemma at_stage_ready c c' : at_stage c SCommand [] c' -> ready c'.
Proof. by intros [_ _ ? ? ? ?]. Qed.
Lemma at_stage_trans a b c s s' o o' : at_stage a s o b -> at_stage b s' o' c -> at_stage a s' o' c.
Proof. intros [K1 F1 _ _ _ _] [K2 F2 M2 S2 R2 O2]. split; try done; [by etrans | congruence]. Qed.
Lemma at_stage_read c s b o c' : at_stage c s (b :: o) c' -> at_stage c s o (set_out c' o).
Proof. intros [K F M S R O]. split; try done. etrans; [exact K | apply kin_set_out]. Qed.
(** Updates of a chip in a session, seen from the state before them. *)
Lemma at_stage_base c s o n : at_stage c s o (set_session (tick c n) (BootMode true) s [] o).
Proof.
  destruct (tick_fields c n) as (H1 & H2 & H3 & _ & _ & _ & _ & _ & H5 & H6 & H7 & _).
  split; try done. split; [exact H1 | exact H3 | by split | cbn; congruence].
Qed.
Lemma at_stage_set c s s' o o' c' : at_stage c s o c' -> at_stage c s' o' (set_session c' (BootMode true) s' [] o').
Proof. intros [K F M S R O]. split; try done. destruct K; by split. Qed.

(** The goal's chip is the one of [Hb] with another stage and other replies. *)
Ltac at_set Hb :=
  match type of Hb with at_stage ?c ?s0 ?o0 ?c1 =>
    match goal with |- at_stage _ ?s ?o _ => exact (at_stage_set c s0 s o0 o c1 Hb) end
  end.

Definition stage_of (cmd : Z) : Stage :=
  if cmd =? 0x11 then SReadAddress else if cmd =? 0x21 then SGoAddress else if cmd =? 0x31 then SWriteAddress else SErasePages.
Lemma whole_cmd cmd : whole_frame SCommand (cmd_frame cmd).
Proof. split; [done|]. split; [done|]. intros j Hj. cbn in *. lia. Qed.
Lemma not8_not8 b : Z.lxor b 0xFF = not8 b.
Proof. done. Qed.
Lemma recv_command c cmd : ready c -> In cmd [0x11; 0x21; 0x31; 0x44] ->
  at_stage c (if protected c then SCommand else stage_of cmd) [if protected c then NACK else ACK] (receive c (cmd_frame cmd)).
Proof.
  intros [Hm Hs Hf Ho] Hin. rewrite receive_frame by (try done; rewrite Hs; apply whole_cmd). rewrite Hs, Ho. cbn [serve].
  pose proof (at_stage_base c SCommand [] (zlen (cmd_frame cmd))) as Hb. set (c1 := set_session _ _ _ _ _) in *.
  assert (Hp : protected c1 = protected c) by exact (kin_protected _ _ (as_kin _ _ _ _ Hb)).
  unfold command. change (byte_at (cmd_frame cmd) 0) with cmd. change (byte_at (cmd_frame cmd) 1) with (Z.lxor cmd 0xFF).
  rewrite not8_not8, Z.eqb_refl, Hp. cbn [negb].
  destruct (protected c).
  - replace (existsb (Z.eqb cmd) [0; 1; 2; 146]) with false by (by destruct Hin as [<-|[<-|[<-|[<-|[]]]]]). cbn [negb andb].
    at_set Hb.
  - destruct Hin as [<-|[<-|[<-|[<-|[]]]]]; at_set Hb.
Qed.

Lemma xor_all_app i a b : xor_all i (a ++ b) = xor_all (xor_all i a) b.
Proof. apply fold_left_app. Qed.
Lemma be_val_be_bytes n v : 0 <= v < 256 ^ Z.of_nat n -> be_val (be_bytes n v) = v.
Proof. intros. unfold be_val, be_bytes. rewrite reverse_involutive. by apply le_val_le_bytes. Qed.
Lemma zlen_address a : zlen (address_frame a) = 5.
Proof. done. Qed.
Lemma address_back a : u32_ok a -> address (address_frame a) = Some a.
Proof.
  intros Ha. unfold address. change (slice (address_frame a) 0 4) with (be_bytes 4 a).
  change (byte_at (address_frame a) 4) with (xor_all 0 (be_bytes 4 a)). rewrite Z.eqb_refl. f_equal. apply be_val_be_bytes. change (256 ^ Z.of_nat 4) with 4294967296. mlia.
Qed.
Lemma whole_address s a : In s [SReadAddress; SWriteAddress; SGoAddress] -> whole_frame s (address_frame a).
Proof. intros Hs. split; [done|]. split; [by destruct Hs as [<-|[<-|[<-|[]]]]|]. intros j Hj. assert (length (address_frame a) = 5%nat) by done. destruct Hs as [<-|[<-|[<-|[]]]]; cbn [frame_len]; lia. Qed.
Lemma recv_read_address c a : mode c = BootMode true -> stage c = SReadAddress -> frame c = [] -> out c = [] -> u32_ok a ->
  at_stage c (if offset c a 1 then SReadLength a else SCommand) [if offset c a 1 then ACK else NACK] (receive c (address_frame a)).
Proof.
  intros Hm Hs Hf Ho Ha. rewrite receive_frame by (try done; rewrite Hs; apply whole_address; by left). rewrite Hs, Ho. cbn [serve].
  pose proof (at_stage_base c SCommand [] (zlen (address_frame a))) as Hb. set (c1 := set_session _ _ _ _ _) in *.
  rewrite address_back by done. replace (offset c1 a 1) with (offset c a 1) by (unfold offset; by rewrite (as_flash _ _ _ _ Hb)).
  destruct (offset c a 1); at_set Hb.
Qed.
Lemma recv_write_address c a : mode c = BootMode true -> stage c = SWriteAddress -> frame c = [] -> out c = [] -> u32_ok a ->
  let good := (if offset c a 1 then true else false) && (a mod WRITE_ALIGN =? 0) in
  at_stage c (if good then SWriteData a else SCommand) [if good then ACK else NACK] (receive c (address_frame a)).
Proof.
  intros Hm Hs Hf Ho Ha good. rewrite receive_frame by (try done; rewrite Hs; apply whole_address; right; by left). rewrite Hs, Ho. cbn [serve].
  pose proof (at_stage_base c SCommand [] (zlen (address_frame a))) as Hb. set (c1 := set_session _ _ _ _ _) in *.
  rewrite address_back by done. replace (offset c1 a 1) with (offset c a 1) by (unfold offset; by rewrite (as_flash _ _ _ _ Hb)).
  fold good. destruct good; at_set Hb.
Qed.

(** A reply that replaced the boot loader's. *)
Definition faulty_reply (o : list Z) : Prop := In o [[NACK]; []; [0]].
Lemma at_stage_fault c s o c1 f points fired after : at_stage c s o c1 -> (fault c = None -> f = None) ->
  at_stage c s o (set_fault c1 f points fired after).
Proof. intros [[K1 K2 K3 K4] F M S R O] Hf. split; try done. Qed.
Lemma at_stage_op c s o c1 op : at_stage c s o c1 -> at_stage c s o (push_op c1 op).
Proof. intros [[K1 K2 K3 K4] F M S R O]. by split. Qed.
Lemma at_stage_reply c s o c1 o' : at_stage c s o c1 -> at_stage c s (o ++ o') (reply_with c1 o').
Proof. intros [[K1 K2 K3 K4] F M S R O]. split; try done. cbn. by rewrite O. Qed.
Lemma inject_spec c s c1 opcode : at_stage c s [] c1 ->
  exists o, at_stage c s o (fst (inject c1 opcode)) /\
    if snd (inject c1 opcode) then fault c <> None /\ faulty_reply o else o = [].
Proof.
  intros H. unfold inject, take_fault. pose proof (kin_fault _ _ (as_kin _ _ _ _ H)) as Hf. pose proof (as_out _ _ _ _ H) as Ho.
  destruct (fault c1) as [[[op at_] f]|] eqn:E.
  - assert (Hne : fault c <> None) by (intros Hc; by specialize (Hf Hc)).
    destruct ((op =? opcode) && (at_ =? default 0 (fault_points c1 !! opcode))).
    + destruct f; cbn [fst snd].
      * exists [NACK]. split; [|by split; [|left]]. pose proof (at_stage_fault c s [] c1 None (<[opcode := default 0 (fault_points c1 !! opcode) + 1]> (fault_points c1)) true (bytes_after_fault c1) H (fun _ => eq_refl)) as H2.
        exact (at_stage_reply c s [] _ [NACK] H2).
      * exists []. split; [|by split; [|right; left]]. by apply at_stage_fault.
      * exists [0]. split; [|by split; [|right; right; left]]. pose proof (at_stage_fault c s [] c1 None (<[opcode := default 0 (fault_points c1 !! opcode) + 1]> (fault_points c1)) true (bytes_after_fault c1) H (fun _ => eq_refl)) as H2.
        exact (at_stage_reply c s [] _ [0] H2).
    + exists []. split; [|done]. cbn [fst snd]. apply at_stage_fault; [exact H | by intros Hc; apply Hne in Hc].
  - exists []. split; [|done]. cbn [fst snd]. by apply at_stage_fault.
Qed.
Lemma recv_read_length c a len : mode c = BootMode true -> stage c = SReadLength a -> frame c = [] -> out c = [] -> 1 <= len <= 256 ->
  exists o, at_stage c SCommand o (receive c [wrap8 (len - 1); Z.lxor (wrap8 (len - 1)) 0xFF]) /\
    match offset c a len with
    | Some start => o = ACK :: slice (flash_of c) start len \/ (fault c <> None /\ faulty_reply o)
    | None => o = [NACK]
    end.
Proof.
  intros Hm Hs Hf Ho Hl. set (f := [wrap8 (len - 1); _]).
  assert (Hw : whole_frame (stage c) f) by (rewrite Hs; split; [done|]; split; [done|]; intros j Hj; cbn in *; lia).
  rewrite receive_frame by done. rewrite Hs, Ho. cbn [serve].
  pose proof (at_stage_base c SCommand [] (zlen f)) as Hb. set (c1 := set_session _ _ _ _ _) in *.
  change (byte_at f 0) with (wrap8 (len - 1)). change (byte_at f 1) with (Z.lxor (wrap8 (len - 1)) 0xFF). rewrite wrap8_small by mlia.
  replace (len - 1 + 1) with len by lia. replace (offset c1 a len) with (offset c a len) by (unfold offset; by rewrite (as_flash _ _ _ _ Hb)).
  destruct (offset c a len) as [start|]; [|exists [NACK]; split; [at_set Hb | done]].
  rewrite not8_not8, Z.eqb_refl. cbn [negb]. destruct (inject_spec c SCommand (push_op c1 (ORead a len)) 0x11 (at_stage_op _ _ _ _ _ Hb)) as (o & Ha & Hi).
  destruct (inject _ _) as [c2 injected]. cbn [fst snd] in *. destruct injected.
  - exists o. split; [done | by right].
  - subst o. exists (ACK :: slice (flash_of c) start len). split; [|by left].
    pose proof (as_flash _ _ _ _ Ha) as Hfl. rewrite Hfl. apply (at_stage_reply _ _ [ACK]). apply (at_stage_reply _ _ []). exact Ha.
Qed.

Lemma byte_at_cons b l : byte_at (b :: l) 0 = b.
Proof. done. Qed.
Lemma whole_write_data a data : 1 <= zlen data <= 256 -> whole_frame (SWriteData a) (write_data_frame data).
Proof.
  intros Hl. unfold write_data_frame. rewrite wrap8_small by mlia. split; [done|]. cbn [frame_len]. split.
  - cbn [app]. rewrite byte_at_cons. change (zlen data - 1 + 3 = zlen ([zlen data - 1] ++ data ++ [xor_all (zlen data - 1) data])).
    rewrite !zlen_app. change (zlen [zlen data - 1]) with 1. change (zlen [_]) with 1. lia.
  - intros j Hj. rewrite !length_app in Hj. cbn [length] in Hj. destruct j as [|j]; [lia|]. cbn [app firstn]. rewrite byte_at_cons. unfold zlen in *. lia.
Qed.
Definition erased (l : list Z) : bool := forallb (Z.eqb ERASED) l.
Lemma recv_write_data c a data : mode c = BootMode true -> stage c = SWriteData a -> frame c = [] -> out c = [] ->
  1 <= zlen data <= 256 -> zlen data mod WRITE_ALIGN = 0 ->
  let c' := receive c (write_data_frame data) in
  match offset c a (zlen data) with
  | Some start =>
      if erased (slice (flash_of c) start (zlen data)) then
        (kin c c' /\ mode c' = BootMode true /\ stage c' = SCommand /\ frame c' = [] /\ out c' = [ACK] /\ flash_of c' = patch (flash_of c) start data) \/
        (fault c <> None /\ exists o, faulty_reply o /\ at_stage c SCommand o c')
      else at_stage c SCommand [NACK] c'
  | None => at_stage c SCommand [NACK] c'
  end.
Proof.
  intros Hm Hs Hf Ho Hl Hal c'. set (f := write_data_frame data) in *.
  assert (Hw : whole_frame (stage c) f) by (rewrite Hs; by apply whole_write_data).
  unfold c'. rewrite receive_frame by done. rewrite Hs, Ho. cbn [serve].
  pose proof (at_stage_base c SCommand [] (zlen f)) as Hb. set (c1 := set_session _ _ _ _ _) in *.
  assert (Hn : byte_at f 0 = zlen data - 1) by (unfold f, write_data_frame; rewrite wrap8_small by mlia; done).
  rewrite Hn. replace (zlen data - 1 + 1) with (zlen data) by lia.
  assert (Hd : slice f 1 (zlen data) = data).
  { unfold f, write_data_frame. rewrite slice_app_r by (unfold zlen; simpl; lia). change (zlen [_]) with 1. apply slice_app_l. }
  assert (Hx : byte_at f (zlen data + 1) = xor_all (zlen data - 1) data).
  { unfold f, write_data_frame. rewrite wrap8_small by mlia. unfold byte_at. replace (Z.to_nat (zlen data + 1)) with (S (length data)) by (unfold zlen; lia).
    cbn [app nth]. rewrite app_nth2 by lia. by rewrite Nat.sub_diag. }
  rewrite Hd, Hx, Z.eqb_refl, Hal, Z.eqb_refl. cbn [andb].
  replace (offset c1 a (zlen data)) with (offset c a (zlen data)) by (unfold offset; by rewrite (as_flash _ _ _ _ Hb)).
  destruct (offset c a (zlen data)) as [start|]; [|at_set Hb]. pose proof (as_flash _ _ _ _ Hb) as Hfl. rewrite Hfl. fold (erased (slice (flash_of c) start (zlen data))).
  destruct (erased _); cbn [negb]; [|at_set Hb].
  destruct (inject_spec c SCommand (push_op c1 (OWrite a (zlen data))) 0x31 (at_stage_op _ _ _ _ _ Hb)) as (o & Ha & Hi).
  destruct (inject _ _) as [c2 injected]. cbn [fst snd] in *. destruct injected.
  - destruct Hi as [Hi1 Hi2]. right. split; [exact Hi1|]. by exists o.
  - subst o. left. destruct Ha as [[K1 K2 K3 K4] F M S R O]. split; [by split|]. split_and!; try done; cbn; [by rewrite O | by rewrite F].
Qed.

Lemma be_words_pages pages : Forall u16_ok pages -> be_words (flat_map (be_bytes 2) pages) = pages.
Proof.
  induction 1 as [|p l Hp Hl IH]; [done|]. cbn [flat_map]. assert (Hb : exists hi lo, be_bytes 2 p = [hi; lo]) by (eexists _, _; reflexivity).
  destruct Hb as (hi & lo & Hb). rewrite Hb. cbn [app be_words]. rewrite IH. f_equal. rewrite <- Hb.
  apply be_val_be_bytes. change (256 ^ Z.of_nat 2) with 65536. mlia.
Qed.
Lemma zlen_pages pages : zlen (flat_map (be_bytes 2) pages) = 2 * zlen pages.
Proof. induction pages as [|p l IH]; [done|]. cbn [flat_map]. rewrite zlen_app, IH, zlen_be_bytes. unfold zlen. cbn [length]. lia. Qed.
Lemma whole_erase pages : 1 <= zlen pages <= 65536 -> whole_frame SErasePages (erase_frame pages).
Proof.
  intros Hl. unfold erase_frame. rewrite wrap16_small by mlia. set (body := be_bytes 2 (zlen pages - 1) ++ _).
  assert (Hz : zlen body = 2 + 2 * zlen pages) by (unfold body; rewrite zlen_app, zlen_be_bytes, zlen_pages; lia).
  assert (Hlen : forall k, (2 <= k)%nat -> frame_len SErasePages (take k (body ++ [xor_all 0 body])) = 2 * zlen pages + 3).
  { intros k Hk. destruct k as [|[|k]]; try lia. unfold body. assert (Hb : exists hi lo, be_bytes 2 (zlen pages - 1) = [hi; lo]) by (eexists _, _; reflexivity).
    destruct Hb as (hi & lo & Hb). rewrite Hb. cbn [app firstn frame_len]. change (slice (hi :: lo :: _) 0 2) with [hi; lo]. rewrite <- Hb.
    rewrite be_val_be_bytes by (change (256 ^ Z.of_nat 2) with 65536; lia).
    replace (_ <? 2) with false by (symmetry; apply Z.ltb_ge; unfold zlen; cbn [length]; lia). lia. }
  split; [by destruct body|]. split.
  - rewrite <- (firstn_all (body ++ _)) at 1. rewrite Hlen, zlen_app by (rewrite length_app; unfold zlen in *; cbn [length]; lia). change (zlen [_]) with 1. lia.
  - intros j Hj. destruct (le_lt_dec 2 j) as [H2|H2].
    + rewrite Hlen by done. rewrite length_app in Hj. unfold zlen in *. cbn [length] in Hj. lia.
    + assert (j = 1%nat) as -> by lia. cbn [frame_len]. replace (zlen (take 1 _)) with 1 by (unfold zlen; rewrite length_take, length_app; cbn [length]; lia). done.
Qed.
Definition density (c : FakeStm32) : Z := zlen (flash_of c) / PAGE_SIZE.
Lemma recv_erase c pages : mode c = BootMode true -> stage c = SErasePages -> frame c = [] -> out c = [] ->
  1 <= zlen pages <= 80 -> Forall u16_ok pages ->
  let c' := receive c (erase_frame pages) in
  if existsb (fun p => density c <=? p) pages then at_stage c SCommand [NACK] c'
  else kin c c' /\ mode c' = BootMode true /\ stage c' = SCommand /\ frame c' = [] /\ out c' = [ACK] /\
       flash_of c' = fold_left erase_page pages (flash_of c).
Proof.
  intros Hm Hs Hf Ho Hl Hp c'. set (f := erase_frame pages) in *.
  assert (Hw : whole_frame (stage c) f) by (rewrite Hs; apply whole_erase; lia).
  unfold c'. rewrite receive_frame by done. rewrite Hs, Ho. cbn [serve].
  pose proof (at_stage_base c SCommand [] (zlen f)) as Hb. set (c1 := set_session _ _ _ _ _) in *.
  set (body := be_bytes 2 (wrap16 (zlen pages - 1)) ++ flat_map (be_bytes 2) pages).
  assert (Hfb : f = body ++ [xor_all 0 body]) by done.
  assert (Hz : zlen f - 1 = zlen body) by (rewrite Hfb, zlen_app; change (zlen [_]) with 1; lia).
  rewrite Hz. assert (Hbody : slice f 0 (zlen body) = body) by (rewrite Hfb; apply slice_app_l). rewrite Hbody.
  assert (Hx : byte_at f (zlen body) = xor_all 0 body).
  { rewrite Hfb. unfold byte_at. rewrite zlen_to_nat, app_nth2 by lia. by rewrite Nat.sub_diag. }
  rewrite Hx, Z.eqb_refl. cbn [negb orb].
  assert (Hw' : be_words (slice body 2 (zlen body - 2)) = pages).
  { unfold body. rewrite slice_app_r by (rewrite zlen_be_bytes; lia). rewrite zlen_app, zlen_be_bytes. change (Z.of_nat 2) with 2.
    replace (2 + zlen (flat_map (be_bytes 2) pages) - 2) with (zlen (flat_map (be_bytes 2) pages)) by lia. rewrite Z.sub_diag, slice_all. by apply be_words_pages. }
  rewrite Hw'. unfold density. rewrite <- (as_flash _ _ _ _ Hb). destruct (existsb _ pages); [at_set Hb|].
  destruct Hb as [[K1 K2 K3 K4] F M S R O]. by split_and!.
Qed.

(** ** The contract of each command *)

Section Commands.
Context {T : Type} `{TR : !Transport T} `{CL : !ChipLink T}.

(** A chip some failure left behind without touching its memory. *)
Definition untouched (c c' : FakeStm32) : Prop := kin c c' /\ flash_of c' = flash_of c.
Lemma untouched_at c s o c1 c' : at_stage c s o c1 -> untouched c1 c' -> untouched c c'.
Proof. intros [K F _ _ _ _] [K' F']. split; [by etrans | congruence]. Qed.
Lemma cut_untouched c s o c1 c' : at_stage c s o c1 -> cut c c1 c' -> untouched c c'.
Proof. intros [_ F _ _ _ _] [K Hf]. split; [done|]. by destruct Hf as [-> | ->]. Qed.
#[local] Hint Resolve at_stage_ready : core.

(** An exchange that leaves the memory alone: the boot loader answers with one byte, then [o]. *)
Lemma fwp_answered f stg (Q : result Error unit -> FakeStm32 -> Prop) c s b o :
  mode c = BootMode true -> frame c = [] -> whole_frame (stage c) f -> at_stage c s (b :: o) (receive c f) ->
  (b = ACK -> forall c', at_stage c s o c' -> Q (Ok tt) c') ->
  (b = NACK -> forall c', at_stage c s o c' -> Q (Err (Nack stg)) c') ->
  (forall e c', untouched c c' -> not_nack e -> (reliable -> b <> ACK /\ b <> NACK) -> Q (Err e) c') ->
  fwp (write f ;;; read_ack stg) Q c.
Proof.
  intros Hm Hf Hw Ha HA HN HE. pose proof (as_out _ _ _ _ Ha) as Ho. apply (fwp_exchange f stg Q c Hm Hf Hw (as_kin _ _ _ _ Ha)).
  - intros o' E. rewrite Ho in E. injection E as Eb <-. apply HA; [exact Eb|]. by eapply at_stage_read.
  - intros o' E. rewrite Ho in E. injection E as Eb <-. apply HN; [exact Eb|]. by eapply at_stage_read.
  - intros e c' Hc Hn Hr. apply HE; [by eapply cut_untouched | done|]. intros H. specialize (Hr H). rewrite Ho in Hr. cbn in Hr.
    split; intros ->; by destruct Hr.
Qed.

Lemma fwp_command cmd (Q : result Error unit -> FakeStm32 -> Prop) c : ready c -> In cmd [0x11; 0x21; 0x31; 0x44] ->
  (protected c = false -> forall c', at_stage c (stage_of cmd) [] c' -> Q (Ok tt) c') ->
  (protected c = true -> forall c', at_stage c SCommand [] c' -> Q (Err (Nack NCommand)) c') ->
  (forall e c', untouched c c' -> not_nack e -> ~ reliable -> Q (Err e) c') ->
  fwp (send_command cmd) Q c.
Proof.
  intros Hr Hin HA HN HE. pose proof (recv_command c cmd Hr Hin) as Ha. destruct Hr as [Hm Hs Hf Ho].
  eapply fwp_answered; [exact Hm | exact Hf | rewrite Hs; apply whole_cmd | exact Ha | | |].
  - destruct (protected c); [done|]. intros _. by apply HA.
  - destruct (protected c); [intros _; by apply HN | done].
  - intros e c' Hc Hn Hrel. apply HE; [done | done|]. intros H. destruct (Hrel H) as [H1 H2]. by destruct (protected c).
Qed.
Lemma in_cmds_read : In CMD_READ_MEMORY [0x11; 0x21; 0x31; 0x44]. Proof. by left. Qed.
Lemma in_cmds_go : In CMD_GO [0x11; 0x21; 0x31; 0x44]. Proof. right; by left. Qed.
Lemma in_cmds_write : In CMD_WRITE_MEMORY [0x11; 0x21; 0x31; 0x44]. Proof. do 2 right; by left. Qed.
Lemma in_cmds_erase : In CMD_EXT_ERASE [0x11; 0x21; 0x31; 0x44]. Proof. do 3 right; by left. Qed.

(** Extended Erase of pages of main flash. *)
Lemma fwp_erase pages d (Q : result Error unit -> FakeStm32 -> Prop) c : ready c ->
  1 <= zlen pages <= 80 -> Forall (fun p => 0 <= p < pages_in MAX_FLASH_SIZE) pages ->
  (protected c = false -> Forall (fun p => p < density c) pages ->
     forall c', ready c' -> kin c c' -> flash_of c' = fold_left erase_page pages (flash_of c) -> Q (Ok tt) c') ->
  (protected c = false -> (exists p, In p pages /\ density c <= p) -> forall c', ready c' -> untouched c c' -> Q (Err (Nack NPayload)) c') ->
  (forall e c', kin c c' -> flash_of c' = flash_of c \/ (Forall (fun p => p < density c) pages /\ flash_of c' = fold_left erase_page pages (flash_of c)) ->
     e <> Nack NPayload -> (reliable -> protected c = true) -> Q (Err e) c') ->
  fwp (extended_erase_pages pages d) Q c.
Proof.
  intros Hr Hl Hp HO HN HE. unfold extended_erase_pages.
  replace (bool_decide (pages = []) || (80 <? zlen pages)) with false.
  2: { symmetry. apply orb_false_iff. split; [apply bool_decide_eq_false; intros ->; unfold zlen in Hl; simpl in Hl; lia | apply Z.ltb_ge; lia]. }
  replace (existsb (fun p => pages_in MAX_FLASH_SIZE <=? p) pages) with false.
  2: { symmetry. apply not_true_is_false. intros H. apply existsb_exists in H as (p & Hin & H). rewrite List.Forall_forall in Hp. specialize (Hp p Hin). bool_hyps. lia. }
  apply fwp_bind, fwp_command; [done | apply in_cmds_erase | | |].
  - intros Hprot c1 H1. pose proof H1 as [K F M S R O]. apply fwp_under_timeout.
    2: { intros e Hl' Hrel. apply HE; [done | by left | by apply nn, link_not_nack | done]. }
    assert (Hu : Forall u16_ok pages).
    { eapply List.Forall_impl; [|exact Hp]. intros p H. change (pages_in MAX_FLASH_SIZE) with 1536 in H. cbv beta in H. mlia. }
    pose proof (recv_erase c1 pages M S R O Hl Hu) as Hrecv. cbv zeta in Hrecv.
    assert (Hd : density c1 = density c) by (unfold density; by rewrite F). rewrite Hd in Hrecv.
    destruct (existsb (fun p => density c <=? p) pages) eqn:Ex.
    + eapply fwp_answered; [exact M | exact R | rewrite S; apply whole_erase; lia | exact Hrecv | done | |].
      * intros _ c' Hc'. apply HN; [done | | by eapply at_stage_ready | eapply untouched_at; [exact H1|]; destruct Hc'; by split].
        apply existsb_exists in Ex as (p & Hin & H). exists p. split; [done | by bool_hyps].
      * intros e c' Hc Hn Hrel. apply HE; [etrans; [exact K | apply Hc] | left; rewrite <- F; apply Hc | by apply nn|].
        intros H. by destruct (Hrel H).
    + destruct Hrecv as (K2 & M2 & S2 & R2 & O2 & F2).
      assert (Hall : Forall (fun p => p < density c) pages).
      { apply List.Forall_forall. intros p Hin. destruct (Z.lt_ge_cases p (density c)) as [|H]; [done|]. exfalso.
        assert (existsb (fun p => density c <=? p) pages = true) by (apply existsb_exists; exists p; split; [done | by apply Z.leb_le]). congruence. }
      apply (fwp_exchange (erase_frame pages) NPayload _ c1); [done | done | rewrite S; apply whole_erase; lia | done | | |].
      * intros o Ho. rewrite O2 in Ho. injection Ho as <-. apply HO; [done | done | | | by rewrite <- F].
        -- by constructor.
        -- etrans; [exact K|]. etrans; [exact K2 | apply kin_set_out].
      * intros o Ho. rewrite O2 in Ho. discriminate.
      * intros e c' [K3 F3] Hn Hrel. apply HE; [by etrans | | by apply nn | intros H; destruct (Hrel H) as [H' _]; by rewrite O2 in H'].
        rewrite F in F2. rewrite F, F2 in F3. destruct F3; [by left | by right].
  - intros Hprot c1 H1. apply HE; [apply H1 | left; apply H1 | done | done].
  - intros e c' [K F] Hn Hrel. apply HE; [done | by left | by apply nn | done].
Qed.

(** A chip that does what it is told: open, no fault pending. *)
Definition sound (c : FakeStm32) : Prop := protected c = false /\ fault c = None.
Lemma offset_some c a len start : offset c a len = Some start -> start = a - FLASH_BASE /\ 0 <= start /\ start + len <= zlen (flash_of c).
Proof. unfold offset. split_if; [|done]. intros [= <-]. bool_hyps. lia. Qed.
Lemma offset_in c a len : FLASH_BASE <= a -> a - FLASH_BASE + len <= zlen (flash_of c) -> offset c a len = Some (a - FLASH_BASE).
Proof. intros H1 H2. unfold offset. by rewrite (proj2 (Z.leb_le _ _)), (proj2 (Z.leb_le _ _)) by lia. Qed.
Lemma faulty_hd o : faulty_reply o -> hd_error o <> Some ACK.
Proof. by intros [<-|[<-|[<-|[]]]]. Qed.

(** Read Memory. *)
Lemma fwp_read_block a len (Q : result Error (list Z) -> FakeStm32 -> Prop) c : ready c -> 1 <= len <= 256 -> u32_ok a ->
  (forall c', ready c' -> untouched c c' -> FLASH_BASE <= a -> a - FLASH_BASE + len <= zlen (flash_of c) -> protected c = false ->
     Q (Ok (slice (flash_of c) (a - FLASH_BASE) len)) c') ->
  (protected c = true -> forall c', ready c' -> untouched c c' -> Q (Err (Nack NCommand)) c') ->
  (forall e c', untouched c c' -> wire_error e -> e <> Nack NCommand ->
     (reliable -> sound c -> FLASH_BASE <= a -> a - FLASH_BASE + len <= zlen (flash_of c) -> False) ->
     (reliable -> protected c = false) -> Q (Err e) c') ->
  fwp (read_block a len) Q c.
Proof.
  intros Hr Hl Ha HO HN HE. unfold read_block. replace ((1 <=? len) && (len <=? 256)) with true by (symmetry; apply andb_true_iff; split; apply Z.leb_le; lia). cbn [negb].
  apply fwp_bind, fwp_command; [done | apply in_cmds_read | | |].
  2: { intros Hp c1 H1. apply HN; [done | by eapply at_stage_ready | destruct H1; by split]. }
  2: { intros e c' Hc Hn Hrel. apply HE; [done | by left | by apply nn | done | by intros H]. }
  intros Hp c1 H1. pose proof H1 as [K F M S R O]. change (stage_of CMD_READ_MEMORY) with SReadAddress in *.
  pose proof (recv_read_address c1 a M S R O Ha) as H2. assert (Hoff : forall n, offset c1 a n = offset c a n) by (intros n; unfold offset; by rewrite F).
  rewrite Hoff in H2. apply fwp_bind. eapply fwp_answered; [exact M | exact R | rewrite S; apply whole_address; by left | exact H2 | | |].
  2: { intros Hb c2 Hc2. destruct (offset c a 1) eqn:Eo; [done|]. apply HE; [eapply untouched_at; [exact H1|]; destruct Hc2; by split | apply wire_nack | done | | done].
       intros _ _ Hlo Hhi. by rewrite offset_in in Eo by lia. }
  2: { intros e c' Hc Hn Hrel. apply HE; [by eapply untouched_at | by left | by apply nn | | done]. intros H. destruct (Hrel H). by destruct (offset c a 1). }
  intros Hb c2 Hc2. destruct (offset c a 1) eqn:Eo; [|done]. pose proof (at_stage_trans _ _ _ _ _ _ _ H1 Hc2) as H2'. destruct H2' as [K2 F2 M2 S2 R2 O2].
  destruct (recv_read_length c2 a len M2 S2 R2 O2 Hl) as (o & H3 & Ho). set (f := [wrap8 (len - 1); _]) in *.
  assert (Hoff2 : offset c2 a len = offset c a len) by (unfold offset; by rewrite F2). rewrite Hoff2 in Ho.
  assert (Hfin : forall c3, untouched c2 c3 -> untouched c c3) by (intros c3 [? ?]; split; [by etrans | congruence]).
  apply fwp_seq. cbv zeta. fold f.
  assert (Hwf : whole_frame (stage c2) f) by (rewrite S2; split; [done|]; split; [done|]; intros j Hj; cbn in *; lia).
  apply (fwp_exchange f NPayload _ c2); [exact M2 | exact R2 | exact Hwf | apply H3 | | |].
  - intros rest Hrest. rewrite (as_out _ _ _ _ H3) in Hrest. destruct (offset c a len) as [start|] eqn:Eo'; [|by subst o].
    destruct Ho as [-> | [_ Hfault]]; [|exfalso; subst o; by apply (faulty_hd _ Hfault)]. injection Hrest as <-.
    apply offset_some in Eo' as (-> & Hs1 & Hs2). set (data := slice (flash_of c2) (a - FLASH_BASE) len) in *.
    assert (Hz : zlen data = len) by (unfold data; rewrite zlen_slice; rewrite ?F2; lia).
    pose proof (at_stage_read _ _ _ _ _ H3) as H4. apply (fwp_read len); [lia | |].
    + intros bs rest Hbs Hzb. rewrite (as_out _ _ _ _ H4) in Hbs.
      assert (Hbd : data = bs /\ [] = rest).
      { rewrite <- (app_nil_r data) in Hbs. apply app_inj_1 in Hbs; [done|]. unfold zlen in *. lia. }
      destruct Hbd as [<- <-].
      replace (Ok data : result Error (list Z)) with (Ok (slice (flash_of c) (a - FLASH_BASE) len) : result Error (list Z)) by (unfold data; by rewrite F2). apply HO; [| | lia | lia | done].
      * destruct H4 as [K4 F4 M4 S4 R4 O4]. by constructor.
      * apply Hfin. destruct H4 as [K4 F4 _ _ _ _]. split; [etrans; [exact K4 | apply kin_set_out] | done].
    + intros e o Hlk Hrel. apply HE; [| by apply wire_link | by apply nn, link_not_nack | | done].
      * apply Hfin. destruct H4 as [K4 F4 _ _ _ _]. split; [etrans; [exact K4 | apply kin_set_out] | done].
      * intros H _ _ _. specialize (Hrel H). rewrite (as_out _ _ _ _ H4) in Hrel. lia.
  - intros rest Hrest. apply HE; [apply Hfin; destruct H3 as [K3 F3 _ _ _ _]; split; [etrans; [exact K3 | apply kin_set_out] | done] | apply wire_nack | done | | done].
    intros _ [_ Hnf] Hlo Hhi. rewrite offset_in in Ho by lia. destruct Ho as [-> | [Hf _]]; [|apply Hf; by apply (kin_fault _ _ K2)].
    rewrite (as_out _ _ _ _ H3) in Hrest. discriminate.
  - intros e c3 Hc3 Hn Hrel. apply HE; [apply Hfin; by eapply cut_untouched | by left | by apply nn | | done].
    intros H [_ Hnf] Hlo Hhi. rewrite offset_in in Ho by lia. destruct Ho as [-> | [Hf _]]; [|apply Hf; by apply (kin_fault _ _ K2)].
    destruct (Hrel H) as [Hh _]. by rewrite (as_out _ _ _ _ H3) in Hh.
Qed.

(** Write Memory of a padded block in main flash. *)
Definition writable (c : FakeStm32) (a : Z) (data : list Z) : Prop :=
  a - FLASH_BASE + zlen data <= zlen (flash_of c) /\ erased (slice (flash_of c) (a - FLASH_BASE) (zlen data)) = true.
Definition written (c : FakeStm32) (a : Z) (data : list Z) : list Z := patch (flash_of c) (a - FLASH_BASE) data.
Lemma fwp_write_block a data (Q : result Error unit -> FakeStm32 -> Prop) c : ready c ->
  1 <= zlen data <= 256 -> zlen data mod WRITE_ALIGN = 0 -> FLASH_BASE <= a -> a + zlen data <= FLASH_BASE + MAX_FLASH_SIZE -> a mod WRITE_ALIGN = 0 ->
  (writable c a data -> forall c', ready c' -> kin c c' -> flash_of c' = written c a data -> Q (Ok tt) c') ->
  (forall e c', kin c c' -> flash_of c' = flash_of c \/ (writable c a data /\ flash_of c' = written c a data) ->
     (reliable -> sound c -> writable c a data -> False) -> Q (Err e) c') ->
  fwp (write_block a data) Q c.
Proof.
  intros Hr Hl Hal Hlo Hhi Haa HO HE. unfold write_block.
  replace (bool_decide (data = []) || (256 <? zlen data)) with false.
  2: { symmetry. apply orb_false_iff. split; [apply bool_decide_eq_false; intros ->; unfold zlen in Hl; simpl in Hl; lia | apply Z.ltb_ge; lia]. }
  replace ((a <? FLASH_BASE) || (FLASH_BASE + MAX_FLASH_SIZE <? a + zlen data)) with false by (symmetry; apply orb_false_iff; split; apply Z.ltb_ge; lia).
  assert (Hun : forall e c', untouched c c' -> (reliable -> sound c -> writable c a data -> False) -> Q (Err e) c') by (intros e c' [? ?] ?; apply HE; auto).
  apply fwp_bind, fwp_command; [done | apply in_cmds_write | | |].
  2: { intros Hp c1 [K F _ _ _ _]. apply Hun; [by split|]. intros _ [Hp' _]. congruence. }
  2: { intros e c' Hc _ Hrel. by apply Hun. }
  intros Hp c1 H1. pose proof H1 as [K F M S R O]. change (stage_of CMD_WRITE_MEMORY) with SWriteAddress in *.
  assert (Hu : u32_ok a) by mlia.
  pose proof (recv_write_address c1 a M S R O Hu) as H2. cbv zeta in H2. rewrite Haa, Z.eqb_refl, andb_true_r in H2.
  assert (Hoff : forall c2, flash_of c2 = flash_of c -> forall n, offset c2 a n = offset c a n) by (intros c2 F2 n; unfold offset; by rewrite F2).
  rewrite (Hoff c1 F) in H2.
  assert (Hw1 : writable c a data -> offset c a 1 = Some (a - FLASH_BASE)) by (intros [Hw _]; apply offset_in; lia).
  apply fwp_bind. eapply fwp_answered; [exact M | exact R | rewrite S; apply whole_address; right; by left | exact H2 | | |].
  2: { intros Hb c2 [K2 F2 _ _ _ _]. apply Hun; [split; [by etrans | congruence]|]. intros _ _ Hw. by rewrite (Hw1 Hw) in Hb. }
  2: { intros e c' Hc _ Hrel. apply Hun; [by eapply untouched_at|]. intros H _ Hw. destruct (Hrel H) as [H3 _]. by rewrite (Hw1 Hw) in H3. }
  intros Hb c2 Hc2. destruct (offset c a 1) eqn:Eo; [|done]. cbn iota in Hc2. pose proof (at_stage_trans _ _ _ _ _ _ _ H1 Hc2) as [K2 F2 M2 S2 R2 O2].
  pose proof (recv_write_data c2 a data M2 S2 R2 O2 Hl Hal) as H3. cbv zeta in H3. rewrite (Hoff c2 F2), F2 in H3.
  assert (Hwf : whole_frame (stage c2) (write_data_frame data)) by (rewrite S2; by apply whole_write_data).
  assert (Hbad : at_stage c2 SCommand [NACK] (receive c2 (write_data_frame data)) -> (writable c a data -> False) ->
    fwp (write (write_data_frame data) ;;; read_ack NPayload) Q c2).
  { intros Hs Hnw. eapply fwp_answered; [exact M2 | exact R2 | exact Hwf | exact Hs | done | |].
    - intros _ c3 [K3 F3 _ _ _ _]. apply Hun; [split; [by etrans | congruence] | by intros _ _].
    - intros e c3 [K3 F3] _ _. apply Hun; [split; [by etrans | congruence] | by intros _ _]. }
  destruct (offset c a (zlen data)) as [start|] eqn:Eo'.
  2: { apply Hbad; [exact H3|]. intros [Hw _]. by rewrite offset_in in Eo' by lia. }
  apply offset_some in Eo' as (-> & Hs1 & Hs2).
  destruct (erased (slice (flash_of c) (a - FLASH_BASE) (zlen data))) eqn:Ee; [|apply Hbad; [exact H3 | intros [_ Hw]; congruence]].
  assert (Hw : writable c a data) by (split; [lia | done]).
  destruct H3 as [(K3 & M3 & S3 & R3 & O3 & F3) | (Hfault & o & Hfo & H3)].
  - apply (fwp_exchange _ NPayload _ c2); [exact M2 | exact R2 | exact Hwf | exact K3 | | |].
    + intros o Ho. rewrite O3 in Ho. injection Ho as <-. apply HO; [done | by constructor | | exact F3].
      etrans; [exact K2|]. etrans; [exact K3 | apply kin_set_out].
    + intros o Ho. by rewrite O3 in Ho.
    + intros e c' [K4 F4] _ Hrel. apply HE; [by etrans | rewrite F2, F3 in F4; destruct F4; [by left | by right]|].
      intros H _ _. destruct (Hrel H) as [Hh _]. by rewrite O3 in Hh.
  - assert (Hns : reliable -> sound c -> writable c a data -> False) by (intros _ [_ Hnf] _; apply Hfault; by apply (kin_fault _ _ K2)).
    apply (fwp_exchange _ NPayload _ c2); [exact M2 | exact R2 | exact Hwf | apply H3 | | |].
    + intros o' Ho. rewrite (as_out _ _ _ _ H3) in Ho. exfalso. apply (faulty_hd o Hfo). by rewrite Ho.
    + intros o' Ho. apply Hun; [|done]. destruct H3 as [K3 F3 _ _ _ _]. split; [etrans; [exact K2|]; etrans; [exact K3 | apply kin_set_out] | etrans; [exact F3 | exact F2]].
    + intros e c' Hc _ _. apply Hun; [|done]. destruct (cut_untouched _ _ _ _ _ H3 Hc). split; [by etrans | congruence].
Qed.

(** Get ID is served at every protection level. *)
Lemma recv_get_id c : ready c -> at_stage c SCommand ([ACK; 1] ++ be_bytes 2 (chip_id c) ++ [ACK]) (receive c (cmd_frame CMD_GET_ID)).
Proof.
  intros [Hm Hs Hf Ho]. rewrite receive_frame by (try done; rewrite Hs; apply whole_cmd). rewrite Hs, Ho. cbn [serve].
  pose proof (at_stage_base c SCommand [] (zlen (cmd_frame CMD_GET_ID))) as Hb. set (c1 := set_session _ _ _ _ _) in *.
  unfold command. change (byte_at (cmd_frame CMD_GET_ID) 1 =? not8 (byte_at (cmd_frame CMD_GET_ID) 0)) with true. cbn [negb].
  change (existsb (Z.eqb (byte_at (cmd_frame CMD_GET_ID) 0)) [0; 1; 2; 146]) with true. rewrite andb_false_r.
  change (byte_at (cmd_frame CMD_GET_ID) 0 =? 0) with false. change (byte_at (cmd_frame CMD_GET_ID) 0 =? 2) with true. cbv iota.
  rewrite <- (kin_id _ _ (as_kin _ _ _ _ Hb)). apply (at_stage_reply _ _ []). by apply at_stage_op.
Qed.
Lemma chip_id_back v : u16_ok v -> parse_chip_id (be_bytes 2 v) = v.
Proof.
  intros Hv. assert (Hd : parse_chip_id (be_bytes 2 v) = Z.lor (Z.shiftl ((v / 256) mod 256) 8) (v mod 256)) by reflexivity.
  rewrite Hd. replace ((v / 256) mod 256) with (v / 256) by (symmetry; apply Z.mod_small; split; [apply Z.div_pos; mlia | apply Z.div_lt_upper_bound; mlia]).
  rewrite lor_shiftl_add by (try lia; apply (Z.mod_pos_bound v 256); lia). change (2 ^ 8) with 256.
  rewrite (Z.mul_comm (v / 256)). symmetry. apply Z.div_mod. lia.
Qed.
Lemma fwp_get_id (Q : result Error Z -> FakeStm32 -> Prop) c : ready c -> u16_ok (chip_id c) ->
  (forall c', ready c' -> untouched c c' -> Q (Ok (chip_id c)) c') ->
  (forall e c', untouched c c' -> not_nack e -> ~ reliable -> Q (Err e) c') ->
  fwp get_id Q c.
Proof.
  intros Hr Hid HO HE. pose proof (recv_get_id c Hr) as H1. destruct Hr as [Hm Hs Hf Ho]. unfold get_id.
  assert (Hb : exists hi lo, be_bytes 2 (chip_id c) = [hi; lo]) by (eexists _, _; reflexivity). destruct Hb as (hi & lo & Hb). rewrite Hb in H1.
  assert (Hun : forall o, untouched c (set_out (receive c (cmd_frame CMD_GET_ID)) o))
    by (intros o; split; [etrans; [apply H1 | apply kin_set_out] | apply H1]).
  assert (HE' : forall e (o o' : list Z) n, link_error e -> (reliable -> zlen o < n) -> n <= zlen o -> Q (Err e) (set_out (receive c (cmd_frame CMD_GET_ID)) o')).
  { intros e o o' n Hl Hrel Hn. apply HE; [apply Hun | by apply link_not_nack|]. intros H. specialize (Hrel H). lia. }
  apply fwp_bind. unfold send_command. apply (fwp_exchange _ NCommand _ c); [done | done | rewrite Hs; apply whole_cmd | apply H1 | | |].
  2: { intros o E. by rewrite (as_out _ _ _ _ H1) in E. }
  2: { intros e c' Hc Hn Hrel. apply HE; [by eapply cut_untouched | done|]. intros H. destruct (Hrel H) as [H2 _]. by rewrite (as_out _ _ _ _ H1) in H2. }
  intros o E. rewrite (as_out _ _ _ _ H1) in E. injection E as <-. set (c1 := receive c (cmd_frame CMD_GET_ID)) in *.
  apply fwp_bind, fwp_read_byte.
  2: { intros e o Hl Hrel. apply (HE' e (out (set_out c1 [1; hi; lo; ACK])) o 1); [done | intros H; by rewrite (Hrel H) | done]. }
  intros b rest E. injection E as <- <-. apply fwp_bind, (fwp_read 2); [done | |].
  2: { intros e o Hl Hrel. by apply (HE' e [hi; lo; ACK] o 2). }
  intros bs rest E Hz. assert (bs = [hi; lo] /\ rest = [ACK]) as [-> ->].
  { apply (app_inj_1 [hi; lo] bs [ACK] rest) in E as [? ?]; [by subst|]. unfold zlen in Hz. cbn. lia. }
  apply fwp_bind, fwp_read_ack.
  - intros o E'. injection E' as <-. apply fwp_ret. rewrite <- Hb, chip_id_back by done.
    apply HO; [|apply Hun]. destruct H1 as [K F M S R O]. by constructor.
  - intros o E'. discriminate.
  - intros e o Hn Hrel. apply HE; [apply Hun | done|]. intros H. by destruct (Hrel H).
Qed.
Lemma fwp_discard d (Q : result Error unit -> FakeStm32 -> Prop) c : ready c ->
  (forall c', ready c' -> untouched c c' -> Q (Ok tt) c') -> (forall e c', untouched c c' -> link_error e -> ~ reliable -> Q (Err e) c') ->
  fwp (discard_input d) Q c.
Proof.
  intros Hr HO HE. unfold discard_input. apply fwp_bind. intros t Ht. cbn [fst snd]. rewrite sleep_law, Ht.
  apply fwp_clear; [apply HO | intros e o Hl H; apply HE; [| done | done]].
  - destruct Hr as [Hm Hs Hf Ho]. by constructor.
  - split; [apply kin_set_out | done].
  - split; [apply kin_set_out | done].
Qed.
(** The probe tells whether the chip is protected, and never guesses. *)
Lemma fwp_probe (Q : result Error bool -> FakeStm32 -> Prop) c : ready c -> u16_ok (chip_id c) ->
  (forall c', ready c' -> untouched c c' -> Q (Ok (protected c)) c') ->
  (forall e c', untouched c c' -> wire_error e -> (reliable -> fault c = None -> PROBE_LEN <= zlen (flash_of c) -> False) -> Q (Err e) c') ->
  fwp probe Q c.
Proof.
  intros Hr Hid HO HE. unfold probe.
  assert (Hloop : forall n c1, ready c1 -> untouched c c1 -> (n = O -> protected c = true) -> fwp (probe_loop n) Q c1).
  { induction n as [|n IH]; intros c1 Hr1 Hu Hn; cbn [probe_loop].
    { apply fwp_ret. rewrite <- (Hn eq_refl). by apply HO. }
    assert (Htr : forall c2, untouched c1 c2 -> untouched c c2) by (intros c2 [? ?]; destruct Hu; split; [by etrans | congruence]).
    assert (Hp : protected c1 = protected c) by apply Hu. assert (Hid1 : chip_id c1 = chip_id c) by apply Hu.
    intros t Ht. pose proof (fwp_read_block FLASH_BASE PROBE_LEN (fun r c2 => match r with
      | Ok _ => Q (Ok false) c2
      | Err (Nack NCommand) => fwp (discard_input DRAIN ;;; get_id ;;; probe_loop n) Q c2
      | Err e => Q (Err e) c2 end) c1 Hr1) as H.
    assert (Hw : fwp (read_block FLASH_BASE PROBE_LEN) (fun r c2 => match r with
      | Ok _ => Q (Ok false) c2
      | Err (Nack NCommand) => fwp (discard_input DRAIN ;;; get_id ;;; probe_loop n) Q c2
      | Err e => Q (Err e) c2 end) c1); [apply H; clear H|].
    - mlia.
    - mlia.
    - intros c2 Hr2 Hu2 _ _ Hp2. rewrite <- Hp2, Hp. by apply HO, Htr.
    - intros Hp2 c2 Hr2 Hu2. apply fwp_bind, fwp_discard; [done | | intros e c3 [K3 F3] Hl Hnr; apply HE; [apply Htr; destruct Hu2; split; [by etrans | congruence] | by apply wire_link | done]].
      intros c3 Hr3 [K3 F3]. assert (Hu3 : untouched c1 c3) by (destruct Hu2; split; [by etrans | congruence]).
      apply fwp_bind, fwp_get_id; [done | by rewrite (kin_id _ _ (proj1 Hu3)), Hid1 | |].
      + intros c4 Hr4 [K4 F4]. apply IH; [done | apply Htr; destruct Hu3; split; [by etrans | congruence] | by rewrite <- Hp].
      + intros e c4 [K4 F4] Hnn Hnr. apply HE; [apply Htr; destruct Hu3; split; [by etrans | congruence] | by left | done].
    - intros e c2 Hu2 Hwe Hne Hs Hnp. assert (HE2 : Q (Err e) c2).
      { apply HE; [by apply Htr | done |]. intros Hrel Hf Hlen. apply Hs; [done | | done | rewrite (proj2 Hu); unfold PROBE_LEN in *; lia].
        split; [by apply Hnp | by apply (kin_fault _ _ (proj1 Hu))]. }
      destruct e as [|[]| | | | | | | | | | | |]; done.
    - specialize (Hw t Ht). destruct (read_block FLASH_BASE PROBE_LEN t) as [t2 [d|e]]; [exact Hw|].
      destruct e as [|[]| | | | | | | | | | | |]; try exact Hw. by apply Hw. }
  apply Hloop; [done | by split | done].
Qed.
End Commands.
