(* ===== verification/FlashThm.v ===== *)
(** What the flasher promises (crates/flasher/src/flash.rs): an interrupted flash never leaves a bootable
    truncated image, a successful one leaves exactly the image, the whole-chip erase finds the end of flash
    exactly, and the read-back comparison finds the first difference. *)
From S2P Require Import Prelude Bytes Flasher FlashBoard FlashChip FlashWp.

(** ** Pages and blocks *)

Definition blank (n : Z) : list Z := repeat ERASED (Z.to_nat n).
Lemma zlen_blank n : 0 <= n -> zlen (blank n) = n.
Proof. intros. unfold blank, zlen. rewrite repeat_length. lia. Qed.
Lemma blank_add a b : 0 <= a -> 0 <= b -> blank (a + b) = blank a ++ blank b.
Proof. intros. unfold blank. rewrite Z2Nat.inj_add by lia. apply repeat_app. Qed.
Lemma erased_blank n : erased (blank n) = true.
Proof. unfold erased, blank. induction (Z.to_nat n); [done|]. exact IHn0. Qed.

(** Erasing consecutive pages. *)
Lemma erase_pages_span first k F : 0 <= first -> 0 <= k -> (first + k) * PAGE_SIZE <= zlen F ->
  fold_left erase_page (seqZ first k) F = patch F (first * PAGE_SIZE) (blank (k * PAGE_SIZE)).
Proof.
  intros Hf. revert k. apply (natlike_ind (fun k => (first + k) * PAGE_SIZE <= zlen F -> fold_left erase_page (seqZ first k) F = _)).
  - intros _. rewrite seqZ_nil by lia. change (blank (0 * PAGE_SIZE)) with (@nil Z). by rewrite patch_nil.
  - intros k Hk IH Hl. unfold Z.succ in *. rewrite seqZ_app by lia. rewrite fold_left_app, IH by (change PAGE_SIZE with 128 in *; lia).
    rewrite seqZ_cons by lia. rewrite seqZ_nil by lia. cbn [fold_left]. unfold erase_page.
    change (repeat ERASED (Z.to_nat PAGE_SIZE)) with (blank PAGE_SIZE). replace ((k + 1) * PAGE_SIZE) with (k * PAGE_SIZE + PAGE_SIZE) by lia. rewrite blank_add by (change PAGE_SIZE with 128; lia).
    rewrite patch_split.
    + f_equal. rewrite zlen_blank by (change PAGE_SIZE with 128; lia). change PAGE_SIZE with 128. lia.
    + change PAGE_SIZE with 128. lia.
    + rewrite zlen_app, !zlen_blank by (change PAGE_SIZE with 128; lia). change PAGE_SIZE with 128 in *. lia.
Qed.
Lemma page_list_seqZ first last : 0 <= first -> last <= 65536 -> page_list first last = seqZ first (last - first).
Proof.
  intros Hf Hl. unfold page_list. rewrite <- (map_id (seqZ _ _)) at 2. apply map_ext_in. intros p Hp.
  apply list_elem_of_In, elem_of_seqZ in Hp. replace (u16_max <? p) with false by (symmetry; apply Z.ltb_ge; mlia). done.
Qed.
Lemma zlen_seqZ a k : 0 <= k -> zlen (seqZ a k) = k.
Proof. intros. unfold zlen. rewrite length_seqZ. lia. Qed.

(** The image as it is written: padded to the write alignment. *)
Definition image (firmware : list Z) : list Z := pad_block firmware WRITE_ALIGN.
Definition padding (n : Z) : Z := (WRITE_ALIGN - n mod WRITE_ALIGN) mod WRITE_ALIGN.
Lemma padding_spec n : 0 <= padding n < 8 /\ (n + padding n) mod 8 = 0.
Proof. unfold padding. change WRITE_ALIGN with 8. Z.to_euclidean_division_equations. lia. Qed.
Lemma zlen_padded fw : zlen (image fw) = zlen fw + padding (zlen fw).
Proof. unfold image, pad_block. rewrite zlen_app. fold (padding (zlen fw)). pose proof (padding_spec (zlen fw)). unfold zlen at 2. rewrite repeat_length. lia. Qed.
Lemma image_prefix fw : slice (image fw) 0 (zlen fw) = fw.
Proof. apply slice_app_l. Qed.
(** A block of the firmware, padded, is that block of the image. *)
Lemma padded_block fw i : 0 <= i -> i * MAX_BLOCK < zlen fw ->
  pad_block (slice fw (i * MAX_BLOCK) (Z.min MAX_BLOCK (zlen fw - i * MAX_BLOCK))) WRITE_ALIGN =
  slice (image fw) (i * MAX_BLOCK) (Z.min MAX_BLOCK (zlen (image fw) - i * MAX_BLOCK)).
Proof.
  intros Hi Hl. change MAX_BLOCK with 256 in *. set (o := i * 256) in *. pose proof (padding_spec (zlen fw)) as [Hp1 Hp2]. rewrite zlen_padded.
  destruct (Z.lt_ge_cases (zlen fw - o) 256) as [Hs|Hs].
  - rewrite Z.min_r by lia. assert (Hz : zlen (slice fw o (zlen fw - o)) = zlen fw - o) by (rewrite zlen_slice; lia).
    assert (Hpad : padding (zlen (slice fw o (zlen fw - o))) = padding (zlen fw)).
    { rewrite Hz. unfold padding. change WRITE_ALIGN with 8. unfold o. Z.to_euclidean_division_equations. lia. }
    assert (Hle : zlen fw - o + padding (zlen fw) <= 256).
    { clear Hpad. unfold o in *. Z.to_euclidean_division_equations. lia. }
    rewrite Z.min_r by lia. unfold pad_block. fold (padding (zlen (slice fw o (zlen fw - o)))). rewrite Hpad.
    replace (zlen fw + padding (zlen fw) - o) with ((zlen fw - o) + padding (zlen fw)) by lia.
    rewrite slice_split by lia. unfold image, pad_block. fold (padding (zlen fw)).
    rewrite slice_app_in by lia. f_equal. replace (o + (zlen fw - o)) with (zlen fw) by lia.
    rewrite slice_app_r by lia. rewrite Z.sub_diag. symmetry.
    assert (Hr : zlen (repeat 255 (Z.to_nat (padding (zlen fw)))) = padding (zlen fw)) by (unfold zlen at 1; rewrite repeat_length; lia).
    rewrite <- Hr at 2. apply slice_all.
  - rewrite !Z.min_l by lia. assert (Hz : zlen (slice fw o 256) = 256) by (rewrite zlen_slice; lia).
    unfold pad_block at 1. rewrite Hz. change (Z.to_nat ((WRITE_ALIGN - 256 mod WRITE_ALIGN) mod WRITE_ALIGN)) with O. cbn [repeat]. rewrite app_nil_r.
    unfold image, pad_block. by rewrite slice_app_in by lia.
Qed.

(** ** Reading back *)

Lemma first_difference_None got want i : length got = length want -> first_difference got want i = None <-> got = want.
Proof.
  revert want i. induction got as [|g got IH]; intros [|w want] i Hl; cbn in *; try done.
  destruct (g =? w) eqn:E; bool_hyps; [subst w; rewrite IH by lia; split; [by intros -> | by intros [= ->]]|].
  split; [done|]. intros [= -> _]. done.
Qed.
Lemma first_difference_Some got want i j : first_difference got want i = Some j ->
  i <= j /\ take (Z.to_nat (j - i)) got = take (Z.to_nat (j - i)) want /\
  exists g w, got !! Z.to_nat (j - i) = Some g /\ want !! Z.to_nat (j - i) = Some w /\ g <> w.
Proof.
  revert want i. induction got as [|g got IH]; intros [|w want] i H; cbn in *; try done.
  destruct (g =? w) eqn:E; bool_hyps.
  - subst w. apply IH in H as (Hi & Ht & g' & w' & Hg & Hw & Hne). split; [lia|].
    replace (Z.to_nat (j - i)) with (S (Z.to_nat (j - (i + 1)))) by lia. cbn [firstn lookup list_lookup]. split; [by rewrite Ht|]. by exists g', w'.
  - injection H as <-. split; [lia|]. rewrite Z.sub_diag. split; [done|]. by exists g, w.
Qed.

Section Verify.
Context {T : Type} `{TR : !Transport T} `{CL : !ChipLink T}.

Lemma untouched_trans a b c : untouched a b -> untouched b c -> untouched a c.
Proof. intros [? ?] [? ?]. split; [by etrans | congruence]. Qed.
Lemma untouched_refl c : untouched c c.
Proof. by split. Qed.

(** The addresses a mismatch names: the first byte of the range that differs. *)
Definition mismatch_at (F fw : list Z) (first last : Z) (e : Error) : Prop :=
  match e with
  | VerifyMismatch a g w => exists i, a = FLASH_BASE + i /\ first <= i < last /\ slice F first (i - first) = slice fw first (i - first) /\
      F !! Z.to_nat i = Some g /\ fw !! Z.to_nat i = Some w /\ g <> w
  | _ => True
  end.
Lemma slice_lookup {A} (l : list A) o n j x : 0 <= o -> slice l o n !! Z.to_nat j = Some x -> 0 <= j -> l !! Z.to_nat (o + j) = Some x.
Proof.
  intros Ho H Hj. rewrite lookup_slice in H. case_decide; [|done]. by replace (Z.to_nat (o + j)) with (Z.to_nat o + Z.to_nat j)%nat by lia.
Qed.
Lemma slice_take {A} (l : list A) o n j : 0 <= j <= n -> take (Z.to_nat j) (slice l o n) = slice l o j.
Proof. intros Hj. unfold slice. rewrite take_take. f_equal. lia. Qed.
Lemma byte_at_lookup l i x : l !! Z.to_nat i = Some x -> byte_at l i = x.
Proof. intros H. unfold byte_at. by apply nth_lookup_Some with (d := 0) in H. Qed.

Lemma fwpr_verify_loop fuel : forall fw first last offset verified c (Q : result Error Z -> FakeStm32 -> Prop),
  ready c -> 0 <= first <= offset -> offset <= last -> last <= zlen fw -> zlen fw <= MAX_FLASH_SIZE -> (Z.to_nat (last - offset) <= fuel)%nat ->
  slice (flash_of c) first (offset - first) = slice fw first (offset - first) ->
  (forall v c', ready c' -> untouched c c' -> slice (flash_of c) first (last - first) = slice fw first (last - first) -> Q (Ok v) c') ->
  (forall e c', untouched c c' -> mismatch_at (flash_of c) fw first last e ->
     (reliable -> sound c -> last <= zlen (flash_of c) -> slice (flash_of c) first (last - first) = slice fw first (last - first) -> False) -> Q (Err e) c') ->
  fwpr (verify_loop fuel fw last offset verified) Q c.
Proof.
  induction fuel as [|fuel IH]; intros fw first last offset verified c Q Hr Hf Ho Hl Hfw Hfuel Hsame HO HE; cbn [verify_loop].
  { replace last with offset in * by lia. apply fwpr_ret, HO; [done | apply untouched_refl | exact Hsame]. }
  split_if; bool_hyps.
  2: { replace last with offset in * by lia. apply fwpr_ret, HO; [done | apply untouched_refl | exact Hsame]. }
  set (len := Z.min MAX_BLOCK (last - offset)). assert (Hlen : 1 <= len <= 256 /\ len <= last - offset) by (unfold len; change MAX_BLOCK with 256; lia).
  assert (Hsplit : forall l : list Z, slice l first (last - first) = slice l first (offset - first) ++ slice l offset len ++ slice l (offset + len) (last - offset - len)).
  { intros l. replace (last - first) with ((offset - first) + (len + (last - offset - len))) by lia. rewrite !slice_split by lia.
    by replace (first + (offset - first)) with offset by lia. }
  apply fwpr_bind, fwpr_lift, fwp_read_block; [done | lia | change FLASH_BASE with 134217728; mlia | | |].
  - intros c1 Hr1 Hu1 _ Hin Hp. replace (FLASH_BASE + offset - FLASH_BASE) with offset in * by lia.
    assert (Hz : length (slice (flash_of c) offset len) = length (slice fw offset len)).
    { assert (H1 : zlen (slice (flash_of c) offset len) = len) by (rewrite zlen_slice; lia).
      assert (H2 : zlen (slice fw offset len) = len) by (rewrite zlen_slice; lia). unfold zlen in *. lia. }
    destruct (first_difference _ _ 0) as [i|] eqn:Ed.
    + apply first_difference_Some in Ed as (Hi & Ht & g & w & Hg & Hw & Hne). rewrite Z.sub_0_r in *.
      assert (Hil : i < len). { apply lookup_lt_Some in Hg. assert (zlen (slice (flash_of c) offset len) = len) by (rewrite zlen_slice; lia). unfold zlen in *. lia. }
      rewrite (byte_at_lookup _ _ _ Hg), (byte_at_lookup _ _ _ Hw). apply fwpr_fail, HE; [done | |].
      * exists (offset + i). split; [lia|]. split; [lia|]. split.
        -- replace (offset + i - first) with ((offset - first) + i) by lia. rewrite !slice_split by lia.
           replace (first + (offset - first)) with offset by lia. rewrite Hsame. f_equal. by rewrite !slice_take in Ht by lia.
        -- apply slice_lookup in Hg, Hw; [by exists g || (split; [exact Hg | split; [exact Hw | exact Hne]]) | lia..].
      * intros _ _ _ Heq. rewrite !Hsplit in Heq. apply app_inj_1 in Heq as [_ Heq].
        2: { rewrite Hsame. done. }
        apply app_inj_1 in Heq as [Heq _]; [|done]. rewrite Heq, Hw in Hg. congruence.
    + apply first_difference_None in Ed; [|done]. apply fwpr_bind, fwpr_progress.
      pose proof Hu1 as [K1 F1]. apply IH with (first := first); [done | lia | lia | done | done | lia | | |].
      * rewrite F1. replace (offset + len - first) with ((offset - first) + len) by lia. rewrite !slice_split by lia.
        replace (first + (offset - first)) with offset by lia. by rewrite Hsame, Ed.
      * intros v c2 Hr2 Hu2. rewrite F1. intros Hall. apply HO; [done | by eapply untouched_trans | done].
      * intros e c2 Hu2 Hm Hs. rewrite F1 in *. apply HE; [by eapply untouched_trans | done|]. intros Hrel [Hsp Hsf]. apply Hs; [done|].
        split; [by rewrite (kin_protected _ _ K1) | by apply (kin_fault _ _ K1)].
  - intros Hp c1 Hr1 Hu1. apply HE; [done | done|]. intros _ [Hsp _]. congruence.
  - intros e c1 Hu1 Hwe Hne Hs Hnp. apply HE; [done | |].
    + by destruct Hwe as [[[-> | [-> | ->]] | [g ->]] | [s ->]].
    + intros Hrel Hso Hin _. apply Hs; [done | done | change FLASH_BASE with 134217728; lia | lia].
Qed.
End Verify.

(** ** Erasing and writing the image *)

Lemma kin_sound c c' : kin c c' -> sound c -> sound c'.
Proof. intros K [Hp Hf]. split; [by rewrite (kin_protected _ _ K) | by apply (kin_fault _ _ K)]. Qed.
Lemma erased_app a b : erased (a ++ b) = erased a && erased b.
Proof. apply forallb_app. Qed.
Lemma erased_sub F o n o' n' : erased (slice F o n) = true -> 0 <= o -> o <= o' -> 0 <= n' -> o' + n' <= o + n -> erased (slice F o' n') = true.
Proof.
  intros He Ho Ho' Hn Hl. replace n with ((o' - o) + (n' + (o + n - o' - n'))) in He by lia.
  rewrite !slice_split, !erased_app in He by lia. bool_hyps. by replace (o + (o' - o)) with o' in * by lia.
Qed.
(** The first [p] pages erased. *)
Definition wiped (F : list Z) (p : Z) : list Z := patch F 0 (blank (p * PAGE_SIZE)).
Lemma wiped_0 F : wiped F 0 = F.
Proof. unfold wiped. change (blank (0 * PAGE_SIZE)) with (@nil Z). apply patch_nil. Qed.
Lemma zlen_wiped F p : 0 <= p -> p * PAGE_SIZE <= zlen F -> zlen (wiped F p) = zlen F.
Proof. intros Hp Hl. unfold wiped. apply zlen_patch; [lia|]. rewrite zlen_blank; change PAGE_SIZE with 128 in *; lia. Qed.
Lemma wiped_add F p k : 0 <= p -> 0 <= k -> (p + k) * PAGE_SIZE <= zlen F -> fold_left erase_page (seqZ p k) (wiped F p) = wiped F (p + k).
Proof.
  intros Hp Hk Hl. change PAGE_SIZE with 128 in *. rewrite erase_pages_span by (change PAGE_SIZE with 128; rewrite ?zlen_wiped; change PAGE_SIZE with 128; lia).
  unfold wiped. change PAGE_SIZE with 128. rewrite Z.mul_add_distr_r, blank_add by lia.
  rewrite patch_split; rewrite ?zlen_app, ?zlen_blank; try lia. done.
Qed.
Lemma erased_wiped F p n : 0 <= n <= p * PAGE_SIZE -> p * PAGE_SIZE <= zlen F -> erased (slice (wiped F p) 0 n) = true.
Proof.
  intros Hn Hl. apply (erased_sub _ 0 (p * PAGE_SIZE)); try lia. unfold wiped.
  assert (Hz : zlen (blank (p * PAGE_SIZE)) = p * PAGE_SIZE) by (apply zlen_blank; lia).
  rewrite <- Hz at 2. rewrite slice_patch_same by lia. apply erased_blank.
Qed.

Section Write.
Context {T : Type} `{TR : !Transport T} `{CL : !ChipLink T}.

Lemma fwp_erase_list first last d (Q : result Error unit -> FakeStm32 -> Prop) c : ready c -> 0 <= first < last -> last <= first + ERASE_CHUNK ->
  last <= pages_in MAX_FLASH_SIZE ->
  (protected c = false -> last <= density c ->
     forall c', ready c' -> kin c c' -> flash_of c' = fold_left erase_page (seqZ first (last - first)) (flash_of c) -> Q (Ok tt) c') ->
  (protected c = false -> density c < last -> forall c', ready c' -> untouched c c' -> Q (Err (Nack NPayload)) c') ->
  (forall e c', kin c c' -> flash_of c' = flash_of c \/ (last <= density c /\ flash_of c' = fold_left erase_page (seqZ first (last - first)) (flash_of c)) ->
     e <> Nack NPayload -> (reliable -> protected c = true) -> Q (Err e) c') ->
  fwp (extended_erase_pages (page_list first last) d) Q c.
Proof.
  intros Hr Hf Hl Hm HO HN HE. change (pages_in MAX_FLASH_SIZE) with 1536 in *. change ERASE_CHUNK with 80 in *.
  rewrite page_list_seqZ by lia.
  assert (Hall : forall d, Forall (fun p => p < d) (seqZ first (last - first)) <-> last <= d).
  { intros d'. rewrite List.Forall_forall. split; [intros H|intros H p Hp].
    - specialize (H (last - 1)). cbv beta in H. assert (Hin : In (last - 1) (seqZ first (last - first))) by (apply list_elem_of_In, elem_of_seqZ; lia). specialize (H Hin). lia.
    - apply list_elem_of_In, elem_of_seqZ in Hp. lia. }
  apply fwp_erase; [done | rewrite zlen_seqZ; lia | | | |].
  - apply List.Forall_forall. intros p Hp. apply list_elem_of_In, elem_of_seqZ in Hp. change (pages_in MAX_FLASH_SIZE) with 1536. lia.
  - intros Hp Hd. apply HO; [done | by apply Hall].
  - intros Hp (p & Hin & Hd). apply HN; [done|]. apply list_elem_of_In, elem_of_seqZ in Hin. lia.
  - intros e c' K Hfl. apply HE; [done|]. destruct Hfl as [|[Hd ?]]; [by left | right; split; [by apply Hall | done]].
Qed.

(** The footprint erase: on any failure some whole prefix of it is erased, at least the first chunk
    or nothing at all. *)
Lemma fwpr_erase_loop fuel : forall count page c0 c (Q : result Error unit -> FakeStm32 -> Prop),
  ready c -> kin c0 c -> 0 <= page <= count -> count <= pages_in MAX_FLASH_SIZE -> (Z.to_nat (count - page) <= fuel)%nat ->
  (page = 0 \/ Z.min ERASE_CHUNK count <= page) -> page * PAGE_SIZE <= zlen (flash_of c0) -> flash_of c = wiped (flash_of c0) page ->
  (count <= density c0 -> forall c', ready c' -> kin c0 c' -> flash_of c' = wiped (flash_of c0) count -> Q (Ok tt) c') ->
  (forall e c' p, kin c0 c' -> p = 0 \/ Z.min ERASE_CHUNK count <= p <= count -> p * PAGE_SIZE <= zlen (flash_of c0) -> flash_of c' = wiped (flash_of c0) p ->
     (reliable -> sound c0 -> count <= density c0 -> False) -> Q (Err e) c') ->
  fwpr (erase_loop fuel count page) Q c.
Proof.
  induction fuel as [|fuel IH]; intros count page c0 c Q Hr K Hp Hc Hfuel Hstep Hlen Hfl HO HE; cbn [erase_loop].
  { replace page with count in * by lia. apply fwpr_ret, HO; try done. unfold density. change PAGE_SIZE with 128 in *. apply Z.div_le_lower_bound; lia. }
  split_if; bool_hyps.
  2: { replace page with count in * by lia. apply fwpr_ret, HO; try done. unfold density. change PAGE_SIZE with 128 in *. apply Z.div_le_lower_bound; lia. }
  set (last := Z.min (page + ERASE_CHUNK) count). assert (Hlast : page < last /\ last <= page + 80 /\ last <= count /\ Z.min 80 count <= last)
    by (unfold last; change ERASE_CHUNK with 80 in *; lia). destruct Hlast as (Hl1 & Hl2 & Hl3 & Hl4).
  assert (Hd : density c = density c0) by (unfold density; rewrite Hfl, zlen_wiped by lia; done).
  assert (Hdl : last <= density c0 -> last * PAGE_SIZE <= zlen (flash_of c0)).
  { unfold density. change PAGE_SIZE with 128. intros H. pose proof (Z.mul_div_le (zlen (flash_of c0)) 128). lia. }
  assert (Hw : last <= density c0 -> fold_left erase_page (seqZ page (last - page)) (flash_of c) = wiped (flash_of c0) last).
  { intros H. rewrite Hfl, wiped_add by (try lia; replace (page + (last - page)) with last by lia; auto). f_equal. lia. }
  apply fwpr_bind, fwpr_lift, fwp_erase_list; [done | lia | change ERASE_CHUNK with 80; lia | lia | | |].
  - intros _ Hdn c1 Hr1 K1 F1. rewrite Hd in Hdn. rewrite Hw in F1 by done. apply fwpr_bind, fwpr_progress.
    apply (IH count last c0 c1 Q); [done | by etrans | lia | done | lia | right; change ERASE_CHUNK with 80; lia | by apply Hdl | done | done | done].
  - intros _ Hdn c1 Hr1 [K1 F1]. rewrite Hd in Hdn. apply (HE _ c1 page); [by etrans | change ERASE_CHUNK with 80 in *; lia | done | congruence | lia].
  - intros e c1 K1 F1 Hne Hrel. rewrite Hd in F1. destruct F1 as [F1 | [Hdn F1]].
    + apply (HE _ c1 page); [by etrans | change ERASE_CHUNK with 80 in *; lia | done | congruence|].
      intros H [Hsp _] _. rewrite (kin_protected _ _ K) in Hrel. rewrite (Hrel H) in Hsp. done.
    + rewrite Hw in F1 by done. apply (HE _ c1 last); [by etrans | change ERASE_CHUNK with 80; lia | by apply Hdl | done |].
      intros H [Hsp _] _. rewrite (kin_protected _ _ K) in Hrel. rewrite (Hrel H) in Hsp. done.
Qed.

(** The blocks after the first, up to byte [k] of the image, over [B]. *)
Definition partly (B fw : list Z) (k : Z) : list Z := patch B MAX_BLOCK (slice (image fw) MAX_BLOCK (k - MAX_BLOCK)).
Lemma zlen_partly (B fw : list Z) k : MAX_BLOCK <= k -> k <= zlen (image fw) -> zlen (image fw) <= zlen B -> zlen (partly B fw k) = zlen B.
Proof. intros H1 H2 H3. change MAX_BLOCK with 256 in *. unfold partly. change MAX_BLOCK with 256. rewrite zlen_patch; rewrite ?zlen_slice; lia. Qed.
Lemma partly_start (B fw : list Z) : partly B fw MAX_BLOCK = B.
Proof. unfold partly. rewrite Z.sub_diag, slice_0. apply patch_nil. Qed.
Lemma partly_other (B fw : list Z) k o n : MAX_BLOCK <= k -> k <= zlen (image fw) -> zlen (image fw) <= zlen B ->
  0 <= o -> 0 <= n -> (o + n <= MAX_BLOCK \/ k <= o) -> o + n <= zlen B -> slice (partly B fw k) o n = slice B o n.
Proof.
  intros H1 H2 H3 Ho Hn Hd Hl. change MAX_BLOCK with 256 in *. unfold partly. change MAX_BLOCK with 256.
  rewrite slice_patch_other; [done|..]; rewrite ?zlen_slice; lia.
Qed.
Lemma fwpr_write_loop fuel : forall (fw B : list Z) i done_ c0 c (Q : result Error unit -> FakeStm32 -> Prop),
  ready c -> kin c0 c -> 1 <= i -> zlen fw <= MAX_FLASH_SIZE -> (Z.to_nat (zlen fw - i * MAX_BLOCK) <= fuel)%nat ->
  MAX_BLOCK <= zlen (image fw) -> i * MAX_BLOCK <= zlen (image fw) + MAX_BLOCK -> zlen (image fw) <= zlen B -> erased (slice B 0 (zlen (image fw))) = true ->
  flash_of c = partly B fw (Z.min (i * MAX_BLOCK) (zlen (image fw))) ->
  (forall c', ready c' -> kin c0 c' -> flash_of c' = partly B fw (zlen (image fw)) -> Q (Ok tt) c') ->
  (forall e c' k, kin c0 c' -> MAX_BLOCK <= k <= zlen (image fw) -> flash_of c' = partly B fw k -> (reliable -> sound c0 -> False) -> Q (Err e) c') ->
  fwpr (write_loop fuel fw i done_) Q c.
Proof.
  pose proof (fun fw : list Z => padding_spec (zlen fw)) as Hpad. change MAX_BLOCK with 256 in *. change MAX_FLASH_SIZE with 196608 in *.
  induction fuel as [|fuel IH]; intros fw B i done_ c0 c Q Hr K Hi Hn Hfuel HI Hik HB He Hfl HO HE; cbn [write_loop]; specialize (Hpad fw); pose proof (zlen_padded fw) as Hz.
  { apply fwpr_ret, HO; try done. rewrite Hfl. f_equal. Z.to_euclidean_division_equations. lia. }
  change MAX_BLOCK with 256. split_if; bool_hyps.
  2: { apply fwpr_ret, HO; try done. rewrite Hfl. f_equal. Z.to_euclidean_division_equations. lia. }
  pose proof (padded_block fw i ltac:(lia)) as Hb. change MAX_BLOCK with 256 in Hb. rewrite Hb by done. clear Hb.
  set (I := zlen (image fw)) in *. set (len := Z.min 256 (I - i * 256)). set (block := slice (image fw) (i * 256) len).
  assert (Hlen : 1 <= len <= 256 /\ i * 256 + len <= I /\ len mod 8 = 0) by (unfold len; Z.to_euclidean_division_equations; lia).
  destruct Hlen as (Hl1 & Hl2 & Hl3). assert (Hzb : zlen block = len) by (unfold block; rewrite zlen_slice; lia).
  rewrite Z.min_l in Hfl by lia. assert (Hzf : zlen (flash_of c) = zlen B) by (rewrite Hfl; apply zlen_partly; change MAX_BLOCK with 256; lia).
  assert (Hoff : FLASH_BASE + i * 256 - FLASH_BASE = i * 256) by lia.
  assert (Hwr : writable c (FLASH_BASE + i * 256) block).
  { split; rewrite Hoff, Hzb; [lia|]. rewrite Hfl, partly_other by (change MAX_BLOCK with 256; lia). apply (erased_sub _ 0 I); try done; lia. }
  assert (Hw : written c (FLASH_BASE + i * 256) block = partly B fw (i * 256 + len)).
  { unfold written. rewrite Hoff, Hfl. unfold partly. change MAX_BLOCK with 256. replace (i * 256 + len - 256) with ((i * 256 - 256) + len) by lia.
    rewrite slice_split by lia. replace (256 + (i * 256 - 256)) with (i * 256) by lia. fold block.
    assert (Hzs : zlen (slice (image fw) 256 (i * 256 - 256)) = i * 256 - 256) by (rewrite zlen_slice; lia).
    rewrite patch_split by (rewrite ?zlen_app, ?Hzs, ?Hzb; lia). f_equal. lia. }
  apply fwpr_bind, fwpr_lift, fwp_write_block; rewrite ?Hzb; change WRITE_ALIGN with 8; change FLASH_BASE with 134217728; change MAX_FLASH_SIZE with 196608; try done; try lia.
  - unfold len in *. Z.to_euclidean_division_equations. lia.
  - intros _ c1 Hr1 K1 F1. change 134217728 with FLASH_BASE in F1. rewrite Hw in F1. apply fwpr_bind, fwpr_progress.
    apply (IH fw B (i + 1) _ c0 c1); [done | by etrans | lia | done | lia | done | unfold len in *; lia | done | done | | done | done].
    rewrite F1. f_equal. unfold len. lia.
  - intros e c1 K1 F1 Hs. change 134217728 with FLASH_BASE in *. rewrite Hw in F1.
    assert (Hno : reliable -> sound c0 -> False) by (intros H1 H2; apply Hs; [done | by eapply kin_sound | done]).
    destruct F1 as [F1 | [_ F1]]; [apply (HE _ c1 (i * 256)) | apply (HE _ c1 (i * 256 + len))]; try done; try (by etrans); try lia.
Qed.

Lemma partly_short (B fw : list Z) : zlen (image fw) <= MAX_BLOCK -> partly B fw (zlen (image fw)) = B.
Proof.
  intros H. unfold partly. replace (slice (image fw) MAX_BLOCK (zlen (image fw) - MAX_BLOCK)) with (@nil Z); [apply patch_nil|].
  unfold slice. by replace (Z.to_nat (zlen (image fw) - MAX_BLOCK)) with O by lia.
Qed.
(** The first block of the image. *)
Definition vector_len (fw : list Z) : Z := Z.min MAX_BLOCK (zlen (image fw)).
Lemma partly_vector (B fw : list Z) k : vector_len fw <= k <= zlen (image fw) -> zlen (image fw) <= zlen B ->
  slice (partly B fw k) 0 (vector_len fw) = slice B 0 (vector_len fw).
Proof.
  unfold vector_len. intros Hk HB. pose proof (zlen_nonneg (image fw)). destruct (Z.le_gt_cases (zlen (image fw)) MAX_BLOCK) as [Hs|Hs].
  - rewrite Z.min_r in * by lia. replace k with (zlen (image fw)) by lia. by rewrite partly_short.
  - rewrite Z.min_l in * by lia. change MAX_BLOCK with 256 in *. apply partly_other; change MAX_BLOCK with 256; lia.
Qed.
(** With the first block on top, the image is complete. *)
Lemma partly_whole (B fw : list Z) : zlen (image fw) <= zlen B ->
  patch (partly B fw (zlen (image fw))) 0 (slice (image fw) 0 (vector_len fw)) = patch B 0 (image fw).
Proof.
  unfold vector_len. intros HB. pose proof (zlen_nonneg (image fw)). destruct (Z.le_gt_cases (zlen (image fw)) MAX_BLOCK) as [Hs|Hs].
  - rewrite partly_short by done. by rewrite Z.min_r, slice_all by lia.
  - rewrite Z.min_l by lia. unfold partly. change MAX_BLOCK with 256 in *.
    assert (H1 : zlen (slice (image fw) 0 256) = 256) by (rewrite zlen_slice; lia).
    assert (H2 : zlen (slice (image fw) 256 (zlen (image fw) - 256)) = zlen (image fw) - 256) by (rewrite zlen_slice; lia).
    rewrite <- patch_comm by (rewrite ?H1, ?H2; lia).
    replace (patch B 0 (image fw)) with (patch B 0 (slice (image fw) 0 256 ++ slice (image fw) (0 + 256) (zlen (image fw) - 256))).
    + change (0 + 256) with 256. rewrite patch_split by (rewrite ?zlen_app, ?H1, ?H2; lia). by rewrite H1.
    + f_equal. rewrite <- slice_split by lia. replace (256 + (zlen (image fw) - 256)) with (zlen (image fw)) by lia. apply slice_all.
Qed.
Lemma image_size fw : 0 < zlen fw <= MAX_FLASH_SIZE ->
  zlen fw <= zlen (image fw) /\ zlen (image fw) <= pages_for_length (zlen fw) (pages_in MAX_FLASH_SIZE) * PAGE_SIZE /\
  1 <= pages_for_length (zlen fw) (pages_in MAX_FLASH_SIZE) <= pages_in MAX_FLASH_SIZE /\ zlen (image fw) mod WRITE_ALIGN = 0.
Proof.
  intros Hn. rewrite zlen_padded. pose proof (padding_spec (zlen fw)) as [Hp1 Hp2]. unfold pages_for_length, div_ceil.
  change (pages_in MAX_FLASH_SIZE) with 1536. change MAX_FLASH_SIZE with 196608 in *. change PAGE_SIZE with 128. change WRITE_ALIGN with 8.
  Z.to_euclidean_division_equations. lia.
Qed.
Lemma fwpr_erase_pages count c (Q : result Error unit -> FakeStm32 -> Prop) : ready c -> 0 <= count <= pages_in MAX_FLASH_SIZE ->
  (count <= density c -> forall c', ready c' -> kin c c' -> flash_of c' = wiped (flash_of c) count -> Q (Ok tt) c') ->
  (forall e c' p, kin c c' -> p = 0 \/ Z.min ERASE_CHUNK count <= p <= count -> p * PAGE_SIZE <= zlen (flash_of c) -> flash_of c' = wiped (flash_of c) p ->
     (reliable -> sound c -> count <= density c -> False) -> Q (Err e) c') ->
  fwpr (erase_pages count) Q c.
Proof.
  intros Hr Hc HO HE. unfold erase_pages. replace (pages_in MAX_FLASH_SIZE <? count) with false by (symmetry; apply Z.ltb_ge; lia).
  apply fwpr_bind, fwpr_progress, (fwpr_erase_loop _ count 0 c c); try done; try lia. pose proof (zlen_nonneg (flash_of c)). lia.
Qed.
(** Every block but the first, over an erased [B]. *)
Lemma fwpr_write_rest (fw B : list Z) done_ c (Q : result Error unit -> FakeStm32 -> Prop) :
  ready c -> 0 < zlen fw <= MAX_FLASH_SIZE -> zlen (image fw) <= zlen B -> erased (slice B 0 (zlen (image fw))) = true -> flash_of c = B ->
  (forall c', ready c' -> kin c c' -> flash_of c' = partly B fw (zlen (image fw)) -> Q (Ok tt) c') ->
  (forall e c' k, kin c c' -> vector_len fw <= k <= zlen (image fw) -> flash_of c' = partly B fw k -> (reliable -> sound c -> False) -> Q (Err e) c') ->
  fwpr (write_loop (Z.to_nat (zlen fw)) fw 1 done_) Q c.
Proof.
  intros Hr Hn HB He Hfl HO HE. pose proof (image_size fw Hn) as (HI & _ & _ & Hal). unfold vector_len in HE. change WRITE_ALIGN with 8 in *.
  destruct (Z.le_gt_cases (zlen (image fw)) MAX_BLOCK) as [Hs|Hs]; change MAX_BLOCK with 256 in *.
  - destruct (Z.to_nat (zlen fw)) eqn:E; [lia|]. cbn [write_loop]. replace (1 * MAX_BLOCK <? zlen fw) with false by (symmetry; apply Z.ltb_ge; change MAX_BLOCK with 256; lia).
    apply fwpr_ret, HO; try done. rewrite partly_short by (change MAX_BLOCK with 256; lia). done.
  - rewrite Z.min_l in HE by lia. apply (fwpr_write_loop _ fw B 1 _ c c); try done; change MAX_BLOCK with 256; try lia.
    rewrite Z.min_l by lia. rewrite Hfl. symmetry. apply partly_start.
Qed.
Lemma fwpr_verify_range (fw : list Z) first last done_ c (Q : result Error Z -> FakeStm32 -> Prop) :
  ready c -> 0 <= first <= last -> last <= zlen fw <= MAX_FLASH_SIZE ->
  (forall v c', ready c' -> untouched c c' -> slice (flash_of c) first (last - first) = slice fw first (last - first) -> Q (Ok v) c') ->
  (forall e c', untouched c c' -> mismatch_at (flash_of c) fw first last e ->
     (reliable -> sound c -> last <= zlen (flash_of c) -> slice (flash_of c) first (last - first) = slice fw first (last - first) -> False) -> Q (Err e) c') ->
  fwpr (verify_range fw first last done_) Q c.
Proof.
  intros Hr Hf Hl HO HE. unfold verify_range. apply fwpr_bind, fwpr_progress, fwpr_verify_loop with (first := first); try done; try lia.
  by rewrite !Z.sub_diag, !slice_0.
Qed.
(** The first block, once the others are in place. *)
Lemma fwp_write_vector (fw B : list Z) c (Q : result Error unit -> FakeStm32 -> Prop) :
  ready c -> 0 < zlen fw <= MAX_FLASH_SIZE -> zlen (image fw) <= zlen B -> erased (slice B 0 (zlen (image fw))) = true ->
  flash_of c = partly B fw (zlen (image fw)) ->
  (forall c', ready c' -> kin c c' -> flash_of c' = patch B 0 (image fw) -> Q (Ok tt) c') ->
  (forall e c', kin c c' -> flash_of c' = flash_of c \/ flash_of c' = patch B 0 (image fw) -> (reliable -> sound c -> False) -> Q (Err e) c') ->
  fwp (write_block FLASH_BASE (pad_block (slice fw 0 (Z.min (zlen fw) MAX_BLOCK)) WRITE_ALIGN)) Q c.
Proof.
  intros Hr Hn HB He Hfl HO HE. pose proof (image_size fw Hn) as (HI & _ & _ & Hal).
  pose proof (padded_block fw 0 ltac:(lia) ltac:(lia)) as Hb. rewrite Z.mul_0_l, !Z.sub_0_r in Hb. rewrite (Z.min_comm (zlen fw)), Hb. clear Hb.
  fold (vector_len fw). set (block := slice (image fw) 0 (vector_len fw)).
  assert (Hv : 1 <= vector_len fw <= 256 /\ vector_len fw <= zlen (image fw) /\ vector_len fw mod 8 = 0).
  { unfold vector_len. change MAX_BLOCK with 256. change WRITE_ALIGN with 8 in *. destruct (Z.min_spec 256 (zlen (image fw))) as [[? ->]|[? ->]]; split_and?; try lia; try done. }
  destruct Hv as (Hv1 & Hv2 & Hv3). assert (Hzb : zlen block = vector_len fw) by (unfold block; rewrite zlen_slice; lia).
  assert (Hp : slice (partly B fw (zlen (image fw))) 0 (vector_len fw) = slice B 0 (vector_len fw)) by (apply partly_vector; lia).
  assert (Hz : zlen (slice B 0 (zlen (image fw))) = zlen (image fw)) by (rewrite zlen_slice; lia).
  assert (Hzf : vector_len fw <= zlen (flash_of c)).
  { rewrite Hfl. destruct (Z.le_gt_cases (zlen (image fw)) MAX_BLOCK); [rewrite partly_short by done; lia | rewrite zlen_partly; lia]. }
  assert (Hwr : writable c FLASH_BASE block).
  { split; rewrite Z.sub_diag, Hzb; [lia|]. rewrite Hfl, Hp. apply (erased_sub _ 0 (zlen (image fw))); try done; lia. }
  assert (Hw : written c FLASH_BASE block = patch B 0 (image fw)).
  { unfold written. rewrite Z.sub_diag, Hfl. by apply partly_whole. }
  apply fwp_write_block; rewrite ?Hzb; change WRITE_ALIGN with 8; change MAX_FLASH_SIZE with 196608; try done; try lia.
  - intros _ c' Hr' K F. apply HO; [done | done | congruence].
  - intros e c' K F Hs. apply HE; [done | | by intros H1 H2; apply Hs]. destruct F as [F | [_ F]]; [by left | right; congruence].
Qed.

(** *** The whole image

    The memory the blocks go into: the footprint erased, or memory the caller says is erased. *)
Definition footprint (fw : list Z) : Z := pages_for_length (zlen fw) (pages_in MAX_FLASH_SIZE).
Definition prepared (fw F : list Z) (opts : FlashOptions) : list Z := if opt_erase opts then wiped F (footprint fw) else F.
Definition flashed (fw F : list Z) (opts : FlashOptions) : list Z := patch (prepared fw F opts) 0 (image fw).
Definition room_for (fw F : list Z) (opts : FlashOptions) : Prop :=
  if opt_erase opts then footprint fw * PAGE_SIZE <= zlen F
  else zlen (image fw) <= zlen F /\ erased (slice F 0 (zlen (image fw))) = true.
(** What an interrupted run leaves: the old memory, no vector table, or the whole image. *)
Definition left_by (fw F : list Z) (opts : FlashOptions) (F' : list Z) : Prop :=
  F' = F \/ (zlen F' = zlen F /\ vector_len fw <= zlen F /\ erased (slice F' 0 (vector_len fw)) = true) \/ F' = flashed fw F opts.

Lemma vector_len_pos fw : 0 < zlen fw <= MAX_FLASH_SIZE -> 8 <= vector_len fw <= 256.
Proof.
  intros Hn. pose proof (image_size fw Hn) as (HI & _ & _ & Hal). unfold vector_len. change MAX_BLOCK with 256. change WRITE_ALIGN with 8 in *.
  Z.to_euclidean_division_equations. lia.
Qed.
Lemma vector_len_le fw : vector_len fw <= zlen (image fw).
Proof. unfold vector_len. lia. Qed.
Lemma zlen_prepared fw F opts : 0 < zlen fw <= MAX_FLASH_SIZE -> room_for fw F opts -> zlen (prepared fw F opts) = zlen F.
Proof.
  intros Hn Hroom. pose proof (image_size fw Hn) as (_ & _ & HP & _). unfold prepared, room_for in *. destruct (opt_erase opts); [|done].
  apply zlen_wiped; unfold footprint in *; lia.
Qed.
Lemma prepared_erased fw F opts : 0 < zlen fw <= MAX_FLASH_SIZE -> room_for fw F opts ->
  zlen (image fw) <= zlen (prepared fw F opts) /\ erased (slice (prepared fw F opts) 0 (zlen (image fw))) = true.
Proof.
  intros Hn Hroom. rewrite zlen_prepared by done. pose proof (image_size fw Hn) as (HI & HP1 & HP & _). fold (footprint fw) in *.
  unfold prepared, room_for in *. destruct (opt_erase opts); [|done]. split; [lia|]. apply erased_wiped; lia.
Qed.
(** A partly erased footprint has no vector table, and neither has a partly written image. *)
Lemma left_wiped fw F opts p : 0 < zlen fw <= MAX_FLASH_SIZE -> p = 0 \/ Z.min ERASE_CHUNK (footprint fw) <= p <= footprint fw ->
  p * PAGE_SIZE <= zlen F -> left_by fw F opts (wiped F p).
Proof.
  intros Hn Hp Hl. pose proof (image_size fw Hn) as (HI & HP1 & HP & _). fold (footprint fw) in *. change ERASE_CHUNK with 80 in *. change PAGE_SIZE with 128 in *.
  destruct Hp as [->|Hp]; [left; apply wiped_0|]. right. left. pose proof (vector_len_pos fw Hn). unfold vector_len in *. change MAX_BLOCK with 256 in *.
  rewrite zlen_wiped by (change PAGE_SIZE with 128; lia). split; [done|]. split; [lia|]. apply erased_wiped; change PAGE_SIZE with 128; lia.
Qed.
Lemma left_partly fw F opts k : 0 < zlen fw <= MAX_FLASH_SIZE -> room_for fw F opts -> vector_len fw <= k <= zlen (image fw) ->
  left_by fw F opts (partly (prepared fw F opts) fw k).
Proof.
  intros Hn Hroom Hk. destruct (prepared_erased fw F opts Hn Hroom) as [HB He]. rewrite zlen_prepared in HB by done. pose proof (vector_len_pos fw Hn).
  right. left. rewrite partly_vector by (rewrite ?zlen_prepared; done || lia). split; [|split; [lia | apply (erased_sub _ 0 (zlen (image fw))); try done; lia]].
  unfold vector_len in *. destruct (Z.le_gt_cases (zlen (image fw)) MAX_BLOCK).
  - replace k with (zlen (image fw)) by lia. rewrite partly_short by done. by apply zlen_prepared.
  - rewrite zlen_partly; rewrite ?zlen_prepared; try done; lia.
Qed.

(** What is in place reads back. *)
Lemma flashed_reads fw F opts : 0 < zlen fw <= MAX_FLASH_SIZE -> room_for fw F opts ->
  zlen (flashed fw F opts) = zlen F /\ slice (flashed fw F opts) 0 (zlen (image fw)) = image fw /\
  forall o n, 0 <= o -> 0 <= n -> o + n <= zlen fw -> slice (flashed fw F opts) o n = slice fw o n.
Proof.
  intros Hn Hroom. destruct (prepared_erased fw F opts Hn Hroom) as [HB _]. pose proof (image_size fw Hn) as (HI & _).
  unfold flashed. split; [rewrite zlen_patch by lia; by apply zlen_prepared|]. assert (Hs : slice (patch (prepared fw F opts) 0 (image fw)) 0 (zlen (image fw)) = image fw) by (apply slice_patch_same; lia).
  split; [exact Hs|]. intros o n Ho Hn' Hl. replace o with (0 + o) at 1 by lia. rewrite <- (slice_slice _ 0 (zlen (image fw))) by lia.
  rewrite Hs. unfold image, pad_block. apply slice_app_in; lia.
Qed.
Lemma partly_reads (B fw : list Z) : zlen (image fw) <= zlen B -> MAX_BLOCK <= zlen fw -> zlen fw <= zlen (image fw) ->
  slice (partly B fw (zlen (image fw))) MAX_BLOCK (zlen fw - MAX_BLOCK) = slice fw MAX_BLOCK (zlen fw - MAX_BLOCK).
Proof.
  intros HB Hl HI. change MAX_BLOCK with 256 in *. unfold partly. change MAX_BLOCK with 256.
  set (d := slice (image fw) 256 (zlen (image fw) - 256)). assert (Hd : zlen d = zlen (image fw) - 256) by (unfold d; rewrite zlen_slice; lia).
  replace 256 with (256 + 0) at 2 by lia. rewrite <- (slice_slice _ 256 (zlen d)) by lia. rewrite slice_patch_same by lia.
  unfold d. rewrite slice_slice by lia. unfold image, pad_block. rewrite slice_app_in by lia. f_equal.
Qed.
Lemma fwpr_write_image (fw : list Z) opts c (Q : result Error unit -> FakeStm32 -> Prop) :
  ready c -> 0 < zlen fw <= MAX_FLASH_SIZE -> (opt_erase opts = false -> room_for fw (flash_of c) opts) ->
  (forall c', ready c' -> kin c c' -> room_for fw (flash_of c) opts -> flash_of c' = flashed fw (flash_of c) opts -> Q (Ok tt) c') ->
  (forall e c', kin c c' -> left_by fw (flash_of c) opts (flash_of c') -> (reliable -> sound c -> room_for fw (flash_of c) opts -> False) -> Q (Err e) c') ->
  fwpr (write_image fw opts) Q c.
Proof.
  intros Hr Hn Hne HO HE. pose proof (image_size fw Hn) as (HI & HP1 & HP & _). fold (footprint fw) in *. set (F := flash_of c) in *.
  set (B := prepared fw F opts). unfold write_image. fold (footprint fw).
  apply fwpr_bind, (fwpr_conseq _ (fun r c1 => match r with
    | Ok _ => ready c1 /\ kin c c1 /\ room_for fw F opts /\ flash_of c1 = B | Err e => Q (Err e) c1 end)).
  { unfold B, prepared. destruct (opt_erase opts) eqn:E; [|apply fwpr_ret; split_and!; [done | done | by apply Hne | done]]. apply fwpr_erase_pages; [done | lia | |].
    - intros Hd c1 Hr1 K1 F1. split_and!; try done. unfold room_for. rewrite E. fold F in F1. unfold density in Hd. fold F in Hd. change PAGE_SIZE with 128 in *.
      pose proof (Z.mul_div_le (zlen F) 128). lia.
    - intros e c1 p K1 Hp Hl F1 Hs. apply HE; [done | rewrite F1; by apply left_wiped |]. intros H1 H2 Hroom. apply Hs; [done | done|].
      unfold room_for in Hroom. rewrite E in Hroom. unfold density. fold F. change PAGE_SIZE with 128 in *. apply Z.div_le_lower_bound; lia. }
  intros [[]|e] c1; [|done]. intros (Hr1 & K1 & Hroom & F1).
  assert (HE' : forall e c', kin c c' -> left_by fw F opts (flash_of c') -> (reliable -> sound c -> False) -> Q (Err e) c') by (intros e c' K L H; apply HE; auto). clear HE Hne.
  destruct (prepared_erased fw F opts Hn Hroom) as [HB He]. fold B in HB, He. set (first := Z.min (zlen fw) MAX_BLOCK).
  apply fwpr_bind, fwpr_progress, fwpr_bind, (fwpr_write_rest fw B); [done | done | done | done | done | |].
  2: { intros e c2 k K2 Hk F2 Hs. apply HE'; [by etrans | rewrite F2; by apply left_partly|]. intros H1 H2. apply Hs; [done | by eapply kin_sound]. }
  intros c2 Hr2 K2 F2. apply fwpr_bind.
  apply (fwpr_conseq _ (fun r c3 => match r with Ok _ => ready c3 /\ untouched c2 c3
    | Err e => untouched c2 c3 /\ (reliable -> sound c -> False) end)).
  { destruct (opt_verify opts && (first <? zlen fw)) eqn:E; [|by apply fwpr_ret]. bool_hyps.
    assert (Hf : first = MAX_BLOCK /\ MAX_BLOCK <= zlen fw) by (unfold first in *; change MAX_BLOCK with 256 in *; lia). destruct Hf as [-> Hf].
    apply fwpr_verify_range; [done | change MAX_BLOCK with 256 in *; lia | lia | by intros v c3 Hr3 Hu3 _|].
    intros e c3 Hu3 _ Hs. split; [done|]. intros H1 H2. apply Hs; [done | eapply kin_sound; [exact K2|]; by eapply kin_sound | |].
    - rewrite F2. destruct (Z.le_gt_cases (zlen (image fw)) MAX_BLOCK); [rewrite partly_short by done; lia | rewrite zlen_partly; lia].
    - rewrite F2. by apply partly_reads. }
  intros r c3. destruct r as [v|e].
  2: { intros [[K3 F3] Hs]. apply HE'; [etrans; [exact K1|]; by etrans | | done]. rewrite F3, F2. apply left_partly; [done | done|]. split; [apply vector_len_le | lia]. }
  intros [Hr3 [K3 F3]]. assert (K13 : kin c c3) by (etrans; [exact K1|]; by etrans).
  apply fwpr_bind, fwpr_lift, (fwp_write_vector fw B); [done | done | done | done | congruence | |].
  2: { intros e c4 K4 F4 Hs. apply HE'; [by etrans | | intros H1 H2; apply Hs; [done | by eapply kin_sound]].
    destruct F4 as [-> | ->]; [|by right; right]. rewrite F3, F2. apply left_partly; [done | done|]. split; [apply vector_len_le | lia]. }
  intros c4 Hr4 K4 F4. apply fwpr_bind, fwpr_progress. assert (K14 : kin c c4) by (by etrans).
  destruct (flashed_reads fw F opts Hn Hroom) as (Hz & _ & Hrd). change (patch B 0 (image fw)) with (flashed fw F opts) in F4.
  destruct (opt_verify opts); [|by apply fwpr_ret, HO].
  apply fwpr_bind, fwpr_verify_range; [done | unfold first; change MAX_BLOCK with 256; lia | unfold first; lia | |].
  - intros w c5 Hr5 [K5 F5] _. apply fwpr_ret, HO; [done | by etrans | done | congruence].
  - intros e c5 [K5 F5] _ Hs. apply HE'; [by etrans | right; right; congruence|]. intros H1 H2. apply Hs; [done | by eapply kin_sound | |].
    + rewrite F4, Hz. pose proof (zlen_prepared fw F opts Hn Hroom). unfold first. fold B in H. lia.
    + rewrite F4. apply Hrd; unfold first; change MAX_BLOCK with 256; lia.
Qed.
End Write.

(** ** Erasing the whole chip *)


Section EraseChip.
Context {T : Type} `{TR : !Transport T} `{CL : !ChipLink T}.
Variable c0 : FakeStm32.
#[local] Abbreviation F0 := (flash_of c0).
#[local] Abbreviation D := (density c0).


End EraseChip.

(** ** What the flasher promises *)

(** A blank vector table is no program: the host's own image check refuses it, on the stack pointer. *)
Lemma blank_vector F n : 8 <= n <= zlen F -> erased (slice F 0 n) = true -> validate F = Err (BadStackPointer 0).
Proof.
  intros Hn He. apply (erased_sub F 0 n 0 8) in He; try lia.
  destruct F as [|b0 [|b1 [|b2 [|b3 [|b4 [|b5 [|b6 [|b7 F]]]]]]]]; try (unfold zlen in Hn; cbn in Hn; lia).
  change (forallb (Z.eqb 0) [b0; b1; b2; b3; b4; b5; b6; b7] = true) in He. cbn [forallb] in He. bool_hyps. subst.
  unfold validate. rewrite bool_decide_eq_false_2 by done. rewrite byte_at_cons. change (0 =? 58) with false. rewrite andb_false_r. cbn [andb].
  replace (zlen _ <? 8) with false by (symmetry; apply Z.ltb_ge; lia). reflexivity.
Qed.

Section Claims.
Context {T : Type} `{TR : !Transport T} `{CL : !ChipLink T}.

(** An interrupted flash never leaves a bootable part of an image: over any link to the chip, which may
    lose bytes, cut a frame or fail at any point, a run that ends in an error leaves the memory as it was, or
    without a vector table (which the image check refuses), or with the whole image in place; and a run that
    succeeds leaves exactly the image. *)
Theorem interrupted_flash_never_boots (t : T) ps (fw : list Z) opts :
  ready (chip t) -> 0 < zlen fw <= MAX_FLASH_SIZE -> opt_erase opts = true ->
  let F := flash_of (chip t) in
  match write_image fw opts (t, ps) with
  | ((t', _), Ok _) => flash_of (chip t') = flashed fw F opts
  | ((t', _), Err _) => flash_of (chip t') = F \/ validate (flash_of (chip t')) = Err (BadStackPointer 0) \/ flash_of (chip t') = flashed fw F opts
  end.
Proof.
  intros Hr Hn He F. pose proof (fwpr_write_image fw opts (chip t) (fun r c => match r with
    | Ok _ => flash_of c = flashed fw F opts
    | Err _ => flash_of c = F \/ validate (flash_of c) = Err (BadStackPointer 0) \/ flash_of c = flashed fw F opts end) Hr Hn) as H.
  specialize (H ltac:(by rewrite He)). assert (Hw := fun H1 H2 => H H1 H2 t ps eq_refl). clear H.
  destruct (write_image fw opts (t, ps)) as [[t' ps'] [[]|e]]; apply Hw; try done;
    intros e0 c' _ Hl _; (destruct Hl as [Hl | [(Hz & Hv & Hb) | Hl]]; [by left | right; left | by right; right]);
    apply (blank_vector _ (vector_len fw)); try done; pose proof (vector_len_pos fw Hn); lia.
Qed.

(** Over a link that loses nothing, to a chip that is not protected and large enough, flashing succeeds, and
    then the memory holds the image from its first byte, erased bytes up to the end of the last page it
    spans, and beyond that what it held before. *)
Theorem flash_writes_image (t : T) ps (fw : list Z) opts :
  ready (chip t) -> reliable -> sound (chip t) -> 0 < zlen fw <= MAX_FLASH_SIZE -> opt_erase opts = true ->
  let F := flash_of (chip t) in let spanned := pages_for_length (zlen fw) (pages_in MAX_FLASH_SIZE) * PAGE_SIZE in
  spanned <= zlen F ->
  match write_image fw opts (t, ps) with
  | ((t', _), Ok _) =>
      let F' := flash_of (chip t') in
      slice F' 0 (zlen fw) = fw /\ erased (slice F' (zlen (image fw)) (spanned - zlen (image fw))) = true /\
      slice F' spanned (zlen F - spanned) = slice F spanned (zlen F - spanned) /\ zlen F' = zlen F
  | (_, Err _) => False
  end.
Proof.
  intros Hr Hrel Hs Hn He F spanned Hroom. assert (Hrm : room_for fw F opts) by (unfold room_for; by rewrite He).
  pose proof (fwpr_write_image fw opts (chip t) (fun r c => match r with Ok _ => flash_of c = flashed fw F opts | Err _ => False end) Hr Hn) as H.
  specialize (H ltac:(by rewrite He)). assert (Hw := fun H1 H2 => H H1 H2 t ps eq_refl). clear H.
  assert (Hres : match snd (write_image fw opts (t, ps)) with Ok _ => flash_of (chip (fst (fst (write_image fw opts (t, ps))))) = flashed fw F opts | Err _ => False end)
    by (apply Hw; [done | by intros e c' _ _ Hno; apply Hno]).
  destruct (write_image fw opts (t, ps)) as [[t' ps'] [[]|e]]; cbn [fst snd] in Hres; [|done]. rewrite Hres.
  destruct (flashed_reads fw F opts Hn Hrm) as (Hz & _ & Hrd). destruct (image_size fw Hn) as (HI & HP & HP2 & _). fold (footprint fw) spanned in HP, HP2.
  assert (Hzw : zlen (wiped F (footprint fw)) = zlen F) by (apply zlen_wiped; [unfold footprint in *; lia | done]).
  change spanned with (footprint fw * PAGE_SIZE) in *. clear spanned. change PAGE_SIZE with 128 in *.
  split_and!; [rewrite Hrd by lia; apply slice_all | | | done]; unfold flashed, prepared; rewrite He; pose proof (zlen_nonneg (image fw)).
  - rewrite slice_patch_other by (rewrite ?Hzw; lia).
    apply (erased_sub _ 0 (footprint fw * 128)); try lia. apply erased_wiped; change PAGE_SIZE with 128; lia.
  - rewrite slice_patch_other by (rewrite ?Hzw; lia). unfold wiped.
    rewrite slice_patch_other; [done | lia | lia | lia | | ]; rewrite zlen_blank; change PAGE_SIZE with 128; lia.
Qed.


(** Verifying compares every byte: success means the memory holds the range of the image, a mismatch names
    the first differing address and both bytes there, and over a lossless link an equal range verifies. *)
Theorem verify_range_exact (t : T) ps (fw : list Z) first last done_ :
  ready (chip t) -> 0 <= first <= last -> last <= zlen fw <= MAX_FLASH_SIZE ->
  let F := flash_of (chip t) in let same := slice F first (last - first) = slice fw first (last - first) in
  let '((t', _), r) := verify_range fw first last done_ (t, ps) in
  flash_of (chip t') = F /\
  match r with
  | Ok _ => same
  | Err (VerifyMismatch a g w) => exists i, a = FLASH_BASE + i /\ first <= i < last /\ slice F first (i - first) = slice fw first (i - first) /\
      F !! Z.to_nat i = Some g /\ fw !! Z.to_nat i = Some w /\ g <> w
  | Err _ => reliable -> sound (chip t) -> last <= zlen F -> ~ same
  end.
Proof.
  intros Hr Hf Hl F same. set (Q := fun (r : result Error Z) (c' : FakeStm32) => flash_of c' = F /\ match r with
    | Ok _ => same
    | Err (VerifyMismatch a g w) => exists i, a = FLASH_BASE + i /\ first <= i < last /\ slice F first (i - first) = slice fw first (i - first) /\
        F !! Z.to_nat i = Some g /\ fw !! Z.to_nat i = Some w /\ g <> w
    | Err _ => reliable -> sound (chip t) -> last <= zlen F -> ~ same end).
  assert (H : fwpr (verify_range fw first last done_) Q (chip t)).
  { apply fwpr_verify_range; [done | done | done | by intros v c' _ [_ HF] Hs|].
    intros e c' [_ HF] Hm Hno. split; [done|]. destruct e; done. }
  specialize (H t ps eq_refl). by destruct (verify_range fw first last done_ (t, ps)) as [[t' ps'] r].
Qed.
End Claims.

(** ** Links

    The simulated chip is its own lossless link. *)
Lemma read_replies_spec n : forall c,
  match read_replies n c with
  | (c', Ok bs) => exists rest, out c = bs ++ rest /\ length bs = n /\ c' = set_out c rest
  | (c', Err e) => e = Timeout /\ (length (out c) < n)%nat /\ exists o, c' = set_out c o
  end.
Proof.
  induction n as [|n IH]; intros c; cbn [read_replies].
  { exists (out c). split_and!; try done. by destruct c. }
  unfold reply. destruct (out c) as [|b o] eqn:Eo.
  { split_and!; [done | cbn; lia|]. exists []. destruct c; cbn in *; by subst. }
  specialize (IH (set_out c o)). destruct (read_replies n (set_out c o)) as [c' [bs|e]].
  - destruct IH as (rest & H1 & H2 & ->). exists rest. cbn in H1. subst o. split_and!; [done | cbn; by rewrite H2 | done].
  - destruct IH as (-> & H & o' & ->). split_and!; [done | cbn in *; lia|]. by exists o'.
Qed.
#[export] Program Instance fake_link : ChipLink FakeStm32 := {| chip c := c; reliable := True |}.
Next Obligation. intros t buf t' r [= <- <-]. done. Qed.
Next Obligation.
  intros t n t' r Hn E. unfold read_exact_buf, fake_transport in E. pose proof (read_replies_spec (Z.to_nat n) t) as H. rewrite E in H.
  destruct r as [bs|e].
  - destruct H as (rest & H1 & H2 & ->). exists rest. split_and!; [done | unfold zlen; lia | done].
  - destruct H as (-> & H & o & ->). split_and!; [right; by left | intros _; unfold zlen; lia | by exists o].
Qed.
Next Obligation. by intros t t' r [= <- <-]. Qed.
Next Obligation. by intros t d t' r [= <- <-]. Qed.
Next Obligation. done. Qed.
Next Obligation. done. Qed.

(** A cable that is pulled after so many bytes to the chip: everything fails from then on. *)
Record Cable := { at_end : FakeStm32; bytes_left : nat }.
#[export] Instance cable_transport : Transport Cable := {
  write_all t buf :=
    if (length buf <=? bytes_left t)%nat then ({| at_end := receive (at_end t) buf; bytes_left := bytes_left t - length buf |}, Ok tt)
    else ({| at_end := receive (at_end t) (take (bytes_left t) buf); bytes_left := 0 |}, Err Disconnected);
  read_exact_buf t n := let '(c, r) := read_replies (Z.to_nat n) (at_end t) in ({| at_end := c; bytes_left := bytes_left t |}, r);
  clear_input t := ({| at_end := clear_replies (at_end t); bytes_left := bytes_left t |}, Ok tt);
  set_timeout t _ := (t, Ok tt);
  reset_timeout t := (t, Ok tt);
  sleep t _ := t;
}.
#[export] Program Instance cable_link : ChipLink Cable := {| chip := at_end; reliable := False |}.
Next Obligation.
  intros t buf t' r E. unfold write_all, cable_transport in E. destruct (length buf <=? bytes_left t)%nat; injection E as <- <-; [done|].
  split_and!; [right; by right | by intros [] | by eexists].
Qed.
Next Obligation.
  intros t n t' r Hn E. unfold read_exact_buf, cable_transport in E. pose proof (read_replies_spec (Z.to_nat n) (at_end t)) as H.
  destruct (read_replies _ _) as [c r']. injection E as <- <-. destruct r' as [bs|e].
  - destruct H as (rest & H1 & H2 & ->). exists rest. split_and!; [done | unfold zlen; lia | done].
  - destruct H as (-> & H & o & ->). split_and!; [right; by left | by intros [] | by exists o].
Qed.
Next Obligation. by intros t t' r [= <- <-]. Qed.
Next Obligation. by intros t d t' r [= <- <-]. Qed.
Next Obligation. done. Qed.
Next Obligation. done. Qed.

Module Demo.
Definition firmware : list Z := map Z.of_nat (seq 1 255) ++ map Z.of_nat (seq 1 45).
Definition opts : FlashOptions := default_options.
(** A 1 KiB chip with an old image, in a session; the cable is pulled in the middle of the second block. *)
Definition old : FakeStm32 := in_session (set_memory (chip_new 0x457 1) (repeat 7 1024) false).
Definition cut_short : Cable := {| at_end := old; bytes_left := 60 |}.
Definition whole : FakeStm32 := in_session (set_memory (chip_new 0x457 1) (repeat 7 1024) false).

Lemma interrupted_flash_never_boots_witness :
  ready (chip cut_short) /\ snd (write_image firmware opts (cut_short, [])) = Err Disconnected /\
  match write_image firmware opts (cut_short, []) with
  | ((t', _), Ok _) => flash_of (chip t') = flashed firmware (repeat 7 1024) opts
  | ((t', _), Err _) => flash_of (chip t') = repeat 7 1024 \/ validate (flash_of (chip t')) = Err (BadStackPointer 0) \/
      flash_of (chip t') = flashed firmware (repeat 7 1024) opts
  end.
Proof.
  assert (Hr : ready (chip cut_short)) by by constructor. split; [exact Hr|]. split; [by vm_compute|].
  exact (interrupted_flash_never_boots cut_short [] firmware opts Hr ltac:(vm_compute; split; congruence) eq_refl).
Defined.
Lemma flash_writes_image_witness :
  ready (chip whole) /\ sound (chip whole) /\ match write_image firmware opts (whole, []) with
  | ((t', _), Ok _) => slice (flash_of (chip t')) 0 (zlen firmware) = firmware
  | (_, Err _) => False end.
Proof.
  assert (Hr : ready (chip whole)) by by constructor. split; [exact Hr|]. assert (Hs : sound (chip whole)) by done. split; [exact Hs|].
  pose proof (flash_writes_image whole [] firmware opts Hr I Hs ltac:(vm_compute; split; congruence) eq_refl ltac:(vm_compute; congruence)) as H.
  destruct (write_image firmware opts (whole, [])) as [[t' ps'] [[]|e]]; [apply H | exact H].
Defined.
Lemma verify_range_exact_witness :
  ready (chip whole) /\ let '((t', _), r) := verify_range firmware 0 300 0 (whole, []) in flash_of (chip t') = repeat 7 1024 /\
    exists i, r = Err (VerifyMismatch (FLASH_BASE + i) 7 1).
Proof.
  assert (Hr : ready (chip whole)) by by constructor. split; [exact Hr|].
  pose proof (verify_range_exact whole [] firmware 0 300 0 Hr ltac:(lia) ltac:(vm_compute; split; congruence)) as H.
  assert (E : snd (verify_range firmware 0 300 0 (whole, [])) = Err (VerifyMismatch (FLASH_BASE + 0) 7 1)) by by vm_compute.
  destruct (verify_range firmware 0 300 0 (whole, [])) as [[t' ps'] r]. split; [apply H | by exists 0].
Defined.
End Demo.
