(* ===== verification/FlashPort.v ===== *)
(** The flasher's whole operations on a board (crates/flasher/src: port.rs, flash.rs, rdp.rs): the reset and
    BOOT0 sequences bring the chip into the boot loader and back into the application without touching its
    memory, `flash` leaves the old image, no image or the new one, and changing the readout protection is
    all or nothing, told truthfully, and never discloses the flash. *)
From S2P Require Import Prelude Bytes Flasher FlashBoard FlashChip FlashWp FlashThm.

(** ** The board

    A link whose modem lines drive the chip's reset circuit; a line that cannot be set stays as it was. *)
Class BoardLink (T : Type) `{TR : !Transport T} `{CL : !ChipLink T} `{LN : !Lines T} := {
  rts_law : forall t l t' r, set_rts t l = (t', r) ->
    match r with Ok _ => chip t' = set_line (chip t) true l | Err e => link_error e /\ ~ reliable /\ chip t' = chip t end;
  dtr_law : forall t l t' r, set_dtr t l = (t', r) ->
    match r with Ok _ => chip t' = set_line (chip t) false l | Err e => link_error e /\ ~ reliable /\ chip t' = chip t end;
  clear_output_law : forall t t' r, clear_output t = (t', r) -> chip t' = chip t /\ match r with Ok _ => True | Err e => link_error e /\ ~ reliable end;
}.

(** What entering and leaving the boot loader keeps. *)
Record calm (c c' : FakeStm32) : Prop := {
  calm_id : chip_id c' = chip_id c;
  calm_flash : flash_of c' = flash_of c;
  calm_protected : protected c' = protected c;
  calm_fault : fault c = None -> fault c' = None;
}.
#[export] Instance calm_preorder : PreOrder calm.
Proof. split; [by intros c; split|]. intros a b c [? ? ? ?] [? ? ? ?]. split; [congruence | congruence | congruence | auto]. Qed.
Lemma untouched_calm c c' : untouched c c' -> calm c c'.
Proof. intros [[? ? ? ?] ?]. by split. Qed.
Lemma set_line_calm c b l : calm c (set_line c b l).
Proof. unfold set_line. destruct b; cbn [line_rts line_dtr set_line_levels mode]; repeat split_if; done. Qed.
Lemma set_out_calm c o : calm c (set_out c o).
Proof. done. Qed.
#[export] Hint Resolve set_line_calm set_out_calm untouched_calm : core.

(** Levels on the lines, after any number of changes. *)
Definition at_lines (c : FakeStm32) (m : Mode) : Prop := mode c = m /\ stage c = SCommand /\ frame c = [].

(** Errors that report no readback. *)
Definition plain (e : Error) : Prop := match e with ReadoutUnconfirmed _ _ _ => False | _ => True end.
Lemma plain_wire e : wire_error e -> plain e.
Proof. by intros [[[-> | [-> | ->]] | [g ->]] | [s ->]]. Qed.

Section Board.
Context {T : Type} `{TR : !Transport T} `{CL : !ChipLink T} `{LN : !Lines T} `{BL : !BoardLink T}.

(** A failure of the link. *)
Definition glitch (e : Error) : Prop := plain e /\ ~ reliable.
Lemma glitch_nn e : not_nack e -> ~ reliable -> glitch e.
Proof. intros H Hr. split; [apply plain_wire; by left | done]. Qed.
Lemma glitch_link e : link_error e -> ~ reliable -> glitch e.
Proof. intros H. apply glitch_nn. by left. Qed.
Lemma glitch_no {A} e : glitch e -> reliable -> A.
Proof. intros [_ H] Hr. by destruct (H Hr). Qed.

Lemma fwp_rts l (Q : result Error unit -> FakeStm32 -> Prop) c : Q (Ok tt) (set_line c true l) -> (forall e, glitch e -> Q (Err e) c) -> fwp (rts l) Q c.
Proof. intros HO HE t Ht. unfold rts. destruct (set_rts t l) as [t' [[]|e]] eqn:E; apply rts_law in E; cbn [fst snd]; rewrite Ht in E; [by rewrite E | destruct E as (? & ? & ->); apply HE; by apply glitch_link]. Qed.
Lemma fwp_dtr l (Q : result Error unit -> FakeStm32 -> Prop) c : Q (Ok tt) (set_line c false l) -> (forall e, glitch e -> Q (Err e) c) -> fwp (dtr l) Q c.
Proof. intros HO HE t Ht. unfold dtr. destruct (set_dtr t l) as [t' [[]|e]] eqn:E; apply dtr_law in E; cbn [fst snd]; rewrite Ht in E; [by rewrite E | destruct E as (? & ? & ->); apply HE; by apply glitch_link]. Qed.
Lemma fwp_pause ms (Q : result Error unit -> FakeStm32 -> Prop) c : Q (Ok tt) c -> fwp (pause ms) Q c.
Proof. intros H t <-. unfold pause. cbn [fst snd]. by rewrite sleep_law. Qed.
Lemma fwp_on_err {A} cleanup (m : M T Error A) (Q : result Error A -> FakeStm32 -> Prop) c :
  fwp m (fun r c' => match r with Ok _ => Q r c' | Err e => fwp cleanup (fun _ c2 => Q (Err e) c2) c' end) c -> fwp (on_err cleanup m) Q c.
Proof. intros H t Ht. specialize (H t Ht). unfold on_err. destruct (m t) as [t' [a|e]]; cbn [fst snd] in *; [done | by apply H]. Qed.
Lemma fwpr_on_err {P A} cleanup (m : M (T * P) Error A) (Q : result Error A -> FakeStm32 -> Prop) c :
  fwpr m (fun r c' => match r with Ok _ => Q r c' | Err e => fwpr cleanup (fun _ c2 => Q (Err e) c2) c' end) c -> fwpr (on_err cleanup m) Q c.
Proof. intros H t p Ht. specialize (H t p Ht). unfold on_err. destruct (m (t, p)) as [[t' p'] [a|e]]; cbn [fst snd] in *; [done | by apply H]. Qed.
Lemma fwp_clear_output (Q : result Error unit -> FakeStm32 -> Prop) c : Q (Ok tt) c -> (forall e, glitch e -> Q (Err e) c) -> fwp clear_output Q c.
Proof. intros HO HE t Ht. destruct (clear_output t) as [t' [[]|e]] eqn:E; apply clear_output_law in E as [Hc Hr]; cbn [fst snd]; rewrite Hc, Ht; [done | destruct Hr; apply HE; by apply glitch_link]. Qed.

(** ** Lines

    Sequences of line changes and pauses, whatever fails. *)
Lemma fwp_set_lines r d (Q : result Error unit -> FakeStm32 -> Prop) c : (forall x c', calm c c' -> Q x c') -> fwp (set_lines r d) Q c.
Proof.
  intros H. apply fwp_bind, fwp_rts; [|intros e _; by apply H]. apply fwp_dtr; [|intros e _; by apply H].
  apply H. etrans; apply set_line_calm.
Qed.
Lemma line_levels c (b l : bool) : line_rts (set_line c b l) = (if b then l else line_rts c) /\ line_dtr (set_line c b l) = (if b then line_dtr c else l).
Proof. unfold set_line. destruct b; cbn [line_rts line_dtr set_line_levels mode]; repeat split_if; done. Qed.
(** Level [r], [d] from reset: held there, released into the application, or into the boot loader. *)
Lemma line_from c (b l r d : bool) : at_lines c Reset -> (if b then l else line_rts c) = r -> (if b then line_dtr c else l) = d ->
  at_lines (set_line c b l) (if r then Reset else if d then BootMode false else App).
Proof.
  intros (Hm & Hs & Hf) <- <-. unfold at_lines, set_line.
  destruct b, l; cbn [line_rts line_dtr set_line_levels mode andb negb]; rewrite ?Hm; [destruct (line_dtr c) | destruct (line_dtr c) | destruct (line_rts c) | destruct (line_rts c)]; done.
Qed.
(** RTS alone asserted is reset. *)
Lemma line_reset c (b l : bool) : (if b then l else line_rts c) = true -> (if b then line_dtr c else l) = false -> at_lines (set_line c b l) Reset.
Proof. intros H1 H2. unfold at_lines, set_line. destruct b; cbn [line_rts line_dtr set_line_levels mode]; rewrite H1, H2; done. Qed.
(** Once running, releasing a line changes nothing. *)
Lemma line_running c (b l : bool) m : at_lines c m -> is_reset m = false -> (if b then l else line_rts c) && negb (if b then line_dtr c else l) = false ->
  at_lines (set_line c b l) m.
Proof. intros (Hm & Hs & Hf) Hr H. unfold at_lines, set_line. destruct b; cbn [line_rts line_dtr set_line_levels mode]; rewrite H, Hm, Hr; done. Qed.

Lemma fwp_reset_into_app (Q : result Error unit -> FakeStm32 -> Prop) c :
  (forall c', calm c c' -> mode c' = App -> Q (Ok tt) c') -> (forall e c', calm c c' -> glitch e -> Q (Err e) c') -> fwp reset_into_app Q c.
Proof.
  intros HO HE. assert (HE' : forall e c', calm c c' -> glitch e -> fwp (set_lines true true) (fun _ c2 => Q (Err e) c2) c').
  { intros e c' K Hr. apply fwp_set_lines. intros _ c2 K2. apply HE; [by etrans | done]. }
  unfold reset_into_app, reset_into_app_settle, pulse_reset_into_app. apply fwp_bind, fwp_on_err.
  apply fwp_bind, fwp_rts; [set (c1 := set_line _ _ _) | intros e; by apply HE']. assert (K1 : calm c c1) by apply set_line_calm.
  destruct (line_levels c true true) as [Hr1 _]. fold c1 in Hr1.
  apply fwp_bind, fwp_dtr; [set (c2 := set_line _ _ _) | intros e; by apply HE']. assert (K2 : calm c c2) by (etrans; [exact K1 | apply set_line_calm]).
  assert (H2 : at_lines c2 Reset) by (apply line_reset; done). destruct (line_levels c1 false false) as [_ Hd2]. fold c2 in Hd2.
  apply fwp_bind, fwp_pause, fwp_rts; [set (c3 := set_line _ _ _) | intros e; by apply HE']. assert (K3 : calm c c3) by (etrans; [exact K2 | apply set_line_calm]).
  assert (H3 : at_lines c3 App) by (apply (line_from _ _ _ false false H2); [done | exact Hd2]).
  change (APP_BOOT =? 0) with false. apply fwp_pause, HO; [done | apply H3].
Qed.
Lemma fwp_reset_into_bootloader hold (Q : result Error unit -> FakeStm32 -> Prop) c :
  (forall c', calm c c' -> at_lines c' (BootMode false) -> out c' = [] -> Q (Ok tt) c') -> (forall e c', calm c c' -> glitch e -> Q (Err e) c') ->
  fwp (reset_into_bootloader_with_hold hold) Q c.
Proof.
  intros HO HE. assert (HE' : forall e c', calm c c' -> glitch e -> fwp (set_lines true true) (fun _ c2 => Q (Err e) c2) c').
  { intros e c' K Hr. apply fwp_set_lines. intros _ c2 K2. apply HE; [by etrans | done]. }
  unfold reset_into_bootloader_with_hold, clear_buffers, drive_into_bootloader.
  apply fwp_bind, fwp_bind, fwp_clear; [|intros e o Hl Hnr; by apply HE, glitch_link]. apply fwp_clear_output; [|intros e; by apply HE].
  apply fwp_bind, fwp_rts; [|intros e; by apply HE]. assert (K0 : calm c (set_line (set_out c []) true true)) by (etrans; [|apply set_line_calm]; done).
  apply fwp_bind, fwp_dtr; [|intros e; by apply HE]. set (c0 := set_line (set_line _ _ _) _ _). assert (K : calm c c0) by (etrans; [exact K0 | apply set_line_calm]). clearbody c0. clear K0.
  apply fwp_bind, fwp_pause, fwp_on_err.
  apply fwp_bind, fwp_rts; [set (c1 := set_line _ _ _) | intros e; by apply HE']. assert (K1 : calm c c1) by (etrans; [exact K | apply set_line_calm]).
  destruct (line_levels c0 true true) as [Hr1 _]. fold c1 in Hr1.
  apply fwp_bind, fwp_dtr; [set (c2 := set_line _ _ _) | intros e; by apply HE']. assert (K2 : calm c c2) by (etrans; [exact K1 | apply set_line_calm]).
  assert (H2 : at_lines c2 Reset) by (apply line_reset; done). destruct (line_levels c1 false false) as [Hr2 _]. fold c2 in Hr2.
  apply fwp_bind, fwp_pause, fwp_bind, fwp_dtr; [set (c3 := set_line _ _ _) | intros e; by apply HE']. assert (K3 : calm c c3) by (etrans; [exact K2 | apply set_line_calm]).
  assert (H3 : at_lines c3 Reset) by (apply (line_from _ _ _ true true H2); [etrans; [exact Hr2 | exact Hr1] | done]).
  destruct (line_levels c2 false true) as [_ Hd3]. fold c3 in Hd3.
  apply fwp_bind, fwp_rts; [set (c4 := set_line _ _ _) | intros e; by apply HE']. assert (K4 : calm c c4) by (etrans; [exact K3 | apply set_line_calm]).
  assert (H4 : at_lines c4 (BootMode false)) by (apply (line_from _ _ _ false true H3); [done | exact Hd3]). destruct (line_levels c3 true false) as [Hr4 _]. fold c4 in Hr4.
  apply fwp_bind, fwp_pause, fwp_bind, fwp_dtr; [set (c5 := set_line _ _ _) | intros e; by apply HE']. assert (K5 : calm c c5) by (etrans; [exact K4 | apply set_line_calm]).
  assert (H5 : at_lines c5 (BootMode false)) by (apply line_running; [exact H4 | done | by rewrite Hr4]).
  apply fwp_bind, fwp_pause, fwp_clear.
  - apply HO; [etrans; [exact K5 | done] | exact H5 | done].
  - intros e o Hl Hr. apply HE'; [etrans; [exact K5 | done] | by apply glitch_link].
Qed.

(** ** Entering the boot loader *)

Lemma fwp_init (Q : result Error unit -> FakeStm32 -> Prop) c : at_lines c (BootMode false) ->
  (forall c', calm c c' -> ready c' -> Q (Ok tt) c') -> (forall e c', calm c c' -> glitch e -> Q (Err e) c') -> fwp init Q c.
Proof.
  intros (Hm & Hs & Hf) HO HE. unfold init. apply fwp_bind, fwp_clear; [|intros e o Hl Hnr; by apply HE, glitch_link]. set (c1 := set_out c []).
  assert (Hrecv : calm c (receive c1 [INIT]) /\ mode (receive c1 [INIT]) = BootMode true /\ stage (receive c1 [INIT]) = SCommand /\
    frame (receive c1 [INIT]) = [] /\ out (receive c1 [INIT]) = [ACK]).
  { unfold receive. cbn [fold_left]. change (fault_fired c1) with (fault_fired c).
    destruct (fault_fired c); unfold byte; cbn [mode set_fault c1 set_out set_session]; rewrite Hm; change (INIT =? 0x7F) with true; cbv iota; by split_and!. }
  destruct Hrecv as (K & M & S & R & O).
  apply fwp_bind, fwp_write.
  - apply fwp_read_ack; rewrite O; [intros o [= <-] | by intros o [=] |].
    + apply HO; [etrans; [exact K | done] | by constructor].
    + intros e o Hl Hr. apply HE; [etrans; [exact K | done]|]. apply glitch_nn; [done|]. intros H. by destruct (Hr H).
  - intros e n Hl Hr. apply HE; [|by apply glitch_link]. destruct n as [|n]; [done|]. cbn [take firstn]. by rewrite take_nil.
Qed.
Lemma fwpr_connect_loop n : forall i c (Q : result Error bool -> FakeStm32 -> Prop),
  (forall c', calm c c' -> ready c' -> Q (Ok true) c') -> (forall c', calm c c' -> (reliable -> n = O) -> Q (Ok false) c') ->
  (forall e c', calm c c' -> glitch e -> Q (Err e) c') -> fwpr (connect_loop n reset_into_bootloader_with_hold i) Q c.
Proof.
  induction n as [|n IH]; intros i c Q HT HF HE; cbn [connect_loop]; [by apply fwpr_ret, HF|].
  apply fwpr_bind, fwpr_progress, fwpr_bind, fwpr_lift, fwp_reset_into_bootloader; [|by intros e c1; apply HE].
  intros c1 K1 H1 O1 t ps Ht.
  assert (Hi := fwp_init (fun r c2 => match r with Ok _ => calm c c2 /\ ready c2 | Err e => calm c c2 /\ glitch e end) c1 H1
    ltac:(intros c2 K2 H2; split; [by etrans | done]) ltac:(intros e c2 K2 H2; split; [by etrans | done]) t Ht).
  destruct (init t) as [t1 [[]|e]]; cbn [fst snd] in *; destruct Hi as [K2 H2]; [by apply HT|].
  assert (Hg : fwpr (progress (ConnectError i CONNECT_ATTEMPTS e) ;;; connect_loop n reset_into_bootloader_with_hold (i + 1)) Q (chip t1)); [|by apply Hg].
  apply fwpr_bind, fwpr_progress, IH.
  - intros c3 K3. apply HT. by etrans.
  - intros c3 K3 _. apply HF; [by etrans | intros H; by apply (glitch_no e)].
  - intros e' c3 K3. apply HE. by etrans.
Qed.
Lemma fwpr_connect (Q : result Error unit -> FakeStm32 -> Prop) c :
  (forall c', calm c c' -> ready c' -> Q (Ok tt) c') -> (forall e c', calm c c' -> glitch e -> Q (Err e) c') -> fwpr connect Q c.
Proof.
  intros HO HE. unfold connect, connect_with. apply fwpr_bind, fwpr_connect_loop.
  - intros c1 K1 H1. by apply fwpr_ret, HO.
  - intros c1 K1 H1. assert (Hnr : ~ reliable) by (intros H; by specialize (H1 H)). intros t ps Ht. cbn [fst snd].
    assert (Hw := fwp_reset_into_app (fun _ c2 => calm c c2) c1 ltac:(intros; cbv beta; by etrans) ltac:(intros; cbv beta; by etrans) t Ht). by apply HE; [exact Hw | split].
  - done.
Qed.
(** An error before anything changed sends the board back to the application. *)
Lemma fwpr_or_app {A} (m : M (T * list Progress) Error A) (Q : result Error A -> FakeStm32 -> Prop) c :
  fwpr m (fun r c1 => match r with Ok _ => Q r c1 | Err e => forall c2, calm c1 c2 -> (reliable -> mode c2 = App) -> Q (Err e) c2 end) c ->
  fwpr (or_app m) Q c.
Proof.
  intros H. apply fwpr_on_err. eapply fwpr_conseq; [exact H|]. intros [a|e] c1 H1; [done|].
  apply fwpr_lift, fwp_reset_into_app; [intros; by apply H1 | intros e0 c2 K G; apply H1; [done | intros H2; by apply (glitch_no e0)]].
Qed.

(** ** Flashing a board *)

Lemma kin_calm c c' : kin c c' -> flash_of c' = flash_of c -> calm c c'.
Proof. intros K F. by apply untouched_calm. Qed.
Lemma fwp_go (Q : result Error unit -> FakeStm32 -> Prop) c : ready c ->
  (forall c', calm c c' -> mode c' = App -> Q (Ok tt) c') ->
  (forall e c', calm c c' -> (reliable -> protected c = false -> 1 <= zlen (flash_of c) -> False) -> Q (Err e) c') -> fwp (go FLASH_BASE) Q c.
Proof.
  intros Hr HO HE. unfold go. apply fwp_bind, fwp_command; [done | apply in_cmds_go | | |].
  2: { intros Hp c1 [K F _ _ _ _]. apply HE; [by apply kin_calm | congruence]. }
  2: { intros e c1 Hu _ Hnr. apply HE; [by apply untouched_calm | done]. }
  intros Hp c1 H1. pose proof H1 as [K F M S R O]. change (stage_of CMD_GO) with SGoAddress in *.
  assert (Hc : calm c c1) by by apply kin_calm. unfold send_address. set (f := address_frame FLASH_BASE).
  assert (Hw : whole_frame (stage c1) f) by (rewrite S; apply whole_address; right; right; by left).
  assert (Hrecv : receive c1 f = serve (set_session (tick c1 (zlen f)) (BootMode true) SCommand [] []) SGoAddress f) by (rewrite receive_frame by done; by rewrite S, O).
  pose proof (at_stage_base c1 SCommand [] (zlen f)) as Hb. set (c2 := set_session _ _ _ _ _) in *. cbn [serve] in Hrecv.
  unfold f in Hrecv at 2. rewrite address_back in Hrecv by mlia. fold f in Hrecv.
  assert (Hoff : offset c2 FLASH_BASE 1 = if 1 <=? zlen (flash_of c) then Some 0 else None).
  { unfold offset. rewrite (as_flash _ _ _ _ Hb), F. by rewrite Z.sub_diag. }
  rewrite Hoff in Hrecv. assert (Hpart : forall n, calm c (receive c1 (take n f))).
  { intros n. destruct (receive_part c1 f n M R Hw) as [-> | (H2 & H3 & _)]; [|etrans; [exact Hc | by apply kin_calm]].
    rewrite Hrecv. etrans; [exact Hc|]. destruct Hb as [Kb Fb _ _ _ _]. etrans; [apply (kin_calm _ _ Kb Fb)|]. by destruct (1 <=? zlen (flash_of c)). }
  assert (Hall : calm c (receive c1 f)) by (specialize (Hpart (length f)); by rewrite take_ge in Hpart).
  apply fwp_bind, fwp_write; [|intros e n _ Hnr; apply HE; [apply Hpart | intros H; by apply (glitch_no e)]].
  rewrite Hrecv in Hall. destruct (1 <=? zlen (flash_of c)) eqn:E; bool_hyps.
  - apply fwp_read_ack; rewrite Hrecv; [intros o _; apply HO; [by etrans | done] | by intros o [=] |].
    intros e o _ Hh. apply HE; [by etrans|]. intros H _ _. by destruct (Hh H).
  - apply fwp_read_ack; rewrite Hrecv; [by intros o [=] | |]; [intros o _ | intros e o _ _]; (apply HE; [by etrans | lia]).
Qed.
(** The checks before anything is erased. *)
Lemma fwpr_refuse_if_protected (Q : result Error unit -> FakeStm32 -> Prop) c : ready c -> u16_ok (chip_id c) ->
  (protected c = false -> forall c', ready c' -> untouched c c' -> Q (Ok tt) c') ->
  (forall e c', calm c c' -> (reliable -> mode c' = App) ->
     (reliable -> fault c = None -> PROBE_LEN <= zlen (flash_of c) -> protected c = true /\ e = ReadoutProtected) -> Q (Err e) c') ->
  fwpr refuse_if_protected Q c.
Proof.
  intros Hr Hid HO HE. unfold refuse_if_protected. apply fwpr_or_app, fwpr_bind, fwpr_lift, fwp_probe; [done | done | |].
  - intros c1 Hr1 Hu1. apply fwpr_bind, fwpr_progress. destruct (protected c) eqn:Ep.
    + apply fwpr_fail. intros c2 K2 Hm. apply HE; [|done | done]. etrans; [by apply untouched_calm | done].
    + by apply fwpr_ret, HO.
  - intros e c1 Hu1 _ Hno c2 K2 Hm. apply HE; [|done |]; [etrans; [by apply untouched_calm | done]|]. intros H1 H2 H3. by destruct (Hno H1 H2 H3).
Qed.
Lemma fwpr_get_id (Q : result Error Z -> FakeStm32 -> Prop) c : ready c -> u16_ok (chip_id c) ->
  (forall c', ready c' -> untouched c c' -> Q (Ok (chip_id c)) c') ->
  (forall e c', calm c c' -> glitch e -> Q (Err e) c') -> fwpr (or_app (lift get_id)) Q c.
Proof.
  intros Hr Hid HO HE. apply fwpr_or_app, fwpr_lift, fwp_get_id; [done | done | done|].
  intros e c1 Hu Hn Hnr c2 K2 _. apply HE; [|by apply glitch_nn]. etrans; [by apply untouched_calm | done].
Qed.

Lemma max_flash_bound id m : max_flash_size id = Some m -> m <= MAX_FLASH_SIZE.
Proof. unfold max_flash_size. change MAX_FLASH_SIZE with 196608. repeat split_if; intros [= <-]; lia. Qed.
(** An image a chip of [F] bytes with this id takes. *)
Definition suits (fw : list Z) (id : Z) (F : list Z) : Prop :=
  exists m, max_flash_size id = Some m /\ 0 < zlen fw <= m /\ footprint fw * PAGE_SIZE <= zlen F.
Lemma footprint_probe fw : 0 < zlen fw <= MAX_FLASH_SIZE -> PROBE_LEN <= footprint fw * PAGE_SIZE.
Proof. intros Hn. destruct (image_size fw Hn) as (_ & _ & [H _] & _). unfold footprint. change PAGE_SIZE with 128. mlia. Qed.
(** All that happens before the first erase. *)
Lemma fwpr_before_erase (fw : list Z) (k : M (T * list Progress) Error unit) (Q : result Error unit -> FakeStm32 -> Prop) c : u16_ok (chip_id c) ->
  (0 < zlen fw <= MAX_FLASH_SIZE -> protected c = false -> forall c', ready c' -> calm c c' -> fwpr k Q c') ->
  (forall e c', calm c c' -> (reliable -> sound c -> suits fw (chip_id c) (flash_of c) -> False) -> Q (Err e) c') ->
  fwpr (of_result (check_firmware_len (zlen fw)) ;;; connect ;;;
        let! id := or_app (lift get_id) in
        progress (ChipIdentified id) ;;; or_app (of_result (check_fits_chip (zlen fw) id)) ;;; refuse_if_protected ;;; k) Q c.
Proof.
  intros Hid HK HE. assert (HE' : forall e c', calm c c' -> glitch e -> Q (Err e) c') by (intros e c' K Hnr; apply HE; [done | intros H; by apply (glitch_no e)]).
  apply fwpr_bind, fwpr_result. destruct (check_firmware_len (zlen fw)) as [[]|e] eqn:El; unfold check_firmware_len in El.
  2: { apply HE; [done|]. intros _ _ (m & Hm & Hn & _). pose proof (max_flash_bound _ _ Hm). change MAX_FLASH_SIZE with 196608 in *.
    rewrite wrap32_small in El by mlia. replace (zlen fw =? 0) with false in El by (symmetry; apply Z.eqb_neq; lia).
    by replace (196608 <? zlen fw) with false in El by (symmetry; apply Z.ltb_ge; lia). }
  assert (Hpos : 0 < zlen fw). { destruct (zlen fw =? 0) eqn:E; [done|]. bool_hyps. pose proof (zlen_nonneg fw). lia. }
  apply fwpr_bind, fwpr_connect; [intros c1 K1 Hr1 | done]. assert (Hid1 : u16_ok (chip_id c1)) by by rewrite (calm_id _ _ K1).
  apply fwpr_bind, fwpr_get_id; [done | done | | intros e c2 K2; apply HE'; by etrans].
  intros c2 Hr2 Hu2. rewrite (calm_id _ _ K1). assert (K2 : calm c c2) by (etrans; [exact K1 | by apply untouched_calm]).
  apply fwpr_bind, fwpr_progress, fwpr_bind, fwpr_or_app, fwpr_result. unfold check_fits_chip.
  destruct (max_flash_size (chip_id c)) as [m|] eqn:Em; [|intros c3 K3 _; apply HE; [by etrans | intros _ _ (? & ? & _); congruence]].
  destruct (m <? zlen fw) eqn:Efit; bool_hyps; [intros c3 K3 _; apply HE; [by etrans | intros _ _ (m' & Hm & ? & _); simplify_eq; lia]|].
  assert (Hn : 0 < zlen fw <= MAX_FLASH_SIZE) by (pose proof (max_flash_bound _ _ Em); lia).
  apply fwpr_bind, fwpr_refuse_if_protected; [done | by rewrite (calm_id _ _ K2) | |]; rewrite (calm_protected _ _ K2).
  - intros Hp c3 Hr3 Hu3. apply HK; [done | done | done|]. etrans; [exact K2 | by apply untouched_calm].
  - intros e c3 K3 _ Hno. apply HE; [by etrans|]. intros H1 [Hp Hf] (m' & _ & _ & Hroom). rewrite (calm_flash _ _ K2) in Hno.
    destruct (Hno H1) as [Hp' _]; [by apply (calm_fault _ _ K2) | | congruence]. pose proof (footprint_probe fw Hn). lia.
Qed.
(** Starting the application, one way or the other. *)
Lemma fwpr_start opts (Q : result Error unit -> FakeStm32 -> Prop) c : ready c ->
  (forall c', calm c c' -> (opt_run opts = true -> mode c' = App) -> Q (Ok tt) c') ->
  (forall e c', calm c c' -> (reliable -> protected c = false -> 1 <= zlen (flash_of c) -> False) -> Q (Err e) c') ->
  fwpr ((if opt_run opts && opt_go opts then progress Starting ;;; lift (go FLASH_BASE) else ret tt) ;;;
        (if opt_run opts && negb (opt_go opts) then progress Starting ;;; lift reset_into_app else ret tt)) Q c.
Proof.
  intros Hr HO HE. apply fwpr_bind. destruct (opt_run opts), (opt_go opts); cbn [andb negb].
  - apply fwpr_bind, fwpr_progress, fwpr_lift, fwp_go; [done | intros c1 K1 Hm; by apply fwpr_ret, HO | done].
  - apply fwpr_ret, fwpr_bind, fwpr_progress, fwpr_lift, fwp_reset_into_app; [intros c1 K1 Hm; by apply HO|].
    intros e c1 K1 Hnr. apply HE; [done | intros H; by apply (glitch_no e)].
  - by apply fwpr_ret, fwpr_ret, HO.
  - by apply fwpr_ret, fwpr_ret, HO.
Qed.

(** C8. Flashing a board, from whatever it was doing, with the erase or, when it is told not to erase, onto
    memory that is already erased where the image goes (writing over other contents corrupts STM32L0
    words, and nothing is claimed of it): over any link and any modem lines, a run that ends in an error
    leaves the old memory, no vector table, or the whole image; a protected chip is never touched; a run
    that succeeds leaves exactly the image, and the chip reset or sent into its application when that was
    asked for. Over a lossless link the run succeeds when the chip is known, large enough and not
    protected. *)
Theorem flash_board (t : T) ps (fw : list Z) opts :
  (opt_erase opts = false -> room_for fw (flash_of (chip t)) opts) -> u16_ok (chip_id (chip t)) ->
  let c := chip t in let F := flash_of c in
  let '((t', _), r) := flash fw opts (t, ps) in
  let F' := flash_of (chip t') in
  protected (chip t') = protected c /\ (protected c = true -> F' = F) /\
  match r with
  | Ok _ => F' = flashed fw F opts /\ (opt_run opts = true -> mode (chip t') = App)
  | Err _ => F' = F \/ validate F' = Err (BadStackPointer 0) \/ F' = flashed fw F opts
  end /\
  (reliable -> sound c -> suits fw (chip_id c) F -> r = Ok tt).
Proof.
  intros He Hid c F.
  set (Q := fun (r : result Error unit) (c' : FakeStm32) => let F' := flash_of c' in
    protected c' = protected c /\ (protected c = true -> F' = F) /\
    match r with
    | Ok _ => F' = flashed fw F opts /\ (opt_run opts = true -> mode c' = App)
    | Err _ => F' = F \/ validate F' = Err (BadStackPointer 0) \/ F' = flashed fw F opts end /\
    (reliable -> sound c -> suits fw (chip_id c) F -> r = Ok tt)).
  assert (H : fwpr (flash fw opts) Q c).
  2: { specialize (H t ps eq_refl). by destruct (flash fw opts (t, ps)) as [[t' ps'] r]. }
  apply fwpr_before_erase; [done | |].
  2: { intros e c' [K1 K2 K3 K4] Hno. split_and!; [done | done | by left|]. intros H1 H2 H3. by destruct (Hno H1 H2 H3). }
  intros Hn Hp c3 Hr3 K3. apply fwpr_bind, fwpr_write_image; [done | done | by rewrite (calm_flash _ _ K3) | |]; rewrite (calm_flash _ _ K3); fold F.
  - intros c4 Hr4 K4 Hroom Hf4. assert (Hp4 : protected c4 = protected c) by (rewrite (kin_protected _ _ K4); apply K3).
    apply fwpr_start; [done | |].
    + intros c5 K5 Hm. split_and!; [by rewrite (calm_protected _ _ K5) | congruence | by rewrite (calm_flash _ _ K5) | exact Hm | done].
    + intros e c5 K5 Hno. split_and!; [by rewrite (calm_protected _ _ K5) | congruence | right; right; by rewrite (calm_flash _ _ K5) |].
      intros H1 _ _. exfalso. apply Hno; [done | congruence|]. rewrite Hf4. destruct (flashed_reads fw F opts Hn Hroom) as (-> & _).
      destruct (prepared_erased fw F opts Hn Hroom) as [Hz _]. rewrite zlen_prepared in Hz by done.
      pose proof (vector_len_pos fw Hn). pose proof (vector_len_le fw). lia.
  - intros e c4 K4 Hl Hno. split_and!; [rewrite (kin_protected _ _ K4); apply K3 | congruence | |].
    + destruct Hl as [Hl | [(Hz & Hv & Hb) | Hl]]; [by left | right; left | by right; right].
      apply (blank_vector _ (vector_len fw)); [pose proof (vector_len_pos fw Hn); lia | done].
    + intros H1 [_ H2] (m & _ & _ & Hroom). exfalso. apply Hno; [done | split; [by rewrite (calm_protected _ _ K3) | by apply (calm_fault _ _ K3)] |].
      destruct (opt_erase opts) eqn:E; [unfold room_for; by rewrite E | by apply He].
Qed.

(** ** Readout protection *)

(** The chip after a change: protected with its flash, or open with nothing in it. *)
Record switched (protect : bool) (c c' : FakeStm32) : Prop := {
  sw_id : chip_id c' = chip_id c;
  sw_protected : protected c' = protect;
  sw_flash : flash_of c' = if protect then flash_of c else repeat ERASED (length (flash_of c));
  sw_fault : fault c = None -> fault c' = None;
}.
Lemma switched_calm p c c1 c2 : switched p c c1 -> calm c1 c2 -> switched p c c2.
Proof. intros [? ? ? ?] [? ? ? ?]. split; [congruence | congruence | congruence | auto]. Qed.
Lemma calm_switched p c c1 c2 : calm c c1 -> switched p c1 c2 -> switched p c c2.
Proof. intros [K1 K2 K3 K4] [S1 S2 S3 S4]. rewrite K2 in S3. split; [congruence | congruence | exact S3 | auto]. Qed.
Definition opcode_of (protect : bool) : Z := if protect then CMD_READOUT_PROTECT else CMD_READOUT_UNPROTECT.
Lemma recv_readout c (p : bool) : ready c -> protected c = negb p ->
  let c1 := receive c (cmd_frame (opcode_of p)) in
  (switched p c c1 /\ exists o, out c1 = ACK :: o /\ (fault c = None -> o = [ACK]) /\ hd_error o <> Some NACK) \/
  (calm c c1 /\ out c1 = [ACK; NACK] /\ fault c <> None).
Proof.
  intros [Hm Hs Hf Ho] Hp. cbv zeta. rewrite receive_frame by (try done; rewrite Hs; apply whole_cmd). rewrite Hs, Ho. cbn [serve].
  pose proof (at_stage_base c SCommand [] (zlen (cmd_frame (opcode_of p)))) as Hb. set (c1 := set_session _ _ _ _ _) in *.
  assert (Hserve : command c1 (byte_at (cmd_frame (opcode_of p)) 0) (byte_at (cmd_frame (opcode_of p)) 1) = change_protection c1 (opcode_of p)).
  { unfold command. rewrite (kin_protected _ _ (as_kin _ _ _ _ Hb)), Hp. by destruct p. }
  rewrite Hserve. unfold change_protection. replace (opcode_of p =? 0x82) with p by (by destruct p).
  set (c2 := push_op (ack c1) _). destruct Hb as [K F M S R O].
  assert (H2 : chip_id c2 = chip_id c /\ flash_of c2 = flash_of c /\ protected c2 = protected c /\ out c2 = [ACK] /\ (fault c = None -> fault c2 = None)).
  { split; [apply K|]. split; [exact F|]. split; [apply K|]. split; [change (out c1 ++ [ACK] = [ACK]); by rewrite O | apply K]. }
  clearbody c2. destruct H2 as (H21 & H22 & H23 & H24 & H25). unfold take_fault.
  destruct (fault c2) as [[[op at_] f]|] eqn:Ef; [assert (Hne : fault c <> None) by (intros H; by specialize (H25 H)); destruct ((op =? _) && _)|].
  - destruct f; [|left|left].
    + right. rewrite bool_decide_eq_true_2 by done. split; [|split; [cbn; by rewrite H24 | done]]. split; [exact H21 | exact H22 | exact H23 | done].
    + rewrite bool_decide_eq_false_2 by done. split; [split; [exact H21 | done | cbn; by destruct p; rewrite H22 | done]|]. exists []. cbn. rewrite H24. by split_and!.
    + rewrite bool_decide_eq_false_2 by done. split; [split; [exact H21 | done | cbn; by destruct p; rewrite H22 | done]|]. exists [0]. cbn. rewrite H24. by split_and!.
  - left. rewrite bool_decide_eq_false_2 by done. split; [split; [exact H21 | done | cbn; by destruct p; rewrite H22 | done]|]. exists [ACK]. cbn. rewrite H24. by split_and!.
  - left. rewrite bool_decide_eq_false_2 by done. split; [split; [exact H21 | done | cbn; by destruct p; rewrite H22 | by cbn]|]. exists [ACK]. cbn. rewrite H24. by split_and!.
Qed.
(** The command, its acceptance and the second acknowledgement. *)
Lemma fwpr_readout_change {P} p d (f : P -> P) (Q : result Error unit -> FakeStm32 -> Prop) c : ready c -> protected c = negb p ->
  (forall c', switched p c c' -> Q (Ok tt) c') ->
  (forall e c', calm c c' \/ switched p c c' -> plain e -> (reliable -> fault c = None -> False) -> Q (Err e) c') ->
  fwpr (readout_change (opcode_of p) d f) Q c.
Proof.
  intros Hr Hp HO HE. pose proof (recv_readout c p Hr Hp) as Hrecv. cbv zeta in Hrecv. set (c1 := receive c _) in *. pose proof Hr as [Hm Hs Hf Ho].
  assert (Hboth : calm c c1 \/ switched p c c1) by (destruct Hrecv as [[H _] | [H _]]; [by right | by left]).
  assert (Hcalm : forall a b, calm c a \/ switched p c a -> calm a b -> calm c b \/ switched p c b).
  { intros a b [H|H] K; [left; by etrans | right; by eapply switched_calm]. }
  unfold readout_change. apply fwpr_bind, fwpr_lift. unfold send_command. apply fwp_bind, fwp_write; fold c1.
  2: { intros e n Hl Hnr. apply HE; [|by apply plain_wire, wire_link | done]. destruct (receive_part c (cmd_frame (opcode_of p)) n Hm Hf) as [-> | (H2 & H3 & _)]; [rewrite Hs; apply whole_cmd | done | left; by apply kin_calm]. }
  assert (Ho1 : exists o, out c1 = ACK :: o) by (destruct Hrecv as [(_ & o & H & _) | (_ & H & _)]; by eexists). destruct Ho1 as (o1 & Ho1).
  apply fwp_read_ack.
  2: { intros o H. rewrite Ho1 in H; discriminate. }
  2: { intros e o Hn Hh. apply HE; [by apply (Hcalm c1) | by apply plain_wire; left |]. intros H _. rewrite Ho1 in Hh. by destruct (Hh H). }
  intros o H. rewrite Ho1 in H. injection H as <-. apply fwpr_bind. intros t ps Ht. cbn [fst snd].
  assert (Hw : fwpr (P := P) (lift (await_second_ack d)) Q (set_out c1 o1)); [|by rewrite Ht]. clear t ps Ht.
  apply fwpr_lift, fwp_under_timeout; [|intros e Hl Hnr; apply HE; [by apply (Hcalm c1) | by apply plain_wire, wire_link | done]].
  apply fwp_read_ack; cbn [out set_out set_session].
  - intros o H. destruct Hrecv as [(Hsw & o' & H1 & _) | (_ & H1 & _)].
    + apply HO. by eapply switched_calm; [exact Hsw|].
    + rewrite H1 in Ho1. by simplify_eq.
  - intros o H. destruct Hrecv as [(_ & o' & H1 & _ & H2) | (K & H1 & H2)]; [rewrite H1 in Ho1; simplify_eq; by cbn in H2|].
    apply HE; [by apply (Hcalm c1) | done | by intros _ ?].
  - intros e o Hn Hh. apply HE; [by apply (Hcalm c1) | by apply plain_wire; left |]. intros H Hnf. destruct (Hh H) as [Hh1 _]. destruct Hrecv as [(_ & o' & H1 & H2 & _) | (_ & _ & H2)]; [|done].
    rewrite H1 in Ho1. injection Ho1 as <-. by rewrite (H2 Hnf) in Hh1.
Qed.
Lemma fwpr_send_change p (Q : result Error (bool * result Error unit) -> FakeStm32 -> Prop) c : ready c -> protected c = negb p ->
  (forall acc c', switched p c c' -> Q (Ok (acc, Ok tt)) c') ->
  (forall acc e c', calm c c' \/ switched p c c' -> plain e -> (reliable -> fault c = None -> False) -> Q (Ok (acc, Err e)) c') ->
  fwpr (send_change p) Q c.
Proof.
  intros Hr Hp HO HE t ps Ht. unfold send_change.
  set (accepted := fun '(ps, _) => (ps ++ [ReadoutChanging p], true)).
  assert (H := fwpr_readout_change p RDP_TIMEOUT accepted (fun r c' => forall acc, Q (Ok (acc, r)) c') c Hr Hp
    ltac:(intros ???; by apply HO) ltac:(intros ??????; by apply HE) t (ps, false) Ht).
  destruct p; unfold readout_protect, readout_unprotect; cbn [opcode_of] in H;
    destruct (readout_change _ _ _ _) as [[t' [ps' acc]] r]; apply H.
Qed.
Lemma fwpr_identify b (Q : result Error (Z * bool) -> FakeStm32 -> Prop) c : ready c -> u16_ok (chip_id c) ->
  (forall c', ready c' -> calm c c' -> Q (Ok (chip_id c, protected c)) c') ->
  (forall e c', calm c c' -> plain e -> (reliable -> fault c = None -> PROBE_LEN <= zlen (flash_of c) -> False) -> Q (Err e) c') ->
  fwpr (or_app (identify b)) Q c.
Proof.
  intros Hr Hid HO HE. unfold identify. apply fwpr_or_app, fwpr_bind, fwpr_lift, fwp_get_id; [done | done | |].
  2: { intros e c1 Hu Hn Hnr c2 K2 _. apply HE; [etrans; [by apply untouched_calm | done] | by apply plain_wire; left | done]. }
  intros c1 Hr1 Hu1. assert (K1 : calm c c1) by by apply untouched_calm.
  apply fwpr_bind, (fwpr_conseq _ (fun r c2 => c2 = c1 /\ r = Ok tt)); [destruct b; [by apply fwpr_progress | by apply fwpr_ret]|].
  intros r c2 [-> ->]. apply fwpr_bind, fwpr_lift, fwp_probe; [done | by rewrite (calm_id _ _ K1) | |].
  - intros c2 Hr2 Hu2. rewrite (calm_protected _ _ K1). apply fwpr_bind, fwpr_progress, fwpr_ret, HO; [done|]. etrans; [exact K1 | by apply untouched_calm].
  - intros e c2 Hu2 Hw Hno c3 K3 _. apply HE; [etrans; [exact K1|]; etrans; [by apply untouched_calm | done] | by apply plain_wire |].
    intros H1 H2 H3. apply Hno; [done | by apply (calm_fault _ _ K1) | by rewrite (calm_flash _ _ K1)].
Qed.
Lemma fwpr_read_back (Q : result Error bool -> FakeStm32 -> Prop) c : u16_ok (chip_id c) ->
  (forall c', ready c' -> calm c c' -> Q (Ok (protected c)) c') ->
  (forall e c', calm c c' -> plain e -> (reliable -> fault c = None -> PROBE_LEN <= zlen (flash_of c) -> False) -> Q (Err e) c') ->
  fwpr read_back Q c.
Proof.
  intros Hid HO HE. unfold read_back. apply fwpr_bind, fwpr_connect; [|intros e c1 K1 Hnr; apply HE; [done | apply Hnr | intros H; by apply (glitch_no e)]].
  intros c1 K1 Hr1. apply fwpr_bind, fwpr_identify; [done | by rewrite (calm_id _ _ K1) | |]; rewrite ?(calm_protected _ _ K1).
  - intros c2 Hr2 K2. apply fwpr_ret, HO; [done | by etrans].
  - intros e c2 K2 Hpl Hno. apply HE; [by etrans | done |]. intros H1 H2 H3. apply Hno; [done | by apply (calm_fault _ _ K1) | by rewrite (calm_flash _ _ K1)].
Qed.

(** What a run of [set_level] may end with. *)
Definition level_outcome (p : bool) (c : FakeStm32) (r : result Error Change) (c' : FakeStm32) : Prop :=
  (calm c c' \/ (switched p c c' /\ protected c = negb p)) /\
  match r with
  | Ok ch => was_protected ch = protected c /\ ch_readout_protected ch = p /\ protected c' = p /\ (protected c = p -> calm c c')
  | Err (ReadoutUnconfirmed asked _ (Ok found)) => asked = p /\ found = protected c'
  | Err _ => True
  end /\
  (reliable -> fault c = None -> PROBE_LEN <= zlen (flash_of c) -> exists ch, r = Ok ch /\ mode c' = App).
Lemma level_error p c e c' : calm c c' \/ (switched p c c' /\ protected c = negb p) -> plain e ->
  (reliable -> fault c = None -> PROBE_LEN <= zlen (flash_of c) -> False) -> level_outcome p c (Err e) c'.
Proof. intros Hc Hp Hno. split_and!; [exact Hc | by destruct e | intros H1 H2 H3; by destruct (Hno H1 H2 H3)]. Qed.
Lemma switched_len p c c' : switched p c c' -> zlen (flash_of c') = zlen (flash_of c).
Proof. intros [_ _ H _]. rewrite H. destruct p; [done|]. unfold zlen. by rewrite repeat_length. Qed.
(** After the chip took the command and reset itself: read the level back, and leave. *)
Lemma fwpr_confirm p id was c (Q : result Error Change -> FakeStm32 -> Prop) : u16_ok (chip_id c) ->
  (forall c', calm c c' -> mode c' = App -> Q (if Bool.eqb (protected c) p then Ok {| ch_id := id; was_protected := was; ch_readout_protected := protected c |} else Err (ReadoutUnchanged p)) c') ->
  (forall e c', calm c c' -> plain e -> (reliable -> fault c = None -> PROBE_LEN <= zlen (flash_of c) -> False) -> Q (Err e) c') ->
  fwpr (lift (pause RESET_SETTLE) ;;;
        let! readout_protected := read_back in
        lift reset_into_app ;;;
        if Bool.eqb readout_protected p
        then ret {| ch_id := id; was_protected := was; ch_readout_protected := readout_protected |}
        else fail (ReadoutUnchanged p)) Q c.
Proof.
  intros Hid HO HE. apply fwpr_bind, fwpr_lift, fwp_pause, fwpr_bind, fwpr_read_back; [done | | done].
  intros c1 Hr1 K1. apply fwpr_bind, fwpr_lift, fwp_reset_into_app.
  - intros c2 K2 Hm. specialize (HO c2 ltac:(by etrans) Hm). destruct (Bool.eqb (protected c) p); [by apply fwpr_ret | by apply fwpr_fail].
  - intros e c2 K2 Hg. apply HE; [by etrans | apply Hg | intros H; by apply (glitch_no e)].
Qed.
(** After a failure of the command: back to the application, having read the level back if it was taken. *)
Lemma fwpr_unconfirmed (p acc : bool) e c (Q : result Error Change -> FakeStm32 -> Prop) : u16_ok (chip_id c) ->
  (forall e' c', calm c c' -> e' = e \/ (exists e2, e' = ReadoutUnconfirmed p e (Err e2)) \/ e' = ReadoutUnconfirmed p e (Ok (protected c)) -> Q (Err e') c') ->
  fwpr (if negb acc || is_nack e then or_app (fail e)
        else lift (pause (if is_timeout e then RESET_SETTLE else UNCONFIRMED_SETTLE)) ;;;
             fun s => match read_back s with
               | (s, Ok found) => or_app (fail (ReadoutUnconfirmed p e (Ok found))) s
               | (s, Err e') => (s, Err (ReadoutUnconfirmed p e (Err e'))) end) Q c.
Proof.
  intros Hid HQ. split_if.
  { apply fwpr_or_app, fwpr_fail. intros c1 K1 _. apply HQ; [done | by left]. }
  apply fwpr_bind, fwpr_lift, fwp_pause. intros t ps Ht.
  assert (Hw := fwpr_read_back (fun r c1 => calm c c1 /\ match r with Ok b => b = protected c | Err _ => True end) c Hid
    ltac:(intros; by split) ltac:(intros; by split) t ps Ht).
  destruct (read_back (t, ps)) as [[t1 ps1] [b|e2]]; cbn [fst snd] in *; destruct Hw as [K1 Hb].
  - assert (Hg : fwpr (or_app (fail (ReadoutUnconfirmed p e (Ok b)))) Q (chip t1)); [|by apply Hg].
    apply fwpr_or_app, fwpr_fail. intros c2 K2 _. apply HQ; [by etrans | right; right; by rewrite Hb].
  - apply HQ; [done | right; left; by exists e2].
Qed.

(** C9. Changing the readout protection is all or nothing and told truthfully. Whatever the link does, the
    chip ends up as it was or switched, and switching to open erases all of its flash, so no run discloses
    a protected flash. A success reports the true old level and the level read back, which is the one
    asked for; a failure that reports a level read back reports the true one; and over a lossless link
    to a chip with at least a probe's worth of flash the change succeeds, and the last reset left the
    chip's boot line on the application side ([App] of the simulated chip). Whether user code then runs
    is not claimed: it waits for a power-down after protecting, and is erased by unprotecting. *)
Theorem set_level_truthful (t : T) ps (p : bool) : u16_ok (chip_id (chip t)) ->
  let '((t', _), r) := set_level p (t, ps) in level_outcome p (chip t) r (chip t').
Proof.
  set (c := chip t). intros Hid. assert (H : fwpr (set_level p) (level_outcome p c) c).
  2: { specialize (H t ps eq_refl). by destruct (set_level p (t, ps)) as [[t' ps'] r]. }
  assert (Hglitch : forall e c', calm c c' -> glitch e -> level_outcome p c (Err e) c').
  { intros e c' K Hg. apply level_error; [by left | apply Hg | intros H; by apply (glitch_no e)]. }
  unfold set_level. apply fwpr_bind, fwpr_connect; [intros c1 K1 Hr1 | done].
  apply fwpr_bind, fwpr_identify; [done | by rewrite (calm_id _ _ K1) | |]; rewrite ?(calm_id _ _ K1), ?(calm_protected _ _ K1), ?(calm_flash _ _ K1).
  2: { intros e c2 K2 Hp Hno. apply level_error; [left; by etrans | done|]. intros H1 H2 H3. apply Hno; [done | by apply (calm_fault _ _ K1) | done]. }
  intros c2 Hr2 K2'. assert (K2 : calm c c2) by by etrans. destruct (Bool.eqb (protected c) p) eqn:Ep.
  { apply eqb_prop in Ep. apply fwpr_bind, fwpr_lift, fwp_reset_into_app.
    - intros c3 K3' Hm. assert (K3 : calm c c3) by by etrans. apply fwpr_ret. split; [by left|]. split; [|intros _ _ _; by eexists].
      cbn. split_and!; [done | done | by rewrite (calm_protected _ _ K3) | done].
    - intros e c3 K3. apply Hglitch. by etrans. }
  assert (Hn : protected c = negb p) by (by destruct (protected c), p). clear Ep.
  apply fwpr_bind, fwpr_send_change; [done | by rewrite (calm_protected _ _ K2) | |].
  - intros acc c3 Sw'. pose proof (calm_switched _ _ _ _ K2 Sw') as Sw. apply fwpr_confirm; [by rewrite (sw_id _ _ _ Sw) | |]; rewrite ?(sw_protected _ _ _ Sw).
    + rewrite eqb_reflx. intros c4 K4 Hm. pose proof (switched_calm _ _ _ _ Sw K4) as Sw4. split; [by right|]. split; [|intros _ _ _; by eexists].
      cbn. split_and!; [done | done | apply Sw4 | rewrite Hn; by destruct p].
    + intros e c4 K4 Hpl Hno. pose proof (switched_calm _ _ _ _ Sw K4) as Sw4. apply level_error; [by right | done|].
      intros H1 H2 H3. apply Hno; [done | by apply (sw_fault _ _ _ Sw) | by rewrite (switched_len _ _ _ Sw)].
  - intros acc e c3 H3 Hpl Hno. assert (Hc : calm c c3 \/ switched p c c3) by (destruct H3 as [H3|H3]; [left; by etrans | right; by eapply calm_switched]).
    apply fwpr_unconfirmed; [by destruct Hc as [[-> _ _ _] | [-> _ _ _]]|]. intros e' c4 K4 He.
    assert (Hc4 : calm c c4 \/ (switched p c c4 /\ protected c = negb p)) by (destruct Hc as [Hc|Hc]; [left; by etrans | right; split; [by eapply switched_calm | done]]).
    assert (Hno' : reliable -> fault c = None -> PROBE_LEN <= zlen (flash_of c) -> False) by (intros H1 H2 _; apply Hno; [done | by apply (calm_fault _ _ K2)]).
    destruct He as [-> | [[e2 ->] | ->]]; [by apply level_error | |]; (split; [exact Hc4|]; split; [|intros H1 H2 H4; by destruct (Hno' H1 H2 H4)]); [done|].
    split; [done | by rewrite (calm_protected _ _ K4)].
Qed.
End Board.

(** ** Boards *)

#[export] Program Instance fake_board : BoardLink FakeStm32.
Next Obligation. by intros t l t' r [= <- <-]. Qed.
Next Obligation. by intros t l t' r [= <- <-]. Qed.
Next Obligation. by intros t t' r [= <- <-]. Qed.
(** The cable carries the modem lines as well, as long as it is in. *)
Definition pulled (t : Cable) : bool := (bytes_left t =? 0)%nat.
#[export] Instance cable_lines : Lines Cable := {
  set_rts t l := if pulled t then (t, Err Disconnected) else ({| at_end := set_line (at_end t) true l; bytes_left := bytes_left t |}, Ok tt);
  set_dtr t l := if pulled t then (t, Err Disconnected) else ({| at_end := set_line (at_end t) false l; bytes_left := bytes_left t |}, Ok tt);
  clear_output t := if pulled t then (t, Err Disconnected) else (t, Ok tt);
}.
Lemma link_disconnected : link_error Disconnected.
Proof. right. by right. Qed.
#[export] Program Instance cable_board : BoardLink Cable.
Next Obligation. intros t l t' r E. unfold set_rts, cable_lines in E. destruct (pulled t); injection E as <- <-; [|done]. split; [apply link_disconnected|]. split; [by intros [] | done]. Qed.
Next Obligation. intros t l t' r E. unfold set_dtr, cable_lines in E. destruct (pulled t); injection E as <- <-; [|done]. split; [apply link_disconnected|]. split; [by intros [] | done]. Qed.
Next Obligation. intros t t' r E. unfold clear_output, cable_lines in E. destruct (pulled t); injection E as <- <-; split; try done. split; [apply link_disconnected | by intros []]. Qed.

Module Demo.
Definition firmware : list Z := map Z.of_nat (seq 1 255) ++ map Z.of_nat (seq 1 45).
(** A 1 KiB chip running an old application; and one read-protected. *)
Definition old : FakeStm32 := set_memory (chip_new 0x457 1) (repeat 7 1024) false.
Definition locked : FakeStm32 := with_protection old.
Definition cut_short : Cable := {| at_end := old; bytes_left := 80 |}.

Lemma id_ok : u16_ok 0x457.
Proof. mlia. Qed.

Lemma flash_board_witness :
  snd (flash firmware default_options (cut_short, [])) = Err Disconnected /\
  (let '((t', _), _) := flash firmware default_options (cut_short, []) in
   flash_of (chip t') = repeat 7 1024 \/ validate (flash_of (chip t')) = Err (BadStackPointer 0) \/ flash_of (chip t') = flashed firmware (repeat 7 1024) default_options) /\
  snd (flash firmware default_options (old, [])) = Ok tt /\
  (let '((t', _), _) := flash firmware default_options (old, []) in flash_of (chip t') = flashed firmware (repeat 7 1024) default_options /\ mode (chip t') = App).
Proof.
  split; [by vm_compute|]. split.
  - assert (E : snd (flash firmware default_options (cut_short, [])) = Err Disconnected) by by vm_compute.
    pose proof (flash_board cut_short [] firmware default_options ltac:(done) id_ok) as H.
    destruct (flash firmware default_options (cut_short, [])) as [[t' ps'] r]. cbn [snd] in E. subst r. apply H.
  - assert (E : snd (flash firmware default_options (old, [])) = Ok tt) by by vm_compute. split; [exact E|].
    pose proof (flash_board old [] firmware default_options ltac:(done) id_ok) as H.
    destruct (flash firmware default_options (old, [])) as [[t' ps'] r]. cbn [snd] in E. subst r.
    destruct H as (_ & _ & [H1 H2] & _). split; [exact H1 | by apply H2].
Defined.
Lemma set_level_truthful_witness :
  let '((t', _), r) := set_level false (locked, []) in
  r = Ok {| ch_id := 0x457; was_protected := true; ch_readout_protected := false |} /\ flash_of (chip t') = repeat ERASED 1024.
Proof.
  pose proof (set_level_truthful locked [] false id_ok) as H.
  assert (E : snd (set_level false (locked, [])) = Ok {| ch_id := 0x457; was_protected := true; ch_readout_protected := false |}) by by vm_compute.
  destruct (set_level false (locked, [])) as [[t' ps'] r]. cbn [snd] in E. subst r. split; [done|]. destruct H as (H1 & (_ & _ & H2 & _) & _).
  destruct H1 as [K | [[_ _ F _] _]]; [rewrite (calm_protected _ _ K) in H2; discriminate | exact F].
Defined.
End Demo.
