(* ===== verification/Mgmt.v ===== *)
(** The management schema's result codes, flags and reply records (crates/protocol/src/mgmt.rs), and the
    host's side of it (src/cli/src/mgmt.rs): the owned records, encoding a request, and decoding a record
    stream. *)
From S2P Require Import Prelude Bytes Str Proto Cobs Fingerprint Msg Frame.

Definition MGMT_OK : Z := 0.
Definition MGMT_UNSUPPORTED : Z := 1.
Definition MGMT_BAD_ARG : Z := 2.
Definition MGMT_NOT_FOUND : Z := 3.
Definition MGMT_FULL : Z := 4.
Definition MGMT_BUSY : Z := 5.
Definition MGMT_STORAGE : Z := 6.
Definition MGMT_TIMEOUT : Z := 7.
Definition TX_DELIVERED : Z := 0.
Definition TX_NOT_DELIVERED : Z := 1.
Definition TX_BUSY : Z := 2.
Definition TX_DUTY_LIMITED : Z := 3.
Definition TX_ERROR : Z := 4.
Definition TX_EXPIRED : Z := 5.
Definition NODE_FLAG_SLEEPING : Z := 1.
Definition NODE_FLAG_UNNAMED : Z := 2.
Definition LAST_SEEN_NEVER : Z := u32_max.
Definition RSSI_NONE : Z := 127.
Definition MAX_NODE_NAME : Z := 16.
#[export] Hint Unfold MAX_NODE_NAME : machine.

Inductive DeviceRole := RoleGateway | RoleNode | RoleOther.
Record DeviceInfo := {
  di_role : DeviceRole; di_addr : Z; di_band : Z; di_channel : Z; di_node_capacity : Z; di_node_count : Z; di_provisioned : bool;
  di_gw_addr : Z; di_firmware_name : list Z; di_firmware_version : list Z;
}.
Record NodeEntry := {
  ne_addr : Z; ne_name : list Z; ne_flags : Z; ne_last_seen : Z; ne_rssi : Z; ne_uplinks : Z; ne_queued : Z;
}.
Record NodeKey := { nk_addr : Z; nk_key : list Z; nk_tx_floor : Z; nk_rx_floor : Z }.
Record Paired := { pd_addr : Z; pd_sas : Z }.
Record QueueId := { qi_item : Z }.
Record QueueEntry := { qe_node_addr : Z; qe_item : Z; qe_age : Z; qe_ttl : Z; qe_data : list Z }.

(** postcard for the reply records. *)
Class MgmtCodec := {
  pc_device_info :: Postcard DeviceInfo; pc_node_entry :: Postcard NodeEntry; pc_node_key :: Postcard NodeKey;
  pc_paired :: Postcard Paired; pc_queue_id :: Postcard QueueId; pc_queue_entry :: Postcard QueueEntry;
}.

(** [postcard::from_bytes]: what follows the value is ignored. *)
Definition from_bytes {T} `{!Postcard T} (data : list Z) : option T := option_map fst (take_from_bytes data).
(** [while !data.is_empty()]: each turn consumes a record, at least a byte. *)
Fixpoint parse_loop {T} `{!Postcard T} (fuel : nat) (data : list Z) : list T :=
  match fuel, data with
  | S fuel, _ :: _ =>
      match take_from_bytes data with
      | Some (rec, rest) => rec :: parse_loop fuel rest
      | None => []
      end
  | _, _ => []
  end.
Definition parse_records {T} `{!Postcard T} (data : list Z) : list T := parse_loop (length data) data.

Section Request.
Context `{SC : Schemas} `{CB : Cobs} `{CC : ConsoleCodec}.
Definition encode_mgmt (seq req_id : Z) (op : MgmtOp) : option (list Z) :=
  match encode_frame Proto.MgmtRequest seq {| mreq_req_id := req_id; mreq_op := op |} (zeros MAX_WIRE) with
  | (buf, Ok n) => Some (slice buf 0 n)
  | (_, Err _) => None
  end.
End Request.

Section Records.
Context {T} `{PT : !Postcard T} `{PL : !PostcardLaws T}.
(** A stream of records decodes to them, whatever the tail. *)
Lemma parse_loop_stream (l : list T) : forall fuel tail, Forall representable l -> Forall (fun v => serialize v <> []) l ->
  (length (concat (map serialize l)) <= fuel)%nat -> (tail = [] \/ (take_from_bytes tail : option (T * list Z)) = None) ->
  parse_loop fuel (concat (map serialize l) ++ tail) = l.
Proof.
  induction l as [|v l IH]; intros fuel tail Hr Hn Hf Ht; cbn [map concat].
  { cbn [app]. destruct fuel, tail; cbn [parse_loop]; try done. destruct Ht as [|E]; [done|]. by rewrite E. }
  inversion Hr as [|? ? Hv Hr']; inversion Hn as [|? ? Hnv Hn']; subst; clear Hr Hn. cbn [map concat] in Hf. rewrite length_app in Hf.
  destruct (serialize v) as [|b s] eqn:E; [done|]. cbn [length] in Hf. destruct fuel as [|fuel]; [lia|].
  rewrite <- app_assoc. cbn [app parse_loop]. change (b :: (s ++ concat (map serialize l) ++ tail)) with ((b :: s) ++ concat (map serialize l) ++ tail).
  rewrite <- E, take_serialize by done. f_equal. apply IH; try done. lia.
Qed.
End Records.
