(* ===== verification/DongleWire.v ===== *)
(** The ranges of the gateway's listing records (crates/protocol/src/mgmt.rs) and the sizes postcard gives
    them; a concrete codec that has these sizes. *)
From S2P Require Import Prelude Bytes Str Shell Proto Cobs Fingerprint Msg Frame Mgmt.

(** A value of the Rust type: its fields' types, and a name that is text. *)
Record entry_ranged (e : NodeEntry) : Prop := {
  er_addr : u32_ok (ne_addr e); er_name : utf8 (ne_name e); er_len : u32_ok (zlen (ne_name e)); er_flags : byte_ok (ne_flags e);
  er_seen : u32_ok (ne_last_seen e); er_rssi : -128 <= ne_rssi e <= 127; er_uplinks : u32_ok (ne_uplinks e); er_queued : byte_ok (ne_queued e);
}.
Record item_ranged (e : QueueEntry) : Prop := {
  ir_addr : u32_ok (qe_node_addr e); ir_item : u16_ok (qe_item e); ir_age : u16_ok (qe_age e); ir_ttl : u16_ok (qe_ttl e);
  ir_data : bytes_ok (qe_data e); ir_len : u32_ok (zlen (qe_data e));
}.
(** postcard's format: a byte for [u8] and [i8], a varint for the wider integers, a length before text and bytes. *)
Class EntryLaws `{MC : MgmtCodec} := {
  entry_laws :: Msg.PostcardLaws NodeEntry;
  item_laws :: Msg.PostcardLaws QueueEntry;
  entry_representable : forall e, entry_ranged e -> representable e;
  item_representable : forall e, item_ranged e -> representable e;
  entry_size : forall e, entry_ranged e ->
    zlen (serialize e) = varint_len (ne_addr e) + str_size (zlen (ne_name e)) + 1 + varint_len (ne_last_seen e) + 1 + varint_len (ne_uplinks e) + 1;
  item_size : forall e, item_ranged e ->
    zlen (serialize e) = varint_len (qe_node_addr e) + varint_len (qe_item e) + varint_len (qe_age e) + varint_len (qe_ttl e) + str_size (zlen (qe_data e));
}.

Lemma varint_len_u32 n : u32_ok n -> varint_len n <= 5.
Proof. intros H. etrans; [apply (varint_len_mono n u32_max); mlia|]. by vm_compute. Qed.
Lemma str_size_short n : 0 <= n < 128 -> str_size n = n + 1.
Proof. intros H. unfold str_size. rewrite varint_len_small by done. lia. Qed.
Section Bounds.
Context `{MC : MgmtCodec} `{EL : !EntryLaws}.
(** A name of at most [MAX_NODE_NAME] bytes keeps an entry within 35 bytes. *)
Lemma entry_bound e : entry_ranged e -> zlen (ne_name e) <= MAX_NODE_NAME -> 0 < zlen (serialize e) <= 35.
Proof.
  intros He Hn. rewrite entry_size by done. pose proof (zlen_nonneg (ne_name e)). unfold MAX_NODE_NAME in Hn. rewrite str_size_short by lia.
  pose proof (varint_len_u32 _ (er_addr _ He)). pose proof (varint_len_u32 _ (er_seen _ He)). pose proof (varint_len_u32 _ (er_uplinks _ He)).
  pose proof (varint_len_pos (ne_addr e)). pose proof (varint_len_pos (ne_last_seen e)). pose proof (varint_len_pos (ne_uplinks e)). lia.
Qed.
(** A payload of at most 74 bytes keeps a queued item's entry within 89. *)
Lemma item_bound e : item_ranged e -> zlen (qe_data e) <= 74 -> 0 < zlen (serialize e) <= 89.
Proof.
  intros He Hn. rewrite item_size by done. pose proof (zlen_nonneg (qe_data e)). rewrite str_size_short by lia.
  pose proof (varint_len_u32 _ (ir_addr _ He)). pose proof (varint_len_u16 _ (ir_item _ He)). pose proof (varint_len_u16 _ (ir_age _ He)).
  pose proof (varint_len_u16 _ (ir_ttl _ He)). pose proof (varint_len_pos (qe_node_addr e)). pose proof (varint_len_pos (qe_item e)).
  pose proof (varint_len_pos (qe_age e)). pose proof (varint_len_pos (qe_ttl e)). lia.
Qed.
End Bounds.

(** ** A concrete codec *)

Module Plain.
Import Varint.
Definition v (n : Z) : list Z := venc 10 n.
Definition get_v (l : list Z) : option (Z * list Z) := vdec 10 l.
Definition get_byte (l : list Z) : option (Z * list Z) := match l with b :: l => Some (b, l) | [] => None end.
(** A length and what it counts. *)
Definition text (d : list Z) : list Z := v (zlen d) ++ d.
Definition get_text (l : list Z) : option (list Z * list Z) :=
  match get_v l with Some (n, l) => Some (take (Z.to_nat n) l, drop (Z.to_nat n) l) | None => None end.
Definition signed (b : Z) : Z := if b <? 128 then b else b - 256.
Lemma get_v_v n r : u32_ok n -> get_v (v n ++ r) = Some (n, r).
Proof. intros H. apply vdec_venc. change (128 ^ Z.of_nat 11) with 151115727451828646838272. mlia. Qed.
Lemma get_text_text d r : u32_ok (zlen d) -> get_text (text d ++ r) = Some (d, r).
Proof.
  intros H. unfold get_text, text. rewrite <- app_assoc, get_v_v by done. unfold zlen. rewrite Nat2Z.id. by rewrite take_app_length, drop_app_length.
Qed.
Lemma signed_wrap n : -128 <= n <= 127 -> signed (wrap8 n) = n.
Proof.
  intros H. unfold signed, wrap8. destruct (Z.neg_nonneg_cases n).
  - replace (n mod 256) with (n + 256) by (apply Z.mod_unique with (-1); lia). replace (n + 256 <? 128) with false by lia. lia.
  - rewrite Z.mod_small by lia. by replace (n <? 128) with true by lia.
Qed.
Definition entry_bytes (e : NodeEntry) : list Z :=
  v (ne_addr e) ++ text (ne_name e) ++ [ne_flags e] ++ v (ne_last_seen e) ++ [wrap8 (ne_rssi e)] ++ v (ne_uplinks e) ++ [ne_queued e].
Definition get_entry (l : list Z) : option (NodeEntry * list Z) :=
  '(a, l) ← get_v l; '(nm, l) ← get_text l; '(f, l) ← get_byte l; '(ls, l) ← get_v l; '(r, l) ← get_byte l; '(u, l) ← get_v l; '(q, l) ← get_byte l;
  Some ({| ne_addr := a; ne_name := nm; ne_flags := f; ne_last_seen := ls; ne_rssi := signed r; ne_uplinks := u; ne_queued := q |}, l).
Definition item_bytes (e : QueueEntry) : list Z := v (qe_node_addr e) ++ v (qe_item e) ++ v (qe_age e) ++ v (qe_ttl e) ++ text (qe_data e).
Definition get_item (l : list Z) : option (QueueEntry * list Z) :=
  '(a, l) ← get_v l; '(i, l) ← get_v l; '(g, l) ← get_v l; '(t, l) ← get_v l; '(d, l) ← get_text l;
  Some ({| qe_node_addr := a; qe_item := i; qe_age := g; qe_ttl := t; qe_data := d |}, l).
Lemma v_bytes n : u32_ok n -> bytes_ok (v n).
Proof. intros H. apply venc_bytes. mlia. Qed.
Lemma u16_u32 n : u16_ok n -> u32_ok n.
Proof. mlia. Qed.
Lemma entry_bytes_ok e : entry_ranged e -> bytes_ok (entry_bytes e).
Proof.
  intros [H1 H2 H3 H4 H5 H6 H7 H8]. unfold entry_bytes, text. repeat (apply bytes_ok_app; split); try (by apply v_bytes); try (by apply utf8_bytes);
    (constructor; [|constructor]); try done. apply wrap8_ok.
Qed.
Lemma item_bytes_ok e : item_ranged e -> bytes_ok (item_bytes e).
Proof. intros [H1 H2 H3 H4 H5 H6]. unfold item_bytes, text. repeat (apply bytes_ok_app; split); try done; apply v_bytes; mlia. Qed.
Lemma entry_back e r : entry_ranged e -> get_entry (entry_bytes e ++ r) = Some (e, r).
Proof.
  intros [H1 H2 H3 H4 H5 H6 H7 H8]. unfold entry_bytes, get_entry. rewrite <- !app_assoc, get_v_v by done. cbn [mbind option_bind].
  rewrite get_text_text by done. cbn [mbind option_bind get_byte List.app]. rewrite get_v_v by done. cbn [mbind option_bind get_byte List.app].
  rewrite get_v_v by done. cbn [mbind option_bind get_byte List.app]. rewrite signed_wrap by done. by destruct e.
Qed.
Lemma item_back e r : item_ranged e -> get_item (item_bytes e ++ r) = Some (e, r).
Proof.
  intros [H1 H2 H3 H4 H5 H6]. unfold item_bytes, get_item. rewrite <- !app_assoc.
  do 4 (rewrite get_v_v by (first [done | by apply u16_u32]); cbn [mbind option_bind]). rewrite get_text_text by done. by destruct e.
Qed.
Lemma text_size d : zlen (text d) = str_size (zlen d).
Proof. unfold text, v, str_size. by rewrite zlen_app, zlen_venc. Qed.
Lemma entry_bytes_size e : zlen (entry_bytes e) =
  varint_len (ne_addr e) + str_size (zlen (ne_name e)) + 1 + varint_len (ne_last_seen e) + 1 + varint_len (ne_uplinks e) + 1.
Proof. unfold entry_bytes. rewrite !zlen_app, text_size. unfold v. rewrite !zlen_venc. change (zlen [_]) with 1. lia. Qed.
Lemma item_bytes_size e : zlen (item_bytes e) =
  varint_len (qe_node_addr e) + varint_len (qe_item e) + varint_len (qe_age e) + varint_len (qe_ttl e) + str_size (zlen (qe_data e)).
Proof. unfold item_bytes. rewrite !zlen_app, text_size. unfold v. rewrite !zlen_venc. lia. Qed.
End Plain.
