(* ===== verification/Dongle.v ===== *)
(** The network coordinator (firmware/apps/radio_dongle_gateway.rs) over the network runtime, the registry
    and the downlink queue: boot, every management request, uplinks and downlink delivery, the pairing
    window, and the main loop's turn. What the radio hears, the clock, entropy and the fate of the store
    are arguments; the output is the list of console messages. *)
From Stdlib Require Import Strings.String.
From S2P Require Import Prelude Bytes Str GwRegistry GwQueue Proto Cobs Fingerprint Msg Frame Mgmt NetTxctr NetReplay NetWire NetHandshake.
From S2P Require Import Radio Ccm RadioFrame NetCore NetPair Fhss.
#[local] Abbreviation str := (list Z).
#[local] Abbreviation NodeRecord := GwRegistry.NodeRecord.

#[export] Instance Band_eq_dec : EqDecision Band.
Proof. solve_decision. Defined.

(** ** Persistence *)

Definition KEY_FORMAT : Z := 0x00.
Definition KEY_BUCKET_BASE : Z := 0x10.
Definition FORMAT : Z := 1.
Definition SET_STATS_PERIOD : Z := 0x10.
Definition SET_BAND : Z := 0x11.
Definition SET_CHANNEL : Z := 0x12.
Definition SET_KEYED_JOIN : Z := 0x13.
Definition ADDR_KEY : Z := 0x01.

(** The [NS_APP] and [NS_SHELL] views of the store: [get_bytes] gives a value's true length and what of
    it fits the buffer. *)
Class AppStore (W : Type) := {
  app_get : W -> Z -> Z -> result unit (option (Z * list Z));
  app_set : W -> Z -> list Z -> W * result unit unit;
  shell_get : W -> Z -> Z -> result unit (option (Z * list Z));
}.
Record EepromBuckets (W : Type) := { eb_kv : W; eb_writable : bool }.
Arguments eb_kv {W}. Arguments eb_writable {W}.
#[export] Instance eeprom_io {W} `{!AppStore W} : BucketIo (EepromBuckets W) := {
  io_load b index := if negb (eb_writable b) then Ok None else app_get (eb_kv b) (KEY_BUCKET_BASE + wrap8 index) MAX_BUCKET_BYTES;
  io_store b index bytes :=
    if negb (eb_writable b) then (b, Err tt)
    else
      let '(w, r) := app_set (eb_kv b) (KEY_BUCKET_BASE + wrap8 index) bytes in
      ({| eb_kv := w; eb_writable := eb_writable b |}, r);
}.

Section Settings.
Context {W : Type} `{AS : !AppStore W}.
Definition read_u32_setting (w : W) (local d : Z) : Z :=
  match shell_get w local 4 with Ok (Some (4, b)) => le_val b | _ => d end.
Definition read_bool_setting (w : W) (local : Z) (d : bool) : bool :=
  match shell_get w local 1 with Ok (Some (1, b)) => negb (byte_at b 0 =? 0) | _ => d end.
(** [&b[..n]] with the value's true length [n]: out of range ([None], a panic) when it does not fit the
    buffer of 8. *)
Definition read_band_setting (w : W) : option Band :=
  match shell_get w SET_BAND 8 with
  | Ok (Some (n, b)) => if 8 <? n then None else Some (if bool_decide (slice b 0 n = lit "us915") then Us915 else Eu868)
  | _ => Some Eu868
  end.
(** [unique]: the chip's unique id. *)
Definition radio_addr (w : W) (unique : Z) : Z :=
  match shell_get w ADDR_KEY 4 with Ok (Some (4, b)) => if le_val b =? 0 then unique else le_val b | _ => unique end.
End Settings.

Definition MAX_CHANNEL : Z := 2.
Definition DOWNLINK_REPS : Z := 2.
Definition COMMIT_GRACE : Z := 15000.
Definition DEFAULT_TTL_S : Z := 3600.
Definition POLICY_REFRESH : Z := 2000.
Definition HOP_STAT_EVERY : Z := 10000.
Definition UPLINK_MAX : Z := 74.
Definition MGMT_CHUNK : Z := 192.
Definition BAND_EU868 : Z := 0.
Definition BAND_US915 : Z := 1.
#[export] Hint Unfold KEY_FORMAT KEY_BUCKET_BASE UPLINK_MAX MGMT_CHUNK : machine.

(** [u32::rotate_left]. *)
Definition rotate_left (x r : Z) : Z := Z.lor (wrap32 (Z.shiftl x r)) (Z.shiftr x (32 - r)).
Definition gateway_network_key (addr : Z) : list Z :=
  concat (map (fun i => le_bytes 4 (Z.lxor addr (rotate_left 0x9E3779B9 (i * 8)))) [0; 1; 2; 3]).

(** ** Link statistics *)

Record LinkStat := { ls_addr : Z; ls_seen_s : Z; ls_rssi : Z; ls_uplinks : Z }.
Definition Stats : Type := list (option LinkStat).
Definition stats_new : Stats := replicate (Z.to_nat CAPACITY) None.
Definition stat_is (a : Z) (s : option LinkStat) : bool := match s with Some s => ls_addr s =? a | None => false end.
Definition stats_on_uplink (s : Stats) (a rssi now : Z) : Stats :=
  let rssi := Z.min (Z.max rssi (-128)) 127 in
  match list_find (fun x => stat_is a x = true) s with
  | Some (i, x) =>
      alter (option_map (fun x => {| ls_addr := ls_addr x; ls_seen_s := now; ls_rssi := rssi; ls_uplinks := sat_add u16_max (ls_uplinks x) 1 |})) i s
  | None =>
      match list_find (fun x => x = None) s with
      | Some (i, _) => <[i := Some {| ls_addr := a; ls_seen_s := now; ls_rssi := rssi; ls_uplinks := 1 |}]> s
      | None => s
      end
  end.
Definition stats_get (s : Stats) (a : Z) : option LinkStat :=
  match list_find (fun x => stat_is a x = true) s with Some (_, x) => x | None => None end.
Definition stats_remove (s : Stats) (a : Z) : Stats := map (fun x => if stat_is a x then None else x) s.

(** ** Console messages (firmware/src/console.rs) *)

Definition mgmt_chunk (req_id res chunk : Z) (last : bool) (data : list Z) : Msg :=
  MMgmtResponse {| mresp_req_id := req_id; mresp_result := res; mresp_chunk := chunk; mresp_last := last;
                   mresp_data := slice data 0 (Z.min (zlen data) MGMT_CHUNK) |}.
Definition uplink (src counter rssi lqi : Z) (data : list Z) : Msg :=
  MUplink {| uplink_src := src; uplink_counter := counter; uplink_rssi := rssi; uplink_lqi := lqi;
             uplink_data := slice data 0 (Z.min (zlen data) UPLINK_MAX) |}.
Definition radio_stat (s : RadioStat) : Msg := MRadioStat s.

(** The sender of a chunked response: its buffer, and the chunks sent so far, in order. *)
Record ChunkStream := { cs_req_id : Z; cs_chunk : Z; cs_len : Z; cs_buf : list Z; cs_out : list Msg }.
Definition cs_new (req_id : Z) : ChunkStream := {| cs_req_id := req_id; cs_chunk := 0; cs_len := 0; cs_buf := zeros 128; cs_out := [] |}.
Definition cs_flush (c : ChunkStream) : ChunkStream :=
  if cs_len c =? zlen (cs_buf c) then
    {| cs_req_id := cs_req_id c; cs_chunk := wrap16 (cs_chunk c + 1); cs_len := 0; cs_buf := cs_buf c;
       cs_out := cs_out c ++ [mgmt_chunk (cs_req_id c) MGMT_OK (cs_chunk c) false (slice (cs_buf c) 0 (cs_len c))] |}
  else c.
Definition cs_take (c : ChunkStream) (bytes : list Z) : ChunkStream * list Z :=
  let take := Z.min (zlen bytes) (zlen (cs_buf c) - cs_len c) in
  ({| cs_req_id := cs_req_id c; cs_chunk := cs_chunk c; cs_len := cs_len c + take;
      cs_buf := patch (cs_buf c) (cs_len c) (slice bytes 0 take); cs_out := cs_out c |}, slice bytes take (zlen bytes - take)).
(** Each turn takes a byte or more. *)
Fixpoint push_loop (fuel : nat) (c : ChunkStream) (bytes : list Z) : ChunkStream :=
  match fuel, bytes with
  | S fuel, _ :: _ => let '(c, bytes) := cs_take (cs_flush c) bytes in push_loop fuel c bytes
  | _, _ => c
  end.
Definition cs_push (c : ChunkStream) (bytes : list Z) : ChunkStream := push_loop (length bytes) c bytes.
Definition cs_finish (c : ChunkStream) : list Msg :=
  cs_out c ++ [mgmt_chunk (cs_req_id c) MGMT_OK (cs_chunk c) true (slice (cs_buf c) 0 (cs_len c))].

Definition respond_empty (req_id res : Z) : list Msg := [mgmt_chunk req_id res 0 true []].
Definition respond_record {T} `{!Msg.Postcard T} (req_id : Z) (record : T) : list Msg :=
  match to_slice record (zeros 96) with
  | (buf, Some n) => [mgmt_chunk req_id MGMT_OK 0 true (slice buf 0 n)]
  | (_, None) => respond_empty req_id MGMT_STORAGE
  end.

(** ** The application's state *)

Record PairingSession := { ps_req_id : Z; ps_host : PairingHost }.
(** The counters of [gateway status]. *)
Record Status := { st_nodes : Z; st_uplinks : Z; st_queued : Z; st_hop : option (Z * Z * Z) }.
Record App (W : Type) := {
  a_net : Net W;
  a_fhss : Fhss;
  a_writable : bool;
  a_queue : Queue.Queue;
  a_stats : Stats;
  a_pairing : option PairingSession;
  a_period : Z;
  a_band : Band;
  a_channel : Z;
  a_parked : bool;
  a_park_until : option Z;
  a_last_hop : Z;
  a_last_stat : Z;
  a_last_policy : Z;
  a_status : Status;
}.
Arguments a_net {W}. Arguments a_fhss {W}. Arguments a_writable {W}. Arguments a_queue {W}. Arguments a_stats {W}.
Arguments a_pairing {W}. Arguments a_period {W}. Arguments a_band {W}. Arguments a_channel {W}. Arguments a_parked {W}.
Arguments a_park_until {W}. Arguments a_last_hop {W}. Arguments a_last_stat {W}. Arguments a_last_policy {W}. Arguments a_status {W}.

Section Update.
Context {W : Type}.
#[local] Abbreviation app := (App W).
Definition set_radio (a : app) (n : Net W) (f : Fhss) : app :=
  {| a_net := n; a_fhss := f; a_writable := a_writable a; a_queue := a_queue a; a_stats := a_stats a; a_pairing := a_pairing a;
     a_period := a_period a; a_band := a_band a; a_channel := a_channel a; a_parked := a_parked a; a_park_until := a_park_until a;
     a_last_hop := a_last_hop a; a_last_stat := a_last_stat a; a_last_policy := a_last_policy a; a_status := a_status a |}.
Definition set_net (a : app) (n : Net W) : app := set_radio a n (a_fhss a).
Definition set_tables (a : app) (q : Queue.Queue) (s : Stats) (st : Status) : app :=
  {| a_net := a_net a; a_fhss := a_fhss a; a_writable := a_writable a; a_queue := q; a_stats := s; a_pairing := a_pairing a;
     a_period := a_period a; a_band := a_band a; a_channel := a_channel a; a_parked := a_parked a; a_park_until := a_park_until a;
     a_last_hop := a_last_hop a; a_last_stat := a_last_stat a; a_last_policy := a_last_policy a; a_status := st |}.
Definition set_modes (a : app) (p : option PairingSession) (period : Z) (parked : bool) (until : option Z) : app :=
  {| a_net := a_net a; a_fhss := a_fhss a; a_writable := a_writable a; a_queue := a_queue a; a_stats := a_stats a; a_pairing := p;
     a_period := period; a_band := a_band a; a_channel := a_channel a; a_parked := parked; a_park_until := until;
     a_last_hop := a_last_hop a; a_last_stat := a_last_stat a; a_last_policy := a_last_policy a; a_status := a_status a |}.
Definition set_timers (a : app) (hop stat policy : Z) : app :=
  {| a_net := a_net a; a_fhss := a_fhss a; a_writable := a_writable a; a_queue := a_queue a; a_stats := a_stats a; a_pairing := a_pairing a;
     a_period := a_period a; a_band := a_band a; a_channel := a_channel a; a_parked := a_parked a; a_park_until := a_park_until a;
     a_last_hop := hop; a_last_stat := stat; a_last_policy := policy; a_status := a_status a |}.
Definition set_queue (a : app) (q : Queue.Queue) : app := set_tables a q (a_stats a) (a_status a).
Definition set_pairing (a : app) (p : option PairingSession) : app := set_modes a p (a_period a) (a_parked a) (a_park_until a).
Definition stat_nodes (a : app) (n : Z) : app :=
  set_tables a (a_queue a) (a_stats a) {| st_nodes := wrap32 n; st_uplinks := st_uplinks (a_status a); st_queued := st_queued (a_status a); st_hop := st_hop (a_status a) |}.
Definition stat_queued (a : app) : app :=
  set_tables a (a_queue a) (a_stats a)
    {| st_nodes := st_nodes (a_status a); st_uplinks := st_uplinks (a_status a); st_queued := wrap32 (Queue.qlen (a_queue a)); st_hop := st_hop (a_status a) |}.
Definition stat_uplink (a : app) : app :=
  set_tables a (a_queue a) (a_stats a)
    {| st_nodes := st_nodes (a_status a); st_uplinks := wrap32 (st_uplinks (a_status a) + 1); st_queued := st_queued (a_status a); st_hop := st_hop (a_status a) |}.
Definition stat_hop (a : app) (h : option (Z * Z * Z)) : app :=
  set_tables a (a_queue a) (a_stats a)
    {| st_nodes := st_nodes (a_status a); st_uplinks := st_uplinks (a_status a); st_queued := st_queued (a_status a); st_hop := h |}.
End Update.

(** ** Handlers *)

(** What a management request meets: the time (ms), the time in seconds of its listing, and what its
    registry floor's write, its entropy draw and its window's clock do. *)
Record MgmtEnv := { mg_now : Z; mg_now_s : Z; mg_fate : fate; mg_entropy : option (list Z); mg_window_from : Z }.
(** What the delivery of a downlink meets: the uplink's time in seconds, and the sends. *)
Record UplinkEnv := { up_now_s : Z; up_fate : fate; up_send : nat -> Attempt; up_hop : SendEnv }.

(** What one turn of the main loop meets: the clock at its top and at [now_ms], the requests waiting, the
    clock and the receptions of a pairing slice and at its commit, those of a receive slice and of a hop
    slot, the clock at the two statistics and the idle channel's level. *)
Record TurnEnv := {
  tn_top : Z; tn_inbox : list (list Z * MgmtEnv); tn_now : Z; tn_tuned : bool; tn_slice : Z; tn_pair : list HostTurn; tn_commit : Z;
  tn_heard : result RadioError (list Z) * Z * Z; tn_ack : TxEnv; tn_master : MasterEnv; tn_up : UplinkEnv;
  tn_hop_at : Z; tn_stat_at : Z; tn_idle : option Z;
}.
Record BootEnv := { bo_unique : Z; bo_dev : Dev; bo_fate : fate; bo_past : list Aired; bo_now : Z }.

Section Dongle.
Context {W : Type} `{NS : !NetStore W} `{AS : !AppStore W} `{Haes : !AesBlock} `{PP : !PairPrims}.
Context `{CC : ConsoleCodec} `{MC : MgmtCodec} `{GP : !GwRegistry.Postcard}.
(** The firmware's name and version. *)
Context (fw_name fw_version : str).
#[local] Abbreviation app := (App W).

Definition buckets (a : app) : EepromBuckets W := {| eb_kv := kv (a_net a); eb_writable := a_writable a |}.
(** A registry operation on the shared store. *)
Definition on_buckets (m : M (EepromBuckets W) RegistryError unit) (a : app) : app * result RegistryError unit :=
  let '(b, r) := m (buckets a) in
  let n := a_net a in
  (set_net a (set_rx n (peers n) (default_lane n) (eb_kv b)), r).
Definition count (a : app) : Z := Registry.count (buckets a).
Definition net_do (a : app) (f : Net W -> Net W * bool) : app := set_net a (fst (f (a_net a))).
Definition refresh_pending (a : app) (node : Z) : app :=
  net_do a (fun n => set_pending n node (0 <? Queue.count_for (a_queue a) node)).

Definition describe (a : app) : DeviceInfo :=
  {| di_role := RoleGateway; di_addr := addr (a_net a); di_band := match a_band a with Eu868 => BAND_EU868 | Us915 => BAND_US915 end;
     di_channel := a_channel a; di_node_capacity := wrap8 CAPACITY; di_node_count := wrap8 (count a); di_provisioned := true;
     di_gw_addr := addr (a_net a); di_firmware_name := fw_name; di_firmware_version := fw_version |}.
Definition node_entry (a : app) (now_s : Z) (rec : NodeRecord) : NodeEntry :=
  let st := stats_get (a_stats a) (GwRegistry.addr rec) in
  {| ne_addr := GwRegistry.addr rec; ne_name := GwRegistry.name rec; ne_flags := GwRegistry.flags rec;
     ne_last_seen := match st with Some s => sat_sub now_s (ls_seen_s s) | None => LAST_SEEN_NEVER end;
     ne_rssi := match st with Some s => ls_rssi s | None => RSSI_NONE end;
     ne_uplinks := match st with Some s => ls_uplinks s | None => 0 end;
     ne_queued := wrap8 (Queue.count_for (a_queue a) (GwRegistry.addr rec)) |}.
(** [heapless::Vec<u8, 256>::extend_from_slice]: all of it or none. *)
Definition extend (cap : Z) (v d : list Z) : list Z := if zlen v + zlen d <=? cap then v ++ d else v.
Definition to_scratch {T} `{!Msg.Postcard T} (cap : Z) (v : T) : option (list Z) :=
  match to_slice v (zeros cap) with (buf, Some n) => Some (slice buf 0 n) | (_, None) => None end.
Definition stage_bucket (a : app) (now_s : Z) (recs : list NodeRecord) : list Z :=
  fold_left (fun staged rec => match to_scratch 64 (node_entry a now_s rec) with Some d => extend 256 staged d | None => staged end) recs [].
Definition node_list (a : app) (req_id now_s : Z) : list Msg :=
  cs_finish (fold_left (fun c i => cs_push c (stage_bucket a now_s (Registry.load (buckets a) i))) Registry.indices (cs_new req_id)).
Definition queue_entry (now_ms : Z) (it : Queue.Item) : QueueEntry :=
  {| qe_node_addr := Queue.node_addr it; qe_item := Queue.id it; qe_age := Queue.age it now_ms; qe_ttl := Queue.ttl it; qe_data := Queue.data it |}.
Definition queue_list (a : app) (req_id node now_ms : Z) : list Msg :=
  cs_finish (fold_left (fun c it =>
      if negb (node =? 0) && negb (Queue.node_addr it =? node) then c
      else match to_scratch 128 (queue_entry now_ms it) with Some d => cs_push c d | None => c end)
    (Queue.iter (a_queue a)) (cs_new req_id)).

Definition node_add (a : app) (req_id addr_ : Z) (key : list Z) (name : str) (flags tx_floor rx_floor : Z) (env : MgmtEnv) : app * list Msg :=
  if negb (peer_addr_valid addr_ (addr (a_net a))) || (MAX_NODE_NAME <? zlen name) || (tx_floor =? u32_max) then (a, respond_empty req_id MGMT_BAD_ARG)
  else
    let '(n, saved) := net_raise_floor (a_net a) tx_floor (mg_fate env) in
    let a := set_net a n in
    if negb saved then (a, respond_empty req_id MGMT_STORAGE)
    else
      let rec := {| GwRegistry.addr := addr_; GwRegistry.key := key; GwRegistry.flags := flags; GwRegistry.name := name |} in
      match on_buckets (Registry.add rec) a with
      | (a, Ok _) =>
          let a := net_do a (fun n => add_peer n addr_ key) in
          let a := net_do a (fun n => raise_peer_floor n addr_ rx_floor) in
          (stat_nodes a (count a), respond_empty req_id MGMT_OK)
      | (a, Err GwRegistry.Full) => (a, respond_empty req_id MGMT_FULL)
      | (a, Err _) => (a, respond_empty req_id MGMT_STORAGE)
      end.
Definition node_remove (a : app) (req_id addr_ : Z) : app * list Msg :=
  match on_buckets (Registry.remove addr_) a with
  | (a, Ok _) =>
      let a := net_do a (fun n => remove_peer n addr_) in
      let a := set_tables a (fst (Queue.drop_node (a_queue a) addr_)) (stats_remove (a_stats a) addr_) (a_status a) in
      (stat_queued (stat_nodes a (count a)), respond_empty req_id MGMT_OK)
  | (a, Err NotFound) => (a, respond_empty req_id MGMT_NOT_FOUND)
  | (a, Err _) => (a, respond_empty req_id MGMT_STORAGE)
  end.
Definition node_update (a : app) (req_id addr_ : Z) (name : option str) (flags : option Z) : app * list Msg :=
  if match name with Some n => MAX_NODE_NAME <? zlen n | None => false end then (a, respond_empty req_id MGMT_BAD_ARG)
  else
    match on_buckets (Registry.update addr_ name flags) a with
    | (a, Ok _) => (a, respond_empty req_id MGMT_OK)
    | (a, Err NotFound) => (a, respond_empty req_id MGMT_NOT_FOUND)
    | (a, Err BadName) => (a, respond_empty req_id MGMT_BAD_ARG)
    | (a, Err _) => (a, respond_empty req_id MGMT_STORAGE)
    end.
Definition reveal_key (a : app) (req_id addr_ : Z) : list Msg :=
  match Registry.find (buckets a) addr_ with
  | Some rec =>
      respond_record req_id {| nk_addr := addr_; nk_key := GwRegistry.key rec; nk_tx_floor := floor (txc (tx (a_net a)));
                               nk_rx_floor := default 0 (peer_last_seen (a_net a) addr_) |}
  | None => respond_empty req_id MGMT_NOT_FOUND
  end.
Definition pairing_open (a : app) (req_id window : Z) (env : MgmtEnv) : app * list Msg :=
  if a_pairing a then (a, respond_empty req_id MGMT_BUSY)
  else if window =? 0 then (a, respond_empty req_id MGMT_BAD_ARG)
  else if CAPACITY <=? count a then (a, respond_empty req_id MGMT_FULL)
  else
    match prepare (mg_window_from env) (window * 1000) (mg_entropy env) with
    | None => (a, respond_empty req_id MGMT_UNSUPPORTED)
    | Some host => (set_pairing a (Some {| ps_req_id := req_id; ps_host := host |}), [])
    end.
Definition pairing_cancel (a : app) (req_id : Z) : app * list Msg :=
  (set_pairing a None,
   match a_pairing a with Some sess => respond_empty (ps_req_id sess) MGMT_TIMEOUT | None => [] end ++ respond_empty req_id MGMT_OK).
Definition queue_push (a : app) (req_id node ttl : Z) (data : list Z) (now_ms : Z) : app * list Msg :=
  match Registry.find (buckets a) node with
  | None => (a, respond_empty req_id MGMT_NOT_FOUND)
  | Some _ =>
      let ttl := if ttl =? 0 then DEFAULT_TTL_S else ttl in
      match Queue.push (a_queue a) node ttl data now_ms with
      | (q, Ok item) =>
          let a := net_do (set_queue a q) (fun n => set_pending n node true) in
          (stat_queued a, respond_record req_id {| qi_item := item |})
      | (_, Err BadPayload) => (a, respond_empty req_id MGMT_BAD_ARG)
      | (_, Err _) => (a, respond_empty req_id MGMT_FULL)
      end
  end.
Definition queue_drop (a : app) (req_id node : Z) (item : option Z) : app * list Msg :=
  let '(q, dropped) :=
    match item with
    | Some id =>
        let owner := option_map Queue.node_addr (List.find (fun it => Queue.id it =? id) (Queue.iter (a_queue a))) in
        if bool_decide (owner = Some node) then (fst (Queue.pop (a_queue a) id), 1) else (a_queue a, 0)
    | None => Queue.drop_node (a_queue a) node
    end in
  let a := stat_queued (refresh_pending (set_queue a q) node) in
  (a, respond_empty req_id (if 0 <? dropped then MGMT_OK else MGMT_NOT_FOUND)).

Definition joins_node (op : MgmtOp) : bool := match op with NodeAdd _ _ _ _ _ _ | PairingOpen _ => true | _ => false end.
Definition handle_mgmt (req : MgmtRequest) (a : app) (env : MgmtEnv) : app * list Msg :=
  let req_id := mreq_req_id req in
  if negb (a_writable a) && joins_node (mreq_op req) then (a, respond_empty req_id MGMT_STORAGE)
  else
    match mreq_op req with
    | Describe => (a, respond_record req_id (describe a))
    | NodeList => (a, node_list a req_id (mg_now_s env))
    | NodeAdd addr_ key name flags tx_floor rx_floor => node_add a req_id addr_ key (lit name) flags tx_floor rx_floor env
    | NodeRemove addr_ => node_remove a req_id addr_
    | NodeUpdate addr_ name flags => node_update a req_id addr_ (option_map lit name) flags
    | NodeRevealKey addr_ => (a, reveal_key a req_id addr_)
    | PairingOpen window => pairing_open a req_id window env
    | PairingCancel => pairing_cancel a req_id
    | QueuePush node ttl data => queue_push a req_id node ttl data (mg_now env)
    | QueueList node => (a, queue_list a req_id node (mg_now env))
    | QueueDrop node item => queue_drop a req_id node item
    | StatsConfig period => (set_modes a (a_pairing a) period (a_parked a) (a_park_until a), respond_empty req_id MGMT_OK)
    | OpProvision _ | JoinOpen _ => (a, respond_empty req_id MGMT_UNSUPPORTED)
    end.

(** *** Uplinks and downlinks *)

Definition outcome_code (r : SendResult) : Z :=
  match r with
  | Delivered => TX_DELIVERED | NotDelivered => TX_NOT_DELIVERED | Busy => TX_BUSY | DutyLimited => TX_DUTY_LIMITED | _ => TX_ERROR
  end.
Definition deliver (a : app) (node : Z) (data : list Z) (env : UplinkEnv) : app * SendResult :=
  if bool_decide (access (a_net a) = NetCore.Fhss) then
    let '(n, f, r) := fhss_send (a_net a) (a_fhss a) node data true (up_hop env) in (set_radio a n f, r)
  else
    let '(n, r) := send (a_net a) node data true DOWNLINK_REPS (up_fate env) (up_send env) in (set_net a n, r).
Definition on_uplink (rx : Received) (a : app) (now_ms : Z) (env : UplinkEnv) : app * list Msg :=
  let a := stat_uplink (set_tables a (a_queue a) (stats_on_uplink (a_stats a) (rv_src rx) (rv_rssi rx) (up_now_s env)) (a_status a)) in
  let out := [uplink (rv_src rx) (rv_counter rx) (rv_rssi rx) (rv_lqi rx) (rv_data rx)] in
  let '(a, out) :=
    match Queue.peek_for (a_queue a) (rv_src rx) now_ms with
    | None => (a, out)
    | Some item =>
        let '(a, r) := deliver a (rv_src rx) (Queue.data item) env in
        let a := match r with Delivered => set_queue a (fst (Queue.pop (a_queue a) (Queue.id item))) | _ => a end in
        (a, out ++ [radio_stat (StatTx (rv_src rx) (Queue.id item) (outcome_code r) (option_map rssi (last_ack (a_net a))))])
    end in
  (stat_queued (refresh_pending a (rv_src rx)), out).

Definition commit_pairing (peer : NetHandshake.PairedPeer) (req_id : Z) (a : app) : app * list Msg :=
  let node := NetHandshake.p_addr peer in
  let rec := {| GwRegistry.addr := node; GwRegistry.key := NetHandshake.p_key peer; GwRegistry.flags := NODE_FLAG_UNNAMED; GwRegistry.name := [] |} in
  match on_buckets (Registry.add_new rec) a with
  | (a, Ok _) =>
      let a := net_do a (fun n => add_peer n node (NetHandshake.p_key peer)) in
      (stat_nodes a (count a), respond_record req_id {| pd_addr := node; pd_sas := p_sas peer |})
  | (a, Err Exists) => (a, respond_empty req_id MGMT_BAD_ARG)
  | (a, Err GwRegistry.Full) => (a, respond_empty req_id MGMT_FULL)
  | (a, Err _) => (a, respond_empty req_id MGMT_STORAGE)
  end.

(** *** The main loop *)

Context `{SC : Schemas}.
(** At most two requests a turn; a frame that is not one is skipped. *)
Definition decode_request (frame : list Z) : option MgmtRequest :=
  match decode_frame frame with
  | Ok (Proto.MgmtRequest, _, payload) => Mgmt.from_bytes payload
  | _ => None
  end.
Fixpoint serve (times : nat) (inbox : list (list Z * MgmtEnv)) (a : app) : app * list Msg :=
  match times, inbox with
  | S times, (frame, env) :: inbox =>
      match decode_request frame with
      | None => serve times inbox a
      | Some req =>
          let '(a, out) := handle_mgmt req a env in
          let '(a, out') := serve times inbox a in
          (a, out ++ out')
      end
  | _, _ => (a, [])
  end.
Definition hopping (a : app) : bool := bool_decide (a_band a = Us915).
(** One slice of an open pairing window. *)
Definition pairing_slice (sess : PairingSession) (a : app) (env : TurnEnv) : app * list Msg :=
  let a := if hopping a && negb (a_parked a)
           then set_modes (set_net a (fhss_suspend (a_net a) (a_fhss a) Us915 (tn_tuned env))) (a_pairing a) (a_period a) true None
           else a in
  if CAPACITY <=? count a then (set_pairing a None, respond_empty (ps_req_id sess) MGMT_FULL)
  else if ph_window_end (ps_host sess) <=? tn_slice env then (set_pairing a None, respond_empty (ps_req_id sess) MGMT_TIMEOUT)
  else
    match open_pairing (a_net a) (ps_host sess) (tn_pair env) with
    | (n, host, None) => (set_pairing (set_net a n) (Some {| ps_req_id := ps_req_id sess; ps_host := host |}), [])
    | (n, _, Some peer) =>
        let '(a, out) := commit_pairing peer (ps_req_id sess) (set_pairing (set_net a n) None) in
        (if hopping a then set_modes a (a_pairing a) (a_period a) (a_parked a) (Some (tn_commit env + COMMIT_GRACE)) else a, out)
    end.
Definition forward (r : option Received) (a : app) (env : TurnEnv) : app * list Msg :=
  match r with Some rx => on_uplink rx a (tn_now env) (tn_up env) | None => (a, []) end.
Definition recv_slice (a : app) (env : TurnEnv) : app * list Msg :=
  let '(heard, rssi, lqi) := tn_heard env in
  let '(n, r) := recv (a_net a) heard rssi lqi (tn_ack env) in
  forward r (set_net a n) env.
Definition hop_slot (a : app) (env : TurnEnv) : app * list Msg :=
  let a := if a_parked a then set_modes (set_net a (fhss_resume (a_net a) (a_fhss a))) (a_pairing a) (a_period a) false None else a in
  let '(n, f, slot) := fhss_master_tick (a_net a) (a_fhss a) (tn_master env) in
  forward match slot with Some s => ms_received s | None => None end (set_radio a n f) env.
Definition in_grace (a : app) (now : Z) : bool := match a_park_until a with Some t => now <? t | None => false end.
Definition radio_step (a : app) (env : TurnEnv) : app * list Msg :=
  match a_pairing a with
  | Some sess => pairing_slice sess a env
  | None => if hopping a && a_parked a && in_grace a (tn_slice env) then recv_slice a env
            else if hopping a then hop_slot a env
            else recv_slice a env
  end.
Definition hop_stats (f : Fhss.Fhss) : Z * Z * Z :=
  let ms := map (fun ch => fhss_channel_airtime_ms f (Z.of_nat ch)) (seq 0 (Z.to_nat FHSS_N)) in
  (zlen (List.filter (fun m => 0 <? m) ms), fold_left Z.max ms 0, wrap32 (fold_left Z.add ms 0) / FHSS_N).
Definition hop_stat_step (a : app) (now : Z) : app :=
  if hopping a && (HOP_STAT_EVERY <=? sat_sub now (a_last_hop a))
  then stat_hop (set_timers a now (a_last_stat a) (a_last_policy a)) (Some (hop_stats (a_fhss a))) else a.
(** Items past their time: each is reported, and its node's pending flag follows the queue. *)
Definition expire_step (a : app) (now_ms : Z) : app * list Msg :=
  let '(q, expired) := Queue.expire (a_queue a) now_ms in
  let expired := take (Z.to_nat QUEUE_CAP) expired in
  let a := fold_left (fun a e => refresh_pending a (snd e)) expired (set_queue a q) in
  (if bool_decide (expired = []) then a else stat_queued a,
   map (fun e => radio_stat (StatTx (snd e) (fst e) TX_EXPIRED None)) expired).
Definition stat_step (a : app) (env : TurnEnv) : app * list Msg :=
  if (0 <? a_period a) && (a_period a <=? sat_sub (tn_stat_at env) (a_last_stat a)) then
    match tn_idle env with
    | Some rssi => (set_timers a (a_last_hop a) (tn_stat_at env) (a_last_policy a),
                    [radio_stat (StatChannel (if hopping a then f_cur_channel (a_fhss a) else a_channel a) rssi)])
    | None => (a, [])
    end
  else (a, []).
Definition policy_step (a : app) (now : Z) : app :=
  if POLICY_REFRESH <=? sat_sub now (a_last_policy a)
  then set_timers (set_net a (set_keyed_join (a_net a) (read_bool_setting (kv (a_net a)) SET_KEYED_JOIN true))) (a_last_hop a) (a_last_stat a) now
  else a.
Definition loop_turn (a : app) (env : TurnEnv) : app * list Msg :=
  let a := policy_step a (tn_top env) in
  let '(a, out1) := serve 2 (tn_inbox env) a in
  let '(a, out2) := radio_step a env in
  let a := hop_stat_step (set_net a (fst (take_keyed_join (a_net a)))) (tn_hop_at env) in
  let '(a, out3) := expire_step a (tn_now env) in
  let '(a, out4) := stat_step a env in
  (a, out1 ++ out2 ++ out3 ++ out4).
Fixpoint run_loop (a : app) (envs : list TurnEnv) : app * list Msg :=
  match envs with
  | [] => (a, [])
  | env :: envs =>
      let '(a, out) := loop_turn a env in
      let '(a, out') := run_loop a envs in
      (a, out ++ out')
  end.

(** *** Boot *)

(** The registry format guard: whether the buckets are another firmware's, and the store after it. *)
Definition format_guard (w : W) : W * bool :=
  match app_get w KEY_FORMAT 1 with
  | Ok (Some (1, b)) => (w, negb (byte_at b 0 =? FORMAT))
  | Ok _ => (fst (app_set w KEY_FORMAT [FORMAT]), false)
  | Err _ => (w, false)
  end.
Definition boot_channel (w : W) : Z :=
  let c := read_u32_setting w SET_CHANNEL 0 in if c <=? MAX_CHANNEL then wrap8 c else 0.
Definition install (n : Net W) (recs : list NodeRecord) : Net W :=
  fold_left (fun n rec => fst (add_peer n (GwRegistry.addr rec) (GwRegistry.key rec))) recs n.
(** The application at the top of its loop; [None] is a panic. The radio's start-up succeeds. *)
Definition boot (w : W) (env : BootEnv) : option app :=
  let own := radio_addr w (bo_unique env) in
  let '(w, foreign) := format_guard w in
  let b := {| eb_kv := w; eb_writable := negb foreign |} in
  match read_band_setting w with
  | None => None
  | Some band =>
      let keys_stored := foreign || (0 <? Registry.count b) in
      let n := net_new {| c_addr := own; c_key := gateway_network_key own; c_band := band; c_keys_stored := keys_stored |} w (bo_dev env) (bo_fate env) (bo_past env) in
      let n := set_keyed_join (set_default_lane n false) (read_bool_setting w SET_KEYED_JOIN true) in
      let recs := if foreign then [] else Registry.load b 0 ++ Registry.load b 1 ++ Registry.load b 2 in
      let n := install n recs in
      let '(n, f) := if bool_decide (band = Us915) then enable_fhss n disabled Master {| fc_seed := 0; fc_network_key := None |} (bo_now env) else (n, disabled) in
      Some {| a_net := n; a_fhss := f; a_writable := negb foreign; a_queue := Queue.new; a_stats := stats_new; a_pairing := None;
              a_period := read_u32_setting w SET_STATS_PERIOD 500; a_band := band; a_channel := boot_channel w; a_parked := false; a_park_until := None;
              a_last_hop := bo_now env; a_last_stat := bo_now env; a_last_policy := bo_now env;
              a_status := {| st_nodes := wrap32 (zlen recs); st_uplinks := 0; st_queued := 0; st_hop := None |} |}
  end.
End Dongle.
