(* ===== verification/DongleCore.v ===== *)
(** What the gateway's main loop (Dongle) keeps: the peer table is the registry, queued items belong to
    registered nodes and their pending flags follow the queue. *)
From Stdlib Require Import Sorting.Permutation.
From S2P Require Import Prelude Bytes Str GwRegistry GwQueue Proto Cobs Fingerprint Msg Frame Mgmt NetTxctr NetReplay NetWire NetPairing NetHandshake.
From S2P Require Import Radio Ccm RadioFrame NetCore NetAir Bulk NetPair NetLink Fhss Dongle.
#[local] Abbreviation NodeRecord := GwRegistry.NodeRecord.

(** What the application asks of the store: a write replaces one value, or fails and leaves it old or new;
    the namespaces are apart. *)
Class AppStoreLaws (W : Type) `{!NetStore W, !AppStore W} := {
  app_set_frame : forall w l d l' cap, l <> l' -> app_get (fst (app_set w l d)) l' cap = app_get w l' cap;
  app_set_ok : forall w l d w' cap, 0 < zlen d <= cap -> app_set w l d = (w', Ok tt) -> app_get w' l cap = held d;
  app_set_err : forall w l d w' cap, 0 < zlen d <= cap -> app_set w l d = (w', Err tt) ->
    app_get w' l cap = app_get w l cap \/ app_get w' l cap = held d;
  net_set_app : forall w l v l' cap, app_get (fst (nv_set w l v)) l' cap = app_get w l' cap;
}.
#[export] Instance eeprom_laws {W} `{NetStore W} `{AS : !AppStore W} `{AL : !AppStoreLaws W} : BucketIoLaws (EepromBuckets W).
Proof.
  assert (Hw : forall i, 0 <= i < BUCKETS -> wrap8 i = i) by (intros; apply wrap8_small; unfold BUCKETS in *; mlia).
  constructor; simpl; intros [w wr] i d; cbn [eb_kv eb_writable]; destruct wr; cbn [negb]; try done.
  - intros j Hi Hj Hij. rewrite !Hw by done. pose proof (app_set_frame w (KEY_BUCKET_BASE + i) d (KEY_BUCKET_BASE + j) MAX_BUCKET_BYTES ltac:(lia)) as Hf.
    by destruct (app_set _ _ _).
  - intros s' Hz. destruct (app_set w _ d) as [w' r] eqn:E. intros [= <- ->]. by eapply app_set_ok.
  - intros s' Hz. destruct (app_set w _ d) as [w' r] eqn:E. intros [= <- ->]. by eapply app_set_err.
  - intros s' _. intros [= <-]. by left.
Qed.

(** ** Steps of the radio that leave the peers and the application's store alone *)

Section Still.
Context {W : Type} `{NS : !NetStore W} `{AS : !AppStore W} `{AL : !AppStoreLaws W} `{Haes : !AesBlock}.
#[local] Abbreviation net := (Net W).

Definition row (p : Peer) : Z * list Z * Z * bool := (p_addr p, p_key p, p_local p, p_pending p).
Definition app_same (w w' : W) : Prop := forall l cap, app_get w' l cap = app_get w l cap.
Record still (n n' : net) : Prop := {
  sl_rows : map (option_map row) (peers n') = map (option_map row) (peers n);
  sl_addr : addr n' = addr n;
  sl_lane : default_lane_enabled n' = default_lane_enabled n;
  sl_store : app_same (kv n) (kv n');
}.
#[export] Instance still_preorder : PreOrder still.
Proof.
  split; [intros n; by split|]. intros a b c [H1 H2 H3 H4] [K1 K2 K3 K4]. split; [congruence.. |]. intros l cap. by rewrite K4, H4.
Qed.
Lemma still_rx n n' : rx_same n n' -> still n n'.
Proof. intros (Hp & _ & _ & Ha & Hl & _ & Hk & _). split; [by rewrite Hp | done | done | intros l cap; by rewrite Hk]. Qed.
Lemma rows_with_lane ps i p l : ps !! i = Some (Some p) -> map (option_map row) (<[i := Some (with_lane p l)]> ps) = map (option_map row) ps.
Proof.
  intros H. change (map (option_map row)) with (fmap (M := list) (option_map row)). rewrite list_fmap_insert. apply list_insert_id.
  rewrite list_lookup_fmap, H. done.
Qed.
Lemma still_accept n s c : still n (lane_accept n s c).
Proof.
  unfold lane_accept. destruct (peer_at n s) as [[i p]|] eqn:E.
  - destruct (accept_every _ _ _) as [l persist]. apply peer_at_Some in E as (_ & Hp & _).
    split; simpl; [by apply rows_with_lane | done | done|]. intros k cap. destruct persist; [apply net_set_app | done].
  - destruct (accept_every _ _ _) as [l persist]. split; simpl; [done..|]. intros k cap. destruct persist; [apply net_set_app | done].
Qed.
Lemma still_reack n s : still n (fst (lane_reack n s)).
Proof.
  unfold lane_reack. destruct (peer_at n s) as [[i p]|] eqn:E; destruct (reack _) as [l ok]; [|done].
  apply peer_at_Some in E as (_ & Hp & _). split; simpl; [by apply rows_with_lane | done | done | done].
Qed.
Lemma still_recv n heard rssi lqi env : still n (fst (recv n heard rssi lqi env)).
Proof.
  unfold recv. destruct heard as [buf|]; [|done]. destruct (parse buf) as [[peek k]|]; [|done]. split_if.
  { destruct (keyed_responder n); [|done].
    assert (Hk : still n (fst (keyed_answer n buf env))).
    { unfold keyed_answer. repeat (split_if; [done|]). destruct (parse buf) as [[pk ?]|]; [|done]. cbv zeta. split_if; [done|].
      destruct (open_frame _ buf) as [b [[h [lo hi]]|]]; [|done]. repeat (split_if; [done|]). set (n1 := lane_accept n _ _).
      pose proof (rx_try_tx n1 (t_elapsed env) (frame_toa_ms KEYED_FRAME_LEN)) as Hr1. destruct (try_tx n1 _ _) as [n2 ok].
      assert (Hs2 : still n n2) by (etrans; [apply still_accept | by apply still_rx]). split_if; [done|].
      pose proof (rx_alloc n2 (t_fate env)) as Hr3. destruct (net_alloc n2 _) as [n3 o]. assert (Hs4 : still n n3) by (etrans; [exact Hs2 | by apply still_rx]).
      destruct o; [|done]. by destruct (seal_frame _ _ _ _) as [b' [?|]]. }
    destruct (keyed_answer n buf env) as [n1 [e|]]; [|exact Hk]. cbn [fst] in *. etrans; [exact Hk|]. by destruct (t_result env). }
  do 3 (split_if; [done|]). cbv zeta. destruct (open_frame _ buf) as [b [[h [lo hi]]|]]; [|done]. split_if; [done|].
  destruct (classify _ _); cbn [fst]; [| |done].
  - split_if; [etrans; [apply still_accept | apply still_rx, rx_send_ack] | apply still_accept].
  - split_if; [|done]. pose proof (still_reack n (src h)) as Hr. destruct (lane_reack n (src h)) as [n1 again]. cbn [fst] in *.
    split_if; [etrans; [exact Hr | apply still_rx, rx_send_ack] | exact Hr].
Qed.
Lemma recv_registered n heard rssi lqi env r : default_lane_enabled n = false -> snd (recv n heard rssi lqi env) = Some r -> peer_at n (rv_src r) <> None.
Proof.
  intros Hl. unfold recv. destruct heard as [buf|]; [|done]. destruct (parse buf) as [[peek k]|] eqn:Ep; [|done]. split_if.
  { destruct (keyed_responder n); [|done]. by destruct (keyed_answer n buf env) as [n1 [e|]]. }
  do 2 (split_if; [done|]). rewrite Hl. split_if; [done|]. cbv zeta. destruct (open_frame _ buf) as [b [[h [lo hi]]|]] eqn:Eo; [|done].
  assert (Hh : src h = src peek).
  { unfold open_frame in Eo. rewrite Ep in Eo. split_if_in Eo; [done|]. destruct (open _ _ _ _ _) as [d v]. destruct v; [|done]. cbn [negb] in Eo. congruence. }
  split_if; [done|]. assert (Hreg : peer_at n (src h) <> None).
  { rewrite Hh. unfold registered in Hif2. destruct (peer_at n (src peek)); [done|]. by destruct Hif2. }
  destruct (classify _ _); cbn [snd]; [by intros [= <-] | | done]. split_if; [|done]. by destruct (lane_reack n (src h)).
Qed.

Lemma still_tx n n1 e : still n n1 -> still n (radio_tx n1 e).
Proof. intros H. by etrans. Qed.
Lemma still_fhss_send n f dest data c env : still n (fst (fst (fhss_send n f dest data c env))).
Proof.
  unfold fhss_send. repeat (split_if; [done|]). destruct (f_anchor f) as [anchor|]; [|done]. cbv zeta. split_if; [done|].
  pose proof (still_rx _ _ (rx_alloc n (se_fate env))) as Ha. destruct (net_alloc n _) as [n1 [k|]]; [|exact Ha]. cbn [fst] in Ha.
  destruct (seal_frame _ _ _ _) as [buf [len|]]; [|exact Ha]. destruct (se_tx env); [|by apply still_tx]. split_if; [by apply still_tx|].
  match goal with |- context [await_ack ?m ?key ?w ?h] => pose proof (still_rx _ _ (rx_await m key w h)) as Hw; destruct (await_ack m key w h) as [n3 acked] end.
  cbn [fst] in *. etrans; [|exact Hw]. by apply still_tx.
Qed.
Lemma still_beacon n f slot ch o : still n (fst (fhss_tx_beacon n f slot ch o)).
Proof.
  unfold fhss_tx_beacon. split_if; [done|]. cbv zeta. pose proof (still_rx _ _ (rx_alloc n o)) as Ha. destruct (net_alloc n _) as [n1 [k|]]; [|exact Ha].
  destruct (seal_frame _ _ _ _) as [buf [len|]]; [by apply still_tx | exact Ha].
Qed.
Lemma still_master n f env : still n (fst (fst (fhss_master_tick n f env))).
Proof.
  unfold fhss_master_tick. split_if; [done|]. destruct (f_anchor f) as [anchor|]; [|done]. cbv zeta.
  match goal with |- context [fhss_tx_beacon n ?f ?s ?c ?o] => pose proof (still_beacon n f s c o) as Hb; destruct (fhss_tx_beacon n f s c o) as [n1 f1] end.
  cbn [fst] in Hb. split_if; [|exact Hb]. destruct (me_heard _ _) as [[heard rssi] lqi]. pose proof (still_recv n1 heard rssi lqi (me_ack env)) as Hr.
  destruct (recv _ _ _ _ _). cbn [fst] in *. by etrans.
Qed.
Lemma still_tx_pair n key hdr p env : still n (fst (tx_pair n key hdr p env)).
Proof.
  unfold tx_pair, tx_frame. destruct (seal_frame _ _ _ _) as [b [len|]]; [|done].
  pose proof (still_rx _ _ (rx_try_tx n (t_elapsed env) (frame_toa_ms len))) as Ht. destruct (try_tx _ _ _) as [n1 ok]. cbn [fst] in Ht. destruct ok; [by apply still_tx | exact Ht].
Qed.
Lemma still_alloc n o n' c : net_alloc n o = (n', c) -> still n n'.
Proof. intros E. pose proof (rx_alloc n o) as H. rewrite E in H. by apply still_rx. Qed.
Lemma still_open_loop `{!PairPrims} turns : forall n host, still n (fst (fst (open_loop n host turns))).
Proof.
  induction turns as [|t turns IH]; intros n host; cbn [open_loop]; [done|]. destruct (ready _ _) as [h ok]. split_if; [done|].
  destruct (rx_pair _ _ _) as [[hdr payload]|]; [|by apply IH]. do 2 (split_if; [by apply IH|]). destruct (ph_eph h) as [eph|]; [|by apply IH].
  cbv zeta. destruct (net_alloc n _) as [n1 [c|]] eqn:E; [|by eapply still_alloc]. apply still_alloc in E.
  match goal with |- context [tx_pair n1 ?k ?hd ?p ?e] => pose proof (still_tx_pair n1 k hd p e) as Ht; destruct (tx_pair n1 k hd p e) as [n2 sent] end.
  cbn [fst] in Ht. assert (H2 : still n n2) by (by etrans). split_if; [etrans; [exact H2 | apply IH]|].
  destruct (wait_frame _ _ _ _) as [nn|]; [|etrans; [exact H2 | apply IH]]. destruct (handshake _ _ _ _ _ _) as [s|]; [|etrans; [exact H2 | apply IH]].
  destruct (net_alloc n2 _) as [n3 [c2|]] eqn:E2; apply still_alloc in E2; [|by etrans].
  match goal with |- context [tx_pair n3 ?k ?hd ?p ?e] => pose proof (still_tx_pair n3 k hd p e) as Ht2; destruct (tx_pair n3 k hd p e) as [n4 sent2] end.
  cbn [fst] in Ht2. assert (H4 : still n n4) by (etrans; [exact H2|]; by etrans). split_if; [etrans; [exact H4 | apply IH]|].
  destruct (wait_frame _ _ _ _); [exact H4 | etrans; [exact H4 | apply IH]].
Qed.
Lemma still_open_pairing `{!PairPrims} n host turns : still n (fst (fst (open_pairing n host turns))).
Proof.
  unfold open_pairing. do 2 (split_if; [done|]). apply still_open_loop.
Qed.
Lemma still_raise n f o : still n (fst (net_raise_floor n f o)).
Proof. unfold net_raise_floor. by destruct (raise_tx_floor _ _ _). Qed.
End Still.

(** ** The peer table as a collection *)

Definition live (ps : list (option Peer)) : list Peer := omap id ps.
Definition entry (p : Peer) : Z * list Z := (p_addr p, p_key p).
Definition seat {A} (o : option A) : list A := match o with Some x => [x] | None => [] end.
Lemma live_app ps qs : live (ps ++ qs) = live ps ++ live qs.
Proof. apply omap_app. Qed.
Lemma live_insert ps i o x : ps !! i = Some o -> seat x ++ live ps ≡ₚ seat o ++ live (<[i := x]> ps).
Proof.
  intros H. assert (Hi : (i < length ps)%nat) by (by apply lookup_lt_Some in H).
  rewrite (insert_take_drop ps i x Hi). rewrite <- (take_drop_middle ps i o H) at 1. rewrite !live_app.
  assert (Hc : forall (y : option Peer) l, live (y :: l) = seat y ++ live l) by (by intros []).
  rewrite !Hc. rewrite (Permutation_app_swap_app (live (take i ps)) (seat o)), (Permutation_app_swap_app (live (take i ps)) (seat x)).
  apply Permutation_app_swap_app.
Qed.
Lemma live_In ps p : In p (live ps) <-> exists i, ps !! i = Some (Some p).
Proof.
  unfold live. rewrite <- list_elem_of_In, list_elem_of_omap. split.
  - intros (o & Ho & E). simpl in E. subst. by apply list_elem_of_lookup_1.
  - intros [i Hi]. exists (Some p). split; [by eapply list_elem_of_lookup_2 | done].
Qed.
Lemma slot_of_None ps a : slot_of ps a = None <-> ~ In a (map p_addr (live ps)).
Proof.
  induction ps as [|[p|] ps IH]; cbn [slot_of]; [by split; [intros _ []|]| |].
  - change (live (Some p :: ps)) with (p :: live ps). cbn [map In]. destruct (Z.eqb_spec (p_addr p) a) as [E|E]; [split; [done | intros H; exfalso; apply H; by left]|].
    split; [intros H; destruct (slot_of ps a); [done|]; intros [?|?]; [done | by apply IH] | intros H].
    by rewrite (proj2 IH (fun Hin => H (or_intror Hin))).
  - change (live (None :: ps)) with (live ps). split; [intros H; destruct (slot_of ps a); [done | by apply IH] | intros H; by rewrite (proj2 IH H)].
Qed.
Lemma peer_none {W} (n : Net W) a : peer_at n a = None <-> ~ In a (map p_addr (live (peers n))).
Proof. rewrite peer_at_None. unfold peer_slot. apply slot_of_None. Qed.

(** Sixteen slots; no address and no lane record twice. *)
Record TableInv {W} (n : Net W) : Prop := {
  ti_slots : zlen (peers n) = MAX_PEERS;
  ti_addrs : NoDup (map p_addr (live (peers n)));
  ti_locals : NoDup (map p_local (live (peers n)));
  ti_range : Forall (fun p => KEY_LASTSEEN_BASE <= p_local p < KEY_LASTSEEN_BASE + MAX_PEERS) (live (peers n));
}.
Lemma rows_live ps qs : map (option_map row) ps = map (option_map row) qs -> map row (live ps) = map row (live qs).
Proof.
  revert qs. induction ps as [|p ps IH]; intros [|q qs]; try done. cbn [map]. intros [= E1 E2]. specialize (IH qs E2).
  destruct p as [p|], q as [q|]; try done. change (live (Some p :: ps)) with (p :: live ps). change (live (Some q :: qs)) with (q :: live qs).
  cbn [map]. rewrite IH. f_equal. change (Some (row p) = Some (row q)) in E1. congruence.
Qed.
(** What depends only on the rows. *)
Lemma rows_map {B} (f : Peer -> B) g ps qs : (forall p, f p = g (row p)) -> map row (live ps) = map row (live qs) -> map f (live ps) = map f (live qs).
Proof. intros Hf E. rewrite !(map_ext f (fun p => g (row p)) Hf). rewrite <- !(map_map row g). by rewrite E. Qed.
Section Table.
Context {W : Type} `{NS : !NetStore W} `{AS : !AppStore W} `{AL : !AppStoreLaws W} `{Haes : !AesBlock}.
#[local] Abbreviation net := (Net W).
Lemma table_still (n n' : net) : still n n' -> TableInv n -> TableInv n'.
Proof.
  intros [H _ _ _] [T1 T2 T3 T4]. pose proof (rows_live _ _ H) as Hl.
  assert (Ha : map p_addr (live (peers n')) = map p_addr (live (peers n))) by (by apply (rows_map p_addr (fun r => fst (fst (fst r))))).
  assert (Hp : map p_local (live (peers n')) = map p_local (live (peers n))) by (by apply (rows_map p_local (fun r => snd (fst r)))).
  split; [|by rewrite Ha | by rewrite Hp|].
  - rewrite <- T1. unfold zlen. f_equal. rewrite <- (length_map (option_map row) (peers n')), H. apply length_map.
  - apply (List.Forall_map p_local (fun l => KEY_LASTSEEN_BASE <= l < KEY_LASTSEEN_BASE + MAX_PEERS)). rewrite Hp. by apply List.Forall_map.
Qed.

Lemma free_bit u l : lane_free u l = negb (Z.testbit u (Z.of_nat l)).
Proof.
  unfold lane_free. rewrite Z.shiftl_1_l. destruct (Z.testbit u (Z.of_nat l)) eqn:E; cbn [negb].
  - apply Z.eqb_neq. intros H. assert (Hb : Z.testbit (Z.land u (2 ^ Z.of_nat l)) (Z.of_nat l) = true).
    { rewrite Z.land_spec, E, Z.pow2_bits_true by lia. done. }
    by rewrite H, Z.bits_0 in Hb.
  - apply Z.eqb_eq, Z.bits_inj'. intros i Hi. rewrite Z.land_spec, Z.bits_0, Z.pow2_bits_eqb by lia.
    destruct (Z.eqb_spec (Z.of_nat l) i); [subst; by rewrite E | by rewrite andb_false_r].
Qed.
Lemma used_bit ps l : Forall (fun p => KEY_LASTSEEN_BASE <= p_local p) (live ps) -> 0 <= l ->
  Z.testbit (used_locals ps) l = existsb (fun p => p_local p =? KEY_LASTSEEN_BASE + l) (live ps).
Proof.
  unfold used_locals. intros Hr Hl. assert (H : forall m, Z.testbit (fold_left (fun m p => match p with Some pe => Z.lor m (Z.shiftl 1 (p_local pe - KEY_LASTSEEN_BASE)) | None => m end) ps m) l =
    Z.testbit m l || existsb (fun p => p_local p =? KEY_LASTSEEN_BASE + l) (live ps)).
  { induction ps as [|[p|] ps IH]; intros m; cbn [fold_left]; [by rewrite orb_false_r | | by apply IH].
    change (live (Some p :: ps)) with (p :: live ps) in *. inversion Hr as [|? ? Hp Hrs]; subst. rewrite IH by done. cbn [existsb].
    rewrite Z.lor_spec, Z.shiftl_1_l, Z.pow2_bits_eqb by lia. rewrite <- orb_assoc. do 2 f_equal. lia. }
  rewrite H. by rewrite Z.bits_0.
Qed.
Lemma lane_unused (n : net) l : TableInv n -> lane_free (used_locals (peers n)) l = true -> ~ In (KEY_LASTSEEN_BASE + Z.of_nat l) (map p_local (live (peers n))).
Proof.
  intros [_ _ _ Hr] Hf Hin. rewrite free_bit, used_bit in Hf; [|eapply List.Forall_impl; [|exact Hr]; simpl; lia | lia].
  apply in_map_iff in Hin as (p & Hp & Hin). apply negb_true_iff in Hf. assert (Ht : existsb (fun p => p_local p =? KEY_LASTSEEN_BASE + Z.of_nat l) (live (peers n)) = true).
  { apply existsb_exists. exists p. split; [done | lia]. }
  by rewrite Ht in Hf.
Qed.
(** With a peer fewer than the slots, there is a free slot and a free lane record. *)
Lemma room_slot (n : net) : TableInv n -> zlen (live (peers n)) < MAX_PEERS -> first_empty (peers n) <> None.
Proof.
  intros [Hs _ _ _] Hl E. unfold first_empty in E. destruct (list_find _ _) as [[i ?]|] eqn:Ef; [done|]. apply list_find_None in Ef.
  assert (H : length (live (peers n)) = length (peers n)).
  { clear -Ef. induction (peers n) as [|[p|] ps IH]; [done| |]; inversion Ef; subst; [|done]. change (live (Some p :: ps)) with (p :: live ps). simpl. by rewrite IH. }
  unfold zlen in *. lia.
Qed.
Lemma room_lane (n : net) a k recs : TableInv n -> zlen (live (peers n)) < MAX_PEERS -> length recs = Z.to_nat MAX_PEERS ->
  assign_lane a k recs (used_locals (peers n)) <> None.
Proof.
  intros HT Hl Hr E. pose proof (assign_lane_spec a k recs (used_locals (peers n))) as H. rewrite E in H. destruct HT as [_ _ _ Hra].
  assert (Hincl : incl (map (fun l => KEY_LASTSEEN_BASE + Z.of_nat l) (seq 0 (Z.to_nat MAX_PEERS))) (map p_local (live (peers n)))).
  { intros x Hx. apply in_map_iff in Hx as (l & <- & Hin). apply List.in_seq in Hin. specialize (H l ltac:(lia)).
    rewrite free_bit, used_bit in H; [|eapply List.Forall_impl; [|exact Hra]; simpl; lia | lia]. apply negb_false_iff, existsb_exists in H as (p & Hp & E2).
    apply in_map_iff. exists p. split; [lia | done]. }
  apply NoDup_incl_length in Hincl.
  - rewrite !length_map, List.length_seq in Hincl. unfold zlen in *. lia.
  - apply NoDup_map_NoDup_ForallPairs; [intros x y _ _; lia | apply List.seq_NoDup].
Qed.

Lemma range_perm (f : Peer -> Z) (P : Z -> Prop) l l' : l ≡ₚ l' -> Forall (fun p => P (f p)) l -> Forall (fun p => P (f p)) l'.
Proof. intros Hp H. by rewrite <- Hp. Qed.
(** A table whose slot [i], empty or of the same node, is taken by [p']. *)
Lemma table_put (n n' : net) i o p' : peers n' = <[i := Some p']> (peers n) -> peers n !! i = Some o -> TableInv n ->
  match o with
  | Some p => p_addr p' = p_addr p /\ p_local p' = p_local p
  | None => ~ In (p_addr p') (map p_addr (live (peers n))) /\ ~ In (p_local p') (map p_local (live (peers n))) /\
      KEY_LASTSEEN_BASE <= p_local p' < KEY_LASTSEEN_BASE + MAX_PEERS
  end ->
  TableInv n' /\ p' :: live (peers n) ≡ₚ seat o ++ live (peers n').
Proof.
  intros E Hi [T1 T2 T3 T4] Ho. pose proof (live_insert (peers n) i o (Some p') Hi) as Hl. rewrite <- E in Hl. cbn [seat app] in Hl.
  split; [|exact Hl]. split.
  - rewrite E. unfold zlen in *. by rewrite length_insert.
  - destruct o as [p|]; cbn [seat app] in Hl.
    + destruct Ho as [Ha _]. assert (Hm : p_addr p :: map p_addr (live (peers n)) ≡ₚ p_addr p :: map p_addr (live (peers n'))) by (rewrite <- Ha at 1; by apply (Permutation_map p_addr) in Hl).
      apply Permutation_cons_inv in Hm. by rewrite <- Hm.
    + destruct Ho as (Ha & _ & _). apply (Permutation_map p_addr) in Hl. rewrite <- Hl. cbn [map]. apply list.NoDup_cons. by rewrite list_elem_of_In.
  - destruct o as [p|]; cbn [seat app] in Hl.
    + destruct Ho as [_ Ha]. assert (Hm : p_local p :: map p_local (live (peers n)) ≡ₚ p_local p :: map p_local (live (peers n'))) by (rewrite <- Ha at 1; by apply (Permutation_map p_local) in Hl).
      apply Permutation_cons_inv in Hm. by rewrite <- Hm.
    + destruct Ho as (_ & Ha & _). apply (Permutation_map p_local) in Hl. rewrite <- Hl. cbn [map]. apply list.NoDup_cons. by rewrite list_elem_of_In.
  - assert (Hf : Forall (fun p => KEY_LASTSEEN_BASE <= p_local p < KEY_LASTSEEN_BASE + MAX_PEERS) (seat o ++ live (peers n'))).
    { rewrite <- Hl. constructor; [|done]. destruct o as [p|]; [|tauto]. destruct Ho as [_ ->]. rewrite List.Forall_forall in T4. apply T4, live_In. by exists i. }
    apply List.Forall_app in Hf as [_ Hf]. exact Hf.
Qed.
End Table.

(** ** The queue's items *)

Lemma push_iter q node ttl d now q' i : Queue.push q node ttl d now = (q', Ok i) ->
  exists it, Queue.node_addr it = node /\ Queue.iter q' ≡ₚ it :: Queue.iter q.
Proof.
  unfold Queue.push. do 2 (split_if; [done|]). destruct (Queue.first_free _) as [slot|] eqn:E; [|done]. intros [= <- _].
  eexists. split; [|exact (Queue.first_free_Some _ _ _ E)]. done.
Qed.
Lemma pop_iter q i : Queue.iter (fst (Queue.pop q i)) = Queue.iter q \/ exists it, Queue.iter q ≡ₚ it :: Queue.iter (fst (Queue.pop q i)).
Proof.
  unfold Queue.pop, Queue.iter. destruct (Queue.pop_slots_spec i (Queue.slots q)) as [_ Hp]. destruct (Queue.pop_slots i (Queue.slots q)) as [s r].
  cbn [fst snd Queue.slots] in *. destruct r as [it|]; [right; exists it; tauto | left; by destruct Hp as [-> _]].
Qed.
Lemma drop_iter q node : Queue.iter (fst (Queue.drop_node q node)) = List.filter (fun it => negb (Queue.node_addr it =? node)) (Queue.iter q).
Proof.
  unfold Queue.drop_node, Queue.iter. destruct (Queue.take_slots_spec (fun it => Queue.node_addr it =? node) (Queue.slots q)) as (_ & _ & H).
  destruct (Queue.take_slots _ _) as [s r]. exact H.
Qed.
Lemma expire_iter q now : Queue.iter (fst (Queue.expire q now)) = List.filter (fun it => negb (Queue.expired it now)) (Queue.iter q) /\
  snd (Queue.expire q now) = map (fun it => (Queue.id it, Queue.node_addr it)) (List.filter (fun it => Queue.expired it now) (Queue.iter q)).
Proof.
  unfold Queue.expire, Queue.iter. destruct (Queue.take_slots_spec (fun it => Queue.expired it now) (Queue.slots q)) as (_ & H1 & H2).
  destruct (Queue.take_slots _ _) as [s r]. cbn [fst snd Queue.slots] in *. split; [exact H2 | by rewrite H1].
Qed.
Lemma count_perm q q' node : Queue.iter q' ≡ₚ Queue.iter q -> Queue.count_for q' node = Queue.count_for q node.
Proof. intros H. unfold Queue.count_for. by apply Queue.zlen_Permutation, Queue.Permutation_filter_bool. Qed.
Lemma queued_cons q q' it node : Queue.iter q' ≡ₚ it :: Queue.iter q ->
  Queue.count_for q' node = (if Queue.node_addr it =? node then 1 else 0) + Queue.count_for q node.
Proof.
  intros H. unfold Queue.count_for. apply (Queue.Permutation_filter_bool (fun it => Queue.node_addr it =? node)), Queue.zlen_Permutation in H.
  rewrite H. cbn [List.filter]. destruct (Queue.node_addr it =? node); [by rewrite zlen_cons | done].
Qed.
Lemma count_none q node : Queue.count_for q node = 0 <-> ~ In node (map Queue.node_addr (Queue.iter q)).
Proof.
  unfold Queue.count_for. split.
  - intros H Hin. apply in_map_iff in Hin as (it & <- & Hin). assert (Hf : In it (List.filter (fun x => Queue.node_addr x =? Queue.node_addr it) (Queue.iter q))) by (apply List.filter_In; split; [done | lia]).
    destruct (List.filter _ _); [done|]. rewrite zlen_cons in H. pose proof (zlen_nonneg l). lia.
  - intros H. destruct (List.filter _ _) as [|it l] eqn:E; [done|]. exfalso. assert (Hin : In it (it :: l)) by (by left). rewrite <- E in Hin.
    apply List.filter_In in Hin as [Hin Ha]. apply H, in_map_iff. exists it. split; [lia | done].
Qed.

Lemma NoDup_inj {A B} (f : A -> B) l x y : NoDup (map f l) -> In x l -> In y l -> f x = f y -> x = y.
Proof.
  induction l as [|z l IH]; [by intros _ []|]. cbn [map]. intros [Hni Hnd]%list.NoDup_cons Hx Hy E. rewrite list_elem_of_In in Hni.
  destruct Hx as [->|Hx], Hy as [->|Hy]; [done | | | by apply IH]; exfalso; apply Hni, in_map_iff; [by exists y | by exists x].
Qed.
(** The pool: four slots, ids distinct, the next one in range. *)
Record pool (q : Queue.Queue) : Prop := {
  pl_slots : zlen (Queue.slots q) = QUEUE_CAP;
  pl_ids : NoDup (map Queue.id (Queue.iter q));
  pl_range : Forall (fun it => Queue.id_ok (Queue.id it)) (Queue.iter q);
  pl_next : Queue.id_ok (Queue.next_id q);
}.
Lemma pool_new : pool Queue.new.
Proof. split; [done | apply list.NoDup_nil; exact I | constructor | done]. Qed.
Lemma pool_push q node ttl d now : pool q -> pool (fst (Queue.push q node ttl d now)).
Proof.
  intros [H1 H2 H3 H4]. unfold Queue.push. do 2 (split_if; [done|]). destruct (Queue.first_free _) as [slot|] eqn:E; [|done]. cbn [fst].
  pose proof (Queue.items_length_le (Queue.slots q)) as Hle. unfold QUEUE_CAP in *.
  destruct (Queue.free_id_fresh (Queue.iter q) (Queue.next_id q) 5 H4) as [Hf Hok]; [unfold Queue.iter, zlen in *; lia | unfold Queue.iter, zlen in *; lia|].
  change (Z.to_nat 4 + 1)%nat with 5%nat. set (i := Queue.free_id 5 _ _) in *. clearbody i.
  match goal with |- context [<[slot := Some ?x]> _] => pose proof (Queue.first_free_Some _ _ x E) as Hp end.
  split; cbn [Queue.slots Queue.next_id]; unfold Queue.iter; cbn [Queue.slots].
  - unfold zlen in *. by rewrite length_insert.
  - rewrite Hp. cbn [map Queue.id]. apply list.NoDup_cons. by rewrite list_elem_of_In.
  - rewrite Hp. by constructor.
  - by apply Queue.id_succ_ok.
Qed.
Lemma pool_filter q q' p : Queue.iter q' = List.filter p (Queue.iter q) -> zlen (Queue.slots q') = zlen (Queue.slots q) ->
  Queue.next_id q' = Queue.next_id q -> pool q -> pool q'.
Proof.
  intros Hi Hs Hn [H1 H2 H3 H4]. split; [congruence | | | congruence]; rewrite Hi; [by apply Queue.NoDup_filter_map | by apply Queue.Forall_filter].
Qed.
Lemma pop_spec q it : pool q -> In it (Queue.iter q) ->
  pool (fst (Queue.pop q (Queue.id it))) /\ Queue.iter q ≡ₚ it :: Queue.iter (fst (Queue.pop q (Queue.id it))).
Proof.
  intros [H1 H2 H3 H4] Hin. unfold Queue.pop, Queue.iter in *. destruct (Queue.pop_slots_spec (Queue.id it) (Queue.slots q)) as [Hl Hp].
  destruct (Queue.pop_slots (Queue.id it) (Queue.slots q)) as [s r]. cbn [fst snd Queue.slots] in *.
  destruct r as [it'|]; [|destruct Hp as [_ Hp]; by destruct (Hp it Hin)]. destruct Hp as [Hi Hp].
  assert (it' = it) as ->. { apply (NoDup_inj Queue.id _ _ _ H2); [rewrite Hp; by left | done | done]. }
  split; [|done]. rewrite Hp in H2, H3. cbn [map] in H2. apply list.NoDup_cons in H2 as [_ H2]. inversion H3; subst.
  split; cbn [Queue.slots Queue.next_id]; unfold Queue.iter; cbn [Queue.slots]; try done. unfold zlen in *. by rewrite Hl.
Qed.
Lemma take_pool q p : let '(s, _) := Queue.take_slots p (Queue.slots q) in
  zlen s = zlen (Queue.slots q) /\ Queue.flatten s = List.filter (fun it => negb (p it)) (Queue.iter q).
Proof.
  destruct (Queue.take_slots_spec p (Queue.slots q)) as (Hl & _ & H2). destruct (Queue.take_slots _ _) as [s r]. cbn [fst snd] in *.
  split; [unfold zlen; by rewrite Hl | exact H2].
Qed.
Lemma drop_pool q node : pool q -> pool (fst (Queue.drop_node q node)).
Proof.
  pose proof (take_pool q (fun it => Queue.node_addr it =? node)) as H. unfold Queue.drop_node. destruct (Queue.take_slots _ _) as [s r].
  destruct H as [H1 H2]. by apply (pool_filter q {| Queue.slots := s; Queue.next_id := Queue.next_id q; Queue.next_order := Queue.next_order q |} _ H2).
Qed.
Lemma expire_pool q now : pool q -> pool (fst (Queue.expire q now)).
Proof.
  pose proof (take_pool q (fun it => Queue.expired it now)) as H. unfold Queue.expire. destruct (Queue.take_slots _ _) as [s r].
  destruct H as [H1 H2]. by apply (pool_filter q {| Queue.slots := s; Queue.next_id := Queue.next_id q; Queue.next_order := Queue.next_order q |} _ H2).
Qed.
Lemma peek_In q node now it : Queue.peek_for q node now = Some it ->
  In it (Queue.iter q) /\ Queue.node_addr it = node /\ Queue.expired it now = false.
Proof.
  unfold Queue.peek_for. intros H. assert (Hin : In it (List.filter (fun it => (Queue.node_addr it =? node) && negb (Queue.expired it now)) (Queue.iter q))).
  { revert H. generalize (List.filter (fun it => (Queue.node_addr it =? node) && negb (Queue.expired it now)) (Queue.iter q)) as l. unfold Queue.min_by_order.
    assert (Hg : forall l acc, fold_left (fun acc it => match acc with None => Some it | Some m => if Queue.order it <? Queue.order m then Some it else Some m end) l acc = Some it ->
      acc = Some it \/ In it l).
    { induction l as [|x l IH]; intros acc; cbn [fold_left]; [by left|]. intros Hf. apply IH in Hf as [Hf|]; [|right; by right].
      destruct acc as [m|]; [destruct (_ <? _)|]; try (by left); injection Hf as ->; right; by left. }
    intros l Hf. by apply Hg in Hf as [|]. }
  apply List.filter_In in Hin as [Hin Hb]. apply andb_true_iff in Hb as [Hb1 Hb2]. apply negb_true_iff in Hb2. split; [done|]. split; [lia | done].
Qed.

(** ** Peers by address *)

Definition look {W} (n : Net W) (a : Z) : option Peer := option_map snd (peer_at n a).
Lemma look_live {W} (n : Net W) a p : TableInv n -> look n a = Some p <-> In p (live (peers n)) /\ p_addr p = a.
Proof.
  intros [_ Hnd _ _]. unfold look. split.
  - destruct (peer_at n a) as [[i p']|] eqn:E; [|done]. intros [= ->]. apply peer_at_Some in E as (_ & Hp & Ha).
    split; [|done]. apply live_In. by exists i.
  - intros [Hin Ha]. destruct (peer_at n a) as [[i p']|] eqn:E.
    + apply peer_at_Some in E as (_ & Hp & Ha'). simpl. f_equal. assert (Hin' : In p' (live (peers n))) by (apply live_In; by exists i).
      apply (NoDup_inj p_addr (live (peers n))); [done | done | done | congruence].
    + apply peer_none in E. exfalso. apply E, in_map_iff. by exists p.
Qed.
Lemma look_some {W} (n : Net W) a : look n a <> None <-> peer_at n a <> None.
Proof. unfold look. by destruct (peer_at n a). Qed.
Lemma look_In {W} (n : Net W) a : look n a <> None <-> In a (map p_addr (live (peers n))).
Proof.
  rewrite look_some, peer_none. destruct (in_dec Z.eq_dec a (map p_addr (live (peers n)))); tauto.
Qed.
Lemma option_ext {A} (x y : option A) : (forall a, x = Some a <-> y = Some a) -> x = y.
Proof. intros H. destruct x as [a|]; [symmetry; by apply H|]. destruct y as [a|]; [by apply H | done]. Qed.

Section Look.
Context {W : Type} `{NS : !NetStore W} `{AS : !AppStore W} `{AL : !AppStoreLaws W} `{Haes : !AesBlock}.
#[local] Abbreviation net := (Net W).
(** The table after a change at the address [a], where it now has [o]. *)
Record changed (n n' : net) (a : Z) (o : option Peer) : Prop := {
  cg_table : TableInv n';
  cg_at : look n' a = o;
  cg_else : forall b, b <> a -> look n' b = look n b;
  cg_addr : addr n' = addr n;
  cg_lane : default_lane_enabled n' = default_lane_enabled n;
  cg_store : app_same (kv n) (kv n');
}.
Lemma exchange_changed (n n' : net) a old o : TableInv n -> TableInv n' -> seat o ++ live (peers n) ≡ₚ seat old ++ live (peers n') ->
  addr n' = addr n -> default_lane_enabled n' = default_lane_enabled n -> app_same (kv n) (kv n') ->
  (forall p, old = Some p -> look n a = Some p) -> (forall p, o = Some p -> p_addr p = a) -> (o = None -> old <> None) ->
  changed n n' a o.
Proof.
  intros HT HT' Hp H3 H4 H5 Hold Hnew Hne. split; [done | | |done..].
  - destruct o as [p|]; cbn [seat app] in *.
    + apply look_live; [done|]. split; [|by apply Hnew]. assert (Hi : In p (seat old ++ live (peers n'))) by (rewrite <- Hp; by left).
      apply in_app_iff in Hi as [Hi|Hi]; [|done]. destruct old as [q|]; [|done]. destruct Hi as [->|[]]. cbn [app seat] in Hp.
      apply Permutation_cons_inv in Hp. rewrite <- Hp. by apply (proj1 (look_live n a _ HT) (Hold _ eq_refl)).
    + destruct (look n' a) as [p|] eqn:E; [|done]. exfalso. apply (look_live _ _ _ HT') in E as [Hin Ha]. destruct old as [q|]; [|by apply Hne].
      pose proof (ti_addrs _ HT) as Hnd. cbn [seat app] in Hp. rewrite Hp in Hnd. cbn [map] in Hnd. apply list.NoDup_cons in Hnd as [Hni _].
      rewrite list_elem_of_In in Hni. destruct (proj1 (look_live _ _ _ HT) (Hold q eq_refl)) as [_ Hq]. apply Hni, in_map_iff. exists p. by rewrite Hq.
  - intros b Hb. apply option_ext. intros p. rewrite !look_live by done. split; intros [Hin Ha]; (split; [|done]).
    + assert (Hi : In p (seat o ++ live (peers n))) by (rewrite Hp; apply in_app_iff; by right). apply in_app_iff in Hi as [Hi|Hi]; [|done].
      exfalso. apply Hb. rewrite <- Ha. apply Hnew. destruct o; [|done]. by destruct Hi as [->|[]].
    + assert (Hi : In p (seat old ++ live (peers n'))) by (rewrite <- Hp; apply in_app_iff; by right). apply in_app_iff in Hi as [Hi|Hi]; [|done].
      exfalso. apply Hb. rewrite <- Ha. destruct old as [q|]; [|done]. destruct Hi as [->|[]]. by apply (proj1 (look_live n a _ HT) (Hold _ eq_refl)).
Qed.
Lemma look_still (n n' : net) a : still n n' -> TableInv n ->
  match look n a with Some p => exists p', look n' a = Some p' /\ row p' = row p | None => look n' a = None end.
Proof.
  intros Hs HT. pose proof (rows_live _ _ (sl_rows _ _ Hs)) as Hr. pose proof (table_still _ _ Hs HT) as HT'.
  assert (Hm : map p_addr (live (peers n')) = map p_addr (live (peers n))) by (by apply (rows_map p_addr (fun r => fst (fst (fst r))))).
  destruct (look n a) as [p|] eqn:E.
  - apply (look_live _ _ _ HT) in E as [Hin Ha]. assert (Hi : In (row p) (map row (live (peers n')))) by (rewrite Hr; by apply in_map).
    apply in_map_iff in Hi as (p' & Er & Hin'). exists p'. split; [|done]. apply look_live; [done|]. split; [done|].
    unfold row in Er. congruence.
  - destruct (look n' a) eqn:E'; [|done]. exfalso. assert (H : look n' a <> None) by (by rewrite E'). rewrite look_In, Hm, <- look_In in H. done.
Qed.

Lemma peer_look (n : net) a i p : peer_at n a = Some (i, p) -> look n a = Some p /\ peers n !! i = Some (Some p) /\ p_addr p = a.
Proof. intros E. unfold look. rewrite E. apply peer_at_Some in E. simpl. tauto. Qed.
(** The slot of [a], or a free one, taken by [p']. *)
Lemma put_changed (n : net) a i o p' lane w : TableInv n -> peers n !! i = Some o -> p_addr p' = a -> app_same (kv n) w ->
  match o with
  | Some p => look n a = Some p /\ p_local p' = p_local p
  | None => look n a = None /\ ~ In (p_local p') (map p_local (live (peers n))) /\
      KEY_LASTSEEN_BASE <= p_local p' < KEY_LASTSEEN_BASE + MAX_PEERS
  end ->
  changed n (set_rx n (<[i := Some p']> (peers n)) lane w) a (Some p').
Proof.
  intros HT Hi Ha Hw Ho. destruct (table_put n (set_rx n (<[i := Some p']> (peers n)) lane w) i o p' eq_refl Hi HT) as [HT' Hp].
  { destruct o as [p|]; [destruct Ho as [Hl ?]; apply (look_live n a) in Hl as [_ Hl]; [by split; [congruence|] | done]|].
    destruct Ho as [Hl Ho]. split; [|done]. rewrite Ha, <- look_In. rewrite Hl. intros H. by apply H. }
  apply (exchange_changed n _ a o (Some p') HT HT' Hp eq_refl eq_refl Hw); [|by intros p [= <-] | done].
  intros p ->. by destruct Ho.
Qed.
Lemma pending_changed (n : net) a b : TableInv n ->
  match look n a with
  | None => fst (set_pending n a b) = n
  | Some p => exists p', p_key p' = p_key p /\ p_pending p' = b /\ changed n (fst (set_pending n a b)) a (Some p')
  end.
Proof.
  intros HT. unfold set_pending. destruct (peer_at n a) as [[i p]|] eqn:E; [|unfold look; rewrite E; done].
  destruct (peer_look _ _ _ _ E) as (Hl & Hi & Ha). rewrite Hl. cbn [fst]. eexists. split; [|split; [|apply (put_changed n a i (Some p) _ _ _ HT Hi); [exact Ha | done | split; [exact Hl | done]]]]; done.
Qed.
Lemma raise_changed (n : net) a s : TableInv n ->
  match look n a with
  | None => fst (raise_peer_floor n a s) = n
  | Some p => exists p', row p' = row p /\ changed n (fst (raise_peer_floor n a s)) a (Some p')
  end.
Proof.
  intros HT. unfold raise_peer_floor. destruct (peer_at n a) as [[i p]|] eqn:E; [|unfold look; rewrite E; done].
  destruct (peer_look _ _ _ _ E) as (Hl & Hi & Ha). rewrite Hl. destruct (raise (p_lane p) s) as [l moved]. exists (with_lane p l). split; [done|]. cbn [fst].
  apply (put_changed n a i (Some p) _ _ _ HT Hi); [exact Ha | |by split]. intros k cap. destruct moved; [apply net_set_app | done].
Qed.
Lemma remove_changed (n : net) a : TableInv n -> changed n (fst (remove_peer n a)) a None.
Proof.
  intros HT. unfold remove_peer. destruct (peer_at n a) as [[i p]|] eqn:E; [|cbn [fst]; split; try done; unfold look; by rewrite E].
  destruct (peer_look _ _ _ _ E) as (Hk & Hi & Ha).
  pose proof (live_insert (peers n) i (Some p) None Hi) as Hl. cbn [seat app] in Hl. pose proof HT as [T1 T2 T3 T4].
  rewrite Hl in T2, T3, T4. cbn [map] in T2, T3. apply list.NoDup_cons in T2 as [_ T2], T3 as [_ T3]. inversion T4; subst.
  eapply (exchange_changed n _ (p_addr p) (Some p) None HT); [| |done..| | |done].
  - split; simpl; [unfold zlen in *; by rewrite length_insert | done | done | done].
  - exact Hl.
  - by intros q [= <-].
  - done.
Qed.
Lemma add_changed (n : net) a key : TableInv n -> peer_addr_valid a (addr n) = true -> (look n a <> None \/ zlen (live (peers n)) < MAX_PEERS) ->
  exists p', changed n (fst (add_peer n a key)) a (Some p') /\ p_key p' = key /\
    p_pending p' = match look n a with Some p => p_pending p | None => false end.
Proof.
  intros HT Hv Hroom. unfold add_peer. rewrite Hv. cbn [negb]. cbv zeta. destruct (peer_at n a) as [[i p]|] eqn:E.
  - destruct (peer_look _ _ _ _ E) as (Hl & Hi & Ha). rewrite Hl. cbn [fst]. eexists. split; [apply (put_changed n a i (Some p) _ _ _ HT Hi); [exact Ha | |split; [exact Hl | done]] | done].
    intros k cap. destruct (negb _); [apply net_set_app | done].
  - assert (Hn : look n a = None) by (by unfold look; rewrite E). destruct Hroom as [?|Hroom]; [done|].
    destruct (first_empty (peers n)) as [slot|] eqn:Ef; [|by destruct (room_slot n HT Hroom)].
    assert (Hlr : length (lane_records (kv n)) = 16%nat) by (unfold lane_records; by rewrite length_map, length_seq).
    destruct (assign_lane a (key_check key) (lane_records (kv n)) (used_locals (peers n))) as [b|] eqn:Eb;
      [|destruct (room_lane n a (key_check key) (lane_records (kv n)) HT Hroom); [exact Hlr | exact Eb]].
    pose proof (assign_lane_spec a (key_check key) (lane_records (kv n)) (used_locals (peers n))) as Hs. rewrite Eb in Hs. destruct Hs as (Hb1 & Hb2 & _).
    assert (Hslot : peers n !! slot = Some None).
    { unfold first_empty in Ef. destruct (list_find _ _) as [[j y]|] eqn:El; [|done]. injection Ef as ->. apply list_find_Some in El as (? & -> & _). done. }
    rewrite Hn. cbn [fst]. eexists. split; [apply (put_changed n a slot None _ _ _ HT Hslot); [done | |] | done].
    + intros k cap. destruct (b_fresh b); [apply net_set_app | done].
    + split; [done|]. cbn [p_local]. split; [by apply lane_unused|]. unfold KEY_LASTSEEN_BASE, MAX_PEERS. lia.
Qed.
End Look.
