(* ===== verification/DongleThm.v ===== *)
(** What the gateway's main loop (Dongle) keeps: whatever is asked and heard, the peer table is the registry,
    queued items belong to registered nodes and the pending flags follow the queue. Each handler and each
    step of a turn is first shown to be a path of a few kinds of changes. *)
From Stdlib Require Import Sorting.Permutation.
From S2P Require Import Prelude Bytes Str GwRegistry GwQueue Proto Cobs Fingerprint Msg Frame Mgmt NetTxctr NetReplay NetWire NetPairing NetHandshake.
From S2P Require Import Radio Ccm RadioFrame NetCore NetAir Bulk NetPair NetLink Fhss Dongle DongleCore.
#[local] Abbreviation NodeRecord := GwRegistry.NodeRecord.

(** ** The tables together *)

Definition known (L : list NodeRecord) (a : Z) : option NodeRecord := List.find (fun r => GwRegistry.addr r =? a) L.
Lemma filter_other {A} (f g : A -> bool) l : (forall x, In x l -> f x = true -> g x = true) -> List.filter f (List.filter g l) = List.filter f l.
Proof.
  intros H. induction l as [|x l IH]; [done|]. cbn [List.filter]. destruct (g x) eqn:Eg; cbn [List.filter]; destruct (f x) eqn:Ef; rewrite ?IH; try done; try (intros y Hy; apply H; by right).
  by rewrite (H x (or_introl eq_refl) Ef) in Eg.
Qed.
Section Core.
Context {W : Type} `{NS : !NetStore W} `{AS : !AppStore W} `{AL : !AppStoreLaws W} `{Haes : !AesBlock}.
#[local] Abbreviation net := (Net W).
#[local] Abbreviation changes := Registry.changes.

(** The peers are the registered nodes, with their keys; the pending flags are right but for the nodes in
    [X]; what is queued belongs to a registered node. *)
Record CoreX (X : list Z) (n : net) (L : list NodeRecord) (q : Queue.Queue) : Prop := {
  co_table : TableInv n;
  co_lane : default_lane_enabled n = false;
  co_reg : NoDup (map GwRegistry.addr L);
  co_cap : zlen L <= CAPACITY;
  co_mirror : forall a, option_map p_key (look n a) = option_map GwRegistry.key (known L a);
  co_pending : forall a p, look n a = Some p -> ~ In a X -> p_pending p = (0 <? Queue.count_for q a);
  co_items : forall it, In it (Queue.iter q) -> look n (Queue.node_addr it) <> None;
  co_pool : pool q;
}.
#[local] Abbreviation Core := (CoreX []).

Lemma core_known X n L q a : CoreX X n L q -> look n a = None <-> known L a = None.
Proof. intros H. pose proof (co_mirror _ _ _ _ H a) as Hm. by destruct (look n a), (known L a). Qed.
Lemma core_size X n L q : CoreX X n L q -> zlen (live (peers n)) = zlen L.
Proof.
  intros H. assert (Hp : map p_addr (live (peers n)) ≡ₚ map GwRegistry.addr L).
  { apply NoDup_Permutation; [apply (ti_addrs _ (co_table _ _ _ _ H)) | apply (co_reg _ _ _ _ H)|]. intros a. rewrite !list_elem_of_In, <- look_In.
    pose proof (core_known _ _ _ _ a H) as Hk. pose proof (Registry.find_absent L a) as Hf. unfold known in Hk.
    destruct (in_dec Z.eq_dec a (map GwRegistry.addr L)); tauto. }
  apply Permutation_length in Hp. rewrite !length_map in Hp. unfold zlen. by rewrite Hp.
Qed.
Lemma core_still X n n' L q : still n n' -> CoreX X n L q -> CoreX X n' L q.
Proof.
  intros Hs [H1 H2 H3 H4 H5 H6 H7 H8]. assert (Hl : forall a, match look n a with Some p => exists p', look n' a = Some p' /\ row p' = row p | None => look n' a = None end)
    by (intros; by apply look_still).
  split; [by eapply table_still | by rewrite (sl_lane _ _ Hs) | done | done | | | | done].
  - intros a. rewrite <- H5. specialize (Hl a). destruct (look n a) as [p|]; [|by rewrite Hl]. destruct Hl as (p' & -> & E). simpl. unfold row in E. congruence.
  - intros a p' Hp Hx. specialize (Hl a). destruct (look n a) as [p|] eqn:E; [|congruence]. destruct Hl as (p2 & E2 & Er). assert (p2 = p') as -> by congruence.
    rewrite <- (H6 a p E Hx). unfold row in Er. congruence.
  - intros it Hin. specialize (Hl (Queue.node_addr it)). specialize (H7 it Hin). destruct (look n _); [|done]. by destruct Hl as (? & -> & _).
Qed.
(** A change at one address. *)
Lemma core_change X n n' L L' q a o : CoreX X n L q -> changed n n' a o -> NoDup (map GwRegistry.addr L') -> zlen L' <= CAPACITY ->
  (forall b, b <> a -> known L' b = known L b) -> option_map p_key o = option_map GwRegistry.key (known L' a) ->
  (forall p, o = Some p -> ~ In a X -> p_pending p = (0 <? Queue.count_for q a)) ->
  (o = None -> forall it, In it (Queue.iter q) -> Queue.node_addr it <> a) -> CoreX X n' L' q.
Proof.
  intros [H1 H2 H3 H4 H5 H6 H7 H8] [C1 C2 C3 C4 C5 C6] Hnd Hc He Hm Hp Hi. split; [done | by rewrite C5 | done | done | | | | done].
  - intros b. destruct (Z.eq_dec b a) as [->|Hb]; [by rewrite C2 | by rewrite C3, He].
  - intros b p Hl Hx. destruct (Z.eq_dec b a) as [->|Hb]; [apply Hp; [congruence | done] | apply H6; [by rewrite <- C3 | done]].
  - intros it Hin. destruct (Z.eq_dec (Queue.node_addr it) a) as [E|Hb]; [|rewrite C3; by auto].
    rewrite E, C2. destruct o; [done|]. intros _. by apply (Hi eq_refl it Hin).
Qed.
Lemma core_count X n L q a : CoreX X n L q -> look n a = None -> Queue.count_for q a = 0.
Proof.
  intros H Hn. apply count_none. intros Hin. apply in_map_iff in Hin as (it & <- & Hin). by apply (co_items _ _ _ _ H it).
Qed.
Lemma core_add n L L' q rec : Core n L q -> changes (Registry.Add rec) L L' -> peer_addr_valid (GwRegistry.addr rec) (addr n) = true ->
  Core (fst (add_peer n (GwRegistry.addr rec) (GwRegistry.key rec))) L' q.
Proof.
  intros HC Hc Hv. pose proof (Registry.changes_spec _ _ _ Hc (co_reg _ _ _ _ HC) (co_cap _ _ _ _ HC)) as (N1 & N2 & N3 & N4). cbn [Registry.target Registry.after] in N3, N4.
  destruct (add_changed n (GwRegistry.addr rec) (GwRegistry.key rec) (co_table _ _ _ _ HC) Hv) as (p' & Hch & Hk & Hp).
  { destruct (look n (GwRegistry.addr rec)) eqn:E; [by left | right]. rewrite (core_size _ _ _ _ HC). destruct Hc as [Hed|(_ & Hlt & _)]; [|exact Hlt].
    exfalso. apply (core_known _ _ _ _ _ HC) in E. apply Registry.find_absent in E. apply E. destruct Hed as (r & l0 & Ha & Hl & _).
    apply in_map_iff. exists r. split; [done|]. rewrite Hl. by left. }
  eapply core_change; [exact HC | exact Hch | done | done | exact N4 | | | done].
  - unfold known. rewrite N3. simpl. congruence.
  - intros p [= <-] _. rewrite Hp. destruct (look n (GwRegistry.addr rec)) as [p0|] eqn:E; [apply (co_pending _ _ _ _ HC); [done | by intros []]|].
    by rewrite (core_count _ _ _ _ _ HC E).
Qed.
Lemma core_floor X n L q a s : CoreX X n L q -> CoreX X (fst (raise_peer_floor n a s)) L q.
Proof.
  intros HC. pose proof (raise_changed n a s (co_table _ _ _ _ HC)) as Hr. destruct (look n a) as [p|] eqn:E; [|by rewrite Hr].
  destruct Hr as (p' & Er & Hch). unfold row in Er. eapply core_change; [exact HC | exact Hch | apply HC | apply HC | done | | | done].
  - rewrite <- (co_mirror _ _ _ _ HC), E. simpl. congruence.
  - intros p2 [= <-] Hx. rewrite <- (co_pending _ _ _ _ HC a p E Hx). congruence.
Qed.
Lemma core_queue X Y n L q q' : CoreX X n L q -> (forall it, In it (Queue.iter q') -> look n (Queue.node_addr it) <> None) ->
  (forall a, ~ In a Y -> ~ In a X /\ Queue.count_for q' a = Queue.count_for q a) -> pool q' -> CoreX Y n L q'.
Proof.
  intros [H1 H2 H3 H4 H5 H6 H7 H8] Hi Hc Hs. split; try done. intros a p Hl Hx. destruct (Hc a Hx) as [Hx' ->]. by apply H6.
Qed.
Lemma core_pending n L q X a : CoreX (a :: X) n L q -> CoreX X (fst (set_pending n a (0 <? Queue.count_for q a))) L q.
Proof.
  intros HC. pose proof (pending_changed n a (0 <? Queue.count_for q a) (co_table _ _ _ _ HC)) as Hp. destruct (look n a) as [p|] eqn:E.
  - destruct Hp as (p' & Hk & Hb & Hch). assert (HC2 : CoreX (a :: X) (fst (set_pending n a (0 <? Queue.count_for q a))) L q).
    { eapply core_change; [exact HC | exact Hch | apply HC | apply HC | done | rewrite <- (co_mirror _ _ _ _ HC), E; simpl; congruence | | done].
      intros p2 _ Hx. exfalso. apply Hx. by left. }
    destruct HC2 as [H1 H2 H3 H4 H5 H6 H7 H8]. split; try done. intros b p2 Hl Hx. destruct (Z.eq_dec a b) as [<-|Hb2].
    + rewrite (cg_at _ _ _ _ Hch) in Hl. congruence.
    + apply H6; [done|]. intros [?|?]; done.
  - rewrite Hp. destruct HC as [H1 H2 H3 H4 H5 H6 H7 H8]. split; try done. intros b p2 Hl Hx. apply H6; [done|]. intros [<-|?]; [congruence | done].
Qed.
Lemma core_refresh ns : forall n L q X, CoreX (ns ++ X) n L q -> CoreX X (fold_left (fun n a => fst (set_pending n a (0 <? Queue.count_for q a))) ns n) L q.
Proof. induction ns as [|a ns IH]; intros n L q X HC; [done|]. cbn [fold_left]. by apply IH, core_pending. Qed.
Lemma core_remove n L L' q a : Core n L q -> changes (Registry.Remove a) L L' -> Core (fst (remove_peer n a)) L' (fst (Queue.drop_node q a)).
Proof.
  intros HC Hc. pose proof (Registry.changes_spec _ _ _ Hc (co_reg _ _ _ _ HC) (co_cap _ _ _ _ HC)) as (N1 & N2 & N3 & N4). cbn [Registry.target Registry.after] in N3, N4.
  pose proof (drop_iter q a) as Hd. set (q' := fst (Queue.drop_node q a)) in *.
  assert (Hin : forall it, In it (Queue.iter q') -> In it (Queue.iter q) /\ Queue.node_addr it <> a).
  { intros it. rewrite Hd, List.filter_In. intros [? Hb]. split; [done|]. apply negb_true_iff in Hb. lia. }
  assert (HC1 : CoreX [a] n L q').
  { eapply core_queue; [exact HC | intros it Hi; apply HC, Hin, Hi | |].
    - intros b Hb. split; [by intros []|]. unfold Queue.count_for. rewrite Hd, filter_other; [done|]. intros it Hit Hi. apply negb_true_iff, Z.eqb_neq. intros E. apply Hb. left. lia.
    - by apply drop_pool, HC. }
  pose proof (remove_changed n a (co_table _ _ _ _ HC)) as Hch.
  assert (HC2 : CoreX [a] (fst (remove_peer n a)) L' q').
  { eapply core_change; [exact HC1 | exact Hch | done | done | exact N4 | unfold known; by rewrite N3 | done | intros _ it Hi; by apply Hin]. }
  destruct HC2 as [H1 H2 H3 H4 H5 H6 H7 H8]. split; try done. intros b p Hl _. apply H6; [done|]. intros [<-|[]]. by rewrite (cg_at _ _ _ _ Hch) in Hl.
Qed.
Lemma core_update X n L L' q a nm fl : CoreX X n L q -> changes (Registry.Update a nm fl) L L' -> CoreX X n L' q.
Proof.
  intros HC Hc. pose proof (Registry.changes_spec _ _ _ Hc (co_reg _ _ _ _ HC) (co_cap _ _ _ _ HC)) as (N1 & N2 & N3 & N4). cbn [Registry.target Registry.after] in N3, N4.
  destruct HC as [H1 H2 H3 H4 H5 H6 H7 H8]. split; try done. intros b. rewrite H5. destruct (Z.eq_dec b a) as [->|Hb]; [|unfold known; by rewrite N4].
  unfold known in *. rewrite N3. destruct (List.find _ L) as [r|]; [|done]. simpl. by destruct nm, fl.
Qed.
Lemma core_push n L q node ttl d now q' i : Core n L q -> known L node <> None -> Queue.push q node ttl d now = (q', Ok i) ->
  Core (fst (set_pending n node true)) L q'.
Proof.
  intros HC Hk Hp. destruct (push_iter _ _ _ _ _ _ _ Hp) as (it & Hn & Hi).
  assert (Hc : 0 < Queue.count_for q' node).
  { rewrite (queued_cons q q' it node Hi), Hn, Z.eqb_refl. unfold Queue.count_for. pose proof (zlen_nonneg (List.filter (fun it => Queue.node_addr it =? node) (Queue.iter q))). lia. }
  rewrite <- (proj2 (Z.ltb_lt 0 (Queue.count_for q' node)) Hc). apply core_pending. eapply core_queue; [exact HC | | |].
  - intros it' Hin. rewrite Hi in Hin. destruct Hin as [<-|Hin]; [|by apply HC]. rewrite Hn. by rewrite (core_known _ _ _ _ _ HC).
  - intros b Hb. split; [by intros []|]. rewrite (queued_cons q q' it b Hi), Hn. destruct (Z.eqb_spec node b) as [->|]; [|done]. exfalso. apply Hb. by left.
  - pose proof (pool_push q node ttl d now (co_pool _ _ _ _ HC)) as H. by rewrite Hp in H.
Qed.
End Core.

(** ** The changes of a turn *)

Definition record_ok (r : NodeRecord) : Prop :=
  0 <= GwRegistry.addr r <= u32_max /\ zlen (GwRegistry.key r) = 16 /\ bytes_ok (GwRegistry.key r) /\
  byte_ok (GwRegistry.flags r) /\ utf8 (GwRegistry.name r).
Lemma nodes_ext {S} `{!BucketIo S, !GwRegistry.Postcard} (s s' : S) : (forall i, 0 <= i < BUCKETS -> io_load s' i = io_load s i) -> Registry.nodes s' = Registry.nodes s.
Proof. intros He. unfold Registry.nodes, Registry.load, Registry.load_checked. unfold BUCKETS in He. by rewrite !He by lia. Qed.
(** What every store keeps, a registry operation keeps. *)
Lemma ops_keep {S} `{!BucketIo S, !GwRegistry.Postcard} (Q : S -> Prop) o s :
  (forall s i d, Q s -> Q (fst (io_store s i d))) -> Q s -> Q (fst (Registry.run o s)).
Proof.
  intros Hs HQ. assert (Hst : forall i b s', Q s' -> Q (fst (Registry.store i b s'))).
  { intros i b s2 Hq. unfold Registry.store. destruct (GwRegistry.to_slice b) as [d|]; [|done]. specialize (Hs s2 i d Hq). by destruct (io_store s2 i d). }
  assert (Hin : forall rec is_ u s', Q s' -> Q (fst (Registry.insert_in rec u is_ s'))).
  { intros rec is_. induction is_ as [|i is_ IH]; intros u s2 Hq; [done|]. cbn [Registry.insert_in]. unfold bind, get_state.
    destruct (Registry.load_checked s2 i); [|by apply IH]. split_if; [by apply Hst | by apply IH]. }
  assert (Hadd : forall rec, Q (fst (Registry.add rec s))).
  { intros rec. unfold Registry.add, bind, get_state. destruct (Registry.locate _ _ _) as [[i k]|]; [by apply Hst|]. split_if; [done | by apply Hin]. }
  destruct o as [rec|rec|a|a nm fl]; cbn [Registry.run]; [done | | |].
  - unfold Registry.add_new, bind, get_state. by destruct (Registry.find s (GwRegistry.addr rec)).
  - unfold Registry.remove, bind, get_state. destruct (Registry.locate _ _ _) as [[i k]|]; [by apply Hst | done].
  - unfold Registry.update. unfold bind at 1. cbn [get_state]. destruct (Registry.locate _ _ _) as [[i k]|]; [|done].
    unfold bind. destruct nm as [n|]; [split_if; [done|]|]; by apply Hst.
Qed.

Section Steps.
Context {W : Type} `{NS : !NetStore W} `{AS : !AppStore W} `{AL : !AppStoreLaws W} `{Haes : !AesBlock} `{PP : !PairPrims} `{PPL : !PairPrimLaws}.
Context `{CC : ConsoleCodec} `{MC : MgmtCodec} `{GP : !GwRegistry.Postcard} `{GPL : !GwRegistry.PostcardLaws record_ok}.
#[local] Abbreviation app := (App W).

Definition AppInv (a : app) : Prop := CoreX [] (a_net a) (Registry.nodes (buckets a)) (a_queue a).
Lemma buckets_same (a b : app) : app_same (kv (a_net a)) (kv (a_net b)) -> a_writable b = a_writable a -> Registry.nodes (buckets b) = Registry.nodes (buckets a).
Proof. intros Hs Hw. apply nodes_ext. intros i _. simpl. rewrite Hw. by destruct (negb _). Qed.
(** The same tables but for the store and the network's runtime. *)
Definition beside (a b : app) : Prop := a_queue b = a_queue a /\ a_writable b = a_writable a.

Inductive astep : bool -> app -> app -> Prop :=
| AQuiet a b : still (a_net a) (a_net b) -> beside a b -> astep true a b
| APut o rec a a1 b : o = Registry.Add rec \/ o = Registry.AddNew rec -> Registry.rop_ok record_ok o -> on_buckets (Registry.run o) a = (a1, Ok tt) ->
    peer_addr_valid (GwRegistry.addr rec) (addr (a_net a1)) = true -> a_net b = fst (add_peer (a_net a1) (GwRegistry.addr rec) (GwRegistry.key rec)) ->
    beside a1 b -> astep true a b
| AFloor node s a b : a_net b = fst (raise_peer_floor (a_net a) node s) -> beside a b -> astep true a b
| ARemove node a a1 b : on_buckets (Registry.run (Registry.Remove node)) a = (a1, Ok tt) -> a_net b = fst (remove_peer (a_net a1) node) ->
    a_queue b = fst (Queue.drop_node (a_queue a1) node) -> a_writable b = a_writable a1 -> astep true a b
| AUpdate node nm fl a b : Registry.rop_ok record_ok (Registry.Update node nm fl) -> on_buckets (Registry.run (Registry.Update node nm fl)) a = (b, Ok tt) -> astep true a b
| ARefused o e a b : Registry.rop_ok record_ok o -> on_buckets (Registry.run o) a = (b, Err e) -> e <> Storage -> astep true a b
| AFailed o a b : on_buckets (Registry.run o) a = (b, Err Storage) -> astep false a b
| APush node ttl d now i a b : known (Registry.nodes (buckets a)) node <> None -> Queue.push (a_queue a) node ttl d now = (a_queue b, Ok i) ->
    a_net b = fst (set_pending (a_net a) node true) -> a_writable b = a_writable a -> astep true a b
| ATrim ns a b : (forall it, In it (Queue.iter (a_queue b)) -> In it (Queue.iter (a_queue a))) ->
    (pool (a_queue a) -> forall x, ~ In x ns -> Queue.count_for (a_queue b) x = Queue.count_for (a_queue a) x) -> (pool (a_queue a) -> pool (a_queue b)) ->
    a_net b = fold_left (fun n x => fst (set_pending n x (0 <? Queue.count_for (a_queue b) x))) ns (a_net a) -> a_writable b = a_writable a -> astep true a b
| APop it a b : In it (Queue.iter (a_queue a)) -> a_queue b = fst (Queue.pop (a_queue a) (Queue.id it)) ->
    a_net b = fst (set_pending (a_net a) (Queue.node_addr it) (0 <? Queue.count_for (a_queue b) (Queue.node_addr it))) -> a_writable b = a_writable a -> astep true a b.

(** A registry operation on the shared store: the radio's tables stay. *)
Lemma on_buckets_spec o a a1 r : on_buckets (Registry.run o) a = (a1, r) -> Registry.RegInv (buckets a) -> Registry.rop_ok record_ok o ->
  Registry.outcome (buckets a) (buckets a1) r (Registry.changes o (Registry.nodes (buckets a))) (Registry.refusal o (buckets a)) /\
  peers (a_net a1) = peers (a_net a) /\ addr (a_net a1) = addr (a_net a) /\ default_lane_enabled (a_net a1) = default_lane_enabled (a_net a) /\ beside a a1.
Proof.
  unfold on_buckets. intros E HR Ho. pose proof (Registry.run_spec record_ok o (buckets a) HR Ho) as Hs.
  pose proof (ops_keep (fun b : EepromBuckets W => eb_writable b = a_writable a) o (buckets a)) as Hk.
  destruct (Registry.run o (buckets a)) as [b r']. injection E as <- <-. cbn [fst] in Hk. split; [|done].
  assert (Hb : buckets (set_net a (set_rx (a_net a) (peers (a_net a)) (default_lane (a_net a)) (eb_kv b))) = b); [|by rewrite Hb].
  unfold buckets. simpl. rewrite <- Hk; [by destruct b | | done]. intros [w wr] i d Hw. simpl in *. destruct wr; simpl; [by destruct (app_set _ _ _) | done].
Qed.
Lemma on_buckets_addr m (a a1 : app) r : on_buckets m a = (a1, r) -> addr (a_net a1) = addr (a_net a).
Proof. unfold on_buckets. destruct (m _). by intros [= <- _]. Qed.
Lemma inv_reg (a : app) : AppInv a -> Registry.RegInv (buckets a).
Proof. intros H. split; apply H. Qed.
Lemma core_moved X (n n' : Net W) L q : peers n' = peers n -> addr n' = addr n -> default_lane_enabled n' = default_lane_enabled n ->
  CoreX X n L q -> CoreX X n' L q.
Proof.
  intros Hp Ha Hl [H1 H2 H3 H4 H5 H6 H7 H8]. assert (Hk : forall b, look n' b = look n b) by (intros b; unfold look, peer_at, peer_slot; by rewrite Hp).
  split; try done; [destruct H1; split; by rewrite Hp | by rewrite Hl | | |]; intros; rewrite ?Hk in *; by auto.
Qed.
Lemma put_changes o rec L L' : o = Registry.Add rec \/ o = Registry.AddNew rec -> Registry.changes o L L' -> Registry.changes (Registry.Add rec) L L'.
Proof. intros [->| ->] H; [done | by destruct H]. Qed.

Lemma same_add n a key : app_same (kv n) (kv (fst (add_peer n a key : Net W * bool))) /\ default_lane_enabled (fst (add_peer n a key)) = default_lane_enabled n.
Proof.
  unfold add_peer. split_if; [done|]. cbv zeta. destruct (peer_at n a) as [[i p]|]; [|destruct (first_empty _); [|done]; destruct (assign_lane _ _ _ _) as [b|]; [|done]];
    (split; [intros k cap; simpl | done]); [destruct (negb _) | destruct (b_fresh b)]; try apply net_set_app; done.
Qed.
Lemma same_remove n a : app_same (kv n) (kv (fst (remove_peer n a : Net W * bool))).
Proof. unfold remove_peer. by destruct (peer_at n a) as [[i p]|]. Qed.
Lemma same_floor n a s : app_same (kv n) (kv (fst (raise_peer_floor n a s : Net W * bool))).
Proof. unfold raise_peer_floor. destruct (peer_at n a) as [[i p]|]; [|done]. destruct (raise _ _) as [l m]. intros k cap. simpl. destruct m; [apply net_set_app | done]. Qed.
Lemma same_pending n a b : app_same (kv n) (kv (fst (set_pending n a b : Net W * bool))).
Proof. unfold set_pending. by destruct (peer_at n a) as [[i p]|]. Qed.
Lemma same_refresh q ns : forall n : Net W, app_same (kv n) (kv (fold_left (fun n x => fst (set_pending n x (0 <? Queue.count_for q x))) ns n)).
Proof. induction ns as [|x ns IH]; intros n; [done|]. cbn [fold_left]. intros k cap. rewrite (IH _ k cap). apply same_pending. Qed.

Lemma astep_inv a b : astep true a b -> AppInv a -> AppInv b.
Proof.
  intros Hs HI. assert (Hn : forall x y : app, app_same (kv (a_net x)) (kv (a_net y)) -> a_writable y = a_writable x -> AppInv y <-> CoreX [] (a_net y) (Registry.nodes (buckets x)) (a_queue y)).
  { intros x y H1 H2. unfold AppInv. by rewrite (buckets_same x y H1 H2). }
  remember true as ok eqn:Eok. destruct Hs as [a b Hst [Hq Hw]|o rec a a1 b Ho Hok E Hv Eb [Hq Hw]|node s a b Eb [Hq Hw]|node a a1 b E Eb Hq Hw|node nm fl a b Hok E|o e a b Hok E He|o a b E|node ttl d now i a b Hk Hp Eb Hw|ns a b Hin Hc Hsl Eb Hw|it a b Hin Hq Eb Hw]; try done.
  - apply (Hn a b (sl_store _ _ Hst) Hw). rewrite Hq. by eapply core_still.
  - destruct (on_buckets_spec _ _ _ _ E (inv_reg a HI) Hok) as ([_ Hc] & P1 & P2 & P3 & [Q1 Q2]).
    apply (Hn a1 b); [rewrite Eb; apply same_add | done|]. rewrite Eb, Hq, Q1.
    apply (core_add _ (Registry.nodes (buckets a))); [by eapply core_moved | by eapply put_changes | done].
  - apply (Hn a b); [rewrite Eb; apply same_floor | done|]. rewrite Eb, Hq. by apply core_floor.
  - destruct (on_buckets_spec _ _ _ _ E (inv_reg a HI) I) as ([_ Hc] & P1 & P2 & P3 & [Q1 Q2]).
    apply (Hn a1 b); [rewrite Eb; apply same_remove | done|]. rewrite Eb, Hq, Q1.
    apply (core_remove _ (Registry.nodes (buckets a))); [by eapply core_moved | done].
  - destruct (on_buckets_spec _ _ _ _ E (inv_reg a HI) Hok) as ([_ Hc] & P1 & P2 & P3 & [Q1 Q2]).
    unfold AppInv. rewrite Q1. eapply core_update; [by eapply core_moved | exact Hc].
  - destruct (on_buckets_spec _ _ _ _ E (inv_reg a HI) Hok) as ([_ Hc] & P1 & P2 & P3 & [Q1 Q2]).
    unfold AppInv. rewrite Q1. destruct e; try done; destruct Hc as [-> _]; by eapply core_moved.
  - apply (Hn a b); [rewrite Eb; apply same_pending | done|]. rewrite Eb. by eapply core_push.
  - apply (Hn a b); [rewrite Eb; apply same_refresh | done|]. rewrite Eb. apply core_refresh. rewrite app_nil_r.
    eapply core_queue; [exact HI | intros it Hi; by apply HI, Hin | intros x Hx; split; [by intros [] | apply Hc; [apply HI | done]] | apply Hsl, HI].
  - destruct (pop_spec _ it (co_pool _ _ _ _ HI) Hin) as [Hpl Hpm]. rewrite <- Hq in Hpl, Hpm.
    apply (Hn a b); [rewrite Eb; apply same_pending | done|]. rewrite Eb. apply core_pending. eapply core_queue; [exact HI | | | done].
    + intros it' Hi. apply HI. rewrite Hpm. by right.
    + intros x Hx. split; [by intros []|]. rewrite (queued_cons _ _ it x Hpm). destruct (Z.eqb_spec (Queue.node_addr it) x) as [E|]; [|done].
      exfalso. apply Hx. by left.
Qed.

(** ** Every handler is a path of them *)

Inductive path : bool -> app -> app -> Prop :=
| PathNil a : path true a a
| PathStep ok ok' a b c : astep ok a b -> path ok' b c -> path (ok && ok') a c.
Lemma path_app ok ok' a b c : path ok a b -> path ok' b c -> path (ok && ok') a c.
Proof. intros H Hc. induction H as [a|ok1 ok2 a b1 c1 Hs Hp IH]; [done|]. rewrite <- andb_assoc. econstructor; [exact Hs | by apply IH]. Qed.
(** The console has reported a failure of the store. *)
Definition storage_failure (m : Msg) : bool := match m with MMgmtResponse r => mresp_result r =? MGMT_STORAGE | _ => false end.
Definition moves (a : app) (r : app * list Msg) : Prop := exists ok, path ok a (fst r) /\ (ok = false -> existsb storage_failure (snd r) = true).
Lemma moves_nil a out : moves a (a, out).
Proof. exists true. split; [constructor | done]. Qed.
Lemma moves_step a b r : astep true a b -> moves b r -> moves a r.
Proof. intros Hs (ok & Hp & Ho). exists ok. split; [|done]. change ok with (true && ok). by econstructor. Qed.
Lemma moves_one a b out : astep true a b -> moves a (b, out).
Proof. intros H. eapply moves_step; [exact H | apply moves_nil]. Qed.
Lemma moves_fail a b req_id : astep false a b -> moves a (b, respond_empty req_id MGMT_STORAGE).
Proof. intros H. exists (false && true). split; [by econstructor; [|constructor] | done]. Qed.
Lemma moves_seq a b c o1 o2 o : moves a (b, o1) -> moves b (c, o2) -> (forall m, In m o1 \/ In m o2 -> In m o) -> moves a (c, o).
Proof.
  intros (ok & Hp & Ho) (ok' & Hp' & Ho') Hin. exists (ok && ok'). split; [by eapply path_app|]. intros E. cbn [snd fst] in *. apply existsb_exists.
  apply andb_false_iff in E as [E|E]; [specialize (Ho E); apply existsb_exists in Ho as (m & ? & ?) | specialize (Ho' E); apply existsb_exists in Ho' as (m & ? & ?)];
    exists m; (split; [apply Hin; tauto | done]).
Qed.
Lemma moves_app a b c o1 o2 : moves a (b, o1) -> moves b (c, o2) -> moves a (c, o1 ++ o2).
Proof. intros H1 H2. apply (moves_seq a b c o1 o2); [done | done|]. intros m. by rewrite in_app_iff. Qed.
Lemma moves_quiet a b out : still (a_net a) (a_net b) -> beside a b -> moves a (b, out).
Proof. intros H Hb. apply moves_one. by constructor. Qed.
Lemma moves_out a b o o' : moves a (b, o) -> (forall m, In m o -> In m o') -> moves a (b, o').
Proof. intros H Hi. eapply moves_seq; [exact H | apply (moves_nil b []) |]. intros m [?|[]]. by apply Hi. Qed.
Lemma moves_then a b b' out : moves a (b, out) -> still (a_net b) (a_net b') -> beside b b' -> moves a (b', out).
Proof. intros H Hs Hb. eapply moves_seq; [exact H | apply (moves_quiet b b' []); done|]. by intros m [?|[]]. Qed.

(** What decodes is in its type. *)
Definition op_typed (op : MgmtOp) : Prop :=
  match op with
  | NodeAdd a key nm f _ _ => 0 <= a <= u32_max /\ zlen key = 16 /\ bytes_ok key /\ byte_ok f /\ utf8 (lit nm)
  | NodeUpdate _ nm fl => match nm with Some nm => utf8 (lit nm) | None => True end /\ match fl with Some f => byte_ok f | None => True end
  | QueuePush _ ttl d => u16_ok ttl /\ bytes_ok d
  | _ => True
  end.
Lemma moves_node_add a req_id addr_ key nm fl tf rf env : op_typed (NodeAdd addr_ key nm fl tf rf) -> moves a (node_add a req_id addr_ key (lit nm) fl tf rf env).
Proof.
  intros (T1 & T2 & T3 & T4 & T5). unfold node_add. split_if; [apply moves_nil|]. bool_hyps. pose proof (still_raise (a_net a) tf (mg_fate env)) as Hr.
  destruct (net_raise_floor _ _ _) as [n saved]. cbn [fst] in Hr. set (a0 := set_net a n). assert (Hs0 : astep true a a0) by (by constructor).
  cbv zeta. split_if; [by apply moves_one|]. apply (moves_step a a0); [exact Hs0|].
  match goal with |- context [Registry.add ?rec] => set (r := rec) end. destruct (on_buckets (Registry.add r) a0) as [a1 res] eqn:E.
  assert (Hok : Registry.rop_ok record_ok (Registry.Add r)).
  { split; [unfold MAX_NODE_NAME, GwRegistry.MAX_NAME in *; simpl; lia|]. split; [done|]. split; [done|]. split; [done|]. by split. }
  destruct res as [[]|e].
  - set (a2 := net_do a1 _). set (a3 := net_do a2 _). eapply moves_then; [|done | done].
    eapply (moves_step _ a2). { eapply (APut (Registry.Add r)); [by left | exact Hok | exact E | | done | done]. rewrite (on_buckets_addr _ _ _ _ E). by rewrite <- (sl_addr _ _ Hr) in *. }
    eapply moves_one. eapply (AFloor addr_ rf); done.
  - destruct e; (eapply moves_one, (ARefused (Registry.Add r)); [exact Hok | exact E | done]) || by eapply moves_fail, (AFailed (Registry.Add r)).
Qed.
Lemma moves_refused o (a a1 b : app) e out : Registry.rop_ok record_ok o -> on_buckets (Registry.run o) a = (a1, Err e) ->
  (e = Storage -> existsb storage_failure out = true) -> still (a_net a1) (a_net b) -> beside a1 b -> moves a (b, out).
Proof.
  intros Ho E He Hs Hb. eapply moves_then; [|exact Hs | exact Hb]. assert (e = Storage \/ e <> Storage) as [->|Hne] by (destruct e; auto).
  - exists (false && true). split; [econstructor; [by eapply AFailed | constructor] | by intros _; apply He].
  - eapply moves_one. by eapply ARefused.
Qed.
Lemma moves_node_remove a req_id addr_ : moves a (node_remove a req_id addr_).
Proof.
  unfold node_remove. destruct (on_buckets (Registry.remove addr_) a) as [a1 [[]|e]] eqn:E.
  - cbv zeta. match goal with |- context [stat_nodes ?x _] => apply (moves_then a x); [|done | done] end.
    apply moves_one. by apply (ARemove addr_ a a1).
  - destruct e; eapply (moves_refused (Registry.Remove addr_)); done.
Qed.
Lemma moves_node_update a req_id addr_ nm fl : op_typed (NodeUpdate addr_ nm fl) -> moves a (node_update a req_id addr_ (option_map lit nm) fl).
Proof.
  intros [HT1 HT2]. unfold node_update. split_if; [apply moves_nil|].
  assert (Hok : Registry.rop_ok record_ok (Registry.Update addr_ (option_map lit nm) fl)).
  { intros r (R1 & R2 & R3 & R4 & R5). unfold Registry.edit. destruct nm as [nm|], fl as [f|]; (split; [|split; [|split; [|split]]]); done. }
  destruct (on_buckets (Registry.update addr_ (option_map lit nm) fl) a) as [a1 [[]|e]] eqn:E.
  - eapply moves_one. by eapply AUpdate.
  - destruct e; eapply (moves_refused (Registry.Update addr_ (option_map lit nm) fl)); done.
Qed.
Lemma find_known a node : Registry.find (buckets a) node = known (Registry.nodes (buckets a)) node.
Proof. apply Registry.find_nodes. Qed.
Lemma moves_queue_push a req_id node ttl d now : moves a (queue_push a req_id node ttl d now).
Proof.
  unfold queue_push. destruct (Registry.find (buckets a) node) as [r|] eqn:E; [|apply moves_nil]. rewrite find_known in E. cbv zeta.
  destruct (Queue.push _ _ _ _ _) as [q [i|e]] eqn:Ep; [|destruct e; apply moves_nil].
  eapply moves_then; [|done | done]. eapply moves_one. eapply (APush node); [by rewrite E | exact Ep | done | done].
Qed.
(** The flag of a node refreshed, after its items or none were dropped. *)
Lemma trim_refresh (a : app) q node : (forall it, In it (Queue.iter q) -> In it (Queue.iter (a_queue a))) ->
  (forall x, x <> node -> Queue.count_for q x = Queue.count_for (a_queue a) x) -> (pool (a_queue a) -> pool q) ->
  astep true a (refresh_pending (set_queue a q) node).
Proof. intros H1 H2 H3. apply (ATrim [node]); try done. intros _ x Hx. apply H2. intros ->. apply Hx. by left. Qed.
Lemma moves_refresh (a : app) node out : moves a (refresh_pending a node, out).
Proof. apply moves_one. by apply (ATrim [node]). Qed.
Lemma pop_refresh (a : app) it : In it (Queue.iter (a_queue a)) ->
  astep true a (refresh_pending (set_queue a (fst (Queue.pop (a_queue a) (Queue.id it)))) (Queue.node_addr it)).
Proof. intros H. by apply (APop it). Qed.
Lemma moves_queue_drop a req_id node item : moves a (queue_drop a req_id node item).
Proof.
  unfold queue_drop. destruct item as [i|].
  - cbv zeta. case_bool_decide as Ho.
    + destruct (List.find _ _) as [it|] eqn:E; [|done]. injection Ho as <-. apply List.find_some in E as [Hin Hi]. apply Z.eqb_eq in Hi. subst i.
      eapply moves_then; [apply moves_one, (pop_refresh a it Hin) | done | done].
    + eapply moves_then; [apply moves_one, (trim_refresh a (a_queue a) node) | done | done]; done.
  - pose proof (drop_iter (a_queue a) node) as Hd. pose proof (drop_pool (a_queue a) node) as Hp. destruct (Queue.drop_node (a_queue a) node) as [q d]. cbn [fst] in *.
    eapply moves_then; [apply moves_one, (trim_refresh a q node) | done | done]; [| |done].
    + intros it. rewrite Hd, List.filter_In. tauto.
    + intros x Hx. unfold Queue.count_for. rewrite Hd, filter_other; [done|]. intros it Hit Hi. apply negb_true_iff, Z.eqb_neq. intros E. apply Hx. lia.
Qed.
Lemma moves_pairing_open a req_id w env : moves a (pairing_open a req_id w env).
Proof. unfold pairing_open. destruct (a_pairing a); [apply moves_nil|]. do 2 (split_if; [apply moves_nil|]). destruct (prepare _ _ _); [by apply moves_quiet | apply moves_nil]. Qed.
Lemma moves_mgmt fw_name fw_version req a env : op_typed (mreq_op req) -> moves a (handle_mgmt fw_name fw_version req a env).
Proof.
  intros HT. unfold handle_mgmt. cbv zeta. split_if; [apply moves_nil|].
  destruct (mreq_op req); try apply moves_nil;
    [by apply moves_node_add | apply moves_node_remove | by apply moves_node_update | apply moves_pairing_open | by apply moves_quiet | apply moves_queue_push | apply moves_queue_drop | by apply moves_quiet].
Qed.

Lemma still_send n dest d c reps fate att : still n (fst (send n dest d c reps fate att)).
Proof. apply still_rx, rx_send. Qed.
Lemma still_deliver (a : app) node d env : still (a_net a) (a_net (fst (deliver a node d env))) /\ beside a (fst (deliver a node d env)).
Proof.
  unfold deliver. case_bool_decide.
  - pose proof (still_fhss_send (a_net a) (a_fhss a) node d true (up_hop env)) as H1. destruct (fhss_send _ _ _ _ _ _) as [[n f] r]. by split.
  - pose proof (still_send (a_net a) node d true DOWNLINK_REPS (up_fate env) (up_send env)) as H1. destruct (send _ _ _ _ _ _ _) as [n r]. by split.
Qed.
Lemma moves_uplink rx a now env : moves a (on_uplink rx a now env).
Proof.
  unfold on_uplink. cbv zeta. set (a1 := stat_uplink _). apply (moves_step a a1); [by constructor|]. destruct (Queue.peek_for (a_queue a1) (rv_src rx) now) as [it|] eqn:E.
  - apply peek_In in E as (Hin & Hnode & _). pose proof (still_deliver a1 (rv_src rx) (Queue.data it) env) as [Hs Hb]. destruct (deliver _ _ _ _) as [a2 r]. cbn [fst] in *.
    apply (moves_step a1 a2); [by constructor|]. rewrite <- Hnode. destruct Hb as [Hq Hw]. rewrite <- Hq in Hin.
    destruct r; try (eapply moves_then; [apply (moves_refresh a2 (Queue.node_addr it)) | done | by split]).
    eapply moves_then; [apply moves_one, (pop_refresh a2 it Hin) | done | done].
  - eapply moves_then; [apply moves_refresh | done | done].
Qed.

(** The peer of a pairing window. *)
Definition turn_bytes (t : HostTurn) : Prop := heard_ok (ht_heard t).
Lemma link_key_ok eph a b role x y s : handshake eph a b role x y = Some s -> zlen (link_key s) = 16 /\ bytes_ok (link_key s).
Proof.
  unfold handshake, NetHandshake.session, NetHandshake.shared_secret. cbv zeta. destruct (fold_left _ _ _ =? 0); [done|]. intros [= <-]. cbn [link_key key_schedule].
  match goal with |- context [hkdf ?u ?v ?w ?x] => destruct (hkdf_len _ _ _ _ _ prim_laws u v w x) as [Hl Hb]; [done|] end.
  split; [|by apply bytes_ok_slice]. apply zlen_slice; rewrite ?Hl; mlia.
Qed.
Lemma rx_pair_src key h cap hdr p : heard_ok h -> rx_pair key h cap = Some (hdr, p) -> 0 <= src hdr <= u32_max.
Proof.
  unfold rx_pair. destruct h as [buf|]; [|done]. intros Hb. unfold open_frame. destruct (parse buf) as [[h k]|] eqn:E; [|done].
  apply parse_Ok in E as [Hh _]; [|done]. split_if; [done|]. destruct (open _ _ _ _ _) as [d v]. destruct v; [|done]. cbn [negb].
  split_if; [done|]. intros [= <- _]. destruct Hh. unfold u32_ok in *. mlia.
Qed.
Lemma open_loop_typed turns : Forall turn_bytes turns -> forall (n : Net W) host n' host' p, open_loop n host turns = (n', host', Some p) ->
  0 <= NetHandshake.p_addr p <= u32_max /\ zlen (NetHandshake.p_key p) = 16 /\ bytes_ok (NetHandshake.p_key p).
Proof.
  induction 1 as [|t turns Ht _ IH]; intros n host n' host' p; cbn [open_loop]; [done|]. destruct (ready _ _) as [h ok]. split_if; [done|].
  destruct (rx_pair _ _ _) as [[hdr payload]|] eqn:Erx; [|by apply IH]. do 2 (split_if; [by apply IH|]). destruct (ph_eph h) as [eph|]; [|by apply IH].
  cbv zeta. destruct (net_alloc n _) as [n1 [c|]]; [|done]. destruct (tx_pair n1 _ _ _ _) as [n2 sent]. split_if; [by apply IH|].
  destruct (wait_frame _ _ _ _) as [nn|]; [|by apply IH]. destruct (handshake _ _ _ _ _ _) as [s|] eqn:Eh; [|by apply IH].
  destruct (net_alloc n2 _) as [n3 [c2|]]; [|done]. destruct (tx_pair n3 _ _ _ _) as [n4 sent2]. split_if; [by apply IH|].
  destruct (wait_frame _ _ _ _); [|by apply IH]. intros [= <- <- <-]. cbn. split; [by eapply rx_pair_src | by eapply link_key_ok].
Qed.
Lemma open_pairing_peer (n : Net W) host turns n' host' p : Forall turn_bytes turns -> open_pairing n host turns = (n', host', Some p) ->
  still n n' /\ peer_addr_valid (NetHandshake.p_addr p) (addr n') = true /\
  0 <= NetHandshake.p_addr p <= u32_max /\ zlen (NetHandshake.p_key p) = 16 /\ bytes_ok (NetHandshake.p_key p).
Proof.
  intros Ht E. pose proof (still_open_pairing n host turns) as Hs. rewrite E in Hs. cbn [fst] in Hs. split; [done|]. rewrite (sl_addr _ _ Hs).
  unfold open_pairing in E. do 2 (split_if_in E; [done|]). split; [|by eapply open_loop_typed].
  apply open_loop_pairs in E as (earlier & t & later & eph & evs & outs & e1 & e2 & before & _ & _ & _ & Ha & _). unfold join_request_admissible in Ha. by apply andb_true_iff in Ha as [Ha _].
Qed.
Lemma moves_commit peer req_id (a : app) : peer_addr_valid (NetHandshake.p_addr peer) (addr (a_net a)) = true ->
  0 <= NetHandshake.p_addr peer <= u32_max -> zlen (NetHandshake.p_key peer) = 16 -> bytes_ok (NetHandshake.p_key peer) -> moves a (commit_pairing peer req_id a).
Proof.
  intros Hv T1 T2 T3. unfold commit_pairing. cbv zeta. match goal with |- context [Registry.add_new ?rec] => set (r := rec) end.
  assert (Hok : Registry.rop_ok record_ok (Registry.AddNew r)) by (split; [by vm_compute|]; split; [done|]; split; [done|]; split; [done|]; split; [by vm_compute | apply utf8_nil]).
  destruct (on_buckets (Registry.add_new r) a) as [a1 [[]|e]] eqn:E.
  - eapply moves_then; [apply moves_one, (APut (Registry.AddNew r) r a a1 (net_do a1 (fun n => add_peer n (NetHandshake.p_addr peer) (NetHandshake.p_key peer)))) | done | done];
      [by right | exact Hok | exact E | by rewrite (on_buckets_addr _ _ _ _ E) | done | done].
  - destruct e; eapply (moves_refused (Registry.AddNew r)); done.
Qed.
Lemma still_suspend n f b t : still n (fhss_suspend n f b t).
Proof. unfold fhss_suspend. by repeat split_if. Qed.
Lemma still_resume n f : still n (fhss_resume n f).
Proof. unfold fhss_resume. by repeat split_if. Qed.
Lemma moves_pairing sess (a : app) env : Forall turn_bytes (tn_pair env) -> moves a (pairing_slice sess a env).
Proof.
  intros Ht. unfold pairing_slice. set (a0 := if hopping a && _ then _ else a). assert (H0 : astep true a a0).
  { unfold a0. split_if; (constructor; [|done]); [apply still_suspend | done]. }
  apply (moves_step a a0 _ H0). cbv zeta. do 2 (split_if; [by apply moves_quiet|]).
  destruct (open_pairing (a_net a0) _ _) as [[n host] [p|]] eqn:E.
  - apply open_pairing_peer in E as (Hs & Hv & T1 & T2 & T3); [|done]. set (a1 := set_pairing (set_net a0 n) None).
    apply (moves_step a0 a1); [by constructor|]. pose proof (moves_commit p (ps_req_id sess) a1 Hv T1 T2 T3) as Hc.
    destruct (commit_pairing _ _ _) as [a2 out]. split_if; [|done]. by eapply moves_then.
  - pose proof (still_open_pairing (a_net a0) (ps_host sess) (tn_pair env)) as Hs. rewrite E in Hs. by apply moves_quiet.
Qed.
Lemma moves_forward r (a : app) env : moves a (forward r a env).
Proof. destruct r; [apply moves_uplink | apply moves_nil]. Qed.
Lemma moves_recv (a : app) env : moves a (recv_slice a env).
Proof.
  unfold recv_slice. destruct (tn_heard env) as [[h rssi] lqi]. pose proof (still_recv (a_net a) h rssi lqi (tn_ack env)) as Hs.
  destruct (recv _ _ _ _ _) as [n r]. apply (moves_step a (set_net a n)); [by constructor | apply moves_forward].
Qed.
Lemma moves_hop (a : app) env : moves a (hop_slot a env).
Proof.
  unfold hop_slot. set (a0 := if a_parked a then _ else a). assert (H0 : astep true a a0).
  { unfold a0. destruct (a_parked a); (constructor; [|done]); [apply still_resume | done]. }
  apply (moves_step a a0 _ H0). pose proof (still_master (a_net a0) (a_fhss a0) (tn_master env)) as Hs. destruct (fhss_master_tick _ _ _) as [[n f] slot].
  apply (moves_step a0 (set_radio a0 n f)); [by constructor | apply moves_forward].
Qed.
Lemma moves_radio (a : app) env : Forall turn_bytes (tn_pair env) -> moves a (radio_step a env).
Proof.
  intros Ht. unfold radio_step. destruct (a_pairing a); [by apply moves_pairing|]. split_if; [apply moves_recv|]. split_if; [apply moves_hop | apply moves_recv].
Qed.
Lemma refresh_fold (l : list (Z * Z)) : forall a : app, let b := fold_left (fun a e => refresh_pending a (snd e)) l a in
  a_net b = fold_left (fun n x => fst (set_pending n x (0 <? Queue.count_for (a_queue a) x))) (map snd l) (a_net a) /\ beside a b.
Proof. induction l as [|e l IH]; intros a; [done|]. cbn [fold_left map]. apply (IH (refresh_pending a (snd e))). Qed.
Lemma moves_expire (a : app) now : moves a (expire_step a now).
Proof.
  unfold expire_step. destruct (expire_iter (a_queue a) now) as [H1 H2]. pose proof (expire_pool (a_queue a) now) as Hp.
  destruct (Queue.expire (a_queue a) now) as [q ex]. cbn [fst snd] in *. cbv zeta. set (l := take (Z.to_nat QUEUE_CAP) ex).
  destruct (refresh_fold l (set_queue a q)) as [Hn [Hq Hw]]. cbn zeta in *. set (b := fold_left _ l (set_queue a q)) in *.
  eapply (moves_then a b); [|by split_if | by split_if]. apply moves_one, (ATrim (map snd l)); [| | | |done].
  - intros it. rewrite Hq. cbn [a_queue set_queue set_tables]. rewrite H1, List.filter_In. tauto.
  - intros HP x Hx. rewrite Hq. cbn [a_queue set_queue set_tables]. unfold Queue.count_for. rewrite H1, filter_other; [done|]. intros it Hit Hi. apply Z.eqb_eq in Hi.
    apply negb_true_iff. destruct (Queue.expired it now) eqn:Ee; [|done]. exfalso. apply Hx. unfold l. rewrite take_ge.
    + rewrite H2, map_map. apply in_map_iff. exists it. split; [done|]. by apply List.filter_In.
    + rewrite H2, length_map. etrans; [apply List.filter_length_le|]. pose proof (Queue.items_length_le (Queue.slots (a_queue a))) as Hl.
      pose proof (pl_slots _ HP) as Hs. unfold Queue.iter, zlen, QUEUE_CAP in *. lia.
  - by rewrite Hq.
  - rewrite Hn, Hq. done.
Qed.
Lemma moves_stat (a : app) env : moves a (stat_step a env).
Proof. unfold stat_step. split_if; [|apply moves_nil]. destruct (tn_idle env); [by apply moves_quiet | apply moves_nil]. Qed.
Lemma still_policy (a : app) now : still (a_net a) (a_net (policy_step a now)) /\ beside a (policy_step a now).
Proof. unfold policy_step. by split_if. Qed.

(** ** The loop *)

Context (fw_name fw_version : list Z) `{SC : Schemas}.
(** What [postcard] decodes as a request is in its type. *)
Context (Htyped : forall p req, (Mgmt.from_bytes p : option MgmtRequest) = Some req -> op_typed (mreq_op req)).
Definition heard_bytes (env : TurnEnv) : Prop := Forall turn_bytes (tn_pair env).
Lemma moves_serve times : forall inbox (a : app), moves a (serve fw_name fw_version times inbox a).
Proof.
  induction times as [|times IH]; intros [|[frame env] inbox] a; cbn [serve]; try apply moves_nil.
  unfold decode_request. destruct (decode_frame frame) as [[[[] sq] p]|]; try apply IH. destruct (Mgmt.from_bytes p) as [req|] eqn:E; [|apply IH].
  pose proof (moves_mgmt fw_name fw_version req a env (Htyped _ _ E)) as H1. destruct (handle_mgmt _ _ _ _ _) as [a1 o1].
  specialize (IH inbox a1). destruct (serve _ _ _ _ _) as [a2 o2]. by eapply moves_app.
Qed.
Lemma moves_turn (a : app) env : heard_bytes env -> moves a (loop_turn fw_name fw_version a env).
Proof.
  intros Hb. unfold loop_turn. pose proof (still_policy a (tn_top env)) as [Hs0 Hb0]. set (a0 := policy_step a (tn_top env)) in *. clearbody a0. cbv zeta.
  apply (moves_step a a0); [by constructor|].
  pose proof (moves_serve 2 (tn_inbox env) a0) as H1. destruct (serve _ _ _ _ _) as [a1 o1].
  pose proof (moves_radio a1 env Hb) as H2. destruct (radio_step a1 env) as [a2 o2].
  set (a3 := hop_stat_step _ _). assert (H3 : moves a2 (a3, [])) by (apply moves_quiet; unfold a3, hop_stat_step; by split_if).
  pose proof (moves_expire a3 (tn_now env)) as H4. destruct (expire_step a3 _) as [a4 o4].
  pose proof (moves_stat a4 env) as H5. destruct (stat_step a4 env) as [a5 o5].
  apply (moves_app a0 a1); [done|]. apply (moves_app a1 a2); [done|]. change (o4 ++ o5) with ([] ++ o4 ++ o5). apply (moves_app a2 a3); [done|]. by apply (moves_app a3 a4).
Qed.
Lemma moves_loop envs : Forall heard_bytes envs -> forall a : app, moves a (run_loop fw_name fw_version a envs).
Proof.
  induction 1 as [|env envs He _ IH]; intros a; cbn [run_loop]; [apply moves_nil|]. pose proof (moves_turn a env He) as H1.
  destruct (loop_turn _ _ _ _) as [a1 o1]. specialize (IH a1). destruct (run_loop _ _ _ _) as [a2 o2]. by eapply moves_app.
Qed.
Lemma path_inv ok (a b : app) : path ok a b -> ok = true -> AppInv a -> AppInv b.
Proof.
  induction 1 as [a|ok1 ok2 a b c Hs Hp IH]; [done|]. intros E HI. apply andb_true_iff in E as [-> ->]. apply IH; [done|]. by eapply astep_inv.
Qed.

(** *** The types of the tables, whatever the store does *)

Definition typed (a : app) : Prop := TableInv (a_net a) /\ default_lane_enabled (a_net a) = false /\ pool (a_queue a).
Lemma table_add (n : Net W) a key : TableInv n -> TableInv (fst (add_peer n a key)).
Proof.
  intros HT. destruct (peer_addr_valid a (addr n)) eqn:Hv; [|unfold add_peer; by rewrite Hv]. pose proof (add_changed n a key HT Hv) as Hc.
  destruct (look n a) as [p|] eqn:E; [destruct Hc as (p' & [] & _); [by left | done]|].
  destruct (Z.lt_ge_cases (zlen (live (peers n))) MAX_PEERS) as [Hl|Hl]; [destruct Hc as (p' & [] & _); [by right | done]|].
  unfold add_peer. rewrite Hv. cbn [negb]. unfold look in E. destruct (peer_at n a) as [[i p]|]; [done|]. cbv zeta.
  destruct (first_empty (peers n)) as [slot|] eqn:Ef; [|done]. exfalso. unfold first_empty in Ef. destruct (list_find _ _) as [[j y]|] eqn:El; [|done].
  apply list_find_Some in El as (Hj & -> & _). pose proof (live_insert (peers n) j None (Some {| p_addr := 0; p_key := []; p_lane := default_lane n; p_local := 0; p_pending := false |}) Hj) as Hp.
  apply Permutation_length in Hp. cbn [seat List.app length] in Hp. assert (Hle : forall ps, (length (live ps) <= length ps)%nat).
  { induction ps as [|[q|] ps IH]; [done | |]; [change (live (Some q :: ps)) with (q :: live ps) | change (live (None :: ps)) with (live ps)]; simpl; lia. }
  match type of Hp with context [live ?x] => match x with <[_:=_]> _ => specialize (Hle x) end end. rewrite length_insert in Hle. pose proof (ti_slots _ HT). unfold zlen in *. lia.
Qed.
Lemma astep_typed ok (a b : app) : astep ok a b -> typed a -> typed b.
Proof.
  intros Hs (HT & HL & HP). assert (Hob : forall m a1 r, on_buckets m a = (a1, r) -> typed a1).
  { intros m a1 r. unfold on_buckets. destruct (m (buckets a)) as [w r']. intros [= <- _]. split; [by destruct HT; split | by split]. }
  destruct Hs as [a b Hst [Hq Hw]|o rec a a1 b Ho Hok E Hv Eb [Hq Hw]|node s a b Eb [Hq Hw]|node a a1 b E Eb Hq Hw|node nm fl a b Hok E|o e a b Hok E He|o a b E|node ttl d now i a b Hk Hp Eb Hw|ns a b Hin Hc Hsl Eb Hw|it a b Hin Hq Eb Hw].
  - split; [by eapply table_still|]. split; [by rewrite (sl_lane _ _ Hst) | by rewrite Hq].
  - destruct (Hob _ _ _ E) as (T1 & L1 & P1). split; [rewrite Eb; by apply table_add|]. split; [|by rewrite Hq]. rewrite Eb. by destruct (same_add (a_net a1) (GwRegistry.addr rec) (GwRegistry.key rec)) as [_ ->].
  - pose proof (raise_changed (a_net a) node s HT) as Hr. unfold typed. rewrite Eb, Hq. destruct (look _ _); [|by rewrite Hr]. destruct Hr as (p' & _ & [C1 C2 C3 C4 C5 C6]). by rewrite C5.
  - destruct (Hob _ _ _ E) as (T1 & L1 & P1). destruct (remove_changed (a_net a1) node T1) as [C1 C2 C3 C4 C5 C6]. unfold typed. rewrite Eb, Hq, C5. split; [done|]. split; [done | by apply drop_pool].
  - by eapply Hob.
  - by eapply Hob.
  - by eapply Hob.
  - pose proof (pending_changed (a_net a) node true HT) as Hr. pose proof (pool_push (a_queue a) node ttl d now HP) as Hpp. rewrite Hp in Hpp. unfold typed. rewrite Eb.
    destruct (look _ _); [|by rewrite Hr]. destruct Hr as (p' & _ & _ & [C1 C2 C3 C4 C5 C6]). by rewrite C5.
  - unfold typed. rewrite Eb. split; [|split; [|by apply Hsl]].
    + clear -HT AS NS AL. revert HT. generalize (a_net a). induction ns as [|x ns IH]; intros n HT; [done|]. cbn [fold_left]. apply IH.
      pose proof (pending_changed n x (0 <? Queue.count_for (a_queue b) x) HT) as Hr. destruct (look n x); [by destruct Hr as (p' & _ & _ & []) | by rewrite Hr].
    + rewrite <- HL. clear. generalize (a_net a). induction ns as [|x ns IH]; intros n; [done|]. cbn [fold_left]. rewrite IH. unfold set_pending. by destruct (peer_at n x) as [[i p]|].
  - pose proof (pending_changed (a_net a) (Queue.node_addr it) (0 <? Queue.count_for (a_queue b) (Queue.node_addr it)) HT) as Hr. destruct (pop_spec _ _ HP Hin) as [Hpp _].
    unfold typed. rewrite Eb, Hq in *. destruct (look _ _); [|by rewrite Hr]. destruct Hr as (p' & _ & _ & [C1 C2 C3 C4 C5 C6]). by rewrite C5.
Qed.
End Steps.
