(* ===== verification/DongleDemo.v ===== *)
(** A RAM store, small codecs and a host for concrete runs of the gateway (Dongle). *)
From Stdlib Require Import Strings.String.
From S2P Require Import Prelude Bytes Str GwRegistry GwQueue Proto Cobs Crc Fingerprint Msg Frame Mgmt DongleWire NetTxctr NetReplay NetWire NetPairing NetHandshake.
From S2P Require Import Radio Ccm RadioFrame NetCore NetAir Bulk NetPair NetLink Fhss Dongle DongleCore DongleThm.
#[export] Existing Instance Ccm.ToyCipher.toy_aes.
#[export] Existing Instance Ccm.ToyCipher.toy_laws.
#[export] Existing Instance NetPair.Demo.toy_prims.
#[export] Existing Instance NetPair.Demo.toy_prim_laws.
#[local] Abbreviation NodeRecord := GwRegistry.NodeRecord.

(** ** A store: the newest value of each name of three namespaces *)

Definition Store : Type := list (Z * Z * list Z).
Definition fetch (w : Store) (ns l : Z) : option (list Z) := option_map snd (List.find (fun e => (fst (fst e) =? ns) && (snd (fst e) =? l)) w).
Definition read (w : Store) (ns l cap : Z) : option (Z * list Z) := option_map (fun d => (zlen d, slice d 0 cap)) (fetch w ns l).
#[export] Instance demo_net_store : NetStore Store := { nv_get w l cap := read w 0 l cap; nv_set w l v := ((0, l, v) :: w, true) }.
#[export] Instance demo_app_store : AppStore Store := {
  app_get w l cap := Ok (read w 1 l cap);
  app_set w l v := ((1, l, v) :: w, Ok tt);
  shell_get w l cap := Ok (read w 2 l cap);
}.
#[export] Instance demo_store_laws : AppStoreLaws Store.
Proof.
  constructor; cbn [app_get app_set demo_app_store nv_set demo_net_store fst]; unfold read, fetch; cbn [List.find fst snd].
  - intros w l d l' cap Hl. by replace (l =? l') with false by (symmetry; by apply Z.eqb_neq).
  - intros w l d w' cap [_ Hz] [= <-]. cbn [List.find fst snd]. unfold held. f_equal. change (1 =? 1) with true. cbn [andb].
    rewrite Z.eqb_refl. cbn [option_map snd]. do 2 f_equal. unfold slice. change (Z.to_nat 0) with 0%nat. rewrite drop_0. apply take_ge. unfold zlen in Hz. lia.
  - done.
  - done.
Qed.

(** ** Codecs *)

Definition record_okb (r : NodeRecord) : bool :=
  (0 <=? GwRegistry.addr r) && (GwRegistry.addr r <=? u32_max) && (zlen (GwRegistry.key r) =? 16) && bytes_okb (GwRegistry.key r) && bytes_okb [GwRegistry.flags r] && utf8b (GwRegistry.name r).
Lemma record_okb_spec r : record_okb r = true <-> record_ok r.
Proof.
  assert (Hb : forall l, bytes_okb l = true <-> bytes_ok l).
  { intros l. split; [apply bytes_okb_ok|]. intros H. apply forallb_forall. unfold bytes_ok in H. rewrite List.Forall_forall in H. intros b Hin. specialize (H b Hin).
    unfold byte_ok in H. lia. }
  assert (Hu : forall l, utf8b l = true <-> utf8 l).
  { intros l. split; [apply utf8b_ok|]. intros H. apply utf8_from_utf8 in H as [cs H]. unfold utf8b. by rewrite H. }
  unfold record_okb, record_ok. rewrite !andb_true_iff, !Hb, Hu, !Z.leb_le, Z.eqb_eq. split.
  - intros (((((? & ?) & ?) & ?) & Hf) & ?). by inversion Hf.
  - intros ((? & ?) & ? & ? & ? & ?). repeat split; try done; (constructor; [done | constructor]).
Qed.
#[export] Instance demo_buckets : GwRegistry.Postcard := {
  GwRegistry.to_slice := @GwRegistry.to_slice RamRegistry.ram_codec;
  GwRegistry.from_bytes d := match @GwRegistry.from_bytes RamRegistry.ram_codec d with Some b => if forallb record_okb b then Some b else None | None => None end;
}.
#[export] Instance demo_buckets_laws : GwRegistry.PostcardLaws record_ok.
Proof.
  constructor.
  - intros b Hb Hr. destruct (@GwRegistry.encode_fits RamRegistry.ram_codec _ RamRegistry.ram_codec_laws b Hb) as (d & H1 & H2 & H3).
    { eapply List.Forall_impl; [|exact Hr]. intros r (_ & Hk & _). exact Hk. }
    exists d. split; [exact H1|]. split; [exact H2|]. cbn [GwRegistry.from_bytes demo_buckets]. rewrite H3.
    replace (forallb record_okb b) with true; [done|]. symmetry. apply forallb_forall. rewrite List.Forall_forall in Hr. intros r Hin. by apply record_okb_spec, Hr.
  - intros d b. cbn [GwRegistry.from_bytes demo_buckets]. destruct (@GwRegistry.from_bytes RamRegistry.ram_codec d) as [b'|] eqn:E; [|done].
    destruct (forallb record_okb b') eqn:Ef; [|done]. intros [= <-]. destruct (@GwRegistry.decode_ok RamRegistry.ram_codec _ RamRegistry.ram_codec_laws d b' E) as [Hb _].
    split; [exact Hb|]. apply List.Forall_forall. rewrite forallb_forall in Ef. intros r Hin. by apply record_okb_spec, Ef.
Qed.

(** A codec from its two directions. *)
Definition codec {T} (rep : T -> Prop) (ser : T -> list Z) (parse : list Z -> option (T * list Z)) : Msg.Postcard T :=
  {| representable := rep; serialize := ser;
     to_slice := fun v b => if zlen (ser v) <=? zlen b then (patch b 0 (ser v), Some (zlen (ser v))) else (b, None); take_from_bytes := parse |}.
Lemma codec_laws {T} rep (ser : T -> list Z) parse : (forall v, rep v -> bytes_ok (ser v)) -> (forall v r, rep v -> parse (ser v ++ r) = Some (v, r)) ->
  @Msg.PostcardLaws T (codec rep ser parse).
Proof.
  intros H1 H2. constructor; cbn [representable serialize to_slice take_from_bytes codec]; [done | | | done].
  - intros v b _ Hz. by rewrite (proj2 (Z.leb_le _ _) Hz).
  - intros v b _ Hz. exists b. by rewrite (proj2 (Z.leb_gt _ _) Hz).
Qed.
#[export] Instance demo_mgmt : MgmtCodec := {|
  pc_device_info := codec (fun _ => False) (fun _ => []) (fun _ => None);
  pc_node_key := codec (fun _ => False) (fun k => nk_addr k :: nk_key k) (fun _ => None);
  pc_paired := codec (fun _ => False) (fun p => [pd_addr p]) (fun _ => None);
  pc_queue_id := codec (fun _ => False) (fun q => [qi_item q]) (fun _ => None);
  pc_node_entry := codec entry_ranged Plain.entry_bytes Plain.get_entry;
  pc_queue_entry := codec item_ranged Plain.item_bytes Plain.get_item |}.
#[export] Instance demo_entry_laws : EntryLaws.
Proof.
  split; [apply codec_laws; [apply Plain.entry_bytes_ok | apply Plain.entry_back] | apply codec_laws; [apply Plain.item_bytes_ok | apply Plain.item_back] | done | done | |].
  - intros e _. apply Plain.entry_bytes_size.
  - intros e _. apply Plain.item_bytes_size.
Qed.

(** ** A host *)

(** A request is its id, its kind and an address. *)
Definition request_of (id kind a : Z) : option MgmtRequest :=
  let req op := Some {| mreq_req_id := id; mreq_op := op |} in
  if kind =? 1 then req Msg.NodeList
  else if (kind =? 2) && (0 <=? a) && (a <=? 255) then req (NodeAdd a (replicate 16 a) "lamp"%string 0 0 0)
  else if kind =? 3 then req (QueuePush a 60 [1; 2; 3])
  else if kind =? 4 then req (PairingOpen 60)
  else if kind =? 5 then req (QueueList a)
  else if kind =? 6 then req (NodeRemove a)
  else if kind =? 7 then req PairingCancel
  else None.
Definition request_parse (l : list Z) : option (MgmtRequest * list Z) :=
  match l with id :: kind :: a :: l => option_map (fun r => (r, l)) (request_of id kind a) | _ => None end.
#[export] Instance demo_schemas : Schemas := ToySchemas.with_dropped (ToySchemas.dropped "count"%string U32).
#[export] Instance demo_console : ConsoleCodec :=
  let n {T} : Msg.Postcard T := ToyCodec.nothing in
  {| pc_hello := n; pc_log := n; pc_print := n; pc_event := n; pc_shell_response := n; pc_shell_completions := n; pc_dropped := n;
     pc_mgmt_response := n; pc_uplink := n; pc_radio_stat := n; pc_shell_command := n; pc_shell_complete := n;
     pc_mgmt_request := codec (fun _ => False) (fun r => [mreq_req_id r]) request_parse |}.
Lemma demo_typed p req : (Mgmt.from_bytes p : option MgmtRequest) = Some req -> op_typed (mreq_op req).
Proof.
  unfold Mgmt.from_bytes. cbn [take_from_bytes pc_mgmt_request demo_console codec]. destruct p as [|id [|kind [|a p]]]; try done. cbn [request_parse].
  destruct (request_of id kind a) as [r|] eqn:E; [|done]. cbn [option_map fst]. intros [= <-]. unfold request_of in E.
  destruct (kind =? 1); [by injection E as <-|]. destruct ((kind =? 2) && (0 <=? a) && (a <=? 255)) eqn:Ea.
  - apply andb_true_iff in Ea as [Ea Hu]. apply andb_true_iff in Ea as [_ Hl]. injection E as <-. split; [mlia|]. split; [done|]. split; [|split; [unfold byte_ok; lia | by apply utf8b_ok]].
    repeat constructor; lia.
  - repeat (match type of E with (if ?c then _ else _) = _ => destruct c; [injection E as <-; try exact I; by (split; [by vm_compute | repeat constructor; lia])|] end). done.
Qed.
(** The frame of a request, as the loop takes it from its inbox. *)
Definition ask (p : list Z) : list Z :=
  let inner := [18] ++ le_bytes 2 CONSOLE_TAG ++ [0; 0] ++ p in inner ++ le_bytes 4 (crc32_ieee inner).

(** ** An ordinary day *)

Definition GATEWAY : Z := 9.
Definition air_ok : TxEnv := {| t_elapsed := 60000; t_fate := Landed; t_result := Ok tt |}.
Definition asked : MgmtEnv := {| mg_now := 5000; mg_now_s := 5; mg_fate := Landed; mg_entropy := Some (replicate 96 7); mg_window_from := 5000 |}.
(** A send that hears nothing back, or [frame]. *)
Definition sends (window : list (result RadioError (list Z))) : UplinkEnv :=
  {| up_now_s := 6; up_fate := Landed; up_send := fun _ => {| at_elapsed := 60000; at_tx := Ok tt; at_window := window |};
     up_hop := {| se_now := 0; se_prep := 4; se_fate := Landed; se_tx := Ok tt; se_window := window |} |}.
Definition turn (inbox : list (list Z)) (heard : result RadioError (list Z)) (pair : list HostTurn) (window : list (result RadioError (list Z))) : TurnEnv :=
  {| tn_top := 5000; tn_inbox := map (fun f => (f, asked)) inbox; tn_now := 5000; tn_tuned := true; tn_slice := 5000; tn_pair := pair; tn_commit := 5000;
     tn_heard := (heard, -60, 0); tn_ack := air_ok; tn_master := {| me_now := 0; me_fate := Landed; me_after := 0; me_heard := fun _ => (Err CrcError, 0, 0); me_ack := air_ok |};
     tn_up := sends window; tn_hop_at := 5000; tn_stat_at := 5000; tn_idle := Some (-100) |}.
(** A device whose counter was reserved up to 100. *)
Definition used : Dev := {| txc := txc virgin; NetTxctr.stored := Some 100; prior_use := true; on_air := []; promised := 0 |}.
Definition power_up : BootEnv := {| bo_unique := GATEWAY; bo_dev := used; bo_fate := Landed; bo_past := []; bo_now := 0 |}.
(** A store where node 7 is registered. *)
Definition node7 : NodeRecord := {| GwRegistry.addr := 7; GwRegistry.key := replicate 16 7; GwRegistry.flags := 0; GwRegistry.name := lit "door" |}.
Definition node6 : NodeRecord := {| GwRegistry.addr := 6; GwRegistry.key := replicate 16 6; GwRegistry.flags := 0; GwRegistry.name := lit "lamp" |}.
Definition stored : Store := [(1, KEY_FORMAT, [FORMAT]); (1, KEY_BUCKET_BASE, default [] (GwRegistry.to_slice [node7]))].
Definition fw : list Z := lit "tower".
Definition node_frame (a c : Z) (d : list Z) : list Z :=
  frame_bytes (replicate 16 a) {| frame_type := RadioFrame.Data; flags := RadioFrame.CONFIRMED; src := a; dest := GATEWAY; RadioFrame.counter := c; bulk_index := None |} d.
Definition node_ack (a c acked : Z) : list Z :=
  frame_bytes (replicate 16 a) {| frame_type := RadioFrame.Ack; flags := 0; src := a; dest := GATEWAY; RadioFrame.counter := c; bulk_index := None |} (le_bytes 4 acked ++ [200; 0]).
Definition idle : App Store :=
  {| a_net := net_new {| c_addr := GATEWAY; c_key := zeros 16; c_band := Eu868; c_keys_stored := false |} [] used Landed []; a_fhss := disabled;
     a_writable := true; a_queue := Queue.new; a_stats := stats_new; a_pairing := None; a_period := 0; a_band := Eu868; a_channel := 0; a_parked := false;
     a_park_until := None; a_last_hop := 0; a_last_stat := 0; a_last_policy := 0; a_status := {| st_nodes := 0; st_uplinks := 0; st_queued := 0; st_hop := None |} |}.
Definition started (w : Store) : App Store := match boot w power_up with Some a => a | None => idle end.
Lemma started_booted w : boot w power_up <> None -> boot w power_up = Some (started w).
Proof. unfold started. by destruct (boot w power_up). Qed.
Definition silent : result RadioError (list Z) := Err CrcError.
(** Node 6 is added by cable and given a downlink, which it collects with its uplink; node 5 pairs over the
    air; the nodes are listed. *)
Definition day : list TurnEnv :=
  [turn [ask [1; 2; 6]; ask [2; 3; 6]] silent [] []; turn [] (Ok (node_frame 6 1 [42])) [] [Ok (node_ack 6 2 101)];
   turn [ask [3; 4; 0]] silent [NetPair.Demo.good_turn] []; turn [ask [4; 1; 0]] silent [] []].
