(* ===== verification/DongleRun.v ===== *)
(** The gateway from power-up (Dongle): what its runs promise the host and the nodes. *)
From Stdlib Require Import Sorting.Permutation.
From S2P Require Import Prelude Bytes Str GwRegistry GwQueue Proto Cobs Fingerprint Msg Frame Mgmt NetTxctr NetReplay NetWire NetPairing NetHandshake.
From S2P Require Import Radio Ccm RadioFrame NetCore NetAir Bulk NetPair NetLink Fhss Dongle DongleCore DongleThm.
#[local] Abbreviation NodeRecord := GwRegistry.NodeRecord.

Section Run.
Context {W : Type} `{NS : !NetStore W} `{AS : !AppStore W} `{AL : !AppStoreLaws W} `{Haes : !AesBlock} `{PP : !PairPrims} `{PPL : !PairPrimLaws}.
Context `{CC : ConsoleCodec} `{MC : MgmtCodec} `{GP : !GwRegistry.Postcard} `{GPL : !GwRegistry.PostcardLaws record_ok}.
Context (fw_name fw_version : list Z) `{SC : Schemas}.
#[local] Abbreviation app := (App W).

(** ** Boot *)

Lemma core_install recs : forall (n : Net W) L, CoreX [] n L Queue.new -> NoDup (map GwRegistry.addr (L ++ recs)) -> zlen (L ++ recs) <= CAPACITY ->
  Forall (fun r => peer_addr_valid (GwRegistry.addr r) (addr n) = true) recs -> CoreX [] (install n recs) (L ++ recs) Queue.new.
Proof.
  induction recs as [|r recs IH]; intros n L HC Hnd Hz Hv; [by rewrite app_nil_r|]. inversion Hv; subst. unfold install. cbn [fold_left].
  replace (L ++ r :: recs) with ((L ++ [r]) ++ recs) in * by (by rewrite <- app_assoc).
  assert (Hni : ~ In (GwRegistry.addr r) (map GwRegistry.addr L)).
  { rewrite List.map_app in Hnd. apply list.NoDup_app in Hnd as (Hnd & _ & _). rewrite List.map_app in Hnd. apply list.NoDup_app in Hnd as (_ & Hd & _).
    intros Hin. apply (Hd (GwRegistry.addr r)); [by apply list_elem_of_In | by apply list_elem_of_In; left]. }
  rewrite !zlen_app in Hz. pose proof (zlen_nonneg recs). rewrite zlen_cons, zlen_nil in Hz.
  assert (Hc : Registry.changes (Registry.Add r) L (L ++ [r])) by (right; split; [done|]; split; [lia | by rewrite <- Permutation_cons_append]).
  apply IH; [by apply (core_add _ L) | done | rewrite !zlen_app, zlen_cons, zlen_nil; lia|].
  eapply List.Forall_impl; [|eassumption]. intros r' Hr'. unfold add_peer. split_if; [done|]. cbv zeta.
  destruct (peer_at n (GwRegistry.addr r)) as [[i p]|]; [done|]. destruct (first_empty _); [|done]. by destruct (assign_lane _ _ _ _).
Qed.
Lemma guard_same w : let '(w', _) := format_guard w in forall i cap, 0 <= i < BUCKETS -> app_get w' (KEY_BUCKET_BASE + wrap8 i) cap = app_get w (KEY_BUCKET_BASE + wrap8 i) cap.
Proof.
  assert (Hf : forall i cap, 0 <= i < BUCKETS -> app_get (fst (app_set w KEY_FORMAT [FORMAT])) (KEY_BUCKET_BASE + wrap8 i) cap = app_get w (KEY_BUCKET_BASE + wrap8 i) cap).
  { intros i cap Hi. apply app_set_frame. unfold BUCKETS in Hi. rewrite wrap8_small by mlia. unfold KEY_FORMAT, KEY_BUCKET_BASE. lia. }
  unfold format_guard. destruct (app_get w KEY_FORMAT 1) as [[[n b]|]|]; try done; repeat case_match; simplify_eq; try done; by apply Hf.
Qed.
Definition stored_nodes (w : W) : list NodeRecord := Registry.nodes {| eb_kv := w; eb_writable := true |}.
(** The stored registry is one the operations leave: unique addresses, within the capacity, none reserved or
    the gateway's own. *)
Definition boots_from (w : W) (env : BootEnv) : Prop :=
  NoDup (map GwRegistry.addr (stored_nodes w)) /\ zlen (stored_nodes w) <= CAPACITY /\
  Forall (fun r => peer_addr_valid (GwRegistry.addr r) (radio_addr w (bo_unique env)) = true) (stored_nodes w).
Lemma same_install recs : forall n : Net W, app_same (kv n) (kv (install n recs)).
Proof.
  induction recs as [|r recs IH]; intros n; [done|]. intros k cap. unfold install. cbn [fold_left]. etrans; [apply IH|]. apply same_add.
Qed.
Lemma still_enable (n : Net W) now : still n (fst (enable_fhss n disabled Master {| fc_seed := 0; fc_network_key := None |} now)).
Proof. split; try done. intros k cap. apply net_set_app. Qed.
Lemma boot_inv w env (a : app) : boots_from w env -> boot w env = Some a -> AppInv a.
Proof.
  intros (B1 & B2 & B3). unfold boot. pose proof (guard_same w) as Hg. destruct (format_guard w) as [w1 foreign]. cbv zeta.
  destruct (read_band_setting w1) as [band|]; [|done]. set (b := {| eb_kv := w1; eb_writable := negb foreign |}). set (recs := if foreign then [] else _).
  assert (Hrecs : recs = if foreign then [] else stored_nodes w).
  { unfold recs. destruct foreign; [done|]. unfold stored_nodes. rewrite <- (nodes_ext _ b); [done|]. intros i Hi. simpl. by rewrite Hg. }
  set (n0 := net_new _ _ _ _ _). set (n1 := set_keyed_join _ _). assert (H1 : CoreX [] n1 [] Queue.new).
  { assert (Hl : live (peers n1) = []) by done. split; try done; [|constructor | apply pool_new].
    split; [done | rewrite Hl; constructor | rewrite Hl; constructor | rewrite Hl; constructor]. }
  assert (H2 : CoreX [] (install n1 recs) recs Queue.new).
  { apply (core_install recs n1 []); [done | rewrite Hrecs; destruct foreign; [constructor | exact B1] | rewrite Hrecs; destruct foreign; [by vm_compute | exact B2]|].
    change (addr n1) with (radio_addr w (bo_unique env)). rewrite Hrecs. by destruct foreign. }
  set (n2 := install n1 recs) in *. pose proof (still_enable n2 (bo_now env)) as Hs. set (nf := if bool_decide _ then _ else _).
  assert (Hs2 : still n2 (fst nf)) by (unfold nf; by destruct (bool_decide _)). destruct nf as [n3 f]. cbn [fst] in Hs2. intros [= <-]. unfold AppInv. cbn [a_net a_queue].
  apply (core_still [] n2); [done|]. rewrite (nodes_ext b).
  - replace (Registry.nodes b) with recs; [done|]. unfold recs. by destruct foreign.
  - intros i _. simpl. destruct (negb (negb foreign)); [done|]. rewrite (sl_store _ _ Hs2). apply (same_install recs n1).
Qed.
Lemma boot_typed w env (a : app) : boot w env = Some a -> typed a /\ (a_writable a = false -> app_same w (kv (a_net a)) /\ live (peers (a_net a)) = []).
Proof.
  unfold boot. destruct (format_guard w) as [w1 foreign] eqn:Eg. cbv zeta. destruct (read_band_setting w1) as [band|]; [|done].
  set (recs := if foreign then [] else _). set (n0 := net_new _ _ _ _ _). set (n1 := set_keyed_join _ _).
  assert (Hi : forall rs (n : Net W), TableInv n -> TableInv (install n rs) /\ default_lane_enabled (install n rs) = default_lane_enabled n).
  { induction rs as [|r rs IH]; intros n HT; [done|]. unfold install. cbn [fold_left]. destruct (IH _ (table_add n (GwRegistry.addr r) (GwRegistry.key r) HT)) as [H1 H2].
    split; [exact H1|]. etrans; [exact H2 | apply same_add]. }
  assert (HT1 : TableInv n1).
  { assert (Hl : live (peers n1) = []) by done. split; [done | rewrite Hl; constructor | rewrite Hl; constructor | rewrite Hl; constructor]. }
  destruct (Hi recs n1 HT1) as [HT2 HL2]. pose proof (same_install recs n1) as Hk. set (n2 := install n1 recs) in *.
  pose proof (still_enable n2 (bo_now env)) as Hs. set (nf := if bool_decide _ then _ else _).
  assert (Hs2 : still n2 (fst nf)) by (unfold nf; by destruct (bool_decide _)). destruct nf as [n3 f]. cbn [fst] in Hs2. intros [= <-]. unfold typed. cbn [a_net a_queue a_writable].
  split; [split; [by eapply table_still | split; [rewrite (sl_lane _ _ Hs2); exact HL2 | apply pool_new]]|].
  destruct foreign; [intros _ | done]. assert (w1 = w) as ->.
  { unfold format_guard in Eg. destruct (app_get w KEY_FORMAT 1) as [[[n b]|]|]; repeat case_match; simplify_eq; done. }
  split; [intros k cap; rewrite (sl_store _ _ Hs2); apply Hk|].
  pose proof (rows_live _ _ (sl_rows _ _ Hs2)) as Hr. change (map row (live (peers n3)) = []) in Hr. by destruct (live (peers n3)).
Qed.

(** ** The tables *)

Context (Htyped : forall p req, (Mgmt.from_bytes p : option MgmtRequest) = Some req -> op_typed (mreq_op req)).
#[local] Abbreviation loop := (run_loop fw_name fw_version).

(** C27. The gateway's peer table mirrors its registry. From a power-up on a registry the gateway left, whatever
    the radio hears, whatever the host asks for, however sends, entropy and pairings end, unless a storage
    failure was reported: a node has a peer slot exactly if it is registered, with the registered key; its
    pending flag is set exactly if an item is queued for it; and whatever is queued is for a registered node. *)
Theorem gateway_mirrors_registry w env (a0 : app) envs a out :
  boots_from w env -> boot w env = Some a0 -> Forall heard_bytes envs -> loop a0 envs = (a, out) -> existsb storage_failure out = false ->
  (forall node, option_map p_key (look (a_net a) node) = option_map GwRegistry.key (Registry.find (buckets a) node)) /\
  (forall node p, look (a_net a) node = Some p -> p_pending p = (0 <? Queue.count_for (a_queue a) node)) /\
  (forall it, In it (Queue.iter (a_queue a)) -> Registry.find (buckets a) (Queue.node_addr it) <> None).
Proof.
  intros HB Hb He Hr Ho. destruct (moves_loop fw_name fw_version Htyped envs He a0) as (ok & Hp & Hok). rewrite Hr in *. cbn [fst snd] in *.
  assert (ok = true) as -> by (destruct ok; [done | by rewrite Hok in Ho]).
  pose proof (path_inv _ _ _ Hp eq_refl (boot_inv w env a0 HB Hb)) as HI. split; [|split].
  - intros node. rewrite find_known. apply HI.
  - intros node p Hl. apply (co_pending _ _ _ _ HI); [done | by intros []].
  - intros it Hin. rewrite find_known. intros Hn. apply (core_known _ _ _ _ _ HI) in Hn. exact (co_items _ _ _ _ HI it Hin Hn).
Qed.

Lemma path_typed ok (a b : app) : path ok a b -> typed a -> typed b.
Proof. induction 1 as [a|ok1 ok2 a b c Hs Hp IH]; [done|]. intros HT. apply IH. by eapply astep_typed. Qed.
(** A life of the gateway: a power-up and a run of the main loop. *)
Definition life (w : W) (env : BootEnv) (envs : list TurnEnv) : option (app * list Msg) :=
  match boot w env with Some a => Some (loop a envs) | None => None end.
Lemma life_run w env a0 envs : boot w env = Some a0 -> life w env envs = Some (fst (loop a0 envs), snd (loop a0 envs)).
Proof. intros H. unfold life. by rewrite H, <- surjective_pairing. Qed.
(** The state in the middle of a turn, when up to [times] of its requests were handled. *)
Definition handled (times : nat) (a : app) (t : TurnEnv) : app := fst (serve fw_name fw_version times (tn_inbox t) (policy_step a (tn_top t))).
Lemma life_typed w env envs a out : life w env envs = Some (a, out) -> Forall heard_bytes envs -> typed a.
Proof.
  unfold life. destruct (boot w env) as [a0|] eqn:Hb; [|done]. intros [= Hr] He.
  destruct (moves_loop fw_name fw_version Htyped envs He a0) as (ok & Hp & _). rewrite Hr in Hp. eapply path_typed; [exact Hp | by eapply boot_typed].
Qed.
Lemma handled_typed times a t : typed a -> typed (handled times a t).
Proof.
  intros HT. destruct (moves_serve fw_name fw_version Htyped times (tn_inbox t) (policy_step a (tn_top t))) as (ok & Hp & _).
  destruct (still_policy a (tn_top t)) as [Hs Hbs]. exact (path_typed _ _ _ Hp (astep_typed true a _ (AQuiet a _ Hs Hbs) HT)).
Qed.
(** C29. The gateway's tables keep their types. Through any life of the gateway, store failures included:
    the peer table has its sixteen slots, no address twice, and each peer its own replay record among the
    sixteen reserved for them; the default lane is shut; the queue has its four slots, and the ids it holds
    are distinct and in 1..65535, as is the id the next push tries first. *)
Theorem gateway_tables_typed w env envs a out :
  life w env envs = Some (a, out) -> Forall heard_bytes envs -> typed a.
Proof. apply life_typed. Qed.

(** ** A foreign registry *)

Definition sealed_off (w : W) (a : app) : Prop := a_writable a = false /\ app_same w (kv (a_net a)) /\ TableInv (a_net a) /\ live (peers (a_net a)) = [].
Lemma off_nodes (a : app) : a_writable a = false -> Registry.nodes (buckets a) = [].
Proof. intros H. unfold Registry.nodes, Registry.load, Registry.load_checked, buckets. simpl. by rewrite H. Qed.
Lemma off_same o (a a1 : app) r : a_writable a = false -> on_buckets (Registry.run o) a = (a1, r) ->
  kv (a_net a1) = kv (a_net a) /\ peers (a_net a1) = peers (a_net a) /\ a_writable a1 = false /\ buckets a1 = buckets a.
Proof.
  intros Hw E. unfold on_buckets in E. pose proof (ops_keep (fun b : EepromBuckets W => b = buckets a) o (buckets a)) as Hk.
  destruct (Registry.run o (buckets a)) as [b r']. cbn [fst] in Hk. rewrite Hk in E; [|intros s i d ->; unfold buckets; simpl; by rewrite Hw | done].
  by injection E as <- _.
Qed.
Lemma off_refused o (a a1 : app) : a_writable a = false -> Registry.rop_ok record_ok o -> on_buckets (Registry.run o) a <> (a1, Ok tt).
Proof.
  intros Hw Ho E. destruct (off_same _ _ _ _ Hw E) as (_ & _ & _ & Hb). pose proof (off_nodes a Hw) as Hn.
  assert (HR : Registry.RegInv (buckets a)) by (unfold Registry.RegInv; rewrite Hn; split; [constructor | by vm_compute]).
  destruct (on_buckets_spec _ _ _ _ E HR Ho) as [[_ Hc] _]. rewrite Hb, Hn in Hc.
  assert (Hed : forall x e, ~ Registry.edited x e [] []) by (intros x e (r & l & _ & Hl & _); by apply Permutation_nil in Hl).
  destruct o as [rec|rec|x|x nm fl]; cbn [Registry.changes] in Hc.
  - destruct Hc as [Hc|(_ & _ & Hc)]; [by apply Hed in Hc | by apply Permutation_nil in Hc].
  - destruct Hc as [[Hc|(_ & _ & Hc)] _]; [by apply Hed in Hc | by apply Permutation_nil in Hc].
  - by apply Hed in Hc.
  - destruct Hc as (r & _ & Hc). by apply Hed in Hc.
Qed.
Lemma off_look (n : Net W) x : live (peers n) = [] -> peer_at n x = None.
Proof. intros H. apply peer_none. rewrite H. by intros []. Qed.
Lemma astep_off w ok (a b : app) : astep ok a b -> sealed_off w a -> sealed_off w b.
Proof.
  intros Hs (HW & HS & HT & HL).
  assert (Hsame : forall o r b0, on_buckets (Registry.run o) a = (b0, r) -> sealed_off w b0).
  { intros o r b0 E. destruct (off_same _ _ _ _ HW E) as (Hk & Hp & Hw0 & _). split; [done|]. split; [by rewrite Hk|]. rewrite Hp. split; [by destruct HT; split; rewrite Hp | done]. }
  assert (Hset : forall x f, fst (set_pending (a_net a) x f) = a_net a) by (intros x f; unfold set_pending; by rewrite off_look).
  destruct Hs as [a b Hst [Hq Hw]|o rec a a1 b Ho Hok E Hv Eb [Hq Hw]|node s a b Eb [Hq Hw]|node a a1 b E Eb Hq Hw|node nm fl a b Hok E|o e a b Hok E He|o a b E|node ttl d now i a b Hk Hp Eb Hw|ns a b Hin Hc Hsl Eb Hw|it a b Hin Hq Eb Hw];
    try (by eapply Hsame).
  - split; [congruence|]. split; [intros k cap; rewrite (sl_store _ _ Hst); apply HS|]. split; [by eapply table_still|].
    pose proof (rows_live _ _ (sl_rows _ _ Hst)) as Hr. rewrite HL in Hr. by destruct (live (peers (a_net b))).
  - by apply (off_refused o a a1) in Hok.
  - assert (Hn : a_net b = a_net a) by (rewrite Eb; unfold raise_peer_floor; by rewrite off_look). unfold sealed_off. by rewrite Hn, Hw.
  - by apply (off_refused (Registry.Remove node) a a1) in E.
  - by rewrite off_nodes in Hk.
  - assert (Hn : a_net b = a_net a); [|unfold sealed_off; by rewrite Hn, Hw]. rewrite Eb. clear Eb Hc. induction ns as [|x ns IH]; [done|]. cbn [fold_left]. by rewrite Hset.
  - unfold sealed_off. by rewrite Eb, Hset, Hw.
Qed.
Lemma path_off w ok (a b : app) : path ok a b -> sealed_off w a -> sealed_off w b.
Proof. induction 1 as [a|ok1 ok2 a b c Hs Hp IH]; [done|]. intros HT. apply IH. by eapply astep_off. Qed.
(** A foreign registry is left alone. If the store holds another firmware's registry format, then whatever
    is asked, heard or paired, no value of the application's namespace ever changes and no peer is ever added. *)
Theorem foreign_registry_untouched w env (a0 : app) envs a out :
  boot w env = Some a0 -> a_writable a0 = false -> Forall heard_bytes envs -> loop a0 envs = (a, out) ->
  (forall l cap, app_get (kv (a_net a)) l cap = app_get w l cap) /\ (forall node, look (a_net a) node = None).
Proof.
  intros Hb Hw He Hr. destruct (moves_loop fw_name fw_version Htyped envs He a0) as (ok & Hp & _). rewrite Hr in Hp. cbn [fst] in Hp.
  destruct (boot_typed _ _ _ Hb) as [(HT & _) Hf]. destruct (Hf Hw) as [Hs Hl].
  destruct (path_off w ok a0 a Hp) as (_ & Hs' & _ & Hl'); [done|]. split; [exact Hs'|]. intros node. unfold look. by rewrite off_look.
Qed.
End Run.

From S2P Require Import DongleDemo.
Module Demo.
Definition evening : App Store * list Msg := run_loop fw fw (started stored) day.
Lemma day_heard : Forall heard_bytes day.
Proof.
  assert (Hg : turn_bytes NetPair.Demo.good_turn) by (apply bytes_okb_ok; vm_compute; reflexivity).
  apply List.Forall_forall. intros e He. destruct He as [<-|[<-|[<-|[<-|[]]]]]; unfold heard_bytes, turn; cbn [tn_pair]; [constructor | constructor | | constructor].
  by constructor.
Qed.
Lemma stored_boots : boots_from stored power_up.
Proof.
  split; [apply (proj1 (bool_decide_eq_true (NoDup (map GwRegistry.addr (stored_nodes stored))))); vm_compute; reflexivity|].
  split; [vm_compute; discriminate|]. apply List.Forall_forall. intros r. change (stored_nodes stored) with [node7]. intros [<-|[]]. reflexivity.
Qed.
Lemma gateway_mirrors_registry_witness :
  map (option_map p_addr) (peers (a_net (fst evening))) = [Some 7; Some 6; Some 5] ++ replicate 13 None /\
  forall node, option_map p_key (look (a_net (fst evening)) node) = option_map GwRegistry.key (Registry.find (buckets (fst evening)) node).
Proof.
  split; [vm_compute; reflexivity|].
  refine (proj1 (gateway_mirrors_registry fw fw demo_typed stored power_up (started stored) day (fst evening) (snd evening) stored_boots _ day_heard _ _)).
  - apply started_booted. vm_compute. discriminate.
  - unfold evening. apply surjective_pairing.
  - vm_compute. reflexivity.
Defined.
Lemma gateway_tables_typed_witness : typed (fst evening) /\ zlen (Queue.slots (a_queue (fst evening))) = 4.
Proof.
  split; [|vm_compute; reflexivity].
  assert (Hb : boot stored power_up = Some (started stored)) by (apply started_booted; vm_compute; discriminate).
  unfold evening. exact (gateway_tables_typed fw fw demo_typed stored power_up day _ _ (life_run fw fw stored power_up (started stored) day Hb) day_heard).
Defined.
(** The same day on a store with another format. *)
Definition foreign : Store := [(1, KEY_FORMAT, [9]); (1, KEY_BUCKET_BASE, [1; 2; 3])].
Definition foreign_evening : App Store * list Msg := run_loop fw fw (started foreign) day.
Lemma foreign_registry_untouched_witness :
  app_get (kv (a_net (fst foreign_evening))) KEY_BUCKET_BASE 256 = Ok (Some (3, [1; 2; 3])) /\ forall node, look (a_net (fst foreign_evening)) node = None.
Proof.
  pose proof (foreign_registry_untouched fw fw demo_typed foreign power_up (started foreign) day (fst foreign_evening) (snd foreign_evening)) as H.
  destruct H as [H1 H2]; [apply started_booted; vm_compute; discriminate | vm_compute; reflexivity | exact day_heard | unfold foreign_evening; apply surjective_pairing|].
  split; [rewrite H1; vm_compute; reflexivity | exact H2].
Defined.
End Demo.
