(* ===== verification/DongleHost.v ===== *)
(** The gateway's answers to its host (Dongle): every request is answered once, an uplink is of a registered
    node and takes the node's oldest queued item with it. *)
From Stdlib Require Import Sorting.Permutation.
From S2P Require Import Prelude Bytes Str GwRegistry GwQueue Proto Cobs Fingerprint Msg Frame Mgmt NetTxctr NetReplay NetWire NetPairing NetHandshake.
From S2P Require Import Radio Ccm RadioFrame NetCore NetAir Bulk NetPair NetLink Fhss Dongle DongleCore DongleThm DongleRun.
#[local] Abbreviation NodeRecord := GwRegistry.NodeRecord.

Section Answers.
Context {W : Type} `{NS : !NetStore W} `{AS : !AppStore W} `{Haes : !AesBlock} `{PP : !PairPrims}.
Context `{CC : ConsoleCodec} `{MC : MgmtCodec} `{GP : !GwRegistry.Postcard}.
Context (fw_name fw_version : list Z) `{SC : Schemas}.
#[local] Abbreviation app := (App W).

(** ** Every request is answered once *)

(** The requests a list of messages finishes: the ids of the last chunks. *)
Definition final (m : Msg) : list Z := match m with MMgmtResponse r => if mresp_last r then [mresp_req_id r] else [] | _ => [] end.
Definition finals (out : list Msg) : list Z := concat (map final out).
Lemma finals_app o1 o2 : finals (o1 ++ o2) = finals o1 ++ finals o2.
Proof. unfold finals. by rewrite List.map_app, concat_app. Qed.
(** The request whose pairing window is open. *)
Definition open_req (a : app) : list Z := match a_pairing a with Some s => [ps_req_id s] | None => [] end.
Definition served (env : TurnEnv) : list Z := omap (fun e => option_map mreq_req_id (decode_request (fst e))) (take 2 (tn_inbox env)).

Definition answer (req_id : Z) (a : app) (r : app * list Msg) : Prop := a_pairing (fst r) = a_pairing a /\ finals (snd r) = [req_id].
Lemma record_final {T} `{!Msg.Postcard T} req_id (v : T) : finals (respond_record req_id v) = [req_id].
Proof. unfold respond_record. by destruct (to_slice v (zeros 96)) as [b [n|]]. Qed.
Definition stream (req_id : Z) (c : ChunkStream) : Prop := cs_req_id c = req_id /\ finals (cs_out c) = [].
(** What flushing a chunk and filling its rest keep, a push keeps. *)
Lemma push_keep (P : ChunkStream -> Prop) : (forall c, P c -> P (cs_flush c)) -> (forall c d, P c -> P (fst (cs_take c d))) ->
  forall c d, P c -> P (cs_push c d).
Proof.
  intros Hf Ht c d. unfold cs_push. generalize (length d) as fuel. intros fuel. revert c d. induction fuel as [|fuel IH]; intros c [|b d] Hc; try done.
  cbn [push_loop]. specialize (Ht (cs_flush c) (b :: d) (Hf c Hc)). destruct (cs_take _ _) as [c1 rest]. by apply IH.
Qed.
Lemma push_stream req_id c d : stream req_id c -> stream req_id (cs_push c d).
Proof.
  apply push_keep; clear; intros c; [|done]. intros [<- Hc]. unfold cs_flush. split_if; [|done]. split; [done|]. cbn [cs_out]. by rewrite finals_app, Hc.
Qed.
Lemma finish_stream req_id c : stream req_id c -> finals (cs_finish c) = [req_id].
Proof. intros [<- H]. unfold cs_finish. by rewrite finals_app, H. Qed.
Lemma fold_stream {A} req_id (f : ChunkStream -> A -> ChunkStream) l : (forall c x, stream req_id c -> stream req_id (f c x)) -> forall c, stream req_id c -> stream req_id (fold_left f l c).
Proof. intros H. induction l as [|x l IH]; intros c Hc; [done|]. by apply IH, H. Qed.
Lemma on_buckets_pairing m (a : app) : a_pairing (fst (on_buckets m a)) = a_pairing a.
Proof. unfold on_buckets. by destruct (m _). Qed.

Lemma list_answer a req_id now_s : answer req_id a (a, node_list a req_id now_s).
Proof. split; [done|]. apply finish_stream, fold_stream; [intros; by apply push_stream | done]. Qed.
Lemma queue_list_answer a req_id node now : answer req_id a (a, queue_list a req_id node now).
Proof.
  split; [done|]. apply finish_stream, fold_stream; [|done]. intros c it Hc. split_if; [done|]. destruct (to_scratch _ _); [by apply push_stream | done].
Qed.
(** A handler that goes through the registry. *)
Ltac bucket_case m := pose proof (on_buckets_pairing m) as Hb;
  match goal with |- context [on_buckets m ?a] => specialize (Hb a); destruct (on_buckets m a) as [? [[]|[]]] end; by split.
Lemma add_answer a req_id addr_ key nm fl tf rf env : answer req_id a (node_add a req_id addr_ key nm fl tf rf env).
Proof.
  unfold node_add. split_if; [done|]. destruct (net_raise_floor _ _ _) as [n saved]. cbv zeta. split_if; [done|].
  match goal with |- context [on_buckets ?m _] => bucket_case m end.
Qed.
Lemma remove_answer a req_id addr_ : answer req_id a (node_remove a req_id addr_).
Proof. unfold node_remove. match goal with |- context [on_buckets ?m _] => bucket_case m end. Qed.
Lemma update_answer a req_id addr_ nm fl : answer req_id a (node_update a req_id addr_ nm fl).
Proof. unfold node_update. split_if; [done|]. match goal with |- context [on_buckets ?m _] => bucket_case m end. Qed.
Lemma push_answer a req_id node ttl d now : answer req_id a (queue_push a req_id node ttl d now).
Proof.
  unfold queue_push. destruct (Registry.find _ _); [|done]. cbv zeta. destruct (Queue.push _ _ _ _ _) as [q [i|[]]]; try done. split; [done | apply record_final].
Qed.
Lemma drop_answer a req_id node item : answer req_id a (queue_drop a req_id node item).
Proof. unfold queue_drop. by destruct (match item with Some _ => _ | None => _ end) as [q d]. Qed.
Definition balance (ids : list Z) (a : app) (r : app * list Msg) : Prop := finals (snd r) ++ open_req (fst r) ≡ₚ open_req a ++ ids.
Lemma answer_balance req_id a r : answer req_id a r -> balance [req_id] a r.
Proof. intros [Hp Hf]. unfold balance, open_req. rewrite Hp, Hf. apply Permutation_app_comm. Qed.
Lemma silent_balance (a b : app) out : a_pairing b = a_pairing a -> finals out = [] -> balance [] a (b, out).
Proof. intros Hp Hf. unfold balance, open_req. cbn [fst snd]. by rewrite Hp, Hf, app_nil_r. Qed.
Lemma balance_app ids1 ids2 a b c o1 o2 : balance ids1 a (b, o1) -> balance ids2 b (c, o2) -> balance (ids1 ++ ids2) a (c, o1 ++ o2).
Proof.
  unfold balance. cbn [fst snd]. intros H1 H2. rewrite finals_app, <- app_assoc, H2, app_assoc, H1, app_assoc. done.
Qed.
Lemma mgmt_balance req a env : balance [mreq_req_id req] a (handle_mgmt fw_name fw_version req a env).
Proof.
  unfold handle_mgmt. cbv zeta. split_if; [by apply answer_balance|].
  destruct (mreq_op req); try by apply answer_balance.
  - apply answer_balance. split; [done | apply record_final].
  - apply answer_balance, list_answer.
  - apply answer_balance, add_answer.
  - apply answer_balance, remove_answer.
  - apply answer_balance, update_answer.
  - apply answer_balance. split; [done|]. unfold reveal_key. destruct (Registry.find _ _); [apply record_final | done].
  - unfold pairing_open, balance, open_req. destruct (a_pairing a) as [s|] eqn:E; cbn [fst snd]; [rewrite E; apply (Permutation_app_comm [_])|].
    do 2 (split_if; [by cbn [fst snd]; rewrite ?E|]). destruct (prepare _ _ _); [done | by cbn [fst snd]; rewrite ?E].
  - unfold pairing_cancel, balance, open_req. cbn [fst snd a_pairing set_pairing set_modes]. rewrite app_nil_r. by destruct (a_pairing a).
  - apply answer_balance, push_answer.
  - apply answer_balance, queue_list_answer.
  - apply answer_balance, drop_answer.
Qed.
Lemma serve_balance times : forall inbox a,
  balance (omap (fun e => option_map mreq_req_id (decode_request (fst e))) (take times inbox)) a (serve fw_name fw_version times inbox a).
Proof.
  induction times as [|times IH]; intros [|[frame env] inbox] a; cbn [serve take]; try by apply silent_balance.
  destruct (decode_request frame) as [req|] eqn:E.
  - pose proof (mgmt_balance req a env) as H1. destruct (handle_mgmt _ _ _ _ _) as [a1 o1]. specialize (IH inbox a1). destruct (serve _ _ _ _ _) as [a2 o2].
    pose proof (balance_app _ _ _ _ _ _ _ H1 IH) as H2. cbn [omap list_omap fst]. rewrite E. exact H2.
  - specialize (IH inbox a). cbn [omap list_omap fst]. rewrite E. exact IH.
Qed.
Lemma uplink_balance rx a now env : balance [] a (on_uplink rx a now env).
Proof.
  unfold on_uplink. cbv zeta. destruct (Queue.peek_for _ _ _) as [it|]; [|by apply silent_balance].
  unfold deliver. case_bool_decide.
  - destruct (fhss_send _ _ _ _ _ _) as [[n f] r]. apply silent_balance; [by destruct r | done].
  - destruct (send _ _ _ _ _ _ _) as [n r]. apply silent_balance; [by destruct r | done].
Qed.
Lemma forward_balance r a env : balance [] a (forward r a env).
Proof. destruct r; [apply uplink_balance | by apply silent_balance]. Qed.
Lemma pairing_balance sess a env : a_pairing a = Some sess -> balance [] a (pairing_slice sess a env).
Proof.
  intros Hp. unfold pairing_slice. set (a0 := if hopping a && _ then _ else a). assert (H0 : a_pairing a0 = Some sess) by (unfold a0; by split_if). cbv zeta.
  assert (Ho : forall b out, a_pairing b = None -> finals out = [ps_req_id sess] -> balance [] a (b, out)).
  { intros b out Hb Hf. unfold balance, open_req. cbn [fst snd]. by rewrite Hb, Hf, Hp. }
  do 2 (split_if; [by apply Ho|]). destruct (open_pairing _ _ _) as [[n host] [p|]].
  - unfold commit_pairing. cbv zeta. match goal with |- context [on_buckets ?m ?x] => pose proof (on_buckets_pairing m x) as Hb; destruct (on_buckets m x) as [a1 [[]|e]] end; cbn [fst] in Hb.
    + split_if; (apply Ho; [done | apply record_final]).
    + destruct e; split_if; by apply Ho.
  - unfold balance, open_req. by rewrite Hp.
Qed.
Lemma radio_balance a env : balance [] a (radio_step a env).
Proof.
  assert (Hs : balance [] a (recv_slice a env)).
  { unfold recv_slice. destruct (tn_heard env) as [[h rssi] lqi]. destruct (recv _ _ _ _ _) as [n r]. apply (forward_balance r (set_net a n) env). }
  unfold radio_step. destruct (a_pairing a) as [sess|] eqn:E; [by apply pairing_balance|]. split_if; [done|]. split_if; [|done].
  unfold hop_slot. set (a0 := if a_parked a then _ else a). assert (H0 : open_req a0 = open_req a) by (unfold a0, open_req; by destruct (a_parked a)).
  destruct (fhss_master_tick _ _ _) as [[n f] slot]. pose proof (forward_balance match slot with Some s => ms_received s | None => None end (set_radio a0 n f) env) as H1.
  unfold balance in *. by rewrite H1, <- H0.
Qed.
Lemma refresh_pairing (l : list (Z * Z)) : forall a : app, a_pairing (fold_left (fun a e => refresh_pending a (snd e)) l a) = a_pairing a.
Proof. induction l as [|e l IH]; intros a; [done|]. cbn [fold_left]. by rewrite IH. Qed.
Lemma turn_balance a env : balance (served env) a (loop_turn fw_name fw_version a env).
Proof.
  unfold loop_turn. set (a0 := policy_step a (tn_top env)). assert (E0 : open_req a0 = open_req a) by (unfold a0, policy_step, open_req; by split_if). cbv zeta.
  pose proof (serve_balance 2 (tn_inbox env) a0) as H1. destruct (serve _ _ _ _ _) as [a1 o1]. pose proof (radio_balance a1 env) as H2. destruct (radio_step a1 env) as [a2 o2].
  set (a3 := hop_stat_step _ _). assert (H3 : balance [] a2 (a3, [])) by (apply silent_balance; [unfold a3, hop_stat_step; by split_if | done]).
  assert (H4 : balance [] a3 (expire_step a3 (tn_now env))).
  { unfold expire_step. destruct (Queue.expire _ _) as [q ex]. apply silent_balance; [split_if; [|unfold stat_queued, set_tables; cbn [a_pairing]]; by rewrite refresh_pairing|].
    generalize (take (Z.to_nat QUEUE_CAP) ex) as l. intros l. induction l as [|x l IH]; [done | exact IH]. }
  destruct (expire_step a3 (tn_now env)) as [a4 o4].
  assert (H5 : balance [] a4 (stat_step a4 env)) by (unfold stat_step; split_if; [destruct (tn_idle env)|]; by apply silent_balance).
  destruct (stat_step a4 env) as [a5 o5].
  pose proof (balance_app _ _ _ _ _ _ _ H1 (balance_app _ _ _ _ _ _ _ H2 (balance_app _ _ _ _ _ _ _ H3 (balance_app _ _ _ _ _ _ _ H4 H5)))) as H.
  unfold balance in *. cbn [fst snd List.app] in *. rewrite H, E0. by rewrite app_nil_r.
Qed.

(** C28. Every request is answered once. Over any run of the main loop, whatever is asked, heard or stored, the
    final chunks sent are, as a multiset of request ids, those of the requests the loop took from its inbox
    and of a pairing that was already open, but for a pairing that is still open: no request is dropped, and
    none is answered twice or under another's id. *)
Theorem requests_answered_once (a : app) envs a' out :
  run_loop fw_name fw_version a envs = (a', out) -> finals out ++ open_req a' ≡ₚ open_req a ++ concat (map served envs).
Proof.
  revert a a' out. induction envs as [|env envs IH]; intros a a' out; cbn [run_loop map concat].
  - intros [= <- <-]. by rewrite app_nil_r.
  - pose proof (turn_balance a env) as H1. destruct (loop_turn _ _ _ _) as [a1 o1]. destruct (run_loop _ _ a1 envs) as [a2 o2] eqn:E. intros [= <- <-].
    apply (balance_app (served env) _ a a1 a2 o1 o2 H1 (IH _ _ _ E)).
Qed.
End Answers.

(** ** Uplinks *)

Section Uplinks.
Context {W : Type} `{NS : !NetStore W} `{AS : !AppStore W} `{AL : !AppStoreLaws W} `{Haes : !AesBlock} `{PP : !PairPrims}.
Context `{CC : ConsoleCodec} `{MC : MgmtCodec} `{GP : !GwRegistry.Postcard}.
#[local] Abbreviation app := (App W).

Lemma respond_no_uplink {T} `{!Msg.Postcard T} req_id (v : T) u : ~ In (MUplink u) (respond_record req_id v).
Proof. unfold respond_record. destruct (to_slice v (zeros 96)) as [b [n|]]; by intros [|[]]. Qed.
Lemma forward_uplink r (a : app) env u : In (MUplink u) (snd (forward r a env)) -> exists rx, r = Some rx /\ uplink_src u = rv_src rx.
Proof.
  destruct r as [rx|]; [|done]. intros H. exists rx. split; [done|]. cbn [forward] in H. unfold on_uplink in H. cbv zeta in H.
  destruct (Queue.peek_for _ _ _) as [it|].
  - destruct (deliver _ _ _ _) as [a2 r]. destruct H as [H|[H|[]]]; [|done]. by injection H as <-.
  - destruct H as [H|[]]. by injection H as <-.
Qed.
Lemma still_peer (n n' : Net W) x : still n n' -> TableInv n -> peer_at n' x <> None -> peer_at n x <> None.
Proof.
  intros Hs HT Hx. apply look_some. apply look_some in Hx. pose proof (look_still _ _ x Hs HT) as Hl. destruct (look n x); [done|]. by rewrite Hl in Hx.
Qed.
Lemma master_registered (n : Net W) f env s r : TableInv n -> default_lane_enabled n = false -> snd (fhss_master_tick n f env) = Some s ->
  ms_received s = Some r -> peer_at n (rv_src r) <> None.
Proof.
  intros HT HL. unfold fhss_master_tick. split_if; [done|]. destruct (f_anchor f) as [anchor|]; [|done]. cbv zeta.
  match goal with |- context [fhss_tx_beacon n ?f ?s ?c ?o] => pose proof (still_beacon n f s c o) as Hb; destruct (fhss_tx_beacon n f s c o) as [n1 f1] end.
  cbn [fst] in Hb. split_if; [|by intros [= <-]]. destruct (me_heard _ _) as [[heard rssi] lqi]. pose proof (recv_registered n1 heard rssi lqi (me_ack env)) as Hr.
  destruct (recv _ _ _ _ _) as [n2 r2]. intros [= <-] [= ->]. apply (still_peer n n1); [done | done|]. apply Hr; [by rewrite (sl_lane _ _ Hb) | done].
Qed.
(** The addresses whose uplinks are in [out]. *)
Definition heard_from (out : list Msg) : list Z := flat_map (fun m => match m with MUplink u => [uplink_src u] | _ => [] end) out.
Lemma heard_from_In out x : In x (heard_from out) -> exists u, In (MUplink u) out /\ uplink_src u = x.
Proof. unfold heard_from. rewrite in_flat_map. intros (m & Hm & Hx). destruct m; try by destruct Hx. destruct Hx as [<-|[]]. eauto. Qed.
Lemma radio_registered (a : app) env x :
  TableInv (a_net a) -> default_lane_enabled (a_net a) = false -> In x (heard_from (snd (radio_step a env))) -> look (a_net a) x <> None.
Proof.
  intros HT HL (u & Hin & <-)%heard_from_In. revert Hin. assert (Hrecv : In (MUplink u) (snd (recv_slice a env)) -> look (a_net a) (uplink_src u) <> None).
  { unfold recv_slice. destruct (tn_heard env) as [[h rssi] lqi]. pose proof (recv_registered (a_net a) h rssi lqi (tn_ack env)) as Hr.
    destruct (recv _ _ _ _ _) as [n r]. intros Hin. apply forward_uplink in Hin as (rx & -> & ->). apply look_some. by apply Hr. }
  unfold radio_step. destruct (a_pairing a) as [sess|].
  { unfold pairing_slice. cbv zeta. split_if; [by intros [|[]]|]. split_if; [by intros [|[]]|]. destruct (open_pairing _ _ _) as [[n host] [p|]]; [|by intros []].
    unfold commit_pairing. cbv zeta. destruct (on_buckets _ _) as [a1 [[]|e]]; [|destruct e]; split_if; cbn [snd]; try (by intros [|[]]); intros Hin; by apply respond_no_uplink in Hin. }
  split_if; [exact Hrecv|]. split_if; [|exact Hrecv]. unfold hop_slot. set (a0 := if a_parked a then _ else a).
  assert (Hs0 : still (a_net a) (a_net a0)) by (unfold a0; destruct (a_parked a); [unfold fhss_resume; by split_if | done]).
  pose proof (master_registered (a_net a0) (a_fhss a0) (tn_master env)) as Hm. destruct (fhss_master_tick _ _ _) as [[n f] slot].
  intros Hin. apply forward_uplink in Hin as (rx & Hsome & ->). destruct slot as [s|]; [|done]. apply look_some, (still_peer (a_net a) (a_net a0)); [done | done|].
  apply (Hm s); [by eapply table_still | by rewrite (sl_lane _ _ Hs0) | done | done].
Qed.
(** Nothing but the radio's step forwards uplinks. *)
Definition response (m : Msg) : bool := match m with MMgmtResponse _ => true | _ => false end.
Lemma responses_silent out : forallb response out = true -> heard_from out = [].
Proof. induction out as [|m out IH]; [done|]. cbn [forallb]. intros [Hm Ho]%andb_true_iff. unfold heard_from in *. cbn [flat_map]. rewrite (IH Ho). by destruct m. Qed.
Lemma record_responses {T} `{!Msg.Postcard T} req_id (v : T) : forallb response (respond_record req_id v) = true.
Proof. unfold respond_record. by destruct (to_slice v (zeros 96)) as [b [n|]]. Qed.
Definition plain (c : ChunkStream) : Prop := forallb response (cs_out c) = true.
Lemma push_plain c d : plain c -> plain (cs_push c d).
Proof.
  apply push_keep; clear; unfold plain; intros c; [|done]. unfold cs_flush. split_if; [|done]. cbn [cs_out]. intros Hc. by rewrite forallb_app, Hc.
Qed.
Lemma fold_plain {A} (f : ChunkStream -> A -> ChunkStream) l : (forall c x, plain c -> plain (f c x)) -> forall c, plain c -> forallb response (cs_finish (fold_left f l c)) = true.
Proof.
  intros H. induction l as [|x l IH]; intros c Hc; [|by apply IH, H]. cbn [fold_left]. unfold cs_finish. by rewrite forallb_app, Hc.
Qed.
Context (fw_name fw_version : list Z) `{SC : Schemas}.
Lemma mgmt_responses req (a : app) env : forallb response (snd (handle_mgmt fw_name fw_version req a env)) = true.
Proof.
  unfold handle_mgmt. cbv zeta. split_if; [done|]. destruct (mreq_op req); try done; cbn [snd].
  - apply record_responses.
  - apply fold_plain; [intros; by apply push_plain | done].
  - unfold node_add. split_if; [done|]. destruct (net_raise_floor _ _ _) as [n saved]. cbv zeta. split_if; [done|]. destruct (on_buckets _ _) as [a1 [[]|[]]]; done.
  - unfold node_remove. by destruct (on_buckets _ _) as [a1 [[]|[]]].
  - unfold node_update. split_if; [done|]. by destruct (on_buckets _ _) as [a1 [[]|[]]].
  - unfold reveal_key. destruct (Registry.find _ _); [apply record_responses | done].
  - unfold pairing_open. destruct (a_pairing a); [done|]. do 2 (split_if; [done|]). by destruct (prepare _ _ _).
  - unfold pairing_cancel. cbn [snd]. by destruct (a_pairing a).
  - unfold queue_push. destruct (Registry.find _ _); [|done]. cbv zeta. destruct (Queue.push _ _ _ _ _) as [q [i|[]]]; try done. apply record_responses.
  - apply fold_plain; [|done]. intros c it Hc. split_if; [done|]. destruct (to_scratch _ _); [by apply push_plain | done].
  - unfold queue_drop. by destruct (match _ with Some _ => _ | None => _ end) as [q d].
Qed.
Lemma serve_responses times : forall inbox (a : app), forallb response (snd (serve fw_name fw_version times inbox a)) = true.
Proof.
  induction times as [|times IH]; intros [|[frame env] inbox] a; try done. cbn [serve]. destruct (decode_request frame) as [req|]; [|apply IH].
  pose proof (mgmt_responses req a env) as H1. destruct (handle_mgmt _ _ _ _ _) as [a1 o1]. specialize (IH inbox a1). destruct (serve _ _ _ _ _) as [a2 o2].
  cbn [snd] in *. by rewrite forallb_app, H1.
Qed.
Lemma heard_in_radio (a : app) env x : In x (heard_from (snd (loop_turn fw_name fw_version a env))) -> In x (heard_from (snd (radio_step (handled fw_name fw_version 2 a env) env))).
Proof.
  unfold loop_turn, handled. pose proof (serve_responses 2 (tn_inbox env) (policy_step a (tn_top env))) as H1. destruct (serve _ _ _ _ _) as [a1 o1]. cbn [fst snd] in *.
  destruct (radio_step a1 env) as [a2 o2]. set (a3 := hop_stat_step _ _). cbn [snd].
  assert (H3 : heard_from (snd (expire_step a3 (tn_now env))) = []).
  { unfold expire_step. destruct (Queue.expire _ _) as [q ex]. cbn [snd]. generalize (take (Z.to_nat QUEUE_CAP) ex) as l. intros l. by induction l. }
  destruct (expire_step a3 _) as [a4 o3].
  assert (H4 : heard_from (snd (stat_step a4 env)) = []) by (unfold stat_step; split_if; [by destruct (tn_idle env) | done]).
  destruct (stat_step a4 env) as [a5 o4]. cbn [snd] in *. unfold heard_from in *. rewrite !flat_map_app, H3, H4. cbn [List.app]. rewrite app_nil_r.
  change (flat_map _ o1) with (heard_from o1). by rewrite responses_silent.
Qed.

Context `{PPL : !PairPrimLaws} `{GPL : !GwRegistry.PostcardLaws record_ok}.
Context (Htyped : forall p req, (Mgmt.from_bytes p : option MgmtRequest) = Some req -> op_typed (mreq_op req)).
(** C30. Only registered nodes are heard. From any power-up, after any run of the main loop, whatever the host asked
    and the radio heard, whatever failed: every uplink the next turn forwards to the host, be it from a
    receive slice or a hop slot, is from an address that has a slot in the peer table once that turn's
    requests are handled (the boot shuts the unauthenticated default lane and nothing opens it again). *)
Theorem uplinks_are_registered w env envs (a : app) out t x :
  life fw_name fw_version w env envs = Some (a, out) -> Forall heard_bytes envs ->
  In x (heard_from (snd (loop_turn fw_name fw_version a t))) -> look (a_net (handled fw_name fw_version 2 a t)) x <> None.
Proof.
  intros HL He Hin%heard_in_radio. destruct (handled_typed fw_name fw_version Htyped 2 a t (life_typed _ _ Htyped _ _ _ _ _ HL He)) as (HT & Hl & _).
  by eapply radio_registered.
Qed.

(** The order of [min_by_key]. *)
Lemma min_least l it : Queue.min_by_order l = Some it -> Forall (fun x => Queue.order it <= Queue.order x) l.
Proof.
  unfold Queue.min_by_order. assert (Hg : forall l acc, fold_left (fun acc it => match acc with None => Some it | Some m => if Queue.order it <? Queue.order m then Some it else Some m end) l acc = Some it ->
    Forall (fun x => Queue.order it <= Queue.order x) l /\ forall m, acc = Some m -> Queue.order it <= Queue.order m).
  { clear l. induction l as [|x l IH]; intros acc; cbn [fold_left]; [intros ->; split; [constructor | intros m [= ->]; lia]|]. intros H. destruct (IH _ H) as [H1 H2].
    destruct acc as [m|].
    - destruct (Z.ltb_spec (Queue.order x) (Queue.order m)); specialize (H2 _ eq_refl); (split; [constructor; [lia | done] | intros m' [= <-]; lia]).
    - specialize (H2 _ eq_refl). split; [by constructor | done]. }
  intros H. by apply (Hg l None) in H as [H _].
Qed.
Definition pending_for (a : app) (node : Z) : bool := match look (a_net a) node with Some p => p_pending p | None => false end.
Lemma refreshed (a : app) node : TableInv (a_net a) /\ look (a_net a) node <> None ->
  pending_for (stat_queued (refresh_pending a node)) node = (0 <? Queue.count_for (a_queue a) node).
Proof.
  intros [HT Hk]. unfold pending_for, refresh_pending, net_do. cbn [a_net stat_queued set_tables set_net set_radio].
  pose proof (pending_changed (a_net a) node (0 <? Queue.count_for (a_queue a) node) HT) as Hp. destruct (look (a_net a) node) as [p|]; [|done].
  destruct Hp as (p' & _ & Hb & Hc). by rewrite (cg_at _ _ _ _ Hc).
Qed.
Lemma still_known (n n' : Net W) node : still n n' -> TableInv n -> look n node <> None -> TableInv n' /\ look n' node <> None.
Proof.
  intros Hs HT Hk. split; [by eapply table_still|]. pose proof (look_still n n' node Hs HT) as Hl. destruct (look n node); [|done]. by destruct Hl as (p' & -> & _).
Qed.
(** C31. An uplink takes its node's oldest downlink with it. The uplink is forwarded as it came, and if the node
    has a queued item whose time has not passed, the oldest such item is sent, its outcome reported under its
    id, and it leaves the queue exactly if it was delivered: nothing else leaves or moves; afterwards the node's
    pending flag says whether something is still queued for it. *)
Theorem uplink_takes_oldest (a : app) rx now env : TableInv (a_net a) -> pool (a_queue a) -> look (a_net a) (rv_src rx) <> None ->
  let '(a', out) := on_uplink rx a now env in
  let fresh it := (Queue.node_addr it =? rv_src rx) && negb (Queue.expired it now) in
  let up := uplink (rv_src rx) (rv_counter rx) (rv_rssi rx) (rv_lqi rx) (rv_data rx) in
  pending_for a' (rv_src rx) = (0 <? Queue.count_for (a_queue a') (rv_src rx)) /\
  ((out = [up] /\ a_queue a' = a_queue a /\ List.filter fresh (Queue.iter (a_queue a)) = []) \/
   exists it r ack, In it (Queue.iter (a_queue a)) /\ fresh it = true /\
     Forall (fun x => fresh x = true -> Queue.order it <= Queue.order x) (Queue.iter (a_queue a)) /\
     r = snd (deliver (stat_uplink (set_tables a (a_queue a) (stats_on_uplink (a_stats a) (rv_src rx) (rv_rssi rx) (up_now_s env)) (a_status a))) (rv_src rx) (Queue.data it) env) /\
     out = [up; radio_stat (StatTx (rv_src rx) (Queue.id it) (outcome_code r) ack)] /\
     match r with Delivered => Queue.iter (a_queue a) ≡ₚ it :: Queue.iter (a_queue a') | _ => a_queue a' = a_queue a end).
Proof.
  intros HT HP Hk. unfold on_uplink. cbv zeta. set (a1 := stat_uplink _). change (a_queue a1) with (a_queue a).
  set (fresh := fun it => (Queue.node_addr it =? rv_src rx) && negb (Queue.expired it now)).
  assert (H1 : still (a_net a) (a_net a1)) by done. destruct (Queue.peek_for (a_queue a) (rv_src rx) now) as [it|] eqn:E.
  - pose proof (still_deliver a1 (rv_src rx) (Queue.data it) env) as [Hs [Hq Hw]]. destruct (deliver a1 _ _ _) as [a2 r] eqn:Ed. cbn [fst] in Hs, Hq, Hw.
    change (a_queue a1) with (a_queue a) in Hq. pose proof (peek_In _ _ _ _ E) as (Hin & Hnode & Hexp). split.
    + apply (refreshed (match r with Delivered => _ | _ => a2 end)); destruct r; (apply (still_known (a_net a)); [exact Hs | exact HT | exact Hk]).
    + right. eexists it, r, _. split; [done|]. split; [unfold fresh; by rewrite Hnode, Z.eqb_refl, Hexp|]. split; [|split; [fold a1; by rewrite Ed|split; [done|]]].
      * apply List.Forall_forall. intros x Hx Hf. unfold Queue.peek_for in E. apply min_least in E. rewrite List.Forall_forall in E. apply E, List.filter_In. by split.
      * destruct r; try exact Hq. cbn [a_queue stat_queued set_tables refresh_pending net_do set_net set_radio set_queue]. rewrite Hq. by apply pop_spec.
  - split; [apply (refreshed a1), (still_known (a_net a)); [exact H1 | exact HT | exact Hk]|]. left. split; [done|]. split; [done|]. unfold Queue.peek_for in E. fold fresh in E.
    destruct (List.filter fresh (Queue.iter (a_queue a))) as [|x l]; [done|]. exfalso. unfold Queue.min_by_order in E. cbn [fold_left] in E. revert E. generalize x as y. clear.
    induction l as [|z l IH]; intros y; cbn [fold_left]; [done|]. destruct (_ <? _); apply IH.
Qed.
End Uplinks.

(** ** What two reports say *)

Section Reports.
Context {W : Type} `{NS : !NetStore W} `{AS : !AppStore W} `{Haes : !AesBlock}.
Lemma await_none n key heard : forall wait : AckWait, snd (await_ack n key wait heard) = false -> fst (await_ack n key wait heard : Net W * bool) = n.
Proof.
  induction heard as [|[buf|e] heard IH]; intros wait; cbn [await_ack]; [done | |].
  - destruct (open_frame key buf) as [b [[h [lo hi]]|]]; [|apply IH]. cbv zeta. destruct (offer _ _ _ _ _) as [w v]. split_if; [done | apply IH].
  - split_if; [apply IH | done].
Qed.
(** The RSSI a downlink's report carries, taken after its send. *)
Definition acked_rssi (a : App W) : option Z := option_map rssi (last_ack (a_net a)).
Lemma hop_keeps_ack (a : App W) node d env : access (a_net a) = NetCore.Fhss -> snd (deliver a node d env) <> Delivered ->
  acked_rssi (fst (deliver a node d env)) = acked_rssi a.
Proof.
  intros HA HD. unfold acked_rssi. f_equal. revert HD. unfold deliver. rewrite bool_decide_eq_true_2 by done. unfold fhss_send. repeat (split_if; [done|]).
  destruct (f_anchor _) as [anchor|]; [|done]. cbv zeta. split_if; [done|]. unfold net_alloc. destruct (alloc_counter _ _) as [t [c|]]; [|done].
  destruct (seal_frame _ _ _ _) as [buf [len|]]; [|done]. destruct (se_tx (up_hop env)); [|done]. cbn [negb].
  match goal with |- context [await_ack ?m ?k ?w ?h] => pose proof (await_none m k h w) as Hw; destruct (await_ack m k w h) as [n2 acked] end.
  cbn [fst snd] in Hw. destruct acked; [done|]. intros _. by rewrite Hw.
Qed.
Lemma try_ack n e t : last_ack (fst (try_tx n e t : Net W * bool)) = last_ack n.
Proof. unfold try_tx. by destruct (try_consume _ _). Qed.
Lemma loop_clears_ack reps e dest confirmed env : forall attempt result n, last_ack n = None ->
  let '(n', r) := send_loop reps attempt e dest confirmed env result n in r <> Delivered -> last_ack (n' : Net W) = None.
Proof.
  induction reps as [|reps IH]; intros attempt result n Hn; cbn [send_loop]; [done|]. cbv zeta. set (n0 := match attempt with O => n | S _ => _ end).
  assert (H0 : last_ack n0 = None) by (unfold n0; destruct attempt; exact Hn).
  pose proof (try_ack n0 (at_elapsed (env attempt)) (frame_toa_ms (zlen (a_frame e)))) as Ht. destruct (try_tx n0 _ _) as [n1 ok]. cbn [fst] in Ht. rewrite H0 in Ht.
  split_if; [done|]. destruct (at_tx (env attempt)) as [u|err]; [|case_bool_decide; [by apply IH | done]]. split_if; [done|].
  match goal with |- context [await_ack ?m ?k ?w ?h] => pose proof (await_none m k h w) as Hw; destruct (await_ack m k w h) as [n3 acked] end.
  cbn [fst snd] in Hw. destruct acked; [done|]. apply IH. by rewrite Hw.
Qed.
Lemma send_clears_ack (a : App W) node d env : access (a_net a) <> NetCore.Fhss -> snd (deliver a node d env) <> Delivered ->
  acked_rssi (fst (deliver a node d env)) = None.
Proof.
  intros HA. unfold deliver. rewrite bool_decide_eq_false_2 by done. unfold acked_rssi, send. do 4 (split_if; [done|]). unfold net_alloc.
  destruct (alloc_counter _ _) as [t [c|]]; [|done]. cbv zeta. destruct (seal_frame _ _ _ _) as [buf [len|]]; [|done].
  match goal with |- context [send_loop ?k ?j ?e ?x ?c ?v ?r ?m] => pose proof (loop_clears_ack k e x c v j r m eq_refl) as Hl; destruct (send_loop k j e x c v r m) as [n' r'] end.
  cbn [fst snd a_net set_net set_radio]. intros Hr. by rewrite (Hl Hr).
Qed.
(** C40. A failed hopping downlink reports an old acknowledgement. When an uplink meets a queued item and its send
    fails, refused or unanswered, the gateway's report to the host names the item and the failure; its RSSI is
    none where the send was an ordinary one, which first clears the last acknowledgement's metadata, but on the
    hopping band it is that of the acknowledgement recorded before the send, if any was. *)
Theorem failed_hop_reports_old_ack (a : App W) rx now env it :
  Queue.peek_for (a_queue a) (rv_src rx) now = Some it ->
  let r := snd (deliver a (rv_src rx) (Queue.data it) env) in r <> Delivered ->
  snd (on_uplink rx a now env) =
    [uplink (rv_src rx) (rv_counter rx) (rv_rssi rx) (rv_lqi rx) (rv_data rx);
     radio_stat (StatTx (rv_src rx) (Queue.id it) (outcome_code r) (if bool_decide (access (a_net a) = NetCore.Fhss) then acked_rssi a else None))].
Proof.
  intros Hq r Hr. unfold on_uplink. set (a1 := stat_uplink _). change (a_queue a1) with (a_queue a). rewrite Hq.
  assert (E : snd (deliver a1 (rv_src rx) (Queue.data it) env) = r).
  { unfold r, deliver. change (a_net a1) with (a_net a). change (a_fhss a1) with (a_fhss a). split_if; [by destruct (fhss_send _ _ _ _ _ _) as [[? ?] ?] | by destruct (send _ _ _ _ _ _ _)]. }
  rewrite <- E in *. assert (Hack : acked_rssi (fst (deliver a1 (rv_src rx) (Queue.data it) env)) = if bool_decide (access (a_net a) = NetCore.Fhss) then acked_rssi a else None).
  { case_bool_decide as HA; [by rewrite hop_keeps_ack | by apply send_clears_ack]. }
  clearbody a1 r. destruct (deliver a1 _ _ _) as [a2 r2]. cbn [fst snd] in *. unfold acked_rssi in Hack at 1. rewrite <- Hack. by destruct r2.
Qed.
(** A band setting longer than the read buffer, in the namespace the applications share, stops the boot. *)
Theorem long_band_setting_panics `{GP : !GwRegistry.Postcard} (w : W) n b env :
  shell_get (fst (format_guard w)) SET_BAND 8 = Ok (Some (n, b)) -> 8 < n -> boot w env = None.
Proof.
  intros Hs Hn. unfold boot, read_band_setting. destruct (format_guard w) as [w1 foreign]. cbn [fst] in Hs. rewrite Hs.
  by replace (8 <? n) with true by (symmetry; apply Z.ltb_lt; lia).
Qed.
End Reports.

From S2P Require Import DongleDemo.
Module HostDemo.
Definition evening : App Store * list Msg := run_loop fw fw (started stored) day.
Lemma requests_answered_once_witness : finals (snd evening) ≡ₚ [1; 2; 3; 4] /\ open_req (fst evening) = [].
Proof.
  assert (Ho : open_req (fst evening) = []) by (vm_compute; reflexivity). split; [|exact Ho].
  assert (Hs : open_req (started stored) ++ concat (map served day) = [1; 2; 3; 4]) by (vm_compute; reflexivity).
  pose proof (requests_answered_once fw fw (started stored) day (fst evening) (snd evening) (surjective_pairing (run_loop fw fw (started stored) day))) as H.
  rewrite Ho, app_nil_r, Hs in H. exact H.
Defined.
(** After the first turn: node 6 added, an item queued for it. *)
Definition first_turn : TurnEnv := turn [ask [1; 2; 6]; ask [2; 3; 6]] silent [] [].
Definition morning : App Store := fst (run_loop fw fw (started stored) [first_turn]).
Lemma first_heard : Forall heard_bytes [first_turn].
Proof. repeat constructor. Qed.
Definition second_turn : TurnEnv := turn [] (Ok (node_frame 6 1 [42])) [] [Ok (node_ack 6 2 101)].
Lemma morning_typed : typed morning.
Proof.
  destruct (moves_loop fw fw demo_typed [first_turn] first_heard (started stored)) as (ok & Hp & _).
  eapply path_typed; [exact Hp|]. apply (boot_typed stored power_up). apply started_booted. vm_compute. discriminate.
Qed.
Lemma uplinks_are_registered_witness :
  heard_from (snd (loop_turn fw fw morning second_turn)) = [6] /\ look (a_net (handled fw fw 2 morning second_turn)) 6 <> None.
Proof.
  assert (Hh : heard_from (snd (loop_turn fw fw morning second_turn)) = [6]) by (vm_compute; reflexivity).
  assert (Hin : In 6 (heard_from (snd (loop_turn fw fw morning second_turn)))) by (vm_compute; left; reflexivity).
  assert (Hb : boot stored power_up = Some (started stored)) by (apply started_booted; vm_compute; discriminate).
  split; [exact Hh|]. exact (uplinks_are_registered fw fw demo_typed stored power_up [first_turn] morning _ second_turn 6
    (life_run fw fw stored power_up (started stored) [first_turn] Hb) first_heard Hin).
Defined.
Definition heard : Received := {| rv_src := 6; rv_counter := 1; rv_rssi := -60; rv_lqi := 0; rv_confirmed := true; rv_data := [42] |}.
(** The send takes counter 100: the node acknowledges it. *)
Definition collects : UplinkEnv := sends [Ok (node_ack 6 2 100)].
Lemma uplink_takes_oldest_witness :
  let '(a', out) := on_uplink heard morning 5000 collects in
  pending_for morning 6 = true /\ pending_for a' 6 = (0 <? Queue.count_for (a_queue a') 6) /\
  out = [uplink 6 1 (-60) 0 [42]; radio_stat (StatTx 6 1 TX_DELIVERED (Some (-56)))].
Proof.
  assert (Hp : pending_for morning 6 = true) by (vm_compute; reflexivity).
  assert (Ho : snd (on_uplink heard morning 5000 collects) = [uplink 6 1 (-60) 0 [42]; radio_stat (StatTx 6 1 TX_DELIVERED (Some (-56)))]) by (vm_compute; reflexivity).
  assert (Hk : look (a_net morning) (rv_src heard) <> None) by (vm_compute; discriminate).
  pose proof (uplink_takes_oldest morning heard 5000 collects (proj1 morning_typed) (proj2 (proj2 morning_typed)) Hk) as H.
  destruct (on_uplink heard morning 5000 collects) as [a' out]. destruct H as [H _]. split; [exact Hp|]. split; [exact H | exact Ho].
Defined.
(** A hopping gateway that once had an acknowledgement, and a downlink nobody acknowledges. *)
Definition us_start : App Store := started ((2, SET_BAND, [117; 115; 57; 49; 53]) :: stored).
Definition us_gateway : App Store :=
  set_net us_start (set_marks (a_net us_start) (ack_meta (le_bytes 4 77 ++ [200; 0])) None).
(** An item is queued for node 7 here, and for node 6 on the channel of [morning]. *)
Definition us_waiting : App Store := set_queue us_gateway (fst (Queue.push Queue.new 7 60 [1] 5000)).
Definition eu_waiting : App Store := set_net morning (set_marks (a_net morning) (ack_meta (le_bytes 4 77 ++ [200; 0])) None).
Definition knocks (x : Z) : Received := {| rv_src := x; rv_counter := 1; rv_rssi := -60; rv_lqi := 0; rv_confirmed := true; rv_data := [42] |}.
Lemma some_map {A B} (f : A -> B) o b : option_map f o = Some b -> exists x, o = Some x /\ f x = b.
Proof. destruct o as [x|]; [intros [= <-]; eauto | done]. Qed.
Lemma failed_hop_reports_old_ack_witness :
  snd (on_uplink (knocks 7) us_waiting 5000 (sends [])) = [uplink 7 1 (-60) 0 [42]; radio_stat (StatTx 7 1 TX_NOT_DELIVERED (Some (-56)))] /\
  acked_rssi eu_waiting = Some (-56) /\
  snd (on_uplink (knocks 6) eu_waiting 5000 (sends [])) = [uplink 6 1 (-60) 0 [42]; radio_stat (StatTx 6 1 TX_NOT_DELIVERED None)].
Proof.
  assert (R7 : snd (deliver us_waiting 7 [1] (sends [])) = NotDelivered) by (vm_compute; reflexivity).
  assert (R6 : snd (deliver eu_waiting 6 [1; 2; 3] (sends [])) = NotDelivered) by (vm_compute; reflexivity).
  assert (Q7 : option_map (fun it => (Queue.id it, Queue.data it)) (Queue.peek_for (a_queue us_waiting) 7 5000) = Some (1, [1])) by (vm_compute; reflexivity).
  assert (Q6 : option_map (fun it => (Queue.id it, Queue.data it)) (Queue.peek_for (a_queue eu_waiting) 6 5000) = Some (1, [1; 2; 3])) by (vm_compute; reflexivity).
  assert (A7 : (if bool_decide (access (a_net us_waiting) = NetCore.Fhss) then acked_rssi us_waiting else None) = Some (-56)) by (vm_compute; reflexivity).
  assert (A6 : (if bool_decide (access (a_net eu_waiting) = NetCore.Fhss) then acked_rssi eu_waiting else None) = None) by (vm_compute; reflexivity).
  split; [|split; [vm_compute; reflexivity|]].
  - destruct (some_map _ _ _ Q7) as (it & E & [= I1 I2]).
    pose proof (failed_hop_reports_old_ack us_waiting (knocks 7) 5000 (sends []) it E) as H. cbn [knocks rv_src rv_counter rv_rssi rv_lqi rv_data] in H.
    rewrite I1, I2, R7, A7 in H. apply H. discriminate.
  - destruct (some_map _ _ _ Q6) as (it & E & [= I1 I2]).
    pose proof (failed_hop_reports_old_ack eu_waiting (knocks 6) 5000 (sends []) it E) as H. cbn [knocks rv_src rv_counter rv_rssi rv_lqi rv_data] in H.
    rewrite I1, I2, R6, A6 in H. apply H. discriminate.
Defined.
End HostDemo.
