(* ===== verification/DongleList.v ===== *)
(** The gateway's listings (Dongle): whatever was asked, heard and stored before, the answers to [NodeList] and
    [QueueList] carry every record. The buffers they go through drop what does not fit without a word, so the
    ranges of what the tables hold are followed over the gateway's life. *)
From Stdlib Require Import Sorting.Permutation.
From S2P Require Import Prelude Bytes Str Shell GwRegistry GwQueue Proto Cobs Fingerprint Msg Frame Mgmt DongleWire NetTxctr NetReplay NetWire NetPairing NetHandshake.
From S2P Require Import Radio Ccm RadioFrame NetCore NetAir Bulk NetPair NetLink Fhss Dongle DongleCore DongleThm DongleRun.
#[local] Abbreviation NodeRecord := GwRegistry.NodeRecord.

(** ** The ranges of the tables *)

Definition stat_ok (s : LinkStat) : Prop := 0 <= ls_seen_s s /\ -128 <= ls_rssi s <= 127 /\ 0 <= ls_uplinks s <= u16_max.
Definition stats_ok (s : Stats) : Prop := Forall (fun o => match o with Some x => stat_ok x | None => True end) s.
Definition item_ok (it : Queue.Item) : Prop :=
  u32_ok (Queue.node_addr it) /\ u16_ok (Queue.ttl it) /\ bytes_ok (Queue.data it) /\ zlen (Queue.data it) <= MAX_ITEM.
Lemma stats_heard s a rssi now : stats_ok s -> 0 <= now -> stats_ok (stats_on_uplink s a rssi now).
Proof.
  intros Hs Hn. unfold stats_on_uplink. cbv zeta. set (r := Z.min _ _). assert (Hr : -128 <= r <= 127) by lia. unfold stats_ok in *.
  destruct (list_find _ s) as [[i x]|] eqn:E.
  - apply Forall_alter; [done|]. intros [y|] Hy Hok; [|exact I]. destruct Hok as (H1 & H2 & H3). cbn [option_map]. split; [done|]. split; [done|]. cbn [ls_uplinks]. unfold sat_add. lia.
  - destruct (list_find (fun x => x = None) s) as [[i x]|]; [|done]. apply Forall_insert; [done|]. split; [done|]. split; [done|]. cbn [ls_uplinks]. mlia.
Qed.
Lemma stats_less s a : stats_ok s -> stats_ok (stats_remove s a).
Proof. unfold stats_ok, stats_remove. intros H. apply List.Forall_map. eapply List.Forall_impl; [|exact H]. intros o Ho. by destruct (stat_is a o). Qed.
Lemma stats_got s a x : stats_ok s -> stats_get s a = Some x -> stat_ok x.
Proof.
  unfold stats_get. intros H. destruct (list_find _ s) as [[i o]|] eqn:E; [|done]. intros ->. apply list_find_Some in E as (Hi & _ & _).
  by apply (Forall_lookup_1 _ _ _ _ H Hi).
Qed.
Lemma pop_within q i it : In it (Queue.iter (fst (Queue.pop q i))) -> In it (Queue.iter q).
Proof.
  unfold Queue.pop, Queue.iter. destruct (Queue.pop_slots_spec i (Queue.slots q)) as [_ H]. destruct (Queue.pop_slots i (Queue.slots q)) as [s [x|]]; cbn [fst snd Queue.slots] in *.
  - destruct H as [_ H]. intros Hin. rewrite H. by right.
  - by destruct H as [-> _].
Qed.
Lemma drop_within q node it : In it (Queue.iter (fst (Queue.drop_node q node))) -> In it (Queue.iter q).
Proof. rewrite drop_iter, List.filter_In. tauto. Qed.
Lemma expire_within q now it : In it (Queue.iter (fst (Queue.expire q now))) -> In it (Queue.iter q).
Proof. destruct (expire_iter q now) as [-> _]. rewrite List.filter_In. tauto. Qed.
Lemma push_item q node ttl d now q' i : Queue.push q node ttl d now = (q', Ok i) -> u32_ok node -> u16_ok ttl -> bytes_ok d ->
  Forall item_ok (Queue.iter q) -> Forall item_ok (Queue.iter q').
Proof.
  intros E Hn Ht Hd HQ. revert E. unfold Queue.push. destruct ((zlen d =? 0) || _) eqn:Hz; [done|]. split_if; [done|]. destruct (Queue.first_free _) as [slot|] eqn:E; [|done].
  intros [= <- _]. unfold Queue.iter at 1. cbn [Queue.slots]. match goal with |- context [Some ?x] => set (it := x) end.
  pose proof (Queue.first_free_Some _ _ it E) as Hp. apply List.Forall_forall. intros y Hy. rewrite Hp in Hy. rewrite List.Forall_forall in HQ.
  destruct Hy as [<-|Hy]; [|by apply HQ]. bool_hyps. pose proof (zlen_nonneg d). unfold item_ok, Queue.data, it. cbn [Queue.node_addr Queue.ttl Queue.buf Queue.len].
  rewrite Queue.data_pushed by lia. split; [done|]. split; [done|]. by split.
Qed.

Section Ranges.
Context {W : Type} `{NS : !NetStore W} `{AS : !AppStore W} `{Haes : !AesBlock} `{PP : !PairPrims}.
Context `{CC : ConsoleCodec} `{MC : MgmtCodec} `{GP : !GwRegistry.Postcard} `{GPL : !GwRegistry.PostcardLaws record_ok}.
Context (fw_name fw_version : list Z) `{SC : Schemas}.
#[local] Abbreviation app := (App W).

Definition Ranged (a : app) : Prop := stats_ok (a_stats a) /\ Forall item_ok (Queue.iter (a_queue a)).
Definition keeps (a : app) (r : app * list Msg) : Prop := Ranged a -> Ranged (fst r).
(** Nothing was queued or heard: items may have left the queue. *)
Definition within (a b : app) : Prop := (forall it, In it (Queue.iter (a_queue b)) -> In it (Queue.iter (a_queue a))) /\ a_stats b = a_stats a.
Lemma within_ranged a b : within a b -> Ranged a -> Ranged b.
Proof. intros [Hq Hs] [H1 H2]. split; [by rewrite Hs|]. rewrite List.Forall_forall in *. auto. Qed.
Lemma within_trans a b c : within a b -> within b c -> within a c.
Proof. intros [H1 E1] [H2 E2]. split; [auto | congruence]. Qed.
Lemma within_keeps a b out : within a b -> keeps a (b, out).
Proof. exact (within_ranged a b). Qed.
Lemma same_within a b : a_queue b = a_queue a -> a_stats b = a_stats a -> within a b.
Proof. intros H1 H2. split; [by rewrite H1 | done]. Qed.
Lemma on_buckets_within m (a : app) : within a (fst (on_buckets m a)).
Proof. unfold on_buckets. by destruct (m _). Qed.
Lemma deliver_within (a : app) node d env : within a (fst (deliver a node d env)).
Proof. unfold deliver. case_bool_decide; [by destruct (fhss_send _ _ _ _ _ _) as [[n f] r] | by destruct (send _ _ _ _ _ _ _)]. Qed.
(** A handler that goes through the registry. *)
Ltac bucket_case := match goal with |- context [on_buckets ?m ?a] => pose proof (on_buckets_within m a) as Hb; destruct (on_buckets m a) as [? [[]|[]]]; exact Hb end.
Lemma mgmt_keeps req (a : app) env : op_typed (mreq_op req) -> keeps a (handle_mgmt fw_name fw_version req a env).
Proof.
  intros Ht. unfold handle_mgmt. cbv zeta. split_if; [exact id|]. destruct (mreq_op req); try exact id.
  - refine (within_ranged a _ _). unfold node_add. split_if; [by split|]. destruct (net_raise_floor _ _ _) as [n saved]. cbv zeta. split_if; [by split|]. bucket_case.
  - unfold keeps, node_remove. match goal with |- context [on_buckets ?m a] => pose proof (on_buckets_within m a) as Hb; destruct (on_buckets m a) as [a1 [[]|e]] end; cbn [fst] in *.
    + intros [H1 H2]%(within_ranged _ _ Hb). split; [by apply stats_less|]. rewrite List.Forall_forall in *. intros it Hin. apply H2. exact (drop_within _ _ _ Hin).
    + destruct e; by apply within_ranged.
  - refine (within_ranged a _ _). unfold node_update. split_if; [by split|]. bucket_case.
  - refine (within_ranged a _ _). unfold pairing_open. destruct (a_pairing a); [by split|]. do 2 (split_if; [by split|]). destruct (prepare _ _ _); by split.
  - destruct Ht as [Ht Hd]. unfold keeps, queue_push. destruct (Registry.find (buckets a) _) as [r|] eqn:E; [|exact id]. cbv zeta.
    destruct (Queue.push _ _ _ _ _) as [q [i|e]] eqn:Ep; [|destruct e; exact id]. intros [H1 H2]. split; [exact H1|]. eapply (push_item _ _ _ _ _ _ _ Ep); [|by split_if|done|done].
    rewrite find_known in E. apply List.find_some in E as [Hin Ha]. apply Z.eqb_eq in Ha as <-. revert Hin. unfold Registry.nodes. rewrite !in_app_iff.
    assert (Hl : forall i, In r (Registry.load (buckets a) i) -> u32_ok (GwRegistry.addr r)); [|intros [?|[?|?]]; by eapply Hl].
    intros j Hj. pose proof (proj2 (Registry.load_ok record_ok (buckets a) j)) as Hr. rewrite List.Forall_forall in Hr. by apply Hr in Hj as [Hj _].
  - refine (within_ranged a _ _). unfold queue_drop.
    match goal with |- context [match ?o with Some _ => _ | None => _ end] => destruct o as [i|] end.
    + cbv zeta. case_bool_decide; [|done]. split; [|done]. intros it. apply pop_within.
    + match goal with |- context [Queue.drop_node ?q ?x] => pose proof (drop_within q x) as Hd; destruct (Queue.drop_node q x) as [q' d] end. by split.
Qed.
(** What decodes is in its type. *)
Context (Htyped : forall p req, (Mgmt.from_bytes p : option MgmtRequest) = Some req -> op_typed (mreq_op req)).
Lemma serve_keeps times : forall inbox (a : app), keeps a (serve fw_name fw_version times inbox a).
Proof.
  induction times as [|times IH]; intros [|[frame env] inbox] a; try exact id. cbn [serve]. unfold decode_request.
  destruct (decode_frame frame) as [[[[] sq] p]|]; try apply IH. destruct (Mgmt.from_bytes p) as [req|] eqn:E; [|apply IH].
  pose proof (mgmt_keeps req a env (Htyped _ _ E)) as H1. destruct (handle_mgmt _ _ _ _ _) as [a1 o1]. specialize (IH inbox a1). destruct (serve _ _ _ _ _) as [a2 o2].
  intros H. by apply IH, H1.
Qed.
Lemma handled_ranged times (a : app) t : Ranged a -> Ranged (handled fw_name fw_version times a t).
Proof. intros H. apply serve_keeps. unfold policy_step. by split_if. Qed.
Lemma refresh_within (a b : app) node : within a b -> within a (stat_queued (refresh_pending b node)).
Proof. done. Qed.
Lemma uplink_keeps rx (a : app) now env : 0 <= up_now_s env -> keeps a (on_uplink rx a now env).
Proof.
  intros Hn [H1 H2]. unfold on_uplink. cbv zeta. set (a1 := stat_uplink _). assert (HR : Ranged a1) by (split; [by apply stats_heard | exact H2]). clearbody a1.
  destruct (Queue.peek_for _ _ _) as [it|]; [|exact HR]. pose proof (deliver_within a1 (rv_src rx) (Queue.data it) env) as Hd. destruct (deliver _ _ _ _) as [a2 r]. cbn [fst] in *.
  refine (within_ranged a1 _ _ HR). apply refresh_within. destruct r; try exact Hd. apply (within_trans _ a2); [exact Hd|]. split; [|done]. intros x. apply pop_within.
Qed.
Definition clock_ok (env : TurnEnv) : Prop := 0 <= up_now_s (tn_up env).
Lemma radio_keeps (a : app) env : clock_ok env -> keeps a (radio_step a env).
Proof.
  intros Hc. assert (Hf : forall r b, within a b -> keeps a (forward r b env)).
  { intros r b Hb H%(within_ranged _ _ Hb). destruct r; [by apply uplink_keeps | exact H]. }
  assert (Hr : keeps a (recv_slice a env)).
  { unfold recv_slice. destruct (tn_heard env) as [[h rssi] lqi]. destruct (recv _ _ _ _ _) as [n r]. apply Hf. by split. }
  unfold radio_step. destruct (a_pairing a) as [sess|].
  - refine (within_ranged a _ _). unfold pairing_slice. set (a0 := if hopping a && _ then _ else a). assert (H0 : within a a0) by (unfold a0; split_if; by split). clearbody a0. cbv zeta.
    do 2 (split_if; [exact H0|]). destruct (open_pairing _ _ _) as [[n host] [p|]]; [|exact H0]. unfold commit_pairing. cbv zeta.
    match goal with |- context [on_buckets ?m ?b] => pose proof (on_buckets_within m b) as Hb; destruct (on_buckets m b) as [a1 [[]|e]] end; cbn [fst] in Hb;
      pose proof (within_trans a a0 a1 H0 Hb) as H1; [|destruct e]; split_if; exact H1.
  - split_if; [exact Hr|]. split_if; [|exact Hr]. unfold hop_slot. set (a0 := if a_parked a then _ else a). assert (H0 : within a a0) by (unfold a0; destruct (a_parked a); by split).
    destruct (fhss_master_tick _ _ _) as [[n f] slot]. by apply Hf.
Qed.
Lemma turn_keeps (a : app) env : clock_ok env -> keeps a (loop_turn fw_name fw_version a env).
Proof.
  intros Hc H. unfold loop_turn. pose proof (handled_ranged 2 a env H) as H1. unfold handled in H1. destruct (serve _ _ _ _ _) as [a1 o1]. cbn [fst] in H1.
  pose proof (radio_keeps a1 env Hc H1) as H2. destruct (radio_step a1 env) as [a2 o2]. cbn [fst] in H2.
  set (a3 := hop_stat_step _ _). assert (H3 : Ranged a3) by (unfold a3, hop_stat_step; split_if; exact H2). clearbody a3.
  assert (H4 : within a3 (fst (expire_step a3 (tn_now env)))).
  { unfold expire_step. pose proof (expire_within (a_queue a3) (tn_now env)) as He. destruct (Queue.expire _ _) as [q ex]. cbn [fst] in He.
    destruct (refresh_fold (take (Z.to_nat QUEUE_CAP) ex) (set_queue a3 q)) as [_ [Hq _]]. cbn zeta in Hq.
    assert (Hs : forall (l : list (Z * Z)) (b : app), a_stats (fold_left (fun a e => refresh_pending a (snd e)) l b) = a_stats b) by (clear; induction l as [|e l IH]; intros b; [done | exact (IH _)]).
    specialize (Hs (take (Z.to_nat QUEUE_CAP) ex) (set_queue a3 q)). cbn [fst]. set (b := fold_left _ _ _) in *.
    assert (Hw : within a3 b) by (split; [rewrite Hq; exact He | exact Hs]). split_if; exact Hw. }
  destruct (expire_step a3 _) as [a4 o4]. cbn [fst] in H4. apply (within_ranged _ _ H4) in H3.
  assert (H5 : Ranged (fst (stat_step a4 env))) by (unfold stat_step; split_if; [destruct (tn_idle env)|]; exact H3). by destruct (stat_step a4 env) as [a5 o5].
Qed.
Lemma life_ranged w env envs (a : app) out : life fw_name fw_version w env envs = Some (a, out) -> Forall clock_ok envs -> Ranged a.
Proof.
  unfold life. destruct (boot w env) as [a0|] eqn:Hb; [|done]. intros [= Hr] Hc.
  assert (H0 : Ranged a0).
  { unfold boot in Hb. destruct (format_guard w) as [w1 foreign]. cbv zeta in Hb. destruct (read_band_setting w1) as [band|]; [|done].
    destruct (if bool_decide (band = Us915) then _ else _) as [n f]. injection Hb as <-. split; [|constructor]. apply Forall_replicate. exact I. }
  clear Hb. revert a0 a out Hr H0. induction Hc as [|t envs Ht _ IH]; intros a0 a out; cbn [run_loop]; [by intros [= <- <-]|].
  pose proof (turn_keeps a0 t Ht) as H1. destruct (loop_turn _ _ _ _) as [a1 o1]. destruct (run_loop _ _ a1 envs) as [a2 o2] eqn:E. intros [= <- <-] H0. by eapply IH, H1.
Qed.
End Ranges.

(** ** Chunks and buffers *)

Section Listing.
Context {W : Type} `{NS : !NetStore W} `{AS : !AppStore W} `{CC : ConsoleCodec} `{MC : MgmtCodec} `{EL : !EntryLaws} `{GP : !GwRegistry.Postcard}.
#[local] Abbreviation app := (App W).

(** The messages of a chunked answer: full chunks, then the last. *)
Definition chunks (req_id : Z) (full : list (list Z)) (last : list Z) : list Msg :=
  imap (fun i d => mgmt_chunk req_id MGMT_OK (wrap16 (Z.of_nat i)) false d) full ++ [mgmt_chunk req_id MGMT_OK (wrap16 (zlen full)) true last].
Record Streamed (req_id : Z) (c : ChunkStream) (full : list (list Z)) (sent : list Z) : Prop := {
  sm_req : cs_req_id c = req_id;
  sm_chunk : cs_chunk c = wrap16 (zlen full);
  sm_out : cs_out c = imap (fun i d => mgmt_chunk req_id MGMT_OK (wrap16 (Z.of_nat i)) false d) full;
  sm_full : Forall (fun d => zlen d = 128) full;
  sm_buf : zlen (cs_buf c) = 128;
  sm_len : 0 <= cs_len c <= 128;
  sm_sent : concat full ++ slice (cs_buf c) 0 (cs_len c) = sent;
}.
Lemma flush_streamed req_id c full sent : Streamed req_id c full sent -> exists full', Streamed req_id (cs_flush c) full' sent /\ cs_len (cs_flush c) < 128.
Proof.
  intros [H1 H2 H3 H4 H5 H6 H7]. unfold cs_flush. destruct (Z.eqb_spec (cs_len c) (zlen (cs_buf c))) as [E|E]; [|exists full; split; [by split | lia]].
  exists (full ++ [slice (cs_buf c) 0 (cs_len c)]). split; [|simpl; lia]. split; cbn [cs_req_id cs_chunk cs_out cs_buf cs_len]; try done; try lia.
  - rewrite H2, zlen_app, zlen_cons, zlen_nil. unfold wrap16. by rewrite Z.add_mod_idemp_l by lia.
  - rewrite H3, imap_app. cbn [imap]. rewrite H1, H2. f_equal. unfold imap; cbn. by rewrite Nat.add_0_r.
  - apply List.Forall_app. split; [done|]. constructor; [|constructor]. rewrite zlen_slice; lia.
  - rewrite concat_app. cbn [concat]. by rewrite slice_0, !app_nil_r.
Qed.
Lemma take_streamed req_id c full sent d : Streamed req_id c full sent -> cs_len c < 128 -> d <> [] ->
  let '(c', rest) := cs_take c d in exists x, d = x ++ rest /\ x <> [] /\ Streamed req_id c' full (sent ++ x).
Proof.
  intros [H1 H2 H3 H4 H5 H6 H7] Hl Hd. unfold cs_take. set (k := Z.min _ _). pose proof (zlen_nonneg d). assert (0 < zlen d) by (destruct d; [done | rewrite zlen_cons; pose proof (zlen_nonneg d); lia]).
  assert (Hk : 0 < k <= zlen d /\ k <= 128 - cs_len c) by lia. exists (slice d 0 k). split.
  - rewrite <- (slice_all d) at 1. replace (zlen d) with (k + (zlen d - k)) at 1 by lia. rewrite slice_split by lia. by rewrite Z.add_0_l.
  - split; [intros E; assert (Hz : zlen (slice d 0 k) = k) by (apply zlen_slice; lia); rewrite E, zlen_nil in Hz; lia|].
    assert (Hz : zlen (slice d 0 k) = k) by (apply zlen_slice; lia).
    split; cbn [cs_req_id cs_chunk cs_out cs_buf cs_len]; try done; [rewrite zlen_patch; lia | lia|].
    rewrite <- H7, <- app_assoc. f_equal. rewrite slice_split by lia. rewrite slice_patch_other by lia. f_equal.
    rewrite Z.add_0_l. rewrite <- Hz at 2. apply slice_patch_same; lia.
Qed.
Lemma push_streamed req_id fuel : forall c d full sent, (length d <= fuel)%nat -> Streamed req_id c full sent ->
  exists full', Streamed req_id (push_loop fuel c d) full' (sent ++ d).
Proof.
  induction fuel as [|fuel IH]; intros c [|b d] full sent Hl Hs; try (exists full; by rewrite app_nil_r); [simpl in Hl; lia|].
  cbn [push_loop]. destruct (flush_streamed _ _ _ _ Hs) as (full1 & H1 & H2). pose proof (take_streamed _ _ _ _ (b :: d) H1 H2) as H3.
  destruct (cs_take (cs_flush c) (b :: d)) as [c' rest]. destruct H3 as (x & E & Hx & H3); [done|]. rewrite E, app_assoc.
  apply (IH c' rest full1); [|done]. rewrite E, length_app in Hl. destruct x; [done | simpl in Hl; lia].
Qed.
Lemma cs_push_streamed req_id c d full sent : Streamed req_id c full sent -> exists full', Streamed req_id (cs_push c d) full' (sent ++ d).
Proof. by apply push_streamed. Qed.
Lemma finish_streamed req_id c full sent : Streamed req_id c full sent -> exists last, cs_finish c = chunks req_id full last /\
  concat full ++ last = sent /\ Forall (fun d => zlen d = 128) full /\ zlen last <= 128.
Proof.
  intros [H1 H2 H3 H4 H5 H6 H7]. exists (slice (cs_buf c) 0 (cs_len c)). unfold cs_finish, chunks. rewrite H3, H2, H1. split; [done|]. split; [done|]. split; [done|].
  rewrite zlen_slice; lia.
Qed.
Lemma fold_streamed {A} req_id (f : ChunkStream -> A -> ChunkStream) (g : A -> list Z) l :
  (forall c x full sent, In x l -> Streamed req_id c full sent -> exists full', Streamed req_id (f c x) full' (sent ++ g x)) ->
  forall c full sent, Streamed req_id c full sent -> exists full', Streamed req_id (fold_left f l c) full' (sent ++ concat (map g l)).
Proof.
  induction l as [|x l IH]; intros Hf c full sent Hc; [exists full; by rewrite app_nil_r|]. cbn [fold_left map concat].
  destruct (Hf c x full sent ltac:(by left) Hc) as (full1 & H1). rewrite app_assoc. apply (IH (fun c y full sent Hy => Hf c y full sent (or_intror Hy)) _ full1). done.
Qed.
Lemma new_streamed req_id : Streamed req_id (cs_new req_id) [] [].
Proof. split; try done; simpl; lia. Qed.

Definition carried {T} `{!Msg.Postcard T} (req_id : Z) (out : list Msg) (records : list T) : Prop :=
  exists full last, out = chunks req_id full last /\ Forall (fun d => zlen d = 128) full /\ zlen last <= 128 /\
    parse_records (concat full ++ last) = records.
Lemma stream_carries {T} `{!Msg.Postcard T} `{!Msg.PostcardLaws T} req_id c full (l : list T) : Streamed req_id c full (concat (map serialize l)) ->
  Forall (fun v => representable v /\ serialize v <> []) l -> carried req_id (cs_finish c) l.
Proof.
  intros Hs Hl. destruct (finish_streamed _ _ _ _ Hs) as (last & H1 & H2 & H3 & H4). exists full, last. split; [done|]. split; [done|]. split; [done|].
  rewrite H2. unfold parse_records. rewrite <- (app_nil_r (concat (map serialize l))) at 2.
  apply parse_loop_stream; [eapply List.Forall_impl; [|exact Hl]; by intros v [] | eapply List.Forall_impl; [|exact Hl]; by intros v [] | done | by left].
Qed.
Lemma scratch_fits {T} `{!Msg.Postcard T} `{!Msg.PostcardLaws T} cap (v : T) : representable v -> zlen (serialize v) <= cap -> to_scratch cap v = Some (serialize v).
Proof.
  intros Hr Hz. unfold to_scratch. pose proof (zlen_nonneg (serialize v)). rewrite to_slice_fits; [|done | rewrite zlen_zeros; lia]. f_equal.
  apply slice_patch_same; rewrite ?zlen_zeros; lia.
Qed.
(** A bucket's six records of up to 42 bytes fit the staging buffer. *)
Lemma stage_all (a : app) now_s recs : zlen recs <= PER_BUCKET ->
  Forall (fun r => representable (node_entry a now_s r) /\ zlen (serialize (node_entry a now_s r)) <= 42) recs ->
  stage_bucket a now_s recs = concat (map (fun r => serialize (node_entry a now_s r)) recs).
Proof.
  intros Hz Hr. unfold stage_bucket.
  assert (Hg : forall rs s, Forall (fun r => representable (node_entry a now_s r) /\ zlen (serialize (node_entry a now_s r)) <= 42) rs -> zlen s + 42 * zlen rs <= 256 ->
    fold_left (fun staged rec => match to_scratch 64 (node_entry a now_s rec) with Some d => extend 256 staged d | None => staged end) rs s =
    s ++ concat (map (fun r => serialize (node_entry a now_s r)) rs)).
  { induction rs as [|r rs IH]; intros s Hf Hs; [by rewrite app_nil_r|]. apply List.Forall_cons_iff in Hf as [[H1 H2] Hf]. cbn [fold_left map concat].
    rewrite zlen_cons in Hs. pose proof (zlen_nonneg rs). rewrite scratch_fits by (done || lia). unfold extend.
    replace (zlen s + _ <=? 256) with true by (symmetry; apply Z.leb_le; lia). rewrite IH; [by rewrite <- app_assoc | done | rewrite zlen_app; lia]. }
  apply (Hg recs []); [done|]. rewrite zlen_nil. unfold PER_BUCKET in Hz. lia.
Qed.
Lemma listings_fit `{GPL : !GwRegistry.PostcardLaws record_ok} (a : app) req_id now_s node now_ms :
  Forall (fun r => let e := node_entry a now_s r in representable e /\ 0 < zlen (serialize e) <= 42) (Registry.nodes (buckets a)) ->
  Forall (fun it => let e := queue_entry now_ms it in representable e /\ 0 < zlen (serialize e) <= 128) (Queue.iter (a_queue a)) ->
  carried req_id (node_list a req_id now_s) (map (node_entry a now_s) (Registry.nodes (buckets a))) /\
  carried req_id (queue_list a req_id node now_ms)
    (map (queue_entry now_ms) (List.filter (fun it => (node =? 0) || (Queue.node_addr it =? node)) (Queue.iter (a_queue a)))).
Proof.
  intros HN HQ. split.
  - set (L := Registry.nodes (buckets a)) in *.
    destruct (fold_streamed req_id (fun c i => cs_push c (stage_bucket a now_s (Registry.load (buckets a) i)))
      (fun i => concat (map (fun r => serialize (node_entry a now_s r)) (Registry.load (buckets a) i))) Registry.indices) with (c := cs_new req_id) (full := @nil (list Z)) (sent := @nil Z) as (full & Hs).
    { intros c i full sent Hi Hc. rewrite stage_all; [by eapply cs_push_streamed | apply (Registry.load_ok record_ok (buckets a) i)|].
      unfold L, Registry.nodes in HN. apply List.Forall_app in HN as [HN0 HN]. apply List.Forall_app in HN as [HN1 HN2].
      destruct Hi as [<-|[<-|[<-|[]]]]; (eapply List.Forall_impl; [|eassumption]); intros r [H1 H2]; (split; [done | lia]). }
    { apply new_streamed. }
    unfold node_list. apply (stream_carries req_id _ full).
    + replace (concat (map serialize (map (node_entry a now_s) L))) with ([] ++ concat (map (fun i => concat (map (fun r => serialize (node_entry a now_s r)) (Registry.load (buckets a) i))) Registry.indices)); [done|].
      unfold L, Registry.nodes. cbn [map Registry.indices concat List.app]. rewrite !List.map_app, !concat_app, !map_map, app_nil_r. done.
    + apply List.Forall_map. eapply List.Forall_impl; [|exact HN]. intros r [H1 H2]. split; [done|]. intros E. change (0 < zlen (serialize (node_entry a now_s r)) <= 42) in H2.
      rewrite E in H2. unfold zlen in H2. simpl in H2. lia.
  - set (keep := fun it => (node =? 0) || (Queue.node_addr it =? node)).
    destruct (fold_streamed req_id (fun c it =>
      if negb (node =? 0) && negb (Queue.node_addr it =? node) then c
      else match to_scratch 128 (queue_entry now_ms it) with Some d => cs_push c d | None => c end)
      (fun it => if keep it then serialize (queue_entry now_ms it) else []) (Queue.iter (a_queue a))) with (c := cs_new req_id) (full := @nil (list Z)) (sent := @nil Z) as (full & Hs).
    { intros c it full sent Hi Hc. rewrite List.Forall_forall in HQ. destruct (HQ it Hi) as [H1 H2]. unfold keep. rewrite <- negb_orb.
      destruct ((node =? 0) || _); cbn [negb]; [rewrite scratch_fits by (done || lia); by eapply cs_push_streamed | exists full; by rewrite app_nil_r]. }
    { apply new_streamed. }
    unfold queue_list. apply (stream_carries req_id _ full).
    + cbn [List.app] in Hs. replace (concat (map serialize _)) with (concat (map (fun it => if keep it then serialize (queue_entry now_ms it) else []) (Queue.iter (a_queue a)))); [exact Hs|].
      clear. induction (Queue.iter (a_queue a)) as [|it l IH]; [done|]. cbn [map concat List.filter]. rewrite IH. by destruct (keep it).
    + apply List.Forall_map, Queue.Forall_filter. eapply List.Forall_impl; [|exact HQ]. intros it [H1 H2]. split; [done|]. intros E. change (0 < zlen (serialize (queue_entry now_ms it)) <= 128) in H2.
      rewrite E in H2. unfold zlen in H2. simpl in H2. lia.
Qed.
End Listing.

(** ** Listings over a life *)

Section Life.
Context {W : Type} `{NS : !NetStore W} `{AS : !AppStore W} `{AL : !AppStoreLaws W} `{Haes : !AesBlock} `{PP : !PairPrims} `{PPL : !PairPrimLaws}.
Context `{CC : ConsoleCodec} `{MC : MgmtCodec} `{EL : !EntryLaws} `{GP : !GwRegistry.Postcard} `{GPL : !GwRegistry.PostcardLaws record_ok}.
Context (fw_name fw_version : list Z) `{SC : Schemas}.
#[local] Abbreviation app := (App W).
Context (Htyped : forall p req, (Mgmt.from_bytes p : option MgmtRequest) = Some req -> op_typed (mreq_op req)).

Lemma entry_ok (a : app) now_s r : Ranged a -> u32_ok now_s -> In r (Registry.nodes (buckets a)) ->
  entry_ranged (node_entry a now_s r) /\ zlen (ne_name (node_entry a now_s r)) <= MAX_NODE_NAME.
Proof.
  intros [HS _] Hn Hr. assert (Hl : forall i, In r (Registry.load (buckets a) i) -> record_ok r /\ zlen (GwRegistry.name r) <= MAX_NAME).
  { intros i Hi. destruct (Registry.load_ok record_ok (buckets a) i) as [[_ Hm] Hk]. rewrite List.Forall_forall in Hm, Hk. split; [by apply Hk | by apply Hm]. }
  unfold Registry.nodes in Hr. rewrite !in_app_iff in Hr. assert (Hk : record_ok r /\ zlen (GwRegistry.name r) <= MAX_NAME) by (destruct Hr as [?|[?|?]]; by eapply Hl).
  destruct Hk as ((Ha & _ & _ & Hf & Hu) & Hz). split; [|exact Hz]. pose proof (zlen_nonneg (GwRegistry.name r)).
  assert (Hs : match stats_get (a_stats a) (GwRegistry.addr r) with Some s => stat_ok s | None => True end) by (destruct (stats_get _ _) as [s|] eqn:E; [by eapply stats_got | done]).
  split; cbn [node_entry ne_addr ne_name ne_flags ne_last_seen ne_rssi ne_uplinks ne_queued]; try done; try (apply wrap8_ok); [mlia|..];
    (destruct (stats_get _ _) as [s|]; [destruct Hs as (? & ? & ?)|]); unfold LAST_SEEN_NEVER, RSSI_NONE, sat_sub; mlia.
Qed.
Lemma queued_ok (a : app) it now_ms : Ranged a -> pool (a_queue a) -> In it (Queue.iter (a_queue a)) ->
  item_ranged (queue_entry now_ms it) /\ zlen (qe_data (queue_entry now_ms it)) <= 74.
Proof.
  intros [_ HQ] HP Hi. rewrite List.Forall_forall in HQ. destruct (HQ it Hi) as (H1 & H2 & H3 & H4). pose proof (pl_range _ HP) as Hr. rewrite List.Forall_forall in Hr.
  specialize (Hr it Hi). unfold Queue.id_ok in Hr. pose proof (zlen_nonneg (Queue.data it)). split; [|exact H4].
  split; cbn [queue_entry qe_node_addr qe_item qe_age qe_ttl qe_data]; try done; [mlia| |mlia]. unfold Queue.age, sat_sub. pose proof (Z.div_pos (Z.max (now_ms - Queue.enqueued_at_ms it) 0) 1000). mlia.
Qed.
(** The answer to a request that comes next. *)
Definition answer_to (op : MgmtOp) (req_id : Z) (a : app) (env : MgmtEnv) : list Msg :=
  snd (handle_mgmt fw_name fw_version {| mreq_req_id := req_id; mreq_op := op |} a env).
(** C32. Listings carry everything they list. After any run of the main loop from any power-up, whatever was asked,
    heard or stored, and whatever the turn's earlier requests did, the answer to [NodeList] is a stream of
    chunks numbered from 0, all but the last of 128 bytes and only the last marked so, whose data decodes,
    record by record, to the entry of every registered node in registry order, although each bucket goes
    through a 256-byte staging buffer that silently drops what does not fit and chunks cut records anywhere;
    the answer to [QueueList] likewise to the queued items of the node asked for, or of all. The clock in
    seconds is a [u32]. That six entries fit the staging buffer is no assumption: the registry's and the
    queue's caps bound every entry by postcard's sizes to 35 and 89 bytes. *)
Theorem listings_complete w env envs (a0 : app) out times t req_id node menv :
  life fw_name fw_version w env envs = Some (a0, out) -> Forall heard_bytes envs -> Forall clock_ok envs -> u32_ok (mg_now_s menv) ->
  let a := handled fw_name fw_version times a0 t in
  carried req_id (answer_to Msg.NodeList req_id a menv) (map (node_entry a (mg_now_s menv)) (Registry.nodes (buckets a))) /\
  carried req_id (answer_to (QueueList node) req_id a menv)
    (map (queue_entry (mg_now menv)) (List.filter (fun it => (node =? 0) || (Queue.node_addr it =? node)) (Queue.iter (a_queue a)))).
Proof.
  intros HL He Hc Hn a. destruct (handled_typed fw_name fw_version Htyped times a0 t (life_typed _ _ Htyped _ _ _ _ _ HL He)) as (_ & _ & HP).
  pose proof (handled_ranged fw_name fw_version Htyped times a0 t (life_ranged _ _ Htyped _ _ _ _ _ HL Hc)) as HR. fold a in HP, HR.
  unfold answer_to, handle_mgmt. cbn [mreq_op mreq_req_id joins_node]. rewrite andb_false_r. cbn [snd]. apply listings_fit.
  - apply List.Forall_forall. intros r Hr. destruct (entry_ok a _ r HR Hn Hr) as [H1 H2]. pose proof (entry_bound _ H1 H2). split; [by apply entry_representable | lia].
  - apply List.Forall_forall. intros it Hi. destruct (queued_ok a it (mg_now menv) HR HP Hi) as [H1 H2]. pose proof (item_bound _ H1 H2). split; [by apply item_representable | lia].
Qed.
End Life.

From S2P Require Import DongleDemo.
Module ListDemo.
(** Node 6 is added to a registry with node 7, and an item queued for it. *)
Definition first_turn : TurnEnv := turn [ask [1; 2; 6]; ask [2; 3; 6]] silent [] [].
Definition morning : App Store := fst (run_loop fw fw (started stored) [first_turn]).
Definition listing_turn : TurnEnv := turn [ask [3; 7; 0]; ask [4; 1; 0]] silent [] [].
#[local] Abbreviation now := (handled fw fw 1 morning listing_turn).
Lemma listings_complete_witness :
  carried 4 (answer_to fw fw Msg.NodeList 4 now asked) (map (node_entry now (mg_now_s asked)) [node7; node6]) /\
  carried 4 (answer_to fw fw (QueueList 6) 4 now asked) [{| qe_node_addr := 6; qe_item := 1; qe_age := 0; qe_ttl := 60; qe_data := [1; 2; 3] |}].
Proof.
  assert (Hb : boot stored power_up = Some (started stored)) by (apply started_booted; vm_compute; discriminate).
  assert (Hn : Registry.nodes (buckets now) = [node7; node6]) by (vm_compute; reflexivity).
  assert (Hq : map (queue_entry (mg_now asked)) (List.filter (fun it => (6 =? 0) || (Queue.node_addr it =? 6)) (Queue.iter (a_queue now))) =
    [{| qe_node_addr := 6; qe_item := 1; qe_age := 0; qe_ttl := 60; qe_data := [1; 2; 3] |}]) by (vm_compute; reflexivity).
  assert (He : Forall heard_bytes [first_turn]) by (repeat constructor).
  assert (Hc : Forall clock_ok [first_turn]) by (constructor; [unfold clock_ok; vm_compute; discriminate | constructor]).
  assert (Hs : u32_ok (mg_now_s asked)) by (split; vm_compute; discriminate).
  pose proof (listings_complete fw fw demo_typed stored power_up [first_turn] morning _ 1 listing_turn 4 6 asked
    (life_run fw fw stored power_up (started stored) [first_turn] Hb) He Hc Hs) as H. cbv zeta in H. rewrite Hn, Hq in H. exact H.
Defined.
End ListDemo.
