(* ===== verification/Node.v ===== *)
(** The node's application (firmware/apps/radio_push_button.rs) over the network runtime, hopping and pairing:
    the gateway it is provisioned for, its confirmed uplinks with the downlink window and the remote shell
    behind them, pairing with its commit round, the requests of the cable, the boot, and the arms of the main
    loop. What the radio hears, the clock, entropy, the buttons and the sensors are arguments. *)
From Stdlib Require Import Strings.String.
From S2P Require Import Prelude Bytes Str Proto Cobs Fingerprint Msg Frame Shell RadioEnv ShellEngine Mgmt.
From S2P Require Import NetTxctr NetReplay NetWire NetEpoch NetPairing NetHandshake Radio Ccm RadioFrame NetCore Fhss NetPair Dongle.
#[local] Abbreviation str := (list Z).

(** ** Records and settings *)

Definition KEY_PROVISION : Z := 0x00.
Record Provisioned := { gw_addr : Z; pv_key : list Z; pv_band : Z; pv_channel : Z }.
#[export] Instance Provisioned_eq_dec : EqDecision Provisioned.
Proof. solve_decision. Defined.
(** crates/protocol/src/mgmt.rs *)
Record ProvisionAck := { pa_addr : Z }.
Record Joined := { jn_gw_addr : Z; jn_sas : Z }.
Class NodeCodec := { nc_record :: Msg.Postcard Provisioned; nc_ack :: Msg.Postcard ProvisionAck; nc_joined :: Msg.Postcard Joined }.
(** The store's write to the [NS_SHELL] namespace. *)
Class ShellWrite (W : Type) := { shell_put : W -> Z -> list Z -> W * result unit unit }.

Definition SET_THERM_PERIOD : Z := 0x10.
Definition SET_THERM_DELTA : Z := 0x11.
Definition SET_ACCEL : Z := 0x12.
Definition SET_HEARTBEAT : Z := 0x13.
Definition SET_NODE_BAND : Z := 0x14.
Definition SET_PRESS : Z := 0x20.
Definition SET_RELEASE : Z := 0x22.
Definition SET_CLICK : Z := 0x24.
Definition SET_HOLD : Z := 0x26.
Definition SET_DEBOUNCE_PRESS : Z := 0x30.
Definition SET_DEBOUNCE_RELEASE : Z := 0x31.
Definition SET_CLICK_TIMEOUT : Z := 0x32.
Definition SET_HOLD_TIME : Z := 0x33.
Definition ACCEL_BACKOFF_MIN : Z := 1000.
Definition ACCEL_BACKOFF_MAX : Z := 300000.
Definition ACCEL_REARM : Z := 100.
Definition ACCEL_STUCK_READS : Z := 10.
Definition ACCEL_UPLINK_MIN : Z := 10000.
Definition DOWNLINK_WINDOW : Z := 1000.
Definition CHUNK_REPS : Z := 5.
Definition REPAIR_HOLD : Z := 12000.
Definition UNACKED_HINT : Z := 8.
Definition FHSS_SCAN_TICKS : Z := 80.
Definition FHSS_MISSED_BEACONS : Z := 8.
Definition FHSS_RESYNC : Z := 900000.
#[export] Hint Unfold FHSS_SCAN_TICKS FHSS_MISSED_BEACONS : machine.

Inductive Sensitivity := Low | Medium | High.
Record ButtonConfig := { scan_interval : Z; debounce_press : Z; debounce_release : Z; click_timeout : Z; hold_time : Z }.

Section Settings.
Context {W : Type} `{AS : !AppStore W} `{SW : !ShellWrite W} `{NC : !NodeCodec}.

(** [get::<Provisioned>] and [set] of the [NS_APP] namespace (storage.rs). *)
Definition get_provision (w : W) : option Provisioned :=
  match app_get w KEY_PROVISION 256 with
  | Ok (Some (n, b)) => if n <=? 256 then from_bytes (slice b 0 n) else None
  | _ => None
  end.
Definition set_provision (w : W) (p : Provisioned) : W * result unit unit :=
  match to_slice p (zeros 256) with
  | (_, None) => (w, Err tt)
  | (b, Some n) => app_set w KEY_PROVISION (slice b 0 n)
  end.
(** [None]: the slice with the value's true length is out of the buffer's range, a panic. *)
Definition node_band (w : W) : option Band :=
  match shell_get w SET_NODE_BAND 8 with
  | Ok (Some (n, b)) => if 8 <? n then None else Some (if bool_decide (slice b 0 n = lit "us915") then Us915 else Eu868)
  | _ => Some Eu868
  end.
Definition read_accel_setting (w : W) : option (option Sensitivity) :=
  match shell_get w SET_ACCEL 8 with
  | Ok (Some (n, b)) =>
      if 8 <? n then None
      else
        let s := slice b 0 n in
        Some (if bool_decide (s = lit "off") then None
              else if bool_decide (s = lit "low") then Some Low
              else if bool_decide (s = lit "high") then Some High
              else Some Medium)
  | _ => Some (Some Medium)
  end.
Definition event_enabled (w : W) (ev : ButtonKind) : bool :=
  match ev with
  | Press => read_bool_setting w SET_PRESS false
  | Release => read_bool_setting w SET_RELEASE false
  | Click => read_bool_setting w SET_CLICK true
  | Msg.Hold => read_bool_setting w SET_HOLD true
  end.
Definition button_config (w : W) : ButtonConfig :=
  {| scan_interval := 5; debounce_press := read_u32_setting w SET_DEBOUNCE_PRESS 30; debounce_release := read_u32_setting w SET_DEBOUNCE_RELEASE 30;
     click_timeout := read_u32_setting w SET_CLICK_TIMEOUT 500; hold_time := read_u32_setting w SET_HOLD_TIME 1000 |}.
End Settings.

Definition note (misses : Z) (delivered : bool) : Z := if delivered then 0 else sat_add u8_max misses 1.

(** ** Sends *)

Definition is_delivered (r : SendResult) : bool := match r with Delivered => true | _ => false end.

(** What a send meets: without hopping the fate of its counter and its attempts, hopping, for each turn of its
    loop, what the slot's window hears, whether the cable host is asking, the try, and its back-off. [sp_turns]
    is how long the send is watched. *)
Record SendPlan := {
  sp_fate : fate; sp_try : nat -> Attempt; sp_turns : nat; sp_tick : nat -> NodeEnv; sp_asked : nat -> bool; sp_send : nat -> SendEnv;
  sp_backoff : nat -> nat -> NodeEnv }.
(** What a command's execution meets: the watch on its output, what the other tasks do to the store between
    two windows of it, and the sends of its chunks. *)
Record ShellEnv (W : Type) := { sh_fuel : nat; sh_env : W -> W; sh_plan : nat -> SendPlan }.
Arguments sh_fuel {W}. Arguments sh_env {W}. Arguments sh_plan {W}.
(** A downlink window: its opening, what a window of a length hears, and the execution of what arrives. *)
Record WindowEnv (W : Type) := {
  we_now : Z; we_hear : Z -> list (result RadioError (list Z) * Z * Z * TxEnv); we_shell : ShellEnv W }.
Arguments we_now {W}. Arguments we_hear {W}. Arguments we_shell {W}.
Record UplinkPlan (W : Type) := { ul_send : SendPlan; ul_windows : list (WindowEnv W) }.
Arguments ul_send {W}. Arguments ul_windows {W}.

(** The network, and what the application keeps about its gateway: the streak of unacknowledged uplinks and
    the last remote command (LAST_REMOTE_CMD, LAST_REMOTE_EPOCH, LAST_REMOTE_LOST). [k_ran] is a history for
    the theorems: the commands executed, the last one first. *)
Record Link (W : Type) := {
  k_net : Net W; k_fhss : Fhss.Fhss; k_unacked : Z; k_last_cmd : Z; k_last_epoch : Z; k_last_lost : Z; k_ran : list (Z * Z * str) }.
Arguments k_net {W}. Arguments k_fhss {W}. Arguments k_unacked {W}. Arguments k_last_cmd {W}. Arguments k_last_epoch {W}.
Arguments k_last_lost {W}. Arguments k_ran {W}.

(** The application: its link, the gateway it is provisioned for and the state of its main loop. *)
Record NodeApp (W : Type) := {
  d_link : Link W; d_provision : option Provisioned; d_addr : Z; d_band : Band; d_channel : Z;
  d_counts : list Z; d_last_temp : option Z; d_last_temp_tx : Z; d_next_temp : Z; d_next_heartbeat : Z; d_pressed_at : option Z; d_misses : Z;
  d_accel_quiet : option Z; d_accel_backoff : Z; d_accel_empty : Z; d_accel_hold : option Z; d_accel_pending : option Z; d_resync_after : Z }.
Arguments d_link {W}. Arguments d_provision {W}. Arguments d_addr {W}. Arguments d_band {W}. Arguments d_channel {W}.
Arguments d_counts {W}. Arguments d_last_temp {W}. Arguments d_last_temp_tx {W}. Arguments d_next_temp {W}. Arguments d_next_heartbeat {W}.
Arguments d_pressed_at {W}. Arguments d_misses {W}. Arguments d_accel_quiet {W}. Arguments d_accel_backoff {W}. Arguments d_accel_empty {W}.
Arguments d_accel_hold {W}. Arguments d_accel_pending {W}. Arguments d_resync_after {W}.

(** A step of the application: done, in a reset of the device, or watched no longer. *)
Inductive Turn (A : Type) := Next (a : A) | Reset (a : A) | Watching.
Arguments Next {A} a. Arguments Reset {A} a. Arguments Watching {A}.
Definition turn_bind {A B} (t : Turn A) (reset : A -> B) (k : A -> Turn B) : Turn B :=
  match t with Next a => k a | Reset a => Reset (reset a) | Watching => Watching end.
Section Device.
Context {W : Type} `{NS : !NetStore W} `{AS : !AppStore W} `{SW : !ShellWrite W} `{Haes : !AesBlock} `{PP : !PairPrims}.
Context `{SC : Schemas} `{RC : RadioCodec} `{CC : ConsoleCodec} `{MC : MgmtCodec} `{NC : !NodeCodec}.
(** The firmware's name, version and session, and its shell commands. *)
Context (fw_name fw_version : str) (session_id : Z) (base commands : list (Entry W)).
#[local] Abbreviation link := (Link W).
#[local] Abbreviation net := (Net W).

Definition on_radio (k : link) (n : net) (f : Fhss.Fhss) : link :=
  {| k_net := n; k_fhss := f; k_unacked := k_unacked k; k_last_cmd := k_last_cmd k; k_last_epoch := k_last_epoch k;
     k_last_lost := k_last_lost k; k_ran := k_ran k |}.
Definition on_net (k : link) (n : net) : link := on_radio k n (k_fhss k).
Definition set_unacked (k : link) (u : Z) : link :=
  {| k_net := k_net k; k_fhss := k_fhss k; k_unacked := u; k_last_cmd := k_last_cmd k; k_last_epoch := k_last_epoch k;
     k_last_lost := k_last_lost k; k_ran := k_ran k |}.
Definition set_remote (k : link) (cmd epoch lost : Z) (ran : list (Z * Z * str)) : link :=
  {| k_net := k_net k; k_fhss := k_fhss k; k_unacked := k_unacked k; k_last_cmd := cmd; k_last_epoch := epoch;
     k_last_lost := lost; k_ran := ran |}.
(** Another task's or a command's change of the store. *)
Definition on_store (n : net) (w : W) : net := set_rx n (peers n) (default_lane n) w.

Definition start_hopping (k : link) (gw now : Z) : link :=
  let '(n, f) := enable_fhss (k_net k) (k_fhss k) Fhss.Node {| fc_seed := 0; fc_network_key := Some (gateway_network_key gw) |} now in
  on_radio k n f.

(** The loop of a hopping send, from its turn [i]; [None] when it is watched no longer. *)
Fixpoint hop_send (turns i : nat) (tries scans missed : Z) (n : net) (f : Fhss.Fhss) (dest : Z) (data : list Z) (reps : Z) (p : SendPlan)
    : net * Fhss.Fhss * option SendResult :=
  match turns with
  | O => (n, f, None)
  | S turns =>
      let '(f, slot) := fhss_node_tick f (sp_tick p i) in
      match ns_state slot with
      | Scanning =>
          let scans := wrap16 (scans + 1) in
          if (FHSS_SCAN_TICKS <=? scans) || sp_asked p i then (n, f, Some NotSynced)
          else hop_send turns (S i) tries scans missed n f dest data reps p
      | Synced =>
          if negb (ns_got_beacon slot) then
            let missed := wrap8 (missed + 1) in
            if FHSS_MISSED_BEACONS <=? missed then (n, f, Some NotDelivered)
            else hop_send turns (S i) tries scans missed n f dest data reps p
          else
            match fhss_send n f dest data true (sp_send p i) with
            | (n, f, DutyLimited) => hop_send turns (S i) tries scans missed n f dest data reps p
            | (n, f, NotDelivered) =>
                let tries := wrap8 (tries + 1) in
                if Z.max reps 1 <=? tries then (n, f, Some NotDelivered)
                else
                  let '(n, f) := fhss_retry_backoff n f (sp_backoff p i) in
                  hop_send turns (S i) tries scans missed n f dest data reps p
            | (n, f, other) => (n, f, Some other)
            end
      end
  end.
Definition radio_send (n : net) (f : Fhss.Fhss) (dest : Z) (data : list Z) (reps : Z) (p : SendPlan) : net * Fhss.Fhss * option SendResult :=
  if negb (bool_decide (access n = NetCore.Fhss)) then
    let '(n, r) := send n dest data true reps (sp_fate p) (sp_try p) in (n, f, Some r)
  else hop_send (sp_turns p) 0 0 0 0 n f dest data reps p.
(** Up to four slots of beacon receive; whether one was heard. *)
Fixpoint resync_loop (slots : nat) (i : nat) (f : Fhss.Fhss) (env : nat -> NodeEnv) : Fhss.Fhss * bool :=
  match slots with
  | O => (f, false)
  | S slots =>
      let '(f, slot) := fhss_node_tick f (env i) in
      if bool_decide (ns_state slot = Synced) && ns_got_beacon slot then (f, true)
      else if bool_decide (ns_state slot = Scanning) then (f, false)
      else resync_loop slots (S i) f env
  end.
Definition fhss_resync (k : link) (env : nat -> NodeEnv) : link * bool :=
  let '(f, heard) := resync_loop 4 0 (k_fhss k) env in (on_radio k (k_net k) f, heard).

Definition info_msg : NodeMsg :=
  Info {| info_firmware_name := to_string fw_name; info_firmware_version := to_string fw_version; info_session_id := session_id; info_sleeping := true |}.
Definition encode_msg (m : NodeMsg) : option (list Z) :=
  match encode_node_msg m (zeros MAX_RADIO_PAYLOAD) with (b, Ok n) => Some (slice b 0 n) | (_, Err _) => None end.
Definition encode_info : option (list Z) := encode_msg info_msg.

(** ** The remote shell *)

(** The sink of a response is the radio and [RadioSink] (ShellEngine); [None] once a send is watched no longer. *)
Definition NodeSink : Type := option (net * Fhss.Fhss * ShellEngine.RadioSink).
Definition cut_sink (s : ShellEngine.RadioSink) : ShellEngine.RadioSink :=
  {| rs_cmd_id := rs_cmd_id s; rs_chunk := rs_chunk s; rs_buf := rs_buf s; rs_ok := false;
     rs_lost := get_or_insert (rs_lost s) (rs_chunk s); rs_sent := rs_sent s |}.
Definition sent_sink (s : ShellEngine.RadioSink) (msg : NodeShellChunk) (ok : bool) : ShellEngine.RadioSink :=
  {| rs_cmd_id := rs_cmd_id s; rs_chunk := wrap16 (rs_chunk s + 1); rs_buf := []; rs_ok := if ok then rs_ok s else false;
     rs_lost := if ok then rs_lost s else get_or_insert (rs_lost s) (rs_chunk s); rs_sent := rs_sent s ++ [msg] |}.
Definition flush (gw : Z) (plan : nat -> SendPlan) (k : NodeSink) (last : bool) (res : Z) : NodeSink * bool :=
  match k with
  | None => (None, false)
  | Some (n, f, s) =>
      let msg := {| chunk_cmd_id := rs_cmd_id s; chunk_result := res; chunk_chunk := rs_chunk s; chunk_last := last;
                    chunk_text := to_string (rs_buf s) |} in
      match encode_msg (NodeShell msg) with
      | None => (Some (n, f, cut_sink s), false)
      | Some wire =>
          match radio_send n f gw wire CHUNK_REPS (plan (length (rs_sent s))) with
          | (n, f, Some r) => let ok := is_delivered r in (Some (n, f, sent_sink s msg ok), ok)
          | (_, _, None) => (None, false)
          end
      end
  end.
Fixpoint push_loop (fuel : nat) (gw : Z) (plan : nat -> SendPlan) (k : NodeSink) (rest : str) : NodeSink * bool :=
  match fuel, k with
  | S fuel, Some (n, f, s) =>
      if bool_decide (rest = []) then (k, true)
      else
        let space := RADIO_SHELL_CHUNK - zlen (rs_buf s) in
        let m := down_to_boundary (length rest) rest 0 (Z.min (zlen rest) space) in
        if m =? 0 then
          let '(k, ok) := flush gw plan k false 0 in
          if ok then push_loop fuel gw plan k rest else (k, false)
        else
          let s := {| rs_cmd_id := rs_cmd_id s; rs_chunk := rs_chunk s; rs_buf := rs_buf s ++ slice rest 0 m;
                      rs_ok := rs_ok s; rs_lost := rs_lost s; rs_sent := rs_sent s |} in
          let rest := slice rest m (zlen rest - m) in
          let k := Some (n, f, s) in
          if zlen (rs_buf s) =? RADIO_SHELL_CHUNK then
            let '(k, ok) := flush gw plan k false 0 in
            if ok then push_loop fuel gw plan k rest else (k, false)
          else push_loop fuel gw plan k rest
  | _, _ => (k, false)
  end.
Definition node_sink (gw : Z) (plan : nat -> SendPlan) : ShellSink NodeSink := {|
  sink_push k text :=
    match k with
    | Some (_, _, s) => if negb (rs_ok s) then (k, false) else push_loop (S (2 * length text)) gw plan k text
    | None => (None, false)
    end;
  sink_done k res :=
    match k with
    | Some (_, _, s) => if negb (rs_ok s) then (k, false) else flush gw plan k true res
    | None => (None, false)
    end |}.

(** The note of a repeated command whose reply was lost. *)
Definition LOST_NOTE : str := lit "(reply lost on the air: ran once, not run again)" ++ [13; 10].
Definition sink_at (cmd_id chunk : Z) : ShellEngine.RadioSink :=
  {| rs_cmd_id := cmd_id; rs_chunk := chunk; rs_buf := []; rs_ok := true; rs_lost := None; rs_sent := [] |}.
Definition VALID : Z := Z.shiftl 1 24.
Definition command_word (res cmd_id : Z) : Z := Z.lor (Z.lor VALID (Z.shiftl res 16)) cmd_id.
(** Whether the command is the one run last. *)
Definition repeated (k : link) (epoch cmd_id : Z) : bool :=
  negb (Z.land (k_last_cmd k) VALID =? 0) && (Z.land (k_last_cmd k) 0xFFFF =? cmd_id) && (k_last_epoch k =? epoch).
Inductive WindowEnd := Expired | Served | Resetting.
(** The answer to a repeated command, which is not run. *)
Definition answer_again (k : link) (gw cmd_id : Z) (plan : nat -> SendPlan) : option link :=
  let SK := node_sink gw plan in
  let res := Z.land (Z.shiftr (k_last_cmd k) 16) 0xFF in
  let sink :=
    if k_last_lost k =? 0 then fst (sink_done (Some (k_net k, k_fhss k, sink_at cmd_id 0)) res)
    else
      let '(sink, _) := sink_push (Some (k_net k, k_fhss k, sink_at cmd_id (wrap16 (wrap16 (k_last_lost k) + 1)))) LOST_NOTE in
      fst (sink_done sink res) in
  match sink with Some (n, f, _) => Some (on_radio k n f) | None => None end.
(** A command's run and its streamed reply. A send neither reads nor writes the store, so the sink's network
    keeps it as it was, and the commands' changes are put back when the reply is out. *)
Definition run_command (k : link) (gw epoch cmd_id : Z) (line : str) (env : ShellEnv W) : option (link * WindowEnd) :=
  let SK := node_sink gw (sh_plan env) in
  match stream_with (sh_fuel env) (sh_env env) base commands line Remote (kv (k_net k)) (Some (k_net k, k_fhss k, sink_at cmd_id 0)) with
  | Some (w, Some (n, f, s), oc) =>
      let k := on_radio k (on_store n w) f in
      let lost := match rs_lost s with Some c => c + 1 | None => 0 end in
      let k := set_remote k (command_word (result_code oc) cmd_id) epoch lost ((epoch, cmd_id, line) :: k_ran k) in
      Some (k, if reboot oc then Resetting else Served)
  | _ => None
  end.
Definition on_command (k : link) (gw epoch cmd_id : Z) (line : str) (env : ShellEnv W) : option (link * WindowEnd) :=
  if repeated k epoch cmd_id then
    match answer_again k gw cmd_id (sh_plan env) with Some k => Some (k, Served) | None => None end
  else run_command k gw epoch cmd_id line env.
Fixpoint window_loop (heard : list (result RadioError (list Z) * Z * Z * TxEnv)) (k : link) (gw : Z) (env : ShellEnv W) : option (link * WindowEnd) :=
  match heard with
  | [] => Some (k, Expired)
  | (h, rssi, lqi, ack) :: heard =>
      let '(n, r) := recv (k_net k) h rssi lqi ack in
      let k := on_net k n in
      match r with
      | None => window_loop heard k gw env
      | Some rx =>
          if negb (rv_src rx =? gw) then window_loop heard k gw env
          else
            match decode_node_cmd (rv_data rx) with
            | Ok (CmdShell epoch cmd_id line) => on_command k gw epoch cmd_id (lit line) env
            | Err _ => Some (k, Expired)
            end
      end
  end.
Definition downlink_window (k : link) (gw : Z) (env : WindowEnv W) : option (link * WindowEnd) :=
  let len := if bool_decide (access (k_net k) = NetCore.Fhss) then fhss_slot_left (k_fhss k) (we_now env) else DOWNLINK_WINDOW in
  window_loop (if len =? 0 then [] else we_hear env len) k gw (we_shell env).

(** *** Uplinks *)

Definition pending_ack (n : net) : bool := match last_ack n with Some m => pending m | None => false end.
(** [while net.last_ack().is_some_and(|m| m.pending)]. *)
Fixpoint chain (ws : list (WindowEnv W)) (k : link) (gw : Z) : Turn link :=
  if pending_ack (k_net k) then
    match ws with
    | [] => Watching
    | env :: ws =>
        match downlink_window k gw env with
        | None => Watching
        | Some (k, Expired) => Next k
        | Some (k, Served) => chain ws k gw
        | Some (k, Resetting) => Reset k
        end
    end
  else Next k.
Definition streak (k : link) (r : SendResult) : Z :=
  match r with Delivered => 0 | DutyLimited => k_unacked k | _ => sat_add u8_max (k_unacked k) 1 end.
Definition uplink (k : link) (prov : option Provisioned) (msg : NodeMsg) (reps : Z) (u : UplinkPlan W) : Turn (link * bool) :=
  match prov with
  | None => Next (k, false)
  | Some p =>
      match encode_msg msg with
      | None => Next (k, false)
      | Some data =>
          match radio_send (k_net k) (k_fhss k) (gw_addr p) data reps (ul_send u) with
          | (_, _, None) => Watching
          | (n, f, Some r) =>
              let k := set_unacked (on_radio k n f) (streak k r) in
              turn_bind (chain (ul_windows u) k (gw_addr p)) (fun k => (k, is_delivered r)) (fun k => Next (k, is_delivered r))
          end
      end
  end.

(** ** Pairing *)

Inductive PairOutcome := Paired (rec : Provisioned) (sas : Z) (persisted : bool) | NoWindow | Unconfirmed | Refused.
(** What a pairing meets: whether the radio took each retuning, what the handshake hears, the sends of the
    commit round, the clock at its end, and the button events of that time. *)
Record PairEnv := {
  pr_suspend : bool; pr_tuned : bool; pr_join : list JoinTurn; pr_commit : nat -> fate * (nat -> Attempt); pr_now : Z; pr_seen : list ButtonKind }.

Definition commit_uplink (k : link) (gw : Z) (o : fate) (env : nat -> Attempt) : link * bool :=
  match encode_info with
  | None => (k, false)
  | Some data => let '(n, r) := send (k_net k) gw data true 3 o env in (on_net k n, is_delivered r)
  end.
(** The commit round from its attempt [attempt + 1]; the waits between the attempts only pass. *)
Fixpoint commit_tries (fuel : nat) (attempt : Z) (k : link) (gw : Z) (env : nat -> fate * (nat -> Attempt)) : link * bool :=
  match fuel with
  | O => (k, false)
  | S fuel =>
      let attempt := wrap8 (attempt + 1) in
      let '(o, tries) := env (Z.to_nat attempt) in
      let '(k, delivered) := commit_uplink k gw o tries in
      match commit_step attempt delivered with
      | Commit => (k, true)
      | Retry _ => commit_tries fuel attempt k gw env
      | Discard => (k, false)
      end
  end.
Definition band_code (b : Band) : Z := match b with Us915 => BAND_US915 | Eu868 => BAND_EU868 end.
Definition unpair (k : link) (current : option Provisioned) (gw : Z) : link :=
  on_net k (fst match current with
                | Some c => if gw_addr c =? gw then add_peer (k_net k) (gw_addr c) (pv_key c) else remove_peer (k_net k) gw
                | None => remove_peer (k_net k) gw
                end).
(** Retire a previous gateway. *)
Definition retire (n : net) (current : option Provisioned) (gw : Z) : net :=
  match current with Some c => if gw_addr c =? gw then n else fst (remove_peer n (gw_addr c)) | None => n end.
Definition pair_on_air (k : link) (own : Z) (band : Band) (channel : Z) (current : option Provisioned) (env : PairEnv) : link * PairOutcome :=
  let '(n, joined) := join (k_net k) own (pr_join env) in
  let k := on_net k n in
  match joined with
  | None => (k, NoWindow)
  | Some peer =>
      let rec := {| gw_addr := NetHandshake.p_addr peer; pv_key := NetHandshake.p_key peer; pv_band := band_code band; pv_channel := channel |} in
      match add_peer (k_net k) (gw_addr rec) (pv_key rec) with
      | (n, false) => (on_net k n, Refused)
      | (n, true) =>
          let '(k, committed) := commit_tries (Z.to_nat COMMIT_ATTEMPTS) 0 (on_net k n) (gw_addr rec) (pr_commit env) in
          if negb committed then (unpair k current (gw_addr rec), Unconfirmed)
          else
            let k := set_unacked (on_net k (retire (k_net k) current (gw_addr rec))) 0 in
            let '(w, r) := set_provision (kv (k_net k)) rec in
            (on_net k (on_store (k_net k) w), Paired rec (p_sas peer) (is_ok r))
      end
  end.
Definition pair (k : link) (own : Z) (band : Band) (channel : Z) (current : option Provisioned) (env : PairEnv) : link * PairOutcome :=
  let us915 := bool_decide (band = Us915) in
  let k := if us915 then
             let n := fhss_suspend (k_net k) (k_fhss k) Us915 (pr_suspend env) in
             on_net k (if pr_tuned env then set_band n Us915 else n)
           else k in
  let '(k, outcome) := pair_on_air k own band channel current env in
  (if us915 then
     match outcome with
     | Paired rec _ _ => start_hopping k (gw_addr rec) (pr_now env)
     | _ => if current then on_net k (fhss_resume (k_net k) (k_fhss k)) else k
     end
   else k, outcome).

(** ** The application *)

#[local] Abbreviation app := (NodeApp W).
Definition set_link (a : app) (k : link) (prov : option Provisioned) : app :=
  {| d_link := k; d_provision := prov; d_addr := d_addr a; d_band := d_band a; d_channel := d_channel a; d_counts := d_counts a;
     d_last_temp := d_last_temp a; d_last_temp_tx := d_last_temp_tx a; d_next_temp := d_next_temp a; d_next_heartbeat := d_next_heartbeat a;
     d_pressed_at := d_pressed_at a; d_misses := d_misses a; d_accel_quiet := d_accel_quiet a; d_accel_backoff := d_accel_backoff a;
     d_accel_empty := d_accel_empty a; d_accel_hold := d_accel_hold a; d_accel_pending := d_accel_pending a; d_resync_after := d_resync_after a |}.
Definition set_press (a : app) (counts : list Z) (at_ : option Z) : app :=
  {| d_link := d_link a; d_provision := d_provision a; d_addr := d_addr a; d_band := d_band a; d_channel := d_channel a; d_counts := counts;
     d_last_temp := d_last_temp a; d_last_temp_tx := d_last_temp_tx a; d_next_temp := d_next_temp a; d_next_heartbeat := d_next_heartbeat a;
     d_pressed_at := at_; d_misses := d_misses a; d_accel_quiet := d_accel_quiet a; d_accel_backoff := d_accel_backoff a;
     d_accel_empty := d_accel_empty a; d_accel_hold := d_accel_hold a; d_accel_pending := d_accel_pending a; d_resync_after := d_resync_after a |}.
Definition set_misses (a : app) (m : Z) : app :=
  {| d_link := d_link a; d_provision := d_provision a; d_addr := d_addr a; d_band := d_band a; d_channel := d_channel a; d_counts := d_counts a;
     d_last_temp := d_last_temp a; d_last_temp_tx := d_last_temp_tx a; d_next_temp := d_next_temp a; d_next_heartbeat := d_next_heartbeat a;
     d_pressed_at := d_pressed_at a; d_misses := m; d_accel_quiet := d_accel_quiet a; d_accel_backoff := d_accel_backoff a;
     d_accel_empty := d_accel_empty a; d_accel_hold := d_accel_hold a; d_accel_pending := d_accel_pending a; d_resync_after := d_resync_after a |}.
Definition set_times (a : app) (last : option Z) (last_tx next_temp next_beat resync : Z) : app :=
  {| d_link := d_link a; d_provision := d_provision a; d_addr := d_addr a; d_band := d_band a; d_channel := d_channel a; d_counts := d_counts a;
     d_last_temp := last; d_last_temp_tx := last_tx; d_next_temp := next_temp; d_next_heartbeat := next_beat;
     d_pressed_at := d_pressed_at a; d_misses := d_misses a; d_accel_quiet := d_accel_quiet a; d_accel_backoff := d_accel_backoff a;
     d_accel_empty := d_accel_empty a; d_accel_hold := d_accel_hold a; d_accel_pending := d_accel_pending a; d_resync_after := resync |}.
Definition set_accel (a : app) (quiet : option Z) (backoff empty : Z) (hold pend : option Z) : app :=
  {| d_link := d_link a; d_provision := d_provision a; d_addr := d_addr a; d_band := d_band a; d_channel := d_channel a; d_counts := d_counts a;
     d_last_temp := d_last_temp a; d_last_temp_tx := d_last_temp_tx a; d_next_temp := d_next_temp a; d_next_heartbeat := d_next_heartbeat a;
     d_pressed_at := d_pressed_at a; d_misses := d_misses a; d_accel_quiet := quiet; d_accel_backoff := backoff;
     d_accel_empty := empty; d_accel_hold := hold; d_accel_pending := pend; d_resync_after := d_resync_after a |}.

(** *** The cable's requests *)

Definition node_record {T} `{!Msg.Postcard T} (req_id : Z) (v : T) : list Msg :=
  match to_slice v (zeros 192) with
  | (b, Some n) => [mgmt_chunk req_id MGMT_OK 0 true (slice b 0 n)]
  | (_, None) => respond_empty req_id MGMT_STORAGE
  end.
Definition node_describe (a : app) : DeviceInfo :=
  {| di_role := RoleNode; di_addr := d_addr a; di_band := band_code (d_band a); di_channel := d_channel a; di_node_capacity := 0; di_node_count := 0;
     di_provisioned := if d_provision a then true else false; di_gw_addr := match d_provision a with Some p => gw_addr p | None => 0 end;
     di_firmware_name := fw_name; di_firmware_version := fw_version |}.
(** Whether a provisioning may take effect: a band, a channel and two addresses the radio can use. *)
Definition provision_valid (own : Z) (p : Msg.Provision) : bool :=
  negb ((BAND_US915 <? prov_band p) || (MAX_CHANNEL <? prov_channel p) || is_reserved_addr own || negb (peer_addr_valid (prov_gw_addr p) own)).
Definition override_of (p : Msg.Provision) : option Z := match prov_addr p with Some a => if a =? 0 then None else Some a | None => None end.
Definition provide (a : app) (req_id : Z) (p : Msg.Provision) : Turn app * list Msg :=
  let own := default (d_addr a) (override_of p) in
  if negb (provision_valid own p) then (Next a, respond_empty req_id MGMT_BAD_ARG)
  else
    let n := k_net (d_link a) in
    let rec := {| gw_addr := prov_gw_addr p; pv_key := prov_key p; pv_band := prov_band p; pv_channel := prov_channel p |} in
    let stored w := set_link a (on_net (d_link a) (on_store n w)) (d_provision a) in
    let '(w, pinned) := match override_of p with Some x => shell_put (kv n) ADDR_KEY (le_bytes 4 x) | None => (kv n, Ok tt) end in
    if negb (is_ok pinned) then (Next (stored w), respond_empty req_id MGMT_STORAGE)
    else
      let '(w, saved) := set_provision w rec in
      if negb (is_ok saved) then (Next (stored w), respond_empty req_id MGMT_STORAGE)
      else (Reset (stored w), node_record req_id {| pa_addr := own |}).
Definition join_open (a : app) (req_id window : Z) (env : PairEnv) : app * list Msg :=
  if window =? 0 then (a, respond_empty req_id MGMT_BAD_ARG)
  else
    match pair (d_link a) (d_addr a) (d_band a) (d_channel a) (d_provision a) env with
    | (k, Paired rec sas persisted) =>
        (set_link a k (Some rec), if persisted then node_record req_id {| jn_gw_addr := gw_addr rec; jn_sas := sas |} else respond_empty req_id MGMT_STORAGE)
    | (k, Refused) => (set_link a k (d_provision a), respond_empty req_id MGMT_BAD_ARG)
    | (k, _) => (set_link a k (d_provision a), respond_empty req_id MGMT_TIMEOUT)
    end.
Definition handle_mgmt (a : app) (req : MgmtRequest) (env : PairEnv) : Turn app * list Msg :=
  let req_id := mreq_req_id req in
  match mreq_op req with
  | Describe => (Next a, node_record req_id (node_describe a))
  | OpProvision p => provide a req_id p
  | JoinOpen window => let '(a, out) := join_open a req_id window env in (Next a, out)
  | _ => (Next a, respond_empty req_id MGMT_UNSUPPORTED)
  end.

(** ** The main loop *)

(** An uplink of the loop, its outcome counted, and what the loop does next with it. *)
Definition noted_uplink (a : app) (msg : NodeMsg) (reps : Z) (u : UplinkPlan W) (next : app -> bool -> Turn app) : Turn app :=
  turn_bind (uplink (d_link a) (d_provision a) msg reps u) (fun '(k, _) => set_link a k (d_provision a))
    (fun '(k, delivered) => next (set_misses (set_link a k (d_provision a)) (note (d_misses a) delivered)) delivered).
Definition therm_period (w : W) : Z := Z.max (read_u32_setting w SET_THERM_PERIOD 60) 5.
Definition heartbeat (w : W) : Z := Z.max (read_u32_setting w SET_HEARTBEAT 900) 60.
Definition store_of (a : app) : W := kv (k_net (d_link a)).
Definition button_index (ev : ButtonKind) : nat := match ev with Press => 0 | Release => 1 | Click => 2 | Msg.Hold => 3 end.
Definition count_event (counts : list Z) (ev : ButtonKind) : list Z := alter (fun c => wrap32 (c + 1)) (button_index ev) counts.
(** A pairing of the button, its events counted; [paired] and [failed] are what the loop does after each end. *)
Definition button_pair (a : app) (env : PairEnv) : app * bool :=
  let '(k, outcome) := pair (d_link a) (d_addr a) (d_band a) (d_channel a) (d_provision a) env in
  let a := set_press a (fold_left count_event (pr_seen env) (d_counts a)) (d_pressed_at a) in
  match outcome with
  | Paired rec _ _ => (set_misses (set_link a k (Some rec)) 0, true)
  | _ => (set_link a k (d_provision a), false)
  end.

(** A button event at [be_now]. *)
Record ButtonEnv := { be_now : Z; be_pair : PairEnv; be_uplink : UplinkPlan W }.
Definition button_arm (a : app) (ev : ButtonKind) (env : ButtonEnv) : Turn app :=
  let counts := count_event (d_counts a) ev in
  let a := set_press a counts match ev with Press => Some (be_now env) | Release => None | _ => d_pressed_at a end in
  let enabled := event_enabled (store_of a) ev in
  match d_provision a with
  | None =>
      match ev with
      | Msg.Hold => Next (fst (button_pair (set_press a counts None) (be_pair env)))
      | _ => Next a
      end
  | Some _ =>
      let a := if 0 <? d_misses a then
                 set_times (set_misses a 0) (d_last_temp a) (d_last_temp_tx a) (Z.min (d_next_temp a) (be_now env + therm_period (store_of a) * 1000))
                   (d_next_heartbeat a) (d_resync_after a)
               else a in
      if negb enabled then Next a
      else
        let reps := match ev with Click | Msg.Hold => 5 | _ => 3 end in
        noted_uplink a (Button ev (default 0 (counts !! button_index ev))) reps (be_uplink env) (fun a _ => Next a)
  end.

(** The timer, or the end of a wait of it: the clock at each reading, the resynchronisation, whether the button
    is down, the temperature, and the pairing and uplinks that follow. *)
Record TimerEnv := {
  te_top : Z; te_resync_at : Z; te_resync : nat -> NodeEnv; te_pressed : bool; te_repair_at : Z; te_pair : PairEnv;
  te_now : Z; te_temp : option Z; te_read_at : Z; te_temp_up : UplinkPlan W; te_delivered_at : Z; te_temp_at : Z; te_info_up : UplinkPlan W;
  te_motion_at : Z; te_motion_up : UplinkPlan W; te_sent_at : Z }.
Definition as_i32 (x : Z) : Z := if x <? 0x80000000 then x else x - 0x100000000.
Definition resync_due (a : app) (now : Z) : option Z :=
  if bool_decide (access (k_net (d_link a)) = NetCore.Fhss) then
    match fhss_since_beacon (k_fhss (d_link a)) now with
    | Some since => Some (Z.max (now + sat_sub FHSS_RESYNC since) (d_resync_after a))
    | None => None
    end
  else None.
Definition resync_step (a : app) (env : TimerEnv) : app :=
  match resync_due a (te_top env) with
  | Some t =>
      if t <=? te_resync_at env then
        let '(k, heard) := fhss_resync (d_link a) (te_resync env) in
        let a := set_link a k (d_provision a) in
        if heard then a
        else set_times a (d_last_temp a) (d_last_temp_tx a) (d_next_temp a) (d_next_heartbeat a) (te_resync_at env + 60000)
      else a
  | None => a
  end.
Definition repair_step (a : app) (env : TimerEnv) : app :=
  match d_provision a, d_pressed_at a with
  | Some _, Some t =>
      if negb (te_pressed env) then set_press a (d_counts a) None
      else if t + REPAIR_HOLD <=? te_repair_at env then fst (button_pair (set_press a (d_counts a) None) (te_pair env))
      else a
  | _, _ => a
  end.
(** The change that is worth an uplink, of a setting in hundredths of a degree. *)
Definition delta_mc (w : W) : Z := as_i32 (wrap32 (as_i32 (read_u32_setting w SET_THERM_DELTA 50) * 10)).
Definition temp_due (a : app) (millic now : Z) : bool :=
  match d_last_temp a with None => true | Some last => delta_mc (store_of a) <=? Z.abs (millic - last) end
  || (heartbeat (store_of a) * 1000 <=? sat_sub now (d_last_temp_tx a)).
Definition next_temp (a : app) (period beat now : Z) : app :=
  set_times a (d_last_temp a) (d_last_temp_tx a) (now + uplink_backoff_s period beat (d_misses a) * 1000) (d_next_heartbeat a) (d_resync_after a).
Definition temp_step (a : app) (env : TimerEnv) (next : app -> Turn app) : Turn app :=
  if te_now env <? d_next_temp a then next a
  else
    let period := therm_period (store_of a) in
    let beat := heartbeat (store_of a) in
    let rest a := next (next_temp a period beat (te_temp_at env)) in
    match te_temp env with
    | None => rest a
    | Some millic =>
        if (if d_provision a then true else false) && temp_due a millic (te_read_at env) then
          noted_uplink a (Temperature millic) 3 (te_temp_up env) (fun a delivered =>
            rest (if delivered then set_times a (Some millic) (te_delivered_at env) (d_next_temp a) (d_next_heartbeat a) (d_resync_after a) else a))
        else rest a
    end.
Definition heartbeat_step (a : app) (env : TimerEnv) (next : app -> Turn app) : Turn app :=
  if te_now env <? d_next_heartbeat a then next a
  else
    let a := set_times a (d_last_temp a) (d_last_temp_tx a) (d_next_temp a) (te_now env + heartbeat (store_of a) * 1000) (d_resync_after a) in
    match d_provision a with
    | Some _ => noted_uplink a info_msg 3 (te_info_up env) (fun a _ => next a)
    | None => next a
    end.
Definition motion_uplink (a : app) (face : Z) (u : UplinkPlan W) (sent_at : Z) : Turn app :=
  noted_uplink a (Accel Motion face) 3 u (fun a _ =>
    Next (set_accel a (d_accel_quiet a) (d_accel_backoff a) (d_accel_empty a) (Some (sent_at + ACCEL_UPLINK_MIN)) (d_accel_pending a))).
Definition motion_step (a : app) (env : TimerEnv) : Turn app :=
  match d_accel_pending a with
  | Some face =>
      if match d_accel_hold a with None => true | Some t => t <=? te_motion_at env end then
        motion_uplink (set_accel a (d_accel_quiet a) (d_accel_backoff a) (d_accel_empty a) (d_accel_hold a) None) face (te_motion_up env) (te_sent_at env)
      else Next a
  | None => Next a
  end.
Definition timer_arm (a : app) (env : TimerEnv) : Turn app :=
  temp_step (repair_step (resync_step a env) env) env (fun a => heartbeat_step a env (fun a => motion_step a env)).

(** The accelerometer's line at [ac_now]: what its interrupt was, and whether the line is high after it. *)
Inductive Tilt := TiltEvent (face : Z) | TiltNothing | ReadFailed.
Record AccelEnv := { ac_now : Z; ac_tilt : Tilt; ac_high : bool; ac_uplink : UplinkPlan W; ac_sent_at : Z; ac_quiet_at : Z }.
Definition tilt_failed (t : Tilt) : bool := match t with ReadFailed => true | _ => false end.
(** How long the next interrupt waits: a growing back-off on a fault, a pause while the line stays high. *)
Definition pace (a : app) (env : AccelEnv) : app :=
  let empty := match ac_tilt env with TiltNothing => if ac_high env then sat_add u8_max (d_accel_empty a) 1 else 0 | _ => 0 end in
  if tilt_failed (ac_tilt env) || (ACCEL_STUCK_READS <=? empty) then
    set_accel a (Some (ac_quiet_at env + d_accel_backoff a)) (Z.min (d_accel_backoff a * 2) ACCEL_BACKOFF_MAX) empty (d_accel_hold a) (d_accel_pending a)
  else
    set_accel a (if ac_high env then Some (ac_quiet_at env + ACCEL_REARM) else None) ACCEL_BACKOFF_MIN empty (d_accel_hold a) (d_accel_pending a).
Definition accel_arm (a : app) (env : AccelEnv) : Turn app :=
  let paced t := turn_bind t id (fun a => Next (pace a env)) in
  match ac_tilt env, d_provision a with
  | TiltEvent face, Some _ =>
      if match d_accel_hold a with Some t => ac_now env <? t | None => false end then
        paced (Next (set_accel a (d_accel_quiet a) (d_accel_backoff a) (d_accel_empty a) (d_accel_hold a) (Some face)))
      else paced (motion_uplink a face (ac_uplink env) (ac_sent_at env))
  | _, _ => paced (Next a)
  end.

(** A frame of the cable. *)
Definition mgmt_arm (a : app) (frame : list Z) (env : PairEnv) : Turn app * list Msg :=
  match decode_request frame with
  | None => (Next a, [])
  | Some req => let '(t, out) := handle_mgmt a req env in (turn_bind t id (fun a => Next (set_misses a 0)), out)
  end.

(** One turn: whichever of the four comes first, and the messages to the cable's host. *)
Inductive Event :=
| EvButton (ev : ButtonKind) (env : ButtonEnv)
| EvTimer (env : TimerEnv)
| EvAccel (env : AccelEnv)
| EvCable (frame : list Z) (env : PairEnv).
Definition turn (a : app) (ev : Event) : Turn app * list Msg :=
  match ev with
  | EvButton k env => (button_arm a k env, [])
  | EvTimer env => (timer_arm a env, [])
  | EvAccel env => (accel_arm a env, [])
  | EvCable frame env => mgmt_arm a frame env
  end.
Fixpoint run (a : app) (evs : list Event) : Turn app * list Msg :=
  match evs with
  | [] => (Next a, [])
  | ev :: evs =>
      match turn a ev with
      | (Next a, out) => let '(t, out') := run a evs in (t, out ++ out')
      | (t, out) => (t, out)
      end
  end.

(** *** Boot *)

(** At [no_now], on a device with TX counter state [no_dev] whose chip's id gives [no_unique]; [None] is a panic. The radio's start-up succeeds. *)
Record NodeBoot := { no_unique : Z; no_dev : Dev; no_fate : fate; no_past : list Aired; no_now : Z }.
Definition boot (w : W) (env : NodeBoot) : option app :=
  let own := radio_addr w (no_unique env) in
  let prov := get_provision w in
  match read_accel_setting w, match prov with Some p => Some (if pv_band p =? BAND_US915 then Us915 else Eu868) | None => node_band w end with
  | Some _, Some band =>
      let channel := match prov with Some p => pv_channel p | None => 0 end in
      let n := net_new {| c_addr := own; c_key := zeros 16; c_band := band; c_keys_stored := if prov then true else false |} w (no_dev env) (no_fate env) (no_past env) in
      let n := set_lane_persist_period (set_default_lane n false) 1 in
      let '(n, prov) := match prov with
                        | Some p => let '(n, ok) := add_peer n (gw_addr p) (pv_key p) in (n, if ok then Some p else None)
                        | None => (n, None)
                        end in
      let k := {| k_net := n; k_fhss := disabled; k_unacked := 0; k_last_cmd := 0; k_last_epoch := 0; k_last_lost := 0; k_ran := [] |} in
      let k := match prov with Some p => if bool_decide (band = Us915) then start_hopping k (gw_addr p) (no_now env) else k | None => k end in
      Some {| d_link := k; d_provision := prov; d_addr := own; d_band := band; d_channel := channel; d_counts := [0; 0; 0; 0];
              d_last_temp := None; d_last_temp_tx := no_now env; d_next_temp := no_now env; d_next_heartbeat := no_now env; d_pressed_at := None; d_misses := 0;
              d_accel_quiet := None; d_accel_backoff := ACCEL_BACKOFF_MIN; d_accel_empty := 0; d_accel_hold := None; d_accel_pending := None; d_resync_after := 0 |}
  | _, _ => None
  end.
End Device.
