(* ===== verification/NodeDemo.v ===== *)
(** Small codecs, a command and a gateway on the air for concrete lives of the node (Node). *)
From Stdlib Require Import Strings.String.
From S2P Require Import Prelude Bytes Str GwRegistry GwQueue Proto Cobs Crc Fingerprint Msg Frame Shell RadioEnv ShellEngine Mgmt.
From S2P Require Import NetTxctr NetReplay NetWire NetEpoch NetPairing NetHandshake Radio Ccm RadioFrame NetCore NetAir Bulk NetPair NetLink Fhss Dongle DongleCore DongleThm DongleDemo Node.
#[local] Abbreviation str := (list Z).

(** ** Codecs *)

#[export] Instance demo_shell_write : ShellWrite Store := { shell_put w l v := ((2, l, v) :: w, Ok tt) }.
(** A record is its gateway, band and channel, then its sixteen key bytes. *)
Definition record_rep (p : Provisioned) : Prop := bytes_ok [gw_addr p; pv_band p; pv_channel p] /\ bytes_ok (pv_key p) /\ zlen (pv_key p) = 16.
Definition record_bytes (p : Provisioned) : list Z := [gw_addr p; pv_band p; pv_channel p] ++ pv_key p.
Definition record_parse (l : list Z) : option (Provisioned * list Z) :=
  match l with
  | g :: b :: c :: l => Some ({| gw_addr := g; pv_key := take 16 l; pv_band := b; pv_channel := c |}, drop 16 l)
  | _ => None
  end.
#[export] Instance demo_node : NodeCodec := {|
  nc_record := codec record_rep record_bytes record_parse;
  nc_ack := codec (fun _ => False) (fun a => [pa_addr a]) (fun _ => None);
  nc_joined := codec (fun _ => False) (fun j => [jn_gw_addr j; jn_sas j]) (fun _ => None) |}.
Lemma split_text (d r : list Z) : take (Z.to_nat (zlen d)) (d ++ r) = d /\ drop (Z.to_nat (zlen d)) (d ++ r) = r.
Proof. unfold zlen. rewrite Nat2Z.id. split; [apply take_app_length | apply drop_app_length]. Qed.
#[export] Instance demo_record_laws : Msg.PostcardLaws Provisioned.
Proof.
  apply codec_laws.
  - intros [g k b c] (H1 & H2 & _). by apply bytes_ok_app.
  - intros [g k b c] r (_ & _ & H3). cbn [gw_addr pv_key pv_band pv_channel] in H3. cbn [record_bytes gw_addr pv_key pv_band pv_channel app record_parse].
    change 16%nat with (Z.to_nat 16). rewrite <- H3. by destruct (split_text k r) as [-> ->].
Qed.
Lemma demo_small (p : Provisioned) : representable p -> 0 < zlen (serialize p) <= 256.
Proof.
  intros (_ & _ & H). change (serialize p) with (record_bytes p). unfold record_bytes. rewrite zlen_app, H.
  change (zlen [gw_addr p; pv_band p; pv_channel p]) with 3. lia.
Qed.
(** A message is its kind and its numbers, a command its epoch, its id and its line. *)
Definition msg_bytes (m : NodeMsg) : list Z :=
  match m with
  | Info _ => [0]
  | Button _ count => [1; count]
  | Temperature millic => [2; millic]
  | Accel _ face => [3; face]
  | NodeShell c => [4; chunk_cmd_id c; chunk_result c; chunk_chunk c] ++ lit (chunk_text c)
  end.
Definition command_parse (l : list Z) : option (NodeCmd * list Z) :=
  match l with
  | e :: c :: l => if (0 <=? c) && (c <=? u16_max) then Some (CmdShell e c (to_string l), []) else None
  | _ => None
  end.
#[export] Instance demo_radio : RadioCodec := {|
  pc_node_msg := codec (fun _ => False) msg_bytes (fun _ => None);
  pc_node_cmd := codec (fun _ => False) (fun '(CmdShell e c _) => [e; c]) command_parse |}.
Lemma demo_commands d e c l : decode_node_cmd d = Ok (CmdShell e c l) -> u16_ok c.
Proof.
  unfold decode_node_cmd, decode_envelope. destruct (split_envelope d) as [body|]; [|done]. cbn [rbind]. unfold from_bytes_exact.
  cbn [take_from_bytes pc_node_cmd demo_radio codec]. destruct body as [|e' [|c' body]]; try done. cbn [command_parse].
  destruct ((0 <=? c') && (c' <=? u16_max)) eqn:E; [|done]. cbn. intros [= <- <- <-]. apply andb_true_iff in E as [? ?]. mlia.
Qed.

Definition COUNT : str := lit "count".
(** A command of the node that counts its runs in the store. *)
Definition runs_of (w : Store) : Z := match shell_get w 99 1 with Ok (Some (_, [c])) => c | _ => 0 end.
Definition count_run (_ : Origin) (_ : list (list Z)) (w : Store) : Store * (list (list Z) * Outcome) :=
  (fst (shell_put w 99 [runs_of w + 1]), ([lit "ok"], outcome_ok)).
Definition commands : list (Entry Store) := [entry_cmd COUNT ANone count_run].

(** ** The air *)

Definition NODE : Z := 5.
Definition node_boot : NodeBoot := {| no_unique := NODE; no_dev := used; no_fate := Landed; no_past := []; no_now := 0 |}.
(** The gateway's frame to the node. *)
Definition gw_frame (key : list Z) (ty : RadioFrame.FrameType) (fl c : Z) (p : list Z) : result RadioError (list Z) :=
  Ok (frame_bytes key {| frame_type := ty; flags := fl; src := GATEWAY; dest := NODE; RadioFrame.counter := c; bulk_index := None |} p).
Definition agreed_key : list Z := link_key NetPair.Demo.agreed.
(** The acknowledgement of counter [acked], with the mark of a waiting downlink or without. *)
Definition gw_ack (c acked pend : Z) : result RadioError (list Z) := gw_frame agreed_key RadioFrame.Ack 0 c (le_bytes 4 acked ++ [200; pend]).
Definition join_turn : JoinTurn := {|
  jt_entropy := Some (zeros 96); jt_req := air_ok; jt_resps := [Err CrcError; Ok [1; 2]; gw_frame JOIN_FRAME_KEY RadioFrame.JoinResp 0 1 (f_pl Toy.resp)];
  jt_nonce := air_ok; jt_reveals := [gw_frame JOIN_FRAME_KEY RadioFrame.JoinReveal 0 2 (f_pl Toy.reveal)]; jt_confirm := air_ok |}.
Definition tries (heard : list (result RadioError (list Z))) (i : nat) : Attempt := {| at_elapsed := 60000; at_tx := Ok tt; at_window := heard |}.
Definition pairing (turns : list JoinTurn) (heard : list (result RadioError (list Z))) : PairEnv :=
  {| pr_suspend := true; pr_tuned := true; pr_join := turns; pr_commit := fun _ => (Landed, tries heard); pr_now := 100; pr_seen := [] |}.
Definition no_pairing : PairEnv := pairing [] [].
Definition plan (heard : list (result RadioError (list Z))) : SendPlan :=
  {| sp_fate := Landed; sp_try := tries heard; sp_turns := 0; sp_tick := fun _ => {| ne_now := 0; ne_hear := fun _ _ _ => [] |}; sp_asked := fun _ => false;
     sp_send := fun _ => {| se_now := 0; se_prep := 4; se_fate := Landed; se_tx := Ok tt; se_window := [] |};
     sp_backoff := fun _ _ => {| ne_now := 0; ne_hear := fun _ _ _ => [] |} |}.
(** An uplink whose acknowledgement announces a downlink, command 7 of epoch 1, delivered as the gateway's frame
    [c]; the reply's chunk is acknowledged by [replied]. *)
Definition commanded (acked replied : list (result RadioError (list Z))) (c : Z) : UplinkPlan Store :=
  {| ul_send := plan acked;
     ul_windows := [{| we_now := 0;
       we_hear := fun _ => [(Ok [9; 9], -60, 0, air_ok);
                            (gw_frame agreed_key RadioFrame.Data RadioFrame.CONFIRMED c (le_bytes 2 RADIO_TAG ++ [1; 7] ++ COUNT), -60, 0, air_ok)];
       we_shell := {| sh_fuel := 2; sh_env := id; sh_plan := fun _ => plan replied |} |}] |}.
Definition button (k : ButtonKind) (p : PairEnv) (u : UplinkPlan Store) : Event :=
  EvButton k {| be_now := 1000; be_pair := p; be_uplink := u |}.
(** The node pairs, then a command reaches it twice: its first reply is lost, so the gateway delivers it again. *)
Definition node_day : list (Event (W := Store)) :=
  [button Msg.Hold (pairing [join_turn] [gw_ack 3 103 0]) (commanded [] [] 0);
   button Click no_pairing (commanded [gw_ack 4 104 1] [] 5);
   button Click no_pairing (commanded [gw_ack 6 107 1] [gw_ack 8 109 0] 7)].
