(* ===== verification/NodeThm.v ===== *)
(** What the node's application (Node) promises: one peer, its gateway, whatever is heard; a remote command runs
    once; a pairing that fails changes nothing; a hopping send ends. *)
From Stdlib Require Import Sorting.Permutation.
From S2P Require Import Prelude Bytes Str GwRegistry GwQueue Proto Cobs Fingerprint Msg Frame Shell RadioEnv ShellEngine Mgmt.
From S2P Require Import NetTxctr NetReplay NetWire NetEpoch NetPairing NetHandshake Radio Ccm RadioFrame NetCore NetAir Bulk NetPair NetLink Fhss.
From S2P Require Import Dongle DongleCore DongleThm Node.
#[local] Abbreviation str := (list Z).

Section Link.
Context {W : Type} `{NS : !NetStore W} `{AS : !AppStore W} `{AL : !AppStoreLaws W} `{SW : !ShellWrite W} `{Haes : !AesBlock} `{PP : !PairPrims}.
Context `{SC : Schemas} `{RC : RadioCodec} `{CC : ConsoleCodec} `{MC : MgmtCodec} `{NC : !NodeCodec}.
Context (fw_name fw_version : str) (session_id : Z) (base commands : list (Entry W)).
#[local] Abbreviation link := (Link W).
#[local] Abbreviation net := (Net W).

(** ** Sends leave the peers and the store alone *)

Lemma rx_fhss_send (n : net) f dest data c env : rx_same n (fst (fst (fhss_send n f dest data c env))).
Proof.
  unfold fhss_send. repeat (split_if; [done|]). destruct (f_anchor f) as [anchor|]; [|done]. cbv zeta. split_if; [done|].
  pose proof (rx_alloc n (se_fate env)) as Ha. destruct (net_alloc n _) as [n1 [k|]]; [|exact Ha]. cbn [fst] in Ha.
  destruct (seal_frame _ _ _ _) as [buf [len|]]; [|exact Ha]. destruct (se_tx env); [|by etrans]. split_if; [by etrans|].
  match goal with |- context [await_ack ?m ?key ?w ?h] => pose proof (rx_await m key w h) as Hw; destruct (await_ack m key w h) as [n3 acked] end.
  cbn [fst] in *. etrans; [exact Ha | exact Hw].
Qed.
Lemma rx_retry (n : net) f env : rx_same n (fst (fhss_retry_backoff n f env)).
Proof. unfold fhss_retry_backoff. destruct (rand_u32 n) as [n1 x] eqn:E. unfold rand_u32 in E. by injection E as <- _. Qed.
Lemma rx_hop turns : forall i tries scans missed (n : net) f dest data reps p,
  rx_same n (fst (fst (hop_send turns i tries scans missed n f dest data reps p))).
Proof.
  induction turns as [|turns IH]; intros i tries scans missed n f dest data reps p; cbn [hop_send]; [done|].
  destruct (fhss_node_tick f (sp_tick p i)) as [f1 slot]. destruct (ns_state slot).
  - cbv zeta. split_if; [done | apply IH].
  - split_if; [cbv zeta; split_if; [done | apply IH]|]. pose proof (rx_fhss_send n f1 dest data true (sp_send p i)) as Hs.
    destruct (fhss_send _ _ _ _ _ _) as [[n1 f2] r]. cbn [fst] in Hs. destruct r; try done; [cbv zeta; split_if; [done|]|by etrans; [exact Hs | apply IH]].
    pose proof (rx_retry n1 f2 (sp_backoff p i)) as Hb. destruct (fhss_retry_backoff _ _ _) as [n2 f3].
    etrans; [exact Hs | etrans; [exact Hb | apply IH]].
Qed.
Lemma rx_radio (n : net) f dest data reps p : rx_same n (fst (fst (radio_send n f dest data reps p))).
Proof.
  unfold radio_send. split_if; [|apply rx_hop]. pose proof (rx_send n dest data true reps (sp_fate p) (sp_try p)) as Hs. by destruct (send _ _ _ _ _ _ _).
Qed.

(** ** Steps between pairings *)

(** The keys of the registered peers. *)
Definition peers_are (n : net) (want : Z -> option (list Z)) : Prop :=
  TableInv n /\ default_lane_enabled n = false /\ forall x, option_map p_key (look n x) = want x.
Lemma peers_still (n n' : net) want : still n n' -> peers_are n want -> peers_are n' want.
Proof.
  intros Hs (HT & HL & HP). split; [by eapply table_still|]. split; [by rewrite (sl_lane _ _ Hs)|]. intros x. rewrite <- HP.
  pose proof (look_still n n' x Hs HT) as Hl. destruct (look n x) as [p|]; [|by rewrite Hl]. destruct Hl as (p' & -> & Hr).
  unfold row in Hr. simpl. congruence.
Qed.
Lemma peers_ext (n : net) want want' : (forall x, want x = want' x) -> peers_are n want -> peers_are n want'.
Proof. intros H (HT & HL & HP). split; [done|]. split; [done|]. intros x. by rewrite HP. Qed.
(** Only the gateway of [prov]. *)
Definition only (prov : option Provisioned) (x : Z) : option (list Z) :=
  match prov with Some p => if x =? gw_addr p then Some (pv_key p) else None | None => None end.
Definition one_peer (n : net) (prov : option Provisioned) : Prop := peers_are n (only prov).
Lemma one_still (n n' : net) prov : still n n' -> one_peer n prov -> one_peer n' prov.
Proof. apply peers_still. Qed.
Lemma one_store (n : net) w prov : one_peer n prov -> one_peer (on_store n w) prov.
Proof. intros ([] & HL & HP). split; [by split | by split]. Qed.

(** What a step does to the memory of the last command, and the commands it runs: each is not the one run last. *)
Inductive runs : link -> link -> Prop :=
| runs_none k k' : k_last_cmd k' = k_last_cmd k -> k_last_epoch k' = k_last_epoch k -> k_ran k' = k_ran k -> runs k k'
| runs_one k k' k'' epoch cmd_id line res : u16_ok cmd_id -> repeated k epoch cmd_id = false -> k_last_cmd k' = command_word res cmd_id ->
    k_last_epoch k' = epoch -> k_ran k' = (epoch, cmd_id, line) :: k_ran k -> runs k' k'' -> runs k k''.
Lemma repeated_same (k k' : link) e c : k_last_cmd k' = k_last_cmd k -> k_last_epoch k' = k_last_epoch k -> repeated k' e c = repeated k e c.
Proof. unfold repeated. by intros -> ->. Qed.
Lemma runs_same (k k1 k2 : link) : k_last_cmd k1 = k_last_cmd k -> k_last_epoch k1 = k_last_epoch k -> k_ran k1 = k_ran k -> runs k1 k2 -> runs k k2.
Proof.
  intros H1 H2 H3 H. destruct H as [a b E1 E2 E3|a b c e i l r Hu Hr E1 E2 E3 H].
  - apply runs_none; congruence.
  - apply (runs_one k b c e i l r); [done | by rewrite <- (repeated_same k a) | done | done | congruence | done].
Qed.
#[export] Instance runs_preorder : PreOrder runs.
Proof.
  split; [intros k; by apply runs_none|]. intros a b c H. induction H as [k k' E1 E2 E3|k k' k'' e i l r Hu Hr E1 E2 E3 H IH]; intros Hc.
  - by apply (runs_same k k').
  - apply (runs_one k k' c e i l r); try done. by apply IH.
Qed.
Record calm (k k' : link) : Prop := {
  cm_peer : forall prov, one_peer (k_net k) prov -> one_peer (k_net k') prov;
  cm_addr : addr (k_net k') = addr (k_net k);
  cm_runs : runs k k';
}.
#[export] Instance calm_preorder : PreOrder calm.
Proof.
  split; [intros k; by split|]. intros a b c [A1 A2 A3] [B1 B2 B3]. split; [by intros p ?%A1%B1 | congruence | by etrans].
Qed.
Lemma calm_still (k k' : link) : still (k_net k) (k_net k') -> k_last_cmd k' = k_last_cmd k -> k_last_epoch k' = k_last_epoch k -> k_ran k' = k_ran k -> calm k k'.
Proof. intros Hs H1 H2 H3. split; [intros p; by apply one_still | by apply sl_addr | by apply runs_none]. Qed.
Lemma calm_rx (k : link) n f : rx_same (k_net k) n -> calm k (on_radio k n f).
Proof. intros H. apply calm_still; [by apply still_rx | done..]. Qed.

(** A sink of the link [k]: its network is what sends made of [k]'s. *)
Definition sink_of (k : link) (s : NodeSink) : Prop := match s with Some (n, _, _) => rx_same (k_net k) n | None => True end.
Lemma flush_of k gw plan s last res : sink_of k s -> sink_of k (fst (flush gw plan s last res)).
Proof.
  destruct s as [[[n f] s]|]; [|done]. intros H. unfold flush. destruct (encode_msg _) as [wire|]; [|done].
  pose proof (rx_radio n f gw wire CHUNK_REPS (plan (length (rs_sent s)))) as Hr. destruct (radio_send _ _ _ _ _ _) as [[n1 f1] [r|]]; [|done].
  cbn [fst] in Hr. cbv zeta. simpl. by etrans.
Qed.
Lemma push_of k gw plan fuel : forall s rest, sink_of k s -> sink_of k (fst (push_loop fuel gw plan s rest)).
Proof.
  induction fuel as [|fuel IH]; intros s rest H; [done|]. destruct s as [[[n f] s]|]; [|done]. cbn [push_loop]. split_if; [done|]. cbv zeta. split_if.
  - pose proof (flush_of k gw plan (Some (n, f, s)) false 0 H) as Hf. destruct (flush _ _ _ _ _) as [k1 ok]. destruct ok; [by apply IH | exact Hf].
  - split_if; [|by apply IH]. match goal with |- context [flush gw plan ?x false 0] => pose proof (flush_of k gw plan x false 0 H) as Hf; destruct (flush gw plan x false 0) as [k1 ok] end.
    destruct ok; [by apply IH | exact Hf].
Qed.

(** What a sink keeps, a streamed response keeps. *)
Lemma stream_keeps {K} `{SK : !ShellSink K} (P : K -> Prop) :
  (forall k text, P k -> P (fst (sink_push k text))) -> (forall k r, P k -> P (fst (sink_done k r))) ->
  forall fuel env (base app : list (Entry W)) line o w k w' k' oc,
  P k -> stream_with fuel env base app line o w k = Some (w', k', oc) -> P k'.
Proof.
  intros Hpush Hdone fuel env bs ap line o w k w' k' oc HP.
  assert (Hrep : forall text r, reply w k text r = Some (w', k', oc) -> P k').
  { intros text r. unfold reply. pose proof (Hpush k text HP) as H1. destruct (sink_push k text) as [k1 b1]. cbn [fst] in H1.
    pose proof (Hdone k1 r H1) as H2. destruct (sink_done k1 r) as [k2 b2]. by intros [= <- <- <-]. }
  unfold stream_with. do 2 (split_if; [apply Hrep|]). cbv zeta. destruct (resolve _ _ _) as [|cmd start|]; try apply Hrep. split_if; [apply Hrep|].
  match goal with |- stream_loop _ ?r _ _ _ _ = _ -> _ => generalize r end. intros run. generalize 0. clear Hrep. revert w k HP. induction fuel as [|fuel IH]; intros w k HP skip; [done|].
  cbn [stream_loop]. destruct (run w) as [w1 [pieces outcome]]. destruct (pass _ _) as [window out]. pose proof (Hpush k out HP) as H1.
  destruct (sink_push k out) as [k1 pushed]. cbn [fst] in H1. split_if; [by intros [= <- <- <-]|]. split_if; [|by apply IH].
  pose proof (Hdone k1 (result_code outcome) H1) as H2. destruct (sink_done k1 _) as [k2 b]. by intros [= <- <- <-].
Qed.
Lemma sink_keeps k gw plan : (forall s text, sink_of k s -> sink_of k (fst (@sink_push _ (node_sink gw plan) s text))) /\
  (forall s r, sink_of k s -> sink_of k (fst (@sink_done _ (node_sink gw plan) s r))).
Proof.
  split; intros s x Hs; (destruct s as [[[n f] s]|]; [|done]); unfold node_sink; cbn [sink_push sink_done]; (destruct (rs_ok s); cbn [negb]; [|exact Hs]);
    [by apply push_of | by apply flush_of].
Qed.
(** What follows an uplink leaves [k]: a command it is given is of the types of its codec. *)
Context (Hcmd : forall d e c l, decode_node_cmd d = Ok (CmdShell e c l) -> u16_ok c).

Lemma calm_again (k k' : link) gw c plan : answer_again k gw c plan = Some k' -> calm k k' /\ kv (k_net k') = kv (k_net k) /\ k_ran k' = k_ran k.
Proof.
  unfold answer_again. destruct (sink_keeps k gw plan) as [Hp Hd]. cbv zeta. set (res := Z.land _ 0xFF).
  set (sk := if k_last_lost k =? 0 then _ else _). assert (Hs : sink_of k sk).
  { unfold sk. split_if; [by apply Hd|]. match goal with |- context [@sink_push _ _ ?a ?b] => pose proof (Hp a b ltac:(done)) as H1; destruct (@sink_push _ (node_sink gw plan) a b) as [s1 b1] end. by apply Hd. }
  clearbody sk. destruct sk as [[[n f] s]|]; [|done]. intros [= <-]. split; [by apply calm_rx|]. split; [apply Hs | done].
Qed.
Lemma calm_command (k : link) gw e c line env k' w : u16_ok c -> on_command base commands k gw e c line env = Some (k', w) -> calm k k'.
Proof.
  intros Hc. unfold on_command. destruct (repeated k e c) eqn:Hr.
  - destruct (answer_again k gw c (sh_plan env)) as [k1|] eqn:E; [|done]. intros [= <- _]. by apply calm_again in E as [].
  - unfold run_command. cbv zeta. destruct (sink_keeps k gw (sh_plan env)) as [Hp Hd].
    destruct (stream_with _ _ _ _ _ _ _ _) as [[[w1 s1] oc]|] eqn:E; [|done]. apply (stream_keeps (sink_of k) Hp Hd) in E; [|done].
    destruct s1 as [[[n f] s]|]; [|done]. intros [= <- _]. simpl in E. split.
    + intros prov HP. apply one_store, (one_still (k_net k)); [by apply still_rx | exact HP].
    + simpl. by destruct E as (_ & _ & _ & -> & _).
    + eapply (runs_one k _ _ e c line (result_code oc)); [exact Hc | exact Hr | | | | reflexivity]; done.
Qed.
Lemma calm_window heard : forall (k : link) gw env k' w, window_loop base commands heard k gw env = Some (k', w) -> calm k k'.
Proof.
  induction heard as [|[[[h rssi] lqi] ack] heard IH]; intros k gw env k' w; cbn [window_loop]; [by intros [= <- _]|].
  pose proof (still_recv (k_net k) h rssi lqi ack) as Hs. destruct (recv _ _ _ _ _) as [n r]. cbn [fst] in Hs.
  assert (H1 : calm k (on_net k n)) by (by apply calm_still). destruct r as [rx|]; [|intros H; etrans; [exact H1 | by eapply IH]].
  split_if; [intros H; etrans; [exact H1 | by eapply IH]|]. destruct (decode_node_cmd (rv_data rx)) as [[e c l]|] eqn:Ed; [|by intros [= <- _]].
  intros H. etrans; [exact H1|]. eapply calm_command; [|exact H]. by eapply Hcmd.
Qed.
Lemma calm_downlink (k : link) gw env k' w : downlink_window base commands k gw env = Some (k', w) -> calm k k'.
Proof. apply calm_window. Qed.

(** A turn ends, in [Next] or in [Reset], with what [P] says. *)
Definition ends {A} (P : A -> Prop) (t : Turn A) : Prop := match t with Next a | Reset a => P a | Watching => True end.
Lemma ends_bind {A B} (P : A -> Prop) (Q : B -> Prop) (t : Turn A) reset (next : A -> Turn B) :
  ends P t -> (forall a, P a -> Q (reset a)) -> (forall a, P a -> ends Q (next a)) -> ends Q (turn_bind t reset next).
Proof. destruct t; simpl; auto. Qed.
Lemma calm_chain ws : forall (k : link) gw, ends (calm k) (chain base commands ws k gw).
Proof.
  induction ws as [|env ws IH]; intros k gw; cbn [chain]; (split_if; [|done]); [done|].
  destruct (downlink_window base commands k gw env) as [[k1 w]|] eqn:E; [|done]. apply calm_downlink in E. destruct w; [done | | done].
  specialize (IH k1 gw). destruct (chain _ _ ws k1 gw); simpl in *; try done; by etrans.
Qed.
Lemma calm_uplink (k : link) prov msg reps u : ends (fun r => calm k (fst r)) (uplink base commands k prov msg reps u).
Proof.
  unfold uplink. destruct prov as [p|]; [|done]. destruct (encode_msg msg) as [data|]; [|done].
  pose proof (rx_radio (k_net k) (k_fhss k) (gw_addr p) data reps (ul_send u)) as Hr. destruct (radio_send _ _ _ _ _ _) as [[n f] [r|]]; [|done]. cbv zeta. cbn [fst] in Hr.
  set (k1 := set_unacked _ _). assert (H1 : calm k k1) by (apply calm_still; [by apply still_rx | done..]).
  eapply ends_bind; [apply calm_chain | |]; intros k2 H2; simpl; by etrans.
Qed.

(** ** Pairings *)

Lemma still_join_turns turns : forall (n : net) own un, still n (fst (join_turns n own un turns)).
Proof.
  induction turns as [|t turns IH]; intros n own un; cbn [join_turns]; [done|]. destruct (if un then _ else _) as [eph|]; [|done].
  destruct (net_alloc n _) as [n1 [c|]] eqn:E; apply still_alloc in E; [|exact E].
  match goal with |- context [tx_pair n1 ?k ?hd ?p ?e] => pose proof (still_tx_pair n1 k hd p e) as Ht; destruct (tx_pair n1 k hd p e) as [n2 sent] end.
  cbn [fst] in Ht. assert (H2 : still n n2) by (by etrans). split_if; [etrans; [exact H2 | apply IH]|].
  destruct (wait_frame _ _ _ _) as [[gw resp]|]; [|etrans; [exact H2 | apply IH]]. cbv zeta.
  destruct (net_alloc n2 _) as [n3 [c2|]] eqn:E2; apply still_alloc in E2; [|by etrans].
  match goal with |- context [tx_pair n3 ?k ?hd ?p ?e] => pose proof (still_tx_pair n3 k hd p e) as Ht2; destruct (tx_pair n3 k hd p e) as [n4 sent2] end.
  cbn [fst] in Ht2. assert (H4 : still n n4) by (etrans; [exact H2|]; by etrans). split_if; [etrans; [exact H4 | apply IH]|].
  destruct (wait_frame _ _ _ _) as [s|]; [|etrans; [exact H4 | apply IH]].
  destruct (net_alloc n4 _) as [n5 [c3|]] eqn:E3; apply still_alloc in E3; [|by etrans].
  match goal with |- context [tx_pair n5 ?k ?hd ?p ?e] => pose proof (still_tx_pair n5 k hd p e) as Ht3; destruct (tx_pair n5 k hd p e) as [n6 sent3] end.
  cbn [fst] in Ht3. assert (H6 : still n n6) by (etrans; [exact H4|]; by etrans). split_if; [etrans; [exact H6 | apply IH] | exact H6].
Qed.
Lemma still_join (n : net) own turns : still n (fst (join n own turns)).
Proof. unfold join. do 3 (split_if; [done|]). apply still_join_turns. Qed.

Lemma one_room (n : net) prov : one_peer n prov -> zlen (live (peers n)) < MAX_PEERS.
Proof.
  intros (HT & _ & HP). unfold only in HP. pose proof (ti_addrs _ HT) as Hnd. assert (Ha : forall x, In x (map p_addr (live (peers n))) -> prov = None -> False).
  { intros x Hx%look_In ->. specialize (HP x). by destruct (look n x). }
  assert (Hb : forall x, In x (map p_addr (live (peers n))) -> exists p, prov = Some p /\ x = gw_addr p).
  { intros x Hx. destruct prov as [p|]; [|by destruct (Ha x)]. exists p. split; [done|]. apply look_In in Hx. specialize (HP x).
    destruct (Z.eqb_spec x (gw_addr p)); [done|]. by destruct (look n x). }
  replace (zlen (live (peers n))) with (zlen (map p_addr (live (peers n)))) by (unfold zlen; by rewrite length_map).
  destruct (map p_addr (live (peers n))) as [|x [|y l]]; [done | done|]. exfalso.
  destruct (Hb x) as (p & Ep & Ex); [by left|]. destruct (Hb y) as (q & Eq & Ey); [right; by left|]. apply list.NoDup_cons in Hnd as [Hn _]. apply Hn.
  assert (x = y) as -> by congruence. left.
Qed.
Lemma add_true (n n' : net) a key : add_peer n a key = (n', true) -> peer_addr_valid a (addr n) = true.
Proof. unfold add_peer. by destruct (peer_addr_valid a (addr n)). Qed.
Lemma add_false (n n' : net) a key : add_peer n a key = (n', false) -> n' = n.
Proof.
  unfold add_peer. split_if; [by intros [= <-]|]. cbv zeta. destruct (peer_at n a) as [[i p]|]; [done|]. destruct (first_empty _); [|by intros [= <-]].
  destruct (assign_lane _ _ _ _); [done | by intros [= <-]].
Qed.
Lemma add_peers (n : net) want a key : peers_are n want -> peer_addr_valid a (addr n) = true -> look n a <> None \/ zlen (live (peers n)) < MAX_PEERS ->
  let n' := fst (add_peer n a key) in peers_are n' (fun x => if x =? a then Some key else want x) /\ addr n' = addr n /\ app_same (kv n) (kv n').
Proof.
  intros (HT & HL & HP) Hv Hr. destruct (add_changed n a key HT Hv Hr) as (p' & [C1 C2 C3 C4 C5 C6] & Hk & _). split; [|done].
  split; [done|]. split; [by rewrite C5|]. intros x. destruct (Z.eqb_spec x a) as [->|Hn]; [by rewrite C2; simpl; rewrite Hk | by rewrite C3].
Qed.
Lemma remove_peers (n : net) want a : peers_are n want ->
  let n' := fst (remove_peer n a) in peers_are n' (fun x => if x =? a then None else want x) /\ addr n' = addr n /\ app_same (kv n) (kv n').
Proof.
  intros (HT & HL & HP). destruct (remove_changed n a HT) as [C1 C2 C3 C4 C5 C6]. split; [|done].
  split; [done|]. split; [by rewrite C5|]. intros x. destruct (Z.eqb_spec x a) as [->|Hn]; [by rewrite C2 | by rewrite C3].
Qed.
Lemma tries_still fuel : forall attempt (k : link) gw env, let '(k', _) := commit_tries fw_name fw_version session_id fuel attempt k gw env in
  still (k_net k) (k_net k') /\ runs k k'.
Proof.
  induction fuel as [|fuel IH]; intros attempt k gw env; cbn [commit_tries]; [by split|]. cbv zeta. destruct (env _) as [o tries].
  assert (H1 : let '(k1, _) := commit_uplink fw_name fw_version session_id k gw o tries in still (k_net k) (k_net k1) /\ runs k k1).
  { unfold commit_uplink. destruct (encode_info _ _ _) as [data|]; [|done]. pose proof (still_send (k_net k) gw data true 3 o tries) as Hs.
    destruct (send _ _ _ _ _ _ _) as [n r]. split; [done | by apply runs_none]. }
  destruct (commit_uplink _ _ _ _ _ _ _) as [k1 d]. destruct (commit_step _ d); [done | | done]. specialize (IH (wrap8 (attempt + 1)) k1 gw env).
  destruct (commit_tries _ _ _ _ _ _ _ _) as [k2 b]. destruct H1, IH. split; by etrans.
Qed.


Context `{NCL : !Msg.PostcardLaws Provisioned}.
Context (Hsize : forall p : Provisioned, representable p -> 0 < zlen (serialize p) <= 256).

Lemma saved_reads (w w' : W) rec : set_provision w rec = (w', Ok tt) -> representable rec -> get_provision w' = Some rec.
Proof.
  intros E Hr. pose proof (Hsize rec Hr) as Hz. assert (H256 : zlen (zeros 256) = 256) by done. unfold set_provision in E.
  rewrite to_slice_fits in E by (done || lia). rewrite slice_patch_same in E by lia.
  apply (app_set_ok _ _ _ _ 256) in E; [|done]. unfold get_provision. rewrite E. unfold GwRegistry.held.
  replace (zlen (serialize rec) <=? 256) with true by (symmetry; apply Z.leb_le; lia). rewrite slice_all. unfold from_bytes.
  by rewrite <- (app_nil_r (serialize rec)), take_serialize.
Qed.
(** What a pairing leaves: the new gateway alone in the table, and in the store if its record was saved; or the
    table and the application's values as they were. *)
Definition pairs (k k' : link) (current : option Provisioned) (o : PairOutcome) : Prop :=
  addr (k_net k') = addr (k_net k) /\ runs k k' /\
  match o with
  | Paired rec _ saved => one_peer (k_net k') (Some rec) /\ (saved = true -> representable rec -> get_provision (kv (k_net k')) = Some rec)
  | _ => one_peer (k_net k') current /\ app_same (kv (k_net k)) (kv (k_net k'))
  end.
Lemma pairs_on_air (k : link) own band channel current env : one_peer (k_net k) current ->
  let '(k', o) := pair_on_air fw_name fw_version session_id k own band channel current env in pairs k k' current o.
Proof.
  intros H0. unfold pair_on_air. pose proof (still_join (k_net k) own (pr_join env)) as Hj. destruct (join _ _ _) as [n joined]. cbn [fst] in Hj.
  cbv zeta. pose proof (one_still _ _ _ Hj H0) as H1. destruct joined as [peer|]; [|split; [by apply sl_addr|]; split; [by apply runs_none|]; split; [done | by apply sl_store]].
  set (rec := {| gw_addr := _ |}). change (k_net (on_net k n)) with n. destruct (add_peer n (gw_addr rec) (pv_key rec)) as [n1 [|]] eqn:Ea.
  2: { apply add_false in Ea as ->. split; [by apply sl_addr|]. split; [by apply runs_none|]. split; [done | by apply sl_store]. }
  pose proof (add_true _ _ _ _ Ea) as Hv. pose proof (add_peers n (only current) (gw_addr rec) (pv_key rec) H1 Hv (or_intror (one_room _ _ H1))) as (H2 & A2 & S2).
  rewrite Ea in H2, A2, S2. cbn [fst] in H2, A2, S2. set (k1 := on_net (on_net k n) n1).
  pose proof (tries_still (Z.to_nat COMMIT_ATTEMPTS) 0 k1 (gw_addr rec) (pr_commit env)) as Ht. destruct (commit_tries _ _ _ _ _ _ _ _) as [k2 committed].
  destruct Ht as [Hs Hr]. pose proof (peers_still _ _ _ Hs H2) as H3. assert (A3 : addr (k_net k2) = addr (k_net k)).
  { rewrite (sl_addr _ _ Hs). change (k_net k1) with n1. rewrite A2. by apply sl_addr. }
  assert (S3 : app_same (kv (k_net k)) (kv (k_net k2))).
  { intros l cap. rewrite (sl_store _ _ Hs). change (k_net k1) with n1. rewrite (S2 l cap). apply (sl_store _ _ Hj). }
  assert (R3 : runs k k2) by (etrans; [|exact Hr]; by apply runs_none). destruct committed; cbn [negb].
  - cbv zeta. set (n3 := retire _ _ _). assert (H4 : one_peer n3 (Some rec) /\ addr n3 = addr (k_net k2)).
    { unfold n3, retire. destruct current as [c|].
      - destruct (Z.eqb_spec (gw_addr c) (gw_addr rec)) as [E|E].
        + split; [|done]. revert H3. apply peers_ext. intros x. unfold only. rewrite E. by destruct (x =? gw_addr rec).
        + pose proof (remove_peers (k_net k2) _ (gw_addr c) H3) as (H4 & A4 & _). split; [|done]. revert H4. apply peers_ext. intros x. unfold only.
          destruct (Z.eqb_spec x (gw_addr c)) as [->|]; [|done]. by destruct (Z.eqb_spec (gw_addr c) (gw_addr rec)).
      - split; [|done]. revert H3. by apply peers_ext. }
    destruct H4 as [H4 A4]. change (k_net (set_unacked (on_net k2 n3) 0)) with n3. destruct (set_provision (kv n3) rec) as [w r] eqn:Ew.
    split; [simpl; congruence|]. split; [etrans; [exact R3|]; by apply runs_none|]. split; [by apply one_store|]. intros Hok Hrep. simpl.
    destruct r as [[]|]; [|done]. by eapply saved_reads.
  - unfold unpair. assert (H4 : let n3 := fst match current with Some c => if gw_addr c =? gw_addr rec then add_peer (k_net k2) (gw_addr c) (pv_key c) else remove_peer (k_net k2) (gw_addr rec)
        | None => remove_peer (k_net k2) (gw_addr rec) end in one_peer n3 current /\ addr n3 = addr (k_net k2) /\ app_same (kv (k_net k2)) (kv n3)).
    { cbv zeta. assert (Hrem : (forall c, current = Some c -> gw_addr c <> gw_addr rec) -> let n3 := fst (remove_peer (k_net k2) (gw_addr rec)) in
        one_peer n3 current /\ addr n3 = addr (k_net k2) /\ app_same (kv (k_net k2)) (kv n3)).
      { intros Hc. pose proof (remove_peers (k_net k2) _ (gw_addr rec) H3) as (H4 & A4 & S4). split; [|done]. revert H4. apply peers_ext. intros x.
        destruct (Z.eqb_spec x (gw_addr rec)) as [->|]; [|done]. unfold only. destruct current as [c|]; [|done].
        specialize (Hc c eq_refl). by destruct (Z.eqb_spec (gw_addr rec) (gw_addr c)). }
      destruct current as [c|]; [|by apply Hrem]. destruct (Z.eqb_spec (gw_addr c) (gw_addr rec)) as [E|E]; [|apply Hrem; congruence].
      assert (Hk : look (k_net k2) (gw_addr c) <> None).
      { destruct H3 as (_ & _ & HP). specialize (HP (gw_addr c)). rewrite E, Z.eqb_refl in HP. rewrite E. by destruct (look _ _). }
      assert (Hv2 : peer_addr_valid (gw_addr c) (addr (k_net k2)) = true) by (rewrite E, A3, <- (sl_addr _ _ Hj); exact Hv).
      pose proof (add_peers (k_net k2) _ (gw_addr c) (pv_key c) H3 Hv2 (or_introl Hk)) as (H4 & A4 & S4). split; [|done]. revert H4. apply peers_ext. intros x.
      unfold only. rewrite E. by destruct (x =? gw_addr rec). }
    cbv zeta in H4. match type of H4 with one_peer ?n3 _ /\ _ => set (m := n3) in * end. destruct H4 as (H4 & A4 & S4).
    split; [simpl; congruence|]. split; [etrans; [exact R3|]; by apply runs_none|]. split; [exact H4|]. intros l cap. change (app_get (kv m) l cap = app_get (kv (k_net k)) l cap). rewrite (S4 l cap). apply S3.
Qed.
Lemma hopping_still (k : link) gw now : still (k_net k) (k_net (start_hopping k gw now)) /\ runs k (start_hopping k gw now) /\ kv (k_net (start_hopping k gw now)) = kv (k_net k).
Proof. split; [by split|]. split; [by apply runs_none | done]. Qed.
Lemma pair_pairs (k : link) own band channel current env : one_peer (k_net k) current ->
  let '(k', o) := pair fw_name fw_version session_id k own band channel current env in pairs k k' current o.
Proof.
  intros H0. unfold pair. cbv zeta. set (k1 := if bool_decide (band = Us915) then _ else k).
  assert (H1 : still (k_net k) (k_net k1) /\ runs k k1).
  { unfold k1. case_bool_decide; [|done]. split; [|by apply runs_none]. etrans; [apply still_suspend|]. simpl. destruct (pr_tuned env); by split. }
  destruct H1 as [Hs R1]. pose proof (pairs_on_air k1 own band channel current env (one_still _ _ _ Hs H0)) as Hp.
  destruct (pair_on_air _ _ _ _ _ _ _ _ _) as [k2 o]. destruct Hp as (A2 & R2 & H2).
  assert (H3 : pairs k k2 current o).
  { split; [by rewrite A2, (sl_addr _ _ Hs)|]. split; [by etrans|]. destruct o; [exact H2|..]; (destruct H2 as [H2 S2]; split; [exact H2|]; intros l cap; rewrite (S2 l cap); apply (sl_store _ _ Hs)). }
  case_bool_decide; [|exact H3]. destruct H3 as (A3 & R3 & H3).
  assert (Hr : pairs k (if current then on_net k2 (fhss_resume (k_net k2) (k_fhss k2)) else k2) current (match o with Paired _ _ _ => NoWindow | o => o end) \/ exists r s b, o = Paired r s b).
  { destruct o as [r s b| | |]; [right; by exists r, s, b|..]; left; (destruct current as [c|]; [|by split]; destruct H3 as [H3 S3]; pose proof (still_resume (k_net k2) (k_fhss k2)) as Hm;
      split; [simpl; by rewrite (sl_addr _ _ Hm)|]; split; [etrans; [exact R3|]; by apply runs_none|]; split; [by apply (one_still _ _ _ Hm)|];
      intros l cap; simpl; rewrite (sl_store _ _ Hm); apply S3). }
  destruct o as [r s b| | |]; [|by destruct Hr as [Hr|(? & ? & ? & ?)]..]. destruct H3 as [H3 G3].
  destruct (hopping_still k2 (gw_addr r) (pr_now env)) as (Hh & Rh & Kh). split; [by rewrite (sl_addr _ _ Hh)|]. split; [by etrans|].
  split; [by apply (one_still _ _ _ Hh) | by rewrite Kh].
Qed.

(** ** The application *)

#[local] Abbreviation app := (NodeApp W).
#[local] Abbreviation node_run := (run fw_name fw_version session_id base commands).
#[local] Abbreviation node_turn := (turn fw_name fw_version session_id base commands).
(** The state a run ends in; none while a send is still watched. *)
Definition state_of {A} (t : Turn A) : option A := match t with Next a | Reset a => Some a | Watching => None end.
Definition own_peer (a : app) : Prop := one_peer (k_net (d_link a)) (d_provision a).
Definition moved (a b : app) : Prop := own_peer a -> own_peer b /\ runs (d_link a) (d_link b).
#[export] Instance moved_preorder : PreOrder moved.
Proof. split; [intros a H; by split|]. intros a b c A B H. destruct (A H) as [A1 A2]. destruct (B A1) as [B1 B2]. split; [done | by etrans]. Qed.
Lemma moved_same (a b : app) : d_link b = d_link a -> d_provision b = d_provision a -> moved a b.
Proof. intros E1 E2 H. unfold own_peer in *. rewrite E1, E2. by split. Qed.
Lemma moved_link (a : app) k : calm (d_link a) k -> moved a (set_link a k (d_provision a)).
Proof. intros [H1 _ H2] H. by split; [apply H1|]. Qed.
Lemma ends_moved (a b : app) t : moved a b -> ends (moved b) t -> ends (moved a) t.
Proof. intros H. destruct t; simpl; try done; intros; by etrans. Qed.
Lemma moved_bind (a : app) (t : Turn app) (next : app -> Turn app) : ends (moved a) t -> (forall b, moved a b -> ends (moved a) (next b)) -> ends (moved a) (turn_bind t id next).
Proof. intros H1 H2. by eapply ends_bind. Qed.
Lemma moved_uplink (a b : app) msg reps u next : moved a b -> (forall c d, moved a c -> ends (moved a) (next c d)) ->
  ends (moved a) (noted_uplink base commands b msg reps u next).
Proof.
  intros Hab Hn. unfold noted_uplink. eapply ends_bind; [apply calm_uplink | |]; intros [k d] Hk; cbn [fst] in Hk.
  - simpl. etrans; [exact Hab | by apply moved_link].
  - apply Hn. etrans; [exact Hab|]. etrans; [by apply moved_link | by apply moved_same].
Qed.
Lemma moved_pair (a b : app) env : moved a b -> moved a (fst (button_pair fw_name fw_version session_id b env)).
Proof.
  intros Hab. etrans; [exact Hab|]. intros HI. unfold button_pair. pose proof (pair_pairs (d_link b) (d_addr b) (d_band b) (d_channel b) (d_provision b) env HI) as Hp.
  destruct (pair _ _ _ _ _ _ _ _ _) as [k o]. destruct Hp as (_ & R & H). by destruct o; destruct H.
Qed.
Lemma moved_button (a : app) ev env : ends (moved a) (button_arm fw_name fw_version session_id base commands a ev env).
Proof.
  unfold button_arm. cbv zeta. set (a1 := set_press a _ _). assert (H1 : moved a a1) by (by apply moved_same).
  destruct (d_provision a1).
  - set (a2 := if 0 <? d_misses a1 then _ else a1). assert (H2 : moved a a2) by (etrans; [exact H1|]; unfold a2; split_if; [by apply moved_same | done]).
    split_if; [exact H2|]. by apply moved_uplink.
  - destruct ev; try exact H1. apply moved_pair. etrans; [exact H1 | by apply moved_same].
Qed.
Lemma moved_resync (a : app) env : moved a (resync_step a env).
Proof.
  unfold resync_step. destruct (resync_due _ _); [|done]. split_if; [|done]. unfold fhss_resync. destruct (resync_loop _ _ _ _) as [f heard].
  assert (H : moved a (set_link a (on_radio (d_link a) (k_net (d_link a)) f) (d_provision a))) by (apply moved_link; by apply calm_rx).
  split_if; [exact H|]. etrans; [exact H | by apply moved_same].
Qed.
Lemma moved_repair (a b : app) env : moved a b -> moved a (repair_step fw_name fw_version session_id b env).
Proof.
  intros H. unfold repair_step. destruct (d_provision b) eqn:E; [|done]. destruct (d_pressed_at b); [|done].
  split_if; [etrans; [exact H | by apply moved_same]|]. split_if; [|done]. apply moved_pair. etrans; [exact H | by apply moved_same].
Qed.
Lemma moved_motion (a b : app) env : moved a b -> ends (moved a) (motion_step base commands b env).
Proof.
  intros H. unfold motion_step. destruct (d_accel_pending b); [|done]. split_if; [|done]. apply moved_uplink; [etrans; [exact H | by apply moved_same]|].
  intros c d Hc. simpl. etrans; [exact Hc | by apply moved_same].
Qed.
Lemma moved_heartbeat (a b : app) env next : moved a b -> (forall c, moved a c -> ends (moved a) (next c)) ->
  ends (moved a) (heartbeat_step fw_name fw_version session_id base commands b env next).
Proof.
  intros H Hn. unfold heartbeat_step. split_if; [by apply Hn|]. cbv zeta. set (b1 := set_times b _ _ _ _ _). assert (H1 : moved a b1) by (etrans; [exact H | by apply moved_same]).
  destruct (d_provision b1); [|by apply Hn]. apply moved_uplink; [done|]. intros c d. apply Hn.
Qed.
Lemma moved_temp (a b : app) env next : moved a b -> (forall c, moved a c -> ends (moved a) (next c)) -> ends (moved a) (temp_step base commands b env next).
Proof.
  intros H Hn. unfold temp_step. split_if; [by apply Hn|]. cbv zeta. assert (Hr : forall c p q n, moved a c -> moved a (next_temp c p q n)) by (intros; etrans; [done | by apply moved_same]).
  destruct (te_temp env); [|by apply Hn, Hr]. split_if; [|by apply Hn, Hr]. apply moved_uplink; [done|]. intros c d Hc. apply Hn, Hr.
  destruct d; [etrans; [exact Hc | by apply moved_same] | exact Hc].
Qed.
Lemma moved_timer (a : app) env : ends (moved a) (timer_arm fw_name fw_version session_id base commands a env).
Proof.
  unfold timer_arm. apply moved_temp; [apply moved_repair, moved_resync|]. intros b Hb. apply moved_heartbeat; [done|]. intros c Hc. by apply moved_motion.
Qed.
Lemma moved_pace (a b : app) env : moved a b -> moved a (pace b env).
Proof. intros H. etrans; [exact H|]. unfold pace. cbv zeta. split_if; by apply moved_same. Qed.
Lemma moved_accel (a : app) env : ends (moved a) (accel_arm base commands a env).
Proof.
  unfold accel_arm. cbv zeta. assert (Hp : forall t, ends (moved a) t -> ends (moved a) (turn_bind t id (fun a => Next (pace a env)))).
  { intros t Ht. apply moved_bind; [done|]. intros b Hb. by apply moved_pace. }
  destruct (ac_tilt env); destruct (d_provision a); try by apply Hp. split_if; apply Hp; [by apply moved_same|].
  unfold motion_uplink. apply moved_uplink; [done|]. intros c d Hc. simpl. etrans; [exact Hc | by apply moved_same].
Qed.
Lemma moved_provide (a : app) req_id p : ends (moved a) (fst (provide a req_id p)).
Proof.
  assert (Hs : forall w, moved a (set_link a (on_net (d_link a) (on_store (k_net (d_link a)) w)) (d_provision a))).
  { intros w. apply moved_link. split; [intros prov; by apply one_store | done | by apply runs_none]. }
  unfold provide. cbv zeta. split_if; [done|]. destruct (match override_of p with Some x => _ | None => _ end) as [w r]. split_if; [apply Hs|].
  destruct (set_provision _ _) as [w2 r2]. split_if; apply Hs.
Qed.
Lemma moved_join (a : app) req_id window env : moved a (fst (join_open fw_name fw_version session_id a req_id window env)).
Proof.
  unfold join_open. split_if; [done|]. intros HI. pose proof (pair_pairs (d_link a) (d_addr a) (d_band a) (d_channel a) (d_provision a) env HI) as Hp.
  destruct (pair _ _ _ _ _ _ _ _ _) as [k o]. destruct Hp as (_ & R & H). by destruct o; destruct H.
Qed.
Lemma moved_cable (a : app) frame env : ends (moved a) (fst (mgmt_arm fw_name fw_version session_id a frame env)).
Proof.
  unfold mgmt_arm. destruct (decode_request frame) as [req|]; [|done].
  assert (H : ends (moved a) (fst (handle_mgmt fw_name fw_version session_id a req env))).
  { unfold handle_mgmt. cbv zeta. destruct (mreq_op req); try done; [apply moved_provide|].
    pose proof (moved_join a (mreq_req_id req) window env) as Hj. by destruct (join_open _ _ _ _ _ _ _). }
  destruct (handle_mgmt _ _ _ _ _ _) as [t out]. cbn [fst] in *. apply moved_bind; [done|]. intros b Hb. simpl. etrans; [exact Hb | by apply moved_same].
Qed.
Lemma moved_turn (a : app) ev : ends (moved a) (fst (node_turn a ev)).
Proof. destruct ev; [apply moved_button | apply moved_timer | apply moved_accel | apply moved_cable]. Qed.
Lemma moved_run evs : forall a : app, ends (moved a) (fst (node_run a evs)).
Proof.
  induction evs as [|ev evs IH]; intros a; cbn [run]; [done|]. pose proof (moved_turn a ev) as H. destruct (node_turn a ev) as [t out]. cbn [fst] in H.
  destruct t as [b|b|]; try done. specialize (IH b). destruct (node_run b evs) as [t2 out2]. cbn [fst] in *. by eapply ends_moved.
Qed.
End Link.
