(* ===== verification/NodeRun.v ===== *)
(** The node from power-up (Node): what its runs promise its user, its gateway and the band. *)
From Stdlib Require Import Sorting.Permutation.
From S2P Require Import Prelude Bytes Str GwRegistry GwQueue Proto Cobs Fingerprint Msg Frame Shell RadioEnv ShellEngine Mgmt.
From S2P Require Import NetTxctr NetReplay NetWire NetEpoch NetPairing NetHandshake Radio Ccm RadioFrame NetCore NetAir Bulk NetPair NetLink Fhss.
From S2P Require Import Dongle DongleCore DongleThm DongleDemo Node NodeDemo NodeThm FhssThm.
#[local] Abbreviation str := (list Z).

(** ** A hopping send ends *)

Section Hopping.
Context {W : Type} `{NS : !NetStore W} `{Haes : !AesBlock}.
#[local] Abbreviation net := (Net W).

Lemma beacon_heard key heard e s t : fhss_rx_beacon key heard = Some (e, s, t) -> exists buf, In (Ok buf, t) heard.
Proof.
  induction heard as [|[[buf|err] t'] heard IH]; cbn [fhss_rx_beacon]; [done| |done]. destruct (read_beacon key buf) as [[e' s']|].
  - intros [= <- <- <-]. exists buf. by left.
  - intros H. destruct (IH H) as [b Hb]. exists b. by right.
Qed.
(** A turn that ends in a beacon has locked onto one of the frames it heard. *)
Definition locked_on (env : NodeEnv) (f' : Fhss.Fhss) : Prop :=
  exists f0 s t, f' = fhss_lock f0 s t /\ exists ch opened len buf, In (Ok buf, t) (ne_hear env ch opened len).
Lemma tick_locked (f : Fhss.Fhss) env : let '(f', slot) := fhss_node_tick f env in
  ns_state slot = Synced -> ns_got_beacon slot = true -> locked_on env f'.
Proof.
  assert (Hscan : forall f, let '(f', slot) := scan_slot f env in ns_state slot = Synced -> ns_got_beacon slot = true -> locked_on env f').
  { intros f1. unfold scan_slot. destruct (fhss_rx_beacon _ _) as [[[e s] t]|] eqn:Eb; [|done]. destruct (scan_beacon _ _) as [g v]. destruct v; try done.
    intros _ _. eexists _, _, _. split; [done|]. eexists _, _, _. exact (beacon_heard _ _ _ _ _ Eb). }
  unfold fhss_node_tick. destruct (f_anchor f) as [anchor|]; [|apply Hscan]. destruct (tick_slack _ _) as [slack|]; [|apply Hscan].
  unfold track_slot. cbv zeta. destruct (fhss_rx_beacon _ _) as [[[e s] t]|] eqn:Eb.
  - destruct (offer_tracked _ _ _ _) as [g v]. case_bool_decide.
    + intros _ _. eexists _, _, _. split; [done|]. eexists _, _, _. exact (beacon_heard _ _ _ _ _ Eb).
    + destruct (beacon_missed _) as [g2 v2]. by case_bool_decide.
  - destruct (beacon_missed _) as [g2 v2]. by case_bool_decide.
Qed.
(** The end of the slot whose beacon was just heard. *)
Lemma locked_end f0 s t now : t <= now <= t + 200 -> let f := fhss_lock f0 s t in
  exists anchor, f_anchor f = Some anchor /\ t + 282 <= fhss_slot_start anchor (wrap32 (fhss_cur_slot anchor now + 1)).
Proof.
  intros Hn f. unfold f, fhss_lock. cbn [f_anchor set_clock]. eexists. split; [reflexivity|]. unfold fhss_slot_start, fhss_cur_slot. cbn [fst snd].
  assert (Hb : beacon_toa_ms = 18) by (vm_compute; reflexivity). rewrite Hb. set (a := sub_or t 18 t). assert (Ha : t - 18 <= a <= t) by (unfold a, sub_or; destruct (_ <? _); lia).
  replace (sat_sub now a / FHSS_SLOT_MS) with 0 by (symmetry; apply Z.div_small; unfold sat_sub, FHSS_SLOT_MS; lia).
  replace (wrap32 (wrap32 (s + wrap32 0) + 1) - s) with (wrap32 (s + 1) - s) by (unfold wrap32; rewrite Zmod_0_l, Z.add_0_r, Zplus_mod_idemp_l; done).
  replace (wrap32 (wrap32 (s + 1) - s)) with 1; [unfold FHSS_SLOT_MS; lia|]. unfold wrap32. rewrite Zminus_mod_idemp_l. by replace (s + 1 - s) with 1 by lia.
Qed.
Lemma short_airtime len : 0 <= len <= 97 -> frame_toa_ms len <= 45.
Proof.
  intros H. unfold frame_toa_ms, div_ceil, sat_mul, sat_add, BITRATE. rewrite !Z.min_l by (unfold u64_max; lia).
  assert (Hd : ((len + (4 + 4 + 1 + 2)) * (8 * 1000) + (19200 - 1)) / 19200 < 46) by (apply Z.div_lt_upper_bound; lia).
  split_if; bool_hyps; [unfold u32_max in *|]; lia.
Qed.
(** A send within 149 ms of the slot's beacon has room. *)
Lemma prompt_room (n : net) f0 s t dest data env : t <= se_now env <= t + 149 ->
  snd (fhss_send n (fhss_lock f0 s t) dest data true env) <> DutyLimited.
Proof.
  intros Hn. unfold fhss_send. do 3 (split_if; [done|]). split_if; [done|]. bool_hyps. split_if; [done|].
  destruct (locked_end f0 s t (se_now env)) as (anchor & -> & He); [lia|]. cbv zeta. split_if.
  - exfalso. bool_hyps. pose proof (short_airtime (HDR_LEN + zlen data + TAG_LEN)) as Ha. pose proof (zlen_nonneg data).
    assert (Hb : beacon_toa_ms = 18) by (vm_compute; reflexivity). rewrite Hb in *. unfold sat_sub, GUARD, MASTER_LOOP_BUDGET, HDR_LEN, TAG_LEN, MAX_PAYLOAD in *. lia.
  - destruct (net_alloc n _) as [n1 [c|]]; [|done]. destruct (seal_frame _ _ _ _) as [b [len|]]; [|done]. destruct (se_tx env); [|done].
    cbn [negb]. destruct (await_ack _ _ _ _) as [n2 acked]. by destruct acked.
Qed.

(** The tries of [p] are prompt: each starts within 149 ms of the beacon its turn hears. *)
Definition prompt (p : SendPlan) : Prop := forall i f, let '(f', slot) := fhss_node_tick f (sp_tick p i) in
  ns_state slot = Synced -> ns_got_beacon slot = true -> f_last_beacon f' <= se_now (sp_send p i) <= f_last_beacon f' + 149.
Lemma hop_ends p dest data reps : prompt p -> Z.max reps 1 <= 255 ->
  forall turns i tries scans missed (n : net) f, 0 <= tries < Z.max reps 1 -> 0 <= scans < FHSS_SCAN_TICKS -> 0 <= missed < FHSS_MISSED_BEACONS ->
  (FHSS_SCAN_TICKS - 1 - scans) + (FHSS_MISSED_BEACONS - 1 - missed) + (Z.max reps 1 - 1 - tries) < Z.of_nat turns ->
  snd (hop_send turns i tries scans missed n f dest data reps p) <> None.
Proof.
  intros Hp Hr. induction turns as [|turns IH]; intros i tries scans missed n f Ht Hs Hm Hf; [mlia|]. cbn [hop_send].
  specialize (Hp i f). pose proof (tick_locked f (sp_tick p i)) as Hl. destruct (fhss_node_tick f (sp_tick p i)) as [f1 slot]. destruct (ns_state slot).
  - cbv zeta. rewrite wrap16_small by mlia. split_if; [done|]. bool_hyps. apply IH; mlia.
  - destruct (ns_got_beacon slot); cbn [negb].
    + destruct (Hl eq_refl eq_refl) as (f0 & s & t & -> & _). specialize (Hp eq_refl eq_refl). change (f_last_beacon (fhss_lock f0 s t)) with t in Hp.
      pose proof (prompt_room n f0 s t dest data (sp_send p i) Hp) as Hd. destruct (fhss_send _ _ _ _ _ _) as [[n1 f2] r]. cbn [snd] in Hd.
      destruct r; try done. cbv zeta. rewrite wrap8_small by mlia. split_if; [done|]. bool_hyps. destruct (fhss_retry_backoff _ _ _) as [n2 f3]. apply IH; mlia.
    + cbv zeta. rewrite wrap8_small by mlia. split_if; [done|]. bool_hyps. apply IH; mlia.
Qed.
(** C37. A hopping send ends. Whatever is heard or missed, if each try starts within 149 ms of its slot's beacon,
    the send is over after at most 86 turns more than its tries: scanning is given up after 80 turns
    (28 s), eight slots without a beacon end it, and a slot always has room for the largest confirmed frame
    and its acknowledgement, so none is skipped for ever. *)
Theorem hop_send_ends p dest data reps (n : net) f : prompt p -> reps <= 255 ->
  (Z.to_nat (86 + Z.max reps 1) <= sp_turns p)%nat -> access n = NetCore.Fhss ->
  exists r, snd (radio_send n f dest data reps p) = Some r.
Proof.
  intros Hp Hr Ht Ha. unfold radio_send. rewrite bool_decide_eq_true_2 by done. cbn [negb].
  pose proof (hop_ends p dest data reps Hp ltac:(lia) (sp_turns p) 0 0 0 0 n f ltac:(lia) ltac:(mlia) ltac:(mlia) ltac:(mlia)) as H.
  destruct (hop_send _ _ _ _ _ _ _ _ _ _ _) as [[n1 f1] r]. cbn [snd] in *. destruct r as [r|]; [by exists r | done].
Qed.
End Hopping.

Section Life.
Context {W : Type} `{NS : !NetStore W} `{AS : !AppStore W} `{AL : !AppStoreLaws W} `{SW : !ShellWrite W} `{Haes : !AesBlock} `{PP : !PairPrims}.
Context `{SC : Schemas} `{RC : RadioCodec} `{CC : ConsoleCodec} `{MC : MgmtCodec} `{NC : !NodeCodec} `{NCL : !Msg.PostcardLaws Provisioned}.
Context (fw_name fw_version : str) (session_id : Z) (base commands : list (Entry W)).
(** The codecs give values of their types, and the record of a provisioning is small. *)
Context (Hcmd : forall d e c l, decode_node_cmd d = Ok (CmdShell e c l) -> u16_ok c).
Context (Hsize : forall p : Provisioned, representable p -> 0 < zlen (serialize p) <= 256).
#[local] Abbreviation app := (NodeApp W).
#[local] Abbreviation net := (Net W).

Lemma boot_own w env (a : app) : boot w env = Some a -> own_peer a /\ k_ran (d_link a) = [].
Proof.
  unfold boot. destruct (read_accel_setting w) as [accel|]; [|done]. cbv zeta. set (band := match get_provision w with Some p => _ | None => _ end).
  destruct band as [band|]; [|done]. set (n0 := net_new _ _ _ _ _). set (n1 := set_lane_persist_period _ _).
  assert (H1 : one_peer n1 None).
  { assert (Hl : live (peers n1) = []) by done. split; [split; [done | rewrite Hl; constructor | rewrite Hl; constructor | rewrite Hl; constructor]|]. split; [done|].
    intros x. destruct (look n1 x) eqn:E; [|done]. exfalso. assert (Hx : look n1 x <> None) by (by rewrite E). apply look_In in Hx. by rewrite Hl in Hx. }
  set (np := match get_provision w with Some p => _ | None => _ end). assert (H2 : one_peer (fst np) (snd np)).
  { unfold np. destruct (get_provision w) as [p|]; [|done]. destruct (add_peer n1 (gw_addr p) (pv_key p)) as [n2 ok] eqn:Ea. destruct ok; [|by apply add_false in Ea as ->].
    pose proof (add_peers n1 _ (gw_addr p) (pv_key p) H1 (add_true _ _ _ _ Ea) (or_intror (one_room _ _ H1))) as (H2 & _). by rewrite Ea in H2. }
  destruct np as [n2 prov]. cbn [fst snd] in H2. set (k := {| k_net := n2 |}). set (k1 := match prov with Some p => _ | None => _ end). intros [= <-].
  unfold own_peer. cbn [d_link d_provision]. assert (Hk : still n2 (k_net k1) /\ k_ran k1 = []).
  { unfold k1. destruct prov as [p|]; [|done]. split_if; [|done]. destruct (hopping_still k (gw_addr p) (no_now env)) as [Hs _]. by split. }
  destruct Hk as [Hs Hran]. split; [by apply (one_still _ _ _ Hs) | done].
Qed.
(** A value longer than eight bytes under the accelerometer's setting panics the boot. *)
Theorem long_accel_setting_panics w n b env : shell_get w SET_ACCEL 8 = Ok (Some (n, b)) -> 8 < n -> boot w env = None.
Proof. intros H Hn. unfold boot, read_accel_setting. rewrite H. by replace (8 <? n) with true by lia. Qed.

(** A life of the node: a power-up and a run of the main loop. *)
Definition life (w : W) (env : NodeBoot) (evs : list Event) : option app :=
  match boot w env with Some a => state_of (fst (run fw_name fw_version session_id base commands a evs)) | None => None end.
Lemma life_moved w env evs a : life w env evs = Some a -> exists a0, boot w env = Some a0 /\ own_peer a0 /\ k_ran (d_link a0) = [] /\ own_peer a /\ runs (d_link a0) (d_link a).
Proof.
  unfold life. destruct (boot w env) as [a0|] eqn:Eb; [|done]. destruct (boot_own _ _ _ Eb) as [H0 Hr].
  pose proof (moved_run fw_name fw_version session_id base commands Hcmd Hsize evs a0) as Hm. destruct (run _ _ _ _ _ _ _) as [t out]. cbn [fst] in *.
  intros E. exists a0. split; [done|]. split; [done|]. split; [done|]. destruct t; try done; injection E as ->; by apply Hm.
Qed.
(** C35. A node has one peer. Through any life of the node - uplinks, commands, pairings that commit, fail or are
    refused, provisionings - it accepts frames from its gateway only: the peer table holds exactly the
    gateway it is provisioned for, under that provisioning's key, and nothing while it has none; the
    unauthenticated default lane stays shut. *)
Theorem node_keeps_one_peer w env evs a : life w env evs = Some a ->
  default_lane_enabled (k_net (d_link a)) = false /\
  forall x, option_map p_key (look (k_net (d_link a)) x) = match d_provision a with Some p => if x =? gw_addr p then Some (pv_key p) else None | None => None end.
Proof. intros H. apply life_moved in H as (a0 & _ & _ & _ & H & _). destruct H as (_ & HL & HP). by split. Qed.

(** No command stands next to itself. *)
Fixpoint no_repeats (ran : list (Z * Z * str)) : Prop :=
  match ran with
  | (e, c, _) :: rest => match rest with (e', c', _) :: _ => (e, c) <> (e', c') | [] => True end /\ no_repeats rest
  | [] => True
  end.
(** The last command run is the one the node remembers. *)
Definition remembers (k : Link W) : Prop := no_repeats (k_ran k) /\ match k_ran k with (e, c, _) :: _ => repeated k e c = true | [] => True end.
Lemma word_repeated (k : Link W) e c res : u16_ok c -> k_last_cmd k = command_word res c -> k_last_epoch k = e -> repeated k e c = true.
Proof.
  intros Hc Hw He. unfold repeated. rewrite Hw, He, Z.eqb_refl, andb_true_r. unfold command_word. apply andb_true_iff. split.
  - apply negb_true_iff, Z.eqb_neq. intros E. apply (f_equal (fun x => Z.testbit x 24)) in E.
    rewrite Z.land_spec, !Z.lor_spec in E. change (Z.testbit VALID 24) with true in E. by rewrite Z.bits_0 in E.
  - apply Z.eqb_eq. change 0xFFFF with (Z.ones 16). apply Z.bits_inj'. intros i Hi. rewrite Z.land_spec, !Z.lor_spec.
    destruct (Z.lt_ge_cases i 16) as [Hl|Hl].
    + rewrite Z.ones_spec_low by lia. rewrite Z.shiftl_spec_low by lia. unfold VALID. by rewrite Z.shiftl_spec_low, andb_true_r by lia.
    + rewrite Z.ones_spec_high, andb_false_r by lia. symmetry. apply Z.bits_above_log2; [mlia|]. destruct (Z.eq_dec c 0) as [->|]; [simpl; lia|].
      apply (Z.lt_le_trans _ 16); [|done]. apply Z.log2_lt_pow2; mlia.
Qed.
Lemma runs_remember (k k' : Link W) : runs k k' -> remembers k -> remembers k'.
Proof.
  induction 1 as [k k' E1 E2 E3|k k1 k' e c l res Hc Hr E1 E2 E3 H IH]; intros [H1 H2].
  - unfold remembers. rewrite E3. split; [done|]. destruct (k_ran k) as [|[[e c] l] ran]; [done|]. by rewrite (repeated_same k).
  - apply IH. unfold remembers. rewrite E3. split; [|by eapply word_repeated]. split; [|done]. destruct (k_ran k) as [|[[e0 c0] l0] ran]; [done|].
    intros [= -> ->]. congruence.
Qed.
(** C34. A remote command runs once. Through any life of the node, however often the gateway's at-least-once queue
    delivers, no command is executed twice in a row; and one delivered again right after it ran is
    answered without running anything: the store and the history stay as they are. *)
Theorem commands_run_once w env evs a : life w env evs = Some a ->
  no_repeats (k_ran (d_link a)) /\
  forall e c l ran gw line shell k' r, k_ran (d_link a) = (e, c, l) :: ran -> on_command base commands (d_link a) gw e c line shell = Some (k', r) ->
    r = Served /\ k_ran k' = k_ran (d_link a) /\ kv (k_net k') = kv (k_net (d_link a)).
Proof.
  intros H. apply life_moved in H as (a0 & _ & _ & Hr & _ & H). assert (Hm : remembers (d_link a)) by (apply (runs_remember _ _ H); unfold remembers; by rewrite Hr).
  destruct Hm as [H1 H2]. split; [done|]. intros e c l ran gw line shell k' r E. rewrite E in H2. unfold on_command. rewrite H2.
  destruct (answer_again _ _ _ _) as [k1|] eqn:Ea; [|done]. intros [= <- <-]. apply calm_again in Ea as (_ & Hk & Hran). done.
Qed.

(** C36. A pairing that fails changes nothing. Wherever a life of the node has come, a pairing that finds no
    window, names a gateway the peer table refuses, or is not confirmed by an acknowledgement under the new
    key leaves the registered keys and every value of the application in the store as they were; one that
    commits leaves the new gateway alone in the table and, if it could be saved, in the store. *)
Theorem failed_pairing_changes_nothing w env evs a penv : life w env evs = Some a ->
  let '(k', o) := pair fw_name fw_version session_id (d_link a) (d_addr a) (d_band a) (d_channel a) (d_provision a) penv in
  match o with
  | Paired rec _ saved =>
      (forall x, option_map p_key (look (k_net k') x) = if x =? gw_addr rec then Some (pv_key rec) else None) /\
      (saved = true -> representable rec -> get_provision (kv (k_net k')) = Some rec)
  | _ =>
      (forall x, option_map p_key (look (k_net k') x) = option_map p_key (look (k_net (d_link a)) x)) /\
      (forall l cap, app_get (kv (k_net k')) l cap = app_get (kv (k_net (d_link a))) l cap)
  end.
Proof.
  intros H. apply life_moved in H as (a0 & _ & _ & _ & HI & _).
  pose proof (pair_pairs fw_name fw_version session_id Hsize (d_link a) (d_addr a) (d_band a) (d_channel a) (d_provision a) penv HI) as Hp.
  destruct (pair _ _ _ _ _ _ _ _ _) as [k o]. destruct Hp as (_ & _ & H). destruct HI as (_ & _ & HP).
  destruct o; destruct H as [(_ & _ & H) G]; (split; [|exact G]); [exact H|..]; intros x; by rewrite H, HP.
Qed.
End Life.

Module Demo.
#[local] Abbreviation Store := DongleDemo.Store.
(** A beacon in each slot, a try 100 ms after it, and no acknowledgement. *)
Definition unheard : SendPlan := {|
  sp_fate := Landed; sp_try := tries []; sp_turns := 91;
  sp_tick := fun i => let j := 6 + Z.of_nat i in
    {| ne_now := FhssThm.Demo.starts j - 200; ne_hear := fun ch _ _ => if ch =? fhss_channel_for 77 j then [(Ok (FhssThm.Demo.beacon_frame j), FhssThm.Demo.heard_at j)] else [] |};
  sp_asked := fun _ => false;
  sp_send := fun i => {| se_now := FhssThm.Demo.heard_at (6 + Z.of_nat i) + 100; se_prep := 4; se_fate := Landed; se_tx := Ok tt; se_window := [] |};
  sp_backoff := fun i _ => FhssThm.Demo.deaf (FhssThm.Demo.starts (6 + Z.of_nat i) + 100) |}.
Lemma unheard_prompt : prompt unheard.
Proof.
  intros i f. pose proof (tick_locked f (sp_tick unheard i)) as H. destruct (fhss_node_tick _ _) as [f' slot]. intros Hs Hb.
  destruct (H Hs Hb) as (f0 & s & t & -> & ch & o & len & buf & Hin). cbn [sp_tick unheard ne_hear] in Hin.
  destruct (_ =? _); [|done]. destruct Hin as [[= _ Ht]|[]]. change (f_last_beacon (fhss_lock f0 s t)) with t. rewrite <- Ht. cbn [sp_send unheard se_now]. lia.
Qed.
Definition unheard_send : Net NetLink.Demo.Store * Fhss.Fhss * option SendResult :=
  radio_send FhssThm.Demo.hopper FhssThm.Demo.f0 NetLink.Demo.GATEWAY [1; 2; 3] 5 unheard.
Lemma hop_send_ends_witness : snd unheard_send = Some NotDelivered /\ exists r, snd unheard_send = Some r.
Proof.
  split; [vm_compute; reflexivity|].
  refine (hop_send_ends unheard NetLink.Demo.GATEWAY [1; 2; 3] 5 FhssThm.Demo.hopper FhssThm.Demo.f0 unheard_prompt _ _ _).
  - lia.
  - apply Nat.leb_le. reflexivity.
  - reflexivity.
Defined.

(** The node of [node_day] at its end. *)
#[local] Notation day_end := (life fw fw 1 [] commands ([] : Store) node_boot node_day).
Definition rec9 : Provisioned := {| gw_addr := GATEWAY; pv_key := agreed_key; pv_band := 0; pv_channel := 0 |}.
Lemma node_keeps_one_peer_witness : exists a, day_end = Some a /\ d_provision a = Some rec9 /\
  forall x, option_map p_key (look (k_net (d_link a)) x) = if x =? GATEWAY then Some agreed_key else None.
Proof.
  assert (F : option_map d_provision day_end = Some (Some rec9)) by (vm_compute; reflexivity).
  destruct day_end as [a|] eqn:E; [|discriminate F]. injection F as Hp. exists a. split; [reflexivity|]. split; [exact Hp|].
  pose proof (proj2 (node_keeps_one_peer fw fw 1 [] commands demo_commands demo_small [] node_boot node_day a E)) as H. rewrite Hp in H. exact H.
Defined.
Definition again : ShellEnv Store := {| sh_fuel := 2; sh_env := id; sh_plan := fun _ => plan [] |}.
Lemma commands_run_once_witness : exists a k', day_end = Some a /\ k_ran (d_link a) = [(1, 7, COUNT)] /\ runs_of (store_of a) = 1 /\
  on_command [] commands (d_link a) GATEWAY 1 7 (COUNT) again = Some (k', Served) /\ kv (k_net k') = store_of a.
Proof.
  assert (F : option_map (fun a => (k_ran (d_link a), runs_of (store_of a),
    option_map snd (on_command [] commands (d_link a) GATEWAY 1 7 (COUNT) again))) day_end = Some ([(1, 7, COUNT)], 1, Some Served))
    by (vm_compute; reflexivity).
  destruct day_end as [a|] eqn:E; [|discriminate F]. injection F as Hr Hs Hk.
  destruct (on_command _ _ _ _ _ _ _ _) as [[k' r]|] eqn:Ek; [|discriminate Hk]. injection Hk as ->.
  exists a, k'. split; [reflexivity|]. split; [exact Hr|]. split; [exact Hs|]. split; [exact Ek|].
  exact (proj2 (proj2 (proj2 (commands_run_once fw fw 1 [] commands demo_commands demo_small [] node_boot node_day a E) _ _ _ _ _ _ _ _ _ Hr Ek))).
Defined.
(** A pairing with the same gateway whose first uplink nobody acknowledges. *)
Definition unacked_pairing : PairEnv := pairing [join_turn] [].
Lemma failed_pairing_changes_nothing_witness : exists a k', day_end = Some a /\
  pair fw fw 1 (d_link a) (d_addr a) (d_band a) (d_channel a) (d_provision a) unacked_pairing = (k', Unconfirmed) /\
  option_map p_key (look (k_net k') GATEWAY) = Some agreed_key /\ get_provision (kv (k_net k')) = Some rec9.
Proof.
  assert (F : option_map (fun a => (snd (pair fw fw 1 (d_link a) (d_addr a) (d_band a) (d_channel a) (d_provision a) unacked_pairing),
    option_map p_key (look (k_net (d_link a)) GATEWAY), get_provision (store_of a))) day_end = Some (Unconfirmed, Some agreed_key, Some rec9))
    by (vm_compute; reflexivity).
  destruct day_end as [a|] eqn:E; [|discriminate F]. injection F as Hu Hl Hg.
  pose proof (failed_pairing_changes_nothing fw fw 1 [] commands demo_commands demo_small [] node_boot node_day a unacked_pairing E) as H.
  destruct (pair _ _ _ _ _ _ _ _ _) as [k' o] eqn:Ep. cbn [snd] in Hu. subst o. destruct H as [H1 H2].
  exists a, k'. split; [reflexivity|]. split; [exact Ep|]. split; [exact (eq_trans (H1 GATEWAY) Hl)|].
  unfold get_provision. rewrite H2. exact Hg.
Defined.
End Demo.
