(* ===== verification/GwTopics.v ===== *)
(** The gateway's MQTT surface (src/cli/src/gateway: topics.rs, and the pure parts of payload.rs): topic
    construction and classification, request ids, and the payload records. Text is the list of its
    UTF-8 bytes. *)
From Stdlib Require Import Strings.String.
From S2P Require Import Prelude Bytes Str Mgmt.

#[local] Abbreviation str := (list Z).

(** ** topics.rs *)

Fixpoint trim_start (b : Z) (s : str) : str :=
  match s with
  | c :: s' => if c =? b then trim_start b s' else s
  | [] => []
  end.
(** [trim_matches('/')]. *)
Definition trim_matches (b : Z) (s : str) : str := reverse (trim_start b (reverse (trim_start b s))).
Definition normalize_prefix (prefix : str) : str :=
  let p := trim_matches 47 prefix in
  if bool_decide (p = []) then [] else p ++ lit "/".
(** [+], [#] and NUL. *)
Definition check_prefix (prefix : str) : bool := negb (existsb (fun b => existsb (Z.eqb b) [43; 35; 0]) prefix).

Definition node_hex (addr : Z) : str := lit "0x" ++ fmt_08x addr.
Definition parse_node_hex (s : str) : option Z :=
  match (match strip_prefix (lit "0x") s with Some h => Some h | None => strip_prefix (lit "0X") s end) with
  | Some hex => if negb (zlen hex =? 8) then None else u32_from_str_radix hex 16
  | None => None
  end.

Definition gateway_status (prefix : str) := prefix ++ lit "gateway/status".
Definition gateway_stats (prefix : str) := prefix ++ lit "gateway/stats".
Definition gateway_pairing (prefix : str) := prefix ++ lit "gateway/pairing".
Definition gateway_cmd (prefix : str) := prefix ++ lit "gateway/cmd".
Definition gateway_rsp (prefix rpc_id : str) := prefix ++ lit "gateway/rsp/" ++ rpc_id.
Definition gateway_rsp_filter (prefix : str) := prefix ++ lit "gateway/rsp/+".
Definition shell_req_filter (prefix : str) := prefix ++ lit "nodes/+/shell/req".
Definition node (prefix : str) (addr : Z) := prefix ++ lit "nodes/" ++ node_hex addr.
Definition node_button (prefix : str) (addr : Z) := prefix ++ lit "nodes/" ++ node_hex addr ++ lit "/event/button".
Definition node_accel (prefix : str) (addr : Z) := prefix ++ lit "nodes/" ++ node_hex addr ++ lit "/event/accel".
Definition node_temperature (prefix : str) (addr : Z) := prefix ++ lit "nodes/" ++ node_hex addr ++ lit "/measure/temperature".
Definition node_uplink (prefix : str) (addr : Z) := prefix ++ lit "nodes/" ++ node_hex addr ++ lit "/uplink".
Definition node_shell_req (prefix : str) (addr : Z) := prefix ++ lit "nodes/" ++ node_hex addr ++ lit "/shell/req".
Definition node_shell_rsp (prefix : str) (addr : Z) := prefix ++ lit "nodes/" ++ node_hex addr ++ lit "/shell/rsp".
Definition node_shell_pending (prefix : str) (addr : Z) := prefix ++ lit "nodes/" ++ node_hex addr ++ lit "/shell/pending".
Definition radio_rssi (prefix : str) := prefix ++ lit "radio/rssi".
Definition radio_rx (prefix : str) := prefix ++ lit "radio/rx".
Definition radio_tx (prefix : str) := prefix ++ lit "radio/tx".

(** [strip_suffix]. *)
Definition strip_suffix (p s : str) : option str := option_map reverse (strip_prefix (reverse p) (reverse s)).
Definition ends_with (s p : str) : bool := starts_with (reverse s) (reverse p).
Definition is_diagnostic (prefix topic : str) : bool :=
  match strip_prefix prefix topic with
  | None => false
  | Some rest => starts_with rest (lit "radio/") || (starts_with rest (lit "nodes/") && ends_with rest (lit "/uplink"))
  end.
Inductive Inbound := Cmd | ShellReqFor (addr : Z) | Other.
#[export] Instance Inbound_eq_dec : EqDecision Inbound.
Proof. solve_decision. Defined.
(** [split('/').next()]. *)
Fixpoint up_to (b : Z) (s : str) : str :=
  match s with
  | c :: s => if c =? b then [] else c :: up_to b s
  | [] => []
  end.
Definition node_of (prefix topic : str) : option Z :=
  match strip_prefix prefix topic with
  | None => None
  | Some rest =>
      match strip_prefix (lit "nodes/") rest with
      | None => None
      | Some tail => parse_node_hex (up_to 47 tail)
      end
  end.
Definition classify (prefix topic : str) : Inbound :=
  match strip_prefix prefix topic with
  | None => Other
  | Some rest =>
      if bool_decide (rest = lit "gateway/cmd") then Cmd
      else
        match strip_prefix (lit "nodes/") rest with
        | None => Other
        | Some tail =>
            match strip_suffix (lit "/shell/req") tail with
            | None => Other
            | Some hex => match parse_node_hex hex with Some addr => ShellReqFor addr | None => Other end
            end
        end
  end.

(** ** payload.rs *)

Definition SCHEMA : Z := 3.
Definition MAX_REQUEST_ID : Z := 64.
Definition is_ascii_alphanumeric (b : Z) : bool :=
  ((48 <=? b) && (b <=? 57)) || ((65 <=? b) && (b <=? 90)) || ((97 <=? b) && (b <=? 122)).
Definition valid_request_id (id : str) : bool :=
  negb (bool_decide (id = [])) && (zlen id <=? MAX_REQUEST_ID)
  && forallb (fun b => is_ascii_alphanumeric b || existsb (Z.eqb b) [45; 95; 46]) id.
(** [{:06}]: padded with zeros to six digits. *)
Definition sas_str (sas : Z) : str :=
  let d := fmt_u32 sas in repeat 48 (6 - length d) ++ d.
Inductive Outcome := Delivered | NotDelivered | Busy | DutyLimited | Failed | Expired.
Definition tx_outcome_str (code : Z) : Outcome :=
  if code =? TX_DELIVERED then Delivered
  else if code =? TX_NOT_DELIVERED then NotDelivered
  else if code =? TX_BUSY then Busy
  else if code =? TX_DUTY_LIMITED then DutyLimited
  else if code =? TX_EXPIRED then Expired
  else Failed.
Inductive MgmtError := Unsupported | BadArgument | NotFound | CapacityExhausted | BusyDevice | DeviceStorage | WindowExpired | UnknownError.
Definition mgmt_error_str (code : Z) : option MgmtError :=
  if code =? MGMT_OK then None
  else Some (if code =? MGMT_UNSUPPORTED then Unsupported
             else if code =? MGMT_BAD_ARG then BadArgument
             else if code =? MGMT_NOT_FOUND then NotFound
             else if code =? MGMT_FULL then CapacityExhausted
             else if code =? MGMT_BUSY then BusyDevice
             else if code =? MGMT_STORAGE then DeviceStorage
             else if code =? MGMT_TIMEOUT then WindowExpired
             else UnknownError).
