(* ===== verification/GwState.v ===== *)
(** The state of the gateway engine (src/cli/src/gateway/engine.rs) and what goes in and out of it:
    serial frames, MQTT messages and frontend commands in, frames, publications and events out. A
    publication carries its payload before serialization and without its time stamp; a log line and an
    error message carry their case and arguments instead of their English text. *)
From S2P Require Import Prelude Bytes Str Msg Mgmt GwTopics.

#[local] Abbreviation str := (list Z).

(** ** Constants *)
Definition MGMT_TIMEOUT_TICKS : Z := 8.
Definition PAIRING_PICKUP_TICKS : Z := 2.
Definition PAIRING_SLACK_S : Z := 15.
Definition SHELL_REPLY_TIMEOUT_TICKS : Z := 30.
Definition STATS_EVERY_TICKS : Z := 10.
Definition DEFAULT_QUEUE_TTL : Z := 3600.
Definition SHELL_TTL_GRACE_TICKS : Z := 30.
Definition MAX_COMMAND_PAYLOAD : Z := 4096.
Definition RECENT_IDS : Z := 64.
Definition HELD_UPLINKS : Z := 16.
Definition LIST_GAP_RETRIES : Z := 3.
Definition UNREGISTERED_TRACKED : Z := 32.

(** ** JSON

    [serde_json::Value]; an object is its entries, each key once. *)
Inductive Value :=
| JNull | JBool (b : bool) | JInt (n : Z) | JFloat | JStr (s : str) | JArr (l : list Value) | JObj (l : list (str * Value)).
Fixpoint assoc (l : list (str * Value)) (k : str) : option Value :=
  match l with
  | (k', v) :: l => if bool_decide (k' = k) then Some v else assoc l k
  | [] => None
  end.
Definition value_get (v : Value) (k : str) : option Value := match v with JObj l => assoc l k | _ => None end.
Definition as_str (v : Value) : option str := match v with JStr s => Some s | _ => None end.
Definition as_u64 (v : Value) : option Z := match v with JInt n => if (0 <=? n) && (n <=? u64_max) then Some n else None | _ => None end.
Definition as_bool (v : Value) : option bool := match v with JBool b => Some b | _ => None end.

(** ** Payloads (payload.rs) *)
Record RpcRequest := { rq_id : str; rq_op : str; rq_params : Value }.
Record ShellReq := { sr_id : str; sr_line : str; sr_ttl : Z }.
(** The JSON the engine parses: what it relies on of [serde_json]. *)
Class Json := { rpc_request : str -> option RpcRequest; shell_request : str -> option ShellReq }.

Inductive Reason :=
| NameLength | NameNotPrintable | NameLooksLikeAddress | NameInUse (name : str) (by_ : Z)
| UnknownNode | LineTooLong | EnvelopeEncode | GatewayRebooted | TtlExpired | NoReply | NoDeliveryReport | Dequeued | NodeRemoved
| LostFromQueue | NotQueued (r : Reason) | DeviceRefused (e : MgmtError) | LinkDown | DeviceTimeout | RequestEncode
| AnswerIncomplete | BadKeyRecord | BadQueueId | BadFloor | NeedsAddrAndKey | MissingName | WindowOpen | WindowClosing | BadRef
| UnknownOp (op : str).
Record Node := {
  n_addr : str; n_name : str; n_kind : str; n_sleeping : bool; n_unnamed : bool; n_last_seen : option Z; n_rssi : option Z;
  n_uplinks : Z; n_queued : Z;
}.
Record PendingEntry := { pe_ref : Z; pe_id : str; pe_line : str }.
Record Status := {
  st_online : bool; st_gateway : str; st_firmware : str; st_firmware_version : str; st_session_id : Z; st_serial_port : str;
  st_serial_up : bool;
}.
Record Stats := { ss_uptime : Z; ss_nodes : Z; ss_uplinks : Z; ss_queued : Z; ss_rssi : option Z; ss_channel : option Z }.
Record Pairing := { pr_open : bool; pr_remaining : option Z; pr_joined : option str; pr_sas : option str }.
Record ShellRsp := {
  rs_id : str; rs_chunk : Z; rs_text : str; rs_done : bool; rs_result : Z; rs_truncated : bool; rs_error : option Reason;
}.
(** The [data] of a response. *)
Inductive RpcData :=
| DNull
| DDevice (gateway : str) (band channel : Z)
| DNodes (l : list Node)
| DKey (addr : str) (key : list Z) (tx_floor rx_floor : Z)
| DJoined (j : option (str * str))
| DRef (item : Z)
| DQueue (l : list (str * Z * Z * Z)).
Record RpcResponse := { rr_id : str; rr_ok : bool; rr_error : option Reason; rr_data : RpcData }.
Inductive Payload :=
| PEmpty
| PStatus (s : Status) | PStats (s : Stats) | PPairing (p : Pairing) | PNode (n : Node)
| PButton (event : ButtonKind) (count counter : Z)
| PAccel (event : AccelKind) (face counter : Z)
| PTemperature (millic : Z)
| PUplink (counter rssi lqi : Z) (data : list Z)
| PShellRsp (r : ShellRsp)
| PPending (l : list PendingEntry)
| PRssi (dbm channel : Z)
| PRx (src : str) (rssi lqi len : Z)
| PTx (dest : str) (item : Z) (outcome : Outcome) (ack_rssi : option Z)
| PRpc (r : RpcResponse).

(** ** Inputs and outputs *)
Inductive SerialMsg :=
| SHello (firmware_name firmware_version : str) (session_id : Z)
| SLog (line : str)
| SUplink (src counter rssi lqi : Z) (data : list Z)
| SMgmt (req_id result chunk : Z) (last : bool) (data : list Z)
| SStat (s : RadioStat)
| SDropped (count : Z)
| SForeign.
Inductive FrontendCmd := FRpc (r : RpcRequest) | FShell (node : Z) (r : ShellReq).
Inductive Input :=
| SerialUp | SerialDown | SerialFrame (m : SerialMsg)
| MqttUp | MqttDown | MqttIn (topic payload : str) (retain : bool)
| Frontend (c : FrontendCmd)
| Tick.
Record NodeView := { v_node : Node; v_addr : Z; v_pending : list PendingEntry }.
Inductive RadioSample := Ambient (dbm channel : Z) | Rx (src rssi : Z) | Tx (dest : Z) (delivered : bool).
Inductive LogLine :=
| LDevice (line : str) | LAttached (addr capacity : Z) | LSerialLost | LMqttLost | LMqttCannotConnect | LRebooted (session : Z)
| LConsoleDropped (count : Z) | LSchemaMismatch | LReplay (src counter last : Z) | LUnregistered (src count : Z)
| LRadioSchema (src got : Z) | LUndecodable (src len : Z) | LAutoNaming (src : Z) (name : str) | LUnknownChunk (src cmd_id : Z)
| LNodeAdded (addr : Z) (name : str) | LWindowResolved | LResyncRefused (e : MgmtError) | LTruncated (req_id : Z)
| LRetained (topic : str) | LOversized (topic : str) (len : Z) | LBadRpc | LBadShell | LInvalidId (topic : str)
| LDuplicate (id topic : str) | LTimedOut (req_id : Z) | LStale (count : Z) | LPaired (addr sas : Z) (late : bool) | LLateUndecodable.
Inductive Event :=
| ELog (l : LogLine)
| ELink (serial_up mqtt_up : bool)
| ERegistry (l : list NodeView)
| EShell (node : Z) (r : ShellRsp)
| ERadio (s : RadioSample)
| EPairing (p : Pairing)
| ERpc (r : RpcResponse).
Inductive Output :=
| SerialSend (frame : list Z)
| Publish (topic : str) (payload : Payload) (retain : bool)
| Subscribe (topic : str)
| EventOut (e : Event).

(** ** Internal state *)
Record ShellOrigin := { so_rpc : str; so_line : str; so_cmd_id : Z; so_ttl : Z }.
Module OpKind.
Inductive OpKind :=
| Describe
| NodeList
| NodeAdd (id : Z) (name : str)
| NodeRemove (id : Z)
| NodeUpdate (id : Z)
| RevealKey (id : Z)
| PairingOpen
| PairingCancel
| QueuePush (node : Z) (shell : option ShellOrigin)
| QueueList
| QueueSync
| QueueDrop (node : Z)
| QueueDropStale
| StatsConfig.
End OpKind.
Inductive RpcOrigin := FromMqtt | FromFrontend.
#[export] Instance RpcOrigin_eq_dec : EqDecision RpcOrigin.
Proof. solve_decision. Defined.
Record RpcRef := { ref_id : str; ref_origin : RpcOrigin }.
#[export] Instance RpcRef_eq_dec : EqDecision RpcRef.
Proof. solve_decision. Defined.
(** [u64::MAX]: never. *)
Definition NEVER : Z := u64_max.
Record PendingMgmt := {
  pm_req_id : Z; pm_op : OpKind.OpKind; pm_rpc : option RpcRef; pm_data : list Z; pm_next_chunk : Z; pm_truncated : bool;
  pm_deadline : Z; pm_frame : option (list Z); pm_timeout_ticks : Z; pm_holds_slot_until : Z;
}.
Record PendingShell := {
  ps_item : Z; ps_rpc : str; ps_line : str; ps_cmd_id : Z; ps_delivered_tick : option Z; ps_queued : bool; ps_expires_tick : Z;
  ps_next_chunk : Z; ps_truncated : bool;
}.
Record NodeMirror := {
  nm_entry : NodeEntry; nm_kind : str; nm_session_id : option Z; nm_pending : list PendingShell; nm_last_counter : option Z;
}.
Record HeldUplink := { hu_src : Z; hu_counter : Z; hu_rssi : Z; hu_lqi : Z; hu_data : list Z }.
Record Engine := {
  prefix : list Z;
  port_name : list Z;
  describe : DeviceInfo;
  hello_session : option Z;
  serial_up : bool;
  mqtt_up : bool;
  seq : Z;
  next_req : Z;
  next_cmd : Z;
  shell_epoch : Z;
  pending_mgmt : list PendingMgmt;
  nodes : list NodeMirror;
  registry_synced : bool;
  list_gaps : Z;
  held : list HeldUplink;
  unregistered : list (Z * Z);
  recent_ids : list (list Z);
  pairing_req : option Z;
  pairing_until : option Z;
  late_pairing : option Z;
  tick : Z;
  uplinks : Z;
  last_ambient : option (Z * Z);
}.

Definition set_device (e : Engine) (v0 : DeviceInfo) (v1 : option Z) : Engine :=
  {| prefix := prefix e; port_name := port_name e; describe := v0; hello_session := v1; serial_up := serial_up e; mqtt_up := mqtt_up e; seq := seq e;
     next_req := next_req e; next_cmd := next_cmd e; shell_epoch := shell_epoch e; pending_mgmt := pending_mgmt e; nodes := nodes e;
     registry_synced := registry_synced e; list_gaps := list_gaps e; held := held e; unregistered := unregistered e; recent_ids := recent_ids e;
     pairing_req := pairing_req e; pairing_until := pairing_until e; late_pairing := late_pairing e; tick := tick e; uplinks := uplinks e;
     last_ambient := last_ambient e |}.

Definition set_links (e : Engine) (v0 : bool) (v1 : bool) : Engine :=
  {| prefix := prefix e; port_name := port_name e; describe := describe e; hello_session := hello_session e; serial_up := v0; mqtt_up := v1;
     seq := seq e; next_req := next_req e; next_cmd := next_cmd e; shell_epoch := shell_epoch e; pending_mgmt := pending_mgmt e; nodes := nodes e;
     registry_synced := registry_synced e; list_gaps := list_gaps e; held := held e; unregistered := unregistered e; recent_ids := recent_ids e;
     pairing_req := pairing_req e; pairing_until := pairing_until e; late_pairing := late_pairing e; tick := tick e; uplinks := uplinks e;
     last_ambient := last_ambient e |}.

Definition set_req (e : Engine) (v0 : Z) (v1 : Z) : Engine :=
  {| prefix := prefix e; port_name := port_name e; describe := describe e; hello_session := hello_session e; serial_up := serial_up e;
     mqtt_up := mqtt_up e; seq := v0; next_req := v1; next_cmd := next_cmd e; shell_epoch := shell_epoch e; pending_mgmt := pending_mgmt e;
     nodes := nodes e; registry_synced := registry_synced e; list_gaps := list_gaps e; held := held e; unregistered := unregistered e;
     recent_ids := recent_ids e; pairing_req := pairing_req e; pairing_until := pairing_until e; late_pairing := late_pairing e; tick := tick e;
     uplinks := uplinks e; last_ambient := last_ambient e |}.

Definition set_shell_ids (e : Engine) (v0 : Z) (v1 : Z) : Engine :=
  {| prefix := prefix e; port_name := port_name e; describe := describe e; hello_session := hello_session e; serial_up := serial_up e;
     mqtt_up := mqtt_up e; seq := seq e; next_req := next_req e; next_cmd := v0; shell_epoch := v1; pending_mgmt := pending_mgmt e; nodes := nodes e;
     registry_synced := registry_synced e; list_gaps := list_gaps e; held := held e; unregistered := unregistered e; recent_ids := recent_ids e;
     pairing_req := pairing_req e; pairing_until := pairing_until e; late_pairing := late_pairing e; tick := tick e; uplinks := uplinks e;
     last_ambient := last_ambient e |}.

Definition set_pending_mgmt (e : Engine) (v0 : list PendingMgmt) : Engine :=
  {| prefix := prefix e; port_name := port_name e; describe := describe e; hello_session := hello_session e; serial_up := serial_up e;
     mqtt_up := mqtt_up e; seq := seq e; next_req := next_req e; next_cmd := next_cmd e; shell_epoch := shell_epoch e; pending_mgmt := v0;
     nodes := nodes e; registry_synced := registry_synced e; list_gaps := list_gaps e; held := held e; unregistered := unregistered e;
     recent_ids := recent_ids e; pairing_req := pairing_req e; pairing_until := pairing_until e; late_pairing := late_pairing e; tick := tick e;
     uplinks := uplinks e; last_ambient := last_ambient e |}.

Definition set_nodes (e : Engine) (v0 : list NodeMirror) : Engine :=
  {| prefix := prefix e; port_name := port_name e; describe := describe e; hello_session := hello_session e; serial_up := serial_up e;
     mqtt_up := mqtt_up e; seq := seq e; next_req := next_req e; next_cmd := next_cmd e; shell_epoch := shell_epoch e;
     pending_mgmt := pending_mgmt e; nodes := v0; registry_synced := registry_synced e; list_gaps := list_gaps e; held := held e;
     unregistered := unregistered e; recent_ids := recent_ids e; pairing_req := pairing_req e; pairing_until := pairing_until e;
     late_pairing := late_pairing e; tick := tick e; uplinks := uplinks e; last_ambient := last_ambient e |}.

Definition set_synced (e : Engine) (v0 : bool) (v1 : list HeldUplink) : Engine :=
  {| prefix := prefix e; port_name := port_name e; describe := describe e; hello_session := hello_session e; serial_up := serial_up e;
     mqtt_up := mqtt_up e; seq := seq e; next_req := next_req e; next_cmd := next_cmd e; shell_epoch := shell_epoch e;
     pending_mgmt := pending_mgmt e; nodes := nodes e; registry_synced := v0; list_gaps := list_gaps e; held := v1; unregistered := unregistered e;
     recent_ids := recent_ids e; pairing_req := pairing_req e; pairing_until := pairing_until e; late_pairing := late_pairing e; tick := tick e;
     uplinks := uplinks e; last_ambient := last_ambient e |}.

Definition set_list_gaps (e : Engine) (v0 : Z) : Engine :=
  {| prefix := prefix e; port_name := port_name e; describe := describe e; hello_session := hello_session e; serial_up := serial_up e;
     mqtt_up := mqtt_up e; seq := seq e; next_req := next_req e; next_cmd := next_cmd e; shell_epoch := shell_epoch e;
     pending_mgmt := pending_mgmt e; nodes := nodes e; registry_synced := registry_synced e; list_gaps := v0; held := held e;
     unregistered := unregistered e; recent_ids := recent_ids e; pairing_req := pairing_req e; pairing_until := pairing_until e;
     late_pairing := late_pairing e; tick := tick e; uplinks := uplinks e; last_ambient := last_ambient e |}.

Definition set_unregistered (e : Engine) (v0 : list (Z * Z)) : Engine :=
  {| prefix := prefix e; port_name := port_name e; describe := describe e; hello_session := hello_session e; serial_up := serial_up e;
     mqtt_up := mqtt_up e; seq := seq e; next_req := next_req e; next_cmd := next_cmd e; shell_epoch := shell_epoch e;
     pending_mgmt := pending_mgmt e; nodes := nodes e; registry_synced := registry_synced e; list_gaps := list_gaps e; held := held e;
     unregistered := v0; recent_ids := recent_ids e; pairing_req := pairing_req e; pairing_until := pairing_until e; late_pairing := late_pairing e;
     tick := tick e; uplinks := uplinks e; last_ambient := last_ambient e |}.

Definition set_recent_ids (e : Engine) (v0 : list (list Z)) : Engine :=
  {| prefix := prefix e; port_name := port_name e; describe := describe e; hello_session := hello_session e; serial_up := serial_up e;
     mqtt_up := mqtt_up e; seq := seq e; next_req := next_req e; next_cmd := next_cmd e; shell_epoch := shell_epoch e;
     pending_mgmt := pending_mgmt e; nodes := nodes e; registry_synced := registry_synced e; list_gaps := list_gaps e; held := held e;
     unregistered := unregistered e; recent_ids := v0; pairing_req := pairing_req e; pairing_until := pairing_until e;
     late_pairing := late_pairing e; tick := tick e; uplinks := uplinks e; last_ambient := last_ambient e |}.

Definition set_pairing (e : Engine) (v0 : option Z) (v1 : option Z) : Engine :=
  {| prefix := prefix e; port_name := port_name e; describe := describe e; hello_session := hello_session e; serial_up := serial_up e;
     mqtt_up := mqtt_up e; seq := seq e; next_req := next_req e; next_cmd := next_cmd e; shell_epoch := shell_epoch e;
     pending_mgmt := pending_mgmt e; nodes := nodes e; registry_synced := registry_synced e; list_gaps := list_gaps e; held := held e;
     unregistered := unregistered e; recent_ids := recent_ids e; pairing_req := v0; pairing_until := v1; late_pairing := late_pairing e;
     tick := tick e; uplinks := uplinks e; last_ambient := last_ambient e |}.

Definition set_late_pairing (e : Engine) (v0 : option Z) : Engine :=
  {| prefix := prefix e; port_name := port_name e; describe := describe e; hello_session := hello_session e; serial_up := serial_up e;
     mqtt_up := mqtt_up e; seq := seq e; next_req := next_req e; next_cmd := next_cmd e; shell_epoch := shell_epoch e;
     pending_mgmt := pending_mgmt e; nodes := nodes e; registry_synced := registry_synced e; list_gaps := list_gaps e; held := held e;
     unregistered := unregistered e; recent_ids := recent_ids e; pairing_req := pairing_req e; pairing_until := pairing_until e; late_pairing := v0;
     tick := tick e; uplinks := uplinks e; last_ambient := last_ambient e |}.

Definition set_counts (e : Engine) (v0 : Z) (v1 : Z) : Engine :=
  {| prefix := prefix e; port_name := port_name e; describe := describe e; hello_session := hello_session e; serial_up := serial_up e;
     mqtt_up := mqtt_up e; seq := seq e; next_req := next_req e; next_cmd := next_cmd e; shell_epoch := shell_epoch e;
     pending_mgmt := pending_mgmt e; nodes := nodes e; registry_synced := registry_synced e; list_gaps := list_gaps e; held := held e;
     unregistered := unregistered e; recent_ids := recent_ids e; pairing_req := pairing_req e; pairing_until := pairing_until e;
     late_pairing := late_pairing e; tick := v0; uplinks := v1; last_ambient := last_ambient e |}.

Definition set_last_ambient (e : Engine) (v0 : option (Z * Z)) : Engine :=
  {| prefix := prefix e; port_name := port_name e; describe := describe e; hello_session := hello_session e; serial_up := serial_up e;
     mqtt_up := mqtt_up e; seq := seq e; next_req := next_req e; next_cmd := next_cmd e; shell_epoch := shell_epoch e;
     pending_mgmt := pending_mgmt e; nodes := nodes e; registry_synced := registry_synced e; list_gaps := list_gaps e; held := held e;
     unregistered := unregistered e; recent_ids := recent_ids e; pairing_req := pairing_req e; pairing_until := pairing_until e;
     late_pairing := late_pairing e; tick := tick e; uplinks := uplinks e; last_ambient := v0 |}.


(** *** Rows *)
Definition addr_of (n : NodeMirror) : Z := ne_addr (nm_entry n).
Definition set_pending (n : NodeMirror) (p : list PendingShell) : NodeMirror :=
  {| nm_entry := nm_entry n; nm_kind := nm_kind n; nm_session_id := nm_session_id n; nm_pending := p; nm_last_counter := nm_last_counter n |}.
Definition set_last_counter (n : NodeMirror) (c : option Z) : NodeMirror :=
  {| nm_entry := nm_entry n; nm_kind := nm_kind n; nm_session_id := nm_session_id n; nm_pending := nm_pending n; nm_last_counter := c |}.
Definition set_info (n : NodeMirror) (kind : str) (session : option Z) : NodeMirror :=
  {| nm_entry := nm_entry n; nm_kind := kind; nm_session_id := session; nm_pending := nm_pending n; nm_last_counter := nm_last_counter n |}.
Definition set_entry (n : NodeMirror) (entry : NodeEntry) : NodeMirror :=
  {| nm_entry := entry; nm_kind := nm_kind n; nm_session_id := nm_session_id n; nm_pending := nm_pending n; nm_last_counter := nm_last_counter n |}.
Definition set_name_flags (x : NodeEntry) (name : str) (flags : Z) : NodeEntry :=
  {| ne_addr := ne_addr x; ne_name := name; ne_flags := flags; ne_last_seen := ne_last_seen x; ne_rssi := ne_rssi x;
     ne_uplinks := ne_uplinks x; ne_queued := ne_queued x |}.
(** [iter().position(..)] / [find] by address, and the update of the row found. *)
Fixpoint position (addr : Z) (l : list NodeMirror) : option nat :=
  match l with
  | n :: l => if addr_of n =? addr then Some O else option_map S (position addr l)
  | [] => None
  end.
Definition find_node (addr : Z) (l : list NodeMirror) : option NodeMirror := List.find (fun n => addr_of n =? addr) l.
Fixpoint update_node (addr : Z) (f : NodeMirror -> NodeMirror) (l : list NodeMirror) : list NodeMirror :=
  match l with
  | n :: l => if addr_of n =? addr then f n :: l else n :: update_node addr f l
  | [] => []
  end.
