(* ===== verification/GwEngine.v ===== *)
(** The gateway engine (src/cli/src/gateway/engine.rs): the pure state machine between the dongle's serial
    link, the MQTT broker and the frontend, handler by handler. A handler that pushes to [out] maps a pair
    of the engine and the outputs so far to such a pair. Names and lines are UTF-8 byte lists. *)
From Stdlib Require Import Strings.String.
From S2P Require Import Prelude Bytes Str Proto Cobs Fingerprint Msg Frame RadioEnv Mgmt GwTopics GwState.

#[local] Abbreviation str := (list Z).
#[local] Abbreviation St := (Engine * list Output)%type.

(** ** Names and keys *)

(** [char::is_control]: the general category Cc. *)
Definition is_control (c : Z) : bool := (c <? 32) || ((127 <=? c) && (c <=? 159)).
Definition printable_name (name : str) : bool :=
  match from_utf8 name with
  | Some cs => forallb (fun c => negb (is_control c) && negb (((0x202A <=? c) && (c <=? 0x202E)) || ((0x2066 <=? c) && (c <=? 0x2069)))) cs
  | None => false
  end.
Fixpoint hex_pairs (s : str) : list Z :=
  match s with
  | a :: b :: s => default 0 (to_digit 16 a) * 16 + default 0 (to_digit 16 b) :: hex_pairs s
  | _ => []
  end.
Definition parse_key_hex (s : str) : option (list Z) :=
  if negb (zlen s =? 32) || negb (forallb is_ascii_hexdigit s) then None else Some (hex_pairs s).
Definition kind_of (firmware_name : str) : str :=
  map (fun b => if b =? 95 then 45 else b) (default firmware_name (strip_prefix (lit "radio_") firmware_name)).
(** The largest character boundary at or below [n]. *)
Fixpoint boundary_below (s : str) (n : nat) : nat :=
  match n with
  | O => O
  | S m => if is_char_boundary s (Z.of_nat n) then n else boundary_below s m
  end.
Definition auto_name (kind : str) (n : Z) : str :=
  let suffix := lit ":" ++ fmt_u32 n in
  let end_ := boundary_below kind (Z.to_nat (Z.min (zlen kind) (sat_sub MAX_NODE_NAME (zlen suffix)))) in
  take end_ kind ++ suffix.
(** [(0..).map(auto_name).find(..)] over the names in use. *)
Fixpoint find_name (fuel : nat) (kind : str) (used : list str) (n : Z) : str :=
  match fuel with
  | O => auto_name kind n
  | S fuel => if existsb (fun u => bool_decide (u = auto_name kind n)) used then find_name fuel kind used (n + 1) else auto_name kind n
  end.

(** ** The engine and its outputs *)

Definition on_engine (f : Engine -> Engine) (s : St) : St := (f (fst s), snd s).
Definition push (o : Output) (s : St) : St := (fst s, snd s ++ [o]).
Definition log (l : LogLine) (s : St) : St := push (EventOut (ELog l)) s.
Definition event (e : Event) (s : St) : St := push (EventOut e) s.
(** [for i in 0..self.nodes.len()]. *)
Definition each_node (f : nat -> St -> St) (s : St) : St := fold_left (fun s i => f i s) (List.seq 0 (length (nodes (fst s)))) s.

Definition new (prefix port_name : str) (describe : DeviceInfo) : Engine :=
  {| GwState.prefix := prefix; GwState.port_name := port_name; GwState.describe := describe; hello_session := None; serial_up := true;
     mqtt_up := false; GwState.seq := 0; next_req := 1; next_cmd := 1; shell_epoch := 0; pending_mgmt := []; nodes := [];
     registry_synced := false; list_gaps := 0; held := []; unregistered := []; recent_ids := []; pairing_req := None;
     pairing_until := None; late_pairing := None; tick := 0; uplinks := 0; last_ambient := None |}.
(** [b]: what [getrandom] filled in, if it did. *)
Definition randomize_shell_ids (b : option (list Z)) (e : Engine) : Engine :=
  match b with
  | Some b => set_shell_ids e (Z.max (le_val (slice b 4 2)) 1) (le_val (slice b 0 4))
  | None => e
  end.

(** *** Publications *)
Definition has_flag (flags f : Z) : bool := negb (Z.land flags f =? 0).
Definition node_payload (n : NodeMirror) : Node :=
  let x := nm_entry n in
  {| n_addr := node_hex (ne_addr x); n_name := ne_name x; n_kind := nm_kind n; n_sleeping := has_flag (ne_flags x) NODE_FLAG_SLEEPING;
     n_unnamed := has_flag (ne_flags x) NODE_FLAG_UNNAMED;
     n_last_seen := if ne_last_seen x =? LAST_SEEN_NEVER then None else Some (ne_last_seen x);
     n_rssi := if ne_rssi x =? RSSI_NONE then None else Some (ne_rssi x); n_uplinks := ne_uplinks x;
     n_queued := Z.max (ne_queued x) (wrap8 (zlen (nm_pending n))) |}.
Definition node_payloads (e : Engine) : list Node := map node_payload (nodes e).
Definition pending_entry (p : PendingShell) : PendingEntry := {| pe_ref := ps_item p; pe_id := ps_rpc p; pe_line := ps_line p |}.
Definition emit_registry (s : St) : St :=
  event (ERegistry (map (fun n => {| v_node := node_payload n; v_addr := addr_of n; v_pending := map pending_entry (nm_pending n) |}) (nodes (fst s)))) s.
Definition publish_node (i : nat) (s : St) : St :=
  match nodes (fst s) !! i with
  | Some n => push (Publish (node (prefix (fst s)) (addr_of n)) (PNode (node_payload n)) true) s
  | None => s
  end.
Definition publish_pending (i : nat) (s : St) : St :=
  match nodes (fst s) !! i with
  | Some n =>
      emit_registry (push (Publish (node_shell_pending (prefix (fst s)) (addr_of n)) (PPending (map pending_entry (nm_pending n))) true) s)
  | None => s
  end.
Definition publish_status (s : St) : St :=
  let e := fst s in
  push (Publish (gateway_status (prefix e))
    (PStatus {| st_online := serial_up e; st_gateway := node_hex (di_addr (describe e)); st_firmware := di_firmware_name (describe e);
                st_firmware_version := di_firmware_version (describe e); st_session_id := default 0 (hello_session e);
                st_serial_port := port_name e; st_serial_up := serial_up e |}) true) s.
Definition publish_stats (s : St) : St :=
  let e := fst s in
  push (Publish (gateway_stats (prefix e))
    (PStats {| ss_uptime := tick e; ss_nodes := zlen (nodes e); ss_uplinks := uplinks e;
               ss_queued := foldr Z.add 0 (map (fun n => zlen (nm_pending n)) (nodes e)); ss_rssi := option_map fst (last_ambient e);
               ss_channel := option_map snd (last_ambient e) |}) true) s.
Definition publish_pairing (joined sas : option str) (s : St) : St :=
  let e := fst s in
  let p := {| pr_open := if pairing_until e then true else false;
              pr_remaining := option_map (fun u => sat_sub u (tick e)) (pairing_until e); pr_joined := joined; pr_sas := sas |} in
  event (EPairing p) (push (Publish (gateway_pairing (prefix e)) (PPairing p) true) s).

(** *** Answers *)
Definition rpc_respond (origin : RpcOrigin) (rsp : RpcResponse) (s : St) : St :=
  match origin with
  | FromFrontend => event (ERpc rsp) s
  | FromMqtt => push (Publish (gateway_rsp (prefix (fst s)) (rr_id rsp)) (PRpc rsp) false) s
  end.
Definition rpc_err_direct (r : RpcRef) (error : Reason) (s : St) : St :=
  rpc_respond (ref_origin r) {| rr_id := ref_id r; rr_ok := false; rr_error := Some error; rr_data := DNull |} s.
Definition rpc_err (p : PendingMgmt) (error : Reason) (s : St) : St :=
  match pm_rpc p with Some r => rpc_err_direct r error s | None => s end.
Definition rpc_ok (p : PendingMgmt) (data : RpcData) (s : St) : St :=
  match pm_rpc p with
  | Some r => rpc_respond (ref_origin r) {| rr_id := ref_id r; rr_ok := true; rr_error := None; rr_data := data |} s
  | None => s
  end.
(** One shell response on the topic and as an event. *)
Definition shell_respond (node : Z) (rsp : ShellRsp) (s : St) : St :=
  event (EShell node rsp) (push (Publish (node_shell_rsp (prefix (fst s)) node) (PShellRsp rsp) false) s).
Definition shell_failure (id : str) (error : Reason) : ShellRsp :=
  {| rs_id := id; rs_chunk := 0; rs_text := []; rs_done := true; rs_result := 1; rs_truncated := false; rs_error := Some error |}.
Definition shell_error (node : Z) (p : PendingShell) (error : Reason) (s : St) : St :=
  shell_respond node {| rs_id := ps_rpc p; rs_chunk := ps_next_chunk p; rs_text := []; rs_done := true; rs_result := 1;
                        rs_truncated := ps_truncated p; rs_error := Some error |} s.
Definition shell_errors (node : Z) (l : list PendingShell) (why : PendingShell -> Reason) (s : St) : St :=
  fold_left (fun s p => shell_error node p (why p) s) l s.
(** Takes the dialogs [dead] of row [i] out, ends each, and publishes the row's pending list if any was
    ended ([always]: in any case). *)
Definition end_dialogs (always : bool) (dead : Z -> PendingShell -> bool) (why : PendingShell -> Reason) (i : nat) (s : St) : St :=
  match nodes (fst s) !! i with
  | None => s
  | Some n =>
      let '(gone, keep) := List.partition (dead (addr_of n)) (nm_pending n) in
      let s := on_engine (fun e => set_nodes e (alter (fun n => set_pending n keep) i (nodes e))) s in
      if always || negb (bool_decide (gone = [])) then publish_pending i (shell_errors (addr_of n) gone why s) else s
  end.
Definition end_pairing (req_id : Z) (s : St) : St :=
  if bool_decide (pairing_req (fst s) = Some req_id)
  then publish_pairing None None (on_engine (fun e => set_pairing e None None) s)
  else s.

Section Engine.
Context `{SC : Schemas} `{CB : Cobs} `{CC : ConsoleCodec} `{RC : RadioCodec} `{MC : MgmtCodec} `{JS : Json}.

(** ** Management requests *)

(** The request as sent at [tick]. *)
Definition mark_sent (tick : Z) (p : PendingMgmt) : PendingMgmt :=
  {| pm_req_id := pm_req_id p; pm_op := pm_op p; pm_rpc := pm_rpc p; pm_data := pm_data p; pm_next_chunk := pm_next_chunk p;
     pm_truncated := pm_truncated p; pm_deadline := tick + pm_timeout_ticks p; pm_frame := None; pm_timeout_ticks := pm_timeout_ticks p;
     pm_holds_slot_until := match pm_op p with OpKind.PairingOpen => tick + PAIRING_PICKUP_TICKS | _ => pm_holds_slot_until p end |}.
(** The oldest waiting request, sent. *)
Fixpoint send_first (tick : Z) (l : list PendingMgmt) : option (list Z * list PendingMgmt) :=
  match l with
  | [] => None
  | p :: l =>
      match pm_frame p with
      | Some frame => Some (frame, mark_sent tick p :: l)
      | None => option_map (fun '(f, l) => (f, p :: l)) (send_first tick l)
      end
  end.
Definition holds_slot (tick : Z) (p : PendingMgmt) : bool :=
  match pm_frame p with None => tick <? pm_holds_slot_until p | Some _ => false end.
Definition send_next_mgmt (s : St) : St :=
  let e := fst s in
  if existsb (holds_slot (tick e)) (pending_mgmt e) then s
  else
    match send_first (tick e) (pending_mgmt e) with
    | Some (frame, l) => push (SerialSend frame) (on_engine (fun e => set_pending_mgmt e l) s)
    | None => s
    end.
(** [v.checked_add(1).filter(|&v| v != 0).unwrap_or(1)] on [u16]. *)
Definition next_id (v : Z) : Z := if v =? u16_max then 1 else v + 1.
(** [issue_delayed] with its failure path given; see [issue_delayed] below. *)
Definition issue_with (fail_op : OpKind.OpKind -> option Z -> option RpcRef -> Reason -> St -> St)
    (kind : OpKind.OpKind) (op : MgmtOp) (rpc : option RpcRef) (timeout_ticks : Z) (s : St) : St * option Z :=
  if negb (serial_up (fst s)) then (fail_op kind None rpc LinkDown s, None)
  else
    let req_id := next_req (fst s) in
    let seq := seq (fst s) in
    let s := on_engine (fun e => set_req e (wrap16 (seq + 1)) (next_id req_id)) s in
    match encode_mgmt seq req_id op with
    | Some frame =>
        let p := {| pm_req_id := req_id; pm_op := kind; pm_rpc := rpc; pm_data := []; pm_next_chunk := 0; pm_truncated := false;
                    pm_deadline := NEVER; pm_frame := Some frame; pm_timeout_ticks := timeout_ticks; pm_holds_slot_until := NEVER |} in
        (send_next_mgmt (on_engine (fun e => set_pending_mgmt e (pending_mgmt e ++ [p])) s), Some req_id)
    | None => (fail_op kind (Some req_id) rpc RequestEncode s, None)
    end.
(** [fail_op] with the relisting of a failed update given; see [fail_op] below. *)
Definition fail_with (relist : St -> St) (op : OpKind.OpKind) (req_id : option Z) (rpc : option RpcRef) (error : Reason) (s : St) : St :=
  let s :=
    match op with
    | OpKind.PairingOpen => match req_id with Some r => end_pairing r s | None => s end
    | OpKind.QueuePush node (Some origin) => shell_respond node (shell_failure (so_rpc origin) (NotQueued error)) s
    | OpKind.NodeUpdate _ => if serial_up (fst s) then relist s else s
    | _ => s
    end in
  match rpc with Some r => rpc_err_direct r error s | None => s end.
(** The two call each other; a failed update issues a listing, and a failed listing issues nothing. *)
Definition relist (s : St) : St :=
  fst (issue_with (fail_with (fun s => s)) OpKind.NodeList Msg.NodeList None MGMT_TIMEOUT_TICKS s).
Definition fail_op := fail_with relist.
Definition issue_delayed := issue_with fail_op.
Definition issue (kind : OpKind.OpKind) (op : MgmtOp) (rpc : option RpcRef) (s : St) : St * option Z :=
  issue_delayed kind op rpc MGMT_TIMEOUT_TICKS s.
(** [issue] for its effect. *)
Definition issue_ (kind : OpKind.OpKind) (op : MgmtOp) (rpc : option RpcRef) (s : St) : St := fst (issue kind op rpc s).
Definition fail_unsent_mgmt (s : St) : St :=
  let '(unsent, sent) := List.partition (fun p => if pm_frame p then true else false) (pending_mgmt (fst s)) in
  fold_left (fun s p => fail_op (pm_op p) (Some (pm_req_id p)) (pm_rpc p) LinkDown s) unsent (on_engine (fun e => set_pending_mgmt e sent) s).
Definition list_nodes (s : St) : St := issue_ OpKind.NodeList Msg.NodeList None s.
Definition sync_queue (s : St) : St := issue_ OpKind.QueueSync (Msg.QueueList 0) None s.

(** ** The registry mirror *)
Definition provisional_node (addr : Z) (name : str) (flags : Z) (e : Engine) : Engine :=
  if existsb (fun n => addr_of n =? addr) (nodes e) then e
  else
    set_nodes e (nodes e ++ [{| nm_entry := {| ne_addr := addr; ne_name := name; ne_flags := flags; ne_last_seen := LAST_SEEN_NEVER;
                                              ne_rssi := RSSI_NONE; ne_uplinks := 0; ne_queued := 0 |};
                                nm_kind := []; nm_session_id := None; nm_pending := []; nm_last_counter := None |}]).
Definition node_gone (id : Z) (pending : list PendingShell) (s : St) : St :=
  let s := shell_errors id pending (fun _ => NodeRemoved) s in
  fold_left (fun s topic => push (Publish topic PEmpty true) s)
    [node (prefix (fst s)) id; node_temperature (prefix (fst s)) id; node_shell_pending (prefix (fst s)) id] s.
(** One fresh entry against the old rows: the row it becomes, and the old rows with what it took. *)
Definition merge_entry (updating : list Z) (old : list NodeMirror) (entry : NodeEntry) : list NodeMirror * NodeMirror :=
  match find_node (ne_addr entry) old with
  | Some o =>
      let upd := existsb (Z.eqb (ne_addr entry)) updating in
      (update_node (ne_addr entry) (fun o =>
         set_pending (if upd then set_entry o (set_name_flags (nm_entry o) [] (ne_flags (nm_entry o))) else o) []) old,
       {| nm_entry := if upd then set_name_flags entry (ne_name (nm_entry o)) (ne_flags (nm_entry o)) else entry;
          nm_kind := nm_kind o; nm_session_id := nm_session_id o; nm_pending := nm_pending o; nm_last_counter := nm_last_counter o |})
  | None => (old, {| nm_entry := entry; nm_kind := []; nm_session_id := None; nm_pending := []; nm_last_counter := None |})
  end.
Definition merge_entries (updating : list Z) (old : list NodeMirror) (fresh : list NodeEntry) : list NodeMirror * list NodeMirror :=
  fold_left (fun '(old, next) entry => let '(old, n) := merge_entry updating old entry in (old, next ++ [n])) fresh (old, []).
Definition updating_nodes (l : list PendingMgmt) : list Z :=
  flat_map (fun p => match pm_op p with OpKind.NodeUpdate id => [id] | _ => [] end) l.
Definition merge_registry (fresh : list NodeEntry) (s : St) : St :=
  let '(old, next) := merge_entries (updating_nodes (pending_mgmt (fst s))) (nodes (fst s)) fresh in
  let s := on_engine (fun e => set_nodes e next) s in
  let s := fold_left (fun s gone => node_gone (addr_of gone) (nm_pending gone) s)
             (List.filter (fun o => forallb (fun n => negb (addr_of n =? addr_of o)) next) old) s in
  emit_registry (each_node publish_node s).
Definition touch_node (id rssi : Z) (e : Engine) : Engine :=
  set_nodes e (update_node id (fun n => set_entry n
    {| ne_addr := ne_addr (nm_entry n); ne_name := ne_name (nm_entry n); ne_flags := ne_flags (nm_entry n); ne_last_seen := 0;
       ne_rssi := Z.max (-128) (Z.min 127 rssi); ne_uplinks := sat_add u32_max (ne_uplinks (nm_entry n)) 1;
       ne_queued := ne_queued (nm_entry n) |}) (nodes e)).
Definition reconcile_queue (device : list (Z * Z)) (s : St) : St :=
  let on_device node item := existsb (fun '(a, i) => (a =? node) && (i =? item)) device in
  let s := each_node (end_dialogs false (fun node p => (if ps_delivered_tick p then false else true) && negb (on_device node (ps_item p)))
             (fun _ => LostFromQueue)) s in
  let stale := List.filter (fun '(node, item) =>
    negb (existsb (fun n => (addr_of n =? node) && existsb (fun p => ps_item p =? item) (nm_pending n)) (nodes (fst s)))) device in
  if bool_decide (stale = []) then s
  else
    let s := log (LStale (zlen stale)) s in
    let s := fold_left (fun s '(node, item) => issue_ OpKind.QueueDropStale (Msg.QueueDrop node (Some item)) None s) stale s in
    list_nodes s.
End Engine.
