(* ===== verification/GwHandle.v ===== *)
(** The gateway engine's handlers (src/cli/src/gateway/engine.rs): what a frame of the dongle, a message
    of the broker, a command of the frontend and a tick of the clock each do. *)
From Stdlib Require Import Strings.String.
From S2P Require Import Prelude Bytes Str Proto Cobs Fingerprint Msg Frame RadioEnv Mgmt GwTopics GwState GwEngine.

#[local] Abbreviation str := (list Z).
#[local] Abbreviation St := (Engine * list Output)%type.

Definition set_progress (p : PendingShell) (delivered : option Z) (queued : bool) (next : Z) (truncated : bool) : PendingShell :=
  {| ps_item := ps_item p; ps_rpc := ps_rpc p; ps_line := ps_line p; ps_cmd_id := ps_cmd_id p; ps_delivered_tick := delivered;
     ps_queued := queued; ps_expires_tick := ps_expires_tick p; ps_next_chunk := next; ps_truncated := truncated |}.
Definition add_chunk (p : PendingMgmt) (chunk : Z) (data : list Z) : PendingMgmt :=
  {| pm_req_id := pm_req_id p; pm_op := pm_op p; pm_rpc := pm_rpc p; pm_data := pm_data p ++ data; pm_next_chunk := wrap16 (chunk + 1);
     pm_truncated := pm_truncated p || negb (pm_next_chunk p =? chunk); pm_deadline := pm_deadline p; pm_frame := pm_frame p;
     pm_timeout_ticks := pm_timeout_ticks p; pm_holds_slot_until := pm_holds_slot_until p |}.
(** The position of the first element [f] accepts. *)
Fixpoint index_where {A} (f : A -> bool) (l : list A) : option nat :=
  match l with
  | x :: l => if f x then Some O else option_map S (index_where f l)
  | [] => None
  end.
Definition on_nodes (f : list NodeMirror -> list NodeMirror) (s : St) : St := on_engine (fun e => set_nodes e (f (nodes e))) s.
Definition on_pending (i : nat) (f : list PendingShell -> list PendingShell) (s : St) : St :=
  on_nodes (alter (fun n => set_pending n (f (nm_pending n))) i) s.
(** [while n % 10 == 0 { n /= 10 }]. *)
Fixpoint strip_zeros (fuel : nat) (n : Z) : Z :=
  match fuel with
  | S fuel => if n mod 10 =? 0 then strip_zeros fuel (n / 10) else n
  | O => n
  end.
Definition is_list (p : PendingMgmt) : bool := match pm_op p with OpKind.NodeList => true | _ => false end.
Definition is_pairing_open (op : OpKind.OpKind) : bool := match op with OpKind.PairingOpen => true | _ => false end.

(** One more drop of [src]. *)
Fixpoint count_one (src : Z) (l : list (Z * Z)) : list (Z * Z) :=
  match l with
  | (a, c) :: l => if a =? src then (a, c + 1) :: l else (a, c) :: count_one src l
  | [] => []
  end.

Section Handlers.
Context `{SC : Schemas} `{CB : Cobs} `{CC : ConsoleCodec} `{RC : RadioCodec} `{MC : MgmtCodec} `{JS : Json}.

(** ** Serial to engine *)

Definition count_unregistered (src : Z) (s : St) : St * Z :=
  match List.find (fun '(a, _) => a =? src) (unregistered (fst s)) with
  | Some (_, c) =>
      (on_engine (fun e => set_unregistered e (count_one src (unregistered e))) s, c + 1)
  | None =>
      let s := on_engine (fun e => set_unregistered e
                 ((if UNREGISTERED_TRACKED <=? zlen (unregistered e) then [] else unregistered e) ++ [(src, 1)])) s in
      (list_nodes s, 1)
  end.
Definition drop_unregistered (src : Z) (s : St) : St :=
  let '(s, count) := count_unregistered src s in
  if strip_zeros 20 count =? 1 then log (LUnregistered src count) s else s.
Definition on_node_info (src : Z) (info : NodeInfo) (s : St) : St :=
  let kind := kind_of (lit (info_firmware_name info)) in
  match position src (nodes (fst s)) with
  | None => s
  | Some i =>
      let s := on_nodes (alter (fun n => set_info n kind (Some (info_session_id info))) i) s in
      let entry_flags := match nodes (fst s) !! i with Some n => ne_flags (nm_entry n) | None => 0 end in
      let flags := if info_sleeping info then Z.lor entry_flags NODE_FLAG_SLEEPING else Z.land entry_flags (255 - NODE_FLAG_SLEEPING) in
      let s :=
        if has_flag entry_flags NODE_FLAG_UNNAMED then
          let used := map (fun n => ne_name (nm_entry n)) (nodes (fst s)) in
          let name := find_name (length used) kind used 0 in
          let flags := Z.land flags (255 - NODE_FLAG_UNNAMED) in
          let s := log (LAutoNaming src name) s in
          match issue (OpKind.NodeUpdate src) (Msg.NodeUpdate src (Some (to_string name)) (Some flags)) None s with
          | (s, Some _) => on_nodes (alter (fun n => set_entry n (set_name_flags (nm_entry n) name flags)) i) s
          | (s, None) => s
          end
        else if negb (flags =? entry_flags) then
          match issue (OpKind.NodeUpdate src) (Msg.NodeUpdate src None (Some flags)) None s with
          | (s, Some _) => on_nodes (alter (fun n => set_entry n (set_name_flags (nm_entry n) (ne_name (nm_entry n)) flags)) i) s
          | (s, None) => s
          end
        else s in
      publish_node i s
  end.
Definition on_shell_chunk (src : Z) (chunk : NodeShellChunk) (s : St) : St :=
  match position src (nodes (fst s)) with
  | None => s
  | Some i =>
      let pending s := match nodes (fst s) !! i with Some n => nm_pending n | None => [] end in
      match index_where (fun p => ps_cmd_id p =? chunk_cmd_id chunk) (pending s) with
      | None => log (LUnknownChunk src (chunk_cmd_id chunk)) s
      | Some pi =>
          let s :=
            match pending s !! pi with
            | Some p =>
                if ps_queued p then
                  let s := on_pending i (alter (fun p => set_progress p (ps_delivered_tick p) false (ps_next_chunk p) (ps_truncated p)) pi) s in
                  issue_ OpKind.QueueDropStale (Msg.QueueDrop src (Some (ps_item p))) None s
                else s
            | None => s
            end in
          let now := tick (fst s) in
          let s := on_pending i (alter (fun p => set_progress p (Some now) (ps_queued p) (wrap16 (chunk_chunk chunk + 1))
                     (ps_truncated p || negb (ps_next_chunk p =? chunk_chunk chunk))) pi) s in
          match pending s !! pi with
          | Some p =>
              let s := shell_respond src {| rs_id := ps_rpc p; rs_chunk := chunk_chunk chunk; rs_text := lit (chunk_text chunk);
                         rs_done := chunk_last chunk; rs_result := chunk_result chunk; rs_truncated := ps_truncated p; rs_error := None |} s in
              if chunk_last chunk then publish_pending i (on_pending i (delete pi) s) else s
          | None => s
          end
      end
  end.
Definition on_node_msg (src counter : Z) (data : list Z) (s : St) : St :=
  let prefix := prefix (fst s) in
  match decode_node_msg data with
  | Ok (Button kind count) => push (Publish (node_button prefix src) (PButton kind count counter) false) s
  | Ok (Temperature millic) => push (Publish (node_temperature prefix src) (PTemperature millic) true) s
  | Ok (Accel kind face) => push (Publish (node_accel prefix src) (PAccel kind face counter) false) s
  | Ok (Info info) => on_node_info src info s
  | Ok (NodeShell chunk) => on_shell_chunk src chunk s
  | Err (SchemaMismatch got) => log (LRadioSchema src got) s
  | Err _ => log (LUndecodable src (zlen data)) s
  end.
(** The uplink of a registered node, its counter past the last one published. *)
Definition accept_uplink (u : HeldUplink) (s : St) : St :=
  let src := hu_src u in
  let prefix := prefix (fst s) in
  let s := on_nodes (update_node src (fun n => set_last_counter n (Some (hu_counter u)))) s in
  let s := on_engine (fun e => touch_node src (hu_rssi u) (set_counts e (tick e) (uplinks e + 1))) s in
  let s := event (ERadio (Rx src (hu_rssi u))) s in
  let s := push (Publish (radio_rx prefix) (PRx (node_hex src) (hu_rssi u) (hu_lqi u) (zlen (hu_data u))) false) s in
  let s := push (Publish (node_uplink prefix src) (PUplink (hu_counter u) (hu_rssi u) (hu_lqi u) (hu_data u)) false) s in
  on_node_msg src (hu_counter u) (hu_data u) s.
Definition on_uplink (u : HeldUplink) (s : St) : St :=
  match find_node (hu_src u) (nodes (fst s)) with
  | None =>
      if negb (registry_synced (fst s)) then
        if zlen (held (fst s)) <? HELD_UPLINKS then on_engine (fun e => set_synced e (registry_synced e) (held e ++ [u])) s else s
      else drop_unregistered (hu_src u) (event (ERadio (Rx (hu_src u) (hu_rssi u))) s)
  | Some node =>
      match nm_last_counter node with
      | Some last =>
          if hu_counter u <=? last then log (LReplay (hu_src u) (hu_counter u) last) s else accept_uplink u s
      | None => accept_uplink u s
      end
  end.
Definition on_queue_outcome (node item outcome : Z) (s : St) : St :=
  match position node (nodes (fst s)) with
  | None => s
  | Some i =>
      let pending := match nodes (fst s) !! i with Some n => nm_pending n | None => [] end in
      match index_where (fun p => ps_item p =? item) pending with
      | None => s
      | Some pi =>
          if outcome =? TX_DELIVERED then
            let now := tick (fst s) in
            on_pending i (alter (fun p => set_progress p (Some now) false (ps_next_chunk p) (ps_truncated p)) pi) s
          else if outcome =? TX_EXPIRED then
            let s := on_pending i (delete pi) s in
            match pending !! pi with
            | Some p => publish_pending i (shell_error node p TtlExpired s)
            | None => s
            end
          else s
      end
  end.
Definition on_radio_stat (stat : RadioStat) (s : St) : St :=
  let prefix := prefix (fst s) in
  match stat with
  | StatChannel channel rssi =>
      push (Publish (radio_rssi prefix) (PRssi rssi channel) false)
        (event (ERadio (Ambient rssi channel)) (on_engine (fun e => set_last_ambient e (Some (rssi, channel))) s))
  | StatTx dest item outcome ack_rssi =>
      let s := event (ERadio (Tx dest (outcome =? TX_DELIVERED))) s in
      let s := push (Publish (radio_tx prefix) (PTx (node_hex dest) item (tx_outcome_str outcome) ack_rssi) false) s in
      if negb (item =? 0) then on_queue_outcome dest item outcome s else s
  end.

(** ** Management replies *)

Definition on_paired (j : Paired) (late : bool) (s : St) : St * (str * str) :=
  let s := on_engine (provisional_node (pd_addr j) [] NODE_FLAG_UNNAMED) s in
  let hex := node_hex (pd_addr j) in
  let sas := sas_str (pd_sas j) in
  let s := log (LPaired (pd_addr j) (pd_sas j) late) s in
  (list_nodes (publish_pairing (Some hex) (Some sas) s), (hex, sas)).
Definition on_late_pairing (result : Z) (data : list Z) (s : St) : St :=
  if negb (result =? MGMT_OK) then s
  else
    match (from_bytes data : option Paired) with
    | Some j => fst (on_paired j true s)
    | None => log LLateUndecodable s
    end.
(** [on_mgmt_done] for a request the gateway carried out. *)
Definition on_mgmt_ok (p : PendingMgmt) (s : St) : St :=
  match pm_op p with
  | OpKind.Describe =>
      let s :=
        match (from_bytes (pm_data p) : option DeviceInfo) with
        | Some info => publish_status (on_engine (fun e => set_device e info (hello_session e)) s)
        | None => s
        end in
      let d := describe (fst s) in
      rpc_ok p (DDevice (node_hex (di_addr d)) (di_band d) (di_channel d)) s
  | OpKind.NodeList =>
      if pm_truncated p then
        let s := rpc_err p AnswerIncomplete s in
        let s := on_engine (fun e => set_list_gaps e (sat_add u8_max (list_gaps e) 1)) s in
        if (list_gaps (fst s) <=? LIST_GAP_RETRIES) && negb (existsb is_list (pending_mgmt (fst s))) then list_nodes s else s
      else
        let s := on_engine (fun e => set_list_gaps e 0) s in
        let s := merge_registry (parse_records (pm_data p)) s in
        let s := rpc_ok p (DNodes (node_payloads (fst s))) s in
        if negb (registry_synced (fst s)) then
          let parked := held (fst s) in
          fold_left (fun s u => on_uplink u s) parked (on_engine (fun e => set_synced e true []) s)
        else s
  | OpKind.NodeAdd id name =>
      let s := log (LNodeAdded id name) s in
      let s := on_engine (provisional_node id name (if bool_decide (name = []) then NODE_FLAG_UNNAMED else 0)) s in
      let s := on_nodes (update_node id (fun n => set_last_counter n None)) s in
      list_nodes (rpc_ok p DNull s)
  | OpKind.NodeRemove id =>
      let '(s, pending) :=
        match position id (nodes (fst s)) with
        | Some i => (on_nodes (delete i) s, match nodes (fst s) !! i with Some n => nm_pending n | None => [] end)
        | None => (s, [])
        end in
      rpc_ok p DNull (emit_registry (node_gone id pending s))
  | OpKind.NodeUpdate _ => list_nodes (rpc_ok p DNull s)
  | OpKind.RevealKey id =>
      match (from_bytes (pm_data p) : option NodeKey) with
      | Some k => rpc_ok p (DKey (node_hex id) (nk_key k) (nk_tx_floor k) (nk_rx_floor k)) s
      | None => rpc_err p BadKeyRecord s
      end
  | OpKind.PairingOpen =>
      let ours := bool_decide (pairing_req (fst s) = Some (pm_req_id p)) in
      let s := if ours then on_engine (fun e => set_pairing e None None) s else s in
      match (from_bytes (pm_data p) : option Paired) with
      | Some j => let '(s, js) := on_paired j false s in rpc_ok p (DJoined (Some js)) s
      | None =>
          let s := log LWindowResolved s in
          let s := if ours then publish_pairing None None s else s in
          list_nodes (rpc_ok p (DJoined None) s)
      end
  | OpKind.PairingCancel => rpc_ok p DNull s
  | OpKind.QueuePush node shell =>
      match (from_bytes (pm_data p) : option QueueId) with
      | Some qid =>
          let s :=
            match shell, position node (nodes (fst s)) with
            | Some origin, Some i =>
                let ttl := if so_ttl origin =? 0 then DEFAULT_QUEUE_TTL else so_ttl origin in
                let row := {| ps_item := qi_item qid; ps_rpc := so_rpc origin; ps_line := so_line origin; ps_cmd_id := so_cmd_id origin;
                              ps_delivered_tick := None; ps_queued := true;
                              ps_expires_tick := tick (fst s) + ttl + SHELL_TTL_GRACE_TICKS; ps_next_chunk := 0; ps_truncated := false |} in
                publish_node i (publish_pending i (on_pending i (fun l => l ++ [row]) s))
            | _, _ => s
            end in
          rpc_ok p (DRef (qi_item qid)) s
      | None => rpc_err p BadQueueId s
      end
  | OpKind.QueueList =>
      rpc_ok p (DQueue (map (fun e => (node_hex (qe_node_addr e), qe_item e, qe_age e, qe_ttl e)) (parse_records (pm_data p)))) s
  | OpKind.QueueSync =>
      if pm_truncated p then s else reconcile_queue (map (fun e => (qe_node_addr e, qe_item e)) (parse_records (pm_data p))) s
  | OpKind.QueueDrop node =>
      let s := rpc_ok p DNull s in
      let s := match position node (nodes (fst s)) with Some i => publish_pending i s | None => s end in
      list_nodes s
  | OpKind.QueueDropStale => s
  | OpKind.StatsConfig => rpc_ok p DNull s
  end.
(** [on_mgmt_done] for a request it refused. *)
Definition on_mgmt_refused (p : PendingMgmt) (result : Z) (error : MgmtError) (s : St) : St :=
  match pm_op p with
  | OpKind.QueueDropStale => s
  | OpKind.PairingOpen =>
      let s := end_pairing (pm_req_id p) s in
      if result =? MGMT_TIMEOUT then rpc_ok p (DJoined None) s else rpc_err p (DeviceRefused error) s
  | OpKind.QueuePush node shell =>
      let s := match shell with Some origin => shell_respond node (shell_failure (so_rpc origin) (DeviceRefused error)) s | None => s end in
      rpc_err p (DeviceRefused error) s
  | OpKind.QueueSync => log (LResyncRefused error) s
  | OpKind.NodeUpdate _ => list_nodes (rpc_err p (DeviceRefused error) s)
  | _ => rpc_err p (DeviceRefused error) s
  end.
Definition on_mgmt_done (p : PendingMgmt) (result : Z) (s : St) : St :=
  let s := match mgmt_error_str result with None => on_mgmt_ok p s | Some error => on_mgmt_refused p result error s end in
  if pm_truncated p then log (LTruncated (pm_req_id p)) s else s.
Definition on_mgmt_chunk (req_id result chunk : Z) (last : bool) (data : list Z) (s : St) : St :=
  match index_where (fun p => pm_req_id p =? req_id) (pending_mgmt (fst s)) with
  | None =>
      if last && bool_decide (late_pairing (fst s) = Some req_id)
      then on_late_pairing result data (on_engine (fun e => set_late_pairing e None) s)
      else s
  | Some idx =>
      let s := on_engine (fun e => set_pending_mgmt e (alter (fun p => add_chunk p chunk data) idx (pending_mgmt e))) s in
      if negb last then s
      else
        match pending_mgmt (fst s) !! idx with
        | Some p => send_next_mgmt (on_mgmt_done p result (on_engine (fun e => set_pending_mgmt e (delete idx (pending_mgmt e))) s))
        | None => s
        end
  end.
Definition on_serial (msg : SerialMsg) (s : St) : St :=
  match msg with
  | SHello firmware_name firmware_version session_id =>
      let rebooted := negb (bool_decide (hello_session (fst s) = Some session_id)) in
      let d := describe (fst s) in
      let s := on_engine (fun e => set_device e
                 {| di_role := di_role d; di_addr := di_addr d; di_band := di_band d; di_channel := di_channel d;
                    di_node_capacity := di_node_capacity d; di_node_count := di_node_count d; di_provisioned := di_provisioned d;
                    di_gw_addr := di_gw_addr d; di_firmware_name := firmware_name; di_firmware_version := firmware_version |}
                 (Some session_id)) s in
      let s :=
        if rebooted then
          let s := log (LRebooted session_id) s in
          let s := each_node (end_dialogs true (fun _ _ => true) (fun _ => GatewayRebooted)) s in
          list_nodes (issue_ OpKind.Describe Msg.Describe None s)
        else s in
      publish_status s
  | SLog line => log (LDevice line) s
  | SUplink src counter rssi lqi data =>
      on_uplink {| hu_src := src; hu_counter := counter; hu_rssi := rssi; hu_lqi := lqi; hu_data := data |} s
  | SMgmt req_id result chunk last data => on_mgmt_chunk req_id result chunk last data s
  | SStat stat => on_radio_stat stat s
  | SDropped count => log (LConsoleDropped count) s
  | SForeign => log LSchemaMismatch s
  end.
End Handlers.
