(* ===== verification/GwCommand.v ===== *)
(** The gateway engine's commands and clock (src/cli/src/gateway/engine.rs): MQTT messages, remote-shell
    requests, the RPC surface, the tick, and [handle], which takes every input. *)
From Stdlib Require Import Strings.String.
From S2P Require Import Prelude Bytes Str Proto Cobs Fingerprint Msg Frame RadioEnv Mgmt GwTopics GwState GwEngine GwHandle.

#[local] Abbreviation str := (list Z).
#[local] Abbreviation St := (Engine * list Output)%type.

Definition named (name : str) (n : NodeMirror) : bool := bool_decide (ne_name (nm_entry n) = name).
Definition has_addr (addr : Z) (n : NodeMirror) : bool := addr_of n =? addr.
(** [Ok] or the reason the name is refused. *)
Definition check_name (name : str) (addr : Z) (e : Engine) : option Reason :=
  if bool_decide (name = []) || (MAX_NODE_NAME <? zlen name) then Some NameLength
  else if negb (printable_name name) then Some NameNotPrintable
  else if bool_decide (parse_node_hex name <> None) then Some NameLooksLikeAddress
  else
    match List.find (fun n => negb (has_addr addr n) && named name n) (nodes e) with
    | Some other => Some (NameInUse name (addr_of other))
    | None => None
    end.
Definition str_param (k : string) (params : Value) : option str := value_get params (lit k) ≫= as_str.
(** The node an RPC names: by address, else by name. *)
Definition node_param (params : Value) (e : Engine) : option Z :=
  match str_param "addr" params with
  | None => None
  | Some v =>
      match parse_node_hex v with
      | Some a => Some a
      | None => option_map addr_of (List.find (named v) (nodes e))
      end
  end.
(** A number at most [max]; absent or null, [None] inside. *)
Definition opt_number (max : Z) (k : string) (params : Value) : option (option Z) :=
  match value_get params (lit k) with
  | None | Some JNull => Some None
  | Some v => match as_u64 v with Some f => if f <=? max then Some (Some f) else None | None => None end
  end.
Definition floor (k : string) (params : Value) : option Z := option_map (default 0) (opt_number u32_max k params).
Definition clamp (lo hi v : Z) : Z := Z.max lo (Z.min hi v).
Definition expired_dialog (tick : Z) (p : PendingShell) : bool :=
  match ps_delivered_tick p with
  | Some t => t + SHELL_REPLY_TIMEOUT_TICKS <=? tick
  | None => ps_expires_tick p <=? tick
  end.
Definition expiry_reason (p : PendingShell) : Reason := if ps_delivered_tick p then NoReply else NoDeliveryReport.
(** The positions of the requests past their deadline, last first. *)
Definition expired_requests (e : Engine) : list nat :=
  reverse (omap (fun '(i, p) => if pm_deadline p <=? tick e then Some i else None) (combine (List.seq 0 (length (pending_mgmt e))) (pending_mgmt e))).

Section Commands.
Context `{SC : Schemas} `{CB : Cobs} `{CC : ConsoleCodec} `{RC : RadioCodec} `{MC : MgmtCodec} `{JS : Json}.

(** The id among those remembered, the oldest given up. *)
Definition remember (id : str) (e : Engine) : Engine :=
  set_recent_ids e ((if RECENT_IDS <=? zlen (recent_ids e) then List.tl (recent_ids e) else recent_ids e) ++ [id]).
Definition accept_request_id (id topic : str) (s : St) : St * bool :=
  if negb (valid_request_id id) then (log (LInvalidId topic) s, false)
  else if existsb (fun r => bool_decide (r = id)) (recent_ids (fst s)) then (log (LDuplicate id topic) s, false)
  else (on_engine (remember id) s, true).

Definition on_shell_req (node : Z) (req : ShellReq) (s : St) : St :=
  let fail error s := shell_respond node (shell_failure (sr_id req) error) s in
  if forallb (fun n => negb (has_addr node n)) (nodes (fst s)) then fail UnknownNode s
  else if RADIO_SHELL_CHUNK <? zlen (sr_line req) then fail LineTooLong s
  else
    let cmd_id := next_cmd (fst s) in
    let s := on_engine (fun e => set_shell_ids e (next_id cmd_id) (shell_epoch e)) s in
    match encode_node_cmd (CmdShell (shell_epoch (fst s)) cmd_id (to_string (sr_line req))) (zeros MAX_RADIO_PAYLOAD) with
    | (_, Err _) => fail EnvelopeEncode s
    | (env, Ok n) =>
        let origin := {| so_rpc := sr_id req; so_line := sr_line req; so_cmd_id := cmd_id; so_ttl := sr_ttl req |} in
        issue_ (OpKind.QueuePush node (Some origin)) (Msg.QueuePush node (sr_ttl req) (slice env 0 n)) None s
    end.

(** *** The RPC surface: one definition per [op] *)

Definition rpc_node_add (me : RpcRef) (params : Value) (s : St) : St :=
  let id := str_param "addr" params ≫= parse_node_hex in
  let key := str_param "key" params ≫= parse_key_hex in
  match floor "tx_floor" params, floor "rx_floor" params with
  | Some tx_floor, Some rx_floor =>
      let name := default [] (str_param "name" params) in
      let sleeping := default true (value_get params (lit "sleeping") ≫= as_bool) in
      match id, key with
      | Some id, Some key =>
          match (if bool_decide (name = []) then None else check_name name id (fst s)) with
          | Some error => rpc_err_direct me error s
          | None =>
              let flags := Z.lor (if sleeping then NODE_FLAG_SLEEPING else 0) (if bool_decide (name = []) then NODE_FLAG_UNNAMED else 0) in
              issue_ (OpKind.NodeAdd id name) (Msg.NodeAdd id key (to_string name) flags tx_floor rx_floor) (Some me) s
          end
      | _, _ => rpc_err_direct me NeedsAddrAndKey s
      end
  | _, _ => rpc_err_direct me BadFloor s
  end.
Definition rpc_node_remove (me : RpcRef) (params : Value) (s : St) : St :=
  match node_param params (fst s) with
  | Some id => issue_ (OpKind.NodeRemove id) (Msg.NodeRemove id) (Some me) s
  | None => rpc_err_direct me UnknownNode s
  end.
Definition rpc_node_rename (me : RpcRef) (params : Value) (s : St) : St :=
  match node_param params (fst s) ≫= fun id =>
          option_map (fun n => (id, Z.land (ne_flags (nm_entry n)) (255 - NODE_FLAG_UNNAMED))) (find_node id (nodes (fst s))) with
  | None => rpc_err_direct me UnknownNode s
  | Some (id, flags) =>
      match str_param "name" params with
      | None => rpc_err_direct me MissingName s
      | Some name =>
          match check_name name id (fst s) with
          | Some error => rpc_err_direct me error s
          | None =>
              match issue (OpKind.NodeUpdate id) (Msg.NodeUpdate id (Some (to_string name)) (Some flags)) (Some me) s with
              | (s, Some _) => on_nodes (update_node id (fun n => set_entry n (set_name_flags (nm_entry n) name flags))) s
              | (s, None) => s
              end
          end
      end
  end.
Definition rpc_reveal_key (me : RpcRef) (params : Value) (s : St) : St :=
  match node_param params (fst s) with
  | Some id => issue_ (OpKind.RevealKey id) (Msg.NodeRevealKey id) (Some me) s
  | None => rpc_err_direct me UnknownNode s
  end.
Definition rpc_node_add_ota (me : RpcRef) (params : Value) (s : St) : St :=
  if pairing_req (fst s) then rpc_err_direct me WindowOpen s
  else if existsb (fun p => is_pairing_open (pm_op p)) (pending_mgmt (fst s)) then rpc_err_direct me WindowClosing s
  else
    let window := clamp 1 600 (default 60 (value_get params (lit "window") ≫= as_u64)) in
    match issue_delayed OpKind.PairingOpen (Msg.PairingOpen window) (Some me) (window + PAIRING_SLACK_S) s with
    | (s, Some req_id) => publish_pairing None None (on_engine (fun e => set_pairing e (Some req_id) (Some (tick e + window))) s)
    | (s, None) => s
    end.
Definition rpc_pairing_cancel (me : RpcRef) (s : St) : St :=
  issue_ OpKind.PairingCancel Msg.PairingCancel (Some me) (publish_pairing None None (on_engine (fun e => set_pairing e None None) s)).
Definition rpc_queue_list (me : RpcRef) (params : Value) (s : St) : St :=
  match (match value_get params (lit "addr") with None | Some JNull => Some 0 | Some _ => node_param params (fst s) end) with
  | Some node => issue_ OpKind.QueueList (Msg.QueueList node) (Some me) s
  | None => rpc_err_direct me UnknownNode s
  end.
Definition rpc_queue_drop (me : RpcRef) (params : Value) (s : St) : St :=
  match node_param params (fst s) with
  | None => rpc_err_direct me UnknownNode s
  | Some node =>
      match opt_number u16_max "ref" params with
      | None | Some (Some 0) => rpc_err_direct me BadRef s
      | Some item =>
          let dropped _ p := match item with Some it => ps_item p =? it | None => if ps_delivered_tick p then false else true end in
          let s := match position node (nodes (fst s)) with
                   | Some i => end_dialogs false dropped (fun _ => Dequeued) i s
                   | None => s
                   end in
          issue_ (OpKind.QueueDrop node) (Msg.QueueDrop node item) (Some me) s
      end
  end.
Definition rpc_stats_config (me : RpcRef) (params : Value) (s : St) : St :=
  let period := Z.min (default 500 (value_get params (lit "period_ms") ≫= as_u64)) 60000 in
  issue_ OpKind.StatsConfig (Msg.StatsConfig period) (Some me) s.
Definition on_rpc (req : RpcRequest) (origin : RpcOrigin) (s : St) : St :=
  let me := {| ref_id := rq_id req; ref_origin := origin |} in
  let params := rq_params req in
  let op_is k := bool_decide (rq_op req = k) in
  if op_is (lit "describe") then issue_ OpKind.Describe Msg.Describe (Some me) s
  else if op_is (lit "node_list") then issue_ OpKind.NodeList Msg.NodeList (Some me) s
  else if op_is (lit "node_add") then rpc_node_add me params s
  else if op_is (lit "node_remove") then rpc_node_remove me params s
  else if op_is (lit "node_rename") then rpc_node_rename me params s
  else if op_is (lit "reveal_key") then rpc_reveal_key me params s
  else if op_is (lit "node_add_ota") then rpc_node_add_ota me params s
  else if op_is (lit "pairing_cancel") then rpc_pairing_cancel me s
  else if op_is (lit "queue_list") then rpc_queue_list me params s
  else if op_is (lit "queue_drop") then rpc_queue_drop me params s
  else if op_is (lit "stats_config") then rpc_stats_config me params s
  else rpc_err_direct me (UnknownOp (rq_op req)) s.
Definition on_mqtt (topic data : str) (retain : bool) (s : St) : St :=
  let inbound := classify (prefix (fst s)) topic in
  if bool_decide (inbound = Other) || bool_decide (data = []) then s
  else if retain then push (Publish topic PEmpty true) (log (LRetained topic) s)
  else if MAX_COMMAND_PAYLOAD <? zlen data then log (LOversized topic (zlen data)) s
  else
    match inbound with
    | Cmd =>
        match rpc_request data with
        | Some req => let '(s, ok) := accept_request_id (rq_id req) topic s in if ok then on_rpc req FromMqtt s else s
        | None => log LBadRpc s
        end
    | ShellReqFor node =>
        match shell_request data with
        | Some req => let '(s, ok) := accept_request_id (sr_id req) topic s in if ok then on_shell_req node req s else s
        | None => log LBadShell s
        end
    | Other => s
    end.

(** ** The clock *)

Definition needs_resync (op : OpKind.OpKind) : bool := match op with OpKind.QueuePush _ _ | OpKind.QueueDrop _ => true | _ => false end.
(** One timed-out request, by position; whether the queue must be listed after. *)
Definition time_out (i : nat) (s : St) : St * bool :=
  match pending_mgmt (fst s) !! i with
  | None => (s, false)
  | Some p =>
      let s := on_engine (fun e => set_pending_mgmt e (delete i (pending_mgmt e))) s in
      let s := log (LTimedOut (pm_req_id p)) s in
      let s := if is_pairing_open (pm_op p) then on_engine (fun e => set_late_pairing e (Some (pm_req_id p))) s else s in
      (fail_op (pm_op p) (Some (pm_req_id p)) (pm_rpc p) DeviceTimeout s, needs_resync (pm_op p))
  end.
Definition time_out_all (s : St) : St * bool :=
  fold_left (fun '(s, resync) i => let '(s, r) := time_out i s in (s, resync || r)) (expired_requests (fst s)) (s, false).
Definition on_tick (s : St) : St :=
  let s := on_engine (fun e => set_counts e (tick e + 1) (uplinks e)) s in
  let '(s, resync_queue) := time_out_all s in
  let s := if resync_queue then sync_queue s else s in
  let s := send_next_mgmt s in
  let s := if negb (registry_synced (fst s)) && serial_up (fst s) && negb (existsb is_list (pending_mgmt (fst s))) then list_nodes s else s in
  let s := each_node (fun i s => end_dialogs false (fun _ => expired_dialog (tick (fst s))) expiry_reason i s) s in
  let s := if pairing_until (fst s) then publish_pairing None None s else s in
  if tick (fst s) mod STATS_EVERY_TICKS =? 0 then publish_stats s else s.

(** ** Every input *)

Definition subscribe_all (s : St) : St :=
  push (Subscribe (shell_req_filter (prefix (fst s)))) (push (Subscribe (gateway_cmd (prefix (fst s)))) s).
Definition link_event (s : St) : St := event (ELink (serial_up (fst s)) (mqtt_up (fst s))) s.
Definition start (e : Engine) : St :=
  let s := sync_queue (list_nodes (subscribe_all (e, []))) in
  log (LAttached (di_addr (describe (fst s))) (di_node_capacity (describe (fst s)))) s.
Definition handle (input : Input) (e : Engine) : St :=
  let s := (e, []) in
  match input with
  | SerialUp =>
      let s := link_event (publish_status (on_engine (fun e => set_links e true (mqtt_up e)) s)) in
      list_nodes (sync_queue (issue_ OpKind.Describe Msg.Describe None s))
  | SerialDown =>
      let s := link_event (publish_status (on_engine (fun e => set_links e false (mqtt_up e)) s)) in
      fail_unsent_mgmt (log LSerialLost s)
  | SerialFrame msg => on_serial msg s
  | MqttUp =>
      let s := subscribe_all (on_engine (fun e => set_links e (serial_up e) true) s) in
      let s := publish_pairing None None (publish_stats (publish_status s)) in
      link_event (each_node (fun i s => publish_pending i (publish_node i s)) s)
  | MqttDown =>
      let line := if mqtt_up e then LMqttLost else LMqttCannotConnect in
      log line (link_event (on_engine (fun e => set_links e (serial_up e) false) s))
  | MqttIn topic payload retain => on_mqtt topic payload retain s
  | Frontend (FRpc req) => on_rpc req FromFrontend s
  | Frontend (FShell node req) => on_shell_req node req s
  | Tick => on_tick s
  end.
End Commands.
