(* ===== verification/GwDemo.v ===== *)
(** A small codec and engine for concrete runs of the gateway engine: a request is its id, a registry or
    queue record one byte, an RPC's JSON its operation's number and its id. *)
From Stdlib Require Import Strings.String.
From S2P Require Import Prelude Bytes Str Proto Cobs Fingerprint Msg Frame RadioEnv Mgmt GwTopics GwState GwEngine GwHandle GwCommand.

Definition coded {T} (ser : T -> list Z) (parse : list Z -> option (T * list Z)) : Postcard T :=
  {| representable := fun _ => True; serialize := ser;
     to_slice := fun v b => if zlen (ser v) <=? zlen b then (patch b 0 (ser v), Some (zlen (ser v))) else (b, None); take_from_bytes := parse |}.
Definition by_byte {T} (f : Z -> T) (l : list Z) : option (T * list Z) := match l with b :: l => Some (f b, l) | [] => None end.

#[export] Instance demo_schemas : Schemas := ToySchemas.with_dropped (ToySchemas.dropped "count"%string U32).
#[export] Existing Instance RefCobs.ref_cobs.
#[export] Instance demo_console : ConsoleCodec :=
  let n {T} : Postcard T := ToyCodec.nothing in
  {| pc_hello := n; pc_log := n; pc_print := n; pc_event := n; pc_shell_response := n; pc_shell_completions := n; pc_dropped := n;
     pc_mgmt_response := n; pc_uplink := n; pc_radio_stat := n; pc_shell_command := n; pc_shell_complete := n;
     pc_mgmt_request := coded (fun m : Msg.MgmtRequest => le_bytes 2 (mreq_req_id m)) (fun _ => None) |}.
#[export] Instance demo_radio : RadioCodec :=
  {| pc_node_msg := coded (fun _ : NodeMsg => [])
       (by_byte (fun b => NodeShell {| chunk_cmd_id := b; chunk_result := 0; chunk_chunk := 0; chunk_last := true; chunk_text := "" |}));
     pc_node_cmd := coded (fun '(CmdShell epoch cmd_id line) => [cmd_id]) (fun _ => None) |}.
#[export] Instance demo_mgmt : MgmtCodec :=
  {| pc_device_info := ToyCodec.nothing; pc_node_key := ToyCodec.nothing; pc_paired := coded (fun _ => []) (by_byte (fun b => {| pd_addr := b; pd_sas := 7 |}));
     pc_node_entry := coded (fun _ => []) (by_byte (fun b => {| ne_addr := b; ne_name := []; ne_flags := 0; ne_last_seen := LAST_SEEN_NEVER;
                                                             ne_rssi := RSSI_NONE; ne_uplinks := 0; ne_queued := 0 |}));
     pc_queue_id := coded (fun _ => []) (by_byte Build_QueueId);
     pc_queue_entry := coded (fun _ => []) (by_byte (fun b => {| qe_node_addr := b; qe_item := 1; qe_age := 0; qe_ttl := 0; qe_data := [] |})) |}.
#[export] Instance demo_json : Json :=
  {| rpc_request l :=
       match l with
       | 1 :: id => Some {| rq_id := id; rq_op := lit "describe"; rq_params := JNull |}
       | 2 :: id => Some {| rq_id := id; rq_op := lit "node_remove"; rq_params := JObj [(lit "addr", JStr (node_hex 5))] |}
       | _ => None
       end;
     shell_request l := match l with 3 :: id => Some {| sr_id := id; sr_line := lit "/ls"; sr_ttl := 0 |} | _ => None end |}.

Definition device : DeviceInfo :=
  {| di_role := RoleGateway; di_addr := 1; di_band := 0; di_channel := 0; di_node_capacity := 64; di_node_count := 0; di_provisioned := true;
     di_gw_addr := 0; di_firmware_name := lit "gateway"; di_firmware_version := lit "1.0" |}.
Definition fresh_engine : Engine := fst (start (randomize_shell_ids None (new (lit "tower/") (lit "tty") device))).
(** The dongle answers request [id] whole. *)
Definition answer (id result : Z) (data : list Z) : Input := SerialFrame (SMgmt id result 0 true data).
(** Node 5 listed, the queue empty: the startup requests answered. *)
Definition synced : Engine := fst (handle (answer 2 MGMT_OK []) (fst (handle (answer 1 MGMT_OK [5]) fresh_engine))).
Definition demo_op : list Z := lit "describe".
