(* ===== verification/GwMqtt.v ===== *)
(** The gateway's MQTT surface: its topics tell commands from everything it publishes itself, and only a
    live, fresh, well-formed command runs. *)
From Stdlib Require Import Strings.String.
From S2P Require Import Prelude Bytes Str Proto Cobs Fingerprint Msg Frame RadioEnv Mgmt GwTopics GwState GwEngine GwHandle GwCommand GwDemo.

#[local] Abbreviation str := (list Z).
#[local] Abbreviation St := (Engine * list Output)%type.

(** ** Topics *)

Lemma parse_node_hex_node_hex a : u32_ok a -> parse_node_hex (node_hex a) = Some a.
Proof.
  intros Ha. unfold parse_node_hex, node_hex. rewrite strip_prefix_app. pose proof (zlen_fixed 16 8 a : zlen (fmt_08x a) = 8) as Hl. rewrite Hl.
  cbn [Z.eqb Pos.eqb negb]. unfold u32_from_str_radix. pose proof (digit_text_fixed 16 8 a ltac:(lia)) as Ht. fold (fmt_08x a) in Ht.
  assert (E : digits_val 16 1 0 u32_max 0 (fmt_08x a) = Some a).
  { apply digits_val_fixed; [lia.. | mlia | change (16 ^ Z.of_nat 8) with 4294967296; mlia | mlia]. }
  destruct (fmt_08x a) as [|b r]; [done|]. apply Forall_cons_1 in Ht as [(d & Hd & ->) _]. unfold digit_char in *.
  destruct (d <? 10) eqn:Ed; bool_hyps; [replace (48 + d =? 43) with false by lia; replace (48 + d =? 45) with false by lia
    | replace (87 + d =? 43) with false by lia; replace (87 + d =? 45) with false by lia]; done.
Qed.
Lemma node_hex_inj a b : u32_ok a -> u32_ok b -> node_hex a = node_hex b -> a = b.
Proof. intros Ha Hb E. apply (f_equal parse_node_hex) in E. rewrite !parse_node_hex_node_hex in E by done. by injection E. Qed.
(** Every topic the engine publishes on, for a node and for an RPC's id. *)
Definition published_topics (prefix : str) (addr : Z) (id : str) : list str :=
  [gateway_status prefix; gateway_stats prefix; gateway_pairing prefix; gateway_rsp prefix id; node prefix addr; node_button prefix addr;
   node_accel prefix addr; node_temperature prefix addr; node_uplink prefix addr; node_shell_rsp prefix addr; node_shell_pending prefix addr;
   radio_rssi prefix; radio_rx prefix; radio_tx prefix].
Lemma strip_suffix_app a p s : strip_suffix p (a ++ s) = if bool_decide (take (length p) (reverse s) = reverse p) then strip_suffix p (a ++ s) else
  if bool_decide (length p <= length s)%nat then None else strip_suffix p (a ++ s).
Proof.
  case_bool_decide as H; [done|]. case_bool_decide as Hl; [|done]. unfold strip_suffix, strip_prefix, starts_with.
  rewrite bool_decide_false; [done|]. rewrite reverse_app, length_reverse, take_app_le by (rewrite length_reverse; lia). done.
Qed.
Lemma classify_node prefix addr rest : classify prefix (prefix ++ lit "nodes/" ++ node_hex addr ++ rest)
  = match strip_suffix (lit "/shell/req") (node_hex addr ++ rest) with
    | Some hex => match parse_node_hex hex with Some a => ShellReqFor a | None => Other end
    | None => Other
    end.
Proof.
  unfold classify. rewrite strip_prefix_app, strip_prefix_app. rewrite bool_decide_false by done. done.
Qed.
Lemma classify_gateway prefix rest : strip_prefix (lit "nodes/") rest = None -> rest <> lit "gateway/cmd" -> classify prefix (prefix ++ rest) = Other.
Proof. intros A B. unfold classify. by rewrite strip_prefix_app, bool_decide_false, A. Qed.
Lemma suffix_none addr rest : (10 <= length rest)%nat -> take 10 (reverse rest) <> reverse (lit "/shell/req") ->
  strip_suffix (lit "/shell/req") (node_hex addr ++ rest) = None.
Proof. intros Hl H. rewrite strip_suffix_app. rewrite bool_decide_false by done. by rewrite bool_decide_true. Qed.
(** A node's own topic ends with its address. *)
Lemma suffix_short addr rest : length rest = 0%nat \/ length rest = 7%nat /\ take 1 (reverse rest) <> [113] ->
  strip_suffix (lit "/shell/req") (node_hex addr ++ rest) = None.
Proof.
  intros H. unfold strip_suffix, strip_prefix, starts_with. rewrite bool_decide_false; [done|]. rewrite reverse_app.
  destruct H as [H|[H Hr]].
  - destruct rest; [|done]. cbn [reverse rev_append app]. unfold node_hex. rewrite reverse_app.
    assert (length (reverse (fmt_08x addr)) = 8%nat) as Hl by (rewrite length_reverse; pose proof (zlen_fixed 16 8 addr : zlen (fmt_08x addr) = 8) as E; unfold zlen in E; lia).
    destruct (reverse (fmt_08x addr)) as [|b0 [|b1 [|b2 [|b3 [|b4 [|b5 [|b6 [|b7 [|]]]]]]]]]; try done.
  - destruct (reverse rest) as [|b r] eqn:E; [by apply (f_equal length) in E; rewrite length_reverse, H in E|].
    intros Ht. cbn in Ht. injection Ht as -> _. by apply Hr.
Qed.
(** The topics sort out: a command topic is recognised as the command it is for, for every prefix and every node, and no topic the
    engine publishes on is a command, so it never acts on what it published itself. *)
Theorem topics_classified prefix addr id : u32_ok addr ->
  classify prefix (gateway_cmd prefix) = Cmd /\ classify prefix (node_shell_req prefix addr) = ShellReqFor addr
  /\ Forall (fun topic => classify prefix topic = Other) (published_topics prefix addr id).
Proof.
  intros Ha. split; [unfold classify, gateway_cmd; rewrite strip_prefix_app; by rewrite bool_decide_true|]. split.
  - unfold node_shell_req. rewrite classify_node. unfold strip_suffix. rewrite reverse_app, strip_prefix_app. cbn [option_map].
    by rewrite reverse_involutive, parse_node_hex_node_hex.
  - assert (Hn : forall rest, (10 <= length rest)%nat -> take 10 (reverse rest) <> reverse (lit "/shell/req") ->
      classify prefix (prefix ++ lit "nodes/" ++ node_hex addr ++ rest) = Other) by (intros; rewrite classify_node, suffix_none; done).
    repeat constructor; try (apply classify_gateway; done); try (apply Hn; [cbn; lia | done]).
    + unfold node. rewrite <- (app_nil_r (node_hex addr)). rewrite classify_node, suffix_short by (by left). done.
    + unfold node_uplink. rewrite classify_node, suffix_short by (by right). done.
Qed.

(** ** Commands *)

Section Gate.
Context `{SC : Schemas} `{CB : Cobs} `{CC : ConsoleCodec} `{RC : RadioCodec} `{MC : MgmtCodec} `{JS : Json}.

(** An id the engine takes: well formed, and not one of the last ones handled. *)
Definition new_id (id : str) (e : Engine) : bool := valid_request_id id && negb (existsb (fun r => bool_decide (r = id)) (recent_ids e)).
(** The command a message is, if it is one to run: live, not empty, of reasonable size, well formed, its id new. *)
Definition accepted (topic data : str) (retain : bool) (e : Engine) : option (RpcRequest + Z * ShellReq) :=
  if bool_decide (data = []) || retain || (MAX_COMMAND_PAYLOAD <? zlen data) then None
  else
    match classify (prefix e) topic with
    | Cmd => match rpc_request data with Some req => if new_id (rq_id req) e then Some (inl req) else None | None => None end
    | ShellReqFor node => match shell_request data with Some req => if new_id (sr_id req) e then Some (inr (node, req)) else None | None => None end
    | Other => None
    end.
Definition command_id (c : RpcRequest + Z * ShellReq) : str := match c with inl req => rq_id req | inr (_, req) => sr_id req end.
Definition run_command (c : RpcRequest + Z * ShellReq) (s : St) : St :=
  match c with inl req => on_rpc req FromMqtt s | inr (node, req) => on_shell_req node req s end.
(** A log line, or the clearing of the topic's retained message. *)
Definition refusal (topic : str) (o : Output) : Prop := (exists l, o = EventOut (ELog l)) \/ o = Publish topic PEmpty true.
Lemma on_mqtt_spec topic data retain e :
  match accepted topic data retain e with
  | Some c => on_mqtt topic data retain (e, []) = run_command c (remember (command_id c) e, [])
  | None => exists out, on_mqtt topic data retain (e, []) = (e, out) /\ Forall (refusal topic) out
  end.
Proof.
  unfold accepted, on_mqtt. cbn [fst]. assert (Hl : forall l, exists out, log l (e, []) = (e, out) /\ Forall (refusal topic) out).
  { intros l. exists [EventOut (ELog l)]. split; [done|]. constructor; [left; by exists l | done]. }
  destruct (decide (classify (prefix e) topic = Other)) as [E|E].
  { rewrite E, (bool_decide_true (Other = Other)) by done. cbn [orb]. destruct (_ || _ || _); by exists []. }
  rewrite (bool_decide_false (classify _ _ = Other)) by done. cbn [orb]. case_bool_decide as Hd; cbn [orb]; [by exists []|].
  destruct retain; cbn [orb].
  { exists [EventOut (ELog (LRetained topic)); Publish topic PEmpty true]. split; [done|]. constructor; [left; by eexists|]. constructor; [by right | done]. }
  destruct (_ <? _); [apply Hl|].
  destruct (classify (prefix e) topic) as [|node|]; [| |done].
  - destruct (rpc_request data) as [req|]; [|apply Hl]. unfold new_id, accept_request_id. destruct (valid_request_id _); cbn [negb andb fst]; [|apply Hl].
    destruct (existsb _ _); cbn [negb]; [apply Hl | done].
  - destruct (shell_request data) as [req|]; [|apply Hl]. unfold new_id, accept_request_id. destruct (valid_request_id _); cbn [negb andb fst]; [|apply Hl].
    destruct (existsb _ _); cbn [negb]; [apply Hl | done].
Qed.
(** What a command accepted is. *)
Lemma accepted_fresh topic data retain e c : accepted topic data retain e = Some c ->
  retain = false /\ data <> [] /\ zlen data <= MAX_COMMAND_PAYLOAD /\ classify (prefix e) topic <> Other /\ new_id (command_id c) e = true.
Proof.
  unfold accepted. intros E. case_bool_decide as Hd; [done|]. cbn [orb] in E. destruct retain; [done|]. cbn [orb] in E.
  destruct (_ <? _) eqn:Hl in E; [done|]. bool_hyps. do 3 (split; [done || lia|]).
  destruct (classify (prefix e) topic) as [|node|]; [| |done]; (split; [done|]).
  - destruct (rpc_request data) as [req|]; [|done]. destruct (new_id _ e) eqn:En; [|done]. by injection E as <-.
  - destruct (shell_request data) as [req|]; [|done]. destruct (new_id _ e) eqn:En; [|done]. by injection E as <-.
Qed.
(** Only a live, fresh, well-formed command runs. A message accepted is not retained, not empty, at most [MAX_COMMAND_PAYLOAD] bytes,
    on a command topic, its id valid and not among the last ones handled; it runs with that id remembered. Any other leaves the engine as
    it was, sends nothing to the dongle and publishes nothing but the clearing of a retained copy. *)
Theorem only_fresh_commands_run topic data retain e :
  match accepted topic data retain e with
  | Some c =>
      handle (MqttIn topic data retain) e = run_command c (remember (command_id c) e, [])
      /\ retain = false /\ data <> [] /\ zlen data <= MAX_COMMAND_PAYLOAD /\ classify (prefix e) topic <> Other
      /\ valid_request_id (command_id c) = true /\ ~ In (command_id c) (recent_ids e)
  | None => fst (handle (MqttIn topic data retain) e) = e /\ Forall (refusal topic) (snd (handle (MqttIn topic data retain) e))
  end.
Proof.
  pose proof (on_mqtt_spec topic data retain e) as H. cbn [handle]. destruct (accepted topic data retain e) as [c|] eqn:E.
  - split; [done|]. apply accepted_fresh in E as (A & B & C & D & En). unfold new_id in En. bool_hyps. split_and!; try done. intros Hin.
    apply not_true_iff_false in H1. apply H1. apply existsb_exists. eexists. split; [apply Hin|]. by apply bool_decide_true.
  - destruct H as (out & -> & H). done.
Qed.
End Gate.

Module Demo.
Lemma topics_classified_witness : u32_ok 439041101 /\ classify (lit "tower/") (node_shell_req (lit "tower/") 439041101) = ShellReqFor 439041101.
Proof. assert (H : u32_ok 439041101) by (vm_compute; split; discriminate). split; [done|]. apply (topics_classified (lit "tower/") 439041101 (lit "a") H). Defined.
End Demo.
