(* ===== verification/GwDialog.v ===== *)
(** The remote-shell dialogs of the gateway engine: where a request is from its enqueue to its one
    terminal response. *)
From Stdlib Require Import Strings.String.
From S2P Require Import Prelude Bytes Str Proto Cobs Fingerprint Msg Frame RadioEnv Mgmt GwTopics GwState GwEngine GwHandle GwCommand GwDemo GwMqtt.

#[local] Abbreviation St := (Engine * list Output)%type.

(** ** Counting a request's dialogs *)

Section Count.
Context (id : list Z).
Definition ends (o : Output) : nat :=
  match o with Publish _ (PShellRsp r) _ => if rs_done r && bool_decide (rs_id r = id) then 1 else 0 | _ => 0 end%nat.
Definition ended (out : list Output) : nat := sum_list_with ends out.
Definition is_dialog (p : PendingShell) : nat := if bool_decide (ps_rpc p = id) then 1%nat else O.
Definition dialogs (l : list PendingShell) : nat := sum_list_with is_dialog l.
Definition open_rows (l : list NodeMirror) : nat := sum_list_with (fun n => dialogs (nm_pending n)) l.
(** The enqueue of the request. *)
Definition enqueues (op : OpKind.OpKind) : nat :=
  match op with OpKind.QueuePush _ (Some o) => if bool_decide (so_rpc o = id) then 1%nat else O | _ => O end.
Definition open_requests (l : list PendingMgmt) : nat := sum_list_with (fun p => enqueues (pm_op p)) l.
(** Ended in the outputs so far, or still open: pending on a node, or being queued. *)
Definition open (e : Engine) : nat := (open_rows (nodes e) + open_requests (pending_mgmt e))%nat.
Definition ledger (s : St) : nat := (ended (snd s) + open (fst s))%nat.

Lemma dialogs_app a b : dialogs (a ++ b) = (dialogs a + dialogs b)%nat.
Proof. apply sum_list_with_app. Qed.
Lemma dialogs_cons p l : dialogs (p :: l) = (is_dialog p + dialogs l)%nat.
Proof. done. Qed.
Lemma ended_app a b : ended (a ++ b) = (ended a + ended b)%nat.
Proof. apply sum_list_with_app. Qed.
Lemma sum_alter {A} (g : A -> nat) f l : forall i x, l !! i = Some x ->
  (sum_list_with g (alter f i l) + g x = sum_list_with g l + g (f x))%nat.
Proof.
  induction l as [|y l IH]; intros [|i] x H; try done; cbn in H.
  - injection H as ->. change (alter f 0%nat (x :: l)) with (f x :: l). cbn. lia.
  - change (alter f (S i) (y :: l)) with (y :: alter f i l). cbn. specialize (IH i x H). lia.
Qed.
Lemma sum_alter_same {A} (g : A -> nat) f l i : (forall x, g (f x) = g x) -> sum_list_with g (alter f i l) = sum_list_with g l.
Proof.
  intros H. revert i. induction l as [|y l IH]; intros [|i]; try done.
  - change (alter f 0%nat (y :: l)) with (f y :: l). cbn. by rewrite H.
  - change (alter f (S i) (y :: l)) with (y :: alter f i l). cbn. by rewrite IH.
Qed.
Lemma sum_alter_None {A} (g : A -> nat) f l i : l !! i = None -> sum_list_with g (alter f i l) = sum_list_with g l.
Proof.
  revert i. induction l as [|y l IH]; intros [|i] H; try done.
  change (alter f (S i) (y :: l)) with (y :: alter f i l). cbn. by rewrite IH.
Qed.
Lemma sum_delete {A} (g : A -> nat) l i x : l !! i = Some x -> (sum_list_with g (delete i l) + g x = sum_list_with g l)%nat.
Proof. intros H. rewrite delete_take_drop, sum_list_with_app. rewrite <- (take_drop_middle l i x H) at 3. rewrite sum_list_with_app. cbn. lia. Qed.
Lemma sum_filter {A} (g : A -> nat) f l : let '(a, b) := List.partition f l in (sum_list_with g a + sum_list_with g b = sum_list_with g l)%nat.
Proof. induction l as [|x l IH]; [done|]. cbn. destruct (List.partition f l). destruct (f x); cbn; lia. Qed.

(** ** What leaves the ledger alone *)

Create HintDb ledger.
Lemma ledger_push o s : ledger (push o s) = (ledger s + ends o)%nat.
Proof. unfold ledger, push. cbn [fst snd]. rewrite ended_app. cbn. lia. Qed.
Lemma ledger_quiet o s : ends o = O -> ledger (push o s) = ledger s.
Proof. intros H. rewrite ledger_push. lia. Qed.
Lemma ledger_log l s : ledger (log l s) = ledger s.
Proof. by apply ledger_quiet. Qed.
Lemma ledger_event x s : ledger (event x s) = ledger s.
Proof. by apply ledger_quiet. Qed.
Lemma ledger_engine f s : nodes (f (fst s)) = nodes (fst s) -> pending_mgmt (f (fst s)) = pending_mgmt (fst s) -> ledger (on_engine f s) = ledger s.
Proof. intros A B. unfold ledger, open, on_engine. cbn [fst snd]. by rewrite A, B. Qed.
Lemma ledger_nodes f s : open_rows (f (nodes (fst s))) = open_rows (nodes (fst s)) -> ledger (on_nodes f s) = ledger s.
Proof. intros H. unfold ledger, open, on_nodes, on_engine. cbn [fst snd set_nodes nodes pending_mgmt]. by rewrite H. Qed.
Lemma ledger_fold {A} (f : St -> A -> St) l : forall s, (forall s x, ledger (f s x) = ledger s) -> ledger (fold_left f l s) = ledger s.
Proof. induction l as [|x l IH]; intros s H; [done|]. cbn [fold_left]. by rewrite IH, H. Qed.
Lemma ledger_each f s : (forall i s, ledger (f i s) = ledger s) -> ledger (each_node f s) = ledger s.
Proof. intros H. apply ledger_fold. intros s' i. apply H. Qed.
Lemma ledger_emit s : ledger (emit_registry s) = ledger s.
Proof. by apply ledger_quiet. Qed.
#[local] Hint Rewrite ledger_log ledger_event ledger_emit : ledger.
Ltac still := repeat first [rewrite ledger_quiet by done | rewrite ledger_engine by done | progress autorewrite with ledger].
Lemma ledger_publish_node i s : ledger (publish_node i s) = ledger s.
Proof. unfold publish_node. destruct (_ !! _); [|done]. by still. Qed.
Lemma ledger_publish_pending i s : ledger (publish_pending i s) = ledger s.
Proof. unfold publish_pending. destruct (_ !! _); [|done]. by still. Qed.
Lemma ledger_publish_status s : ledger (publish_status s) = ledger s.
Proof. unfold publish_status. by still. Qed.
Lemma ledger_publish_stats s : ledger (publish_stats s) = ledger s.
Proof. unfold publish_stats. by still. Qed.
Lemma ledger_publish_pairing j a s : ledger (publish_pairing j a s) = ledger s.
Proof. unfold publish_pairing. by still. Qed.
Lemma ledger_rpc_respond o r s : ledger (rpc_respond o r s) = ledger s.
Proof. unfold rpc_respond. destruct o; by still. Qed.
Lemma ledger_rpc_err_direct r e s : ledger (rpc_err_direct r e s) = ledger s.
Proof. apply ledger_rpc_respond. Qed.
Lemma ledger_rpc_err p e s : ledger (rpc_err p e s) = ledger s.
Proof. unfold rpc_err. destruct (pm_rpc p); [apply ledger_rpc_respond | done]. Qed.
Lemma ledger_rpc_ok p d s : ledger (rpc_ok p d s) = ledger s.
Proof. unfold rpc_ok. destruct (pm_rpc p); [apply ledger_rpc_respond | done]. Qed.
#[local] Hint Rewrite ledger_publish_node ledger_publish_pending ledger_publish_status ledger_publish_stats ledger_publish_pairing
  ledger_rpc_respond ledger_rpc_err_direct ledger_rpc_err ledger_rpc_ok : ledger.
Lemma ledger_end_pairing r s : ledger (end_pairing r s) = ledger s.
Proof. unfold end_pairing. case_bool_decide; by still. Qed.
Lemma ledger_shell_respond n r s : ledger (shell_respond n r s) = (ledger s + (if rs_done r && bool_decide (rs_id r = id) then 1 else 0))%nat.
Proof. unfold shell_respond. still. by rewrite ledger_push. Qed.
Lemma ledger_shell_error n p why s : ledger (shell_error n p why s) = (ledger s + is_dialog p)%nat.
Proof. unfold shell_error. by rewrite ledger_shell_respond. Qed.
Lemma ledger_shell_errors n l why : forall s, ledger (shell_errors n l why s) = (ledger s + dialogs l)%nat.
Proof.
  induction l as [|p l IH]; intros s; [apply plus_n_O|]. unfold shell_errors in *. cbn [fold_left]. rewrite IH, ledger_shell_error, dialogs_cons. lia.
Qed.
Lemma ledger_on_pending i f s n : nodes (fst s) !! i = Some n ->
  (ledger (on_pending i f s) + dialogs (nm_pending n) = ledger s + dialogs (f (nm_pending n)))%nat.
Proof.
  intros H. unfold ledger, open, on_pending, on_nodes, on_engine. cbn [fst snd set_nodes nodes pending_mgmt].
  pose proof (sum_alter (fun n => dialogs (nm_pending n)) (fun n => set_pending n (f (nm_pending n))) _ _ _ H) as Ha. cbn [set_pending nm_pending] in Ha.
  unfold open_rows. lia.
Qed.
(** Ending dialogs moves them from open to ended. *)
Lemma ledger_end_dialogs always dead why i s : ledger (end_dialogs always dead why i s) = ledger s.
Proof.
  unfold end_dialogs. destruct (nodes (fst s) !! i) as [n|] eqn:E; [|done].
  destruct (List.partition (dead (addr_of n)) (nm_pending n)) as [gone keep] eqn:Ep.
  pose proof (sum_filter is_dialog (dead (addr_of n)) (nm_pending n)) as Hs. rewrite Ep in Hs. fold (dialogs gone) (dialogs keep) (dialogs (nm_pending n)) in Hs.
  pose proof (ledger_on_pending i (fun _ => keep) s n E) as Hl. change (on_engine (fun e => set_nodes e (alter (fun n => set_pending n keep) i (nodes e))) s) with (on_pending i (fun _ => keep) s).
  cbv zeta. destruct (always || negb (bool_decide (gone = []))) eqn:Eg.
  - still. rewrite ledger_shell_errors. lia.
  - apply orb_false_iff in Eg as [_ Eg]. apply negb_false_iff, bool_decide_eq_true in Eg. subst gone. change (dialogs []) with O in Hs. lia.
Qed.
#[local] Hint Rewrite ledger_end_pairing ledger_end_dialogs : ledger.
Lemma ledger_node_gone a l s : ledger (node_gone a l s) = (ledger s + dialogs l)%nat.
Proof. unfold node_gone. rewrite ledger_fold by (intros; by still). apply ledger_shell_errors. Qed.
Lemma open_rows_update a f l : (forall n, nm_pending (f n) = nm_pending n) -> open_rows (update_node a f l) = open_rows l.
Proof. intros H. unfold open_rows in *. induction l as [|n l IH]; [done|]. cbn [update_node]. destruct (addr_of n =? a); cbn; [by rewrite H | by rewrite IH]. Qed.
Lemma ledger_update a f s : (forall n, nm_pending (f n) = nm_pending n) -> ledger (on_nodes (update_node a f) s) = ledger s.
Proof. intros H. apply ledger_nodes. by apply open_rows_update. Qed.
Lemma ledger_alter i f s : (forall n, nm_pending (f n) = nm_pending n) -> ledger (on_nodes (alter f i) s) = ledger s.
Proof. intros H. apply ledger_nodes. apply sum_alter_same. intros n. by rewrite H. Qed.

(** ** Requests *)

Context `{SC : Schemas} `{CB : Cobs} `{CC : ConsoleCodec} `{RC : RadioCodec} `{MC : MgmtCodec} `{JS : Json}.

Lemma open_requests_app a b : open_requests (a ++ b) = (open_requests a + open_requests b)%nat.
Proof. apply sum_list_with_app. Qed.
Lemma ledger_pending f s : ledger (on_engine (fun e => set_pending_mgmt e (f e)) s) =
  (ended (snd s) + open_rows (nodes (fst s)) + open_requests (f (fst s)))%nat.
Proof. unfold ledger, open, on_engine. cbn [fst snd set_pending_mgmt nodes pending_mgmt]. lia. Qed.
Lemma ledger_split s : ledger s = (ended (snd s) + open_rows (nodes (fst s)) + open_requests (pending_mgmt (fst s)))%nat.
Proof. unfold ledger, open. lia. Qed.
Lemma send_first_open tick l f l' : send_first tick l = Some (f, l') -> open_requests l' = open_requests l.
Proof.
  revert l'. unfold open_requests. induction l as [|p l IH]; intros l' H; cbn [send_first] in H; [done|]. destruct (pm_frame p); [by injection H as _ <-|].
  destruct (send_first tick l) as [[f' l1]|]; [|done]. cbn in H. injection H as -> <-. cbn. by rewrite (IH l1).
Qed.
Lemma ledger_send s : ledger (send_next_mgmt s) = ledger s.
Proof.
  unfold send_next_mgmt. destruct (existsb _ _); [done|]. destruct (send_first _ _) as [[f l]|] eqn:E; [|done].
  still. rewrite ledger_pending, ledger_split. by rewrite (send_first_open _ _ _ _ E).
Qed.
Definition fails (f : OpKind.OpKind -> option Z -> option RpcRef -> Reason -> St -> St) : Prop :=
  forall op rid rpc e s, ledger (f op rid rpc e s) = (ledger s + enqueues op)%nat.
Lemma issue_with_ledger f kind op rpc t s : fails f -> ledger (fst (issue_with f kind op rpc t s)) = (ledger s + enqueues kind)%nat.
Proof.
  intros Hf. unfold issue_with. destruct (negb _); [apply Hf|]. destruct (encode_mgmt _ _ _); cbn [fst]; [|rewrite Hf; by still].
  rewrite ledger_send, ledger_pending, ledger_split, open_requests_app. unfold open_requests at 2.
  cbn [sum_list_with pm_op on_engine fst snd set_req pending_mgmt nodes]. lia.
Qed.
Lemma fail_with_ledger relist : (forall s, ledger (relist s) = ledger s) -> fails (fail_with relist).
Proof.
  intros Hr op rid rpc e s. unfold fail_with. cbv zeta.
  enough (H : ledger (match op with OpKind.PairingOpen => match rid with Some r => end_pairing r s | None => s end
    | OpKind.QueuePush node (Some origin) => shell_respond node (shell_failure (so_rpc origin) (NotQueued e)) s
    | OpKind.NodeUpdate _ => if serial_up (fst s) then relist s else s | _ => s end) = (ledger s + enqueues op)%nat)
    by (destruct rpc; autorewrite with ledger; apply H).
  destruct op as [| | | | | | | |node [o|]| | | | |]; cbn [enqueues]; try (apply plus_n_O).
  - destruct (serial_up _); [rewrite Hr|]; apply plus_n_O.
  - destruct rid; autorewrite with ledger; apply plus_n_O.
  - by rewrite ledger_shell_respond.
Qed.
Lemma relist_ledger s : ledger (relist s) = ledger s.
Proof. unfold relist. rewrite issue_with_ledger; [symmetry; apply plus_n_O | by apply fail_with_ledger]. Qed.
Lemma fail_op_ledger : fails fail_op.
Proof. apply fail_with_ledger, relist_ledger. Qed.
Lemma issue_delayed_ledger kind op rpc t s : ledger (fst (issue_delayed kind op rpc t s)) = (ledger s + enqueues kind)%nat.
Proof. apply issue_with_ledger, fail_op_ledger. Qed.
Lemma issue__ledger kind op rpc s : ledger (issue_ kind op rpc s) = (ledger s + enqueues kind)%nat.
Proof. apply issue_delayed_ledger. Qed.
Lemma issue_0 kind op rpc s : enqueues kind = O -> ledger (issue_ kind op rpc s) = ledger s.
Proof. intros H. rewrite issue__ledger. lia. Qed.
Lemma list_nodes_ledger s : ledger (list_nodes s) = ledger s.
Proof. by apply issue_0. Qed.
#[local] Hint Rewrite list_nodes_ledger ledger_send : ledger.

(** ** Frames *)

Lemma on_node_info_ledger src info s : ledger (on_node_info src info s) = ledger s.
Proof.
  unfold on_node_info. destruct (position _ _) as [i|]; [|done]. cbv zeta. still.
  match goal with |- context [if ?b then (match issue ?k ?op None ?x with _ => _ end) else _] => set (s0 := x) end.
  assert (H0 : ledger (on_nodes (alter (fun n => set_info n (kind_of (lit (info_firmware_name info))) (Some (info_session_id info))) i) s) = ledger s) by (by apply ledger_alter).
  destruct (has_flag _ _); [|destruct (negb _); [|done]].
  - match goal with |- context [issue ?k ?op None s0] => pose proof (issue_delayed_ledger k op None MGMT_TIMEOUT_TICKS s0) as H;
      fold (issue k op None s0) in H; destruct (issue k op None s0) as [s1 [r|]] end; cbn [fst enqueues] in H;
      rewrite ?ledger_alter by done; unfold s0 in H; rewrite H; still; lia.
  - match goal with |- context [issue ?k ?op None ?x] => pose proof (issue_delayed_ledger k op None MGMT_TIMEOUT_TICKS x) as H;
      fold (issue k op None x) in H; destruct (issue k op None x) as [s1 [r|]] end; cbn [fst enqueues] in H;
      rewrite ?ledger_alter by done; rewrite H; lia.
Qed.
Lemma on_pending_ledger i g pi s : (forall p, ps_rpc (g p) = ps_rpc p) -> ledger (on_pending i (alter g pi) s) = ledger s.
Proof.
  intros Hg. apply ledger_nodes. apply sum_alter_same. intros n. cbn [set_pending nm_pending]. apply sum_alter_same. intros p. unfold is_dialog. by rewrite Hg.
Qed.
Lemma row_pending i (s : St) pi p : match nodes (fst s) !! i with Some n => nm_pending n | None => [] end !! pi = Some p ->
  exists n, nodes (fst s) !! i = Some n /\ nm_pending n !! pi = Some p.
Proof. destruct (nodes (fst s) !! i) as [n|]; [eauto | done]. Qed.
Lemma drop_dialog_ledger i pi n p s : nodes (fst s) !! i = Some n -> nm_pending n !! pi = Some p ->
  (ledger (on_pending i (delete pi) s) + is_dialog p = ledger s)%nat.
Proof.
  intros Hn Hp. pose proof (ledger_on_pending i (delete pi) s n Hn). pose proof (sum_delete is_dialog _ _ _ Hp). unfold dialogs in *. lia.
Qed.
Lemma on_shell_chunk_ledger src c s : ledger (on_shell_chunk src c s) = ledger s.
Proof.
  unfold on_shell_chunk. destruct (position _ _) as [i|]; [|done]. cbv zeta. destruct (index_where _ _) as [pi|]; [|by still].
  match goal with |- context [on_pending i (alter (fun p => set_progress p (Some (tick (fst ?x))) _ _ _) pi) ?x] => set (s1 := x) end.
  assert (H1 : ledger s1 = ledger s).
  { unfold s1. destruct (_ !! pi) as [p|]; [|done]. destruct (ps_queued p); [|done]. rewrite issue_0 by done. by apply on_pending_ledger. }
  clearbody s1. rewrite <- H1. set (s2 := on_pending i _ s1). assert (H2 : ledger s2 = ledger s1) by (by apply on_pending_ledger).
  clearbody s2. rewrite <- H2. case_match eqn:E; [|done]. apply row_pending in E as (n & Hn & Hp).
  destruct (chunk_last c); [|rewrite ledger_shell_respond; cbn; lia]. still.
  match goal with |- ledger (on_pending i _ ?x) = _ => pose proof (drop_dialog_ledger i pi n p x Hn Hp) as Hd end.
  rewrite ledger_shell_respond in Hd. cbn [rs_done rs_id andb] in Hd. unfold is_dialog in Hd. lia.
Qed.
Lemma on_node_msg_ledger src counter data s : ledger (on_node_msg src counter data s) = ledger s.
Proof. unfold on_node_msg. destruct (decode_node_msg data) as [[]|[]]; first [apply on_node_info_ledger | apply on_shell_chunk_ledger | by still]. Qed.
Lemma touch_open src rssi e : open_rows (nodes (touch_node src rssi e)) = open_rows (nodes e).
Proof. unfold touch_node. cbn [set_nodes nodes]. by apply open_rows_update. Qed.
Lemma on_uplink_ledger u s : ledger (on_uplink u s) = ledger s.
Proof.
  assert (Ha : ledger (accept_uplink u s) = ledger s).
  { unfold accept_uplink. cbv zeta. rewrite on_node_msg_ledger. still. rewrite <- (ledger_update (hu_src u) (fun n => set_last_counter n (Some (hu_counter u))) s) by done.
    set (s1 := on_nodes _ s). unfold ledger, open, on_engine. cbn [fst snd]. by rewrite touch_open. }
  unfold on_uplink. destruct (find_node _ _) as [n|].
  - destruct (nm_last_counter n); [|done]. destruct (_ <=? _); [by still | done].
  - destruct (negb _); [destruct (_ <? _); by still|]. unfold drop_unregistered, count_unregistered.
    destruct (List.find _ _) as [[a c]|]; destruct (strip_zeros _ _ =? 1); by still.
Qed.
Lemma on_queue_outcome_ledger node item outcome s : ledger (on_queue_outcome node item outcome s) = ledger s.
Proof.
  unfold on_queue_outcome. destruct (position _ _) as [i|]; [|done]. cbv zeta. destruct (index_where _ _) as [pi|]; [|done].
  destruct (_ =? TX_DELIVERED); [by apply on_pending_ledger|]. destruct (_ =? TX_EXPIRED); [|done]. case_match eqn:E.
  - apply row_pending in E as (n & Hn & Hp). still. rewrite ledger_shell_error. by apply (drop_dialog_ledger i pi n).
  - unfold on_pending. apply ledger_nodes. destruct (nodes (fst s) !! i) as [n|] eqn:En; [|by apply sum_alter_None].
    pose proof (sum_alter (fun n => dialogs (nm_pending n)) (fun n => set_pending n (delete pi (nm_pending n))) _ _ _ En) as H.
    cbn [set_pending nm_pending] in H. assert (delete pi (nm_pending n) = nm_pending n) as Hd; [|rewrite Hd in H; unfold open_rows; lia].
    clear -E. revert pi E. induction (nm_pending n) as [|p l IH]; intros [|pi] E; try done. change (delete (S pi) (p :: l)) with (p :: delete pi l). f_equal. by apply IH.
Qed.
Lemma on_radio_stat_ledger stat s : ledger (on_radio_stat stat s) = ledger s.
Proof.
  unfold on_radio_stat. cbv zeta. destruct stat; [by still|]. destruct (negb _); [rewrite on_queue_outcome_ledger|]; by still.
Qed.

(** ** A listing *)

Definition listed (l : list NodeMirror) (n : NodeMirror) : bool := existsb (fun m => addr_of m =? addr_of n) l.
(** The old rows as the merge leaves them, and the new ones. *)
Definition merged (fresh : list NodeEntry) (e : Engine) : list NodeMirror * list NodeMirror :=
  merge_entries (updating_nodes (pending_mgmt e)) (nodes e) fresh.
(** Dialogs left on an old row that is listed still: none, when the mirror has each node once. *)
Definition orphans (fresh : list NodeEntry) (e : Engine) : nat :=
  let '(old, next) := merged fresh e in open_rows (List.filter (listed next) old).
Lemma open_rows_app a b : open_rows (a ++ b) = (open_rows a + open_rows b)%nat.
Proof. apply sum_list_with_app. Qed.
Lemma open_rows_take a f l n : find_node a l = Some n -> (forall n, nm_pending (f n) = []) ->
  (open_rows (update_node a f l) + dialogs (nm_pending n) = open_rows l)%nat.
Proof.
  unfold find_node, open_rows. intros H Hf. induction l as [|m l IH]; [done|]. cbn [List.find update_node] in *. destruct (addr_of m =? a).
  - injection H as ->. cbn. rewrite Hf. change (dialogs []) with O. lia.
  - cbn. specialize (IH H). lia.
Qed.
Lemma merge_entry_open updating old entry : let '(old', n) := merge_entry updating old entry in
  (open_rows old' + dialogs (nm_pending n) = open_rows old)%nat.
Proof.
  unfold merge_entry. destruct (find_node _ _) as [o|] eqn:E; [|apply Nat.add_0_r]. cbn [nm_pending]. by apply open_rows_take.
Qed.
Lemma merge_entries_open updating fresh : forall old next0, let '(old', next) := fold_left (fun '(old, next) entry =>
    let '(old, n) := merge_entry updating old entry in (old, next ++ [n])) fresh (old, next0) in
  (open_rows old' + open_rows next = open_rows old + open_rows next0)%nat.
Proof.
  induction fresh as [|entry fresh IH]; intros old next0; [done|]. cbn [fold_left]. pose proof (merge_entry_open updating old entry) as H.
  destruct (merge_entry updating old entry) as [old1 n]. specialize (IH old1 (next0 ++ [n])). destruct (fold_left _ _ _) as [old2 next2].
  rewrite open_rows_app in IH. change (open_rows [n]) with (dialogs (nm_pending n) + 0)%nat in IH. lia.
Qed.
Lemma merge_ledger fresh s : (ledger (merge_registry fresh s) + orphans fresh (fst s) = ledger s)%nat.
Proof.
  unfold merge_registry, orphans, merged. pose proof (merge_entries_open (updating_nodes (pending_mgmt (fst s))) fresh (nodes (fst s)) []) as H.
  unfold merge_entries. destruct (fold_left _ _ _) as [old next]. cbv zeta. still. rewrite ledger_each by (intros; by still).
  assert (Hg : forall l s, ledger (fold_left (fun s gone => node_gone (addr_of gone) (nm_pending gone) s) l s) = (ledger s + open_rows l)%nat).
  { clear. induction l as [|n l IH]; intros s; [apply plus_n_O|]. cbn [fold_left]. rewrite IH, ledger_node_gone. unfold open_rows. cbn [sum_list_with]. lia. }
  rewrite Hg. rewrite ledger_split. cbn [on_engine fst snd set_nodes nodes pending_mgmt].
  assert (Hf : (open_rows (List.filter (fun o => forallb (fun n => negb (addr_of n =? addr_of o)%Z) next) old) + open_rows (List.filter (listed next) old) = open_rows old)%nat).
  { clear. unfold open_rows. induction old as [|o old IH]; [done|]. cbn [List.filter]. assert (Hl : forallb (fun n => negb (addr_of n =? addr_of o)%Z) next = negb (listed next o)).
    { clear. unfold listed. induction next as [|n next IH]; [done|]. cbn. rewrite IH. by destruct (_ =? _). }
    rewrite Hl. destruct (listed next o); cbn [negb sum_list_with]; lia. }
  rewrite ledger_split. change (open_rows []) with O in H. lia.
Qed.
Lemma find_addr a l n : find_node a l = Some n -> addr_of n = a.
Proof. intros H. apply List.find_some in H as [_ H]. by bool_hyps. Qed.
Lemma update_addrs a f l : (forall n, addr_of (f n) = addr_of n) -> map addr_of (update_node a f l) = map addr_of l.
Proof. intros H. induction l as [|n l IH]; [done|]. cbn. destruct (addr_of n =? a); cbn; [by rewrite H | by rewrite IH]. Qed.
(** In a mirror with each node once, what is listed has been taken over. *)
Definition taken (old next : list NodeMirror) : Prop :=
  List.NoDup (map addr_of old) /\ forall n, In n old -> listed next n = true -> nm_pending n = [].
Lemma update_In a f l n : List.NoDup (map addr_of l) -> (forall n, addr_of (f n) = addr_of n) -> In n (update_node a f l) ->
  (addr_of n = a /\ exists m, In m l /\ n = f m) \/ (addr_of n <> a /\ In n l).
Proof.
  intros Hn Hf. induction l as [|m l IH]; [done|]. cbn [map update_node] in *. inversion Hn as [|? ? Hm Hl]; subst. destruct (addr_of m =? a) eqn:E; bool_hyps.
  - intros [<-|H]; [left; rewrite Hf; split; [done | exists m; split; [by left | done]]|]. right. split; [|by right].
    intros E'. apply Hm. rewrite E, <- E'. by apply in_map.
  - intros [<-|H]; [right; split; [done | by left]|]. destruct (IH Hl H) as [[A (x & B & C)]|[A B]]; [left | right].
    + split; [done|]. exists x. split; [by right | done].
    + split; [done | by right].
Qed.
Lemma merge_entry_taken updating old next entry : taken old next ->
  let '(old', n) := merge_entry updating old entry in taken old' (next ++ [n]) .
Proof.
  intros [Hn Ht]. unfold merge_entry. destruct (find_node _ _) as [o|] eqn:E.
  - set (f := fun o => set_pending _ []). assert (Hfa : forall n, addr_of (f n) = addr_of n) by (intros; unfold f; by destruct (existsb _ _)).
    split; [by rewrite update_addrs|]. intros n Hin Hl. destruct (update_In _ _ _ _ Hn Hfa Hin) as [[_ (m & _ & ->)]|[Ha Hin']]; [done|].
    apply Ht; [done|]. unfold listed in *. rewrite existsb_app in Hl. apply orb_true_iff in Hl as [Hl|Hl]; [done|].
    cbn [existsb] in Hl. rewrite orb_false_r in Hl. apply Z.eqb_eq in Hl. exfalso. apply Ha. rewrite <- Hl. unfold addr_of at 1. cbn [nm_entry].
    by destruct (existsb _ _).
  - split; [done|]. intros n Hin Hl. unfold listed in *. rewrite existsb_app in Hl. apply orb_true_iff in Hl as [Hl|Hl]; [by apply Ht|].
    cbn [existsb] in Hl. rewrite orb_false_r in Hl. apply Z.eqb_eq in Hl. unfold addr_of at 1 in Hl. cbn [nm_entry] in Hl.
    pose proof (List.find_none _ _ E n Hin) as Hc. cbn in Hc. by rewrite <- Hl, Z.eqb_refl in Hc.
Qed.
Lemma merge_entries_taken updating fresh : forall old next0, taken old next0 ->
  let '(old', next) := fold_left (fun '(old, next) entry => let '(old, n) := merge_entry updating old entry in (old, next ++ [n])) fresh (old, next0) in
  taken old' next.
Proof.
  induction fresh as [|entry fresh IH]; intros old next0 H; [done|]. cbn [fold_left]. pose proof (merge_entry_taken updating old next0 entry H) as H1.
  destruct (merge_entry updating old entry) as [old1 n]. by apply IH.
Qed.
Lemma no_orphans fresh e : List.NoDup (map addr_of (nodes e)) -> orphans fresh e = O.
Proof.
  intros H. unfold orphans, merged, merge_entries. pose proof (merge_entries_taken (updating_nodes (pending_mgmt e)) fresh (nodes e) []) as Hm.
  destruct (fold_left _ _ _) as [old next]. destruct Hm as [_ Hm]; [by split|]. unfold open_rows.
  assert (Hp : Forall (fun n => nm_pending n = []) (List.filter (listed next) old)).
  { apply List.Forall_forall. intros n Hin. apply filter_In in Hin as [Hin Hl]. by apply Hm. }
  induction Hp as [|n l Hn _ IH]; [done|]. cbn [sum_list_with]. by rewrite Hn, IH.
Qed.

(** ** Answers *)

(** What an answer [data] to [op] carried out loses: the dialog of an enqueue whose id does not decode, or
    whose node has no row. *)
Definition lost (op : OpKind.OpKind) (truncated : bool) (data : list Z) (e : Engine) : nat :=
  match op with
  | OpKind.NodeList => if truncated then O else orphans (parse_records data) e
  | OpKind.QueuePush node (Some _) =>
      match (from_bytes data : option QueueId), position node (nodes e) with Some _, Some _ => O | _, _ => enqueues op end
  | _ => O
  end.
Lemma position_lookup a l i : position a l = Some i -> exists n, l !! i = Some n /\ addr_of n = a.
Proof.
  revert i. induction l as [|n l IH]; intros i H; [done|]. cbn [position] in H. destruct (addr_of n =? a) eqn:E; bool_hyps.
  - injection H as <-. by exists n.
  - destruct (position a l) as [j|]; [|done]. injection H as <-. by apply IH.
Qed.
Lemma ledger_provisional a name flags s : ledger (on_engine (provisional_node a name flags) s) = ledger s.
Proof.
  unfold ledger, open, on_engine. cbn [fst snd]. unfold provisional_node. destruct (existsb _ (nodes (fst s))); [done|].
  cbn [set_nodes nodes pending_mgmt]. rewrite open_rows_app. change (open_rows [_]) with O. lia.
Qed.
Lemma on_paired_ledger j late s : ledger (fst (on_paired j late s)) = ledger s.
Proof. unfold on_paired. cbn [fst]. still. apply ledger_provisional. Qed.
Lemma reconcile_ledger d s : ledger (reconcile_queue d s) = ledger s.
Proof.
  unfold reconcile_queue. cbv zeta. set (s1 := each_node _ s). assert (H1 : ledger s1 = ledger s) by (apply ledger_each; intros; by still).
  case_bool_decide; [done|]. still. rewrite ledger_fold by (intros ? [? ?]; by apply issue_0). by still.
Qed.
Lemma on_mgmt_ok_ledger p s :
  (ledger (on_mgmt_ok p s) + lost (pm_op p) (pm_truncated p) (pm_data p) (fst s) = ledger s + enqueues (pm_op p))%nat.
Proof.
  unfold on_mgmt_ok, lost. destruct (pm_op p) as [| |a name|a|a|a| | |node [o|]| | |node| |] eqn:Eop; cbn [enqueues]; rewrite ?Nat.add_0_r; try by still.
  - destruct (from_bytes (pm_data p)); by still.
  - destruct (pm_truncated p).
    + cbv zeta. destruct (_ && _); still; by rewrite Nat.add_0_r.
    + cbv zeta. set (s0 := on_engine (fun e => set_list_gaps e 0) s).
      pose proof (merge_ledger (parse_records (pm_data p)) s0) as Hm. change (orphans ?f (fst s0)) with (orphans f (fst s)) in Hm.
      assert (H0 : ledger s0 = ledger s) by (by still). set (s1 := merge_registry _ s0) in *. set (s2 := rpc_ok p _ s1).
      assert (H2 : ledger s2 = ledger s1) by (unfold s2; by still).
      destruct (negb _); [rewrite ledger_fold by (intros; apply on_uplink_ledger); still|]; lia.
  - cbv zeta. still. rewrite ledger_update by done. rewrite ledger_provisional. by still.
  - destruct (position _ _) as [i|] eqn:Ep; still; rewrite ledger_node_gone; [|change (dialogs []) with O; lia].
    apply position_lookup in Ep as (n & Hn & _). rewrite Hn. rewrite !ledger_split. cbn [on_nodes on_engine fst snd set_nodes nodes pending_mgmt].
    pose proof (sum_delete (fun n => dialogs (nm_pending n)) _ _ _ Hn) as Hd. unfold open_rows. cbn beta in Hd. lia.
  - destruct (from_bytes (pm_data p)); by still.
  - cbv zeta. set (s1 := if bool_decide (pairing_req (fst s) = Some (pm_req_id p)) then on_engine (fun e => set_pairing e None None) s else s).
    assert (H1 : ledger s1 = ledger s) by (unfold s1; case_bool_decide; by still). rewrite <- H1. destruct (from_bytes (pm_data p)) as [j|].
    + pose proof (on_paired_ledger j false s1) as Hp. destruct (on_paired j false s1) as [s2 js]. by still.
    + still. case_bool_decide; by still.
  - destruct (from_bytes (pm_data p)) as [q|]; [|still; lia]. cbv zeta. still. destruct (position node (nodes (fst s))) as [i|] eqn:Ep; [|lia].
    apply position_lookup in Ep as (n & Hn & _). still.
    match goal with |- context [on_pending i ?f s] => pose proof (ledger_on_pending i f s n Hn) as Hl end. cbn beta in Hl. rewrite dialogs_app in Hl.
    unfold dialogs at 3 in Hl. cbn [sum_list_with is_dialog ps_rpc] in Hl. unfold is_dialog in Hl. cbn [ps_rpc] in Hl. lia.
  - destruct (from_bytes (pm_data p)); by still.
  - destruct (pm_truncated p); [done | apply reconcile_ledger].
  - cbv zeta. still. destruct (position _ _); by still.
Qed.
Lemma on_mgmt_refused_ledger p result e s : ledger (on_mgmt_refused p result e s) = (ledger s + enqueues (pm_op p))%nat.
Proof.
  unfold on_mgmt_refused. cbv zeta. destruct (pm_op p) as [| |a name|a|a|a| | |node [o|]| | |node| |] eqn:Eop; cbn [enqueues]; rewrite ?Nat.add_0_r; try by still.
  - destruct (_ =? _); by still.
  - still. by rewrite ledger_shell_respond.
Qed.
Lemma on_mgmt_done_ledger p result s : (ledger (on_mgmt_done p result s)
  + (if (result =? MGMT_OK)%Z then lost (pm_op p) (pm_truncated p) (pm_data p) (fst s) else O) = ledger s + enqueues (pm_op p))%nat.
Proof.
  unfold on_mgmt_done, mgmt_error_str. cbv zeta. destruct (result =? MGMT_OK); destruct (pm_truncated p) eqn:E; still;
    rewrite ?on_mgmt_refused_ledger; try lia; rewrite <- E; apply on_mgmt_ok_ledger.
Qed.
Lemma open_requests_alter f i l : (forall p, pm_op (f p) = pm_op p) -> open_requests (alter f i l) = open_requests l.
Proof. intros H. apply sum_alter_same. intros p. by rewrite H. Qed.
Definition chunk_lost (req_id result chunk : Z) (last : bool) (data : list Z) (e : Engine) : nat :=
  match index_where (fun p => pm_req_id p =? req_id) (pending_mgmt e) with
  | Some i =>
      match pending_mgmt e !! i with
      | Some p =>
          let p := add_chunk p chunk data in
          if last && (result =? MGMT_OK)
          then lost (pm_op p) (pm_truncated p) (pm_data p)
                 (set_pending_mgmt e (delete i (alter (fun p => add_chunk p chunk data) i (pending_mgmt e))))
          else O
      | None => O
      end
  | None => O
  end.
Lemma on_mgmt_chunk_ledger req_id result chunk last data s :
  (ledger (on_mgmt_chunk req_id result chunk last data s) + chunk_lost req_id result chunk last data (fst s) = ledger s)%nat.
Proof.
  unfold on_mgmt_chunk, chunk_lost. destruct (index_where _ _) as [i|].
  - cbv zeta. set (s1 := on_engine (fun e => set_pending_mgmt e (alter _ i _)) s).
    assert (H1 : ledger s1 = ledger s) by (unfold s1; rewrite ledger_pending, open_requests_alter by done; by rewrite ledger_split).
    assert (Hl : pending_mgmt (fst s1) !! i = (fun p => add_chunk p chunk data) <$> (pending_mgmt (fst s) !! i)) by (apply list_lookup_alter_eq).
    destruct (pending_mgmt (fst s) !! i) as [p|]; cbn [fmap option_fmap option_map] in Hl.
    + destruct last; cbn [negb andb]; [|lia]. rewrite Hl. still.
      match goal with |- context [on_mgmt_done ?q result ?x] => pose proof (on_mgmt_done_ledger q result x) as Hd; set (s2 := x) in * end.
      assert (H2 : (ledger s2 + enqueues (pm_op (add_chunk p chunk data)) = ledger s1)%nat).
      { unfold s2. rewrite ledger_pending, ledger_split. pose proof (sum_delete (fun p => enqueues (pm_op p)) _ _ _ Hl) as Hs. unfold open_requests. cbn beta in Hs. lia. }
      change (fst s2) with (set_pending_mgmt (fst s) (delete i (alter (fun p => add_chunk p chunk data) i (pending_mgmt (fst s))))) in Hd.
      destruct (result =? MGMT_OK); lia.
    + destruct last; cbn [negb]; [rewrite Hl|]; lia.
  - destruct (last && _); [|lia]. unfold on_late_pairing. destruct (negb _); [still; lia|]. destruct (from_bytes data); [rewrite on_paired_ledger|]; still; lia.
Qed.

(** ** Every input *)

Lemma on_serial_ledger msg s : (ledger (on_serial msg s)
  + (match msg with SMgmt req_id result chunk last data => chunk_lost req_id result chunk last data (fst s) | _ => O end) = ledger s)%nat.
Proof.
  destruct msg as [name version session|line|src counter rssi lqi data|req_id result chunk last data|stat|count|]; cbn [on_serial];
    [|still; lia|rewrite on_uplink_ledger; lia|apply on_mgmt_chunk_ledger|rewrite on_radio_stat_ledger; lia|still; lia|still; lia].
  cbv zeta. still. rewrite Nat.add_0_r. destruct (negb _); [|by still]. still. rewrite issue_0 by done.
  rewrite ledger_each by (intros; by still). by still.
Qed.
(** Whether the request is this one. *)
Definition is_request (i : list Z) : nat := if bool_decide (i = id) then 1%nat else O.
Lemma on_shell_req_ledger node req s : ledger (on_shell_req node req s) = (ledger s + is_request (sr_id req))%nat.
Proof.
  assert (Hf : forall e s, ledger (shell_respond node (shell_failure (sr_id req) e) s) = (ledger s + is_request (sr_id req))%nat)
    by (intros; by rewrite ledger_shell_respond).
  unfold on_shell_req. cbv zeta. destruct (forallb _ _); [apply Hf|]. destruct (_ <? _)%Z; [apply Hf|].
  destruct (encode_node_cmd _ _) as [env [n|]]; [|rewrite Hf; by still]. rewrite issue__ledger. by still.
Qed.
Lemma issue_pair_ledger kind op rpc s s' r : issue kind op rpc s = (s', r) -> enqueues kind = O -> ledger s' = ledger s.
Proof. intros H Hk. pose proof (issue_delayed_ledger kind op rpc MGMT_TIMEOUT_TICKS s) as Hi. fold (issue kind op rpc s) in Hi. rewrite H in Hi. cbn [fst] in Hi. lia. Qed.
Lemma on_rpc_ledger req origin s : ledger (on_rpc req origin s) = ledger s.
Proof.
  unfold on_rpc, rpc_node_add, rpc_node_remove, rpc_node_rename, rpc_reveal_key, rpc_node_add_ota, rpc_pairing_cancel, rpc_queue_list, rpc_queue_drop, rpc_stats_config.
  cbv zeta.
  repeat match goal with |- context [if bool_decide (rq_op req = ?x) then _ else _] => destruct (bool_decide (rq_op req = x)) end;
    try (by apply issue_0); try (repeat case_match; first [by apply issue_0 | by still | idtac]).
  - match goal with H : issue _ _ _ _ = _ |- _ => apply issue_pair_ledger in H as <-; [|done] end. by apply ledger_update.
  - by match goal with H : issue _ _ _ _ = _ |- _ => apply issue_pair_ledger in H as <- end.
  - match goal with H : issue_delayed ?k ?o ?r ?t s = _ |- _ => pose proof (issue_delayed_ledger k o r t s) as Hi; rewrite H in Hi end.
    still. cbn [fst enqueues] in Hi. lia.
  - match goal with H : issue_delayed ?k ?o ?r ?t s = _ |- _ => pose proof (issue_delayed_ledger k o r t s) as Hi; rewrite H in Hi end.
    cbn [fst enqueues] in Hi. lia.
  - rewrite issue_0 by done. by still.
  - rewrite issue_0 by done. by still.
  - rewrite issue_0 by done. by still.
  - rewrite issue_0 by done. by still.
Qed.
Lemma time_out_ledger i s : ledger (fst (time_out i s)) = ledger s.
Proof.
  unfold time_out. destruct (pending_mgmt (fst s) !! i) as [p|] eqn:E; [|done]. cbn [fst]. rewrite fail_op_ledger.
  set (s1 := on_engine (fun e => set_pending_mgmt e (delete i (pending_mgmt e))) s).
  assert (H1 : (ledger s1 + enqueues (pm_op p) = ledger s)%nat).
  { unfold s1. rewrite ledger_pending, ledger_split. pose proof (sum_delete (fun p => enqueues (pm_op p)) _ _ _ E) as Hs. unfold open_requests. cbn beta in Hs. lia. }
  destruct (is_pairing_open _); still; lia.
Qed.
Lemma on_tick_ledger s : ledger (on_tick s) = ledger s.
Proof.
  unfold on_tick. set (s0 := on_engine _ s). assert (H0 : ledger s0 = ledger s) by (by still).
  assert (Hf : forall l a, ledger (fst (fold_left (fun '(s, resync) i => let '(s, r) := time_out i s in (s, resync || r)) l a)) = ledger (fst a)).
  { clear. induction l as [|i l IH]; intros [s b]; [done|]. cbn [fold_left]. rewrite IH. pose proof (time_out_ledger i s) as H. by destruct (time_out i s). }
  pose proof (Hf (expired_requests (fst s0)) (s0, false)) as H1. fold (time_out_all s0) in H1. destruct (time_out_all s0) as [s1 resync]. cbn [fst] in H1.
  cbv zeta. set (s2 := send_next_mgmt (if resync then sync_queue s1 else s1)).
  assert (H2 : ledger s2 = ledger s) by (unfold s2; rewrite ledger_send; destruct resync; unfold sync_queue; rewrite ?issue_0 by done; lia).
  set (s3 := if negb (registry_synced (fst s2)) && _ && _ then list_nodes s2 else s2). assert (H3 : ledger s3 = ledger s) by (unfold s3; destruct (_ && _); by still).
  set (s4 := each_node _ s3). assert (H4 : ledger s4 = ledger s) by (unfold s4; rewrite ledger_each by (intros; by still); done).
  destruct (pairing_until _), (_ =? 0)%Z; by still.
Qed.
Lemma fail_unsent_ledger s : ledger (fail_unsent_mgmt s) = ledger s.
Proof.
  unfold fail_unsent_mgmt. pose proof (sum_filter (fun p => enqueues (pm_op p)) (fun p => if pm_frame p then true else false) (pending_mgmt (fst s))) as H.
  destruct (List.partition _ _) as [unsent sent].
  assert (Hf : forall l s, ledger (fold_left (fun s p => fail_op (pm_op p) (Some (pm_req_id p)) (pm_rpc p) LinkDown s) l s) = (ledger s + open_requests l)%nat).
  { clear. induction l as [|p l IH]; intros s; [apply plus_n_O|]. cbn [fold_left]. rewrite IH, fail_op_ledger. unfold open_requests. cbn [sum_list_with]. lia. }
  rewrite Hf, ledger_pending, ledger_split. unfold open_requests. lia.
Qed.
(** The input is this remote-shell request. *)
Definition asks_shell (input : Input) (e : Engine) : nat :=
  match input with
  | Frontend (FShell _ req) => is_request (sr_id req)
  | MqttIn topic data retain => match accepted topic data retain e with Some (inr (_, req)) => is_request (sr_id req) | _ => O end
  | _ => O
  end.
Definition loses (input : Input) (e : Engine) : nat :=
  match input with SerialFrame (SMgmt req_id result chunk last data) => chunk_lost req_id result chunk last data e | _ => O end.
Lemma refused_ended topic out : Forall (refusal topic) out -> ended out = O.
Proof. induction 1 as [|o out [[l ->]| ->] _ IH]; [done | |]; unfold ended in *; cbn [sum_list_with ends]; by rewrite IH. Qed.
Lemma handle_ledger input e : (ledger (handle input e) + loses input e = open e + asks_shell input e)%nat.
Proof.
  assert (H0 : ledger (e, []) = open e) by done.
  destruct input as [| |msg| | |topic data retain|[req|node req]|]; cbn [handle asks_shell loses].
  - cbv zeta. unfold link_event, sync_queue. still. rewrite !issue_0 by done. by still.
  - cbv zeta. rewrite fail_unsent_ledger. unfold link_event. by still.
  - pose proof (on_serial_ledger msg (e, [])) as H. destruct msg; cbn [fst] in H; lia.
  - cbv zeta. unfold link_event, subscribe_all. still. rewrite ledger_each by (intros; by still). by still.
  - cbv zeta. destruct (mqtt_up e); unfold link_event; by still.
  - pose proof (on_mqtt_spec topic data retain e) as H. destruct (accepted topic data retain e) as [[req|[node req]]|].
    + rewrite H. unfold run_command. rewrite on_rpc_ledger. by rewrite !Nat.add_0_r.
    + rewrite H. unfold run_command. rewrite on_shell_req_ledger. by rewrite Nat.add_0_r.
    + destruct H as (out & -> & Hout). unfold ledger. cbn [fst snd]. by rewrite (refused_ended topic).
  - rewrite on_rpc_ledger. lia.
  - rewrite on_shell_req_ledger. lia.
  - rewrite on_tick_ledger. lia.
Qed.
End Count.

(** ** The promises *)

Section Promises.
Context `{SC : Schemas} `{CB : Cobs} `{CC : ConsoleCodec} `{RC : RadioCodec} `{MC : MgmtCodec} `{JS : Json}.

(** A remote-shell request ends at most once: whatever comes in, the terminal responses published for a request id and its dialogs
    still open (being queued, or pending on a node) are at most the dialogs that were open, and one more when the input is that request.
    No reply, refusal, timeout, expiry, dequeue, reboot, removal or relisting ends a dialog twice or revives an ended one. *)
Theorem shell_ends_at_most_once id input e :
  (ended id (snd (handle input e)) + open id (fst (handle input e)) <= open id e + asks_shell id input e)%nat.
Proof. pose proof (handle_ledger id input e) as H. unfold ledger in H. lia. Qed.

(** The input is not the last chunk of an enqueue's confirmation, or the confirmation carries the queue's
    id and the node still has a row. Refusals and earlier chunks are no confirmations, whatever they carry. *)
Definition enqueue_understood (input : Input) (e : Engine) : Prop :=
  match input with
  | SerialFrame (SMgmt req_id result chunk last data) =>
      forall i p node o, index_where (fun p => pm_req_id p =? req_id) (pending_mgmt e) = Some i -> pending_mgmt e !! i = Some p ->
        pm_op p = OpKind.QueuePush node (Some o) -> last = true -> result = MGMT_OK ->
        (from_bytes (pm_data p ++ data) : option QueueId) <> None /\ position node (nodes e) <> None
  | _ => True
  end.
Lemma understood_loses_nothing id input e : List.NoDup (map addr_of (nodes e)) -> enqueue_understood input e -> loses id input e = O.
Proof.
  intros Hn Hu. destruct input as [| |[| | |req_id result chunk last data| | |]| | | | |]; try done. cbn [loses enqueue_understood] in *. unfold chunk_lost.
  destruct (index_where _ _) as [i|] eqn:Ei; [|done]. destruct (pending_mgmt e !! i) as [p|] eqn:Ep; [|done]. specialize (Hu i p).
  destruct (last && _) eqn:El; [|done]. bool_hyps. unfold lost. cbn [add_chunk pm_op pm_data pm_truncated set_pending_mgmt nodes].
  destruct (pm_op p) as [| |a name|a|a|a| | |node [o|]| | |node| |] eqn:Eop; try done.
  - destruct (_ || _); [done|]. by rewrite no_orphans.
  - destruct (Hu node o eq_refl Ep eq_refl) as [Hd Hp]; [done.. |]. by destruct (from_bytes (pm_data p ++ data)), (position node (nodes e)).
Qed.
(** C13. No remote-shell request is dropped: in a mirror with each node once, unless the dongle confirms an enqueue (a last chunk with
    [MGMT_OK]) with an answer that carries no queue id or for a node the mirror does not have, every dialog that is no longer open after an input has had its terminal
    response, and a new request has opened its own or been answered. *)
Theorem shell_never_dropped id input e : List.NoDup (map addr_of (nodes e)) -> enqueue_understood input e ->
  (ended id (snd (handle input e)) + open id (fst (handle input e)) = open id e + asks_shell id input e)%nat.
Proof. intros Hn Hu. pose proof (handle_ledger id input e) as H. rewrite (understood_loses_nothing id) in H by done. unfold ledger in H. lia. Qed.

(** *** Expiry *)

Definition live_row (tick : Z) (n : NodeMirror) : Prop := Forall (fun p => expired_dialog tick p = false) (nm_pending n).
Lemma partition_keep {A} (f : A -> bool) l : Forall (fun x => f x = false) (snd (List.partition f l)).
Proof. induction l as [|x l IH]; [done|]. cbn. destruct (List.partition f l) as [a b]. destruct (f x) eqn:E; [done|]. by constructor. Qed.
Lemma nodes_push o s : nodes (fst (push o s)) = nodes (fst s) /\ tick (fst (push o s)) = tick (fst s).
Proof. done. Qed.
Lemma shell_errors_fst node l why : forall s, fst (shell_errors node l why s) = fst s.
Proof. induction l as [|p l IH]; intros s; [done|]. unfold shell_errors in *. cbn [fold_left]. by rewrite IH. Qed.
Lemma publish_pending_fst i s : fst (publish_pending i s) = fst s.
Proof. unfold publish_pending. by destruct (_ !! _). Qed.
Lemma end_dialogs_nodes dead why i s : let s' := end_dialogs false dead why i s in
  nodes (fst s') = alter (fun n => set_pending n (snd (List.partition (dead (addr_of n)) (nm_pending n)))) i (nodes (fst s))
  /\ tick (fst s') = tick (fst s).
Proof.
  cbv zeta. unfold end_dialogs. destruct (nodes (fst s) !! i) as [n|] eqn:E.
  - destruct (List.partition (dead (addr_of n)) (nm_pending n)) as [gone keep] eqn:Ep.
    assert (H : alter (fun n => set_pending n keep) i (nodes (fst s))
      = alter (fun n => set_pending n (snd (List.partition (dead (addr_of n)) (nm_pending n)))) i (nodes (fst s))).
    { apply (list_alter_ext _ _ _ (nodes (fst s))); [|done]. intros x Hx. rewrite E in Hx. injection Hx as <-. by rewrite Ep. }
    destruct (false || _); rewrite ?publish_pending_fst, ?shell_errors_fst; by split.
  - split; [|done]. symmetry. apply list_eq. intros j. destruct (decide (i = j)) as [->|Hij]; [by rewrite list_lookup_alter_eq, E | by rewrite list_lookup_alter_ne].
Qed.
(** No dialog outlives its time: after every tick, each dialog still open is either undelivered and within its queue TTL and grace, or
    delivered (or answered in part) less than [SHELL_REPLY_TIMEOUT_TICKS] ago; every other one has been ended by then. *)
Theorem no_dialog_outlives e : Forall (live_row (tick (fst (handle Tick e)))) (nodes (fst (handle Tick e))).
Proof.
  cbn [handle]. unfold on_tick. set (s0 := on_engine _ (e, [])). destruct (time_out_all s0) as [s1 resync]. cbv zeta.
  match goal with |- context [each_node ?f ?x] => set (s3 := x) end. clearbody s3. clear s0 s1 resync e.
  set (s4 := each_node _ s3). enough (Forall (live_row (tick (fst s4))) (nodes (fst s4))) as H by (destruct (pairing_until (fst s4)); case_match; done).
  set (f := fun i s => end_dialogs false (fun _ => expired_dialog (tick (fst s))) expiry_reason i s) in *.
  assert (H : forall l s, tick (fst (fold_left (fun s i => f i s) l s)) = tick (fst s) /\ forall j n,
    nodes (fst (fold_left (fun s i => f i s) l s)) !! j = Some n -> live_row (tick (fst s)) n \/ (~ In j l /\ nodes (fst s) !! j = Some n)).
  { clear. induction l as [|i l IH]; intros s; cbn [fold_left]; [split; [done | intros j n Hn; right; split; [by intros [] | done]]|].
    destruct (end_dialogs_nodes (fun _ => expired_dialog (tick (fst s))) expiry_reason i s) as [Hn Ht]. fold (f i s) in Hn, Ht.
    destruct (IH (f i s)) as [A B]. rewrite Ht in *. split; [done|]. intros j n Hj. destruct (B j n Hj) as [Hl|[Hin Hs]]; [by left|].
    rewrite Hn in Hs. destruct (decide (i = j)) as [->|Hij].
    - rewrite list_lookup_alter_eq in Hs. destruct (nodes (fst s) !! j) as [m|]; [|done]. cbn in Hs. injection Hs as <-. left. apply partition_keep.
    - rewrite list_lookup_alter_ne in Hs by done. right. split; [|done]. by intros [E|E]. }
  assert (Hlen : length (nodes (fst s4)) = length (nodes (fst s3))).
  { unfold s4, each_node. fold f. generalize (List.seq 0 (length (nodes (fst s3)))). clear. intros l. revert s3. induction l as [|i l IH]; intros s; [done|]. cbn [fold_left].
    rewrite IH. destruct (end_dialogs_nodes (fun _ => expired_dialog (tick (fst s))) expiry_reason i s) as [Hn _]. fold (f i s) in Hn. by rewrite Hn, length_alter. }
  destruct (H (List.seq 0 (length (nodes (fst s3)))) s3) as [Ht Hl]. apply Forall_lookup. intros j n Hj. unfold s4 in *. unfold each_node in *. fold f in Hj, Hlen |- *.
  rewrite Ht. destruct (Hl j n Hj) as [|[Hin _]]; [done|]. exfalso. apply Hin. apply in_seq. apply lookup_lt_Some in Hj. lia.
Qed.
End Promises.

Module Demo.
(** A shell line for node 5 on its way to the queue, then queued as item 9. *)
Definition queueing : Engine := fst (handle (MqttIn (node_shell_req (lit "tower/") 5) [3; 65] false) synced).
Definition line_id : list Z := [65].
Definition confirmation : Input := answer 3 MGMT_OK [9].
(** The dongle refuses the line instead, with nothing in its answer. *)
Definition refusal_of_line : Input := answer 3 MGMT_FULL [].
Lemma shell_never_dropped_witness : open line_id queueing = 1%nat
  /\ (ended line_id (snd (handle refusal_of_line queueing)) + open line_id (fst (handle refusal_of_line queueing))
     = open line_id queueing + asks_shell line_id refusal_of_line queueing)%nat
  /\ ended line_id (snd (handle refusal_of_line queueing)) = 1%nat
  /\ (ended line_id (snd (handle confirmation queueing)) + open line_id (fst (handle confirmation queueing))
     = open line_id queueing + asks_shell line_id confirmation queueing)%nat.
Proof.
  split; [vm_compute; reflexivity|]. split; [|split; [vm_compute; reflexivity|]]; apply shell_never_dropped.
  - vm_compute. repeat constructor. tauto.
  - cbn [enqueue_understood refusal_of_line answer]. intros i p node o _ _ _ _ H. vm_compute in H. discriminate H.
  - vm_compute. repeat constructor. tauto.
  - cbn [enqueue_understood confirmation answer]. intros i p node o Hi Hp Ho. vm_compute in Hi. injection Hi as <-. vm_compute in Hp. injection Hp as <-.
    vm_compute in Ho. injection Ho as <- _. intros _ _. split; vm_compute; discriminate.
Defined.
End Demo.
