(* ===== verification/GwSteps.v ===== *)
(** The gateway engine's management traffic as a small state machine (the requests queued and sent, the
    RPCs owed an answer, what was sent and answered), and the handlers as sequences of its steps. *)
From stdpp Require Import relations.
From S2P Require Import Prelude Bytes Str Proto Cobs Fingerprint Msg Frame RadioEnv Mgmt GwTopics GwState GwEngine GwHandle GwCommand.

#[local] Abbreviation St := (Engine * list Output)%type.

(** ** The machine *)

Record Traffic := {
  t_pending : list PendingMgmt; t_tick : Z; t_up : bool; t_owed : list RpcRef; t_sent : list (list Z); t_answered : list RpcRef;
  t_ids : list (list Z); t_prefix : list Z;
}.
Definition frame_of (o : Output) : option (list Z) := match o with SerialSend f => Some f | _ => None end.
(** The RPC an output answers. *)
Definition answer_of (o : Output) : option RpcRef :=
  match o with
  | EventOut (ERpc rsp) => Some {| ref_id := rr_id rsp; ref_origin := FromFrontend |}
  | Publish _ (PRpc rsp) _ => Some {| ref_id := rr_id rsp; ref_origin := FromMqtt |}
  | _ => None
  end.
Definition view (owed : list RpcRef) (s : St) : Traffic :=
  {| t_pending := pending_mgmt (fst s); t_tick := tick (fst s); t_up := serial_up (fst s); t_owed := owed;
     t_sent := omap frame_of (snd s); t_answered := omap answer_of (snd s);
     t_ids := recent_ids (fst s); t_prefix := prefix (fst s) |}.
Definition t_set (m : Traffic) (pending : list PendingMgmt) (owed : list RpcRef) : Traffic :=
  {| t_pending := pending; t_tick := t_tick m; t_up := t_up m; t_owed := owed; t_sent := t_sent m; t_answered := t_answered m;
     t_ids := t_ids m; t_prefix := t_prefix m |}.
Definition t_send (m : Traffic) : Traffic :=
  if existsb (holds_slot (t_tick m)) (t_pending m) then m
  else
    match send_first (t_tick m) (t_pending m) with
    | Some (f, l) => {| t_pending := l; t_tick := t_tick m; t_up := t_up m; t_owed := t_owed m; t_sent := t_sent m ++ [f];
                        t_answered := t_answered m; t_ids := t_ids m; t_prefix := t_prefix m |}
    | None => m
    end.
Definition t_answer (m : Traffic) (r : RpcRef) (owed : list RpcRef) : Traffic :=
  {| t_pending := t_pending m; t_tick := t_tick m; t_up := t_up m; t_owed := owed; t_sent := t_sent m; t_answered := t_answered m ++ [r];
     t_ids := t_ids m; t_prefix := t_prefix m |}.
(** The requests the engine makes on its own account: no RPC waits for them. *)
Definition internal (op : OpKind.OpKind) : bool := match op with OpKind.QueueSync | OpKind.QueueDropStale => true | _ => false end.
Definition waiting (p : PendingMgmt) : bool := if pm_frame p then true else false.
Definition fresh (p : PendingMgmt) : Prop :=
  waiting p = true /\ pm_deadline p = NEVER /\ pm_holds_slot_until p = NEVER /\ 0 < pm_timeout_ticks p
  /\ (internal (pm_op p) = true -> pm_rpc p = None).
(** The steps that leave the oldest request no reason to wait; [asked]: the RPCs that may become requests. *)
Inductive step (asked : list RpcRef) : Traffic -> Traffic -> Prop :=
| step_send m : step asked m (t_send m)
| step_issue m p o : t_up m = true -> fresh p -> t_owed m = option_list (pm_rpc p) ++ o ->
    (forall r, pm_rpc p = Some r -> In r asked) -> step asked m (t_send (t_set m (t_pending m ++ [p]) o))
| step_answer m r o : t_owed m = r :: o -> step asked m (t_answer m r o)
| step_chunk m i chunk data : step asked m (t_set m (alter (fun p => add_chunk p chunk data) i (t_pending m)) (t_owed m)).
(** A request leaves the list: answered, or timed out. *)
Definition t_take (m : Traffic) (i : nat) (p : PendingMgmt) : Traffic :=
  t_set m (delete i (t_pending m)) (option_list (pm_rpc p) ++ t_owed m).

(** ** What leaves the traffic alone *)

Create HintDb view.
Lemma view_push o x s : answer_of x = None -> frame_of x = None -> view o (push x s) = view o s.
Proof. intros A B. unfold view, push. cbn [fst snd]. rewrite !omap_app. cbn [omap list_omap]. by rewrite A, B, !app_nil_r. Qed.
Lemma view_engine o f s : pending_mgmt (f (fst s)) = pending_mgmt (fst s) -> tick (f (fst s)) = tick (fst s) ->
  serial_up (f (fst s)) = serial_up (fst s) -> recent_ids (f (fst s)) = recent_ids (fst s) -> prefix (f (fst s)) = prefix (fst s) ->
  view o (on_engine f s) = view o s.
Proof. intros A B C D E. unfold view, on_engine. cbn [fst snd]. by rewrite A, B, C, D, E. Qed.
Lemma view_log o l s : view o (log l s) = view o s.
Proof. by apply view_push. Qed.
Lemma view_fold {A} (f : St -> A -> St) o l : forall s, (forall s x, view o (f s x) = view o s) -> view o (fold_left f l s) = view o s.
Proof. induction l as [|x l IH]; intros s H; [done|]. cbn [fold_left]. by rewrite IH, H. Qed.
Lemma view_nodes o f s : view o (on_nodes f s) = view o s.
Proof. by apply view_engine. Qed.
Lemma view_pending o i f s : view o (on_pending i f s) = view o s.
Proof. apply view_nodes. Qed.
Lemma view_emit o s : view o (emit_registry s) = view o s.
Proof. by apply view_push. Qed.
Lemma view_each o f s : (forall i s, view o (f i s) = view o s) -> view o (each_node f s) = view o s.
Proof. intros H. apply view_fold. intros s' i. apply H. Qed.
#[local] Hint Rewrite view_log view_nodes view_pending view_emit : view.
Ltac quiet := repeat first [rewrite view_push by done | rewrite view_engine by done | progress autorewrite with view].
Lemma view_publish_node o i s : view o (publish_node i s) = view o s.
Proof. unfold publish_node. destruct (_ !! _); [|done]. by quiet. Qed.
Lemma view_publish_pending o i s : view o (publish_pending i s) = view o s.
Proof. unfold publish_pending. destruct (_ !! _); [|done]. by quiet. Qed.
Lemma view_publish_status o s : view o (publish_status s) = view o s.
Proof. unfold publish_status. by quiet. Qed.
Lemma view_publish_stats o s : view o (publish_stats s) = view o s.
Proof. unfold publish_stats. by quiet. Qed.
Lemma view_publish_pairing o j a s : view o (publish_pairing j a s) = view o s.
Proof. unfold publish_pairing, event. by quiet. Qed.
Lemma view_shell_respond o n r s : view o (shell_respond n r s) = view o s.
Proof. unfold shell_respond, event. by quiet. Qed.
#[local] Hint Rewrite view_publish_node view_publish_pending view_publish_status view_publish_stats view_publish_pairing view_shell_respond : view.
Lemma view_shell_errors o n l why s : view o (shell_errors n l why s) = view o s.
Proof. apply view_fold. intros. unfold shell_error. by quiet. Qed.
#[local] Hint Rewrite view_shell_errors : view.
Lemma view_end_dialogs o always dead why i s : view o (end_dialogs always dead why i s) = view o s.
Proof.
  unfold end_dialogs. destruct (_ !! _); [|done]. destruct (List.partition _ _) as [gone keep].
  destruct (always || _); by quiet.
Qed.
Lemma view_end_pairing o r s : view o (end_pairing r s) = view o s.
Proof. unfold end_pairing. case_bool_decide; by quiet. Qed.
Lemma view_node_gone o id l s : view o (node_gone id l s) = view o s.
Proof. unfold node_gone. rewrite view_fold by (intros; by quiet). by quiet. Qed.
#[local] Hint Rewrite view_end_dialogs view_end_pairing view_node_gone : view.
Lemma view_merge o fresh s : view o (merge_registry fresh s) = view o s.
Proof.
  unfold merge_registry. destruct (merge_entries _ _ _) as [old next]. quiet. rewrite view_each by (intros; by quiet).
  rewrite view_fold by (intros; by quiet). by quiet.
Qed.
Lemma view_provisional o a n f s : view o (on_engine (provisional_node a n f) s) = view o s.
Proof. apply view_engine; unfold provisional_node; by destruct (existsb _ _). Qed.
#[local] Hint Rewrite view_merge view_provisional : view.

(** ** The handlers, step by step *)

Notation steps asked := (rtc (step asked)).
Lemma steps_trans asked m n k : steps asked m n -> steps asked n k -> steps asked m k.
Proof. intros. by etrans. Qed.
Lemma steps_1 asked m n : step asked m n -> steps asked m n.
Proof. apply rtc_once. Qed.

Lemma steps_mono asked m n : steps [] m n -> steps asked m n.
Proof.
  induction 1 as [|m k n H _ IH]; [apply rtc_refl|]. eapply rtc_l; [|apply IH].
  destruct H as [| ? ? ? ? ? ? Ha | |]; [apply step_send | apply step_issue; try done; intros r E; by destruct (Ha r E) | by apply step_answer | apply step_chunk].
Qed.

Section Refine.
Context `{SC : Schemas} `{CB : Cobs} `{CC : ConsoleCodec} `{RC : RadioCodec} `{MC : MgmtCodec} `{JS : Json} (asked : list RpcRef).

Lemma view_send o s : view o (send_next_mgmt s) = t_send (view o s).
Proof.
  unfold send_next_mgmt, t_send. cbn [view t_tick t_pending]. destruct (existsb _ _); [done|].
  destruct (send_first _ _) as [[f l]|]; [|done]. unfold view, push, on_engine. cbn. rewrite !omap_app. cbn. by rewrite app_nil_r.
Qed.
Lemma steps_err r o e s : steps asked (view (r :: o) s) (view o (rpc_err_direct r e s)).
Proof.
  apply steps_1. eenough (view o _ = _) as ->; [by eapply step_answer|]. unfold rpc_err_direct, rpc_respond, event, push, view, t_answer.
  destruct r as [id []]; cbn; rewrite !omap_app; cbn; by rewrite app_nil_r.
Qed.
Lemma steps_rpc_err p o e s : steps asked (view (option_list (pm_rpc p) ++ o) s) (view o (rpc_err p e s)).
Proof. unfold rpc_err. destruct (pm_rpc p); [apply steps_err | constructor]. Qed.
Lemma steps_rpc_ok p o d s : steps asked (view (option_list (pm_rpc p) ++ o) s) (view o (rpc_ok p d s)).
Proof.
  unfold rpc_ok. destruct (pm_rpc p) as [r|]; [|constructor]. apply steps_1.
  eenough (view o _ = _) as ->; [by eapply step_answer|]. unfold rpc_respond, event, push, view, t_answer.
  destruct r as [id []]; cbn; rewrite !omap_app; cbn; by rewrite app_nil_r.
Qed.
Definition answers (f : OpKind.OpKind -> option Z -> option RpcRef -> Reason -> St -> St) : Prop :=
  forall op id rpc e o s, steps asked (view (option_list rpc ++ o) s) (view o (f op id rpc e s)).
Lemma issue_with_steps f kind op rpc t o s : answers f -> 0 < t -> (internal kind = true -> rpc = None) ->
  (forall r, rpc = Some r -> In r asked) ->
  steps asked (view (option_list rpc ++ o) s) (view o (fst (issue_with f kind op rpc t s))).
Proof.
  intros Hf Ht Hk Ha. unfold issue_with. destruct (serial_up (fst s)) eqn:E; [|apply Hf]. cbn [negb].
  destruct (encode_mgmt _ _ _).
  - cbn [fst]. rewrite view_send. apply steps_1. by apply (step_issue asked (view (option_list rpc ++ o) s)).
  - cbn [fst]. eapply steps_trans; [|apply Hf]. by rewrite view_engine.
Qed.
Lemma fail_with_steps relist : (forall o s, steps asked (view o s) (view o (relist s))) -> answers (fail_with relist).
Proof.
  intros Hr op id rpc e o s. unfold fail_with. set (s' := match op with OpKind.Describe => s | _ => _ end).
  assert (H : forall o, steps asked (view o s) (view o s')).
  { intros o'. unfold s'. destruct op as [| | | | | | | |node [origin|]| | | | |]; try constructor.
    - destruct (serial_up _); [apply Hr | constructor].
    - destruct id; [|constructor]. quiet. apply rtc_refl.
    - quiet. apply rtc_refl. }
  eapply steps_trans; [apply H|]. destruct rpc as [r|]; [apply steps_err | constructor].
Qed.
Lemma relist_steps o s : steps asked (view o s) (view o (relist s)).
Proof. apply (issue_with_steps _ _ _ None); [apply fail_with_steps; constructor | done | done | done]. Qed.
Lemma fail_op_steps : answers fail_op.
Proof. apply fail_with_steps, relist_steps. Qed.
Lemma issue_steps kind op rpc o s : (internal kind = true -> rpc = None) -> (forall r, rpc = Some r -> In r asked) ->
  steps asked (view (option_list rpc ++ o) s) (view o (fst (issue kind op rpc s))).
Proof. intros H Ha. by apply issue_with_steps; [apply fail_op_steps|..]. Qed.
Lemma issue_rpc kind op r o s : internal kind = false -> In r asked -> steps asked (view (r :: o) s) (view o (issue_ kind op (Some r) s)).
Proof. intros H Ha. apply (issue_steps kind op (Some r)); [by rewrite H | by intros ? [= <-]]. Qed.
Lemma issue_own kind op o s : steps asked (view o s) (view o (issue_ kind op None s)).
Proof. by apply (issue_steps kind op None). Qed.
Lemma list_nodes_steps o s : steps asked (view o s) (view o (list_nodes s)).
Proof. apply issue_own. Qed.
Lemma fold_steps {A} (f : St -> A -> St) o l : forall s, (forall s x, steps asked (view o s) (view o (f s x))) -> steps asked (view o s) (view o (fold_left f l s)).
Proof. induction l as [|x l IH]; intros s H; cbn [fold_left]; [constructor|]. eapply steps_trans; [apply H | by apply IH]. Qed.
Ltac by_steps := first
  [ constructor | apply list_nodes_steps | apply issue_own | apply steps_err | apply steps_rpc_err | apply steps_rpc_ok
  | apply fail_op_steps | (by apply issue_rpc) ].

Lemma on_node_info_steps src info o s : steps asked (view o s) (view o (on_node_info src info s)).
Proof.
  unfold on_node_info. destruct (position _ _) as [i|]; [|constructor]. quiet.
  match goal with |- steps _ _ (view o (if ?b then _ else _)) => destruct b end.
  - set (s0 := log _ _). match goal with |- context [issue ?k ?op None s0] => pose proof (issue_steps k op None o s0) as H; destruct (issue k op None s0) as [s1 [r|]] end;
      unfold s0 in *; cbn [fst app option_list] in H; autorewrite with view in H; quiet; by apply H.
  - destruct (negb _); [|quiet; apply rtc_refl]. set (s0 := on_nodes _ _).
    match goal with |- context [issue ?k ?op None s0] => pose proof (issue_steps k op None o s0) as H; destruct (issue k op None s0) as [s1 [r|]] end;
      unfold s0 in *; cbn [fst app option_list] in H; autorewrite with view in H; quiet; by apply H.
Qed.
Lemma on_shell_chunk_steps src c o s : steps asked (view o s) (view o (on_shell_chunk src c s)).
Proof.
  unfold on_shell_chunk. destruct (position _ _) as [i|]; [|constructor]. cbv zeta. destruct (index_where _ _) as [pi|]; [|quiet; apply rtc_refl].
  match goal with |- context [on_pending i (alter (fun p => set_progress p (Some (tick (fst ?x))) _ _ _) pi) ?x] => set (s1 := x) end.
  assert (steps asked (view o s) (view o s1)) as H.
  { unfold s1. destruct (_ !! pi) as [p|]; [|constructor]. destruct (ps_queued p); [|constructor].
    eapply steps_trans; [|apply issue_own]. quiet. apply rtc_refl. }
  eapply steps_trans; [apply H|]. clear H. clearbody s1. case_match; [|quiet; apply rtc_refl]. destruct (chunk_last c); quiet; apply rtc_refl.
Qed.
Lemma on_node_msg_steps src counter data o s : steps asked (view o s) (view o (on_node_msg src counter data s)).
Proof.
  unfold on_node_msg. destruct (decode_node_msg data) as [[]|[]]; try (quiet; apply rtc_refl); [apply on_node_info_steps | apply on_shell_chunk_steps].
Qed.
Lemma on_uplink_steps u o s : steps asked (view o s) (view o (on_uplink u s)).
Proof.
  assert (Ha : steps asked (view o s) (view o (accept_uplink u s))).
  { unfold accept_uplink, event. eapply steps_trans; [|apply on_node_msg_steps]. quiet. apply rtc_refl. }
  unfold on_uplink. destruct (find_node _ _) as [n|].
  - destruct (nm_last_counter n); [|done]. destruct (_ <=? _); [quiet; apply rtc_refl | done].
  - destruct (registry_synced _); cbn [negb]; [|destruct (_ <? _); quiet; apply rtc_refl].
    unfold drop_unregistered, count_unregistered. unfold event. destruct (List.find _ _) as [[a c]|].
    + destruct (strip_zeros _ _ =? 1); quiet; apply rtc_refl.
    + destruct (strip_zeros _ _ =? 1); quiet; (eapply steps_trans; [|apply list_nodes_steps]); quiet; apply rtc_refl.
Qed.
Lemma on_paired_steps j late o s : steps asked (view o s) (view o (fst (on_paired j late s))).
Proof. unfold on_paired. cbn [fst]. eapply steps_trans; [|apply list_nodes_steps]. quiet. apply rtc_refl. Qed.
Lemma reconcile_steps d o s : steps asked (view o s) (view o (reconcile_queue d s)).
Proof.
  unfold reconcile_queue. set (s1 := each_node _ s). assert (Hs : view o s1 = view o s) by (apply view_each; intros; by quiet).
  clearbody s1. rewrite <- Hs. case_bool_decide; [apply rtc_refl|]. eapply steps_trans; [|apply list_nodes_steps].
  eapply steps_trans; [|apply fold_steps; intros ? [? ?]; apply issue_own]. quiet. apply rtc_refl.
Qed.
Ltac after_quiet := match goal with |- steps _ _ (view ?o (_ ?s')) =>
  first [apply list_nodes_steps | apply steps_rpc_ok | apply steps_rpc_err] end.
Lemma on_mgmt_ok_steps p o s : (internal (pm_op p) = true -> pm_rpc p = None) ->
  steps asked (view (option_list (pm_rpc p) ++ o) s) (view o (on_mgmt_ok p s)).
Proof.
  intros Hint. unfold on_mgmt_ok. destruct (pm_op p) as [| |id name|id|id|id| | |node shell| | |node| |] eqn:Eop; try apply steps_rpc_ok.
  - (* Describe *) destruct (from_bytes _); [|apply steps_rpc_ok]. cbv zeta. eapply steps_trans; [|apply steps_rpc_ok]. quiet. apply rtc_refl.
  - (* NodeList *)
    destruct (pm_truncated p).
    + eapply steps_trans; [apply steps_rpc_err|]. cbv zeta. destruct (_ && _); [eapply steps_trans; [|apply list_nodes_steps]|]; quiet; apply rtc_refl.
    + cbv zeta. set (s1 := rpc_ok _ _ _).
      assert (H : steps asked (view (option_list (pm_rpc p) ++ o) s) (view o s1)).
      { unfold s1. eapply steps_trans; [|apply steps_rpc_ok]. quiet. apply rtc_refl. }
      destruct (negb _); [|done]. eapply steps_trans; [apply H|]. clear H. clearbody s1.
      eapply steps_trans; [|apply fold_steps; intros; apply on_uplink_steps]. quiet. apply rtc_refl.
  - (* NodeAdd *) cbv zeta. eapply steps_trans; [|apply list_nodes_steps]. eapply steps_trans; [|apply steps_rpc_ok]. quiet.
    apply rtc_refl.
  - (* NodeRemove *) destruct (position _ _); (eapply steps_trans; [|apply steps_rpc_ok]); quiet; apply rtc_refl.
  - (* NodeUpdate *) eapply steps_trans; [apply steps_rpc_ok | apply list_nodes_steps].
  - (* RevealKey *) destruct (from_bytes _); [apply steps_rpc_ok | apply steps_rpc_err].
  - (* PairingOpen *)
    cbv zeta. set (s1 := (if bool_decide (pairing_req (fst s) = Some (pm_req_id p)) then _ else s) : St). assert (Hs : forall o, view o s1 = view o s) by (intros; unfold s1; case_bool_decide; by quiet).
    clearbody s1. rewrite <- Hs. destruct (from_bytes (pm_data p)) as [j|].
    + pose proof (on_paired_steps j false (option_list (pm_rpc p) ++ o) s1) as H. destruct (on_paired j false s1) as [s2 js].
      eapply steps_trans; [apply H | apply steps_rpc_ok].
    + eapply steps_trans; [|apply list_nodes_steps]. eapply steps_trans; [|apply steps_rpc_ok].
      case_bool_decide; quiet; apply rtc_refl.
  - (* QueuePush *)
    destruct (from_bytes (pm_data p)); [|apply steps_rpc_err]. cbv zeta. eapply steps_trans; [|apply steps_rpc_ok].
    destruct shell; [destruct (position _ _)|]; quiet; apply rtc_refl.
  - (* QueueSync *) rewrite (Hint eq_refl). destruct (pm_truncated p); [apply rtc_refl | apply reconcile_steps].
  - (* QueueDrop *) cbv zeta. eapply steps_trans; [|apply list_nodes_steps]. eapply steps_trans; [apply steps_rpc_ok|].
    destruct (position _ _); quiet; apply rtc_refl.
  - (* QueueDropStale *) rewrite (Hint eq_refl). apply rtc_refl.
Qed.
Lemma on_mgmt_refused_steps p result e o s : (internal (pm_op p) = true -> pm_rpc p = None) ->
  steps asked (view (option_list (pm_rpc p) ++ o) s) (view o (on_mgmt_refused p result e s)).
Proof.
  intros Hint. unfold on_mgmt_refused. destruct (pm_op p) as [| |id name|id|id|id| | |node shell| | |node| |] eqn:Eop; try apply steps_rpc_err.
  - eapply steps_trans; [apply steps_rpc_err | apply list_nodes_steps].
  - cbv zeta. destruct (_ =? _); (eapply steps_trans; [|(apply steps_rpc_ok || apply steps_rpc_err)]); quiet; apply rtc_refl.
  - cbv zeta. eapply steps_trans; [|apply steps_rpc_err]. destruct shell; quiet; apply rtc_refl.
  - rewrite (Hint eq_refl). quiet. apply rtc_refl.
  - rewrite (Hint eq_refl). apply rtc_refl.
Qed.
Lemma on_mgmt_done_steps p result o s : (internal (pm_op p) = true -> pm_rpc p = None) ->
  steps asked (view (option_list (pm_rpc p) ++ o) s) (view o (on_mgmt_done p result s)).
Proof.
  intros Hint. unfold on_mgmt_done. cbv zeta. destruct (mgmt_error_str result); destruct (pm_truncated p); quiet;
    by (apply on_mgmt_ok_steps || apply on_mgmt_refused_steps).
Qed.

Lemma on_shell_req_steps node req o s : steps asked (view o s) (view o (on_shell_req node req s)).
Proof.
  unfold on_shell_req. destruct (forallb _ _); [quiet; apply rtc_refl|]. destruct (_ <? _); [quiet; apply rtc_refl|].
  destruct (encode_node_cmd _ _) as [env [n|]]; [|quiet; apply rtc_refl]. eapply steps_trans; [|apply issue_own]. quiet. apply rtc_refl.
Qed.
Lemma rpc_node_add_steps me params o s : In me asked -> steps asked (view (me :: o) s) (view o (rpc_node_add me params s)).
Proof.
  intros Hme. unfold rpc_node_add. repeat case_match; first [apply steps_err | by apply issue_rpc].
Qed.
Lemma rpc_node_rename_steps me params o s : In me asked -> steps asked (view (me :: o) s) (view o (rpc_node_rename me params s)).
Proof.
  intros Hme. unfold rpc_node_rename. destruct (_ ≫= _) as [[id flags]|]; [|apply steps_err]. destruct (str_param _ _) as [name|]; [|apply steps_err].
  destruct (check_name _ _ _); [apply steps_err|].
  match goal with |- context [issue ?k ?op ?r s] => pose proof (issue_steps k op r o s) as H; destruct (issue k op r s) as [s1 [q|]] end;
    quiet; apply H; try done; by intros ? [= <-].
Qed.
Lemma rpc_node_add_ota_steps me params o s : In me asked -> steps asked (view (me :: o) s) (view o (rpc_node_add_ota me params s)).
Proof.
  intros Hme. unfold rpc_node_add_ota. destruct (pairing_req _); [apply steps_err|]. destruct (existsb _ _); [apply steps_err|].
  cbv zeta. match goal with |- context [issue_delayed ?k ?op ?r ?t s] => pose proof (issue_with_steps _ k op r t o s fail_op_steps) as H;
    change (issue_with fail_op k op r t s) with (issue_delayed k op r t s) in H; destruct (issue_delayed k op r t s) as [s1 [q|]] end;
    quiet; apply H; try done; try (by intros ? [= <-]); unfold PAIRING_SLACK_S, clamp; lia.
Qed.
Lemma rpc_queue_drop_steps me params o s : In me asked -> steps asked (view (me :: o) s) (view o (rpc_queue_drop me params s)).
Proof.
  intros Hme. unfold rpc_queue_drop. destruct (node_param _ _) as [n|]; [|apply steps_err]. destruct (opt_number _ _ _) as [[[]|]|]; try apply steps_err;
    (eapply steps_trans; [|by apply issue_rpc]); destruct (position _ _); quiet; apply rtc_refl.
Qed.
Lemma on_rpc_steps req origin o s : In {| ref_id := rq_id req; ref_origin := origin |} asked ->
  steps asked (view ({| ref_id := rq_id req; ref_origin := origin |} :: o) s) (view o (on_rpc req origin s)).
Proof.
  unfold on_rpc. set (me := Build_RpcRef _ _). intros Hme. cbv zeta. unfold rpc_node_remove, rpc_reveal_key, rpc_pairing_cancel, rpc_queue_list, rpc_stats_config.
  repeat match goal with |- context [if bool_decide (rq_op req = ?x) then _ else _] => destruct (bool_decide (rq_op req = x)) end;
    first [apply steps_err | by apply rpc_node_add_steps | by apply rpc_node_rename_steps | by apply rpc_node_add_ota_steps
          | by apply rpc_queue_drop_steps | by apply issue_rpc | idtac].
  - destruct (node_param _ _); [by apply issue_rpc | apply steps_err].
  - destruct (node_param _ _); [by apply issue_rpc | apply steps_err].
  - eapply steps_trans; [|by apply issue_rpc]. quiet. apply rtc_refl.
  - case_match; [by apply issue_rpc | apply steps_err].
Qed.
End Refine.
