(* ===== verification/GwTraffic.v ===== *)
(** What the management traffic of the gateway engine guarantees: every RPC is answered exactly once and in
    bounded time, and the dongle's one-deep inbox never has two requests. *)
From Stdlib Require Import Sorted.
From stdpp Require Import relations.
From S2P Require Import Prelude Bytes Str Proto Cobs Fingerprint Msg Frame RadioEnv Mgmt GwTopics GwState GwEngine GwHandle GwCommand GwSteps.

#[local] Abbreviation St := (Engine * list Output)%type.

(** ** The invariant of the request list *)

Definition request_ok (tick : Z) (p : PendingMgmt) : Prop :=
  (internal (pm_op p) = true -> pm_rpc p = None) /\ 0 < pm_timeout_ticks p
  /\ if waiting p then pm_deadline p = NEVER /\ pm_holds_slot_until p = NEVER else tick <= pm_deadline p.
Definition holders (tick : Z) (l : list PendingMgmt) : list PendingMgmt := List.filter (holds_slot tick) l.
Fixpoint sent_first_ok (l : list PendingMgmt) : Prop :=
  match l with
  | [] => True
  | p :: l => if waiting p then Forall (fun p => waiting p = true) l else sent_first_ok l
  end.
(** Each request in order, the sent ones before the waiting ones, at most one in the dongle's inbox. *)
Definition traffic_ok (m : Traffic) : Prop :=
  Forall (request_ok (t_tick m)) (t_pending m)
  /\ sent_first_ok (t_pending m)
  /\ (length (holders (t_tick m) (t_pending m)) <= 1)%nat
  /\ t_tick m < NEVER.
(** Nothing waits while the inbox is free. *)
Definition settled (m : Traffic) : Prop :=
  existsb (holds_slot (t_tick m)) (t_pending m) = true \/ Forall (fun p => waiting p = false) (t_pending m).
(** At most one request sent by a handler, and it then holds the inbox. *)
Definition sent_once (m : Traffic) : Prop :=
  (length (t_sent m) <= 1)%nat
  /\ (t_sent m <> [] -> exists p, In p (t_pending m) /\ holds_slot (t_tick m) p = true /\ t_tick m < pm_deadline p).
(** The position holds a request past its deadline. *)
Definition overdue (m : Traffic) (i : nat) : Prop := exists p, t_pending m !! i = Some p /\ pm_deadline p <= t_tick m.

(** The RPCs answered, owed an answer or waited on by a request. *)
Definition rpcs (l : list PendingMgmt) : list RpcRef := omap pm_rpc l.
Definition total (r : RpcRef) (m : Traffic) : nat :=
  (count_occ RpcRef_eq_dec (t_answered m) r + count_occ RpcRef_eq_dec (t_owed m) r + count_occ RpcRef_eq_dec (rpcs (t_pending m)) r)%nat.

(** ** Sending *)

Lemma send_first_Some tick f l' : forall l, send_first tick l = Some (f, l') ->
  exists a p b, l = a ++ p :: b /\ Forall (fun p => waiting p = false) a /\ pm_frame p = Some f /\ l' = a ++ mark_sent tick p :: b.
Proof.
  intros l. revert l'. induction l as [|p l IH]; intros l' H; cbn [send_first] in H; [done|].
  destruct (pm_frame p) as [f'|] eqn:E.
  - inversion H; subst. exists [], p, l. by split_and!.
  - destruct (send_first tick l) as [[f' l1]|]; [|done]. cbn in H. inversion H; subst. destruct (IH l1 eq_refl) as (a & q & b & -> & Ha & Hq & ->).
    exists (p :: a), q, b. split_and!; try done. constructor; [|done]. unfold waiting. by rewrite E.
Qed.
Lemma send_first_None tick l : send_first tick l = None -> Forall (fun p => waiting p = false) l.
Proof.
  induction l as [|p l IH]; intros H; cbn [send_first] in H; [done|]. destruct (pm_frame p) eqn:E; [done|].
  destruct (send_first tick l) as [[]|]; [done|]. constructor; [|by apply IH]. unfold waiting. by rewrite E.
Qed.
Lemma mark_sent_holds tick p : waiting p = true -> request_ok tick p -> tick < NEVER -> holds_slot tick (mark_sent tick p) = true.
Proof.
  unfold request_ok, holds_slot, mark_sent. cbn. intros -> (_ & _ & _ & Hh) Ht. apply Z.ltb_lt.
  destruct (pm_op p); rewrite ?Hh; unfold PAIRING_PICKUP_TICKS; lia.
Qed.
Lemma waiting_frame p f : pm_frame p = Some f -> waiting p = true.
Proof. unfold waiting. by intros ->. Qed.
Lemma holders_app tick a b : holders tick (a ++ b) = holders tick a ++ holders tick b.
Proof. apply List.filter_app. Qed.
Lemma holders_none tick l : existsb (holds_slot tick) l = false -> holders tick l = [].
Proof. induction l as [|p l IH]; cbn; [done|]. destruct (holds_slot tick p); [done | apply IH]. Qed.
Lemma holds_sent tick p : holds_slot tick p = true -> waiting p = false.
Proof. unfold holds_slot, waiting. by destruct (pm_frame p). Qed.
Lemma holders_waiting tick l : Forall (fun p => waiting p = true) l -> holders tick l = [].
Proof.
  induction 1 as [|p l Hp _ IH]; [done|]. cbn. destruct (holds_slot tick p) eqn:E; [|done]. apply holds_sent in E. by rewrite E in Hp.
Qed.
Lemma holders_mono t t' l : t <= t' -> (length (holders t' l) <= length (holders t l))%nat.
Proof.
  intros Ht. unfold holders. induction l as [|p l IH]; [done|]. cbn [List.filter].
  assert (H : holds_slot t' p = true -> holds_slot t p = true) by (unfold holds_slot; destruct (pm_frame p); [done | lia]).
  destruct (holds_slot t' p); [rewrite H by done | destruct (holds_slot t p)]; cbn [length]; lia.
Qed.
(** The two outcomes of [t_send]: nothing, or the oldest waiting request sent into a free inbox. *)
Lemma t_send_cases m :
  t_send m = m /\ settled m
  \/ exists a p b f, t_pending m = a ++ p :: b /\ Forall (fun p => waiting p = false) a /\ pm_frame p = Some f
       /\ existsb (holds_slot (t_tick m)) (t_pending m) = false
       /\ t_pending (t_send m) = a ++ mark_sent (t_tick m) p :: b /\ t_tick (t_send m) = t_tick m /\ t_owed (t_send m) = t_owed m
       /\ t_answered (t_send m) = t_answered m /\ t_sent (t_send m) = t_sent m ++ [f] /\ t_up (t_send m) = t_up m.
Proof.
  unfold t_send, settled. destruct (existsb _ _) eqn:E; [by left; auto|]. destruct (send_first _ _) as [[f l]|] eqn:F.
  - right. destruct (send_first_Some _ _ _ _ F) as (a & p & b & -> & Ha & Hf & ->). by exists a, p, b, f.
  - left. split; [done|]. right. by eapply send_first_None.
Qed.

(** ** What a step keeps *)

Lemma rpcs_app a b : rpcs (a ++ b) = rpcs a ++ rpcs b.
Proof. apply omap_app. Qed.
Lemma rpcs_cons p l : rpcs (p :: l) = option_list (pm_rpc p) ++ rpcs l.
Proof. unfold rpcs. cbn. by destruct (pm_rpc p). Qed.
Lemma total_send r m : total r (t_send m) = total r m.
Proof.
  destruct (t_send_cases m) as [[-> _]|(a & p & b & f & Hp & _ & _ & _ & Hp' & _ & Ho & Ha & _)]; [done|].
  unfold total. by rewrite Ho, Ha, Hp, Hp', !rpcs_app, !rpcs_cons.
Qed.
Lemma rpcs_alter f i l : (forall p, pm_rpc (f p) = pm_rpc p) -> rpcs (alter f i l) = rpcs l.
Proof.
  intros Hf. unfold rpcs. revert i. induction l as [|p l IH]; intros [|i]; try done; cbn [alter list_alter omap list_omap].
  - by rewrite Hf.
  - change (list_alter f i l) with (alter f i l). unfold omap in IH. by rewrite IH.
Qed.
Lemma step_total asked r m n : step asked m n -> total r n = total r m.
Proof.
  destruct 1 as [m | m p o Hu Hf Ho Hin | m q o Ho | m i chunk data].
  - apply total_send.
  - rewrite total_send. unfold total, t_set. cbn [t_answered t_owed t_pending]. rewrite Ho, rpcs_app, rpcs_cons, !count_occ_app. cbn. lia.
  - unfold total, t_answer. cbn [t_answered t_owed t_pending]. rewrite Ho, count_occ_app. cbn [count_occ]. destruct (RpcRef_eq_dec q r); lia.
  - unfold total, t_set. cbn [t_answered t_owed t_pending]. by rewrite rpcs_alter.
Qed.
Lemma take_total r m i p : t_pending m !! i = Some p -> total r (t_take m i p) = total r m.
Proof.
  intros H. unfold total, t_take, t_set. cbn [t_answered t_owed t_pending]. rewrite delete_take_drop, rpcs_app.
  rewrite <- (take_drop_middle (t_pending m) i p H) at 3. rewrite rpcs_app, rpcs_cons, !count_occ_app. lia.
Qed.
Lemma steps_total asked r m n : steps asked m n -> total r n = total r m.
Proof. induction 1 as [|m k n H _ IH]; [done|]. rewrite IH. by eapply step_total. Qed.

(** *** The invariant *)

Lemma all_waiting_ok l : Forall (fun p => waiting p = true) l -> sent_first_ok l.
Proof. destruct 1 as [|p l H Hl]; [done|]. cbn. by rewrite H. Qed.
Lemma sent_first_snoc l p : sent_first_ok l -> waiting p = true -> sent_first_ok (l ++ [p]).
Proof.
  intros H Hp. induction l as [|q l IH]; cbn in *; [by rewrite Hp|]. destruct (waiting q); [|by apply IH].
  apply Forall_app. by split; [|constructor].
Qed.
Lemma sent_first_mark tick a p b : Forall (fun p => waiting p = false) a -> waiting p = true ->
  sent_first_ok (a ++ p :: b) -> sent_first_ok (a ++ mark_sent tick p :: b).
Proof.
  induction 1 as [|q a Hq _ IH]; intros Hp H; cbn in *.
  - rewrite Hp in H. by apply all_waiting_ok.
  - rewrite Hq in *. by apply IH.
Qed.
Lemma sent_first_delete i l : sent_first_ok l -> sent_first_ok (delete i l).
Proof.
  revert i. induction l as [|p l IH]; intros [|i] H; try done; cbn [delete list_delete sent_first_ok] in *.
  - destruct (waiting p); [by apply all_waiting_ok | done].
  - destruct (waiting p); [|by apply IH]. by apply Forall_delete.
Qed.
Lemma sent_first_alter f i l : (forall p, waiting (f p) = waiting p) -> sent_first_ok l -> sent_first_ok (alter f i l).
Proof.
  intros Hf. revert i. induction l as [|p l IH]; intros [|i] H; try done; cbn [alter list_alter sent_first_ok] in *.
  - by rewrite Hf.
  - destruct (waiting p); [|by apply IH]. apply Forall_alter; [done|]. intros q _. by rewrite Hf.
Qed.
Lemma holders_alter f tick i l : (forall p, holds_slot tick (f p) = holds_slot tick p) -> length (holders tick (alter f i l)) = length (holders tick l).
Proof.
  intros Hf. unfold holders. revert i. induction l as [|p l IH]; intros [|i]; try done; cbn [alter list_alter List.filter].
  - rewrite Hf. by destruct (holds_slot tick p).
  - destruct (holds_slot tick p); cbn [length]; [f_equal|]; apply IH.
Qed.
Lemma holders_delete tick i l : (length (holders tick (delete i l)) <= length (holders tick l))%nat.
Proof.
  unfold holders. revert i. induction l as [|p l IH]; intros [|i]; try done; cbn [delete list_delete List.filter].
  - destruct (holds_slot tick p); cbn [length]; lia.
  - destruct (holds_slot tick p); cbn [length]; [apply le_n_S|]; apply IH.
Qed.
Lemma ok_send m : traffic_ok m -> traffic_ok (t_send m).
Proof.
  intros (Hr & Hs & Hh & Ht). destruct (t_send_cases m) as [[-> _]|(a & p & b & f & Hp & Ha & Hf & He & Hp' & Htk & _)]; [done|].
  pose proof (waiting_frame _ _ Hf) as Hw. unfold traffic_ok. rewrite Htk, Hp'. rewrite Hp in *. split_and!; try done.
  - apply Forall_app in Hr as [Hra Hr]. inversion Hr as [|? ? Hrp Hrb]; subst. apply Forall_app. split; [done|]. constructor; [|done].
    destruct Hrp as (A & B & C). split_and!; [done | done|]. cbn. lia.
  - by apply sent_first_mark.
  - apply holders_none in He. rewrite holders_app in *. apply app_eq_nil in He as [-> He]. cbn [holders List.filter] in *.
    destruct (holds_slot (t_tick m) p); [done|]. fold (holders (t_tick m) b) in *. rewrite He.
    destruct (holds_slot _ _); cbn; lia.
Qed.
Lemma settled_send m : traffic_ok m -> settled (t_send m).
Proof.
  intros (Hr & Hs & Hh & Ht). destruct (t_send_cases m) as [[-> Hs']|(a & p & b & f & Hp & Ha & Hf & He & Hp' & Htk & _)]; [done|].
  left. rewrite Htk, Hp'. rewrite existsb_app. cbn [existsb]. rewrite mark_sent_holds; [by rewrite orb_true_r | by eapply waiting_frame | | done].
  rewrite Hp in Hr. apply Forall_app in Hr as [_ Hr]. by inversion Hr.
Qed.
Lemma ok_issue m p o : traffic_ok m -> fresh p -> traffic_ok (t_set m (t_pending m ++ [p]) o).
Proof.
  intros (Hr & Hs & Hh & Ht) (Hw & Hd & Hsl & Hto & Hi). unfold traffic_ok, t_set. cbn [t_tick t_pending]. split_and!; try done.
  - apply Forall_app. split; [done|]. constructor; [|done]. unfold request_ok. rewrite Hw. by split_and!.
  - by apply sent_first_snoc.
  - rewrite holders_app, (holders_waiting _ [p]) by (constructor; done). by rewrite app_nil_r.
Qed.
Lemma ok_chunk m i chunk data o : traffic_ok m -> traffic_ok (t_set m (alter (fun p => add_chunk p chunk data) i (t_pending m)) o).
Proof.
  intros (Hr & Hs & Hh & Ht). unfold traffic_ok, t_set. cbn [t_tick t_pending]. split_and!; [| | |done].
  - by apply Forall_alter.
  - by apply sent_first_alter.
  - by rewrite holders_alter.
Qed.
Lemma ok_take m i p : traffic_ok m -> traffic_ok (t_take m i p).
Proof.
  intros (Hr & Hs & Hh & Ht). unfold traffic_ok, t_take, t_set. cbn [t_tick t_pending]. split_and!; [| | |done].
  - by apply Forall_delete.
  - by apply sent_first_delete.
  - pose proof (holders_delete (t_tick m) i (t_pending m)). lia.
Qed.
Lemma step_ok asked m n : step asked m n -> traffic_ok m -> traffic_ok n.
Proof.
  destruct 1 as [m | m p o Hu Hf Ho Hin | m q o Ho | m i chunk data]; intros H; [by apply ok_send | apply ok_send; by apply ok_issue | done | by apply ok_chunk].
Qed.
Lemma step_settled asked m n : step asked m n -> traffic_ok m -> settled m -> settled n.
Proof.
  destruct 1 as [m | m p o Hu Hf Ho Hin | m q o Ho | m i chunk data]; intros H Hs; [by apply settled_send | apply settled_send; by apply ok_issue | done|].
  destruct Hs as [Hs|Hs]; [left | right]; unfold t_set; cbn [t_tick t_pending].
  - clear H. revert i Hs. induction (t_pending m) as [|p l IH]; intros [|i] Hs; try done; cbn [alter list_alter existsb] in *.
    apply orb_true_iff in Hs as [->|Hs]; [done|]. apply orb_true_iff. right. by apply IH.
  - by apply Forall_alter.
Qed.
Lemma steps_ok asked m n : steps asked m n -> traffic_ok m -> traffic_ok n.
Proof. induction 1; [done|]. intros. by eapply IHrtc, step_ok. Qed.
Lemma steps_settled asked m n : steps asked m n -> traffic_ok m -> settled m -> settled n.
Proof. induction 1; [done|]. intros. eapply IHrtc; [by eapply step_ok | by eapply step_settled]. Qed.
Definition same_frame (m n : Traffic) : Prop := t_ids n = t_ids m /\ t_prefix n = t_prefix m.
Lemma send_frame m : same_frame m (t_send m).
Proof. unfold t_send. destruct (existsb _ _); [done|]. by destruct (send_first _ _) as [[]|]. Qed.
Lemma step_frame asked m n : step asked m n -> same_frame m n.
Proof. destruct 1; try done; apply (send_frame (t_set m (t_pending m ++ [p]) o)) || apply send_frame. Qed.
Lemma steps_frame asked m n : steps asked m n -> same_frame m n.
Proof. induction 1 as [|m k n H _ [A B]]; [done|]. apply step_frame in H as [C D]. split; congruence. Qed.
Lemma step_tick asked m n : step asked m n -> t_tick n = t_tick m /\ t_up n = t_up m.
Proof.
  destruct 1 as [m | m p o Hu Hf Ho Hin | m q o Ho | m i chunk data]; try done.
  - by destruct (t_send_cases m) as [[-> _]|(a & p & b & f & _ & _ & _ & _ & _ & A & _ & _ & _ & B)].
  - by destruct (t_send_cases (t_set m (t_pending m ++ [p]) o)) as [[-> _]|(a & q & b & f & _ & _ & _ & _ & _ & A & _ & _ & _ & B)].
Qed.
Lemma steps_tick asked m n : steps asked m n -> t_tick n = t_tick m /\ t_up n = t_up m.
Proof. induction 1 as [|? ? ? H _ [A B]]; [done|]. destruct (step_tick _ _ _ H). by rewrite A, B. Qed.

(** *** Deadlines and the inbox *)

Lemma lookup_mark tick a p b i q : (a ++ mark_sent tick p :: b) !! i = Some q ->
  q = mark_sent tick p /\ i = length a \/ (a ++ p :: b) !! i = Some q /\ i <> length a.
Proof.
  intros H. destruct (decide (i = length a)) as [->|Hi].
  - rewrite list_lookup_middle in H by done. inversion H. by left.
  - right. split; [|done]. destruct (decide (i < length a)%nat).
    + rewrite lookup_app_l in H by lia. by rewrite lookup_app_l by lia.
    + rewrite lookup_app_r in H by lia. rewrite lookup_app_r by lia. by replace (i - length a)%nat with (S (pred (i - length a))) in * by lia.
Qed.
Lemma overdue_send m i : traffic_ok m -> overdue (t_send m) i <-> overdue m i.
Proof.
  intros (Hr & _ & _ & Ht). destruct (t_send_cases m) as [[-> _]|(a & p & b & f & Hp & Ha & Hf & He & Hp' & Htk & _)]; [done|].
  assert (Hrp : request_ok (t_tick m) p) by (rewrite Hp in Hr; apply Forall_app in Hr as [_ Hr]; by inversion Hr).
  pose proof (waiting_frame _ _ Hf) as Hw. unfold request_ok in Hrp. rewrite Hw in Hrp. destruct Hrp as (_ & Hto & Hd & _).
  unfold overdue. rewrite Htk, Hp', Hp. split.
  - intros (q & Hq & Hle). apply lookup_mark in Hq as [[-> ->]|[Hq _]]; [cbn in Hle; lia | by exists q].
  - intros (q & Hq & Hle). exists q. split; [|done]. destruct (decide (i = length a)) as [->|Hi].
    + rewrite list_lookup_middle in Hq by done. inversion Hq; subst. lia.
    + destruct (decide (i < length a)%nat); [rewrite lookup_app_l in Hq by lia; by rewrite lookup_app_l by lia|].
      rewrite lookup_app_r in Hq by lia. rewrite lookup_app_r by lia. by replace (i - length a)%nat with (S (pred (i - length a))) in * by lia.
Qed.
Lemma step_overdue asked m n i : step asked m n -> traffic_ok m -> overdue n i <-> overdue m i.
Proof.
  destruct 1 as [m | m p o Hu Hf Ho Hin | m q o Ho | m k chunk data]; intros H; [by apply overdue_send | | done |].
  - rewrite overdue_send by (by apply ok_issue). unfold overdue, t_set. cbn [t_pending t_tick]. destruct H as (_ & _ & _ & Ht).
    destruct Hf as (_ & Hd & _). split; intros (q & Hq & Hle).
    + apply lookup_app_Some in Hq as [Hq|[_ Hq]]; [by exists q|]. apply list_lookup_singleton_Some in Hq as [_ <-]. lia.
    + exists q. split; [by apply lookup_app_l_Some | done].
  - unfold overdue, t_set. cbn [t_pending t_tick]. destruct (decide (k = i)) as [->|Hi].
    + rewrite list_lookup_alter_eq. destruct (t_pending m !! i) as [p|]; cbn [fmap option_fmap option_map]; split; intros (q & Hq & Hle); try done;
        injection Hq as <-; eauto.
    + by rewrite list_lookup_alter_ne.
Qed.
Lemma steps_overdue asked m n i : steps asked m n -> traffic_ok m -> overdue n i <-> overdue m i.
Proof. induction 1 as [|m k n H _ IH]; [done|]. intros. rewrite IH by (by eapply step_ok). by eapply step_overdue. Qed.

Lemma holds_existsb tick p l : In p l -> holds_slot tick p = true -> existsb (holds_slot tick) l = true.
Proof. intros. apply existsb_exists. by exists p. Qed.
Lemma sent_once_nil m : t_sent m = [] -> sent_once m.
Proof. intros H. split; rewrite H; [cbn; lia | done]. Qed.
Lemma sent_once_send m : traffic_ok m -> sent_once m -> sent_once (t_send m).
Proof.
  intros (Hr & _ & _ & Ht) (Hl & Hh). destruct (t_send_cases m) as [[-> _]|(a & p & b & f & Hp & Ha & Hf & He & Hp' & Htk & _ & _ & Hs & _)]; [done|].
  assert (Hn : t_sent m = []).
  { destruct (t_sent m); [done|]. destruct Hh as (q & Hin & Hq & _); [done|]. by rewrite (holds_existsb _ _ _ Hin Hq) in He. }
  assert (Hrp : request_ok (t_tick m) p) by (rewrite Hp in Hr; apply Forall_app in Hr as [_ Hr]; by inversion Hr).
  split; rewrite Hs, Hn; [done|]. intros _. exists (mark_sent (t_tick m) p). rewrite Hp', Htk. split_and!.
  - apply in_or_app. right. by left.
  - apply mark_sent_holds; [by eapply waiting_frame | done | done].
  - destruct Hrp as (_ & Hto & _). cbn. lia.
Qed.
Lemma step_sent_once asked m n : step asked m n -> traffic_ok m -> sent_once m -> sent_once n.
Proof.
  destruct 1 as [m | m p o Hu Hf Ho Hask | m q o Ho | m i chunk data]; intros H [Hl Hh]; [by apply sent_once_send | | done |].
  - apply sent_once_send; [by apply ok_issue|]. split; [done|]. intros Hn. destruct (Hh Hn) as (q & Hin & Hq & Hd). exists q. split; [|done].
    apply in_or_app. by left.
  - split; [done|]. intros Hn. destruct (Hh Hn) as (p & Hin & Hp & Hd). apply list_elem_of_In, list_elem_of_lookup in Hin as [j Hj].
    unfold t_set. cbn [t_pending t_tick]. destruct (decide (i = j)) as [->|Hi].
    + exists (add_chunk p chunk data). split; [|done]. apply list_elem_of_In, list_elem_of_lookup. exists j. by rewrite list_lookup_alter_eq, Hj.
    + exists p. split; [|done]. apply list_elem_of_In, list_elem_of_lookup. exists j. by rewrite list_lookup_alter_ne.
Qed.
Lemma steps_sent_once asked m n : steps asked m n -> traffic_ok m -> sent_once m -> sent_once n.
Proof. induction 1; [done|]. intros. eapply IHrtc; [by eapply step_ok | by eapply step_sent_once]. Qed.
Lemma lookup_delete_or {A} (l : list A) i j x : l !! j = Some x -> j <> i -> exists k, delete i l !! k = Some x.
Proof.
  intros H Hj. destruct (decide (j < i)%nat).
  - exists j. by rewrite list_lookup_delete_lt.
  - exists (pred j). rewrite list_lookup_delete_ge by lia. by replace (S (pred j)) with j by lia.
Qed.
(** Taking an overdue request out leaves the holder of the inbox. *)
Lemma take_sent_once m i p : overdue m i -> sent_once m -> sent_once (t_take m i p).
Proof.
  intros (q & Hq & Hle) [Hl Hh]. split; [done|]. intros Hn. destruct (Hh Hn) as (h & Hin & Hp & Hd).
  apply list_elem_of_In, list_elem_of_lookup in Hin as [j Hj]. exists h. split; [|done]. unfold t_take, t_set. cbn [t_pending].
  destruct (lookup_delete_or _ i j h Hj) as [k Hk]; [intros ->; rewrite Hq in Hj; inversion Hj; subst; lia|].
  apply list_elem_of_In, list_elem_of_lookup. by exists k.
Qed.
(** Taking the last overdue request out leaves the others where they were. *)
Lemma take_overdue m i p : (forall j, overdue m j -> (j <= i)%nat) -> forall j, overdue (t_take m i p) j <-> overdue m j /\ j <> i.
Proof.
  intros Hm j. unfold overdue, t_take, t_set. cbn [t_pending t_tick]. split.
  - intros (q & Hq & Hle). destruct (decide (j < i)%nat).
    + rewrite list_lookup_delete_lt in Hq by lia. split; [by exists q | lia].
    + rewrite list_lookup_delete_ge in Hq by lia. assert (S j <= i)%nat; [apply Hm; by exists q | lia].
  - intros ((q & Hq & Hle) & Hj). assert (j <= i)%nat by (apply Hm; by exists q). exists q. by rewrite list_lookup_delete_lt by lia.
Qed.

(** *** The wait of an RPC *)

(** Ticks until the request is answered or given up, once every request before it has been. *)
Definition cost (tick : Z) (p : PendingMgmt) : Z := if waiting p then pm_timeout_ticks p else pm_deadline p - tick.
(** Ticks the requests of [r] can still take: those up to the last one of [r], one after the other. *)
Fixpoint wait_ticks (r : RpcRef) (tick : Z) (l : list PendingMgmt) : Z :=
  match l with
  | [] => 0
  | p :: l' => if (count_occ RpcRef_eq_dec (rpcs l) r =? 0)%nat then 0 else cost tick p + wait_ticks r tick l'
  end.
Lemma cost_nonneg tick p : request_ok tick p -> 0 <= cost tick p.
Proof. unfold request_ok, cost. destruct (waiting p); lia. Qed.
Lemma count_cons r p l : count_occ RpcRef_eq_dec (rpcs (p :: l)) r
  = (count_occ RpcRef_eq_dec (option_list (pm_rpc p)) r + count_occ RpcRef_eq_dec (rpcs l) r)%nat.
Proof. by rewrite rpcs_cons, count_occ_app. Qed.
Lemma wait_0 r tick l : count_occ RpcRef_eq_dec (rpcs l) r = O -> wait_ticks r tick l = 0.
Proof. destruct l; [done|]. intros H. cbn [wait_ticks]. by rewrite H. Qed.
Lemma wait_cons r tick p l : count_occ RpcRef_eq_dec (rpcs (p :: l)) r <> O -> wait_ticks r tick (p :: l) = cost tick p + wait_ticks r tick l.
Proof. intros H. cbn [wait_ticks]. apply Nat.eqb_neq in H. by rewrite H. Qed.
Lemma wait_nonneg r tick l : Forall (request_ok tick) l -> 0 <= wait_ticks r tick l.
Proof.
  induction 1 as [|p l Hp _ IH]; [done|]. destruct (decide (count_occ RpcRef_eq_dec (rpcs (p :: l)) r = O)) as [E|E]; [by rewrite wait_0|].
  rewrite wait_cons by done. pose proof (cost_nonneg _ _ Hp). lia.
Qed.
(** Replacing a request by one of the same cost and RPC. *)
Lemma wait_replace r tick a p q b : cost tick p = cost tick q -> pm_rpc p = pm_rpc q ->
  wait_ticks r tick (a ++ p :: b) = wait_ticks r tick (a ++ q :: b).
Proof.
  intros Hc Hr. induction a as [|x a IH]; cbn [app].
  - cbn [wait_ticks]. by rewrite !count_cons, Hr, Hc.
  - cbn [wait_ticks]. rewrite IH. by rewrite !count_cons, !rpcs_app, !rpcs_cons, Hr.
Qed.
Lemma wait_alter r tick f l : forall i, (forall p, cost tick (f p) = cost tick p) -> (forall p, pm_rpc (f p) = pm_rpc p) ->
  wait_ticks r tick (alter f i l) = wait_ticks r tick l.
Proof.
  induction l as [|p l IH]; intros [|i] Hc Hr; try done.
  - change (alter f 0%nat (p :: l)) with (f p :: l). cbn [wait_ticks]. by rewrite !count_cons, Hc, Hr.
  - change (alter f (S i) (p :: l)) with (p :: alter f i l). cbn [wait_ticks]. by rewrite IH, !count_cons, (rpcs_alter f).
Qed.
Lemma wait_snoc r tick l p : pm_rpc p <> Some r -> wait_ticks r tick (l ++ [p]) = wait_ticks r tick l.
Proof.
  intros Hp. assert (Hc : count_occ RpcRef_eq_dec (option_list (pm_rpc p)) r = O).
  { destruct (pm_rpc p) as [q|]; cbn; [|done]. destruct (RpcRef_eq_dec q r); congruence. }
  induction l as [|q l IH]; [by apply wait_0; rewrite app_nil_l, count_cons, Hc|].
  cbn [app wait_ticks]. rewrite IH, !count_cons, rpcs_app, count_occ_app, rpcs_cons, count_occ_app, Hc. cbn. by rewrite Nat.add_0_r.
Qed.
Lemma count_delete r l : forall i, (count_occ RpcRef_eq_dec (rpcs (delete i l)) r <= count_occ RpcRef_eq_dec (rpcs l) r)%nat.
Proof.
  induction l as [|p l IH]; intros [|i]; try done; [change (delete 0%nat (p :: l)) with l | change (delete (S i) (p :: l)) with (p :: delete i l)];
    rewrite !count_cons; [lia|]. specialize (IH i). lia.
Qed.
Lemma wait_delete r tick l : forall i, Forall (request_ok tick) l -> wait_ticks r tick (delete i l) <= wait_ticks r tick l.
Proof.
  induction l as [|p l IH]; intros [|i] H; try done; inversion H as [|? ? Hp Hl]; subst; pose proof (cost_nonneg _ _ Hp).
  - change (delete 0%nat (p :: l)) with l. pose proof (wait_nonneg r _ _ Hl).
    destruct (decide (count_occ RpcRef_eq_dec (rpcs (p :: l)) r = O)) as [E|E]; [|rewrite wait_cons by done; lia].
    rewrite count_cons in E. rewrite wait_0 by lia. cbn [wait_ticks]. destruct (_ =? _)%nat; lia.
  - change (delete (S i) (p :: l)) with (p :: delete i l). specialize (IH i Hl).
    destruct (decide (count_occ RpcRef_eq_dec (rpcs (p :: delete i l)) r = O)) as [E|E].
    + rewrite (wait_0 _ _ (p :: delete i l)) by done. by apply wait_nonneg.
    + rewrite !wait_cons; [lia | | done]. rewrite count_cons in E |- *.
      pose proof (count_delete r l i). lia.
Qed.

(** A step adds nothing to the wait of an RPC it may not ask again. *)
Definition wait (r : RpcRef) (m : Traffic) : Z := wait_ticks r (t_tick m) (t_pending m).
Lemma wait_send r m : traffic_ok m -> wait r (t_send m) = wait r m.
Proof.
  intros (Hr & _). destruct (t_send_cases m) as [[-> _]|(a & p & b & f & Hp & Ha & Hf & He & Hp' & Htk & _)]; [done|].
  unfold wait. rewrite Htk, Hp', Hp. apply wait_replace; [|done]. unfold cost, waiting, mark_sent. cbn. rewrite Hf. lia.
Qed.
Lemma step_wait asked r m n : step asked m n -> ~ In r asked -> traffic_ok m -> wait r n = wait r m.
Proof.
  destruct 1 as [m | m p o Hu Hf Ho Hask | m q o Ho | m i chunk data]; intros Hr H; [by apply wait_send | | done |].
  - rewrite wait_send by (by apply ok_issue). apply wait_snoc. intros E. by apply Hr, Hask.
  - by apply wait_alter.
Qed.
Lemma steps_wait asked r m n : steps asked m n -> ~ In r asked -> traffic_ok m -> wait r n = wait r m.
Proof. induction 1 as [|m k n H _ IH]; [done|]. intros Hr Hok. rewrite IH; [by eapply step_wait | done | by eapply step_ok]. Qed.
Lemma take_wait r m i p : traffic_ok m -> wait r (t_take m i p) <= wait r m.
Proof. intros (Hr & _). by apply wait_delete. Qed.

(** *** The clock, the link *)

Definition t_later (m : Traffic) : Traffic :=
  {| t_pending := t_pending m; t_tick := t_tick m + 1; t_up := t_up m; t_owed := t_owed m; t_sent := t_sent m; t_answered := t_answered m;
     t_ids := t_ids m; t_prefix := t_prefix m |}.
(** Every request sent still has time. *)
Definition in_time (m : Traffic) : Prop := forall i, ~ overdue m i.
Lemma in_time_Forall m : in_time m -> Forall (fun p => t_tick m < pm_deadline p) (t_pending m).
Proof. intros H. apply Forall_lookup. intros i p Hp. apply Z.nle_gt. intros Hle. apply (H i). by exists p. Qed.
Lemma ok_later m : traffic_ok m -> in_time m -> t_tick m + 1 < NEVER -> traffic_ok (t_later m).
Proof.
  intros (Hr & Hs & Hh & Ht) Hi Hn. unfold traffic_ok, t_later. cbn [t_pending t_tick]. split_and!; try done.
  - apply in_time_Forall in Hi. apply Forall_lookup. intros i p Hp. rewrite Forall_lookup in Hr, Hi. specialize (Hr i p Hp). specialize (Hi i p Hp).
    unfold request_ok in *. destruct (waiting p); [done|]. destruct Hr as (A & B & C). split_and!; try done. lia.
  - pose proof (holders_mono (t_tick m) (t_tick m + 1) (t_pending m)). lia.
Qed.
Lemma cost_later tick p : cost (tick + 1) p <= cost tick p.
Proof. unfold cost. destruct (waiting p); lia. Qed.
Lemma wait_later_le r tick l : wait_ticks r (tick + 1) l <= wait_ticks r tick l.
Proof. induction l as [|p l IH]; [done|]. cbn [wait_ticks]. pose proof (cost_later tick p). destruct (_ =? _)%nat; lia. Qed.
(** A tick shortens the wait: the oldest request is out, since nothing waits while the inbox is free. *)
Lemma wait_later r m : traffic_ok m -> settled m -> count_occ RpcRef_eq_dec (rpcs (t_pending m)) r <> O -> wait r (t_later m) <= wait r m - 1.
Proof.
  intros (_ & Hs & _ & _) Hset Hc. unfold wait, t_later, settled in *. cbn [t_tick t_pending]. destruct (t_pending m) as [|p l]; [done|].
  rewrite !wait_cons by done. pose proof (wait_later_le r (t_tick m) l). cbn [sent_first_ok] in Hs. unfold cost.
  destruct (waiting p) eqn:Hw; [exfalso | lia]. destruct Hset as [Hset|Hset]; [|inversion Hset; congruence].
  assert (Hn : holders (t_tick m) (p :: l) = []) by (apply holders_waiting; by constructor).
  apply existsb_exists in Hset as (q & Hin & Hq). assert (Hf : In q (holders (t_tick m) (p :: l))) by (by apply filter_In).
  by rewrite Hn in Hf.
Qed.
Lemma partition_sent l : sent_first_ok l ->
  exists a b, l = a ++ b /\ Forall (fun p => waiting p = false) a /\ List.partition waiting l = (b, a).
Proof.
  induction l as [|p l IH]; intros H; cbn [sent_first_ok] in H; [by exists [], []|]. cbn [List.partition]. destruct (waiting p) eqn:E.
  - exists [], (p :: l). split_and!; [done | done|]. assert (List.partition waiting l = (l, [])) as ->; [|done].
    clear E IH. induction H as [|q l Hq _ IH]; [done|]. cbn. by rewrite IH, Hq.
  - destruct (IH H) as (a & b & -> & Ha & ->). exists (p :: a), b. split_and!; [done | by constructor | done].
Qed.
Lemma wait_prefix r tick a b : Forall (request_ok tick) (a ++ b) -> wait_ticks r tick a <= wait_ticks r tick (a ++ b).
Proof.
  induction a as [|p a IH]; intros H; [by apply wait_nonneg|]. inversion H as [|? ? Hp Hl]; subst. specialize (IH Hl). pose proof (cost_nonneg _ _ Hp).
  destruct (decide (count_occ RpcRef_eq_dec (rpcs (p :: a)) r = O)) as [E|E].
  - rewrite (wait_0 _ _ (p :: a)) by done. by apply wait_nonneg.
  - cbn [app]. rewrite !wait_cons; [lia | | done]. change (p :: a ++ b) with ((p :: a) ++ b). rewrite rpcs_app, count_occ_app. lia.
Qed.

(** ** Handlers *)

Definition carries (asked : list RpcRef) (m n : Traffic) : Prop :=
  traffic_ok n /\ t_tick n = t_tick m /\ (forall r, total r n = total r m) /\ (forall r, ~ In r asked -> wait r n <= wait r m) /\ same_frame m n.
Lemma carries_refl asked m : traffic_ok m -> carries asked m m.
Proof. intros H. split_and!; try done. Qed.
Lemma carries_trans asked m n k : carries asked m n -> carries asked n k -> carries asked m k.
Proof.
  intros (A & B & C & D & E & F) (A' & B' & C' & D' & E' & F').
  split; [done|]. split; [congruence|]. split; [intros; by rewrite C', C|]. split; [intros r Hr; specialize (D r Hr); specialize (D' r Hr); lia|].
  split; congruence.
Qed.
Lemma carries_steps asked m n : traffic_ok m -> steps asked m n -> carries asked m n.
Proof.
  intros H Hs. split; [by eapply steps_ok|]. split; [by apply (steps_tick asked)|]. split; [intros; by eapply steps_total|].
  split; [intros r Hr; by rewrite (steps_wait asked r m n) | by eapply steps_frame].
Qed.
Lemma carries_take asked m i p : traffic_ok m -> t_pending m !! i = Some p -> carries asked m (t_take m i p).
Proof. intros H Hp. split; [by apply ok_take|]. split; [done|]. split; [intros; by apply take_total|]. split; [intros; by apply take_wait | done]. Qed.

Section Handlers.
Context `{SC : Schemas} `{CB : Cobs} `{CC : ConsoleCodec} `{RC : RadioCodec} `{MC : MgmtCodec} `{JS : Json}.

Lemma on_late_pairing_steps result data o s : steps [] (view o s) (view o (on_late_pairing result data s)).
Proof.
  unfold on_late_pairing. destruct (negb _); [apply rtc_refl|]. destruct (from_bytes data); [apply on_paired_steps|]. by rewrite view_log.
Qed.
(** A management chunk that is not the last of a request's answer is a step; the last one takes the
    request out first. *)
Lemma on_mgmt_chunk_spec req_id result chunk last data o s : traffic_ok (view o s) ->
  steps [] (view o s) (view o (on_mgmt_chunk req_id result chunk last data s))
  \/ exists m i p n, steps [] (view o s) m /\ t_sent m = t_sent (view o s) /\ t_pending m !! i = Some p /\ steps [] (t_take m i p) n
       /\ view o (on_mgmt_chunk req_id result chunk last data s) = t_send n.
Proof.
  intros Hok. unfold on_mgmt_chunk. destruct (index_where _ _) as [idx|].
  - set (s1 := on_engine (fun e => set_pending_mgmt e (alter _ idx _)) s). cbv zeta.
    assert (H1 : view o s1 = t_set (view o s) (alter (fun p => add_chunk p chunk data) idx (t_pending (view o s))) (t_owed (view o s))) by done.
    assert (Hstep : steps [] (view o s) (view o s1)) by (rewrite H1; apply steps_1, step_chunk).
    destruct last; cbn [negb]; [|by left]. destruct (pending_mgmt (fst s1) !! idx) as [p|] eqn:Ep; [|by left]. right.
    exists (view o s1), idx, p. eexists. split_and!; [done | done | done | | rewrite view_send; reflexivity].
    assert (Hint : internal (pm_op p) = true -> pm_rpc p = None).
    { destruct (steps_ok _ _ _ Hstep Hok) as (Hr & _). rewrite Forall_lookup in Hr. by apply (Hr idx). }
    apply (on_mgmt_done_steps [] p result o (on_engine (fun e => set_pending_mgmt e (delete idx (pending_mgmt e))) s1) Hint).
  - left. destruct (last && _); [|apply rtc_refl].
    rewrite <- (view_engine o (fun e => set_late_pairing e None) s) by done. apply on_late_pairing_steps.
Qed.
Lemma time_out_steps o s i p : pending_mgmt (fst s) !! i = Some p -> steps [] (t_take (view o s) i p) (view o (fst (time_out i s))).
Proof.
  intros H. unfold time_out. rewrite H. cbn [fst]. eapply steps_trans; [|apply fail_op_steps].
  destruct (is_pairing_open _); rewrite ?view_engine, view_log by done; apply rtc_refl.
Qed.
Definition time_outs (l : list nat) (a : St * bool) : St * bool :=
  fold_left (fun '(s, resync) i => let '(s, r) := time_out i s in (s, resync || r)) l a.
Lemma time_outs_carry asked o l : StronglySorted (fun i j => (j < i)%nat) l -> forall s b, traffic_ok (view o s) -> sent_once (view o s) ->
  (forall i, overdue (view o s) i <-> In i l) ->
  let s' := fst (time_outs l (s, b)) in carries asked (view o s) (view o s') /\ sent_once (view o s') /\ in_time (view o s').
Proof.
  induction 1 as [|i l Hs IH Hi]; intros s b Hok Hse Hov; cbn [time_outs fold_left].
  { cbv zeta. cbn [fst]. split; [by apply carries_refl|]. split; [done|]. intros i Hi. by apply Hov in Hi. }
  destruct (time_out i s) as [s1 r1] eqn:E1. fold (time_outs l (s1, b || r1)).
  assert (Hoi : overdue (view o s) i) by (apply Hov; by left). pose proof Hoi as (p & Hp & _).
  pose proof (time_out_steps o s i p Hp) as Hst. rewrite E1 in Hst. cbn [fst] in Hst.
  pose proof (ok_take _ i p Hok) as Hok1. pose proof (take_sent_once _ i p Hoi Hse) as Hse1.
  assert (Hmax : forall j, overdue (view o s) j -> (j <= i)%nat).
  { intros j Hj. apply Hov in Hj as [->|Hj]; [done|]. rewrite List.Forall_forall in Hi. specialize (Hi j Hj). lia. }
  destruct (IH s1 (b || r1)) as (A & B & C).
  - by eapply steps_ok.
  - by eapply steps_sent_once.
  - intros j. rewrite (steps_overdue _ _ _ j Hst Hok1), take_overdue by done. rewrite Hov. cbn [In]. rewrite List.Forall_forall in Hi. split.
    + intros [[<-|Hj] Hne]; done.
    + intros Hj. split; [by right|]. intros ->. specialize (Hi i Hj). lia.
  - cbv zeta. split; [|by split]. eapply carries_trans; [by apply carries_take|]. eapply carries_trans; [|apply A].
    apply carries_steps; [done | by apply steps_mono].
Qed.
Lemma combine_snoc {A B} (a : list A) (b : list B) x y : length a = length b -> combine (a ++ [x]) (b ++ [y]) = combine a b ++ [(x, y)].
Proof. revert b. induction a as [|z a IH]; intros [|w b] H; try done. cbn. by rewrite IH by (by injection H). Qed.
Lemma expired_spec o s : StronglySorted (fun i j => (j < i)%nat) (expired_requests (fst s))
  /\ forall i, In i (expired_requests (fst s)) <-> overdue (view o s) i.
Proof.
  unfold expired_requests, overdue. cbn [view t_pending t_tick]. set (tk := tick (fst s)).
  enough (H : StronglySorted (fun i j => (j < i)%nat) (reverse (omap (fun '(i, p) => if pm_deadline p <=? tk then Some i else None)
      (combine (List.seq 0 (length (pending_mgmt (fst s)))) (pending_mgmt (fst s)))))
    /\ forall i, In i (reverse (omap (fun '(i, p) => if pm_deadline p <=? tk then Some i else None)
      (combine (List.seq 0 (length (pending_mgmt (fst s)))) (pending_mgmt (fst s))))) <->
      exists p, pending_mgmt (fst s) !! i = Some p /\ pm_deadline p <= tk) by done.
  induction (pending_mgmt (fst s)) as [|p l [IHs IHi]] using rev_ind; [split; [constructor | intros i; split; [done | by intros (? & ? & _)]]|].
  rewrite length_app, List.seq_app. cbn [length Nat.add List.seq]. rewrite combine_snoc by (by rewrite List.length_seq).
  rewrite omap_app, reverse_app. cbn [omap list_omap]. set (r := reverse _) in *.
  assert (Hlt : forall i, In i r -> (i < length l)%nat) by (intros i Hi; apply IHi in Hi as (q & Hq & _); by apply lookup_lt_Some in Hq).
  destruct (pm_deadline p <=? tk) eqn:E; bool_hyps; cbn [reverse rev_append app]; (split; [|intros i]).
  - constructor; [done|]. by apply List.Forall_forall.
  - cbn [In]. rewrite IHi. split.
    + intros [<-|(q & Hq & Hle)]; [exists p; by rewrite list_lookup_middle | exists q; split; [by apply lookup_app_l_Some | done]].
    + intros (q & Hq & Hle). apply lookup_app_Some in Hq as [Hq|[Hge Hq]]; [right; by exists q|]. left.
      apply list_lookup_singleton_Some in Hq as [Hq _]. lia.
  - done.
  - rewrite IHi. split.
    + intros (q & Hq & Hle). exists q. split; [by apply lookup_app_l_Some | done].
    + intros (q & Hq & Hle). apply lookup_app_Some in Hq as [Hq|[Hge Hq]]; [by exists q|].
      apply list_lookup_singleton_Some in Hq as [_ <-]. lia.
Qed.
Lemma on_tick_spec e o s : fst s = e -> snd s = [] -> let m := view o s in traffic_ok m -> in_time m -> tick e + 1 < NEVER ->
  let n := view o (on_tick s) in carries [] (t_later m) n /\ settled n /\ sent_once n /\ in_time n.
Proof.
  intros <- Hn m Hok Hit Ht n. subst n. unfold on_tick. set (s0 := on_engine _ s).
  assert (H0 : view o s0 = t_later m) by done. assert (Hok0 : traffic_ok (view o s0)) by (rewrite H0; by apply ok_later).
  assert (Hse0 : sent_once (view o s0)) by (apply sent_once_nil; rewrite H0; unfold t_later, m; cbn [t_sent view]; by rewrite Hn).
  destruct (expired_spec o s0) as [Hsort Hin].
  pose proof (time_outs_carry [] o _ Hsort s0 false Hok0 Hse0 (fun i => iff_sym (Hin i))) as Hto. cbv zeta in Hto.
  change (time_outs (expired_requests (fst s0)) (s0, false)) with (time_out_all s0) in Hto.
  destruct (time_out_all s0) as [s1 resync]. cbn [fst] in Hto. destruct Hto as (Hc1 & Hse1 & Hit1). pose proof Hc1 as (Hok1 & _).
  set (s2 := if resync then sync_queue s1 else s1). assert (H2 : steps [] (view o s1) (view o s2)) by (unfold s2; destruct resync; [apply issue_own | apply rtc_refl]).
  set (s3 := send_next_mgmt s2). assert (H3 : view o s3 = t_send (view o s2)) by apply view_send.
  assert (Hset3 : settled (view o s3)) by (rewrite H3; apply settled_send; by eapply steps_ok).
  assert (H23 : steps [] (view o s1) (view o s3)) by (eapply steps_trans; [apply H2|]; rewrite H3; apply steps_1, step_send).
  clearbody s3. cbv zeta. set (s4 := if negb (registry_synced _) && _ && _ then list_nodes s3 else s3).
  assert (H4 : steps [] (view o s3) (view o s4)) by (unfold s4; destruct (_ && _); [apply list_nodes_steps | apply rtc_refl]).
  match goal with |- carries _ _ (view o ?x) /\ _ => assert (H5 : view o x = view o s4) end.
  { set (s5 := each_node _ s4). assert (view o s5 = view o s4) as <- by (apply view_each; intros; apply view_end_dialogs).
    destruct (pairing_until _), (_ =? 0); rewrite ?view_publish_stats, ?view_publish_pairing; done. }
  rewrite H5. rewrite <- H0. assert (H14 : steps [] (view o s1) (view o s4)) by (by eapply steps_trans). split; [|split; [|split]].
  - eapply carries_trans; [apply Hc1|]. by apply carries_steps.
  - eapply steps_settled; [apply H4 | | done]. by eapply steps_ok.
  - by eapply steps_sent_once.
  - intros i Hi. apply (steps_overdue _ _ _ _ H14 Hok1) in Hi. by apply (Hit1 i).
Qed.
(** The link went down: what waited is failed, what was sent stays. *)
Lemma fail_unsent_spec o s : traffic_ok (view o s) -> in_time (view o s) -> t_sent (view o s) = [] ->
  let n := view o (fail_unsent_mgmt s) in carries [] (view o s) n /\ settled n /\ sent_once n /\ in_time n.
Proof.
  intros Hok Hit Hn. unfold fail_unsent_mgmt. cbv zeta. pose proof Hok as (Hr & Hs & Hh & Ht). cbn [view t_pending t_tick] in *.
  destruct (partition_sent _ Hs) as (a & b & Hab & Ha & Hpart). change (fun p => if pm_frame p then true else false) with waiting. rewrite Hpart.
  set (s1 := on_engine _ s). assert (Hok1 : traffic_ok (view (rpcs b ++ o) s1)).
  { rewrite Hab in *. apply Forall_app in Hr as [Hra _]. unfold traffic_ok, s1. cbn [view on_engine fst snd t_pending t_tick set_pending_mgmt pending_mgmt tick].
    split; [done|]. split; [|split; [|done]].
    - clear -Ha. induction Ha as [|p a Hp _ IH]; [done|]. cbn. by rewrite Hp.
    - rewrite holders_app, length_app in Hh. lia. }
  assert (Hfold : forall l s, steps [] (view (rpcs l ++ o) s) (view o (fold_left (fun s p => fail_op (pm_op p) (Some (pm_req_id p)) (pm_rpc p) LinkDown s) l s))).
  { clear. induction l as [|p l IH]; intros s; cbn [fold_left]; [apply rtc_refl|]. eapply steps_trans; [|apply IH].
    rewrite rpcs_cons, <- app_assoc. apply fail_op_steps. }
  specialize (Hfold b s1). set (n := view o (fold_left _ b s1)) in *.
  assert (Hset1 : settled (view (rpcs b ++ o) s1)) by by right.
  assert (Hse1 : sent_once (view (rpcs b ++ o) s1)) by (by apply sent_once_nil).
  split; [|split; [|split]].
  - destruct (carries_steps _ _ _ Hok1 Hfold) as (A & B & C & D & E). split; [done|]. split; [done|]. split; [|split; [|done]].
    + intros r. rewrite C. unfold total, s1. cbn [view t_answered t_owed t_pending on_engine fst snd set_pending_mgmt pending_mgmt].
      rewrite Hab, rpcs_app, !count_occ_app. lia.
    + intros r Hr'. specialize (D r Hr'). etrans; [apply D|]. unfold wait, s1.
      cbn [view t_pending t_tick on_engine fst set_pending_mgmt pending_mgmt tick]. rewrite Hab in *. by apply wait_prefix.
  - by eapply steps_settled.
  - by eapply steps_sent_once.
  - intros i Hi. apply (steps_overdue _ _ _ _ Hfold Hok1) in Hi as (p & Hp & Hle). apply (Hit i).
    exists p. split; [|done]. cbn [view t_pending s1 on_engine fst set_pending_mgmt pending_mgmt] in *. rewrite Hab. by apply lookup_app_l_Some.
Qed.
End Handlers.
