(* ===== verification/GwRpc.v ===== *)
(** The gateway engine's promises on its management requests, for every engine its inputs can reach. *)
From Stdlib Require Import Strings.String.
From stdpp Require Import relations.
From S2P Require Import Prelude Bytes Str Proto Cobs Fingerprint Msg Frame RadioEnv Mgmt GwTopics GwState GwEngine GwHandle GwCommand GwDemo GwMqtt GwSteps GwTraffic.

#[local] Abbreviation St := (Engine * list Output)%type.

Section Run.
Context `{SC : Schemas} `{CB : Cobs} `{CC : ConsoleCodec} `{RC : RadioCodec} `{MC : MgmtCodec} `{JS : Json}.

(** The RPC an input asks, if any. *)
Definition asks (input : Input) (e : Engine) : list RpcRef :=
  match input with
  | Frontend (FRpc req) => [{| ref_id := rq_id req; ref_origin := FromFrontend |}]
  | MqttIn topic data retain =>
      match accepted topic data retain e with
      | Some (inl req) => [{| ref_id := rq_id req; ref_origin := FromMqtt |}]
      | _ => []
      end
  | _ => []
  end.
(** The RPCs that wait for a request's answer, and those an output list answers. *)
Definition waiting_rpcs (e : Engine) : list RpcRef := rpcs (pending_mgmt e).
Definition answered (out : list Output) : list RpcRef := omap answer_of out.
Definition times (r : RpcRef) (l : list RpcRef) : Z := Z.of_nat (count_occ RpcRef_eq_dec l r).

Inductive reachable : Engine -> Prop :=
| reach_start prefix port_name describe random : reachable (fst (start (randomize_shell_ids random (new prefix port_name describe))))
| reach_input e input : reachable e -> tick e + 1 < NEVER -> reachable (fst (handle input e)).
(** A run: the engine after the inputs, and all it put out. *)
Fixpoint run (l : list Input) (e : Engine) : St :=
  match l with
  | [] => (e, [])
  | i :: l => let '(e, out) := handle i e in let '(e, out') := run l e in (e, out ++ out')
  end.
(** The RPCs a run asks. *)
Fixpoint asks_in (l : list Input) (e : Engine) : list RpcRef :=
  match l with
  | [] => []
  | i :: l => asks i e ++ asks_in l (fst (handle i e))
  end.
Definition is_tick (i : Input) : bool := match i with Tick => true | _ => false end.
Definition ticks (l : list Input) : Z := zlen (List.filter is_tick l).
Definition wait_of (r : RpcRef) (e : Engine) : Z := wait_ticks r (tick e) (pending_mgmt e).

(** ** Every input *)

Definition engine_ok (e : Engine) : Prop := let m := view [] (e, []) in traffic_ok m /\ settled m /\ in_time m.
Definition handled (asked : list RpcRef) (m n : Traffic) : Prop := carries asked m n /\ settled n /\ sent_once n /\ in_time n.
Lemma handled_steps asked m n : traffic_ok m -> settled m -> in_time m -> t_sent m = [] -> steps asked m n -> handled asked m n.
Proof.
  intros Hok Hs Hi Hn H. split; [by apply carries_steps|]. split; [by eapply steps_settled|]. split; [eapply steps_sent_once; [done..|by apply sent_once_nil]|].
  intros i Hov. apply (steps_overdue _ _ _ _ H Hok) in Hov. by apply (Hi i).
Qed.
(** The engine as a handler finds it: the id of a command accepted remembered. *)
Definition remembering (input : Input) (e : Engine) : Engine :=
  match input with
  | MqttIn topic data retain => match accepted topic data retain e with Some c => remember (command_id c) e | None => e end
  | _ => e
  end.
Lemma refused_view topic e out : Forall (refusal topic) out -> view [] (e, out) = view [] (e, []).
Proof.
  intros H. unfold view. cbn [fst snd]. assert (omap frame_of out = [] /\ omap answer_of out = []) as [-> ->]; [|done].
  induction H as [|o out [[l ->]| ->] _ [IH1 IH2]]; [done | by cbn | by cbn].
Qed.
Lemma on_mqtt_steps topic data retain e : let i := MqttIn topic data retain in
  steps (asks i e) (view (asks i e) (remembering i e, [])) (view [] (on_mqtt topic data retain (e, []))).
Proof.
  cbv zeta. cbn [asks remembering]. pose proof (on_mqtt_spec topic data retain e) as H. destruct (accepted topic data retain e) as [[req|[node req]]|].
  - rewrite H. apply on_rpc_steps. by left.
  - rewrite H. apply on_shell_req_steps.
  - destruct H as (out & -> & Hout). rewrite (refused_view topic e out Hout). apply rtc_refl.
Qed.
(** What the traffic was before the input did anything but the clock and the link. *)
Definition before (input : Input) (e : Engine) : Traffic :=
  let m := view (asks input e) (remembering input e, []) in
  match input with
  | Tick => t_later m
  | _ => m
  end.
Lemma view_subscribe o s : view o (subscribe_all s) = view o s.
Proof. unfold subscribe_all. by rewrite !view_push. Qed.
Lemma view_link o s : view o (link_event s) = view o s.
Proof. unfold link_event, event. by rewrite view_push. Qed.
Lemma serial_up_steps e : steps [] (view [] (set_links e true (mqtt_up e), [])) (view [] (handle SerialUp e)).
Proof.
  unfold handle. cbv zeta. eapply steps_trans; [|apply list_nodes_steps]. eapply steps_trans; [|apply issue_own].
  eapply steps_trans; [|apply issue_own]. rewrite view_link, view_publish_status. apply rtc_refl.
Qed.
Lemma mqtt_up_view e : view [] (handle MqttUp e) = view [] (e, []).
Proof.
  unfold handle. cbv zeta. rewrite view_link, view_each by (intros; by rewrite view_publish_pending, view_publish_node).
  by rewrite view_publish_pairing, view_publish_stats, view_publish_status, view_subscribe.
Qed.
Lemma hello_steps name version session o s : steps [] (view o s) (view o (on_serial (SHello name version session) s)).
Proof.
  unfold on_serial. cbv zeta. rewrite view_publish_status. set (s0 := on_engine _ s). change (view o s) with (view o s0).
  destruct (negb _); [|apply rtc_refl]. eapply steps_trans; [|apply list_nodes_steps]. eapply steps_trans; [|apply issue_own].
  rewrite view_each by (intros; apply view_end_dialogs). rewrite view_log. apply rtc_refl.
Qed.
Lemma radio_stat_view stat o s : view o (on_radio_stat stat s) = view o s.
Proof.
  unfold on_radio_stat, event. cbv zeta. destruct stat as [c r|dest item outcome ack]; [by rewrite !view_push, view_engine|].
  destruct (negb _); [|by rewrite !view_push]. unfold on_queue_outcome. destruct (position _ _); [|by rewrite !view_push].
  destruct (index_where _ _); [|by rewrite !view_push]. destruct (_ =? TX_DELIVERED); [by rewrite view_pending, !view_push|].
  destruct (_ =? TX_EXPIRED); [|by rewrite !view_push]. cbv zeta. unfold shell_error.
  case_match; by rewrite ?view_publish_pending, ?view_shell_respond, view_pending, !view_push.
Qed.
Lemma handle_handled input e : engine_ok e -> tick e + 1 < NEVER -> handled (asks input e) (before input e) (view [] (handle input e)).
Proof.
  intros (Hok & Hset & Hit) Ht.
  assert (Hq : forall o asked n, steps asked (view o (e, [])) n -> handled asked (view o (e, [])) n) by (intros; by apply handled_steps).
  assert (Hup : forall up n, steps [] (view [] (set_links e up (mqtt_up e), [])) n -> handled [] (view [] (e, [])) n).
  { intros up n H. by apply (handled_steps [] (view [] (set_links e up (mqtt_up e), []))). }
  destruct input as [| |msg| | |topic data retain|[req|node req]|]; unfold before; cbn [asks].
  - apply (Hup true), serial_up_steps.
  - set (s1 := (set_links e false (mqtt_up e), []) : St). unfold handle. cbv zeta. set (s2 := log LSerialLost _).
    assert (H2 : view [] s2 = view [] s1) by (unfold s2; by rewrite view_log, view_link, view_publish_status).
    pose proof (fail_unsent_spec [] s2) as Hf. rewrite H2 in Hf. by apply Hf.
  - destruct msg as [n v sess|line|src counter rssi lqi data|req_id result chunk last data|stat|count|]; cbn [handle].
    + apply Hq, hello_steps.
    + apply Hq. cbn [on_serial]. rewrite view_log. apply rtc_refl.
    + apply Hq, on_uplink_steps.
    + cbn [on_serial]. destruct (on_mgmt_chunk_spec req_id result chunk last data [] (e, []) Hok) as [H|(m & i & p & n & Hm & Hs & Hp & Hn & ->)]; [by apply Hq|].
      assert (Hokm : traffic_ok m) by (by eapply steps_ok). assert (Hokt : traffic_ok (t_take m i p)) by (by apply ok_take).
      assert (Hokn : traffic_ok n) by (by eapply steps_ok).
      assert (Hend : steps [] (t_take m i p) (t_send n)) by (eapply steps_trans; [apply Hn | apply steps_1, step_send]).
      split; [|split; [|split]].
      * eapply carries_trans; [by apply carries_steps|]. eapply carries_trans; [by apply carries_take|]. by apply carries_steps.
      * by apply settled_send.
      * eapply steps_sent_once; [apply Hend | done|]. apply sent_once_nil. cbn. by rewrite Hs.
      * intros j Hj. apply (steps_overdue _ _ _ _ Hend Hokt) in Hj as (q & Hq' & Hle). unfold t_take, t_set in Hq'. cbn [t_pending] in Hq'.
        assert (exists k, t_pending m !! k = Some q) as [k Hk].
        { destruct (decide (j < i)%nat); [exists j; by rewrite list_lookup_delete_lt in Hq' by lia|].
          exists (S j). by rewrite list_lookup_delete_ge in Hq' by lia. }
        apply (Hit k). apply (steps_overdue _ _ _ _ Hm Hok). by exists q.
    + apply Hq. cbn [on_serial]. rewrite radio_stat_view. apply rtc_refl.
    + apply Hq. cbn [on_serial]. rewrite view_log. apply rtc_refl.
    + apply Hq. cbn [on_serial]. rewrite view_log. apply rtc_refl.
  - apply Hq. rewrite mqtt_up_view. apply rtc_refl.
  - apply Hq. unfold handle. cbv zeta. destruct (mqtt_up e); rewrite view_log, view_link; apply rtc_refl.
  - pose proof (on_mqtt_steps topic data retain e) as H. cbv zeta in H. cbn [asks] in H.
    eapply (handled_steps _ (view _ (remembering (MqttIn topic data retain) e, []))); [| | | |apply H];
      cbn [remembering]; by destruct (accepted topic data retain e).
  - apply Hq. apply on_rpc_steps. by left.
  - apply Hq. apply on_shell_req_steps.
  - apply (on_tick_spec e [] (e, [])); done.
Qed.
Lemma before_fields input e : t_pending (before input e) = pending_mgmt e /\ t_tick (before input e) = tick e + (if is_tick input then 1 else 0)
  /\ t_owed (before input e) = asks input e /\ t_answered (before input e) = [] /\ t_ids (before input e) = recent_ids (remembering input e)
  /\ t_prefix (before input e) = prefix e.
Proof.
  assert (H : pending_mgmt (remembering input e) = pending_mgmt e /\ tick (remembering input e) = tick e /\ prefix (remembering input e) = prefix e).
  { destruct input; try done. cbn [remembering]. by destruct (accepted _ _ _ _). }
  destruct H as (A & B & C). unfold before, view, t_later. destruct input; cbn [t_pending t_tick t_owed t_answered t_ids t_prefix fst snd is_tick];
    rewrite ?A, ?B, ?C, ?Z.add_0_r; split_and!; done.
Qed.
Lemma total_before r input e : Z.of_nat (total r (before input e)) = times r (asks input e) + times r (waiting_rpcs e).
Proof. destruct (before_fields input e) as (A & _ & B & C & _). unfold total, times, waiting_rpcs. rewrite A, B, C. cbn [count_occ]. lia. Qed.
Lemma total_after r s : Z.of_nat (total r (view [] s)) = times r (answered (snd s)) + times r (waiting_rpcs (fst s)).
Proof. unfold total, times, waiting_rpcs, answered. cbn [view t_answered t_owed t_pending count_occ]. lia. Qed.
Lemma before_tick input e : t_tick (before input e) = tick e + (if is_tick input then 1 else 0).
Proof. apply before_fields. Qed.
Lemma handle_ok input e : engine_ok e -> tick e + 1 < NEVER -> engine_ok (fst (handle input e)).
Proof. intros He Ht. destruct (handle_handled input e He Ht) as ((A & _) & B & _ & C). done. Qed.
Lemma handle_tick input e : engine_ok e -> tick e + 1 < NEVER -> tick (fst (handle input e)) = tick e + (if is_tick input then 1 else 0).
Proof. intros He Ht. destruct (handle_handled input e He Ht) as ((_ & A & _) & _). rewrite <- before_tick. apply A. Qed.
Lemma handle_counts r input e : engine_ok e -> tick e + 1 < NEVER ->
  times r (answered (snd (handle input e))) + times r (waiting_rpcs (fst (handle input e))) = times r (waiting_rpcs e) + times r (asks input e).
Proof.
  intros He Ht. destruct (handle_handled input e He Ht) as ((_ & _ & A & _) & _). specialize (A r).
  pose proof (total_before r input e). pose proof (total_after r (handle input e)). lia.
Qed.
(** An input the RPC does not come in again with: its wait does not grow, and a tick shortens it. *)
Lemma handle_wait r input e : engine_ok e -> tick e + 1 < NEVER -> ~ In r (asks input e) ->
  wait_of r (fst (handle input e)) <= wait_of r e - (if is_tick input && (0 <? times r (waiting_rpcs e)) then 1 else 0).
Proof.
  intros He Ht Hr. destruct (handle_handled input e He Ht) as ((_ & _ & _ & A & _) & _). specialize (A r Hr).
  assert (Hw : wait r (before input e) <= wait_of r e - (if is_tick input && (0 <? times r (waiting_rpcs e)) then 1 else 0)).
  { destruct He as (Hok & Hset & _). destruct (is_tick input) eqn:Ei.
    2:{ cbn [andb]. destruct (before_fields input e) as (B & C & _). unfold wait, wait_of. rewrite B, C, Ei, Z.add_0_r. lia. }
    destruct input; try done. unfold before, times, waiting_rpcs.
    change (wait_of r e) with (wait r (view [] (e, []))). destruct (0 <? _) eqn:E; bool_hyps; cbn [andb asks].
    - apply wait_later; [done | done|]. cbn [view t_pending fst]. lia.
    - rewrite Z.sub_0_r. apply wait_later_le. }
  change (wait_of r (fst (handle input e))) with (wait r (view [] (handle input e))). lia.
Qed.
Lemma reachable_ok e : reachable e -> engine_ok e.
Proof.
  induction 1 as [p n d b|e i _ IH Ht]; [|by apply handle_ok]. set (e0 := randomize_shell_ids b (new p n d)).
  assert (Hv : view [] (e0, []) = view [] (new p n d, [])) by (unfold e0, randomize_shell_ids; by destruct b).
  assert (Hok0 : traffic_ok (view [] (e0, []))).
  { rewrite Hv. unfold traffic_ok. cbn. split_and!; [constructor | done | lia | done]. }
  assert (Hsteps : steps [] (view [] (e0, [])) (view [] (start e0))).
  { unfold start. cbv zeta. rewrite view_log. eapply steps_trans; [|apply issue_own]. eapply steps_trans; [|apply list_nodes_steps].
    rewrite view_subscribe. apply rtc_refl. }
  destruct (handled_steps [] _ _ Hok0 ltac:(right; rewrite Hv; constructor) ltac:(rewrite Hv; by intros i (q & Hq & _)) eq_refl Hsteps) as ((A & _) & B & _ & C).
  done.
Qed.

(** ** The promises *)

(** C11. Every RPC is answered exactly once: whatever comes in (commands, replies with missing, repeated or foreign chunks, timeouts, a
    reboot or a lost link), the answers given for an RPC and the requests still open for it together are what was open before and, when
    the input asks the RPC, one more. Nothing is answered twice, by two handlers, or dropped. *)
Theorem rpc_answered_once e input r : reachable e -> tick e + 1 < NEVER ->
  times r (answered (snd (handle input e))) + times r (waiting_rpcs (fst (handle input e))) = times r (waiting_rpcs e) + times r (asks input e).
Proof. intros He Ht. by apply handle_counts, Ht; apply reachable_ok. Qed.

(** The dongle's one-deep inbox is never overrun nor left idle: no input makes the engine send two requests, at most one request
    sent holds the inbox, and a request waits only while one does. *)
Theorem one_request_in_inbox e input : reachable e -> tick e + 1 < NEVER ->
  let '(e', out) := handle input e in
  zlen (omap frame_of out) <= 1 /\ zlen (holders (tick e') (pending_mgmt e')) <= 1
  /\ (holders (tick e') (pending_mgmt e') = [] -> Forall (fun p => waiting p = false) (pending_mgmt e')).
Proof.
  intros He%reachable_ok Ht. pose proof (handle_handled input e He Ht) as ((A & _) & B & (C & _) & _). destruct (handle input e) as [e' out].
  destruct A as (_ & _ & A & _). unfold zlen. cbn [view t_pending t_tick t_sent fst snd] in *. split; [lia|]. split; [lia|].
  intros Hn. destruct B as [B|B]; [|done]. cbn [view t_pending t_tick fst] in B. apply existsb_exists in B as (q & Hin & Hq).
  assert (In q (holders (tick e') (pending_mgmt e'))) as Hf by (by apply filter_In). by rewrite Hn in Hf.
Qed.

Lemma run_wait r l : forall e, engine_ok e -> ~ In r (asks_in l e) -> tick e + zlen l < NEVER ->
  let '(e', out) := run l e in
  engine_ok e' /\ times r (answered out) + times r (waiting_rpcs e') = times r (waiting_rpcs e)
  /\ (times r (waiting_rpcs e') = 0 \/ wait_of r e' <= wait_of r e - ticks l).
Proof.
  induction l as [|i l IH]; intros e He Hr Ht; cbn [run asks_in] in *.
  { split; [done|]. split; [done|]. right. change (ticks []) with 0. lia. }
  rewrite zlen_cons in Ht. pose proof (zlen_nonneg l). rewrite in_app_iff in Hr. apply Decidable.not_or in Hr as [Hr Hrl].
  assert (Ht1 : tick e + 1 < NEVER) by lia. pose proof (handle_ok i e He Ht1) as He1. pose proof (handle_counts r i e He Ht1) as Hc.
  pose proof (handle_wait r i e He Ht1 Hr) as Hw. pose proof (handle_tick i e He Ht1) as Htk.
  assert (Ha : times r (asks i e) = 0) by (unfold times; by rewrite (proj1 (count_occ_not_In RpcRef_eq_dec _ _) Hr)).
  destruct (handle i e) as [e1 out1]. cbn [fst snd] in *. assert (Ht2 : tick e1 + zlen l < NEVER) by (destruct (is_tick i); lia).
  specialize (IH e1 He1 Hrl Ht2). destruct (run l e1) as [e2 out2]. destruct IH as (A & B & C).
  assert (Happ : times r (answered (out1 ++ out2)) = times r (answered out1) + times r (answered out2)).
  { unfold times, answered. rewrite omap_app, count_occ_app. lia. }
  split; [done|]. split; [lia|]. destruct C as [C|C]; [by left|].
  assert (Hn : forall l, 0 <= times r l) by (intros; unfold times; lia). pose proof (Hn (waiting_rpcs e2)). pose proof (Hn (answered out2)). pose proof (Hn (answered out1)).
  destruct (decide (times r (waiting_rpcs e) = 0)); [left; lia|]. right. replace (0 <? times r (waiting_rpcs e)) with true in Hw by (symmetry; apply Z.ltb_lt; pose proof (Hn (waiting_rpcs e)); lia).
  unfold ticks in *. cbn [List.filter]. destruct (is_tick i); cbn [andb] in Hw; rewrite ?zlen_cons; lia.
Qed.
Lemma wait_positive r e : engine_ok e -> 0 < times r (waiting_rpcs e) -> 0 < wait_of r e.
Proof.
  intros ((Hr & _) & _ & Hit). apply in_time_Forall in Hit. cbn [view t_pending t_tick fst] in *. unfold times, waiting_rpcs, wait_of.
  destruct (pending_mgmt e) as [|p l]; [done|]. intros Hc. inversion Hr as [|? ? Hp Hl]; subst. inversion Hit as [|? ? Hd _]; subst.
  rewrite wait_cons by lia. pose proof (wait_nonneg r _ _ Hl). unfold cost, request_ok in *. destruct (waiting p); lia.
Qed.

(** C12. Every RPC is answered in bounded time, whatever the dongle, the broker and the clients do: after as many ticks as the requests up
    to its own can take one after the other ([wait_of]), however many inputs come in between, every request open for it has been
    answered, each once. *)
Theorem rpc_answered_in_time e l r : reachable e -> tick e + zlen l < NEVER -> ~ In r (asks_in l e) -> wait_of r e <= ticks l ->
  let '(e', out) := run l e in times r (waiting_rpcs e') = 0 /\ times r (answered out) = times r (waiting_rpcs e).
Proof.
  intros He%reachable_ok Ht Hr Hw. pose proof (run_wait r l e He Hr Ht) as H. destruct (run l e) as [e' out]. destruct H as (He' & Hc & H).
  assert (times r (waiting_rpcs e') = 0) as H0; [|by rewrite H0 in *; lia].
  destruct H as [H|H]; [done|]. destruct (decide (times r (waiting_rpcs e') = 0)) as [|Hn]; [done|].
  pose proof (wait_positive r e' He'). unfold times in *. lia.
Qed.

(** ** Redeliveries *)

Lemma handle_ids input e : engine_ok e -> tick e + 1 < NEVER -> recent_ids (fst (handle input e)) = recent_ids (remembering input e).
Proof.
  intros He Ht. destruct (handle_handled input e He Ht) as ((_ & _ & _ & _ & A & _) & _).
  destruct (before_fields input e) as (_ & _ & _ & _ & B & _). by rewrite B in A.
Qed.
(** The commands a run accepts. *)
Definition accepts (input : Input) (e : Engine) : Z :=
  match input with MqttIn topic data retain => if accepted topic data retain e then 1 else 0 | _ => 0 end.
Fixpoint accepts_in (l : list Input) (e : Engine) : Z :=
  match l with
  | [] => 0
  | i :: l => accepts i e + accepts_in l (fst (handle i e))
  end.
(** [id] is remembered, at most [k] ids after it. *)
Definition remembered (id : list Z) (k : Z) (e : Engine) : Prop := exists a b, recent_ids e = a ++ id :: b /\ zlen b <= k.
Lemma remember_keeps id x k e : remembered id k e -> k < RECENT_IDS - 1 -> remembered id (k + 1) (remember x e).
Proof.
  intros (a & b & H & Hb) Hk. unfold remembered, remember, RECENT_IDS in *. cbn [set_recent_ids recent_ids]. rewrite H. destruct (_ <=? _) eqn:E; bool_hyps.
  - destruct a as [|y a]; cbn [app List.tl] in *; [rewrite zlen_cons in E; lia|]. exists a, (b ++ [x]). split; [by rewrite <- app_assoc|].
    rewrite zlen_app, zlen_cons, zlen_nil. lia.
  - exists a, (b ++ [x]). split; [by rewrite <- app_assoc|]. rewrite zlen_app, zlen_cons, zlen_nil. lia.
Qed.
Lemma handle_keeps id k input e : engine_ok e -> tick e + 1 < NEVER -> remembered id k e -> k + accepts input e < RECENT_IDS ->
  remembered id (k + accepts input e) (fst (handle input e)).
Proof.
  intros He Ht H Hk. unfold remembered. rewrite handle_ids by done. unfold remembering, accepts in *.
  destruct input as [| | | | |topic data retain| |]; rewrite ?Z.add_0_r; try done.
  destruct (accepted topic data retain e); [|by rewrite Z.add_0_r]. apply remember_keeps; [done | lia].
Qed.
Lemma accepts_nonneg input e : 0 <= accepts input e.
Proof. unfold accepts. destruct input; try lia. destruct (accepted _ _ _ _); lia. Qed.
Lemma run_keeps id l : forall k e, engine_ok e -> tick e + zlen l < NEVER -> remembered id k e -> k + accepts_in l e < RECENT_IDS ->
  remembered id (k + accepts_in l e) (fst (run l e)).
Proof.
  induction l as [|i l IH]; intros k e He Ht H Hk; cbn [run accepts_in] in *; [by rewrite Z.add_0_r|].
  rewrite zlen_cons in Ht. pose proof (zlen_nonneg l). pose proof (handle_tick i e He ltac:(lia)) as Htk. pose proof (handle_ok i e He ltac:(lia)) as He1.
  assert (Hn : forall l e, 0 <= accepts_in l e) by (clear; induction l as [|i l IH]; intros e; cbn [accepts_in]; [lia|]; pose proof (accepts_nonneg i e); specialize (IH (fst (handle i e))); lia).
  pose proof (Hn l (fst (handle i e))). pose proof (handle_keeps id k i e He ltac:(lia) H ltac:(lia)) as Hk1.
  destruct (handle i e) as [e1 out1]. cbn [fst] in *. assert (Ht2 : tick e1 + zlen l < NEVER) by (destruct (is_tick i); lia).
  specialize (IH (k + accepts i e) e1 He1 Ht2 Hk1 ltac:(lia)). destruct (run l e1) as [e2 out2]. cbn [fst] in *. by rewrite Z.add_assoc.
Qed.
Lemma remembered_refused id k e : remembered id k e -> new_id id e = false.
Proof.
  intros (a & b & H & _). unfold new_id. rewrite H, existsb_app. cbn [existsb]. rewrite bool_decide_true by done. cbn [orb]. by rewrite orb_true_r, andb_false_r.
Qed.
(** A redelivery is ignored: once a command has been accepted, no message with its id is accepted again until the engine has accepted
    [RECENT_IDS] others, whatever else comes in meanwhile; so a command redelivered by the broker does not run twice. *)
Theorem redelivery_ignored e topic data c l topic' data' c' : reachable e -> tick e + 1 + zlen l < NEVER ->
  accepted topic data false e = Some c -> let e1 := fst (handle (MqttIn topic data false) e) in
  accepts_in l e1 < RECENT_IDS -> accepted topic' data' false (fst (run l e1)) = Some c' -> command_id c' <> command_id c.
Proof.
  intros He%reachable_ok Ht Ha e1 Hl Ha' Hid. pose proof (zlen_nonneg l) as Hz.
  pose proof (handle_ok (MqttIn topic data false) e He ltac:(lia)) as He1. pose proof (handle_tick (MqttIn topic data false) e He ltac:(lia)) as Ht1.
  pose proof (handle_ids (MqttIn topic data false) e He ltac:(lia)) as Hi. cbn [is_tick] in Ht1. fold e1 in He1, Ht1, Hi.
  assert (Hr : remembered (command_id c) 0 e1).
  { unfold remembered. rewrite Hi. cbn [remembering]. rewrite Ha. unfold remember. cbn [set_recent_ids recent_ids].
    eexists _, []. by split. }
  pose proof (run_keeps (command_id c) l 0 e1 He1 ltac:(lia) Hr ltac:(lia)) as Hk. apply remembered_refused in Hk. rewrite <- Hid in Hk.
  apply accepted_fresh in Ha' as (_ & _ & _ & _ & Hn). by rewrite Hk in Hn.
Qed.
End Run.

Module Demo.
Lemma demo_reachable : reachable fresh_engine.
Proof. apply reach_start. Qed.
Lemma synced_reachable : reachable synced.
Proof. unfold synced. apply reach_input; [apply reach_input; [apply demo_reachable|]|]; vm_compute; done. Qed.
Definition describe_7 : Input := Frontend (FRpc {| rq_id := [55]; rq_op := GwDemo.demo_op; rq_params := JNull |}).
Definition rpc_7 : RpcRef := {| ref_id := [55]; ref_origin := FromFrontend |}.
Lemma rpc_answered_once_witness : times rpc_7 (asks describe_7 fresh_engine) = 1
  /\ times rpc_7 (answered (snd (handle describe_7 fresh_engine))) + times rpc_7 (waiting_rpcs (fst (handle describe_7 fresh_engine)))
     = times rpc_7 (waiting_rpcs fresh_engine) + times rpc_7 (asks describe_7 fresh_engine).
Proof.
  split; [vm_compute; reflexivity|]. apply rpc_answered_once; [apply demo_reachable | vm_compute; reflexivity].
Defined.
Lemma one_request_in_inbox_witness : let '(e', out) := handle describe_7 synced in
  zlen (omap frame_of out) <= 1 /\ zlen (holders (tick e') (pending_mgmt e')) <= 1
  /\ (holders (tick e') (pending_mgmt e') = [] -> Forall (fun p => waiting p = false) (pending_mgmt e')).
Proof. apply (one_request_in_inbox synced describe_7); [apply synced_reachable | vm_compute; reflexivity]. Defined.
(** Behind the two startup requests, none of the three answered: 24 ticks. *)
Lemma rpc_answered_in_time_witness : let e := fst (handle describe_7 fresh_engine) in
  wait_of rpc_7 e = 24 /\ let '(e', out) := run (repeat Tick 24) e in times rpc_7 (waiting_rpcs e') = 0 /\ times rpc_7 (answered out) = times rpc_7 (waiting_rpcs e).
Proof.
  split; [vm_compute; reflexivity|]. apply rpc_answered_in_time.
  - apply reach_input; [apply demo_reachable | vm_compute; reflexivity].
  - vm_compute. reflexivity.
  - vm_compute. tauto.
  - vm_compute. discriminate.
Defined.
(** The command comes again after a tick, then another: ignored, run. *)
Lemma redelivery_ignored_witness : accepts_in [Tick] (fst (handle (MqttIn (gateway_cmd (lit "tower/")) [1; 65] false) synced)) = 0
  /\ accepted (gateway_cmd (lit "tower/")) [1; 66] false (fst (run [Tick] (fst (handle (MqttIn (gateway_cmd (lit "tower/")) [1; 65] false) synced)))) <> None
  /\ forall c', accepted (gateway_cmd (lit "tower/")) [1; 65] false (fst (run [Tick] (fst (handle (MqttIn (gateway_cmd (lit "tower/")) [1; 65] false) synced)))) = Some c' ->
       command_id c' <> [65].
Proof.
  split; [vm_compute; reflexivity|]. split; [vm_compute; discriminate|]. intros c' Hc'.
  refine (redelivery_ignored synced (gateway_cmd (lit "tower/")) [1; 65] (inl {| rq_id := [65]; rq_op := demo_op; rq_params := JNull |}) [Tick]
            (gateway_cmd (lit "tower/")) [1; 65] c' synced_reachable _ _ _ Hc'); vm_compute; reflexivity.
Defined.
End Demo.
