(* ===== verification/GwReplay.v ===== *)
(** Replays: the counters the gateway engine publishes for a node. *)
From Stdlib Require Import Strings.String Sorted.
From S2P Require Import Prelude Bytes Str Proto Cobs Fingerprint Msg Frame RadioEnv Mgmt GwTopics GwState GwEngine GwHandle GwCommand GwDemo GwMqtt GwRpc GwDialog.

#[local] Abbreviation St := (Engine * list Output)%type.

Section Lane.
Context (src : Z).

(** The last counter published for the node. *)
Definition lane (l : list NodeMirror) : option Z := find_node src l ≫= nm_last_counter.
Definition uplink_of (prefix : list Z) (o : Output) : option Z :=
  match o with Publish t (PUplink counter _ _ _) _ => if bool_decide (t = node_uplink prefix src) then Some counter else None | _ => None end.
(** The counters published for the node, in order. *)
Definition published (prefix : list Z) (out : list Output) : list Z := omap (uplink_of prefix) out.
(** What a handler must leave alone, or move only by publishing. *)
Definition tracks (p : list Z) (s : St) : option Z * list Z * list Z * list HeldUplink :=
  (lane (nodes (fst s)), published p (snd s), prefix (fst s), held (fst s)).
(** The lane after publishing [cs]: each counter past the one before. *)
Fixpoint advance (last : option Z) (cs : list Z) : option (option Z) :=
  match cs with
  | [] => Some last
  | c :: cs => if match last with Some l => l <? c | None => true end then advance (Some c) cs else None
  end.

(** ** Rows *)

Lemma find_cons a n l : find_node a (n :: l) = if addr_of n =? a then Some n else find_node a l.
Proof. done. Qed.
Lemma lane_map (f : NodeMirror -> NodeMirror) l l' : Forall2 (fun n n' => addr_of n' = addr_of n /\ nm_last_counter n' = nm_last_counter n) l l' -> lane l' = lane l.
Proof.
  unfold lane. induction 1 as [|n n' l l' [Ha Hc] _ IH]; [done|]. rewrite !find_cons, Ha. destruct (addr_of n =? src); [done | apply IH].
Qed.
Lemma lane_alter f i l : (forall n, addr_of (f n) = addr_of n) -> (forall n, nm_last_counter (f n) = nm_last_counter n) -> lane (alter f i l) = lane l.
Proof.
  intros Ha Hc. unfold lane. revert i. induction l as [|n l IH]; intros [|i]; try done.
  - change (alter f 0%nat (n :: l)) with (f n :: l). rewrite !find_cons, Ha. destruct (addr_of n =? src); [apply Hc | done].
  - change (alter f (S i) (n :: l)) with (n :: alter f i l). rewrite !find_cons. destruct (addr_of n =? src); [done | apply IH].
Qed.
Lemma find_update a f l : (forall n, addr_of (f n) = addr_of n) ->
  find_node src (update_node a f l) = if src =? a then f <$> find_node src l else find_node src l.
Proof.
  intros Ha. induction l as [|n l IH]; [by destruct (src =? a)|]. cbn [update_node]. destruct (addr_of n =? a) eqn:E; rewrite !find_cons; rewrite ?Ha.
  - bool_hyps. subst a. rewrite (Z.eqb_sym src). by destruct (addr_of n =? src).
  - destruct (addr_of n =? src) eqn:E2; [|apply IH]. bool_hyps. subst src. by rewrite (proj2 (Z.eqb_neq _ _)) by done.
Qed.
Lemma lane_update a f l : (forall n, addr_of (f n) = addr_of n) -> (forall n, nm_last_counter (f n) = nm_last_counter n) -> lane (update_node a f l) = lane l.
Proof. intros Ha Hc. unfold lane. rewrite find_update by done. destruct (src =? a); [|done]. destruct (find_node src l); [apply Hc | done]. Qed.
Lemma lane_snoc l n : nm_last_counter n = None -> lane (l ++ [n]) = lane l.
Proof.
  intros H. unfold lane. induction l as [|m l IH]; cbn [app]; [rewrite find_cons; by destruct (addr_of n =? src)|].
  rewrite !find_cons. by destruct (addr_of m =? src).
Qed.

(** ** What leaves the lane alone *)

Context (p : list Z).
Create HintDb lane.
Lemma tracks_push o s : uplink_of p o = None -> tracks p (push o s) = tracks p s.
Proof. intros H. unfold tracks, published, push. cbn [fst snd]. rewrite omap_app. cbn [omap list_omap]. by rewrite H, app_nil_r. Qed.
Lemma tracks_engine f s : lane (nodes (f (fst s))) = lane (nodes (fst s)) -> prefix (f (fst s)) = prefix (fst s) -> held (f (fst s)) = held (fst s) ->
  tracks p (on_engine f s) = tracks p s.
Proof. intros A B C. unfold tracks, on_engine. cbn [fst snd]. by rewrite A, B, C. Qed.
Lemma tracks_nodes f s : lane (f (nodes (fst s))) = lane (nodes (fst s)) -> tracks p (on_nodes f s) = tracks p s.
Proof. intros H. by apply tracks_engine. Qed.
Lemma tracks_pending i f s : tracks p (on_pending i f s) = tracks p s.
Proof. apply tracks_nodes. by apply lane_alter. Qed.
Lemma tracks_log l s : tracks p (log l s) = tracks p s.
Proof. by apply tracks_push. Qed.
Lemma tracks_event x s : tracks p (event x s) = tracks p s.
Proof. by apply tracks_push. Qed.
Lemma tracks_fold {A} (f : St -> A -> St) l : forall s, (forall s x, tracks p (f s x) = tracks p s) -> tracks p (fold_left f l s) = tracks p s.
Proof. induction l as [|x l IH]; intros s H; [done|]. cbn [fold_left]. by rewrite IH, H. Qed.
Lemma tracks_each f s : (forall i s, tracks p (f i s) = tracks p s) -> tracks p (each_node f s) = tracks p s.
Proof. intros H. apply tracks_fold. intros s' i. apply H. Qed.
#[local] Hint Rewrite tracks_log tracks_event tracks_pending : lane.
Ltac calm := repeat first [rewrite tracks_push by done | rewrite tracks_engine by done | progress autorewrite with lane].
Lemma tracks_emit s : tracks p (emit_registry s) = tracks p s.
Proof. unfold emit_registry. by calm. Qed.
#[local] Hint Rewrite tracks_emit : lane.
Lemma tracks_publish_node i s : tracks p (publish_node i s) = tracks p s.
Proof. unfold publish_node. destruct (_ !! _); [|done]. by calm. Qed.
Lemma tracks_publish_pending i s : tracks p (publish_pending i s) = tracks p s.
Proof. unfold publish_pending. destruct (_ !! _); [|done]. by calm. Qed.
Lemma tracks_publish_status s : tracks p (publish_status s) = tracks p s.
Proof. unfold publish_status. by calm. Qed.
Lemma tracks_publish_stats s : tracks p (publish_stats s) = tracks p s.
Proof. unfold publish_stats. by calm. Qed.
Lemma tracks_publish_pairing j a s : tracks p (publish_pairing j a s) = tracks p s.
Proof. unfold publish_pairing. by calm. Qed.
Lemma tracks_rpc_respond o r s : tracks p (rpc_respond o r s) = tracks p s.
Proof. unfold rpc_respond. destruct o; by calm. Qed.
Lemma tracks_rpc_err_direct r e s : tracks p (rpc_err_direct r e s) = tracks p s.
Proof. apply tracks_rpc_respond. Qed.
Lemma tracks_rpc_err q e s : tracks p (rpc_err q e s) = tracks p s.
Proof. unfold rpc_err. destruct (pm_rpc q); [apply tracks_rpc_respond | done]. Qed.
Lemma tracks_rpc_ok q d s : tracks p (rpc_ok q d s) = tracks p s.
Proof. unfold rpc_ok. destruct (pm_rpc q); [apply tracks_rpc_respond | done]. Qed.
Lemma tracks_shell_respond n r s : tracks p (shell_respond n r s) = tracks p s.
Proof. unfold shell_respond. by calm. Qed.
#[local] Hint Rewrite tracks_publish_node tracks_publish_pending tracks_publish_status tracks_publish_stats tracks_publish_pairing
  tracks_rpc_respond tracks_rpc_err_direct tracks_rpc_err tracks_rpc_ok tracks_shell_respond : lane.
Lemma tracks_shell_errors n l why s : tracks p (shell_errors n l why s) = tracks p s.
Proof. apply tracks_fold. intros. unfold shell_error. by calm. Qed.
Lemma tracks_end_pairing r s : tracks p (end_pairing r s) = tracks p s.
Proof. unfold end_pairing. case_bool_decide; by calm. Qed.
Lemma tracks_end_dialogs always dead why i s : tracks p (end_dialogs always dead why i s) = tracks p s.
Proof.
  unfold end_dialogs. destruct (_ !! _); [|done]. destruct (List.partition _ _) as [gone keep].
  assert (H : tracks p (on_engine (fun e => set_nodes e (alter (fun n => set_pending n keep) i (nodes e))) s) = tracks p s)
    by (apply (tracks_nodes (alter (fun n => set_pending n keep) i)); by apply lane_alter).
  cbv zeta. destruct (always || _); [|done]. calm. by rewrite tracks_shell_errors.
Qed.
#[local] Hint Rewrite tracks_shell_errors tracks_end_pairing tracks_end_dialogs : lane.
Lemma tracks_node_gone a l s : tracks p (node_gone a l s) = tracks p s.
Proof. unfold node_gone. rewrite tracks_fold by (intros; by calm). by calm. Qed.
Lemma tracks_provisional a name flags s : tracks p (on_engine (provisional_node a name flags) s) = tracks p s.
Proof.
  unfold provisional_node. apply tracks_engine; destruct (existsb _ _); try done. cbn [set_nodes nodes]. by apply lane_snoc.
Qed.
#[local] Hint Rewrite tracks_node_gone tracks_provisional : lane.

Context `{SC : Schemas} `{CB : Cobs} `{CC : ConsoleCodec} `{RC : RadioCodec} `{MC : MgmtCodec} `{JS : Json}.

Lemma tracks_send s : tracks p (send_next_mgmt s) = tracks p s.
Proof. unfold send_next_mgmt. destruct (existsb _ _); [done|]. destruct (send_first _ _) as [[f l]|]; by calm. Qed.
Definition stays (f : OpKind.OpKind -> option Z -> option RpcRef -> Reason -> St -> St) : Prop := forall op id rpc e s, tracks p (f op id rpc e s) = tracks p s.
Lemma issue_with_tracks f kind op rpc t s : stays f -> tracks p (fst (issue_with f kind op rpc t s)) = tracks p s.
Proof.
  intros Hf. unfold issue_with. destruct (negb _); [apply Hf|]. destruct (encode_mgmt _ _ _); cbn [fst]; [rewrite tracks_send | rewrite Hf]; by calm.
Qed.
Lemma fail_with_tracks relist : (forall s, tracks p (relist s) = tracks p s) -> stays (fail_with relist).
Proof.
  intros Hr op id rpc e s. unfold fail_with. cbv zeta.
  destruct rpc, op as [| | | | | | | |node [o|]| | | | |]; calm; try done;
    repeat match goal with |- context [match ?x with _ => _ end] => destruct x end; calm; rewrite ?Hr; done.
Qed.
Lemma fail_op_tracks : stays fail_op.
Proof. apply fail_with_tracks. intros s. unfold relist. apply issue_with_tracks. by apply fail_with_tracks. Qed.
Lemma issue_delayed_tracks kind op rpc t s : tracks p (fst (issue_delayed kind op rpc t s)) = tracks p s.
Proof. apply issue_with_tracks, fail_op_tracks. Qed.
Lemma issue_pair_tracks kind op rpc s s' r : issue kind op rpc s = (s', r) -> tracks p s' = tracks p s.
Proof. intros H. pose proof (issue_delayed_tracks kind op rpc MGMT_TIMEOUT_TICKS s) as Hi. fold (issue kind op rpc s) in Hi. by rewrite H in Hi. Qed.
Lemma issue__tracks kind op rpc s : tracks p (issue_ kind op rpc s) = tracks p s.
Proof. apply issue_delayed_tracks. Qed.
Lemma list_nodes_tracks s : tracks p (list_nodes s) = tracks p s.
Proof. apply issue__tracks. Qed.
#[local] Hint Rewrite tracks_send list_nodes_tracks issue__tracks fail_op_tracks : lane.

Lemma on_node_info_tracks a info s : tracks p (on_node_info a info s) = tracks p s.
Proof.
  unfold on_node_info. destruct (position _ _) as [i|]; [|done]. cbv zeta. calm.
  match goal with |- context [if ?b then (match issue ?k ?op None ?x with _ => _ end) else _] => set (s0 := x) end.
  assert (H0 : forall f, (forall n, addr_of (f n) = addr_of n) -> (forall n, nm_last_counter (f n) = nm_last_counter n) ->
    forall s, tracks p (on_nodes (alter f i) s) = tracks p s) by (intros; apply tracks_nodes; by apply lane_alter).
  destruct (has_flag _ _); [|destruct (negb _); [|by apply H0]];
    match goal with |- context [issue ?k ?op None ?x] => destruct (issue k op None x) as [s1 [r|]] eqn:E; apply issue_pair_tracks in E;
      rewrite ?H0 by done; rewrite E; unfold s0; calm; by apply H0 end.
Qed.
Lemma on_shell_chunk_tracks a c s : tracks p (on_shell_chunk a c s) = tracks p s.
Proof.
  unfold on_shell_chunk. destruct (position _ _) as [i|]; [|done]. cbv zeta. destruct (index_where _ _) as [pi|]; [|by calm].
  match goal with |- context [on_pending i (alter (fun p => set_progress p (Some (tick (fst ?x))) _ _ _) pi) ?x] => set (s1 := x) end.
  assert (H1 : tracks p s1 = tracks p s) by (unfold s1; destruct (_ !! pi) as [q|]; [|done]; destruct (ps_queued q); by calm).
  clearbody s1. rewrite <- H1. case_match; [|by calm]. destruct (chunk_last c); by calm.
Qed.
Lemma on_node_msg_tracks a counter data s : tracks p (on_node_msg a counter data s) = tracks p s.
Proof. unfold on_node_msg. destruct (decode_node_msg data) as [[]|[]]; first [apply on_node_info_tracks | apply on_shell_chunk_tracks | by calm]. Qed.

(** ** Moving the lane *)

Definition held_ok (l : list HeldUplink) : Prop := Forall (fun u => u32_ok (hu_src u)) l.
(** Publishing counters, each past the one before. *)
Definition moves (s s' : St) : Prop :=
  prefix (fst s') = prefix (fst s) /\ (held_ok (held (fst s)) -> held_ok (held (fst s')))
  /\ exists cs, published p (snd s') = published p (snd s) ++ cs /\ advance (lane (nodes (fst s))) cs = Some (lane (nodes (fst s'))).
Lemma advance_app last a b mid : advance last a = Some mid -> advance last (a ++ b) = advance mid b.
Proof.
  revert last. induction a as [|c a IH]; intros last H; cbn [advance app] in *; [by injection H as ->|]. destruct (match last with Some _ => _ | None => _ end); [by apply IH | done].
Qed.
Lemma tracks_inv s s' : tracks p s' = tracks p s -> lane (nodes (fst s')) = lane (nodes (fst s)) /\ published p (snd s') = published p (snd s)
  /\ prefix (fst s') = prefix (fst s) /\ held (fst s') = held (fst s).
Proof. unfold tracks. by intros [= -> -> -> ->]. Qed.
Lemma moves_eq s s' : tracks p s' = tracks p s -> moves s s'.
Proof.
  unfold tracks. intros [= A B C D]. split; [done|]. split; [by rewrite D|]. exists []. rewrite app_nil_r, A. by split.
Qed.
Lemma moves_trans a b c : moves a b -> moves b c -> moves a c.
Proof.
  intros (A & B & cs & C & D) (A' & B' & cs' & C' & D'). split; [congruence|]. split; [auto|]. exists (cs ++ cs'). rewrite C', C, app_assoc. split; [done|].
  by rewrite (advance_app _ _ _ _ D).
Qed.
Lemma node_uplink_inj prefix a b : u32_ok a -> u32_ok b -> node_uplink prefix a = node_uplink prefix b -> a = b.
Proof.
  unfold node_uplink. intros Ha Hb E. apply app_inv_head, app_inv_head, app_inv_tail in E. by apply node_hex_inj.
Qed.
Lemma accept_uplink_moves u s : prefix (fst s) = p -> u32_ok src -> u32_ok (hu_src u) ->
  match find_node (hu_src u) (nodes (fst s)) with Some n => match nm_last_counter n with Some l => l < hu_counter u | None => True end | None => False end ->
  moves s (accept_uplink u s).
Proof.
  intros Hp Hs Hu Hn. unfold accept_uplink. cbv zeta. set (s1 := on_nodes _ s).
  set (s2 := on_engine _ s1). rewrite Hp. set (s3 := push _ (event _ s2)). set (s4 := push _ s3).
  assert (H1 : tracks p s3 = tracks p s2) by (unfold s3; by calm).
  assert (H2 : lane (nodes (fst s2)) = lane (nodes (fst s1))).
  { unfold s2, on_engine, touch_node. cbn [fst set_nodes nodes set_counts]. by apply lane_update. }
  assert (Hl : lane (nodes (fst s1)) = if src =? hu_src u then Some (hu_counter u) else lane (nodes (fst s))).
  { unfold s1, lane. cbn [on_nodes on_engine fst set_nodes nodes]. rewrite find_update by done. destruct (src =? hu_src u) eqn:E; [|done]. bool_hyps. rewrite E.
    by destruct (find_node (hu_src u) (nodes (fst s))). }
  eapply moves_trans; [|apply moves_eq, on_node_msg_tracks]. apply tracks_inv in H1 as (Hl3 & Hp3 & Hf3 & Hh3).
  unfold moves, s4, push. cbn [fst snd]. rewrite Hl3, H2, Hl, Hf3, Hh3. unfold published in *. rewrite omap_app, Hp3. split; [done|]. split; [done|]. cbn [omap list_omap uplink_of].
  destruct (src =? hu_src u) eqn:E; bool_hyps.
  - rewrite E, bool_decide_true by done. exists [hu_counter u]. split; [done|]. cbn [advance]. unfold lane. rewrite E.
    destruct (find_node (hu_src u) (nodes (fst s))) as [n|]; [|done]. cbn [mbind option_bind]. destruct (nm_last_counter n); [|done].
    by rewrite (proj2 (Z.ltb_lt _ _)) by done.
  - rewrite bool_decide_false; [|intros Et; by apply node_uplink_inj in Et]. exists []. by split.
Qed.
Lemma on_uplink_moves u s : prefix (fst s) = p -> u32_ok src -> u32_ok (hu_src u) -> moves s (on_uplink u s).
Proof.
  intros Hp Hs Hu. unfold on_uplink. destruct (find_node (hu_src u) (nodes (fst s))) as [n|] eqn:E.
  - destruct (nm_last_counter n) as [last|] eqn:El.
    + destruct (_ <=? last) eqn:Ec; [apply moves_eq; by calm|]. bool_hyps. apply accept_uplink_moves; try done. by rewrite E, El.
    + apply accept_uplink_moves; try done. by rewrite E, El.
  - destruct (negb _).
    + destruct (_ <? _); [|by apply moves_eq]. split; [done|]. split; [intros H; apply Forall_app; split; [done | by constructor]|].
      exists []. rewrite app_nil_r. by split.
    + apply moves_eq. unfold drop_unregistered, count_unregistered. destruct (List.find _ _) as [[a c]|]; destruct (strip_zeros _ _ =? 1); by calm.
Qed.
Lemma replay_held_moves l : forall s, prefix (fst s) = p -> u32_ok src -> held_ok l -> moves s (fold_left (fun s u => on_uplink u s) l s).
Proof.
  induction l as [|u l IH]; intros s Hp Hs Hl; cbn [fold_left]; [by apply moves_eq|]. inversion Hl as [|? ? Hu Hl']; subst.
  pose proof (on_uplink_moves u s Hp Hs Hu) as H. eapply moves_trans; [apply H|]. apply IH; [destruct H; congruence | done | done].
Qed.

(** *** A listing *)

Definition lists (fresh : list NodeEntry) : bool := existsb (fun x => ne_addr x =? src) fresh.
Lemma lane_find l : lane l = find_node src l ≫= nm_last_counter.
Proof. done. Qed.
Lemma merge_entry_lane updating old entry : let '(old', n) := merge_entry updating old entry in
  lane old' = lane old /\ addr_of n = ne_addr entry /\ (ne_addr entry = src -> nm_last_counter n = lane old).
Proof.
  unfold merge_entry. destruct (find_node (ne_addr entry) old) as [o|] eqn:E.
  - split; [|split].
    + apply lane_update; intros n; cbn; by destruct (existsb _ _).
    + unfold addr_of. cbn [nm_entry]. by destruct (existsb _ _).
    + intros He. unfold lane. by rewrite <- He, E.
  - split; [done|]. split; [done|]. intros He. unfold lane. by rewrite <- He, E.
Qed.
Lemma merge_entries_lane updating fresh : forall old next0 l0, lane old = l0 -> (find_node src next0 = None \/ lane next0 = l0) ->
  let '(old', next) := fold_left (fun '(old, next) entry => let '(old, n) := merge_entry updating old entry in (old, next ++ [n])) fresh (old, next0) in
  (find_node src next0 = None -> lists fresh = false -> find_node src next = None) /\ (lists fresh = true \/ find_node src next0 <> None -> lane next = l0).
Proof.
  induction fresh as [|x fresh IH]; intros old next0 l0 Ho Hn; cbn [fold_left].
  { split; [done|]. intros [H|H]; [done|]. by destruct Hn. }
  pose proof (merge_entry_lane updating old x) as H. destruct (merge_entry updating old x) as [old1 n]. destruct H as (A & B & C). rewrite Ho in *.
  assert (Hs : find_node src (next0 ++ [n]) = match find_node src next0 with Some m => Some m | None => if ne_addr x =? src then Some n else None end).
  { clear -B. induction next0 as [|m l IH]; cbn [app]; [rewrite find_cons, B; by destruct (_ =? _)|]. rewrite !find_cons. by destruct (addr_of m =? src). }
  specialize (IH old1 (next0 ++ [n]) l0 A). destruct (fold_left _ fresh (old1, next0 ++ [n])) as [old2 next2].
  assert (Hl : find_node src (next0 ++ [n]) = None \/ lane (next0 ++ [n]) = l0).
  { unfold lane. rewrite Hs. destruct (find_node src next0) as [m|] eqn:Em; [right; destruct Hn as [Hn|Hn]; [done | unfold lane in Hn; by rewrite Em in Hn]|].
    destruct (ne_addr x =? src) eqn:E; [|by left]. bool_hyps. right. by apply C. }
  destruct (IH Hl) as [D1 D2]. unfold lists in *. cbn [existsb]. split.
  - intros Hn0 Hf. apply orb_false_iff in Hf as [Hx Hf]. apply D1; [|done]. by rewrite Hs, Hn0, Hx.
  - intros Hc. apply D2. rewrite Hs. destruct (find_node src next0); [by right|]. destruct (ne_addr x =? src); [by right|]. left. by destruct Hc.
Qed.
Lemma merge_tracks fresh s : lists fresh = true \/ lane (nodes (fst s)) = None -> tracks p (merge_registry fresh s) = tracks p s.
Proof.
  intros H. unfold merge_registry, merge_entries.
  pose proof (merge_entries_lane (updating_nodes (pending_mgmt (fst s))) fresh (nodes (fst s)) [] (lane (nodes (fst s))) eq_refl ltac:(by left)) as Hm.
  destruct (fold_left _ fresh _) as [old next]. destruct Hm as [Hm1 Hm2]. cbv zeta. calm. rewrite tracks_each by (intros; by calm).
  rewrite tracks_fold by (intros; by calm). apply tracks_engine; [|done|done]. cbn [set_nodes nodes]. destruct (lists fresh) eqn:E.
  - apply Hm2. by left.
  - destruct H as [H|H]; [done|]. rewrite H. unfold lane. by rewrite Hm1.
Qed.

(** *** Answers *)

(** An answer that forgets the node's lane: its key added anew, its removal, a listing without it. *)
Definition forgets_op (op : OpKind.OpKind) (truncated : bool) (data : list Z) : bool :=
  match op with
  | OpKind.NodeAdd id _ | OpKind.NodeRemove id => id =? src
  | OpKind.NodeList => negb truncated && negb (lists (parse_records data))
  | _ => false
  end.
Lemma lane_delete l i n : l !! i = Some n -> addr_of n <> src -> lane (delete i l) = lane l.
Proof.
  unfold lane. revert i. induction l as [|m l IH]; intros [|i] H Hn; try done; cbn in H.
  - injection H as ->. change (delete 0%nat (n :: l)) with l. rewrite find_cons. by rewrite (proj2 (Z.eqb_neq _ _)) by done.
  - change (delete (S i) (m :: l)) with (m :: delete i l). rewrite !find_cons. destruct (addr_of m =? src); [done | by apply IH].
Qed.
Lemma on_paired_tracks j late s : tracks p (fst (on_paired j late s)) = tracks p s.
Proof. unfold on_paired. cbn [fst]. by calm. Qed.
Lemma reconcile_tracks d s : tracks p (reconcile_queue d s) = tracks p s.
Proof.
  unfold reconcile_queue. cbv zeta. set (s1 := each_node _ s). assert (H1 : tracks p s1 = tracks p s) by (apply tracks_each; intros; by calm).
  case_bool_decide; [done|]. calm. rewrite tracks_fold by (intros ? [? ?]; by calm). by calm.
Qed.
Lemma tracks_update a f s : (forall n, addr_of (f n) = addr_of n) -> a <> src -> tracks p (on_nodes (update_node a f) s) = tracks p s.
Proof.
  intros Hf Ha. apply tracks_nodes. unfold lane. rewrite find_update by done. by rewrite (proj2 (Z.eqb_neq _ _)) by done.
Qed.
Lemma on_mgmt_ok_moves q s : prefix (fst s) = p -> u32_ok src -> held_ok (held (fst s)) ->
  forgets_op (pm_op q) (pm_truncated q) (pm_data q) = false -> moves s (on_mgmt_ok q s).
Proof.
  intros Hp Hs Hh Hf. unfold on_mgmt_ok, forgets_op in *. destruct (pm_op q) as [| |a name|a|a|a| | |node [o|]| | |node| |]; try (apply moves_eq; by calm).
  - apply moves_eq. destruct (from_bytes (pm_data q)); by calm.
  - destruct (pm_truncated q); [clear Hf; apply moves_eq; cbv zeta; destruct (_ && _); by calm|]. cbn [negb andb] in Hf. apply negb_false_iff in Hf.
    cbv zeta. set (s0 := on_engine (fun e => set_list_gaps e 0) s). set (s1 := rpc_ok q _ (merge_registry _ s0)).
    assert (H1 : tracks p s1 = tracks p s) by (unfold s1; calm; rewrite merge_tracks by (by left); by calm).
    apply tracks_inv in H1 as (A & B & C & D). destruct (negb _); [|by apply moves_eq; unfold tracks; rewrite A, B, C, D].
    set (s2 := on_engine _ s1). rewrite D. eapply moves_trans; [|apply replay_held_moves; [by rewrite <- Hp, <- C | done | done]].
    split; [done|]. split; [intros _; constructor|]. exists []. rewrite app_nil_r. unfold s2. cbn [on_engine fst snd set_synced nodes]. by rewrite A, B.
  - apply moves_eq. bool_hyps. cbv zeta. calm. rewrite tracks_update by done. by calm.
  - bool_hyps. destruct (position a (nodes (fst s))) as [i|] eqn:Ep; apply moves_eq; calm; [|done].
    apply position_lookup in Ep as (n & Hn & Ha). apply tracks_nodes. apply (lane_delete _ i n); [done | congruence].
  - apply moves_eq. destruct (from_bytes (pm_data q)); by calm.
  - apply moves_eq. cbv zeta. set (s1 := if bool_decide (pairing_req (fst s) = Some (pm_req_id q)) then on_engine (fun e => set_pairing e None None) s else s).
    assert (H1 : tracks p s1 = tracks p s) by (unfold s1; case_bool_decide; by calm). rewrite <- H1. destruct (from_bytes (pm_data q)) as [j|].
    + pose proof (on_paired_tracks j false s1) as Hj. destruct (on_paired j false s1) as [s2 js]. by calm.
    + calm. case_bool_decide; by calm.
  - apply moves_eq. destruct (from_bytes (pm_data q)); [cbv zeta; destruct (position _ _)|]; by calm.
  - apply moves_eq. destruct (from_bytes (pm_data q)); by calm.
  - apply moves_eq. destruct (pm_truncated q); [done | apply reconcile_tracks].
  - apply moves_eq. cbv zeta. calm. destruct (position _ _); by calm.
Qed.
Lemma on_mgmt_refused_tracks q result e s : tracks p (on_mgmt_refused q result e s) = tracks p s.
Proof.
  unfold on_mgmt_refused. cbv zeta. destruct (pm_op q) as [| |a name|a|a|a| | |node [o|]| | |node| |]; try by calm. destruct (_ =? _); by calm.
Qed.
(** The input carries such an answer. *)
Definition forgets (input : Input) (e : Engine) : bool :=
  match input with
  | SerialFrame (SMgmt req_id result chunk last data) =>
      match index_where (fun p => pm_req_id p =? req_id) (pending_mgmt e) ≫= (fun i => pending_mgmt e !! i) with
      | Some q => last && (result =? MGMT_OK) && forgets_op (pm_op q) (pm_truncated (add_chunk q chunk data)) (pm_data q ++ data)
      | None => false
      end
  | _ => false
  end.
Lemma on_mgmt_chunk_moves req_id result chunk last data s : prefix (fst s) = p -> u32_ok src -> held_ok (held (fst s)) ->
  forgets (SerialFrame (SMgmt req_id result chunk last data)) (fst s) = false -> moves s (on_mgmt_chunk req_id result chunk last data s).
Proof.
  intros Hp Hs Hh Hf. unfold on_mgmt_chunk, forgets in *. destruct (index_where _ _) as [i|]; cbn [mbind option_bind] in Hf.
  - cbv zeta. set (s1 := on_engine (fun e => set_pending_mgmt e (alter _ i _)) s). assert (H1 : tracks p s1 = tracks p s) by done.
    destruct last; cbn [negb]; [|by apply moves_eq].
    assert (Hl : pending_mgmt (fst s1) !! i = (fun p => add_chunk p chunk data) <$> (pending_mgmt (fst s) !! i)) by (apply list_lookup_alter_eq).
    destruct (pending_mgmt (fst s) !! i) as [q|]; cbn [fmap option_fmap option_map] in Hl; rewrite Hl; [|by apply moves_eq].
    set (s2 := on_engine _ s1). assert (H2 : tracks p s2 = tracks p s) by done.
    eapply moves_trans; [apply (moves_eq _ s2 H2)|]. eapply moves_trans; [|apply moves_eq, tracks_send].
    unfold on_mgmt_done, mgmt_error_str. cbv zeta.
    assert (Hm : moves s2 (match (if result =? MGMT_OK then None else Some (if result =? MGMT_UNSUPPORTED then Unsupported
             else if result =? MGMT_BAD_ARG then BadArgument else if result =? MGMT_NOT_FOUND then NotFound else if result =? MGMT_FULL then CapacityExhausted
             else if result =? MGMT_BUSY then BusyDevice else if result =? MGMT_STORAGE then DeviceStorage else if result =? MGMT_TIMEOUT then WindowExpired
             else UnknownError)) with None => on_mgmt_ok (add_chunk q chunk data) s2 | Some error => on_mgmt_refused (add_chunk q chunk data) result error s2 end)).
    { destruct (result =? MGMT_OK); [|apply moves_eq, on_mgmt_refused_tracks]. apply on_mgmt_ok_moves; try done. }
    destruct (pm_truncated (add_chunk q chunk data)); [|done]. eapply moves_trans; [apply Hm|]. apply moves_eq. by calm.
  - apply moves_eq. destruct (last && _); [|done]. unfold on_late_pairing. destruct (negb _); [done|]. destruct (from_bytes data); [rewrite on_paired_tracks|]; by calm.
Qed.

(** ** Every input *)

Lemma on_shell_req_tracks node req s : tracks p (on_shell_req node req s) = tracks p s.
Proof.
  unfold on_shell_req. cbv zeta. destruct (forallb _ _); [by calm|]. destruct (_ <? _); [by calm|].
  destruct (encode_node_cmd _ _) as [env [n|]]; by calm.
Qed.
Lemma on_rpc_tracks req origin s : tracks p (on_rpc req origin s) = tracks p s.
Proof.
  unfold on_rpc, rpc_node_add, rpc_node_remove, rpc_node_rename, rpc_reveal_key, rpc_node_add_ota, rpc_pairing_cancel, rpc_queue_list, rpc_queue_drop, rpc_stats_config.
  cbv zeta.
  repeat match goal with |- context [if bool_decide (rq_op req = ?x) then _ else _] => destruct (bool_decide (rq_op req = x)) end;
    try (by calm); repeat case_match; try (by calm).
  - match goal with H : issue _ _ _ _ = _ |- _ => apply issue_pair_tracks in H as <- end. apply tracks_nodes. by apply lane_update.
  - by match goal with H : issue _ _ _ _ = _ |- _ => apply issue_pair_tracks in H as <- end.
  - match goal with H : issue_delayed ?k ?o ?r ?t s = _ |- _ => pose proof (issue_delayed_tracks k o r t s) as Hi; rewrite H in Hi end. by calm.
  - by match goal with H : issue_delayed ?k ?o ?r ?t s = _ |- _ => pose proof (issue_delayed_tracks k o r t s) as Hi; rewrite H in Hi end.
Qed.
Lemma time_out_tracks i s : tracks p (fst (time_out i s)) = tracks p s.
Proof. unfold time_out. destruct (_ !! _); [|done]. cbn [fst]. rewrite fail_op_tracks. destruct (is_pairing_open _); by calm. Qed.
Lemma on_tick_tracks s : tracks p (on_tick s) = tracks p s.
Proof.
  unfold on_tick. set (s0 := on_engine _ s). assert (H0 : tracks p s0 = tracks p s) by (by calm).
  assert (Hf : forall l a, tracks p (fst (fold_left (fun '(s, resync) i => let '(s, r) := time_out i s in (s, resync || r)) l a)) = tracks p (fst a)).
  { clear. induction l as [|i l IH]; intros [s b]; [done|]. cbn [fold_left]. rewrite IH. pose proof (time_out_tracks i s) as H. by destruct (time_out i s). }
  pose proof (Hf (expired_requests (fst s0)) (s0, false)) as H1. fold (time_out_all s0) in H1. destruct (time_out_all s0) as [s1 resync]. cbn [fst] in H1.
  cbv zeta. set (s2 := send_next_mgmt (if resync then sync_queue s1 else s1)).
  assert (H2 : tracks p s2 = tracks p s) by (unfold s2; rewrite tracks_send; destruct resync; unfold sync_queue; calm; by rewrite H1).
  set (s3 := if negb (registry_synced (fst s2)) && _ && _ then list_nodes s2 else s2). assert (H3 : tracks p s3 = tracks p s) by (unfold s3; destruct (_ && _); by calm).
  set (s4 := each_node _ s3). assert (H4 : tracks p s4 = tracks p s) by (unfold s4; rewrite tracks_each by (intros; by calm); done).
  destruct (pairing_until _), (_ =? 0); by calm.
Qed.
Lemma fail_unsent_tracks s : tracks p (fail_unsent_mgmt s) = tracks p s.
Proof.
  unfold fail_unsent_mgmt. destruct (List.partition _ _) as [unsent sent]. rewrite tracks_fold by (intros; by apply fail_op_tracks). by calm.
Qed.
(** An uplink's source is an address. *)
Definition input_ok (input : Input) : Prop := match input with SerialFrame (SUplink a _ _ _ _) => u32_ok a | _ => True end.
Lemma handle_moves input e : prefix e = p -> u32_ok src -> held_ok (held e) -> input_ok input -> forgets input e = false -> moves (e, []) (handle input e).
Proof.
  intros Hp Hs Hh Hi Hf. destruct input as [| |[name version session|line|a counter rssi lqi data|req_id result chunk last data|stat|count|]| | |topic data retain|[req|node req]|];
    cbn [handle on_serial].
  - apply moves_eq. cbv zeta. unfold link_event, sync_queue. by calm.
  - apply moves_eq. cbv zeta. rewrite fail_unsent_tracks. unfold link_event. by calm.
  - apply moves_eq. cbv zeta. calm. destruct (negb _); [|by calm]. calm. rewrite tracks_each by (intros; by calm). by calm.
  - apply moves_eq. by calm.
  - by apply on_uplink_moves.
  - by apply on_mgmt_chunk_moves.
  - apply moves_eq. unfold on_radio_stat. cbv zeta. destruct stat; [by calm|]. destruct (negb _); [|by calm]. unfold on_queue_outcome. destruct (position _ _); [|by calm].
    destruct (index_where _ _); [|by calm]. destruct (_ =? TX_DELIVERED); [by calm|]. destruct (_ =? TX_EXPIRED); [|by calm]. cbv zeta. unfold shell_error.
    case_match; by calm.
  - apply moves_eq. by calm.
  - apply moves_eq. by calm.
  - apply moves_eq. cbv zeta. unfold link_event, subscribe_all. calm. rewrite tracks_each by (intros; by calm). by calm.
  - apply moves_eq. cbv zeta. unfold link_event. destruct (mqtt_up e); by calm.
  - pose proof (on_mqtt_spec topic data retain e) as H. apply moves_eq. destruct (accepted topic data retain e) as [[req|[node req]]|].
    + rewrite H. cbn [run_command]. by rewrite on_rpc_tracks.
    + rewrite H. cbn [run_command]. by rewrite on_shell_req_tracks.
    + destruct H as (out & -> & Hout). unfold tracks. cbn [fst snd]. assert (published p out = []) as ->; [|done].
      unfold published. induction Hout as [|o out [[l ->]| ->] _ IH]; [done | by cbn | by cbn].
  - apply moves_eq, on_rpc_tracks.
  - apply moves_eq, on_shell_req_tracks.
  - apply moves_eq, on_tick_tracks.
Qed.
End Lane.

Section Promise.
Context `{SC : Schemas} `{CB : Cobs} `{CC : ConsoleCodec} `{RC : RadioCodec} `{MC : MgmtCodec} `{JS : Json}.

(** No input of the run forgets the node's lane. *)
Fixpoint keeps_lane (src : Z) (l : list Input) (e : Engine) : bool :=
  match l with
  | [] => true
  | i :: l => negb (forgets src i e) && keeps_lane src l (fst (handle i e))
  end.
Lemma run_moves src l : forall e, u32_ok src -> held_ok (held e) -> Forall input_ok l -> keeps_lane src l e = true -> moves src (prefix e) (e, []) (run l e).
Proof.
  induction l as [|i l IH]; intros e Hs Hh Hi Hk; cbn [run keeps_lane] in *; [by apply moves_eq|].
  inversion Hi as [|? ? Hi1 Hi2]; subst. apply andb_true_iff in Hk as [Hf Hk]. apply negb_true_iff in Hf.
  pose proof (handle_moves src (prefix e) i e eq_refl Hs Hh Hi1 Hf) as H. destruct (handle i e) as [e1 out1]. cbn [fst] in Hk.
  pose proof H as (A & B & cs & C & D). cbn [fst snd] in *. specialize (IH e1 Hs (B Hh) Hi2 Hk). rewrite A in IH. destruct (run l e1) as [e2 out2].
  destruct IH as (A' & B' & cs' & C' & D'). cbn [fst snd] in *. split; [cbn [fst]; congruence|]. split; [auto|]. exists (cs ++ cs'). cbn [fst snd]. split.
  - unfold published in *. rewrite omap_app. cbn [omap list_omap app] in *. by rewrite C, C'.
  - by rewrite (advance_app _ _ _ _ D).
Qed.
Lemma advance_sorted cs : forall last l', advance last cs = Some l' ->
  StronglySorted Z.lt cs /\ match last with Some l => Forall (fun c => l < c) cs | None => True end.
Proof.
  induction cs as [|c cs IH]; intros last l' H; cbn [advance] in H; [split; [constructor | by destruct last]|].
  destruct (match last with Some l => l <? c | None => true end) eqn:E; [|done]. destruct (IH _ _ H) as [A B]. split; [constructor; [done|]|].
  - by apply Forall_forall; intros x Hx; rewrite Forall_forall in B; apply B.
  - destruct last as [l|]; [|done]. bool_hyps. constructor; [done|]. eapply List.Forall_impl; [|apply B]. cbn. lia.
Qed.
(** C14. No recorded uplink is published twice: over any run in which the node's lane is not forgotten (its key is not added anew, it is
    neither removed nor missing from a listing), the counters published for it strictly increase and lie past the last one published
    before; so a frame the dongle accepts again after a reboot goes no further. Uplinks parked before the first listing are included. *)
Theorem published_counters_increase src l e : u32_ok src -> held_ok (held e) -> Forall input_ok l -> keeps_lane src l e = true ->
  let cs := published src (prefix e) (snd (run l e)) in
  StronglySorted Z.lt cs /\ match lane src (nodes e) with Some last => Forall (fun c => last < c) cs | None => True end.
Proof.
  intros Hs Hh Hi Hk. destruct (run_moves src l e Hs Hh Hi Hk) as (_ & _ & cs & C & D). cbn [fst snd] in *. cbn [published omap list_omap app] in C.
  rewrite C. by apply advance_sorted in D.
Qed.
End Promise.

Module Demo.
Definition heard (counter : Z) : Input := SerialFrame (SUplink 5 counter (-60) 40 [1; 2]).
(** Counters 7, 7 again, 9, 8: two are published. *)
Lemma published_counters_increase_witness : published 5 (prefix synced) (snd (run (map heard [7; 7; 9; 8]) synced)) = [7; 9]
  /\ StronglySorted Z.lt (published 5 (prefix synced) (snd (run (map heard [7; 7; 9; 8]) synced))).
Proof.
  split; [vm_compute; reflexivity|]. refine (proj1 (published_counters_increase 5 (map heard [7; 7; 9; 8]) synced _ _ _ _)).
  - vm_compute. split; discriminate.
  - assert (H : held synced = []) by (vm_compute; reflexivity). rewrite H. constructor.
  - repeat constructor; vm_compute; discriminate.
  - vm_compute. reflexivity.
Defined.
End Demo.
