(* ===== verification/GwNames.v ===== *)
(** Node names: what a client may call a node, what the gateway engine calls an unnamed one, and that a name
    finds its node. *)
From Stdlib Require Import Strings.String Finite.
From S2P Require Import Prelude Bytes Str Proto Cobs Fingerprint Msg Frame RadioEnv Mgmt GwTopics GwState GwEngine GwHandle GwCommand GwDemo GwMqtt.

#[local] Abbreviation str := (list Z).
#[local] Abbreviation St := (Engine * list Output)%type.

(** ** Automatic names *)

Lemma no_colon n : ~ In 58 (fmt_u32 n).
Proof.
  intros H. pose proof (digit_text_digits 10 10 n ltac:(lia)) as Ht. unfold digit_text in Ht. rewrite List.Forall_forall in Ht.
  destruct (Ht _ H) as (d & Hd & E). unfold digit_char in E. destruct (d <? 10) eqn:Ed; bool_hyps; lia.
Qed.
Lemma up_to_app b a s : ~ In b a -> up_to b (a ++ b :: s) = a.
Proof.
  induction a as [|c a IH]; intros H; cbn [app up_to]; [by rewrite Z.eqb_refl|].
  destruct (c =? b) eqn:E; bool_hyps; [subst; exfalso; apply H; by left|]. rewrite IH; [done|]. intros Hin. apply H. by right.
Qed.
Lemma auto_name_index kind n : reverse (up_to 58 (reverse (auto_name kind n))) = fmt_u32 n.
Proof.
  unfold auto_name. cbv zeta. change (lit ":" ++ fmt_u32 n) with ([58] ++ fmt_u32 n). rewrite !reverse_app, <- app_assoc. cbn [reverse rev_append app].
  rewrite up_to_app; [by rewrite reverse_involutive|]. intros H. apply (no_colon n). rewrite <- (reverse_involutive (fmt_u32 n)).
  apply list_elem_of_In, elem_of_reverse, list_elem_of_In. done.
Qed.
Lemma auto_name_inj kind m n : u32_ok m -> u32_ok n -> auto_name kind m = auto_name kind n -> m = n.
Proof.
  intros Hm Hn E. apply (f_equal (fun s => parse_u32 (reverse (up_to 58 (reverse s))))) in E. rewrite !auto_name_index, !parse_fmt_u32 in E by done.
  by injection E.
Qed.
Lemma boundary_below_spec s n : is_char_boundary s (Z.of_nat (boundary_below s n)) = true /\ (boundary_below s n <= n)%nat.
Proof.
  induction n as [|n [IH1 IH2]]; [split; [apply boundary_0 | done]|]. cbn [boundary_below]. destruct (is_char_boundary s (Z.of_nat (S n))) eqn:E; [by split|].
  split; [done | lia].
Qed.
Lemma auto_name_fits kind n : 1 <= zlen (auto_name kind n) <= MAX_NODE_NAME.
Proof.
  unfold auto_name. cbv zeta. pose proof (zlen_digits 10 10 n : zlen (fmt_u32 n) <= 10) as Hd. pose proof (zlen_nonneg (fmt_u32 n)).
  set (e := boundary_below _ _). pose proof (boundary_below_spec kind (Z.to_nat (Z.min (zlen kind) (sat_sub MAX_NODE_NAME (zlen (lit ":" ++ fmt_u32 n)))))) as [_ He].
  fold e in He. rewrite !zlen_app in *. change (zlen (lit ":")) with 1 in *. unfold MAX_NODE_NAME, sat_sub in *.
  assert (zlen (take e kind) <= Z.of_nat e) by (unfold zlen; rewrite length_take; lia). pose proof (zlen_nonneg (take e kind)). lia.
Qed.
Lemma auto_name_utf8 kind n : utf8 kind -> utf8 (auto_name kind n).
Proof.
  intros Hk. unfold auto_name. cbv zeta. set (e := boundary_below _ _). destruct (boundary_below_spec kind (Z.to_nat (Z.min (zlen kind) (sat_sub MAX_NODE_NAME (zlen (lit ":" ++ fmt_u32 n)))))) as [Hb _].
  fold e in Hb. apply utf8_app.
  - pose proof (utf8_slice kind 0 (Z.of_nat e) Hk ltac:(lia) (boundary_0 _) Hb) as H. unfold slice in H. rewrite Z.sub_0_r, Nat2Z.id in H. by rewrite drop_0 in H.
  - apply ascii_utf8. change (lit ":" ++ fmt_u32 n) with (58 :: fmt_u32 n). constructor; [lia|]. pose proof (digit_text_digits 10 10 n ltac:(lia)) as Ht. eapply List.Forall_impl; [|apply Ht].
    intros b (d & Hd & ->). unfold digit_char. destruct (d <? 10); lia.
Qed.
Definition in_use (kind : str) (used : list str) (n : Z) : bool := existsb (fun u => bool_decide (u = auto_name kind n)) used.
Lemma in_use_In kind used n : in_use kind used n = true <-> In (auto_name kind n) used.
Proof.
  unfold in_use. rewrite existsb_exists. split; [intros (u & Hu & E); by apply bool_decide_eq_true in E as <- | intros H; eexists; split; [apply H | by apply bool_decide_true]].
Qed.
(** The first index free among the next [fuel], or the one after them. *)
Lemma find_name_spec kind used fuel : forall n, exists k, find_name fuel kind used n = auto_name kind k /\ n <= k <= n + Z.of_nat fuel
  /\ (forall m, n <= m < k -> In (auto_name kind m) used) /\ (k < n + Z.of_nat fuel -> ~ In (auto_name kind k) used).
Proof.
  induction fuel as [|fuel IH]; intros n; cbn [find_name].
  - exists n. split; [done|]. split; [lia|]. split; intros; lia.
  - fold (in_use kind used n). destruct (in_use kind used n) eqn:E.
    + destruct (IH (n + 1)) as (k & A & B & C & D). exists k. split; [done|]. split; [lia|]. split; [|intros; apply D; lia].
      intros m Hm. destruct (decide (m = n)) as [->|]; [by apply in_use_In | apply C; lia].
    + exists n. split; [done|]. split; [lia|]. split; [intros; lia|]. intros _ H. apply in_use_In in H. congruence.
Qed.
(** An unnamed node gets a name of its own: the search over [kind:0], [kind:1], ... ends within as many tries as there are names, on
    the smallest index free, and the name is none of those in use, at most [MAX_NODE_NAME] bytes and valid UTF-8 for a kind that is. *)
Theorem automatic_name_is_free kind used : zlen used < u32_max ->
  let name := find_name (length used) kind used 0 in
  ~ In name used /\ 1 <= zlen name <= MAX_NODE_NAME /\ (utf8 kind -> utf8 name)
  /\ exists n, 0 <= n <= zlen used /\ name = auto_name kind n /\ forall m, 0 <= m < n -> In (auto_name kind m) used.
Proof.
  intros Hu name. destruct (find_name_spec kind used (length used) 0) as (k & A & B & C & D). fold name in A. fold (zlen used) in B, D.
  assert (Hfree : ~ In name used).
  { rewrite A. destruct (decide (k < zlen used)) as [Hk|Hk]; [apply D; lia|]. intros Hin. assert (k = zlen used) as -> by lia.
    set (f := fun i : nat => auto_name kind (Z.of_nat i)).
    assert (Hnd : List.NoDup (map f (List.seq 0 (S (length used))))).
    { apply Injective_map_NoDup_in; [|apply List.seq_NoDup]. intros i j Hi Hj E. apply in_seq in Hi, Hj. unfold zlen in Hu.
      apply auto_name_inj in E; [lia | unfold u32_ok; lia | unfold u32_ok; lia]. }
    assert (Hincl : incl (map f (List.seq 0 (S (length used)))) used).
    { intros x Hx. apply in_map_iff in Hx as (i & <- & Hi). apply in_seq in Hi. unfold f, zlen in *.
      destruct (decide (i = length used)) as [->|]; [done | apply C; lia]. }
    pose proof (NoDup_incl_length Hnd Hincl) as Hl. rewrite length_map, List.length_seq in Hl. lia. }
  split; [done|]. rewrite A. split; [apply auto_name_fits|]. split; [apply auto_name_utf8|]. exists k. split; [lia|]. split; [done|]. intros m Hm. apply C. lia.
Qed.

(** ** Names given *)

(** What [check_name] takes: exactly the names of 1 to [MAX_NODE_NAME] bytes of printable text that do not read as an address and that
    no other node has. *)
Theorem check_name_spec name addr e : check_name name addr e = None <->
  1 <= zlen name <= MAX_NODE_NAME /\ printable_name name = true /\ parse_node_hex name = None
  /\ forall n, In n (nodes e) -> addr_of n <> addr -> ne_name (nm_entry n) <> name.
Proof.
  unfold check_name. pose proof (zlen_nonneg name). case_bool_decide as Hn; cbn [orb].
  { subst. split; [done|]. intros ((H1 & _) & _). by rewrite zlen_nil in H1. }
  assert (0 < zlen name) by (destruct name; [done|]; rewrite zlen_cons; pose proof (zlen_nonneg name); lia).
  destruct (_ <? zlen name) eqn:El; bool_hyps; [split; [done | intros ((_ & H1) & _); lia]|].
  destruct (printable_name name); cbn [negb]; [|split; [done | by intros (_ & ? & _)]].
  case_bool_decide as Hp; [split; [done | by intros (_ & _ & ? & _)]|].
  destruct (List.find _ _) as [o|] eqn:Ef.
  - split; [done|]. intros (_ & _ & _ & H1). apply List.find_some in Ef as [Hin E]. unfold has_addr, named in E. bool_hyps.
    by destruct (H1 o Hin).
  - split; [intros _|done]. split_and!; try done; [lia|]. intros n Hin Ha E. pose proof (List.find_none _ _ Ef n Hin) as Hf. cbn beta in Hf.
    unfold has_addr, named in Hf. rewrite bool_decide_true, (proj2 (Z.eqb_neq _ _)) in Hf by done. done.
Qed.
Lemma find_named name a l : (exists n, In n l /\ ne_name (nm_entry n) = name) -> (forall n, In n l -> ne_name (nm_entry n) = name -> addr_of n = a) ->
  option_map addr_of (List.find (named name) l) = Some a.
Proof.
  intros (n & Hin & Hn) H. destruct (List.find (named name) l) as [m|] eqn:E.
  - apply List.find_some in E as [Hm E]. unfold named in E. bool_hyps. cbn. f_equal. by apply H.
  - pose proof (List.find_none _ _ E n Hin) as Hf. unfold named in Hf. by rewrite bool_decide_true in Hf.
Qed.
Lemma update_node_In a f l n : In n (update_node a f l) -> In n l \/ exists m, In m l /\ addr_of m = a /\ n = f m.
Proof.
  induction l as [|m l IH]; [done|]. cbn [update_node]. destruct (addr_of m =? a) eqn:E; bool_hyps.
  - intros [<-|H]; [right; exists m; split; [by left | done] | left; by right].
  - intros [<-|H]; [left; by left|]. destruct (IH H) as [|(x & A & B & C)]; [left; by right | right; exists x; split; [by right | done]].
Qed.
Lemma update_node_has a f l n : find_node a l = Some n -> In (f n) (update_node a f l).
Proof.
  unfold find_node. induction l as [|m l IH]; [done|]. cbn [List.find update_node]. destruct (addr_of m =? a); [intros [= ->]; by left | intros H; right; by apply IH].
Qed.

Section Rename.
Context `{SC : Schemas} `{CB : Cobs} `{CC : ConsoleCodec} `{RC : RadioCodec} `{MC : MgmtCodec} `{JS : Json}.

Lemma send_nodes s : nodes (fst (send_next_mgmt s)) = nodes (fst s).
Proof. unfold send_next_mgmt. destruct (existsb _ _); [done|]. by destruct (send_first _ _) as [[]|]. Qed.
Lemma issued_nodes kind op rpc s s' r : issue kind op rpc s = (s', Some r) -> nodes (fst s') = nodes (fst s).
Proof.
  unfold issue, issue_delayed, issue_with. destruct (negb _); [done|]. destruct (encode_mgmt _ _ _); [|done]. intros [= <- _]. by rewrite send_nodes.
Qed.
(** A rename takes: once the request is queued, the new name finds the renamed node in every command, at once and whatever the names
    of the other nodes, and the node is no longer unnamed, so its next heartbeat does not auto-name it. *)
Theorem rename_takes me params id name e s' r params' :
  node_param params e = Some id -> str_param "name" params = Some name -> check_name name id e = None ->
  (exists n, find_node id (nodes e) = Some n
    /\ issue (OpKind.NodeUpdate id) (Msg.NodeUpdate id (Some (to_string name)) (Some (Z.land (ne_flags (nm_entry n)) (255 - NODE_FLAG_UNNAMED)))) (Some me) (e, []) = (s', Some r)) ->
  str_param "addr" params' = Some name ->
  let e' := fst (rpc_node_rename me params (e, [])) in
  node_param params' e' = Some id
  /\ exists n, find_node id (nodes e') = Some n /\ ne_name (nm_entry n) = name /\ has_flag (ne_flags (nm_entry n)) NODE_FLAG_UNNAMED = false.
Proof.
  intros Hid Hname Hc (n & Hn & Hi) Hp e'. pose proof (issued_nodes _ _ _ _ _ _ Hi) as Hs.
  set (flags := Z.land (ne_flags (nm_entry n)) (255 - NODE_FLAG_UNNAMED)) in *.
  set (f := fun n => set_entry n (set_name_flags (nm_entry n) name flags)).
  assert (He : nodes e' = update_node id f (nodes e)).
  { unfold e', rpc_node_rename. cbn [fst]. rewrite Hid. cbn [mbind option_bind]. rewrite Hn. cbn [option_map]. rewrite Hname, Hc. fold flags. rewrite Hi.
    cbn [on_nodes on_engine fst set_nodes nodes]. by rewrite Hs. }
  apply check_name_spec in Hc as (_ & _ & Hx & Ho). split.
  - unfold node_param. rewrite Hp, Hx, He. apply find_named; [exists (f n); split; [by apply update_node_has | done]|].
    intros m Hm Hnm. apply update_node_In in Hm as [Hm|(x & Hx' & Ha & ->)]; [|done].
    destruct (decide (addr_of m = id)) as [|Hne]; [done|]. by destruct (Ho m Hm Hne).
  - exists (f n). split_and!; [|done|].
    + rewrite He. clear -Hn. unfold find_node in *. induction (nodes e) as [|m l IH]; [done|]. cbn [List.find update_node] in *. destruct (addr_of m =? id) eqn:E.
      * injection Hn as ->. cbn [List.find]. unfold f. change (addr_of (set_entry n _)) with (addr_of n). by rewrite E.
      * cbn [List.find]. rewrite E. by apply IH.
    + unfold has_flag. cbn [f set_entry set_name_flags nm_entry ne_flags]. unfold flags. rewrite <- Z.land_assoc. change (Z.land (255 - NODE_FLAG_UNNAMED) NODE_FLAG_UNNAMED) with 0.
      by rewrite Z.land_0_r.
Qed.
End Rename.

Module Demo.
Definition taken : list str := [lit "push-button:0"; lit "push-button:2"].
Lemma automatic_name_is_free_witness : find_name (length taken) (lit "push-button") taken 0 = lit "push-button:1"
  /\ ~ In (find_name (length taken) (lit "push-button") taken 0) taken.
Proof. split; [vm_compute; reflexivity|]. apply (automatic_name_is_free (lit "push-button") taken). vm_compute. reflexivity. Defined.
Definition garden : Value := JObj [(lit "addr", JStr (node_hex 5)); (lit "name", JStr (lit "garden"))].
Definition by_name : Value := JObj [(lit "addr", JStr (lit "garden"))].
Definition me : RpcRef := {| ref_id := lit "r1"; ref_origin := FromMqtt |}.
Lemma rename_takes_witness : node_param by_name synced = None /\ node_param by_name (fst (rpc_node_rename me garden (synced, []))) = Some 5.
Proof.
  split; [vm_compute; reflexivity|].
  set (q := issue (OpKind.NodeUpdate 5) (Msg.NodeUpdate 5 (Some (to_string (lit "garden"))) (Some 0)) (Some me) (synced, [])).
  assert (Hq : snd q = Some 3) by (vm_compute; reflexivity). destruct q as [s' r] eqn:E. cbn [snd] in Hq. subst r.
  refine (proj1 (rename_takes me garden 5 (lit "garden") synced s' 3 by_name _ _ _ _ _)); try (vm_compute; reflexivity).
  destruct (find_node 5 (nodes synced)) as [n|] eqn:En; [|vm_compute in En; discriminate]. exists n. split; [done|].
  assert (Hf : Z.land (ne_flags (nm_entry n)) (255 - NODE_FLAG_UNNAMED) = 0) by (vm_compute in En; injection En as <-; reflexivity).
  rewrite Hf. apply E.
Defined.
End Demo.
