(* ===== verification/GwMirror.v ===== *)
(** The gateway engine's mirror of the registry: a listing replaces it, and what only the host knows stays. *)
From Stdlib Require Import Strings.String.
From S2P Require Import Prelude Bytes Str Proto Cobs Fingerprint Msg Frame RadioEnv Mgmt GwTopics GwState GwEngine GwHandle GwCommand GwDemo GwMqtt GwRpc GwReplay.

#[local] Abbreviation St := (Engine * list Output)%type.

(** The row of a listed node: the device's entry, its name and flags the mirror's while an update of them is
    unanswered, and the host's own knowledge of the node. *)
Definition adopt (updating : bool) (old : option NodeMirror) (entry : NodeEntry) : NodeMirror :=
  match old with
  | Some o =>
      {| nm_entry := if updating then set_name_flags entry (ne_name (nm_entry o)) (ne_flags (nm_entry o)) else entry;
         nm_kind := nm_kind o; nm_session_id := nm_session_id o; nm_pending := nm_pending o; nm_last_counter := nm_last_counter o |}
  | None => {| nm_entry := entry; nm_kind := []; nm_session_id := None; nm_pending := []; nm_last_counter := None |}
  end.
Definition adopt_all (updating : list Z) (old : list NodeMirror) (fresh : list NodeEntry) : list NodeMirror :=
  map (fun x => adopt (existsb (Z.eqb (ne_addr x)) updating) (find_node (ne_addr x) old) x) fresh.

Lemma merge_entry_adopt updating old x : let '(old', n) := merge_entry updating old x in
  n = adopt (existsb (Z.eqb (ne_addr x)) updating) (find_node (ne_addr x) old) x
  /\ forall a, a <> ne_addr x -> find_node a old' = find_node a old.
Proof.
  unfold merge_entry, adopt. destruct (find_node (ne_addr x) old) as [o|]; [|done]. split; [done|]. intros a Ha. rewrite find_update by (intros; by destruct (existsb _ _)).
  by rewrite (proj2 (Z.eqb_neq _ _)) by done.
Qed.
Lemma merge_entries_adopt updating fresh : forall old0 old next0, List.NoDup (map ne_addr fresh) ->
  (forall x, In x fresh -> find_node (ne_addr x) old = find_node (ne_addr x) old0) ->
  snd (fold_left (fun '(old, next) entry => let '(old, n) := merge_entry updating old entry in (old, next ++ [n])) fresh (old, next0))
    = next0 ++ adopt_all updating old0 fresh.
Proof.
  induction fresh as [|x fresh IH]; intros old0 old next0 Hn Hf; cbn [fold_left adopt_all map]; [by rewrite app_nil_r|].
  inversion Hn as [|? ? Hx Hn']; subst. pose proof (merge_entry_adopt updating old x) as H. destruct (merge_entry updating old x) as [old1 n].
  destruct H as [-> H]. rewrite (IH old0 old1), <- app_assoc; [|done|].
  - cbn [app]. by rewrite (Hf x (or_introl eq_refl)).
  - intros y Hy. rewrite H; [by apply Hf; right|]. intros E. apply Hx. rewrite <- E. by apply in_map.
Qed.

Section Mirror.
Context `{SC : Schemas} `{CB : Cobs} `{CC : ConsoleCodec} `{RC : RadioCodec} `{MC : MgmtCodec} `{JS : Json}.

Lemma node_gone_fst a l s : fst (node_gone a l s) = fst s.
Proof.
  unfold node_gone. cbn [fold_left push fst]. induction l as [|q l IH] in s |- *; [done|]. unfold shell_errors in *. cbn [fold_left]. by rewrite IH.
Qed.
Lemma fold_fst {A} (f : St -> A -> St) l : (forall s x, fst (f s x) = fst s) -> forall s, fst (fold_left f l s) = fst s.
Proof. intros H. induction l as [|x l IH]; intros s; [done|]. cbn [fold_left]. by rewrite IH, H. Qed.
(** A listing replaces the mirror: when the dongle lists each node once, the mirror holds exactly the nodes listed, in order, each with
    the device's entry, except that a name and flags whose update is unanswered stay the mirror's; a node kept keeps its kind, session,
    open dialogs and last counter, and a new one starts with none. *)
Theorem listing_replaces_mirror fresh s : List.NoDup (map ne_addr fresh) ->
  nodes (fst (merge_registry fresh s)) = adopt_all (updating_nodes (pending_mgmt (fst s))) (nodes (fst s)) fresh.
Proof.
  intros Hn. unfold merge_registry, merge_entries.
  pose proof (merge_entries_adopt (updating_nodes (pending_mgmt (fst s))) fresh (nodes (fst s)) (nodes (fst s)) [] Hn (fun _ _ => eq_refl)) as H.
  destruct (fold_left _ fresh _) as [old next]. cbn [snd app] in H. cbv zeta.
  change (fst (emit_registry ?x)) with (fst x). unfold each_node. rewrite fold_fst by (intros t i; unfold publish_node; by destruct (_ !! _)).
  rewrite fold_fst by (intros; apply node_gone_fst). done.
Qed.
End Mirror.

Module Demo.
Definition two_nodes : list NodeEntry :=
  map (fun a => {| ne_addr := a; ne_name := lit "n"; ne_flags := 0; ne_last_seen := 0; ne_rssi := 0; ne_uplinks := 0; ne_queued := 0 |}) [6; 5].
Definition at_rest : St := (synced, []).
Lemma listing_replaces_mirror_witness : map addr_of (nodes (fst (merge_registry two_nodes at_rest))) = [6; 5]
  /\ nodes (fst (merge_registry two_nodes at_rest)) = adopt_all (updating_nodes (pending_mgmt (fst at_rest))) (nodes (fst at_rest)) two_nodes.
Proof.
  split; [vm_compute; reflexivity|]. apply (listing_replaces_mirror two_nodes at_rest). repeat constructor; cbn; intros H; repeat destruct H as [H|H]; done.
Defined.
End Demo.
